(* ===== verification/_CoqProject ===== *)
-Q . S2P
Prelude.v
GoStrings.v
GoStrconv.v
GoSort.v
GoPath.v
NetAddr.v
Policy.v
Flows.v
Runtime.v
Sniff.v
SessionWire.v
SessionModes.v
SessionHolder.v
Agent.v
GoTime.v
ConfigPaths.v
ConfigPorts.v
ConfigChecks.v
Config.v
Resolve.v
Dns.v
Sntp.v
LogFile.v
BrokerMain.v
GuestProc.v
ExecLog.v
GuestSys.v
GitConfig.v
HostFS.v
StateErr.v
Vm.v
VmHost.v
VmShares.v
VmRun.v
VmReload.v
Detach.v
Profile.v
SecretCache.v
AtomicFile.v
Accounts.v
GuestSecrets.v
GitProtect.v
GitProtectSpec.v
GitCopy.v
PathNames.v
Snapshots.v
SnapshotsSpec.v
Prog.v
GuestCalls.v
GuestMounts.v
GuestLive.v
GuestBoot.v
GuestBootSpec.v
HostCalls.v
VmProc.v
VmFlow.v
VmLab.v
VmFlowSpec.v
VmGuard.v
Concur.v
ImageLocks.v
Migrate.v
MigrateRun.v
ImagePrune.v
Sessions.v
SessionsSpec.v
Dockerfiles.v
DockerBuild.v
DockerBuildSpec.v
TreeOps.v
GuestData.v
GuestDataSpec.v
TarExtract.v
CaBundle.v
Utf8.v
InspectFmt.v
StartupStatus.v
Tail.v
AddrText.v
VmPolicy.v
