(* ===== verification/Prelude.v ===== *)
(** * jailoc: a verification development

    jailoc runs a coding agent in a virtual machine of its own. The host side
    ([src/internal/cmd], [config], [workspace], [docker], [vm]) reads a configuration,
    prepares what a workspace may see and starts a supervisor; the supervisor starts
    the network broker ([src/internal/netbroker], [brokerproc]) and boots the VM behind it;
    the guest's init ([src/internal/guest]) mounts what the host shared and serves
    sessions of the agent. This library models these parts from their Go source and
    proves what they promise each other. A Go function becomes a function of the same
    name; an error becomes [Err] of [result]; a loop becomes a fold, a structural
    recursion or a recursion with fuel; a struct becomes a record.

    ** How effects are modelled

    - Pure code (parsers, checks, decisions): functions into [result] or [option].
    - Methods that change a receiver or a directory tree and may fail: [op] of [StateErr],
      whose assertion [post] speaks of the state also after an error.
    - Flows that call the system, other processes or other components: [prog] of [Prog], a
      tree of calls over an interface ([GuestCalls], [HostCalls], or one of the file
      itself). [exec] runs a program against an environment that answers from the history
      of calls; [safe] is the program logic over all answers. The theorems on programs
      hold whatever the environment answers, unless they name an assumption.
    - Goroutines and processes that run at the same time: transition systems whose steps
      are the atomic operations of one of them ([Flows], [SessionHolder], [Profile],
      [SecretCache], [AtomicFile]), or programs whose calls interleave in one world, with
      rely and guarantee ([Concur], used by [ImageLocks] and [SessionsSpec]).

    ** The files

    Go's library, as far as the source uses it: [GoStrings] (strings, Unicode white
    space), [GoStrconv], [GoSort], [GoPath] (path/filepath), [GoTime], [NetAddr]
    (net/netip), [AddrText] (addresses printed and read back), [Utf8]; [PathNames] links path
    strings with lists of names.

    The network broker:
    - [Policy]: policy.go, policy_ipv6.go. [Decide] and its abstract policy [allowed].
    - [Flows]: flows.go and the parts of broker.go it calls, as interleaved steps.
    - [Runtime]: runtime.go, the reload of forwards and services.
    - [Dns]: services.go (DNS, DHCP). [Sniff]: sniff.go. [Sntp]: sntp/sntp.go. [LogFile]: logfile.go.
    - [BrokerMain]: cli.go and the reload and NIC of broker.go.

    Configuration and workspaces:
    - [ConfigPaths], [ConfigPorts], [ConfigChecks], [Config]: the package config.
    - [Agent]: agent/agent.go and opencodeplugins.go. [Resolve]: workspace/workspace.go.
    - [Migrate], [MigrateRun]: cmd/migrate_unix.go, the plan and the run.

    What the host prepares for a VM:
    - [HostFS]: the host's files, links, and [linkInside].
    - [VmShares]: the shared directories. [VmHost]: sizes, ports and the specification.
      [VmPolicy]: the policy file. [Vm]: vm/vm.go and workspace.go, the records.
    - [GitConfig], [GitProtect], [GitProtectSpec]: cmd/vmgit_unix.go. [GitCopy]:
      cmd/vmgitconfig_unix.go.
    - [Snapshots], [SnapshotsSpec]: cmd/vmsnapshots_unix.go. [TreeOps], [GuestData],
      [GuestDataSpec]: cmd/vmguestdata_unix.go. [TarExtract]: docker/volume.go.
    - [Profile]: cmd/vmprofile_unix.go. [SecretCache]: cmd/secrets.go and its lock and
      keyring. [CaBundle]: cmd/ca_bundle.go. [AtomicFile]: the writers of state files.
    - [Dockerfiles], [DockerBuild], [DockerBuildSpec]: the package docker and the image part
      of cmd/up.go. [ImagePrune]: vm/prune.go and docker/prune.go.

    The commands and the supervisor:
    - [HostCalls], [VmProc], [VmFlow]: up, reload, down, restart and the delivery of
      secrets of cmd/vmflow_unix.go, vmreload_unix.go and vmbackend_unix.go; [VmReload]: what a
      reload changes. [VmFlowSpec], [VmGuard], [ImageLocks]: what they guarantee; [VmLab]: a host
      for examples.
    - [VmRun]: [Run] of vm/vm.go, brokerproc and the flags of the broker.
    - [Detach], [StartupStatus], [Tail], [InspectFmt]: the terminal side of cmd.

    The guest:
    - [GuestCalls], [GuestMounts], [GuestLive], [GuestBoot], [GuestBootSpec]: init_linux.go,
      idmap_linux.go, rootfs_linux.go, live_linux.go, agent_linux.go, docker_linux.go,
      network_linux.go, memory_linux.go.
    - [Accounts], [GuestSecrets]: the account and the secrets of init_linux.go.
    - [GuestProc], [ExecLog], [GuestSys]: oom.go, execlog_linux.go, and the small services.
    - [SessionWire], [SessionModes], [SessionHolder], [Sessions], [SessionsSpec]: guest/session.

    ** What the theorems show

    - Network isolation, from the configuration to the socket: a workspace reaches exactly
      what it may ([VmPolicy.vmPolicy_reach], [Policy.Decide_allowed_iff]), no socket is opened
      before the policy allowed the flow ([Flows.dial_after_allow]), flows stay under their
      caps in every interleaving ([Flows.flow_cap]), a policy that cannot be reloaded closes
      ([BrokerMain.reload_fail_closed]), blocked names are not asked for
      ([Dns.resolve_no_blocked]), reloads reconcile ([Runtime.ApplyRuntime_reconciles]), and the
      file the host writes is one the broker accepts ([VmHost.broker_runtime_accepted]).
    - The order of the commands: a VM starts only after all checks ([VmGuard.up_guarded]),
      a reload is recorded once it is confirmed ([VmGuard.reload_confirmed]), state is
      deleted once nothing runs ([VmGuard.down_stops_first]), the marker of a build tells the
      truth ([VmFlowSpec.marker_honest]), images in use are kept ([ImageLocks.images_kept],
      [ImagePrune.prune_keeps]), broker and VM live and end together ([VmRun.Run_lifecycle]).
    - What the guest may touch: shares without links out of them
      ([VmShares.vmShares_spec]), protected repositories ([GitProtectSpec.gitProtection_complete]),
      copies without credentials ([GitCopy.gitConfigSnapshots_harmless]), snapshots
      ([SnapshotsSpec.vmSnapshots_spec]), and a boot that protects before a session starts
      ([GuestBootSpec.Init_guarded]).
    - Data: agent data is kept ([GuestDataSpec.vmGuestData_keeps]), a migration loses
      nothing ([MigrateRun.runMigrate_safe]), files are replaced atomically
      ([AtomicFile.atomic_replace]), a purge of secrets is final ([SecretCache.purge_final]).
    - Sessions and the terminal: one session per directory ([SessionsSpec.open_shares]), the
      output reaches the client once and in order ([SessionHolder.client_stream]), terminal
      modes are restored ([SessionModes.Replay_restores]), the status line is transparent
      ([StartupStatus.status_transparent]), logs print no terminal commands
      ([InspectFmt.inspect_shown]).
    - Round trips, equivalences and termination of the parsers and loops: in their files.

    ** Bounds and fuel

    Every recursion that is not structural has a fuel whose sufficiency is proved or
    immediate: [Policy.Decide_fuel] two calls ([Decide_fuel_enough]); [NetAddr.v6_loop] nine rounds
    (each adds a group, eight are the most); splitting, the Dockerfile rewriting and the
    PEM blocks use the length of the text; the Git scan and its includes use the depth
    and the number of protected entries, at which the code itself gives up
    ([GitProtectSpec.configFile_terminates]); link resolution stops at 255 links as the
    system does; copies of trees use the depth of the tree; [makeParents] uses the length of the path.
    Waiting loops have as many rounds as the deadline of the code has intervals (225 polls
    for a stop and one for the deadline, 6000 and one for a start, 150 and one for a reload,
    500 and one for a session, 150 and one for the exit of the guest), retried mounts 20, ID maps 40;
    the guest's poll loop and the log follower run for as many rounds as are given, and
    their theorems hold for every number. Machine integers wrap where the code computes
    with them; [int] values that stay small have an invariant that says so.

    ** Parameters and assumptions

    Code outside the repository is an argument: JSON, TOML, PEM and X.509, compose-go's volume
    parser, the DNS message parser, crypto/tls, Unicode tables beyond ASCII, the
    keychain, the Docker daemon and the kernel. Where a theorem relies on one of them the
    assumption is a named hypothesis (for instance that the JSON of a file is read back, that a
    lookup answers with addresses) and a witness instantiates it. Assumptions on the
    outside world: [ImageLocks] takes the file lock and the daemon as its world describes
    them; [SessionsSpec] takes it that entries can be read, that new session IDs are unused and
    that a process ID is not reused while its entry exists; [GuestData] and [TarExtract]
    take a link on the way of an operation as an error; [Tail] takes it that no rotation
    falls into a poll, and shows what happens when one does; [Profile] states its theorem for
    runs in which no two [up]s overlap, and shows what happens when two do.

    ** What is not modelled

    The cobra commands and entry points, tables and messages for the terminal, the relay of bytes between
    sockets, pipes and terminals, the unpacking of OCI images and of the runtime
    files, the Landlock and seccomp rules of the VMM, the update hint, embedded data
    and the stubs of other systems: they are input and output, generated data or calls
    of libraries with no decision of their own, and the flows that use them model
    them as one call. *)

From stdpp Require Export base tactics list strings gmap option numbers sets sorting.
From Stdlib Require Export Ascii ZArith Lia.
From Corelib Require Export ssreflect.

#[global] Set Default Proof Using "Type".
#[global] Set SsrOldRewriteGoalsOrder.

(** ** Errors as values *)

(** A Go call returning [(T, error)]: either the value or the error. *)
Inductive result (E A : Type) : Type :=
| Ok (a : A)
| Err (e : E).
Arguments Ok {E A} a.
Arguments Err {E A} e.

#[export] Instance result_ret E : MRet (result E) := λ A a, Ok a.
#[export] Instance result_bind E : MBind (result E) := λ A B f r,
  match r with Ok a => f a | Err e => Err e end.
#[export] Instance result_fmap E : FMap (result E) := λ A B f r,
  match r with Ok a => Ok (f a) | Err e => Err e end.

Definition is_ok {E A} (r : result E A) : bool :=
  match r with Ok _ => true | Err _ => false end.

(** [guard_err b e] is [if !b { return e }]. *)
Definition guard_err {E} (b : bool) (e : E) : result E unit :=
  if b then Ok () else Err e.

(** [opt_err o e] turns a missing value into the error [e]. *)
Definition opt_err {E A} (o : option A) (e : E) : result E A :=
  match o with Some a => Ok a | None => Err e end.

(** [rmap f l] runs a fallible function over a list, left to right, and
    stops at the first error: the shape of every [for _, x := range l] loop
    that returns on error. *)
Fixpoint rmap {E A B} (f : A → result E B) (l : list A) : result E (list B) :=
  match l with
  | [] => Ok []
  | x :: l' => y ← f x; ys ← rmap f l'; Ok (y :: ys)
  end.

(** [riter f l] is the same loop for its checks only. *)
Fixpoint riter {E A} (f : A → result E unit) (l : list A) : result E unit :=
  match l with
  | [] => Ok ()
  | x :: l' => _ ← f x; riter f l'
  end.

(** ** Automation *)

Create HintDb jailoc.

Lemma bind_Ok {E A B} (r : result E A) (f : A → result E B) (b : B) :
  (r ≫= f) = Ok b ↔ ∃ a, r = Ok a ∧ f a = Ok b.
Proof. destruct r; cbn; naive_solver. Qed.

Lemma bind_Err {E A B} (r : result E A) (f : A → result E B) (e : E) :
  (r ≫= f) = Err e ↔ r = Err e ∨ ∃ a, r = Ok a ∧ f a = Err e.
Proof. destruct r; cbn; naive_solver. Qed.

Lemma guard_err_Ok {E} (b : bool) (e : E) u : guard_err b e = Ok u ↔ b = true.
Proof. destruct b, u; cbn; naive_solver. Qed.

Lemma guard_err_Err {E} (b : bool) (e e' : E) :
  guard_err b e = Err e' ↔ b = false ∧ e' = e.
Proof. destruct b; cbn; naive_solver. Qed.

Lemma opt_err_Ok {E A} (o : option A) (e : E) a : opt_err o e = Ok a ↔ o = Some a.
Proof. destruct o; cbn; naive_solver. Qed.

(** [inv_res] opens every successful step of a monadic run in the context. *)
Ltac inv_res :=
  repeat match goal with
  | H : (_ ≫= _) = Ok _ |- _ => apply bind_Ok in H as (? & ? & ?)
  | H : guard_err _ _ = Ok _ |- _ => apply guard_err_Ok in H
  | H : opt_err _ _ = Ok _ |- _ => apply opt_err_Ok in H
  | H : Ok _ = Ok _ |- _ => injection H as H; try subst
  | H : Err _ = Ok _ |- _ => discriminate H
  | H : Ok _ = Err _ |- _ => discriminate H
  end.

(** [bdes] destructs the boolean tests of the goal and hypotheses. *)
Ltac bool_hyps :=
  repeat match goal with
  | H : _ && _ = true |- _ => apply andb_true_iff in H as [? ?]
  | H : _ || _ = false |- _ => apply orb_false_iff in H as [? ?]
  | H : negb _ = true |- _ => apply negb_true_iff in H
  | H : negb _ = false |- _ => apply negb_false_iff in H
  | H : bool_decide _ = true |- _ => apply bool_decide_eq_true_1 in H
  | H : bool_decide _ = false |- _ => apply bool_decide_eq_false_1 in H
  | H : (_ <=? _)%Z = true |- _ => apply Z.leb_le in H
  | H : (_ <=? _)%Z = false |- _ => apply Z.leb_gt in H
  | H : (_ <? _)%Z = true |- _ => apply Z.ltb_lt in H
  | H : (_ <? _)%Z = false |- _ => apply Z.ltb_ge in H
  | H : (_ =? _)%Z = true |- _ => apply Z.eqb_eq in H
  | H : (_ =? _)%Z = false |- _ => apply Z.eqb_neq in H
  | H : (_ =? _)%nat = true |- _ => apply Nat.eqb_eq in H
  | H : (_ =? _)%nat = false |- _ => apply Nat.eqb_neq in H
  | H : (_ <=? _)%nat = true |- _ => apply Nat.leb_le in H
  | H : (_ <=? _)%nat = false |- _ => apply Nat.leb_gt in H
  | H : (_ <? _)%nat = true |- _ => apply Nat.ltb_lt in H
  | H : (_ <? _)%nat = false |- _ => apply Nat.ltb_ge in H
  | H : String.eqb _ _ = true |- _ => apply String.eqb_eq in H
  | H : String.eqb _ _ = false |- _ => apply String.eqb_neq in H
  end.

(** [case_if] splits on the first [if] or [match] on a test in the goal. *)
Ltac case_if :=
  match goal with
  | |- context [if ?b then _ else _] => destruct b eqn:?
  end.

Lemma rmap_length {E A B} (f : A → result E B) l r :
  rmap f l = Ok r → length r = length l.
Proof.
  revert r. induction l as [|x l IH]; intros r H; cbn in H; inv_res; cbn; auto.
Qed.

Lemma rmap_Forall2 {E A B} (f : A → result E B) l r :
  rmap f l = Ok r ↔ Forall2 (λ a b, f a = Ok b) l r.
Proof.
  split.
  - revert r. induction l as [|x l IH]; intros r H; cbn in H; inv_res; constructor; auto.
  - induction 1 as [|a b l r Hab _ IH]; cbn; [done|]. by rewrite Hab /= IH.
Qed.

Lemma rmap_Forall {E A B} (f : A → result E B) (P : B → Prop) l r :
  (∀ a b, f a = Ok b → P b) → rmap f l = Ok r → Forall P r.
Proof.
  intros HP H%rmap_Forall2. induction H; constructor; eauto.
Qed.

Lemma riter_Ok {E A} (f : A → result E unit) l u :
  riter f l = Ok u ↔ Forall (λ a, f a = Ok ()) l.
Proof.
  destruct u. split.
  - induction l as [|x l IH]; cbn; intros H; inv_res; constructor; auto.
    match goal with u : unit |- _ => by destruct u end.
  - induction 1 as [|x l Hx _ IH]; cbn; [done|]. by rewrite Hx.
Qed.

(** ** Machine integers *)

Open Scope Z_scope.

(** The unsigned wrap-around of a [w]-bit integer. *)
Definition wrap (w x : Z) : Z := x mod 2 ^ w.
Definition u8 (x : Z) : Z := wrap 8 x.
Definition u16 (x : Z) : Z := wrap 16 x.
Definition u32 (x : Z) : Z := wrap 32 x.
Definition u64 (x : Z) : Z := wrap 64 x.
(** Two's complement reading of a [w]-bit integer. *)
Definition sext (w x : Z) : Z := let y := x mod 2 ^ w in if y <? 2 ^ (w - 1) then y else y - 2 ^ w.
Definition int32 (x : Z) : Z := sext 32 x.
Definition int64 (x : Z) : Z := sext 64 x.

Definition maxInt64 : Z := 9223372036854775807.
Definition minInt64 : Z := -9223372036854775808.

(** A byte of a Go [[]byte], kept as its value. *)
Definition is_byte (b : Z) : Prop := 0 ≤ b < 256.
Abbreviation bytes := (list Z).

Lemma wrap_small w x : 0 ≤ x < 2 ^ w → wrap w x = x.
Proof. intros. unfold wrap. by apply Z.mod_small. Qed.

Lemma wrap_range w x : 0 ≤ w → 0 ≤ wrap w x < 2 ^ w.
Proof. intros. unfold wrap. apply Z.mod_pos_bound. by apply Z.pow_pos_nonneg. Qed.

Lemma sext_id w x : 0 < w → - 2 ^ (w - 1) ≤ x < 2 ^ (w - 1) → sext w (wrap w x) = x.
Proof.
  intros Hw Hx. unfold sext, wrap.
  assert (0 < 2 ^ w) as Hpos by (apply Z.pow_pos_nonneg; lia).
  assert (2 ^ w = 2 * 2 ^ (w - 1)) as Hp.
  { pose proof (Z.pow_succ_r 2 (w - 1) ltac:(lia)) as Hs.
    by replace (Z.succ (w - 1)) with w in Hs by lia. }
  rewrite Zmod_mod.
  destruct (decide (0 ≤ x)) as [Hpx|Hneg].
  - rewrite Z.mod_small; [|lia]. destruct (Z.ltb_spec x (2 ^ (w - 1))); lia.
  - assert (x mod 2 ^ w = x + 2 ^ w) as ->.
    { symmetry. apply (Z.mod_unique _ _ (-1)); lia. }
    destruct (Z.ltb_spec (x + 2 ^ w) (2 ^ (w - 1))); lia.
Qed.

Lemma sext_id_range w x : 0 < w → - 2 ^ (w - 1) ≤ x < 2 ^ (w - 1) → sext w x = x.
Proof.
  intros Hw Hx. rewrite -{2}(sext_id w x Hw Hx). unfold sext, wrap. by rewrite Zmod_mod.
Qed.

(** Bit operations stay within the signed range. *)
Lemma signed_shiftr w x : 0 ≤ w → - 2 ^ w ≤ x < 2 ^ w ↔ Z.shiftr x w = 0 ∨ Z.shiftr x w = -1.
Proof.
  intros Hw. assert (0 < 2 ^ w) as Hp by (apply Z.pow_pos_nonneg; lia).
  rewrite Z.shiftr_div_pow2; [|done]. pose proof (Z.div_mod x (2 ^ w) ltac:(lia)) as Hd.
  pose proof (Z.mod_pos_bound x (2 ^ w) Hp) as Hm. split.
  - intros Hx. destruct (decide (0 ≤ x)).
    + left. apply Z.div_small. lia.
    + right. assert (-1 ≤ x / 2 ^ w < 0) as []; [|lia]. split.
      * apply Z.div_le_lower_bound; lia.
      * apply Z.div_lt_upper_bound; lia.
  - intros [E|E]; rewrite E in Hd; lia.
Qed.
Lemma signed_lor w a b : 0 ≤ w → - 2 ^ w ≤ a < 2 ^ w → - 2 ^ w ≤ b < 2 ^ w → - 2 ^ w ≤ Z.lor a b < 2 ^ w.
Proof.
  intros Hw. rewrite !signed_shiftr; [|done..]. rewrite Z.shiftr_lor.
  intros [->| ->] [->| ->]; cbn; auto.
Qed.
Lemma signed_ldiff w a b : 0 ≤ w → - 2 ^ w ≤ a < 2 ^ w → - 2 ^ w ≤ b < 2 ^ w → - 2 ^ w ≤ Z.ldiff a b < 2 ^ w.
Proof.
  intros Hw. rewrite !signed_shiftr; [|done..]. rewrite Z.shiftr_ldiff.
  intros [->| ->] [->| ->]; cbn; auto.
Qed.

(** ** Big-endian integers in byte slices *)

(** [be16 x], [be32 x]: [binary.BigEndian.AppendUint16/32]. *)
Definition be16 (x : Z) : bytes := [Z.shiftr (u16 x) 8; u8 x].
Definition be32 (x : Z) : bytes :=
  [Z.shiftr (u32 x) 24; u8 (Z.shiftr x 16); u8 (Z.shiftr x 8); u8 x].

(** [binary.BigEndian.Uint16/32] on the first bytes of a slice; out of range
    panics in Go, so the callers check the length first. *)
Definition rd16 (b : bytes) : Z :=
  match b with b0 :: b1 :: _ => b0 * 256 + b1 | _ => 0 end.
Definition rd32 (b : bytes) : Z :=
  match b with
  | b0 :: b1 :: b2 :: b3 :: _ => b0 * 2 ^ 24 + b1 * 2 ^ 16 + b2 * 2 ^ 8 + b3
  | _ => 0
  end.

Lemma length_be16 x : length (be16 x) = 2%nat.
Proof. done. Qed.
Lemma length_be32 x : length (be32 x) = 4%nat.
Proof. done. Qed.

Lemma rd16_be16 x rest : rd16 (be16 x ++ rest) = u16 x.
Proof.
  cbn. unfold u16, u8, wrap. rewrite !Z.shiftr_div_pow2; try lia.
  change (2 ^ 8) with 256. change (2 ^ 16) with 65536.
  Z.to_euclidean_division_equations. lia.
Qed.

Lemma rd32_be32 x rest : rd32 (be32 x ++ rest) = u32 x.
Proof.
  cbn. unfold u32, u8, wrap. rewrite !Z.shiftr_div_pow2; try lia.
  change (2 ^ 8) with 256. change (2 ^ 16) with 65536. change (2 ^ 32) with 4294967296.
  change (2 ^ 24) with 16777216. Z.to_euclidean_division_equations. lia.
Qed.

Lemma be32_bytes x : Forall is_byte (be32 x).
Proof.
  unfold be32, is_byte, u8, u32, wrap.
  assert (0 ≤ Z.shiftr (x mod 2 ^ 32) 24 < 256).
  { rewrite Z.shiftr_div_pow2; [|lia]. pose proof (Z.mod_pos_bound x (2 ^ 32) ltac:(lia)).
    split; [apply Z.div_pos; lia|]. apply Z.div_lt_upper_bound; lia. }
  repeat constructor; try lia; apply Z.mod_pos_bound; lia.
Qed.

Lemma be16_bytes x : Forall is_byte (be16 x).
Proof.
  unfold be16, is_byte, u8, u16, wrap.
  assert (0 ≤ Z.shiftr (x mod 2 ^ 16) 8 < 256).
  { rewrite Z.shiftr_div_pow2; [|lia]. pose proof (Z.mod_pos_bound x (2 ^ 16) ltac:(lia)).
    split; [apply Z.div_pos; lia|]. apply Z.div_lt_upper_bound; lia. }
  repeat constructor; try lia; apply Z.mod_pos_bound; lia.
Qed.

#[export] Hint Resolve be16_bytes be32_bytes : jailoc.

(** A decidable fact about bytes, checked on all of them. *)
Lemma byte_check (p : Z → bool) a :
  forallb p (map Z.of_nat (List.seq 0 256)) = true → is_byte a → p a = true.
Proof.
  intros H [? ?]. rewrite List.forallb_forall in H. apply H. apply in_map_iff. exists (Z.to_nat a).
  split; [lia|]. apply in_seq. lia.
Qed.

(** ** Lists *)

(** [slice b i j] is the Go slice [b[i:j]] for [i ≤ j ≤ len b]. *)
Definition slice {A} (b : list A) (i j : nat) : list A := take (j - i) (drop i b).
Lemma lookup_slice {A} (b : list A) i j k : (k < j - i)%nat → slice b i j !! k = b !! (i + k)%nat.
Proof. intros. unfold slice. rewrite lookup_take_lt; [|done]. by rewrite lookup_drop. Qed.

(** [blit i x b] is [copy(b[i:], x)] for an [x] that fits. *)
Definition blit {A} (i : nat) (x b : list A) : list A :=
  take i b ++ x ++ drop (i + length x) b.

Lemma length_blit {A} i (x b : list A) :
  (i + length x ≤ length b)%nat → length (blit i x b) = length b.
Proof. intros. unfold blit. rewrite !length_app length_take length_drop. lia. Qed.

Lemma slice_blit_same {A} i (x b : list A) :
  (i + length x ≤ length b)%nat → slice (blit i x b) i (i + length x) = x.
Proof.
  intros. unfold slice, blit.
  assert (length (take i b) = i) as Hi by (rewrite length_take; lia).
  rewrite drop_app_length'; [|done]. apply take_app_length'. lia.
Qed.

Lemma lookup_blit_ne {A} i (x b : list A) k :
  (i + length x ≤ length b)%nat → (k < i ∨ i + length x ≤ k)%nat → blit i x b !! k = b !! k.
Proof.
  intros Hlen Hk. unfold blit.
  assert (length (take i b) = i) as Hi by (rewrite length_take; lia).
  destruct Hk as [Hk|Hk].
  - rewrite lookup_app_l; [|lia]. by rewrite lookup_take_lt.
  - rewrite lookup_app_r; [|lia]. rewrite lookup_app_r; [|lia].
    rewrite lookup_drop. f_equal. lia.
Qed.

Lemma length_slice {A} (b : list A) i j : (j ≤ length b)%nat → length (slice b i j) = (j - i)%nat.
Proof. intros. unfold slice. rewrite length_take length_drop. lia. Qed.
Lemma slice_blit_ne {A} (b x : list A) i k j :
  (i + length x ≤ length b)%nat → (j ≤ i ∨ i + length x ≤ k)%nat → slice (blit i x b) k j = slice b k j.
Proof.
  intros Hl Hd. apply list_eq. intros n. destruct (decide (n < j - k)%nat) as [Hn|Hn].
  - rewrite !lookup_slice; [|done..]. apply lookup_blit_ne; [done|lia].
  - rewrite !lookup_ge_None_2; [done|..]; unfold slice; rewrite length_take; lia.
Qed.
Lemma slice_app_l {A} (b c : list A) i j : (j ≤ length b)%nat → slice (b ++ c) i j = slice b i j.
Proof.
  intros H. apply list_eq. intros n. destruct (decide (n < j - i)%nat) as [Hn|Hn].
  - rewrite !lookup_slice; [|done..]. apply lookup_app_l. lia.
  - rewrite !lookup_ge_None_2; [done|..]; unfold slice; rewrite length_take; lia.
Qed.

(** A map with decidable keys kept as an association list in first-seen
    order: the Go idiom of a slice of keys next to a map. *)
Definition dedup {A} `{EqDecision A} : list A → list A :=
  fix go l := match l with
  | [] => []
  | x :: l' => x :: filter (.≠ x) (go l')
  end.

Lemma elem_of_dedup {A} `{EqDecision A} (l : list A) x : x ∈ dedup l ↔ x ∈ l.
Proof.
  induction l as [|y l IH]; cbn; [done|].
  rewrite !elem_of_cons list_elem_of_filter IH. destruct (decide (x = y)); naive_solver.
Qed.

Lemma NoDup_dedup {A} `{EqDecision A} (l : list A) : NoDup (dedup l).
Proof.
  induction l as [|y l IH]; cbn; constructor.
  - rewrite list_elem_of_filter. naive_solver.
  - by apply NoDup_filter.
Qed.

(** ** Sums over a list of threads *)

(** [zsum f l]: how much the elements of [l] contribute in total. *)
Definition zsum {A} (f : A → Z) (l : list A) : Z := foldr (λ x s, f x + s) 0 l.

Lemma zsum_app {A} (f : A → Z) l k : zsum f (l ++ k) = zsum f l + zsum f k.
Proof. induction l as [|x l IH]; cbn; [done|]. unfold zsum in *. rewrite IH. lia. Qed.
Lemma zsum_insert {A} (f : A → Z) l i x y :
  l !! i = Some x → zsum f (<[i:=y]> l) = zsum f l - f x + f y.
Proof.
  revert i. induction l as [|z l IH]; intros [|i]; cbn; try done.
  - intros [= ->]. lia.
  - intros H. specialize (IH i H). unfold zsum in IH |- *. rewrite IH. lia.
Qed.
Lemma zsum_le {A} (f g : A → Z) l : (∀ x, f x ≤ g x) → zsum f l ≤ zsum g l.
Proof. intros H. induction l as [|x l IH]; cbn; [done|]. specialize (H x). unfold zsum in *. lia. Qed.
Lemma zsum_zero {A} (f : A → Z) l : Forall (λ x, f x = 0) l → zsum f l = 0.
Proof. induction 1 as [|x l Hx _ IH]; cbn; [done|]. unfold zsum in *. lia. Qed.
Lemma zsum_nonneg {A} (f : A → Z) l : (∀ x, 0 ≤ f x) → 0 ≤ zsum f l.
Proof. intros H. induction l as [|x l IH]; cbn; [done|]. specialize (H x). unfold zsum in *. lia. Qed.
Lemma zsum_elem {A} (f : A → Z) l i x : (∀ y, 0 ≤ f y) → l !! i = Some x → f x ≤ zsum f l.
Proof.
  intros Hf. revert i. induction l as [|y l IH]; intros [|i]; cbn; try done.
  - intros [= ->]. pose proof (zsum_nonneg f l Hf) as H. unfold zsum in *. lia.
  - intros H. specialize (IH i H). specialize (Hf y). unfold zsum in *. lia.
Qed.
#[global] Arguments zsum : simpl never.
Lemma zsum_one {A} (f : A → Z) x : zsum f [x] = f x.
Proof. unfold zsum. cbn. lia. Qed.

Lemma filter_ext_in {A} (P Q : A → Prop) `{∀ x, Decision (P x), ∀ x, Decision (Q x)} (l : list A) :
  (∀ x, x ∈ l → P x ↔ Q x) → filter P l = filter Q l.
Proof.
  induction l as [|x l IH]; intros H1; [done|]. rewrite !filter_cons IH; [|set_solver].
  pose proof (H1 x ltac:(set_solver)). repeat case_decide; tauto.
Qed.
