(* ===== verification/GoStrings.v ===== *)
(** * Go strings

    The part of Go's [strings], [strconv] and [path/filepath] the modelled
    packages use, on byte strings: a Go [string] is the [string] of its
    bytes. Unicode matters in two places and is written out there: white
    space ([TrimSpace], [Fields]) is matched as its UTF-8 encodings, and
    [ToLower] takes the table-driven mapping of non-ASCII text as an
    argument, used exactly where Go leaves its ASCII fast path. *)

From S2P Require Import Prelude.
Open Scope string_scope.
Open Scope list_scope.
Open Scope Z_scope.

(** ** Characters *)

Definition code (c : ascii) : Z := Z.of_N (N_of_ascii c).
Definition chr (z : Z) : ascii := ascii_of_N (Z.to_N z).
Definition between (lo hi : ascii) (c : ascii) : bool := (code lo <=? code c) && (code c <=? code hi).

Definition is_digit (c : ascii) : bool := between "0" "9" c.
Definition is_lower (c : ascii) : bool := between "a" "z" c.
Definition is_upper (c : ascii) : bool := between "A" "Z" c.
Definition is_alnum (c : ascii) : bool := is_digit c || is_lower c || is_upper c.

Lemma code_range c : 0 ≤ code c < 256.
Proof. destruct c as [[] [] [] [] [] [] [] []]; vm_compute; split; congruence. Qed.

Lemma chr_code c : chr (code c) = c.
Proof. unfold chr, code. by rewrite N2Z.id ascii_N_embedding. Qed.

Lemma code_chr z : 0 ≤ z < 256 → code (chr z) = z.
Proof. intros. unfold code, chr. rewrite N_ascii_embedding; lia. Qed.

Lemma code_inj c d : code c = code d → c = d.
Proof. intros H. by rewrite -(chr_code c) -(chr_code d) H. Qed.

(** ** Substrings *)

Fixpoint sdrop (n : nat) (s : string) : string :=
  match n, s with
  | O, _ => s
  | S n', String _ s' => sdrop n' s'
  | S _, EmptyString => EmptyString
  end.
Fixpoint stake (n : nat) (s : string) : string :=
  match n, s with
  | S n', String c s' => String c (stake n' s')
  | _, _ => EmptyString
  end.

Fixpoint sexists (p : ascii → bool) (s : string) : bool :=
  match s with EmptyString => false | String c s' => p c || sexists p s' end.
Fixpoint sforall (p : ascii → bool) (s : string) : bool :=
  match s with EmptyString => true | String c s' => p c && sforall p s' end.
Fixpoint smap (f : ascii → ascii) (s : string) : string :=
  match s with EmptyString => EmptyString | String c s' => String (f c) (smap f s') end.

Lemma sapp_nil_r (s : string) : s +:+ "" = s.
Proof. induction s as [|c s IH]; [done|]. change (String c (s +:+ "") = String c s). by rewrite IH. Qed.
Lemma sapp_assoc (a b c : string) : a +:+ (b +:+ c) = (a +:+ b) +:+ c.
Proof. induction a as [|x a IH]; [done|].
  change (String x (a +:+ (b +:+ c)) = String x ((a +:+ b) +:+ c)). by rewrite IH. Qed.
Lemma sapp_cons c (a b : string) : String c a +:+ b = String c (a +:+ b).
Proof. done. Qed.
Lemma slength_app (a b : string) : String.length (a +:+ b) = (String.length a + String.length b)%nat.
Proof. induction a as [|x a IH]; [done|]. rewrite sapp_cons. cbn. by rewrite IH. Qed.
Lemma sapp_inj_l (a b c : string) : a +:+ b = a +:+ c → b = c.
Proof. induction a as [|x a IH]; [done|]. rewrite !sapp_cons. intros [= H]. auto. Qed.

Lemma stake_sdrop n s : stake n s +:+ sdrop n s = s.
Proof.
  revert s. induction n as [|n IH]; intros [|c s]; try done.
  change (String c (stake n s +:+ sdrop n s) = String c s). by rewrite IH.
Qed.
Lemma sdrop_app (a b : string) : sdrop (String.length a) (a +:+ b) = b.
Proof. induction a as [|x a IH]; done. Qed.
Lemma stake_app (a b : string) : stake (String.length a) (a +:+ b) = a.
Proof. induction a as [|x a IH]; [by destruct b|]. rewrite sapp_cons. cbn. by rewrite IH. Qed.
Lemma slength_sdrop n s : String.length (sdrop n s) = (String.length s - n)%nat.
Proof. revert s; induction n as [|n IH]; intros [|c s]; cbn; try done; apply IH. Qed.

Lemma sexists_app p a b : sexists p (a +:+ b) = sexists p a || sexists p b.
Proof.
  induction a as [|x a IH]; [done|]. rewrite sapp_cons. cbn. by rewrite IH orb_assoc.
Qed.
Lemma sforall_app p a b : sforall p (a +:+ b) = sforall p a && sforall p b.
Proof.
  induction a as [|x a IH]; [done|]. rewrite sapp_cons. cbn. by rewrite IH andb_assoc.
Qed.
Lemma smap_app f a b : smap f (a +:+ b) = smap f a +:+ smap f b.
Proof. induction a as [|x a IH]; [done|]. rewrite !sapp_cons. cbn. by rewrite IH. Qed.
Lemma slength_smap f a : String.length (smap f a) = String.length a.
Proof. induction a as [|x a IH]; [done|]. cbn. by rewrite IH. Qed.

(** [strings.CutPrefix], [HasPrefix], [TrimPrefix]. *)
Fixpoint CutPrefix (s p : string) {struct p} : option string :=
  match p, s with
  | EmptyString, _ => Some s
  | String a p', String b s' => if Ascii.eqb a b then CutPrefix s' p' else None
  | String _ _, EmptyString => None
  end.
Definition HasPrefix (s p : string) : bool := bool_decide (is_Some (CutPrefix s p)).
Definition TrimPrefix (s p : string) : string := default s (CutPrefix s p).

Lemma CutPrefix_Some s p r : CutPrefix s p = Some r ↔ s = p +:+ r.
Proof.
  revert s. induction p as [|a p IH]; intros s.
  { change (Some s = Some r ↔ s = r). split; congruence. }
  destruct s as [|b s]; [done|]. cbn [CutPrefix]. rewrite sapp_cons.
  destruct (Ascii.eqb_spec a b) as [->|Hne].
  - rewrite IH. split; [by intros -> | intros H; by injection H].
  - split; [done|]. intros H. injection H. congruence.
Qed.
Lemma CutPrefix_app p r : CutPrefix (p +:+ r) p = Some r.
Proof. by apply CutPrefix_Some. Qed.
Lemma HasPrefix_spec s p : HasPrefix s p = true ↔ ∃ r, s = p +:+ r.
Proof.
  unfold HasPrefix. rewrite bool_decide_eq_true. split.
  - intros [r H%CutPrefix_Some]. eauto.
  - intros [r H]. exists r. by apply CutPrefix_Some.
Qed.
Lemma HasPrefix_false s p r : HasPrefix s p = false → s ≠ p +:+ r.
Proof. intros H ->. assert (HasPrefix (p +:+ r) p = true) by (apply HasPrefix_spec; eauto). congruence. Qed.

(** [strings.CutSuffix], [HasSuffix], [TrimSuffix]. *)
Definition CutSuffix (s x : string) : option string :=
  let n := (String.length s - String.length x)%nat in
  if String.eqb (sdrop n s) x then Some (stake n s) else None.
Definition HasSuffix (s x : string) : bool := bool_decide (is_Some (CutSuffix s x)).
Definition TrimSuffix (s x : string) : string := default s (CutSuffix s x).

Lemma CutSuffix_Some s x r : CutSuffix s x = Some r ↔ s = r +:+ x.
Proof.
  unfold CutSuffix. split.
  - destruct (String.eqb_spec (sdrop (String.length s - String.length x) s) x) as [He|]; [|done].
    intros [= <-]. rewrite -{2}He. by rewrite stake_sdrop.
  - intros ->. rewrite slength_app Nat.add_sub sdrop_app String.eqb_refl. by rewrite stake_app.
Qed.
Lemma HasSuffix_spec s x : HasSuffix s x = true ↔ ∃ r, s = r +:+ x.
Proof.
  unfold HasSuffix. rewrite bool_decide_eq_true. split.
  - intros [r H%CutSuffix_Some]. eauto.
  - intros [r H]. exists r. by apply CutSuffix_Some.
Qed.

(** [strings.Cut]: the text around the first [sep]. *)
Fixpoint cut (s sep : string) : option (string * string) :=
  match CutPrefix s sep with
  | Some r => Some ("", r)
  | None =>
      match s with
      | EmptyString => None
      | String c s' =>
          match cut s' sep with
          | Some (b, a) => Some (String c b, a)
          | None => None
          end
      end
  end.
Definition Cut (s sep : string) : string * string * bool :=
  match cut s sep with Some (b, a) => (b, a, true) | None => (s, "", false) end.
Definition Contains (s sub : string) : bool := bool_decide (is_Some (cut s sub)).

Lemma cut_unfold s sep :
  cut s sep = match CutPrefix s sep with
  | Some r => Some ("", r)
  | None => match s with
            | EmptyString => None
            | String c s' => match cut s' sep with
                             | Some (b, a) => Some (String c b, a) | None => None end
            end
  end.
Proof. by destruct s. Qed.

Lemma cut_Some s sep b a : cut s sep = Some (b, a) → s = b +:+ sep +:+ a.
Proof.
  revert b. induction s as [|c s IH]; intros b; rewrite cut_unfold.
  - destruct (CutPrefix "" sep) as [r|] eqn:E; [|done]. intros [= <- <-]. by apply CutPrefix_Some in E.
  - destruct (CutPrefix (String c s) sep) as [r|] eqn:E.
    { intros [= <- <-]. by apply CutPrefix_Some in E. }
    destruct (cut s sep) as [[b' a']|] eqn:E'; [|done].
    intros [= <- <-]. rewrite sapp_cons. f_equal. by apply IH.
Qed.
Lemma cut_None s sep b a : cut s sep = None → s ≠ b +:+ sep +:+ a.
Proof.
  revert b. induction s as [|c s IH]; intros b; rewrite cut_unfold.
  - destruct (CutPrefix "" sep) as [r|] eqn:E; [done|]. intros _ H.
    destruct b; [|done]. rewrite (proj2 (CutPrefix_Some _ _ a)) in E; done.
  - destruct (CutPrefix (String c s) sep) as [r|] eqn:E; [done|].
    destruct (cut s sep) as [[b' a']|] eqn:E'; [done|]. intros _ H.
    destruct b as [|d b].
    + rewrite (proj2 (CutPrefix_Some _ _ a)) in E; done.
    + rewrite sapp_cons in H. injection H as -> H. by apply (IH b).
Qed.
Lemma Contains_spec s x : Contains s x = true ↔ ∃ b a, s = b +:+ x +:+ a.
Proof.
  unfold Contains. rewrite bool_decide_eq_true. split.
  - intros [[b a] H]. exists b, a. by apply cut_Some.
  - intros (b & a & H). destruct (cut s x) eqn:E; [by eexists|]. by destruct (cut_None s x b a E).
Qed.

(** The one-byte separator case, where the piece before is free of it. *)
Definition sep1 (c : ascii) : string := String c EmptyString.
Definition has_char (c : ascii) (s : string) : bool := sexists (Ascii.eqb c) s.

Lemma CutPrefix_sep1 c d s : CutPrefix (String d s) (sep1 c) = if Ascii.eqb c d then Some s else None.
Proof. cbn. by destruct (Ascii.eqb c d). Qed.

Lemma cut_char_Some c s b a :
  cut s (sep1 c) = Some (b, a) ↔ s = b +:+ String c a ∧ has_char c b = false.
Proof.
  revert b. induction s as [|d s IH]; intros b; rewrite cut_unfold.
  - cbn. split; [done|]. intros [H _]. by destruct b.
  - rewrite CutPrefix_sep1. destruct (Ascii.eqb_spec c d) as [->|Hne].
    + split.
      * intros [= <- <-]. done.
      * intros [H Hb]. destruct b as [|e b]; [by injection H as ->|].
        rewrite sapp_cons in H. injection H as -> H. unfold has_char in Hb. cbn in Hb.
        by rewrite Ascii.eqb_refl in Hb.
    + split.
      * destruct (cut s (sep1 c)) as [[b' a']|] eqn:E; [|done]. intros [= <- <-].
        destruct (proj1 (IH b') eq_refl) as [-> Hb]. split; [done|].
        unfold has_char in *. cbn. rewrite Hb. by destruct (Ascii.eqb_spec c d).
      * intros [H Hb]. destruct b as [|e b]; [injection H; congruence|].
        rewrite sapp_cons in H. injection H as -> H.
        unfold has_char in Hb. cbn in Hb. apply orb_false_iff in Hb as [_ Hb].
        by rewrite (proj2 (IH b)).
Qed.
Lemma cut_char_None c s : cut s (sep1 c) = None ↔ has_char c s = false.
Proof.
  induction s as [|d s IH]; rewrite cut_unfold; [done|].
  rewrite CutPrefix_sep1. unfold has_char in *. cbn.
  destruct (Ascii.eqb_spec c d); cbn; [done|].
  rewrite -IH. destruct (cut s (sep1 c)) as [[? ?]|]; naive_solver.
Qed.

(** [strings.Split] for a non-empty separator, [strings.Join]. *)
Fixpoint split_fuel (n : nat) (s sep : string) : list string :=
  match n, cut s sep with
  | S n', Some (b, a) => b :: split_fuel n' a sep
  | _, _ => [s]
  end.
Definition Split (s sep : string) : list string := split_fuel (S (String.length s)) s sep.
Fixpoint Join (l : list string) (sep : string) : string :=
  match l with
  | [] => ""
  | [x] => x
  | x :: l' => x +:+ sep +:+ Join l' sep
  end.

Lemma split_fuel_ne n s sep : split_fuel n s sep ≠ [].
Proof. destruct n; cbn; [done|]. by destruct (cut s sep) as [[? ?]|]. Qed.
Lemma Join_split_fuel n s sep : Join (split_fuel n s sep) sep = s.
Proof.
  revert s. induction n as [|n IH]; intros s; cbn; [done|].
  destruct (cut s sep) as [[b a]|] eqn:E; [|done].
  pose proof (split_fuel_ne n a sep) as Hne. apply cut_Some in E. specialize (IH a).
  destruct (split_fuel n a sep) as [|x l] eqn:El; [done|].
  change (b +:+ sep +:+ Join (x :: l) sep = s). by rewrite IH E.
Qed.
Lemma Join_Split s sep : Join (Split s sep) sep = s.
Proof. apply Join_split_fuel. Qed.
Lemma Split_no_sep c s : Forall (λ x, has_char c x = false) (Split s (sep1 c)).
Proof.
  unfold Split. assert (String.length s < S (String.length s))%nat as Hn by lia. revert Hn.
  generalize (S (String.length s)) as n. intros n. revert s.
  induction n as [|n IH]; intros s Hn; [lia|]. cbn.
  destruct (cut s (sep1 c)) as [[b a]|] eqn:E.
  - apply cut_char_Some in E as [-> Hb]. constructor; [done|]. apply IH.
    rewrite slength_app in Hn. cbn in Hn. lia.
  - apply cut_char_None in E. by repeat constructor.
Qed.

(** Splitting at one byte, piece by piece. *)
Lemma split_fuel_enough c n m s :
  (String.length s < n)%nat → (String.length s < m)%nat → split_fuel n s (sep1 c) = split_fuel m s (sep1 c).
Proof.
  revert m s. induction n as [|n IH]; intros [|m] s Hn Hm; try lia. cbn.
  destruct (cut s (sep1 c)) as [[b a]|] eqn:E; [|done]. apply cut_char_Some in E as [-> _].
  rewrite slength_app in Hn, Hm. cbn in Hn, Hm. f_equal. apply IH; lia.
Qed.
Lemma Split_cons c b a : has_char c b = false → Split (b +:+ String c a) (sep1 c) = b :: Split a (sep1 c).
Proof.
  intros Hb. unfold Split. cbn [split_fuel]. rewrite (proj2 (cut_char_Some c _ b a)); [|done]. f_equal.
  change (split_fuel (String.length (b +:+ String c a)) a (sep1 c) = split_fuel (S (String.length a)) a (sep1 c)).
  apply split_fuel_enough; rewrite ?slength_app; cbn; lia.
Qed.
Lemma Split_single c s : has_char c s = false → Split s (sep1 c) = [s].
Proof. intros H. unfold Split. cbn. by rewrite (proj2 (cut_char_None c s)). Qed.
(** Joining what holds no separator, then splitting. *)
Lemma Split_Join_sep c l : l ≠ [] → Forall (λ x, has_char c x = false) l → Split (Join l (sep1 c)) (sep1 c) = l.
Proof.
  intros Hne H. induction H as [|x l Hx Hl IH]; [done|]. destruct l as [|y l]; [by apply Split_single|].
  change (Join (x :: y :: l) (sep1 c)) with (x +:+ String c (Join (y :: l) (sep1 c))). rewrite Split_cons; [|done]. f_equal. by apply IH.
Qed.
Lemma has_char_app c a b : has_char c (a +:+ b) = has_char c a || has_char c b.
Proof. apply sexists_app. Qed.
Lemma has_char_Join c l sep : has_char c sep = false → has_char c (Join l sep) = false ↔ Forall (λ x, has_char c x = false) l.
Proof.
  intros Hs. induction l as [|x l IH]; [done|]. destruct l as [|y l]; [by rewrite Forall_cons; split; [intros ?; split|intros [? _]]|].
  change (Join (x :: y :: l) sep) with (x +:+ sep +:+ Join (y :: l) sep). rewrite !has_char_app Hs Forall_cons -IH. cbn [orb].
  destruct (has_char c x), (has_char c (Join (y :: l) sep)); naive_solver.
Qed.
Lemma Split_app c a b : Split (a +:+ String c b) (sep1 c) = Split a (sep1 c) ++ Split b (sep1 c).
Proof.
  assert (∀ n a, (String.length a < n)%nat → Split (a +:+ String c b) (sep1 c) = Split a (sep1 c) ++ Split b (sep1 c)) as H;
    [|apply (H (S (String.length a))); lia].
  clear a. induction n as [|n IH]; intros a Ha; [lia|].
  destruct (cut a (sep1 c)) as [[x y]|] eqn:E.
  - apply cut_char_Some in E as [-> Hx]. rewrite -sapp_assoc sapp_cons (Split_cons c x) // (Split_cons c x y) //.
    rewrite IH; [done|]. rewrite slength_app in Ha. change (String.length (String c y)) with (S (String.length y)) in Ha. lia.
  - apply cut_char_None in E. by rewrite Split_cons // (Split_single c a) //.
Qed.

(** ** White space *)

(** [unicode.IsSpace] on a rune: the six ASCII spaces, and U+0085, U+00A0,
    U+1680, U+2000-200A, U+2028, U+2029, U+202F, U+205F, U+3000 as their
    UTF-8 encodings. A lead byte never occurs inside a valid rune, so
    matching encodings byte by byte agrees with decoding runes. *)
Definition ascii_space (c : ascii) : bool :=
  (code c =? 32) || ((9 <=? code c) && (code c <=? 13)).
Definition space2 (a b : ascii) : bool :=
  (code a =? 194) && ((code b =? 133) || (code b =? 160)).
Definition space3 (a b c : ascii) : bool :=
  ((code a =? 225) && (code b =? 154) && (code c =? 128)) ||
  ((code a =? 226) && (code b =? 128) &&
     (((128 <=? code c) && (code c <=? 138)) || (code c =? 168) || (code c =? 169) || (code c =? 175))) ||
  ((code a =? 226) && (code b =? 129) && (code c =? 159)) ||
  ((code a =? 227) && (code b =? 128) && (code c =? 128)).

(** [strings.TrimLeftFunc(s, unicode.IsSpace)] and the right-hand one. *)
Fixpoint TrimLeftSpace (s : string) : string :=
  match s with
  | EmptyString => ""
  | String a r =>
      if ascii_space a then TrimLeftSpace r else
      match r with
      | String b r2 =>
          if space2 a b then TrimLeftSpace r2 else
          match r2 with
          | String c r3 => if space3 a b c then TrimLeftSpace r3 else s
          | EmptyString => s
          end
      | EmptyString => s
      end
  end.
Fixpoint TrimRightSpace (s : string) : string :=
  match TrimLeftSpace s, s with
  | EmptyString, _ => ""
  | _, String c r => String c (TrimRightSpace r)
  | _, EmptyString => ""
  end.
Definition TrimSpace (s : string) : string := TrimRightSpace (TrimLeftSpace s).

(** [strings.Fields]: the maximal runs between white space. [fields_go]
    returns the run the text starts with and the fields after it. *)
Fixpoint fields_go (s : string) : string * list string :=
  let close p := ("", let '(h, t) := (p : string * list string) in if String.eqb h "" then t else h :: t) in
  match s with
  | EmptyString => ("", [])
  | String a r =>
      if ascii_space a then close (fields_go r) else
      let keep := let '(h, t) := fields_go r in (String a h, t) in
      match r with
      | String b r2 =>
          if space2 a b then close (fields_go r2) else
          match r2 with
          | String c r3 => if space3 a b c then close (fields_go r3) else keep
          | EmptyString => keep
          end
      | EmptyString => keep
      end
  end.
Definition Fields (s : string) : list string :=
  let '(h, t) := fields_go s in if String.eqb h "" then t else h :: t.

(** Words without white space. *)
Definition word_char (c : ascii) : bool := (code c <? 128) && negb (ascii_space c).
Lemma word_char_spec c : word_char c = true → ascii_space c = false ∧ ∀ d e, space2 c d = false ∧ space3 c d e = false.
Proof.
  unfold word_char. intros H. apply andb_true_iff in H as [H1 H2]. apply Z.ltb_lt in H1. split; [by destruct (ascii_space c)|].
  intros d e. unfold space2, space3.
  destruct (Z.eqb_spec (code c) 194); [lia|]. destruct (Z.eqb_spec (code c) 225); [lia|].
  destruct (Z.eqb_spec (code c) 226); [lia|]. by destruct (Z.eqb_spec (code c) 227); [lia|].
Qed.
Lemma fields_go_word w s :
  sforall word_char w = true → (s = "" ∨ ∃ c r, s = String c r ∧ ascii_space c = true) →
  fields_go (w +:+ s) = (w, match s with EmptyString => [] | _ => Fields s end).
Proof.
  intros Hw Hs. induction w as [|c w IH].
  - cbn [String.append]. destruct Hs as [->|(c & r & -> & Hc)]; [done|]. change ("" +:+ String c r) with (String c r). unfold Fields. cbn [fields_go]. rewrite Hc.
    by destruct (fields_go r) as [h t].
  - cbn in Hw. apply andb_true_iff in Hw as [Hc Hw]. specialize (IH Hw). apply word_char_spec in Hc as [Hc H23].
    rewrite sapp_cons. cbn [fields_go]. rewrite Hc IH. destruct (w +:+ s) as [|d [|e r]]; [done| |].
    + by rewrite (proj1 (H23 d d)).
    + by rewrite (proj1 (H23 d d)) (proj2 (H23 d e)).
Qed.
Lemma Fields_word w s :
  w ≠ "" → sforall word_char w = true → (s = "" ∨ ∃ c r, s = String c r ∧ ascii_space c = true) →
  Fields (w +:+ s) = w :: match s with EmptyString => [] | _ => Fields s end.
Proof. intros Hn Hw Hs. unfold Fields at 1. rewrite fields_go_word; [|done|done]. by destruct (String.eqb_spec w ""). Qed.
Lemma Fields_space c s : ascii_space c = true → Fields (String c s) = Fields s.
Proof. intros Hc. unfold Fields. cbn [fields_go]. rewrite Hc. by destruct (fields_go s) as [h t]. Qed.

(** [strings.TrimRight(s, cutset)], [TrimLeft] for a predicate on bytes. *)
Fixpoint TrimRightFn (p : ascii → bool) (s : string) : string :=
  if sforall p s then "" else
  match s with String c r => String c (TrimRightFn p r) | EmptyString => "" end.
Fixpoint TrimLeftFn (p : ascii → bool) (s : string) : string :=
  match s with
  | String c r => if p c then TrimLeftFn p r else s
  | EmptyString => ""
  end.

(** ** Case *)

Definition is_ascii (s : string) : bool := sforall (λ c, code c <? 128) s.
Definition lower_char (c : ascii) : ascii := if is_upper c then chr (code c + 32) else c.
(** [strings.ToLower]: bytewise on ASCII text; [lowerU] is Go's rune mapping
    of text with a byte beyond ASCII. *)
Definition ToLower (lowerU : string → string) (s : string) : string :=
  if is_ascii s then smap lower_char s else lowerU s.

Lemma lower_char_idem c : lower_char (lower_char c) = lower_char c.
Proof. destruct c as [[] [] [] [] [] [] [] []]; vm_compute; done. Qed.
Lemma lower_char_ascii c : (code c <? 128) = true → (code (lower_char c) <? 128) = true.
Proof. destruct c as [[] [] [] [] [] [] [] []]; vm_compute; done. Qed.
Lemma is_ascii_lower s : is_ascii s = true → is_ascii (smap lower_char s) = true.
Proof.
  unfold is_ascii. induction s as [|c s IH]; [done|]. cbn [sforall smap].
  intros [H1 H2]%andb_true_iff. rewrite lower_char_ascii; [|done]. by rewrite IH.
Qed.
Lemma ToLower_idem u s : is_ascii s = true → ToLower u (ToLower u s) = ToLower u s.
Proof.
  intros H. unfold ToLower. rewrite H is_ascii_lower; [|done].
  clear H. induction s as [|c s IH]; [done|]. cbn [smap]. by rewrite lower_char_idem IH.
Qed.
Lemma is_ascii_app a b : is_ascii (a +:+ b) = is_ascii a && is_ascii b.
Proof. apply sforall_app. Qed.

(** [strings.EqualFold] against a lower-case ASCII word. Under Unicode simple
    folding the only runes beyond ASCII equal to an ASCII letter are U+017F
    (long s) and U+212A (kelvin sign). *)
Fixpoint fold_ascii (s : string) : string :=
  match s with
  | EmptyString => ""
  | String a r =>
      match r with
      | String b r2 =>
          if (code a =? 197) && (code b =? 191) then String "s" (fold_ascii r2) else
          match r2 with
          | String c r3 =>
              if (code a =? 226) && (code b =? 132) && (code c =? 170)
              then String "k" (fold_ascii r3)
              else String (lower_char a) (fold_ascii r)
          | EmptyString => String (lower_char a) (fold_ascii r)
          end
      | EmptyString => String (lower_char a) ""
      end
  end.
Definition EqualFold (s word : string) : bool := String.eqb (fold_ascii s) word.

(** [strings.ReplaceAll] for a non-empty [old]. *)
Fixpoint replace_fuel (n : nat) (s old new : string) : string :=
  match n, cut s old with
  | S n', Some (b, a) => b +:+ new +:+ replace_fuel n' a old new
  | _, _ => s
  end.
Definition ReplaceAll (s old new : string) : string := replace_fuel (S (String.length s)) s old new.
(** [strings.Replace(s, old, new, 1)]. *)
Definition Replace1 (s old new : string) : string :=
  match cut s old with Some (b, a) => b +:+ new +:+ a | None => s end.

(** [strings.Count] of a byte, [strings.ContainsAny], [strings.IndexAny]. *)
Fixpoint count_char (c : ascii) (s : string) : nat :=
  match s with
  | EmptyString => 0
  | String d r => (if Ascii.eqb c d then 1 else 0) + count_char c r
  end%nat.
Definition ContainsAny (s chars : string) : bool := sexists (λ c, has_char c chars) s.

(** ** Ordering: Go compares strings bytewise. *)
Fixpoint strlt (a b : string) : bool :=
  match a, b with
  | _, EmptyString => false
  | EmptyString, String _ _ => true
  | String x a', String y b' =>
      if code x =? code y then strlt a' b' else code x <? code y
  end.
Definition strle (a b : string) : bool := negb (strlt b a).

Lemma strlt_irrefl a : strlt a a = false.
Proof. induction a as [|x a IH]; cbn; [done|]. by rewrite Z.eqb_refl. Qed.
Lemma strlt_trans a b c : strlt a b = true → strlt b c = true → strlt a c = true.
Proof.
  revert b c. induction a as [|x a IH]; intros [|y b] [|z c]; cbn; try done.
  destruct (Z.eqb_spec (code x) (code y)), (Z.eqb_spec (code y) (code z)),
    (Z.eqb_spec (code x) (code z)); try (intros; bool_hyps; lia); eauto.
Qed.
Lemma strlt_total a b : strlt a b = false → strlt b a = false → a = b.
Proof.
  revert b. induction a as [|x a IH]; intros [|y b]; cbn; try done.
  rewrite (Z.eqb_sym (code y)). destruct (Z.eqb_spec (code x) (code y)) as [E|E].
  - intros. f_equal; [by apply code_inj|auto].
  - intros; bool_hyps; lia.
Qed.
#[export] Instance strle_total : Total (λ a b, strle a b = true).
Proof.
  intros a b. unfold strle. destruct (strlt b a) eqn:E; [right|by left].
  destruct (strlt a b) eqn:E'; [|done].
  pose proof (strlt_trans _ _ _ E E') as H. by rewrite strlt_irrefl in H.
Qed.
#[export] Instance strle_trans : Transitive (λ a b, strle a b = true).
Proof.
  intros a b c. unfold strle. rewrite !negb_true_iff. intros H1 H2.
  destruct (strlt c a) eqn:E; [|done]. exfalso.
  destruct (strlt a b) eqn:E1.
  - pose proof (strlt_trans _ _ _ E E1). congruence.
  - pose proof (strlt_total _ _ E1 H1) as ->. congruence.
Qed.
#[export] Instance strle_antisymm : AntiSymm (=) (λ a b, strle a b = true).
Proof. intros a b. unfold strle. rewrite !negb_true_iff. intros. by apply strlt_total. Qed.
#[export] Instance strle_dec a b : Decision (strle a b = true) := _.

(** [sort.Strings] and [slices.Sorted(maps.Keys(m))]. *)
Definition sort_strings (l : list string) : list string := merge_sort (λ a b, strle a b = true) l.

Lemma sort_strings_perm l : sort_strings l ≡ₚ l.
Proof. apply merge_sort_Permutation. Qed.
Lemma sort_strings_sorted l : StronglySorted (λ a b, strle a b = true) (sort_strings l).
Proof. apply (StronglySorted_merge_sort _). Qed.
(** The order of a sorted key list does not depend on the map iteration. *)
Lemma sort_strings_canonical l l' : l ≡ₚ l' → sort_strings l = sort_strings l'.
Proof.
  intros H. apply (StronglySorted_unique (λ a b, strle a b = true));
    try apply sort_strings_sorted. by rewrite !sort_strings_perm.
Qed.
