(* ===== verification/GoStrconv.v ===== *)
(** * Go number conversion

    [strconv] on byte strings: decimal formatting and the parsers with the
    three outcomes Go distinguishes (value, syntax error, out of range with
    the clipped value, which callers that drop the error still see). *)

From S2P Require Import Prelude GoStrings.
Open Scope string_scope.
Open Scope list_scope.
Open Scope Z_scope.

Inductive num_res :=
| NumOk (n : Z)
| NumSyntax
| NumRange (clip : Z).

(** The value Go returns next to the error. *)
Definition num_val (r : num_res) : Z :=
  match r with NumOk n => n | NumSyntax => 0 | NumRange c => c end.
Definition num_opt (r : num_res) : option Z :=
  match r with NumOk n => Some n | _ => None end.

Definition digit_val (c : ascii) : Z := code c - 48.

(** The digit loop of [ParseUint(s, 10, bits)], which stops at the first
    digit that overflows [max = 2^bits - 1]. *)
Fixpoint uint_loop (max acc : Z) (s : string) : num_res :=
  match s with
  | EmptyString => NumOk acc
  | String c r =>
      if is_digit c then
        let n := acc * 10 + digit_val c in
        if max <? n then NumRange max else uint_loop max n r
      else NumSyntax
  end.
Definition ParseUint (s : string) (bits : Z) : num_res :=
  match s with EmptyString => NumSyntax | _ => uint_loop (2 ^ bits - 1) 0 s end.

Definition to_signed (neg : bool) (r : num_res) : num_res :=
  match r with
  | NumSyntax => NumSyntax
  | NumOk n | NumRange n =>
      if neg then (if maxInt64 + 1 <? n then NumRange minInt64 else NumOk (- n))
      else (if maxInt64 <? n then NumRange maxInt64 else NumOk n)
  end.
(** [strconv.Atoi] and [ParseInt(s, 10, 64)]. *)
Definition Atoi (s : string) : num_res :=
  match s with
  | EmptyString => NumSyntax
  | String "+" r => to_signed false (ParseUint r 64)
  | String "-" r => to_signed true (ParseUint r 64)
  | _ => to_signed false (ParseUint s 64)
  end.

(** [strconv.Itoa]: [digits] has enough fuel for the binary length. *)
Definition digit_char (d : Z) : ascii := chr (48 + d).
Fixpoint digits (fuel : nat) (n : Z) (acc : string) : string :=
  match fuel with
  | O => acc
  | S f => if n <? 10 then String (digit_char n) acc
           else digits f (n / 10) (String (digit_char (n mod 10)) acc)
  end.
Definition fmt_nat (n : Z) : string := digits (S (Z.to_nat (Z.log2 n))) n "".
Definition Itoa (n : Z) : string := if n <? 0 then String "-" (fmt_nat (- n)) else fmt_nat n.

(** ** Laws *)

Lemma digit_char_digit d : 0 ≤ d < 10 → is_digit (digit_char d) = true.
Proof.
  intros H. unfold is_digit, between, digit_char. rewrite code_chr; [|lia].
  rewrite andb_true_iff !Z.leb_le. change (code "0") with 48. change (code "9") with 57. lia.
Qed.
Lemma digit_val_char d : 0 ≤ d < 10 → digit_val (digit_char d) = d.
Proof. intros. unfold digit_val, digit_char. rewrite code_chr; lia. Qed.
Lemma is_digit_val c : is_digit c = true → 0 ≤ digit_val c < 10.
Proof.
  unfold is_digit, between, digit_val. change (code "0") with 48. change (code "9") with 57.
  intros; bool_hyps; lia.
Qed.

Lemma uint_loop_range max acc s n :
  0 ≤ acc ≤ max → uint_loop max acc s = NumOk n → 0 ≤ n ≤ max.
Proof.
  revert acc. induction s as [|c s IH]; intros acc Hacc; cbn [uint_loop].
  { intros [= <-]. lia. }
  destruct (is_digit c) eqn:Hd; [|done]. apply is_digit_val in Hd.
  destruct (Z.ltb_spec max (acc * 10 + digit_val c)); [done|]. apply IH. lia.
Qed.
Lemma ParseUint_range s bits n :
  0 ≤ bits → ParseUint s bits = NumOk n → 0 ≤ n < 2 ^ bits.
Proof.
  intros Hb. pose proof (Z.pow_pos_nonneg 2 bits ltac:(lia) Hb). unfold ParseUint.
  destruct s; [done|]. intros H1%uint_loop_range; lia.
Qed.
Lemma Atoi_range s n : Atoi s = NumOk n → minInt64 ≤ n ≤ maxInt64.
Proof.
  assert (∀ r, match ParseUint r 64 with NumOk n | NumRange n => 0 ≤ n | _ => True end) as Hnn.
  { intros r. unfold ParseUint. destruct r as [|c r]; [done|].
    generalize (String c r) as s'. intros s'.
    assert (∀ acc, 0 ≤ acc → match uint_loop (2 ^ 64 - 1) acc s' with NumOk n | NumRange n => 0 ≤ n | _ => True end) as H.
    { induction s' as [|d s' IH]; intros acc Ha; cbn [uint_loop]; [done|].
      destruct (is_digit d) eqn:Hd; [|done]. apply is_digit_val in Hd.
      destruct (Z.ltb_spec (2 ^ 64 - 1) (acc * 10 + digit_val d)); [lia|]. apply IH. lia. }
    apply H. lia. }
  assert (∀ neg r, to_signed neg (ParseUint r 64) = NumOk n → minInt64 ≤ n ≤ maxInt64) as Hs.
  { intros neg r. specialize (Hnn r). unfold to_signed, minInt64, maxInt64 in *.
    destruct (ParseUint r 64), neg; try done;
      case_match; try done; intros [= <-]; bool_hyps; lia. }
  unfold Atoi. destruct s as [|c s]; [done|].
  repeat case_match; subst; eauto.
Qed.

(** Printing then parsing is the identity on every value the width holds. *)
Lemma uint_loop_digits f max n acc rest :
  0 ≤ n ≤ max → (Z.to_nat (Z.log2 n) < f)%nat →
  uint_loop max 0 (digits f n acc +:+ rest) = uint_loop max n (acc +:+ rest).
Proof.
  revert n acc. induction f as [|f IH]; intros n acc Hn Hf; [lia|]. cbn [digits].
  destruct (Z.ltb_spec n 10).
  - rewrite sapp_cons. cbn [uint_loop]. rewrite digit_char_digit; [|lia].
    rewrite digit_val_char; [|lia]. rewrite Z.mul_0_l Z.add_0_l.
    destruct (Z.ltb_spec max n); [lia|done].
  - rewrite IH.
    + rewrite sapp_cons. cbn [uint_loop].
      pose proof (Z.mod_pos_bound n 10 ltac:(lia)).
      rewrite digit_char_digit; [|lia]. rewrite digit_val_char; [|lia].
      replace (n / 10 * 10 + n mod 10) with n by (rewrite {1}(Z.div_mod n 10); lia).
      destruct (Z.ltb_spec max n); [lia|done].
    + pose proof (Z.div_le_upper_bound n 10 n). pose proof (Z.div_pos n 10). lia.
    + assert (Z.log2 (n / 10) < Z.log2 n); [|pose proof (Z.log2_nonneg (n / 10)); lia].
      assert (0 < n / 10) by (apply Z.div_str_pos; lia).
      apply Z.log2_lt_pow2; [done|].
      pose proof (Z.log2_spec n ltac:(lia)) as [_ Hlt]. rewrite Z.pow_succ_r in Hlt; [|apply Z.log2_nonneg].
      apply Z.div_lt_upper_bound; [lia|]. lia.
Qed.
Lemma digits_ne f n acc : digits (S f) n acc ≠ "".
Proof. revert n acc. induction f as [|f IH]; intros; cbn; case_match; try done; apply IH. Qed.
Lemma fmt_nat_head f n acc :
  0 ≤ n → ∃ c r, digits (S f) n acc = String c r ∧ is_digit c = true.
Proof.
  revert n acc. induction f as [|f IH]; intros n acc Hn; cbn [digits].
  - destruct (Z.ltb_spec n 10).
    + eexists _, _. split; [done|]. by apply digit_char_digit.
    + eexists _, _. split; [done|]. apply digit_char_digit. by apply Z.mod_pos_bound.
  - destruct (Z.ltb_spec n 10).
    + eexists _, _. split; [done|]. by apply digit_char_digit.
    + apply IH. by apply Z.div_pos.
Qed.
Lemma ParseUint_fmt n bits : 0 ≤ n < 2 ^ bits → ParseUint (fmt_nat n) bits = NumOk n.
Proof.
  intros Hn. unfold ParseUint, fmt_nat.
  destruct (fmt_nat_head (Z.to_nat (Z.log2 n)) n "" ltac:(lia)) as (c & r & E & _).
  rewrite E -E. rewrite -(sapp_nil_r (digits _ _ _)). rewrite uint_loop_digits; [done|lia|lia].
Qed.
Lemma Atoi_Itoa n : minInt64 ≤ n ≤ maxInt64 → Atoi (Itoa n) = NumOk n.
Proof.
  unfold minInt64, maxInt64. intros Hn. unfold Itoa.
  destruct (Z.ltb_spec n 0).
  - cbn [Atoi]. rewrite ParseUint_fmt; [|lia]. unfold to_signed, maxInt64.
    destruct (Z.ltb_spec (9223372036854775807 + 1) (- n)); [lia|]. f_equal. lia.
  - pose proof (ParseUint_fmt n 64 ltac:(lia)) as Hp.
    unfold fmt_nat in *.
    destruct (fmt_nat_head (Z.to_nat (Z.log2 n)) n "" ltac:(lia)) as (c & r & E & Hc).
    rewrite E in Hp |- *.
    assert (Atoi (String c r) = to_signed false (ParseUint (String c r) 64)) as ->.
    { destruct c as [[] [] [] [] [] [] [] []]; vm_compute in Hc; done. }
    rewrite Hp. unfold to_signed, maxInt64.
    destruct (Z.ltb_spec 9223372036854775807 n); [lia|done].
Qed.

Example Atoi_ex : Atoi "-12" = NumOk (-12) ∧ Atoi "+7" = NumOk 7 ∧ Atoi "1_0" = NumSyntax
  ∧ Atoi "99999999999999999999x" = NumRange maxInt64 ∧ Itoa (-105) = "-105".
Proof. by vm_compute. Qed.

(** ** The shape of printed numbers *)

Definition num_char (c : ascii) : bool := is_digit c || Ascii.eqb c "-".
Lemma digits_shape f n acc :
  0 ≤ n → sforall is_digit acc = true → sforall is_digit (digits f n acc) = true.
Proof.
  revert n acc. induction f as [|f IH]; intros n acc Hn Ha; [done|]. cbn [digits].
  destruct (Z.ltb_spec n 10).
  - cbn [sforall]. by rewrite digit_char_digit.
  - apply IH; [by apply Z.div_pos|]. cbn [sforall]. rewrite digit_char_digit; [done|]. by apply Z.mod_pos_bound.
Qed.
Lemma digits_length f n acc k :
  0 ≤ n < 10 ^ Z.of_nat k → (1 ≤ k)%nat → (String.length (digits f n acc) ≤ k + String.length acc)%nat.
Proof.
  revert n acc k. induction f as [|f IH]; intros n acc k Hn Hk; cbn [digits]; [lia|].
  destruct (Z.ltb_spec n 10); [cbn; lia|].
  destruct k as [|[|k]]; [lia|cbn in *; lia|].
  specialize (IH (n / 10) (String (digit_char (n mod 10)) acc) (S k)). cbn [String.length] in IH.
  enough (0 ≤ n / 10 < 10 ^ Z.of_nat (S k)) by (specialize (IH ltac:(done) ltac:(lia)); lia).
  split; [apply Z.div_pos; lia|]. apply Z.div_lt_upper_bound; [lia|].
  replace (Z.of_nat (S (S k))) with (1 + Z.of_nat (S k)) in Hn by lia.
  rewrite Z.pow_add_r in Hn; lia.
Qed.
Lemma sforall_impl (p q : ascii → bool) s : (∀ c, p c = true → q c = true) → sforall p s = true → sforall q s = true.
Proof.
  intros H. induction s as [|c s IH]; [done|]. cbn. rewrite !andb_true_iff. intros [? ?]. auto.
Qed.
Lemma Itoa_shape n : sforall num_char (Itoa n) = true.
Proof.
  assert (∀ m, 0 ≤ m → sforall num_char (fmt_nat m) = true) as H.
  { intros m Hm. apply (sforall_impl is_digit); [|by apply digits_shape].
    intros c Hc. unfold num_char. by rewrite Hc. }
  unfold Itoa. destruct (Z.ltb_spec n 0); [|by apply H]. cbn [sforall]. rewrite H; [done|lia].
Qed.
Lemma Itoa_length n : minInt64 ≤ n ≤ maxInt64 → (String.length (Itoa n) ≤ 20)%nat.
Proof.
  unfold minInt64, maxInt64. intros Hn.
  assert (∀ m, 0 ≤ m ≤ 9223372036854775808 → (String.length (fmt_nat m) ≤ 19)%nat) as H.
  { intros m Hm. pose proof (digits_length (S (Z.to_nat (Z.log2 m))) m "" 19) as Hl. cbn [String.length] in Hl.
    unfold fmt_nat. assert (0 ≤ m < 10 ^ Z.of_nat 19) by (change (10 ^ Z.of_nat 19) with 10000000000000000000; lia).
    specialize (Hl ltac:(done) ltac:(lia)). lia. }
  unfold Itoa. destruct (Z.ltb_spec n 0); [cbn [String.length]; specialize (H (- n)); lia|]. specialize (H n). lia.
Qed.

(** The clipped value next to a range error is in range as well. *)
Lemma to_signed_clip neg r c : to_signed neg r = NumRange c → minInt64 ≤ c ≤ maxInt64.
Proof.
  unfold to_signed, minInt64, maxInt64.
  destruct r, neg; try done; case_match; try done; intros [= <-]; lia.
Qed.
Lemma Atoi_clip s c : Atoi s = NumRange c → minInt64 ≤ c ≤ maxInt64.
Proof.
  unfold Atoi. destruct s as [|x s]; [done|].
  repeat case_match; subst; apply to_signed_clip.
Qed.
