(* ===== verification/GoSort.v ===== *)
(** * Stable sorting and adjacent duplicates

    [slices.SortStableFunc] with a comparison that is a total preorder is
    determined by its laws: the result is a sorted permutation in which equal
    elements keep their order. [stable_sort] is one function that has them.
    [compact] is [slices.Compact]. *)

From S2P Require Import Prelude GoStrings.
Open Scope list_scope.

Section StableSort.
Context {A : Type} (leb : A → A → bool).

Fixpoint sinsert (x : A) (l : list A) : list A :=
  match l with
  | [] => [x]
  | y :: l' => if leb x y then x :: l else y :: sinsert x l'
  end.
Definition stable_sort (l : list A) : list A := foldr sinsert [] l.

Lemma sinsert_perm x l : sinsert x l ≡ₚ x :: l.
Proof.
  induction l as [|y l IH]; cbn; [done|]. destruct (leb x y); [done|]. rewrite IH. apply Permutation_swap.
Qed.
Lemma stable_sort_perm l : stable_sort l ≡ₚ l.
Proof. induction l as [|x l IH]; cbn; [done|]. rewrite sinsert_perm. by constructor. Qed.

Context (leb_total : ∀ x y, leb x y = true ∨ leb y x = true).
Context (leb_trans : ∀ x y z, leb x y = true → leb y z = true → leb x z = true).

Lemma sinsert_sorted x l :
  StronglySorted (λ x y, leb x y = true) l → StronglySorted (λ x y, leb x y = true) (sinsert x l).
Proof using leb_total leb_trans.
  induction 1 as [|y l Hs IH Hy]; cbn; [by repeat constructor|]. destruct (leb x y) eqn:E.
  - constructor; [by constructor|]. constructor; [done|]. eapply Forall_impl; [exact Hy|]. intros z Hz. exact (leb_trans _ _ _ E Hz).
  - constructor; [done|]. rewrite sinsert_perm. constructor; [|done]. destruct (leb_total x y); congruence.
Qed.
Lemma stable_sort_sorted l : StronglySorted (λ x y, leb x y = true) (stable_sort l).
Proof using leb_total leb_trans. induction l as [|x l IH]; cbn; [constructor|]. by apply sinsert_sorted. Qed.

(** Elements that compare equal to each other keep their order. *)
Lemma sinsert_filter (P : A → Prop) `{∀ x, Decision (P x)} x l :
  (∀ x y, P x → P y → leb x y = true) → filter P (sinsert x l) = filter P (x :: l).
Proof.
  intros HP. induction l as [|y l IH]; [done|]. cbn [sinsert]. destruct (leb x y) eqn:E; [done|].
  rewrite filter_cons IH !filter_cons. destruct (decide (P x)), (decide (P y)); try done. by rewrite (HP x y) in E.
Qed.
Lemma stable_sort_stable (P : A → Prop) `{∀ x, Decision (P x)} l :
  (∀ x y, P x → P y → leb x y = true) → filter P (stable_sort l) = filter P l.
Proof.
  intros HP. induction l as [|x l IH]; [done|]. cbn [stable_sort foldr]. fold (stable_sort l).
  rewrite sinsert_filter; [|done]. by rewrite !filter_cons IH.
Qed.
End StableSort.

Fixpoint compact {A} `{EqDecision A} (l : list A) : list A :=
  match l with
  | x :: ((y :: _) as l') => if bool_decide (x = y) then compact l' else x :: compact l'
  | _ => l
  end.
Lemma elem_of_compact {A} `{EqDecision A} (l : list A) x : x ∈ compact l ↔ x ∈ l.
Proof.
  induction l as [|y [|z l] IH]; [done..|]. cbn [compact] in *. destruct (decide (y = z)) as [->|Hne]; [rewrite bool_decide_eq_true_2|rewrite bool_decide_eq_false_2]; try done; rewrite ?elem_of_cons IH !elem_of_cons; tauto.
Qed.
Lemma compact_NoDup {A} `{EqDecision A} (R : relation A) (l : list A) :
  AntiSymm (=) R → StronglySorted R l → NoDup (compact l).
Proof.
  intros HR. induction 1 as [|y l Hs IH Hy]; [constructor|]. destruct l as [|z l]; [apply NoDup_singleton|]. cbn [compact] in *.
  destruct (decide (y = z)) as [->|Hne]; [by rewrite bool_decide_eq_true_2|rewrite bool_decide_eq_false_2; [|done]]. constructor; [|done].
  change (y ∉ compact (z :: l)). rewrite elem_of_compact. intros Hin. apply Forall_cons in Hy as [Hyz Hy].
  apply elem_of_cons in Hin as [->|Hin]; [done|]. apply StronglySorted_inv in Hs as [_ Hz]. rewrite Forall_forall in Hz.
  apply Hne. apply HR; [done|]. by apply Hz.
Qed.
