(* ===== verification/GoPath.v ===== *)
(** * Go paths

    [path/filepath] on Unix, by components: [Clean] is the fold that the
    library documents (drop empty and dot elements, resolve inner dot-dot
    elements, drop them at the root), and [Join], [IsAbs], [Base], [Dir],
    [Rel] and [IsLocal] are built on it. *)

From S2P Require Import Prelude GoStrings.
Open Scope string_scope.
Open Scope list_scope.

Definition IsAbs (p : string) : bool := HasPrefix p "/".

(** The non-empty, non-dot elements. *)
Definition elems (p : string) : list string :=
  filter (λ e, e ≠ "" ∧ e ≠ ".") (Split p "/").

(** The element stack, innermost first. *)
Definition clean_step (rooted : bool) (st : list string) (e : string) : list string :=
  if String.eqb e ".." then
    match st with
    | [] => if rooted then [] else [".."]
    | t :: st' => if String.eqb t ".." then ".." :: st else st'
    end
  else e :: st.
Definition clean_elems (rooted : bool) (es : list string) : list string :=
  rev (foldl (clean_step rooted) [] es).

Definition Clean (p : string) : string :=
  let rooted := IsAbs p in
  let out := (if rooted then "/" else "") +:+ Join (clean_elems rooted (elems p)) "/" in
  if String.eqb out "" then "." else out.

(** [filepath.Join]: empty leading elements are skipped, and joining only
    empty strings gives the empty string. *)
Fixpoint JoinPath (l : list string) : string :=
  match l with
  | [] => ""
  | e :: l' => if String.eqb e "" then JoinPath l' else Clean (Join l "/")
  end.

(** The text up to and after the last slash. *)
Fixpoint last_slash (s : string) : option (string * string) :=
  match s with
  | EmptyString => None
  | String c r =>
      match last_slash r with
      | Some (d, b) => Some (String c d, b)
      | None => if Ascii.eqb c "/" then Some ("/", r) else None
      end
  end.
Definition Dir (p : string) : string :=
  Clean (match last_slash p with Some (d, _) => d | None => "" end).
Definition Base (p : string) : string :=
  if String.eqb p "" then "." else
  let t := TrimRightFn (Ascii.eqb "/") p in
  let b := match last_slash t with Some (_, b) => b | None => t end in
  if String.eqb b "" then "/" else b.

(** ** Laws *)

Definition plain (e : string) : Prop := e ≠ "" ∧ e ≠ "." ∧ e ≠ "..".

Lemma clean_step_rooted st e :
  e ≠ "" → e ≠ "." → Forall plain st → Forall plain (clean_step true st e).
Proof.
  intros H1 H2 Hst. unfold clean_step. destruct (String.eqb_spec e "..") as [->|].
  - destruct st as [|t st]; [done|]. apply Forall_cons in Hst as [Ht Hst].
    destruct (String.eqb_spec t ".."); [|done]. by destruct Ht as (_ & _ & ?).
  - constructor; [done|done].
Qed.

(** A rooted path cleans to plain elements only: nothing climbs above. *)
Lemma clean_elems_rooted p : Forall plain (clean_elems true (elems p)).
Proof.
  unfold clean_elems. apply Forall_rev.
  assert (∀ es st, Forall (λ e, e ≠ "" ∧ e ≠ ".") es → Forall plain st →
    Forall plain (foldl (clean_step true) st es)) as H.
  { induction es as [|e es IH]; intros st Hes Hst; [done|].
    apply Forall_cons in Hes as [[? ?] Hes]. cbn. apply IH; [done|]. by apply clean_step_rooted. }
  apply H; [|done]. unfold elems. apply Forall_forall. intros e He.
  apply list_elem_of_filter in He. tauto.
Qed.

Lemma Clean_abs p : IsAbs p = true → IsAbs (Clean p) = true.
Proof.
  intros H. unfold Clean. rewrite H. apply HasPrefix_spec. exists (Join (clean_elems true (elems p)) "/"). done.
Qed.

Lemma clean_elems_plain rooted es : Forall plain es → clean_elems rooted es = es.
Proof.
  intros H. unfold clean_elems.
  assert (∀ es st, Forall plain es → foldl (clean_step rooted) st es = rev es ++ st) as Hf.
  { induction es0 as [|e es0 IH]; intros st He; [done|].
    apply Forall_cons in He as [(? & ? & ?) He]. cbn. rewrite IH; [|done].
    unfold clean_step. destruct (String.eqb_spec e ".."); [done|]. by rewrite -app_assoc. }
  rewrite Hf; [|done]. by rewrite app_nil_r rev_involutive.
Qed.

Example Clean_ex :
  Clean "/a/./b//../c/" = "/a/c" ∧ Clean "../x/.." = ".." ∧ Clean "" = "." ∧
  Clean "/../.." = "/" ∧ JoinPath [""; "a"; ""; "../b"] = "b" ∧
  Dir "/a/b" = "/a" ∧ Dir "x" = "." ∧ Base "/a/b//" = "b" ∧ Base "//" = "/".
Proof. by vm_compute. Qed.
