(* ===== verification/NetAddr.v ===== *)
(** * IP addresses, prefixes and address-port pairs

    The part of Go's [net/netip] the network broker uses. An address is
    invalid (the zero [netip.Addr]), IPv4 or IPv6 with a zone; the numeric
    value is kept as an integer below [2^32] or [2^128]. The text parsers
    follow the library's loops. *)

From S2P Require Import Prelude GoStrings GoStrconv.
Open Scope string_scope.
Open Scope list_scope.
Open Scope Z_scope.

Inductive Addr :=
| AddrZero
| Addr4 (a : Z)
| Addr6 (a : Z) (zone : string).

#[export] Instance Addr_eq_dec : EqDecision Addr.
Proof. solve_decision. Defined.
#[export] Instance Addr_countable : Countable Addr.
Proof.
  refine (inj_countable'
    (λ x, match x with AddrZero => None | Addr4 a => Some (inl a) | Addr6 a z => Some (inr (a, z)) end)
    (λ y, match y with None => AddrZero | Some (inl a) => Addr4 a | Some (inr (a, z)) => Addr6 a z end) _).
  by intros [].
Defined.

Definition IsValid (x : Addr) : bool := match x with AddrZero => false | _ => true end.
Definition Is4 (x : Addr) : bool := match x with Addr4 _ => true | _ => false end.
Definition Is6 (x : Addr) : bool := match x with Addr6 _ _ => true | _ => false end.
(** IPv4-mapped: [::ffff:0:0/96]. *)
Definition Is4In6 (x : Addr) : bool :=
  match x with Addr6 a _ => Z.shiftr a 32 =? 65535 | _ => false end.
Definition Unmap (x : Addr) : Addr :=
  match x with Addr6 a _ => if Is4In6 x then Addr4 (a mod 2 ^ 32) else x | _ => x end.
Definition WithZone (x : Addr) (z : string) : Addr :=
  match x with Addr6 a _ => Addr6 a z | _ => x end.
Definition hasZone (x : Addr) : bool :=
  match x with Addr6 _ z => negb (String.eqb z "") | _ => false end.
(** [As16] as one 128-bit number. *)
Definition As16 (x : Addr) : Z :=
  match x with AddrZero => 0 | Addr4 a => 65535 * 2 ^ 32 + a | Addr6 a _ => a end.
Definition IsLoopback (x : Addr) : bool :=
  match Unmap x with
  | Addr4 a => Z.shiftr a 24 =? 127
  | Addr6 a _ => a =? 1
  | AddrZero => false
  end.
Definition IsPrivate (x : Addr) : bool :=
  match Unmap x with
  | Addr4 a => (Z.shiftr a 24 =? 10) || (Z.shiftr a 20 =? 2753) || (Z.shiftr a 16 =? 49320)
  | Addr6 a _ => Z.shiftr a 121 =? 126
  | AddrZero => false
  end.

Definition addr_ok (x : Addr) : Prop :=
  match x with
  | AddrZero => True
  | Addr4 a => 0 ≤ a < 2 ^ 32
  | Addr6 a _ => 0 ≤ a < 2 ^ 128
  end.

Record AddrPort := { Ap_Addr : Addr; Ap_Port : Z }.
#[export] Instance AddrPort_eq_dec : EqDecision AddrPort.
Proof. solve_decision. Defined.
#[export] Instance AddrPort_countable : Countable AddrPort.
Proof.
  refine (inj_countable' (λ x, (Ap_Addr x, Ap_Port x)) (λ y, {| Ap_Addr := y.1; Ap_Port := y.2 |}) _).
  by intros [].
Defined.
Definition AddrPortFrom (a : Addr) (p : Z) : AddrPort := {| Ap_Addr := a; Ap_Port := p |}.
(** [AddrPort.IsValid]. *)
Definition ap_valid (x : AddrPort) : bool := IsValid (Ap_Addr x).

(** ** Prefixes *)

Record Prefix := { px_ip : Addr; px_bits : Z }.
Definition addr_width (x : Addr) : Z :=
  match x with AddrZero => 0 | Addr4 _ => 32 | Addr6 _ _ => 128 end.
Definition addr_num (x : Addr) : Z :=
  match x with AddrZero => 0 | Addr4 a => a | Addr6 a _ => a end.

(** [Prefix.Contains]: same family, no zone, same leading [bits]. *)
Definition prefix_Contains (p : Prefix) (x : Addr) : bool :=
  match px_ip p, x with
  | Addr4 b, Addr4 a => Z.shiftr a (32 - px_bits p) =? Z.shiftr b (32 - px_bits p)
  | Addr6 b _, Addr6 a z =>
      String.eqb z "" && (Z.shiftr a (128 - px_bits p) =? Z.shiftr b (128 - px_bits p))
  | _, _ => false
  end.
Definition mask_num (w bits a : Z) : Z := Z.shiftl (Z.shiftr a (w - bits)) (w - bits).
Definition Masked (p : Prefix) : Prefix :=
  {| px_ip := match px_ip p with
              | Addr4 a => Addr4 (mask_num 32 (px_bits p) a)
              | Addr6 a z => Addr6 (mask_num 128 (px_bits p) a) z
              | AddrZero => AddrZero
              end;
     px_bits := px_bits p |}.
Definition prefix_ok (p : Prefix) : Prop :=
  match px_ip p with
  | AddrZero => False
  | x => addr_ok x ∧ 0 ≤ px_bits p ≤ addr_width x
  end.

(** ** Text *)

(** [parseIPv4Fields]. *)
Fixpoint v4_loop (s : string) (first prevdot : bool) (val digLen pos acc : Z) : option Z :=
  match s with
  | EmptyString => if pos <? 3 then None else Some (acc * 256 + val)
  | String c r =>
      if is_digit c then
        if (digLen =? 1) && (val =? 0) then None else
        let val' := val * 10 + digit_val c in
        if 255 <? val' then None else v4_loop r false false val' (digLen + 1) pos acc
      else if Ascii.eqb c "." then
        if first || String.eqb r "" || prevdot then None else
        if pos =? 3 then None else v4_loop r false true 0 0 (pos + 1) (acc * 256 + val)
      else None
  end.
Definition parseIPv4Fields (s : string) : option Z := v4_loop s true false 0 0 0 0.

Definition hex_val (c : ascii) : option Z :=
  if is_digit c then Some (code c - 48)
  else if between "a" "f" c then Some (code c - 87)
  else if between "A" "F" c then Some (code c - 55)
  else None.
Fixpoint hex_run (s : string) : list Z * string :=
  match s with
  | String c r =>
      match hex_val c with
      | Some d => let '(ds, r') := hex_run r in (d :: ds, r')
      | None => ([], s)
      end
  | EmptyString => ([], "")
  end.

(** The tail of [parseIPv6]: the whole string used, then the ellipsis
    expanded to at least one group of zeros. *)
Definition v6_finish (s : string) (gs : list Z) (ell : option nat) : option (list Z) :=
  if negb (String.eqb s "") then None else
  if (length gs <? 8)%nat then
    match ell with
    | None => None
    | Some e => Some (take e gs ++ replicate (8 - length gs) 0 ++ drop e gs)
    end
  else match ell with Some _ => None | None => Some gs end.

(** The group loop; nine rounds suffice because each one adds a group and
    the loop ends at eight. *)
Fixpoint v6_loop (fuel : nat) (s : string) (gs : list Z) (ell : option nat) : option (list Z) :=
  match fuel with
  | O => None
  | S fuel' =>
      if (8 <=? length gs)%nat then v6_finish s gs ell else
      let '(ds, rest) := hex_run s in
      if (length ds =? 0)%nat || (4 <? length ds)%nat then None else
      let gs' := gs ++ [foldl (λ a d, a * 16 + d) 0 ds] in
      match rest with
      | String "." _ =>
          if match ell with None => negb (length gs =? 6)%nat | _ => false end then None else
          if (8 <? length gs + 2)%nat then None else
          match parseIPv4Fields s with
          | Some a => v6_finish "" (gs ++ [a / 65536; a mod 65536]) ell
          | None => None
          end
      | EmptyString => v6_finish "" gs' ell
      | String ":" EmptyString => None
      | String ":" (String ":" r) =>
          match ell with
          | Some _ => None
          | None => if String.eqb r "" then v6_finish "" gs' (Some (length gs'))
                    else v6_loop fuel' r gs' (Some (length gs'))
          end
      | String ":" r => v6_loop fuel' r gs' ell
      | _ => None
      end
  end.
Definition v6_num (gs : list Z) : Z := foldl (λ a g, a * 65536 + g) 0 gs.
Definition parseIPv6 (s0 : string) : option Addr :=
  let '(s, zone, found) := Cut s0 "%" in
  if found && String.eqb zone "" then None else
  match s with
  | String ":" (String ":" r) =>
      if String.eqb r "" then Some (Addr6 0 zone)
      else (λ gs, Addr6 (v6_num gs) zone) <$> v6_loop 9 r [] (Some O)
  | _ => (λ gs, Addr6 (v6_num gs) zone) <$> v6_loop 9 s [] None
  end.

Fixpoint addr_kind (s : string) : option ascii :=
  match s with
  | EmptyString => None
  | String c r => if Ascii.eqb c "." || Ascii.eqb c ":" || Ascii.eqb c "%" then Some c else addr_kind r
  end.
Definition ParseAddr (s : string) : option Addr :=
  match addr_kind s with
  | Some "."%char => Addr4 <$> parseIPv4Fields s
  | Some ":"%char => parseIPv6 s
  | _ => None
  end.

(** The text around the last occurrence of a byte. *)
Fixpoint cut_last (c : ascii) (s : string) : option (string * string) :=
  match s with
  | EmptyString => None
  | String d r =>
      match cut_last c r with
      | Some (b, a) => Some (String d b, a)
      | None => if Ascii.eqb c d then Some ("", r) else None
      end
  end.

Definition ParsePrefix (s : string) : option Prefix :=
  match cut_last "/" s with
  | None => None
  | Some (a, bs) =>
      match ParseAddr a with
      | None => None
      | Some ip =>
          if hasZone ip then None else
          if match bs with
             | String c (String _ _) => negb (between "1" "9" c)
             | _ => false
             end then None else
          match Atoi bs with
          | NumOk bits =>
              if (bits <? 0) || (addr_width ip <? bits) then None
              else Some {| px_ip := ip; px_bits := bits |}
          | _ => None
          end
      end
  end.

Definition ParseAddrPort (s : string) : option AddrPort :=
  match cut_last ":" s with
  | None => None
  | Some (ip, port) =>
      if String.eqb ip "" || String.eqb port "" then None else
      let bracketed := HasPrefix ip "[" in
      let inner := if bracketed then
                     match CutSuffix (sdrop 1 ip) "]" with Some i => Some i | None => None end
                   else Some ip in
      match inner, ParseUint port 16 with
      | Some i, NumOk p =>
          match ParseAddr i with
          | Some a => if (bracketed && Is4 a) || (negb bracketed && Is6 a) then None
                      else Some (AddrPortFrom a p)
          | None => None
          end
      | _, _ => None
      end
  end.

Example ParseAddr_ex :
  ParseAddr "10.0.0.1" = Some (Addr4 167772161) ∧ ParseAddr "01.2.3.4" = None ∧
  ParseAddr "1.2.3" = None ∧ ParseAddr "::1" = Some (Addr6 1 "") ∧
  ParseAddr "::ffff:10.0.0.1" = Some (Addr6 (65535 * 2 ^ 32 + 167772161) "") ∧
  ParseAddr "64:ff9b::" = Some (Addr6 (100 * 2 ^ 112 + 65435 * 2 ^ 96) "") ∧
  ParseAddr "fe80::1%en0" = Some (Addr6 (65152 * 2 ^ 112 + 1) "en0") ∧
  ParseAddr "1:2:3:4:5:6:7:8::" = None ∧ ParseAddr "1::2::3" = None ∧
  ParsePrefix "10.0.0.0/8" = Some {| px_ip := Addr4 167772160; px_bits := 8 |} ∧
  ParsePrefix "10.0.0.0/08" = None ∧ ParsePrefix "10.0.0.0/33" = None ∧
  ParseAddrPort "127.0.0.1:80" = Some (AddrPortFrom (Addr4 2130706433) 80) ∧
  ParseAddrPort "[::1]:80" = Some (AddrPortFrom (Addr6 1 "") 80) ∧
  ParseAddrPort "::1:80" = None ∧ ParseAddrPort "[127.0.0.1]:80" = None.
Proof. by vm_compute. Qed.

(** ** Package net *)

(** [net.ParseIP] and the IPv4 address [To4] finds. *)
Definition ParseIP (s : string) : option Addr :=
  match ParseAddr s with Some a => if hasZone a then None else Some a | None => None end.
Definition To4 (a : Addr) : option Z :=
  match Unmap a with Addr4 v => Some v | _ => None end.
(** The address classes of an IPv4 address. *)
Definition v4_unspecified (v : Z) : bool := v =? 0.
Definition v4_loopback (v : Z) : bool := Z.shiftr v 24 =? 127.
Definition v4_multicast (v : Z) : bool := Z.shiftr v 28 =? 14.
Definition v4_linklocal (v : Z) : bool := Z.shiftr v 16 =? 43518.

(** [net.ParseCIDR]: an address without zone, a slash, a decimal length. *)
Definition ParseCIDR (s : string) : option (Addr * Z) :=
  let '(addr, mask, found) := Cut s "/" in
  if negb found then None else
  match ParseAddr addr with
  | None => None
  | Some a =>
      if hasZone a then None else
      if String.eqb mask "" || negb (sforall is_digit mask) then None else
      match ParseUint mask 24 with
      | NumOk n => if (16777215 <=? n) || (addr_width a <? n) then None else Some (a, n)
      | _ => None
      end
  end.
Example ParseCIDR_ex : ParseCIDR "10.0.0.0/08" = Some (Addr4 167772160, 8) ∧ ParseCIDR "10.0.0.0/33" = None
  ∧ ParseCIDR "10.0.0.0" = None.
Proof. by vm_compute. Qed.
