(* ===== verification/Policy.v ===== *)
(** * Network policy of the broker

    [src/internal/netbroker/policy.go] and [policy_ipv6.go]: which guest flows
    the broker may open a host socket for. The JSON decoder and Go's Unicode
    lower-casing are arguments of the definitions that use them. [Decide] and
    [decideIPv6] call each other; [Decide_fuel] counts the calls and
    [Decide_fuel_enough] shows two are all there can be, because an embedded
    address is IPv4. *)

From S2P Require Import Prelude GoStrings GoStrconv NetAddr.
Open Scope string_scope.
Open Scope list_scope.
Open Scope Z_scope.

(** ** Data *)

Definition ProtoTCP : string := "tcp".
Definition ProtoUDP : string := "udp".
Definition ProtoAny : string := "any".

(** [netip.MustParsePrefix] panics on a bad literal; [mustPrefixes_init]
    below shows that none of the tables does. *)
Definition mustPrefixes (ss : list string) : option (list Prefix) := mapM ParsePrefix ss.

Definition deniedV4_text : list string :=
  ["0.0.0.0/8"; "10.0.0.0/8"; "100.64.0.0/10"; "127.0.0.0/8"; "169.254.0.0/16";
   "172.16.0.0/12"; "192.0.0.0/24"; "192.0.2.0/24"; "192.88.99.0/24"; "192.168.0.0/16";
   "198.18.0.0/15"; "198.51.100.0/24"; "203.0.113.0/24"; "224.0.0.0/4"; "240.0.0.0/4"].
Definition deniedV4 : list Prefix := Eval vm_compute in default [] (mustPrefixes deniedV4_text).

Definition hardDeniedV4_text : list string :=
  ["0.0.0.0/8"; "127.0.0.0/8"; "169.254.169.254/32"; "169.254.170.2/32"; "224.0.0.0/4"; "240.0.0.0/4"].
Definition hardDeniedV4 : list Prefix := Eval vm_compute in default [] (mustPrefixes hardDeniedV4_text).

Definition inAny (a : Addr) (pfx : list Prefix) : bool := existsb (λ p, prefix_Contains p a) pfx.

Record portRange := { lo : Z; hi : Z }.

(** The JSON fields of an exception, and the compiled one. *)
Record RawException := { rCIDR : string; rProto : string; rPorts : list string }.
Record Exception := {
  CIDR : string; Proto : string; Ports : list string;
  prefix : Prefix; ranges : list portRange
}.

Inductive perr :=
| PErrCidr (cidr : string)
| PErrProto (cidr proto : string)
| PErrRange (cidr range : string)
| PErrDecode
| PErrUpstream (addr : string)
| PErrEmptyZone
| PErrZonesNeedUpstreams.

(** One round of the port loop of [compile]. *)
Definition compile_range (cidr s : string) : result perr portRange :=
  let '(l0, h0, found) := Cut s "-" in
  let h0 := if found then h0 else l0 in
  match ParseUint l0 16, ParseUint h0 16 with
  | NumOk l, NumOk h =>
      if (l =? 0) || (h <? l) then Err (PErrRange cidr s) else Ok {| lo := u16 l; hi := u16 h |}
  | _, _ => Err (PErrRange cidr s)
  end.
Definition compile (e : RawException) : result perr Exception :=
  pfx ← opt_err (ParsePrefix (rCIDR e)) (PErrCidr (rCIDR e));
  _ ← guard_err (bool_decide (rProto e ∈ [ProtoTCP; ProtoUDP; ProtoAny])) (PErrProto (rCIDR e) (rProto e));
  rs ← rmap (compile_range (rCIDR e)) (rPorts e);
  Ok {| CIDR := rCIDR e; Proto := rProto e; Ports := rPorts e; prefix := Masked pfx; ranges := rs |}.

Definition matches (e : Exception) (proto : string) (dst : AddrPort) : bool :=
  if negb (prefix_Contains (prefix e) (Ap_Addr dst)) ||
     (negb (String.eqb (Proto e) ProtoAny) && negb (String.eqb (Proto e) proto)) then false else
  match ranges e with
  | [] => true
  | rs => existsb (λ r, (lo r <=? Ap_Port dst) && (Ap_Port dst <=? hi r)) rs
  end.

Record Policy := {
  exceptions : list Exception;
  dnsUpstreams : list AddrPort;
  blockedZones : list string;
  denyAll : bool;
  source : string
}.
Record policyFile := {
  pf_Exceptions : list RawException;
  pf_DNSUpstreams : list string;
  pf_DNSBlockedZones : list string
}.

Definition parseAddrPort (s : string) (defPort : Z) : option AddrPort :=
  match ParseAddrPort s with
  | Some ap => Some ap
  | None => (λ a, AddrPortFrom a defPort) <$> ParseAddr s
  end.

Section Names.
(** Go's lower-casing of text beyond ASCII. *)
Context (lowerU : string → string).

Definition normalizeName (name : string) : string :=
  TrimSuffix (ToLower lowerU (TrimSpace name)) ".".

(** [p.blocked]; a nil policy blocks nothing. *)
Definition blocked (p : option Policy) (name : string) : bool :=
  match p with
  | None => false
  | Some p =>
      let name := normalizeName name in
      existsb (λ z, String.eqb name z || HasSuffix name ("." +:+ z)) (blockedZones p)
  end.

(** [json.Decoder.Decode] with unknown fields refused. *)
Context (decode : string → option policyFile).

Definition ParsePolicy (data source : string) : result perr Policy :=
  f ← opt_err (decode data) PErrDecode;
  es ← rmap compile (pf_Exceptions f);
  ups ← rmap (λ s, opt_err (parseAddrPort s 53) (PErrUpstream s)) (pf_DNSUpstreams f);
  zs ← rmap (λ z, let z := normalizeName z in
                  if String.eqb z "" then Err PErrEmptyZone else Ok z) (pf_DNSBlockedZones f);
  _ ← guard_err (negb ((0 <? length zs)%nat && (length ups =? 0)%nat)) PErrZonesNeedUpstreams;
  Ok {| exceptions := es; dnsUpstreams := ups; blockedZones := zs; denyAll := false; source := source |}.
End Names.

Definition DenyAll (reason : string) : Policy :=
  {| exceptions := []; dnsUpstreams := []; blockedZones := []; denyAll := true; source := reason |}.

Record Env := { Gateway : Addr; Subnet : Prefix; HostAddrs : gmap Addr bool }.
Record Decision := { Allow : bool; Reason : string }.
Definition deny (r : string) : Decision := {| Allow := false; Reason := r |}.
Definition allow (r : string) : Decision := {| Allow := true; Reason := r |}.

(** ** IPv6 tables *)

Definition prefix_lit (s : string) : Prefix := default {| px_ip := AddrZero; px_bits := 0 |} (ParsePrefix s).
Definition addr_lit (s : string) : Addr := default AddrZero (ParseAddr s).
Definition guestSubnet6 : Prefix := Eval vm_compute in prefix_lit "fd00:127::/64".
Definition gateway6 : Addr := Eval vm_compute in addr_lit "fd00:127::1".
Definition linkLocal6 : Addr := Eval vm_compute in addr_lit "fe80::1".
Definition nat64 : Prefix := Eval vm_compute in prefix_lit "64:ff9b::/96".
Definition sixToFour : Prefix := Eval vm_compute in prefix_lit "2002::/16".
Definition public6 : Prefix := Eval vm_compute in prefix_lit "2000::/3".

Definition hardDeniedV6_text : list (string * string) :=
  [("::/128", "ipv6-unspecified"); ("::1/128", "ipv6-loopback"); ("::/96", "ipv4-compatible");
   ("64:ff9b:1::/48", "nat64-local"); ("2001::/32", "teredo"); ("fe80::/10", "ipv6-link-local");
   ("fec0::/10", "ipv6-site-local"); ("ff00::/8", "ipv6-multicast");
   ("2001:db8::/32", "ipv6-documentation"); ("3fff::/20", "ipv6-documentation");
   ("100::/64", "ipv6-discard"); ("2001:20::/28", "orchidv2"); ("2001:2::/48", "ipv6-benchmark");
   ("2001:10::/28", "orchid"); ("fd00:ec2::254/128", "ipv6-metadata"); ("fd00:ec2::23/128", "ipv6-metadata")].
Definition hardDeniedV6 : list (Prefix * string) :=
  Eval vm_compute in map (λ '(p, r), (prefix_lit p, r)) hardDeniedV6_text.

Definition embeddedIPv4 (address : Addr) : option Addr :=
  if Is4In6 address then Some (Unmap address)
  else if prefix_Contains nat64 address then Some (Addr4 (As16 address mod 2 ^ 32))
  else if prefix_Contains sixToFour address then Some (Addr4 (Z.shiftr (As16 address) 80 mod 2 ^ 32))
  else None.

(** ** Decisions *)

(** The exception loop both families share: the first one that matches. *)
Definition first_exception (p : Policy) (proto : string) (dst : AddrPort) : option Exception :=
  list_find (λ e, matches e proto dst = true) (exceptions p) ≫= λ x, Some x.2.
Definition filtered (p : Policy) (port : Z) : bool := (0 <? length (blockedZones p))%nat && (port =? 53).

Definition decideIPv6 (Decide : AddrPort → Decision) (policy : Policy) (proto : string) (dst : AddrPort) : Decision :=
  let address := Ap_Addr dst in
  if bool_decide (address = gateway6) || bool_decide (address = linkLocal6) then deny "gateway" else
  if prefix_Contains guestSubnet6 address then deny "guest-network" else
  match list_find (λ d, prefix_Contains d.1 address = true) hardDeniedV6 with
  | Some (_, d) => deny d.2
  | None =>
      match embeddedIPv4 address with
      | Some embedded => Decide (AddrPortFrom embedded (Ap_Port dst))
      | None =>
          if filtered policy (Ap_Port dst) then deny "dns-filtered" else
          if IsPrivate address then
            match first_exception policy proto dst with
            | Some e => allow ("exception " +:+ CIDR e)
            | None => deny "ipv6-private"
            end
          else if negb (prefix_Contains public6 address) then deny "ipv6-reserved"
          else allow "public"
      end
  end.

Definition decide_body (again : AddrPort → Decision) (p : option Policy) (env : Env) (proto : string) (dst : AddrPort) : Decision :=
  let a := WithZone (Ap_Addr dst) "" in
  match p with
  | None => deny "fail-closed"
  | Some p =>
      if denyAll p then deny "fail-closed" else
      if negb (IsValid a) then deny "invalid-address" else
      if bool_decide (a = Gateway env) then deny "gateway" else
      if prefix_Contains (Subnet env) a then deny "guest-network" else
      if default false (HostAddrs env !! a) then deny "host-address" else
      if Is6 a then decideIPv6 again p proto (AddrPortFrom a (Ap_Port dst)) else
      if inAny a hardDeniedV4 then deny "hard-deny" else
      if filtered p (Ap_Port dst) then deny "dns-filtered" else
      if negb (inAny a deniedV4) then allow "public" else
      match first_exception p proto (AddrPortFrom a (Ap_Port dst)) with
      | Some e => allow ("exception " +:+ CIDR e)
      | None => deny "denied-range"
      end
  end.
Fixpoint Decide_fuel (fuel : nat) (p : option Policy) (env : Env) (proto : string) (dst : AddrPort) : Decision :=
  match fuel with
  | O => deny ""
  | S fuel' => decide_body (Decide_fuel fuel' p env proto) p env proto dst
  end.
Definition Decide (p : option Policy) (env : Env) (proto : string) (dst : AddrPort) : Decision :=
  Decide_fuel 2 p env proto dst.

(** ** The tables *)

(** No table literal makes the package's initialisation panic. *)
Lemma mustPrefixes_init :
  mustPrefixes deniedV4_text = Some deniedV4 ∧ mustPrefixes hardDeniedV4_text = Some hardDeniedV4 ∧
  mapM (λ d, (λ p, (p, d.2)) <$> ParsePrefix d.1) hardDeniedV6_text = Some hardDeniedV6.
Proof. by vm_compute. Qed.

Lemma inAny_spec a ps : inAny a ps = true ↔ ∃ p, p ∈ ps ∧ prefix_Contains p a = true.
Proof.
  unfold inAny. rewrite existsb_exists. split; intros (p & Hin & H); exists p; split; auto.
  - by apply list_elem_of_In.
  - by apply list_elem_of_In.
Qed.

Lemma first_exception_None p proto dst :
  first_exception p proto dst = None ↔ Forall (λ e, matches e proto dst = false) (exceptions p).
Proof.
  unfold first_exception. destruct (list_find _ _) as [[i e]|] eqn:E; cbn.
  - apply list_find_Some in E as (Hi & Hm & _). split; [done|].
    rewrite Forall_lookup. intros H. specialize (H _ _ Hi). congruence.
  - apply list_find_None in E. split; [|done]. intros _.
    eapply Forall_impl; [exact E|]. cbn. intros x. by destruct (matches x proto dst).
Qed.
Lemma first_exception_Some p proto dst e :
  first_exception p proto dst = Some e → e ∈ exceptions p ∧ matches e proto dst = true.
Proof.
  unfold first_exception. destruct (list_find _ _) as [[i e']|] eqn:E; cbn; [|done].
  intros [= <-]. apply list_find_Some in E as (Hi & Hm & _). split; [|done].
  eapply list_elem_of_lookup_2, Hi.
Qed.

(** The embedded address is IPv4 and has no zone. *)
Lemma embeddedIPv4_Is4 a b : embeddedIPv4 a = Some b → Is4 b = true ∧ WithZone b "" = b.
Proof.
  unfold embeddedIPv4. repeat case_if; intros [= <-]; try done.
  destruct a as [| |a z]; try done. cbn [Unmap].
  match goal with H : Is4In6 _ = true |- _ => rewrite H end. done.
Qed.
Lemma Is4_not_Is6 a : Is4 a = true → Is6 a = false.
Proof. by destruct a. Qed.

(** ** The recursion ends after one step *)

Lemma decide_body_Is4 k k' p env proto dst :
  Is6 (Ap_Addr dst) = false → decide_body k p env proto dst = decide_body k' p env proto dst.
Proof.
  intros H. unfold decide_body. destruct p as [p|]; [|done].
  assert (Is6 (WithZone (Ap_Addr dst) "") = false) as -> by by destruct (Ap_Addr dst). done.
Qed.
Lemma decideIPv6_ext k k' p proto dst :
  (∀ b, embeddedIPv4 (Ap_Addr dst) = Some b → k (AddrPortFrom b (Ap_Port dst)) = k' (AddrPortFrom b (Ap_Port dst))) →
  decideIPv6 k p proto dst = decideIPv6 k' p proto dst.
Proof.
  intros H. unfold decideIPv6. destruct (embeddedIPv4 (Ap_Addr dst)) eqn:E; [|done].
  by rewrite (H _ eq_refl).
Qed.
Lemma decide_body_ext k k' p env proto dst :
  (∀ b, Is4 b = true → k (AddrPortFrom b (Ap_Port dst)) = k' (AddrPortFrom b (Ap_Port dst))) →
  decide_body k p env proto dst = decide_body k' p env proto dst.
Proof.
  intros H. unfold decide_body. destruct p as [p|]; [|done].
  repeat case_if; try done.
  apply decideIPv6_ext. intros b Hb. apply embeddedIPv4_Is4 in Hb as [Hb _]. by apply H.
Qed.

Lemma Decide_fuel_enough n p env proto dst : Decide_fuel (2 + n) p env proto dst = Decide p env proto dst.
Proof.
  unfold Decide. cbn [Decide_fuel Nat.add]. apply decide_body_ext. intros b Hb.
  apply decide_body_Is4. by apply Is4_not_Is6.
Qed.
Lemma Decide_unfold p env proto dst : Decide p env proto dst = decide_body (Decide p env proto) p env proto dst.
Proof.
  rewrite -(Decide_fuel_enough 1). cbn [Decide_fuel Nat.add]. apply decide_body_ext. intros b Hb.
  unfold Decide. cbn [Decide_fuel]. done.
Qed.
#[global] Opaque Decide.

(** ** The abstract policy

    [allowed] is what the broker promises, free of the order of the tests:
    the effective destination (the embedded IPv4 address of a translated one)
    is neither local nor hard-denied, DNS filtering leaves port 53 alone, and
    the destination is public or opened by an exception. *)

Definition effective (a : Addr) : Addr := match embeddedIPv4 a with Some b => b | None => a end.
Definition local (env : Env) (a : Addr) : bool :=
  bool_decide (a = Gateway env) || prefix_Contains (Subnet env) a || default false (HostAddrs env !! a).
Definition hard (a : Addr) : bool :=
  match a with
  | AddrZero => true
  | Addr4 _ => inAny a hardDeniedV4
  | Addr6 _ _ => bool_decide (a = gateway6) || bool_decide (a = linkLocal6) || prefix_Contains guestSubnet6 a
                 || existsb (λ d, prefix_Contains d.1 a) hardDeniedV6
  end.
Definition needs_exception (a : Addr) : bool :=
  if Is4 a then inAny a deniedV4 else IsPrivate a.
Definition never (env : Env) (a : Addr) : bool :=
  hard a || local env a || hard (effective a) || local env (effective a)
  || (Is6 (effective a) && negb (IsPrivate (effective a)) && negb (prefix_Contains public6 (effective a))).
Definition allowed (p : option Policy) (env : Env) (proto : string) (dst : AddrPort) : bool :=
  let a := WithZone (Ap_Addr dst) "" in
  let t := effective a in
  match p with
  | None => false
  | Some p =>
      negb (denyAll p) && negb (never env a) && negb (filtered p (Ap_Port dst)) &&
      (negb (needs_exception t) ||
       existsb (λ e, matches e proto (AddrPortFrom t (Ap_Port dst))) (exceptions p))
  end.

Lemma first_exception_existsb p proto dst :
  existsb (λ e, matches e proto dst) (exceptions p) =
  match first_exception p proto dst with Some _ => true | None => false end.
Proof.
  destruct (first_exception p proto dst) as [e|] eqn:E.
  - apply first_exception_Some in E as [Hin Hm]. apply existsb_exists.
    exists e. split; [by apply list_elem_of_In|done].
  - apply first_exception_None in E. induction E as [|e l He _ IH]; [done|]. cbn. by rewrite He.
Qed.
Lemma list_find_existsb {A} (f : A → bool) l :
  existsb f l = match list_find (λ x, f x = true) l with Some _ => true | None => false end.
Proof.
  induction l as [|x l IH]; [done|]. cbn [existsb list_find].
  destruct (decide (f x = true)) as [H|H]; [by rewrite H|].
  apply not_true_is_false in H. rewrite H IH. by destruct (list_find _ l) as [[]|].
Qed.
Lemma embedded_Is6 a b : embeddedIPv4 a = Some b → Is6 a = true.
Proof. unfold embeddedIPv4. by destruct a. Qed.
Lemma effective_Is4 a : Is4 a = true → effective a = a.
Proof. by destruct a. Qed.

(** What [decide_body] computes on an IPv4 address without a zone. *)
Lemma decide_body_v4 k p env proto a port :
  Is4 a = true → denyAll p = false →
  Allow (decide_body k (Some p) env proto (AddrPortFrom a port)) =
  negb (hard a) && negb (local env a) && negb (filtered p port) &&
  (negb (inAny a deniedV4) || existsb (λ e, matches e proto (AddrPortFrom a port)) (exceptions p)).
Proof.
  intros H4 Hd. destruct a as [|a|]; try done. unfold decide_body. cbn [Ap_Addr Ap_Port AddrPortFrom WithZone IsValid Is6 negb].
  rewrite Hd first_exception_existsb. unfold local, hard.
  destruct (bool_decide (Addr4 a = Gateway env)), (prefix_Contains (Subnet env) (Addr4 a)),
    (default false (HostAddrs env !! Addr4 a)), (inAny (Addr4 a) hardDeniedV4),
    (filtered p port), (inAny (Addr4 a) deniedV4), (first_exception p proto _); done.
Qed.
(** ... and on an IPv6 address without a zone. *)
Lemma decideIPv6_spec k p proto a port :
  Is6 a = true →
  Allow (decideIPv6 k p proto (AddrPortFrom a port)) =
  negb (hard a) &&
  match embeddedIPv4 a with
  | Some b => Allow (k (AddrPortFrom b port))
  | None => negb (filtered p port) && (IsPrivate a || prefix_Contains public6 a) &&
            (negb (IsPrivate a) || existsb (λ e, matches e proto (AddrPortFrom a port)) (exceptions p))
  end.
Proof.
  intros H6. unfold decideIPv6. cbn [Ap_Addr Ap_Port AddrPortFrom].
  destruct a as [| |a z]; try done. unfold hard. rewrite first_exception_existsb list_find_existsb.
  destruct (bool_decide (Addr6 a z = gateway6)), (bool_decide (Addr6 a z = linkLocal6)),
    (prefix_Contains guestSubnet6 (Addr6 a z)); try done. cbn [orb negb andb].
  destruct (list_find _ _) as [[? ?]|]; [done|]. destruct (embeddedIPv4 (Addr6 a z)); [done|].
  destruct (filtered p port), (IsPrivate (Addr6 a z)), (prefix_Contains public6 (Addr6 a z)),
    (first_exception p proto _); done.
Qed.

Lemma Decide_allowed p env proto dst : Allow (Decide p env proto dst) = allowed p env proto dst.
Proof.
  rewrite Decide_unfold. destruct p as [p|]; [|done].
  destruct dst as [x port]. cbn [allowed Ap_Addr Ap_Port].
  destruct (denyAll p) eqn:Hd.
  { unfold decide_body. by rewrite Hd. }
  destruct x as [|a|a z].
  - unfold decide_body. by rewrite Hd.
  - cbn [WithZone]. change (AddrPortFrom ?a ?b) with {| Ap_Addr := a; Ap_Port := b |}.
    rewrite (decide_body_v4 _ _ _ _ (Addr4 a)); [|done|done].
    unfold never. rewrite (effective_Is4 (Addr4 a)); [|done]. cbn [Is4 Is6 needs_exception andb negb].
    destruct (hard (Addr4 a)), (local env (Addr4 a)); done.
  - cbn [WithZone]. remember (Addr6 a "") as b eqn:Eb.
    assert (Is6 b = true) as H6 by by subst.
    unfold decide_body. cbn [Ap_Addr Ap_Port]. rewrite Hd.
    replace (WithZone (Addr6 a z) "") with b by done. rewrite H6.
    replace (negb (IsValid b)) with false by by subst.
    unfold never. unfold local at 1.
    destruct (bool_decide (b = Gateway env)) eqn:G; [by rewrite !orb_true_r|].
    destruct (prefix_Contains (Subnet env) b) eqn:S; [by rewrite !orb_true_r|].
    destruct (default false (HostAddrs env !! b)) eqn:D; [by rewrite !orb_true_r|].
    rewrite decideIPv6_spec; [|done]. unfold effective.
    destruct (embeddedIPv4 b) as [c|] eqn:E.
    + pose proof (embeddedIPv4_Is4 _ _ E) as [H4 _].
      rewrite Decide_unfold decide_body_v4; [|done|done].
      unfold needs_exception. rewrite H4 (Is4_not_Is6 _ H4). cbn [andb orb].
      destruct (hard b), (hard c), (local env c), (filtered p port); done.
    + assert (Is4 b = false) as H4 by by subst. unfold needs_exception. rewrite H4 H6.
      unfold local. rewrite G S D.
      destruct (hard b), (filtered p port), (IsPrivate b), (prefix_Contains public6 b); done.
Qed.

(** ** Properties of decisions *)

(** C2: the two decision functions, with their recursion and their early
    returns, implement the abstract policy [allowed] exactly. *)
Theorem Decide_allowed_iff p env proto dst :
  Allow (Decide p env proto dst) = true ↔ allowed p env proto dst = true.
Proof. by rewrite Decide_allowed. Qed.

(** Whatever the policy, its exceptions included, and whatever the
    protocol and port, a flow to the host, to the virtual network, to a
    hard-denied range, or to an IPv6 address that embeds such an IPv4 address
    is refused; without a policy, or with the fail-closed one, every flow is. *)
Theorem Decide_never p env proto dst :
  match p with None => true | Some p => denyAll p end || never env (WithZone (Ap_Addr dst) "") = true →
  Allow (Decide p env proto dst) = false.
Proof.
  intros H. rewrite Decide_allowed. destruct p as [p|]; [|done]. cbn [allowed].
  destruct (denyAll p); [done|]. cbn [orb] in H. by rewrite H.
Qed.

(** An IPv6 destination that carries an IPv4 address (mapped, NAT64 or
    6to4) is opened only if that IPv4 destination itself would be: address
    translation is no way around the IPv4 rules. *)
Theorem Decide_embedded p env proto a b port :
  embeddedIPv4 a = Some b → WithZone a "" = a →
  Allow (Decide p env proto (AddrPortFrom a port)) = true →
  Allow (Decide p env proto (AddrPortFrom b port)) = true.
Proof.
  intros E Hz. rewrite !Decide_allowed. destruct p as [p|]; [|done]. cbn [allowed Ap_Addr Ap_Port AddrPortFrom].
  pose proof (embeddedIPv4_Is4 _ _ E) as [H4 Hb]. rewrite Hz Hb.
  unfold never. assert (effective a = b) as -> by (unfold effective; by rewrite E).
  rewrite (effective_Is4 b H4) (Is4_not_Is6 _ H4). cbn [andb].
  destruct (denyAll p), (hard a), (local env a), (hard b), (local env b), (filtered p port); done.
Qed.

(** The test of an exception does not depend on the policy around it. *)
Lemma existsb_incl {A} (f : A → bool) l l' : l ⊆ l' → existsb f l = true → existsb f l' = true.
Proof.
  rewrite !existsb_exists. intros Hs (x & Hx & Hf). exists x. split; [|done].
  apply list_elem_of_In, Hs. by apply list_elem_of_In.
Qed.

(** Exceptions only open and blocked zones only close: a policy with more
    exceptions and no more reasons to filter allows every flow the smaller one
    allows. *)
Theorem Decide_mono p p' env proto dst :
  exceptions p ⊆ exceptions p' → (denyAll p' = true → denyAll p = true) →
  (blockedZones p = [] → blockedZones p' = []) →
  Allow (Decide (Some p) env proto dst) = true → Allow (Decide (Some p') env proto dst) = true.
Proof.
  intros He Hd Hz. rewrite !Decide_allowed. cbn [allowed]. unfold filtered.
  rewrite !andb_true_iff !negb_true_iff !orb_true_iff. intros [[[H1 H2] H3] H4]. split_and!.
  - destruct (denyAll p') eqn:E; [|done]. by rewrite Hd in H1.
  - done.
  - destruct (Ap_Port dst =? 53) eqn:E; [|by rewrite andb_false_r].
    rewrite Hz; [done|]. destruct (blockedZones p); done.
  - destruct H4 as [H4|H4]; [by left|right]. exact (existsb_incl _ _ _ He H4).
Qed.

(** With blocked zones installed no flow to port 53 is opened, so guests
    cannot reach another resolver around the filter; the same policy without
    the zones decides every other port alike. *)
Theorem Decide_dns_filtered p env proto a port :
  blockedZones p ≠ [] →
  Allow (Decide (Some p) env proto (AddrPortFrom a 53)) = false ∧
  (port ≠ 53 →
   Allow (Decide (Some p) env proto (AddrPortFrom a port)) =
   Allow (Decide (Some {| exceptions := exceptions p; dnsUpstreams := dnsUpstreams p; blockedZones := [];
                          denyAll := denyAll p; source := source p |}) env proto (AddrPortFrom a port))).
Proof.
  intros Hz. rewrite !Decide_allowed. cbn [allowed Ap_Addr Ap_Port AddrPortFrom].
  unfold filtered. split.
  - destruct (blockedZones p); [done|]. cbn. by rewrite !andb_false_r.
  - intros Hp. apply Z.eqb_neq in Hp. rewrite Hp !andb_false_r. done.
Qed.

(** ** Properties of parsed policies *)

Lemma Masked_Contains p a : prefix_ok p → prefix_Contains (Masked p) a = prefix_Contains p a.
Proof.
  destruct p as [[|x|x z] b]; cbn; [done| |]; intros [_ Hb].
  - unfold prefix_Contains, Masked, mask_num. cbn [px_ip px_bits]. destruct a; try done.
    by rewrite Z.shiftr_shiftl_l ?Z.sub_diag ?Z.shiftl_0_r; [|lia].
  - unfold prefix_Contains, Masked, mask_num. cbn [px_ip px_bits]. destruct a; try done.
    by rewrite Z.shiftr_shiftl_l ?Z.sub_diag ?Z.shiftl_0_r; [|lia].
Qed.

Definition range_wf (r : portRange) : Prop := 1 ≤ lo r ≤ hi r ∧ hi r < 2 ^ 16.
Definition policy_wf (lowerU : string → string) (p : Policy) : Prop :=
  denyAll p = false ∧
  Forall (λ e, Masked <$> ParsePrefix (CIDR e) = Some (prefix e) ∧ Proto e ∈ [ProtoTCP; ProtoUDP; ProtoAny] ∧
               length (ranges e) = length (Ports e) ∧ Forall range_wf (ranges e)) (exceptions p) ∧
  Forall (λ z, z ≠ "" ∧ ∃ z0, z = normalizeName lowerU z0) (blockedZones p) ∧
  (blockedZones p ≠ [] → dnsUpstreams p ≠ []).

Lemma compile_range_wf c s r : compile_range c s = Ok r → range_wf r.
Proof.
  unfold compile_range. destruct (Cut s "-") as [[l0 h0] found].
  destruct (ParseUint l0 16) as [l| |] eqn:El; try done.
  destruct (ParseUint (if found then h0 else l0) 16) as [h| |] eqn:Eh; try done.
  case_if; [done|]. intros H. inv_res. apply ParseUint_range in El, Eh; try lia. bool_hyps.
  unfold range_wf, u16. cbn [lo hi]. rewrite !wrap_small; lia.
Qed.
Lemma compile_wf r e :
  compile r = Ok e →
  Masked <$> ParsePrefix (CIDR e) = Some (prefix e) ∧ Proto e ∈ [ProtoTCP; ProtoUDP; ProtoAny] ∧
  length (ranges e) = length (Ports e) ∧ Forall range_wf (ranges e).
Proof.
  unfold compile. intros H. inv_res. bool_hyps. cbn [CIDR prefix Proto ranges Ports].
  match goal with H : ParsePrefix _ = _ |- _ => rewrite H end.
  match goal with H : rmap _ _ = _ |- _ => pose proof (rmap_length _ _ _ H); eapply rmap_Forall in H;
    [|apply compile_range_wf] end.
  done.
Qed.

(** A policy that parses is well formed: every exception keeps the masked
    prefix of its CIDR, a known protocol and one range [1 ≤ lo ≤ hi ≤ 65535]
    per port entry; every blocked zone is a non-empty normalised name; and a
    policy that filters DNS has an upstream to ask. *)
Theorem ParsePolicy_wf lowerU decode data src p :
  ParsePolicy lowerU decode data src = Ok p → policy_wf lowerU p.
Proof.
  unfold ParsePolicy. intros H. inv_res. unfold policy_wf. cbn [denyAll exceptions blockedZones dnsUpstreams].
  split; [done|]. split; [|split].
  - eapply rmap_Forall; [|eassumption]. apply compile_wf.
  - eapply rmap_Forall; [|eassumption]. cbn. intros a b. case_if; [done|]. intros; inv_res. bool_hyps. eauto.
  - bool_hyps. intros Hz ->. match goal with H : _ && _ = false |- _ => cbn in H; rewrite andb_true_r in H end.
    bool_hyps. match goal with z : list string |- _ => destruct z; [done|cbn in *; lia] end.
Qed.

(** ** Blocked names *)

Lemma smap_String_app f c s : smap f (String c s) = String (f c) (smap f s).
Proof. done. Qed.
Lemma smap_empty f s : smap f s = "" → s = "".
Proof. by destruct s. Qed.

(** Plain text is its own trimmed form. *)
Definition plain_name (s : string) : bool := is_ascii s && sforall (λ c, negb (ascii_space c)) s.
Lemma TrimLeftSpace_plain s : plain_name s = true → TrimLeftSpace s = s.
Proof.
  unfold plain_name, is_ascii. destruct s as [|a r]; [done|]. cbn [sforall TrimLeftSpace].
  intros H. bool_hyps. match goal with H : ascii_space a = false |- _ => rewrite H end.
  assert (∀ b, space2 a b = false) as Hs2.
  { intros b. unfold space2. by destruct (Z.eqb_spec (code a) 194); [lia|]. }
  assert (∀ b c, space3 a b c = false) as Hs3.
  { intros b c. unfold space3. destruct (Z.eqb_spec (code a) 225); [lia|].
    destruct (Z.eqb_spec (code a) 226); [lia|]. by destruct (Z.eqb_spec (code a) 227); [lia|]. }
  destruct r as [|b r]; [done|]. rewrite Hs2. destruct r; [done|]. by rewrite Hs3.
Qed.
Lemma plain_name_tail c s : plain_name (String c s) = true → plain_name s = true.
Proof.
  unfold plain_name, is_ascii. cbn [sforall]. intros H. bool_hyps.
  apply andb_true_iff. by split.
Qed.
Lemma TrimSpace_plain s : plain_name s = true → TrimSpace s = s.
Proof.
  intros H. unfold TrimSpace. rewrite TrimLeftSpace_plain; [|done].
  induction s as [|c s IH]; [done|]. cbn [TrimRightSpace].
  rewrite TrimLeftSpace_plain; [|done]. by rewrite IH; [|exact (plain_name_tail _ _ H)].
Qed.

Lemma TrimSuffix_app a b x : b ≠ "" → String.length x = 1%nat → TrimSuffix (a +:+ b) x = a +:+ TrimSuffix b x.
Proof.
  intros Hb Hx. unfold TrimSuffix. destruct (CutSuffix b x) as [r|] eqn:E; cbn [default].
  - apply CutSuffix_Some in E as ->. rewrite sapp_assoc.
    by rewrite (proj2 (CutSuffix_Some _ _ (a +:+ r))).
  - destruct (CutSuffix (a +:+ b) x) as [r|] eqn:E'; [|done]. exfalso.
    apply CutSuffix_Some in E'.
    assert (∃ r', r = a +:+ r' ∧ b = r' +:+ x) as (r' & _ & Hb').
    { clear E. revert r E'. induction a as [|c a IH]; intros r E'; [by exists r|].
      rewrite sapp_cons in E'. destruct r as [|d r].
      - exfalso. assert (String.length (String c (a +:+ b)) = String.length x) as Hl by by rewrite E'.
        cbn in Hl. rewrite slength_app in Hl. destruct b; [done|cbn in Hl; lia].
      - rewrite sapp_cons in E'. injection E' as -> E'. destruct (IH _ E') as (r' & -> & ->).
        by exists r'. }
    rewrite (proj2 (CutSuffix_Some _ _ r') Hb') in E. done.
Qed.

Lemma plain_name_app l n : plain_name l = true → plain_name n = true → plain_name (l +:+ n) = true.
Proof.
  unfold plain_name. intros. bool_hyps. rewrite is_ascii_app sforall_app.
  rewrite !andb_true_iff. by split_and!.
Qed.
Lemma normalizeName_app u l n :
  plain_name l = true → plain_name n = true → n ≠ "" →
  normalizeName u (l +:+ n) = smap lower_char l +:+ normalizeName u n.
Proof.
  intros Hl Hn Hne. unfold normalizeName. pose proof (plain_name_app _ _ Hl Hn) as Hln.
  rewrite !TrimSpace_plain; [|done..]. unfold ToLower.
  unfold plain_name in *. bool_hyps. repeat match goal with H : is_ascii _ = true |- _ => rewrite H; clear H end.
  rewrite smap_app. apply TrimSuffix_app; [|done]. intros E%smap_empty. done.
Qed.

(** Blocking a name blocks everything below it: a label in front of a
    blocked name is blocked too, in any letter case and with or without the
    final dot. *)
Theorem blocked_subdomain lowerU p label name :
  plain_name label = true → plain_name name = true → name ≠ "" →
  blocked lowerU p name = true → blocked lowerU p (label +:+ "." +:+ name) = true.
Proof.
  destruct p as [p|]; [|done]. intros Hl Hn Hne. cbn [blocked].
  rewrite sapp_assoc. rewrite (normalizeName_app _ _ name); [|by apply plain_name_app|done|done].
  rewrite !existsb_exists. intros (z & Hz & Hb). exists z. split; [done|].
  apply orb_true_iff. right. apply HasSuffix_spec. rewrite smap_app.
  apply orb_true_iff in Hb as [Hb|Hb].
  - bool_hyps. subst z. exists (smap lower_char label). by rewrite -sapp_assoc.
  - apply HasSuffix_spec in Hb as [r ->]. exists (smap lower_char label +:+ "." +:+ r).
    by rewrite -!sapp_assoc.
Qed.

(** ** Witnesses *)

Definition env0 : Env := {|
  Gateway := addr_lit "192.168.127.1"; Subnet := prefix_lit "192.168.127.0/24";
  HostAddrs := {[ addr_lit "10.0.0.5" := true ]} |}.
Definition lab_file : policyFile := {|
  pf_Exceptions := [{| rCIDR := "10.1.2.3/8"; rProto := "tcp"; rPorts := ["22"; "8000-8099"] |}];
  pf_DNSUpstreams := ["9.9.9.9"]; pf_DNSBlockedZones := [" Ads.Example. "] |}.
Definition lab_policy : Policy := {|
  exceptions := [{| CIDR := "10.1.2.3/8"; Proto := "tcp"; Ports := ["22"; "8000-8099"];
                    prefix := prefix_lit "10.0.0.0/8"; ranges := [{| lo := 22; hi := 22 |}; {| lo := 8000; hi := 8099 |}] |}];
  dnsUpstreams := [AddrPortFrom (addr_lit "9.9.9.9") 53]; blockedZones := ["ads.example"];
  denyAll := false; source := "lab" |}.
Definition open_policy : Policy :=
  {| exceptions := []; dnsUpstreams := []; blockedZones := []; denyAll := false; source := "open" |}.

(** The rules on concrete flows. *)
Example Decide_ex :
  let d p a port := Decide (Some p) env0 "tcp" (AddrPortFrom (addr_lit a) port) in
  d lab_policy "10.9.9.9" 22 = allow "exception 10.1.2.3/8" ∧
  d lab_policy "10.9.9.9" 23 = deny "denied-range" ∧
  d lab_policy "10.0.0.5" 22 = deny "host-address" ∧
  d lab_policy "93.184.216.34" 443 = allow "public" ∧
  d lab_policy "93.184.216.34" 53 = deny "dns-filtered" ∧
  d open_policy "64:ff9b::7f00:1" 80 = deny "hard-deny" ∧
  d open_policy "2002:0a00:0001::1" 80 = deny "denied-range" ∧
  d open_policy "2606:4700::1111" 443 = allow "public" ∧
  d open_policy "fd00:ec2::254" 80 = deny "ipv6-metadata".
Proof. by vm_compute. Qed.

Lemma Decide_never_witness :
  Allow (Decide (Some lab_policy) env0 "tcp" (AddrPortFrom (addr_lit "169.254.169.254") 80)) = false.
Proof. apply Decide_never. by vm_compute. Defined.
Lemma Decide_embedded_witness :
  Allow (Decide (Some open_policy) env0 "tcp" (AddrPortFrom (addr_lit "93.184.216.34") 80)) = true.
Proof. apply (Decide_embedded _ _ _ (addr_lit "64:ff9b::5db8:d822")); by vm_compute. Defined.
Lemma Decide_mono_witness :
  Allow (Decide (Some {| exceptions := exceptions lab_policy; dnsUpstreams := []; blockedZones := [];
                         denyAll := false; source := "" |}) env0 "udp" (AddrPortFrom (addr_lit "93.184.216.34") 53)) = true.
Proof. apply (Decide_mono open_policy); [set_solver|done|done|by vm_compute]. Defined.
Lemma Decide_dns_filtered_witness :
  Allow (Decide (Some lab_policy) env0 "udp" (AddrPortFrom (addr_lit "8.8.8.8") 53)) = false.
Proof. by apply (Decide_dns_filtered lab_policy env0 "udp" (addr_lit "8.8.8.8") 80). Defined.
Lemma ParsePolicy_wf_witness : policy_wf id lab_policy.
Proof. apply (ParsePolicy_wf id (λ _, Some lab_file) "{}" "lab"). by vm_compute. Defined.
Lemma blocked_subdomain_witness :
  blocked id (Some lab_policy) ("Track" +:+ "." +:+ "ADS.example.") = true.
Proof. by apply blocked_subdomain; vm_compute. Defined.
