(* ===== verification/Flows.v ===== *)
(** * Flow admission of the broker

    [src/internal/netbroker/flows.go]: the caps on concurrent flows and the
    handlers of new TCP, UDP and gateway-service connections, with the parts
    of [broker.go] they call ([decide], [SetPolicy]). Every handler runs in
    its own goroutine, so the model is a transition system: one step is one
    atomic operation of one goroutine (an atomic add, a policy load with its
    log record, a dial, an endpoint creation), and the steps of all goroutines
    interleave freely. What the network answers is the [outcome] of a step.

    A flow's program counter names the next operation. The relay itself
    ([splice], [relayUDP]) is the one step from [PRelay] to [PRelease]. *)

From S2P Require Import Prelude GoStrings NetAddr Policy.
Open Scope string_scope.
Open Scope list_scope.
Open Scope Z_scope.

(** ** The limits *)

Definition maxTCPFlows : Z := 4096.
Definition maxUDPFlows : Z := 1024.

Record flowLimit := { fl_n : Z; fl_max : Z }.
(** [atomic.Int64.Add]: the new counter and the value the caller sees. *)
Definition limit_add (l : flowLimit) (d : Z) : flowLimit * Z :=
  ({| fl_n := fl_n l + d; fl_max := fl_max l |}, fl_n l + d).
(** [acquire] up to its first branch: reserve, and whether to give back. *)
Definition acquire_add (l : flowLimit) : flowLimit * bool :=
  let '(l', v) := limit_add l 1 in (l', fl_max l <? v).
Definition release (l : flowLimit) : flowLimit := (limit_add l (-1)).1.

(** ** Flows *)

Inductive kind := KTCP | KUDP | KService (guestPort : Z).
#[export] Instance kind_eq_dec : EqDecision kind.
Proof. solve_decision. Defined.
Definition proto_of (k : kind) : string := match k with KUDP => ProtoUDP | _ => ProtoTCP end.

Inductive pc :=
| PSeq                (* conn := b.connSeq.Add(1) *)
| PDecide             (* b.decide *)
| PAcquire            (* l.n.Add(1) *)
| PUndo               (* l.n.Add(-1) after the cap *)
| PDial               (* the host socket *)
| PDialFailed         (* release after a dial error *)
| PEndpoint           (* r.CreateEndpoint *)
| PEndpointFailed     (* release after its error *)
| PRelay              (* splice or relayUDP *)
| PRelease            (* the deferred release *)
| PDone.
#[export] Instance pc_eq_dec : EqDecision pc.
Proof. solve_decision. Defined.

Record flow := { f_kind : kind; f_src : AddrPort; f_dst : AddrPort; f_conn : Z; f_pc : pc }.
Definition at_pc (f : flow) (p : pc) : flow :=
  {| f_kind := f_kind f; f_src := f_src f; f_dst := f_dst f; f_conn := f_conn f; f_pc := p |}.
Definition with_conn (f : flow) (c : Z) (p : pc) : flow :=
  {| f_kind := f_kind f; f_src := f_src f; f_dst := f_dst f; f_conn := c; f_pc := p |}.

(** What the broker writes to its log and does to the two connections. *)
Inductive event :=
| EvFlow (conn : Z) (proto : string) (src dst : AddrPort) (d : Decision)
| EvPolicy (source : string) (deny_all : bool)
| EvFlowLimit (conn : Z) (proto : string) (dst : AddrPort)
| EvServiceLimit (guestPort : Z)
| EvDial (conn : Z) (proto : string) (dst : AddrPort)
| EvDialError (proto : string) (dst : AddrPort)
| EvServiceDial (guestPort : Z)
| EvServiceError (guestPort : Z)
| EvRefused (conn : Z)        (* Complete(true), or false from handleUDP *)
| EvAccepted (conn : Z)       (* Complete(false), or true from handleUDP *)
| EvClosed (conn : Z).        (* the host or guest connection closed at once *)

Record Broker := {
  b_policy : option Policy;
  b_env : Env;
  b_connSeq : Z;
  b_tcpFlows : flowLimit;
  b_udpFlows : flowLimit;
  b_log : list event;
  b_flows : list flow
}.
Definition logs (b : Broker) (es : list event) : Broker :=
  {| b_policy := b_policy b; b_env := b_env b; b_connSeq := b_connSeq b; b_tcpFlows := b_tcpFlows b;
     b_udpFlows := b_udpFlows b; b_log := b_log b ++ es; b_flows := b_flows b |}.
Definition next_conn (b : Broker) : Broker :=
  {| b_policy := b_policy b; b_env := b_env b; b_connSeq := b_connSeq b + 1; b_tcpFlows := b_tcpFlows b;
     b_udpFlows := b_udpFlows b; b_log := b_log b; b_flows := b_flows b |}.
Definition limit_of (k : kind) (b : Broker) : flowLimit :=
  match k with KUDP => b_udpFlows b | _ => b_tcpFlows b end.
Definition set_limit (k : kind) (l : flowLimit) (b : Broker) : Broker :=
  {| b_policy := b_policy b; b_env := b_env b; b_connSeq := b_connSeq b;
     b_tcpFlows := match k with KUDP => b_tcpFlows b | _ => l end;
     b_udpFlows := match k with KUDP => l | _ => b_udpFlows b end;
     b_log := b_log b; b_flows := b_flows b |}.
Definition set_flows (b : Broker) (fs : list flow) : Broker :=
  {| b_policy := b_policy b; b_env := b_env b; b_connSeq := b_connSeq b; b_tcpFlows := b_tcpFlows b;
     b_udpFlows := b_udpFlows b; b_log := b_log b; b_flows := fs |}.

(** [New]'s counters and [SetPolicy]. *)
Definition initial (p : option Policy) (env : Env) : Broker :=
  {| b_policy := p; b_env := env; b_connSeq := 0; b_tcpFlows := {| fl_n := 0; fl_max := maxTCPFlows |};
     b_udpFlows := {| fl_n := 0; fl_max := maxUDPFlows |}; b_log := []; b_flows := [] |}.
Definition SetPolicy (b : Broker) (p : Policy) : Broker :=
  logs {| b_policy := Some p; b_env := b_env b; b_connSeq := b_connSeq b; b_tcpFlows := b_tcpFlows b;
          b_udpFlows := b_udpFlows b; b_log := b_log b; b_flows := b_flows b |}
       [EvPolicy (source p) (denyAll p)].

(** [Broker.decide]: load the policy, decide, record. *)
Definition decide_flow (b : Broker) (proto : string) (src dst : AddrPort) (conn : Z) : Broker * Decision :=
  let d := Decide (b_policy b) (b_env b) proto dst in
  (logs b [EvFlow conn proto src dst d], d).

(** ** One step of a handler *)

(** What the environment answers a dial or an endpoint creation. *)
Inductive outcome := OOk | OErr.

Definition add_step (b : Broker) (f : flow) : Broker * bool :=
  let '(l, over) := acquire_add (limit_of (f_kind f) b) in (set_limit (f_kind f) l b, over).
Definition release_step (b : Broker) (f : flow) : Broker :=
  set_limit (f_kind f) (release (limit_of (f_kind f) b)) b.

Definition handleTCP (b : Broker) (f : flow) (o : outcome) : Broker * flow :=
  let conn := f_conn f in
  match f_pc f with
  | PSeq => (next_conn b, with_conn f (b_connSeq b + 1) PDecide)
  | PDecide =>
      let '(b, d) := decide_flow b ProtoTCP (f_src f) (f_dst f) conn in
      if negb (Allow d) then (logs b [EvRefused conn], at_pc f PDone) else (b, at_pc f PAcquire)
  | PAcquire => let '(b, over) := add_step b f in (b, at_pc f (if over then PUndo else PDial))
  | PUndo => (logs (release_step b f) [EvFlowLimit conn ProtoTCP (f_dst f); EvRefused conn], at_pc f PDone)
  | PDial => (logs b [EvDial conn ProtoTCP (f_dst f)], at_pc f (match o with OOk => PEndpoint | OErr => PDialFailed end))
  | PDialFailed => (logs (release_step b f) [EvDialError ProtoTCP (f_dst f); EvRefused conn], at_pc f PDone)
  | PEndpoint => match o with
                 | OOk => (logs b [EvAccepted conn], at_pc f PRelay)
                 | OErr => (b, at_pc f PEndpointFailed)
                 end
  | PEndpointFailed => (logs (release_step b f) [EvClosed conn; EvRefused conn], at_pc f PDone)
  | PRelay => (b, at_pc f PRelease)
  | PRelease => (release_step b f, at_pc f PDone)
  | PDone => (b, f)
  end.

(** [handleUDP] returns true on an endpoint error: the flow is dropped
    without an ICMP answer. *)
Definition handleUDP (b : Broker) (f : flow) (o : outcome) : Broker * flow :=
  let conn := f_conn f in
  match f_pc f with
  | PSeq => (next_conn b, with_conn f (b_connSeq b + 1) PDecide)
  | PDecide =>
      let '(b, d) := decide_flow b ProtoUDP (f_src f) (f_dst f) conn in
      if negb (Allow d) then (logs b [EvRefused conn], at_pc f PDone) else (b, at_pc f PAcquire)
  | PAcquire => let '(b, over) := add_step b f in (b, at_pc f (if over then PUndo else PDial))
  | PUndo => (logs (release_step b f) [EvFlowLimit conn ProtoUDP (f_dst f); EvRefused conn], at_pc f PDone)
  | PDial => (logs b [EvDial conn ProtoUDP (f_dst f)], at_pc f (match o with OOk => PEndpoint | OErr => PDialFailed end))
  | PDialFailed => (logs (release_step b f) [EvDialError ProtoUDP (f_dst f); EvRefused conn], at_pc f PDone)
  | PEndpoint => match o with
                 | OOk => (logs b [EvAccepted conn], at_pc f PRelay)
                 | OErr => (b, at_pc f PEndpointFailed)
                 end
  | PEndpointFailed => (logs (release_step b f) [EvClosed conn; EvAccepted conn], at_pc f PDone)
  | PRelay => (b, at_pc f PRelease)
  | PRelease => (release_step b f, at_pc f PDone)
  | PDone => (b, f)
  end.

(** The accept loop of [startServiceTarget] for one accepted connection: it
    shares the TCP cap and has no policy to pass. *)
Definition serviceConn (b : Broker) (port : Z) (f : flow) (o : outcome) : Broker * flow :=
  match f_pc f with
  | PAcquire => let '(b, over) := add_step b f in (b, at_pc f (if over then PUndo else PDial))
  | PUndo => (logs (release_step b f) [EvServiceLimit port; EvClosed (f_conn f)], at_pc f PDone)
  | PDial => match o with
             | OOk => (logs b [EvServiceDial port], at_pc f PRelay)
             | OErr => (logs b [EvServiceError port; EvClosed (f_conn f)], at_pc f PRelease)
             end
  | PRelay => (b, at_pc f PRelease)
  | PRelease => (release_step b f, at_pc f PDone)
  | PSeq | PDecide | PDialFailed | PEndpoint | PEndpointFailed | PDone => (b, f)
  end.
(** Where a new connection's handler starts. *)
Definition start_pc (k : kind) : pc := match k with KService _ => PAcquire | _ => PSeq end.

Definition flow_step (b : Broker) (f : flow) (o : outcome) : Broker * flow :=
  match f_kind f with
  | KTCP => handleTCP b f o
  | KUDP => handleUDP b f o
  | KService port => serviceConn b port f o
  end.

(** ** The system *)

Inductive step : Broker → Broker → Prop :=
| step_arrive b k src dst :
    step b (set_flows b (b_flows b ++ [{| f_kind := k; f_src := src; f_dst := dst; f_conn := 0; f_pc := start_pc k |}]))
| step_flow b i f o b' f' :
    b_flows b !! i = Some f → flow_step b f o = (b', f') → step b (set_flows b' (<[i:=f']> (b_flows b)))
| step_policy b p : step b (SetPolicy b p)
| step_env b env :
    step b {| b_policy := b_policy b; b_env := env; b_connSeq := b_connSeq b; b_tcpFlows := b_tcpFlows b;
              b_udpFlows := b_udpFlows b; b_log := b_log b; b_flows := b_flows b |}.
Definition reachable (p : option Policy) (env : Env) (b : Broker) : Prop := rtc step (initial p env) b.

(** ** Accounting *)

(** Has the flow added itself to its counter, and did it get its place? *)
Definition counted (p : pc) : bool :=
  match p with PUndo | PDial | PDialFailed | PEndpoint | PEndpointFailed | PRelay | PRelease => true | _ => false end.
Definition granted (p : pc) : bool := counted p && negb (bool_decide (p = PUndo)).
Definition is_udp (k : kind) : bool := match k with KUDP => true | _ => false end.
Definition lim (u : bool) (b : Broker) : flowLimit := if u then b_udpFlows b else b_tcpFlows b.
Definition weigh (u : bool) (test : pc → bool) (f : flow) : Z :=
  if Bool.eqb u (is_udp (f_kind f)) && test (f_pc f) then 1 else 0.

(** The program points a service connection can be at. *)
Definition pc_ok (f : flow) : Prop :=
  match f_kind f with
  | KService _ => f_pc f ∈ [PAcquire; PUndo; PDial; PRelay; PRelease; PDone]
  | _ => True
  end.
(** A flow past its decision was allowed. *)
Definition past_decision (p : pc) : bool := negb (bool_decide (p ∈ [PSeq; PDecide; PDone])).
Definition allowed_in (es : list event) (c : Z) (proto : string) (dst : AddrPort) : Prop :=
  ∃ src d, EvFlow c proto src dst d ∈ es ∧ Allow d = true.
Definition decided (es : list event) (f : flow) : Prop :=
  match f_kind f with
  | KService _ => True
  | k => past_decision (f_pc f) = true → allowed_in es (f_conn f) (proto_of k) (f_dst f)
  end.
Definition dials_ok (es : list event) : Prop :=
  ∀ l1 l2 c proto dst, es = l1 ++ EvDial c proto dst :: l2 → allowed_in l1 c proto dst.

(** How one step of a handler changes the counters. *)
Lemma flow_step_counts b f o b' f' u :
  flow_step b f o = (b', f') →
  f_kind f' = f_kind f ∧
  fl_n (lim u b') = fl_n (lim u b) - weigh u counted f + weigh u counted f' ∧
  fl_max (lim u b') = fl_max (lim u b) ∧
  (weigh u granted f < weigh u granted f' → fl_n (lim u b') ≤ fl_max (lim u b')).
Proof.
  destruct f as [k src dst c p].
  destruct k, p, o; cbn; try case_if; intros [= <- <-]; destruct u; cbn;
    rewrite /weigh /granted /=; bool_hyps; split_and!; intros; cbn; try lia; done.
Qed.

Lemma flow_step_pc_ok b f o b' f' : flow_step b f o = (b', f') → pc_ok f → pc_ok f'.
Proof.
  destruct f as [k src dst c p].
  destruct k, p, o; cbn; try case_if; intros [= <- <-]; rewrite /pc_ok /=; set_solver.
Qed.

(** The shared invariant. *)
Record inv (b : Broker) : Prop := {
  inv_max : ∀ u, fl_max (lim u b) = if u then maxUDPFlows else maxTCPFlows;
  inv_count : ∀ u, fl_n (lim u b) = zsum (weigh u counted) (b_flows b);
  inv_cap : ∀ u, zsum (weigh u granted) (b_flows b) ≤ fl_max (lim u b);
  inv_pcs : Forall pc_ok (b_flows b);
  inv_decided : Forall (decided (b_log b)) (b_flows b);
  inv_dials : dials_ok (b_log b)
}.

(** How one step of a handler extends the log. *)
Lemma allowed_in_app es es' c proto dst : allowed_in es c proto dst → allowed_in (es ++ es') c proto dst.
Proof. intros (src & d & H & Ha). exists src, d. split; [|done]. apply elem_of_app. by left. Qed.
Lemma decided_app es es' f : decided es f → decided (es ++ es') f.
Proof.
  unfold decided. destruct (f_kind f); [| |done]; intros H Hp; apply allowed_in_app; by apply H.
Qed.
Definition dial_allowed (es : list event) (e : event) : Prop :=
  match e with EvDial c proto dst => allowed_in es c proto dst | _ => True end.
Lemma dials_ok_snoc es e : dials_ok es → dial_allowed es e → dials_ok (es ++ [e]).
Proof.
  intros H He l1 l2 c proto dst E. destruct l2 as [|x l2 _] using rev_ind.
  - apply app_inj_tail in E as [-> ->]. exact He.
  - rewrite app_comm_cons app_assoc in E. apply app_inj_tail in E as [-> _]. by eapply H.
Qed.
Lemma dials_ok_app es es' :
  dials_ok es → Forall (dial_allowed es) es' → dials_ok (es ++ es').
Proof.
  intros H Hes. revert es H Hes. induction es' as [|e es' IH]; intros es H Hes.
  - by rewrite app_nil_r.
  - inversion Hes as [|? ? He Hes']; subst. rewrite (app_assoc es [e] es'). apply IH.
    + by apply dials_ok_snoc.
    + eapply Forall_impl; [exact Hes'|]. intros x. destruct x; try done. cbn. apply allowed_in_app.
Qed.

Lemma flow_step_log b f o b' f' :
  flow_step b f o = (b', f') → decided (b_log b) f → b_flows b' = b_flows b ∧
  ∃ es, b_log b' = b_log b ++ es ∧ Forall (dial_allowed (b_log b)) es ∧ decided (b_log b') f'.
Proof.
  destruct f as [k src dst c p].
  destruct k, p, o; cbn; try case_if; intros [= <- <-] Hd; cbn; (split; [done|]);
    (eexists; split; [first [reflexivity | symmetry; apply app_nil_r | symmetry; apply app_assoc] |]);
    rewrite /decided /past_decision /= in Hd |- *; (split; [repeat constructor; try done; by apply Hd|]);
    try done; intros _; try (apply allowed_in_app; by apply Hd); try (by apply Hd).
  all: eexists src, _; split; [apply elem_of_app; right; by constructor|by apply negb_false_iff].
Qed.

(** ** The invariant holds in every reachable state *)

Lemma inv_initial p env : inv (initial p env).
Proof.
  split; try (by intros []); try constructor.
Qed.
(** Steps that leave flows, counters and earlier log entries alone. *)
Lemma inv_same b b' :
  inv b → (∀ u, lim u b' = lim u b) → b_flows b' = b_flows b →
  (∃ es, b_log b' = b_log b ++ es ∧ Forall (dial_allowed (b_log b)) es) → inv b'.
Proof.
  intros [] Hl Hf (es & He & Hes).
  split; intros; rewrite ?Hl ?Hf ?He; try done; try (by apply dials_ok_app).
  eapply Forall_impl; [eassumption|]. intros f. apply decided_app.
Qed.
Lemma inv_arrive b f :
  inv b → f_pc f = start_pc (f_kind f) → inv (set_flows b (b_flows b ++ [f])).
Proof.
  intros [Hm Hn Hc Hp Hd Hl] Hs.
  assert (∀ u test, (test = counted ∨ test = granted) → weigh u test f = 0) as Hw.
  { intros u test Ht. unfold weigh. rewrite Hs. destruct (f_kind f), Ht; subst; cbn; by rewrite andb_false_r. }
  split; intros; cbn.
  - destruct u; apply (Hm true) || apply (Hm false).
  - rewrite zsum_app zsum_one Hw; [|by left]. specialize (Hn u). destruct u; cbn in *; lia.
  - rewrite zsum_app zsum_one Hw; [|by right]. specialize (Hc u). destruct u; cbn in *; lia.
  - apply Forall_app. split; [done|]. constructor; [|done]. unfold pc_ok. rewrite Hs.
    destruct (f_kind f); [done..|]. cbn. set_solver.
  - apply Forall_app. split; [done|]. constructor; [|done]. unfold decided. rewrite Hs.
    by destruct (f_kind f).
  - done.
Qed.
Lemma inv_flow b i f o b' f' :
  inv b → b_flows b !! i = Some f → flow_step b f o = (b', f') → inv (set_flows b' (<[i:=f']> (b_flows b))).
Proof.
  intros [Hm Hn Hc Hp Hd Hl] Hi Hs.
  pose proof (proj1 (Forall_lookup _ _) Hd _ _ Hi) as Hdf. pose proof (proj1 (Forall_lookup _ _) Hp _ _ Hi) as Hpf.
  pose proof (flow_step_log _ _ _ _ _ Hs Hdf) as (_ & es & He & Hes & Hdf').
  assert (∀ u, lim u (set_flows b' (<[i:=f']> (b_flows b))) = lim u b') as Hlim by by intros [].
  split; intros; rewrite ?Hlim; cbn.
  - apply (flow_step_counts _ _ _ _ _ u) in Hs as (_ & _ & -> & _). apply Hm.
  - apply (flow_step_counts _ _ _ _ _ u) in Hs as (_ & -> & _).
    rewrite (zsum_insert _ _ _ _ _ Hi) (Hn u). lia.
  - rewrite (zsum_insert _ _ _ _ _ Hi). pose proof (flow_step_counts _ _ _ _ _ u Hs) as (_ & Hn' & Hm' & Hg).
    destruct (decide (weigh u granted f < weigh u granted f')) as [Hlt|].
    + assert (zsum (weigh u granted) (<[i:=f']> (b_flows b)) ≤ zsum (weigh u counted) (<[i:=f']> (b_flows b))) as Hle.
      { apply zsum_le. intros x. unfold weigh, granted.
        destruct (Bool.eqb u (is_udp (f_kind x))), (counted (f_pc x)); cbn; try case_if; lia. }
      rewrite !(zsum_insert _ _ _ _ _ Hi) in Hle. specialize (Hg Hlt). rewrite Hn' (Hn u) in Hg. lia.
    + specialize (Hc u). rewrite Hm'. lia.
  - apply Forall_insert; [done|]. exact (flow_step_pc_ok _ _ _ _ _ Hs Hpf).
  - apply Forall_insert; [|done]. rewrite He. eapply Forall_impl; [exact Hd|]. intros x. apply decided_app.
  - rewrite He. by apply dials_ok_app.
Qed.

Lemma inv_step b b' : inv b → step b b' → inv b'.
Proof.
  intros Hinv Hs. destruct Hs.
  - by apply inv_arrive.
  - eapply inv_flow; eassumption.
  - apply (inv_same b); [done|by intros []|done|]. eexists. split; [done|]. by repeat constructor.
  - apply (inv_same b); [done|by intros []|done|]. exists []. split; [by rewrite app_nil_r|done].
Qed.
Lemma reachable_inv p env b : reachable p env b → inv b.
Proof.
  intros H. unfold reachable in H. remember (initial p env) as b0 eqn:E.
  assert (inv b0) as Hi by (subst; apply inv_initial). clear E.
  induction H; [done|]. apply IHrtc. eapply inv_step; eassumption.
Qed.

(** ** Properties *)

Definition holders (u : bool) (b : Broker) : Z := zsum (weigh u granted) (b_flows b).

(** C5: however the goroutines interleave, and although [acquire] adds before
    it looks, never more than 4096 TCP and service flows or 1024 UDP flows
    hold a place at once. *)
Theorem flow_cap p env b :
  reachable p env b → holders false b ≤ 4096 ∧ holders true b ≤ 1024.
Proof.
  intros []%reachable_inv. split.
  - pose proof (inv_cap0 false). by rewrite inv_max0 in H.
  - pose proof (inv_cap0 true). by rewrite inv_max0 in H.
Qed.

(** No place leaks: on every path of every handler (refused, over the cap,
    dial error, endpoint error, relayed) the reservation is given back, so the
    counters equal the flows in progress and are zero once all have ended. *)
Theorem flow_accounting p env b :
  reachable p env b →
  (∀ u, fl_n (lim u b) = zsum (weigh u counted) (b_flows b)) ∧
  (Forall (λ f, f_pc f = PDone) (b_flows b) → fl_n (b_tcpFlows b) = 0 ∧ fl_n (b_udpFlows b) = 0).
Proof.
  intros []%reachable_inv. split; [done|]. intros Hd.
  assert (∀ u, fl_n (lim u b) = 0) as Hz.
  { intros u. rewrite inv_count0. apply zsum_zero. eapply Forall_impl; [exact Hd|].
    intros f Hf. unfold weigh. by rewrite Hf andb_false_r. }
  split; [apply (Hz false)|apply (Hz true)].
Qed.

(** C6: the broker opens a host socket for a guest flow only after the log
    shows that this flow (same number, protocol and destination) was allowed
    by the policy decision, in every interleaving and across policy reloads. *)
Theorem dial_after_allow p env b l1 l2 c proto dst :
  reachable p env b → b_log b = l1 ++ EvDial c proto dst :: l2 →
  ∃ src d, EvFlow c proto src dst d ∈ l1 ∧ Allow d = true.
Proof. intros []%reachable_inv E. by apply (inv_dials0 l1 l2). Qed.

(** How many steps a handler still has. *)
Definition rank (p : pc) : nat :=
  match p with
  | PSeq => 9 | PDecide => 8 | PAcquire => 7 | PUndo => 1 | PDial => 6 | PDialFailed => 1
  | PEndpoint => 5 | PEndpointFailed => 1 | PRelay => 2 | PRelease => 1 | PDone => 0
  end%nat.

(** Every handler ends: each of its steps strictly lowers a measure, until
    the flow is done. *)
Theorem flow_terminates b f o :
  pc_ok f → f_pc f ≠ PDone →
  (rank (f_pc (flow_step b f o).2) < rank (f_pc f))%nat.
Proof.
  destruct f as [k src dst c p]. intros Hok Hp.
  destruct k, p, o; cbn; try done; try case_if; cbn; try lia; unfold pc_ok in Hok; cbn in Hok; set_solver.
Qed.

(** ** Executions *)

(** A schedule: which goroutine moves next and what the network answers. *)
Inductive cmd :=
| CArrive (k : kind) (src dst : AddrPort)
| CFlow (i : nat) (o : outcome)
| CPolicy (p : Policy).
Definition exec (b : Broker) (c : cmd) : Broker :=
  match c with
  | CArrive k src dst =>
      set_flows b (b_flows b ++ [{| f_kind := k; f_src := src; f_dst := dst; f_conn := 0; f_pc := start_pc k |}])
  | CFlow i o => match b_flows b !! i with
                 | Some f => let '(b', f') := flow_step b f o in set_flows b' (<[i:=f']> (b_flows b))
                 | None => b
                 end
  | CPolicy p => SetPolicy b p
  end.
Lemma exec_steps b cs : rtc step b (foldl exec b cs).
Proof.
  revert b. induction cs as [|c cs IH]; intros b; [apply rtc_refl|]. cbn [foldl].
  transitivity (exec b c); [|apply IH]. destruct c as [k src dst|i o|p]; cbn [exec].
  - apply rtc_once. constructor.
  - destruct (b_flows b !! i) as [f|] eqn:E; [|apply rtc_refl].
    destruct (flow_step b f o) as [b' f'] eqn:Es. apply rtc_once. exact (step_flow _ _ _ _ _ _ E Es).
  - apply rtc_once. constructor.
Qed.

(** Two guests' flows and a service connection, interleaved: one is relayed
    and ends, one is refused by the policy, one is still being relayed. *)
Definition lab_src : AddrPort := AddrPortFrom (addr_lit "192.168.127.2") 40000.
Definition lab_schedule : list cmd :=
  [CArrive KTCP lab_src (AddrPortFrom (addr_lit "93.184.216.34") 443); CFlow 0 OOk;
   CArrive KUDP lab_src (AddrPortFrom (addr_lit "127.0.0.1") 53); CFlow 1 OOk; CFlow 0 OOk; CFlow 1 OOk;
   CArrive (KService 7022) lab_src lab_src; CFlow 2 OOk; CFlow 0 OOk; CFlow 2 OOk; CFlow 0 OOk;
   CFlow 0 OOk; CFlow 0 OOk; CFlow 0 OOk].
Definition lab_broker : Broker := foldl exec (initial (Some open_policy) env0) lab_schedule.

Example lab_broker_ex :
  map f_pc (b_flows lab_broker) = [PDone; PDone; PRelay] ∧
  fl_n (b_tcpFlows lab_broker) = 1 ∧ fl_n (b_udpFlows lab_broker) = 0 ∧
  b_log lab_broker !! 0%nat =
    Some (EvFlow 1 "tcp" lab_src (AddrPortFrom (addr_lit "93.184.216.34") 443) (allow "public")).
Proof. by vm_compute. Qed.

Lemma flow_cap_witness : holders false lab_broker ≤ 4096 ∧ holders true lab_broker ≤ 1024.
Proof. exact (flow_cap (Some open_policy) env0 lab_broker (exec_steps _ lab_schedule)). Defined.
Lemma flow_accounting_witness : fl_n (lim false lab_broker) = zsum (weigh false counted) (b_flows lab_broker).
Proof. exact (proj1 (flow_accounting (Some open_policy) env0 lab_broker (exec_steps _ lab_schedule)) false). Defined.
Lemma dial_after_allow_witness :
  ∃ src d, EvFlow 1 "tcp" src (AddrPortFrom (addr_lit "93.184.216.34") 443) d ∈ take 4 (b_log lab_broker) ∧ Allow d = true.
Proof.
  apply (dial_after_allow (Some open_policy) env0 lab_broker (take 4 (b_log lab_broker)) (drop 5 (b_log lab_broker))).
  - exact (exec_steps _ lab_schedule).
  - by vm_compute.
Defined.
Lemma flow_terminates_witness :
  let f := {| f_kind := KTCP; f_src := lab_src; f_dst := lab_src; f_conn := 0; f_pc := PSeq |} in
  (rank (f_pc (flow_step lab_broker f OOk).2) < 9)%nat.
Proof. apply (flow_terminates lab_broker {| f_kind := KTCP; f_src := lab_src; f_dst := lab_src; f_conn := 0; f_pc := PSeq |} OOk); done. Defined.
