(* ===== verification/Runtime.v ===== *)
(** * Reloading the broker's forwards and services

    [src/internal/netbroker/runtime.go]: the runtime file, and [ApplyRuntime],
    which reconciles the running listeners with it. Contexts are paths in the
    tree of [context.WithCancel] calls, so cancelling one cancels everything
    below it; a connection through a gateway service lives as long as the
    context of the route it was made along. Whether a listener can be opened
    is the environment's answer [listen]; the order Go ranges over its maps is
    an argument. *)

From S2P Require Import Prelude GoStrings GoPath NetAddr.
Open Scope string_scope.
Open Scope list_scope.
Open Scope Z_scope.

(** ** The file *)

Record RuntimeForward := { Host : string; fw_GuestPort : Z }.
Record RuntimeService := { sv_GuestPort : Z; Path : string; TCP : string }.
Record Runtime := { Forwards : list RuntimeForward; Services : list RuntimeService }.
#[export] Instance RuntimeForward_eq_dec : EqDecision RuntimeForward.
Proof. solve_decision. Defined.
#[export] Instance RuntimeForward_countable : Countable RuntimeForward.
Proof.
  refine (inj_countable' (λ x, (Host x, fw_GuestPort x)) (λ y, {| Host := y.1; fw_GuestPort := y.2 |}) _).
  by intros [].
Defined.

Record serviceTarget := { network : string; addr : string }.
#[export] Instance serviceTarget_eq_dec : EqDecision serviceTarget.
Proof. solve_decision. Defined.
Definition target (s : RuntimeService) : serviceTarget :=
  if negb (String.eqb (TCP s) "") then {| network := "tcp"; addr := TCP s |}
  else {| network := "unix"; addr := Path s |}.

Inductive rerr :=
| RErrDecode
| RErrForward (f : RuntimeForward)
| RErrDupHost (host : string)
| RErrServicePort (port : Z)
| RErrBothTargets
| RErrTCPTarget (tcp : string)
| RErrSocketPath (path : string)
| RErrDupPort (port : Z)
| RErrListenForward (f : RuntimeForward)
| RErrListenService (port : Z).

Definition validateServiceTarget (path tcp : string) : result rerr unit :=
  if negb (String.eqb path "") && negb (String.eqb tcp "") then Err RErrBothTargets else
  if negb (String.eqb tcp "") then
    match ParseAddrPort tcp with
    | Some ap => if negb (IsLoopback (Ap_Addr ap)) || (Ap_Port ap =? 0) then Err (RErrTCPTarget tcp) else Ok ()
    | None => Err (RErrTCPTarget tcp)
    end
  else if negb (IsAbs path) then Err (RErrSocketPath path) else Ok ().

(** The two loops of [ParseRuntime], with the keys seen so far. *)
Fixpoint check_forwards (hosts : list AddrPort) (fs : list RuntimeForward) : result rerr unit :=
  match fs with
  | [] => Ok ()
  | f :: fs' =>
      match ParseAddrPort (Host f) with
      | None => Err (RErrForward f)
      | Some hp =>
          if negb (IsLoopback (Ap_Addr hp)) || (Ap_Port hp =? 0) || (fw_GuestPort f =? 0)
          then Err (RErrForward f) else
          if bool_decide (hp ∈ hosts) then Err (RErrDupHost (Host f)) else
          check_forwards (hp :: hosts) fs'
      end
  end.
Fixpoint check_services (ports : list Z) (ss : list RuntimeService) : result rerr unit :=
  match ss with
  | [] => Ok ()
  | s :: ss' =>
      if (sv_GuestPort s =? 0) || (sv_GuestPort s =? 53) then Err (RErrServicePort (sv_GuestPort s)) else
      _ ← validateServiceTarget (Path s) (TCP s);
      if bool_decide (sv_GuestPort s ∈ ports) then Err (RErrDupPort (sv_GuestPort s)) else
      check_services (sv_GuestPort s :: ports) ss'
  end.
(** [decode] is the JSON decoder with unknown fields refused. *)
Definition ParseRuntime (decode : string → option Runtime) (data : string) : result rerr Runtime :=
  rt ← opt_err (decode data) RErrDecode;
  _ ← check_forwards [] (Forwards rt);
  _ ← check_services [] (Services rt);
  Ok rt.

(** ** Contexts, routes and the running listeners *)

Notation ctx := (list nat).

(** What the broker has cancelled and closed, and the connections guests made
    through services: the port and the route they were made along. *)
Record serviceRoute := { rt_target : serviceTarget; rt_ctx : ctx }.
Record World := {
  next : nat;                       (* the next context or listener id *)
  cancelled : list ctx;
  closed : list nat;
  conns : list (Z * serviceRoute)
}.
Fixpoint live (dead : list ctx) (c : ctx) : bool :=
  negb (bool_decide (c ∈ dead)) && match c with [] => true | _ :: p => live dead p end.

(** [context.WithCancel(parent)], its cancel function, and [l.Close]. *)
Definition WithCancel (w : World) (parent : ctx) : World * ctx :=
  ({| next := S (next w); cancelled := cancelled w; closed := closed w; conns := conns w |}, next w :: parent).
Definition cancel (w : World) (c : ctx) : World :=
  {| next := next w; cancelled := c :: cancelled w; closed := closed w; conns := conns w |}.
Definition open_listener (w : World) : World * nat :=
  ({| next := S (next w); cancelled := cancelled w; closed := closed w; conns := conns w |}, next w).
Definition close_listener (w : World) (l : nat) : World :=
  {| next := next w; cancelled := cancelled w; closed := l :: closed w; conns := conns w |}.

Record runtimeForward := { rf_ctx : ctx; rf_lst : nat }.
Record runtimeService := { rs_ctx : ctx; rs_lst : nat; route : serviceRoute; cancelRoute : option ctx }.
Record runtimeState := { forwards : gmap RuntimeForward runtimeForward; services : gmap Z runtimeService }.

(** The stop functions: close the listener, then cancel. *)
Definition stop (w : World) (c : ctx) (l : nat) : World := cancel (close_listener w l) c.

Definition retarget (w : World) (r : runtimeService) (t : serviceTarget) : World * runtimeService :=
  let '(w, rctx) := WithCancel w (rs_ctx r) in
  let w := match cancelRoute r with Some c => cancel w c | None => w end in
  (w, {| rs_ctx := rs_ctx r; rs_lst := rs_lst r; route := {| rt_target := t; rt_ctx := rctx |};
         cancelRoute := Some rctx |}).

(** [sort.Slice] of the wanted forwards. *)
Definition forward_le (a b : RuntimeForward) : bool :=
  if String.eqb (Host a) (Host b) then fw_GuestPort a <=? fw_GuestPort b else strle (Host a) (Host b).
#[export] Instance forward_le_dec a b : Decision (forward_le a b = true) := _.
Definition sortedForwards (m : gset RuntimeForward) : list RuntimeForward :=
  merge_sort (λ a b, forward_le a b = true) (elements m).

(** ** ApplyRuntime *)

Section Apply.
(** Whether the host lets the broker open the listener. *)
Context (listen_forward : RuntimeForward → bool) (listen_service : Z → bool).

Notation acc := (World * runtimeState * list rerr)%type.

Definition wanted_forwards (rt : Runtime) : gset RuntimeForward := list_to_set (Forwards rt).
(** The last entry of a port wins. *)
Definition wanted_services (rt : Runtime) : gmap Z serviceTarget :=
  foldl (λ m s, <[sv_GuestPort s := target s]> m) ∅ (Services rt).

Definition stop_forward (want : gset RuntimeForward) (f : RuntimeForward) (ws : World * runtimeState) : World * runtimeState :=
  let '(w, s) := ws in
  match forwards s !! f with
  | Some r => if bool_decide (f ∈ want) then (w, s) else
              (stop w (rf_ctx r) (rf_lst r), {| forwards := delete f (forwards s); services := services s |})
  | None => (w, s)
  end.
Definition stop_service (want : gmap Z serviceTarget) (port : Z) (ws : World * runtimeState) : World * runtimeState :=
  let '(w, s) := ws in
  match services s !! port with
  | Some r => match want !! port with
              | Some _ => (w, s)
              | None => (stop w (rs_ctx r) (rs_lst r),
                         {| forwards := forwards s; services := delete port (services s) |})
              end
  | None => (w, s)
  end.

(** [MustParseAddrPort] panics on a bad host: [None]. *)
Definition start_forward (root : ctx) (f : RuntimeForward) (a : acc) : option acc :=
  let '(w, s, errs) := a in
  match forwards s !! f with
  | Some _ => Some a
  | None =>
      let '(w, fctx) := WithCancel w root in
      match ParseAddrPort (Host f) with
      | None => None
      | Some _ =>
          if listen_forward f then
            let '(w, l) := open_listener w in
            Some (w, {| forwards := <[f := {| rf_ctx := fctx; rf_lst := l |}]> (forwards s); services := services s |}, errs)
          else Some (cancel w fctx, s, errs ++ [RErrListenForward f])
      end
  end.
Definition start_service (root : ctx) (pt : Z * serviceTarget) (a : acc) : acc :=
  let '(w, s, errs) := a in
  let '(port, t) := pt in
  match services s !! port with
  | Some r =>
      if bool_decide (rt_target (route r) = t) then a else
      let '(w, r) := retarget w r t in
      (w, {| forwards := forwards s; services := <[port := r]> (services s) |}, errs)
  | None =>
      let '(w, sctx) := WithCancel w root in
      let '(w, r) := retarget w {| rs_ctx := sctx; rs_lst := 0; route := {| rt_target := t; rt_ctx := sctx |};
                                   cancelRoute := None |} t in
      if listen_service port then
        let '(w, l) := open_listener w in
        (w, {| forwards := forwards s;
               services := <[port := {| rs_ctx := rs_ctx r; rs_lst := l; route := route r; cancelRoute := cancelRoute r |}]>
                             (services s) |}, errs)
      else (cancel w sctx, s, errs ++ [RErrListenService port])
  end.

(** The orders in which Go ranges over the three maps. *)
Record orders := { ord_forwards : list RuntimeForward; ord_services : list Z; ord_wanted : list (Z * serviceTarget) }.
Definition orders_ok (s : runtimeState) (rt : Runtime) (o : orders) : Prop :=
  ord_forwards o ≡ₚ (map_to_list (forwards s)).*1 ∧ ord_services o ≡ₚ (map_to_list (services s)).*1 ∧
  ord_wanted o ≡ₚ map_to_list (wanted_services rt).

Definition ApplyRuntime (root : ctx) (rt : Runtime) (o : orders) (w : World) (s : runtimeState) : option acc :=
  let wantF := wanted_forwards rt in
  let wantS := wanted_services rt in
  let ws := foldl (λ ws f, stop_forward wantF f ws) (w, s) (ord_forwards o) in
  let '(w, s) := foldl (λ ws p, stop_service wantS p ws) ws (ord_services o) in
  a ← foldl (λ oa f, a ← oa; start_forward root f a) (Some (w, s, [])) (sortedForwards wantF);
  Some (foldl (λ a pt, start_service root pt a) a (ord_wanted o)).

End Apply.

(** A guest connection to a running service takes the route current then. *)
Definition accept (w : World) (s : runtimeState) (port : Z) : World :=
  match services s !! port with
  | Some r => {| next := next w; cancelled := cancelled w; closed := closed w; conns := (port, route r) :: conns w |}
  | None => w
  end.

(** ** Contexts *)

Lemma live_cancel c dead x : live (c :: dead) x = true ↔ live dead x = true ∧ ¬ c `suffix_of` x.
Proof.
  induction x as [|k x IH]; cbn [live].
  - rewrite !andb_true_iff !negb_true_iff !bool_decide_eq_false. split.
    + intros [H _]. apply not_elem_of_cons in H as [Hne H]. split; [done|].
      intros Hs%suffix_nil_inv. congruence.
    + intros [[H _] Hs]. split; [|done]. intros [<-|]%elem_of_cons; [|done]. by apply Hs.
  - rewrite !andb_true_iff !negb_true_iff !bool_decide_eq_false IH. split.
    + intros (H & Hl & Hs). apply not_elem_of_cons in H as [Hne H]. split_and!; [done|done|].
      intros Hs'. destruct c as [|k' c]; [by apply Hs, suffix_nil|].
      apply suffix_cons_inv in Hs' as [Heq|]; [congruence|done].
    + intros ((H & Hl) & Hs). split_and!; [|done|].
      * intros [<-|]%elem_of_cons; [|done]. by apply Hs.
      * intros Hs'. by apply Hs, suffix_cons_r.
Qed.
Lemma live_parent dead k c : live dead (k :: c) = true → live dead c = true.
Proof. cbn. intros [_ H]%andb_true_iff. done. Qed.

(** Every cancelled context was created before. *)
Definition dead_below (n : nat) (dead : list ctx) : Prop := ∀ c, c ∈ dead → ∃ k p, c = k :: p ∧ (k < n)%nat.
Lemma live_fresh n dead m p :
  dead_below n dead → (n ≤ m)%nat → live dead p = true → live dead (m :: p) = true.
Proof.
  intros Hd Hm Hp. cbn. rewrite Hp andb_true_r negb_true_iff bool_decide_eq_false.
  intros Hin. destruct (Hd _ Hin) as (k & q & [= -> ->] & ?). lia.
Qed.
#[local] Arguments live : simpl never.
Lemma dead_below_le n m dead : dead_below n dead → (n ≤ m)%nat → dead_below m dead.
Proof. intros H Hm c Hc. destruct (H c Hc) as (k & p & -> & ?). exists k, p. split; [done|lia]. Qed.
Lemma dead_below_cons n k p dead : dead_below n dead → (k < n)%nat → dead_below n ((k :: p) :: dead).
Proof. intros H Hk c [->|Hc]%elem_of_cons; [by exists k, p|by apply H]. Qed.

(** Which contexts of the tree [root, k :: root, j :: k :: root] lie below
    which. *)
Lemma suffix_len {A} (k : A) (root : list A) : ¬ (k :: root) `suffix_of` root.
Proof. intros H%suffix_length. cbn in H. lia. Qed.
Lemma suffix_svc {A} (k j k' : A) root : (k :: root) `suffix_of` (j :: k' :: root) → k = k'.
Proof.
  intros H. apply suffix_cons_inv in H as [H|H].
  - exfalso. apply (f_equal length) in H. cbn in H. lia.
  - apply suffix_cons_inv in H as [[= H]|H]; [done|]. by apply suffix_len in H.
Qed.
Lemma suffix_route {A} (j k j' k' : A) root :
  (j :: k :: root) `suffix_of` (j' :: k' :: root) → j = j' ∧ k = k'.
Proof.
  intros H. apply suffix_cons_inv in H as [[= -> ->]|H]; [done|].
  apply suffix_length in H. cbn in H. lia.
Qed.

(** ** The invariant of the running state *)

Record WI (root : ctx) (w : World) (s : runtimeState) : Prop := {
  wi_root : live (cancelled w) root = true;
  wi_dead : dead_below (next w) (cancelled w);
  wi_fwd : ∀ f r, forwards s !! f = Some r → ∃ k, rf_ctx r = k :: root ∧ (k < next w)%nat;
  wi_svc : ∀ p r, services s !! p = Some r → ∃ k j, rs_ctx r = k :: root ∧ rt_ctx (route r) = j :: k :: root
             ∧ cancelRoute r = Some (j :: k :: root) ∧ (k < next w)%nat ∧ (j < next w)%nat
             ∧ live (cancelled w) (j :: k :: root) = true;
  wi_inj : ∀ p p' r r', services s !! p = Some r → services s !! p' = Some r' → rs_ctx r = rs_ctx r' → p = p';
  wi_disj : ∀ f p r r', forwards s !! f = Some r → services s !! p = Some r' → rf_ctx r ≠ rs_ctx r';
  wi_conns : ∀ p rt, (p, rt) ∈ conns w → live (cancelled w) (rt_ctx rt) = true →
             ∃ r, services s !! p = Some r ∧ route r = rt
}.

Lemma WI_initial : WI [] {| next := 0; cancelled := []; closed := []; conns := [] |} {| forwards := ∅; services := ∅ |}.
Proof. split; cbn; try done; [intros c Hc; set_solver|..]; intros; try set_solver. Qed.

Lemma WI_accept root w s p : WI root w s → WI root (accept w s p) s.
Proof.
  intros []. unfold accept. destruct (services s !! p) as [r|] eqn:E; [|by split].
  split; cbn; try done. intros p' rt [[= -> ->]|H]%elem_of_cons Hl; [by exists r|by apply wi_conns0].
Qed.

Lemma WI_stop_forward root w s want f :
  WI root w s → WI root (stop_forward want f (w, s)).1 (stop_forward want f (w, s)).2.
Proof.
  intros HW. unfold stop_forward. destruct (forwards s !! f) as [r|] eqn:E; [|done].
  case_if; [done|]. destruct HW. destruct (wi_fwd0 _ _ E) as (k & Hk & Hlt).
  assert (∀ p r' k' j, services s !! p = Some r' → rs_ctx r' = k' :: root → ¬ (k :: root) `suffix_of` (j :: k' :: root)) as Hns.
  { intros p r' k' j Hp Hr' Hs. apply suffix_svc in Hs as <-. apply (wi_disj0 _ _ _ _ E Hp). congruence. }
  split; cbn; rewrite ?Hk.
  - apply live_cancel. split; [done|]. apply suffix_len.
  - by apply dead_below_cons.
  - intros f' r' Hf'. apply lookup_delete_Some in Hf' as [_ Hf']. by apply wi_fwd0 in Hf'.
  - intros p r' Hp. destruct (wi_svc0 _ _ Hp) as (k' & j & H1 & H2 & H3 & H4 & H5 & H6).
    exists k', j. split_and!; try done. apply live_cancel. split; [done|]. eapply Hns; eassumption.
  - done.
  - intros f' p r' r'' Hf'. apply lookup_delete_Some in Hf' as [_ Hf']. by apply (wi_disj0 f').
  - intros p rt Hin Hl. apply live_cancel in Hl as [Hl _]. by apply wi_conns0.
Qed.

Lemma WI_stop_service root w s want p :
  WI root w s → WI root (stop_service want p (w, s)).1 (stop_service want p (w, s)).2.
Proof.
  intros HW. unfold stop_service. destruct (services s !! p) as [r|] eqn:E; [|done].
  destruct (want !! p); [done|]. destruct HW. destruct (wi_svc0 _ _ E) as (k & j & Hk & Hj & _ & Hlt & _).
  assert (∀ p' r' k' j, p ≠ p' → services s !! p' = Some r' → rs_ctx r' = k' :: root → ¬ (k :: root) `suffix_of` (j :: k' :: root)) as Hns.
  { intros p' r' k' j' Hne Hp Hr' Hs. apply suffix_svc in Hs as <-. apply Hne. apply (wi_inj0 _ _ _ _ E Hp). congruence. }
  split; cbn; rewrite ?Hk.
  - apply live_cancel. split; [done|]. apply suffix_len.
  - by apply dead_below_cons.
  - done.
  - intros p' r' Hp'. apply lookup_delete_Some in Hp' as [Hne Hp'].
    destruct (wi_svc0 _ _ Hp') as (k' & j' & H1 & H2 & H3 & H4 & H5 & H6).
    exists k', j'. split_and!; try done. apply live_cancel. split; [done|]. eapply Hns; eassumption.
  - intros p1 p2 r1 r2 H1 H2. apply lookup_delete_Some in H1 as [_ H1]. apply lookup_delete_Some in H2 as [_ H2]. by apply wi_inj0.
  - intros f p' r1 r2 H1 H2. apply lookup_delete_Some in H2 as [_ H2]. eapply wi_disj0; eassumption.
  - intros p' rt Hin Hl. apply live_cancel in Hl as [Hl Hs]. destruct (wi_conns0 _ _ Hin Hl) as (r' & Hr' & Hrt).
    destruct (decide (p = p')) as [<-|Hne].
    + exfalso. rewrite E in Hr'. injection Hr' as <-. apply Hs. rewrite -Hrt Hj. apply suffix_cons_r. done.
    + exists r'. split; [|done]. by rewrite lookup_delete_ne.
Qed.

Lemma WI_start_forward root w s errs f lf w' s' errs' :
  WI root w s → start_forward lf root f (w, s, errs) = Some (w', s', errs') → WI root w' s'.
Proof.
  intros HW. unfold start_forward. destruct (forwards s !! f) as [r|] eqn:E; [by intros [= <- <- <-]|].
  cbn [WithCancel]. destruct (ParseAddrPort (Host f)); [|done]. destruct HW.
  assert (∀ p r, services s !! p = Some r → ∃ k j, rs_ctx r = k :: root ∧ k ≠ next w ∧ rt_ctx (route r) = j :: k :: root) as Hold.
  { intros p r Hp. destruct (wi_svc0 _ _ Hp) as (k & j & ? & ? & _ & ? & _). exists k, j. split_and!; [done|lia|done]. }
  destruct (lf f); cbn; intros [= <- <- <-]; split; cbn; try done.
  - apply (dead_below_le (next w)); [done|lia].
  - intros f' r Hf'. apply lookup_insert_Some in Hf' as [[<- <-]|[_ Hf']].
    + exists (next w). cbn. split; [done|lia].
    + destruct (wi_fwd0 _ _ Hf') as (k & Hk & Hlt). exists k. split; [done|lia].
  - intros p r Hp. destruct (wi_svc0 _ _ Hp) as (k & j & ? & ? & ? & ? & ? & ?). exists k, j. split_and!; try done; lia.
  - intros f' p r r' Hf' Hp. apply lookup_insert_Some in Hf' as [[<- <-]|[_ Hf']]; [|by apply (wi_disj0 f' p)].
    destruct (Hold _ _ Hp) as (k & j & -> & Hne & _). cbn. congruence.
  - apply live_cancel. split; [done|apply suffix_len].
  - apply dead_below_cons; [|lia]. apply (dead_below_le (next w)); [done|lia].
  - intros f' r Hf'. destruct (wi_fwd0 _ _ Hf') as (k & Hk & Hlt). exists k. split; [done|lia].
  - intros p r Hp. destruct (wi_svc0 _ _ Hp) as (k & j & ? & ? & ? & ? & ? & ?). exists k, j.
    split_and!; try done; try lia. apply live_cancel. split; [done|]. intros Hs%suffix_svc. lia.
  - intros p rt Hin Hl. apply live_cancel in Hl as [Hl _]. by apply wi_conns0.
Qed.

(** Pointing a running service elsewhere. *)
Lemma WI_retarget root w s p r t :
  WI root w s → services s !! p = Some r →
  WI root (retarget w r t).1 {| forwards := forwards s; services := <[p := (retarget w r t).2]> (services s) |}.
Proof.
  intros [] E. destruct (wi_svc0 _ _ E) as (k & j & Hk & Hj & Hc & Hkn & Hjn & Hl).
  unfold retarget. cbn [WithCancel]. rewrite Hc. split; cbn.
  - apply live_cancel. split; [done|]. intros Hs%suffix_length. cbn in Hs. lia.
  - apply dead_below_cons; [|lia]. apply (dead_below_le (next w)); [done|lia].
  - intros f r' Hf. destruct (wi_fwd0 _ _ Hf) as (k' & ? & ?). exists k'. split; [done|lia].
  - intros p' r' Hp'. apply lookup_insert_Some in Hp' as [[<- <-]|[Hne Hp']]; cbn.
    + exists k, (next w). rewrite Hk. split_and!; try done; try lia. apply live_cancel. split.
      * apply (live_fresh (next w)); [done|lia|]. exact (live_parent _ _ _ Hl).
      * intros Hs%suffix_route. lia.
    + destruct (wi_svc0 _ _ Hp') as (k' & j' & H1 & H2 & H3 & H4 & H5 & H6). exists k', j'.
      split_and!; try done; try lia. apply live_cancel. split; [done|]. intros [_ Hs]%suffix_route.
      apply Hne. eapply wi_inj0; [exact E|exact Hp'|congruence].
  - intros p1 p2 r1 r2 H1 H2.
    apply lookup_insert_Some in H1 as [[<- <-]|[Hn1 H1]]; apply lookup_insert_Some in H2 as [[<- <-]|[Hn2 H2]]; cbn; intros He.
    + done.
    + by apply (wi_inj0 _ _ _ _ E H2).
    + by apply (wi_inj0 _ _ _ _ H1 E).
    + by apply (wi_inj0 _ _ _ _ H1 H2).
  - intros f p' r1 r2 H1 H2. apply lookup_insert_Some in H2 as [[<- <-]|[_ H2]]; cbn.
    + by apply (wi_disj0 _ _ _ _ H1 E).
    + by apply (wi_disj0 _ _ _ _ H1 H2).
  - intros p' rt Hin Hlv. apply live_cancel in Hlv as [Hlv Hs]. destruct (wi_conns0 _ _ Hin Hlv) as (r' & Hr' & Hrt).
    destruct (decide (p = p')) as [<-|Hne].
    + exfalso. rewrite E in Hr'. injection Hr' as <-. apply Hs. by rewrite -Hrt Hj.
    + exists r'. split; [|done]. by rewrite lookup_insert_ne.
Qed.

Lemma WI_start_service root w s errs ls pt w' s' errs' :
  WI root w s → start_service ls root pt (w, s, errs) = (w', s', errs') → WI root w' s'.
Proof.
  intros HW. destruct pt as [p t]. unfold start_service. destruct (services s !! p) as [r|] eqn:E.
  { case_if; [by intros [= <- <- <-]|]. pose proof (WI_retarget _ _ _ _ _ t HW E) as H.
    destruct (retarget w r t) as [w1 r1]. intros [= <- <- <-]. exact H. }
  destruct HW. cbn.
  assert (∀ p r, services s !! p = Some r → ∃ k j, rs_ctx r = k :: root ∧ k ≠ next w ∧ rt_ctx (route r) = j :: k :: root) as Hold.
  { intros p' r Hp. destruct (wi_svc0 _ _ Hp) as (k & j & ? & ? & _ & ? & _). exists k, j. split_and!; [done|lia|done]. }
  destruct (ls p); cbn; intros [= <- <- <-]; split; cbn; try done.
  - apply (dead_below_le (next w)); [done|lia].
  - intros f' r Hf'. destruct (wi_fwd0 _ _ Hf') as (k & Hk & Hlt). exists k. split; [done|lia].
  - intros p' r Hp. apply lookup_insert_Some in Hp as [[<- <-]|[Hne Hp]]; cbn.
    + exists (next w), (S (next w)). split_and!; try done; try lia.
      apply (live_fresh (next w)); [done|lia|]. by apply (live_fresh (next w)).
    + destruct (wi_svc0 _ _ Hp) as (k & j & ? & ? & ? & ? & ? & ?). exists k, j. split_and!; try done; lia.
  - intros p1 p2 r1 r2 H1 H2.
    apply lookup_insert_Some in H1 as [[<- <-]|[Hn1 H1]]; apply lookup_insert_Some in H2 as [[<- <-]|[Hn2 H2]]; cbn; intros He; try done.
    + destruct (Hold _ _ H2) as (k & j & Hk & Hne & _). congruence.
    + destruct (Hold _ _ H1) as (k & j & Hk & Hne & _). congruence.
    + by apply (wi_inj0 _ _ _ _ H1 H2).
  - intros f p' r1 r2 H1 H2. apply lookup_insert_Some in H2 as [[<- <-]|[_ H2]]; cbn.
    + destruct (wi_fwd0 _ _ H1) as (k & -> & Hlt). intros [= ->]. lia.
    + by apply (wi_disj0 _ _ _ _ H1 H2).
  - intros p' rt Hin Hl. destruct (wi_conns0 _ _ Hin Hl) as (r & Hr & Hrt). exists r. split; [|done].
    rewrite lookup_insert_ne; [done|]. congruence.
  - apply live_cancel. split; [done|apply suffix_len].
  - apply dead_below_cons; [|lia]. apply (dead_below_le (next w)); [done|lia].
  - intros f' r Hf'. destruct (wi_fwd0 _ _ Hf') as (k & Hk & Hlt). exists k. split; [done|lia].
  - intros p' r Hp. destruct (wi_svc0 _ _ Hp) as (k & j & ? & ? & ? & ? & ? & ?). exists k, j.
    split_and!; try done; try lia. apply live_cancel. split; [done|]. intros Hs%suffix_svc. lia.
  - intros p' rt Hin Hl. apply live_cancel in Hl as [Hl _]. by apply wi_conns0.
Qed.

(** ** What the loops of ApplyRuntime do *)

Lemma stop_forwards_spec root want L w s :
  WI root w s →
  let r := foldl (λ ws f, stop_forward want f ws) (w, s) L in
  WI root r.1 r.2 ∧ services r.2 = services s ∧ conns r.1 = conns w ∧
  ∀ f, forwards r.2 !! f = if bool_decide (f ∈ L ∧ f ∉ want) then None else forwards s !! f.
Proof.
  revert w s. induction L as [|f L IH]; intros w s HW; cbn [foldl].
  { by split_and!. }
  pose proof (WI_stop_forward root w s want f HW) as HW'.
  assert (services (stop_forward want f (w, s)).2 = services s ∧ conns (stop_forward want f (w, s)).1 = conns w ∧
    ∀ g, forwards (stop_forward want f (w, s)).2 !! g = if bool_decide (g = f ∧ f ∉ want) then None else forwards s !! g) as (Hs & Hc & Hf).
  { unfold stop_forward. destruct (forwards s !! f) as [r|] eqn:E.
    - case_if; cbn; bool_hyps; (split; [done|split; [done|]]); intros g.
      + by rewrite bool_decide_eq_false_2; [|tauto].
      + destruct (decide (g = f)) as [->|Hne].
        * by rewrite lookup_delete_eq bool_decide_eq_true_2.
        * rewrite lookup_delete_ne; [|congruence]. by rewrite bool_decide_eq_false_2; [|tauto].
    - cbn. (split; [done|split; [done|]]). intros g. case_if; [|done]. bool_hyps. naive_solver. }
  destruct (stop_forward want f (w, s)) as [w1 s1]. cbn [fst snd] in *.
  destruct (IH w1 s1 HW') as (HW2 & Hs2 & Hc2 & Hf2). split_and!; [done|congruence|congruence|].
  intros g. rewrite Hf2 Hf. repeat case_bool_decide; set_solver.
Qed.

Lemma stop_services_spec root want L w s :
  WI root w s →
  let r := foldl (λ ws p, stop_service want p ws) (w, s) L in
  WI root r.1 r.2 ∧ forwards r.2 = forwards s ∧ conns r.1 = conns w ∧
  ∀ p, services r.2 !! p = if bool_decide (p ∈ L ∧ want !! p = None) then None else services s !! p.
Proof.
  revert w s. induction L as [|f L IH]; intros w s HW; cbn [foldl].
  { by split_and!. }
  pose proof (WI_stop_service root w s want f HW) as HW'.
  assert (forwards (stop_service want f (w, s)).2 = forwards s ∧ conns (stop_service want f (w, s)).1 = conns w ∧
    ∀ g, services (stop_service want f (w, s)).2 !! g = if bool_decide (g = f ∧ want !! f = None) then None else services s !! g) as (Hs & Hc & Hf).
  { unfold stop_service. destruct (services s !! f) as [r|] eqn:E.
    - destruct (want !! f) as [t|] eqn:Ew; cbn; (split; [done|split; [done|]]); intros g.
      + by rewrite bool_decide_eq_false_2; [|naive_solver].
      + destruct (decide (g = f)) as [->|Hne].
        * by rewrite lookup_delete_eq bool_decide_eq_true_2.
        * rewrite lookup_delete_ne; [|congruence]. by rewrite bool_decide_eq_false_2; [|tauto].
    - cbn. (split; [done|split; [done|]]). intros g. case_if; [|done]. bool_hyps. naive_solver. }
  destruct (stop_service want f (w, s)) as [w1 s1]. cbn [fst snd] in *.
  destruct (IH w1 s1 HW') as (HW2 & Hs2 & Hc2 & Hf2). split_and!; [done|congruence|congruence|].
  intros g. rewrite Hf2 Hf. repeat case_bool_decide; try done; set_solver.
Qed.

(** The failures of a start loop, in its order. *)
Definition forward_errs (lf : RuntimeForward → bool) (s : runtimeState) (L : list RuntimeForward) : list rerr :=
  RErrListenForward <$> filter (λ f, forwards s !! f = None ∧ lf f = false) L.
Definition service_errs (ls : Z → bool) (s : runtimeState) (L : list (Z * serviceTarget)) : list rerr :=
  (λ pt, RErrListenService pt.1) <$> filter (λ pt, services s !! pt.1 = None ∧ ls pt.1 = false) L.

Lemma start_forwards_spec root lf L w s errs w' s' errs' :
  WI root w s →
  foldl (λ oa f, a ← oa; start_forward lf root f a) (Some (w, s, errs)) L = Some (w', s', errs') →
  WI root w' s' ∧ services s' = services s ∧ conns w' = conns w ∧ errs' = errs ++ forward_errs lf s L ∧
  ∀ f, is_Some (forwards s' !! f) ↔ is_Some (forwards s !! f) ∨ (f ∈ L ∧ lf f = true).
Proof.
  revert w s errs. induction L as [|f L IH]; intros w s errs HW; cbn [foldl].
  { intros [= <- <- <-]. unfold forward_errs. rewrite app_nil_r. split_and!; try done. set_solver. }
  assert (∀ l, foldl (λ oa f, a ← oa; start_forward lf root f a) None l = None) as HN by by induction l.
  change (mbind _ (Some ?x)) with (start_forward lf root f x).
  destruct (start_forward lf root f (w, s, errs)) as [[[w1 s1] errs1]|] eqn:E; [|by rewrite HN].
  pose proof (WI_start_forward _ _ _ _ _ _ _ _ _ HW E) as HW1. intros H.
  destruct (IH _ _ _ HW1 H) as (HW2 & Hs2 & Hc2 & He2 & Hf2). clear IH H.
  assert (services s1 = services s ∧ conns w1 = conns w ∧ errs1 = errs ++ forward_errs lf s [f] ∧
    (∀ g, lf g = false → forwards s1 !! g = forwards s !! g) ∧
    ∀ g, is_Some (forwards s1 !! g) ↔ is_Some (forwards s !! g) ∨ (g = f ∧ lf f = true)) as (Hs & Hc & He & Hk & Hf).
  { unfold start_forward in E. unfold forward_errs. rewrite filter_cons filter_nil.
    destruct (forwards s !! f) as [r|] eqn:Ef.
    { injection E as <- <- <-. case_decide; [naive_solver|]. rewrite app_nil_r. naive_solver. }
    cbn in E. destruct (ParseAddrPort (Host f)); [|done].
    destruct (lf f) eqn:El; injection E as <- <- <-; cbn.
    - case_decide; [naive_solver|]. rewrite app_nil_r. split_and!; try done; intros g.
      + intros Hg. rewrite lookup_insert_ne; [done|congruence].
      + rewrite lookup_insert_is_Some'. naive_solver.
    - case_decide; [|naive_solver]. naive_solver. }
  split_and!; [done|congruence|congruence| |].
  - rewrite He2 He -app_assoc. f_equal. unfold forward_errs. rewrite -fmap_app. f_equal.
    change (f :: L) with ([f] ++ L). rewrite filter_app. f_equal.
    apply list_filter_iff. intros g. split; intros [H1 H2]; (split; [|done]); by rewrite Hk in H1 |- *.
  - intros g. rewrite Hf2 Hf. set_solver.
Qed.

(** One entry of the service loop: what becomes of its port, and of the
    others. *)
Definition after_start (ls : Z → bool) (old : option runtimeService) (port : Z) (t : serviceTarget) (new : option runtimeService) : Prop :=
  match old with
  | Some r => if bool_decide (rt_target (route r) = t) then new = Some r
              else ∃ r', new = Some r' ∧ rt_target (route r') = t
  | None => if ls port then ∃ r', new = Some r' ∧ rt_target (route r') = t else new = None
  end.
Lemma start_service_spec root ls p t w s errs w' s' errs' :
  start_service ls root (p, t) (w, s, errs) = (w', s', errs') →
  forwards s' = forwards s ∧ conns w' = conns w ∧ errs' = errs ++ service_errs ls s [(p, t)] ∧
  after_start ls (services s !! p) p t (services s' !! p) ∧
  ∀ q, q ≠ p → services s' !! q = services s !! q.
Proof.
  unfold start_service, service_errs, after_start. rewrite filter_cons filter_nil. cbn [fst].
  destruct (services s !! p) as [r|] eqn:E.
  - case_decide; [naive_solver|]. case_if.
    + intros [= <- <- <-]. rewrite app_nil_r. naive_solver.
    + cbn. intros [= <- <- <-]. rewrite app_nil_r. cbn. split_and!; try done.
      * destruct (cancelRoute r); done.
      * rewrite lookup_insert_eq. eauto.
      * intros q Hq. rewrite lookup_insert_ne; [done|congruence].
  - cbn. destruct (ls p) eqn:El; intros [= <- <- <-]; (case_decide; [try naive_solver|try naive_solver]);
      cbn; rewrite ?app_nil_r; split_and!; try done.
    + rewrite lookup_insert_eq. eauto.
    + intros q Hq. rewrite lookup_insert_ne; [done|congruence].
Qed.

Lemma start_services_spec root ls L w s errs :
  WI root w s → NoDup L.*1 →
  let '(w', s', errs') := foldl (λ a pt, start_service ls root pt a) (w, s, errs) L in
  WI root w' s' ∧ forwards s' = forwards s ∧ conns w' = conns w ∧ errs' = errs ++ service_errs ls s L ∧
  (∀ p t, (p, t) ∈ L → after_start ls (services s !! p) p t (services s' !! p)) ∧
  (∀ q, q ∉ L.*1 → services s' !! q = services s !! q).
Proof.
  revert w s errs. induction L as [|[p t] L IH]; intros w s errs HW HN.
  { cbn. unfold service_errs. rewrite app_nil_r. split_and!; try done. set_solver. }
  cbn [foldl]. destruct (start_service ls root (p, t) (w, s, errs)) as [[w1 s1] errs1] eqn:E.
  pose proof (WI_start_service _ _ _ _ _ _ _ _ _ HW E) as HW1.
  destruct (start_service_spec _ _ _ _ _ _ _ _ _ _ E) as (Hf1 & Hc1 & He1 & Hp1 & Hq1).
  cbn in HN. apply NoDup_cons in HN as [Hnin HN]. specialize (IH w1 s1 errs1 HW1 HN).
  destruct (foldl _ _ L) as [[w2 s2] errs2].
  destruct IH as (HW2 & Hf2 & Hc2 & He2 & Hp2 & Hq2). split_and!; [done|congruence|congruence| | |].
  - rewrite He2 He1 -app_assoc. f_equal. unfold service_errs. rewrite -fmap_app. f_equal.
    change ((p, t) :: L) with ([(p, t)] ++ L). rewrite filter_app. f_equal.
    apply filter_ext_in. intros [q u] Hin. cbn.
    rewrite Hq1; [done|]. intros ->. apply Hnin. apply list_elem_of_fmap. by exists (p, u).
  - intros q u [[= -> ->]|Hin]%elem_of_cons; [by rewrite Hq2|].
    rewrite -(Hq1 q); [by apply Hp2|]. intros ->. apply Hnin, list_elem_of_fmap. by exists (p, u).
  - intros q Hq. cbn in Hq. apply not_elem_of_cons in Hq as [Hne Hq]. rewrite Hq2; [|done]. by apply Hq1.
Qed.

(** Everything [ApplyRuntime] establishes. *)
Lemma ApplyRuntime_spec lf ls root rt o w s w' s' errs :
  WI root w s → orders_ok s rt o →
  ApplyRuntime lf ls root rt o w s = Some (w', s', errs) →
  WI root w' s' ∧ conns w' = conns w ∧
  (∀ f, is_Some (forwards s' !! f) ↔ f ∈ wanted_forwards rt ∧ (is_Some (forwards s !! f) ∨ lf f = true)) ∧
  (∀ p, match wanted_services rt !! p with
        | Some t => after_start ls (services s !! p) p t (services s' !! p)
        | None => services s' !! p = None
        end).
Proof.
  intros HW (HoF & HoS & HoW). unfold ApplyRuntime.
  destruct (foldl _ (w, s) (ord_forwards o)) as [w1 s1] eqn:E1.
  pose proof (stop_forwards_spec root (wanted_forwards rt) (ord_forwards o) w s HW) as H1. cbn zeta in H1. rewrite E1 in H1.
  cbn [fst snd] in H1. destruct H1 as (HW1 & Hs1 & Hc1 & Hf1).
  destruct (foldl _ (w1, s1) (ord_services o)) as [w2 s2] eqn:E2.
  pose proof (stop_services_spec root (wanted_services rt) (ord_services o) w1 s1 HW1) as H2. cbn zeta in H2. rewrite E2 in H2.
  cbn [fst snd] in H2. destruct H2 as (HW2 & Hf2 & Hc2 & Hs2).
  destruct (foldl _ _ (sortedForwards _)) as [[[w3 s3] errs3]|] eqn:E3; [|done]. cbn [mbind option_bind].
  apply start_forwards_spec in E3; [|done]. destruct E3 as (HW3 & Hs3 & Hc3 & _ & Hf3).
  assert (NoDup (ord_wanted o).*1) as HN by (rewrite HoW; apply NoDup_fst_map_to_list).
  pose proof (start_services_spec root ls (ord_wanted o) w3 s3 errs3 HW3 HN) as H4.
  intros [= H]. rewrite H in H4. destruct H4 as (HW4 & Hf4 & Hc4 & _ & Hp4 & Hq4).
  assert (∀ p, p ∈ ord_services o ↔ is_Some (services s !! p)) as HoS'.
  { intros p. rewrite HoS list_elem_of_fmap. split.
    - intros ([q r] & -> & Hin). apply elem_of_map_to_list in Hin. by exists r.
    - intros [r Hr]. exists (p, r). split; [done|]. by apply elem_of_map_to_list. }
  assert (∀ f, f ∈ ord_forwards o ↔ is_Some (forwards s !! f)) as HoF'.
  { intros p. rewrite HoF list_elem_of_fmap. split.
    - intros ([q r] & -> & Hin). apply elem_of_map_to_list in Hin. by exists r.
    - intros [r Hr]. exists (p, r). split; [done|]. by apply elem_of_map_to_list. }
  split_and!; [done|congruence| |].
  - intros f. rewrite Hf4 Hf3 Hf2 Hf1. unfold sortedForwards.
    assert (f ∈ merge_sort (λ a b, forward_le a b = true) (elements (wanted_forwards rt)) ↔ f ∈ wanted_forwards rt) as ->.
    { rewrite merge_sort_Permutation. apply elem_of_elements. }
    case_bool_decide as Hd.
    + split; [intros [[? [=]]|]|]; naive_solver.
    + rewrite HoF' in Hd. destruct (decide (f ∈ wanted_forwards rt)); naive_solver.
  - intros p. assert (services s3 !! p = if bool_decide (wanted_services rt !! p = None) then None else services s !! p) as Hs.
    { rewrite Hs3 Hs2 Hs1. specialize (HoS' p). clear -HoS'.
      destruct (wanted_services rt !! p) as [t|].
      - rewrite !bool_decide_eq_false_2; [done|done|by intros []].
      - rewrite (bool_decide_eq_true_2 (None = None)); [|done]. case_bool_decide as Hd; [done|].
        apply eq_None_not_Some. intros Hsome. apply Hd. split; [by apply HoS'|done]. }
    destruct (wanted_services rt !! p) as [t|] eqn:Ew.
    + rewrite bool_decide_eq_false_2 in Hs; [|done]. rewrite -Hs. apply Hp4. rewrite HoW. by apply elem_of_map_to_list.
    + rewrite Hq4; [by rewrite Hs bool_decide_eq_true_2|]. rewrite HoW. intros Hin.
      apply list_elem_of_fmap in Hin as ([q t] & -> & Hin). apply elem_of_map_to_list in Hin. cbn in *. congruence.
Qed.

(** ** Properties *)

(** The states a broker gets into: reloads, whatever the listeners and the map
    orders do, and guest connections, in any order. *)
Inductive running : World → runtimeState → Prop :=
| running_start : running {| next := 0; cancelled := []; closed := []; conns := [] |} {| forwards := ∅; services := ∅ |}
| running_apply w s lf ls rt o w' s' errs :
    running w s → orders_ok s rt o → ApplyRuntime lf ls [] rt o w s = Some (w', s', errs) → running w' s'
| running_accept w s p : running w s → running (accept w s p) s.

Lemma running_WI w s : running w s → WI [] w s.
Proof.
  induction 1 as [|w s lf ls rt o w' s' errs _ IH Ho Ha|w s p _ IH].
  - apply WI_initial.
  - by apply (ApplyRuntime_spec _ _ _ _ _ _ _ _ _ _ IH Ho) in Ha as [? _].
  - by apply WI_accept.
Qed.


(** A reload revokes at once and only what it should: a guest connection
    still open afterwards goes to the target the new file gives its port, and a
    connection whose port keeps its target stays open. *)
Theorem ApplyRuntime_revokes lf ls rt o w s w' s' errs p r :
  running w s → orders_ok s rt o → ApplyRuntime lf ls [] rt o w s = Some (w', s', errs) →
  (p, r) ∈ conns w → live (cancelled w) (rt_ctx r) = true →
  live (cancelled w') (rt_ctx r) = true ↔ wanted_services rt !! p = Some (rt_target r).
Proof.
  intros HW%running_WI Ho Ha Hin Hl.
  apply (ApplyRuntime_spec _ _ _ _ _ _ _ _ _ _ HW Ho) in Ha as (HW' & Hc & _ & Hs).
  destruct (wi_conns _ _ _ HW _ _ Hin Hl) as (r0 & Hr0 & <-). specialize (Hs p). rewrite Hr0 in Hs. split.
  - intros Hl'. rewrite -Hc in Hin. destruct (wi_conns _ _ _ HW' _ _ Hin Hl') as (r1 & Hr1 & Hrt).
    destruct (wanted_services rt !! p) as [t|]; [|congruence]. unfold after_start in Hs.
    case_bool_decide as Ht; [by rewrite Ht|]. destruct Hs as (r2 & Hr2 & Ht2). rewrite Hr1 in Hr2. injection Hr2 as ->.
    rewrite Hrt in Ht2. done.
  - intros Hw. rewrite Hw in Hs. unfold after_start in Hs. rewrite bool_decide_eq_true_2 in Hs; [|done].
    destruct (wi_svc _ _ _ HW' _ _ Hs) as (k & j & _ & -> & _ & _ & _ & Hlv). done.
Qed.

Definition forward_ok (f : RuntimeForward) : Prop :=
  ∃ hp, ParseAddrPort (Host f) = Some hp ∧ IsLoopback (Ap_Addr hp) = true ∧ Ap_Port hp ≠ 0 ∧ fw_GuestPort f ≠ 0.
Definition service_target_ok (path tcp : string) : Prop :=
  (tcp = "" ∧ IsAbs path = true) ∨
  (tcp ≠ "" ∧ path = "" ∧ ∃ ap, ParseAddrPort tcp = Some ap ∧ IsLoopback (Ap_Addr ap) = true ∧ Ap_Port ap ≠ 0).

Lemma validateServiceTarget_Ok path tcp u : validateServiceTarget path tcp = Ok u ↔ service_target_ok path tcp.
Proof.
  destruct u. unfold validateServiceTarget, service_target_ok.
  destruct (String.eqb_spec tcp "") as [->|Ht]; cbn [negb andb].
  - rewrite andb_false_r. destruct (IsAbs path); cbn; naive_solver.
  - rewrite andb_true_r. destruct (String.eqb_spec path "") as [->|Hp]; cbn [negb]; [|naive_solver].
    destruct (ParseAddrPort tcp) as [ap|]; [|naive_solver].
    destruct (IsLoopback (Ap_Addr ap)) eqn:El, (Z.eqb_spec (Ap_Port ap) 0); cbn.
    2: by split; [intros _; right; split_and!; [done|done|by exists ap]|].
    all: split; [done|]; intros [[? ?]|(_ & _ & ap' & [= <-] & ? & ?)]; congruence.
Qed.
Lemma check_forwards_Ok hosts fs u :
  check_forwards hosts fs = Ok u ↔
  Forall forward_ok fs ∧ NoDup ((λ f, ParseAddrPort (Host f)) <$> fs) ∧
  Forall (λ f, ∀ hp, ParseAddrPort (Host f) = Some hp → hp ∉ hosts) fs.
Proof.
  destruct u. revert hosts. induction fs as [|f fs IH]; intros hosts; cbn.
  { split; [|done]. intros _. split_and!; constructor. }
  rewrite !Forall_cons NoDup_cons. unfold forward_ok at 1.
  destruct (ParseAddrPort (Host f)) as [hp|] eqn:E; cbn;
    [|by split; [|intros [[(? & ? & _) _] _]]].
  assert (∀ e : rerr, (IsLoopback (Ap_Addr hp) = false ∨ Ap_Port hp = 0 ∨ fw_GuestPort f = 0) → ∀ P Q,
    Err e = Ok () ↔ ((∃ hp', Some hp = Some hp' ∧ IsLoopback (Ap_Addr hp') = true ∧ Ap_Port hp' ≠ 0 ∧ fw_GuestPort f ≠ 0) ∧ P) ∧ Q) as Hbad.
  { intros e He P Q. split; [done|]. intros [[(hp' & [= <-] & ? & ? & ?) _] _]. naive_solver congruence. }
  destruct (IsLoopback (Ap_Addr hp)) eqn:El; cbn; [|by apply Hbad; left].
  destruct (Z.eqb_spec (Ap_Port hp) 0); cbn; [by apply Hbad; auto|].
  destruct (Z.eqb_spec (fw_GuestPort f) 0); cbn; [by apply Hbad; auto|]. clear Hbad.
  case_bool_decide as Hin; [by split; [|intros (_ & _ & Hn & _); destruct (Hn hp)]|].
  rewrite IH list_elem_of_fmap. split.
  - intros (H1 & H2 & H3). split_and!; try done; [by exists hp| |by intros ? [= <-]|].
    + intros (f' & Hf' & Hin'). rewrite Forall_forall in H3. specialize (H3 f' Hin' hp). set_solver.
    + eapply Forall_impl; [exact H3|]. intros f' H hp' Hp'. specialize (H hp' Hp'). set_solver.
  - intros ((_ & H1) & (H2 & H2') & H3 & H4). split_and!; try done.
    apply Forall_forall. intros f' Hin' hp' Hp'. apply not_elem_of_cons. split.
    + intros ->. apply H2. by exists f'.
    + rewrite Forall_forall in H4. by apply (H4 f').
Qed.
Lemma check_services_Ok ports ss u :
  check_services ports ss = Ok u ↔
  Forall (λ s, sv_GuestPort s ≠ 0 ∧ sv_GuestPort s ≠ 53 ∧ service_target_ok (Path s) (TCP s)) ss ∧
  NoDup (sv_GuestPort <$> ss) ∧ Forall (λ s, sv_GuestPort s ∉ ports) ss.
Proof.
  destruct u. revert ports. induction ss as [|s ss IH]; intros ports; cbn.
  { split; [|done]. intros _. split_and!; constructor. }
  rewrite !Forall_cons NoDup_cons.
  destruct (Z.eqb_spec (sv_GuestPort s) 0); cbn; [by split; [|intros [[[? _] _] _]]|].
  destruct (Z.eqb_spec (sv_GuestPort s) 53); cbn; [by split; [|intros [[(_ & ? & _) _] _]]|].
  destruct (validateServiceTarget (Path s) (TCP s)) as [u|e] eqn:E; cbn; last first.
  { split; [done|]. intros [[(_ & _ & Hs) _] _]. apply (validateServiceTarget_Ok _ _ ()) in Hs. congruence. }
  apply validateServiceTarget_Ok in E. case_bool_decide as Hin; [by split; [|intros (_ & _ & ? & _)]|].
  rewrite IH list_elem_of_fmap. split.
  - intros (H1 & H2 & H3). split_and!; try done.
    + intros (s' & Hs' & Hin'). rewrite Forall_forall in H3. specialize (H3 s' Hin'). set_solver.
    + eapply Forall_impl; [exact H3|]. set_solver.
  - intros ((_ & H1) & (H2 & H2') & H3 & H4). split_and!; try done.
    apply Forall_forall. intros s' Hin'. apply not_elem_of_cons. split.
    + intros Heq. apply H2. by exists s'.
    + rewrite Forall_forall in H4. by apply (H4 s').
Qed.

(** [ParseRuntime] accepts exactly the files whose forwards listen on
    distinct loopback endpoints with non-zero ports, and whose services have
    distinct ports other than 0 and 53 and exactly one target, an absolute
    socket path or a loopback TCP endpoint. *)
Theorem ParseRuntime_iff decode data rt :
  ParseRuntime decode data = Ok rt ↔
  decode data = Some rt ∧ Forall forward_ok (Forwards rt) ∧
  NoDup ((λ f, ParseAddrPort (Host f)) <$> Forwards rt) ∧
  Forall (λ s, sv_GuestPort s ≠ 0 ∧ sv_GuestPort s ≠ 53 ∧ service_target_ok (Path s) (TCP s)) (Services rt) ∧
  NoDup (sv_GuestPort <$> Services rt).
Proof.
  unfold ParseRuntime. split.
  - intros H. inv_res.
    match goal with H : check_forwards _ _ = _ |- _ => apply check_forwards_Ok in H end.
    match goal with H : check_services _ _ = _ |- _ => apply check_services_Ok in H end.
    tauto.
  - intros (Hd & Hf & Hn & Hs & Hn'). rewrite Hd. cbn.
    rewrite (proj2 (check_forwards_Ok _ _ ())); [|split_and!; try done; apply Forall_forall; set_solver]. cbn.
    rewrite (proj2 (check_services_Ok _ _ ())); [done|]. split_and!; try done. apply Forall_forall. set_solver.
Qed.

(** A runtime file that parses never makes the reload panic: every host
    [MustParseAddrPort] sees was checked, so [ApplyRuntime] returns. *)
Theorem ApplyRuntime_total decode data rt lf ls root o w s :
  ParseRuntime decode data = Ok rt → is_Some (ApplyRuntime lf ls root rt o w s).
Proof.
  intros H. unfold ParseRuntime in H. inv_res.
  match goal with H : check_forwards _ _ = _ |- _ => apply check_forwards_Ok in H as (Hok & _) end.
  unfold ApplyRuntime. destruct (foldl _ _ (ord_services o)) as [w1 s1].
  assert (∀ f, f ∈ sortedForwards (wanted_forwards rt) → is_Some (ParseAddrPort (Host f))) as Hp.
  { intros f. unfold sortedForwards. rewrite merge_sort_Permutation elem_of_elements elem_of_list_to_set.
    intros Hin. rewrite Forall_forall in Hok. destruct (Hok f Hin) as (hp & -> & _). eauto. }
  revert Hp. generalize (sortedForwards (wanted_forwards rt)), w1, s1, (@nil rerr). clear.
  intros L. induction L as [|f L IH]; intros w s errs Hp; [by eexists|]. cbn [foldl].
  change (mbind _ (Some ?x)) with (start_forward lf root f x).
  assert (∃ w' s' errs', start_forward lf root f (w, s, errs) = Some (w', s', errs')) as (w' & s' & errs' & ->).
  { unfold start_forward. destruct (forwards s !! f); [by eauto|]. cbn.
    destruct (Hp f ltac:(set_solver)) as [hp ->]. destruct (lf f); eauto. }
  apply IH. set_solver.
Qed.

(** ** Witnesses *)

Definition orders_of (s : runtimeState) (rt : Runtime) : orders :=
  {| ord_forwards := (map_to_list (forwards s)).*1; ord_services := (map_to_list (services s)).*1;
     ord_wanted := map_to_list (wanted_services rt) |}.
Lemma orders_of_ok s rt : orders_ok s rt (orders_of s rt).
Proof. by split_and!. Qed.

Definition lab_rt0 : Runtime := {|
  Forwards := [{| Host := "127.0.0.1:8080"; fw_GuestPort := 80 |}];
  Services := [{| sv_GuestPort := 7022; Path := "/run/agent.sock"; TCP := "" |};
               {| sv_GuestPort := 9000; Path := ""; TCP := "127.0.0.1:9000" |}] |}.
Definition lab_rt1 : Runtime := {|
  Forwards := [{| Host := "127.0.0.1:8080"; fw_GuestPort := 8000 |}];
  Services := [{| sv_GuestPort := 7022; Path := ""; TCP := "[::1]:7022" |};
               {| sv_GuestPort := 9000; Path := ""; TCP := "127.0.0.1:9000" |}] |}.
Definition apply_lab (rt : Runtime) (ws : World * runtimeState) : World * runtimeState :=
  match ApplyRuntime (λ _, true) (λ _, true) [] rt (orders_of ws.2 rt) ws.1 ws.2 with
  | Some (w, s, _) => (w, s) | None => ws end.
Lemma running_apply_lab rt ws : running ws.1 ws.2 → running (apply_lab rt ws).1 (apply_lab rt ws).2.
Proof.
  intros H. unfold apply_lab. destruct (ApplyRuntime _ _ _ _ _ _ _) as [[[w s] e]|] eqn:E; [|done].
  eapply running_apply; [exact H|apply orders_of_ok|exact E].
Qed.
Definition lab_before : World * runtimeState :=
  let '(w, s) := apply_lab lab_rt0 ({| next := 0; cancelled := []; closed := []; conns := [] |}, {| forwards := ∅; services := ∅ |}) in
  (accept (accept w s 7022) s 9000, s).
Lemma lab_running : running lab_before.1 lab_before.2.
Proof.
  pose proof (running_apply_lab lab_rt0 ({| next := 0; cancelled := []; closed := []; conns := [] |},
    {| forwards := ∅; services := ∅ |}) running_start) as H. unfold lab_before.
  destruct (apply_lab lab_rt0 _) as [w s]. by do 2 apply running_accept.
Qed.
Definition lab_after : World * runtimeState := apply_lab lab_rt1 lab_before.

(** The retargeted service's connection dies, the other one lives on. *)
Example lab_after_ex :
  map (λ c, (c.1, live (cancelled lab_after.1) (rt_ctx c.2))) (conns lab_before.1) = [(9000, true); (7022, false)].
Proof. by vm_compute. Qed.

Lemma lab_apply : ∃ errs, ApplyRuntime (λ _, true) (λ _, true) [] lab_rt1 (orders_of lab_before.2 lab_rt1)
  lab_before.1 lab_before.2 = Some (lab_after.1, lab_after.2, errs).
Proof. exists []. vm_compute. reflexivity. Qed.
Definition lab_route : serviceRoute :=
  match services lab_before.2 !! 7022 with Some r => route r | None => {| rt_target := {| network := ""; addr := "" |}; rt_ctx := [] |} end.
Lemma ApplyRuntime_revokes_witness :
  live (cancelled lab_after.1) (rt_ctx lab_route) = true ↔ wanted_services lab_rt1 !! 7022 = Some (rt_target lab_route).
Proof.
  destruct lab_apply as [errs H].
  apply (ApplyRuntime_revokes _ _ _ _ _ _ _ _ _ 7022 lab_route lab_running (orders_of_ok _ _) H).
  - vm_compute. right. left.
  - by vm_compute.
Defined.
Lemma ApplyRuntime_total_witness :
  is_Some (ApplyRuntime (λ _, true) (λ _, false) [] lab_rt0 (orders_of lab_after.2 lab_rt0) lab_after.1 lab_after.2).
Proof. apply (ApplyRuntime_total (λ _, Some lab_rt0) "{}"). by vm_compute. Defined.
