(* ===== verification/Sniff.v ===== *)
(** * Passive inspection of guest connections

    [src/internal/netbroker/sniff.go]: the first bytes a guest sends are
    collected, bounded, until they identify TLS or HTTP or the inspector gives
    up; at most one report is made. Bytes are kept as a string. The ClientHello
    parser of [crypto/tls] is the argument [clientHello]: the server name and
    the offered protocols. *)

From S2P Require Import Prelude GoStrings.
Open Scope string_scope.
Open Scope list_scope.
Open Scope Z_scope.

Definition sniffMax : Z := 16384.
Definition sniffReads : Z := 8.
Definition slen (s : string) : Z := Z.of_nat (String.length s).

(** The recorded fields; a missing key is [None] or the empty list. *)
Inductive info :=
| InfoTLS (sni : option string) (alpn : list string)
| InfoHTTP (method path : string) (host : option string).

Definition httpMethods : list string :=
  ["GET"; "HEAD"; "POST"; "PUT"; "DELETE"; "PATCH"; "OPTIONS"; "CONNECT"; "TRACE"].
Definition isMethod (m : string) : bool := existsb (String.eqb m) httpMethods.
Definition isMethodPrefix (s : string) : bool := existsb (λ x, HasPrefix x s) httpMethods.
Definition stripQuery (target : string) : string := (Cut target "?").1.1.

Definition CRLF : string := String (chr 13) (String (chr 10) "").

(** The header loop: the last [Host] line wins. *)
Definition host_of (lines : list string) : option string :=
  foldl (λ h l, let '(k, v, ok) := Cut l ":" in
                if ok && EqualFold (TrimSpace k) "host" then Some (TrimSpace v) else h) None lines.

Definition identifyHTTP (s : string) : option info * bool :=
  let '(method, _, found) := Cut s " " in
  if negb found then (None, (slen s <? 8) && isMethodPrefix s) else
  if negb (isMethod method) then (None, false) else
  let '(head, _, complete) := Cut s (CRLF +:+ CRLF) in
  let lines := Split head CRLF in
  let parts := Fields (hd "" lines) in
  match parts with
  | _ :: target :: version :: _ =>
      if negb (HasPrefix version "HTTP/") then (None, negb complete && negb (Contains s CRLF)) else
      let host := host_of (tl lines) in
      if negb (bool_decide (is_Some host)) && negb complete then (None, true) else
      (Some (InfoHTTP method (stripQuery target) host), false)
  | _ => (None, negb complete && negb (Contains s CRLF))
  end.

(** The byte at [i]; out of range is excluded by the callers' length tests. *)
Definition byte_at (i : nat) (s : string) : Z :=
  match String.get i s with Some c => code c | None => 0 end.

Section Sniff.
Context (clientHello : string → option (string * list string)).

Definition identifyTLS (b : string) : option info * bool :=
  if slen b <? 5 then (None, true) else
  if negb (byte_at 1 b =? 3) then (None, false) else
  let need := 5 + (byte_at 3 b * 256 + byte_at 4 b) in
  if slen b <? need then (None, true) else
  match clientHello b with
  | None => (None, false)
  | Some (name, protos) => (Some (InfoTLS (if String.eqb name "" then None else Some name) protos), false)
  end.

Definition identify (b : string) : option info * bool :=
  match b with
  | EmptyString => (None, true)
  | String c _ => if code c =? 22 then identifyTLS b else identifyHTTP b
  end.

Record sniffConn := { buf : string; reads : Z; done_ : bool }.
Definition fresh : sniffConn := {| buf := ""; reads := 0; done_ := false |}.

(** [inspect]: the new state and the report, if any. *)
Definition inspect (c : sniffConn) (data : string) : sniffConn * list info :=
  if done_ c then (c, []) else
  let reads' := reads c + 1 in
  let buf' := buf c +:+ stake (Z.to_nat (Z.min (slen data) (sniffMax - slen (buf c)))) data in
  let '(i, more) := identify buf' in
  let rep := match i with Some x => [x] | None => [] end in
  if bool_decide (is_Some i) || negb more || (sniffReads <=? reads') || (sniffMax <=? slen buf')
  then ({| buf := ""; reads := reads'; done_ := true |}, rep)
  else ({| buf := buf'; reads := reads'; done_ := false |}, rep).

(** [Read]: data of a non-empty read is inspected and handed on unchanged. *)
Definition Read (c : sniffConn) (data : string) : sniffConn * list info * string :=
  if 0 <? slen data then let '(c', r) := inspect c data in (c', r, data) else (c, [], data).

(** A whole connection: the reads in order. *)
Fixpoint run (c : sniffConn) (chunks : list string) : sniffConn * list info * list string :=
  match chunks with
  | [] => (c, [], [])
  | d :: ds =>
      let '(c1, r1, o1) := Read c d in
      let '(c2, r2, o2) := run c1 ds in
      (c2, r1 ++ r2, o1 :: o2)
  end.

(** ** Lemmas *)

Lemma slen_app a b : slen (a +:+ b) = slen a + slen b.
Proof. unfold slen. rewrite slength_app. lia. Qed.
Lemma slen_stake k s : slen (stake k s) = Z.min (Z.of_nat k) (slen s).
Proof.
  unfold slen. revert s. induction k as [|k IH]; intros [|c s]; cbn; try lia. specialize (IH s). lia.
Qed.

Definition sniff_ok (c : sniffConn) : Prop :=
  slen (buf c) ≤ sniffMax ∧ 0 ≤ reads c ≤ sniffReads ∧ (done_ c = true → buf c = "") ∧
  (done_ c = false → reads c < sniffReads ∧ slen (buf c) < sniffMax).

Lemma inspect_ok c data : sniff_ok c → sniff_ok (inspect c data).1.
Proof.
  intros (Hb & Hr & Hd & Hn). unfold inspect. destruct (done_ c) eqn:E; [unfold sniff_ok; by rewrite E|].
  destruct (Hn eq_refl) as [Hlt Hlb].
  set (b := buf c +:+ _).
  assert (slen b ≤ sniffMax) as Hle.
  { unfold b. rewrite slen_app slen_stake. unfold slen in *. lia. }
  destruct (identify b) as [i more]. case_if; unfold sniff_ok, sniffMax, sniffReads in *; cbn.
  - unfold slen. cbn. split_and!; try done; lia.
  - bool_hyps. split_and!; try done; lia.
Qed.

(** Once done, nothing more is reported; a report ends the inspection. *)
Lemma inspect_report c data i :
  i ∈ (inspect c data).2 → done_ c = false ∧ (inspect c data).2 = [i] ∧ done_ (inspect c data).1 = true ∧
  ∃ more, identify (buf c +:+ stake (Z.to_nat (Z.min (slen data) (sniffMax - slen (buf c)))) data) = (Some i, more).
Proof.
  unfold inspect. destruct (done_ c) eqn:E; [cbn; set_solver|].
  destruct (identify _) as [[x|] more] eqn:Ei; cbn.
  - intros ->%list_elem_of_singleton. by split_and!; [..|exists more].
  - case_if; cbn; set_solver.
Qed.
Lemma Read_data c d : (Read c d).2 = d.
Proof. unfold Read. case_if; [|done]. by destruct (inspect c d). Qed.
Lemma Read_ok c d : sniff_ok c → sniff_ok (Read c d).1.1.
Proof.
  intros H. unfold Read. case_if; [|done]. pose proof (inspect_ok c d H). by destruct (inspect c d).
Qed.
Lemma Read_reports c d : (Read c d).1.2 = [] ∨ (∃ i, (Read c d).1.2 = [i] ∧ done_ (Read c d).1.1 = true ∧ done_ c = false).
Proof.
  unfold Read. case_if; [|by left]. pose proof (inspect_report c d) as H.
  destruct (inspect c d) as [c' [|i l]]; [by left|]. cbn in *.
  destruct (H i ltac:(set_solver)) as (? & [= ->] & ? & _). right. by exists i.
Qed.
Lemma run_done c ds : done_ c = true → (run c ds).1.2 = [] ∧ (run c ds).1.1 = c.
Proof.
  intros H. induction ds as [|d ds IH]; [done|]. cbn [run].
  assert (Read c d = (c, [], d)) as ->. { unfold Read, inspect. rewrite H. by case_if. }
  destruct (run c ds) as [[c' r] o]. cbn in *. naive_solver.
Qed.


(** What is reported of an HTTP request carries no query string: the path
    ends before the first question mark, and the method is a known one. *)
Theorem identify_no_query b method path host more :
  identify b = (Some (InfoHTTP method path host), more) →
  has_char "?" path = false ∧ isMethod method = true ∧ more = false.
Proof.
  unfold identify. destruct b as [|c r]; [done|]. case_if.
  { unfold identifyTLS. repeat (case_if; [done|]). destruct (clientHello _) as [[? ?]|]; done. }
  unfold identifyHTTP. destruct (Cut (String c r) " ") as [[m ?] found]. case_if; [done|]. case_if; [done|].
  destruct (Cut (String c r) (CRLF +:+ CRLF)) as [[h ?] complete].
  destruct (Fields _) as [|? [|target [|v ?]]]; try done. case_if; [done|]. case_if; [done|].
  intros [= <- <- <- <-]. bool_hyps. split_and!; try done.
  unfold stripQuery, Cut. change "?" with (sep1 "?").
  destruct (cut target (sep1 "?")) as [[a z]|] eqn:E; cbn [fst].
  - by apply cut_char_Some in E as [_ ?].
  - by apply cut_char_None in E.
Qed.

Lemma stake_all s k : (String.length s ≤ k)%nat → stake k s = s.
Proof. revert k. induction s as [|c s IH]; intros [|k]; cbn; intros; try lia; try done. rewrite IH; [done|lia]. Qed.
Lemma stake_min s k : slen s ≤ k → stake (Z.to_nat (Z.min (slen s) k)) s = s.
Proof. intros H. apply stake_all. unfold slen in *. lia. Qed.

(** A request that arrives in one read is reported at once, and a request
    cut anywhere before it can be identified is reported as soon as the rest
    arrives, with the same fields: splitting the first bytes in two does not
    hide what a connection is for. *)
Theorem sniff_split a b i :
  a ≠ "" → b ≠ "" → slen (a +:+ b) ≤ sniffMax → identify a = (None, true) → identify (a +:+ b) = (Some i, false) →
  (run fresh [a +:+ b]).1.2 = [i] ∧ (run fresh [a; b]).1.2 = [i].
Proof.
  intros Ha Hb Hlen Hia Hib. rewrite slen_app in Hlen.
  assert (0 < slen a ∧ 0 < slen b) as [Hpa Hpb] by (destruct a, b; unfold slen; cbn; try done; lia).
  assert (∀ c d, 0 < slen d → Read c d = ((inspect c d).1, (inspect c d).2, d)) as HR.
  { intros c d Hd. unfold Read. destruct (Z.ltb_spec 0 (slen d)); [|lia]. by destruct (inspect c d). }
  assert (inspect fresh (a +:+ b) = ({| buf := ""; reads := 1; done_ := true |}, [i])) as H1.
  { unfold inspect. cbn [done_ fresh buf reads]. rewrite stake_min; [|rewrite slen_app; change (slen "") with 0; lia].
    change ("" +:+ ?x) with x. by rewrite Hib. }
  assert (inspect fresh a = ({| buf := a; reads := 1; done_ := false |}, [])) as H2.
  { unfold inspect. cbn [done_ fresh buf reads]. rewrite stake_min; [|change (slen "") with 0; lia].
    change ("" +:+ ?x) with x. rewrite Hia. cbn [is_Some negb].
    rewrite bool_decide_eq_false_2; [|by intros []]. cbn.
    destruct (Z.leb_spec sniffMax (slen a)); [lia|done]. }
  split.
  - cbn [run]. rewrite HR; [|rewrite slen_app; lia]. by rewrite H1.
  - cbn [run]. rewrite !HR; [|done..]. rewrite H2. cbn [fst snd]. unfold inspect. cbn [done_ buf reads].
    rewrite stake_min; [|lia]. by rewrite Hib.
Qed.
End Sniff.

(** ** Witnesses *)

Definition lab_request : string := "GET /a?token=1 HTTP/1.1" +:+ CRLF +:+ "Host: example.org" +:+ CRLF +:+ CRLF.
Example identify_ex :
  identify (λ _, None) lab_request = (Some (InfoHTTP "GET" "/a" (Some "example.org")), false) ∧
  identify (λ _, None) "OPT" = (None, true) ∧ identify (λ _, None) "SSH-2.0-x" = (None, false).
Proof. by vm_compute. Qed.
Lemma identify_no_query_witness : has_char "?" "/a" = false ∧ isMethod "GET" = true ∧ false = false.
Proof. apply (identify_no_query (λ _, None) lab_request "GET" "/a" (Some "example.org") false). by vm_compute. Defined.
Lemma sniff_split_witness :
  (run (λ _, None) fresh ["GET /a HTTP/1.0" +:+ CRLF +:+ CRLF]).1.2 = [InfoHTTP "GET" "/a" None] ∧
  (run (λ _, None) fresh ["GET"; " /a HTTP/1.0" +:+ CRLF +:+ CRLF]).1.2 = [InfoHTTP "GET" "/a" None].
Proof.
  apply (sniff_split (λ _, None) "GET" (" /a HTTP/1.0" +:+ CRLF +:+ CRLF) (InfoHTTP "GET" "/a" None)); by vm_compute.
Defined.
