(* ===== verification/SessionWire.v ===== *)
(** * The framed session protocol

    [src/internal/guest/session/protocol.go]: frames between a client and the
    holder of a session. A stream is the list of bytes still to come before
    its end. *)

From S2P Require Import Prelude.
Open Scope string_scope.
Open Scope list_scope.
Open Scope Z_scope.

Definition FrameInfo : Z := 73.
Definition FrameStarted : Z := 83.
Definition FrameHello : Z := 72.
Definition FrameData : Z := 68.
Definition FrameResize : Z := 82.
Definition FrameExit : Z := 88.
Definition FrameKicked : Z := 75.
Definition maxFrame : Z := 1048576.

Record Frame := { Type_ : Z; Payload : bytes }.
#[export] Instance Frame_eq_dec : EqDecision Frame.
Proof. solve_decision. Defined.

Inductive werr :=
| EOF
| ErrUnexpectedEOF
| ErrTooBig (n : Z)
| ErrSizeLen (n : Z)
| ErrExitLen (n : Z).

Definition blen (b : bytes) : Z := Z.of_nat (length b).

(** The bytes [WriteFrame] hands to one [Write]. *)
Definition WriteFrame (f : Frame) : result werr bytes :=
  if maxFrame <? blen (Payload f) then Err (ErrTooBig (blen (Payload f)))
  else Ok (Type_ f :: be32 (blen (Payload f)) ++ Payload f).

(** [io.ReadFull]: exactly [n] bytes, or EOF before the first one, or an
    unexpected EOF. *)
Definition ReadFull (r : bytes) (n : nat) : result werr (bytes * bytes) :=
  if (length r <? n)%nat then Err (if (length r =? 0)%nat then EOF else ErrUnexpectedEOF)
  else Ok (take n r, drop n r).

Definition ReadFrame (r : bytes) : result werr (Frame * bytes) :=
  '(hdr, r) ← ReadFull r 5;
  let n := rd32 (drop 1 hdr) in
  if maxFrame <? n then Err (ErrTooBig n) else
  match ReadFull r (Z.to_nat n) with
  | Err EOF => Err ErrUnexpectedEOF
  | Err e => Err e
  | Ok (payload, r) => Ok ({| Type_ := hd 0 hdr; Payload := payload |}, r)
  end.

Definition SizeFrame (t rows cols : Z) : Frame := {| Type_ := t; Payload := be16 rows ++ be16 cols |}.
Definition ParseSize (p : bytes) : result werr (Z * Z) :=
  if negb (blen p =? 4) then Err (ErrSizeLen (blen p)) else Ok (rd16 (slice p 0 2), rd16 (slice p 2 4)).
Definition ExitFrame (code : Z) : Frame := {| Type_ := FrameExit; Payload := be32 (u32 (int32 code)) |}.
Definition ParseExit (p : bytes) : result werr Z :=
  if negb (blen p =? 4) then Err (ErrExitLen (blen p)) else Ok (int32 (rd32 p)).

(** [ParseStarted]: an empty or unreadable payload is a start without
    details. [unmarshal] is the JSON decoder into the list of packages. *)
Definition ParseStarted (unmarshal : bytes → option (list string)) (p : bytes) : list string :=
  if (0 <? length p)%nat then default [] (unmarshal p) else [].

(** The frames of a stream until the first error. *)
Fixpoint ReadFrames (fuel : nat) (r : bytes) : list Frame * werr :=
  match fuel with
  | O => ([], EOF)
  | S fuel' =>
      match ReadFrame r with
      | Ok (f, r) => let '(fs, e) := ReadFrames fuel' r in (f :: fs, e)
      | Err e => ([], e)
      end
  end.

(** ** Lemmas *)

Lemma ReadFull_app b r : ReadFull (b ++ r) (length b) = Ok (b, r).
Proof.
  unfold ReadFull. rewrite length_app. destruct (Nat.ltb_spec (length b + length r) (length b)); [lia|].
  by rewrite take_app_length drop_app_length.
Qed.
Lemma WriteFrame_Ok f b :
  WriteFrame f = Ok b ↔ blen (Payload f) ≤ maxFrame ∧ b = Type_ f :: be32 (blen (Payload f)) ++ Payload f.
Proof. unfold WriteFrame. destruct (Z.ltb_spec maxFrame (blen (Payload f))); naive_solver lia. Qed.

Lemma header_split t n r : ReadFull ((t :: be32 n) ++ r) 5 = Ok (t :: be32 n, r).
Proof. exact (ReadFull_app (t :: be32 n) r). Qed.

(** A reader gets back the frame that was written and leaves the rest. *)
Lemma ReadFrame_WriteFrame f b rest :
  WriteFrame f = Ok b → ReadFrame (b ++ rest) = Ok (f, rest).
Proof.
  intros [Hlen ->]%WriteFrame_Ok. unfold ReadFrame.
  change ((Type_ f :: be32 (blen (Payload f)) ++ Payload f) ++ rest)
    with (((Type_ f :: be32 (blen (Payload f))) ++ Payload f) ++ rest). rewrite -app_assoc.
  rewrite header_split. cbn [mbind result_bind]. cbn [drop hd].
  rewrite -(app_nil_r (be32 _)) rd32_be32. unfold u32. rewrite wrap_small; [|unfold blen, maxFrame in *; lia].
  destruct (Z.ltb_spec maxFrame (blen (Payload f))); [lia|]. unfold blen. rewrite Nat2Z.id.
  rewrite ReadFull_app. by destruct f.
Qed.

Lemma ReadFull_short b n k : (k < n)%nat → (k ≤ length b)%nat →
  ReadFull (take k b) n = Err (if (k =? 0)%nat then EOF else ErrUnexpectedEOF).
Proof.
  intros. unfold ReadFull. rewrite length_take Nat.min_l; [|done].
  destruct (Nat.ltb_spec k n); [done|lia].
Qed.

(** A connection that breaks inside a frame is an error, never a wrong
    frame: at the frame's start it reads as end of stream, anywhere later as
    unexpected end. *)
Theorem ReadFrame_truncated f b k :
  WriteFrame f = Ok b → (k < length b)%nat →
  ReadFrame (take k b) = Err (if (k =? 0)%nat then EOF else ErrUnexpectedEOF).
Proof.
  intros [Hlen ->]%WriteFrame_Ok Hk. unfold ReadFrame.
  destruct (Nat.ltb_spec k 5) as [H5|H5].
  { rewrite ReadFull_short; [done|done|lia]. }
  replace (Type_ f :: be32 (blen (Payload f)) ++ Payload f)
    with ((Type_ f :: be32 (blen (Payload f))) ++ Payload f) in * by done.
  rewrite length_app in Hk. cbn [length] in Hk. rewrite length_be32 in Hk.
  rewrite take_app_ge; [|cbn [length]; rewrite length_be32; lia].
  rewrite header_split. cbn [mbind result_bind]. cbn [drop hd length]. rewrite length_be32.
  rewrite -(app_nil_r (be32 _)) rd32_be32. unfold u32. rewrite wrap_small; [|unfold blen, maxFrame in *; lia].
  destruct (Z.ltb_spec maxFrame (blen (Payload f))); [lia|]. unfold blen. rewrite Nat2Z.id.
  rewrite ReadFull_short; [|lia..]. destruct (Nat.eqb_spec k 0); [lia|]. by destruct (_ =? 0)%nat.
Qed.

(** A reader accepts nothing a writer would not have sent: what it reads
    is the encoding of the frame it returns, within the size bound. *)
Theorem ReadFrame_canonical r f r' :
  Forall is_byte r → ReadFrame r = Ok (f, r') →
  blen (Payload f) ≤ maxFrame ∧ ∃ b, WriteFrame f = Ok b ∧ r = b ++ r'.
Proof.
  intros Hb. unfold ReadFrame.
  destruct (ReadFull r 5) as [[hdr r1]|] eqn:E; [|done]. unfold ReadFull in E.
  destruct (Nat.ltb_spec (length r) 5); [done|]. injection E as <- <-. cbn [mbind result_bind].
  destruct r as [|t [|b0 [|b1 [|b2 [|b3 r]]]]]; cbn in *; try lia.
  set (n := b0 * 2 ^ 24 + b1 * 2 ^ 16 + b2 * 2 ^ 8 + b3).
  repeat match goal with H : Forall _ (_ :: _) |- _ => apply Forall_cons in H as [? H] end. unfold is_byte in *.
  change (drop 0 r) with r. change (take 0 r) with (@nil Z) in *. destruct (Z.ltb_spec maxFrame n); [done|].
  unfold ReadFull. destruct (Nat.ltb_spec (length r) (Z.to_nat n)); [by destruct (_ =? 0)%nat|].
  intros [= <- <-]. cbn [Payload].
  assert (blen (take (Z.to_nat n) r) = n) as Hn.
  { unfold blen. rewrite length_take Nat.min_l; [|lia]. rewrite Z2Nat.id; [done|]. unfold n. lia. }
  split; [lia|]. eexists. split.
  { apply WriteFrame_Ok. cbn. split; [lia|reflexivity]. }
  cbn [Type_ Payload]. rewrite Hn. unfold be32, u32, u8, wrap. cbn [app].
  rewrite take_drop. rewrite !Z.shiftr_div_pow2; [|lia..]. unfold n.
  change (2 ^ 32) with 4294967296. change (2 ^ 24) with 16777216. change (2 ^ 16) with 65536. change (2 ^ 8) with 256.
  repeat f_equal; Z.to_euclidean_division_equations; lia.
Qed.

(** C36: a whole session survives the wire: any sequence of frames written one
    after the other is read back in order and in full, then the end. *)
Theorem ReadFrames_written fs bs fuel :
  rmap WriteFrame fs = Ok bs → (length fs < fuel)%nat → ReadFrames fuel (concat bs) = (fs, EOF).
Proof.
  revert bs fuel. induction fs as [|f fs IH]; intros bs fuel H Hf; cbn in H; inv_res; destruct fuel as [|fuel]; try (cbn in *; lia).
  - done.
  - cbn [ReadFrames concat].
    match goal with H : WriteFrame f = _ |- _ => rewrite (ReadFrame_WriteFrame _ _ _ H) end.
    erewrite IH; [done|eassumption|cbn in *; lia].
Qed.

(** Sizes and exit statuses survive the wire as well. *)
Lemma ParseSize_SizeFrame t rows cols : ParseSize (Payload (SizeFrame t rows cols)) = Ok (u16 rows, u16 cols).
Proof.
  unfold ParseSize, SizeFrame, blen. cbn [Payload]. rewrite length_app !length_be16. cbn [Nat.add Z.of_nat].
  change (negb _) with false. unfold slice.
  rewrite -{1}(app_nil_r (be16 cols)). f_equal. f_equal.
  - rewrite -(rd16_be16 rows []). done.
  - rewrite -(rd16_be16 cols []). done.
Qed.
(** The exit status the client reports is the agent's for every 32-bit
    status, signals' -1 included, and the holder's window size is the client's;
    a payload of any other length is an error, never a guess. *)
Theorem exit_size_roundtrip code t rows cols p :
  (-2147483648 ≤ code ≤ 2147483647 → ParseExit (Payload (ExitFrame code)) = Ok code) ∧
  ParseSize (Payload (SizeFrame t rows cols)) = Ok (u16 rows, u16 cols) ∧
  (blen p ≠ 4 → ParseExit p = Err (ErrExitLen (blen p)) ∧ ParseSize p = Err (ErrSizeLen (blen p))).
Proof.
  split_and!.
  - intros Hc. unfold ParseExit, ExitFrame, blen. cbn [Payload]. rewrite length_be32. change (negb _) with false.
    cbn iota. rewrite -(app_nil_r (be32 _)) rd32_be32. f_equal. unfold int32, u32.
    rewrite (sext_id_range 32 code); [|lia..]. unfold wrap. rewrite Zmod_mod. fold (wrap 32 code).
    apply (sext_id 32); lia.
  - apply ParseSize_SizeFrame.
  - intros Hp. unfold ParseExit, ParseSize. by rewrite (proj2 (Z.eqb_neq _ _) Hp).
Qed.

(** ** Witnesses *)

Definition lab_frames : list Frame := [SizeFrame FrameHello 24 80; {| Type_ := FrameData; Payload := [104; 105] |}; ExitFrame (-1)].
Definition lab_bytes : list bytes := match rmap WriteFrame lab_frames with Ok b => b | Err _ => [] end.
Lemma ReadFrames_written_witness : ReadFrames 4 (concat lab_bytes) = (lab_frames, EOF).
Proof. apply ReadFrames_written; [by vm_compute|cbn; lia]. Defined.
Lemma ReadFrame_truncated_witness : ReadFrame (take 6 (concat (drop 1 lab_bytes))) = Err ErrUnexpectedEOF.
Proof.
  apply (ReadFrame_truncated {| Type_ := FrameData; Payload := [104; 105] |} [68; 0; 0; 0; 2; 104; 105] 6); [by vm_compute|cbn; lia].
Defined.
Lemma ReadFrame_canonical_witness :
  blen [7] ≤ maxFrame ∧ ∃ b, WriteFrame {| Type_ := 68; Payload := [7] |} = Ok b ∧ [68; 0; 0; 0; 1; 7; 9] = b ++ [9].
Proof.
  apply (ReadFrame_canonical [68; 0; 0; 0; 1; 7; 9] {| Type_ := 68; Payload := [7] |} [9]); [|by vm_compute].
  repeat constructor; unfold is_byte; lia.
Defined.
Lemma exit_size_roundtrip_witness : ParseExit (Payload (ExitFrame (-1))) = Ok (-1).
Proof. apply (exit_size_roundtrip (-1) 0 0 0 []). lia. Defined.
