(* ===== verification/SessionModes.v ===== *)
(** * Terminal modes of a session

    [src/internal/guest/session/modes.go]: the tracker that scans a program's
    output for escape sequences and replays the modes on a terminal that
    attaches later. Program output is a string of bytes; the kitty flags and
    the modifyOtherKeys level are Go [int]s, which the invariant keeps in
    range, so the bit operations never wrap. *)

From S2P Require Import Prelude GoStrings GoStrconv.
Open Scope string_scope.
Open Scope list_scope.
Open Scope Z_scope.

Definition trackedModes : list Z := [1; 25; 47; 1000; 1002; 1003; 1004; 1005; 1006; 1015; 1016; 1047; 1049; 2004].
Definition altScreenModes : list Z := [1049; 1047; 47].
Definition maxSequence : nat := 64.

Inductive pstate := Ground | Escape | InCSI.

Record ModeTracker := {
  state : pstate;
  seq : string;
  set_ : gmap Z bool;
  keypad : bool;
  kitty : list Z;
  otherKeys : Z
}.
Definition NewModeTracker : ModeTracker :=
  {| state := Ground; seq := ""; set_ := {[25 := true]}; keypad := false; kitty := []; otherKeys := 0 |}.
Definition reset (t : ModeTracker) : ModeTracker := NewModeTracker.

(** Field updates. *)
Definition with_state (t : ModeTracker) (st : pstate) (sq : string) : ModeTracker :=
  {| state := st; seq := sq; set_ := set_ t; keypad := keypad t; kitty := kitty t; otherKeys := otherKeys t |}.
Definition with_set (t : ModeTracker) (m : gmap Z bool) : ModeTracker :=
  {| state := state t; seq := seq t; set_ := m; keypad := keypad t; kitty := kitty t; otherKeys := otherKeys t |}.
Definition with_keypad (t : ModeTracker) (k : bool) : ModeTracker :=
  {| state := state t; seq := seq t; set_ := set_ t; keypad := k; kitty := kitty t; otherKeys := otherKeys t |}.
Definition with_kitty (t : ModeTracker) (k : list Z) : ModeTracker :=
  {| state := state t; seq := seq t; set_ := set_ t; keypad := keypad t; kitty := k; otherKeys := otherKeys t |}.
Definition with_otherKeys (t : ModeTracker) (k : Z) : ModeTracker :=
  {| state := state t; seq := seq t; set_ := set_ t; keypad := keypad t; kitty := kitty t; otherKeys := k |}.

(** [kittyKeys] on the flag stack; the stack's top is its last element. *)
Definition kitty_set (mode flags old : Z) : Z :=
  if mode =? 2 then Z.lor old flags else if mode =? 3 then Z.ldiff old flags else flags.
Definition kittyKeys (params : string) (k : list Z) : list Z :=
  match params with
  | String ">" r => k ++ [num_val (Atoi r)]
  | String "<" r =>
      let n := match Atoi r with NumOk v => if 0 <? v then v else 1 | _ => 1 end in
      take (Z.to_nat (Z.max 0 (Z.of_nat (length k) - n))) k
  | String "=" r =>
      let fields := Split r ";" in
      let flags := num_val (Atoi (hd "" fields)) in
      let mode := match fields with _ :: m :: _ => num_val (Atoi m) | _ => 1 end in
      let k := match k with [] => [0] | _ => k end in
      match last k with
      | Some top => take (pred (length k)) k ++ [kitty_set mode flags top]
      | None => k
      end
  | _ => k
  end.

(** The DEC private mode loop. *)
Definition set_mode (on : bool) (m : gmap Z bool) (s : string) : gmap Z bool :=
  match Atoi s with
  | NumOk n => if bool_decide (n ∈ trackedModes) then <[n := on]> m else m
  | _ => m
  end.

Definition csi (t : ModeTracker) (params : string) (final : ascii) : ModeTracker :=
  if Ascii.eqb final "h" || Ascii.eqb final "l" then
    match CutPrefix params "?" with
    | Some rest => with_set t (foldl (set_mode (Ascii.eqb final "h")) (set_ t) (Split rest ";"))
    | None => t
    end
  else if Ascii.eqb final "u" then with_kitty t (kittyKeys params (kitty t))
  else if Ascii.eqb final "m" then
    match CutPrefix params ">4" with
    | Some rest => with_otherKeys t (match CutPrefix rest ";" with Some v => num_val (Atoi v) | None => 0 end)
    | None => t
    end
  else t.

Definition ESC : ascii := chr 27.

(** One byte of [Feed]. *)
Definition feed1 (t : ModeTracker) (b : ascii) : ModeTracker :=
  match state t with
  | Ground => if Ascii.eqb b ESC then with_state t Escape (seq t) else t
  | Escape =>
      if Ascii.eqb b "[" then with_state t InCSI ""
      else if Ascii.eqb b "=" then with_state (with_keypad t true) Ground (seq t)
      else if Ascii.eqb b ">" then with_state (with_keypad t false) Ground (seq t)
      else if Ascii.eqb b "c" then with_state (reset t) Ground ""
      else if Ascii.eqb b ESC then t
      else with_state t Ground (seq t)
  | InCSI =>
      if (64 <=? code b) && (code b <=? 126) then
        let t := csi t (seq t) b in with_state t Ground (seq t)
      else if (32 <=? code b) && (code b <=? 63) && (String.length (seq t) <? maxSequence)%nat then
        with_state t InCSI (seq t +:+ sep1 b)
      else if Ascii.eqb b ESC then with_state t Escape (seq t)
      else with_state t Ground (seq t)
  end.
Fixpoint Feed (t : ModeTracker) (p : string) : ModeTracker :=
  match p with EmptyString => t | String b p' => Feed (feed1 t b) p' end.

Definition CSI : string := String ESC "[".
Definition mode_on (t : ModeTracker) (m : Z) : bool := default false (set_ t !! m).
Definition dec_mode (m : Z) (f : string) : string := CSI +:+ "?" +:+ Itoa m +:+ f.

(** The keys of [t.set], sorted. *)
Definition modes (t : ModeTracker) : list Z := merge_sort Z.le (map_to_list (set_ t)).*1.
Definition replay_mode (t : ModeTracker) (m : Z) : string :=
  if bool_decide (m ∈ altScreenModes) then ""
  else if m =? 25 then (if mode_on t m then "" else CSI +:+ "?25l")
  else if mode_on t m then dec_mode m "h" else "".
Definition sconcat (l : list string) : string := foldr (λ a b, a +:+ b) "" l.
Definition first_alt (t : ModeTracker) : option Z := snd <$> list_find (λ m, mode_on t m = true) altScreenModes.
Definition Replay (t : ModeTracker) : string :=
  (match first_alt t with Some m => dec_mode m "h" | None => "" end) +:+
  sconcat (map (replay_mode t) (modes t)) +:+
  (if keypad t then String ESC "=" else "") +:+
  sconcat (map (λ flags, CSI +:+ ">" +:+ Itoa flags +:+ "u") (kitty t)) +:+
  (if 0 <? otherKeys t then CSI +:+ ">4;" +:+ Itoa (otherKeys t) +:+ "m" else "").

Example Replay_ex :
  let t := Feed NewModeTracker (CSI +:+ "?1049;2004h" +:+ CSI +:+ "?25l" +:+ CSI +:+ ">1u" +:+ CSI +:+ "=3;2u" +:+ CSI +:+ ">4;2m") in
  Replay t = CSI +:+ "?1049h" +:+ CSI +:+ "?25l" +:+ CSI +:+ "?2004h" +:+ CSI +:+ ">3u" +:+ CSI +:+ ">4;2m".
Proof. by vm_compute. Qed.

(** ** The invariant *)

Definition int_ok (n : Z) : Prop := minInt64 ≤ n ≤ maxInt64.
Record tracker_ok (t : ModeTracker) : Prop := {
  ok_seq : (String.length (seq t) ≤ maxSequence)%nat;
  ok_keys : ∀ m, is_Some (set_ t !! m) → m ∈ trackedModes;
  ok_cursor : is_Some (set_ t !! 25);
  ok_kitty : Forall int_ok (kitty t);
  ok_other : int_ok (otherKeys t)
}.

Lemma num_val_Atoi_ok s : int_ok (num_val (Atoi s)).
Proof.
  destruct (Atoi s) as [n| |c] eqn:E; cbn; [by apply Atoi_range in E|unfold int_ok, minInt64, maxInt64; lia|].
  exact (Atoi_clip _ _ E).
Qed.
Lemma kitty_set_ok mode flags old : int_ok flags → int_ok old → int_ok (kitty_set mode flags old).
Proof.
  intros Hf Ho. unfold kitty_set, int_ok, minInt64, maxInt64 in *. repeat case_if; [| |done].
  - pose proof (signed_lor 63 old flags). lia.
  - pose proof (signed_ldiff 63 old flags). lia.
Qed.
Lemma kittyKeys_ok params k : Forall int_ok k → Forall int_ok (kittyKeys params k).
Proof.
  intros Hk. unfold kittyKeys. destruct params as [|c r]; [done|].
  assert (Forall int_ok (k ++ [num_val (Atoi r)])).
  { apply Forall_app. split; [done|]. constructor; [apply num_val_Atoi_ok|done]. }
  assert (∀ n, Forall int_ok (take n k)) by (intros; by apply Forall_take).
  assert (Forall int_ok (match k with [] => [0] | _ => k end)) as Hk0.
  { destruct k; [|done]. constructor; [|done]. unfold int_ok, minInt64, maxInt64. lia. }
  revert Hk0. generalize (match k with [] => [0] | _ => k end). intros k0 Hk0.
  assert (Forall int_ok (match last k0 with
    | Some top => take (pred (length k0)) k0 ++ [kitty_set (match Split r ";" with _ :: m :: _ => num_val (Atoi m) | _ => 1 end) (num_val (Atoi (hd "" (Split r ";")))) top]
    | None => k0 end)).
  { destruct (last k0) as [top|] eqn:El; [|done]. apply Forall_app. split; [by apply Forall_take|].
    constructor; [|done]. apply kitty_set_ok; [apply num_val_Atoi_ok|].
    rewrite last_lookup in El. exact (Forall_lookup_1 _ _ _ _ Hk0 El). }
  repeat case_match; subst; auto.
Qed.
Lemma foldl_set_mode_keys on l m n :
  is_Some (foldl (set_mode on) m l !! n) → is_Some (m !! n) ∨ n ∈ trackedModes.
Proof.
  revert m. induction l as [|s l IH]; intros m; [by left|]. cbn [foldl]. intros [H|H]%IH; [|by right].
  unfold set_mode in H. destruct (Atoi s) as [k| |]; [|by left..]. case_bool_decide; [|by left].
  apply lookup_insert_is_Some in H as [<-|[_ H]]; [by right|by left].
Qed.
Lemma foldl_set_mode_mono on l m n : is_Some (m !! n) → is_Some (foldl (set_mode on) m l !! n).
Proof.
  revert m. induction l as [|s l IH]; intros m H; [done|]. cbn [foldl]. apply IH.
  unfold set_mode. destruct (Atoi s); [|done..]. case_bool_decide; [|done].
  apply lookup_insert_is_Some. destruct (decide (n0 = n)); auto.
Qed.
Lemma csi_seq t params final : seq (csi t params final) = seq t.
Proof. unfold csi. repeat case_match; done. Qed.
Lemma csi_ok t params final : tracker_ok t → tracker_ok (csi t params final).
Proof.
  intros [H1 H2 H3 H4 H5]. unfold csi. case_if.
  { destruct (CutPrefix params "?") as [rest|]; [|done]. split; cbn [seq set_ keypad kitty otherKeys state with_set with_kitty with_otherKeys]; try done.
    - intros m [Hm|Hm]%foldl_set_mode_keys; [by apply H2|done].
    - by apply foldl_set_mode_mono. }
  case_if; [split; cbn [seq set_ keypad kitty otherKeys state with_set with_kitty with_otherKeys]; try done; by apply kittyKeys_ok|].
  case_if; [|done]. destruct (CutPrefix params ">4") as [rest|]; [|done].
  split; cbn [seq set_ keypad kitty otherKeys state with_set with_kitty with_otherKeys]; try done. destruct (CutPrefix rest ";"); [apply num_val_Atoi_ok|].
  unfold int_ok, minInt64, maxInt64. lia.
Qed.
Lemma NewModeTracker_ok : tracker_ok NewModeTracker.
Proof.
  split; cbn [seq set_ kitty otherKeys NewModeTracker].
  - unfold maxSequence. cbn. lia.
  - intros m [v Hm]. apply lookup_singleton_Some in Hm as [<- _]. unfold trackedModes. set_solver.
  - by eexists.
  - constructor.
  - unfold int_ok, minInt64, maxInt64. lia.
Qed.
Lemma with_state_ok t st s : tracker_ok t → (String.length s ≤ maxSequence)%nat → tracker_ok (with_state t st s).
Proof. by intros [] ?. Qed.
Lemma feed1_ok t b : tracker_ok t → tracker_ok (feed1 t b).
Proof.
  intros Hok. pose proof (ok_seq _ Hok) as Hs. unfold feed1. destruct (state t).
  - case_if; [by apply with_state_ok|done].
  - repeat case_if; try done; try (by apply with_state_ok).
    + apply with_state_ok; [done|cbn; lia].
    + apply with_state_ok; [by destruct Hok|done].
    + apply with_state_ok; [by destruct Hok|done].
    + apply with_state_ok; [apply NewModeTracker_ok|cbn; lia].
  - case_if. { apply with_state_ok; [by apply csi_ok|by rewrite csi_seq]. }
    case_if; [|case_if; by apply with_state_ok].
    apply with_state_ok; [done|]. bool_hyps. rewrite slength_app. cbn. lia.
Qed.

Lemma Feed_ok t p : tracker_ok t → tracker_ok (Feed t p).
Proof. revert t. induction p as [|b p IH]; intros t H; [done|]. cbn. by apply IH, feed1_ok. Qed.

(** Whatever a program prints, the tracker stays well formed: it buffers
    at most 64 bytes of an unfinished sequence, records only tracked modes,
    and keeps every flag word in the range of a Go [int]. *)
Theorem Feed_wf p :
  let t := Feed NewModeTracker p in
  (String.length (seq t) ≤ 64)%nat ∧ (∀ m, is_Some (set_ t !! m) → m ∈ trackedModes) ∧
  Forall int_ok (kitty t) ∧ int_ok (otherKeys t).
Proof. destruct (Feed_ok NewModeTracker p NewModeTracker_ok). by split_and!. Qed.

(** ** Replaying *)

Lemma Feed_app t a b : Feed t (a +:+ b) = Feed (Feed t a) b.
Proof. revert t. induction a as [|c a IH]; intros t; [done|]. rewrite sapp_cons. cbn. apply IH. Qed.

Definition param_char (c : ascii) : bool := (32 <=? code c) && (code c <=? 63).
Lemma num_char_param c : num_char c = true → param_char c = true.
Proof.
  unfold num_char, param_char, is_digit, between. change (code "0") with 48. change (code "9") with 57.
  intros H. apply orb_true_iff in H as [H|H].
  - bool_hyps. apply andb_true_iff. rewrite !Z.leb_le. lia.
  - by apply Ascii.eqb_eq in H as ->.
Qed.

(** A whole control sequence, from the ground state back to it. *)
Lemma Feed_params t p rest :
  state t = InCSI → sforall param_char p = true → (String.length (seq t) + String.length p ≤ maxSequence)%nat →
  Feed t (p +:+ rest) = Feed (with_state t InCSI (seq t +:+ p)) rest.
Proof.
  revert t. induction p as [|c p IH]; intros t Hst Hp Hlen.
  { rewrite sapp_nil_r. change ("" +:+ rest) with rest. f_equal. destruct t; cbn in *. by subst. }
  cbn [sforall] in Hp. apply andb_true_iff in Hp as [Hc Hp]. rewrite sapp_cons. cbn [Feed].
  assert (feed1 t c = with_state t InCSI (seq t +:+ sep1 c)) as ->.
  { unfold feed1. rewrite Hst. unfold param_char in Hc. bool_hyps. cbn [String.length] in Hlen.
    destruct (Z.leb_spec 64 (code c)); [lia|]. destruct (Z.leb_spec 32 (code c)); [|lia].
    destruct (Z.leb_spec (code c) 63); [|lia]. cbn [andb].
    destruct (Nat.ltb_spec (String.length (seq t)) maxSequence); [done|lia]. }
  rewrite IH; [|done|done|].
  - cbn [seq with_state]. by rewrite -sapp_assoc.
  - cbn [seq with_state]. rewrite slength_app. cbn [String.length sep1] in *. lia.
Qed.
Lemma Feed_csi t p f rest :
  state t = Ground → sforall param_char p = true → (String.length p ≤ maxSequence)%nat →
  (64 <=? code f) && (code f <=? 126) = true →
  Feed t (CSI +:+ p +:+ String f rest) = Feed (with_state (csi (with_state t InCSI p) p f) Ground p) rest.
Proof.
  intros Hst Hp Hlen Hf. unfold CSI. rewrite !sapp_cons. change ("" +:+ ?x) with x.
  cbn [Feed]. assert (feed1 (feed1 t ESC) "[" = with_state t InCSI "") as ->.
  { unfold feed1. rewrite Hst. done. }
  rewrite Feed_params; [|done|done|exact Hlen]. cbn [seq with_state]. change ("" +:+ p) with p.
  cbn [Feed]. unfold feed1. cbn [state with_state]. rewrite Hf. cbn [seq]. by rewrite csi_seq.
Qed.

(** What matters of a tracker in the ground state. *)
Definition at_ground (t : ModeTracker) (s : gmap Z bool) (kp : bool) (k : list Z) (o : Z) : Prop :=
  state t = Ground ∧ set_ t = s ∧ keypad t = kp ∧ kitty t = k ∧ otherKeys t = o.

Lemma sforall_num p q : (∀ c, num_char c = true → p c = true) → sforall num_char q = true → sforall p q = true.
Proof. apply sforall_impl. Qed.
Lemma Split1 s : sforall num_char s = true → Split s ";" = [s].
Proof.
  intros H. unfold Split. cbn [split_fuel]. change ";" with (sep1 ";").
  assert (cut s (sep1 ";") = None) as ->; [|done]. apply cut_char_None. unfold has_char.
  induction s as [|c s IH]; [done|]. cbn [sexists sforall] in H |- *. apply andb_true_iff in H as [Hc H].
  rewrite IH; [|done]. destruct (Ascii.eqb_spec ";" c) as [<-|]; [by vm_compute in Hc|done].
Qed.

Lemma Feed_dec t s kp k o m f rest :
  at_ground t s kp k o → m ∈ trackedModes → f = "h"%char ∨ f = "l"%char → int_ok m →
  ∃ t', Feed t (CSI +:+ "?" +:+ Itoa m +:+ String f rest) = Feed t' rest ∧
        at_ground t' (<[m := Ascii.eqb f "h"]> s) kp k o.
Proof.
  intros (Hst & Hs & Hkp & Hk & Ho) Hm Hf Hint.
  change ("?" +:+ Itoa m +:+ String f rest) with (("?" +:+ Itoa m) +:+ String f rest).
  pose proof (Itoa_shape m) as Hsh. pose proof (Itoa_length m Hint) as Hlen.
  rewrite Feed_csi; [|done| | |by destruct Hf as [->| ->]].
  - eexists. split; [reflexivity|]. unfold csi. destruct Hf as [->| ->].
    all: change ("?" +:+ Itoa m) with (String "?" (Itoa m)); cbn [Ascii.eqb orb CutPrefix].
    all: change (CutPrefix (String "?" (Itoa m)) "?") with (Some (Itoa m)); cbn [Bool.eqb orb].
    all: rewrite Split1; [|done]; cbn [foldl]; unfold set_mode; rewrite Atoi_Itoa; [|done].
    all: rewrite bool_decide_eq_true_2; [|done]; unfold at_ground; cbn; by subst.
  - change (sforall param_char (String "?" (Itoa m)) = true). cbn [sforall].
    by rewrite (sforall_impl num_char); [|apply num_char_param|].
  - change (String.length (String "?" (Itoa m)) ≤ maxSequence)%nat. unfold maxSequence. cbn. lia.
Qed.
Lemma Feed_push t s kp k o n rest :
  at_ground t s kp k o → int_ok n →
  ∃ t', Feed t (CSI +:+ ">" +:+ Itoa n +:+ String "u" rest) = Feed t' rest ∧ at_ground t' s kp (k ++ [n]) o.
Proof.
  intros (Hst & Hs & Hkp & Hk & Ho) Hint.
  change (">" +:+ Itoa n +:+ String "u" rest) with ((">" +:+ Itoa n) +:+ String "u" rest).
  pose proof (Itoa_shape n) as Hsh. pose proof (Itoa_length n Hint) as Hlen.
  rewrite Feed_csi; [|done| | |done].
  - eexists. split; [reflexivity|]. unfold csi. change (">" +:+ Itoa n) with (String ">" (Itoa n)).
    cbn [Ascii.eqb Bool.eqb orb kittyKeys]. rewrite Atoi_Itoa; [|done].
    unfold at_ground. cbn. by subst.
  - change (sforall param_char (String ">" (Itoa n)) = true). cbn [sforall].
    by rewrite (sforall_impl num_char); [|apply num_char_param|].
  - change (String.length (String ">" (Itoa n)) ≤ maxSequence)%nat. unfold maxSequence. cbn. lia.
Qed.
Lemma Feed_other t s kp k o n :
  at_ground t s kp k o → int_ok n →
  at_ground (Feed t (CSI +:+ ">4;" +:+ Itoa n +:+ "m")) s kp k n.
Proof.
  intros (Hst & Hs & Hkp & Hk & Ho) Hint.
  change (">4;" +:+ Itoa n +:+ "m") with ((">4;" +:+ Itoa n) +:+ String "m" "").
  pose proof (Itoa_shape n) as Hsh. pose proof (Itoa_length n Hint) as Hlen.
  rewrite Feed_csi; [|done| | |done].
  - unfold csi. change (">4;" +:+ Itoa n) with (String ">" (String "4" (String ";" (Itoa n)))).
    cbn [Ascii.eqb Bool.eqb orb].
    change (CutPrefix (String ">" (String "4" (String ";" (Itoa n)))) ">4") with (Some (String ";" (Itoa n))).
    cbn [Feed]. change (CutPrefix (String ";" (Itoa n)) ";") with (Some (Itoa n)). cbn iota. rewrite Atoi_Itoa; [|done].
    unfold at_ground. cbn. by subst.
  - change (sforall param_char (String ">" (String "4" (String ";" (Itoa n)))) = true). cbn [sforall].
    by rewrite (sforall_impl num_char); [|apply num_char_param|].
  - change (String.length (String ">" (String "4" (String ";" (Itoa n)))) ≤ maxSequence)%nat. unfold maxSequence. cbn. lia.
Qed.

(** The effect of one replayed mode on the new terminal. *)
Definition replayed (t : ModeTracker) (s : gmap Z bool) (m : Z) : gmap Z bool :=
  if bool_decide (m ∈ altScreenModes) then s
  else if m =? 25 then (if mode_on t m then s else <[25 := false]> s)
  else if mode_on t m then <[m := true]> s else s.

Lemma tracked_int m : m ∈ trackedModes → int_ok m.
Proof.
  unfold trackedModes, int_ok, minInt64, maxInt64. rewrite !elem_of_cons elem_of_nil. lia.
Qed.
Lemma Feed_replay_mode t u s kp k o m rest :
  at_ground u s kp k o → m ∈ trackedModes →
  ∃ u', Feed u (replay_mode t m +:+ rest) = Feed u' rest ∧ at_ground u' (replayed t s m) kp k o.
Proof.
  intros Hu Hm. unfold replay_mode, replayed. case_if; [by exists u|].
  destruct (Z.eqb_spec m 25) as [->|Hne]; case_if; try by exists u.
  - replace ((CSI +:+ "?25l") +:+ rest) with (CSI +:+ "?" +:+ Itoa 25 +:+ String "l" rest) by done.
    apply (Feed_dec _ _ _ _ _ 25 "l" rest Hu); [done|by right|by apply tracked_int].
  - replace (dec_mode m "h" +:+ rest) with (CSI +:+ "?" +:+ Itoa m +:+ String "h" rest)
      by (unfold dec_mode; by rewrite -!sapp_assoc).
    apply (Feed_dec _ _ _ _ _ m "h" rest Hu); [done|by left|by apply tracked_int].
Qed.
Lemma Feed_replay_modes t u s kp k o ms rest :
  at_ground u s kp k o → Forall (.∈ trackedModes) ms →
  ∃ u', Feed u (sconcat (map (replay_mode t) ms) +:+ rest) = Feed u' rest ∧
        at_ground u' (foldl (replayed t) s ms) kp k o.
Proof.
  revert u s. induction ms as [|m ms IH]; intros u s Hu Hms; [by exists u|].
  apply Forall_cons in Hms as [Hm Hms]. cbn [map sconcat foldr foldl].
  rewrite -sapp_assoc. destruct (Feed_replay_mode t u s kp k o m (sconcat (map (replay_mode t) ms) +:+ rest) Hu Hm) as (u1 & E & Hu1).
  destruct (IH _ _ Hu1 Hms) as (u2 & E2 & Hu2). exists u2. split; [|done]. rewrite -E2. exact E.
Qed.
Lemma Feed_pushes u s kp k o l rest :
  at_ground u s kp k o → Forall int_ok l →
  ∃ u', Feed u (sconcat (map (λ flags, CSI +:+ ">" +:+ Itoa flags +:+ "u") l) +:+ rest) = Feed u' rest ∧
        at_ground u' s kp (k ++ l) o.
Proof.
  revert u k. induction l as [|n l IH]; intros u k Hu Hl; [exists u; by rewrite app_nil_r|].
  apply Forall_cons in Hl as [Hn Hl]. cbn [map sconcat foldr].
  rewrite -!sapp_assoc. fold (sconcat (map (λ flags, CSI +:+ ">" +:+ Itoa flags +:+ "u") l)).
  destruct (Feed_push u s kp k o n (sconcat (map (λ flags, CSI +:+ ">" +:+ Itoa flags +:+ "u") l) +:+ rest) Hu Hn) as (u1 & E & Hu1).
  destruct (IH _ _ Hu1 Hl) as (u2 & E2 & Hu2). exists u2. rewrite -app_assoc in Hu2. split; [|done]. rewrite -E2. exact E.
Qed.

Lemma replayed_lookup t ms s k :
  default false (foldl (replayed t) s ms !! k) =
  if bool_decide (k ∈ ms ∧ k ∉ altScreenModes) then
    (if k =? 25 then (if mode_on t 25 then default false (s !! 25) else false) else mode_on t k || default false (s !! k))
  else default false (s !! k).
Proof.
  revert s. induction ms as [|m ms IH]; intros s; cbn [foldl].
  { by rewrite bool_decide_eq_false_2; [|set_solver]. }
  rewrite IH. clear IH.
  assert (∀ j, default false (replayed t s m !! j) = if bool_decide (j = m ∧ m ∉ altScreenModes) then
    (if j =? 25 then (if mode_on t 25 then default false (s !! 25) else false) else mode_on t j || default false (s !! j))
    else default false (s !! j)) as Hm.
  { intros j. unfold replayed. case_bool_decide as Ha; [by rewrite bool_decide_eq_false_2; [|tauto]|].
    destruct (decide (j = m)) as [->|Hne].
    - rewrite bool_decide_eq_true_2; [|done]. destruct (Z.eqb_spec m 25) as [->|]; case_if; try done; by rewrite lookup_insert_eq.
    - rewrite bool_decide_eq_false_2; [|tauto].
      destruct (Z.eqb_spec m 25) as [->|]; case_if; try done; (rewrite lookup_insert_ne; [done|congruence]). }
  destruct (decide (k ∈ altScreenModes)) as [Ha|Ha].
  { rewrite !(bool_decide_eq_false_2 (_ ∧ k ∉ altScreenModes)); [|tauto..]. rewrite Hm.
    rewrite bool_decide_eq_false_2; [done|]. intros [-> ?]. done. }
  assert (bool_decide (k ∈ m :: ms ∧ k ∉ altScreenModes) = bool_decide (k = m) || bool_decide (k ∈ ms)) as ->.
  { rewrite -bool_decide_or. apply bool_decide_ext. rewrite elem_of_cons. tauto. }
  assert (bool_decide (k ∈ ms ∧ k ∉ altScreenModes) = bool_decide (k ∈ ms)) as ->.
  { apply bool_decide_ext. tauto. }
  assert (bool_decide (k = m ∧ m ∉ altScreenModes) = bool_decide (k = m)) as Hkm.
  { apply bool_decide_ext. split; [tauto|]. by intros ->. }
  destruct (Z.eqb_spec k 25) as [->|Hk].
  - rewrite Hm Hkm. cbn. destruct (bool_decide (25 ∈ ms)), (bool_decide (25 = m)), (mode_on t 25); done.
  - rewrite (Hm k) Hkm. rewrite (proj2 (Z.eqb_neq _ _) Hk).
    destruct (bool_decide (k ∈ ms)), (bool_decide (k = m)), (mode_on t k); done.
Qed.

Lemma modes_keys t k : k ∈ modes t ↔ is_Some (set_ t !! k).
Proof.
  unfold modes. rewrite merge_sort_Permutation list_elem_of_fmap. split.
  - intros ([q r] & -> & Hin). apply elem_of_map_to_list in Hin. by exists r.
  - intros [r Hr]. exists (k, r). split; [done|]. by apply elem_of_map_to_list.
Qed.
Lemma first_alt_spec t m : first_alt t = Some m → m ∈ altScreenModes ∧ mode_on t m = true.
Proof.
  unfold first_alt. destruct (list_find _ _) as [[i x]|] eqn:E; [|done]. intros [= <-].
  apply list_find_Some in E as (Hi & Hm & _). split; [|done]. eapply list_elem_of_lookup_2, Hi.
Qed.

(** The modes set before the ones of the tracker: the cursor is on, and the
    alternate screen is the strongest one. *)
Definition replay_start (t : ModeTracker) : gmap Z bool :=
  match first_alt t with Some m => <[m := true]> {[25 := true]} | None => {[25 := true]} end.
Lemma Feed_alt t rest : ∃ u, Feed NewModeTracker ((match first_alt t with Some m => dec_mode m "h" | None => "" end) +:+ rest) = Feed u rest ∧
  at_ground u (replay_start t) false [] 0.
Proof.
  unfold replay_start. destruct (first_alt t) as [m|] eqn:E; [|by exists NewModeTracker]. apply first_alt_spec in E as [Hin _].
  assert (m ∈ trackedModes) as Hm by (unfold altScreenModes, trackedModes in *; set_solver).
  replace (dec_mode m "h" +:+ rest) with (CSI +:+ "?" +:+ Itoa m +:+ String "h" rest) by (unfold dec_mode; by rewrite -!sapp_assoc).
  apply (Feed_dec _ {[25 := true]} _ _ _ m "h" rest); [done|done|by left|by apply tracked_int].
Qed.
Lemma Feed_keypad t u s rest : at_ground u s false [] 0 → ∃ u', Feed u ((if keypad t then String ESC "=" else "") +:+ rest) = Feed u' rest ∧
  at_ground u' s (keypad t) [] 0.
Proof.
  intros (Hst & Hs & Hkp & Hk & Ho). destruct (keypad t); [|by exists u].
  exists (feed1 (feed1 u ESC) "="). split; [done|]. unfold feed1. rewrite Hst. by subst.
Qed.
Lemma replay_start_other t m : m ∉ altScreenModes → m ≠ 25 → replay_start t !! m = None.
Proof.
  intros Hm Hne. unfold replay_start. destruct (first_alt t) as [a|] eqn:Ea; [|apply lookup_singleton_ne; congruence].
  apply first_alt_spec in Ea as [Ha _]. rewrite lookup_insert_ne; [apply lookup_singleton_ne; congruence|by intros ->].
Qed.
Lemma replay_start_alt t m : m ∈ altScreenModes → replay_start t !! m = if bool_decide (first_alt t = Some m) then Some true else None.
Proof.
  intros Hm. assert (m ≠ 25) by (intros ->; unfold altScreenModes in Hm; set_solver). unfold replay_start.
  destruct (first_alt t) as [a|]; [|rewrite lookup_singleton_ne; [done|congruence]]. case_bool_decide as Hd; [injection Hd as ->; by rewrite lookup_insert_eq|].
  rewrite lookup_insert_ne; [|congruence]. rewrite lookup_singleton_ne; [done|congruence].
Qed.
Lemma replay_start_cursor t : replay_start t !! 25 = Some true.
Proof.
  unfold replay_start. destruct (first_alt t) as [a|] eqn:Ea; [|done]. apply first_alt_spec in Ea as [Ha _].
  rewrite lookup_insert_ne; [done|]. intros ->. unfold altScreenModes in Ha. set_solver.
Qed.
(** The replayed modes are those of the tracker. *)
Lemma replayed_modes t m : tracker_ok t →
  default false (foldl (replayed t) (replay_start t) (modes t) !! m) =
  if bool_decide (m ∈ altScreenModes) then bool_decide (first_alt t = Some m) else mode_on t m.
Proof.
  intros [_ Hkeys Hcur _ _]. rewrite replayed_lookup. assert (25 ∉ altScreenModes) as H25 by (unfold altScreenModes; set_solver).
  case_bool_decide as Hin; case_bool_decide as Halt; try tauto.
  - destruct (Z.eqb_spec m 25) as [->|Hne]; [by rewrite replay_start_cursor; destruct (mode_on t 25)|].
    rewrite replay_start_other; [by destruct (mode_on t m)|done..].
  - rewrite replay_start_alt; [|done]. by case_bool_decide.
  - assert (set_ t !! m = None) as Hn by (apply eq_None_not_Some; intros Hsome%modes_keys; tauto).
    assert (m ≠ 25) by (intros ->; by rewrite Hn in Hcur; destruct Hcur). unfold mode_on. by rewrite Hn replay_start_other.
Qed.
(** C15: attaching restores the terminal. Replaying to a fresh terminal leaves
    it in the modes the program's terminal was in: the same DEC modes (of the
    alternate-screen modes the strongest one only), keypad mode, kitty flag
    stack and modifyOtherKeys level, with no unfinished sequence. *)
Theorem Replay_restores t :
  tracker_ok t →
  let t' := Feed NewModeTracker (Replay t) in
  state t' = Ground ∧ keypad t' = keypad t ∧ kitty t' = kitty t ∧ otherKeys t' = Z.max 0 (otherKeys t) ∧
  ∀ m, mode_on t' m = if bool_decide (m ∈ altScreenModes) then bool_decide (first_alt t = Some m) else mode_on t m.
Proof.
  intros Hok. pose proof Hok as [_ Hkeys Hcur Hkitty Hother]. cbn zeta. unfold Replay.
  set (oth := if 0 <? otherKeys t then CSI +:+ ">4;" +:+ Itoa (otherKeys t) +:+ "m" else "").
  set (pushes := sconcat (map (λ flags, CSI +:+ ">" +:+ Itoa flags +:+ "u") (kitty t))).
  set (kpad := if keypad t then String ESC "=" else "").
  destruct (Feed_alt t (sconcat (map (replay_mode t) (modes t)) +:+ kpad +:+ pushes +:+ oth)) as (u1 & -> & Hu1).
  destruct (Feed_replay_modes t u1 (replay_start t) false [] 0 (modes t) (kpad +:+ pushes +:+ oth)) as (u2 & -> & Hu2); [exact Hu1| |].
  { apply Forall_forall. intros m Hm%modes_keys. by apply Hkeys. }
  destruct (Feed_keypad t u2 _ (pushes +:+ oth) Hu2) as (u3 & E3 & Hu3). fold kpad in E3. rewrite E3. clear E3.
  destruct (Feed_pushes u3 (foldl (replayed t) (replay_start t) (modes t)) (keypad t) [] 0 (kitty t) oth Hu3 Hkitty) as (u4 & E4 & Hu4).
  unfold pushes. rewrite E4. clear E4.
  assert (at_ground (Feed u4 oth) (foldl (replayed t) (replay_start t) (modes t)) (keypad t) (kitty t) (Z.max 0 (otherKeys t))) as (Hst & Hs & Hkp & Hk & Ho).
  { unfold oth. destruct (Z.ltb_spec 0 (otherKeys t)).
    - rewrite Z.max_r; [|lia]. exact (Feed_other _ _ _ _ _ _ Hu4 Hother).
    - rewrite Z.max_l; [|lia]. exact Hu4. }
  split_and!; try done. intros m. unfold mode_on at 1. rewrite Hs. by apply replayed_modes.
Qed.

(** ** Witness *)

Definition lab_tracker : ModeTracker :=
  Feed NewModeTracker (CSI +:+ "?47h" +:+ CSI +:+ "?1049;2004h" +:+ CSI +:+ ">1u" +:+ CSI +:+ "?25l" +:+ CSI +:+ "?1").
Lemma Replay_restores_witness :
  let t' := Feed NewModeTracker (Replay lab_tracker) in
  state t' = Ground ∧ keypad t' = keypad lab_tracker ∧ kitty t' = kitty lab_tracker ∧
  otherKeys t' = Z.max 0 (otherKeys lab_tracker) ∧
  ∀ m, mode_on t' m = if bool_decide (m ∈ altScreenModes) then bool_decide (first_alt lab_tracker = Some m) else mode_on lab_tracker m.
Proof. apply (Replay_restores lab_tracker). apply Feed_ok, NewModeTracker_ok. Defined.
