(* ===== verification/SessionHolder.v ===== *)
(** * The holder of a session

    [src/internal/guest/session/holder.go]: the process that owns an agent's
    terminal and serves one client at a time. The goroutines ([attach],
    [readLoop] and [writeLoop] of every client, [pump], [Serve]) are the
    actions of a transition system; each action is what one goroutine does
    under the holder's lock or in one channel operation, and they interleave
    freely. [outputs], [c_start] and [c_all] only record history. *)

From S2P Require Import Prelude GoStrings SessionWire SessionModes.
Open Scope string_scope.
Open Scope list_scope.
Open Scope Z_scope.

Definition clientQueue : nat := 512.

Definition bytes_of (s : string) : bytes := map code (String.list_ascii_of_string s).
Definition DataFrame (s : string) : Frame := {| Type_ := FrameData; Payload := bytes_of s |}.
Definition KickedFrame : Frame := {| Type_ := FrameKicked; Payload := [] |}.

(** Where a client's [attach] goroutine is. *)
Inductive phase := Reading | Left | Gone.
#[export] Instance phase_eq_dec : EqDecision phase.
Proof. solve_decision. Defined.

Record client := {
  c_out : list Frame;      (* the channel, oldest first *)
  c_sent : list Frame;     (* written to the connection *)
  c_closed : bool;
  c_phase : phase;
  c_start : nat;           (* outputs read before the client attached *)
  c_replay : list Frame;   (* the replay queued when it attached *)
  c_all : list Frame       (* every frame ever queued *)
}.

Record holder := {
  modes : ModeTracker;
  outputs : list string;
  current : option nat;
  ended : bool;
  entry : option bool;               (* the stored info: its Attached flag, or removed *)
  clients : list client;
  pending : option (nat * string);   (* [pump] between its lock and its send *)
  exiting : option nat;              (* [Serve] between its lock and its send *)
  rows : Z;
  cols : Z;
  inputs : list (nat * bytes)        (* client input accepted for the terminal *)
}.

(** ** Clients *)

Definition close (c : client) : client :=
  {| c_out := c_out c; c_sent := c_sent c; c_closed := true; c_phase := c_phase c; c_start := c_start c;
     c_replay := c_replay c; c_all := c_all c |}.
Definition enqueue (f : Frame) (c : client) : client :=
  {| c_out := c_out c ++ [f]; c_sent := c_sent c; c_closed := c_closed c; c_phase := c_phase c; c_start := c_start c;
     c_replay := c_replay c; c_all := c_all c ++ [f] |}.
(** [send]: a closed client takes nothing any more, a full queue closes it. *)
Definition send (f : Frame) (c : client) : client :=
  if c_closed c then c
  else if (length (c_out c) <? clientQueue)%nat then enqueue f c
  else close c.
(** One round of [writeLoop]; [ok] is whether the write succeeded. *)
Definition write1 (ok : bool) (c : client) : client :=
  if c_closed c then c else
  match c_out c with
  | [] => c
  | f :: out =>
      let c' := {| c_out := out; c_sent := if ok then c_sent c ++ [f] else c_sent c; c_closed := c_closed c;
                   c_phase := c_phase c; c_start := c_start c; c_replay := c_replay c; c_all := c_all c |} in
      if negb ok || (Type_ f =? FrameExit) || (Type_ f =? FrameKicked) then close c' else c'
  end.
Definition with_phase (p : phase) (c : client) : client :=
  {| c_out := c_out c; c_sent := c_sent c; c_closed := c_closed c; c_phase := p; c_start := c_start c;
     c_replay := c_replay c; c_all := c_all c |}.
(** The deferred close of [readLoop]. *)
Definition leave (c : client) : client := with_phase Left (close c).

(** ** The holder's fields *)

Definition set_clients (h : holder) (cs : list client) : holder :=
  {| modes := modes h; outputs := outputs h; current := current h; ended := ended h; entry := entry h;
     clients := cs; pending := pending h; exiting := exiting h; rows := rows h; cols := cols h; inputs := inputs h |}.
Definition upd (h : holder) (i : nat) (f : client → client) : holder := set_clients h (alter f i (clients h)).
Definition set_size (h : holder) (r c : Z) : holder :=
  {| modes := modes h; outputs := outputs h; current := current h; ended := ended h; entry := entry h;
     clients := clients h; pending := pending h; exiting := exiting h; rows := r; cols := c; inputs := inputs h |}.
Definition resize (h : holder) (r c : Z) : holder := if (r =? 0) || (c =? 0) then h else set_size h r c.

(** [redraw]: the sizes given to the terminal, in order. *)
Definition redraw_sizes (h : holder) (r c : Z) : list (Z * Z) :=
  (if (r =? rows h) && (c =? cols h) && (1 <? r) then [(r - 1, c)] else []) ++ [(r, c)].
Definition redraw (h : holder) (r c : Z) : holder :=
  foldl (λ h s, resize h s.1 s.2) h (redraw_sizes h r c).

(** ** The actions *)

Inductive action :=
| AConnect (hello : option Frame)     (* a connection and its first frame *)
| AOutput (data : string)             (* [pump]: read, feed, load the client *)
| ASend                               (* [pump]: send to the loaded client *)
| AWrite (c : nat) (ok : bool)        (* [writeLoop] *)
| ARead (c : nat) (f : option Frame)  (* [readLoop]: a frame or an error *)
| ADetach (c : nat)                   (* the end of [attach] *)
| AEnd                                (* [Serve]: the program has exited *)
| AExit (code : Z)                    (* [Serve]: send the exit status *)
| ACleanup.                           (* [Serve]: remove the entry *)

Definition attach (h : holder) (hello : option Frame) : holder :=
  match hello with
  | Some f =>
      if negb (Type_ f =? FrameHello) then h else
      match ParseSize (Payload f) with
      | Err _ => h
      | Ok (r, c) =>
          if ended h then h else
          let cs := match current h with Some old => alter (send KickedFrame) old (clients h) | None => clients h end in
          let replay := Replay (modes h) in
          let first := if (0 <? String.length replay)%nat then [DataFrame replay] else [] in
          redraw {| modes := modes h; outputs := outputs h; current := Some (length (clients h)); ended := ended h;
                    entry := Some true;
                    clients := cs ++ [{| c_out := first; c_sent := []; c_closed := false; c_phase := Reading;
                                         c_start := length (outputs h); c_replay := first; c_all := first |}];
                    pending := pending h; exiting := exiting h; rows := rows h; cols := cols h; inputs := inputs h |} r c
      end
  | None => h
  end.

(** [pump] runs until the program closes its terminal, before [Serve] marks
    the end; between its lock and its send it does nothing else. *)
Definition pump (h : holder) (data : string) : holder :=
  if ended h || bool_decide (is_Some (pending h)) then h else
  {| modes := Feed (modes h) data; outputs := outputs h ++ [data]; current := current h; ended := ended h;
     entry := entry h; clients := clients h; pending := (λ c, (c, data)) <$> current h; exiting := exiting h;
     rows := rows h; cols := cols h; inputs := inputs h |}.
Definition pump_send (h : holder) : holder :=
  match pending h with
  | Some (c, data) =>
      {| modes := modes h; outputs := outputs h; current := current h; ended := ended h; entry := entry h;
         clients := alter (send (DataFrame data)) c (clients h); pending := None; exiting := exiting h;
         rows := rows h; cols := cols h; inputs := inputs h |}
  | None => h
  end.

Definition readLoop (h : holder) (c : nat) (f : option Frame) : holder :=
  match clients h !! c with
  | Some cl =>
      if negb (bool_decide (c_phase cl = Reading)) then h else
      match f with
      | None => upd h c leave
      | Some f =>
          if negb (bool_decide (current h = Some c)) then upd h c leave else
          if Type_ f =? FrameData then
            {| modes := modes h; outputs := outputs h; current := current h; ended := ended h; entry := entry h;
               clients := clients h; pending := pending h; exiting := exiting h; rows := rows h; cols := cols h;
               inputs := inputs h ++ [(c, Payload f)] |}
          else if Type_ f =? FrameResize then
            match ParseSize (Payload f) with Ok (r, cl) => resize h r cl | Err _ => h end
          else h
      end
  | None => h
  end.

(** The end of [attach], once its [readLoop] has returned. *)
Definition detach (h : holder) (c : nat) : holder :=
  match clients h !! c with
  | Some cl =>
      if negb (bool_decide (c_phase cl = Left)) then h else
      let h := upd h c (with_phase Gone) in
      if bool_decide (current h = Some c) && negb (ended h) then
        {| modes := modes h; outputs := outputs h; current := None; ended := ended h; entry := Some false;
           clients := clients h; pending := pending h; exiting := exiting h; rows := rows h; cols := cols h; inputs := inputs h |}
      else h
  | None => h
  end.

Definition serve_end (h : holder) : holder :=
  if ended h || bool_decide (is_Some (pending h)) then h else
  {| modes := modes h; outputs := outputs h; current := current h; ended := true; entry := entry h;
     clients := clients h; pending := pending h; exiting := current h; rows := rows h; cols := cols h; inputs := inputs h |}.
Definition serve_exit (h : holder) (code : Z) : holder :=
  match exiting h with
  | Some c =>
      {| modes := modes h; outputs := outputs h; current := current h; ended := ended h; entry := entry h;
         clients := alter (send (ExitFrame code)) c (clients h); pending := pending h; exiting := None;
         rows := rows h; cols := cols h; inputs := inputs h |}
  | None => h
  end.
Definition serve_cleanup (h : holder) : holder :=
  if negb (ended h) || bool_decide (is_Some (exiting h)) then h else
  {| modes := modes h; outputs := outputs h; current := current h; ended := ended h; entry := None;
     clients := clients h; pending := pending h; exiting := exiting h; rows := rows h; cols := cols h; inputs := inputs h |}.

Definition act (h : holder) (a : action) : holder :=
  match a with
  | AConnect hello => attach h hello
  | AOutput data => pump h data
  | ASend => pump_send h
  | AWrite c ok => upd h c (write1 ok)
  | ARead c f => readLoop h c f
  | ADetach c => detach h c
  | AEnd => serve_end h
  | AExit code => serve_exit h code
  | ACleanup => serve_cleanup h
  end.
Definition started (r c : Z) : holder :=
  {| modes := NewModeTracker; outputs := []; current := None; ended := false; entry := Some false; clients := [];
     pending := None; exiting := None; rows := if (r =? 0) || (c =? 0) then 24 else r;
     cols := if (r =? 0) || (c =? 0) then 80 else c; inputs := [] |}.
Definition run (r c : Z) (acts : list action) : holder := foldl act (started r c) acts.

(** ** The invariant *)

Definition is_data (f : Frame) : Prop := Type_ f = FrameData.
#[export] Instance is_data_dec f : Decision (is_data f) := _.
Definition data (c : client) : list Frame := filter is_data (c_all c).
Definition feeds (outs : list string) : ModeTracker := foldl Feed NewModeTracker outs.
Definition replay_frames (t : ModeTracker) : list Frame :=
  if (0 <? String.length (Replay t))%nat then [DataFrame (Replay t)] else [].

(** [l] is what client [i] was sent of the outputs since it attached. *)
Definition caught_up (outs : list string) (cur : option nat) (pend : option (nat * string)) (i : nat) (start : nat) (l : list string) : Prop :=
  match pend with
  | Some (j, d) => if bool_decide (j = i) then l ++ [d] = drop start outs else cur = Some i → l = drop start outs
  | None => cur = Some i → l = drop start outs
  end.
Record cinv (outs : list string) (cur : option nat) (pend : option (nat * string)) (i : nat) (c : client) : Prop := {
  ci_all : c_closed c = false → c_all c = c_sent c ++ c_out c;
  ci_sent : c_sent c `prefix_of` c_all c;
  ci_start : (c_start c ≤ length outs)%nat;
  ci_replay : c_replay c = replay_frames (feeds (take (c_start c) outs));
  ci_data : ∃ l, data c = c_replay c ++ (DataFrame <$> l) ∧ l `prefix_of` drop (c_start c) outs ∧
            (c_closed c = false → caught_up outs cur pend i (c_start c) l);
  ci_kick : c_closed c = false → cur ≠ Some i → KickedFrame ∈ c_out c;
  ci_phase : c_phase c ≠ Reading → c_closed c = true
}.
Record hinv (h : holder) : Prop := {
  hi_modes : modes h = feeds (outputs h);
  hi_cur : ∀ i, current h = Some i → (i < length (clients h))%nat;
  hi_pend : ∀ i d, pending h = Some (i, d) → (i < length (clients h))%nat ∧ ended h = false;
  hi_entry : ended h = false → entry h = Some (bool_decide (is_Some (current h)));
  hi_exit : is_Some (exiting h) → ended h = true;
  hi_clients : ∀ i c, clients h !! i = Some c → cinv (outputs h) (current h) (pending h) i c
}.

Lemma replay_frames_data t : Forall is_data (replay_frames t).
Proof. unfold replay_frames. case_if; repeat constructor. Qed.
Lemma filter_all {A} (P : A → Prop) `{∀ x, Decision (P x)} (l : list A) : Forall P l → filter P l = l.
Proof. induction 1 as [|x l Hx _ IH]; [done|]. rewrite filter_cons. case_decide; [by rewrite IH|done]. Qed.

(** Changes of one client that keep its part of the invariant. *)
Lemma cinv_close outs cur pend i c : cinv outs cur pend i c → cinv outs cur pend i (close c).
Proof.
  intros [? ? ? ? (l & ? & ? & ?) ? ?]. split; cbn; try done. by exists l.
Qed.
Lemma cinv_phase outs cur pend i c p :
  cinv outs cur pend i c → (p ≠ Reading → c_closed c = true) → cinv outs cur pend i (with_phase p c).
Proof. intros [? ? ? ? (l & ? & ? & ?) ? ?] Hp. split; cbn; try done. by exists l. Qed.
Lemma cinv_leave outs cur pend i c : cinv outs cur pend i c → cinv outs cur pend i (leave c).
Proof. intros H. apply cinv_phase; [by apply cinv_close|done]. Qed.
Lemma cinv_write1 outs cur pend i c ok : cinv outs cur pend i c → cinv outs cur pend i (write1 ok c).
Proof.
  intros Hc. unfold write1. destruct (c_closed c) eqn:Ecl; [done|]. destruct (c_out c) as [|f out] eqn:Eo; [done|].
  destruct Hc as [Ha Hs Hst Hr (l & Hl1 & Hl2 & Hl3) Hk Hp]. specialize (Ha Ecl). rewrite Eo in Ha.
  assert ((if ok then c_sent c ++ [f] else c_sent c) `prefix_of` c_all c) as Hpre.
  { destruct ok; [|done]. rewrite Ha. exists out. by rewrite -app_assoc. }
  case_if.
  - split; cbn; try done. by exists l.
  - apply orb_false_iff in Heqb as [Heqb Hkf]. apply orb_false_iff in Heqb as [Hok _].
    apply negb_false_iff in Hok as ->. split; cbn; try done.
    + intros _. by rewrite Ha -app_assoc.
    + exists l. split_and!; [done|done|]. intros _. by apply Hl3.
    + intros _ Hne. rewrite Eo in Hk. specialize (Hk Ecl Hne). by apply elem_of_cons in Hk as [<-|Hk].
    + intros Hph. rewrite -Ecl. by apply Hp.
Qed.
(** Sending a frame that is not program data. *)
Lemma cinv_send_ctl outs cur pend i c f :
  ¬ is_data f → cinv outs cur pend i c → cinv outs cur pend i (send f c).
Proof.
  intros Hf Hc. unfold send. destruct (c_closed c) eqn:Ecl; [done|].
  case_if; [|by apply cinv_close]. destruct Hc as [Ha Hs Hst Hr (l & Hl1 & Hl2 & Hl3) Hk Hp]. specialize (Ha Ecl).
  split; cbn; try done.
  - intros _. by rewrite Ha app_assoc.
  - by apply prefix_app_r.
  - exists l. split_and!; try done. unfold data. cbn. rewrite filter_app filter_cons filter_nil. case_decide; [done|]. by rewrite app_nil_r.
  - intros H1 H2. apply elem_of_app. left. by apply Hk.
Qed.
(** ... and it is queued or the client is closed. *)
Lemma send_spec f c : c_closed (send f c) = false → f ∈ c_out (send f c).
Proof.
  unfold send. destruct (c_closed c) eqn:E; [congruence|]. case_if; [|done].
  intros _. cbn. apply elem_of_app. right. by constructor.
Qed.

Lemma alter_cases {A} (f : A → A) j (l : list A) i x :
  alter f j l !! i = Some x → (i = j ∧ ∃ y, l !! i = Some y ∧ x = f y) ∨ (i ≠ j ∧ l !! i = Some x).
Proof.
  destruct (decide (i = j)) as [->|Hne].
  - rewrite list_lookup_alter_eq. intros (y & Hy & ->)%fmap_Some. left. eauto.
  - rewrite list_lookup_alter_ne; [auto|congruence].
Qed.
Lemma hinv_upd h i g :
  hinv h → (∀ c, clients h !! i = Some c → cinv (outputs h) (current h) (pending h) i c →
            cinv (outputs h) (current h) (pending h) i (g c)) → hinv (upd h i g).
Proof.
  intros [] Hg. split; cbn; rewrite ?length_alter; try done.
  intros j c [(-> & y & Hy & ->)|[_ Hc]]%alter_cases; auto.
Qed.
Lemma hinv_resize h r c : hinv h → hinv (resize h r c).
Proof. intros []. unfold resize. case_if; by split. Qed.
Lemma hinv_redraw h r c : hinv h → hinv (redraw h r c).
Proof.
  unfold redraw. generalize (redraw_sizes h r c). intros l. revert h.
  induction l as [|s l IH]; intros h Hh; [done|]. cbn. by apply IH, hinv_resize.
Qed.

(** A client stays right while others come and go. *)
Lemma cinv_other outs cur cur' pend i c :
  cur' ≠ Some i → (c_closed c = false → KickedFrame ∈ c_out c) → cinv outs cur pend i c → cinv outs cur' pend i c.
Proof.
  intros Hne Hk [? ? ? ? (l & H1 & H2 & H3) ? ?]. split; try done; [|by intros ? _; apply Hk].
  exists l. split_and!; [done|done|]. intros Hcl. specialize (H3 Hcl). unfold caught_up in *.
  destruct pend as [[j d]|]; [case_bool_decide|]; done.
Qed.

Lemma hinv_attach h hello : hinv h → hinv (attach h hello).
Proof.
  intros Hh. unfold attach. destruct hello as [f|]; [|done]. case_if; [done|].
  destruct (ParseSize (Payload f)) as [[r c]|]; [|done]. destruct (ended h) eqn:Ee; [done|].
  apply hinv_redraw. destruct Hh. split; cbn [modes outputs current ended entry clients pending exiting].
  - done.
  - intros i [= <-]. rewrite length_app. cbn. destruct (current h); rewrite ?length_alter; lia.
  - intros i d Hp. destruct (hi_pend0 _ _ Hp) as [Hlt ?]. split; [|done].
    rewrite length_app. destruct (current h); rewrite ?length_alter; lia.
  - intros _. by rewrite bool_decide_eq_true_2.
  - intros He. specialize (hi_exit0 He). congruence.
  - intros i cl Hi. apply lookup_app_Some in Hi as [Hi|[Hge Hi]].
    + assert (i < length (clients h))%nat as Hlt.
      { apply lookup_lt_Some in Hi. destruct (current h); by rewrite ?length_alter in Hi. }
      assert (cinv (outputs h) (current h) (pending h) i cl ∧ (c_closed cl = false → KickedFrame ∈ c_out cl)) as [Hc Hk].
      { destruct (current h) as [old|] eqn:Eo.
        - apply alter_cases in Hi as [(-> & y & Hy & ->)|[Hne Hi]].
          + split; [|apply send_spec]. apply cinv_send_ctl; [done|by apply hi_clients0].
          + specialize (hi_clients0 _ _ Hi). split; [done|]. intros Hcl. apply (ci_kick _ _ _ _ _ hi_clients0 Hcl). congruence.
        - specialize (hi_clients0 _ _ Hi). split; [done|]. intros Hcl. by apply (ci_kick _ _ _ _ _ hi_clients0 Hcl). }
      apply (cinv_other _ (current h)); [|done|done]. intros [= <-]. lia.
    + assert (i = length (clients h)) as ->.
      { apply lookup_lt_Some in Hi. cbn in Hi. destruct (current h); rewrite ?length_alter in Hge Hi; lia. }
      assert (length (match current h with Some old => alter (send KickedFrame) old (clients h) | None => clients h end) = length (clients h)) as Hl
        by (destruct (current h); by rewrite ?length_alter).
      rewrite Hl Nat.sub_diag in Hi. injection Hi as <-. rewrite hi_modes0.
      fold (replay_frames (feeds (outputs h))). split; cbn; try done.
      * apply prefix_nil.
      * unfold feeds. by rewrite take_ge.
      * exists []. rewrite app_nil_r drop_ge; [|done]. split_and!; [|done|].
        { apply filter_all, replay_frames_data. }
        intros _. unfold caught_up. rewrite drop_ge; [|done]. destruct (pending h) as [[j d]|] eqn:Ep; [|done].
        destruct (decide (j = length (clients h))) as [->|Hj]; [|by rewrite bool_decide_eq_false_2].
        destruct (hi_pend0 _ _ eq_refl) as [Hlt _]. lia.
Qed.

Lemma hinv_pump h d : hinv h → hinv (pump h d).
Proof.
  intros Hh. unfold pump. destruct (ended h) eqn:Ee; [done|]. cbn [orb]. case_bool_decide as Hp; [done|].
  assert (pending h = None) as Hpn by (by apply eq_None_not_Some). destruct Hh.
  split; cbn [modes outputs current ended entry clients pending exiting]; try done.
  - unfold feeds. rewrite foldl_snoc. by rewrite hi_modes0.
  - intros i e Hc. destruct (current h) as [j|] eqn:Ec; [|done]. injection Hc as <- <-. auto.
  - intros _. by apply hi_entry0.
  - intros He. specialize (hi_exit0 He). congruence.
  - intros i c Hc. specialize (hi_clients0 _ _ Hc) as [Ha Hs Hst Hr (l & H1 & H2 & H3) Hk Hph].
    rewrite Hpn in H3. unfold caught_up in H3. split; try done.
    + rewrite length_app. lia.
    + rewrite take_app_le; [done|]. lia.
    + exists l. rewrite drop_app_le; [|lia]. split_and!; [done|by apply prefix_app_r|].
      intros Hcl. unfold caught_up. rewrite drop_app_le; [|lia]. destruct (current h) as [j|]; [|done].
      cbn. destruct (decide (j = i)) as [->|Hj].
      * rewrite bool_decide_eq_true_2; [|done]. by rewrite H3.
      * rewrite bool_decide_eq_false_2; [|done]. congruence.
Qed.

Lemma hinv_pump_send h : hinv h → hinv (pump_send h).
Proof.
  intros Hh. unfold pump_send. destruct (pending h) as [[j d]|] eqn:Ep; [|done]. destruct Hh.
  split; cbn [modes outputs current ended entry clients pending exiting]; rewrite ?length_alter; try done.
  intros i c [(-> & y & Hy & ->)|[Hne Hc]]%alter_cases.
  - specialize (hi_clients0 _ _ Hy) as Hc. destruct Hc as [Ha Hs Hst Hr (l & H1 & H2 & H3) Hk Hph].
    rewrite Ep in H3. unfold caught_up in H3. rewrite bool_decide_eq_true_2 in H3; [|done].
    unfold send. destruct (c_closed y) eqn:Ecl.
    { split; rewrite ?Ecl; try done. exists l. split_and!; try done. }
    specialize (H3 eq_refl). case_if.
    + split; cbn; rewrite ?Ecl; try done.
      * intros _. by rewrite Ha // app_assoc.
      * by apply prefix_app_r.
      * exists (l ++ [d]). rewrite fmap_app app_assoc -H1. split_and!.
        -- unfold data. cbn. rewrite filter_app filter_cons filter_nil. case_decide as Hd; [done|]. by destruct Hd.
        -- by rewrite H3.
        -- intros _ _. done.
      * intros _ Hcur. apply elem_of_app. left. by apply Hk.
    + split; cbn; try done. exists l. by split_and!.
  - specialize (hi_clients0 _ _ Hc) as [Ha Hs Hst Hr (l & H1 & H2 & H3) Hk Hph].
    rewrite Ep in H3. unfold caught_up in H3. rewrite bool_decide_eq_false_2 in H3; [|congruence].
    split; try done. by exists l.
Qed.

Lemma hinv_readLoop h i f : hinv h → hinv (readLoop h i f).
Proof.
  intros Hh. unfold readLoop. destruct (clients h !! i) as [cl|] eqn:Ei; [|done]. case_if; [done|].
  assert (hinv (upd h i leave)) by (apply hinv_upd; [done|]; intros; by apply cinv_leave).
  destruct f as [f|]; [|done]. case_if; [done|]. case_if; [by destruct Hh|].
  case_if; [|done]. destruct (ParseSize (Payload f)) as [[r c]|]; [|done]. by apply hinv_resize.
Qed.
Lemma cinv_detached outs pend i c : c_closed c = true → cinv outs (Some i) pend i c → cinv outs None pend i c.
Proof.
  intros Hcl [? ? ? ? (l & H1 & H2 & H3) ? ?]. split; try done; [|congruence].
  exists l. split_and!; [done|done|congruence].
Qed.
Lemma hinv_detach h i : hinv h → hinv (detach h i).
Proof.
  intros Hh. unfold detach. destruct (clients h !! i) as [cl|] eqn:Ei; [|done]. case_if; [done|].
  apply negb_false_iff, bool_decide_eq_true_1 in Heqb.
  assert (c_closed cl = true) as Hcl.
  { apply (ci_phase _ _ _ _ _ (hi_clients _ Hh _ _ Ei)). by rewrite Heqb. }
  assert (hinv (upd h i (with_phase Gone))) as Hu.
  { apply hinv_upd; [done|]. intros c Hc Hci. apply cinv_phase; [done|]. intros _. congruence. }
  case_if; [|done]. apply andb_true_iff in Heqb0 as [Hcur He]. apply bool_decide_eq_true_1 in Hcur.
  apply negb_true_iff in He. cbn in Hcur, He. destruct Hu.
  split; cbn [modes outputs current ended entry clients pending exiting]; try done.
  intros j c Hj. specialize (hi_clients0 _ _ Hj). cbn in Hj. apply alter_cases in Hj as [(-> & y & Hy & ->)|[Hne Hj]].
  - apply cinv_detached; [|by cbn in hi_clients0; rewrite Hcur in hi_clients0]. cbn. congruence.
  - apply (cinv_other _ (Some i)); [done| |by cbn in hi_clients0; rewrite Hcur in hi_clients0].
    intros Hcl'. apply (ci_kick _ _ _ _ _ hi_clients0 Hcl'). cbn. congruence.
Qed.
Lemma hinv_serve_end h : hinv h → hinv (serve_end h).
Proof.
  intros Hh. unfold serve_end. case_if; [done|]. apply orb_false_iff in Heqb as [He Hp].
  apply bool_decide_eq_false_1 in Hp. destruct Hh.
  split; cbn [modes outputs current ended entry clients pending exiting]; try done.
Qed.
Lemma hinv_serve_exit h code : hinv h → hinv (serve_exit h code).
Proof.
  intros Hh. unfold serve_exit. destruct (exiting h) as [i|] eqn:Ee; [|done]. destruct Hh.
  split; cbn [modes outputs current ended entry clients pending exiting]; rewrite ?length_alter; try done.
  - intros [? [=]].
  - intros j c [(-> & y & Hy & ->)|[_ Hc]]%alter_cases; [|by auto]. apply cinv_send_ctl; [done|auto].
Qed.
Lemma hinv_serve_cleanup h : hinv h → hinv (serve_cleanup h).
Proof.
  intros Hh. unfold serve_cleanup. case_if; [done|]. apply orb_false_iff in Heqb as [He _].
  apply negb_false_iff in He. destruct Hh.
  split; cbn [modes outputs current ended entry clients pending exiting]; try done. congruence.
Qed.
Lemma hinv_act h a : hinv h → hinv (act h a).
Proof.
  intros Hh. destruct a; cbn [act].
  - by apply hinv_attach.
  - by apply hinv_pump.
  - by apply hinv_pump_send.
  - apply hinv_upd; [done|]. intros. by apply cinv_write1.
  - by apply hinv_readLoop.
  - by apply hinv_detach.
  - by apply hinv_serve_end.
  - by apply hinv_serve_exit.
  - by apply hinv_serve_cleanup.
Qed.
Lemma hinv_started r c : hinv (started r c).
Proof. split; cbn; try done. by intros [? [=]]. Qed.
Lemma hinv_run r c acts : hinv (run r c acts).
Proof.
  unfold run. generalize (hinv_started r c). generalize (started r c). induction acts as [|a acts IH]; intros h Hh; [done|].
  cbn. by apply IH, hinv_act.
Qed.

(** ** Properties *)

(** C16: what a client receives is the replay of the modes at its attach and
    then the program's output from there on, byte for byte and in order,
    without a gap; it may end early only because the client was superseded or
    cut off. While it is the attached client and the pump is at rest, nothing
    is missing. *)
Theorem client_stream r c acts i cl :
  let h := run r c acts in
  clients h !! i = Some cl →
  (∃ l, l `prefix_of` drop (c_start cl) (outputs h) ∧
        filter is_data (c_sent cl) `prefix_of`
          replay_frames (feeds (take (c_start cl) (outputs h))) ++ (DataFrame <$> l)) ∧
  (current h = Some i → c_closed cl = false → pending h = None →
   filter is_data (c_sent cl ++ c_out cl) =
     replay_frames (feeds (take (c_start cl) (outputs h))) ++ (DataFrame <$> drop (c_start cl) (outputs h))).
Proof.
  cbn zeta. intros Hi. destruct (hi_clients _ (hinv_run r c acts) _ _ Hi) as [Ha Hs Hst Hr (l & H1 & H2 & H3) Hk Hp].
  unfold data in H1. rewrite Hr in H1. split.
  - exists l. split; [done|]. rewrite -H1. destruct Hs as [k ->]. rewrite filter_app. by apply prefix_app_r.
  - intros Hc Hcl Hpn. rewrite -Ha // H1. specialize (H3 Hcl). unfold caught_up in H3. rewrite Hpn in H3.
    by rewrite H3.
Qed.

(** One client at a time: a client that is no longer the attached one is
    cut off or still has the notice that it was superseded before it. *)
Theorem superseded_told r c acts i cl :
  let h := run r c acts in
  clients h !! i = Some cl → current h ≠ Some i → c_closed cl = true ∨ KickedFrame ∈ c_out cl.
Proof.
  cbn zeta. intros Hi Hne. destruct (c_closed cl) eqn:E; [by left|right].
  by apply (ci_kick _ _ _ _ _ (hi_clients _ (hinv_run r c acts) _ _ Hi)).
Qed.

Lemma act_entry_gone h a : hinv h → entry h = None → entry (act h a) = None.
Proof.
  intros Hh He. assert (ended h = true) as Hend.
  { destruct (ended h) eqn:E; [done|]. rewrite (hi_entry _ Hh E) in He. done. }
  assert (∀ r c, entry (resize h r c) = None) as Hr by (intros; unfold resize; by case_if).
  destruct a; cbn [act].
  - unfold attach. destruct hello; [|done]. case_if; [done|]. destruct (ParseSize _) as [[? ?]|]; [|done]. by rewrite Hend.
  - unfold pump. by rewrite Hend.
  - unfold pump_send. by destruct (pending h) as [[? ?]|].
  - done.
  - unfold readLoop. destruct (clients h !! c); [|done]. case_if; [done|]. destruct f; [|done].
    case_if; [done|]. case_if; [done|]. case_if; [|done]. destruct (ParseSize _) as [[? ?]|]; [apply Hr|done].
  - unfold detach. destruct (clients h !! c); [|done]. case_if; [done|]. cbn zeta.
    assert (ended (upd h c (with_phase Gone)) = true) as -> by done. by rewrite andb_false_r.
  - unfold serve_end. by rewrite Hend.
  - unfold serve_exit. by destruct (exiting h).
  - unfold serve_cleanup. by case_if.
Qed.

(** The stored entry says whether a client is attached as long as the
    program runs, and once it is removed nothing that still runs, such as a
    client that detaches late, brings it back. *)
Theorem entry_lifecycle r c acts later :
  let h := run r c acts in
  (ended h = false → entry h = Some (bool_decide (is_Some (current h)))) ∧
  (entry h = None → entry (run r c (acts ++ later)) = None).
Proof.
  cbn zeta. split; [apply hi_entry, hinv_run|]. unfold run at 2. rewrite foldl_app. fold (run r c acts).
  generalize (hinv_run r c acts). generalize (run r c acts). induction later as [|a l IH]; intros h Hh He; [done|].
  cbn. apply IH; [by apply hinv_act|by apply act_entry_gone].
Qed.

(** Attaching always makes a full-screen program repaint: the last size
    the terminal is given is the client's, and it differs from the size
    before it, whether or not the client has the size of the last one. *)
Theorem redraw_changes h r c :
  1 < r → 0 < c → 0 < rows h → 0 < cols h →
  rows (redraw h r c) = r ∧ cols (redraw h r c) = c ∧
  last ((rows h, cols h) :: redraw_sizes h r c) = Some (r, c) ∧
  (∀ s, s ∈ redraw_sizes h r c → s.1 ≠ 0 ∧ s.2 ≠ 0) ∧
  ∃ l prev, (rows h, cols h) :: redraw_sizes h r c = l ++ [prev; (r, c)] ∧ prev ≠ (r, c).
Proof.
  intros Hr Hc Hrh Hch. unfold redraw, redraw_sizes.
  destruct (Z.eqb_spec r (rows h)) as [Er|Er], (Z.eqb_spec c (cols h)) as [Ec|Ec]; cbn [andb app foldl].
  all: try (assert (1 <? r = true) as -> by (by apply Z.ltb_lt); cbn [app foldl]).
  all: unfold resize; cbn [fst snd].
  all: repeat (match goal with |- context [?a =? 0] => destruct (Z.eqb_spec a 0); [lia|] end; cbn [orb]).
  all: split_and!; try done.
  all: try (intros s Hs; set_unfold; destruct_or!; subst; cbn; lia).
  - exists [(rows h, cols h)], (r - 1, c). split; [done|]. intros [=]. lia.
  - exists [], (rows h, cols h). split; [done|]. congruence.
  - exists [], (rows h, cols h). split; [done|]. congruence.
  - exists [], (rows h, cols h). split; [done|]. congruence.
Qed.

(** ** Witnesses *)

Definition lab_hello : option Frame := Some (SizeFrame FrameHello 24 80).
(** A client attaches, output flows, a second client takes over. *)
Definition lab_acts : list action :=
  [AConnect lab_hello; AOutput (CSI +:+ "?1049h"); ASend; AWrite 0 true; AOutput "hi"; ASend;
   AConnect lab_hello; AOutput "there"; ASend; AWrite 1 true].
Definition lab_client (i : nat) : client :=
  default {| c_out := []; c_sent := []; c_closed := true; c_phase := Gone; c_start := 0; c_replay := []; c_all := [] |}
    (clients (run 24 80 lab_acts) !! i).
Example lab_clients_ex :
  c_sent (lab_client 1) = [DataFrame (CSI +:+ "?1049h")] ∧ c_out (lab_client 1) = [DataFrame "there"] ∧
  c_out (lab_client 0) = [DataFrame "hi"; KickedFrame].
Proof. by vm_compute. Qed.
Lemma client_stream_witness :
  filter is_data (c_sent (lab_client 1) ++ c_out (lab_client 1)) =
    replay_frames (feeds (take 2 (outputs (run 24 80 lab_acts)))) ++ [DataFrame "there"].
Proof.
  destruct (client_stream 24 80 lab_acts 1 (lab_client 1)) as [_ H]; [by vm_compute|].
  exact (H ltac:(by vm_compute) ltac:(by vm_compute) ltac:(by vm_compute)).
Defined.
Lemma superseded_told_witness : c_closed (lab_client 0) = true ∨ KickedFrame ∈ c_out (lab_client 0).
Proof. apply (superseded_told 24 80 lab_acts 0 (lab_client 0)); by vm_compute. Defined.
Lemma entry_lifecycle_witness :
  entry (run 24 80 (lab_acts ++ [AEnd; AExit 0; ACleanup] ++ [ARead 1 None; ADetach 1])) = None.
Proof. rewrite app_assoc. by apply (entry_lifecycle 24 80 (lab_acts ++ [AEnd; AExit 0; ACleanup]) [ARead 1 None; ADetach 1]); vm_compute. Defined.
Lemma redraw_changes_witness : rows (redraw (started 24 80) 24 80) = 24.
Proof. by apply (redraw_changes (started 24 80) 24 80). Defined.
