(* ===== verification/Agent.v ===== *)
(** * Coding agents

    [src/internal/agent/agent.go]: the built-in harnesses, their names and
    aliases, and the command line of a session; and of [opencodeplugins.go]
    the plugin specifiers and directories behind the start-up hint. The
    checksums of a release are data the model keeps as the list of pairs. *)

From S2P Require Import Prelude GoStrings GoPath.
Open Scope string_scope.
Open Scope list_scope.
Open Scope Z_scope.

Definition Default : string := "opencode".
Definition aliases : list (string * string) := [("opencode", "opencode2")].
Definition PluginDir : string := "/etc/jailoc-tui-plugin".

Inductive TUIPlugin :=
| NoTUIPlugin | OpenCode1TUI | OpenCode2TUI | OmOExtension | ClaudeStatusLine | CopilotStatusLine | AgyStatusLine.

Definition TUIPlugin_Env (p : TUIPlugin) : string :=
  match p with
  | OpenCode1TUI => "OPENCODE_TUI_CONFIG"
  | OpenCode2TUI => "OPENCODE_CLI_CONFIG_CONTENT"
  | _ => ""
  end.
Definition TUIPlugin_Args (p : TUIPlugin) : list string :=
  match p with
  | OmOExtension => ["--extension"; PluginDir +:+ "/omo.js"]
  | ClaudeStatusLine => ["--settings"; PluginDir +:+ "/claude-settings.json"]
  | _ => []
  end.
Definition SettingsFile (p : TUIPlugin) : option (string * string) :=
  match p with
  | CopilotStatusLine => Some ("settings.json", "copilot")
  | AgyStatusLine => Some ("antigravity-cli/settings.json", "agy")
  | _ => None
  end.

Record Release := {
  rel_Repo : string; rel_Asset : string; rel_Binary : string; rel_Version : string;
  rel_SHA256 : list (string * string)
}.
Definition AssetName (r : Release) (arch : string) : string := ReplaceAll (rel_Asset r) "{arch}" arch.
Definition ReleaseArchs : list string := ["x64"; "arm64"].

Record StateDir := { st_Name : string; st_Path : string }.

(** [Installs] is a function value; [h_Installs] says whether it is set (to
    [openCode1Installs]). *)
Record Harness := {
  h_Name : string; h_Title : string; h_Binary : string; h_Package : string; h_Version : string;
  h_Release : option Release; h_Continue : string; h_Resume : string; h_Unattended : list string;
  h_Env : list string; h_State : list StateDir; h_Mounts : list string; h_TUIPlugin : TUIPlugin;
  h_ConfigDir : string; h_ConfigGitignore : string; h_Installs : bool
}.

Definition sharedMounts : list string := ["~/.agents:/home/agent/.agents:ro"].
Definition openCodeMounts : list string :=
  ["~/.config/opencode:/home/agent/.config/opencode:rw"; "~/.opencode:/home/agent/.opencode:rw"].
Definition openCode1Mounts : list string := openCodeMounts ++ ["~/.omo:/home/agent/.omo:rw"].
Definition openCodeConfigDir : string := "/home/agent/.config/opencode".
Definition NL : string := String (chr 10) "".
Definition openCodeConfigGitignore : string :=
  "node_modules" +:+ NL +:+ "package.json" +:+ NL +:+ "package-lock.json" +:+ NL +:+ "bun.lock" +:+ NL +:+ ".gitignore" +:+ NL.

Definition harnesses : list Harness := [
  {| h_Name := "opencode1"; h_Title := "OpenCode 1"; h_Binary := "opencode"; h_Package := "opencode-ai";
     h_Version := "1.19.5"; h_Release := None; h_Continue := "--continue"; h_Resume := "--session";
     h_Unattended := []; h_Env := ["OPENCODE_DISABLE_AUTOUPDATE=1"];
     h_State := [{| st_Name := "opencode-data"; st_Path := "/home/agent/.local/share/opencode" |};
                 {| st_Name := "opencode-state"; st_Path := "/home/agent/.local/state/opencode" |}];
     h_Mounts := openCode1Mounts; h_TUIPlugin := OpenCode1TUI; h_ConfigDir := openCodeConfigDir;
     h_ConfigGitignore := openCodeConfigGitignore; h_Installs := true |};
  {| h_Name := "opencode2"; h_Title := "OpenCode 2"; h_Binary := "opencode"; h_Package := "@opencode/cli";
     h_Version := "2.2.5"; h_Release := None; h_Continue := "--continue"; h_Resume := "--session";
     h_Unattended := ["--standalone"; "--auto"]; h_Env := ["OPENCODE_DISABLE_AUTOUPDATE=1"];
     h_State := [{| st_Name := "opencode2-data"; st_Path := "/home/agent/.local/share/opencode" |};
                 {| st_Name := "opencode2-state"; st_Path := "/home/agent/.local/state/opencode" |}];
     h_Mounts := openCodeMounts; h_TUIPlugin := OpenCode2TUI; h_ConfigDir := openCodeConfigDir;
     h_ConfigGitignore := openCodeConfigGitignore; h_Installs := false |};
  {| h_Name := "claude"; h_Title := "Claude Code"; h_Binary := "claude"; h_Package := "@anthropic-ai/claude-code";
     h_Version := "2.1.318"; h_Release := None; h_Continue := "--continue"; h_Resume := "--resume";
     h_Unattended := ["--dangerously-skip-permissions"];
     h_Env := ["CLAUDE_CONFIG_DIR=/home/agent/.claude"; "DISABLE_AUTOUPDATER=1"];
     h_State := [{| st_Name := "claude"; st_Path := "/home/agent/.claude" |}];
     h_Mounts := []; h_TUIPlugin := ClaudeStatusLine; h_ConfigDir := ""; h_ConfigGitignore := ""; h_Installs := false |};
  {| h_Name := "copilot"; h_Title := "GitHub Copilot CLI"; h_Binary := "copilot"; h_Package := "@github/copilot";
     h_Version := "1.0.105"; h_Release := None; h_Continue := "--continue"; h_Resume := "--resume";
     h_Unattended := ["--allow-all"]; h_Env := ["COPILOT_AUTO_UPDATE=false"];
     h_State := [{| st_Name := "copilot"; st_Path := "/home/agent/.copilot" |}];
     h_Mounts := []; h_TUIPlugin := CopilotStatusLine; h_ConfigDir := ""; h_ConfigGitignore := ""; h_Installs := false |};
  {| h_Name := "omo"; h_Title := "OmO"; h_Binary := "omo"; h_Package := "omo-ai";
     h_Version := "5.1.60"; h_Release := None; h_Continue := "--continue"; h_Resume := "--session";
     h_Unattended := ["--permission-preset"; "full-access"]; h_Env := ["PI_SKIP_VERSION_CHECK=1"; "OMO_RUNTIME=node"];
     h_State := [{| st_Name := "omo"; st_Path := "/home/agent/.omo" |}];
     h_Mounts := []; h_TUIPlugin := OmOExtension; h_ConfigDir := ""; h_ConfigGitignore := ""; h_Installs := false |};
  {| h_Name := "agy"; h_Title := "Antigravity CLI"; h_Binary := "agy"; h_Package := "";
     h_Version := "1.5.0";
     h_Release := Some {| rel_Repo := "google-antigravity/antigravity-cli"; rel_Asset := "agy_cli_linux_{arch}.tar.gz";
                          rel_Binary := "antigravity"; rel_Version := "1.5.0";
                          rel_SHA256 := [("x64", "f65e365a67be49abdaf92f5669c3157bd4b9c569f6b9f448340b00ca261b0f01");
                                         ("arm64", "87e73a5ab4ecb3a9668660d259dafd13f5443149da0113664d59129a21a62ba4")] |};
     h_Continue := "--continue"; h_Resume := "--conversation";
     h_Unattended := ["--dangerously-skip-permissions"]; h_Env := ["AGY_CLI_DISABLE_AUTO_UPDATE=1"];
     h_State := [{| st_Name := "antigravity"; st_Path := "/home/agent/.gemini" |}];
     h_Mounts := []; h_TUIPlugin := AgyStatusLine; h_ConfigDir := ""; h_ConfigGitignore := ""; h_Installs := false |}].

(** A lookup in a Go map written as an association list. *)
Definition assoc {A} (k : string) (l : list (string * A)) : option A :=
  snd <$> List.find (λ kv, String.eqb (fst kv) k) l.

Definition with_name (h : Harness) (n : string) : Harness :=
  {| h_Name := n; h_Title := h_Title h; h_Binary := h_Binary h; h_Package := h_Package h; h_Version := h_Version h;
     h_Release := h_Release h; h_Continue := h_Continue h; h_Resume := h_Resume h; h_Unattended := h_Unattended h;
     h_Env := h_Env h; h_State := h_State h; h_Mounts := h_Mounts h; h_TUIPlugin := h_TUIPlugin h;
     h_ConfigDir := h_ConfigDir h; h_ConfigGitignore := h_ConfigGitignore h; h_Installs := h_Installs h |}.
Definition with_version (h : Harness) (v : string) : Harness :=
  {| h_Name := h_Name h; h_Title := h_Title h; h_Binary := h_Binary h; h_Package := h_Package h; h_Version := v;
     h_Release := h_Release h; h_Continue := h_Continue h; h_Resume := h_Resume h; h_Unattended := h_Unattended h;
     h_Env := h_Env h; h_State := h_State h; h_Mounts := h_Mounts h; h_TUIPlugin := h_TUIPlugin h;
     h_ConfigDir := h_ConfigDir h; h_ConfigGitignore := h_ConfigGitignore h; h_Installs := h_Installs h |}.

Definition Lookup (name : string) : option Harness :=
  let target := match assoc name aliases with Some a => a | None => name end in
  (λ h, with_name h name) <$> List.find (λ h, String.eqb (h_Name h) target) harnesses.
Definition Names : list string := sort_strings (map fst aliases) ++ map h_Name harnesses.
Definition All : list Harness := harnesses.
Definition DefaultMounts (h : Harness) : list string := h_Mounts h ++ sharedMounts.

Definition Command (h : Harness) (args : list string) (id : string) (cont : bool) : list string :=
  (h_Binary h :: h_Unattended h) ++ TUIPlugin_Args (h_TUIPlugin h) ++
  (if negb (String.eqb id "") then [h_Resume h; id] else if cont then [h_Continue h] else []) ++ args.

(** ** Plugin specifiers *)

Definition registry_invalid (c : ascii) : bool :=
  (code c <=? 32) || (code c =? 127) || Ascii.eqb c ":" || Ascii.eqb c "#" || Ascii.eqb c "\".
(** The package to install and its name. *)
Definition registryPlugin (spec : string) : option (string * string) :=
  if String.eqb spec "" || sexists registry_invalid spec || HasPrefix spec "." || HasPrefix spec "/" || HasPrefix spec "~"
  then None else
  match (match CutPrefix spec "@" with
         | Some after => let '(s, r, slash) := Cut after "/" in
                         if negb slash || String.eqb s "" then None else Some ("@" +:+ s +:+ "/", r)
         | None => Some ("", spec)
         end) with
  | None => None
  | Some (scope, rest) =>
      let '(base, version, versioned) := Cut rest "@" in
      if String.eqb base "" || Contains base "/" ||
         (versioned && (String.eqb version "" || Contains version "/")) then None else
      let name := scope +:+ base in
      if negb versioned then Some (name +:+ "@latest", name) else Some (spec, name)
  end.

Definition xdgDir (value home name : string) : string :=
  if negb (String.eqb value "") then value else if String.eqb home "" then "" else JoinPath [home; name].
Definition envTrue (v : string) : bool := EqualFold v "true" || String.eqb v "1".

(** [projectDirs]: up to the git root or the root directory. Each step goes to
    a shorter path, so the length of the path bounds the walk. *)
Fixpoint project_walk (has_git : string → bool) (fuel : nat) (d : string) : list string :=
  match fuel with
  | O => [d]
  | S fuel' =>
      if has_git d then [d] else
      let parent := Dir d in
      if String.eqb parent d then [d] else d :: project_walk has_git fuel' parent
  end.
Definition projectDirs (has_git : string → bool) (dir : string) : list string :=
  if String.eqb dir "" then [] else
  let d := Clean dir in project_walk has_git (S (String.length d)) d.

Example registryPlugin_ex :
  registryPlugin "@scope/name@1.2" = Some ("@scope/name@1.2", "@scope/name") ∧
  registryPlugin "oh-my" = Some ("oh-my@latest", "oh-my") ∧ registryPlugin "./x" = None ∧
  registryPlugin "git+https://x" = None ∧
  projectDirs (λ d, String.eqb d "/a") "/a/b/c/" = ["/a/b/c"; "/a/b"; "/a"].
Proof. by vm_compute. Qed.

(** ** Lemmas *)

Lemma Lookup_Names name : is_Some (Lookup name) ↔ name ∈ Names.
Proof.
  unfold Lookup, Names. split.
  - intros [h H]. destruct (decide (name = "opencode")) as [->|Hne]; [vm_compute; constructor|].
    assert (assoc name aliases = None) as Ha.
    { unfold assoc, aliases. cbn [List.find fst]. destruct (String.eqb_spec "opencode" name); [congruence|done]. }
    rewrite Ha in H. apply fmap_Some in H as (h0 & Hf & _).
    apply List.find_some in Hf as [Hin Heq]. apply String.eqb_eq in Heq as <-.
    apply elem_of_app. right. apply list_elem_of_fmap. exists h0. split; [done|]. by apply list_elem_of_In.
  - intros H. assert (Forall (λ n, is_Some ((λ h, with_name h n) <$>
      List.find (λ h, String.eqb (h_Name h) (match assoc n aliases with Some a => a | None => n end)) harnesses)) (sort_strings (map fst aliases) ++ map h_Name harnesses)) as Hall.
    { vm_compute. repeat constructor; by eexists. }
    rewrite Forall_forall in Hall. by apply Hall.
Qed.
Lemma Lookup_name name h : Lookup name = Some h → h_Name h = name.
Proof. unfold Lookup. intros H. apply fmap_Some in H as (h0 & _ & ->). done. Qed.
