(* ===== verification/GoTime.v ===== *)
(** * Durations

    Go's [time.ParseDuration] on byte strings. The value is in nanoseconds.
    The fraction of a unit is computed in binary64 as the library does, with
    the Standard Library's specification floats. *)

From S2P Require Import Prelude GoStrings GoStrconv.
From Stdlib Require Import SpecFloat.
Open Scope string_scope.
Open Scope list_scope.
Open Scope Z_scope.

Definition f64 (z : Z) : spec_float := binary_normalize 53 1024 z 0 false.
(** [uint64(x)] of a non-negative finite float in range. *)
Definition f64_trunc (x : spec_float) : Z :=
  match x with S754_finite false m e => Z.shiftl (Zpos m) e | _ => 0 end.

(** [leadingInt]: the value, whether any digit was read, and the rest. *)
Fixpoint leadingInt (x : Z) (s : string) : option (Z * string) :=
  match s with
  | String c r =>
      if is_digit c then
        if 2 ^ 63 / 10 <? x then None else
        let y := x * 10 + digit_val c in
        if 2 ^ 63 <? y then None else leadingInt y r
      else Some (x, s)
  | EmptyString => Some (x, s)
  end.
(** [leadingFraction]: digits beyond the precision are read and dropped. *)
Fixpoint leadingFraction (x : Z) (scale : spec_float) (overflow : bool) (s : string) : Z * spec_float * string :=
  match s with
  | String c r =>
      if is_digit c then
        if overflow || ((2 ^ 63 - 1) / 10 <? x) then leadingFraction x scale true r else
        let y := x * 10 + digit_val c in
        if 2 ^ 63 <? y then leadingFraction x scale true r
        else leadingFraction y (SFmul 53 1024 scale (f64 10)) false r
      else (x, scale, s)
  | EmptyString => (x, scale, s)
  end.
(** The unit name: everything up to the next dot or digit. *)
Fixpoint unit_name (s : string) : string * string :=
  match s with
  | String c r => if Ascii.eqb c "." || is_digit c then ("", s)
                  else let '(u, r') := unit_name r in (String c u, r')
  | EmptyString => ("", "")
  end.
Definition unit_ns (u : string) : option Z :=
  if String.eqb u "ns" then Some 1
  else if String.eqb u "us" || String.eqb u (String (chr 194) (String (chr 181) "s"))
          || String.eqb u (String (chr 206) (String (chr 188) "s")) then Some 1000
  else if String.eqb u "ms" then Some 1000000
  else if String.eqb u "s" then Some 1000000000
  else if String.eqb u "m" then Some 60000000000
  else if String.eqb u "h" then Some 3600000000000
  else None.

(** The loop over [number unit] groups; each round reads a unit, so the length
    of the text bounds the rounds. *)
Fixpoint duration_loop (fuel : nat) (d : Z) (s : string) : option Z :=
  match fuel, s with
  | _, EmptyString => Some d
  | O, _ => None
  | S fuel', String c _ =>
      if negb (Ascii.eqb c "." || is_digit c) then None else
      match leadingInt 0 s with
      | None => None
      | Some (v, s1) =>
          let pre := negb (String.length s1 =? String.length s)%nat in
          let '(f, scale, s2, post) :=
            match s1 with
            | String "." r => let '(f, scale, s2) := leadingFraction 0 (f64 1) false r in
                              (f, scale, s2, negb (String.length s2 =? String.length r)%nat)
            | _ => (0, f64 1, s1, false)
            end in
          if negb pre && negb post then None else
          let '(u, s3) := unit_name s2 in
          if String.eqb u "" then None else
          match unit_ns u with
          | None => None
          | Some unit =>
              if 2 ^ 63 / unit <? v then None else
              let v := v * unit in
              let v := if 0 <? f
                       then v + f64_trunc (SFmul 53 1024 (f64 f) (SFdiv 53 1024 (f64 unit) scale)) else v in
              if 2 ^ 63 <? v then None else
              let d := d + v in
              if 2 ^ 63 <? d then None else duration_loop fuel' d s3
          end
      end
  end.
Definition ParseDuration (s : string) : option Z :=
  let '(neg, s) := match s with
                   | String "-" r => (true, r)
                   | String "+" r => (false, r)
                   | _ => (false, s)
                   end in
  if String.eqb s "0" then Some 0 else
  if String.eqb s "" then None else
  match duration_loop (String.length s) 0 s with
  | None => None
  | Some d => if neg then Some (- d) else if 2 ^ 63 - 1 <? d then None else Some d
  end.

Example ParseDuration_ex :
  ParseDuration "15m" = Some 900000000000 ∧ ParseDuration "1h30m" = Some 5400000000000 ∧
  ParseDuration "1.5s" = Some 1500000000 ∧ ParseDuration "-2ms" = Some (-2000000) ∧
  ParseDuration "5" = None ∧ ParseDuration ".s" = None ∧ ParseDuration "0" = Some 0 ∧
  ParseDuration "9999999999h" = None.
Proof. by vm_compute. Qed.
