(* ===== verification/ConfigPaths.v ===== *)
(** * Paths and mounts of the configuration

    The part of [src/internal/config/config.go] about paths: "~" expansion,
    mount specifications, their validation against forbidden directories and
    the merge of mount layers. Two things are arguments: [home], the answer of
    [os.UserHomeDir], and [ParseVolume], the parser of compose-go's [format]
    package, which yields the source and the target of a volume
    specification. *)

From S2P Require Import Prelude GoStrings GoPath.
Open Scope string_scope.
Open Scope list_scope.
Open Scope Z_scope.

Record Mount := { Host : string; Container : string; Mode : string }.
#[export] Instance Mount_eq_dec : EqDecision Mount.
Proof. solve_decision. Defined.

(** The errors of this part of the package. *)
Inductive cerr :=
| EHome
| EMountSpec (spec : string)
| EMountMode (spec : string)
| EMountHost (host : string)
| EMountGuest (container : string)
| EForbiddenHost (host : string)
| EForbiddenGuest (container prefix : string)
| ESnapshotRW (spec : string)
| EOther (what : string) (detail : list string).

Definition forbiddenMountPrefixes : list string :=
  ["/home/agent"; "/usr"; "/etc"; "/var"; "/bin"; "/sbin"; "/lib"; "/lib64"; "/opt"; "/root"; "/proc"; "/sys";
   "/dev"; "/run"; "/tmp"; "/certs"].
Definition forbiddenMountContainerPrefixes : list string :=
  ["/"; "/usr"; "/etc"; "/var"; "/bin"; "/sbin"; "/lib"; "/lib64"; "/opt"; "/root"; "/proc"; "/sys";
   "/dev"; "/run"; "/tmp"; "/certs"].
Definition forbiddenMountHostPaths : list string :=
  ["/"; "/boot"; "/dev"; "/etc"; "/private"; "/proc"; "/sys"; "/run"; "/var"; "~/.ssh"; "~/.gnupg"; "~/.aws"].
Definition guestHome : string := "/home/agent".

(** [p == prefix || strings.HasPrefix(p, prefix+"/")]. *)
Definition under (p prefix : string) : bool := String.eqb p prefix || HasPrefix p (prefix +:+ "/").
(** The loop over a list of forbidden prefixes: the first that matches. *)
Definition forbidden_by (p : string) (prefixes : list string) : option string :=
  List.find (λ prefix, under p prefix) prefixes.

Definition expandGuestPath (path : string) : string :=
  if String.eqb path "~" then guestHome else
  match CutPrefix path "~/" with Some rest => guestHome +:+ "/" +:+ rest | None => path end.

Definition formatMount (m : Mount) : string := Host m +:+ ":" +:+ Container m +:+ ":" +:+ Mode m.

(** [rawMode]: the text after source and target. *)
Definition rawMode (spec source target : string) : string :=
  match CutPrefix spec (source +:+ ":" +:+ target) with
  | Some (String ":" mode) => mode
  | _ => ""
  end.

Definition parseRemovalMount (spec : string) : result cerr Mount :=
  let rest := sdrop 1 spec in
  let '(container, m, two) := Cut rest ":" in
  let mode := if two then m else "rw" in
  if negb (String.eqb mode "ro") && negb (String.eqb mode "rw") then Err (EMountMode spec) else
  let container := expandGuestPath container in
  if negb (HasPrefix container "/") then Err (EMountGuest container) else
  Ok {| Host := ""; Container := container; Mode := mode |}.

Section Paths.
Context (home : option string) (ParseVolume : string → option (string * string)).

Definition ExpandPath (path : string) : result cerr string :=
  if negb (HasPrefix path "~") then Ok path else
  match home with Some h => Ok (Replace1 path "~" h) | None => Err EHome end.

Definition ParseMount (spec : string) : result cerr Mount :=
  if HasPrefix spec ":" then parseRemovalMount spec else
  match ParseVolume spec with
  | None => Err (EMountSpec spec)
  | Some (host, container) =>
      if String.eqb host "" || String.eqb container "" then Err (EMountSpec spec) else
      let mode := rawMode spec host container in
      let mode := if String.eqb mode "" then "rw" else mode in
      if negb (String.eqb mode "ro") && negb (String.eqb mode "rw") then Err (EMountMode spec) else
      expandedHost ← ExpandPath host;
      if negb (IsAbs expandedHost) then Err (EMountHost host) else
      let container := expandGuestPath container in
      if negb (HasPrefix container "/") then Err (EMountGuest container) else
      Ok {| Host := host; Container := container; Mode := mode |}
  end.

Definition validateMountHostPath (host : string) : result cerr unit :=
  if String.eqb host "" then Ok () else
  expandedHost ← ExpandPath host;
  let cleanHost := Clean expandedHost in
  riter (λ forbidden,
    expandedForbidden ← ExpandPath forbidden;
    guard_err (negb (under cleanHost (Clean expandedForbidden))) (EForbiddenHost cleanHost))
    forbiddenMountHostPaths.

(** The guest path check that follows in every caller. *)
Definition checkContainer (container : string) : result cerr unit :=
  match forbidden_by container forbiddenMountContainerPrefixes with
  | Some prefix => Err (EForbiddenGuest container prefix)
  | None => Ok ()
  end.

Definition normalizeSnapshot (spec : string) : result cerr string :=
  if HasSuffix spec ":rw" then Err (ESnapshotRW spec) else
  m ← ParseMount spec;
  _ ← validateMountHostPath (Host m);
  host ← ExpandPath (Host m);
  let container := Clean (Container m) in
  _ ← checkContainer container;
  Ok (formatMount {| Host := host; Container := container; Mode := "ro" |}).

Definition validateAgentMounts (mounts : list string) : result cerr unit :=
  riter (λ spec,
    m ← ParseMount spec;
    _ ← validateMountHostPath (Host m);
    checkContainer (Clean (Container m))) mounts.

(** The mount loop of [Validate] over the defaults: the normalised specs. *)
Definition validateDefaultMount (spec : string) : result cerr string :=
  m ← ParseMount spec;
  expandedHost ← ExpandPath (Host m);
  let m := {| Host := expandedHost; Container := Clean (Container m); Mode := Mode m |} in
  _ ← guard_err (HasPrefix (Container m) "/") (EMountGuest (Container m));
  _ ← checkContainer (Container m);
  _ ← validateMountHostPath (Host m);
  Ok (formatMount m).
(** ... over a workspace, whose specs [expandPaths] has normalised. *)
Definition expandMount (spec : string) : result cerr string :=
  m ← ParseMount spec;
  expandedHost ← ExpandPath (Host m);
  Ok (formatMount {| Host := expandedHost; Container := Clean (Container m); Mode := Mode m |}).
Definition validateWorkspaceMount (spec : string) : result cerr unit :=
  m ← ParseMount spec;
  _ ← validateMountHostPath (Host m);
  let cleanedContainer := Clean (Container m) in
  _ ← guard_err (HasPrefix cleanedContainer "/") (EMountGuest cleanedContainer);
  checkContainer cleanedContainer.

(** ** MergeMounts *)

(** The loop's state: guest paths in first-seen order and the mount each has
    now. [orderedContainers] and [seenContainers] are one list. *)
Record merge_state := { orderedContainers : list string; byContainer : gmap string Mount }.
Definition merge_step (st : merge_state) (spec : string) : result cerr merge_state :=
  m ← ParseMount spec;
  expandedHost ← (if negb (String.eqb (Host m) "") then ExpandPath (Host m) else Ok (Host m));
  let ordered := if bool_decide (Container m ∈ orderedContainers st) then orderedContainers st
                 else orderedContainers st ++ [Container m] in
  Ok {| orderedContainers := ordered;
        byContainer := if String.eqb (Host m) "" then delete (Container m) (byContainer st)
                       else <[Container m := {| Host := expandedHost; Container := Container m; Mode := Mode m |}]>
                              (byContainer st) |}.
Fixpoint merge_loop (st : merge_state) (specs : list string) : result cerr merge_state :=
  match specs with
  | [] => Ok st
  | spec :: specs' => st ← merge_step st spec; merge_loop st specs'
  end.
Definition merged (st : merge_state) : list Mount :=
  omap (λ c, byContainer st !! c) (orderedContainers st).
Definition MergeMounts (layers : list (list string)) : result cerr (list string) :=
  st ← merge_loop {| orderedContainers := []; byContainer := ∅ |} (concat layers);
  Ok (map formatMount (merged st)).
End Paths.

Definition mergeDedup (a b : list string) : list string :=
  match a, b with
  | [], _ => b
  | _, [] => a
  | _, _ => dedup (a ++ b)
  end.

(** ** Looking up mounts by guest path

    [mount_targets.go]. A specification that does not parse is skipped. *)

Section Targets.
Context (home : option string) (ParseVolume : string → option (string * string)).
Definition zeroMount : Mount := {| Host := ""; Container := ""; Mode := "" |}.

Definition MountsContainTarget (mounts : list string) (target : string) : bool :=
  existsb (λ spec, match ParseMount home ParseVolume spec with
                   | Ok mount => String.eqb (Container mount) target | Err _ => false end) mounts.
Definition cover_step (target : string) (best : Mount) (spec : string) : Mount :=
  match ParseMount home ParseVolume spec with
  | Err _ => best
  | Ok mount =>
      if String.eqb (Host mount) "" then best else
      if negb (under target (Container mount)) then best else
      if (String.length (Container best) <? String.length (Container mount))%nat then mount else best
  end.
Definition coveringMount (mounts : list string) (target : string) : Mount :=
  foldl (cover_step target) zeroMount mounts.
Definition ReadOnlyMountCoversPath (mounts : list string) (target : string) : option string :=
  let best := coveringMount mounts target in
  if negb (String.eqb (Mode best) "ro") then None else Some (Host best +:+ TrimPrefix target (Container best)).
Definition MountHostPath (mounts : list string) (target : string) : option string :=
  let best := coveringMount mounts target in
  if String.eqb (Host best) "" then None else Some (Host best +:+ TrimPrefix target (Container best)).

(** The covering mount is the one with the longest guest path above the target. *)
Definition covers (target : string) (mounts : list string) (m : Mount) : Prop :=
  (∃ spec, spec ∈ mounts ∧ ParseMount home ParseVolume spec = Ok m) ∧ Host m ≠ "" ∧ under target (Container m) = true.
Lemma coveringMount_longest mounts target best :
  coveringMount mounts target = best →
  (best = zeroMount ∨ covers target mounts best) ∧
  ∀ m, covers target mounts m → (String.length (Container m) ≤ String.length (Container best))%nat.
Proof.
  intros <-. unfold coveringMount. induction mounts as [|spec mounts IH] using rev_ind.
  { split; [by left|]. intros m ((s & Hs & _) & _). by apply elem_of_nil in Hs. }
  rewrite foldl_app. cbn [foldl]. set (b := foldl (cover_step target) zeroMount mounts) in *. destruct IH as [IHb IHm].
  assert (∀ m, covers target mounts m → covers target (mounts ++ [spec]) m) as Hmono.
  { intros m ((s & Hs & Hp) & ? & ?). split; [|done]. exists s. split; [|done]. apply elem_of_app. by left. }
  assert (∀ m, covers target (mounts ++ [spec]) m → covers target mounts m ∨
    (ParseMount home ParseVolume spec = Ok m ∧ Host m ≠ "" ∧ under target (Container m) = true)) as Hinv.
  { intros m ((s & [Hs|Hs]%elem_of_app & Hp) & Hh & Hu).
    - left. split; [by exists s|done].
    - right. apply list_elem_of_singleton in Hs as ->. by split_and!. }
  assert (b = zeroMount ∨ covers target (mounts ++ [spec]) b) as Hb by (destruct IHb; [by left|right; auto]).
  unfold cover_step. destruct (ParseMount home ParseVolume spec) as [x|e] eqn:E.
  2: { split; [done|]. intros m [Hm|(Hm & _)]%Hinv; [auto|congruence]. }
  destruct (String.eqb_spec (Host x) "") as [Hx|Hx].
  { split; [done|]. intros m [Hm|([= ->] & ? & _)]%Hinv; [auto|congruence]. }
  destruct (under target (Container x)) eqn:Hu; cbn [negb].
  2: { split; [done|]. intros m [Hm|([= ->] & _ & ?)]%Hinv; [auto|congruence]. }
  destruct (Nat.ltb_spec (String.length (Container b)) (String.length (Container x))).
  - split.
    + right. split; [|done]. exists spec. split; [|done]. apply elem_of_app. right. by apply list_elem_of_singleton.
    + intros m [Hm%IHm|([= ->] & _)]%Hinv; lia.
  - split; [done|]. intros m [Hm%IHm|([= ->] & _)]%Hinv; lia.
Qed.
End Targets.

(** ** The forbidden lists *)

Lemma forbidden_by_None p l : forbidden_by p l = None ↔ ∀ q, q ∈ l → under p q = false.
Proof.
  unfold forbidden_by. split.
  - intros H q Hq. apply (List.find_none _ _ H). by apply list_elem_of_In.
  - intros H. destruct (List.find _ l) as [q|] eqn:E; [|done].
    apply List.find_some in E as [Hin Hu]. rewrite H in Hu; [done|by apply list_elem_of_In].
Qed.
Lemma checkContainer_Ok c u : checkContainer c = Ok u ↔ ∀ q, q ∈ forbiddenMountContainerPrefixes → under c q = false.
Proof.
  rewrite -forbidden_by_None. unfold checkContainer. destruct u, (forbidden_by _ _); naive_solver.
Qed.

(** ** Merging layers *)

Section MergeSpec.
Context (home : option string) (ParseVolume : string → option (string * string)).
Notation ExpandPath := (ExpandPath home).
Notation ParseMount := (ParseMount home ParseVolume).

(** The reference: what the last mention of a guest path says. *)
Definition last_for (c : string) (ms : list Mount) : option Mount :=
  last (filter (λ m, Container m = c) ms).
Definition expands_to (m0 m : Mount) : Prop :=
  ExpandPath (Host m0) = Ok (Host m) ∧ Container m = Container m0 ∧ Mode m = Mode m0.

Lemma last_for_snoc c ms m :
  last_for c (ms ++ [m]) = if bool_decide (Container m = c) then Some m else last_for c ms.
Proof.
  unfold last_for. rewrite filter_app filter_cons filter_nil. case_decide.
  - rewrite bool_decide_eq_true_2; [|done]. by rewrite last_snoc.
  - rewrite bool_decide_eq_false_2; [|done]. by rewrite app_nil_r.
Qed.

(** The state after a prefix of the specs. *)
Record merge_inv (ms : list Mount) (st : merge_state) : Prop := {
  mi_nodup : NoDup (orderedContainers st);
  mi_order : ∀ c, c ∈ orderedContainers st ↔ is_Some (last_for c ms);
  mi_by : ∀ c m, byContainer st !! c = Some m ↔
          ∃ m0, last_for c ms = Some m0 ∧ Host m0 ≠ "" ∧ expands_to m0 m
}.
Lemma merge_step_inv ms st spec st' m :
  merge_inv ms st → ParseMount spec = Ok m → merge_step home ParseVolume st spec = Ok st' → merge_inv (ms ++ [m]) st'.
Proof.
  intros [Hn Ho Hb] Hm H. unfold merge_step in H. rewrite Hm in H. cbn [mbind result_bind] in H.
  apply bind_Ok in H as (eh & He & H). inv_res. split; cbn [orderedContainers byContainer].
  - case_bool_decide as Hin; [done|]. apply NoDup_app. split; [done|]. split; [|by apply NoDup_singleton].
    intros c Hc Hc'. apply list_elem_of_singleton in Hc'. congruence.
  - intros c. rewrite last_for_snoc. assert (c ∈ (if bool_decide (Container m ∈ orderedContainers st) then orderedContainers st
      else orderedContainers st ++ [Container m]) ↔ c ∈ orderedContainers st ∨ c = Container m) as ->.
    { case_bool_decide as Hin; [|rewrite elem_of_app list_elem_of_singleton; tauto]. split; [by left|]. by intros [ | ->]. }
    rewrite Ho. destruct (decide (Container m = c)) as [Hc|Hc].
    + rewrite bool_decide_eq_true_2; [|done]. split; [intros _; by exists m|intros _; by right].
    + rewrite bool_decide_eq_false_2; [|done]. split; [intros [?|?]; [done|congruence]|by left].
  - intros c x. rewrite last_for_snoc. destruct (decide (Container m = c)) as [<-|Hc].
    + rewrite bool_decide_eq_true_2; [|done]. destruct (String.eqb_spec (Host m) "") as [Hh|Hh].
      * rewrite lookup_delete_eq. split; [done|]. intros (m0 & [= <-] & ? & _). done.
      * rewrite lookup_insert_eq. cbn [negb] in He. split.
        -- intros [= <-]. exists m. split_and!; [done|done|]. by split_and!.
        -- intros (m0 & [= <-] & _ & Hx & Hc & Hmo). f_equal. rewrite He in Hx. injection Hx as Hx.
           destruct x. cbn in *. by subst.
    + rewrite bool_decide_eq_false_2; [|done]. rewrite -Hb.
      destruct (String.eqb (Host m) ""); [by rewrite lookup_delete_ne|by rewrite lookup_insert_ne].
Qed.
Lemma merge_loop_inv ms specs st st' rest :
  merge_inv ms st → merge_loop home ParseVolume st specs = Ok st' → rmap ParseMount specs = Ok rest →
  merge_inv (ms ++ rest) st'.
Proof.
  revert ms st rest. induction specs as [|spec specs IH]; intros ms st rest Hi H Hr; cbn in H, Hr; inv_res.
  - by rewrite app_nil_r.
  - match goal with Hp : ParseMount spec = Ok ?x, Hs : merge_step _ _ _ spec = Ok ?s |- _ =>
      pose proof (merge_step_inv _ _ _ _ _ Hi Hp Hs) as Hi' end.
    match goal with |- merge_inv (ms ++ ?x :: ?r) _ => change (x :: r) with ([x] ++ r) end.
    rewrite app_assoc. by eapply IH; eauto.
Qed.
Lemma merge_loop_parses specs st st' :
  merge_loop home ParseVolume st specs = Ok st' → is_ok (rmap ParseMount specs) = true.
Proof.
  revert st. induction specs as [|spec specs IH]; intros st H; [done|]. cbn in H |- *.
  apply bind_Ok in H as (st1 & H1 & H2). unfold merge_step in H1. apply bind_Ok in H1 as (m & Hm & _).
  rewrite Hm. cbn. specialize (IH _ H2). by destruct (rmap ParseMount specs).
Qed.

Lemma omap_NoDup_containers (by_ : gmap string Mount) l :
  (∀ c m, by_ !! c = Some m → Container m = c) → NoDup l → NoDup (map Container (omap (λ c, by_ !! c) l)).
Proof.
  intros Hc. induction 1 as [|c l Hnin Hn IH]; cbn; [constructor|].
  destruct (by_ !! c) as [m|] eqn:E; [|done]. cbn. constructor; [|done].
  rewrite list_elem_of_fmap. intros (m' & Heq & Hin). apply list_elem_of_omap in Hin as (c' & Hc' & Hm').
  rewrite (Hc _ _ E) (Hc _ _ Hm') in Heq. by subst.
Qed.

(** Merging mount layers gives every guest path at most one mount, that of
    the last layer that mentions the path, with its host path expanded; a path
    whose last mention is a removal entry has none. *)
Theorem MergeMounts_last_wins layers out :
  MergeMounts home ParseVolume layers = Ok out →
  ∃ ms res, rmap ParseMount (concat layers) = Ok ms ∧ out = map formatMount res ∧ NoDup (map Container res) ∧
  ∀ m, m ∈ res ↔ ∃ m0, last_for (Container m) ms = Some m0 ∧ Host m0 ≠ "" ∧ expands_to m0 m.
Proof.
  unfold MergeMounts. intros H. apply bind_Ok in H as (st & Hl & H). inv_res.
  pose proof (merge_loop_parses _ _ _ Hl) as Hp. destruct (rmap ParseMount (concat layers)) as [ms|] eqn:Er; [|done].
  assert (merge_inv [] {| orderedContainers := []; byContainer := ∅ |}) as H0.
  { split; cbn; [constructor|..].
    - intros c. split; [by intros Hc%elem_of_nil|by intros [? [=]]].
    - intros c m. rewrite lookup_empty. split; [done|]. by intros (? & [=] & _). }
  pose proof (merge_loop_inv [] _ _ _ _ H0 Hl Er) as [Hn Ho Hb]. cbn [app] in *.
  assert (∀ c m, byContainer st !! c = Some m → Container m = c) as Hcc.
  { intros c m Hm. apply Hb in Hm as (m0 & Hm0 & _ & _ & -> & _). unfold last_for in Hm0.
    apply last_Some_elem_of in Hm0. by apply list_elem_of_filter in Hm0 as [? _]. }
  exists ms, (merged st). split_and!; [done|done|by apply omap_NoDup_containers|].
  intros m. unfold merged. rewrite list_elem_of_omap. split.
  - intros (c & _ & Hm). rewrite (Hcc _ _ Hm). by apply Hb.
  - intros Hm. apply Hb in Hm as Hm'. exists (Container m). split; [|done].
    apply Ho. destruct Hm as (m0 & -> & _). by eexists.
Qed.

(** ** What validation keeps out *)

Definition guest_ok (c : string) : Prop := ∀ p, p ∈ forbiddenMountContainerPrefixes → under (Clean c) p = false.
Definition host_ok (h : string) : Prop :=
  h = "" ∨ ∃ e, ExpandPath h = Ok e ∧
  ∀ f, f ∈ forbiddenMountHostPaths → ∃ fe, ExpandPath f = Ok fe ∧ under (Clean e) (Clean fe) = false.

Lemma validateMountHostPath_Ok h u : validateMountHostPath home h = Ok u → host_ok h.
Proof.
  unfold validateMountHostPath, host_ok. destruct (String.eqb_spec h "") as [->|Hne]; [by left|].
  intros H. right. apply bind_Ok in H as (e & He & H). exists e. split; [done|].
  apply riter_Ok in H. rewrite Forall_forall in H. intros f Hf. specialize (H f Hf). cbn in H.
  apply bind_Ok in H as (fe & Hfe & H). apply guard_err_Ok in H. exists fe. split; [done|]. by apply negb_true_iff.
Qed.

(** No accepted mount exposes a forbidden directory. Whichever list it is
    in (defaults, workspace, an agent's table or the snapshots), a mount that
    passes validation has a guest path outside the system directories and a
    host path that is neither a forbidden directory nor below one. *)
Theorem mount_validation_sound spec :
  (∀ s, validateDefaultMount home ParseVolume spec = Ok s →
    ∃ m, ParseMount spec = Ok m ∧ guest_ok (Container m) ∧ ∃ e, ExpandPath (Host m) = Ok e ∧ host_ok e) ∧
  (∀ u, validateWorkspaceMount home ParseVolume spec = Ok u →
    ∃ m, ParseMount spec = Ok m ∧ guest_ok (Container m) ∧ host_ok (Host m)) ∧
  (∀ u, validateAgentMounts home ParseVolume [spec] = Ok u →
    ∃ m, ParseMount spec = Ok m ∧ guest_ok (Container m) ∧ host_ok (Host m)) ∧
  (∀ s, normalizeSnapshot home ParseVolume spec = Ok s →
    ∃ m, ParseMount spec = Ok m ∧ guest_ok (Container m) ∧ host_ok (Host m)).
Proof.
  assert (∀ c u, checkContainer (Clean c) = Ok u → guest_ok c) as Hg.
  { intros c u Hc. exact (proj1 (checkContainer_Ok (Clean c) u) Hc). }
  split_and!; intros x H.
  - unfold validateDefaultMount in H. inv_res. cbn [Host Container Mode] in *.
    eexists. split_and!; [eassumption|eapply Hg; eassumption|eexists; split; [eassumption|]].
    eapply validateMountHostPath_Ok. eassumption.
  - unfold validateWorkspaceMount in H. inv_res. eexists. split_and!; [eassumption|eapply Hg; eassumption|eapply validateMountHostPath_Ok; eassumption].
  - unfold validateAgentMounts in H. cbn in H. inv_res. eexists. split_and!; [eassumption|eapply Hg; eassumption|eapply validateMountHostPath_Ok; eassumption].
  - unfold normalizeSnapshot in H. destruct (HasSuffix spec ":rw"); [done|]. inv_res.
    eexists. split_and!; [eassumption|eapply Hg; eassumption|eapply validateMountHostPath_Ok; eassumption].
Qed.
End MergeSpec.

(** ** Witnesses *)

(** A volume parser for the witnesses: source and target are the first two
    colon-separated fields. *)
Definition simple_volume (s : string) : option (string * string) :=
  match Split s ":" with a :: b :: _ => Some (a, b) | _ => None end.

Lemma MergeMounts_last_wins_witness :
  MergeMounts (Some "/h") simple_volume [["~/a:/x"; "/b:/y:ro"]; ["/c:/x:ro"; ":/y"]] = Ok ["/c:/x:ro"] ∧
  ∃ ms res, rmap (ParseMount (Some "/h") simple_volume) ["~/a:/x"; "/b:/y:ro"; "/c:/x:ro"; ":/y"] = Ok ms ∧
  ["/c:/x:ro"] = map formatMount res ∧ NoDup (map Container res) ∧
  ∀ m, m ∈ res ↔ ∃ m0, last_for (Container m) ms = Some m0 ∧ Host m0 ≠ "" ∧ expands_to (Some "/h") m0 m.
Proof.
  split; [by vm_compute|].
  exact (MergeMounts_last_wins (Some "/h") simple_volume [["~/a:/x"; "/b:/y:ro"]; ["/c:/x:ro"; ":/y"]] ["/c:/x:ro"] ltac:(by vm_compute)).
Defined.
Lemma mount_validation_sound_witness :
  validateDefaultMount (Some "/h") simple_volume "~/src:~/src" = Ok "/h/src:/home/agent/src:rw" ∧
  (∃ m, ParseMount (Some "/h") simple_volume "~/src:~/src" = Ok m ∧ guest_ok (Container m) ∧
    ∃ e, ExpandPath (Some "/h") (Host m) = Ok e ∧ host_ok (Some "/h") e).
Proof.
  split; [by vm_compute|].
  exact (proj1 (mount_validation_sound (Some "/h") simple_volume "~/src:~/src") _ ltac:(by vm_compute)).
Defined.
