(* ===== verification/ConfigPorts.v ===== *)
(** * Published ports and relayed host ports

    [src/internal/config/ports.go] and [host_ports.go]: the two port lists of
    a workspace, their parsers, validation and the merge of the defaults with
    a workspace. A port entry is its text; TOML integers are printed first. *)

From S2P Require Import Prelude GoStrings GoStrconv GoPath ConfigPaths.
Open Scope string_scope.
Open Scope list_scope.
Open Scope Z_scope.

(** [UnmarshalTOML] of both types: an integer or a string. *)
Inductive toml_value := TInt (n : Z) | TStr (s : string) | TBool (b : bool) | TOther.
Definition UnmarshalPort (v : toml_value) : result cerr string :=
  match v with
  | TInt n => Ok (Itoa n)
  | TStr s => Ok s
  | _ => Err (EOther "port type" [])
  end.

Record PortForward := { pf_Host : Z; pf_Guest : Z }.
Record HostPortTarget := { hp_Guest : Z; hp_HostPort : Z; hp_Socket : string }.

Definition parsePortNumber (s : string) : option Z :=
  match Atoi (TrimSpace s) with
  | NumOk n => if (n <? 1) || (65535 <? n) then None else Some n
  | _ => None
  end.
Definition ParsePort (p : string) : result cerr PortForward :=
  let '(host, guest, mapped) := Cut p ":" in
  let guest := if negb mapped then host else guest in
  match parsePortNumber host, parsePortNumber guest with
  | Some h, Some g => Ok {| pf_Host := h; pf_Guest := g |}
  | _, _ => Err (EOther "invalid port" [p])
  end.

Definition reservedGuestPorts : list (Z * string) :=
  [(22, "guest SSH"); (53, "DNS"); (2375, "Docker"); (7022, "SSH agent"); (7023, "GPG agent")].
Definition reserved (g : Z) : option string := snd <$> List.find (λ x, fst x =? g) reservedGuestPorts.

Section HostPorts.
Context (home : option string).
Definition ParseHostPort (p : string) : result cerr HostPortTarget :=
  let '(guest, target, mapped) := Cut p ":" in
  match parsePortNumber guest with
  | None => Err (EOther "invalid host port" [p])
  | Some g =>
      match reserved g with
      | Some what => Err (EOther "reserved guest port" [p; what])
      | None =>
          if negb mapped then Ok {| hp_Guest := g; hp_HostPort := g; hp_Socket := "" |} else
          let target := TrimSpace target in
          if HasPrefix target "/" || HasPrefix target "~" then
            path ← ExpandPath home target;
            if negb (IsAbs path) then Err (EOther "socket path must be absolute" [p]) else
            Ok {| hp_Guest := g; hp_HostPort := 0; hp_Socket := Clean path |}
          else
            match parsePortNumber target with
            | Some h => Ok {| hp_Guest := g; hp_HostPort := h; hp_Socket := "" |}
            | None => Err (EOther "invalid host port" [p])
            end
      end
  end.
End HostPorts.

Definition Dangerous (t : HostPortTarget) : string :=
  if hp_HostPort t =? 9222 then "Chrome DevTools Protocol gives full control of the host browser" else
  if bool_decide (Base (hp_Socket t) ∈ ["docker.sock"; "containerd.sock"; "podman.sock"; "buildkitd.sock"])
  then "a container runtime socket gives root-equivalent access to the host" else "".

(** The two validation loops and the two merge loops differ in the parser and
    in the port that identifies an entry. *)
Section Entries.
Context {A : Type} (parse : string → result cerr A) (key : A → Z) (twice : Z → cerr).

Fixpoint validate_loop (seen : gset Z) (ports : list string) : result cerr unit :=
  match ports with
  | [] => Ok ()
  | p :: ports' =>
      f ← parse p;
      if bool_decide (key f ∈ seen) then Err (twice (key f)) else validate_loop ({[key f]} ∪ seen) ports'
  end.

Record port_merge := { pm_out : list A; pm_index : gmap Z nat }.
Definition merge_port (st : port_merge) (p : string) : port_merge :=
  match parse p with
  | Err _ => st
  | Ok f =>
      match pm_index st !! key f with
      | Some i => {| pm_out := <[i := f]> (pm_out st); pm_index := pm_index st |}
      | None => {| pm_out := pm_out st ++ [f]; pm_index := <[key f := length (pm_out st)]> (pm_index st) |}
      end
  end.
Definition merge_ports (defaults workspace : list string) : list A :=
  pm_out (foldl merge_port {| pm_out := []; pm_index := ∅ |} (defaults ++ workspace)).
End Entries.

Definition validatePorts (ports : list string) : result cerr unit :=
  validate_loop ParsePort pf_Host (λ k, EOther "ports: host port listed twice" [Itoa k]) ∅ ports.
Definition MergePorts (defaults workspace : list string) : list PortForward :=
  merge_ports ParsePort pf_Host defaults workspace.
Definition validateHostPorts (home : option string) (ports : list string) : result cerr unit :=
  validate_loop (ParseHostPort home) hp_Guest (λ k, EOther "host_ports: guest port listed twice" [Itoa k]) ∅ ports.
Definition MergeHostPorts (home : option string) (defaults workspace : list string) : list HostPortTarget :=
  merge_ports (ParseHostPort home) hp_Guest defaults workspace.

Example ports_ex :
  ParsePort "8080:80" = Ok {| pf_Host := 8080; pf_Guest := 80 |} ∧ is_ok (ParsePort "0") = false ∧
  MergePorts ["80"; "81"; "x"] ["80:8080"; "82"] =
    [{| pf_Host := 80; pf_Guest := 8080 |}; {| pf_Host := 81; pf_Guest := 81 |}; {| pf_Host := 82; pf_Guest := 82 |}] ∧
  ParseHostPort (Some "/h") "9000:~/x/../s.sock" = Ok {| hp_Guest := 9000; hp_HostPort := 0; hp_Socket := "/h/s.sock" |} ∧
  is_ok (ParseHostPort None "0022:80") = false.
Proof. by vm_compute. Qed.

(** ** Lemmas on the shared loops *)

Section EntryLemmas.
Context {A : Type} (parse : string → result cerr A) (key : A → Z) (twice : Z → cerr).

(** What the entries of a list parse to, in order; failures are skipped. *)
Definition parsed (ps : list string) : list A :=
  omap (λ p, match parse p with Ok f => Some f | Err _ => None end) ps.
Definition last_with (k : Z) (l : list A) : option A := last (filter (λ f, key f = k) l).

Lemma last_with_snoc k l f :
  last_with k (l ++ [f]) = if bool_decide (key f = k) then Some f else last_with k l.
Proof.
  unfold last_with. rewrite filter_app filter_cons filter_nil. case_decide as Hk.
  - rewrite bool_decide_eq_true_2; [|done]. by rewrite last_snoc.
  - rewrite bool_decide_eq_false_2; [|done]. by rewrite app_nil_r.
Qed.

Record pm_inv (l : list A) (st : port_merge) : Prop := {
  pmi_index : ∀ k i, pm_index st !! k = Some i ↔ ∃ f, pm_out st !! i = Some f ∧ key f = k;
  pmi_last : ∀ k, last_with k l = List.find (λ f, key f =? k) (pm_out st)
}.

Lemma index_key_inj l st i j f g :
  pm_inv l st → pm_out st !! i = Some f → pm_out st !! j = Some g → key f = key g → i = j.
Proof.
  intros [Hi _] Hf Hg Hk.
  assert (pm_index st !! key f = Some i) as H1 by (apply Hi; by exists f).
  assert (pm_index st !! key f = Some j) as H2 by (apply Hi; by exists g). congruence.
Qed.
Lemma pm_inv_nodup l st : pm_inv l st → NoDup (map key (pm_out st)).
Proof.
  intros Hi. apply NoDup_alt. intros i j k H1 H2.
  rewrite list_lookup_fmap in H1. rewrite list_lookup_fmap in H2.
  apply fmap_Some in H1 as (f & Hf & ->). apply fmap_Some in H2 as (g & Hg & Hk).
  exact (index_key_inj _ _ _ _ _ _ Hi Hf Hg Hk).
Qed.

Lemma find_key_unique (l : list A) i f :
  NoDup (map key l) → l !! i = Some f → List.find (λ x, key x =? key f) l = Some f.
Proof.
  revert i. induction l as [|x l IH]; intros i Hn Hf; [done|]. cbn in Hn. apply NoDup_cons in Hn as [Hx Hn].
  destruct i as [|i]; cbn in Hf.
  - injection Hf as ->. cbn. by rewrite Z.eqb_refl.
  - cbn. destruct (Z.eqb_spec (key x) (key f)) as [E|E]; [|eapply IH; eassumption].
    destruct Hx. rewrite E. apply list_elem_of_fmap. exists f. split; [done|]. eapply list_elem_of_lookup_2; eassumption.
Qed.
Lemma find_key_ne (l : list A) k : (∀ i f, l !! i = Some f → key f ≠ k) → List.find (λ x, key x =? k) l = None.
Proof.
  intros H. destruct (List.find _ l) as [f|] eqn:E; [|done].
  apply List.find_some in E as [Hin Hk]. apply Z.eqb_eq in Hk. apply list_elem_of_In, list_elem_of_lookup in Hin as [i Hi].
  by destruct (H i f Hi).
Qed.
Lemma find_key_insert (l : list A) i f g k :
  l !! i = Some g → key g = key f → k ≠ key f → List.find (λ x, key x =? k) (<[i:=f]> l) = List.find (λ x, key x =? k) l.
Proof.
  revert i. induction l as [|x l IH]; intros [|i] Hg Hk Hne; try done; cbn in Hg |- *.
  - injection Hg as ->. rewrite Hk. destruct (Z.eqb_spec (key f) k); [congruence|done].
  - by rewrite IH.
Qed.
Lemma find_app (p : A → bool) l1 l2 :
  List.find p (l1 ++ l2) = match List.find p l1 with Some x => Some x | None => List.find p l2 end.
Proof. induction l1 as [|x l1 IH]; [done|]. cbn. by destruct (p x). Qed.

Lemma merge_port_known st f i g :
  pm_index st !! key f = Some i → pm_out st !! i = Some g → key g = key f →
  ∀ l, pm_inv l st → pm_inv (l ++ [f]) {| pm_out := <[i := f]> (pm_out st); pm_index := pm_index st |}.
Proof.
  intros Hx Hg Hk l Hinv. pose proof (pm_inv_nodup _ _ Hinv) as Hnd. destruct Hinv as [Hi Hl].
  assert (i < length (pm_out st))%nat as Hlen by (eapply lookup_lt_Some; eassumption).
  assert (∀ k j, pm_index st !! k = Some j ↔ ∃ f0, <[i:=f]> (pm_out st) !! j = Some f0 ∧ key f0 = k) as Hi'.
  { intros k j. rewrite Hi. destruct (decide (i = j)) as [<-|Hne].
    - rewrite list_lookup_insert_eq; [|done]. rewrite Hg. split.
      + intros (f0 & [= <-] & <-). by exists f.
      + intros (f0 & [= <-] & <-). by exists g.
    - by rewrite list_lookup_insert_ne. }
  split; cbn [pm_out pm_index]; [done|]. intros k. rewrite last_with_snoc.
  destruct (decide (key f = k)) as [<-|Hne].
  - rewrite bool_decide_eq_true_2; [|done]. symmetry. apply (find_key_unique _ i).
    + assert (map key (<[i:=f]> (pm_out st)) = map key (pm_out st)) as ->; [|done].
      trans (<[i:=key f]> (key <$> pm_out st)); [apply list_fmap_insert|]. apply list_insert_id.
      by rewrite list_lookup_fmap Hg -Hk.
    + by rewrite list_lookup_insert_eq.
  - rewrite bool_decide_eq_false_2; [|done]. rewrite Hl. symmetry. apply (find_key_insert _ _ _ g); [done|done|congruence].
Qed.
Lemma merge_port_new st f l :
  pm_index st !! key f = None → pm_inv l st →
  pm_inv (l ++ [f]) {| pm_out := pm_out st ++ [f]; pm_index := <[key f := length (pm_out st)]> (pm_index st) |}.
Proof.
  intros Hx [Hi Hl]. split; cbn [pm_out pm_index].
  - intros k i. destruct (decide (k = key f)) as [->|Hne].
    + rewrite lookup_insert_eq. split.
      * intros [= <-]. exists f. by rewrite list_lookup_middle.
      * intros (f0 & Hf0 & Hk). destruct (decide (i < length (pm_out st))%nat) as [Hlt|Hge].
        { rewrite lookup_app_l in Hf0; [|done].
          assert (pm_index st !! key f = Some i) by (apply Hi; by exists f0). congruence. }
        rewrite lookup_app_r in Hf0; [|lia]. apply list_lookup_singleton_Some in Hf0 as [? _]. f_equal. lia.
    + rewrite lookup_insert_ne; [|congruence]. rewrite Hi. split.
      * intros (f0 & Hf0 & Hk). exists f0. split; [|done]. by apply lookup_app_l_Some.
      * intros (f0 & Hf0 & Hk). exists f0. split; [|done].
        apply lookup_app_Some in Hf0 as [?|[_ Hf0]]; [done|].
        apply list_lookup_singleton_Some in Hf0 as [_ <-]. congruence.
  - intros k. rewrite last_with_snoc find_app Hl. destruct (decide (key f = k)) as [<-|Hne].
    + rewrite bool_decide_eq_true_2; [|done]. rewrite find_key_ne.
      * cbn. by rewrite Z.eqb_refl.
      * intros i f0 Hf0 Hk. assert (pm_index st !! key f = Some i) by (apply Hi; by exists f0). congruence.
    + rewrite bool_decide_eq_false_2; [|done]. destruct (List.find _ _); [done|]. cbn.
      by destruct (Z.eqb_spec (key f) k).
Qed.
Lemma merge_port_inv l st p :
  pm_inv l st → pm_inv (l ++ parsed [p]) (merge_port parse key st p).
Proof.
  intros Hinv. unfold merge_port, parsed. cbn. destruct (parse p) as [f|e]; [|by rewrite app_nil_r].
  destruct (pm_index st !! key f) as [i|] eqn:E; [|by apply merge_port_new].
  destruct (proj1 (pmi_index _ _ Hinv _ _) E) as (g & Hg & Hk). eapply merge_port_known; eassumption.
Qed.
Lemma merge_ports_inv ps l st :
  pm_inv l st → pm_inv (l ++ parsed ps) (foldl (merge_port parse key) st ps).
Proof.
  revert l st. induction ps as [|p ps IH]; intros l st Hi; cbn [foldl]; [by rewrite app_nil_r|].
  assert (parsed (p :: ps) = parsed [p] ++ parsed ps) as ->.
  { unfold parsed. cbn. by destruct (parse p). }
  rewrite app_assoc. apply IH. by apply merge_port_inv.
Qed.
Lemma pm_inv_empty : pm_inv [] {| pm_out := []; pm_index := ∅ |}.
Proof.
  split; cbn [pm_out pm_index]; [|done]. intros k i. rewrite lookup_empty lookup_nil.
  split; [done|]. by intros (? & ? & _).
Qed.

Lemma merge_ports_spec ds ws :
  NoDup (map key (merge_ports parse key ds ws)) ∧
  ∀ f, f ∈ merge_ports parse key ds ws ↔ last_with (key f) (parsed ds ++ parsed ws) = Some f.
Proof.
  pose proof (merge_ports_inv (ds ++ ws) _ _ pm_inv_empty) as H. cbn [app] in H.
  assert (parsed (ds ++ ws) = parsed ds ++ parsed ws) as Hp by (unfold parsed; by rewrite omap_app).
  rewrite Hp in H. change (pm_inv (parsed ds ++ parsed ws) (foldl (merge_port parse key) {| pm_out := []; pm_index := ∅ |} (ds ++ ws))) in H.
  unfold merge_ports. generalize dependent (foldl (merge_port parse key) {| pm_out := []; pm_index := ∅ |} (ds ++ ws)).
  intros st H. pose proof (pm_inv_nodup _ _ H) as Hnd. split; [done|]. intros f. rewrite (pmi_last _ _ H). split.
  - intros [i Hi]%list_elem_of_lookup. eapply find_key_unique; eassumption.
  - intros [Hin _]%List.find_some. by apply list_elem_of_In.
Qed.

(** A validated list parses entirely, and its entries are distinct. *)
Lemma validate_loop_Ok seen ps u :
  validate_loop parse key twice seen ps = Ok u →
  ∃ fs, rmap parse ps = Ok fs ∧ NoDup (map key fs) ∧ ∀ f, f ∈ fs → key f ∉ seen.
Proof.
  revert seen. induction ps as [|p ps IH]; intros seen H; cbn in H.
  - exists []. split_and!; [done|constructor|]. intros f Hf. by apply elem_of_nil in Hf.
  - apply bind_Ok in H as (f & Hf & H). case_bool_decide as Hin; [done|].
    destruct (IH _ H) as (fs & Hfs & Hnd & Hns). exists (f :: fs). split_and!.
    + cbn. by rewrite Hf /= Hfs.
    + cbn. constructor; [|done]. intros (g & Hk & Hg)%list_elem_of_fmap. destruct (Hns g Hg). rewrite -Hk. set_solver.
    + intros g [->|Hg]%elem_of_cons; [done|]. specialize (Hns g Hg). set_solver.
Qed.
Lemma parsed_rmap ps fs : rmap parse ps = Ok fs → parsed ps = fs.
Proof.
  revert fs. induction ps as [|p ps IH]; intros fs H; cbn in H; inv_res; [done|].
  unfold parsed in *. cbn. match goal with Hp : parse p = Ok _ |- _ => rewrite Hp end. f_equal. by apply IH.
Qed.

Lemma last_filter_nodup (l : list A) f :
  NoDup (map key l) → last (filter (λ g, key g = key f) l) = Some f ↔ f ∈ l.
Proof.
  intros Hn. split.
  - intros H. apply last_Some_elem_of in H. by apply list_elem_of_filter in H as [_ ?].
  - induction l as [|x l IH]; [by intros ?%elem_of_nil|]. cbn in Hn. apply NoDup_cons in Hn as [Hx Hn].
    rewrite filter_cons. intros [->|Hf]%elem_of_cons.
    + case_decide; [|done]. assert (filter (λ g, key g = key x) l = []) as ->; [|done].
      destruct (filter _ l) as [|g r] eqn:E; [done|]. destruct Hx.
      assert (g ∈ filter (λ g, key g = key x) l) as Hg by (rewrite E; constructor).
      apply list_elem_of_filter in Hg as [Hk Hg]. apply list_elem_of_fmap. by exists g.
    + case_decide as Hk; [|by apply IH]. destruct Hx. rewrite Hk. apply list_elem_of_fmap. by exists f.
Qed.
Lemma merge_ports_override ds ws d w :
  rmap parse ds = Ok d → rmap parse ws = Ok w → NoDup (map key d) → NoDup (map key w) →
  ∀ f, f ∈ merge_ports parse key ds ws ↔ f ∈ w ∨ (f ∈ d ∧ key f ∉ map key w).
Proof.
  intros Hd Hw Nd Nw f. rewrite (proj2 (merge_ports_spec ds ws) f) (parsed_rmap _ _ Hd) (parsed_rmap _ _ Hw).
  unfold last_with. rewrite filter_app. destruct (filter (λ g, key g = key f) w) as [|g r] eqn:E.
  - rewrite app_nil_r last_filter_nodup; [|done].
    assert (key f ∉ map key w) as Hnin.
    { intros (g & Hk & Hg)%list_elem_of_fmap.
      assert (g ∈ filter (λ g, key g = key f) w) as Hin by (by apply list_elem_of_filter).
      rewrite E in Hin. by apply elem_of_nil in Hin. }
    split; [by right|]. intros [Hf|[Hf _]]; [|done]. destruct Hnin. apply list_elem_of_fmap. by exists f.
  - rewrite last_app_cons -E last_filter_nodup; [|done]. split; [by left|]. intros [Hf|[_ Hnin]]; [done|].
    destruct Hnin. assert (g ∈ filter (λ g, key g = key f) w) as Hin by (rewrite E; constructor).
    apply list_elem_of_filter in Hin as [Hk Hg]. rewrite -Hk. apply list_elem_of_fmap. by exists g.
Qed.
End EntryLemmas.

(** ** Properties *)

(** Of two validated lists, the merge is the workspace entries and those
    defaults whose port the workspace does not list, each port once: published
    ports are identified by the host side, relayed ports by the guest side. *)
Theorem merge_override home :
  (∀ ds ws u v, validatePorts ds = Ok u → validatePorts ws = Ok v →
    ∃ d w, rmap ParsePort ds = Ok d ∧ rmap ParsePort ws = Ok w ∧
    NoDup (map pf_Host (MergePorts ds ws)) ∧
    ∀ f, f ∈ MergePorts ds ws ↔ f ∈ w ∨ (f ∈ d ∧ pf_Host f ∉ map pf_Host w)) ∧
  (∀ ds ws u v, validateHostPorts home ds = Ok u → validateHostPorts home ws = Ok v →
    ∃ d w, rmap (ParseHostPort home) ds = Ok d ∧ rmap (ParseHostPort home) ws = Ok w ∧
    NoDup (map hp_Guest (MergeHostPorts home ds ws)) ∧
    ∀ f, f ∈ MergeHostPorts home ds ws ↔ f ∈ w ∨ (f ∈ d ∧ hp_Guest f ∉ map hp_Guest w)).
Proof.
  split; intros ds ws u v (d & Hd & Nd & _)%validate_loop_Ok (w & Hw & Nw & _)%validate_loop_Ok;
    exists d, w; (split_and!; [done|done|apply merge_ports_spec|by apply merge_ports_override]).
Qed.
Lemma merge_override_witness :
  ∃ d w, rmap ParsePort ["80"; "81"] = Ok d ∧ rmap ParsePort ["80:8080"] = Ok w ∧
    NoDup (map pf_Host (MergePorts ["80"; "81"] ["80:8080"])) ∧
    ∀ f, f ∈ MergePorts ["80"; "81"] ["80:8080"] ↔ f ∈ w ∨ (f ∈ d ∧ pf_Host f ∉ map pf_Host w).
Proof.
  exact (proj1 (merge_override None) ["80"; "81"] ["80:8080"] () () ltac:(by vm_compute) ltac:(by vm_compute)).
Defined.

Lemma parsePortNumber_range s n : parsePortNumber s = Some n → 1 ≤ n ≤ 65535.
Proof.
  unfold parsePortNumber. destruct (Atoi _) as [m| |]; [|done|done].
  destruct ((m <? 1) || (65535 <? m)) eqn:E; [done|]. intros [= <-]. bool_hyps. lia.
Qed.
Lemma IsAbs_Clean_ne p : IsAbs p = true → Clean p ≠ "".
Proof. intros H%Clean_abs E. by rewrite E in H. Qed.

(** A relayed port never shadows a port the gateway itself serves; its
    guest port is valid and it names exactly one target, a valid host port or
    the clean absolute path of a socket. *)
Theorem ParseHostPort_sound home p t :
  ParseHostPort home p = Ok t →
  1 ≤ hp_Guest t ≤ 65535 ∧ hp_Guest t ∉ map fst reservedGuestPorts ∧
  ((1 ≤ hp_HostPort t ≤ 65535 ∧ hp_Socket t = "") ∨
   (hp_HostPort t = 0 ∧ hp_Socket t ≠ "" ∧ IsAbs (hp_Socket t) = true)).
Proof.
  unfold ParseHostPort. destruct (Cut p ":") as [[guest target] mapped].
  destruct (parsePortNumber guest) as [g|] eqn:Hg; [|done]. apply parsePortNumber_range in Hg.
  destruct (reserved g) as [what|] eqn:Hr; [done|].
  assert (g ∉ map fst reservedGuestPorts) as Hres.
  { intros (x & -> & Hx)%list_elem_of_fmap. unfold reserved in Hr.
    destruct (List.find _ _) eqn:E in Hr; [done|]. apply list_elem_of_In in Hx.
    pose proof (List.find_none _ _ E _ Hx) as Hn. cbn in Hn. by rewrite Z.eqb_refl in Hn. }
  destruct mapped; cbn [negb]; [|intros [= <-]; cbn; tauto].
  case_if.
  - intros (path & _ & H)%bind_Ok. destruct (IsAbs path) eqn:Ha; [|done]. injection H as <-. cbn.
    split_and!; [lia|lia|done|]. right. split_and!; [done|by apply IsAbs_Clean_ne|by apply Clean_abs].
  - destruct (parsePortNumber _) as [h|] eqn:Hh; [|done]. apply parsePortNumber_range in Hh.
    intros [= <-]. cbn. tauto.
Qed.
Lemma ParseHostPort_sound_witness :
  let t := {| hp_Guest := 9000; hp_HostPort := 0; hp_Socket := "/h/s.sock" |} in
  1 ≤ hp_Guest t ≤ 65535 ∧ hp_Guest t ∉ map fst reservedGuestPorts ∧
  ((1 ≤ hp_HostPort t ≤ 65535 ∧ hp_Socket t = "") ∨
   (hp_HostPort t = 0 ∧ hp_Socket t ≠ "" ∧ IsAbs (hp_Socket t) = true)).
Proof.
  exact (ParseHostPort_sound (Some "/h") "9000:~/x/../s.sock" _ ltac:(by vm_compute)).
Defined.
