(* ===== verification/ConfigChecks.v ===== *)
(** * The checks of the configuration

    The validators of [src/internal/config/config.go] for names, environment
    entries, secrets, DNS settings and agents; [envfile.go], [profile.go],
    [ca_bundle.go] and [detachkeys.go]. The regular expressions are written
    out as matchers. Arguments are [home] and [ParseVolume] as in
    [ConfigPaths], [files] for the regular files of the host ([None] when the
    file cannot be opened), [parseURL] for [url.Parse] (scheme and host) and
    [ToBytes] for the key parser of the term package. *)

From S2P Require Import Prelude GoStrings GoStrconv GoPath GoTime NetAddr Agent ConfigPaths ConfigPorts.
Open Scope string_scope.
Open Scope list_scope.
Open Scope Z_scope.

(** ** Regular expressions *)

Definition is_alpha (c : ascii) : bool := is_lower c || is_upper c.
Definition plus (p : ascii → bool) (s : string) : bool := negb (String.eqb s "") && sforall p s.

(** [^[a-z0-9-]+$]: workspace, agent and profile names. *)
Definition workspaceNameRe (s : string) : bool := plus (λ c, is_lower c || is_digit c || Ascii.eqb c "-") s.
Definition agentNameRe (s : string) : bool := plus (λ c, is_lower c || is_digit c || Ascii.eqb c "-") s.
(** [^[a-zA-Z0-9_-]+$]. *)
Definition secretNameRe (s : string) : bool := plus (λ c, is_alnum c || Ascii.eqb c "_" || Ascii.eqb c "-") s.
(** [^[A-Za-z_][A-Za-z0-9_]*$]. *)
Definition envVarNameRe (s : string) : bool :=
  match s with
  | String c r => (is_alpha c || Ascii.eqb c "_") && sforall (λ c, is_alnum c || Ascii.eqb c "_") r
  | EmptyString => false
  end.
(** [^[1-9][0-9]*[kmgKMG]?$]. *)
Fixpoint digits_unit (s : string) : bool :=
  match s with
  | EmptyString => true
  | String c r => (is_digit c && digits_unit r) || (has_char c "kmgKMG" && String.eqb r "")
  end.
Definition validMemory (s : string) : bool :=
  match s with
  | String c r => between "1" "9" c && digits_unit r
  | EmptyString => false
  end.
(** [^[a-zA-Z0-9](?:[a-zA-Z0-9-]*[a-zA-Z0-9])?$]. *)
Fixpoint last_alnum (s : string) : bool :=
  match s with
  | EmptyString => true
  | String c EmptyString => is_alnum c
  | String c r => (is_alnum c || Ascii.eqb c "-") && last_alnum r
  end.
Definition dnsLabelRe (s : string) : bool :=
  match s with
  | String c r => is_alnum c && last_alnum r
  | EmptyString => false
  end.
(** [^[0-9]+\.[0-9]+\.[0-9]+(?:-[0-9A-Za-z.-]+)?(?:\+[0-9A-Za-z.-]+)?$]. *)
Fixpoint digit_run (s : string) : nat * string :=
  match s with
  | String c r => if is_digit c then let '(n, r') := digit_run r in (S n, r') else (O, s)
  | EmptyString => (O, "")
  end.
Definition number_then (c : string) (s : string) : option string :=
  match digit_run s with
  | (O, _) => None
  | (_, r) => CutPrefix r c
  end.
Definition version_char (c : ascii) : bool := is_alnum c || Ascii.eqb c "." || Ascii.eqb c "-".
Definition version_build (s : string) : bool :=
  match s with
  | EmptyString => true
  | String "+" b => plus version_char b
  | _ => false
  end.
Definition agentVersionRe (s : string) : bool :=
  match s1 ← number_then "." s; s2 ← number_then "." s1; number_then "" s2 with
  | None => false
  | Some (String "-" r) => let '(pre, b, built) := Cut r "+" in
                           plus version_char pre && (negb built || plus version_char b)
  | Some r => version_build r
  end.

Example regexps_ex :
  agentVersionRe "1.2.3" = true ∧ agentVersionRe "1.2.3-rc.1+b-7" = true ∧ agentVersionRe "1.2.3+b" = true ∧
  agentVersionRe "latest" = false ∧ agentVersionRe "1.2" = false ∧ agentVersionRe "1.2.3-" = false ∧
  agentVersionRe "1.2.3x" = false ∧ validMemory "4g" = true ∧ validMemory "04g" = false ∧ validMemory "4gb" = false ∧
  validMemory "512" = true ∧ dnsLabelRe "a-b" = true ∧ dnsLabelRe "a-" = false ∧ dnsLabelRe "x" = true ∧
  envVarNameRe "_A1" = true ∧ envVarNameRe "1A" = false.
Proof. by vm_compute. Qed.

(** ** Environment entries *)

Definition reservedEnvKeys : list string := ["NODE_USE_SYSTEM_CA"; "SSH_AUTH_SOCK"; "JAILOC"; "JAILOC_WORKSPACE"].
Definition env_key (entry : string) : string := fst (fst (Cut entry "=")).
Definition reservedEnvKey (key : string) : bool :=
  bool_decide (key ∈ reservedEnvKeys) ||
  existsb (λ h, String.eqb key (TUIPlugin_Env (h_TUIPlugin h)) ||
                existsb (λ kv, String.eqb (env_key kv) key) (h_Env h)) All.

Definition validateEnvEntry (entry : string) : result cerr unit :=
  let '(key, _, hasEq) := Cut entry "=" in
  if negb hasEq then Err (EOther "must be in KEY=VALUE format" [entry]) else
  if String.eqb key "" then Err (EOther "key must not be empty" [entry]) else
  if reservedEnvKey key then Err (EOther "reserved env key" [key]) else Ok ().
Definition validateEnvEntries (entries : list string) : result cerr unit := riter validateEnvEntry entries.

(** ** Environment files *)

Definition dquote : ascii := chr 34.
Definition squote : ascii := chr 39.
Definition LF : ascii := chr 10.
Definition CR : ascii := chr 13.
Definition TAB : ascii := chr 9.

Definition parseValue (raw : string) : string :=
  let s := TrimSpace raw in
  match s with
  | EmptyString => ""
  | String c r =>
      if Ascii.eqb c dquote then (match cut r (sep1 dquote) with Some (v, _) => v | None => r end) else
      if Ascii.eqb c squote then (match cut r (sep1 squote) with Some (v, _) => v | None => r end) else
      let s := match cut s " #" with Some (b, _) => b | None => s end in
      TrimRightFn (λ c, Ascii.eqb c " " || Ascii.eqb c TAB) s
  end.

(** [bufio.Scanner] over lines: a line of [bufio.MaxScanTokenSize] bytes or
    more is an error, a final empty line and one trailing carriage return are
    dropped. *)
Definition maxScanToken : nat := Z.to_nat 65536.
Definition scan_lines (content : string) : option (list string) :=
  let pieces := Split content (sep1 LF) in
  let lines := match last pieces with Some "" => removelast pieces | _ => pieces end in
  if existsb (λ l, (maxScanToken <=? String.length l)%nat) pieces then None
  else Some (map (λ l, TrimSuffix l (sep1 CR)) lines).

Definition env_line (line : string) : option string :=
  let trimmed := TrimSpace line in
  if String.eqb trimmed "" || HasPrefix trimmed "#" then None else
  let '(rawKey, rawValue, hasEquals) := Cut trimmed "=" in
  if negb hasEquals then None else Some (TrimSpace rawKey +:+ "=" +:+ parseValue rawValue).
Definition ParseEnvFile (files : string → option string) (path : string) : result cerr (list string) :=
  match files path with
  | None => Err (EOther "reading env file" [path])
  | Some content =>
      match scan_lines content with
      | None => Err (EOther "reading env file" [path])
      | Some lines => Ok (omap env_line lines)
      end
  end.

Definition validateEnvFiles (files : string → option string) (paths : list string) : result cerr unit :=
  riter (λ p,
    if negb (IsAbs p) then Err (EOther "env_file must be absolute" [p]) else
    match files p with
    | None => Err (EOther "env_file does not exist" [p])
    | Some _ => entries ← ParseEnvFile files p; validateEnvEntries entries
    end) paths.

Example ParseEnvFile_ex :
  let content := "# c" +:+ sep1 LF +:+ " A = 'x #y' z" +:+ sep1 CR +:+ sep1 LF +:+ "B=1 # two" +:+ sep1 LF +:+ "bare" +:+ sep1 LF in
  ParseEnvFile (λ _, Some content) "/e" = Ok ["A=x #y"; "B=1"].
Proof. by vm_compute. Qed.

(** ** Secrets *)

Record Secret := { FromEnv : string; FromFile : string; FromCommand : string; TTL : string }.
Record Secrets := { sec_Env : gmap string Secret; sec_File : gmap string Secret }.
Inductive secretDest := destEnv | destFile.

(** [slices.Sorted(maps.Keys(m))]. *)
Definition sorted_keys {A} (m : gmap string A) : list string := sort_strings (map fst (map_to_list m)).

Definition validateEnvVarName (name : string) : result cerr unit :=
  guard_err (envVarNameRe name) (EOther "invalid environment variable name" [name]).
Definition validateSecretFile (path : string) : result cerr unit :=
  guard_err (IsAbs path) (EOther "file path must be absolute" [path]).
Definition reservedSecretEnvName (name : string) : bool :=
  reservedEnvKey name || String.eqb name "HOME" || String.eqb name "PATH".

Definition sources (s : Secret) : nat :=
  length (filter (λ x, x ≠ "") [FromEnv s; FromFile s; FromCommand s]).
Definition validateSecret (name : string) (secret : Secret) (dest : secretDest) : result cerr unit :=
  _ ← match dest with
      | destEnv =>
          _ ← validateEnvVarName name;
          guard_err (negb (reservedSecretEnvName name)) (EOther "env secret: name is reserved" [name])
      | destFile => guard_err (secretNameRe name) (EOther "file secret: invalid name" [name])
      end;
  if negb (sources secret =? 1)%nat then Err (EOther "exactly one of from_env, from_file or from_command must be set" [name]) else
  if negb (String.eqb (FromCommand secret) "") && String.eqb (TrimSpace (FromCommand secret)) ""
  then Err (EOther "from_command must not be blank" [name]) else
  _ ← (if negb (String.eqb (FromEnv secret) "") then validateEnvVarName (FromEnv secret) else Ok ());
  _ ← (if negb (String.eqb (FromFile secret) "") then validateSecretFile (FromFile secret) else Ok ());
  if negb (String.eqb (TTL secret) "") then
    if String.eqb (FromCommand secret) "" then Err (EOther "ttl is only valid with from_command" [name]) else
    match ParseDuration (TTL secret) with
    | Some d => if d <=? 0 then Err (EOther "invalid ttl" [name; TTL secret]) else Ok ()
    | None => Err (EOther "invalid ttl" [name; TTL secret])
    end
  else Ok ().

Definition zeroSecret : Secret := {| FromEnv := ""; FromFile := ""; FromCommand := ""; TTL := "" |}.
Definition get_secret (m : gmap string Secret) (name : string) : Secret := default zeroSecret (m !! name).
Definition validateSecretsBlock (secrets : Secrets) : result cerr unit :=
  _ ← riter (λ name, guard_err (bool_decide (sec_File secrets !! name = None))
                       (EOther "secret declared in both secrets.env and secrets.file" [name])) (sorted_keys (sec_Env secrets));
  _ ← riter (λ name, validateSecret name (get_secret (sec_Env secrets) name) destEnv) (sorted_keys (sec_Env secrets));
  riter (λ name, validateSecret name (get_secret (sec_File secrets) name) destFile) (sorted_keys (sec_File secrets)).

(** [expandSecretsBlockFiles], one map at a time in name order. *)
Fixpoint expand_secret_files (home : option string) (names : list string) (m : gmap string Secret) : result cerr (gmap string Secret) :=
  match names with
  | [] => Ok m
  | name :: names' =>
      let secret := get_secret m name in
      if String.eqb (FromFile secret) "" then expand_secret_files home names' m else
      expanded ← ExpandPath home (FromFile secret);
      expand_secret_files home names'
        (<[name := {| FromEnv := FromEnv secret; FromFile := expanded; FromCommand := FromCommand secret; TTL := TTL secret |}]> m)
  end.
Definition expandSecretsBlockFiles (home : option string) (s : Secrets) : result cerr Secrets :=
  e ← expand_secret_files home (sorted_keys (sec_Env s)) (sec_Env s);
  f ← expand_secret_files home (sorted_keys (sec_File s)) (sec_File s);
  Ok {| sec_Env := e; sec_File := f |}.

(** ** DNS *)

Definition dns_zone_char (c : ascii) : bool :=
  Ascii.eqb c " " || Ascii.eqb c TAB || Ascii.eqb c CR || Ascii.eqb c LF || Ascii.eqb c "{" || Ascii.eqb c "}".
Definition validateZone (zone : string) : result cerr unit :=
  _ ← guard_err (negb ((253 <? String.length zone)%nat || String.eqb zone "" || String.eqb zone "." || sexists dns_zone_char zone))
        (EOther "invalid dns_blocked_zones entry" [zone]);
  riter (λ label, guard_err (dnsLabelRe label && negb (63 <? String.length label)%nat)
                    (EOther "invalid dns_blocked_zones entry" [zone])) (Split (TrimSuffix zone ".") ".").
Definition validateUpstream (upstream : string) : result cerr unit :=
  if negb (String.eqb upstream "") then
    guard_err (match ParseIP upstream ≫= To4 with
               | Some a => negb (v4_unspecified a || v4_loopback a || v4_multicast a || v4_linklocal a)
               | None => false
               end) (EOther "dns_upstream must be a routable IPv4 address" [upstream])
  else Ok ().
Definition validateDNS (upstream : string) (zones : list string) : result cerr unit :=
  _ ← validateUpstream upstream; riter validateZone zones.

(** ** Small settings *)

Definition v1Setting (setting : string) : cerr := EOther "is a jailoc v1 setting" [setting].
Definition validateBackend (backend : string) : result cerr unit :=
  if String.eqb backend "" || String.eqb backend "vm" then Ok () else
  if String.eqb backend "docker" then Err (v1Setting "backend = docker") else Err (EOther "invalid backend" [backend]).
Definition explicitTrue (defaults workspace : option bool) : bool :=
  match workspace with
  | Some b => b
  | None => match defaults with Some b => b | None => false end
  end.

Definition validateDockerfileSource (parseURL : string → option (string * string)) (value : string) : result cerr unit :=
  if String.eqb value "" then Ok () else
  if IsAbs value then Ok () else
  if HasPrefix value "~" then Ok () else
  if HasPrefix value "http://" || HasPrefix value "https://" then
    match parseURL value with
    | Some (scheme, host) => if String.eqb host "" then Err (EOther "invalid URL" [value; scheme]) else Ok ()
    | None => Err (EOther "invalid URL" [value; ""])
    end
  else Err (EOther "must be an absolute path, ~ home path, or HTTP(S) URL" [value]).

Definition DefaultDetachKeys : string := "ctrl-b,d".
Definition ParseDetachKeys (ToBytes : string → option (list Z)) (s : string) : result cerr (list Z) :=
  if String.eqb s "" then Err (EOther "detach_keys: must not be empty" []) else
  match ToBytes s with Some seq => Ok seq | None => Err (EOther "detach_keys" [s]) end.

(** [Profile]: the empty name is [profile = false]. *)
Definition Profile := string.
Definition EphemeralProfile : Profile := "".
Definition Profile_Name (p : Profile) : option string := if String.eqb p "" then None else Some p.
Definition Profile_Unmarshal (v : toml_value) : result cerr Profile :=
  match v with
  | TBool true => Err (EOther "profile: true is not valid" [])
  | TBool false => Ok EphemeralProfile
  | TStr s => if agentNameRe s then Ok s else Err (EOther "profile: invalid profile name" [s])
  | _ => Err (EOther "profile: expected false or a profile name" [])
  end.
Definition Profile_Marshal (p : Profile) : toml_value := if String.eqb p "" then TBool false else TStr p.

Inductive CABundle := caBundleAutomatic | caBundleDisabled | caBundleCustom (path : string).
Definition CABundle_Enabled (b : CABundle) : bool := match b with caBundleDisabled => false | _ => true end.
Definition CABundle_Path (b : CABundle) : option string := match b with caBundleCustom p => Some p | _ => None end.
Definition CABundle_Unmarshal (v : toml_value) : result cerr CABundle :=
  match v with
  | TBool true => Ok caBundleAutomatic
  | TBool false => Ok caBundleDisabled
  | TStr s => if String.eqb (TrimSpace s) "" then Err (EOther "ca_bundle: custom path must not be empty" []) else Ok (caBundleCustom s)
  | _ => Err (EOther "ca_bundle: expected a boolean or non-empty string" [])
  end.
Definition CABundle_Marshal (b : CABundle) : result cerr toml_value :=
  match b with
  | caBundleAutomatic => Ok (TBool true)
  | caBundleDisabled => Ok (TBool false)
  | caBundleCustom p => if String.eqb (TrimSpace p) "" then Err (EOther "marshal ca_bundle" []) else Ok (TStr p)
  end.

(** ** Agents *)

Record AgentSettings := {
  as_From : string; as_Install : option bool; as_Version : string; as_Args : option (list string);
  as_Mounts : list string; as_Profile : option Profile
}.
Definition zeroSettings : AgentSettings :=
  {| as_From := ""; as_Install := None; as_Version := ""; as_Args := None; as_Mounts := []; as_Profile := None |}.
Definition get_settings (m : gmap string AgentSettings) (key : string) : AgentSettings := default zeroSettings (m !! key).
(** [cmp.Or] on strings. *)
Definition cmpOr (a b : string) : string := if String.eqb a "" then b else a.

Section Agents.
Context (home : option string) (ParseVolume : string → option (string * string)).

Definition validateAgentTable (inherited : gmap string AgentSettings) (key : string) (s : AgentSettings) : result cerr unit :=
  _ ← match Lookup key with
      | Some _ => guard_err (String.eqb (as_From s) "") (EOther "from is only for custom agents" [key])
      | None =>
          _ ← guard_err (agentNameRe key) (EOther "invalid agent name" [key]);
          let from := cmpOr (as_From s) (as_From (get_settings inherited key)) in
          _ ← guard_err (negb (String.eqb from "")) (EOther "custom agent needs from" [key]);
          guard_err (match Lookup from with Some _ => true | None => false end) (EOther "from is not a built-in agent" [key; from])
      end;
  _ ← guard_err (String.eqb (as_Version s) "" || agentVersionRe (as_Version s)) (EOther "invalid version" [key; as_Version s]);
  _ ← guard_err (match as_Profile s ≫= Profile_Name with Some name => agentNameRe name | None => true end)
        (EOther "invalid profile name" [key]);
  validateAgentMounts home ParseVolume (as_Mounts s).
Definition validateAgent (name : string) (agents inherited : gmap string AgentSettings) : result cerr unit :=
  _ ← riter (λ key, validateAgentTable inherited key (get_settings agents key)) (sorted_keys agents);
  if String.eqb name "" then Ok () else
  match Lookup name with
  | Some _ => Ok ()
  | None => guard_err (bool_decide (is_Some (agents !! name)) || bool_decide (is_Some (inherited !! name)))
              (EOther "invalid agent" [name])
  end.
End Agents.
