(* ===== verification/Config.v ===== *)
(** * The configuration

    The data model of [src/internal/config/config.go], [Validate] with its
    path expansion, [AddPath], [Load] and the configuration file's location.
    [Validate] returns the configuration it leaves behind, which the code
    rewrites in place. Decoding and encoding TOML is an argument, like the
    host's files, URL parser, key parser, case mapping and volume parser. *)

From S2P Require Import Prelude GoStrings GoPath NetAddr ConfigPaths ConfigPorts ConfigChecks.
From Stdlib Require Import SpecFloat.
Open Scope string_scope.
Open Scope list_scope.
Open Scope Z_scope.

Record VMConfig := { vm_Runner : string; vm_LibDir : string; vm_Builder : string }.
Record BaseConfig := { base_Dockerfile : string }.
(** A nil and an empty list differ only for [DNSBlockedZones] and for the
    arguments of an agent, which are options. *)
Record Defaults := {
  d_Backend : string; d_Agent : string; d_Agents : gmap string AgentSettings; d_Env : list string; d_EnvFile : list string;
  d_Mounts : list string; d_Snapshots : list string; d_AllowedHosts : list string; d_AllowedNetworks : list string;
  d_Secrets : Secrets; d_Image : string; d_SSHAuthSock : bool; d_GPGAgent : bool; d_GitConfig : option bool;
  d_CPU : option spec_float; d_Memory : option string; d_DockerDisk : option string; d_ExposePort : option bool;
  d_EnableDocker : option bool; d_FilteredDNS : option bool; d_DNSUpstream : string; d_DNSBlockedZones : option (list string);
  d_CABundle : option CABundle; d_IsolatedBuild : option bool; d_ProtectGit : option bool; d_Ports : list string; d_HostPorts : list string
}.
Record Workspace := {
  ws_Backend : string; ws_Agent : string; ws_Agents : gmap string AgentSettings; ws_Paths : list string; ws_Mounts : list string;
  ws_Snapshots : list string; ws_AllowedHosts : list string; ws_AllowedNetworks : list string; ws_Env : list string;
  ws_EnvFile : list string; ws_Secrets : Secrets; ws_BuildContext : string; ws_Dockerfile : string; ws_Image : string;
  ws_SSHAuthSock : option bool; ws_GPGAgent : option bool; ws_GitConfig : option bool; ws_CPU : option spec_float;
  ws_Memory : option string; ws_DockerDisk : option string; ws_ExposePort : option bool; ws_EnableDocker : option bool;
  ws_FilteredDNS : option bool; ws_DNSUpstream : string; ws_DNSBlockedZones : option (list string);
  ws_CABundle : option CABundle; ws_IsolatedBuild : option bool; ws_ProtectGit : option bool; ws_Ports : list string; ws_HostPorts : list string
}.
Record Config := {
  c_Mode : string; c_PasswordMode : string; c_DetachKeys : string; c_Base : BaseConfig; c_VM : VMConfig;
  c_Defaults : Defaults; c_Workspaces : gmap string Workspace
}.

(** [len(s)] of a possibly nil slice. *)
Definition olen {A} (o : option (list A)) : nat := match o with Some l => length l | None => O end.

Definition cpu_invalid (c : option spec_float) : bool :=
  match c with
  | None => false
  | Some f => SFleb f (S754_zero false) || (match f with S754_nan | S754_infinity _ => true | _ => false end)
  end.
Definition memory_invalid (m : option string) : bool := match m with Some s => negb (validMemory s) | None => false end.

Section Validation.
Context (home : option string) (ParseVolume : string → option (string * string)) (files : string → option string)
        (parseURL : string → option (string * string)) (ToBytes : string → option (list Z)) (lowerU : string → string).
Notation ExpandPath := (ExpandPath home).

(** The arguments [expandPaths] writes back into the workspace. *)
Definition ws_expanded (ws : Workspace) (paths : list string) (bc df : string) (ef : list string) (sec : Secrets) (mounts snaps : list string) : Workspace :=
  {| ws_Backend := ws_Backend ws; ws_Agent := ws_Agent ws; ws_Agents := ws_Agents ws; ws_Paths := paths; ws_Mounts := mounts;
     ws_Snapshots := snaps; ws_AllowedHosts := ws_AllowedHosts ws; ws_AllowedNetworks := ws_AllowedNetworks ws; ws_Env := ws_Env ws;
     ws_EnvFile := ef; ws_Secrets := sec; ws_BuildContext := bc; ws_Dockerfile := df; ws_Image := ws_Image ws;
     ws_SSHAuthSock := ws_SSHAuthSock ws; ws_GPGAgent := ws_GPGAgent ws; ws_GitConfig := ws_GitConfig ws; ws_CPU := ws_CPU ws;
     ws_Memory := ws_Memory ws; ws_DockerDisk := ws_DockerDisk ws; ws_ExposePort := ws_ExposePort ws; ws_EnableDocker := ws_EnableDocker ws;
     ws_FilteredDNS := ws_FilteredDNS ws; ws_DNSUpstream := ws_DNSUpstream ws; ws_DNSBlockedZones := ws_DNSBlockedZones ws;
     ws_CABundle := ws_CABundle ws; ws_IsolatedBuild := ws_IsolatedBuild ws; ws_ProtectGit := ws_ProtectGit ws; ws_Ports := ws_Ports ws;
     ws_HostPorts := ws_HostPorts ws |}.
Definition with_snapshots (ws : Workspace) (snaps : list string) : Workspace :=
  ws_expanded ws (ws_Paths ws) (ws_BuildContext ws) (ws_Dockerfile ws) (ws_EnvFile ws) (ws_Secrets ws) (ws_Mounts ws) snaps.
Definition expandPaths (ws : Workspace) : result cerr Workspace :=
  paths ← rmap ExpandPath (ws_Paths ws);
  bc ← (if negb (String.eqb (ws_BuildContext ws) "") then ExpandPath (ws_BuildContext ws) else Ok (ws_BuildContext ws));
  df ← (if negb (String.eqb (ws_Dockerfile ws) "") && HasPrefix (ws_Dockerfile ws) "~" then ExpandPath (ws_Dockerfile ws) else Ok (ws_Dockerfile ws));
  ef ← rmap ExpandPath (ws_EnvFile ws);
  sec ← expandSecretsBlockFiles home (ws_Secrets ws);
  mounts ← rmap (expandMount home ParseVolume) (ws_Mounts ws);
  Ok (ws_expanded ws paths bc df ef sec mounts (ws_Snapshots ws)).

(** ** The global settings *)

Definition expandVMPath (p : string) : result cerr string :=
  if String.eqb p "" then Ok p else
  expanded ← ExpandPath p;
  if negb (IsAbs expanded) then Err (EOther "vm: path must be absolute" [p]) else Ok expanded.
Definition Validate_head (cfg : Config) : result cerr (VMConfig * BaseConfig) :=
  if negb (String.eqb (c_Mode cfg) "") then Err (v1Setting "mode") else
  if negb (String.eqb (c_PasswordMode cfg) "") then Err (v1Setting "password_mode") else
  match d_ExposePort (c_Defaults cfg) with Some _ => Err (v1Setting "defaults: expose_port") | None =>
  _ ← (if negb (String.eqb (c_DetachKeys cfg) "") then _ ← ParseDetachKeys ToBytes (c_DetachKeys cfg); Ok () else Ok ());
  _ ← validateAgent home ParseVolume (d_Agent (c_Defaults cfg)) (d_Agents (c_Defaults cfg)) ∅;
  _ ← validateBackend (d_Backend (c_Defaults cfg));
  _ ← guard_err (bool_decide (vm_Builder (c_VM cfg) ∈ [""; "auto"; "docker"; "vm"])) (EOther "vm: invalid builder" [vm_Builder (c_VM cfg)]);
  runner ← expandVMPath (vm_Runner (c_VM cfg));
  libDir ← expandVMPath (vm_LibDir (c_VM cfg));
  _ ← validateDockerfileSource parseURL (base_Dockerfile (c_Base cfg));
  df ← (if HasPrefix (base_Dockerfile (c_Base cfg)) "~" then ExpandPath (base_Dockerfile (c_Base cfg)) else Ok (base_Dockerfile (c_Base cfg)));
  Ok ({| vm_Runner := runner; vm_LibDir := libDir; vm_Builder := vm_Builder (c_VM cfg) |}, {| base_Dockerfile := df |})
  end.

(** ** The defaults *)

Definition d_expanded (d : Defaults) (ef : list string) (sec : Secrets) (mounts snaps : list string) : Defaults :=
  {| d_Backend := d_Backend d; d_Agent := d_Agent d; d_Agents := d_Agents d; d_Env := d_Env d; d_EnvFile := ef;
     d_Mounts := mounts; d_Snapshots := snaps; d_AllowedHosts := d_AllowedHosts d; d_AllowedNetworks := d_AllowedNetworks d;
     d_Secrets := sec; d_Image := d_Image d; d_SSHAuthSock := d_SSHAuthSock d; d_GPGAgent := d_GPGAgent d; d_GitConfig := d_GitConfig d;
     d_CPU := d_CPU d; d_Memory := d_Memory d; d_DockerDisk := d_DockerDisk d; d_ExposePort := d_ExposePort d;
     d_EnableDocker := d_EnableDocker d; d_FilteredDNS := d_FilteredDNS d; d_DNSUpstream := d_DNSUpstream d;
     d_DNSBlockedZones := d_DNSBlockedZones d; d_CABundle := d_CABundle d; d_IsolatedBuild := d_IsolatedBuild d;
     d_ProtectGit := d_ProtectGit d; d_Ports := d_Ports d; d_HostPorts := d_HostPorts d |}.
Definition Validate_defaults (d : Defaults) : result cerr Defaults :=
  _ ← validateEnvEntries (d_Env d);
  ef ← rmap ExpandPath (d_EnvFile d);
  _ ← validateEnvFiles files ef;
  sec ← expandSecretsBlockFiles home (d_Secrets d);
  _ ← validateSecretsBlock sec;
  mounts ← rmap (validateDefaultMount home ParseVolume) (d_Mounts d);
  snaps ← rmap (normalizeSnapshot home ParseVolume) (d_Snapshots d);
  _ ← validatePorts (d_Ports d);
  _ ← validateHostPorts home (d_HostPorts d);
  _ ← guard_err (negb (cpu_invalid (d_CPU d))) (EOther "cpu must be a finite number greater than 0" []);
  _ ← guard_err (negb (memory_invalid (d_Memory d))) (EOther "invalid memory format" []);
  _ ← guard_err (negb (memory_invalid (d_DockerDisk d))) (EOther "invalid docker_disk format" []);
  _ ← validateDNS (d_DNSUpstream d) (default [] (d_DNSBlockedZones d));
  Ok (d_expanded d ef sec mounts snaps).

(** ** One workspace *)

Definition validateWorkspacePath (p : string) : result cerr unit :=
  _ ← guard_err (negb (String.eqb (TrimSpace p) "")) (EOther "empty path value" [p]);
  match forbidden_by p forbiddenMountPrefixes with
  | Some prefix => Err (EOther "path conflicts with container-internal directory" [p; prefix])
  | None => Ok ()
  end.

(** The conflict of allowed hosts with blocked zones, without the trailing dot
    and case of either. *)
Definition normalizeName (s : string) : string := TrimSuffix (ToLower lowerU s) ".".
Definition in_zone (host zone : string) : bool :=
  String.eqb (normalizeName host) (normalizeName zone) || HasSuffix (normalizeName host) ("." +:+ normalizeName zone).
Definition filtered_zones (d : Defaults) (ws : Workspace) : list string :=
  match ws_DNSBlockedZones ws with Some z => z | None => default [] (d_DNSBlockedZones d) end.
Definition validateFilteredDNS (d : Defaults) (ws : Workspace) : result cerr unit :=
  let enabled := explicitTrue (d_FilteredDNS d) (ws_FilteredDNS ws) in
  if enabled && String.eqb (ws_DNSUpstream ws) "" && String.eqb (d_DNSUpstream d) ""
  then Err (EOther "dns_upstream is required when filtered_dns is enabled" []) else
  if enabled && (olen (ws_DNSBlockedZones ws) =? 0)%nat && (olen (d_DNSBlockedZones d) =? 0)%nat
  then Err (EOther "dns_blocked_zones is required when filtered_dns is enabled" []) else
  if enabled then
    riter (λ host, riter (λ zone, guard_err (negb (in_zone host zone)) (EOther "allowed_hosts conflicts with dns_blocked_zones" [host; zone]))
                     (filtered_zones d ws)) (mergeDedup (d_AllowedHosts d) (ws_AllowedHosts ws))
  else Ok ().

Definition Validate_workspace (d : Defaults) (name : string) (ws0 : Workspace) : result cerr Workspace :=
  _ ← guard_err (workspaceNameRe name) (EOther "workspace name is invalid" [name]);
  ws ← expandPaths ws0;
  _ ← riter validateWorkspacePath (ws_Paths ws);
  _ ← riter (validateWorkspaceMount home ParseVolume) (ws_Mounts ws);
  _ ← riter (λ cidr, guard_err (bool_decide (is_Some (ParseCIDR cidr))) (EOther "invalid CIDR" [cidr])) (ws_AllowedNetworks ws);
  _ ← validateDockerfileSource parseURL (ws_Dockerfile ws);
  _ ← guard_err (String.eqb (ws_Image ws) "" || negb (String.eqb (TrimSpace (ws_Image ws)) "")) (EOther "image must not be whitespace-only" [name]);
  _ ← guard_err (String.eqb (ws_Image ws) "" || String.eqb (ws_Dockerfile ws) "") (EOther "cannot set both image and dockerfile" [name]);
  _ ← guard_err (String.eqb (ws_Image ws) "" || String.eqb (ws_BuildContext ws) "") (EOther "cannot set both image and build_context" [name]);
  _ ← validateEnvEntries (ws_Env ws);
  _ ← validateEnvFiles files (ws_EnvFile ws);
  _ ← validateSecretsBlock (ws_Secrets ws);
  _ ← guard_err (negb (cpu_invalid (ws_CPU ws))) (EOther "cpu must be a finite number greater than 0" [name]);
  _ ← guard_err (negb (memory_invalid (ws_Memory ws))) (EOther "invalid memory format" [name]);
  _ ← guard_err (negb (memory_invalid (ws_DockerDisk ws))) (EOther "invalid docker_disk format" [name]);
  _ ← validateDNS (ws_DNSUpstream ws) (default [] (ws_DNSBlockedZones ws));
  _ ← validateFilteredDNS d ws;
  _ ← guard_err (bool_decide (ws_ExposePort ws = None)) (v1Setting "expose_port");
  _ ← validateAgent home ParseVolume (ws_Agent ws) (ws_Agents ws) (d_Agents d);
  _ ← validateBackend (ws_Backend ws);
  snaps ← rmap (normalizeSnapshot home ParseVolume) (ws_Snapshots ws);
  _ ← validatePorts (ws_Ports ws);
  _ ← validateHostPorts home (ws_HostPorts ws);
  _ ← guard_err (negb (explicitTrue (d_EnableDocker d) (ws_EnableDocker ws) && explicitTrue (d_ProtectGit d) (ws_ProtectGit ws)))
        (EOther "enable_docker cannot be combined with protect_git" [name]);
  Ok (with_snapshots ws snaps).

(** The loop over the workspaces, in name order. *)
Fixpoint validate_workspaces (d : Defaults) (names : list string) (m : gmap string Workspace) : result cerr (gmap string Workspace) :=
  match names with
  | [] => Ok m
  | name :: names' =>
      match m !! name with
      | None => validate_workspaces d names' m
      | Some ws => ws' ← Validate_workspace d name ws; validate_workspaces d names' (<[name := ws']> m)
      end
  end.
Definition Validate (cfg : Config) : result cerr Config :=
  '(vm, base) ← Validate_head cfg;
  d ← Validate_defaults (c_Defaults cfg);
  w ← validate_workspaces d (sorted_keys (c_Workspaces cfg)) (c_Workspaces cfg);
  Ok {| c_Mode := c_Mode cfg; c_PasswordMode := c_PasswordMode cfg; c_DetachKeys := c_DetachKeys cfg; c_Base := base; c_VM := vm;
        c_Defaults := d; c_Workspaces := w |}.

(** ** The configuration file *)

(** [filepath.Abs], from the working directory. *)
Definition Abs (cwd : option string) (p : string) : option string :=
  if IsAbs p then Some (Clean p) else (λ d, JoinPath [d; p]) <$> cwd.
Definition customPath (cwd : option string) (pathOverride env : string) : string :=
  let p := cmpOr pathOverride env in
  if String.eqb p "" then "" else
  let p := match ExpandPath p with Ok e => e | Err _ => p end in
  match Abs cwd p with Some a => a | None => p end.
Definition ConfigPath (cwd : option string) (pathOverride env : string) : string :=
  let p := customPath cwd pathOverride env in
  if negb (String.eqb p "") then p else
  match home with
  | Some h => JoinPath [h; ".config"; "jailoc"; "config.toml"]
  | None => "~/.config/jailoc/config.toml"
  end.

(** [loadFrom]: [stat] says whether the file exists ([None] for another
    error), [decode] decodes it, [create] writes the default file and decodes
    that. The defaults are not validated. *)
Definition loadFrom (stat : string → option bool) (decode create : string → result cerr Config) (path : string) : result cerr Config :=
  match stat path with
  | None => Err (EOther "stat config" [path])
  | Some false => create path
  | Some true => cfg ← decode path; Validate cfg
  end.
Definition Load (stat : string → option bool) (decode create : string → result cerr Config)
    (cwd : option string) (pathOverride env : string) : result cerr Config :=
  let configPath := ConfigPath cwd pathOverride env in
  if negb (String.eqb (customPath cwd pathOverride env) "") && bool_decide (stat configPath = Some false)
  then Err (EOther "config file does not exist" [configPath])
  else loadFrom stat decode create configPath.
End Validation.

(** [AddPath] on the decoded file; the result is written back. *)
Definition AddPath (cfg : Config) (workspace path : string) : result cerr Config :=
  match c_Workspaces cfg !! workspace with
  | None => Err (EOther "workspace does not exist" [workspace])
  | Some ws =>
      Ok {| c_Mode := c_Mode cfg; c_PasswordMode := c_PasswordMode cfg; c_DetachKeys := c_DetachKeys cfg; c_Base := c_Base cfg;
            c_VM := c_VM cfg; c_Defaults := c_Defaults cfg;
            c_Workspaces := <[workspace := ws_expanded ws (ws_Paths ws ++ [path]) (ws_BuildContext ws) (ws_Dockerfile ws) (ws_EnvFile ws)
                                (ws_Secrets ws) (ws_Mounts ws) (ws_Snapshots ws)]> (c_Workspaces cfg) |}
  end.

(** ** Lemmas *)

Lemma elem_of_sorted_keys {A} (m : gmap string A) k : k ∈ sorted_keys m ↔ is_Some (m !! k).
Proof.
  unfold sorted_keys. rewrite (sort_strings_perm _) list_elem_of_fmap. split.
  - intros ((k' & v) & -> & H%elem_of_map_to_list). by exists v.
  - intros [v Hv]. exists (k, v). split; [done|]. by apply elem_of_map_to_list.
Qed.
Lemma NoDup_sorted_keys {A} (m : gmap string A) : NoDup (sorted_keys m).
Proof. unfold sorted_keys. rewrite (sort_strings_perm _). apply NoDup_fst_map_to_list. Qed.
Lemma sorted_keys_sorted {A} (m : gmap string A) : StronglySorted (λ a b, strle a b = true) (sorted_keys m).
Proof. apply sort_strings_sorted. Qed.

Lemma validateEnvEntry_Ok e u :
  validateEnvEntry e = Ok u → ∃ k v, e = k +:+ "=" +:+ v ∧ k = env_key e ∧ k ≠ "" ∧ reservedEnvKey k = false.
Proof.
  unfold validateEnvEntry, env_key, Cut. destruct (cut e "=") as [[k v]|] eqn:E; cbn; [|done].
  destruct (String.eqb_spec k ""); [done|]. destruct (reservedEnvKey k) eqn:Hr; [done|]. intros _.
  exists k, v. split_and!; [|done|done|done]. by apply cut_Some.
Qed.

Section ValidSpec.
Context (home : option string) (ParseVolume : string → option (string * string)) (files : string → option string)
        (parseURL : string → option (string * string)) (ToBytes : string → option (list Z)) (lowerU : string → string).
Notation Validate := (Validate home ParseVolume files parseURL ToBytes lowerU).
Notation Validate_workspace := (Validate_workspace home ParseVolume files parseURL lowerU).
Notation validate_workspaces := (validate_workspaces home ParseVolume files parseURL lowerU).

(** What a validated workspace promises to the rest of the program. *)
Record ws_valid (d : Defaults) (name : string) (ws : Workspace) : Prop := {
  wv_name : workspaceNameRe name = true;
  wv_paths : Forall (λ p, TrimSpace p ≠ "" ∧ ∀ q, q ∈ forbiddenMountPrefixes → under p q = false) (ws_Paths ws);
  wv_mounts : Forall (λ s, ∃ m, ParseMount home ParseVolume s = Ok m ∧ guest_ok (Container m) ∧ host_ok home (Host m)) (ws_Mounts ws);
  wv_networks : Forall (λ c, is_Some (ParseCIDR c)) (ws_AllowedNetworks ws);
  wv_env : Forall (λ e, env_key e ≠ "" ∧ reservedEnvKey (env_key e) = false) (ws_Env ws);
  wv_image : ws_Image ws = "" ∨ (ws_Dockerfile ws = "" ∧ ws_BuildContext ws = "");
  wv_ports : is_ok (rmap ParsePort (ws_Ports ws)) = true ∧ is_ok (rmap (ParseHostPort home) (ws_HostPorts ws)) = true;
  wv_protect : ¬ (explicitTrue (d_EnableDocker d) (ws_EnableDocker ws) = true ∧ explicitTrue (d_ProtectGit d) (ws_ProtectGit ws) = true);
  wv_dns : explicitTrue (d_FilteredDNS d) (ws_FilteredDNS ws) = true →
    (ws_DNSUpstream ws ≠ "" ∨ d_DNSUpstream d ≠ "") ∧
    ∀ h z, h ∈ mergeDedup (d_AllowedHosts d) (ws_AllowedHosts ws) → z ∈ filtered_zones d ws → in_zone lowerU h z = false;
  wv_agent : validateAgent home ParseVolume (ws_Agent ws) (ws_Agents ws) (d_Agents d) = Ok ()
}.

Lemma validateWorkspaceMount_Ok s u :
  validateWorkspaceMount home ParseVolume s = Ok u →
  ∃ m, ParseMount home ParseVolume s = Ok m ∧ guest_ok (Container m) ∧ host_ok home (Host m).
Proof.
  unfold validateWorkspaceMount. intros H. inv_res.
  eexists. split_and!; [eassumption| |eapply validateMountHostPath_Ok; eassumption].
  intros q Hq. eapply checkContainer_Ok; eassumption.
Qed.
Lemma validateFilteredDNS_Ok d ws u :
  validateFilteredDNS lowerU d ws = Ok u → explicitTrue (d_FilteredDNS d) (ws_FilteredDNS ws) = true →
  (ws_DNSUpstream ws ≠ "" ∨ d_DNSUpstream d ≠ "") ∧
  (ws_DNSBlockedZones ws ≠ Some [] ∨ d_DNSBlockedZones d ≠ None) ∧
  ∀ h z, h ∈ mergeDedup (d_AllowedHosts d) (ws_AllowedHosts ws) → z ∈ filtered_zones d ws → in_zone lowerU h z = false.
Proof.
  unfold validateFilteredDNS. intros H He. rewrite He in H. cbn [andb] in H.
  destruct (String.eqb (ws_DNSUpstream ws) "" && String.eqb (d_DNSUpstream d) "") eqn:Hu; [done|].
  destruct ((olen (ws_DNSBlockedZones ws) =? 0)%nat && (olen (d_DNSBlockedZones d) =? 0)%nat) eqn:Hz; [done|].
  split_and!.
  - apply andb_false_iff in Hu as [Hu|Hu]; bool_hyps; auto.
  - apply andb_false_iff in Hz as [Hz|Hz]; bool_hyps; [left; by intros E; rewrite E in Hz|right; by intros E; rewrite E in Hz].
  - intros h z Hh Hzz. apply riter_Ok in H. rewrite Forall_forall in H. specialize (H h Hh). cbn in H.
    apply riter_Ok in H. rewrite Forall_forall in H. specialize (H z Hzz). cbn in H.
    apply guard_err_Ok in H. by apply negb_true_iff.
Qed.
Lemma validateWorkspacePath_Ok p u :
  validateWorkspacePath p = Ok u → TrimSpace p ≠ "" ∧ ∀ q, q ∈ forbiddenMountPrefixes → under p q = false.
Proof.
  unfold validateWorkspacePath. intros H. inv_res.
  match goal with H : negb _ = true |- _ => apply negb_true_iff, String.eqb_neq in H end. split; [done|].
  apply forbidden_by_None. by destruct (forbidden_by _ _).
Qed.
Lemma with_snapshots_fields ws s :
  ws_Paths (with_snapshots ws s) = ws_Paths ws ∧ ws_Mounts (with_snapshots ws s) = ws_Mounts ws.
Proof. done. Qed.

Lemma validateEnvEntries_Ok es u :
  validateEnvEntries es = Ok u → Forall (λ e, env_key e ≠ "" ∧ reservedEnvKey (env_key e) = false) es.
Proof.
  intros H%riter_Ok. eapply Forall_impl; [exact H|]. intros e (k & v & _ & -> & ? & ?)%validateEnvEntry_Ok. done.
Qed.
Lemma validate_loop_is_ok {A} (parse : string → result cerr A) key twice ps u :
  validate_loop parse key twice ∅ ps = Ok u → is_ok (rmap parse ps) = true.
Proof. intros (fs & -> & _)%validate_loop_Ok. done. Qed.

Lemma Validate_workspace_valid d name ws0 ws :
  Validate_workspace d name ws0 = Ok ws → ws_valid d name ws.
Proof.
  clear ToBytes. unfold Config.Validate_workspace. intros H. inv_res. split; cbn [with_snapshots ws_expanded ws_Paths ws_Mounts ws_AllowedNetworks
    ws_Env ws_Image ws_Dockerfile ws_BuildContext ws_Ports ws_HostPorts ws_EnableDocker ws_ProtectGit ws_FilteredDNS ws_DNSUpstream
    ws_DNSBlockedZones ws_AllowedHosts ws_Agent ws_Agents].
  - done.
  - match goal with H : riter validateWorkspacePath _ = Ok _ |- _ => apply riter_Ok in H; eapply Forall_impl; [exact H|] end.
    intros p Hp. exact (validateWorkspacePath_Ok p _ Hp).
  - match goal with H : riter (validateWorkspaceMount _ _) _ = Ok _ |- _ => apply riter_Ok in H; eapply Forall_impl; [exact H|] end.
    intros p Hp. exact (validateWorkspaceMount_Ok p _ Hp).
  - match goal with H : riter (λ cidr, _) _ = Ok _ |- _ => apply riter_Ok in H; eapply Forall_impl; [exact H|] end.
    intros c Hc. cbn in Hc. apply guard_err_Ok in Hc. by apply bool_decide_eq_true_1 in Hc.
  - eapply validateEnvEntries_Ok. eassumption.
  - repeat match goal with H : _ || _ = true |- _ => apply orb_true_iff in H end. rewrite -!String.eqb_eq. tauto.
  - split; eapply validate_loop_is_ok; eassumption.
  - match goal with H : negb (_ && _) = true |- _ => apply negb_true_iff, andb_false_iff in H end. intros [? ?].
    match goal with H : _ ∨ _ |- _ => destruct H end; congruence.
  - intros He. match goal with H : validateFilteredDNS _ _ _ = Ok _ |- _ => pose proof (validateFilteredDNS_Ok _ _ _ H He) as (? & _ & Hz) end.
    split; [done|]. exact Hz.
  - match goal with H : validateAgent _ _ _ _ _ = Ok ?u |- _ => by destruct u end.
Qed.

Lemma validate_workspaces_spec d names m m' :
  NoDup names → validate_workspaces d names m = Ok m' →
  (∀ n, n ∉ names → m' !! n = m !! n) ∧
  (∀ n ws, n ∈ names → m !! n = Some ws → ∃ ws', Validate_workspace d n ws = Ok ws' ∧ m' !! n = Some ws') ∧
  (∀ n, n ∈ names → m !! n = None → m' !! n = None).
Proof.
  clear ToBytes. intros Hn. revert m. induction Hn as [|name names Hnin Hn IH]; intros m H; cbn in H.
  { injection H as <-. split_and!; [done|by intros ? ? ?%elem_of_nil|by intros ? ?%elem_of_nil]. }
  destruct (m !! name) as [w|] eqn:E.
  - apply bind_Ok in H as (w' & Hw & H). destruct (IH _ H) as (H1 & H2 & H3). split_and!.
    + intros n Hnn. rewrite H1; [|set_solver]. apply lookup_insert_ne. set_solver.
    + intros n ws [->|Hin]%elem_of_cons Hm.
      * rewrite E in Hm. injection Hm as <-. exists w'. split; [done|]. rewrite H1; [|done]. apply lookup_insert_eq.
      * apply H2; [done|]. rewrite lookup_insert_ne; [done|]. by intros ->.
    + intros n [->|Hin]%elem_of_cons Hm; [congruence|]. apply H3; [done|]. rewrite lookup_insert_ne; [done|]. by intros ->.
  - destruct (IH _ H) as (H1 & H2 & H3). split_and!.
    + intros n Hnn. apply H1. set_solver.
    + intros n ws [->|Hin]%elem_of_cons Hm; [congruence|]. by apply H2.
    + intros n [->|Hin]%elem_of_cons Hm; [|by apply H3]. by rewrite H1.
Qed.

Lemma Validate_inv cfg cfg' :
  Validate cfg = Ok cfg' →
  (∀ n, is_Some (c_Workspaces cfg' !! n) ↔ is_Some (c_Workspaces cfg !! n)) ∧
  Validate_defaults home ParseVolume files (c_Defaults cfg) = Ok (c_Defaults cfg') ∧
  ∀ n ws', c_Workspaces cfg' !! n = Some ws' →
    ∃ ws, c_Workspaces cfg !! n = Some ws ∧ Validate_workspace (c_Defaults cfg') n ws = Ok ws'.
Proof.
  unfold Config.Validate. intros H. apply bind_Ok in H as ([vm base] & Hh & H).
  apply bind_Ok in H as (d' & Hd & H). apply bind_Ok in H as (w' & Hw & H). inv_res. cbn [c_Defaults c_Workspaces].
  pose proof (validate_workspaces_spec _ _ _ _ (NoDup_sorted_keys _) Hw) as (H1 & H2 & H3).
  assert (∀ n ws', w' !! n = Some ws' → ∃ ws, c_Workspaces cfg !! n = Some ws ∧ Validate_workspace d' n ws = Ok ws') as Hall.
  { intros n ws' Hws. destruct (c_Workspaces cfg !! n) as [ws|] eqn:E.
    - exists ws. split; [done|]. destruct (H2 n ws) as (w0 & Hv & Hw'); [by apply elem_of_sorted_keys; exists ws|done|].
      rewrite Hws in Hw'. injection Hw' as ->. exact Hv.
    - rewrite H1 in Hws; [congruence|]. rewrite elem_of_sorted_keys E. by intros [? [=]]. }
  split_and!; [|done|exact Hall]. intros n. split.
  - intros [w Hwn]. destruct (Hall _ _ Hwn) as (ws & Hws & _). by exists ws.
  - intros [ws Hws]. destruct (H2 n ws) as (w & _ & Hwn); [by apply elem_of_sorted_keys; exists ws|done|]. by exists w.
Qed.

End ValidSpec.

(** ** Examples *)

Definition zeroDefaults : Defaults :=
  {| d_Backend := ""; d_Agent := ""; d_Agents := ∅; d_Env := []; d_EnvFile := []; d_Mounts := []; d_Snapshots := [];
     d_AllowedHosts := []; d_AllowedNetworks := []; d_Secrets := {| sec_Env := ∅; sec_File := ∅ |}; d_Image := "";
     d_SSHAuthSock := false; d_GPGAgent := false; d_GitConfig := None; d_CPU := None; d_Memory := None; d_DockerDisk := None;
     d_ExposePort := None; d_EnableDocker := None; d_FilteredDNS := None; d_DNSUpstream := ""; d_DNSBlockedZones := None;
     d_CABundle := None; d_IsolatedBuild := None; d_ProtectGit := None; d_Ports := []; d_HostPorts := [] |}.
Definition zeroWorkspace : Workspace :=
  {| ws_Backend := ""; ws_Agent := ""; ws_Agents := ∅; ws_Paths := []; ws_Mounts := []; ws_Snapshots := []; ws_AllowedHosts := [];
     ws_AllowedNetworks := []; ws_Env := []; ws_EnvFile := []; ws_Secrets := {| sec_Env := ∅; sec_File := ∅ |};
     ws_BuildContext := ""; ws_Dockerfile := ""; ws_Image := ""; ws_SSHAuthSock := None; ws_GPGAgent := None; ws_GitConfig := None;
     ws_CPU := None; ws_Memory := None; ws_DockerDisk := None; ws_ExposePort := None; ws_EnableDocker := None;
     ws_FilteredDNS := None; ws_DNSUpstream := ""; ws_DNSBlockedZones := None; ws_CABundle := None; ws_IsolatedBuild := None;
     ws_ProtectGit := None; ws_Ports := []; ws_HostPorts := [] |}.
Definition simple_config (d : Defaults) (w : gmap string Workspace) : Config :=
  {| c_Mode := ""; c_PasswordMode := ""; c_DetachKeys := ""; c_Base := {| base_Dockerfile := "" |};
     c_VM := {| vm_Runner := ""; vm_LibDir := ""; vm_Builder := "" |}; c_Defaults := d; c_Workspaces := w |}.
Definition example_ws : Workspace :=
  ws_expanded zeroWorkspace ["~/src"] "" "" [] {| sec_Env := ∅; sec_File := ∅ |} ["~/a:/data"] [].
Definition example_ws' : Workspace :=
  ws_expanded zeroWorkspace ["/h/src"] "" "" [] {| sec_Env := ∅; sec_File := ∅ |} ["/h/a:/data:rw"] [].

