(* ===== verification/Resolve.v ===== *)
(** * Resolving a workspace

    [src/internal/workspace/workspace.go]: a workspace of the configuration
    merged with the defaults and its agent, the numbering of workspaces and
    the choice of the workspace for a directory. Arguments: [home], the
    working directory [cwd0] behind [filepath.Abs], [ParseVolume] and [files]
    as in the configuration. *)

From S2P Require Import Prelude GoStrings GoPath GoTime Agent ConfigPaths ConfigPorts ConfigChecks Config.
From Stdlib Require Import SpecFloat.
Open Scope string_scope.
Open Scope list_scope.
Open Scope Z_scope.

Definition BasePort : Z := 4096.

Inductive SecretKind := SecretKindEnv | SecretKindFile.
Record ResolvedSecret := {
  rs_Name : string; rs_Kind : SecretKind; rs_FromEnv : string; rs_FromFile : string; rs_FromCommand : string; rs_TTL : Z
}.
Record Resolved := {
  r_Name : string; r_Paths : list string; r_Agent : Harness; r_AgentInstall : bool; r_AgentArgs : option (list string);
  r_AgentProfile : option Profile; r_Mounts : list string; r_Snapshots : list string; r_Port : Z; r_AllowedHosts : list string;
  r_AllowedNetworks : list string; r_BuildContext : string; r_Dockerfile : string; r_Image : string; r_Env : list string;
  r_SSHAuthSock : bool; r_GPGAgent : bool; r_GitConfig : bool; r_Secrets : list ResolvedSecret; r_CPU : spec_float;
  r_Memory : string; r_DockerDisk : string; r_EnableDocker : bool; r_IsolatedBuild : bool; r_ProtectGit : bool;
  r_Ports : list PortForward; r_HostPorts : list HostPortTarget; r_FilteredDNS : bool; r_DNSUpstream : string;
  r_DNSBlockedZones : option (list string); r_CABundle : CABundle
}.

(** ** Defaults *)

Definition boolWithOverride (defaultVal : bool) (override : option bool) : bool :=
  match override with Some b => b | None => defaultVal end.
(** [boolPtrWithDefault], [floatWithDefault], [stringWithDefault] and
    [caBundleWithDefault] are one function at four types. *)
Definition withDefault {A} (defaultVal override : option A) (fallback : A) : A :=
  match override with Some b => b | None => match defaultVal with Some b => b | None => fallback end end.
Definition boolPtrWithDefault : option bool → option bool → bool → bool := withDefault.
Definition floatWithDefault : option spec_float → option spec_float → spec_float → spec_float := withDefault.
Definition stringWithDefault : option string → option string → string → string := withDefault.
Definition caBundleWithDefault (defaultVal override : option CABundle) : CABundle := withDefault defaultVal override caBundleAutomatic.

(** ** Merges *)

Definition mergeUnique (a b : list string) : list string := dedup (a ++ b).

Record env_state := { orderedKeys : list string; latestByKey : gmap string string }.
Definition env_step (st : env_state) (entry : string) : env_state :=
  let key := env_key entry in
  {| orderedKeys := if bool_decide (key ∈ orderedKeys st) then orderedKeys st else orderedKeys st ++ [key];
     latestByKey := <[key := entry]> (latestByKey st) |}.
Definition dedupEnvByKeyLastWins (entries : list string) : list string :=
  let st := foldl env_step {| orderedKeys := []; latestByKey := ∅ |} entries in
  map (λ key, default "" (latestByKey st !! key)) (orderedKeys st).

Definition secret_ttl (s : Secret) : Z :=
  if negb (String.eqb (TTL s) "") then default 0 (ParseDuration (TTL s)) else 0.
Definition resolved_secret (k : SecretKind) (name : string) (s : Secret) : ResolvedSecret :=
  {| rs_Name := name; rs_Kind := k; rs_FromEnv := FromEnv s; rs_FromFile := FromFile s; rs_FromCommand := FromCommand s;
     rs_TTL := secret_ttl s |}.
(** The iterations over the two maps; the keys of a map are distinct, so their
    order does not matter. *)
Definition collectSecrets (dst : gmap string ResolvedSecret) (secrets : Secrets) : gmap string ResolvedSecret :=
  let dst := map_imap (λ name s, Some (resolved_secret SecretKindEnv name s)) (sec_Env secrets) ∪ dst in
  map_imap (λ name s, Some (resolved_secret SecretKindFile name s)) (sec_File secrets) ∪ dst.
Definition sortedSecrets (secrets : gmap string ResolvedSecret) : list ResolvedSecret :=
  omap (λ name, secrets !! name) (sorted_keys secrets).
Definition mergeSecrets (defaults overrides : Secrets) : list ResolvedSecret :=
  sortedSecrets (collectSecrets (collectSecrets ∅ defaults) overrides).
Definition FlattenSecrets (secrets : Secrets) : list ResolvedSecret := sortedSecrets (collectSecrets ∅ secrets).

(** ** The agent *)

Definition first_set {A} (l : list (option A)) : option A := foldl (λ acc x, match acc with None => x | Some _ => acc end) None l.
Definition resolveAgent (cfg : Config) (ws : Workspace) : result cerr (Harness * AgentSettings) :=
  let name := cmpOr (ws_Agent ws) (cmpOr (d_Agent (c_Defaults cfg)) Default) in
  let t0 := get_settings (ws_Agents ws) name in
  let t1 := get_settings (d_Agents (c_Defaults cfg)) name in
  '(h, tables) ← match Lookup name with
    | Some h => Ok (h, [t0; t1])
    | None =>
        let from := cmpOr (as_From t0) (as_From t1) in
        match Lookup from with
        | None => Err (EOther "unknown agent" [name])
        | Some h => Ok (with_name h name, [t0; t1; get_settings (ws_Agents ws) from; get_settings (d_Agents (c_Defaults cfg)) from])
        end
    end;
  let settings := {|
    as_From := "";
    as_Install := first_set (map as_Install tables);
    as_Version := foldl (λ acc t, cmpOr acc (as_Version t)) "" tables;
    as_Args := first_set (map as_Args tables);
    as_Mounts := concat (map as_Mounts (rev tables));
    as_Profile := first_set [as_Profile t0; as_Profile t1] |} in
  Ok (with_version h (cmpOr (as_Version settings) (h_Version h)), settings).

(** ** Workspace numbers *)

Definition workspaceNames (cfg : Config) : list string := sorted_keys (c_Workspaces cfg).
Fixpoint index_of (name : string) (names : list string) : option nat :=
  match names with
  | [] => None
  | n :: names' => if String.eqb n name then Some O else S <$> index_of name names'
  end.
Definition PortForWorkspace (cfg : Config) (name : string) : Z :=
  match index_of name (workspaceNames cfg) with Some i => BasePort + Z.of_nat i | None => -1 end.

Section Resolving.
Context (home cwd0 : option string) (ParseVolume : string → option (string * string)) (files : string → option string).

Definition expandPath (path : string) : result cerr string :=
  if negb (HasPrefix path "~") then Ok path else
  match home with Some h => Ok (JoinPath [h; sdrop 1 path]) | None => Err EHome end.
Definition absPath (p : string) : result cerr string :=
  expanded ← expandPath p; opt_err (Abs cwd0 expanded) (EOther "resolve absolute path" [expanded]).

Definition resolveEnv (cfg : Config) (ws : Workspace) : result cerr (list string) :=
  let allEnvFiles := dedup (d_EnvFile (c_Defaults cfg) ++ ws_EnvFile ws) in
  entries ← rmap (ParseEnvFile files) allEnvFiles;
  Ok (dedupEnvByKeyLastWins (d_Env (c_Defaults cfg) ++ concat entries ++ ws_Env ws)).

Definition Resolve (cfg : Config) (name : string) : result cerr Resolved :=
  let d := c_Defaults cfg in
  match c_Workspaces cfg !! name with
  | None => Err (EOther "workspace not found" [name])
  | Some ws =>
      paths ← rmap absPath (ws_Paths ws);
      buildContext ← (if negb (String.eqb (ws_BuildContext ws) "") then absPath (ws_BuildContext ws) else Ok "");
      mergedEnv ← resolveEnv cfg ws;
      '(h, settings) ← resolveAgent cfg ws;
      mergedMounts ← MergeMounts home ParseVolume [DefaultMounts h; as_Mounts settings; d_Mounts d; ws_Mounts ws];
      snapshots ← MergeMounts home ParseVolume [d_Snapshots d; ws_Snapshots ws];
      let protect := boolPtrWithDefault (d_ProtectGit d) (ws_ProtectGit ws) false in
      Ok {| r_Name := name; r_Paths := paths; r_Agent := h;
            r_AgentInstall := match as_Install settings with Some b => b | None => true end;
            r_AgentArgs := as_Args settings; r_AgentProfile := as_Profile settings; r_Mounts := mergedMounts; r_Snapshots := snapshots;
            r_Port := PortForWorkspace cfg name;
            r_AllowedHosts := mergeUnique (d_AllowedHosts d) (ws_AllowedHosts ws);
            r_AllowedNetworks := mergeUnique (d_AllowedNetworks d) (ws_AllowedNetworks ws);
            r_BuildContext := buildContext; r_Dockerfile := ws_Dockerfile ws; r_Image := ws_Image ws; r_Env := mergedEnv;
            r_SSHAuthSock := boolWithOverride (d_SSHAuthSock d) (ws_SSHAuthSock ws);
            r_GPGAgent := boolWithOverride (d_GPGAgent d) (ws_GPGAgent ws);
            r_GitConfig := boolPtrWithDefault (d_GitConfig d) (ws_GitConfig ws) true;
            r_Secrets := mergeSecrets (d_Secrets d) (ws_Secrets ws);
            r_CPU := floatWithDefault (d_CPU d) (ws_CPU ws) (f64 2);
            r_Memory := stringWithDefault (d_Memory d) (ws_Memory ws) "4g";
            r_DockerDisk := stringWithDefault (d_DockerDisk d) (ws_DockerDisk ws) "20g";
            r_EnableDocker := if protect then false else boolPtrWithDefault (d_EnableDocker d) (ws_EnableDocker ws) false;
            r_IsolatedBuild := boolPtrWithDefault (d_IsolatedBuild d) (ws_IsolatedBuild ws) false; r_ProtectGit := protect;
            r_Ports := MergePorts (d_Ports d) (ws_Ports ws); r_HostPorts := MergeHostPorts home (d_HostPorts d) (ws_HostPorts ws);
            r_FilteredDNS := boolPtrWithDefault (d_FilteredDNS d) (ws_FilteredDNS ws) false;
            r_DNSUpstream := if String.eqb (ws_DNSUpstream ws) "" then d_DNSUpstream d else ws_DNSUpstream ws;
            r_DNSBlockedZones := match ws_DNSBlockedZones ws with None => d_DNSBlockedZones d | z => z end;
            r_CABundle := caBundleWithDefault (d_CABundle d) (ws_CABundle ws) |}
  end.

(** ** The workspace of a directory *)

Definition pathSegments (p : string) : nat :=
  let trimmed := TrimRightFn (Ascii.eqb "/") (TrimLeftFn (Ascii.eqb "/") p) in
  if String.eqb trimmed "" then O else length (Split trimmed "/").
Definition pathMatchesCWD (base cwd : string) : bool :=
  if String.eqb base "" then false else
  let p := if HasSuffix base "/" then base else base +:+ "/" in
  HasPrefix (cwd +:+ "/") p || String.eqb cwd (TrimSuffix p "/").
Definition MatchesCWD (ws : Resolved) (cwd : string) : bool := existsb (λ p, pathMatchesCWD p cwd) (r_Paths ws).

Record cwd_best := { best : list string; bestMatchedPath : string; bestSegments : nat }.
Definition cwd_path (cwd name : string) (b : cwd_best) (raw : string) : cwd_best :=
  match absPath raw with
  | Err _ => b
  | Ok p =>
      if negb (pathMatchesCWD p cwd) then b else
      let segments := pathSegments p in
      if bool_decide (best b = []) || (bestSegments b <? segments)%nat
      then {| best := [name]; bestMatchedPath := p; bestSegments := segments |}
      else if (segments =? bestSegments b)%nat && negb (bool_decide (name ∈ best b))
      then {| best := best b ++ [name]; bestMatchedPath := bestMatchedPath b; bestSegments := bestSegments b |}
      else b
  end.
Definition cwd_workspace (cfg : Config) (cwd : string) (b : cwd_best) (name : string) : cwd_best :=
  match c_Workspaces cfg !! name with
  | Some ws => foldl (cwd_path cwd name) b (ws_Paths ws)
  | None => b
  end.
Definition cwd_choice (cfg : Config) (cwd : string) : cwd_best :=
  foldl (cwd_workspace cfg cwd) {| best := []; bestMatchedPath := ""; bestSegments := 0 |} (workspaceNames cfg).
Definition ResolveFromCWD (cfg : Config) (cwd : string) : result cerr (Resolved * string) :=
  let b := cwd_choice cfg cwd in
  match best b with
  | [] => Err (EOther "no matching workspace" [cwd])
  | [name] => r ← Resolve cfg name; Ok (r, bestMatchedPath b)
  | names => Err (EOther "directory matches workspaces" names)
  end.
End Resolving.

Example resolve_ex :
  pathSegments "/a/b/c" = 3%nat ∧ pathSegments "/" = 0%nat ∧ pathMatchesCWD "/a/b" "/a/b/c" = true ∧
  pathMatchesCWD "/a/b" "/a/bc" = false ∧ pathMatchesCWD "/" "/x" = true ∧
  dedupEnvByKeyLastWins ["A=1"; "B=2"; "A=3"] = ["A=3"; "B=2"].
Proof. by vm_compute. Qed.

(** ** The agent of a validated configuration *)

Section AgentSpec.
Context (home : option string) (ParseVolume : string → option (string * string)).

Lemma cmpOr_spec a b : cmpOr a b = if bool_decide (a = "") then b else a.
Proof. unfold cmpOr. by destruct (String.eqb_spec a ""); [rewrite bool_decide_eq_true_2|rewrite bool_decide_eq_false_2]. Qed.

Lemma cmpOr_nil_r a : cmpOr a "" = a.
Proof. unfold cmpOr. by destruct (String.eqb_spec a ""). Qed.

(** A custom agent's table leads to a built-in agent. *)
Definition table_ok (inherited : gmap string AgentSettings) (key : string) (s : AgentSettings) : Prop :=
  Lookup key = None → is_Some (Lookup (cmpOr (as_From s) (as_From (get_settings inherited key)))).
Lemma validateAgentTable_ok inherited key s u :
  validateAgentTable home ParseVolume inherited key s = Ok u → table_ok inherited key s.
Proof.
  unfold validateAgentTable. intros H Hn. rewrite Hn in H. inv_res.
  match goal with H : match Lookup ?f with _ => _ end = true |- is_Some (Lookup ?f) => destruct (Lookup f) eqn:E in H; [|discriminate H]; by rewrite E end.
Qed.
Lemma validateAgent_ok name agents inherited u :
  validateAgent home ParseVolume name agents inherited = Ok u →
  (∀ key s, agents !! key = Some s → table_ok inherited key s) ∧
  (name = "" ∨ is_Some (Lookup name) ∨ is_Some (agents !! name) ∨ is_Some (inherited !! name)).
Proof.
  unfold validateAgent. intros H. apply bind_Ok in H as (u1 & H1 & H2). split.
  - intros key s Hs. apply riter_Ok in H1. rewrite Forall_forall in H1.
    specialize (H1 key). cbn in H1. unfold get_settings in H1. rewrite Hs in H1. cbn in H1.
    eapply validateAgentTable_ok, H1. apply elem_of_sorted_keys. by exists s.
  - destruct (String.eqb_spec name ""); [by left|]. destruct (Lookup name) as [h|]; [right; left; by exists h|].
    apply guard_err_Ok, orb_true_iff in H2 as [H2|H2]; apply bool_decide_eq_true_1 in H2; auto.
Qed.

Lemma get_settings_Some m key s : m !! key = Some s → get_settings m key = s.
Proof. unfold get_settings. by intros ->. Qed.
Lemma get_settings_None m key : m !! key = None → get_settings m key = zeroSettings.
Proof. unfold get_settings. by intros ->. Qed.

Lemma resolveAgent_total cfg ws u v :
  validateAgent home ParseVolume (d_Agent (c_Defaults cfg)) (d_Agents (c_Defaults cfg)) ∅ = Ok u →
  validateAgent home ParseVolume (ws_Agent ws) (ws_Agents ws) (d_Agents (c_Defaults cfg)) = Ok v →
  is_ok (resolveAgent cfg ws) = true.
Proof.
  intros (Hd & Hdn)%validateAgent_ok (Hw & Hwn)%validateAgent_ok. unfold resolveAgent.
  set (name := cmpOr (ws_Agent ws) (cmpOr (d_Agent (c_Defaults cfg)) Default)).
  destruct (Lookup name) as [h|] eqn:E; [done|]. cbn -[cmpOr get_settings Lookup].
  assert (is_Some (ws_Agents ws !! name) ∨ is_Some (d_Agents (c_Defaults cfg) !! name)) as Hname.
  { assert (name ≠ "opencode") as Hdef by (intros En; rewrite En in E; vm_compute in E; discriminate).
    unfold name in *. rewrite !cmpOr_spec in Hdef, E |- *.
    destruct (decide (ws_Agent ws = "")) as [H1|H1].
    - rewrite (bool_decide_eq_true_2 _ H1) in Hdef, E |- *. destruct (decide (d_Agent (c_Defaults cfg) = "")) as [H2|H2].
      + rewrite (bool_decide_eq_true_2 _ H2) in Hdef. by destruct Hdef.
      + rewrite (bool_decide_eq_false_2 _ H2) in E |- *.
        destruct Hdn as [?|[H3|[?|H3]]]; [done|rewrite E in H3; by destruct H3|by right|rewrite lookup_empty in H3; by destruct H3].
    - rewrite (bool_decide_eq_false_2 _ H1) in E |- *.
      destruct Hwn as [?|[H3|[?|?]]]; [done|rewrite E in H3; by destruct H3|by left|by right]. }
  assert (is_Some (Lookup (cmpOr (as_From (get_settings (ws_Agents ws) name)) (as_From (get_settings (d_Agents (c_Defaults cfg)) name))))) as [h ->]; [|done].
  destruct (ws_Agents ws !! name) as [s|] eqn:Ew.
  - rewrite (get_settings_Some _ _ _ Ew). by apply (Hw name s Ew).
  - rewrite (get_settings_None _ _ Ew). destruct Hname as [H1|[s Hs]]; [by destruct H1|].
    pose proof (Hd name s Hs E) as Ht. rewrite (get_settings_None ∅ name) in Ht; [|apply lookup_empty].
    rewrite (get_settings_Some _ _ _ Hs).
    change (as_From zeroSettings) with "" in *. rewrite cmpOr_nil_r in Ht. exact Ht.
Qed.
End AgentSpec.

(** ** Environment, secrets and numbers *)

Definition last_entry (k : string) (es : list string) : option string := last (filter (λ e, env_key e = k) es).
Lemma last_entry_snoc k es e :
  last_entry k (es ++ [e]) = if bool_decide (env_key e = k) then Some e else last_entry k es.
Proof.
  unfold last_entry. rewrite filter_app filter_cons filter_nil. case_decide as H.
  - rewrite bool_decide_eq_true_2; [|done]. by rewrite last_snoc.
  - rewrite bool_decide_eq_false_2; [|done]. by rewrite app_nil_r.
Qed.
Lemma env_step_inv es :
  let st := foldl env_step {| orderedKeys := []; latestByKey := ∅ |} es in
  NoDup (orderedKeys st) ∧ (∀ k, latestByKey st !! k = last_entry k es) ∧
  (∀ k, k ∈ orderedKeys st ↔ is_Some (last_entry k es)).
Proof.
  induction es as [|e es IH] using rev_ind.
  { cbn. split_and!; [constructor|intros; by rewrite lookup_empty|]. intros k. split; [by intros ?%elem_of_nil|by intros [? [=]]]. }
  rewrite foldl_app. cbn [foldl]. set (st := foldl env_step _ es) in *. destruct IH as (Hn & Hl & Ho).
  unfold env_step. cbn [orderedKeys latestByKey]. split_and!.
  - case_bool_decide as Hin; [done|]. apply NoDup_app. split; [done|]. split; [|by apply NoDup_singleton].
    intros k Hk Hk'. apply list_elem_of_singleton in Hk'. congruence.
  - intros k. rewrite last_entry_snoc. destruct (decide (env_key e = k)) as [->|Hne].
    + rewrite bool_decide_eq_true_2; [|done]. by rewrite lookup_insert_eq.
    + rewrite bool_decide_eq_false_2; [|done]. by rewrite lookup_insert_ne.
  - intros k. rewrite last_entry_snoc.
    assert (k ∈ (if bool_decide (env_key e ∈ orderedKeys st) then orderedKeys st else orderedKeys st ++ [env_key e])
      ↔ k ∈ orderedKeys st ∨ k = env_key e) as ->.
    { case_bool_decide as Hin; [|rewrite elem_of_app list_elem_of_singleton; tauto]. split; [by left|]. by intros [ | ->]. }
    rewrite Ho. destruct (decide (env_key e = k)) as [Hk|Hk].
    + rewrite bool_decide_eq_true_2; [|done]. split; [intros _; by exists e|intros _; by right].
    + rewrite bool_decide_eq_false_2; [|done]. split; [intros [?|?]; [done|congruence]|by left].
Qed.
Lemma last_entry_key k es e : last_entry k es = Some e → env_key e = k ∧ e ∈ es.
Proof. intros H%last_Some_elem_of. by apply list_elem_of_filter in H. Qed.
Lemma dedupEnv_spec es :
  NoDup (map env_key (dedupEnvByKeyLastWins es)) ∧
  ∀ e, e ∈ dedupEnvByKeyLastWins es ↔ last_entry (env_key e) es = Some e.
Proof.
  pose proof (env_step_inv es) as H. cbv zeta in H. unfold dedupEnvByKeyLastWins. cbv zeta.
  set (st := foldl env_step _ es) in *. destruct H as (Hn & Hl & Ho).
  assert (∀ k, k ∈ orderedKeys st → env_key (default "" (latestByKey st !! k)) = k ∧ last_entry k es = Some (default "" (latestByKey st !! k))) as Hk.
  { intros k Hk. apply Ho in Hk as [e He]. rewrite Hl He. cbn. split; [|done]. by apply last_entry_key in He as [? _]. }
  split.
  - rewrite map_map. assert (map (λ k, env_key (default "" (latestByKey st !! k))) (orderedKeys st) = orderedKeys st) as ->; [|done].
    rewrite -{2}(map_id (orderedKeys st)). apply map_ext_in. intros k Hin. apply Hk. by apply list_elem_of_In.
  - intros e. rewrite list_elem_of_fmap. split.
    + intros (k & -> & Hin). destruct (Hk k Hin) as [-> ?]. done.
    + intros He. exists (env_key e). rewrite Hl He. split; [done|]. apply Ho. by exists e.
Qed.

Lemma collectSecrets_lookup dst s name :
  collectSecrets dst s !! name =
  match sec_File s !! name with
  | Some f => Some (resolved_secret SecretKindFile name f)
  | None => match sec_Env s !! name with Some e => Some (resolved_secret SecretKindEnv name e) | None => dst !! name end
  end.
Proof.
  unfold collectSecrets. rewrite lookup_union map_lookup_imap.
  destruct (sec_File s !! name) as [f|]; cbn.
  { by destruct ((map_imap _ (sec_Env s) ∪ dst) !! name). }
  rewrite option_union_left_id lookup_union map_lookup_imap. destruct (sec_Env s !! name) as [e|]; cbn.
  - by destruct (dst !! name).
  - by rewrite option_union_left_id.
Qed.
Lemma sortedSecrets_lookup (m : gmap string ResolvedSecret) :
  (∀ n x, m !! n = Some x → rs_Name x = n) →
  StronglySorted (λ a b, strle a b = true) (map rs_Name (sortedSecrets m)) ∧ NoDup (map rs_Name (sortedSecrets m)) ∧
  ∀ x, x ∈ sortedSecrets m ↔ m !! rs_Name x = Some x.
Proof.
  intros Hm. unfold sortedSecrets.
  assert (∀ l, (∀ n, n ∈ l → is_Some (m !! n)) → map rs_Name (omap (λ name, m !! name) l) = l) as Hl.
  { induction l as [|n l IH]; intros Hs; [done|]. cbn. destruct (Hs n) as [x Hx]; [constructor|]. rewrite Hx. cbn.
    rewrite (Hm _ _ Hx) IH; [done|]. intros n' Hn'. apply Hs. by constructor. }
  rewrite Hl; [|intros n; apply elem_of_sorted_keys]. split_and!; [apply sorted_keys_sorted|apply NoDup_sorted_keys|].
  intros x. rewrite list_elem_of_omap. split.
  - intros (n & _ & Hx). by rewrite (Hm _ _ Hx).
  - intros Hx. exists (rs_Name x). split; [|done]. apply elem_of_sorted_keys. by exists x.
Qed.

Lemma sorted_lookup (l : list string) i j a b :
  StronglySorted (λ a b, strle a b = true) l → l !! i = Some a → l !! j = Some b → (i < j)%nat → strle a b = true.
Proof.
  intros H. revert i j. induction H as [|x l _ IH Hx]; intros i j Ha Hb Hij; [done|].
  destruct j as [|j]; [lia|]. destruct i as [|i]; cbn in Ha, Hb.
  - injection Ha as <-. rewrite Forall_forall in Hx. apply Hx. eapply list_elem_of_lookup_2; eassumption.
  - apply (IH i j Ha Hb). lia.
Qed.
Lemma index_of_Some name names i : index_of name names = Some i → names !! i = Some name.
Proof.
  revert i. induction names as [|n names IH]; intros i; cbn; [done|].
  destruct (String.eqb_spec n name) as [->|]; [by intros [= <-]|].
  intros (j & Hj & ->)%fmap_Some. cbn. by apply IH.
Qed.
Lemma index_of_elem name names : name ∈ names → is_Some (index_of name names).
Proof.
  induction names as [|n names IH]; [by intros ?%elem_of_nil|]. intros H. cbn.
  destruct (String.eqb_spec n name) as [->|Hne]; [by exists O|].
  apply elem_of_cons in H as [?|H]; [congruence|]. destruct (IH H) as [i ->]. by exists (S i).
Qed.

(** ** Properties *)

Section ResolveSpec.
Context (home cwd0 : option string) (ParseVolume : string → option (string * string)) (files : string → option string)
        (parseURL : string → option (string * string)) (ToBytes : string → option (list Z)) (lowerU : string → string).
Notation Validate := (Validate home ParseVolume files parseURL ToBytes lowerU).

Lemma Validate_agents cfg cfg' :
  Validate cfg = Ok cfg' →
  ∃ u, validateAgent home ParseVolume (d_Agent (c_Defaults cfg')) (d_Agents (c_Defaults cfg')) ∅ = Ok u.
Proof.
  unfold Config.Validate. intros H. apply bind_Ok in H as ([vm base] & Hh & H).
  apply bind_Ok in H as (d & Hd & H). apply bind_Ok in H as (w & _ & H). inv_res. cbn [c_Defaults].
  unfold Validate_defaults in Hd. inv_res. cbn [d_expanded d_Agent d_Agents].
  unfold Validate_head in Hh. case_match; [done|]. case_match; [done|]. case_match; [done|].
  apply bind_Ok in Hh as (? & _ & Hh). apply bind_Ok in Hh as (u & Hu & _). by exists u.
Qed.

(** On a validated configuration the agent of every workspace resolves: a
    name that validation accepts, built-in or custom, never turns into the
    unknown-agent error when the workspace is started. *)
Theorem validated_agent_resolves cfg cfg' name ws :
  Validate cfg = Ok cfg' → c_Workspaces cfg' !! name = Some ws → is_ok (resolveAgent cfg' ws) = true.
Proof.
  intros H Hw. destruct (Validate_agents _ _ H) as [u Hu].
  destruct (Validate_inv _ _ _ _ _ _ _ _ H) as (_ & _ & Hall).
  destruct (Hall _ _ Hw) as (ws0 & _ & Hv). apply Validate_workspace_valid in Hv.
  exact (resolveAgent_total _ _ _ _ _ _ Hu (wv_agent _ _ _ _ _ _ Hv)).
Qed.

(** Every entry of a validated environment file sets a free variable. *)
Lemma rmap_Ok_elem {A} (f : string → result cerr (list A)) l r x :
  rmap f l = Ok r → x ∈ concat r → ∃ a b, a ∈ l ∧ f a = Ok b ∧ x ∈ b.
Proof.
  revert r. induction l as [|a l IH]; intros r H Hx; cbn in H; inv_res; [by apply elem_of_nil in Hx|].
  cbn in Hx. apply elem_of_app in Hx as [Hx|Hx].
  - eexists _, _. split_and!; [constructor|eassumption|done].
  - match goal with H : rmap f l = Ok _ |- _ => destruct (IH _ H Hx) as (a' & b & ? & ? & ?) end.
    exists a', b. split_and!; [by constructor|done|done].
Qed.
Lemma validateEnvFiles_elem paths u p es :
  validateEnvFiles files paths = Ok u → p ∈ paths → ParseEnvFile files p = Ok es →
  Forall (λ e, env_key e ≠ "" ∧ reservedEnvKey (env_key e) = false) es.
Proof.
  unfold validateEnvFiles. intros H%riter_Ok Hp He. rewrite Forall_forall in H. specialize (H p Hp). cbn in H.
  destruct (negb (IsAbs p)); [done|]. destruct (files p); [|done]. rewrite He in H. cbn in H. exact (validateEnvEntries_Ok _ _ H).
Qed.

(** The environment of a resolved workspace has every variable once, with
    the value of the last mention among the defaults, the environment files and
    the workspace, in this order; on a validated configuration no variable that
    jailoc or an agent sets itself is among them. *)
Theorem Resolve_env cfg cfg' name r :
  Validate cfg = Ok cfg' → Resolve home cwd0 ParseVolume files cfg' name = Ok r →
  ∃ ws entries, c_Workspaces cfg' !! name = Some ws ∧
    rmap (ParseEnvFile files) (dedup (d_EnvFile (c_Defaults cfg') ++ ws_EnvFile ws)) = Ok entries ∧
    NoDup (map env_key (r_Env r)) ∧
    (∀ e, e ∈ r_Env r ↔ last_entry (env_key e) (d_Env (c_Defaults cfg') ++ concat entries ++ ws_Env ws) = Some e) ∧
    Forall (λ e, env_key e ≠ "" ∧ reservedEnvKey (env_key e) = false) (r_Env r).
Proof.
  intros HV HR. destruct (Validate_inv _ _ _ _ _ _ _ _ HV) as (_ & Hd & Hall).
  unfold Resolve in HR. destruct (c_Workspaces cfg' !! name) as [ws|] eqn:Ew; [|done].
  apply bind_Ok in HR as (paths & _ & HR). apply bind_Ok in HR as (bc & _ & HR). apply bind_Ok in HR as (env & He & HR).
  apply bind_Ok in HR as ([h s] & _ & HR). apply bind_Ok in HR as (mm & _ & HR). apply bind_Ok in HR as (sn & _ & HR).
  injection HR as <-. cbn [r_Env]. unfold resolveEnv in He. apply bind_Ok in He as (entries & Hent & He). injection He as <-.
  exists ws, entries. destruct (dedupEnv_spec (d_Env (c_Defaults cfg') ++ concat entries ++ ws_Env ws)) as [Hn Hl].
  split_and!; [done|done|done|done|]. apply Forall_forall. intros e Hin. apply Hl, last_entry_key in Hin as [_ Hin].
  destruct (Hall _ _ Ew) as (ws0 & _ & Hv).
  unfold Validate_defaults in Hd. apply bind_Ok in Hd as (u1 & Hd1 & Hd). apply bind_Ok in Hd as (ef & _ & Hd).
  apply bind_Ok in Hd as (u2 & Hd2 & Hd). inv_res. 
  match goal with H : d_expanded _ _ _ _ _ = c_Defaults cfg' |- _ => rewrite <- H in * end. cbn [d_expanded d_Env d_EnvFile] in *.
  apply elem_of_app in Hin as [Hin|Hin]; [|apply elem_of_app in Hin as [Hin|Hin]].
  - apply validateEnvEntries_Ok in Hd1. rewrite Forall_forall in Hd1. by apply Hd1.
  - destruct (rmap_Ok_elem _ _ _ _ Hent Hin) as (p & es & Hp & Hes & Hin'). apply (proj1 (elem_of_dedup _ _)) in Hp.
    apply elem_of_app in Hp as [Hp|Hp].
    + pose proof (validateEnvFiles_elem _ _ _ _ Hd2 Hp Hes) as Hf. rewrite Forall_forall in Hf. by apply Hf.
    + unfold Validate_workspace in Hv. inv_res. cbn [with_snapshots ws_expanded ws_EnvFile] in Hp.
      match goal with H : validateEnvFiles _ _ = Ok _ |- _ => pose proof (validateEnvFiles_elem _ _ _ _ H Hp Hes) as Hf end.
      rewrite Forall_forall in Hf. by apply Hf.
  - apply Validate_workspace_valid in Hv. pose proof (wv_env _ _ _ _ _ _ Hv) as Hf. rewrite Forall_forall in Hf. by apply Hf.
Qed.
End ResolveSpec.

(** The secret of a name in one scope, and after the merge. *)
Definition scope_secret (s : Secrets) (name : string) : option ResolvedSecret :=
  match sec_File s !! name with
  | Some f => Some (resolved_secret SecretKindFile name f)
  | None => resolved_secret SecretKindEnv name <$> sec_Env s !! name
  end.
Lemma collected_secret d w name :
  collectSecrets (collectSecrets ∅ d) w !! name =
  match scope_secret w name with Some x => Some x | None => scope_secret d name end.
Proof.
  rewrite !collectSecrets_lookup. unfold scope_secret.
  destruct (sec_File w !! name), (sec_Env w !! name), (sec_File d !! name), (sec_Env d !! name); try done; by rewrite lookup_empty.
Qed.
Lemma scope_secret_name s name x : scope_secret s name = Some x → rs_Name x = name.
Proof.
  unfold scope_secret. destruct (sec_File s !! name); [by intros [= <-]|]. intros H.
  apply fmap_Some in H as (e & _ & ->). done.
Qed.

(** The secrets of a workspace are those of the workspace and of the
    defaults, a workspace entry replacing a default of the same name even in
    the other destination; each name occurs once, in order, whatever the order
    of the maps. *)
Theorem mergeSecrets_override d w :
  StronglySorted (λ a b, strle a b = true) (map rs_Name (mergeSecrets d w)) ∧ NoDup (map rs_Name (mergeSecrets d w)) ∧
  ∀ x, x ∈ mergeSecrets d w ↔
    scope_secret w (rs_Name x) = Some x ∨ (scope_secret w (rs_Name x) = None ∧ scope_secret d (rs_Name x) = Some x).
Proof.
  unfold mergeSecrets. set (m := collectSecrets (collectSecrets ∅ d) w).
  assert (∀ n x, m !! n = Some x → rs_Name x = n) as Hm.
  { intros n x Hx. unfold m in Hx. rewrite collected_secret in Hx.
    destruct (scope_secret w n) eqn:E; [injection Hx as ->|]; eapply scope_secret_name; eassumption. }
  destruct (sortedSecrets_lookup m Hm) as (H1 & H2 & H3). split_and!; [done|done|].
  intros x. rewrite H3. unfold m. rewrite collected_secret. destruct (scope_secret w (rs_Name x)) as [y|].
  - split; [by left|]. by intros [?|[? _]].
  - split; [by right|]. by intros [?|[_ ?]].
Qed.

(** Every workspace has its own port, in the range that starts at 4096,
    in the alphabetical order of the names. *)
Theorem PortForWorkspace_distinct cfg a b :
  is_Some (c_Workspaces cfg !! a) → is_Some (c_Workspaces cfg !! b) →
  BasePort ≤ PortForWorkspace cfg a < BasePort + Z.of_nat (size (c_Workspaces cfg)) ∧
  (PortForWorkspace cfg a = PortForWorkspace cfg b → a = b) ∧
  (strlt a b = true → PortForWorkspace cfg a < PortForWorkspace cfg b).
Proof.
  intros Ha Hb. unfold PortForWorkspace.
  destruct (index_of_elem a (workspaceNames cfg)) as [i Hi]; [by apply elem_of_sorted_keys|].
  destruct (index_of_elem b (workspaceNames cfg)) as [j Hj]; [by apply elem_of_sorted_keys|].
  rewrite Hi Hj. apply index_of_Some in Hi. apply index_of_Some in Hj. split_and!.
  - lia.
  - apply lookup_lt_Some in Hi. unfold workspaceNames, sorted_keys in Hi.
    rewrite (Permutation_length (sort_strings_perm _)) length_map length_map_to_list in Hi. lia.
  - intros E. assert (i = j) as <- by lia. congruence.
  - intros Hlt. assert (i < j)%nat; [|lia]. destruct (decide (i < j)%nat) as [?|Hge]; [done|exfalso].
    destruct (decide (i = j)) as [<-|Hne].
    + rewrite Hi in Hj. injection Hj as <-. by rewrite strlt_irrefl in Hlt.
    + assert (j < i)%nat as Hji by lia.
      pose proof (sorted_lookup _ _ _ _ _ (sorted_keys_sorted (c_Workspaces cfg)) Hj Hi Hji) as Hs.
      unfold strle in Hs. rewrite Hlt in Hs. done.
Qed.

Section Directory.
Context (home cwd0 : option string) (cwd : string).

Definition cand (l : list (string * string)) (n p : string) : Prop :=
  ∃ raw, (n, raw) ∈ l ∧ absPath home cwd0 raw = Ok p ∧ pathMatchesCWD p cwd = true.
Record best_inv (l : list (string * string)) (b : cwd_best) : Prop := {
  bi_le : ∀ n p, cand l n p → (pathSegments p ≤ bestSegments b)%nat;
  bi_best : ∀ n, n ∈ best b ↔ ∃ p, cand l n p ∧ pathSegments p = bestSegments b;
  bi_path : match best b with [] => True | n :: _ => cand l n (bestMatchedPath b) ∧ pathSegments (bestMatchedPath b) = bestSegments b end;
  bi_none : best b = [] → ∀ n p, ¬ cand l n p
}.
Lemma cand_snoc l n raw n' p :
  cand (l ++ [(n, raw)]) n' p ↔ cand l n' p ∨ (n' = n ∧ absPath home cwd0 raw = Ok p ∧ pathMatchesCWD p cwd = true).
Proof.
  unfold cand. split.
  - intros (r & [H|H%list_elem_of_singleton]%elem_of_app & Ha & Hm); [left; by exists r|]. injection H as -> ->. by right.
  - intros [(r & H & Ha & Hm)|(-> & Ha & Hm)].
    + exists r. split_and!; [|done|done]. apply elem_of_app. by left.
    + exists raw. split_and!; [|done|done]. apply elem_of_app. right. by apply list_elem_of_singleton.
Qed.
Lemma best_inv_same l b n raw :
  (∀ n' p, cand (l ++ [(n, raw)]) n' p ↔ cand l n' p) → best_inv l b → best_inv (l ++ [(n, raw)]) b.
Proof.
  intros Hc [H1 H2 H3 H4]. split.
  - intros n' p. rewrite Hc. apply H1.
  - intros n'. rewrite H2. split; intros (p & Hp & ?); exists p; (split; [by apply Hc|done]).
  - destruct (best b); [done|]. by rewrite Hc.
  - intros He n' p. rewrite Hc. by apply H4.
Qed.
Lemma cwd_path_inv l b n raw : best_inv l b → best_inv (l ++ [(n, raw)]) (cwd_path home cwd0 cwd n b raw).
Proof.
  intros Hi. unfold cwd_path. destruct (absPath home cwd0 raw) as [p|e] eqn:Ea.
  2: { apply best_inv_same; [|done]. intros n' q. rewrite cand_snoc Ea. naive_solver. }
  destruct (pathMatchesCWD p cwd) eqn:Em; cbn [negb].
  2: { apply best_inv_same; [|done]. intros n' q. rewrite cand_snoc Ea. naive_solver congruence. }
  assert (∀ n' q, cand (l ++ [(n, raw)]) n' q ↔ cand l n' q ∨ (n' = n ∧ q = p)) as Hc.
  { intros n' q. rewrite cand_snoc Ea. naive_solver. }
  destruct Hi as [H1 H2 H3 H4].
  destruct (bool_decide (best b = []) || (bestSegments b <? pathSegments p)%nat) eqn:E.
  { assert (∀ n' q, cand l n' q → (pathSegments q < pathSegments p)%nat) as Hlt.
    { intros n' q Hq. apply orb_true_iff in E as [E|E]; bool_hyps; [by destruct (H4 E n' q)|]. specialize (H1 _ _ Hq). lia. }
    split; cbn [best bestSegments bestMatchedPath].
    - intros n' q [Hq|[_ ->]]%Hc; [|done]. specialize (Hlt _ _ Hq). lia.
    - intros n'. rewrite list_elem_of_singleton. split.
      + intros ->. exists p. split; [|done]. apply Hc. by right.
      + intros (q & [Hq|[-> _]]%Hc & Hs); [|done]. specialize (Hlt _ _ Hq). lia.
    - split; [|done]. apply Hc. by right.
    - done. }
  apply orb_false_iff in E as [E1 E2]. bool_hyps.
  destruct ((pathSegments p =? bestSegments b)%nat && negb (bool_decide (n ∈ best b))) eqn:E3.
  - bool_hyps. split; cbn [best bestSegments bestMatchedPath].
    + intros n' q [Hq|[_ ->]]%Hc; [by apply H1 in Hq|lia].
    + intros n'. rewrite elem_of_app list_elem_of_singleton H2. split.
      * intros [(q & Hq & Hs)| ->]; [exists q|exists p]; (split; [|done]); apply Hc; auto.
      * intros (q & [Hq|[-> _]]%Hc & Hs); [left; by exists q|by right].
    + destruct (best b) as [|n0 rest]; [done|]. cbn [app]. split; [|tauto]. apply Hc. tauto.
    + intros Hnil. destruct (best b); done.
  - assert (n ∈ best b ∨ pathSegments p < bestSegments b)%nat as Hor.
    { apply andb_false_iff in E3 as [E3|E3]; bool_hyps; [right; lia|by left]. }
    split.
    + intros n' q [Hq|[_ ->]]%Hc; [by apply H1 in Hq|lia].
    + intros n'. rewrite H2. split.
      * intros (q & Hq & Hs). exists q. split; [|done]. apply Hc. by left.
      * intros (q & [Hq|[-> ->]]%Hc & Hs); [by exists q|]. destruct Hor as [Hin|?]; [by apply H2|lia].
    + destruct (best b) as [|n0 rest]; [done|]. split; [|tauto]. apply Hc. tauto.
    + done.
Qed.
Lemma best_inv_init : best_inv [] {| best := []; bestMatchedPath := ""; bestSegments := 0 |}.
Proof.
  assert (∀ n p, ¬ cand [] n p) as Hn by (intros n p (r & H%elem_of_nil & _); done).
  split; cbn; [intros n p Hc; by destruct (Hn n p)| |done|done].
  intros n. split; [by intros ?%elem_of_nil|]. intros (p & Hc & _). by destruct (Hn n p).
Qed.
Lemma cwd_paths_inv n raws l b : best_inv l b → best_inv (l ++ map (λ r, (n, r)) raws) (foldl (cwd_path home cwd0 cwd n) b raws).
Proof.
  revert l b. induction raws as [|raw raws IH]; intros l b Hi; cbn [foldl map]; [by rewrite app_nil_r|].
  change ((n, raw) :: map (λ r, (n, r)) raws) with ([(n, raw)] ++ map (λ r, (n, r)) raws).
  rewrite app_assoc. apply IH. by apply cwd_path_inv.
Qed.
Definition ws_paths (cfg : Config) (name : string) : list (string * string) :=
  match c_Workspaces cfg !! name with Some ws => map (λ r, (name, r)) (ws_Paths ws) | None => [] end.
Lemma cwd_workspaces_inv cfg names l b :
  best_inv l b → best_inv (l ++ concat (map (ws_paths cfg) names)) (foldl (cwd_workspace home cwd0 cfg cwd) b names).
Proof.
  revert l b. induction names as [|n names IH]; intros l b Hi; cbn [foldl map concat]; [by rewrite app_nil_r|].
  rewrite app_assoc. apply IH. unfold cwd_workspace, ws_paths.
  destruct (c_Workspaces cfg !! n); [by apply cwd_paths_inv|by rewrite app_nil_r].
Qed.

(** A path of a workspace that contains the directory. *)
Definition covers_cwd (cfg : Config) (name p : string) : Prop :=
  ∃ ws raw, c_Workspaces cfg !! name = Some ws ∧ raw ∈ ws_Paths ws ∧ absPath home cwd0 raw = Ok p ∧ pathMatchesCWD p cwd = true.
Lemma cand_covers cfg name p : cand (concat (map (ws_paths cfg) (workspaceNames cfg))) name p ↔ covers_cwd cfg name p.
Proof.
  unfold cand, covers_cwd, workspaceNames. split.
  - intros (raw & H & Ha & Hm). rewrite list_elem_of_In in_concat in H.
    destruct H as (l & Hl & Hin). apply in_map_iff in Hl as (n & <- & _). unfold ws_paths in Hin.
    destruct (c_Workspaces cfg !! n) as [ws|] eqn:E; [|done]. apply in_map_iff in Hin as (r & [= -> ->] & Hr).
    exists ws, raw. split_and!; [done|by apply list_elem_of_In|done|done].
  - intros (ws & raw & Hw & Hr & Ha & Hm). exists raw. split_and!; [|done|done].
    rewrite list_elem_of_In in_concat. exists (ws_paths cfg name). split.
    + apply in_map_iff. exists name. split; [done|]. apply list_elem_of_In, elem_of_sorted_keys. by exists ws.
    + unfold ws_paths. rewrite Hw. apply in_map_iff. exists raw. split; [done|]. by apply list_elem_of_In.
Qed.

(** The workspace of a directory is the one with the deepest path that
    contains it: every path of another workspace that contains the directory is
    strictly shallower, and with no such path at all there is no match. *)
Theorem ResolveFromCWD_deepest ParseVolume files cfg :
  (∀ r p, ResolveFromCWD home cwd0 ParseVolume files cfg cwd = Ok (r, p) →
    ∃ name, Resolve home cwd0 ParseVolume files cfg name = Ok r ∧ covers_cwd cfg name p ∧
    ∀ n q, covers_cwd cfg n q → (n = name ∧ (pathSegments q ≤ pathSegments p)%nat) ∨ (pathSegments q < pathSegments p)%nat) ∧
  ((∀ n q, ¬ covers_cwd cfg n q) → ResolveFromCWD home cwd0 ParseVolume files cfg cwd = Err (EOther "no matching workspace" [cwd])).
Proof.
  pose proof (cwd_workspaces_inv cfg (workspaceNames cfg) _ _ best_inv_init) as H. cbn [app] in H.
  change (best_inv (concat (map (ws_paths cfg) (workspaceNames cfg))) (cwd_choice home cwd0 cfg cwd)) in H.
  unfold ResolveFromCWD. generalize dependent (cwd_choice home cwd0 cfg cwd). intros b [H1 H2 H3 H4].
  destruct (best b) as [|n0 rest] eqn:Eb.
  { by split. }
  destruct H3 as [Hc Hs]. assert (¬ ∀ n q, ¬ covers_cwd cfg n q) as Hne by (intros Hn; by apply (Hn n0 (bestMatchedPath b)), cand_covers).
  destruct rest as [|n1 rest].
  2: { split; [done|]. by intros Hn; destruct (Hne Hn). }
  split; [|by intros Hn; destruct (Hne Hn)].
  intros r p HR. apply bind_Ok in HR as (r' & Hr & HR). injection HR as -> <-. exists n0. split_and!; [done|by apply cand_covers|].
  intros n q Hq. apply cand_covers in Hq. pose proof (H1 _ _ Hq) as Hle.
  destruct (decide (pathSegments q = bestSegments b)) as [He|Hn]; [left|right; lia].
  split; [|lia]. assert (n ∈ [n0]) as Hin by (apply H2; by exists q). by apply list_elem_of_singleton in Hin.
Qed.
End Directory.

(** ** Witnesses *)

Definition two_workspaces : Config :=
  simple_config zeroDefaults {["a" := ws_expanded zeroWorkspace ["/src"] "" "" [] {| sec_Env := ∅; sec_File := ∅ |} [] [];
                              "b" := ws_expanded zeroWorkspace ["/src/b"; "/x"] "" "" [] {| sec_Env := ∅; sec_File := ∅ |} [] []]}.
Definition no_files : string → option string := λ _, None.

Lemma validated_agent_resolves_witness :
  is_ok (resolveAgent (simple_config zeroDefaults {["proj" := example_ws']}) example_ws') = true.
Proof.
  refine (validated_agent_resolves (Some "/h") simple_volume no_files (λ _, None) (λ _, None) (λ s, s)
    (simple_config zeroDefaults {["proj" := example_ws]}) (simple_config zeroDefaults {["proj" := example_ws']}) "proj" example_ws' _ _);
    vm_compute; reflexivity.
Defined.
Lemma Resolve_env_witness :
  let cfg := simple_config zeroDefaults {["proj" := example_ws']} in
  ∃ r, Resolve (Some "/h") (Some "/") simple_volume no_files cfg "proj" = Ok r ∧
  ∃ ws entries, c_Workspaces cfg !! "proj" = Some ws ∧
    rmap (ParseEnvFile no_files) (dedup (d_EnvFile (c_Defaults cfg) ++ ws_EnvFile ws)) = Ok entries ∧
    NoDup (map env_key (r_Env r)) ∧
    (∀ e, e ∈ r_Env r ↔ last_entry (env_key e) (d_Env (c_Defaults cfg) ++ concat entries ++ ws_Env ws) = Some e) ∧
    Forall (λ e, env_key e ≠ "" ∧ reservedEnvKey (env_key e) = false) (r_Env r).
Proof.
  intros cfg. destruct (Resolve (Some "/h") (Some "/") simple_volume no_files cfg "proj") as [r|e] eqn:E; [|by vm_compute in E].
  exists r. split; [reflexivity|].
  refine (Resolve_env (Some "/h") (Some "/") simple_volume no_files (λ _, None) (λ _, None) (λ s, s)
    (simple_config zeroDefaults {["proj" := example_ws]}) cfg "proj" r _ E). vm_compute. reflexivity.
Defined.
Lemma PortForWorkspace_distinct_witness :
  BasePort ≤ PortForWorkspace two_workspaces "a" < BasePort + Z.of_nat (size (c_Workspaces two_workspaces)) ∧
  (PortForWorkspace two_workspaces "a" = PortForWorkspace two_workspaces "b" → "a" = "b") ∧
  (strlt "a" "b" = true → PortForWorkspace two_workspaces "a" < PortForWorkspace two_workspaces "b").
Proof.
  refine (PortForWorkspace_distinct two_workspaces "a" "b" _ _); vm_compute; by eexists.
Defined.
Lemma ResolveFromCWD_deepest_witness :
  (∃ r, ResolveFromCWD (Some "/h") (Some "/") simple_volume no_files two_workspaces "/src/b/c" = Ok (r, "/src/b")) ∧
  (∀ r p, ResolveFromCWD (Some "/h") (Some "/") simple_volume no_files two_workspaces "/src/b/c" = Ok (r, p) →
    ∃ name, Resolve (Some "/h") (Some "/") simple_volume no_files two_workspaces name = Ok r ∧
      covers_cwd (Some "/h") (Some "/") "/src/b/c" two_workspaces name p ∧
    ∀ n q, covers_cwd (Some "/h") (Some "/") "/src/b/c" two_workspaces n q →
      (n = name ∧ (pathSegments q ≤ pathSegments p)%nat) ∨ (pathSegments q < pathSegments p)%nat).
Proof.
  split; [eexists; vm_compute; reflexivity|].
  exact (proj1 (ResolveFromCWD_deepest (Some "/h") (Some "/") "/src/b/c" simple_volume no_files two_workspaces)).
Defined.

(** ** A configuration that validates with an empty filter

    [Validate] asks for blocked zones by length, over both scopes, while
    [Resolve] takes the workspace's list whenever it is set. A workspace that
    sets an empty list under defaults that name zones passes, and resolves to
    filtered DNS without any zone. *)

Definition unfiltered_ws : Workspace :=
  {| ws_Backend := ""; ws_Agent := ""; ws_Agents := ∅; ws_Paths := []; ws_Mounts := []; ws_Snapshots := []; ws_AllowedHosts := [];
     ws_AllowedNetworks := []; ws_Env := []; ws_EnvFile := []; ws_Secrets := {| sec_Env := ∅; sec_File := ∅ |};
     ws_BuildContext := ""; ws_Dockerfile := ""; ws_Image := ""; ws_SSHAuthSock := None; ws_GPGAgent := None; ws_GitConfig := None;
     ws_CPU := None; ws_Memory := None; ws_DockerDisk := None; ws_ExposePort := None; ws_EnableDocker := None;
     ws_FilteredDNS := Some true; ws_DNSUpstream := "10.0.0.2"; ws_DNSBlockedZones := Some []; ws_CABundle := None;
     ws_IsolatedBuild := None; ws_ProtectGit := None; ws_Ports := []; ws_HostPorts := [] |}.
Definition zones_defaults : Defaults :=
  {| d_Backend := ""; d_Agent := ""; d_Agents := ∅; d_Env := []; d_EnvFile := []; d_Mounts := []; d_Snapshots := [];
     d_AllowedHosts := []; d_AllowedNetworks := []; d_Secrets := {| sec_Env := ∅; sec_File := ∅ |}; d_Image := "";
     d_SSHAuthSock := false; d_GPGAgent := false; d_GitConfig := None; d_CPU := None; d_Memory := None; d_DockerDisk := None;
     d_ExposePort := None; d_EnableDocker := None; d_FilteredDNS := None; d_DNSUpstream := ""; d_DNSBlockedZones := Some ["corp.example.com"];
     d_CABundle := None; d_IsolatedBuild := None; d_ProtectGit := None; d_Ports := []; d_HostPorts := [] |}.
Lemma filtered_dns_without_zones :
  let cfg := simple_config zones_defaults {["w" := unfiltered_ws]} in
  Validate (Some "/h") simple_volume no_files (λ _, None) (λ _, None) (λ s, s) cfg = Ok cfg ∧
  match Resolve (Some "/h") (Some "/") simple_volume no_files cfg "w" with
  | Ok r => r_FilteredDNS r = true ∧ r_DNSBlockedZones r = Some []
  | Err _ => False
  end.
Proof. vm_compute. done. Qed.
