(* ===== verification/Dns.v ===== *)
(** * Gateway services: DNS and DHCP

    [src/internal/netbroker/services.go]. The DNS message parser of
    golang.org/x/net is an argument [Parse]: what its sections yield, record by
    record, is a [Message]. A record whose body can be neither read nor
    skipped stays current, so [logDNS], which ignores those errors, asks for
    it again without end; [log_answers] has no result then. [exchange], the
    round trip with one upstream, is an argument of [resolve]; its framing
    over TCP and that of [serveDNSTCP] are modelled on byte streams. *)

From S2P Require Import Prelude GoStrings NetAddr Policy SessionWire.
Open Scope string_scope.
Open Scope list_scope.
Open Scope Z_scope.

(** ** Messages *)

Inductive rtype := TypeA | TypeAAAA | TypeCNAME | TypeOther.
#[export] Instance rtype_eq_dec : EqDecision rtype.
Proof. solve_decision. Defined.
(** [rr_skips]: whether skipping the record succeeds; [rr_addr], [rr_cname]:
    what [AResource], [AAAAResource] and [CNAMEResource] return. *)
Record rr := { rr_Name : string; rr_Type : rtype; rr_skips : bool; rr_addr : option string; rr_cname : option string }.
(** A section: its records up to the end of the section or a header error. *)
Record section := { records : list rr; section_done : bool }.
Record Message := {
  m_question : option (string * string);       (* Question: name and type *)
  m_questions : option (list string);          (* AllQuestions *)
  m_sections : list section                    (* answer, authority, additional *)
}.

Inductive dns_event :=
| EvDnsMalformed (network : string)
| EvDnsBlocked (network name : string)
| EvDnsError (network : string) (question : option (string * string))
| EvDnsAnswers (network : string) (question : option (string * string)) (answers : list string).

(** ** Error replies *)

Definition dnsError (q : bytes) (rcode : Z) : option bytes :=
  if blen q <? 12 then None else
  Some (alter (λ x, Z.lor (Z.land x 240) rcode) 3%nat (alter (λ x, Z.lor x 128) 2%nat q)).
Definition nxdomain (q : bytes) : option bytes := dnsError q 3.
Definition servfail (q : bytes) : option bytes := dnsError q 2.

Section Resolver.
Context (lowerU : string → string) (Parse : bytes → option Message).
Notation blocked := (blocked lowerU).

Definition singleQuestion (q : bytes) : option string :=
  match Parse q with
  | None => None
  | Some m => match m_questions m with Some [name] => Some name | _ => None end
  end.

(** The record loop of [blockedAnswer]: [None] is a failure, [Some ""] no
    blocked name so far. *)
Fixpoint blocked_records (p : Policy) (rs : list rr) : option string :=
  match rs with
  | [] => Some ""
  | r :: rs' =>
      if blocked (Some p) (rr_Name r) then Some (rr_Name r) else
      if bool_decide (rr_Type r ≠ TypeCNAME) then (if rr_skips r then blocked_records p rs' else None) else
      match rr_cname r with
      | None => None
      | Some c => if blocked (Some p) c then Some c else blocked_records p rs'
      end
  end.
Fixpoint blocked_sections (p : Policy) (ss : list section) : option string :=
  match ss with
  | [] => Some ""
  | s :: ss' =>
      match blocked_records p (records s) with
      | None => None
      | Some name =>
          if negb (String.eqb name "") then Some name
          else if section_done s then blocked_sections p ss' else None
      end
  end.
Definition blockedAnswer (p : Policy) (resp : bytes) : option string :=
  match Parse resp with
  | None => None
  | Some m =>
      match m_questions m with
      | None => None
      | Some qs =>
          match List.find (blocked (Some p)) qs with
          | Some q => Some q
          | None => blocked_sections p (m_sections m)
          end
      end
  end.

(** ** The log *)

(** The answer loop of [logDNS]; [None] when it does not end. *)
Fixpoint log_answers (rs : list rr) : option (list string) :=
  match rs with
  | [] => Some []
  | r :: rs' =>
      match rr_Type r with
      | TypeA | TypeAAAA => match rr_addr r with Some a => (cons a) <$> log_answers rs' | None => None end
      | _ => if rr_skips r then log_answers rs' else None
      end
  end.
Definition logDNS (network : string) (q : bytes) (resp : option bytes) : option dns_event :=
  let question := match Parse q with Some m => m_question m | None => None end in
  match resp with
  | None => Some (EvDnsError network question)
  | Some r =>
      EvDnsAnswers network question <$>
      match Parse r with
      | Some m => match m_sections m with s :: _ => log_answers (records s) | [] => Some [] end
      | None => Some []
      end
  end.

(** ** resolve *)

Section Upstreams.
(** [HostDNS], when set, and the configured fallback. *)
Context (DNSFallback : list AddrPort) (HostDNS : option (list AddrPort)).
Definition upstreams (p : option Policy) : list AddrPort :=
  let fallback := if bool_decide (DNSFallback ≠ []) then DNSFallback else default DNSFallback HostDNS in
  match p with
  | Some p => if (0 <? length (dnsUpstreams p))%nat then dnsUpstreams p else fallback
  | None => fallback
  end.

Context (exchange : string → AddrPort → bytes → option bytes).
Definition is_filtered (p : option Policy) : bool :=
  match p with Some p => (0 <? length (blockedZones p))%nat | None => false end.
Fixpoint first_answer (network : string) (ups : list AddrPort) (q : bytes) : option bytes :=
  match ups with
  | [] => None
  | up :: ups' => match exchange network up q with Some r => Some r | None => first_answer network ups' q end
  end.
(** The policy is loaded twice: [p] decides, [p_up] names the upstreams. The
    result is the reply, if any, and the log; [None] if the call never returns. *)
Definition resolve (p p_up : option Policy) (network : string) (q : bytes) : option (option bytes * list dns_event) :=
  match (if is_filtered p then
           match singleQuestion q with
           | None => Some (dnsError q 1, [EvDnsMalformed network])
           | Some name => if blocked p name then Some (nxdomain q, [EvDnsBlocked network name]) else None
           end
         else None) with
  | Some r => Some r
  | None =>
      let resp := first_answer network (upstreams p_up) q in
      match logDNS network q resp with
      | None => None
      | Some ev =>
          match resp with
          | None => Some (servfail q, [ev])
          | Some r =>
              match p with
              | Some pol =>
                  if is_filtered p then
                    match blockedAnswer pol r with
                    | None => Some (servfail q, [ev])
                    | Some name => if negb (String.eqb name "") then Some (nxdomain q, [ev; EvDnsBlocked network name])
                                   else Some (Some r, [ev])
                    end
                  else Some (Some r, [ev])
              | None => Some (Some r, [ev])
              end
          end
      end
  end.
End Upstreams.
End Resolver.

(** ** DNS over TCP *)

(** A message with its two-byte length, and reading one back. *)
Definition tcp_frame (m : bytes) : bytes := be16 (blen m) ++ m.
Definition tcp_read (r : bytes) : option (bytes * bytes) :=
  match ReadFull r 2 with
  | Err _ => None
  | Ok (l, r) => match ReadFull r (Z.to_nat (rd16 l)) with Err _ => None | Ok m => Some m end
  end.
(** The connection loop over what the guest sends; [answer] is [resolve]. A
    round reads at least the length, so the bytes bound the rounds. *)
Fixpoint serveDNSTCP_loop (answer : bytes → option bytes) (fuel : nat) (r : bytes) : bytes :=
  match fuel with
  | O => []
  | S fuel' =>
      match tcp_read r with
      | None => []
      | Some (q, r) => match answer q with
                       | None => []
                       | Some resp => tcp_frame resp ++ serveDNSTCP_loop answer fuel' r
                       end
      end
  end.
Definition serveDNSTCP (answer : bytes → option bytes) (r : bytes) : bytes := serveDNSTCP_loop answer (S (length r)) r.

(** ** DHCP *)

Definition dhcpDiscover : Z := 1.
Definition dhcpOffer : Z := 2.
Definition dhcpRequest : Z := 3.
Definition dhcpAck : Z := 5.
Definition dhcpCookie : bytes := [99; 130; 83; 99].

(** The option loop: the last well-formed message type. Every round drops at
    least one byte. [None] is the malformed option the code gives up on. *)
Fixpoint dhcp_options (fuel : nat) (msgType : Z) (opts : bytes) : option Z :=
  match fuel, opts with
  | _, [] => Some msgType
  | O, _ => None
  | S fuel', code :: rest =>
      if code =? 255 then Some msgType else
      if code =? 0 then dhcp_options fuel' msgType rest else
      match rest with
      | [] => None
      | len :: body =>
          if blen opts <? 2 + len then None else
          let msgType := if (code =? 53) && (len =? 1) then nth 0 body 0 else msgType in
          dhcp_options fuel' msgType (drop (Z.to_nat len) body)
      end
  end.
Record dhcp_config := { dc_Gateway : Z; dc_GuestIP : Z; dc_Bits : Z; dc_MTU : Z }.
(** [net.CIDRMask(bits, 32)] as a number. *)
Definition cidr_mask (bits : Z) : Z := Z.shiftl (Z.ones bits) (32 - bits).
Definition dhcp_reply_type (msgType : Z) : option Z :=
  if msgType =? dhcpDiscover then Some dhcpOffer else if msgType =? dhcpRequest then Some dhcpAck else None.
Definition dhcp_head (c : dhcp_config) (req : bytes) : bytes :=
  blit 236 dhcpCookie (blit 28 (slice req 28 44) (blit 20 (be32 (dc_Gateway c)) (blit 16 (be32 (dc_GuestIP c))
    (blit 10 (slice req 10 12) (blit 4 (slice req 4 8) (blit 0 [2; 1; 6] (replicate 240 0))))))).
Definition dhcp_tail (c : dhcp_config) (replyType : Z) : bytes :=
  let gw := be32 (dc_Gateway c) in
  [53; 1; replyType] ++ [54; 4] ++ gw ++ [51; 4; 0; 1; 81; 128] ++ [1; 4] ++ be32 (cidr_mask (dc_Bits c)) ++
  [3; 4] ++ gw ++ [6; 4] ++ gw ++ [26; 2] ++ be16 (dc_MTU c) ++ [255].
Definition dhcpReply (c : dhcp_config) (req : bytes) : option bytes :=
  if (blen req <? 240) || negb (nth 0 req 0 =? 1) || negb (bool_decide (slice req 236 240 = dhcpCookie)) then None else
  match dhcp_options (length req) 0 (drop 240 req) with
  | None => None
  | Some msgType =>
      match dhcp_reply_type msgType with
      | None => None
      | Some replyType =>
          let r := dhcp_head c req ++ dhcp_tail c replyType in
          Some (r ++ replicate (300 - length r) 0)
      end
  end.

Definition lab_dhcp : dhcp_config := {| dc_Gateway := 3232268033; dc_GuestIP := 3232268034; dc_Bits := 24; dc_MTU := 1500 |}.
Definition discover : bytes := blit 236 dhcpCookie (blit 4 [9; 8; 7; 6] (blit 0 [1; 1; 6] (replicate 240 0))) ++ [53; 1; 1; 0; 255].
Example dhcp_ex :
  match dhcpReply lab_dhcp discover with
  | Some r => length r = 300%nat ∧ slice r 16 20 = [192; 168; 127; 2] ∧ slice r 240 243 = [53; 1; 2] ∧
              slice r 255 261 = [1; 4; 255; 255; 255; 0]
  | None => False
  end.
Proof. by vm_compute. Qed.

(** ** What filtering lets through *)

Section Filtering.
Context (lowerU : string → string) (Parse : bytes → option Message).

Definition clean (p : Policy) (name : string) : Prop := blocked lowerU (Some p) name = false.
Definition record_clean (p : Policy) (r : rr) : Prop :=
  clean p (rr_Name r) ∧ (rr_Type r = TypeCNAME → ∃ c, rr_cname r = Some c ∧ clean p c).
Definition message_clean (p : Policy) (m : Message) : Prop :=
  (∃ qs, m_questions m = Some qs ∧ Forall (clean p) qs) ∧
  Forall (λ s, section_done s = true ∧ Forall (record_clean p) (records s)) (m_sections m).

Lemma blocked_nonempty p name : "" ∉ blockedZones p → blocked lowerU (Some p) name = true → name ≠ "".
Proof.
  intros Hz Hb ->. unfold blocked in Hb. cbn in Hb. apply existsb_exists in Hb as (z & Hin & Hz').
  change (String.eqb "" z || HasSuffix "" ("." +:+ z) = true) in Hz'.
  apply orb_true_iff in Hz' as [H|H].
  - apply String.eqb_eq in H as <-. apply Hz. by apply list_elem_of_In.
  - apply HasSuffix_spec in H as [r H]. destruct r; discriminate H.
Qed.
Lemma blocked_records_clean p rs :
  "" ∉ blockedZones p → blocked_records lowerU p rs = Some "" → Forall (record_clean p) rs.
Proof.
  intros Hz. induction rs as [|r rs IH]; [by constructor|]. cbn [blocked_records].
  destruct (blocked lowerU (Some p) (rr_Name r)) eqn:Hn.
  { intros [= E]. by destruct (blocked_nonempty p _ Hz Hn). }
  destruct (decide (rr_Type r = TypeCNAME)) as [Ht|Ht].
  - rewrite bool_decide_eq_false_2; [|tauto]. destruct (rr_cname r) as [c|] eqn:Hc; [|done].
    destruct (blocked lowerU (Some p) c) eqn:Hb; [intros [= E]; by destruct (blocked_nonempty p _ Hz Hb)|].
    intros H. constructor; [|by apply IH]. split; [done|]. intros _. by exists c.
  - rewrite bool_decide_eq_true_2; [|done]. destruct (rr_skips r); [|done].
    intros H. constructor; [|by apply IH]. by split.
Qed.
Lemma blocked_sections_clean p ss :
  "" ∉ blockedZones p → blocked_sections lowerU p ss = Some "" →
  Forall (λ s, section_done s = true ∧ Forall (record_clean p) (records s)) ss.
Proof.
  intros Hz. induction ss as [|s ss IH]; [by constructor|]. cbn [blocked_sections].
  destruct (blocked_records lowerU p (records s)) as [name|] eqn:Hr; [|done].
  destruct (String.eqb_spec name "") as [->|Hne]; cbn [negb]; [|intros [= ->]; done].
  destruct (section_done s) eqn:Hd; [|done]. intros H. constructor; [|by apply IH].
  split; [done|]. by apply blocked_records_clean.
Qed.
Lemma blockedAnswer_clean p resp :
  "" ∉ blockedZones p → blockedAnswer lowerU Parse p resp = Some "" → ∃ m, Parse resp = Some m ∧ message_clean p m.
Proof.
  intros Hz. unfold blockedAnswer. destruct (Parse resp) as [m|]; [|done].
  destruct (m_questions m) as [qs|] eqn:Hq; [|done].
  destruct (List.find (blocked lowerU (Some p)) qs) as [q|] eqn:Hf.
  { intros [= ->]. apply List.find_some in Hf as [_ Hb]. by destruct (blocked_nonempty p _ Hz Hb). }
  intros H. exists m. split; [done|]. split; [|by apply blocked_sections_clean].
  exists qs. split; [done|]. apply Forall_forall. intros q Hin. apply (List.find_none _ _ Hf). by apply list_elem_of_In.
Qed.

Context (DNSFallback : list AddrPort) (HostDNS : option (list AddrPort)) (exchange : string → AddrPort → bytes → option bytes).
Notation resolve := (resolve lowerU Parse DNSFallback HostDNS exchange).
Notation upstreams := (upstreams DNSFallback HostDNS).

Lemma first_answer_Some network ups q r :
  first_answer exchange network ups q = Some r → ∃ up, up ∈ ups ∧ exchange network up q = Some r.
Proof.
  induction ups as [|up ups IH]; [done|]. cbn. destruct (exchange network up q) as [r'|] eqn:E.
  - intros [= <-]. exists up. split; [constructor|done].
  - intros H. destruct (IH H) as (up' & ? & ?). exists up'. split; [by constructor|done].
Qed.

(** C32: with blocked zones the guest receives either an error made from its own
    query or an upstream answer to a query with exactly one question, outside
    the blocked zones, in which no question, record owner or alias target of
    any section lies in a blocked zone. The policy may be replaced while the
    query runs. *)
Theorem resolve_no_blocked p p_up network q resp evs :
  blockedZones p ≠ [] → "" ∉ blockedZones p → resolve (Some p) p_up network q = Some (Some resp, evs) →
  (∃ rcode, rcode ∈ [1; 2; 3] ∧ dnsError q rcode = Some resp) ∨
  (∃ name m up, singleQuestion Parse q = Some name ∧ clean p name ∧ up ∈ upstreams p_up ∧
     exchange network up q = Some resp ∧ Parse resp = Some m ∧ message_clean p m).
Proof.
  intros Hne Hz. unfold Dns.resolve. assert (is_filtered (Some p) = true) as -> by (cbn; by destruct (blockedZones p)).
  destruct (singleQuestion Parse q) as [name|] eqn:Hq.
  2: { intros [= H _]. left. exists 1. split; [constructor|done]. }
  destruct (blocked lowerU (Some p) name) eqn:Hb.
  { intros [= H _]. left. exists 3. split; [|done]. set_solver. }
  destruct (logDNS Parse network q (first_answer exchange network (upstreams p_up) q)) as [ev|]; [|done].
  destruct (first_answer exchange network (upstreams p_up) q) as [r|] eqn:Hf.
  2: { intros [= H _]. left. exists 2. split; [|done]. set_solver. }
  destruct (blockedAnswer lowerU Parse p r) as [bad|] eqn:Ha.
  2: { intros [= H _]. left. exists 2. split; [|done]. set_solver. }
  destruct (String.eqb_spec bad "") as [->|Hbad]; cbn [negb].
  - intros [= <- _]. right. destruct (blockedAnswer_clean p r Hz Ha) as (m & Hm & Hc).
    destruct (first_answer_Some _ _ _ _ Hf) as (up & Hup & Hx). exists name, m, up. by split_and!.
  - intros [= H _]. left. exists 3. split; [|done]. set_solver.
Qed.

(** A query for a blocked name never leaves the host: whatever the
    upstreams would answer it is refused with NXDOMAIN and logged as blocked. *)
Theorem blocked_query_stays p p_up network q name :
  blockedZones p ≠ [] → singleQuestion Parse q = Some name → blocked lowerU (Some p) name = true →
  resolve (Some p) p_up network q = Some (nxdomain q, [EvDnsBlocked network name]).
Proof.
  intros Hne Hq Hb. unfold Dns.resolve. assert (is_filtered (Some p) = true) as -> by (cbn; by destruct (blockedZones p)).
  by rewrite Hq Hb.
Qed.
End Filtering.

(** ** Replies *)

Lemma set_qr_byte a : is_byte a → is_byte (Z.lor a 128) ∧ Z.testbit (Z.lor a 128) 7 = true ∧ Z.lor a 128 mod 128 = a mod 128.
Proof.
  intros H. pose proof (byte_check (λ a, (0 <=? Z.lor a 128) && (Z.lor a 128 <? 256) && Z.testbit (Z.lor a 128) 7 &&
    (Z.lor a 128 mod 128 =? a mod 128)) a ltac:(by vm_compute) H) as Hc. cbv beta in Hc. bool_hyps. by split_and!.
Qed.
Lemma set_rcode_byte rcode a :
  0 ≤ rcode < 16 → is_byte a →
  is_byte (Z.lor (Z.land a 240) rcode) ∧ Z.lor (Z.land a 240) rcode mod 16 = rcode ∧ Z.lor (Z.land a 240) rcode / 16 = a / 16.
Proof.
  intros Hr H.
  pose proof (byte_check (λ a, forallb (λ r, let x := Z.lor (Z.land a 240) r in
    (0 <=? x) && (x <? 256) && (x mod 16 =? r) && (x / 16 =? a / 16)) (map Z.of_nat (List.seq 0 16))) a ltac:(by vm_compute) H) as Hc.
  cbv beta in Hc. rewrite List.forallb_forall in Hc. specialize (Hc rcode). cbv zeta in Hc.
  assert (In rcode (map Z.of_nat (List.seq 0 16))) as Hin.
  { apply in_map_iff. exists (Z.to_nat rcode). split; [lia|]. apply in_seq. lia. }
  specialize (Hc Hin). bool_hyps. by split_and!.
Qed.

(** An error reply repeats the query and changes only the response bit and
    the response code; a query without a whole header gets none. *)
Theorem dnsError_reply q rcode :
  Forall is_byte q → 0 ≤ rcode < 16 →
  match dnsError q rcode with
  | None => (length q < 12)%nat
  | Some r => (12 ≤ length q)%nat ∧ length r = length q ∧ Forall is_byte r ∧
      (∀ i, i ≠ 2%nat → i ≠ 3%nat → r !! i = q !! i) ∧
      (∀ a b, q !! 2%nat = Some a → r !! 2%nat = Some b → Z.testbit b 7 = true ∧ b mod 128 = a mod 128) ∧
      (∀ a b, q !! 3%nat = Some a → r !! 3%nat = Some b → b mod 16 = rcode ∧ b / 16 = a / 16)
  end.
Proof.
  intros Hq Hrc. unfold dnsError, blen. destruct (Z.ltb_spec (Z.of_nat (length q)) 12); [lia|].
  split_and!.
  - lia.
  - by rewrite !length_alter.
  - apply Forall_alter; [apply Forall_alter; [done|]|]; intros x _ Hx.
    + apply (set_qr_byte _ Hx).
    + apply (set_rcode_byte _ _ Hrc Hx).
  - intros i H2 H3. rewrite list_lookup_alter_ne; [|congruence]. rewrite list_lookup_alter_ne; [done|congruence].
  - intros a b Ha. rewrite list_lookup_alter_ne; [|done]. rewrite list_lookup_alter_eq Ha. intros [= <-].
    rewrite Forall_forall in Hq. apply set_qr_byte, Hq. eapply list_elem_of_lookup_2; eassumption.
  - intros a b Ha. rewrite list_lookup_alter_eq list_lookup_alter_ne; [|done]. rewrite Ha. intros [= <-].
    rewrite Forall_forall in Hq. apply set_rcode_byte; [done|]. apply Hq. eapply list_elem_of_lookup_2; eassumption.
Qed.

(** ** Queries over TCP *)

Lemma tcp_read_frame m rest : blen m < 65536 → tcp_read (tcp_frame m ++ rest) = Some (m, rest).
Proof.
  intros Hm. unfold tcp_read, tcp_frame. rewrite -app_assoc.
  pose proof (ReadFull_app (be16 (blen m)) (m ++ rest)) as H1. rewrite length_be16 in H1. rewrite H1.
  assert (rd16 (be16 (blen m)) = blen m) as ->.
  { rewrite -(app_nil_r (be16 _)) rd16_be16. apply wrap_small. unfold blen in *. lia. }
  unfold blen. rewrite Nat2Z.id. by rewrite ReadFull_app.
Qed.
Lemma length_tcp_frame m : length (tcp_frame m) = (2 + length m)%nat.
Proof. done. Qed.
(** The replies of one connection: up to the first query without one. *)
Fixpoint answered (answer : bytes → option bytes) (qs : list bytes) : list bytes :=
  match qs with
  | [] => []
  | q :: qs' => match answer q with Some r => r :: answered answer qs' | None => [] end
  end.
Lemma serveDNSTCP_loop_answers answer qs tail fuel :
  Forall (λ q, blen q < 65536) qs → tcp_read tail = None → (length (concat (map tcp_frame qs) ++ tail) < fuel)%nat →
  serveDNSTCP_loop answer fuel (concat (map tcp_frame qs) ++ tail) = concat (map tcp_frame (answered answer qs)).
Proof.
  intros Hq Ht. revert fuel. induction Hq as [|q qs Hq _ IH]; intros fuel Hf; (destruct fuel as [|fuel]; [lia|]).
  - cbn [map concat app serveDNSTCP_loop]. by rewrite Ht.
  - cbn [map concat] in *. rewrite -app_assoc in Hf |- *. cbn [serveDNSTCP_loop]. rewrite tcp_read_frame; [|done].
    cbn [answered]. destruct (answer q) as [r|]; [|done]. cbn [map concat]. rewrite IH; [done|].
    rewrite length_app length_tcp_frame in Hf. lia.
Qed.

(** Over TCP every complete query of a connection gets its framed reply, in
    order, until one has none or the guest stops. *)
Theorem serveDNSTCP_answers answer qs tail :
  Forall (λ q, blen q < 65536) qs → tcp_read tail = None →
  serveDNSTCP answer (concat (map tcp_frame qs) ++ tail) = concat (map tcp_frame (answered answer qs)).
Proof. intros Hq Ht. apply serveDNSTCP_loop_answers; [done|done|lia]. Qed.

(** ** Leases *)

(** The option loop never runs out of fuel: its result is that of any larger
    bound. *)
Lemma dhcp_options_fuel fuel fuel' t opts :
  Forall is_byte opts → (length opts ≤ fuel)%nat → (length opts ≤ fuel')%nat → dhcp_options fuel t opts = dhcp_options fuel' t opts.
Proof.
  revert fuel' t opts. induction fuel as [|fuel IH]; intros fuel' t opts Hb H1 H2.
  { destruct opts; [by destruct fuel'|cbn in H1; lia]. }
  destruct opts as [|code rest]; [by destruct fuel'|]. cbn in H1, H2. destruct fuel' as [|fuel']; [lia|]. cbn [dhcp_options].
  apply Forall_cons in Hb as [_ Hb]. destruct (code =? 255); [done|]. destruct (code =? 0); [apply IH; [done|lia..]|].
  destruct rest as [|len body]; [done|]. destruct (_ <? _); [done|]. apply Forall_cons in Hb as [_ Hb].
  cbn in H1, H2. apply IH; [by apply Forall_drop|rewrite length_drop; lia..].
Qed.

Lemma slice_blit_eq {A} i (x b : list A) k j :
  (i + length x ≤ length b)%nat → k = i → j = (i + length x)%nat → slice (blit i x b) k j = x.
Proof. intros H -> ->. by apply slice_blit_same. Qed.

Section Lease.
Context (c : dhcp_config) (req : bytes).
Hypothesis (Hlen : (240 ≤ length req)%nat).

Ltac lens := repeat first [rewrite length_blit | rewrite length_slice | rewrite length_replicate | rewrite length_be32];
  cbn [length dhcpCookie]; lia.
Lemma length_dhcp_head : length (dhcp_head c req) = 240%nat.
Proof using Hlen. unfold dhcp_head. lens. Qed.
Ltac field := repeat (rewrite slice_blit_ne; [|lens|lens]); apply slice_blit_eq; lens.
Lemma dhcp_head_fields :
  slice (dhcp_head c req) 4 8 = slice req 4 8 ∧ slice (dhcp_head c req) 10 12 = slice req 10 12 ∧
  slice (dhcp_head c req) 16 20 = be32 (dc_GuestIP c) ∧ slice (dhcp_head c req) 20 24 = be32 (dc_Gateway c) ∧
  slice (dhcp_head c req) 28 44 = slice req 28 44 ∧ slice (dhcp_head c req) 236 240 = dhcpCookie ∧
  slice (dhcp_head c req) 0 3 = [2; 1; 6].
Proof using Hlen. unfold dhcp_head. split_and!; field. Qed.
End Lease.

Lemma padded_length (h t : bytes) :
  length h = 240%nat → length t = 38%nat → length ((h ++ t) ++ replicate (300 - length (h ++ t)) 0) = 300%nat.
Proof. intros H1 H2. rewrite !length_app length_replicate H1 H2. done. Qed.

(** Every DHCP reply leases the configured guest address with the broker
    as gateway and resolver, echoes the transaction and hardware address of the
    request, has the minimal message size and carries options a client reads
    back as an offer to a discovery or an acknowledgement of a request; nothing
    else is answered. *)
Theorem dhcpReply_lease c req r :
  dhcpReply c req = Some r →
  length r = 300%nat ∧ slice r 16 20 = be32 (dc_GuestIP c) ∧ slice r 20 24 = be32 (dc_Gateway c) ∧
  slice r 4 8 = slice req 4 8 ∧ slice r 28 44 = slice req 28 44 ∧ slice r 236 240 = dhcpCookie ∧
  ∃ msgType replyType, dhcp_options (length req) 0 (drop 240 req) = Some msgType ∧
    ((msgType = dhcpDiscover ∧ replyType = dhcpOffer) ∨ (msgType = dhcpRequest ∧ replyType = dhcpAck)) ∧
    dhcp_options 60 0 (drop 240 r) = Some replyType.
Proof.
  unfold dhcpReply. destruct ((blen req <? 240) || _ || _) eqn:E; [done|]. bool_hyps. unfold blen in *.
  destruct (dhcp_options (length req) 0 (drop 240 req)) as [t|]; [|done].
  destruct (dhcp_reply_type t) as [rt|] eqn:Ht; [|done]. intros E'. apply (inj Some) in E'. subst r. cbv zeta.
  assert (240 ≤ length req)%nat as Hl by lia. pose proof (length_dhcp_head c req Hl) as Hh.
  destruct (dhcp_head_fields c req Hl) as (F1 & F2 & F3 & F4 & F5 & F6 & F7).
  assert (length (dhcp_tail c rt) = 38)%nat as Htl by done.
  split_and!.
  - by apply padded_length.
  - rewrite -app_assoc slice_app_l; [done|rewrite Hh; lia].
  - rewrite -app_assoc slice_app_l; [done|rewrite Hh; lia].
  - rewrite -app_assoc slice_app_l; [done|rewrite Hh; lia].
  - rewrite -app_assoc slice_app_l; [done|rewrite Hh; lia].
  - rewrite -app_assoc slice_app_l; [done|rewrite Hh; lia].
  - exists t, rt. split_and!; [done| |].
    + unfold dhcp_reply_type in Ht. destruct (Z.eqb_spec t dhcpDiscover); [injection Ht as <-; by left|].
      destruct (Z.eqb_spec t dhcpRequest); [injection Ht as <-; by right|done].
    + rewrite -app_assoc drop_app_length'; [|done]. rewrite length_app Hh Htl. reflexivity.
Qed.

(** ** Witnesses *)

Definition lab_policy : Policy :=
  {| exceptions := []; dnsUpstreams := [AddrPortFrom (Addr4 134744072) 53]; blockedZones := ["corp.example"]; denyAll := false; source := "lab" |}.
Definition lab_query : bytes := [1; 2; 1; 0; 0; 1; 0; 0; 0; 0; 0; 0].
(** A toy parser: the first byte names the message. *)
Definition lab_parse (b : bytes) : option Message :=
  let a := {| rr_Name := "example.org."; rr_Type := TypeA; rr_skips := true; rr_addr := Some "1.2.3.4"; rr_cname := None |} in
  match b with
  | 1 :: _ => Some {| m_question := Some ("example.org.", "A"); m_questions := Some ["example.org."]; m_sections := [{| records := []; section_done := true |}] |}
  | 2 :: _ => Some {| m_question := Some ("example.org.", "A"); m_questions := Some ["example.org."]; m_sections := [{| records := [a]; section_done := true |}] |}
  | 3 :: _ => Some {| m_question := Some ("x.CORP.example.", "A"); m_questions := Some ["x.CORP.example."]; m_sections := [] |}
  | _ => None
  end.
Definition lab_answer : bytes := [2; 2; 129; 128].

Lemma resolve_no_blocked_witness :
  (∃ rcode, rcode ∈ [1; 2; 3] ∧ dnsError lab_query rcode = Some lab_answer) ∨
  (∃ name m up, singleQuestion lab_parse lab_query = Some name ∧ clean (λ s, s) lab_policy name ∧
     up ∈ upstreams [] None (Some lab_policy) ∧ Some lab_answer = Some lab_answer ∧ lab_parse lab_answer = Some m ∧
     message_clean (λ s, s) lab_policy m).
Proof.
  refine (resolve_no_blocked (λ s, s) lab_parse [] None (λ _ _ _, Some lab_answer) lab_policy (Some lab_policy) "udp" lab_query lab_answer
    [EvDnsAnswers "udp" (Some ("example.org.", "A")) ["1.2.3.4"]] _ _ _).
  - discriminate.
  - vm_compute. intros H. apply list_elem_of_singleton in H. discriminate H.
  - vm_compute. reflexivity.
Defined.
Lemma blocked_query_stays_witness :
  resolve (λ s, s) lab_parse [] None (λ _ _ _, None) (Some lab_policy) None "udp" (3 :: lab_query) =
  Some (nxdomain (3 :: lab_query), [EvDnsBlocked "udp" "x.CORP.example."]).
Proof.
  refine (blocked_query_stays (λ s, s) lab_parse [] None (λ _ _ _, None) lab_policy None "udp" (3 :: lab_query) "x.CORP.example." _ _ _).
  - discriminate.
  - vm_compute. reflexivity.
  - vm_compute. reflexivity.
Defined.
Lemma dnsError_reply_witness :
  match dnsError lab_query 3 with
  | None => (length lab_query < 12)%nat
  | Some r => (12 ≤ length lab_query)%nat ∧ length r = length lab_query ∧ Forall is_byte r ∧
      (∀ i, i ≠ 2%nat → i ≠ 3%nat → r !! i = lab_query !! i) ∧
      (∀ a b, lab_query !! 2%nat = Some a → r !! 2%nat = Some b → Z.testbit b 7 = true ∧ b mod 128 = a mod 128) ∧
      (∀ a b, lab_query !! 3%nat = Some a → r !! 3%nat = Some b → b mod 16 = 3 ∧ b / 16 = a / 16)
  end.
Proof.
  refine (dnsError_reply lab_query 3 _ _); [|lia]. unfold lab_query, is_byte. repeat constructor; lia.
Defined.
Lemma serveDNSTCP_answers_witness :
  serveDNSTCP (λ q, Some (q ++ [7])) (concat (map tcp_frame [[1; 2]; [3]]) ++ [0]) =
  concat (map tcp_frame (answered (λ q, Some (q ++ [7])) [[1; 2]; [3]])).
Proof.
  refine (serveDNSTCP_answers (λ q, Some (q ++ [7])) [[1; 2]; [3]] [0] _ _); [|reflexivity].
  repeat constructor.
Defined.
Lemma dhcpReply_lease_witness :
  ∃ r, dhcpReply lab_dhcp discover = Some r ∧ length r = 300%nat ∧ slice r 16 20 = be32 (dc_GuestIP lab_dhcp).
Proof.
  destruct (dhcpReply lab_dhcp discover) as [r|] eqn:E; [|by vm_compute in E].
  destruct (dhcpReply_lease lab_dhcp discover r E) as (H1 & H2 & _). exists r. by split_and!.
Defined.
