(* ===== verification/Sntp.v ===== *)
(** * SNTP between the broker and the guest

    [src/internal/sntp/sntp.go]. A [time.Time] is its wall clock in
    nanoseconds since 1970. [Offset] is modelled from the request it sends and
    the datagrams that arrive before its deadline, each with its arrival time;
    socket errors end it. *)

From S2P Require Import Prelude SessionWire.
Open Scope list_scope.
Open Scope Z_scope.

Definition packetLen : nat := 48.
Definition ntpEpochOffset : Z := 2208988800.
Definition modeClient : Z := 3.
Definition modeServer : Z := 4.
Definition version : Z := 4.
Definition refID : bytes := [72; 79; 83; 84].
Definition second : Z := 1000000000.

(** [t.Unix()] and [t.Nanosecond()]. *)
Definition unix_secs (t : Z) : Z := t / second.
Definition nanosecond (t : Z) : Z := t mod second.

Definition putTime (t : Z) : bytes :=
  be32 (u64 (unix_secs t + ntpEpochOffset)) ++ be32 (u64 (Z.shiftl (nanosecond t) 32) / second).
Definition getTime (b : bytes) : Z :=
  let secs := rd32 (slice b 0 4) in
  let frac := rd32 (slice b 4 8) in
  let secs := if secs <? 2 ^ 31 then secs + 2 ^ 32 else secs in
  (secs - ntpEpochOffset) * second + Z.shiftr (frac * second) 32.

Definition Reply (req : bytes) (received now : Z) : option bytes :=
  if (length req <? packetLen)%nat || negb (Z.land (nth 0 req 0) 7 =? modeClient) then None else
  let vn := Z.land (Z.shiftr (nth 0 req 0) 3) 7 in
  let vn := if vn =? 0 then version else vn in
  Some ([u8 (Z.lor (Z.shiftl vn 3) modeServer); 1; nth 2 req 0; 236] ++ replicate 8 0 ++ refID ++ putTime now ++
        slice req 40 48 ++ putTime received ++ putTime now).

(** A duration is clamped like [time.Sub]. *)
Definition Sub (t u : Z) : Z := Z.max minInt64 (Z.min maxInt64 (t - u)).
Inductive offset_res := OffsetOk (d : Z) | OffsetUnsynchronized | OffsetReadError.
Definition request (t1 : Z) : bytes :=
  [Z.lor (Z.shiftl version 3) modeClient] ++ replicate 39 0 ++ putTime t1.
Fixpoint Offset (t1 : Z) (replies : list (bytes * Z)) : offset_res :=
  match replies with
  | [] => OffsetReadError
  | (r, t4) :: replies' =>
      if (length r <? packetLen)%nat || negb (Z.land (nth 0 r 0) 7 =? modeServer) ||
         negb (bool_decide (slice r 24 32 = slice (request t1) 40 48)) then Offset t1 replies' else
      if (nth 1 r 0 =? 0) || (15 <? nth 1 r 0) then OffsetUnsynchronized else
      let t2 := getTime (slice r 32 40) in
      let t3 := getTime (slice r 40 48) in
      OffsetOk (Z.quot (int64 (Sub t2 t1 + Sub t3 t4)) 2)
  end.

Example sntp_ex :
  let t := 1700000000123456789 in
  getTime (putTime t) = 1700000000123456788 ∧
  match Reply (request t) (t + 5000000) (t + 5000000) with
  | Some r => length r = 48%nat ∧ Offset t [([1], t); (r, t + 10000000)] = OffsetOk (-1)
  | None => False
  end.
Proof. by vm_compute. Qed.

(** ** Lemmas *)

(** The times the protocol can carry: 1968 to 2104. *)
Definition ntp_range (t : Z) : Prop := 2 ^ 31 - ntpEpochOffset ≤ unix_secs t < 2 ^ 31 + 2 ^ 32 - ntpEpochOffset.

Lemma frac_bounds n :
  0 ≤ n < second → let f := n * 2 ^ 32 / second in 0 ≤ f < 2 ^ 32 ∧ 0 ≤ n - f * second / 2 ^ 32 ≤ 1.
Proof.
  cbv zeta. unfold second. intros Hn. change (2 ^ 32) with 4294967296.
  Z.to_euclidean_division_equations. lia.
Qed.
Lemma getTime_putTime t rest :
  ntp_range t → 0 ≤ t - getTime (putTime t ++ rest) ≤ 1.
Proof.
  intros Hr. unfold ntp_range, ntpEpochOffset in Hr.
  pose proof (Z.mod_pos_bound t second ltac:(done)) as Hn. pose proof (Z.div_mod t second ltac:(done)) as Ht.
  pose proof (frac_bounds (nanosecond t) Hn) as [Hf Hd]. cbv zeta in Hf, Hd.
  assert (slice (putTime t ++ rest) 0 4 = be32 (u64 (unix_secs t + ntpEpochOffset))) as E1 by done.
  assert (slice (putTime t ++ rest) 4 8 = be32 (u64 (Z.shiftl (nanosecond t) 32) / second)) as E2 by done.
  unfold getTime. rewrite E1 E2. rewrite -(app_nil_r (be32 (u64 (unix_secs t + _)))) -(app_nil_r (be32 (u64 (Z.shiftl _ 32) / _))).
  rewrite !rd32_be32. rewrite (Z.shiftl_mul_pow2 _ 32); [|lia].
  unfold u64, u32. rewrite (wrap_small 64 (nanosecond t * 2 ^ 32)).
  2: { unfold nanosecond, second in *. change (2 ^ 32) with 4294967296. change (2 ^ 64) with 18446744073709551616. lia. }
  rewrite (wrap_small 32 (nanosecond t * 2 ^ 32 / second)); [|done].
  rewrite (Z.shiftr_div_pow2 _ 32); [|lia].
  assert (wrap 32 (wrap 64 (unix_secs t + ntpEpochOffset)) =
    if unix_secs t + ntpEpochOffset <? 2 ^ 32 then unix_secs t + ntpEpochOffset else unix_secs t + ntpEpochOffset - 2 ^ 32) as ->.
  { unfold ntpEpochOffset in *. rewrite (wrap_small 64).
    2: { change (2 ^ 64) with 18446744073709551616. change (2 ^ 31) with 2147483648 in Hr. change (2 ^ 32) with 4294967296 in Hr. lia. }
    unfold wrap. change (2 ^ 31) with 2147483648 in Hr. change (2 ^ 32) with 4294967296 in *.
    destruct (Z.ltb_spec (unix_secs t + 2208988800) 4294967296).
    - apply Z.mod_small. lia.
    - symmetry. apply (Z.mod_unique _ _ 1); lia. }
  unfold nanosecond, unix_secs, ntpEpochOffset in *.
  change (2 ^ 31) with 2147483648 in *. change (2 ^ 32) with 4294967296 in *.
  destruct (Z.ltb_spec (t / second + 2208988800) 4294967296).
  - destruct (Z.ltb_spec (t / second + 2208988800) 2147483648); lia.
  - destruct (Z.ltb_spec (t / second + 2208988800 - 4294967296) 2147483648); lia.
Qed.

Lemma length_putTime t : length (putTime t) = 8%nat.
Proof. done. Qed.
Lemma request_time t : slice (request t) 40 48 = putTime t.
Proof. done. Qed.

Lemma vn_mode a : is_byte a → let vn := Z.land (Z.shiftr a 3) 7 in
  Z.land (u8 (Z.lor (Z.shiftl (if vn =? 0 then version else vn) 3) modeServer)) 7 = modeServer.
Proof.
  intros H vn. apply Z.eqb_eq. unfold vn.
  exact (byte_check (λ a, Z.land (u8 (Z.lor (Z.shiftl (if Z.land (Z.shiftr a 3) 7 =? 0 then version else Z.land (Z.shiftr a 3) 7) 3) modeServer)) 7 =? modeServer) a
    ltac:(by vm_compute) H).
Qed.

(** The fields of a reply to the request sent at [t1]. *)
Lemma Reply_fields t1 received now :
  ∃ r, Reply (request t1) received now = Some r ∧ length r = packetLen ∧ Z.land (nth 0 r 0) 7 = modeServer ∧ nth 1 r 0 = 1 ∧
  slice r 24 32 = putTime t1 ∧ slice r 32 40 = putTime received ∧ slice r 40 48 = putTime now.
Proof. eexists. split; [reflexivity|]. by split_and!. Qed.

(** The guest accepts the broker's answer to its own request, whatever
    stale or foreign datagrams arrive before it, and computes the offset of the
    two clocks: exactly half the sum of the differences the protocol defines,
    up to the nanosecond each timestamp loses in its 32-bit fraction. *)
Theorem Offset_Reply t1 received now t4 r junk :
  ntp_range received → ntp_range now → ntp_range t1 → ntp_range t4 →
  Reply (request t1) received now = Some r →
  Forall (λ x, (length x.1 < packetLen)%nat ∨ Z.land (nth 0 x.1 0) 7 ≠ modeServer ∨ slice x.1 24 32 ≠ putTime t1) junk →
  ∃ d, Offset t1 (junk ++ [(r, t4)]) = OffsetOk d ∧
       ∃ e, 0 ≤ e ≤ 2 ∧ d = Z.quot ((received - t1) + (now - t4) - e) 2.
Proof.
  intros Hr Hn H1 H4 HR Hj. destruct (Reply_fields t1 received now) as (r' & HR' & Hl & Hm & Hs & F1 & F2 & F3).
  rewrite HR in HR'. injection HR' as <-.
  assert (Offset t1 (junk ++ [(r, t4)]) = Offset t1 [(r, t4)]) as ->.
  { induction Hj as [|[x tx] junk Hx _ IH]; [done|]. cbn [app Offset]. cbn [fst] in Hx. rewrite request_time.
    assert ((length x <? packetLen)%nat || negb (Z.land (nth 0 x 0) 7 =? modeServer) || negb (bool_decide (slice x 24 32 = putTime t1)) = true) as ->; [|done].
    destruct Hx as [Hx|[Hx|Hx]].
    - apply Nat.ltb_lt in Hx. by rewrite Hx.
    - apply Z.eqb_neq in Hx. rewrite Hx. by rewrite orb_true_r.
    - rewrite (bool_decide_eq_false_2 _ Hx). by rewrite orb_true_r. }
  cbn [Offset]. rewrite Hl Hm Hs F1 F2 F3 request_time bool_decide_eq_true_2; [|done]. cbn [Nat.ltb Nat.leb packetLen orb negb].
  change ((48 <? packetLen)%nat || negb (modeServer =? modeServer) || negb true) with false. cbv iota.
  change ((1 =? 0) || (15 <? 1)) with false. cbv iota. eexists. split; [reflexivity|].
  pose proof (getTime_putTime received [] Hr) as Er. pose proof (getTime_putTime now [] Hn) as En. rewrite !app_nil_r in Er, En.
  exists ((received - getTime (putTime received)) + (now - getTime (putTime now))). split; [lia|].
  assert (∀ a b, ntp_range a → ntp_range b → - (2 ^ 32 * second) < a - b < 2 ^ 32 * second) as Hb.
  { unfold ntp_range, unix_secs, second, ntpEpochOffset. change (2 ^ 31) with 2147483648. change (2 ^ 32) with 4294967296.
    intros a b Ha Hb. Z.to_euclidean_division_equations. lia. }
  pose proof (Hb _ _ Hr H1) as B1. pose proof (Hb _ _ Hn H4) as B2. unfold Sub, int64, minInt64, maxInt64.
  unfold second in B1, B2. change (2 ^ 32 * 1000000000) with 4294967296000000000 in B1, B2.
  rewrite sext_id_range; [|lia|change (2 ^ (64 - 1)) with 9223372036854775808; lia]. f_equal. lia.
Qed.
Lemma Offset_Reply_witness :
  ∃ d, Offset 1700000000123456789 ([([1; 2], 0)] ++ [(default [] (Reply (request 1700000000123456789) 1700000000123456000 1700000000123457000), 1700000000223456789)]) = OffsetOk d ∧
  ∃ e, 0 ≤ e ≤ 2 ∧ d = Z.quot ((1700000000123456000 - 1700000000123456789) + (1700000000123457000 - 1700000000223456789) - e) 2.
Proof.
  refine (Offset_Reply 1700000000123456789 1700000000123456000 1700000000123457000 1700000000223456789 _ [([1; 2], 0)] _ _ _ _ _ _);
    try (vm_compute; split; congruence); try reflexivity.
  constructor; [|constructor]. left. vm_compute. lia.
Defined.
