(* ===== verification/LogFile.v ===== *)
(** * The rotated event log

    [src/internal/netbroker/logfile.go] over a file system of byte contents.
    Every system call may fail: the [faults] of a [Write] say which do, and a
    failing write may leave part of its bytes. *)

From S2P Require Import Prelude GoStrings.
Open Scope string_scope.
Open Scope list_scope.
Open Scope Z_scope.

Definition maxLogSize : Z := 16777216.

Definition fsys : Type := gmap string bytes.
Definition content (fs : fsys) (path : string) : bytes := default [] (fs !! path).
Definition fsize (fs : fsys) (path : string) : Z := Z.of_nat (length (content fs path)).

(** [l_open]: whether [l.f] is set. The handle refers to the file at [path]
    for as long as it is open. *)
Record logFile := { l_path : string; l_max : Z; l_open : bool; l_size : Z }.
(** Which of the calls of one operation fail; [w_short] is the number of bytes
    a failing write still appends. *)
Record faults := { open_fails : bool; stat_fails : bool; close_fails : bool; rename_fails : bool; w_short : option nat }.
Inductive lerr := ErrOpen | ErrStat | ErrClose | ErrRename | ErrWrite.

Definition open (f : faults) (l : logFile) (fs : fsys) : option lerr * logFile * fsys :=
  if open_fails f then (Some ErrOpen, l, fs) else
  let fs := <[l_path l := content fs (l_path l)]> fs in       (* O_CREATE *)
  if stat_fails f then (Some ErrStat, l, fs) else
  (None, {| l_path := l_path l; l_max := l_max l; l_open := true; l_size := fsize fs (l_path l) |}, fs).
Definition openLogFile (f : faults) (path : string) (maxSize : Z) (fs : fsys) : option lerr * logFile * fsys :=
  open f {| l_path := path; l_max := maxSize; l_open := false; l_size := 0 |} fs.
Definition closed (l : logFile) : logFile := {| l_path := l_path l; l_max := l_max l; l_open := false; l_size := l_size l |}.
Definition old_path (path : string) : string := path +:+ ".1".
Definition rotate (f : faults) (l : logFile) (fs : fsys) : option lerr * logFile * fsys :=
  let l := closed l in
  if close_fails f then (Some ErrClose, l, fs) else
  if rename_fails f then (Some ErrRename, l, fs) else
  open f l (delete (l_path l) (<[old_path (l_path l) := content fs (l_path l)]> fs)).
(** The write itself, to an open log. *)
Definition append (f : faults) (l : logFile) (fs : fsys) (p : bytes) : option lerr * nat * logFile * fsys :=
  let n := match w_short f with Some k => Nat.min k (length p) | None => length p end in
  let fs := <[l_path l := content fs (l_path l) ++ take n p]> fs in
  let l := {| l_path := l_path l; l_max := l_max l; l_open := l_open l; l_size := l_size l + Z.of_nat n |} in
  (match w_short f with Some _ => Some ErrWrite | None => None end, n, l, fs).
(** [Write]: the error, the number of bytes reported, and the state. The first
    [open] reopens a log a failed rotation left closed. *)
Definition Write (f f' : faults) (l : logFile) (fs : fsys) (p : bytes) : option lerr * nat * logFile * fsys :=
  let '(e, l, fs) := if l_open l then (None, l, fs) else open f l fs in
  match e with
  | Some e => (Some e, O, l, fs)
  | None =>
      let '(e, l, fs) := if (0 <? l_size l) && (l_max l <? l_size l + Z.of_nat (length p)) then rotate f' l fs else (None, l, fs) in
      match e with
      | Some e => (Some e, O, l, fs)
      | None => append f' l fs p
      end
  end.
Definition Close (f : faults) (l : logFile) : option lerr * logFile :=
  if negb (l_open l) then (None, l) else (if close_fails f then Some ErrClose else None, closed l).

(** ** The two generations *)

Definition no_faults : faults := {| open_fails := false; stat_fails := false; close_fails := false; rename_fails := false; w_short := None |}.
Definition generations (fs : fsys) (path : string) : bytes := content fs (old_path path) ++ content fs path.

Lemma old_path_ne path : old_path path ≠ path.
Proof. intros H. apply (f_equal String.length) in H. unfold old_path in H. rewrite slength_app in H. cbn in H. lia. Qed.
Lemma content_insert fs p v : content (<[p := v]> fs) p = v.
Proof. unfold content. by rewrite lookup_insert_eq. Qed.
Lemma content_insert_ne fs p q v : q ≠ p → content (<[p := v]> fs) q = content fs q.
Proof. intros H. unfold content. rewrite lookup_insert_ne; [done|congruence]. Qed.

(** An open log knows the size of its file. *)
Definition log_ok (l : logFile) (fs : fsys) : Prop := l_open l = true → l_size l = fsize fs (l_path l).

Lemma open_spec f l fs e l' fs' :
  open f l fs = (e, l', fs') → l_open l = false →
  l_path l' = l_path l ∧ l_max l' = l_max l ∧ (∀ p, content fs' p = content fs p) ∧ log_ok l' fs' ∧ (e = None → l_open l' = true).
Proof.
  unfold open. intros H Hc. destruct (open_fails f).
  { injection H as <- <- <-. split_and!; try done; unfold log_ok; rewrite ?Hc; done. }
  assert (∀ p, content (<[l_path l:=content fs (l_path l)]> fs) p = content fs p) as Hsame.
  { intros p. destruct (decide (p = l_path l)) as [->|Hp]; [apply content_insert|by apply content_insert_ne]. }
  destruct (stat_fails f); injection H as <- <- <-; split_and!; try done; unfold log_ok; rewrite ?Hc; done.
Qed.
Lemma rotate_spec f l fs e l' fs' :
  rotate f l fs = (e, l', fs') →
  l_path l' = l_path l ∧ l_max l' = l_max l ∧ log_ok l' fs' ∧ (e = None → l_open l' = true) ∧
  ((∀ p, content fs' p = content fs p) ∧ e ≠ None ∨
   content fs' (old_path (l_path l)) = content fs (l_path l) ∧ content fs' (l_path l) = []).
Proof.
  unfold rotate. destruct (close_fails f); [intros [= <- <- <-]; split_and!; try done; by left|].
  destruct (rename_fails f); [intros [= <- <- <-]; split_and!; try done; by left|].
  intros H. apply open_spec in H as (H1 & H2 & H3 & H4 & H5); [|done]. split_and!; try done. right.
  cbn [closed l_path] in *. pose proof (old_path_ne (l_path l)) as Hne. split.
  - rewrite H3. unfold content at 1. rewrite lookup_delete_ne; [|congruence]. by rewrite lookup_insert_eq.
  - rewrite H3. unfold content. by rewrite lookup_delete_eq.
Qed.

(** Whatever system calls fail, a write appends exactly the bytes it
    reports, the log and its predecessor keep the most recent bytes in order
    without a gap, and only a whole old generation is ever dropped; a write
    that succeeds leaves the log within its maximal size unless a single event
    is larger. *)
Theorem Write_keeps_recent f f' l fs p e n l' fs' :
  log_ok l fs → Write f f' l fs p = (e, n, l', fs') →
  log_ok l' fs' ∧ l_path l' = l_path l ∧ l_max l' = l_max l ∧
  (e = None → n = length p ∧ l_open l' = true ∧ fsize fs' (l_path l) ≤ Z.max (l_max l) (Z.of_nat (length p))) ∧
  ((content fs' (old_path (l_path l)) = content fs (old_path (l_path l)) ∧
    content fs' (l_path l) = content fs (l_path l) ++ take n p) ∨
   (content fs' (old_path (l_path l)) = content fs (l_path l) ∧ content fs' (l_path l) = take n p)).
Proof.
  intros Hok HW. unfold Write in HW.
  destruct (if l_open l then (None, l, fs) else open f l fs) as [[e1 l1] fs1] eqn:E1.
  assert (l_path l1 = l_path l ∧ l_max l1 = l_max l ∧ (∀ p, content fs1 p = content fs p) ∧ log_ok l1 fs1 ∧ (e1 = None → l_open l1 = true)) as (P1 & M1 & C1 & O1 & N1).
  { destruct (l_open l) eqn:Ho; [injection E1 as <- <- <-; by split_and!|]. by apply open_spec in E1. }
  destruct e1 as [e1|].
  { injection HW as <- <- <- <-. split_and!; try done. left. by rewrite !C1 take_0 app_nil_r. }
  specialize (N1 eq_refl).
  destruct (if (0 <? l_size l1) && (l_max l1 <? l_size l1 + Z.of_nat (length p)) then rotate f' l1 fs1 else (None, l1, fs1)) as [[e2 l2] fs2] eqn:E2.
  assert (l_path l2 = l_path l ∧ l_max l2 = l_max l ∧ log_ok l2 fs2 ∧ (e2 = None → l_open l2 = true) ∧
    (e2 = None → fsize fs2 (l_path l) + Z.of_nat (length p) ≤ Z.max (l_max l) (Z.of_nat (length p))) ∧
    ((content fs2 (old_path (l_path l)) = content fs (old_path (l_path l)) ∧ content fs2 (l_path l) = content fs (l_path l)) ∨
     (content fs2 (old_path (l_path l)) = content fs (l_path l) ∧ content fs2 (l_path l) = []))) as (P2 & M2 & O2 & N2 & S2 & C2).
  { destruct ((0 <? l_size l1) && _) eqn:Hrot.
    - apply rotate_spec in E2 as (Q1 & Q2 & Q3 & Q4 & Q5). rewrite P1 in Q1. rewrite M1 in Q2. rewrite P1 in Q5.
      split_and!; try done.
      + intros He. destruct Q5 as [[_ ?]|[_ Hz]]; [done|]. unfold fsize. rewrite Hz. cbn. lia.
      + destruct Q5 as [[Hs _]|[Ha Hb]]; [left|right]; [by rewrite !Hs !C1|by rewrite Ha C1].
    - injection E2 as <- <- <-. split_and!; try done.
      + intros _. rewrite -P1 -(O1 N1). rewrite M1 in Hrot. apply andb_false_iff in Hrot as [Hr|Hr]; bool_hyps; [|lia].
        rewrite (O1 N1) in Hr |- *. unfold fsize in *. lia.
      + left. by rewrite !C1. }
  destruct e2 as [e2|].
  { injection HW as <- <- <- <-. split_and!; try done. rewrite take_0 app_nil_r. exact C2. }
  unfold append in HW. set (k := match w_short f' with Some k => Nat.min k (length p) | None => length p end) in *.
  injection HW as <- <- <- <-. cbn [l_path l_max l_open l_size]. rewrite P2. split_and!; try done.
  - unfold log_ok. cbn [l_open l_size l_path]. intros Ho. rewrite (O2 Ho) P2. unfold fsize. rewrite content_insert length_app length_take.
    unfold k. destruct (w_short f'); lia.
  - intros He. destruct (w_short f') eqn:Hw; [done|]. split_and!; [done|by apply N2|]. unfold k. rewrite firstn_all.
    specialize (S2 eq_refl). unfold fsize in *. rewrite content_insert length_app. lia.
  - rewrite content_insert content_insert_ne; [|apply old_path_ne].
    destruct C2 as [[A B]|[A B]]; [left|right]; by rewrite A B.
Qed.
Lemma Write_keeps_recent_witness :
  let l := {| l_path := "log"; l_max := 4; l_open := true; l_size := 3 |} in
  let fs : fsys := {["log" := [1; 2; 3]]} in
  ∃ e n l' fs', Write no_faults no_faults l fs [4; 5] = (e, n, l', fs') ∧
  e = None ∧ fsize fs' "log" ≤ 4 ∧ content fs' "log.1" = [1; 2; 3] ∧ log_ok l' fs'.
Proof.
  intros l fs. destruct (Write no_faults no_faults l fs [4; 5]) as [[[e n] l'] fs'] eqn:E. exists e, n, l', fs'. split; [done|].
  assert (log_ok l fs) as Hok by (intros _; vm_compute; reflexivity).
  destruct (Write_keeps_recent no_faults no_faults l fs [4; 5] e n l' fs' Hok E) as (H & _).
  vm_compute in E. injection E as <- <- <- <-. split_and!; [done|vm_compute; congruence|by vm_compute|exact H].
Defined.
