(* ===== verification/BrokerMain.v ===== *)
(** * The broker's command line, reload and guest NIC

    [src/internal/netbroker/cli.go] and the parts of [broker.go] around the
    stack: the flag parsers, the checks of [Main] and [New], the SIGHUP reload
    of the policy, and [serveNIC] with its framing. What the host's files hold
    is an argument. *)

From S2P Require Import Prelude GoStrings GoStrconv NetAddr Policy Flows SessionWire Runtime.
Open Scope string_scope.
Open Scope list_scope.
Open Scope Z_scope.

(** ** Flags *)

Definition zeroAddrPort : AddrPort := AddrPortFrom AddrZero 0.
Record Forward := { fd_Host : AddrPort; fd_UnixPath : string; fd_GuestPort : Z }.
Record Service := { sc_GuestPort : Z; sc_UnixPath : string; sc_TCP : AddrPort }.
Inductive cli_err := CliErr (what : string) (arg : string).

Definition guest_port (s : string) : option Z :=
  match ParseUint s 16 with NumOk n => if n =? 0 then None else Some (u16 n) | _ => None end.
Definition parseForward (s : string) : result cli_err Forward :=
  let '(host, guest, ok) := Cut s "=" in
  if negb ok then Err (CliErr "forward" s) else
  match ParseAddrPort host with
  | None => Err (CliErr "forward" s)
  | Some hp =>
      if negb (IsLoopback (Ap_Addr hp)) then Err (CliErr "forward: host address must be loopback" s) else
      match guest_port guest with
      | Some gp => Ok {| fd_Host := hp; fd_UnixPath := ""; fd_GuestPort := gp |}
      | None => Err (CliErr "forward: invalid guest port" s)
      end
  end.
Definition parseUnixForward (s : string) : result cli_err Forward :=
  let '(path, guest, ok) := Cut s "=" in
  if negb ok || String.eqb path "" then Err (CliErr "forward-unix" s) else
  match guest_port guest with
  | Some gp => Ok {| fd_Host := zeroAddrPort; fd_UnixPath := path; fd_GuestPort := gp |}
  | None => Err (CliErr "forward-unix: invalid guest port" s)
  end.
Definition parseService (s : string) : result cli_err Service :=
  let '(port, target, ok) := Cut s "=" in
  match ParseUint port 16 with
  | NumOk n =>
      if negb ok || (n =? 0) || String.eqb target "" || String.eqb port "53" then Err (CliErr "service" s) else
      match CutPrefix target "tcp:" with
      | Some addr =>
          match validateServiceTarget "" addr, ParseAddrPort addr with
          | Ok _, Some ap => Ok {| sc_GuestPort := u16 n; sc_UnixPath := ""; sc_TCP := ap |}
          | _, _ => Err (CliErr "service" s)
          end
      | None => Ok {| sc_GuestPort := u16 n; sc_UnixPath := target; sc_TCP := zeroAddrPort |}
      end
  | _ => Err (CliErr "service" s)
  end.
Definition parseUpstream (s : string) : result cli_err AddrPort :=
  match ParseAddrPort s with
  | Some ap => Ok ap
  | None => match ParseAddr s with Some a => Ok (AddrPortFrom a 53) | None => Err (CliErr "dns upstream" s) end
  end.
(** [resolvConf] on the content of the file, if it can be read. *)
Definition resolv_line (line : string) : option string :=
  match Fields line with
  | kw :: server :: _ => if String.eqb kw "nameserver" then Some server else None
  | _ => None
  end.
Definition resolvConf (data : option string) : list string :=
  match data with
  | None => []
  | Some d => omap resolv_line (Split d (sep1 (chr 10)))
  end.
Definition HostDNS (data : option string) : list AddrPort :=
  omap (λ s, match parseUpstream s with Ok ap => Some ap | Err _ => None end) (resolvConf data).

(** ** The configuration *)

Definition MaxMTU : Z := 65535 - 14.
Record NetConfig := {
  n_Subnet : Prefix; n_Gateway : Addr; n_GuestIP : Addr; n_MTU : Z; n_Forwards : list Forward; n_Services : list Service;
  n_DNSFallback : list AddrPort; n_HostDNS : bool
}.
Record flags := {
  fl_socket : string; fl_policy : string; fl_subnet : string; fl_gateway : string; fl_guest : string; fl_mtu : Z;
  fl_forwards : list string; fl_unixForwards : list string; fl_services : list string; fl_dns : list string
}.
Definition main_config (fl : flags) (loadPolicy : string → result cli_err Policy) : result cli_err (NetConfig * Policy) :=
  if String.eqb (fl_socket fl) "" || String.eqb (fl_policy fl) "" then Err (CliErr "-socket and -policy are required" "") else
  pol ← loadPolicy (fl_policy fl);
  if (fl_mtu fl <? 576) || (MaxMTU <? fl_mtu fl) then Err (CliErr "-mtu" (Itoa (fl_mtu fl))) else
  subnet ← opt_err (ParsePrefix (fl_subnet fl)) (CliErr "subnet" (fl_subnet fl));
  gateway ← opt_err (ParseAddr (fl_gateway fl)) (CliErr "gateway" (fl_gateway fl));
  guest ← opt_err (ParseAddr (fl_guest fl)) (CliErr "guest" (fl_guest fl));
  fws ← rmap parseForward (fl_forwards fl);
  ufws ← rmap parseUnixForward (fl_unixForwards fl);
  svcs ← rmap parseService (fl_services fl);
  ups ← rmap parseUpstream (fl_dns fl);
  Ok ({| n_Subnet := subnet; n_Gateway := gateway; n_GuestIP := guest; n_MTU := u32 (fl_mtu fl); n_Forwards := fws ++ ufws;
         n_Services := svcs; n_DNSFallback := ups; n_HostDNS := bool_decide (ups = []) |}, pol).
(** The check of [New] and its default. *)
Definition New_check (cfg : NetConfig) : bool :=
  negb (negb (Is4 (n_Gateway cfg)) || negb (Is4 (n_GuestIP cfg)) || negb (prefix_Contains (n_Subnet cfg) (n_Gateway cfg)) ||
        negb (prefix_Contains (n_Subnet cfg) (n_GuestIP cfg)) || bool_decide (n_Gateway cfg = n_GuestIP cfg)).
Definition New_MTU (cfg : NetConfig) : Z := if n_MTU cfg =? 0 then 1500 else n_MTU cfg.

(** ** Reload *)

Section Reload.
Context (lowerU : string → string) (decode : string → option policyFile) (files : string → option string).
(** [loadPolicy] and the policy half of the SIGHUP handler; the error text is
    [describe]'s. *)
Context (describe : option perr → string).
Definition loadPolicy (path : string) : result (option perr) Policy :=
  match files path with
  | None => Err None
  | Some data => match ParsePolicy lowerU decode data path with Ok p => Ok p | Err e => Err (Some e) end
  end.
Definition reload (path : string) (b : Broker) : Broker :=
  SetPolicy b (match loadPolicy path with Ok p => p | Err e => DenyAll ("invalid reload: " +:+ describe e) end).
End Reload.

(** ** The guest NIC *)

Definition maxFrame : Z := 65535.
(** The read loop of [serveNIC] over the bytes of one connection: the frames
    injected into the stack. A round reads at least the header. *)
Fixpoint nic_frames (fuel : nat) (r : bytes) : list bytes :=
  match fuel with
  | O => []
  | S fuel' =>
      match ReadFull r 4 with
      | Err _ => []
      | Ok (hdr, r) =>
          let n := rd32 hdr in
          if (n =? 0) || (maxFrame <? n) then [] else
          match ReadFull r (Z.to_nat n) with
          | Err _ => []
          | Ok (frame, r) => frame :: nic_frames fuel' r
          end
      end
  end.
Definition serveNIC_frames (r : bytes) : list bytes := nic_frames (S (length r)) r.
(** A frame towards the guest. *)
Definition nic_out (frame : bytes) : bytes := be32 (blen frame) ++ frame.

(** The connections of the NIC socket. Each is served in its own goroutine,
    whose steps interleave: [active] is tested, set and cleared under [connMu],
    the events are recorded outside it. *)
Inductive nic_conn := NicAccepted | NicRefusing | NicRejected | NicStarting | NicServing | NicClosing | NicEnded.
#[export] Instance nic_conn_eq_dec : EqDecision nic_conn.
Proof. solve_decision. Defined.
Record nic := { nic_active : bool; nic_conns : list nic_conn; nic_log : list string }.
Definition nic_begin (s : nic) (i : nat) : nic :=
  {| nic_active := true; nic_conns := <[i := if nic_active s then NicRefusing else NicStarting]> (nic_conns s); nic_log := nic_log s |}.
Definition nic_record (s : nic) (i : nat) (c : nic_conn) (ev : string) : nic :=
  {| nic_active := nic_active s; nic_conns := <[i := c]> (nic_conns s); nic_log := nic_log s ++ [ev] |}.
Definition nic_end (s : nic) (i : nat) : nic :=
  {| nic_active := false; nic_conns := <[i := NicEnded]> (nic_conns s); nic_log := nic_log s |}.
Inductive nic_step : nic → nic → Prop :=
| nic_accept s : nic_step s {| nic_active := nic_active s; nic_conns := nic_conns s ++ [NicAccepted]; nic_log := nic_log s |}
| nic_start s i : nic_conns s !! i = Some NicAccepted → nic_step s (nic_begin s i)
| nic_refused s i : nic_conns s !! i = Some NicRefusing → nic_step s (nic_record s i NicRejected "rejected-second-connection")
| nic_connected s i : nic_conns s !! i = Some NicStarting → nic_step s (nic_record s i NicServing "connected")
| nic_disconnected s i : nic_conns s !! i = Some NicServing → nic_step s (nic_record s i NicClosing "disconnected")
| nic_stop s i : nic_conns s !! i = Some NicClosing → nic_step s (nic_end s i).
Inductive nic_run : nic → Prop :=
| nic_init : nic_run {| nic_active := false; nic_conns := []; nic_log := [] |}
| nic_next s s' : nic_run s → nic_step s s' → nic_run s'.

(** ** Properties *)

(** C33: a reload fails closed: when the policy file cannot be read or is
    invalid, every flow decided afterwards is refused, and otherwise the parsed
    policy decides; flows in progress and the limits are not touched. *)
Theorem reload_fail_closed lowerU decode files describe path b :
  let b' := reload lowerU decode files describe path b in
  (b_flows b' = b_flows b ∧ b_tcpFlows b' = b_tcpFlows b ∧ b_udpFlows b' = b_udpFlows b) ∧
  match loadPolicy lowerU decode files path with
  | Ok p => b_policy b' = Some p
  | Err _ => ∀ proto src dst conn, (decide_flow b' proto src dst conn).2 = deny "fail-closed"
  end.
Proof.
  intros b'. split; [done|]. unfold b', reload. by destruct (loadPolicy lowerU decode files path).
Qed.

Lemma guest_port_range s n : guest_port s = Some n → 1 ≤ n ≤ 65535.
Proof.
  unfold guest_port. destruct (ParseUint s 16) as [m| |] eqn:E; [|done|done].
  apply ParseUint_range in E; [|lia]. change (2 ^ 16) with 65536 in E.
  destruct (Z.eqb_spec m 0); [done|]. intros [= <-]. unfold u16. rewrite wrap_small; [lia|]. change (2 ^ 16) with 65536. lia.
Qed.

(** The flags only publish guest ports on loopback addresses or sockets and
    only relay services to loopback addresses or sockets, on valid ports. *)
Theorem flags_loopback s :
  (∀ f, parseForward s = Ok f → IsLoopback (Ap_Addr (fd_Host f)) = true ∧ fd_UnixPath f = "" ∧ 1 ≤ fd_GuestPort f ≤ 65535) ∧
  (∀ f, parseUnixForward s = Ok f → fd_Host f = zeroAddrPort ∧ fd_UnixPath f ≠ "" ∧ 1 ≤ fd_GuestPort f ≤ 65535) ∧
  (∀ v, parseService s = Ok v → 1 ≤ sc_GuestPort v ≤ 65535 ∧
    ((sc_TCP v = zeroAddrPort ∧ sc_UnixPath v ≠ "") ∨
     (sc_UnixPath v = "" ∧ IsLoopback (Ap_Addr (sc_TCP v)) = true ∧ Ap_Port (sc_TCP v) ≠ 0))).
Proof.
  split_and!; intros f; unfold parseForward, parseUnixForward, parseService; destruct (Cut s "=") as [[a b] ok].
  - destruct ok; cbn [negb]; [|done]. destruct (ParseAddrPort a) as [hp|]; [|done].
    destruct (IsLoopback (Ap_Addr hp)) eqn:El; cbn [negb]; [|done].
    destruct (guest_port b) as [gp|] eqn:Hg; [|done]. intros [= <-]. apply guest_port_range in Hg. split_and!; cbn; first [done|lia].
  - destruct (negb ok || String.eqb a "") eqn:E; [done|]. bool_hyps.
    destruct (guest_port b) as [gp|] eqn:Hg; [|done]. intros [= <-]. apply guest_port_range in Hg. split_and!; cbn; first [done|lia].
  - destruct (ParseUint a 16) as [n| |] eqn:Hn; [|done|done].
    destruct (negb ok || (n =? 0) || String.eqb b "" || String.eqb a "53") eqn:E; [done|]. bool_hyps.
    apply ParseUint_range in Hn; [|lia]. change (2 ^ 16) with 65536 in Hn.
    assert (1 ≤ u16 n ≤ 65535) as Hr by (unfold u16; rewrite wrap_small; [lia|change (2 ^ 16) with 65536; lia]).
    destruct (CutPrefix b "tcp:") as [t|]; [|intros [= <-]; split; [done|by left]].
    destruct (validateServiceTarget "" t) as [u|] eqn:Hv; [|done]. apply validateServiceTarget_Ok in Hv.
    destruct (ParseAddrPort t) as [ap|] eqn:Hap; [|done]. intros [= <-]. split; [done|]. right. split; [done|].
    destruct Hv as [[_ Ha]|(_ & _ & ap' & Hap' & ? & ?)]; [by vm_compute in Ha|]. rewrite Hap in Hap'. injection Hap' as <-. done.
Qed.
Lemma flags_loopback_witness :
  parseService "2375=tcp:127.0.0.1:2375" = Ok {| sc_GuestPort := 2375; sc_UnixPath := ""; sc_TCP := AddrPortFrom (Addr4 2130706433) 2375 |} ∧
  1 ≤ 2375 ≤ 65535.
Proof.
  split; [by vm_compute|].
  exact (proj1 (proj2 (proj2 (flags_loopback "2375=tcp:127.0.0.1:2375"))
    {| sc_GuestPort := 2375; sc_UnixPath := ""; sc_TCP := AddrPortFrom (Addr4 2130706433) 2375 |} ltac:(by vm_compute))).
Defined.
(** The guard against the DNS port compares text: a padded number passes. *)
Example parseService_53 :
  parseService "53=/x" = Err (CliErr "service" "53=/x") ∧
  parseService "053=/x" = Ok {| sc_GuestPort := 53; sc_UnixPath := "/x"; sc_TCP := zeroAddrPort |}.
Proof. by vm_compute. Qed.

Lemma nic_read_out f rest fuel :
  1 ≤ blen f ≤ maxFrame → nic_frames (S fuel) (nic_out f ++ rest) = f :: nic_frames fuel rest.
Proof.
  intros Hf. unfold nic_out. cbn [nic_frames]. rewrite -app_assoc.
  pose proof (ReadFull_app (be32 (blen f)) (f ++ rest)) as H1. rewrite length_be32 in H1. rewrite H1.
  assert (rd32 (be32 (blen f)) = blen f) as ->.
  { rewrite -(app_nil_r (be32 _)) rd32_be32. apply wrap_small. unfold maxFrame in Hf. change (2 ^ 32) with 4294967296. lia. }
  destruct (Z.eqb_spec (blen f) 0); [lia|]. destruct (Z.ltb_spec maxFrame (blen f)); [lia|]. cbn [orb].
  unfold blen. rewrite Nat2Z.id. by rewrite ReadFull_app.
Qed.

(** Every frame either side writes to the NIC socket arrives, in order and
    unchanged, up to the first one the connection breaks off in. *)
Theorem serveNIC_roundtrip fs tail :
  Forall (λ f, 1 ≤ blen f ≤ maxFrame) fs → ReadFull tail 4 = Err EOF ∨ ReadFull tail 4 = Err ErrUnexpectedEOF →
  serveNIC_frames (concat (map nic_out fs) ++ tail) = fs.
Proof.
  intros Hf Ht. unfold serveNIC_frames.
  assert (∀ fuel, (length (concat (map nic_out fs) ++ tail) < fuel)%nat → nic_frames fuel (concat (map nic_out fs) ++ tail) = fs) as H;
    [|apply H; lia].
  induction Hf as [|f fs Hf _ IH]; intros fuel Hl; (destruct fuel as [|fuel]; [lia|]).
  - cbn [map concat app nic_frames]. by destruct Ht as [-> | ->].
  - cbn [map concat] in *. rewrite -app_assoc in Hl |- *. rewrite nic_read_out; [|done]. f_equal. apply IH.
    unfold nic_out in Hl at 1. rewrite !length_app length_be32 in Hl. rewrite length_app. lia.
Qed.
Lemma serveNIC_roundtrip_witness : serveNIC_frames (concat (map nic_out [[1; 2]; [3]]) ++ [0; 0]) = [[1; 2]; [3]].
Proof.
  refine (serveNIC_roundtrip [[1; 2]; [3]] [0; 0] _ _); [|right; reflexivity].
  repeat constructor; vm_compute; congruence.
Defined.

(** The connections that hold [active], and those the log reports as up. *)
Definition holds1 (c : nic_conn) : Z := match c with NicStarting | NicServing | NicClosing => 1 | _ => 0 end.
Definition up1 (c : nic_conn) : Z := match c with NicServing => 1 | _ => 0 end.
Definition holders (s : nic) : Z := zsum holds1 (nic_conns s).
Definition links (s : nic) : Z := zsum up1 (nic_conns s).
(** Reading the log: a connection and its end alternate; [None] if they do not. *)
Fixpoint nic_trace (up : bool) (l : list string) : option bool :=
  match l with
  | [] => Some up
  | ev :: l =>
      if String.eqb ev "connected" then (if up then None else nic_trace true l)
      else if String.eqb ev "disconnected" then (if up then nic_trace false l else None)
      else nic_trace up l
  end.
Lemma nic_trace_app up l ev : nic_trace up (l ++ [ev]) = match nic_trace up l with Some u => nic_trace u [ev] | None => None end.
Proof.
  revert up. induction l as [|x l IH]; intros up; [by cbn|]. cbn [app nic_trace].
  destruct (String.eqb x "connected"); [by destruct up|].
  destruct (String.eqb x "disconnected"); [by destruct up|apply IH].
Qed.
Lemma holds1_nonneg c : 0 ≤ holds1 c.
Proof. by destruct c. Qed.
Lemma up1_nonneg c : 0 ≤ up1 c.
Proof. by destruct c. Qed.
(** A connection the log does not yet, or no longer, report as up excludes
    every other one. *)
Lemma links_bounds l i c :
  l !! i = Some c → zsum up1 l + (holds1 c - up1 c) ≤ zsum holds1 l ∧ up1 c ≤ zsum up1 l.
Proof.
  intros Hi. split; [|by apply (zsum_elem up1 l i c up1_nonneg)].
  pose proof (zsum_elem (λ c, holds1 c - up1 c) l i c ltac:(by intros [])  Hi) as H. cbn beta in H.
  assert (zsum holds1 l = zsum up1 l + zsum (λ c, holds1 c - up1 c) l); [|lia].
  clear. induction l as [|x l IH]; [done|]. unfold zsum in *. cbn in *. lia.
Qed.
Definition nic_ok (s : nic) : Prop :=
  holders s = (if nic_active s then 1 else 0) ∧ nic_trace false (nic_log s) = Some (links s =? 1).
Lemma nic_step_ok s s' : nic_ok s → nic_step s s' → nic_ok s'.
Proof.
  intros [Hh Hl] Hst. unfold nic_ok, holders, links in *.
  destruct Hst as [s|s i Hi|s i Hi|s i Hi|s i Hi|s i Hi]; cbn [nic_active nic_conns nic_log nic_begin nic_record nic_end];
    try (pose proof (links_bounds _ _ _ Hi) as [Hb1 Hb2]; cbn in Hb1, Hb2); rewrite ?nic_trace_app ?Hl;
    rewrite ?(zsum_insert _ _ _ _ _ Hi) ?zsum_app ?zsum_one.
  - split; [cbn; lia|]. f_equal. f_equal. cbn. lia.
  - destruct (nic_active s); (split; [cbn; lia|]); f_equal; f_equal; cbn; lia.
  - split; [cbn; lia|]. cbn. f_equal. f_equal. lia.
  - split; [cbn; lia|]. destruct (nic_active s); [|lia].
    assert (zsum up1 (nic_conns s) = 0) as -> by (pose proof (zsum_nonneg up1 (nic_conns s) up1_nonneg); lia). by cbn.
  - split; [cbn; lia|]. destruct (nic_active s); [|lia].
    assert (zsum up1 (nic_conns s) = 1) as -> by lia. by cbn.
  - split; [cbn; destruct (nic_active s); lia|]. f_equal. f_equal. cbn. lia.
Qed.
(** At any time at most one guest NIC is served, however connections come
    and go; a new one is accepted exactly when none is; and in the log a
    connection and its end alternate. *)
Theorem nic_exclusive s :
  nic_run s →
  holders s ≤ 1 ∧ links s ≤ holders s ∧ (nic_active s = true ↔ holders s = 1) ∧
  nic_trace false (nic_log s) = Some (links s =? 1) ∧
  ∀ i, nic_conns s !! i = Some NicAccepted →
    (nic_conns (nic_begin s i) !! i = Some NicStarting ↔ holders s = 0).
Proof.
  intros Hrun. assert (nic_ok s) as [Hs Hl] by (induction Hrun as [|s1 s2 _ IH Hst]; [done|exact (nic_step_ok s1 s2 IH Hst)]).
  split_and!; try done.
  - rewrite Hs. by destruct (nic_active s).
  - apply zsum_le. by intros [].
  - rewrite Hs. by destruct (nic_active s).
  - intros i Hi. rewrite Hs. apply lookup_lt_Some in Hi. unfold nic_begin. cbn [nic_conns].
    rewrite list_lookup_insert_eq; [|done]. destruct (nic_active s); split; congruence.
Qed.
Lemma nic_exclusive_witness :
  let s := {| nic_active := true; nic_conns := [NicServing; NicAccepted]; nic_log := ["connected"] |} in
  holders s ≤ 1 ∧ links s ≤ holders s ∧ (nic_active s = true ↔ holders s = 1) ∧
  nic_trace false (nic_log s) = Some (links s =? 1) ∧
  ∀ i, nic_conns s !! i = Some NicAccepted → (nic_conns (nic_begin s i) !! i = Some NicStarting ↔ holders s = 0).
Proof.
  intros s. refine (nic_exclusive s _).
  refine (nic_next _ _ (nic_next _ _ (nic_next _ _ (nic_next _ _ nic_init (nic_accept _)) (nic_start _ 0 _)) (nic_connected _ 0 _)) (nic_accept _));
    reflexivity.
Defined.
