(* ===== verification/GuestProc.v ===== *)
(** * Guest process events: the OOM guard and the exit tracker

    [src/internal/guest/oom.go], [oom_linux.go] and the tracker of
    [execlog_linux.go]. Events arrive as netlink datagrams of the kernel's
    proc connector; numbers are little endian, as on both supported
    architectures. What /proc holds when the guard reads it is an argument. *)

From S2P Require Import Prelude GoStrings GoStrconv SessionWire.
Open Scope string_scope.
Open Scope list_scope.
Open Scope Z_scope.

(** ** Proc connector events *)

Definition oomAdjGuest : Z := -1000.
Definition oomAdjAgent : Z := -500.
Definition oomAdjChild : Z := 0.
Definition procEventFork : Z := 1.
Definition procEventExec : Z := 2.
Definition procEventExit : Z := 2147483648.
Definition nlmsgHdrLen : Z := 16.
Definition nlmsgAlignTo : Z := 4.
Definition cnMsgLen : Z := 20.

Record procEvent := { what : Z; pid : Z; tgid : Z; childPID : Z; childTGID : Z; exitCode : Z }.

Definition le32 (x : Z) : bytes := [u8 x; u8 (Z.shiftr x 8); u8 (Z.shiftr x 16); u8 (Z.shiftr x 24)].
Definition rdle32 (b : bytes) : Z :=
  nth 0 b 0 + 256 * nth 1 b 0 + 65536 * nth 2 b 0 + 16777216 * nth 3 b 0.

(** The event of one message, the bytes after its netlink header. *)
Definition procEvent_of (msg : bytes) : option procEvent :=
  if blen msg <? cnMsgLen + 24 then None else
  let ev := drop (Z.to_nat cnMsgLen) msg in
  let u i := rdle32 (drop i ev) in
  let e := {| what := u 0%nat; pid := u 16%nat; tgid := u 20%nat; childPID := 0; childTGID := 0; exitCode := 0 |} in
  if (what e =? procEventFork) && (32 <=? blen ev)
  then Some {| what := what e; pid := pid e; tgid := tgid e; childPID := u 24%nat; childTGID := u 28%nat; exitCode := 0 |}
  else if what e =? procEventExit
  then Some {| what := what e; pid := pid e; tgid := tgid e; childPID := 0; childTGID := 0;
               exitCode := if 28 <=? blen ev then u 24%nat else 0 |}
  else if what e =? procEventExec then Some e else None.

(** [None] is a slice out of range: the loop steps to the aligned end of a
    message, which lies past the datagram when the last message is not
    aligned. A round drops at least a header. *)
Definition align (l : Z) : Z := Z.land (l + nlmsgAlignTo - 1) (Z.lnot (nlmsgAlignTo - 1)).
Fixpoint parse_events (fuel : nat) (b : bytes) : option (list procEvent) :=
  match fuel with
  | O => Some []
  | S fuel' =>
      if blen b <? nlmsgHdrLen then Some [] else
      let l := rdle32 b in
      if (l <? nlmsgHdrLen) || (blen b <? l) then Some [] else
      let e := procEvent_of (slice b (Z.to_nat nlmsgHdrLen) (Z.to_nat l)) in
      if blen b <? align l then None else
      match parse_events fuel' (drop (Z.to_nat (align l)) b) with
      | Some out => Some (option_list e ++ out)
      | None => None
      end
  end.
Definition parseProcEvents (b : bytes) : option (list procEvent) := parse_events (S (length b)) b.

(** ** Roles *)

Record procInfo := { ppid : Z; exe : string; argv : list string; adj : Z }.
Definition zeroInfo : procInfo := {| ppid := 0; exe := ""; argv := []; adj := 0 |}.
Inductive oomRole := roleOther | roleGuest | roleAgent.
#[export] Instance oomRole_eq_dec : EqDecision oomRole.
Proof. solve_decision. Defined.

Definition BinaryPath : string := "/.jailoc/jailoc-guest".
Definition isGuestSession (p : procInfo) : bool :=
  String.eqb (exe p) BinaryPath && (1 <? length (argv p))%nat && String.eqb (nth 1 (argv p) "") "session".
Definition isHolder (p : procInfo) : bool :=
  isGuestSession p && (2 <? length (argv p))%nat && String.eqb (nth 2 (argv p) "") "serve".
Definition classify (p parent : procInfo) : oomRole :=
  if isGuestSession p then roleGuest else if isHolder parent then roleAgent else roleOther.

(** ** Rescan *)

Section Rescan.
Context (procs : gmap Z procInfo).
Definition info_of (q : Z) : procInfo := default zeroInfo (procs !! q).
Definition role_of (p : procInfo) : oomRole := classify p (info_of (ppid p)).
Definition rescan_agents : gset Z := dom (filter (λ qp : Z * procInfo, role_of qp.2 = roleAgent) procs).
(** The first loop: sessions and agents that lack their value. *)
Definition role_write (p : procInfo) : option Z :=
  match role_of p with
  | roleGuest => if adj p =? oomAdjGuest then None else Some oomAdjGuest
  | roleAgent => if adj p =? oomAdjAgent then None else Some oomAdjAgent
  | roleOther => None
  end.
(** The walk up the parents, at most 64 of them. *)
Fixpoint below_agent (depth : nat) (anc : Z) : bool :=
  match depth with
  | O => false
  | S depth' =>
      if 1 <? anc then (if bool_decide (anc ∈ rescan_agents) then true else below_agent depth' (ppid (info_of anc))) else false
  end.
(** The second loop. *)
Definition child_write (q : Z) (p : procInfo) : option Z :=
  if bool_decide (q ∈ rescan_agents) || negb (adj p =? oomAdjAgent) then None
  else if below_agent 64 (ppid p) then Some oomAdjChild else None.
Definition rescanPlan : gset Z * gmap Z Z :=
  (rescan_agents, map_imap child_write procs ∪ map_imap (λ _ p, role_write p) procs).
End Rescan.

(** ** The event loop *)

(** [g_agents], and the oom_score_adj values written, latest last. *)
Record oomGuard := { g_agents : gset Z; g_writes : list (Z * Z) }.
Definition set_adj (g : oomGuard) (q v : Z) : oomGuard := {| g_agents := g_agents g; g_writes := g_writes g ++ [(q, v)] |}.
(** [proc] is [readProcInfo] when the event is handled. *)
Definition handle (proc : Z → option procInfo) (g : oomGuard) (ev : procEvent) : oomGuard :=
  if what ev =? procEventExec then
    match proc (tgid ev) with
    | None => g
    | Some p =>
        match classify p (default zeroInfo (proc (ppid p))) with
        | roleGuest => set_adj g (tgid ev) oomAdjGuest
        | roleAgent => set_adj {| g_agents := {[tgid ev]} ∪ g_agents g; g_writes := g_writes g |} (tgid ev) oomAdjAgent
        | roleOther => g
        end
    end
  else if what ev =? procEventFork then
    if negb (childTGID ev =? tgid ev) && bool_decide (tgid ev ∈ g_agents g) then set_adj g (childTGID ev) oomAdjChild else g
  else if what ev =? procEventExit then
    if pid ev =? tgid ev then {| g_agents := g_agents g ∖ {[tgid ev]}; g_writes := g_writes g |} else g
  else g.
Definition rescan (procs : gmap Z procInfo) (g : oomGuard) : oomGuard :=
  {| g_agents := (rescanPlan procs).1; g_writes := g_writes g ++ map_to_list (rescanPlan procs).2 |}.

(** ** The exit tracker *)

Record trackedProc := { threads : Z; status : Z }.
Definition execTracker : Type := gmap Z trackedProc.
Definition t_exec (t : execTracker) (q : Z) : execTracker := <[q := {| threads := 1; status := 0 |}]> t.
Definition t_fork (t : execTracker) (ev : procEvent) : execTracker :=
  match t !! childTGID ev with
  | Some p => if negb (childPID ev =? childTGID ev)
              then <[childTGID ev := {| threads := threads p + 1; status := status p |}]> t else t
  | None => t
  end.
Definition t_exit (t : execTracker) (ev : procEvent) : execTracker * option Z :=
  match t !! tgid ev with
  | None => (t, None)
  | Some p =>
      let p' := {| threads := threads p - 1; status := exitCode ev |} in
      if 0 <? threads p' then (<[tgid ev := p']> t, None) else (delete (tgid ev) t, Some (exitCode ev))
  end.
Definition t_dropped (t : execTracker) : execTracker := ∅.
(** The receive loop of the log: the ended processes with their wait status. *)
Definition track (t : execTracker) (ev : procEvent) : execTracker * list (Z * Z) :=
  if what ev =? procEventExec then (t_exec t (tgid ev), [])
  else if what ev =? procEventFork then (t_fork t ev, [])
  else if what ev =? procEventExit then let '(t, s) := t_exit t ev in (t, match s with Some s => [(tgid ev, s)] | None => [] end)
  else (t, []).
Fixpoint track_all (t : execTracker) (evs : list procEvent) : execTracker * list (Z * Z) :=
  match evs with
  | [] => (t, [])
  | ev :: evs => let '(t, out) := track t ev in let '(t, out') := track_all t evs in (t, out ++ out')
  end.

(** ** The event parser *)

Lemma length_le32 x : length (le32 x) = 4%nat.
Proof. done. Qed.
Lemma rdle32_le32 x rest : rdle32 (le32 x ++ rest) = u32 x.
Proof.
  unfold rdle32, le32. cbn [app nth]. unfold u8, u32, wrap. rewrite !Z.shiftr_div_pow2; try lia.
  change (2 ^ 8) with 256. change (2 ^ 16) with 65536. change (2 ^ 24) with 16777216. change (2 ^ 32) with 4294967296.
  Z.to_euclidean_division_equations. lia.
Qed.
Lemma align_spec l : align l = 4 * ((l + 3) / 4).
Proof.
  unfold align, nlmsgAlignTo. replace (l + 4 - 1) with (l + 3) by lia.
  change (Z.lnot (4 - 1)) with (Z.lnot (Z.ones 2)). rewrite -Z.ldiff_land Z.ldiff_ones_r; [|lia].
  rewrite Z.shiftl_mul_pow2; [|lia]. rewrite Z.shiftr_div_pow2; [|lia]. change (2 ^ 2) with 4. lia.
Qed.
Lemma blen_app a b : blen (a ++ b) = blen a + blen b.
Proof. unfold blen. rewrite length_app. lia. Qed.
Lemma parse_events_aligned fuel b : blen b mod 4 = 0 → is_Some (parse_events fuel b).
Proof.
  revert b. induction fuel as [|fuel IH]; intros b Hb; [by eexists|]. cbn [parse_events].
  destruct (blen b <? nlmsgHdrLen); [by eexists|]. cbv zeta.
  destruct (Z.ltb_spec (rdle32 b) nlmsgHdrLen); [by eexists|].
  destruct (Z.ltb_spec (blen b) (rdle32 b)); [by eexists|]. cbn [orb].
  pose proof (align_spec (rdle32 b)) as Ha. unfold nlmsgHdrLen in *.
  destruct (Z.ltb_spec (blen b) (align (rdle32 b))); [Z.to_euclidean_division_equations; lia|].
  destruct (IH (drop (Z.to_nat (align (rdle32 b))) b)) as [out ->]; [|by eexists].
  unfold blen in *. rewrite length_drop. Z.to_euclidean_division_equations. lia.
Qed.

(** What the kernel sends: the rest of the netlink header, the connector
    header, cpu and timestamp, and the union of 24 bytes. *)
Record kmsg := { k_head : bytes; k_cn : bytes; k_stamp : bytes; k_event : procEvent }.
Definition union_bytes (e : procEvent) : bytes :=
  if what e =? procEventFork then le32 (pid e) ++ le32 (tgid e) ++ le32 (childPID e) ++ le32 (childTGID e) ++ replicate 8 0
  else if what e =? procEventExit then le32 (pid e) ++ le32 (tgid e) ++ le32 (exitCode e) ++ replicate 12 0
  else le32 (pid e) ++ le32 (tgid e) ++ replicate 16 0.
Definition kernel_message (k : kmsg) : bytes :=
  le32 76 ++ k_head k ++ k_cn k ++ le32 (what (k_event k)) ++ k_stamp k ++ union_bytes (k_event k).
Definition known (e : procEvent) : bool :=
  (what e =? procEventFork) || (what e =? procEventExit) || (what e =? procEventExec).
Definition is_u32 (x : Z) : Prop := 0 ≤ x < 2 ^ 32.
Definition kmsg_ok (k : kmsg) : Prop :=
  length (k_head k) = 12%nat ∧ length (k_cn k) = 20%nat ∧ length (k_stamp k) = 12%nat ∧
  let e := k_event k in
  (is_u32 (what e) ∧ is_u32 (pid e) ∧ is_u32 (tgid e) ∧ is_u32 (childPID e) ∧ is_u32 (childTGID e) ∧ is_u32 (exitCode e)) ∧
  (what e ≠ procEventFork → childPID e = 0 ∧ childTGID e = 0) ∧ (what e ≠ procEventExit → exitCode e = 0).

Lemma length_union e : length (union_bytes e) = 24%nat.
Proof. unfold union_bytes. by repeat case_if. Qed.
Lemma rdle32_cons x rest :
  is_u32 x → rdle32 (u8 x :: u8 (Z.shiftr x 8) :: u8 (Z.shiftr x 16) :: u8 (Z.shiftr x 24) :: rest) = x.
Proof. intros Hx. change (rdle32 (le32 x ++ rest) = x). rewrite rdle32_le32. by apply wrap_small. Qed.
Lemma procEvent_of_kernel k :
  kmsg_ok k →
  procEvent_of (k_cn k ++ le32 (what (k_event k)) ++ k_stamp k ++ union_bytes (k_event k)) =
  if known (k_event k) then Some (k_event k) else None.
Proof.
  intros (_ & Hcn & Hst & (Hw & Hp & Ht & Hcp & Hct & Hec) & Hnf & Hne). destruct (k_event k) as [w p t cp ct ec]. cbn [what pid tgid childPID childTGID exitCode] in *.
  set (ev := le32 w ++ k_stamp k ++ _). assert (blen ev = 40) as Hl.
  { unfold ev, blen. rewrite !length_app Hst length_union. done. }
  unfold procEvent_of. rewrite blen_app Hl. unfold blen at 1. rewrite Hcn.
  change (Z.of_nat 20 + 40 <? cnMsgLen + 24) with false. cbv iota.
  assert (drop (Z.to_nat cnMsgLen) (k_cn k ++ ev) = ev) as ->.
  { change (Z.to_nat cnMsgLen) with 20%nat. rewrite -Hcn. apply drop_app_length. }
  cbv zeta. rewrite Hl. change (32 <=? 40) with true. change (28 <=? 40) with true. cbn [what pid tgid].
  clear Hl Hcn. subst ev. unfold union_bytes, known. cbn [what pid tgid childPID childTGID exitCode].
  destruct (k_stamp k) as [|s0 [|s1 [|s2 [|s3 [|s4 [|s5 [|s6 [|s7 [|s8 [|s9 [|s10 [|s11 [|]]]]]]]]]]]]]; try discriminate Hst.
  destruct (Z.eqb_spec w procEventFork) as [->|Hf]; cbn [drop app le32 andb orb].
  { rewrite !rdle32_cons; try done. by rewrite Hne. }
  destruct (Hnf Hf) as [-> ->]. destruct (Z.eqb_spec w procEventExit) as [->|Hx]; cbn [drop app le32 orb].
  { by rewrite !rdle32_cons. }
  rewrite !rdle32_cons; try done. rewrite Hne; [|done].
  destruct (Z.eqb_spec w procEventFork); [done|]. destruct (Z.eqb_spec w procEventExit); [done|].
  by destruct (Z.eqb_spec w procEventExec) as [->|].
Qed.

(** A datagram of kernel messages is read back as exactly the fork, exec
    and exit events in it, in order and with every field, and no datagram
    whose length is a multiple of four makes the parser panic. *)
Theorem parse_messages ks :
  Forall kmsg_ok ks →
  parseProcEvents (concat (map kernel_message ks)) = Some (filter (λ e, known e = true) (map k_event ks)) ∧
  ∀ b, blen b mod 4 = 0 → is_Some (parseProcEvents b).
Proof.
  intros Hks. split; [|intros b Hb; by apply parse_events_aligned]. unfold parseProcEvents.
  assert (∀ fuel, (length (concat (map kernel_message ks)) < fuel)%nat →
    parse_events fuel (concat (map kernel_message ks)) = Some (filter (λ e, known e = true) (map k_event ks))) as H; [|apply H; lia].
  induction Hks as [|k ks Hk _ IH]; intros [|fuel] Hl; try lia; [done|]. cbn [map concat] in *.
  destruct Hk as (Hh & Hcn & Hst & Hrest). set (rest := concat (map kernel_message ks)) in *.
  assert (length (kernel_message k) = 76%nat) as Hm.
  { unfold kernel_message. rewrite !length_app !length_le32 Hh Hcn Hst length_union. done. }
  cbn [parse_events]. rewrite blen_app. unfold blen at 1 3 5. rewrite Hm.
  assert (0 ≤ blen rest) as Hr by (unfold blen; lia).
  destruct (Z.ltb_spec (Z.of_nat 76 + blen rest) nlmsgHdrLen); [unfold nlmsgHdrLen in *; lia|]. cbv zeta.
  assert (rdle32 (kernel_message k ++ rest) = 76) as ->.
  { unfold kernel_message. rewrite -app_assoc rdle32_le32. done. }
  change (76 <? nlmsgHdrLen) with false. destruct (Z.ltb_spec (Z.of_nat 76 + blen rest) 76); [lia|]. cbn [orb].
  change (align 76) with 76. destruct (Z.ltb_spec (Z.of_nat 76 + blen rest) 76); [lia|].
  change (Z.to_nat 76) with 76%nat. change (Z.to_nat nlmsgHdrLen) with 16%nat.
  rewrite slice_app_l; [|lia]. rewrite drop_app_length'; [|done]. rewrite IH; [|rewrite length_app in Hl; lia].
  assert (slice (kernel_message k) 16 76 = k_cn k ++ le32 (what (k_event k)) ++ k_stamp k ++ union_bytes (k_event k)) as ->.
  { unfold slice. unfold kernel_message. rewrite (app_assoc (le32 76)). rewrite drop_app_length'; [|by rewrite length_app Hh].
    apply take_ge. rewrite !length_app Hcn Hst length_union. cbn. lia. }
  rewrite procEvent_of_kernel; [|done]. cbn [map]. rewrite filter_cons. by destruct (known (k_event k)).
Qed.
Definition lab_messages : list kmsg :=
  map (λ e, {| k_head := replicate 12 7; k_cn := replicate 20 9; k_stamp := replicate 12 1; k_event := e |})
    [{| what := procEventFork; pid := 10; tgid := 10; childPID := 11; childTGID := 11; exitCode := 0 |};
     {| what := 4; pid := 3; tgid := 3; childPID := 0; childTGID := 0; exitCode := 0 |};
     {| what := procEventExit; pid := 11; tgid := 11; childPID := 0; childTGID := 0; exitCode := 256 |}].
Lemma parse_messages_witness :
  (parseProcEvents (concat (map kernel_message lab_messages)) = Some (filter (λ e, known e = true) (map k_event lab_messages))) ∧
  ∀ b, blen b mod 4 = 0 → is_Some (parseProcEvents b).
Proof.
  refine (parse_messages lab_messages _). unfold kmsg_ok, is_u32.
  repeat constructor; try (vm_compute; congruence); intros; try reflexivity; exfalso; vm_compute in *; congruence.
Defined.
(** The slice past an unaligned last message. *)
Example parse_unaligned : parseProcEvents (le32 17 ++ replicate 13 0) = None.
Proof. by vm_compute. Qed.

(** ** The rescan *)

(** The processes after the plan's writes. *)
Definition rescanned (procs : gmap Z procInfo) : gmap Z procInfo :=
  map_imap (λ q p, Some {| ppid := ppid p; exe := exe p; argv := argv p; adj := default (adj p) ((rescanPlan procs).2 !! q) |}) procs.

Section RescanSpec.
Context (procs : gmap Z procInfo).
Notation agents := (rescan_agents procs).
Notation role := (role_of procs).

Lemma plan_lookup q :
  (rescanPlan procs).2 !! q =
  p ← procs !! q; match child_write procs q p with Some v => Some v | None => role_write procs p end.
Proof.
  cbn. rewrite lookup_union !map_lookup_imap. destruct (procs !! q) as [p|]; cbn; [|done].
  destruct (child_write procs q p), (role_write procs p); done.
Qed.
Lemma rescanned_lookup q :
  rescanned procs !! q = (λ p, {| ppid := ppid p; exe := exe p; argv := argv p; adj := default (adj p) ((rescanPlan procs).2 !! q) |}) <$> procs !! q.
Proof. unfold rescanned. rewrite map_lookup_imap. by destruct (procs !! q). Qed.
Lemma agents_spec q : q ∈ agents ↔ ∃ p, procs !! q = Some p ∧ role p = roleAgent.
Proof.
  unfold rescan_agents. rewrite elem_of_dom. split.
  - intros [p Hp]. apply map_lookup_filter_Some in Hp as [Hp Hr]. by exists p.
  - intros (p & Hp & Hr). exists p. by apply map_lookup_filter_Some.
Qed.
End RescanSpec.

(** Roles and parents do not depend on the values. *)
Definition same_but_adj (p p' : procInfo) : Prop := ppid p' = ppid p ∧ exe p' = exe p ∧ argv p' = argv p.
Lemma info_of_rescanned procs q : same_but_adj (info_of procs q) (info_of (rescanned procs) q).
Proof. unfold info_of. rewrite rescanned_lookup. by destruct (procs !! q). Qed.
Lemma classify_same p p' a a' : same_but_adj p p' → same_but_adj a a' → classify p' a' = classify p a.
Proof. intros (_ & H1 & H2) (_ & H3 & H4). unfold classify, isHolder, isGuestSession. by rewrite H1 H2 H3 H4. Qed.
Lemma role_of_rescanned procs p p' : same_but_adj p p' → role_of (rescanned procs) p' = role_of procs p.
Proof.
  intros Hp. unfold role_of. pose proof Hp as (-> & _ & _). apply classify_same; [done|]. apply info_of_rescanned.
Qed.
Lemma agents_rescanned procs : rescan_agents (rescanned procs) = rescan_agents procs.
Proof.
  apply set_eq. intros q. rewrite !agents_spec. rewrite rescanned_lookup. split.
  - intros (p' & Hp' & Hr). apply fmap_Some in Hp' as (p & Hp & ->). exists p. split; [done|]. rewrite -Hr. symmetry. by apply role_of_rescanned.
  - intros (p & Hp & Hr). rewrite Hp. eexists. split; [reflexivity|]. rewrite -Hr. by apply role_of_rescanned.
Qed.
Lemma below_rescanned procs d q : below_agent (rescanned procs) d q = below_agent procs d q.
Proof.
  revert q. induction d as [|d IH]; intros q; [done|]. cbn [below_agent]. rewrite agents_rescanned IH.
  by destruct (info_of_rescanned procs q) as (-> & _ & _).
Qed.

(** The value the rescan leaves. *)
Lemma rescanned_adj procs q p :
  procs !! q = Some p →
  adj (info_of (rescanned procs) q) =
  match role_of procs p with
  | roleAgent => oomAdjAgent
  | roleGuest => if (adj p =? oomAdjAgent) && below_agent procs 64 (ppid p) then oomAdjChild else oomAdjGuest
  | roleOther => if (adj p =? oomAdjAgent) && below_agent procs 64 (ppid p) then oomAdjChild else adj p
  end.
Proof.
  intros Hp. unfold info_of. rewrite rescanned_lookup Hp. cbn [fmap option_fmap option_map default adj]. rewrite plan_lookup Hp. cbn [mbind option_bind].
  unfold child_write, role_write. destruct (decide (q ∈ rescan_agents procs)) as [Ha|Ha].
  - rewrite bool_decide_eq_true_2; [|done]. apply agents_spec in Ha as (p' & Hp' & Hr). rewrite Hp in Hp'. injection Hp' as <-. rewrite Hr. cbn [orb].
    destruct (Z.eqb_spec (adj p) oomAdjAgent) as [->|]; done.
  - rewrite bool_decide_eq_false_2; [|done]. cbn [orb].
    assert (role_of procs p ≠ roleAgent) as Hr by (intros Hr; apply Ha, agents_spec; eauto).
    destruct (Z.eqb_spec (adj p) oomAdjAgent) as [E|E]; cbn [negb andb].
    + rewrite E. destruct (below_agent procs 64 (ppid p)), (role_of procs p); done.
    + destruct (role_of procs p); [done| |done]. destruct (Z.eqb_spec (adj p) oomAdjGuest) as [->|]; done.
Qed.
Definition settled (procs : gmap Z procInfo) : Prop :=
  ∀ q p, procs !! q = Some p →
    match role_of procs p with
    | roleAgent => adj p = oomAdjAgent
    | roleGuest => adj p = oomAdjGuest
    | roleOther => adj p ≠ oomAdjAgent ∨ below_agent procs 64 (ppid p) = false
    end.
Lemma settled_plan procs : settled procs → (rescanPlan procs).2 = ∅.
Proof.
  intros Hs. apply map_eq. intros q. rewrite plan_lookup lookup_empty. destruct (procs !! q) as [p|] eqn:Hp; [|done]. cbn [mbind option_bind].
  specialize (Hs q p Hp). unfold child_write, role_write. destruct (role_of procs p) eqn:Hr.
  - destruct Hs as [Hs|Hs].
    + destruct (Z.eqb_spec (adj p) oomAdjAgent); [done|]. by rewrite orb_true_r.
    + rewrite Hs. by destruct (_ || _).
  - rewrite Hs. by rewrite orb_true_r.
  - rewrite bool_decide_eq_true_2; [|by apply agents_spec; eauto]. by rewrite Hs.
Qed.
Lemma rescanned_role procs q p :
  procs !! q = Some p →
  ∃ p', rescanned procs !! q = Some p' ∧ same_but_adj p p' ∧ role_of (rescanned procs) p' = role_of procs p ∧ adj p' = adj (info_of (rescanned procs) q).
Proof.
  intros Hp. eexists. rewrite rescanned_lookup Hp. split; [reflexivity|]. split; [done|].
  split; [by apply role_of_rescanned|]. unfold info_of. by rewrite rescanned_lookup Hp.
Qed.

(** After a rescan every session program has the agent's value, no other
    process within 64 parents below one keeps it, and the rest is unchanged; a
    second rescan exempts every remaining session process, and from then on a
    rescan writes nothing. *)
Theorem rescan_settles procs :
  let procs1 := rescanned procs in
  let procs2 := rescanned procs1 in
  (∀ q p, procs !! q = Some p →
     (role_of procs p = roleAgent → adj (info_of procs1 q) = oomAdjAgent) ∧
     (role_of procs p ≠ roleAgent → below_agent procs 64 (ppid p) = true → adj (info_of procs1 q) ≠ oomAdjAgent) ∧
     (role_of procs p = roleOther → below_agent procs 64 (ppid p) = false → adj (info_of procs1 q) = adj p) ∧
     (role_of procs p = roleGuest → adj (info_of procs2 q) = oomAdjGuest)) ∧
  rescanPlan procs2 = (rescan_agents procs, ∅).
Proof.
  intros procs1 procs2.
  assert (∀ q p, procs !! q = Some p → role_of procs p = roleGuest → adj (info_of procs2 q) = oomAdjGuest) as Hg.
  { intros q p Hp Hr. destruct (rescanned_role procs q p Hp) as (p1 & Hp1 & (Hpp & _) & Hr1 & Ha1).
    unfold procs2. rewrite (rescanned_adj procs1 q p1 Hp1). rewrite Hr1 Hr. rewrite Ha1 (rescanned_adj procs q p Hp) Hr.
    by destruct ((adj p =? oomAdjAgent) && below_agent procs 64 (ppid p)). }
  split.
  - intros q p Hp. split_and!; [..|by apply Hg]; intros Hr; unfold procs1; rewrite (rescanned_adj procs q p Hp).
    + by rewrite Hr.
    + intros ->. rewrite andb_true_r. destruct (Z.eqb_spec (adj p) oomAdjAgent); destruct (role_of procs p); done.
    + intros ->. by rewrite Hr andb_false_r.
  - rewrite (surjective_pairing (rescanPlan procs2)). f_equal.
    { cbn. unfold procs2, procs1. by rewrite !agents_rescanned. }
    apply settled_plan. intros q p2 Hp2. unfold procs2 in Hp2. rewrite rescanned_lookup in Hp2.
    apply fmap_Some in Hp2 as (p1 & Hp1 & E2). pose proof Hp1 as Hp1'. unfold procs1 in Hp1. rewrite rescanned_lookup in Hp1.
    apply fmap_Some in Hp1 as (p & Hp & E1).
    assert (same_but_adj p1 p2) as Hs2 by (by rewrite E2). assert (same_but_adj p p1) as Hs1 by (by rewrite E1).
    assert (adj p2 = adj (info_of procs2 q)) as Ha2.
    { unfold info_of, procs2. rewrite rescanned_lookup Hp1'. by rewrite E2. }
    rewrite (role_of_rescanned procs1 p1 p2 Hs2) (role_of_rescanned procs p p1 Hs1).
    pose proof (rescanned_adj procs1 q p1 Hp1') as Hv. rewrite (role_of_rescanned procs p p1 Hs1) in Hv.
    destruct (role_of procs p) eqn:Hr; rewrite Ha2; [|by apply (Hg q p)|exact Hv].
    unfold procs2. rewrite Hv !below_rescanned. destruct Hs2 as (-> & _).
    destruct (Z.eqb_spec (adj p1) oomAdjAgent) as [E|E]; cbn [andb]; [|by left].
    destruct (below_agent procs 64 (ppid p1)); [by left|by right].
Qed.
(** A session process below an agent that inherited the agent's value gets the
    value of an ordinary child first. *)
Example rescan_two_rounds :
  let serve := {| ppid := 1; exe := BinaryPath; argv := ["jailoc-guest"; "session"; "serve"]; adj := -1000 |} in
  let agent := {| ppid := 10; exe := "/bin/agent"; argv := ["agent"]; adj := -500 |} in
  let attach := {| ppid := 11; exe := BinaryPath; argv := ["jailoc-guest"; "session"; "attach"]; adj := -500 |} in
  let procs := <[10 := serve]> (<[11 := agent]> (<[12 := attach]> ∅)) in
  adj (info_of (rescanned procs) 12) = 0 ∧ adj (info_of (rescanned (rescanned procs)) 12) = -1000 ∧
  adj (info_of (rescanned procs) 11) = -500.
Proof. by vm_compute. Qed.

(** ** The exit tracker counts threads *)

(** The live threads of each recorded process, and the processes that end. *)
Definition live : Type := gmap Z (gset Z).
Definition spec_track (s : live) (ev : procEvent) : live * list (Z * Z) :=
  if what ev =? procEventExec then (<[tgid ev := {[tgid ev]}]> s, [])
  else if what ev =? procEventFork then
    match s !! childTGID ev with
    | Some ts => (<[childTGID ev := {[childPID ev]} ∪ ts]> s, [])
    | None => (s, [])
    end
  else if what ev =? procEventExit then
    match s !! tgid ev with
    | Some ts =>
        let ts := ts ∖ {[pid ev]} in
        if bool_decide (ts = ∅) then (delete (tgid ev) s, [(tgid ev, exitCode ev)]) else (<[tgid ev := ts]> s, [])
    | None => (s, [])
    end
  else (s, []).
Fixpoint spec_all (s : live) (evs : list procEvent) : live * list (Z * Z) :=
  match evs with
  | [] => (s, [])
  | ev :: evs => let '(s, out) := spec_track s ev in let '(s, out') := spec_all s evs in (s, out ++ out')
  end.
(** An event the kernel can send: a new thread is new, an exiting one lives,
    and a new process is not one that is still recorded. *)
Definition possible (s : live) (ev : procEvent) : bool :=
  (if what ev =? procEventFork
   then match s !! childTGID ev with
        | Some ts => bool_decide (childPID ev ≠ childTGID ev ∧ childPID ev ∉ ts)
        | None => true
        end else true) &&
  (if what ev =? procEventExit
   then match s !! tgid ev with Some ts => bool_decide (pid ev ∈ ts) | None => true end else true).
Fixpoint all_possible (s : live) (evs : list procEvent) : bool :=
  match evs with
  | [] => true
  | ev :: evs => possible s ev && all_possible (spec_track s ev).1 evs
  end.
Definition counts (t : execTracker) (s : live) : Prop :=
  ∀ q, match s !! q with
       | Some ts => ∃ p, t !! q = Some p ∧ threads p = Z.of_nat (size ts)
       | None => t !! q = None
       end.
Lemma counts_insert t s q p ts : counts t s → threads p = Z.of_nat (size ts) → counts (<[q := p]> t) (<[q := ts]> s).
Proof.
  intros Hc Hp q'. destruct (decide (q' = q)) as [->|Hq].
  - rewrite !lookup_insert_eq. by exists p.
  - rewrite !lookup_insert_ne; [apply Hc|congruence..].
Qed.
Lemma counts_delete t s q : counts t s → counts (delete q t) (delete q s).
Proof.
  intros Hc q'. destruct (decide (q' = q)) as [->|Hq]; [by rewrite !lookup_delete_eq|].
  rewrite !lookup_delete_ne; [apply Hc|congruence..].
Qed.
Lemma track_spec t s ev :
  counts t s → possible s ev = true →
  (track t ev).2 = (spec_track s ev).2 ∧ counts (track t ev).1 (spec_track s ev).1.
Proof.
  intros Hc Hp. apply andb_true_iff in Hp as [Hf Hx]. unfold track, spec_track. destruct (what ev =? procEventExec).
  { split; [done|]. apply counts_insert; [done|]. by rewrite size_singleton. }
  destruct (Z.eqb_spec (what ev) procEventFork) as [_|_].
  { split; [by destruct (s !! childTGID ev)|]. unfold t_fork. pose proof (Hc (childTGID ev)) as Hq.
    destruct (s !! childTGID ev) as [ts|] eqn:Hs; [|by rewrite Hq].
    destruct Hq as (p & -> & Hp). apply bool_decide_eq_true in Hf as [Hne Hnew].
    destruct (Z.eqb_spec (childPID ev) (childTGID ev)); [done|]. cbn [negb fst]. apply counts_insert; [done|]. cbn [threads].
    rewrite size_union; [|set_solver]. rewrite size_singleton. lia. }
  destruct (Z.eqb_spec (what ev) procEventExit) as [_|_]; [|by split].
  unfold t_exit. pose proof (Hc (tgid ev)) as Hq.
  destruct (s !! tgid ev) as [ts|] eqn:Hs; [|rewrite Hq; by split].
  destruct Hq as (p & -> & Hp). apply bool_decide_eq_true in Hx. cbv zeta. cbn [threads].
  assert (Z.of_nat (size (ts ∖ {[pid ev]})) = threads p - 1) as Hsz.
  { assert ({[pid ev]} ⊆ ts) as Hsub by set_solver. pose proof (subseteq_size _ _ Hsub) as Hle.
    rewrite size_difference; [|done]. rewrite size_singleton in Hle |- *. lia. }
  destruct (decide (ts ∖ {[pid ev]} = ∅)) as [He|He].
  - rewrite bool_decide_eq_true_2; [|done]. rewrite He size_empty in Hsz. destruct (Z.ltb_spec 0 (threads p - 1)); [lia|].
    split; [done|]. by apply counts_delete.
  - rewrite bool_decide_eq_false_2; [|done].
    assert (size (ts ∖ {[pid ev]}) ≠ 0%nat) by (intros H0; apply He; by apply leibniz_equiv, size_empty_inv).
    destruct (Z.ltb_spec 0 (threads p - 1)); [|lia]. split; [done|]. apply counts_insert; [done|]. cbn [threads]. lia.
Qed.

(** The tracker, which only counts, reports a process as ended exactly when
    the last of its threads exits, with the status of that thread, in every
    sequence of events the kernel can send. *)
Theorem track_refines evs :
  all_possible ∅ evs = true → (track_all ∅ evs).2 = (spec_all ∅ evs).2.
Proof.
  assert (counts ∅ ∅) as Hc by (intros q; by rewrite lookup_empty).
  revert Hc. generalize (∅ : execTracker) as t, (∅ : live) as s. induction evs as [|ev evs IH]; intros t s Hc Hp; [done|].
  cbn [all_possible] in Hp. apply andb_true_iff in Hp as [Hp Hps]. destruct (track_spec t s ev Hc Hp) as [Ho Hc']. cbn [track_all spec_all].
  destruct (track t ev) as [t' out], (spec_track s ev) as [s' out']. cbn in *. subst out'.
  specialize (IH t' s' Hc' Hps). destruct (track_all t' evs), (spec_all s' evs). cbn in *. by subst.
Qed.
Lemma track_refines_witness :
  let ev w p t cp ct ec := {| what := w; pid := p; tgid := t; childPID := cp; childTGID := ct; exitCode := ec |} in
  let evs := [ev procEventExec 5 5 0 0 0; ev procEventFork 5 5 6 5 0; ev procEventExit 5 5 0 0 0; ev procEventExit 6 5 0 0 256] in
  (track_all ∅ evs).2 = (spec_all ∅ evs).2 ∧ (track_all ∅ evs).2 = [(5, 256)].
Proof.
  intros ev evs. split; [|vm_compute; reflexivity].
  refine (track_refines evs _). vm_compute. reflexivity.
Defined.
