(* ===== verification/ExecLog.v ===== *)
(** * The guest's process log

    [src/internal/guest/execlog_linux.go]: what a record of the log says and
    how delivered secrets are kept out of it. The content of /proc, of the
    secrets directory and of the environment file is an argument, and so is
    the table of signal names of golang.org/x/sys. *)

From S2P Require Import Prelude GoStrings GoStrconv GoSort.
Open Scope string_scope.
Open Scope list_scope.
Open Scope Z_scope.

Definition minSecretLen : nat := 8.
Definition redacted : string := "[redacted]".
Definition lf : string := sep1 (chr 10).

(** ** Redaction *)

Definition redact1 (values : list string) (a : string) : string := foldl (λ r v, ReplaceAll r v redacted) a values.
(** The copy of [argv] is made only when an argument changes, so the caller's
    slice stays as it was. *)
Definition redact (argv values : list string) : list string := map (redact1 values) argv.

(** [add]: the value and its lines. *)
Definition secret_pieces (v : string) : list string :=
  filter (λ s, (minSecretLen ≤ String.length s)%nat) (map TrimSpace (v :: Split v lf)).
(** A directory entry: its name, whether it is a regular file, and what
    [readLimited] returns. *)
Record secret_entry := { se_Name : string; se_Regular : bool; se_Data : option string }.
Definition entry_values (e : secret_entry) : list string :=
  if negb (se_Regular e) || HasPrefix (se_Name e) ".tmp-" then [] else
  match se_Data e with Some d => secret_pieces d | None => [] end.
Definition env_line_values (line : string) : list string :=
  let '(_, v, ok) := Cut line "=" in if ok then secret_pieces v else [].
Definition longest_first (a b : string) : bool := (String.length b <=? String.length a)%nat.
(** The keys of the set come in an arbitrary order, here that of their first
    appearance; [mergeSecretValues] sorts them again. *)
Definition loadSecretValues (dir : option (list secret_entry)) (envFile : option string) : list string :=
  let fromDir := match dir with Some es => es ≫= entry_values | None => [] end in
  let fromEnv := match envFile with Some d => Split d lf ≫= env_line_values | None => [] end in
  stable_sort longest_first (dedup (fromDir ++ fromEnv)).
Definition mergeSecretValues (old added : list string) : list string :=
  stable_sort longest_first (compact (sort_strings (old ++ added))).

Record secretValues := { sv_stamp : string; sv_values : list string }.
(** [stamp] is what the modification times and sizes make of the string. *)
Definition current (stamp : string) (dir : option (list secret_entry)) (envFile : option string) (s : secretValues) : secretValues :=
  if String.eqb stamp (sv_stamp s) then s
  else {| sv_stamp := stamp; sv_values := mergeSecretValues (sv_values s) (loadSecretValues dir envFile) |}.

(** ** Records *)

Record ExecRecord := {
  x_Event : string; x_PID : Z; x_PPID : Z; x_UID : Z; x_Comm : string; x_Cwd : string; x_Argv : list string; x_Exe : string;
  x_Code : Z; x_Signal : string
}.
Definition exitRecord (SignalName : Z → string) (pid status : Z) : ExecRecord :=
  let sig := Z.land status 127 in
  let r code signal := {| x_Event := "exit"; x_PID := pid; x_PPID := 0; x_UID := -1; x_Comm := ""; x_Cwd := ""; x_Argv := [];
                          x_Exe := ""; x_Code := code; x_Signal := signal |} in
  if negb (sig =? 0)
  then r 0 (if String.eqb (SignalName sig) "" then "signal " +:+ Itoa sig else SignalName sig)
  else r (Z.land (Z.shiftr status 8) 255) "".

(** The files of a process in /proc. *)
Record proc_files := { pf_cmdline : option string; pf_comm : option string; pf_cwd : string; pf_exe : string; pf_status : option string }.
Definition nul : string := sep1 (chr 0).
Definition atoi0 (s : string) : Z := num_val (Atoi s).
Definition status_line (ids : Z * Z) (line : string) : Z * Z :=
  let '(key, val, ok) := Cut line ":" in
  if negb ok then ids else
  match Fields val with
  | [] => ids
  | f :: _ => if String.eqb key "PPid" then (atoi0 f, ids.2) else if String.eqb key "Uid" then (ids.1, atoi0 f) else ids
  end.
Definition readExec (pid : Z) (p : proc_files) : ExecRecord :=
  let argv := match pf_cmdline p with
              | Some d => if String.eqb d "" then [] else Split (TrimSuffix d nul) nul
              | None => []
              end in
  let ids := match pf_status p with Some d => foldl status_line (0, -1) (Split d lf) | None => (0, -1) end in
  {| x_Event := ""; x_PID := pid; x_PPID := ids.1; x_UID := ids.2;
     x_Comm := match pf_comm p with Some d => TrimSpace d | None => "" end; x_Cwd := pf_cwd p; x_Argv := argv; x_Exe := pf_exe p;
     x_Code := 0; x_Signal := "" |}.

Example readExec_ex :
  let p := {| pf_cmdline := Some ("ls" +:+ nul +:+ "-l" +:+ nul); pf_comm := Some ("ls" +:+ lf); pf_cwd := "/w"; pf_exe := "/bin/ls";
              pf_status := Some ("Name: ls" +:+ lf +:+ "PPid: 7" +:+ lf +:+ "Uid: 1000 1000") |} in
  x_Argv (readExec 9 p) = ["ls"; "-l"] ∧ x_PPID (readExec 9 p) = 7 ∧ x_UID (readExec 9 p) = 1000 ∧
  x_Code (exitRecord (λ _, "") 9 256) = 1 ∧ x_Signal (exitRecord (λ _, "") 9 9) = "signal 9" ∧
  mergeSecretValues ["password"] ["a long secret"; "password"] = ["a long secret"; "password"] ∧
  redact ["--token=password1"; "x"] ["password"] = ["--token=[redacted]1"; "x"].
Proof. by vm_compute. Qed.

(** ** Occurrences *)

Lemma Contains_app_l a b x : Contains a x = true → Contains (a +:+ b) x = true.
Proof. rewrite !Contains_spec. intros (p & q & ->). exists p, (q +:+ b). by rewrite -!sapp_assoc. Qed.
Lemma Contains_app_r a b x : Contains b x = true → Contains (a +:+ b) x = true.
Proof. rewrite !Contains_spec. intros (p & q & ->). exists (a +:+ p), q. by rewrite -!sapp_assoc. Qed.
(** The text before the first occurrence does not contain it. *)
Lemma cut_before s x b a : x ≠ "" → cut s x = Some (b, a) → Contains b x = false.
Proof.
  intros Hx. revert b. induction s as [|c s IH]; intros b; rewrite cut_unfold.
  - destruct (CutPrefix "" x) as [r|] eqn:E; [|done]. apply CutPrefix_Some in E. destruct x; done.
  - destruct (CutPrefix (String c s) x) as [r|] eqn:E.
    { intros [= <- <-]. destruct (Contains "" x) eqn:Hc; [|done]. apply Contains_spec in Hc as (p & q & H).
      destruct p; [|done]. destruct x; done. }
    destruct (cut s x) as [[b' a']|] eqn:E'; [|done]. intros [= <- <-]. pose proof (cut_Some _ _ _ _ E') as Hs. specialize (IH b' eq_refl).
    destruct (Contains (String c b') x) eqn:Hc; [|done]. apply Contains_spec in Hc as (p & q & H). destruct p as [|d p].
    + exfalso. rewrite (proj2 (CutPrefix_Some (String c s) x (q +:+ x +:+ a'))) in E; [done|].
      rewrite Hs -sapp_cons H -!sapp_assoc. done.
    + rewrite sapp_cons in H. injection H as -> H. rewrite -IH. symmetry. apply Contains_spec. by exists p, q.
Qed.
Lemma app_sep_prefix a b c x q : has_char c x = false → a +:+ String c b = x +:+ q → ∃ r, a = x +:+ r.
Proof.
  revert a. induction x as [|f x IH]; intros a Hx H; [by exists a|].
  unfold has_char in Hx. cbn in Hx. apply orb_false_iff in Hx as [Hf Hx]. destruct a as [|g a].
  { injection H as <- H. by rewrite Ascii.eqb_refl in Hf. }
  rewrite !sapp_cons in H. injection H as -> H. destruct (IH a Hx H) as [r ->]. by exists r.
Qed.
(** An occurrence of a text without [c] lies on one side of it. *)
Lemma Contains_sep a b c x : has_char c x = false → Contains (a +:+ String c b) x = true → Contains a x = true ∨ Contains b x = true.
Proof.
  intros Hc H. apply Contains_spec in H as (p & q & H). revert a H. induction p as [|d p IH]; intros a H.
  - left. destruct (app_sep_prefix a b c x q Hc H) as [r ->]. apply Contains_spec. by exists "", r.
  - destruct a as [|e a].
    + injection H as -> H. right. rewrite H. apply Contains_spec. by exists p, q.
    + rewrite !sapp_cons in H. injection H as -> H. destruct (IH a H) as [Ha|Hb]; [|by right]. left.
      change (String d a) with (String d "" +:+ a). by apply Contains_app_r.
Qed.

(** ** Redaction hides the values *)

(** A value redaction can hide: long enough, without the brackets of the
    replacement text and not its inside. *)
Definition hideable (v : string) : Prop :=
  (minSecretLen ≤ String.length v)%nat ∧ has_char "[" v = false ∧ has_char "]" v = false ∧ v ≠ "redacted".
Lemma hideable_redacted v : hideable v → Contains "redacted" v = false.
Proof.
  intros (Hl & _ & _ & Hne). destruct (Contains "redacted" v) eqn:E; [|done]. apply Contains_spec in E as (b & a & E).
  pose proof (f_equal String.length E) as Hlen. rewrite !slength_app in Hlen. unfold minSecretLen in Hl. cbn in Hlen.
  destruct b, a; cbn in Hlen; try lia. rewrite sapp_nil_r in E. by rewrite E in Hne.
Qed.
Lemma hideable_ne v : hideable v → v ≠ "".
Proof. intros (Hl & _) ->. unfold minSecretLen in Hl. cbn in Hl. lia. Qed.

(** No new occurrence of a hideable text. *)
Lemma replace_keeps_out n s v w :
  hideable w → Contains s w = false → Contains (replace_fuel n s v redacted) w = false.
Proof.
  intros Hw. revert s. induction n as [|n IH]; intros s Hs; cbn [replace_fuel]; [done|].
  destruct (cut s v) as [[b a]|] eqn:E; [|done]. apply cut_Some in E.
  destruct (Contains (b +:+ redacted +:+ replace_fuel n a v redacted) w) eqn:Hc; [|done]. exfalso.
  pose proof Hw as (_ & H1 & H2 & _).
  change (redacted +:+ replace_fuel n a v redacted) with (String "[" ("redacted" +:+ String "]" (replace_fuel n a v redacted))) in Hc.
  destruct (Contains_sep _ _ _ _ H1 Hc) as [Hc1|Hc1]; clear Hc; rename Hc1 into Hc.
  - apply (Contains_app_l _ (v +:+ a)) in Hc. rewrite -E in Hc. congruence.
  - destruct (Contains_sep _ _ _ _ H2 Hc) as [Hc1|Hc1]; clear Hc; rename Hc1 into Hc.
    + rewrite (hideable_redacted w Hw) in Hc. done.
    + rewrite IH in Hc; [done|]. destruct (Contains a w) eqn:Ha; [|done].
      apply (Contains_app_r v), (Contains_app_r b) in Ha. rewrite -E in Ha. congruence.
Qed.
Lemma replace_removes n s v : (String.length s < n)%nat → hideable v → Contains (replace_fuel n s v redacted) v = false.
Proof.
  intros Hn Hv. revert s Hn. induction n as [|n IH]; intros s Hn; [lia|]. cbn [replace_fuel].
  destruct (cut s v) as [[b a]|] eqn:E; [|unfold Contains; by rewrite E].
  pose proof (cut_before s v b a (hideable_ne v Hv) E) as Hb. apply cut_Some in E.
  destruct (Contains (b +:+ redacted +:+ replace_fuel n a v redacted) v) eqn:Hc; [|done]. exfalso.
  pose proof Hv as (Hl & H1 & H2 & _).
  change (redacted +:+ replace_fuel n a v redacted) with (String "[" ("redacted" +:+ String "]" (replace_fuel n a v redacted))) in Hc.
  destruct (Contains_sep _ _ _ _ H1 Hc) as [Hc1|Hc1]; clear Hc; rename Hc1 into Hc; [congruence|].
  destruct (Contains_sep _ _ _ _ H2 Hc) as [Hc1|Hc1]; clear Hc; rename Hc1 into Hc.
  - rewrite (hideable_redacted v Hv) in Hc. done.
  - rewrite IH in Hc; [done|]. rewrite E !slength_app in Hn. unfold minSecretLen in Hl. lia.
Qed.
Lemma redact1_hides values a :
  Forall hideable values →
  (∀ w, hideable w → Contains a w = false → Contains (redact1 values a) w = false) ∧
  ∀ v, v ∈ values → Contains (redact1 values a) v = false.
Proof.
  unfold redact1. intros Hv. revert a. induction Hv as [|v values Hv Hvs IH]; intros a; cbn [foldl].
  { split; [done|]. intros v Hin. by apply elem_of_nil in Hin. }
  destruct (IH (ReplaceAll a v redacted)) as [IH1 IH2]. split.
  - intros w Hw Ha. apply IH1; [done|]. by apply replace_keeps_out.
  - intros w Hin. apply elem_of_cons in Hin as [->|Hin]; [|by apply IH2].
    apply IH1; [done|]. apply replace_removes; [lia|done].
Qed.
Lemma redact1_other values a : (∀ v, v ∈ values → Contains a v = false) → redact1 values a = a.
Proof.
  unfold redact1. induction values as [|v values IH]; intros H; [done|]. cbn [foldl].
  assert (ReplaceAll a v redacted = a) as ->; [|apply IH; intros w Hw; apply H; by constructor].
  specialize (H v ltac:(constructor)). unfold Contains in H. apply bool_decide_eq_false in H.
  unfold ReplaceAll. cbn [replace_fuel]. destruct (cut a v) as [p|]; [|done]. exfalso. apply H. by exists p.
Qed.

Lemma longest_total a b : longest_first a b = true ∨ longest_first b a = true.
Proof. unfold longest_first. destruct (Nat.leb_spec (String.length b) (String.length a)); [by left|right]. apply Nat.leb_le. lia. Qed.
Lemma longest_trans a b c : longest_first a b = true → longest_first b c = true → longest_first a c = true.
Proof. unfold longest_first. rewrite !Nat.leb_le. lia. Qed.
(** Merging keeps exactly the values of both lists, each once and the longest
    first, whatever order the new ones came in. *)
Lemma mergeSecretValues_spec old added :
  let vs := mergeSecretValues old added in
  (∀ v, v ∈ vs ↔ v ∈ old ∨ v ∈ added) ∧ NoDup vs ∧ StronglySorted (λ a b, longest_first a b = true) vs ∧
  ∀ added', added' ≡ₚ added → mergeSecretValues old added' = vs.
Proof.
  intros vs. unfold vs, mergeSecretValues. split_and!.
  - intros v. rewrite (stable_sort_perm _ _) elem_of_compact (sort_strings_perm _) elem_of_app. done.
  - rewrite (stable_sort_perm _ _). apply (compact_NoDup (λ a b, strle a b = true)); [apply _|]. apply sort_strings_sorted.
  - apply stable_sort_sorted; [exact longest_total|exact longest_trans].
  - intros added' Hp. do 2 f_equal. apply sort_strings_canonical. by rewrite Hp.
Qed.

(** Once the guest has read the delivered secrets, no recorded argument
    contains a secret value, one of its lines, or a value delivered earlier,
    provided none of them clashes with the replacement text; an argument
    without any of them is recorded as it is. *)
Theorem redact_hides stamp dir envFile s argv :
  stamp ≠ sv_stamp s →
  Forall hideable (sv_values s ++ loadSecretValues dir envFile) →
  let values := sv_values (current stamp dir envFile s) in
  Forall (λ a, ∀ v, v ∈ sv_values s ++ loadSecretValues dir envFile → Contains a v = false) (redact argv values) ∧
  ∀ i a, argv !! i = Some a → (∀ v, v ∈ sv_values s ++ loadSecretValues dir envFile → Contains a v = false) →
    redact argv values !! i = Some a.
Proof.
  intros Hst Hh values. assert (∀ v, v ∈ values ↔ v ∈ sv_values s ++ loadSecretValues dir envFile) as Hv.
  { intros v. unfold values, current. destruct (String.eqb_spec stamp (sv_stamp s)); [done|]. cbn [sv_values].
    rewrite elem_of_app. apply (proj1 (mergeSecretValues_spec _ _)). }
  split.
  - unfold redact. apply Forall_map, Forall_true. intros a v Hin. apply redact1_hides; [|by apply Hv].
    apply Forall_forall. intros w Hw. rewrite Forall_forall in Hh. by apply Hh, Hv.
  - intros i a Hi Ha. unfold redact. rewrite list_lookup_fmap Hi. cbn. f_equal. apply redact1_other. intros v Hin. by apply Ha, Hv.
Qed.
Definition lab_env : string := "TOKEN=hunter2hunter2" +:+ lf +:+ "SHORT=x".
Lemma redact_hides_witness :
  let s := {| sv_stamp := ""; sv_values := [] |} in
  Forall (λ a, ∀ v, v ∈ [] ++ loadSecretValues None (Some lab_env) → Contains a v = false)
    (redact ["curl"; "-u:hunter2hunter2"] (sv_values (current "1" None (Some lab_env) s))) ∧
  redact ["curl"; "-u:hunter2hunter2"] (sv_values (current "1" None (Some lab_env) s)) = ["curl"; "-u:[redacted]"].
Proof.
  intros s. split; [|vm_compute; reflexivity].
  refine (proj1 (redact_hides "1" None (Some lab_env) s ["curl"; "-u:hunter2hunter2"] _ _)); [discriminate|].
  vm_compute. repeat constructor; discriminate.
Defined.
(** A value that is the inside of the replacement text stays readable. *)
Example redact_clash : redact ["redacted"] ["redacted"] = ["[redacted]"].
Proof. by vm_compute. Qed.
