(* ===== verification/GuestSys.v ===== *)
(** * Guest system services

    The parts of jailoc-guest's init that decide something:
    [src/internal/guest/memory.go] (page cache reclaim and the swap header),
    [mounts.go] (mount order), [hosts.go], [reload.go] (session environment),
    [fsmagic.go], the loopback mirrors of [hostports_linux.go] and the clock
    step of [clock_linux.go]. File contents and what the kernel answers are
    arguments. *)

From S2P Require Import Prelude GoStrings GoStrconv GoSort SessionWire GuestProc ConfigChecks Resolve.
Open Scope string_scope.
Open Scope list_scope.
Open Scope Z_scope.

(** ** Memory *)

Definition reclaimFloorDiv : Z := 8.
Definition reclaimStepDiv : Z := 4.
Definition reclaimMin : Z := 33554432.
Definition meminfo : Type := gmap string Z.
Definition field (info : meminfo) (name : string) : Z := default 0 (info !! name).

(** The lines of a [bufio.Scanner]; it fails on a line of 64 KiB. *)
Definition newline : string := sep1 (chr 10).
Definition scan_lines (text : string) : option (list string) :=
  let lines := Split text newline in
  if forallb (λ l, (String.length l <? 65536)%nat) lines then Some (map (λ l, TrimSuffix l (sep1 (chr 13))) lines) else None.
Definition meminfo_line (info : meminfo) (line : string) : meminfo :=
  let '(name, rest, ok) := Cut line ":" in
  if negb ok then info else
  match Fields rest with
  | [] => info
  | f :: more =>
      match ParseUint f 64 with
      | NumOk v => <[name := match more with unit :: _ => if String.eqb unit "kB" then u64 (Z.shiftl v 10) else v | [] => v end]> info
      | _ => info
      end
  end.
Inductive mem_err := ErrScan | ErrNoMemTotal.
Definition parseMeminfo (text : string) : result mem_err meminfo :=
  match scan_lines text with
  | None => Err ErrScan
  | Some lines => let info := foldl meminfo_line ∅ lines in
                  if field info "MemTotal" =? 0 then Err ErrNoMemTotal else Ok info
  end.
Definition file_cache (info : meminfo) : Z := u64 (field info "Active(file)" + field info "Inactive(file)").
Definition reclaimTarget (info : meminfo) : Z :=
  let cache := file_cache info in
  let floor := field info "MemTotal" / reclaimFloorDiv in
  if cache <=? floor then 0 else
  let target := Z.min (cache - floor) (cache / reclaimStepDiv) in
  if target <? reclaimMin then 0 else target.

Definition swap_signature : bytes := [83; 87; 65; 80; 83; 80; 65; 67; 69; 50].
Definition swapHeader (pageSize : nat) (size : Z) : option bytes :=
  let pages := size / Z.of_nat pageSize in
  if (pages <? 10) || (4294967295 <? pages - 1) then None else
  Some (blit (pageSize - 10) swap_signature (blit 1028 (le32 (u32 (pages - 1))) (blit 1024 (le32 1) (replicate pageSize 0)))).

(** [readAt 1080]: the two bytes, or the end of the file, or a failure. *)
Inductive magic_read := MagicBytes (a b : Z) | MagicEOF | MagicErr.
Definition extMagicAt (r : magic_read) : option bool :=
  match r with MagicErr => None | MagicEOF => Some false | MagicBytes a b => Some ((a =? 83) && (b =? 239)) end.

(** ** Mounts *)

Definition GuestDir : string := "/.jailoc".
Definition PrivateDir : string := GuestDir +:+ "/private".
Record Share := { sh_Tag : string; sh_GuestPath : string; sh_ReadOnly : bool }.
Record Bind := { bd_Source : string; bd_Target : string; bd_ReadOnly : bool }.
Inductive guestMount := MShare (s : Share) | MBind (b : Bind).
Definition target (m : guestMount) : string := match m with MShare s => sh_GuestPath s | MBind b => bd_Target b end.
Definition within (path dir : string) : bool := String.eqb path dir || HasPrefix path (dir +:+ "/").
Definition internal (m : guestMount) : bool := match m with MShare s => within (sh_GuestPath s) PrivateDir | MBind _ => false end.
Definition mount_leb (a b : guestMount) : bool :=
  if negb (Bool.eqb (internal a) (internal b)) then internal a
  else (count_char "/" (target a) <=? count_char "/" (target b))%nat.
Definition mountOrder (shares : list Share) (binds : list Bind) : list guestMount :=
  stable_sort mount_leb (map MShare shares ++ map MBind binds).

(** ** The hosts file *)

(** The names a line maps. *)
Definition host_names (line : string) : list string :=
  let text := match cut line "#" with Some (b, _) => b | None => line end in
  match Fields text with [] => [] | _ :: names => names end.
Definition names_host (data hostname : string) : bool :=
  existsb (λ line, existsb (String.eqb hostname) (host_names line)) (Split data newline).
(** [data] is the content, empty for a missing file; the result is what is
    written, if anything. *)
Definition addHostsEntry (data addr hostname : string) : option string :=
  if names_host data hostname then None else
  let text := if negb (String.eqb data "") && negb (HasSuffix data newline) then data +:+ newline else data in
  Some (text +:+ addr +:+ sep1 (chr 9) +:+ hostname +:+ newline).

(** ** The session environment *)

Definition kv_key (kv : string) : string := (Cut kv "=").1.1.
Definition lastWins (env : list string) : list string :=
  let last := foldl (λ m ikv, <[kv_key ikv.2 := ikv.1]> m) (∅ : gmap string nat) (imap pair env) in
  omap (λ ikv, if bool_decide (last !! kv_key ikv.2 = Some ikv.1) then Some ikv.2 else None) (imap pair env).

(** ** Loopback mirrors of host ports *)

(** [l.hostPorts] as the set of mirrored ports; [listen] says which ports the
    guest can bind. The result also lists the warnings. *)
Definition setHostPorts (listen : Z → bool) (running : gset Z) (ports : list Z) : gset Z * list Z :=
  let kept := filter (λ p, p ∈ ports) running in
  foldl (λ st p, if bool_decide (p ∈ st.1) then st else if listen p then ({[p]} ∪ st.1, st.2) else (st.1, st.2 ++ [p])) (kept, []) ports.

(** ** The clock *)

Definition clockStepThreshold : Z := 500000000.
(** The clock after [syncClock], and the step it reports. [Duration.Abs] of the
    smallest value is the largest. *)
Definition syncClock (now offset : Z) : Z * Z :=
  let abs := if offset =? minInt64 then maxInt64 else Z.abs offset in
  if abs <? clockStepThreshold then (now, 0) else (now + offset, offset).

Example guest_sys_ex :
  lastWins ["A=1"; "B=2"; "A=3"] = ["B=2"; "A=3"] ∧
  addHostsEntry "127.0.0.1 localhost" "127.0.1.1" "vm" =
    Some ("127.0.0.1 localhost" +:+ newline +:+ "127.0.1.1" +:+ sep1 (chr 9) +:+ "vm" +:+ newline) ∧
  addHostsEntry ("127.0.0.1 localhost vm # x" +:+ newline) "127.0.1.1" "vm" = None ∧
  map target (mountOrder [{| sh_Tag := "a"; sh_GuestPath := "/home/agent/x/y"; sh_ReadOnly := false |};
                          {| sh_Tag := "b"; sh_GuestPath := PrivateDir +:+ "/host"; sh_ReadOnly := false |}]
                         [{| bd_Source := PrivateDir +:+ "/host/home"; bd_Target := "/home/agent/x"; bd_ReadOnly := false |}])
  = [PrivateDir +:+ "/host"; "/home/agent/x"; "/home/agent/x/y"] ∧
  match parseMeminfo ("MemTotal: 8388608 kB" +:+ newline +:+ "Active(file): 2097152 kB" +:+ newline +:+ "Inactive(file): 0 kB") with
  | Ok info => reclaimTarget info = 536870912
  | Err _ => False
  end.
Proof. by vm_compute. Qed.

(** ** Memory *)

(** One round takes at most a quarter of the cache, never goes below the floor,
    and is skipped when it would free less than [reclaimMin]. *)
Lemma reclaimTarget_bounds info :
  let t := reclaimTarget info in
  t = 0 ∨ reclaimMin ≤ t ∧ 4 * t ≤ file_cache info ∧ field info "MemTotal" / 8 ≤ file_cache info - t.
Proof.
  unfold reclaimTarget, reclaimStepDiv, reclaimFloorDiv. cbv zeta.
  destruct (Z.leb_spec (file_cache info) (field info "MemTotal" / 8)); [by left|].
  destruct (Z.ltb_spec (Z.min (file_cache info - field info "MemTotal" / 8) (file_cache info / 4)) reclaimMin); [by left|right].
  split; [done|]. pose proof (Z.mul_div_le (file_cache info) 4). lia.
Qed.
Lemma swapHeader_fields pageSize size page :
  (1042 ≤ pageSize)%nat → swapHeader pageSize size = Some page →
  length page = pageSize ∧ rdle32 (slice page 1024 1028) = 1 ∧
  rdle32 (slice page 1028 1032) = size / Z.of_nat pageSize - 1 ∧ slice page (pageSize - 10) pageSize = swap_signature.
Proof.
  intros Hp. unfold swapHeader. cbv zeta. destruct (Z.ltb_spec (size / Z.of_nat pageSize) 10); [done|].
  destruct (Z.ltb_spec 4294967295 (size / Z.of_nat pageSize - 1)); [done|]. cbn [orb].
  set (last := le32 _). intros E. apply (inj Some) in E. subst page.
  assert (length (replicate pageSize 0 : bytes) = pageSize) as L0 by apply length_replicate.
  assert (length (blit 1024 (le32 1) (replicate pageSize 0)) = pageSize) as L1 by (rewrite length_blit ?L0 //; cbn; lia).
  assert (length (blit 1028 last (blit 1024 (le32 1) (replicate pageSize 0))) = pageSize) as L2 by (rewrite length_blit ?L1 //; cbn; lia).
  split_and!.
  - rewrite length_blit; rewrite L2; cbn; lia.
  - rewrite slice_blit_ne; [|rewrite L2; cbn; lia|cbn; lia]. rewrite slice_blit_ne; [|rewrite L1; cbn; lia|cbn; lia].
    change 1028%nat with (1024 + length (le32 1))%nat. rewrite slice_blit_same; [done|]. rewrite L0. cbn. lia.
  - rewrite slice_blit_ne; [|rewrite L2; cbn; lia|cbn; lia]. change 1032%nat with (1028 + length last)%nat.
    rewrite slice_blit_same; [|rewrite L1; cbn; lia]. rewrite -(app_nil_r last) rdle32_le32.
    unfold u32. rewrite (wrap_small 32 (size / _ - 1)); [|change (2 ^ 32) with 4294967296; lia].
    apply wrap_small. change (2 ^ 32) with 4294967296. lia.
  - replace (slice _ (pageSize - 10) pageSize) with
      (slice (blit (pageSize - 10) swap_signature (blit 1028 last (blit 1024 (le32 1) (replicate pageSize 0)))) (pageSize - 10)
             ((pageSize - 10) + length swap_signature)) by (f_equal; cbn; lia).
    apply slice_blit_same. rewrite L2. cbn. lia.
Qed.

(** ** Mount order *)

Lemma mount_leb_total a b : mount_leb a b = true ∨ mount_leb b a = true.
Proof.
  unfold mount_leb. destruct (internal a), (internal b); cbn; auto;
    destruct (Nat.leb_spec (count_char "/" (target a)) (count_char "/" (target b))); auto; right; apply Nat.leb_le; lia.
Qed.
Lemma mount_leb_trans a b c : mount_leb a b = true → mount_leb b c = true → mount_leb a c = true.
Proof. unfold mount_leb. destruct (internal a), (internal b), (internal c); cbn; try done; rewrite !Nat.leb_le; lia. Qed.
Lemma count_char_app c a b : count_char c (a +:+ b) = (count_char c a + count_char c b)%nat.
Proof. induction a as [|d a IH]; [done|]. rewrite sapp_cons. cbn [count_char]. lia. Qed.
Lemma StronglySorted_lookup {A} (R : relation A) l i j a b :
  StronglySorted R l → l !! i = Some a → l !! j = Some b → (i < j)%nat → R a b.
Proof.
  intros Hs. revert i j. induction Hs as [|x l Hs IH Hx]; intros i j Hi Hj Hij; [done|].
  destruct j as [|j]; [lia|]. destruct i as [|i]; cbn in Hi, Hj.
  - injection Hi as <-. rewrite Forall_forall in Hx. apply Hx. exact (list_elem_of_lookup_2 _ _ _ Hj).
  - apply (IH i j); [done|done|lia].
Qed.

(** The guest mounts every share and bind once, the internal shares before
    everything else, a directory before what is mounted inside it whatever
    their kinds, and mounts of the same target in the order given, so that a
    share inside a persistent home directory is not hidden by its bind. *)
Theorem mountOrder_parents shares binds :
  let ms := mountOrder shares binds in
  ms ≡ₚ map MShare shares ++ map MBind binds ∧
  (∀ i j a b, ms !! i = Some a → ms !! j = Some b → internal b = false →
     internal a = true ∨ (∃ rest, target b = target a +:+ "/" +:+ rest) → (i < j)%nat) ∧
  ∀ t, filter (λ m, internal m = false ∧ target m = t) ms =
       filter (λ m, internal m = false ∧ target m = t) (map MShare shares ++ map MBind binds).
Proof.
  intros ms. unfold ms, mountOrder. split_and!.
  - apply stable_sort_perm.
  - intros i j a b Hi Hj Hb Hab.
    assert (mount_leb b a = false) as Hba.
    { unfold mount_leb. rewrite Hb. destruct (internal a) eqn:Ha; [done|]. cbn [Bool.eqb negb]. apply Nat.leb_gt.
      destruct Hab as [?|[rest ->]]; [done|]. rewrite !count_char_app. cbn. lia. }
    destruct (decide (i < j)%nat) as [|Hn]; [done|]. exfalso. destruct (decide (i = j)) as [->|Hne].
    { rewrite Hi in Hj. injection Hj as ->. destruct (mount_leb_total b b); congruence. }
    pose proof (stable_sort_sorted mount_leb mount_leb_total mount_leb_trans (map MShare shares ++ map MBind binds)) as Hs.
    pose proof (StronglySorted_lookup _ _ j i b a Hs Hj Hi ltac:(lia)) as H. cbn in H. congruence.
  - intros t. apply stable_sort_stable. intros x y [Hx Hxt] [Hy Hyt]. unfold mount_leb. rewrite Hx Hy Hxt Hyt. cbn. by apply Nat.leb_refl.
Qed.

(** ** The session environment *)

Lemma lastWins_step env kv :
  lastWins (env ++ [kv]) = filter (λ e, kv_key e ≠ kv_key kv) (lastWins env) ++ [kv].
Proof.
  unfold lastWins. rewrite imap_app. cbn [imap]. rewrite foldl_app. cbn [foldl]. rewrite Nat.add_0_r.
  set (m := foldl _ _ (imap pair env)). rewrite omap_app. cbn [omap list_omap fst snd]. rewrite lookup_insert_eq bool_decide_eq_true_2; [|done].
  f_equal. assert (∀ l, (∀ ikv, ikv ∈ l → (ikv.1 < length env)%nat) →
    omap (M:=list) (λ ikv, if bool_decide (<[kv_key kv:=length env]> m !! kv_key ikv.2 = Some ikv.1) then Some ikv.2 else None) l =
    filter (λ e, kv_key e ≠ kv_key kv) (omap (M:=list) (λ ikv, if bool_decide (m !! kv_key ikv.2 = Some ikv.1) then Some ikv.2 else None) l)) as H.
  { intros l Hl. induction l as [|[i e] l IH]; [done|]. cbn [omap list_omap fst snd].
    assert (i < length env)%nat as Hi by (apply (Hl (i, e)); constructor).
    rewrite IH; [|intros ikv Hin; apply Hl; by constructor]. destruct (decide (kv_key e = kv_key kv)) as [E|E].
    - rewrite E lookup_insert_eq bool_decide_eq_false_2; [|intros [= ?]; lia].
      destruct (bool_decide (m !! kv_key kv = Some i)); [|done]. rewrite filter_cons_False; [done|]. tauto.
    - rewrite lookup_insert_ne; [|congruence]. destruct (bool_decide (m !! kv_key e = Some i)); [|done].
      by rewrite filter_cons_True. }
  apply H. intros ikv Hin. apply elem_of_lookup_imap_1 in Hin as (i & e & -> & Hi). cbn. by apply lookup_lt_Some in Hi.
Qed.
Lemma lastWins_spec env e : e ∈ lastWins env ↔ last_entry (kv_key e) env = Some e.
Proof.
  induction env as [|kv env IH] using rev_ind.
  - split; [intros H; by apply elem_of_nil in H|done].
  - rewrite lastWins_step elem_of_app list_elem_of_singleton list_elem_of_filter IH.
    rewrite last_entry_snoc. change (env_key kv) with (kv_key kv). destruct (decide (kv_key kv = kv_key e)) as [E|E].
    + rewrite bool_decide_eq_true_2; [|done]. split; [intros [[? _]| ->]; congruence|intros [= ->]; by right].
    + rewrite bool_decide_eq_false_2; [|done]. split; [intros [[_ ?]| ->]; congruence|intros ?; left; split; congruence].
Qed.
Lemma lastWins_NoDup env : NoDup (map kv_key (lastWins env)).
Proof.
  induction env as [|kv env IH] using rev_ind; [constructor|]. rewrite lastWins_step map_app. apply NoDup_app. split_and!.
  - refine (sublist_NoDup _ _ IH _). by apply (fmap_sublist kv_key), sublist_filter.
  - intros k Hk Hin. apply list_elem_of_fmap in Hk as (e & -> & He). apply list_elem_of_filter in He as [He _].
    cbn in Hin. apply list_elem_of_singleton in Hin. done.
  - apply NoDup_singleton.
Qed.

(** C38: the guest's treatment of repeated environment keys is the one the host
    uses when it resolves a workspace: both keep the same entries, the last one
    of every key, and each key once; only the order may differ. *)
Theorem lastWins_equiv env :
  lastWins env ≡ₚ dedupEnvByKeyLastWins env ∧ NoDup (map kv_key (lastWins env)) ∧
  ∀ e, e ∈ lastWins env ↔ ∃ before after, env = before ++ [e] ++ after ∧ Forall (λ e', kv_key e' ≠ kv_key e) after.
Proof.
  destruct (dedupEnv_spec env) as [Hn Hd]. split_and!.
  - apply NoDup_Permutation.
    + exact (NoDup_fmap_1 kv_key _ (lastWins_NoDup env)).
    + exact (NoDup_fmap_1 _ _ Hn).
    + intros e. rewrite lastWins_spec Hd. done.
  - apply lastWins_NoDup.
  - intros e. rewrite lastWins_spec. clear Hn Hd. induction env as [|x env IH] using rev_ind.
    { split; [done|]. intros (b & a & H & _). by destruct b. }
    rewrite last_entry_snoc. change (env_key x) with (kv_key x). destruct (decide (kv_key x = kv_key e)) as [E|E].
    + rewrite bool_decide_eq_true_2; [|done]. split.
      * intros [= ->]. exists env, []. by split.
      * intros (b & a & H & Ha). destruct a as [|y a _] using rev_ind.
        { rewrite app_nil_r in H. apply app_inj_tail in H as [_ ->]. congruence. }
        rewrite !app_assoc in H. apply app_inj_tail in H as [_ ->]. apply Forall_app in Ha as [_ Ha].
        apply Forall_cons in Ha as [Ha _]. congruence.
    + rewrite bool_decide_eq_false_2; [|done]. rewrite IH. split.
      * intros (b & a & -> & Ha). exists b, (a ++ [x]). split; [by rewrite -!app_assoc|].
        apply Forall_app. split; [done|]. by apply Forall_singleton.
      * intros (b & a & H & Ha). destruct a as [|y a _] using rev_ind.
        { rewrite app_nil_r in H. apply app_inj_tail in H as [_ ->]. congruence. }
        rewrite !app_assoc in H. apply app_inj_tail in H as [H ->]. apply Forall_app in Ha as [Ha _].
        exists b, a. by rewrite H -app_assoc.
Qed.

(** ** The hosts file *)

Lemma names_host_app a b h : names_host (a +:+ newline +:+ b) h = names_host a h || names_host b h.
Proof.
  unfold names_host. change (newline +:+ b) with (String (chr 10) b). unfold newline. rewrite Split_app. apply existsb_app.
Qed.
Lemma names_host_nl a h : names_host (a +:+ newline) h = names_host a h || names_host "" h.
Proof. exact (names_host_app a "" h). Qed.
(** An entry that was added is found again, so adding twice writes once, and
    the names mapped before are kept. *)
Lemma addHostsEntry_named data addr hostname out :
  addr ≠ "" → sforall word_char addr = true → has_char "#" addr = false →
  hostname ≠ "" → sforall word_char hostname = true → has_char "#" hostname = false →
  addHostsEntry data addr hostname = Some out →
  addHostsEntry out addr hostname = None ∧ ∀ h, names_host data h = true → names_host out h = true.
Proof.
  intros Ha0 Haw Hah Hh0 Hhw Hhh. unfold addHostsEntry. destruct (names_host data hostname); [done|]. intros E. apply (inj Some) in E.
  set (entry := addr +:+ sep1 (chr 9) +:+ hostname) in *.
  assert (∃ pre, out = pre +:+ entry +:+ newline ∧ (pre = "" ∨ ∃ d, pre = d +:+ newline) ∧
            ∀ h, names_host data h = true → names_host pre h = true) as (pre & -> & Hpre & Hk).
  { exists (if negb (String.eqb data "") && negb (HasSuffix data newline) then data +:+ newline else data).
    split; [by rewrite -E /entry -!sapp_assoc|]. destruct (String.eqb_spec data "") as [->|Hd]; cbn [negb andb]; [by split; [left|]|].
    destruct (HasSuffix data newline) eqn:Hs; cbn [negb].
    - apply HasSuffix_spec in Hs as [r ->]. split; [right; by exists r|done].
    - split; [right; by exists data|]. intros h Hh. by rewrite names_host_nl Hh. }
  assert (names_host entry hostname = true) as Hn.
  { assert (has_char (chr 10) entry = false) as Hlf.
    { assert (∀ w, sforall word_char w = true → has_char (chr 10) w = false) as Hw.
      { clear. induction w as [|c w IH]; [done|]. cbn [sforall]. intros H. apply andb_true_iff in H as [Hc Hw]. unfold has_char in *. cbn [sexists]. rewrite IH; [|done].
        rewrite orb_false_r. destruct (Ascii.eqb_spec (chr 10) c) as [<-|]; [by vm_compute in Hc|done]. }
      unfold entry, has_char. rewrite !sexists_app. fold (has_char (chr 10) addr) (has_char (chr 10) hostname). by rewrite !Hw. }
    unfold names_host, newline. rewrite Split_single; [|done]. cbn [existsb]. rewrite orb_false_r. unfold host_names.
    assert (has_char "#" entry = false) as Hsharp.
    { unfold entry, has_char. rewrite !sexists_app. fold (has_char "#" addr) (has_char "#" hostname). by rewrite Hah Hhh. }
    change "#" with (sep1 "#"). rewrite (proj2 (cut_char_None "#" entry) Hsharp).
    unfold entry. rewrite Fields_word; [|done|done|right; by exists (chr 9), hostname].
    change (sep1 (chr 9) +:+ hostname) with (String (chr 9) hostname). cbv iota. rewrite Fields_space; [|done].
    rewrite -(sapp_nil_r hostname) Fields_word; [|done|done|by left]. rewrite sapp_nil_r. cbn. by rewrite String.eqb_refl. }
  assert (∀ h, names_host (pre +:+ entry +:+ newline) h = names_host pre h || names_host entry h || names_host "" h) as Hsplit.
  { intros h. destruct Hpre as [->|[d ->]].
    - change ("" +:+ entry +:+ newline) with (entry +:+ newline). by rewrite names_host_nl.
    - rewrite -sapp_assoc names_host_app !names_host_nl. by destruct (names_host d h), (names_host entry h). }
  split.
  - by rewrite Hsplit Hn orb_true_r.
  - intros h Hh. by rewrite Hsplit (Hk h Hh).
Qed.

(** ** Loopback mirrors *)

(** After a reload exactly the wanted ports that were mirrored or can be bound
    are mirrored; the wanted rest is reported. *)
Lemma setHostPorts_spec listen running ports :
  let '(now, warned) := setHostPorts listen running ports in
  (∀ p, p ∈ now ↔ p ∈ ports ∧ (p ∈ running ∨ listen p = true)) ∧
  ∀ p, p ∈ warned ↔ p ∈ ports ∧ p ∉ running ∧ listen p = false.
Proof.
  unfold setHostPorts.
  assert (∀ ps (st : gset Z * list Z), (∀ p, p ∈ st.1 → p ∈ ports ∧ (p ∈ running ∨ listen p = true)) → (∀ p, p ∈ ps → p ∈ ports) →
    (∀ p, p ∈ ports → p ∈ running → p ∈ st.1) → (∀ p, p ∈ st.2 → p ∈ ports ∧ p ∉ running ∧ listen p = false) →
    (∀ p, p ∈ ports → p ∈ ps ∨ p ∈ st.1 ∨ p ∈ st.2) →
    let st' := foldl (λ st p, if bool_decide (p ∈ st.1) then st else if listen p then ({[p]} ∪ st.1, st.2) else (st.1, st.2 ++ [p])) st ps in
    (∀ p, p ∈ st'.1 ↔ p ∈ ports ∧ (p ∈ running ∨ listen p = true)) ∧ ∀ p, p ∈ st'.2 ↔ p ∈ ports ∧ p ∉ running ∧ listen p = false) as H.
  { induction ps as [|x ps IH]; intros [now warned] H1 H2 H3 H4 H5; cbn [fst snd] in *.
    - cbn. split; intros p; (split; [auto|]).
      + intros [Hp Hl]. destruct (H5 p Hp) as [H|[H|H]]; [by apply elem_of_nil in H|done|]. apply H4 in H as (_ & Hr & Hf).
        destruct Hl; congruence.
      + intros (Hp & Hr & Hl). destruct (H5 p Hp) as [H|[H|H]]; [by apply elem_of_nil in H| |done]. apply H1 in H as [_ [H|H]]; congruence.
    - cbn [foldl fst snd]. assert (x ∈ ports) as Hx by (apply H2; constructor).
      assert (∀ p, p ∈ ps → p ∈ ports) as H2' by (intros p Hp; apply H2; by constructor).
      destruct (decide (x ∈ now)) as [Hin|Hin].
      + rewrite bool_decide_eq_true_2; [|done]. apply IH; try done. intros p Hp. destruct (H5 p Hp) as [H|[H|H]]; auto.
        apply elem_of_cons in H as [->|H]; auto.
      + rewrite bool_decide_eq_false_2; [|done]. destruct (listen x) eqn:Hl; apply IH; cbn [fst snd]; try done.
        * intros p Hp. apply elem_of_union in Hp as [Hp|Hp]; [|by apply H1]. apply elem_of_singleton in Hp as ->. by auto.
        * intros p Hp Hr. apply elem_of_union. right. by apply H3.
        * intros p Hp. destruct (H5 p Hp) as [H|[H|H]]; [|set_solver|auto]. apply elem_of_cons in H as [->|H]; [set_solver|auto].
        * intros p Hp. apply elem_of_app in Hp as [Hp|Hp]; [by apply H4|]. apply list_elem_of_singleton in Hp as ->.
          split_and!; [done| |done]. intros Hr. by apply Hin, H3.
        * intros p Hp. rewrite elem_of_app list_elem_of_singleton. destruct (H5 p Hp) as [H|[H|H]]; auto.
          apply elem_of_cons in H as [->|H]; auto. }
  specialize (H ports (filter (λ p, p ∈ ports) running, [])).
  destruct (foldl _ _ ports) as [now warned]. cbn [fst snd] in H. apply H; try done.
  - intros p Hp. apply elem_of_filter in Hp as [? ?]. auto.
  - intros p Hp Hr. by apply elem_of_filter.
  - intros p Hp. by apply elem_of_nil in Hp.
  - auto.
Qed.
