(* ===== verification/GitConfig.v ===== *)
(** * Git configuration files

    The parser of [src/internal/cmd/vmgit_unix.go] ([parseGitConfig],
    [gitConfigValue], [gitBool], the path rules) and the rewriting of
    [vmgitconfig_unix.go] that adapts a copied configuration to the guest. *)

From S2P Require Import Prelude GoStrings GoStrconv GoPath.
Open Scope string_scope.
Open Scope list_scope.
Open Scope Z_scope.

Definition newline : string := sep1 (chr 10).
Definition backslash : ascii := chr 92.
Definition quote : ascii := chr 34.
Definition tab : ascii := chr 9.

(** ** Integers with a base prefix *)

(** [strconv.ParseInt(s, 0, 64)]; the caller does not tell its errors apart. *)
Definition lower_code (c : ascii) : Z := Z.lor (code c) 32.
Definition base_digit (c : ascii) : option Z :=
  if is_digit c then Some (digit_val c)
  else if (97 <=? lower_code c) && (lower_code c <=? 122) then Some (lower_code c - 97 + 10) else None.
Fixpoint base_loop (base acc : Z) (s : string) : option Z :=
  match s with
  | EmptyString => Some acc
  | String c r =>
      if Ascii.eqb c "_" then base_loop base acc r else
      match base_digit c with
      | Some d => if d <? base then base_loop base (acc * base + d) r else None
      | None => None
      end
  end.
(** [underscoreOK] after the sign and the base prefix; [saw] is the class of the
    previous byte: 0 at the start, 1 a digit, 2 an underscore, 3 other. *)
Fixpoint underscore_loop (hex : bool) (saw : nat) (s : string) : bool :=
  match s with
  | EmptyString => negb (saw =? 2)%nat
  | String c r =>
      if is_digit c || (hex && (97 <=? lower_code c) && (lower_code c <=? 102)) then underscore_loop hex 1 r
      else if Ascii.eqb c "_" then (if (saw =? 1)%nat then underscore_loop hex 2 r else false)
      else if (saw =? 2)%nat then false else underscore_loop hex 3 r
  end.
Definition unsign (s : string) : bool * string :=
  match s with String "+" r => (false, r) | String "-" r => (true, r) | _ => (false, s) end.
(** The base, the digits, whether an explicit prefix was there. *)
Definition base_prefix (s : string) : Z * string * bool :=
  match s with
  | String "0" (String c (String _ _ as r)) =>
      if lower_code c =? 98 then (2, r, true) else if lower_code c =? 111 then (8, r, true)
      else if lower_code c =? 120 then (16, r, true) else (8, String c r, false)
  | String "0" r => (8, r, false)
  | _ => (10, s, false)
  end.
Definition underscoreOK (s : string) : bool :=
  match s with
  | String "0" (String c r) =>
      if (lower_code c =? 98) || (lower_code c =? 111) || (lower_code c =? 120)
      then underscore_loop (lower_code c =? 120) 1 r else underscore_loop false 0 s
  | _ => underscore_loop false 0 s
  end.
Definition ParseInt0 (s : string) : option Z :=
  if String.eqb s "" then None else
  let '(neg, u) := unsign s in
  if String.eqb u "" then None else
  let '(base, ds, _) := base_prefix u in
  match base_loop base 0 ds with
  | None => None
  | Some n =>
      if has_char "_" ds && negb (underscoreOK u) then None else
      if neg then (if maxInt64 + 1 <? n then None else Some (- n)) else (if maxInt64 <? n then None else Some n)
  end.

(** ** Values *)

(** [gitConfigValue]: [b] is the builder, [pending] white space kept only
    before more content. *)
Fixpoint value_loop (raw b : string) (quoted : bool) (pending : string) : string * bool :=
  match raw with
  | EmptyString => (b, false)
  | String c r =>
      if Ascii.eqb c backslash then
        match r with
        | EmptyString => (b, true)
        | String e r =>
            let d := if Ascii.eqb e "n" then chr 10 else if Ascii.eqb e "t" then chr 9 else if Ascii.eqb e "b" then chr 8 else e in
            value_loop r (b +:+ pending +:+ sep1 d) quoted ""
        end
      else if Ascii.eqb c quote then value_loop r b (negb quoted) pending
      else if negb quoted && (Ascii.eqb c "#" || Ascii.eqb c ";") then (b, false)
      else if negb quoted && (Ascii.eqb c " " || Ascii.eqb c tab)
           then value_loop r b quoted (if String.eqb b "" then pending else pending +:+ sep1 c)
      else value_loop r (b +:+ pending +:+ sep1 c) quoted ""
  end.
Definition gitConfigValue (raw : string) : string * bool := value_loop raw "" false "".

(** The lines of a value that ends in a backslash: the value, how many lines it
    took, with the same raw text the code rebuilds. *)
Definition drop_last (s : string) : string := stake (String.length s - 1) s.
Fixpoint continued (raw : string) (lines : list string) : string * nat :=
  let '(v, more) := gitConfigValue raw in
  if more then
    match lines with
    | [] => (v, O)
    | l :: ls => let '(v, k) := continued (drop_last raw +:+ TrimRightFn (Ascii.eqb (chr 13)) l) ls in (v, S k)
    end
  else (v, O).

(** ** Entries *)

Record gitConfigEntry := { g_section : string; g_key : string; g_value : string; g_first : nat; g_last : nat }.

Section Parse.
Context (lowerU : string → string).

Definition before_char (c : ascii) (s : string) : string := match cut s (sep1 c) with Some (b, _) => b | None => s end.
Fixpoint before_any (chars s : string) : string :=
  match s with
  | EmptyString => ""
  | String c r => if has_char c chars then "" else String c (before_any chars r)
  end.
(** A section header in front of a line: the section and the rest of the line;
    [None] for a header that does not end. *)
Definition header (section line : string) : option (string * string) :=
  match CutPrefix line "[" with
  | None => Some (section, line)
  | Some after =>
      match cut after "]" with
      | None => None
      | Some (name, rest) =>
          Some (ToLower lowerU (before_any (String " " (String tab (sep1 "."))) (TrimSpace name)), TrimSpace rest)
      end
  end.
(** The variable on a line, with the number of further lines it takes. *)
Definition variable (line : string) (following : list string) : string * string * nat :=
  let '(key, value, hasValue) := Cut line "=" in
  let key := ToLower lowerU (TrimSpace key) in
  if hasValue then let '(v, k) := continued value following in (key, v, k)
  else (TrimSpace (before_char ";" (before_char "#" key)), "true", O).
Definition blank_or_comment (line : string) : bool :=
  match line with EmptyString => true | String c _ => Ascii.eqb c "#" || Ascii.eqb c ";" end.
(** [skip] counts the lines a value has taken already. *)
Fixpoint parse_lines (skip n : nat) (section : string) (lines : list string) : list gitConfigEntry :=
  match lines with
  | [] => []
  | l :: ls =>
      match skip with
      | S skip => parse_lines skip (S n) section ls
      | O =>
          match header section (TrimSpace l) with
          | None => parse_lines O (S n) section ls
          | Some (section, line) =>
              if blank_or_comment line then parse_lines O (S n) section ls else
              let '(key, value, k) := variable line ls in
              let rest := parse_lines k (S n) section ls in
              if negb (String.eqb key "") then
                {| g_section := section; g_key := key; g_value := value; g_first := n; g_last := (n + k)%nat |} :: rest
              else rest
          end
      end
  end.
Definition parseGitConfig (data : string) : list gitConfigEntry := parse_lines 0 0 "" (Split data newline).

Definition gitBool (v : string) : bool :=
  let v := ToLower lowerU (TrimSpace v) in
  if existsb (String.eqb v) ["true"; "yes"; "on"] then true
  else if existsb (String.eqb v) [""; "false"; "no"; "off"] then false
  else
    let n := (String.length v - 1)%nat in
    let v := if (0 <? n)%nat && ContainsAny (sdrop n v) "kmg" then stake n v else v in
    match ParseInt0 v with Some i => negb (i =? 0) | None => false end.
End Parse.

(** ** Paths named by a configuration *)

Definition resolvePointer (dir target : string) : string :=
  Clean (if IsAbs target then target else JoinPath [dir; target]).
(** [home] is [os.UserHomeDir]. *)
Definition expandGitPath (home : option string) (path base : string) : string :=
  let path := match CutPrefix path "~/", home with Some rest, Some h => JoinPath [h; rest] | _, _ => path end in
  Clean (if negb (String.eqb base "") && negb (IsAbs path) then JoinPath [base; path] else path).
(** [readPointer] on the content of the small regular file, if it is one. *)
Definition readPointer (data : option string) : option string :=
  match data with
  | None => None
  | Some d => let line := TrimSpace (before_char (chr 10) d) in if String.eqb line "" then None else Some line
  end.
(** [env]: [os.Getenv]. *)
Definition gitInheritedConfig (lowerU : string → string) (env : string → string) (home : option string) : list string :=
  let system :=
    if gitBool lowerU (env "GIT_CONFIG_NOSYSTEM") then []
    else if negb (String.eqb (env "GIT_CONFIG_SYSTEM") "") then [env "GIT_CONFIG_SYSTEM"]
    else ["/etc/gitconfig"; "/opt/homebrew/etc/gitconfig"; "/usr/local/etc/gitconfig";
          "/Library/Developer/CommandLineTools/usr/share/git-core/gitconfig";
          "/Applications/Xcode.app/Contents/Developer/usr/share/git-core/gitconfig"] in
  if negb (String.eqb (env "GIT_CONFIG_GLOBAL") "") then system ++ [env "GIT_CONFIG_GLOBAL"] else
  match home with
  | None => system
  | Some home =>
      let xdg := if String.eqb (env "XDG_CONFIG_HOME") "" then JoinPath [home; ".config"] else env "XDG_CONFIG_HOME" in
      system ++ [JoinPath [xdg; "git"; "config"]; JoinPath [home; ".gitconfig"]]
  end.

(** ** Rewriting for the guest *)

Definition quote_char (c : ascii) : string :=
  if Ascii.eqb c backslash then String backslash (sep1 backslash)
  else if Ascii.eqb c quote then String backslash (sep1 quote)
  else if Ascii.eqb c (chr 10) then String backslash "n"
  else if Ascii.eqb c tab then String backslash "t"
  else sep1 c.
Fixpoint quoteGitString (s : string) : string :=
  match s with EmptyString => "" | String c r => quote_char c +:+ quoteGitString r end.
Definition is_blank (c : ascii) : bool := Ascii.eqb c " " || Ascii.eqb c tab.
Fixpoint leading_blanks (s : string) : string :=
  match s with String c r => if is_blank c then String c (leading_blanks r) else "" | EmptyString => "" end.
Definition rewriteGitEntry (line value : string) : string :=
  let prefix := leading_blanks line in
  let rest := TrimLeftFn is_blank line in
  let '(prefix, rest) :=
    if HasPrefix rest "[" then
      match cut rest "]" with
      | Some (b, a) => (prefix +:+ b +:+ "]" +:+ " ", TrimLeftFn is_blank a)
      | None => (prefix +:+ " ", TrimLeftFn is_blank rest)
      end
    else (prefix, rest) in
  let key := before_char "=" rest in
  prefix +:+ TrimSpace key +:+ " = " +:+ sep1 quote +:+ quoteGitString value +:+ sep1 quote.

(** The regular expression of [gitdirTilde]: the text of its group and what
    follows the match. [\s] is tab, newline, form feed, return or space. *)
Definition re_space (c : ascii) : bool :=
  (code c =? 9) || (code c =? 10) || (code c =? 12) || (code c =? 13) || (code c =? 32).
Fixpoint span (p : ascii → bool) (s : string) : string * string :=
  match s with
  | String c r => if p c then let '(a, b) := span p r in (String c a, b) else ("", s)
  | EmptyString => ("", "")
  end.
(** A case-insensitive literal. *)
Fixpoint cut_fold (s word : string) : option (string * string) :=
  match word, s with
  | EmptyString, _ => Some ("", s)
  | String w word, String c r =>
      if Ascii.eqb (lower_char c) w then match cut_fold r word with Some (a, b) => Some (String c a, b) | None => None end else None
  | _, _ => None
  end.
Definition gitdirTilde (line : string) : option (string * string) :=
  let '(s1, r) := span re_space line in
  b ← CutPrefix r "[";
  let '(s2, r) := span re_space b in
  '(inc, r) ← cut_fold r "includeif";
  let '(s3, r) := span re_space r in
  if String.eqb s3 "" then None else
  '(gd, r) ← cut_fold r (sep1 quote +:+ "gitdir");
  let '(i, r) := match cut_fold r "/i" with Some p => p | None => ("", r) end in
  rest ← CutPrefix r ":~/";
  Some (s1 +:+ "[" +:+ s2 +:+ inc +:+ s3 +:+ gd +:+ i +:+ ":", rest).
Definition home_gitdir (home line : string) : string :=
  match gitdirTilde line with
  | Some (group, rest) => group +:+ quoteGitString home +:+ "/" +:+ rest
  | None => line
  end.

Definition gitPathKeys : list string :=
  ["include.path"; "includeif.path"; "core.excludesfile"; "core.attributesfile"; "commit.template"; "gpg.allowedsignersfile";
   "user.signingkey"].
(** The text after [home/] in an entry whose value is rewritten. *)
Definition home_value (home : string) (e : gitConfigEntry) : option string :=
  if existsb (String.eqb (g_section e +:+ "." +:+ g_key e)) gitPathKeys then CutPrefix (g_value e) (home +:+ "/") else None.
Fixpoint rewrite_lines (home : string) (skip n : nat) (entries : list gitConfigEntry) (lines : list string) : list string :=
  match lines with
  | [] => []
  | l :: ls =>
      match skip with
      | S skip => rewrite_lines home skip (S n) entries ls
      | O =>
          let entry := List.find (λ e, g_first e =? n)%nat entries in
          match (e ← entry; rest ← home_value home e; Some (e, rest)) with
          | Some (e, rest) => home_gitdir home (rewriteGitEntry l ("~/" +:+ rest)) :: rewrite_lines home (g_last e - n) (S n) entries ls
          | None => home_gitdir home l :: rewrite_lines home 0 (S n) entries ls
          end
      end
  end.
Definition rewriteGitConfig (lowerU : string → string) (data home : string) : string :=
  Join (rewrite_lines home 0 0 (parseGitConfig lowerU data) (Split data newline)) newline.

Definition q (s : string) : string := sep1 quote +:+ s +:+ sep1 quote.
Example git_config_ex :
  let lines := ["[core]"; "  hooksPath = " +:+ q "a b" +:+ " ; c"; "[includeIf " +:+ q "gitdir:~/w/" +:+ "] path = /home/u/inc";
                "bare"; "# x"; "k = one\"; "two"] in
  let data := Join lines newline in
  map (λ e, (g_section e, g_key e, g_value e, g_first e, g_last e)) (parseGitConfig id data) =
    [("core", "hookspath", "a b", 1, 1); ("includeif", "path", "/home/u/inc", 2, 2); ("includeif", "bare", "true", 3, 3);
     ("includeif", "k", "onetwo", 5, 6)]%nat ∧
  Split (rewriteGitConfig id data "/home/u") newline =
    ["[core]"; "  hooksPath = " +:+ q "a b" +:+ " ; c"; "[includeIf " +:+ q "gitdir:/home/u/w/" +:+ "] path = " +:+ q "~/inc";
     "bare"; "# x"; "k = one\"; "two"] ∧
  map (gitBool id) ["Yes"; "off"; "0"; "0x10"; "1k"; "k"; "1_0"; "08"; "9223372036854775808"] =
    [true; false; false; true; true; false; true; false; false].
Proof. by vm_compute. Qed.

(** A byte order mark, which Git skips, and a bracket in a quoted subsection
    hide what follows them. *)
Example parse_bom :
  map (λ e, (g_section e, g_key e)) (parseGitConfig id (String (chr 239) (String (chr 187) (String (chr 191) ("[core]" +:+ newline +:+ "hooksPath = x")))))
  = [("", String (chr 239) (String (chr 187) (String (chr 191) "[core]"))); ("", "hookspath")].
Proof. by vm_compute. Qed.
Example parse_bracket :
  map (λ e, (g_section e, g_key e)) (parseGitConfig id ("[includeIf " +:+ q "gitdir:/w/a]b/" +:+ "]path = x")) = [("includeif", "b/" +:+ sep1 quote +:+ "]path")].
Proof. by vm_compute. Qed.

(** ** White space around words *)

Lemma TrimLeftSpace_word c s : word_char c = true → TrimLeftSpace (String c s) = String c s.
Proof.
  intros Hc. apply word_char_spec in Hc as [Hc H23]. cbn. rewrite Hc. destruct s as [|d [|e s]]; [done| |].
  - by rewrite (proj1 (H23 d d)).
  - by rewrite (proj1 (H23 d d)) (proj2 (H23 d e)).
Qed.
Lemma blank_space c : is_blank c = true → ascii_space c = true.
Proof. unfold is_blank. intros H. apply orb_true_iff in H as [H|H]; apply Ascii.eqb_eq in H as ->; done. Qed.
Lemma TrimLeftSpace_blanks b s : sforall is_blank b = true → TrimLeftSpace (b +:+ s) = TrimLeftSpace s.
Proof.
  induction b as [|c b IH]; [done|]. cbn [sforall]. intros H. apply andb_true_iff in H as [Hc Hb].
  rewrite sapp_cons. cbn [TrimLeftSpace]. rewrite (blank_space c Hc). by apply IH.
Qed.
Lemma TrimLeftSpace_ne s c t : word_char c = true → TrimLeftSpace (s +:+ String c t) ≠ "".
Proof.
  intros Hc. assert (∀ n s, (String.length s < n)%nat → TrimLeftSpace (s +:+ String c t) ≠ "") as H; [|apply (H (S (String.length s))); lia].
  clear s. induction n as [|n IH]; intros s Hs; [lia|]. destruct s as [|a s].
  { change ("" +:+ String c t) with (String c t). by rewrite TrimLeftSpace_word. }
  rewrite sapp_cons. cbn [TrimLeftSpace]. cbn in Hs. destruct (ascii_space a); [apply IH; lia|].
  assert (∀ a b, space2 a c = false ∧ space3 a b c = false ∧ space3 a c b = false) as Hsp.
  { clear -Hc. unfold word_char in Hc. apply andb_true_iff in Hc as [Hc _]. apply Z.ltb_lt in Hc. intros a b. unfold space2, space3.
    repeat match goal with |- context [code c =? ?k] => destruct (Z.eqb_spec (code c) k); [lia|] end.
    destruct (Z.leb_spec 128 (code c)); [lia|]. by rewrite ?andb_false_r ?andb_false_l. }
  destruct s as [|b s].
  { change ("" +:+ String c t) with (String c t). cbn iota. rewrite (proj1 (Hsp a a)). destruct t as [|d t]; [done|].
    by rewrite (proj2 (proj2 (Hsp a d))). }
  rewrite sapp_cons. destruct (space2 a b); [apply IH; cbn in Hs; lia|]. destruct s as [|d s].
  { change ("" +:+ String c t) with (String c t). cbn iota. by rewrite (proj1 (proj2 (Hsp a b))). }
  rewrite sapp_cons. destruct (space3 a b d); [apply IH; cbn in Hs; lia|done].
Qed.
Lemma TrimRightSpace_word s c t : word_char c = true → TrimRightSpace (s +:+ String c t) = s +:+ String c (TrimRightSpace t).
Proof.
  intros Hc. induction s as [|a s IH].
  - change ("" +:+ String c t) with (String c t). cbn [TrimRightSpace]. by rewrite TrimLeftSpace_word.
  - rewrite sapp_cons. cbn [TrimRightSpace]. rewrite IH. pose proof (TrimLeftSpace_ne (String a s) c t Hc) as Hne. rewrite sapp_cons in Hne.
    by destruct (TrimLeftSpace (String a (s +:+ String c t))).
Qed.
Lemma TrimRightSpace_blanks b : sforall is_blank b = true → TrimRightSpace b = "".
Proof.
  intros Hb. destruct b as [|c b]; [done|]. cbn [TrimRightSpace]. pose proof (TrimLeftSpace_blanks _ "" Hb) as H. rewrite sapp_nil_r in H. by rewrite H.
Qed.

(** ** Rewriting an entry *)

(** A line that starts a variable as Git writes it: indentation, an optional
    section header, the name, blanks, the equals sign and the raw value. *)
Definition key_char (c : ascii) : bool := is_alnum c || Ascii.eqb c "-".
Record entry_line := { el_indent : string; el_header : option (string * string); el_key : string; el_gap : string; el_raw : string }.
Definition header_text (h : option (string * string)) : string :=
  match h with Some (name, gap) => "[" +:+ name +:+ "]" +:+ gap | None => "" end.
Definition line_of (e : entry_line) : string :=
  el_indent e +:+ header_text (el_header e) +:+ el_key e +:+ el_gap e +:+ "=" +:+ el_raw e.
Definition line_ok (e : entry_line) : bool :=
  sforall is_blank (el_indent e) && sforall is_blank (el_gap e) && negb (String.eqb (el_key e) "") && sforall key_char (el_key e) &&
  match el_header e with Some (name, gap) => negb (has_char "]" name) && sforall is_blank gap | None => true end.
Definition requoted (e : entry_line) (v : string) : entry_line :=
  {| el_indent := el_indent e; el_header := match el_header e with Some (name, _) => Some (name, " ") | None => None end;
     el_key := el_key e; el_gap := " "; el_raw := " " +:+ sep1 quote +:+ quoteGitString v +:+ sep1 quote |}.

(** What the parser needs of a name character. *)
Definition key_char_facts (c : ascii) : bool :=
  word_char c && negb (is_blank c) && negb (Ascii.eqb "=" c) && negb (Ascii.eqb c "[") && negb (Ascii.eqb c "#") && negb (Ascii.eqb c ";").
Lemma key_char_props c : key_char c = true → key_char_facts c = true.
Proof.
  pose proof (byte_check (λ z, implb (key_char (chr z)) (key_char_facts (chr z))) (code c) ltac:(by vm_compute) (code_range c)) as H.
  cbn beta in H. rewrite chr_code in H. by destruct (key_char c).
Qed.
Lemma key_char_word c : key_char c = true → word_char c = true.
Proof. intros H. apply key_char_props in H. unfold key_char_facts in H. bool_hyps. done. Qed.
Lemma key_no_eq k b : sforall key_char k = true → sforall is_blank b = true → has_char "=" (k +:+ b) = false.
Proof.
  intros Hk Hb. unfold has_char. rewrite sexists_app. apply orb_false_iff. split.
  - induction k as [|c k IH]; [done|]. cbn [sforall sexists] in *. apply andb_true_iff in Hk as [Hc Hk]. rewrite IH; [|done].
    apply key_char_props in Hc. unfold key_char_facts in Hc. bool_hyps. by rewrite orb_false_r.
  - clear Hk. induction b as [|c b IH]; [done|]. cbn [sforall sexists] in *. apply andb_true_iff in Hb as [Hc Hb]. rewrite IH; [|done].
    rewrite orb_false_r. unfold is_blank in Hc. apply orb_true_iff in Hc as [Hc|Hc]; apply Ascii.eqb_eq in Hc as ->; done.
Qed.
Lemma word_last k : k ≠ "" → sforall key_char k = true → ∃ p c, k = p +:+ sep1 c ∧ key_char c = true.
Proof.
  induction k as [|c k IH]; [done|]. intros _ Hk. cbn [sforall] in Hk. apply andb_true_iff in Hk as [Hc Hk]. destruct k as [|d k].
  - by exists "", c.
  - destruct IH as (p & e & -> & He); [done|done|]. by exists (String c p), e.
Qed.
Lemma TrimSpace_key k b : k ≠ "" → sforall key_char k = true → sforall is_blank b = true → TrimSpace (k +:+ b) = k.
Proof.
  intros Hn Hk Hb. unfold TrimSpace. destruct k as [|c k]; [done|]. pose proof Hk as Hk'. cbn [sforall] in Hk'. apply andb_true_iff in Hk' as [Hc _].
  rewrite sapp_cons TrimLeftSpace_word; [|by apply key_char_word]. rewrite -sapp_cons.
  destruct (word_last _ Hn Hk) as (p & d & -> & Hd). rewrite -sapp_assoc. change (sep1 d +:+ b) with (String d b).
  rewrite TrimRightSpace_word; [|by apply key_char_word]. by rewrite TrimRightSpace_blanks.
Qed.
(** From the name on, trimming only touches the raw value. *)
Lemma TrimSpace_entry b k g raw :
  sforall is_blank b = true → k ≠ "" → sforall key_char k = true → 
  TrimSpace (b +:+ k +:+ g +:+ "=" +:+ raw) = k +:+ g +:+ "=" +:+ TrimRightSpace raw.
Proof.
  intros Hb Hn Hk. unfold TrimSpace. rewrite TrimLeftSpace_blanks; [|done]. destruct k as [|c k]; [done|].
  cbn [sforall] in Hk. apply andb_true_iff in Hk as [Hc _]. rewrite sapp_cons TrimLeftSpace_word; [|by apply key_char_word].
  rewrite -sapp_cons. change ("=" +:+ raw) with (String "=" raw). rewrite sapp_assoc TrimRightSpace_word; [|done].
  by rewrite -sapp_assoc.
Qed.

Lemma leading_blanks_app b s :
  sforall is_blank b = true → leading_blanks (b +:+ s) = b +:+ leading_blanks s ∧ TrimLeftFn is_blank (b +:+ s) = TrimLeftFn is_blank s.
Proof.
  induction b as [|c b IH]; [done|]. cbn [sforall]. intros H. apply andb_true_iff in H as [Hc Hb]. rewrite !sapp_cons.
  cbn [leading_blanks TrimLeftFn]. rewrite Hc. destruct (IH Hb) as [-> ->]. done.
Qed.
Lemma nonblank_head c s : is_blank c = false → leading_blanks (String c s) = "" ∧ TrimLeftFn is_blank (String c s) = String c s.
Proof. intros Hc. cbn. by rewrite Hc. Qed.
Lemma key_head k s : k ≠ "" → sforall key_char k = true → leading_blanks (k +:+ s) = "" ∧ TrimLeftFn is_blank (k +:+ s) = k +:+ s.
Proof.
  destruct k as [|c k]; [done|]. intros _ Hk. cbn [sforall] in Hk. apply andb_true_iff in Hk as [Hc _]. rewrite sapp_cons.
  apply nonblank_head. apply key_char_props in Hc. unfold key_char_facts in Hc. bool_hyps. by destruct (is_blank c).
Qed.
Lemma key_not_header k s : k ≠ "" → sforall key_char k = true → CutPrefix (k +:+ s) "[" = None.
Proof.
  destruct k as [|c k]; [done|]. intros _ Hk. cbn [sforall] in Hk. apply andb_true_iff in Hk as [Hc _]. rewrite sapp_cons.
  change "[" with (sep1 "["). rewrite CutPrefix_sep1. apply key_char_props in Hc. unfold key_char_facts in Hc. bool_hyps.
  rewrite Ascii.eqb_sym. by destruct (Ascii.eqb c "[").
Qed.
Lemma before_eq k g raw : sforall key_char k = true → sforall is_blank g = true → before_char "=" (k +:+ g +:+ "=" +:+ raw) = k +:+ g.
Proof.
  intros Hk Hg. unfold before_char. change ("=" +:+ raw) with (String "=" raw). rewrite sapp_assoc (proj2 (cut_char_Some "=" _ (k +:+ g) raw)); [done|].
  split; [done|]. by apply key_no_eq.
Qed.

Ltac line_hyps H :=
  unfold line_ok in H; cbn [el_indent el_header el_key el_gap el_raw] in H; bool_hyps.
Lemma rewriteGitEntry_line e v : line_ok e = true → rewriteGitEntry (line_of e) v = line_of (requoted e v).
Proof.
  destruct e as [ind hdr k g raw]. intros H. line_hyps H. unfold line_of, requoted. cbn [el_indent el_header el_key el_gap el_raw].
  unfold rewriteGitEntry. assert (k ≠ "") as Hn by (by destruct (String.eqb_spec k "")).
  destruct (leading_blanks_app ind (header_text hdr +:+ k +:+ g +:+ "=" +:+ raw)) as [-> ->]; [done|].
  destruct hdr as [[name gap]|]; cbn [header_text].
  - bool_hyps. set (rest := ("[" +:+ name +:+ "]" +:+ gap) +:+ k +:+ g +:+ "=" +:+ raw).
    assert (rest = String "[" (name +:+ String "]" (gap +:+ k +:+ g +:+ "=" +:+ raw))) as ->.
    { unfold rest. change (String "[" (name +:+ String "]" (gap +:+ k +:+ g +:+ "=" +:+ raw))) with ("[" +:+ name +:+ "]" +:+ gap +:+ k +:+ g +:+ "=" +:+ raw).
      by rewrite -!sapp_assoc. }
    destruct (nonblank_head "[" (name +:+ String "]" (gap +:+ k +:+ g +:+ "=" +:+ raw))) as [-> ->]; [done|]. rewrite sapp_nil_r.
    assert (HasPrefix (String "[" (name +:+ String "]" (gap +:+ k +:+ g +:+ "=" +:+ raw))) "[" = true) as -> by (apply HasPrefix_spec; by eexists).
    change "]" with (sep1 "]"). rewrite (proj2 (cut_char_Some "]" _ (String "[" name) (gap +:+ k +:+ g +:+ "=" +:+ raw))).
    2: { split; [done|]. unfold has_char in *. cbn [sexists]. by destruct (sexists (Ascii.eqb "]") name). }
    destruct (leading_blanks_app gap (k +:+ g +:+ "=" +:+ raw)) as [_ ->]; [done|].
    destruct (key_head k (g +:+ "=" +:+ raw)) as [_ ->]; [done|done|]. rewrite before_eq; [|done|done]. rewrite TrimSpace_key; [|done..].
    change (String "[" name) with ("[" +:+ name). rewrite -!sapp_assoc. done.
  - change ("" +:+ k +:+ g +:+ "=" +:+ raw) with (k +:+ g +:+ "=" +:+ raw).
    destruct (key_head k (g +:+ "=" +:+ raw)) as [-> ->]; [done|done|]. rewrite sapp_nil_r.
    unfold HasPrefix. rewrite key_not_header; [|done|done]. rewrite bool_decide_eq_false_2; [|by intros [? ?]].
    rewrite before_eq; [|done|done]. rewrite TrimSpace_key; [|done..]. done.
Qed.

(** ** Reading a line back *)

Section ReadBack.
Context (lowerU : string → string).

Definition section_of (section : string) (h : option (string * string)) : string :=
  match h with
  | Some (name, _) => ToLower lowerU (before_any (String " " (String tab (sep1 "."))) (TrimSpace name))
  | None => section
  end.
Definition trimmed_raw (e : entry_line) : string :=
  match el_header e with Some _ => TrimRightSpace (TrimRightSpace (el_raw e)) | None => TrimRightSpace (el_raw e) end.

Lemma header_line section e :
  line_ok e = true →
  header lowerU section (TrimSpace (line_of e)) =
  Some (section_of section (el_header e), el_key e +:+ el_gap e +:+ "=" +:+ trimmed_raw e).
Proof.
  destruct e as [ind hdr k g raw]. intros H. line_hyps H. unfold line_of, trimmed_raw. cbn [el_indent el_header el_key el_gap el_raw].
  assert (k ≠ "") as Hn by (by destruct (String.eqb_spec k "")). destruct hdr as [[name gap]|]; cbn [header_text].
  - bool_hyps. unfold TrimSpace at 1. rewrite TrimLeftSpace_blanks; [|done].
    assert (("[" +:+ name +:+ "]" +:+ gap) +:+ k +:+ g +:+ "=" +:+ raw = String "[" (name +:+ String "]" (gap +:+ k +:+ g +:+ "=" +:+ raw))) as ->.
    { change (String "[" (name +:+ String "]" (gap +:+ k +:+ g +:+ "=" +:+ raw))) with ("[" +:+ name +:+ "]" +:+ gap +:+ k +:+ g +:+ "=" +:+ raw).
      by rewrite -!sapp_assoc. }
    rewrite TrimLeftSpace_word; [|done].
    assert (TrimRightSpace (String "[" (name +:+ String "]" (gap +:+ k +:+ g +:+ "=" +:+ raw))) =
            String "[" (name +:+ String "]" (gap +:+ k +:+ g +:+ "=" +:+ TrimRightSpace raw))) as ->.
    { change ("=" +:+ raw) with (String "=" raw). change ("=" +:+ TrimRightSpace raw) with (String "=" (TrimRightSpace raw)).
      assert (∀ r, String "[" (name +:+ String "]" (gap +:+ k +:+ g +:+ String "=" r)) = ("[" +:+ name +:+ "]" +:+ gap +:+ k +:+ g) +:+ String "=" r) as E
        by (intros r; by rewrite -!sapp_assoc).
      by rewrite !E TrimRightSpace_word. }
    unfold header. change (CutPrefix (String "[" (name +:+ String "]" (gap +:+ k +:+ g +:+ "=" +:+ TrimRightSpace raw))) "[")
      with (Some (name +:+ String "]" (gap +:+ k +:+ g +:+ "=" +:+ TrimRightSpace raw))). cbv iota beta.
    change "]" with (sep1 "]"). rewrite (proj2 (cut_char_Some "]" _ name (gap +:+ k +:+ g +:+ "=" +:+ TrimRightSpace raw))).
    2: { split; [done|]. by destruct (has_char "]" name). }
    by rewrite TrimSpace_entry.
  - change ("" +:+ k +:+ g +:+ "=" +:+ raw) with (k +:+ g +:+ "=" +:+ raw). rewrite TrimSpace_entry; [|done..].
    unfold header. by rewrite key_not_header.
Qed.
Lemma parse_entry n section e ls :
  line_ok e = true →
  parse_lines lowerU 0 n section (line_of e :: ls) =
  let '(v, k) := continued (trimmed_raw e) ls in
  {| g_section := section_of section (el_header e); g_key := smap lower_char (el_key e); g_value := v; g_first := n; g_last := (n + k)%nat |}
    :: parse_lines lowerU k (S n) (section_of section (el_header e)) ls.
Proof.
  intros H. cbn [parse_lines]. rewrite (header_line section e H). destruct e as [ind hdr k g raw]. line_hyps H.
  unfold trimmed_raw. cbn [el_key el_gap el_header el_raw]. set (r := match hdr with Some _ => _ | None => _ end).
  assert (k ≠ "") as Hn by (by destruct (String.eqb_spec k "")).
  assert (blank_or_comment (k +:+ g +:+ "=" +:+ r) = false) as ->.
  { destruct k as [|c k]; [done|]. rewrite sapp_cons. cbn [blank_or_comment sforall] in *. bool_hyps.
    match goal with Hc : key_char c = true |- _ => apply key_char_props in Hc; unfold key_char_facts in Hc end. bool_hyps.
    by destruct (Ascii.eqb c "#"), (Ascii.eqb c ";"). }
  unfold variable, Cut. change ("=" +:+ r) with (String "=" r). rewrite sapp_assoc. change "=" with (sep1 "=").
  rewrite (proj2 (cut_char_Some "=" _ (k +:+ g) r)); [|by split; [|apply key_no_eq]].
  rewrite TrimSpace_key; [|done..].
  assert (ToLower lowerU k = smap lower_char k) as ->.
  { unfold ToLower. assert (is_ascii k = true) as ->; [|done]. unfold is_ascii. apply (sforall_impl key_char); [|done].
    intros c Hc. apply key_char_word in Hc. unfold word_char in Hc. by apply andb_true_iff in Hc as [? _]. }
  destruct (continued r ls) as [v j]. cbn [fst snd].
  assert (String.eqb (smap lower_char k) "" = false) as ->; [|done]. by destruct k.
Qed.

(** Quoting is undone by the value reader, for every value. *)
Lemma value_quote v b pending :
  value_loop (quoteGitString v +:+ sep1 quote) b true pending = match v with EmptyString => (b, false) | _ => (b +:+ pending +:+ v, false) end.
Proof.
  revert b pending. induction v as [|c v IH]; intros b pending; [done|]. cbn [quoteGitString].
  assert (∀ x, value_loop (quoteGitString v +:+ sep1 quote) (b +:+ pending +:+ sep1 x) true "" = (b +:+ pending +:+ String x v, false)) as H.
  { intros x. rewrite IH. destruct v; [done|]. f_equal. rewrite -!sapp_assoc. done. }
  unfold quote_char. destruct (Ascii.eqb_spec c backslash) as [->|H1]; [exact (H backslash)|].
  destruct (Ascii.eqb_spec c quote) as [->|H2]; [exact (H quote)|].
  destruct (Ascii.eqb_spec c (chr 10)) as [->|H3]; [exact (H (chr 10))|].
  destruct (Ascii.eqb_spec c tab) as [->|H4]; [exact (H tab)|].
  rewrite -sapp_assoc. change (sep1 c +:+ quoteGitString v +:+ sep1 quote) with (String c (quoteGitString v +:+ sep1 quote)). cbn [value_loop].
  destruct (Ascii.eqb_spec c backslash); [done|]. destruct (Ascii.eqb_spec c quote); [done|]. cbn [negb andb]. apply H.
Qed.
Lemma value_requoted v ls : continued (" " +:+ sep1 quote +:+ quoteGitString v +:+ sep1 quote) ls = (v, O).
Proof.
  assert (gitConfigValue (" " +:+ sep1 quote +:+ quoteGitString v +:+ sep1 quote) = (v, false)) as E.
  { unfold gitConfigValue. change (value_loop (quoteGitString v +:+ sep1 quote) "" true "" = (v, false)). rewrite value_quote. by destruct v. }
  destruct ls; cbn [continued]; by rewrite E.
Qed.

(** C37: when the copied configuration gets a path replaced, the new line is
    read back with the same section and the same name as the old one and with
    exactly the new value, whatever bytes the value has and however the old
    line was written, and it takes no further line. *)
Theorem rewriteGitEntry_reads_back n section e v ls :
  line_ok e = true →
  ∃ old k,
    parse_lines lowerU 0 n section (line_of e :: ls) =
      {| g_section := section_of section (el_header e); g_key := smap lower_char (el_key e); g_value := old; g_first := n; g_last := (n + k)%nat |}
        :: parse_lines lowerU k (S n) (section_of section (el_header e)) ls ∧
    parse_lines lowerU 0 n section (rewriteGitEntry (line_of e) v :: ls) =
      {| g_section := section_of section (el_header e); g_key := smap lower_char (el_key e); g_value := v; g_first := n; g_last := n |}
        :: parse_lines lowerU 0 (S n) (section_of section (el_header e)) ls.
Proof.
  intros H. rewrite (parse_entry n section e ls H). destruct (continued (trimmed_raw e) ls) as [old k].
  exists old, k. split; [done|]. rewrite (rewriteGitEntry_line e v H).
  assert (line_ok (requoted e v) = true) as Hr.
  { destruct e as [ind hdr key g raw]. unfold line_ok, requoted in *. cbn [el_indent el_header el_key el_gap el_raw] in *.
    rewrite !andb_true_iff in H |- *. destruct H as [[[[H1 H2] H3] H4] H5]. split_and!; try done.
    destruct hdr as [[name gap]|]; [|done]. apply andb_true_iff in H5 as [H5 _]. by rewrite H5. }
  rewrite (parse_entry n section _ ls Hr).
  assert (trimmed_raw (requoted e v) = el_raw (requoted e v)) as ->.
  { assert (TrimRightSpace (el_raw (requoted e v)) = el_raw (requoted e v)) as E.
    { cbn [requoted el_raw]. change (sep1 quote) with (String quote "") at 2 4. rewrite !sapp_assoc. by rewrite TrimRightSpace_word. }
    unfold trimmed_raw. destruct (el_header (requoted e v)); by rewrite ?E. }
  cbn [requoted el_raw el_key el_header]. rewrite value_requoted Nat.add_0_r. by destruct (el_header e) as [[name gap]|].
Qed.
End ReadBack.
Lemma rewriteGitEntry_reads_back_witness :
  let e := {| el_indent := "  "; el_header := Some ("includeIf x", " "); el_key := "Path"; el_gap := " "; el_raw := " /home/u/a # c" |} in
  ∃ old k,
    parse_lines id 0 3 "" [line_of e] =
      {| g_section := section_of id "" (el_header e); g_key := smap lower_char (el_key e); g_value := old; g_first := 3; g_last := (3 + k)%nat |}
        :: parse_lines id k 4 (section_of id "" (el_header e)) [] ∧
    parse_lines id 0 3 "" [rewriteGitEntry (line_of e) ("~/a" +:+ sep1 quote)] =
      {| g_section := section_of id "" (el_header e); g_key := smap lower_char (el_key e); g_value := "~/a" +:+ sep1 quote; g_first := 3; g_last := 3 |}
        :: parse_lines id 0 4 (section_of id "" (el_header e)) [].
Proof. intros e. refine (rewriteGitEntry_reads_back id 3 "" e ("~/a" +:+ sep1 quote) [] _). vm_compute. reflexivity. Defined.
