(* ===== verification/HostFS.v ===== *)
(** * The host file system and symbolic links

    The file system the host side walks, as nodes by absolute path, and
    [linkInside] of [src/internal/cmd/vmbackend_unix.go], which decides whether
    a path runs through a symbolic link the workspace could replace. Paths are
    lists of components from the root; a path that is [base] or below it is one
    that has [base] as a prefix. *)

From S2P Require Import Prelude GoStrings GoSort GoPath.
Open Scope string_scope.
Open Scope list_scope.

Notation path := (list string).
Inductive node := NDir | NFile (data : string) | NLink (target : string) | NOther.
#[export] Instance node_eq_dec : EqDecision node.
Proof. solve_decision. Defined.
Definition fs : Type := gmap path node.
Definition node_at (f : fs) (p : path) : option node := match p with [] => Some NDir | _ => f !! p end.

(** Components of a cleaned absolute path, and back. *)
Definition comps (s : string) : path := clean_elems true (elems s).
Definition path_string (p : path) : string := "/" +:+ Join p "/".
Definition parent (p : path) : path := take (length p - 1) p.
(** [filepath.Rel] and [IsLocal]: at or below [base]. *)
Definition inside (base p : path) : bool := bool_decide (base `prefix_of` p).
Definition strictly_inside (base p : path) : bool := inside base p && negb (bool_decide (p = base)).
Definition first_inside (roots : list path) (p : path) : option nat :=
  fst <$> list_find (λ r, strictly_inside r p = true) roots.

Inductive link_res := LinkFound (link : path) (root : nat) | LinkNone | LinkMissing | LinkErr.

(** The walk from the root, one component at a time; [hops] is how many links
    may still be followed. [LinkMissing] is the missing component at which the
    code reports no link. *)
Section Walk.
Context (f : fs) (roots : list path).
Fixpoint link_walk (hops : nat) : path → list string → link_res * path :=
  fix go (cur : path) (rest : list string) {struct rest} : link_res * path :=
    match rest with
    | [] => (LinkNone, cur)
    | part :: rest =>
        if String.eqb part "" || String.eqb part "." then go cur rest
        else if String.eqb part ".." then go (parent cur) rest
        else
          let next := cur ++ [part] in
          match node_at f cur, node_at f next with
          | Some (NFile _), _ | Some NOther, _ => (LinkErr, cur)      (* not a directory *)
          | _, None => (LinkMissing, cur)
          | _, Some (NLink target) =>
              match first_inside roots next with
              | Some i => (LinkFound next i, cur)
              | None =>
                  match hops with
                  | O => (LinkErr, cur)
                  | S hops => link_walk hops (if IsAbs target then [] else cur) (Split target "/" ++ rest)
                  end
              end
          | _, Some _ => go next rest
          end
    end.
End Walk.

Definition maxLinkHops : nat := 255.
(** [cwd] is what [filepath.Abs] puts before a relative path. *)
Definition Abs (cwd s : string) : string := if IsAbs s then Clean s else JoinPath [cwd; s].
Definition linkInside (f : fs) (cwd s : string) (roots : list path) : link_res :=
  (link_walk f roots maxLinkHops [] (Split (Abs cwd s) "/")).1.
(** [filepath.EvalSymlinks]: the link-free path of an existing file. *)
Definition EvalSymlinks (f : fs) (cwd s : string) : option path :=
  match link_walk f [] maxLinkHops [] (Split (Abs cwd s) "/") with (LinkNone, p) => Some p | _ => None end.

(** ** The system calls of the host side

    [klinks] is how many links the kernel follows ([ELOOP] after that);
    [readable] and [creatable] are the permissions of the user who runs the
    host side. Search permission on directories is assumed. *)

(** [filepath.EvalSymlinks] on a cleaned absolute path. *)
Definition resolve (f : fs) (p : path) : option path :=
  match link_walk f [] maxLinkHops [] p with (LinkNone, q) => Some q | _ => None end.
(** [linkInside] on a cleaned absolute path. *)
Definition link_inside (f : fs) (p : path) (roots : list path) : link_res := (link_walk f roots maxLinkHops [] p).1.

Inductive looked := LNode (n : node) | LMissing | LBad.

Section Calls.
Context (klinks : nat) (readable creatable : path → bool).

(** Where the entry [p] is, its directory resolved. *)
Definition place (f : fs) (p : path) : option path + unit :=
  match p with
  | [] => inl (Some [])
  | _ =>
      match link_walk f [] klinks [] (parent p) with
      | (LinkNone, d) => match node_at f d with Some NDir => inl (Some (d ++ drop (length p - 1) p)) | _ => inr () end
      | (LinkMissing, _) => inl None
      | _ => inr ()
      end
  end.
Definition Lstat (f : fs) (p : path) : looked :=
  match place f p with
  | inl (Some q) => match node_at f q with Some n => LNode n | None => LMissing end
  | inl None => LMissing
  | inr _ => LBad
  end.
Definition Stat (f : fs) (p : path) : looked :=
  match link_walk f [] klinks [] p with
  | (LinkNone, q) => match node_at f q with Some n => LNode n | None => LMissing end
  | (LinkMissing, _) => LMissing
  | _ => LBad
  end.
Definition is_dir (l : looked) : bool := match l with LNode NDir => true | _ => false end.
Definition is_regular (l : looked) : bool := match l with LNode (NFile _) => true | _ => false end.
Definition is_missing (l : looked) : bool := match l with LMissing => true | _ => false end.

(** [readSmall]: the regular file [p] if it has at most [max] bytes. *)
Definition readSmall (f : fs) (p : path) (max : Z) (noFollow : bool) : option string :=
  match (if noFollow then Lstat f p else Stat f p) with
  | LNode (NFile data) => if readable p && (Z.of_nat (String.length data) <=? max)%Z then Some data else None
  | _ => None
  end.

(** [os.ReadDir]: the entries sorted by name. *)
Definition children (f : fs) (d : path) : list (string * node) :=
  stable_sort (λ a b, strle a.1 b.1)
    (omap (M:=list) (λ pn : path * node,
       match last pn.1 with
       | Some name => if bool_decide (pn.1 = d ++ [name]) then Some (name, pn.2) else None
       | None => None
       end) (map_to_list f)).
Definition ReadDir (f : fs) (d : path) : option (list (string * node)) :=
  match link_walk f [] klinks [] d with
  | (LinkNone, q) => if readable d && bool_decide (node_at f q = Some NDir) then Some (children f q) else None
  | _ => None
  end.

(** [os.Mkdir] and the exclusive creation of a file. *)
Definition create (f : fs) (p : path) (n : node) : option fs :=
  match place f p with
  | inl (Some q) => if creatable p && bool_decide (node_at f q = None) then Some (<[q := n]> f) else None
  | _ => None
  end.
Definition mkdir_step (f : fs) (p : path) : fs * bool :=
  match Stat f p with
  | LNode NDir => (f, true)
  | LMissing => match create f p NDir with Some f' => (f', true) | None => (f, false) end
  | _ => (f, false)
  end.
(** [os.MkdirAll], from the shortest prefix on; what was made before a failure
    stays. *)
Fixpoint mkdir_prefixes (f : fs) (done todo : path) : fs * bool :=
  match todo with
  | [] => mkdir_step f done
  | c :: todo =>
      let '(f, ok) := mkdir_step f done in
      if ok then mkdir_prefixes f (done ++ [c]) todo else (f, false)
  end.
Definition MkdirAll (f : fs) (p : path) : fs * bool := mkdir_prefixes f [] p.
(** [createEmpty]; the flag tells whether it succeeded. *)
Definition createEmpty (f : fs) (p : path) (dir : bool) : fs * bool :=
  if dir then MkdirAll f p else
  let '(f, ok) := MkdirAll f (parent p) in
  if ok then match create f p (NFile "") with Some f' => (f', true) | None => (f, false) end else (f, false).
End Calls.

(** ** Lemmas *)

Lemma link_walk_unfold f roots hops cur rest :
  link_walk f roots hops cur rest =
  match rest with
  | [] => (LinkNone, cur)
  | part :: rest =>
      if String.eqb part "" || String.eqb part "." then link_walk f roots hops cur rest
      else if String.eqb part ".." then link_walk f roots hops (parent cur) rest
      else
        match node_at f cur, node_at f (cur ++ [part]) with
        | Some (NFile _), _ | Some NOther, _ => (LinkErr, cur)
        | _, None => (LinkMissing, cur)
        | _, Some (NLink target) =>
            match first_inside roots (cur ++ [part]) with
            | Some i => (LinkFound (cur ++ [part]) i, cur)
            | None =>
                match hops with
                | O => (LinkErr, cur)
                | S hops => link_walk f roots hops (if IsAbs target then [] else cur) (Split target "/" ++ rest)
                end
            end
        | _, Some _ => link_walk f roots hops (cur ++ [part]) rest
        end
  end.
Proof. destruct hops, rest as [|part rest]; try done; cbn; by destruct (_ || _), (String.eqb part ".."). Qed.

(** Induction over the walk: the hops left, then the components left. *)
Lemma walk_ind (P : nat → path → list string → Prop) :
  (∀ hops cur rest,
     (∀ cur' rest', (length rest' < length rest)%nat → P hops cur' rest') →
     (∀ hops' cur' rest', hops = S hops' → P hops' cur' rest') → P hops cur rest) →
  ∀ hops cur rest, P hops cur rest.
Proof.
  intros H.
  assert (∀ h, (∀ h', h = S h' → ∀ c r, P h' c r) → ∀ n c r, (length r < n)%nat → P h c r) as Hn.
  { intros h Hh. induction n as [|n IH]; intros c r Hr; [lia|]. apply H; [intros; apply IH; lia|intros h' c' r' E; by apply (Hh h')]. }
  induction hops as [|hops IH]; intros cur rest.
  - apply (Hn O ltac:(done) (S (length rest))). lia.
  - refine (Hn (S hops) _ (S (length rest)) cur rest _); [|lia]. intros h' [= <-]. exact IH.
Qed.

Lemma first_inside_Some roots p i : first_inside roots p = Some i → ∃ r, roots !! i = Some r ∧ strictly_inside r p = true.
Proof.
  unfold first_inside. intros H. apply fmap_Some in H as ([j r] & Hf & ->). apply list_find_Some in Hf as (Hr & Hs & _). by exists r.
Qed.
Lemma first_inside_None roots p r : first_inside roots p = None → r ∈ roots → strictly_inside r p = false.
Proof.
  unfold first_inside. intros H Hr. apply fmap_None in H. apply list_find_None in H. rewrite Forall_forall in H. specialize (H r Hr).
  by destruct (strictly_inside r p).
Qed.

(** What the walk reports is a symbolic link strictly inside the root it names. *)
Lemma link_walk_found f roots hops cur rest l i q :
  link_walk f roots hops cur rest = (LinkFound l i, q) →
  (∃ t, f !! l = Some (NLink t)) ∧ ∃ r, roots !! i = Some r ∧ strictly_inside r l = true.
Proof.
  revert hops cur rest. refine (walk_ind _ _). intros hops cur rest IH1 IH2. rewrite link_walk_unfold. destruct rest as [|part rest]; [done|].
  destruct (String.eqb part "" || String.eqb part "."); [apply IH1; cbn; lia|].
  destruct (String.eqb part ".."); [apply IH1; cbn; lia|].
  destruct (node_at f cur) as [[| | |]|]; try done; destruct (node_at f (cur ++ [part])) as [[|d|t|]|] eqn:En; try done;
    try (apply IH1; cbn; lia);
    (destruct (first_inside roots (cur ++ [part])) as [j|] eqn:Ef;
      [intros [= <- <- <-]; split; [exists t; by destruct cur|by apply first_inside_Some]|]);
    (destruct hops as [|hops]; [done|]; by apply IH2).
Qed.

(** Two file systems that differ only strictly inside the roots. *)
Definition agree_outside (roots : list path) (f f' : fs) : Prop :=
  ∀ p, (∀ r, r ∈ roots → strictly_inside r p = false) → node_at f p = node_at f' p.
Lemma not_inside_dec roots p :
  (∃ i, first_inside roots p = Some i) ∨ (∀ r, r ∈ roots → strictly_inside r p = false).
Proof.
  destruct (first_inside roots p) as [i|] eqn:E; [left; by exists i|right]. intros r. by apply first_inside_None.
Qed.
Lemma link_walk_stable f f' roots hops cur rest p p' :
  agree_outside roots f f' →
  link_walk f roots hops cur rest = (LinkNone, p) → link_walk f' roots hops cur rest = (LinkNone, p') → p = p'.
Proof.
  intros Ha. revert hops cur rest. refine (walk_ind _ _). intros hops cur rest IH1 IH2. rewrite !link_walk_unfold.
  destruct rest as [|part rest]; [by intros [= <-] [= <-]|].
  destruct (String.eqb part "" || String.eqb part "."); [apply IH1; cbn; lia|].
  destruct (String.eqb part ".."); [apply IH1; cbn; lia|].
  destruct (not_inside_dec roots (cur ++ [part])) as [[i Hi]|Hout].
  - rewrite Hi. intros H H'.
    assert (link_walk f roots hops (cur ++ [part]) rest = (LinkNone, p)) as H1
      by (destruct (node_at f cur) as [[| | |]|], (node_at f (cur ++ [part])) as [[| | |]|]; done).
    assert (link_walk f' roots hops (cur ++ [part]) rest = (LinkNone, p')) as H1'
      by (destruct (node_at f' cur) as [[| | |]|], (node_at f' (cur ++ [part])) as [[| | |]|]; done).
    refine (IH1 _ _ _ H1 H1'). cbn. lia.
  - rewrite -(Ha _ Hout). intros H H'.
    destruct (node_at f (cur ++ [part])) as [[|d|t|]|] eqn:En;
      [ | |destruct (first_inside roots (cur ++ [part])); [by destruct (node_at f cur) as [[| | |]|]|]
      | |by destruct (node_at f cur) as [[| | |]|]].
    1,2,4: refine (IH1 (cur ++ [part]) rest ltac:(cbn; lia) _ _); [by destruct (node_at f cur) as [[| | |]|]|by destruct (node_at f' cur) as [[| | |]|]].
    destruct hops as [|hops]; [by destruct (node_at f cur) as [[| | |]|]|].
    refine (IH2 hops (if IsAbs t then [] else cur) (Split t "/" ++ rest) eq_refl _ _); [by destruct (node_at f cur) as [[| | |]|]|by destruct (node_at f' cur) as [[| | |]|]].
Qed.
(** A walk that finds no link inside the roots is the one that ignores them. *)
Lemma link_walk_none f roots hops cur rest p :
  link_walk f roots hops cur rest = (LinkNone, p) → link_walk f [] hops cur rest = (LinkNone, p).
Proof.
  revert hops cur rest. refine (walk_ind _ _). intros hops cur rest IH1 IH2. rewrite !link_walk_unfold.
  destruct rest as [|part rest]; [done|].
  destruct (String.eqb part "" || String.eqb part "."); [apply IH1; cbn; lia|].
  destruct (String.eqb part ".."); [apply IH1; cbn; lia|].
  destruct (node_at f cur) as [[| | |]|]; try done; destruct (node_at f (cur ++ [part])) as [[| |t|]|]; try done;
    try (apply IH1; cbn; lia); cbn; (destruct (first_inside roots (cur ++ [part])); [done|]);
    (destruct hops as [|hops]; [done|]); by apply IH2.
Qed.

(** Whatever a workspace changes strictly inside its read-write shares, a
    path the check accepts before and after leads to the same host directory:
    the workspace cannot redirect a share of the next start. *)
Theorem linkInside_stable f f' cwd s roots :
  agree_outside roots f f' →
  linkInside f cwd s roots = LinkNone → linkInside f' cwd s roots = LinkNone →
  is_Some (EvalSymlinks f cwd s) ∧ EvalSymlinks f cwd s = EvalSymlinks f' cwd s.
Proof.
  intros Ha. unfold linkInside, EvalSymlinks.
  destruct (link_walk f roots _ _ _) as [r p] eqn:E, (link_walk f' roots _ _ _) as [r' p'] eqn:E'. cbn [fst]. intros -> ->.
  rewrite (link_walk_none _ _ _ _ _ _ E) (link_walk_none _ _ _ _ _ _ E') (link_walk_stable _ _ _ _ _ _ _ _ Ha E E'). split; [by eexists|reflexivity].
Qed.
Definition lab_fs : fs :=
  <[["w"] := NDir]> (<[["w"; "a"] := NDir]> (<[["l"] := NLink "w/a"]> (<[["etc"] := NDir]> ∅))).
Definition lab_fs' : fs := <[["w"; "x"] := NLink "/etc"]> lab_fs.
Lemma linkInside_stable_witness :
  is_Some (EvalSymlinks lab_fs "/" "/l") ∧ EvalSymlinks lab_fs "/" "/l" = EvalSymlinks lab_fs' "/" "/l".
Proof.
  refine (linkInside_stable lab_fs lab_fs' "/" "/l" [["w"]] _ _ _); [|vm_compute; reflexivity..].
  intros p Hp. specialize (Hp ["w"] ltac:(constructor)). unfold node_at, lab_fs'. destruct p as [|s p]; [reflexivity|].
  symmetry. apply lookup_insert_ne. intros [= <- <-]. vm_compute in Hp. discriminate Hp.
Defined.
Example linkInside_ex :
  linkInside lab_fs' "/" "/w/x" [["w"]] = LinkFound ["w"; "x"] 0 ∧ linkInside lab_fs' "/" "/w/x" [] = LinkNone ∧
  EvalSymlinks lab_fs' "/" "/w/x" = Some ["etc"] ∧ linkInside lab_fs "/" "/w/none/y" [] = LinkMissing.
Proof. by vm_compute. Qed.

(** ** Paths free of symbolic links *)

Lemma prefix_snoc_cases {A} (q p : list A) x : q `prefix_of` p ++ [x] → q `prefix_of` p ∨ q = p ++ [x].
Proof.
  intros [k E]. destruct k as [|y k' _] using rev_ind.
  - right. by rewrite app_nil_r in E.
  - left. exists k'. rewrite app_assoc in E. by apply app_inj_tail in E as [-> _].
Qed.
Lemma take_prefix {A} n (l : list A) : take n l `prefix_of` l.
Proof. exists (drop n l). by rewrite take_drop. Qed.

Definition is_link (n : node) : bool := match n with NLink _ => true | _ => false end.
(** Every part of [p] exists and is no link. *)
Definition clean (f : fs) (p : path) : Prop :=
  Forall plain p ∧ ∀ q : path, q ≠ [] → q `prefix_of` p → ∃ n, f !! q = Some n ∧ is_link n = false.
(** No part of [p] is a link. *)
Definition link_free (f : fs) (p : path) : Prop :=
  Forall plain p ∧ ∀ (q : path) t, q ≠ [] → q `prefix_of` p → f !! q ≠ Some (NLink t).

Lemma clean_nil f : clean f [].
Proof. split; [done|]. intros q Hq Hp. by apply prefix_nil_inv in Hp. Qed.
Lemma clean_prefix f p q : q `prefix_of` p → clean f p → clean f q.
Proof.
  intros Hq [Hp Hc]. split; [|intros q' Hq' H; apply Hc; [done|exact (transitivity H Hq)]].
  destruct Hq as [k ->]. by apply Forall_app in Hp as [? _].
Qed.
Lemma clean_snoc f p part n :
  clean f p → plain part → f !! (p ++ [part]) = Some n → is_link n = false → clean f (p ++ [part]).
Proof.
  intros [Hp Hc] Hpart Hn Hl. split; [by apply Forall_app_2; [|constructor]|]. intros q Hq H.
  apply prefix_snoc_cases in H as [H| ->]; [by apply Hc|by exists n].
Qed.
Lemma clean_link_free f p : clean f p → link_free f p.
Proof. intros [Hp Hc]. split; [done|]. intros q t Hq H E. destruct (Hc q Hq H) as (n & En & Hl). rewrite E in En. injection En as <-. done. Qed.
Lemma clean_mono f f' p : f ⊆ f' → clean f p → clean f' p.
Proof.
  intros Hf [Hp Hc]. split; [done|]. intros q Hq H. destruct (Hc q Hq H) as (n & En & Hl). exists n. split; [|done].
  by apply (lookup_weaken f).
Qed.
Lemma parent_snoc p x : parent (p ++ [x]) = p.
Proof. unfold parent. rewrite length_app Nat.add_sub. apply take_app_length. Qed.
Lemma parent_prefix p : parent p `prefix_of` p.
Proof. unfold parent. exists (drop (length p - 1) p). by rewrite take_drop. Qed.

(** What a walk reaches is free of links, whatever it passed through. *)
Lemma link_walk_clean f roots hops cur rest p :
  link_walk f roots hops cur rest = (LinkNone, p) → clean f cur → clean f p.
Proof.
  revert hops cur rest. refine (walk_ind _ _). intros hops cur rest IH1 IH2. rewrite link_walk_unfold.
  destruct rest as [|part rest]; [by intros [= <-]|].
  destruct (String.eqb_spec part "") as [|H1]; [apply IH1; cbn; lia|]. destruct (String.eqb_spec part ".") as [|H2]; [apply IH1; cbn; lia|]. cbn [orb].
  destruct (String.eqb_spec part "..") as [|H3].
  { intros H Hc. refine (IH1 _ _ _ H _); [cbn; lia|]. exact (clean_prefix _ _ _ (parent_prefix cur) Hc). }
  intros H Hc. revert H. assert (Hpart : plain part) by done.
  destruct (node_at f cur) as [[| | |]|]; try done; destruct (node_at f (cur ++ [part])) as [[| |t|]|] eqn:En; try done;
    try (intros H; refine (IH1 _ _ _ H (clean_snoc _ _ _ _ Hc Hpart _ _)); [cbn; lia|rewrite <-En; by destruct cur|done]);
    (destruct (first_inside roots (cur ++ [part])); [done|]); (destruct hops as [|hops]; [done|]); intros H;
    (refine (IH2 _ _ _ eq_refl H _); destruct (IsAbs t); [apply clean_nil|done]).
Qed.
(** Along a path without links the walk stays on it. *)
Lemma link_walk_on f roots hops cur rest :
  link_free f (cur ++ rest) → Forall plain rest →
  link_walk f roots hops cur rest = (LinkNone, cur ++ rest) ∨
  (link_walk f roots hops cur rest).1 = LinkMissing ∨ (link_walk f roots hops cur rest).1 = LinkErr.
Proof.
  revert cur. induction rest as [|part rest IH]; intros cur [Hp Hl] Hr; rewrite link_walk_unfold; [rewrite app_nil_r; by left|].
  apply Forall_cons in Hr as [(H1 & H2 & H3) Hr]. apply String.eqb_neq in H1, H2, H3. rewrite H1 H2 H3. cbn [orb].
  assert (Hn : ∀ t, node_at f (cur ++ [part]) ≠ Some (NLink t)).
  { intros t E. apply (Hl (cur ++ [part]) t); [by destruct cur|by apply prefix_app, prefix_cons, prefix_nil|by destruct cur]. }
  specialize (IH (cur ++ [part])). rewrite -app_assoc in IH. specialize (IH (conj Hp Hl) Hr).
  destruct (node_at f cur) as [[| | |]|]; try (right; right; done); destruct (node_at f (cur ++ [part])) as [[| |t|]|];
    try done; try (right; left; done); by destruct (Hn t).
Qed.
(** Adding nodes keeps what a walk reaches. *)
Lemma node_at_mono f f' p n : f ⊆ f' → node_at f p = Some n → node_at f' p = Some n.
Proof. intros Hf. destruct p; [done|]. cbn. intros H. by apply (lookup_weaken f). Qed.
Lemma clean_exists f p : clean f p → ∃ n, node_at f p = Some n ∧ is_link n = false.
Proof. intros [_ Hc]. destruct p as [|x p]; [by exists NDir|]. by apply (Hc (x :: p)). Qed.
Lemma link_walk_mono f f' roots hops cur rest p :
  f ⊆ f' → clean f cur → link_walk f roots hops cur rest = (LinkNone, p) → link_walk f' roots hops cur rest = (LinkNone, p).
Proof.
  intros Hf. revert hops cur rest. refine (walk_ind _ _). intros hops cur rest IH1 IH2 Hc. rewrite !link_walk_unfold.
  destruct rest as [|part rest]; [done|].
  destruct (String.eqb_spec part "") as [|H1]; [by apply IH1; [cbn; lia|]|].
  destruct (String.eqb_spec part ".") as [|H2]; [by apply IH1; [cbn; lia|]|]. cbn [orb].
  destruct (String.eqb_spec part "..") as [|H3]; [apply IH1; [cbn; lia|exact (clean_prefix _ _ _ (parent_prefix cur) Hc)]|].
  assert (Hpart : plain part) by done. destruct (clean_exists _ _ Hc) as (m & Em & Hm). rewrite Em (node_at_mono _ _ _ _ Hf Em).
  destruct (node_at f (cur ++ [part])) as [n|] eqn:En; [|by destruct m]. rewrite (node_at_mono _ _ _ _ Hf En).
  destruct m; try done; destruct n as [| |t|];
    try (apply IH1; [cbn; lia|refine (clean_snoc _ _ _ _ Hc Hpart _ _); [rewrite <-En; by destruct cur|done]]); (destruct (first_inside roots (cur ++ [part])); [done|]);
    (destruct hops as [|hops]; [done|]); (apply IH2; [done|]; destruct (IsAbs t); [apply clean_nil|done]).
Qed.

(** ** Adding directories and empty files *)

(** Every entry is in a directory. *)
Definition tree (f : fs) : Prop := ∀ p x n, f !! (p ++ [x]) = Some n → node_at f p = Some NDir.
(** [f'] is [f] with empty files and directories added at paths of [P]. *)
Definition grown (P : path → Prop) (f f' : fs) : Prop :=
  (∀ q : path, f' !! q = f !! q ∨ (f !! q = None ∧ P q ∧ (f' !! q = Some NDir ∨ f' !! q = Some (NFile "")))) ∧
  (tree f → tree f').
#[export] Instance grown_preorder P : PreOrder (grown P).
Proof.
  split; [intros f; split; [by left|done]|]. intros f g h [H1 T1] [H2 T2]. split; [|by auto]. intros q.
  destruct (H1 q) as [E1|(E1 & HP & E)], (H2 q) as [E2|(E2 & HP2 & E')].
  - left. congruence.
  - right. by rewrite -E1.
  - right. by rewrite E2.
  - right. done.
Qed.
Lemma grown_subseteq P f f' : grown P f f' → f ⊆ f'.
Proof. intros [H _]. apply map_subseteq_spec. intros q n Hq. destruct (H q) as [E|(E & _)]; [exact (eq_trans E Hq)|]. by pose proof (eq_trans (eq_sym Hq) E). Qed.
Lemma grown_None P f f' q : grown P f f' → f' !! q = None → f !! q = None.
Proof. intros [H _] E. destruct (H q) as [E'|(E' & _)]; [by rewrite -E'|done]. Qed.
Lemma grown_link_free P f f' p : grown P f f' → link_free f p → link_free f' p.
Proof.
  intros [H _] [Hp Hl]. split; [done|]. intros q t Hq Hqp E. destruct (H q) as [E'|(_ & _ & [E'|E'])]; rewrite E in E'; try done.
  by apply (Hl q t).
Qed.
Lemma grown_insert P f q n :
  f !! q = None → P q → n = NDir ∨ n = NFile "" → q ≠ [] → node_at f (parent q) = Some NDir → grown P f (<[q := n]> f).
Proof.
  intros Hq HP Hn Hne Hd. split.
  - intros q'. destruct (decide (q' = q)) as [->|Hneq]; [|left; apply lookup_insert_ne; congruence]. right.
    rewrite lookup_insert_eq. repeat split; try done. destruct Hn as [-> | ->]; auto.
  - intros Ht p x m. destruct (decide (p ++ [x] = q)) as [E|Hneq].
    + intros _. subst q. rewrite parent_snoc in Hd. destruct p as [|y p]; [done|]. cbn in Hd |- *.
      rewrite lookup_insert_ne; [done|]. intros E. by apply (f_equal length) in E; cbn in E; rewrite length_app in E; cbn in E; lia.
    + rewrite lookup_insert_ne; [|congruence]. intros Hm. apply Ht in Hm as Hp. destruct p as [|y p]; [done|]. cbn in Hp |- *.
      destruct (decide (y :: p = q)) as [E|Hnp]; [by rewrite -E Hp in Hq|]. rewrite lookup_insert_ne; [done|congruence].
Qed.

Lemma link_free_prefix f p q : q `prefix_of` p → link_free f p → link_free f q.
Proof.
  intros Hq [Hp Hl]. split; [destruct Hq as [k ->]; by apply Forall_app in Hp as [? _]|].
  intros q' t Hn H. apply Hl; [done|exact (transitivity H Hq)].
Qed.

Section Created.
Context (klinks : nat) (readable creatable : path → bool).
Lemma parent_drop p : parent p ++ drop (length p - 1) p = p.
Proof. apply take_drop. Qed.
Lemma walk_link_free_eq f hops p q :
  link_free f p → link_walk f [] hops [] p = (LinkNone, q) → q = p.
Proof.
  intros Hp E. destruct (link_walk_on f [] hops [] p Hp (proj1 Hp)) as [E'|[E'|E']]; rewrite E in E'; [by injection E' as ->|done..].
Qed.
Lemma place_link_free f p q :
  link_free f p → place klinks f p = inl (Some q) → q = p ∧ clean f (parent p) ∧ (p ≠ [] → node_at f (parent p) = Some NDir).
Proof.
  intros Hp. destruct p as [|x p]; [intros [= <-]; split; [done|split; [apply clean_nil|done]]|]. unfold place.
  destruct (link_walk f [] klinks [] (parent (x :: p))) as [r d] eqn:E. destruct r; try done.
  apply walk_link_free_eq in E as Hd; [|exact (link_free_prefix _ _ _ (parent_prefix _) Hp)]. subst d.
  pose proof (link_walk_clean _ _ _ _ _ _ E (clean_nil f)) as Hc.
  destruct (node_at f (parent (x :: p))) as [[| | |]|] eqn:Ed; try done. intros [= <-]. split; [apply parent_drop|done].
Qed.
Lemma create_grown P f p n f' :
  link_free f p → p ≠ [] → create klinks creatable f p n = Some f' → (f !! p = None → P p) → n = NDir ∨ n = NFile "" →
  grown P f f' ∧ f' !! p = Some n.
Proof.
  unfold create. destruct (place klinks f p) as [[q|]|] eqn:E; [|done..]. intros Hp Hne. apply place_link_free in E as (-> & _ & Hd); [|done].
  case_bool_decide as Hq; [|by rewrite andb_false_r]. destruct (creatable p); [|done]. intros [= <-] HP Hn.
  destruct p as [|x p]; [done|]. cbn in Hq. split; [by apply grown_insert; auto|by rewrite lookup_insert_eq].
Qed.
Lemma mkdir_step_grown P f cur f' ok :
  link_free f cur → (∀ q, q ≠ [] → q `prefix_of` cur → f !! q = None → P q) → mkdir_step klinks creatable f cur = (f', ok) →
  grown P f f' ∧ (ok = true → node_at f' cur = Some NDir).
Proof.
  intros Hl HP. unfold mkdir_step, Stat. destruct (link_walk f [] klinks [] cur) as [r q] eqn:E.
  assert (Hcreate : match create klinks creatable f cur NDir with Some f' => (f', true) | None => (f, false) end = (f', ok) →
    grown P f f' ∧ (ok = true → node_at f' cur = Some NDir)).
  { destruct (create klinks creatable f cur NDir) as [f1|] eqn:Ec; intros [= <- <-]; [|split; [reflexivity|done]].
    destruct (decide (cur = [])) as [->|Hne]; [unfold create in Ec; cbn in Ec; by rewrite andb_false_r in Ec|].
    destruct (create_grown P f cur NDir f1 Hl Hne Ec) as [Hg Hn]; [by apply HP|by left|]. split; [done|]. intros _. by destruct cur. }
  destruct r; try (intros [= <- <-]; split; [reflexivity|done]); [|done].
  apply walk_link_free_eq in E; [|done]. subst q.
  destruct (node_at f cur) as [[| | |]|] eqn:En; try (intros [= <- <-]; split; [reflexivity|done]). done.
Qed.
(** [MkdirAll] along a path without links adds only its missing parts. *)
Lemma mkdir_prefixes_grown P f todo cur f' ok :
  link_free f (cur ++ todo) → (∀ q, q ≠ [] → q `prefix_of` cur ++ todo → f !! q = None → P q) →
  mkdir_prefixes klinks creatable f cur todo = (f', ok) →
  grown P f f' ∧ (ok = true → node_at f' (cur ++ todo) = Some NDir).
Proof.
  revert f cur f' ok. induction todo as [|c todo IH]; intros f cur f' ok Hl HP; cbn [mkdir_prefixes].
  { rewrite app_nil_r in Hl HP *. by apply mkdir_step_grown. }
  destruct (mkdir_step klinks creatable f cur) as [f1 ok1] eqn:E1.
  apply (mkdir_step_grown P) in E1 as [Hg1 Ho1]; [|exact (link_free_prefix _ _ _ (prefix_app_r _ _ _ (reflexivity _)) Hl)
    |intros q Hq Hqc; apply HP; [done|by apply prefix_app_r]].
  destruct ok1; [|intros [= <- <-]; split; [done|done]]. intros E.
  replace (cur ++ c :: todo) with ((cur ++ [c]) ++ todo) in * by by rewrite -app_assoc.
  destruct (IH f1 (cur ++ [c]) f' ok) as [Hg2 Ho2]; [by apply (grown_link_free P f)| |done|split; [exact (transitivity Hg1 Hg2)|done]].
  intros q Hq Hqp Hn. apply HP; [done|done|]. exact (grown_None _ _ _ _ Hg1 Hn).
Qed.
(** [createEmpty] of a missing entry. *)
Lemma createEmpty_grown P f p dir f' ok :
  link_free f p → p ≠ [] → (∀ q, q ≠ [] → q `prefix_of` p → f !! q = None → P q) →
  createEmpty klinks creatable f p dir = (f', ok) →
  grown P f f' ∧ (ok = true → node_at f' p = Some (if dir then NDir else NFile "")).
Proof.
  intros Hl Hne HP. unfold createEmpty. destruct dir; [by apply (mkdir_prefixes_grown P f p [])|].
  destruct (MkdirAll klinks creatable f (parent p)) as [f1 ok1] eqn:E1.
  apply (mkdir_prefixes_grown P f (parent p) []) in E1 as [Hg1 Ho1];
    [|exact (link_free_prefix _ _ _ (parent_prefix p) Hl)|intros q Hq Hqc; apply HP; [done|exact (transitivity Hqc (parent_prefix p))]].
  destruct ok1; [|intros [= <- <-]; by split].
  destruct (create klinks creatable f1 p (NFile "")) as [f2|] eqn:Ec; intros [= <- <-]; [|by split].
  destruct (create_grown P f1 p (NFile "") f2) as [Hg2 Hn]; [by apply (grown_link_free P f)|done|done| |by right|].
  - intros Hp. apply HP; [done|reflexivity|]. exact (grown_None _ _ _ _ Hg1 Hp).
  - split; [exact (transitivity Hg1 Hg2)|]. intros _. by destruct p.
Qed.
End Created.

(** Names in a file system are neither empty nor dots. *)
Definition named (f : fs) : Prop := ∀ p : path, is_Some (f !! p) → Forall plain p.
Lemma grown_named P f f' : (∀ q, P q → Forall plain q) → grown P f f' → named f → named f'.
Proof.
  intros HP [H _] Hn p Hp. destruct (H p) as [E|(_ & Hq & _)]; [|by apply HP]. apply Hn. by rewrite E in Hp.
Qed.
Lemma children_spec f d name n : (name, n) ∈ children f d → f !! (d ++ [name]) = Some n.
Proof.
  unfold children. rewrite (stable_sort_perm _ _). intros H. apply list_elem_of_omap in H as ([p m] & Hp & E). cbn in E.
  destruct (last p) as [x|]; [|done]. case_bool_decide as Hx; [|done]. injection E as -> ->. subst p. by apply elem_of_map_to_list.
Qed.

Section Stats.
Context (klinks : nat).
Lemma clean_of_node f p n : link_free f p → clean f (parent p) → node_at f p = Some n → clean f p.
Proof.
  intros [Hp Hl] Hc Hn. destruct p as [|x p _] using rev_ind; [apply clean_nil|].
  rewrite parent_snoc in Hc.
  apply Forall_app in Hp as [_ Hx]. apply Forall_cons in Hx as [Hx _].
  assert (E : f !! (p ++ [x]) = Some n) by by destruct p. refine (clean_snoc _ _ _ _ Hc Hx E _).
  destruct n as [| |t|]; try done. exfalso. exact (Hl (p ++ [x]) t ltac:(by destruct p) ltac:(reflexivity) E).
Qed.
Lemma Lstat_clean f p n : link_free f p → Lstat klinks f p = LNode n → node_at f p = Some n ∧ clean f p.
Proof.
  unfold Lstat. destruct (place klinks f p) as [[q|]|] eqn:E; [|done..]. intros Hp. apply place_link_free in E as (-> & Hc & _); [|done].
  destruct (node_at f p) as [m|] eqn:En; [|done]. intros [= <-]. split; [done|]. by apply (clean_of_node f p m).
Qed.
Lemma Stat_clean f p n : link_free f p → Stat klinks f p = LNode n → node_at f p = Some n ∧ clean f p.
Proof.
  unfold Stat. destruct (link_walk f [] klinks [] p) as [r q] eqn:E. destruct r; try done. intros Hp.
  apply walk_link_free_eq in E as Hq; [|done]. subst q. pose proof (link_walk_clean _ _ _ _ _ _ E (clean_nil f)) as Hc.
  destruct (node_at f p) as [m|] eqn:En; [|done]. by intros [= <-].
Qed.
End Stats.

(** ** Missing parts and the longest resolvable prefix *)

Lemma tree_below f p k : tree f → node_at f p = None → node_at f (p ++ k) = None.
Proof.
  intros Ht Hp. induction k as [|x k IH] using rev_ind; [by rewrite app_nil_r|]. rewrite app_assoc.
  destruct (node_at f ((p ++ k) ++ [x])) as [n|] eqn:E; [|done]. exfalso.
  assert (E' : f !! ((p ++ k) ++ [x]) = Some n) by (rewrite -E; by destruct (p ++ k)). apply Ht in E'. congruence.
Qed.
Lemma link_free_missing f p x k :
  tree f → clean f p → node_at f (p ++ [x]) = None → Forall plain (x :: k) → link_free f (p ++ x :: k).
Proof.
  intros Ht Hc Hn Hk. destruct (clean_link_free _ _ Hc) as [Hp Hl]. split; [by apply Forall_app_2|].
  intros q t Hq Hqp E. destruct (prefix_weak_total q (p ++ [x]) (p ++ x :: k)) as [H|[k' ->]]; [done|apply prefix_app, prefix_cons, prefix_nil| |].
  - apply prefix_snoc_cases in H as [H| ->]; [by apply (Hl q t)|].
    assert (E' : node_at f (p ++ [x]) = Some (NLink t)) by (rewrite -E; by destruct p). congruence.
  - apply (tree_below _ _ k' Ht) in Hn. destruct ((p ++ [x]) ++ k'); [done|]. cbn in Hn. congruence.
Qed.
(** Along an existing path the walk misses nothing. *)
Lemma link_walk_present f roots hops cur rest :
  clean f (cur ++ rest) → (link_walk f roots hops cur rest).1 ≠ LinkMissing.
Proof.
  revert cur. induction rest as [|x rest IH]; intros cur Hc; rewrite link_walk_unfold; [done|].
  replace (cur ++ x :: rest) with ((cur ++ [x]) ++ rest) in Hc by by rewrite -app_assoc.
  specialize (IH (cur ++ [x]) Hc). destruct Hc as [Hp Hc].
  apply Forall_app in Hp as [Hp _]. apply Forall_app in Hp as [_ Hx]. apply Forall_cons in Hx as [(H1 & H2 & H3) _].
  apply String.eqb_neq in H1, H2, H3. rewrite H1 H2 H3. cbn [orb].
  destruct (Hc (cur ++ [x])) as (n & En & Hl); [by destruct cur|by apply prefix_app_r|].
  assert (E : node_at f (cur ++ [x]) = Some n) by (rewrite <-En; by destruct cur). rewrite E.
  destruct (node_at f cur) as [[| | |]|]; try done; by destruct n.
Qed.
(** A walk over [a ++ b] passes through what [a] leads to. *)
Lemma link_walk_app f roots hops cur a b q :
  link_walk f [] hops cur a = (LinkNone, q) →
  (∃ l i, (link_walk f roots hops cur (a ++ b)).1 = LinkFound l i) ∨
  ∃ hops', link_walk f roots hops cur (a ++ b) = link_walk f roots hops' q b.
Proof.
  revert hops cur a. refine (walk_ind _ _). intros hops cur a IH1 IH2. rewrite link_walk_unfold (link_walk_unfold f roots).
  destruct a as [|part a]; [intros [= <-]; right; exists hops; cbn [app]; by rewrite -link_walk_unfold|]. cbn [app].
  destruct (String.eqb part "" || String.eqb part "."); [apply IH1; cbn; lia|].
  destruct (String.eqb part ".."); [apply IH1; cbn; lia|].
  destruct (node_at f cur) as [[| | |]|]; try done; destruct (node_at f (cur ++ [part])) as [[| |t|]|]; try done;
    try (apply IH1; cbn; lia); cbn [first_inside list_find fmap option_fmap option_map];
    (destruct (first_inside roots (cur ++ [part])) as [i|]; [intros _; left; by eexists _, _|]);
    (destruct hops as [|hops]; [done|]); rewrite app_assoc; by apply IH2.
Qed.
Lemma link_walk_app_none f hops cur a b q :
  link_walk f [] hops cur a = (LinkNone, q) → ∃ hops', link_walk f [] hops cur (a ++ b) = link_walk f [] hops' q b.
Proof.
  intros H. destruct (link_walk_app f [] _ _ _ b _ H) as [(l & i & Hf)|?]; [|done].
  destruct (link_walk f [] hops cur (a ++ b)) as [r p] eqn:E. cbn in Hf. subst r.
  by destruct (link_walk_found _ _ _ _ _ _ _ _ E) as (_ & r & Hr & _).
Qed.
(** Over an existing path without links the walk goes straight on. *)
Lemma link_walk_along f roots hops cur a b :
  clean f (cur ++ a) →
  link_walk f roots hops cur (a ++ b) = link_walk f roots hops (cur ++ a) b ∨ (link_walk f roots hops cur (a ++ b)).1 = LinkErr.
Proof.
  revert cur. induction a as [|x a IH]; intros cur Hc; [rewrite app_nil_r; by left|]. cbn [app]. rewrite (link_walk_unfold f roots hops cur).
  replace (cur ++ x :: a) with ((cur ++ [x]) ++ a) in * by by rewrite -app_assoc.
  specialize (IH (cur ++ [x]) Hc). destruct Hc as [Hp Hc].
  apply Forall_app in Hp as [Hp _]. apply Forall_app in Hp as [_ Hx]. apply Forall_cons in Hx as [(H1 & H2 & H3) _].
  apply String.eqb_neq in H1, H2, H3. rewrite H1 H2 H3. cbn [orb].
  destruct (Hc (cur ++ [x])) as (n & En & Hl); [by destruct cur|by apply prefix_app_r|].
  assert (E : node_at f (cur ++ [x]) = Some n) by (rewrite <-En; by destruct cur). rewrite E.
  destruct (node_at f cur) as [[| | |]|]; try (by right); by destruct n.
Qed.
Lemma tree_clean f p n : tree f → link_free f p → node_at f p = Some n → clean f p.
Proof.
  intros Ht. revert n. induction p as [|x p IH] using rev_ind; intros n Hl Hn; [apply clean_nil|].
  assert (E : f !! (p ++ [x]) = Some n) by (rewrite -Hn; by destruct p).
  destruct (Hl) as [Hp Hl']. apply Forall_app in Hp as [_ Hx]. apply Forall_cons in Hx as [Hx _].
  apply (clean_snoc _ _ _ n); [|done|done|].
  - apply (IH NDir); [exact (link_free_prefix _ _ _ (prefix_app_r _ _ _ (reflexivity _)) Hl)|by apply (Ht p x n)].
  - destruct n as [| |t|]; try done. exfalso. exact (Hl' (p ++ [x]) t ltac:(by destruct p) (reflexivity _) E).
Qed.

(** What [EvalSymlinks] returns. *)
Lemma resolve_clean f p q : resolve f p = Some q → clean f q.
Proof.
  unfold resolve. destruct (link_walk f [] maxLinkHops [] p) as [r q'] eqn:E. destruct r; try done. intros [= <-].
  exact (link_walk_clean _ _ _ _ _ _ E (clean_nil f)).
Qed.
Lemma resolve_walk f p q : resolve f p = Some q → link_walk f [] maxLinkHops [] p = (LinkNone, q).
Proof. unfold resolve. destruct (link_walk f [] maxLinkHops [] p) as [r q']. by destruct r; intros [= <-]. Qed.

(** A file system that is a tree with proper names, as a test. *)
Definition plainb (e : string) : bool := negb (existsb (String.eqb e) [""; "."; ".."]).
Definition host_tree (f : fs) : bool :=
  forallb (λ pn : path * node, forallb plainb pn.1 && bool_decide (node_at f (parent pn.1) = Some NDir)) (map_to_list f).
Lemma plainb_spec e : plainb e = true → plain e.
Proof.
  unfold plainb. cbn. rewrite !orb_false_r negb_true_iff !orb_false_iff !String.eqb_neq. by intros (? & ? & ?).
Qed.
Lemma host_tree_spec f : host_tree f = true → named f ∧ tree f.
Proof.
  unfold host_tree. rewrite forallb_forall. intros H.
  assert (Hat : ∀ p n, f !! p = Some n → forallb plainb p = true ∧ node_at f (parent p) = Some NDir).
  { intros p n Hn. apply elem_of_map_to_list in Hn. specialize (H (p, n) (proj1 (list_elem_of_In _ _) Hn)). cbn in H.
    apply andb_true_iff in H as [H1 H2]. by apply bool_decide_eq_true in H2. }
  split.
  - intros p [n Hn]. destruct (Hat p n Hn) as [Hp _]. rewrite forallb_forall in Hp. apply Forall_forall. intros x Hx.
    by apply plainb_spec, Hp, list_elem_of_In.
  - intros p x n Hn. destruct (Hat _ n Hn) as [_ Hd]. by rewrite parent_snoc in Hd.
Qed.
Section LstatMono.
Context (klinks : nat).
Lemma Lstat_mono f f' p n : f ⊆ f' → Lstat klinks f p = LNode n → Lstat klinks f' p = LNode n.
Proof.
  intros Hf. unfold Lstat, place. destruct p as [|x p]; [done|].
  destruct (link_walk f [] klinks [] (parent (x :: p))) as [r d] eqn:E. destruct r; try done.
  rewrite (link_walk_mono f f' [] klinks [] _ d Hf (clean_nil f) E).
  destruct (node_at f d) as [[| | |]|] eqn:Ed; try done. rewrite (node_at_mono f f' _ _ Hf Ed).
  destruct (node_at f (d ++ _)) as [m|] eqn:En; [|done]. by rewrite (node_at_mono f f' _ _ Hf En).
Qed.
(** Walking along directories reaches the end. *)
Lemma link_walk_dirs f roots hops cur rest :
  tree f → clean f (cur ++ rest) → link_walk f roots hops cur rest = (LinkNone, cur ++ rest).
Proof.
  intros Ht. revert cur. induction rest as [|x rest IH]; intros cur Hc; rewrite link_walk_unfold; [by rewrite app_nil_r|].
  replace (cur ++ x :: rest) with ((cur ++ [x]) ++ rest) in * by by rewrite -app_assoc. rewrite (IH (cur ++ [x]) Hc).
  destruct (clean_prefix _ _ (cur ++ [x]) (prefix_app_r _ _ _ (reflexivity _)) Hc) as [Hp Hx].
  apply Forall_app in Hp as [_ Hp]. apply Forall_cons in Hp as [(H1 & H2 & H3) _].
  destruct (Hx (cur ++ [x])) as (n & En & Hl); [by destruct cur|done|].
  apply String.eqb_neq in H1, H2, H3. rewrite H1 H2 H3. cbn [orb].
  assert (E : node_at f (cur ++ [x]) = Some n) by (rewrite <-En; by destruct cur). rewrite E (Ht cur x n En). by destruct n.
Qed.
Lemma children_complete f d x n : f !! (d ++ [x]) = Some n → (x, n) ∈ children f d.
Proof.
  intros H. unfold children. rewrite (stable_sort_perm _ _). apply list_elem_of_omap. exists (d ++ [x], n).
  split; [by apply elem_of_map_to_list|]. cbn. rewrite last_snoc. by rewrite bool_decide_eq_true_2.
Qed.
Lemma NoDup_omap_inj {A B} (h : A → option B) (l : list A) :
  (∀ x y z, x ∈ l → y ∈ l → h x = Some z → h y = Some z → x = y) → NoDup l → NoDup (omap h l).
Proof.
  intros Hh. induction 1 as [|x l Hx Hl IH]; cbn; [constructor|].
  assert (NoDup (omap h l)) as Hn by (apply IH; intros a b z Ha Hb; apply Hh; by right).
  destruct (h x) as [z|] eqn:E; [|done]. constructor; [|done]. intros (y & Hy & Ey)%list_elem_of_omap.
  rewrite (Hh x y z ltac:(by left) ltac:(by right) E Ey) in Hx. done.
Qed.
(** The entries of a directory have names of their own. *)
Lemma children_NoDup f d : NoDup (children f d).*1.
Proof.
  apply NoDup_fmap_fst; [intros x n n' H%children_spec H'%children_spec; congruence|].
  unfold children. rewrite (stable_sort_perm _ _). apply NoDup_omap_inj; [|apply NoDup_map_to_list].
  intros [p n] [q m] [x k] _ _; cbn. destruct (last p) as [y|]; [|done]. case_bool_decide as E1; [|done]. intros [= -> ->].
  destruct (last q) as [y|]; [|done]. case_bool_decide as E2; [|done]. by intros [= -> ->]; subst.
Qed.
End LstatMono.
