(* ===== verification/StateErr.v ===== *)
(** * Operations that change a state and can fail

    [op S E A]: a Go method on a receiver of type [S] that returns a value or an
    error; the changes made before an error stay. [post] is the assertion style
    used for them: an operation keeps an invariant and advances the state along
    a preorder whatever its result, and establishes its postcondition when it
    returns a value. *)

From S2P Require Import Prelude.

Definition op (S E A : Type) : Type := S → result E A * S.
#[export] Instance op_ret S E : MRet (op S E) := λ A a s, (Ok a, s).
#[export] Instance op_bind S E : MBind (op S E) := λ A B f m s,
  match m s with (Ok a, s') => f a s' | (Err e, s') => (Err e, s') end.
Definition fail {S E A} (e : E) : op S E A := λ s, (Err e, s).
Definition gets {S E A} (f : S → A) : op S E A := λ s, (Ok (f s), s).
Definition modify {S E} (f : S → S) : op S E () := λ s, (Ok (), f s).
Definition lift {S E A} (f : S → result E A) : op S E A := λ s, (f s, s).
Definition ensure {S E} (b : bool) (e : E) : op S E () := if b then mret () else fail e.
Fixpoint each {S E A} (f : A → op S E ()) (l : list A) : op S E () :=
  match l with [] => mret () | x :: l => _ ← f x; each f l end.

(** A sequence of calls that returns a value, call by call. *)
Lemma op_bind_Ok {S E A B} (m : op S E A) (k : A → op S E B) s b s' :
  (m ≫= k) s = (Ok b, s') ↔ ∃ a s1, m s = (Ok a, s1) ∧ k a s1 = (Ok b, s').
Proof.
  unfold mbind, op_bind. destruct (m s) as [[a|e] s1]; split; [by exists a, s1|by intros (? & ? & [= <- <-] & ?)|done|by intros (? & ? & ? & _)].
Qed.
Lemma op_ensure_Ok {S E} (b : bool) (e : E) (s s' : S) u : ensure b e s = (Ok u, s') ↔ b = true ∧ s' = s.
Proof. unfold ensure. destruct b; split; [by intros [= <-]|by destruct u; intros [_ ->]|done|by intros [? _]]. Qed.

Section Post.
Context {S E : Type} (Inv : S → Prop) (grow : S → S → Prop) `{!PreOrder grow}.

Definition post {A} (m : op S E A) (s : S) (Q : A → S → Prop) : Prop :=
  Inv (m s).2 ∧ grow s (m s).2 ∧ ∀ a, (m s).1 = Ok a → Q a (m s).2.

Lemma post_ret {A} (a : A) s (Q : A → S → Prop) : Inv s → Q a s → post (mret a) s Q.
Proof using Type*. intros Hi Hq. split; [done|]. split; [reflexivity|]. by intros ? [= <-]. Qed.
Lemma post_fail {A} (e : E) s (Q : A → S → Prop) : Inv s → post (fail e) s Q.
Proof using Type*. intros Hi. split; [done|]. by split; [reflexivity|]. Qed.
Lemma post_gets {A} (f : S → A) s (Q : A → S → Prop) : Inv s → Q (f s) s → post (gets f) s Q.
Proof using Type*. intros Hi Hq. split; [done|]. split; [reflexivity|]. by intros ? [= <-]. Qed.
Lemma post_modify (f : S → S) s (Q : () → S → Prop) : Inv (f s) → grow s (f s) → Q () (f s) → post (modify f) s Q.
Proof. intros Hi Hg Hq. split; [done|]. split; [done|]. by intros [] _. Qed.
Lemma post_lift {A} (f : S → result E A) s (Q : A → S → Prop) : Inv s → (∀ a, f s = Ok a → Q a s) → post (lift f) s Q.
Proof using Type*. intros Hi Hq. split; [done|]. split; [reflexivity|]. done. Qed.
Lemma post_ensure b (e : E) s (Q : () → S → Prop) : Inv s → (b = true → Q () s) → post (ensure b e) s Q.
Proof using Type*. intros Hi Hq. destruct b; [by apply post_ret, Hq|by apply post_fail]. Qed.
Lemma post_bind {A B} (m : op S E A) (k : A → op S E B) s (Q : B → S → Prop) :
  post m s (λ a s', post (k a) s' Q) → post (m ≫= k) s Q.
Proof using Type*.
  unfold post, mbind, op_bind. destruct (m s) as [[a|e] s1]; cbn; intros (Hi & Hg & Hq); [|done].
  destruct (Hq a eq_refl) as (Hi' & Hg' & Hq'). split; [done|]. split; [exact (transitivity Hg Hg')|done].
Qed.
Lemma post_mono {A} (m : op S E A) s (Q Q' : A → S → Prop) :
  post m s Q → (∀ a s', Inv s' → grow s s' → Q a s' → Q' a s') → post m s Q'.
Proof. intros (Hi & Hg & Hq) H. split; [done|]. split; [done|]. intros a E'. apply H; auto. Qed.
(** The rule for a sequence of calls. *)
Lemma post_then {A B} (m : op S E A) (k : A → op S E B) s (P : A → S → Prop) (Q : B → S → Prop) :
  post m s P → (∀ a s', Inv s' → grow s s' → P a s' → post (k a) s' Q) → post (m ≫= k) s Q.
Proof using Type*. intros Hm Hk. apply post_bind. apply (post_mono _ _ _ _ Hm). done. Qed.
Lemma post_true {A} (m : op S E A) s (Q : A → S → Prop) : post m s Q → post m s (λ _ _, True).
Proof. intros H. by apply (post_mono _ _ _ _ H). Qed.
Lemma post_each {A} (f : A → op S E ()) l s (P : S → Prop) :
  Inv s → P s →
  (∀ x s', x ∈ l → Inv s' → grow s s' → P s' → post (f x) s' (λ _ s'', P s'')) → post (each f l) s (λ _ s', P s').
Proof using Type*.
  intros Hi HP. revert s Hi HP. induction l as [|x l IH]; intros s Hi HP Hf; cbn; [by apply post_ret|].
  apply (post_then _ _ _ (λ _ s', P s')); [apply Hf; [by left|done|reflexivity|done]|].
  intros _ s1 Hi1 Hg1 HP1. apply IH; [done|done|]. intros y s2 Hy Hi2 Hg2 HP2. apply Hf; [by right|done|exact (transitivity Hg1 Hg2)|done].
Qed.
(** The same for every element of the list, when what is shown of one lasts. *)
Lemma post_each_all {A} (f : A → op S E ()) l s (P : S → Prop) (Q : A → S → Prop) :
  Inv s → P s → (∀ x s1 s2, grow s1 s2 → Q x s1 → Q x s2) →
  (∀ x s', x ∈ l → Inv s' → grow s s' → P s' → post (f x) s' (λ _ s'', P s'' ∧ Q x s'')) →
  post (each f l) s (λ _ s', P s' ∧ ∀ x, x ∈ l → Q x s').
Proof using Type*.
  intros Hi HP HQ. revert s Hi HP. induction l as [|x l IH]; intros s Hi HP Hf; cbn.
  { apply post_ret; [done|]. split; [done|]. intros x Hx. by apply not_elem_of_nil in Hx. }
  apply (post_then _ _ _ (λ _ s', P s' ∧ Q x s')); [apply Hf; [by left|done|reflexivity|done]|].
  intros _ s1 Hi1 Hg1 [HP1 HQ1]. eapply post_mono; [apply IH; [done|done|]|].
  - intros y s2 Hy Hi2 Hg2 HP2. apply Hf; [by right|done|exact (transitivity Hg1 Hg2)|done].
  - cbn. intros _ s2 _ Hg2 [HP2 HQ2]. split; [done|]. intros y Hy. apply elem_of_cons in Hy as [->|Hy]; [by apply (HQ x s1)|by apply HQ2].
Qed.
End Post.

(** Two assertions about one run. *)
Lemma post_also {S E A} (I1 I2 : S → Prop) (g1 g2 : S → S → Prop) (m : op S E A) s (Q1 Q2 : A → S → Prop) :
  post I1 g1 m s Q1 → post I2 g2 m s Q2 → post I1 g1 m s (λ a s', Q1 a s' ∧ g2 s s' ∧ Q2 a s').
Proof. intros (H1 & H2 & H3) (H4 & H5 & H6). split; [done|]. split; [done|]. intros a Ha. auto. Qed.

(** [ends bad m s Q]: the run fails with no error of [bad] and establishes [Q]. *)
Section Ends.
Context {S E : Type} (bad : E → Prop).
Definition ends {A} (m : op S E A) (s : S) (Q : A → Prop) : Prop :=
  match (m s).1 with Ok a => Q a | Err e => ¬ bad e end.
Lemma ends_bind {A B} (m : op S E A) (k : A → op S E B) s (P : A → Prop) (Q : B → Prop) :
  ends m s P → (∀ a s', P a → ends (k a) s' Q) → ends (m ≫= k) s Q.
Proof. unfold ends, mbind, op_bind. destruct (m s) as [[a|e] s1]; cbn; [|done]. intros Hm Hk. by apply Hk. Qed.
Lemma ends_each {A} (f : A → op S E ()) l s : (∀ x s', x ∈ l → ends (f x) s' (λ _, True)) → ends (each f l) s (λ _, True).
Proof.
  revert s. induction l as [|x l IH]; intros s Hf; [done|]. apply (ends_bind _ _ _ (λ _, True)); [apply Hf; by left|].
  intros _ s1 _. apply IH. intros y s' Hy. apply Hf. by right.
Qed.
End Ends.
