(* ===== verification/Vm.v ===== *)
(** * Virtual machine specifications

    [src/internal/vm/vm.go] and the part of [workspace.go] that describes a
    workspace VM: the records the host side writes and the supervisor reads
    back, the files of a state directory, the command line of the network
    broker, its runtime file, the Docker data disk and the configuration the
    guest boots with. The configuration records are those of
    [src/internal/guest/guest.go]. *)

From S2P Require Import Prelude GoStrings GoStrconv GoPath.
From S2P Require GuestSys Runtime BrokerMain.
Open Scope string_scope.
Open Scope list_scope.
Open Scope Z_scope.

(** ** Records *)

(** A host directory mounted in the guest. *)
Record Share := { HostPath : string; GuestPath : string; ReadOnly : bool }.
#[export] Instance Share_eq_dec : EqDecision Share.
Proof. solve_decision. Defined.
Definition guestPath (s : Share) : string := if negb (String.eqb (GuestPath s) "") then GuestPath s else HostPath s.

Record Forward := { HostPort : Z; GuestPort : Z }.
Record HostService := { hs_GuestPort : Z; hs_TCP : string; hs_Path : string }.
Record Snapshot := { sn_Source : string; sn_Target : string }.
Record IDMap := { id_UID : Z; id_GID : Z }.

(** The guest configuration ([guest.Config]). *)
Record GuestConfig := {
  g_Hostname : string; g_User : string; g_UID : Z; g_GID : Z; g_Home : string; g_WorkDir : string;
  g_Shares : list GuestSys.Share; g_AuthorizedKey : string; g_Env : list string; g_Binds : list GuestSys.Bind;
  g_Snapshots : list Snapshot; g_CABundle : string; g_IDMap : option IDMap; g_RootShare : string;
  g_SSHAgent : bool; g_GPGAgent : bool; g_HostPorts : list Z; g_Pins : list string; g_ReadOnly : list string;
  g_NoPrivilegeEscalation : bool; g_Docker : option string
}.
Inductive Kind := KindBuilder | KindWorkspace | KindOther (s : string).
#[export] Instance Kind_eq_dec : EqDecision Kind.
Proof. solve_decision. Defined.
Record Spec := {
  sp_Kind : Kind; sp_Workspace : string; sp_StateDir : string; sp_Image : string; sp_CPUs : Z; sp_MemoryMiB : Z;
  sp_DiskSize : Z; sp_Shares : list Share; sp_Forwards : list Forward; sp_Policy : string; sp_RunnerPath : string;
  sp_LibDir : string; sp_ImageCache : string; sp_Broker : list string; sp_GuestBinary : string; sp_Agent : string;
  sp_Profile : string; sp_EphemeralProfile : bool; sp_Guest : option GuestConfig; sp_Docker : bool;
  sp_SSHAgent : string; sp_GPGAgent : string; sp_HostServices : list HostService; sp_CABundle : string
}.
(** What the supervisor reports; [st_Updated] is in nanoseconds. *)
Record State := {
  st_PID : Z; st_BrokerPID : Z; st_DockerSocket : string; st_SSHSocket : string; st_Ready : bool; st_Error : string;
  st_Updated : Z
}.

(** ** Constants and the files of a state directory *)

Definition Subnet : string := "192.168.127.0/24".
Definition Gateway : string := "192.168.127.1".
Definition GuestIP : string := "192.168.127.2".
Definition DockerPort : Z := 2375.
Definition MTU : Z := 65520.
Definition SSHPort : Z := 22.
Definition SSHAgentPort : Z := 7022.
Definition GPGAgentPort : Z := 7023.
Definition DefaultImage : string := "docker@sha256:9e79b879b177fbd72c34376a3dd3d91747da5db49e1f560f76aea59561471977".
Definition DefaultDiskSize : Z := Z.shiftl 20 30.
Definition maxSocketPath : nat := 103.

Definition SpecFile (stateDir : string) : string := JoinPath [stateDir; "spec.json"].
Definition StateFile (stateDir : string) : string := JoinPath [stateDir; "state.json"].
Definition DockerSocket (stateDir : string) : string := JoinPath [stateDir; "docker.sock"].
Definition SSHSocket (stateDir : string) : string := JoinPath [stateDir; "ssh.sock"].
Definition nicSocket (stateDir : string) : string := JoinPath [stateDir; "nic.sock"].
Definition diskPath (stateDir : string) : string := JoinPath [stateDir; "docker.img"].
Definition GuestDataDir (stateDir : string) : string := JoinPath [stateDir; "guest"].
Definition GuestReadOnlyDir (stateDir : string) : string := JoinPath [stateDir; "guest-ro"].
Definition ControlName : string := "control".
Definition controlDir (stateDir : string) : string := JoinPath [GuestDataDir stateDir; ControlName].
Definition TrafficLog (stateDir : string) : string := JoinPath [stateDir; "broker.jsonl"].
Definition PolicyFile (stateDir : string) : string := JoinPath [stateDir; "policy.json"].
Definition BrokerRuntimeFile (stateDir : string) : string := JoinPath [stateDir; "runtime.json"].

(** ** Starting a VM *)

Definition is_workspace (spec : Spec) : bool := bool_decide (sp_Kind spec = KindWorkspace).
Definition imageRef (spec : Spec) : string := if negb (String.eqb (sp_Image spec) "") then sp_Image spec else DefaultImage.

(** The sockets [Run] checks: too long a path cannot be bound. *)
Definition run_sockets (spec : Spec) : list string :=
  [nicSocket (sp_StateDir spec);
   if is_workspace spec then SSHSocket (sp_StateDir spec) else DockerSocket (sp_StateDir spec)].
Definition socket_too_long (spec : Spec) : option string :=
  List.find (λ p, (maxSocketPath <? String.length p)%nat) (run_sockets spec).
(** The data disk [Run] prepares, if any. *)
Definition run_disk (spec : Spec) : option Z :=
  if negb (is_workspace spec) || sp_Docker spec
  then Some (if sp_DiskSize spec =? 0 then DefaultDiskSize else sp_DiskSize spec) else None.

(** The binary and arguments of the broker process. *)
Definition broker_args (spec : Spec) (policyPath : string) : option (string * list string) :=
  match sp_Broker spec with
  | [] => None
  | bin :: args =>
      Some (bin, args ++
        ["-socket"; nicSocket (sp_StateDir spec); "-policy"; policyPath; "-runtime"; BrokerRuntimeFile (sp_StateDir spec);
         "-subnet"; Subnet; "-gateway"; Gateway; "-guest"; GuestIP; "-log"; TrafficLog (sp_StateDir spec); "-mtu"; Itoa MTU] ++
        (if is_workspace spec then ["-forward-unix"; SSHSocket (sp_StateDir spec) +:+ "=" +:+ Itoa SSHPort]
         else ["-forward-unix"; DockerSocket (sp_StateDir spec) +:+ "=" +:+ Itoa DockerPort]))
  end.

(** [WriteBrokerRuntime]: the runtime file before its JSON encoding. *)
Definition runtime_forward (f : Forward) : Runtime.RuntimeForward :=
  {| Runtime.Host := "127.0.0.1:" +:+ Itoa (HostPort f); Runtime.fw_GuestPort := GuestPort f |}.
Definition runtime_service (h : HostService) : Runtime.RuntimeService :=
  {| Runtime.sv_GuestPort := hs_GuestPort h; Runtime.Path := hs_Path h; Runtime.TCP := hs_TCP h |}.
Definition agent_service (port : Z) (sock : string) : list Runtime.RuntimeService :=
  if String.eqb sock "" then [] else [{| Runtime.sv_GuestPort := port; Runtime.Path := sock; Runtime.TCP := "" |}].
Definition broker_runtime (spec : Spec) : Runtime.Runtime := {|
  Runtime.Forwards := map runtime_forward (sp_Forwards spec);
  Runtime.Services :=
    if is_workspace spec then
      agent_service SSHAgentPort (sp_SSHAgent spec) ++ agent_service GPGAgentPort (sp_GPGAgent spec) ++
      map runtime_service (sp_HostServices spec)
    else [] |}.

(** ** The data disk *)

(** What [os.Stat] finds, and which of the calls that follow succeed. *)
Inductive disk_stat := DiskSized (size : Z) | DiskMissing | DiskStatErr.
Record disk_calls := { can_create : bool; can_truncate : bool; can_close : bool }.
Inductive disk_err := DiskTooLarge (needMiB : Z) | DiskGrow | DiskStat | DiskCreate | DiskTruncate | DiskClose.
(** The outcome and the size of the disk afterwards, [None] without a disk. *)
Definition ensureDisk (st : disk_stat) (c : disk_calls) (size : Z) : result disk_err unit * option Z :=
  match st with
  | DiskSized old =>
      if size <? old then (Err (DiskTooLarge (Z.shiftr (old + (Z.shiftl 1 20 - 1)) 20)), Some old)
      else if old <? size then (if can_truncate c then (Ok (), Some size) else (Err DiskGrow, Some old))
      else (Ok (), Some old)
  | DiskStatErr => (Err DiskStat, None)
  | DiskMissing =>
      if negb (can_create c) then (Err DiskCreate, None)
      else if negb (can_truncate c) then (Err DiskTruncate, Some 0)
      else if negb (can_close c) then (Err DiskClose, Some size)
      else (Ok (), Some size)
  end.

(** ** Reading files the guest can write *)

Definition maxControlFile : Z := Z.shiftl 1 20.
Inductive read_err := ReadOpen | ReadStat | ReadNotRegular | ReadTooLarge | ReadFail.
(** [readRegular] on what the opened file reports: its type, its size when it
    is examined, and the bytes reading it yields, which can be more. *)
Record opened := { op_regular : bool; op_size : Z; op_data : option bytes }.
Definition readRegular (f : option opened) (maxSize : Z) : result read_err bytes :=
  match f with
  | None => Err ReadOpen
  | Some o =>
      if negb (op_regular o) then Err ReadNotRegular
      else if maxSize <? op_size o then Err ReadTooLarge
      else match op_data o with
           | None => Err ReadFail
           | Some data =>
               let got := take (Z.to_nat (maxSize + 1)) data in     (* the limit reader *)
               if maxSize <? Z.of_nat (length got) then Err ReadTooLarge else Ok got
           end
  end.

(** ** What the workspace guest boots with *)

Definition shareTag (i : nat) : string := "jailoc" +:+ Itoa (Z.of_nat i).
Definition internalTag : string := "jailocint".
Definition internalROTag : string := "jailocro".
Definition rootTag : string := "jailocroot".
Definition HostDir : string := GuestSys.PrivateDir +:+ "/host".
Definition ReadOnlyHostDir : string := GuestSys.PrivateDir +:+ "/host-ro".
Definition SnapshotsDir : string := ReadOnlyHostDir +:+ "/snapshots".

(** The configuration [prepareGuest] writes into the root file system. *)
Definition guest_share (i : nat) (s : Share) : GuestSys.Share :=
  {| GuestSys.sh_Tag := shareTag i; GuestSys.sh_GuestPath := guestPath s; GuestSys.sh_ReadOnly := ReadOnly s |}.
Definition guest_shares (spec : Spec) : list GuestSys.Share :=
  imap guest_share (sp_Shares spec) ++
  [{| GuestSys.sh_Tag := internalTag; GuestSys.sh_GuestPath := HostDir; GuestSys.sh_ReadOnly := false |};
   {| GuestSys.sh_Tag := internalROTag; GuestSys.sh_GuestPath := ReadOnlyHostDir; GuestSys.sh_ReadOnly := true |}].
Definition booted (spec : Spec) (g : GuestConfig) (authorized : string) : GuestConfig := {|
  g_Hostname := g_Hostname g; g_User := g_User g; g_UID := g_UID g; g_GID := g_GID g; g_Home := g_Home g; g_WorkDir := g_WorkDir g;
  g_Shares := guest_shares spec; g_AuthorizedKey := authorized; g_Env := g_Env g; g_Binds := g_Binds g;
  g_Snapshots := g_Snapshots g; g_CABundle := g_CABundle g; g_IDMap := g_IDMap g; g_RootShare := rootTag;
  g_SSHAgent := g_SSHAgent g; g_GPGAgent := g_GPGAgent g; g_HostPorts := g_HostPorts g; g_Pins := g_Pins g;
  g_ReadOnly := g_ReadOnly g; g_NoPrivilegeEscalation := g_NoPrivilegeEscalation g; g_Docker := g_Docker g |}.

(** The virtio-fs devices of [workspaceOptions]: tag, host directory, mode. *)
Record VirtioFSMount := { vf_Tag : string; vf_HostPath : string; vf_ReadOnly : bool }.
Definition virtio_share (i : nat) (s : Share) : VirtioFSMount :=
  {| vf_Tag := shareTag i; vf_HostPath := HostPath s; vf_ReadOnly := ReadOnly s |}.
Definition workspace_mounts (spec : Spec) : list VirtioFSMount :=
  imap virtio_share (sp_Shares spec) ++
  [{| vf_Tag := internalTag; vf_HostPath := GuestDataDir (sp_StateDir spec); vf_ReadOnly := false |};
   {| vf_Tag := internalROTag; vf_HostPath := GuestReadOnlyDir (sp_StateDir spec); vf_ReadOnly := true |}].

(** How many shares a VM boots with; other architectures have no entry. *)
Definition virtioIRQs (arch : string) : Z :=
  if String.eqb arch "amd64" then 19 else if String.eqb arch "arm64" then 128 else 0.
Definition fixedDevices : Z := 8.
Definition maxShares (arch : string) (docker : bool) : Z :=
  let n := virtioIRQs arch - fixedDevices in if docker then n - 1 else n.

(** The builder's share table, a line per share and one for the control
    directory, which its init script reads. *)
Definition tab : string := sep1 (chr 9).
Definition table_line (tag mode path : string) : string := tag +:+ tab +:+ mode +:+ tab +:+ path +:+ GuestSys.newline.
Definition share_line (i : nat) (s : Share) : string := table_line (shareTag i) (if ReadOnly s then "ro" else "rw") (guestPath s).
Definition share_table (spec : Spec) : string :=
  Join (imap share_line (sp_Shares spec)) "" +:+ table_line "jailocctl" "rw" (controlDir (sp_StateDir spec)).

Example vm_ex :
  SpecFile "/s/w" = "/s/w/spec.json" ∧ controlDir "/s/w" = "/s/w/guest/control" ∧
  maxShares "amd64" true = 10 ∧ maxShares "arm64" false = 120 ∧
  ensureDisk (DiskSized 5) {| can_create := true; can_truncate := true; can_close := true |} 4 = (Err (DiskTooLarge 1), Some 5) ∧
  shareTag 12 = "jailoc12".
Proof. by vm_compute. Qed.
