(* ===== verification/VmHost.v ===== *)
(** * The workspace VM the host side asks for

    [src/internal/cmd/vmbackend_unix.go] and [vmflow_unix.go]: sizes of the VM,
    the ports and services its broker relays, the shared directories and the
    specification built from a resolved workspace. *)

From S2P Require Import Prelude GoStrings GoStrconv GoPath NetAddr Agent ConfigPaths ConfigPorts ConfigChecks Config Resolve Vm.
From S2P Require Runtime BrokerMain.
From Stdlib Require Import SpecFloat.
Open Scope string_scope.
Open Scope list_scope.
Open Scope Z_scope.

(** ** Memory and disk sizes *)

Inductive size_err := SizeEmpty | SizeInvalid | SizeTooLarge | SizeTooSmall.
Fixpoint last_char (s : string) : option ascii :=
  match s with EmptyString => None | String c EmptyString => Some c | String _ r => last_char r end.
(** Both parsers read the unit from the last byte and trim all unit letters. *)
Definition unit_char (c : ascii) : bool := has_char c "kmgKMG".
Definition size_mult (c : ascii) : Z :=
  let c := lower_char c in
  if Ascii.eqb c "k" then Z.shiftl 1 10 else if Ascii.eqb c "m" then Z.shiftl 1 20 else if Ascii.eqb c "g" then Z.shiftl 1 30 else 1.
Definition size_digits (s : string) : num_res := Atoi (TrimRightFn unit_char s).

Definition vmMinMemoryMiB : Z := 512.
Definition maxUint32 : Z := 4294967295.
Definition MiB : Z := Z.shiftl 1 20.
Definition vmMemoryMiB (limit : string) : result size_err Z :=
  match last_char limit with
  | None => Err SizeEmpty
  | Some c =>
      let mult := size_mult c in
      match size_digits limit with
      | NumOk n =>
          if n <=? 0 then Err SizeInvalid
          else if Z.quot (Z.shiftl maxUint32 20) mult <? n then Err SizeTooLarge
          else let mib := Z.shiftr (int64 (int64 (n * mult) + (MiB - 1))) 20 in
               if mib <? vmMinMemoryMiB then Err SizeTooSmall else Ok (u32 mib)
      | _ => Err SizeInvalid
      end
  end.

Definition vmMinDockerDiskSize : Z := Z.shiftl 1 30.
Definition vmDockerDiskSize (size : string) : result size_err Z :=
  match last_char size with
  | None => Err SizeEmpty
  | Some c =>
      let mult := size_mult c in
      match size_digits size with
      | NumOk n =>
          if n <=? 0 then Err SizeInvalid
          else if Z.quot (maxInt64 - (MiB - 1)) mult <? n then Err SizeTooLarge
          else let bytes := Z.ldiff (int64 (int64 (n * mult) + (MiB - 1))) (MiB - 1) in
               if bytes <? vmMinDockerDiskSize then Err SizeTooSmall else Ok bytes
      | _ => Err SizeInvalid
      end
  end.
Example sizes_ex :
  vmMemoryMiB "4g" = Ok 4096 ∧ vmMemoryMiB "524288K" = Ok 512 ∧ vmMemoryMiB "511m" = Err SizeTooSmall ∧
  vmMemoryMiB "9223372036854775807g" = Err SizeTooLarge ∧ vmMemoryMiB "536870913" = Ok 513 ∧ vmMemoryMiB "1.5g" = Err SizeInvalid ∧
  vmDockerDiskSize "20g" = Ok DefaultDiskSize ∧ vmDockerDiskSize "1073741825" = Ok (1025 * 2 ^ 20) ∧
  vmDockerDiskSize "9223372036854775807" = Err SizeTooLarge ∧ vmDockerDiskSize "" = Err SizeEmpty.
Proof. by vm_compute. Qed.

(** What a size says, in bytes. *)
Definition size_bytes (s : string) : option Z :=
  match last_char s, size_digits s with Some c, NumOk n => Some (n * size_mult c) | _, _ => None end.

Lemma size_mult_pow c : ∃ k, size_mult c = 2 ^ k ∧ 0 ≤ k ≤ 30.
Proof.
  unfold size_mult. repeat case_match; [exists 10|exists 20|exists 30|exists 0]; done.
Qed.
Lemma int64_id x : minInt64 ≤ x ≤ maxInt64 → int64 x = x.
Proof. intros H. apply sext_id_range; [lia|]. unfold minInt64, maxInt64 in H. cbn. lia. Qed.
(** The smallest multiple of [m] that is at least [x]. *)
Lemma ceil_div x m : 0 < m → ((x + (m - 1)) / m - 1) * m < x ≤ (x + (m - 1)) / m * m.
Proof. intros Hm. pose proof (Z.div_mod (x + (m - 1)) m). pose proof (Z.mod_pos_bound (x + (m - 1)) m). nia. Qed.
Lemma ldiff_mask x k : 0 ≤ k → Z.ldiff x (2 ^ k - 1) = x / 2 ^ k * 2 ^ k.
Proof.
  intros Hk. assert (2 ^ k - 1 = Z.ones k) as -> by (rewrite Z.ones_equiv; lia).
  by rewrite Z.ldiff_ones_r // Z.shiftl_mul_pow2 // Z.shiftr_div_pow2.
Qed.
(** The guard of both parsers: a size above the limit is found before it is
    multiplied. *)
Lemma mult_guard L n c : 0 ≤ L → 0 < n → (Z.quot L (size_mult c) <? n) = false ↔ n * size_mult c ≤ L.
Proof.
  intros HL Hn. destruct (size_mult_pow c) as (k & -> & Hk).
  assert (0 < 2 ^ k) as Hp by (apply Z.pow_pos_nonneg; lia).
  rewrite Z.quot_div_nonneg // Z.ltb_ge. pose proof (Z.div_mod L (2 ^ k)). pose proof (Z.mod_pos_bound L (2 ^ k)). nia.
Qed.
Lemma size_mult_pos c : 1 ≤ size_mult c.
Proof. destruct (size_mult_pow c) as (k & -> & Hk). pose proof (Z.pow_pos_nonneg 2 k). lia. Qed.

(** A memory limit gives a VM exactly when its size in MiB, rounded up,
    is at least 512 and fits 32 bits, and the VM gets that size; a Docker disk
    exactly when its size rounded up to whole MiB is at least 1 GiB and fits a
    signed 64-bit integer. No intermediate value overflows. *)
Theorem vm_sizes s n :
  (vmMemoryMiB s = Ok n ↔ ∃ b, size_bytes s = Some b ∧ (n - 1) * MiB < b ≤ n * MiB ∧ 512 ≤ n ≤ maxUint32) ∧
  (vmDockerDiskSize s = Ok n ↔ ∃ b, size_bytes s = Some b ∧ b ≤ n < b + MiB ∧ n mod MiB = 0 ∧ 2 ^ 30 ≤ n ≤ maxInt64).
Proof.
  unfold vmMemoryMiB, vmDockerDiskSize, size_bytes.
  destruct (last_char s) as [c|]; [|by split; (split; [done|intros (b & ? & _)])].
  destruct (size_digits s) as [m| |]; [|by split; (split; [done|intros (b & ? & _)])..].
  pose proof (size_mult_pos c) as Hc. assert (MiB = 1048576) as HM by reflexivity.
  assert (Z.shiftl maxUint32 20 = maxUint32 * MiB) as -> by reflexivity.
  assert (vmMinDockerDiskSize = 1024 * MiB) as -> by reflexivity. unfold maxUint32, vmMinMemoryMiB in *.
  destruct (Z.leb_spec m 0) as [Hm|Hm].
  { split; (split; [done|]); intros (b & [= <-] & H); exfalso; nia. }
  set (b := m * size_mult c). split.
  - destruct (Z.quot _ _ <? m) eqn:G.
    { split; [done|]. intros (b' & [= <-] & Hb & Hn). apply not_false_iff_true in G. destruct G.
      apply mult_guard; [done|done|]. fold b. nia. }
    apply mult_guard in G; [|done|done]. fold b in G.
    assert (0 < b) by (unfold b; nia). rewrite (int64_id b); [|unfold minInt64, maxInt64; lia].
    rewrite int64_id; [|unfold minInt64, maxInt64; lia]. rewrite Z.shiftr_div_pow2 //. change (2 ^ 20) with MiB.
    pose proof (ceil_div b MiB ltac:(lia)) as Hd. set (q := (b + (MiB - 1)) / MiB) in *.
    assert (0 < q ≤ 4294967295) as Hq by lia.
    assert (u32 q = q) as -> by (apply wrap_small; lia). destruct (Z.ltb_spec q 512) as [Hl|Hl].
    + split; [done|]. intros (b' & [= <-] & Hb & Hn). assert (n = q) by nia. lia.
    + split.
      * intros [= <-]. exists b. split; [done|]. lia.
      * intros (b' & [= <-] & Hb & Hn). f_equal. nia.
  - destruct (Z.quot _ _ <? m) eqn:G.
    { split; [done|]. intros (b' & [= <-] & Hb & Hz & Hn). apply not_false_iff_true in G. destruct G.
      apply mult_guard; [done|done|]. fold b. apply Z.mod_divide in Hz as [k ->]; [|lia].
      unfold maxInt64 in *. nia. }
    apply mult_guard in G; [|done|done]. fold b in G.
    assert (0 < b) by (unfold b; nia). rewrite (int64_id b); [|unfold minInt64, maxInt64 in *; lia].
    rewrite int64_id; [|unfold minInt64, maxInt64 in *; lia]. change (MiB - 1) with (2 ^ 20 - 1). rewrite ldiff_mask //.
    change (2 ^ 20) with MiB. pose proof (ceil_div b MiB ltac:(lia)) as Hd. set (q := (b + (MiB - 1)) / MiB) in *.
    destruct (Z.ltb_spec (q * MiB) (1024 * MiB)) as [Hl|Hl].
    + split; [done|]. intros (b' & [= <-] & Hb & Hz & Hn). apply Z.mod_divide in Hz as [k ->]; [|lia]. nia.
    + split.
      * intros [= <-]. exists b. rewrite Z.mod_mul; [|lia]. unfold maxInt64 in *. split_and!; try done; nia.
      * intros (b' & [= <-] & Hb & Hz & Hn). apply Z.mod_divide in Hz as [k ->]; [|lia]. f_equal. nia.
Qed.

(** ** Published ports and relayed services *)

Definition vmForwards (ports : list PortForward) : list Forward :=
  map (λ p, {| HostPort := pf_Host p; GuestPort := pf_Guest p |}) ports.
Definition host_service (t : HostPortTarget) : HostService :=
  if negb (String.eqb (hp_Socket t) "") then {| hs_GuestPort := u16 (hp_Guest t); hs_TCP := ""; hs_Path := hp_Socket t |}
  else {| hs_GuestPort := u16 (hp_Guest t); hs_TCP := "127.0.0.1:" +:+ Itoa (hp_HostPort t); hs_Path := "" |}.
Definition vmHostServices (ts : list HostPortTarget) : list HostService := map host_service ts.

(** Reading back a loopback address printed with a port. *)
Lemma cut_last_app c a b : has_char c b = false → cut_last c (a +:+ String c b) = Some (a, b).
Proof.
  intros Hb. assert (cut_last c b = None) as Hn.
  { induction b as [|d b IH]; [done|]. cbn in Hb |- *. apply orb_false_iff in Hb as [Hd Hb]. by rewrite (IH Hb) Hd. }
  induction a as [|d a IH].
  - change (match cut_last c b with Some (x, y) => Some (String c x, y) | None => if Ascii.eqb c c then Some ("", b) else None end = Some ("", b)).
    by rewrite Hn Ascii.eqb_refl.
  - change (match cut_last c (a +:+ String c b) with Some (x, y) => Some (String d x, y) | None => if Ascii.eqb c d then Some ("", a +:+ String c b) else None end = Some (String d a, b)).
    by rewrite IH.
Qed.
Lemma Itoa_port p : 0 ≤ p → Itoa p = fmt_nat p.
Proof. intros H. unfold Itoa. by destruct (Z.ltb_spec p 0); [lia|]. Qed.
Lemma Itoa_no_char c n : num_char c = false → has_char c (Itoa n) = false.
Proof.
  intros Hc. pose proof (Itoa_shape n) as H. unfold has_char. induction (Itoa n) as [|d s IH]; [done|].
  cbn in H |- *. apply andb_true_iff in H as [Hd Hs]. rewrite (IH Hs) orb_false_r.
  destruct (Ascii.eqb_spec c d) as [->|]; congruence.
Qed.
Lemma loopback_port p : 0 ≤ p < 65536 → ParseAddrPort ("127.0.0.1:" +:+ Itoa p) = Some (AddrPortFrom (Addr4 2130706433) p).
Proof.
  intros Hp. change ("127.0.0.1:" +:+ Itoa p) with ("127.0.0.1" +:+ String ":" (Itoa p)).
  unfold ParseAddrPort. rewrite cut_last_app; [|by apply Itoa_no_char]. rewrite Itoa_port; [|lia].
  rewrite ParseUint_fmt //. destruct (String.eqb_spec (fmt_nat p) "") as [He|_]; [|done].
  by apply digits_ne in He.
Qed.
Lemma forwards_distinct (ps : list PortForward) :
  Forall (λ f, 0 ≤ pf_Host f < 65536) ps → NoDup (map pf_Host ps) →
  NoDup ((λ f, ParseAddrPort (Runtime.Host f)) <$> map runtime_forward (vmForwards ps)).
Proof.
  intros Hr Hn. unfold vmForwards. rewrite map_map -list_fmap_compose /=.
  replace (_ <$> ps) with ((λ n : Z, Some (AddrPortFrom (Addr4 2130706433) n)) <$> map pf_Host ps).
  - apply NoDup_fmap_2; [|done]. by intros a b [= ->].
  - rewrite -list_fmap_compose. apply list_fmap_ext. intros i f Hf. cbn. symmetry. apply loopback_port.
    exact (Forall_lookup_1 _ _ _ _ Hr Hf).
Qed.

(** What merging validated or unvalidated lists leaves: the entries parsed. *)
Lemma merge_ports_parsed {A} (parse : string → result cerr A) (key : A → Z) ds ws f :
  f ∈ merge_ports parse key ds ws → ∃ p, parse p = Ok f.
Proof.
  intros Hf. apply (merge_ports_spec parse key) in Hf. apply last_Some_elem_of in Hf.
  apply list_elem_of_filter in Hf as [_ Hf]. apply elem_of_app in Hf as [Hf|Hf];
    apply list_elem_of_omap in Hf as (p & _ & Hp); exists p; by destruct (parse p); simplify_eq/=.
Qed.

(** ** What the host tells *)

(** Answers of the host: [os.Executable], [os.UserHomeDir], the temporary
    directory, [SSH_AUTH_SOCK], which paths are sockets (before and after
    [gpgconf] launched the agent, whose success is [he_gpg_launch]), what
    [gpgconf] prints, the content for the OpenCode 2 plugin, whether the CA
    bundle of the workspace exists, the host's IDs, and the number an
    out-of-range conversion to [uint32] gives. *)
Record host_env := {
  he_exe : option string; he_home : option string; he_tmp : string; he_ssh_auth_sock : string;
  he_is_socket : string → bool; he_is_socket_launched : string → bool; he_gpg_launch : bool; he_gpgconf : option string;
  he_cli_config : option string; he_ca_bundle : bool; he_idmap : option IDMap; he_uint32 : Z → Z
}.

Section Host.
Context (he : host_env).

Definition vmRootDir : string :=
  match he_home he with None => JoinPath [he_tmp he; "jailoc-vm"] | Some h => JoinPath [h; ".cache"; "jailoc-vm"] end.
Definition vmStateDir (name : string) : string := JoinPath [vmRootDir; "workspaces"; name].
Definition builderStateDir (ws : Resolved) : string :=
  if r_IsolatedBuild ws then JoinPath [vmStateDir (r_Name ws); "builder"] else JoinPath [vmRootDir; "builder"].

Definition vmSSHAgent (ws : Resolved) : string :=
  if negb (r_SSHAuthSock ws) then "" else
  let sock := he_ssh_auth_sock he in
  if String.eqb sock "" || negb (he_is_socket he sock) then "" else sock.
(** [gpgExtraSocket] and [vmGPGAgent]. *)
Definition gpgExtraSocket : option string :=
  match he_gpgconf he with
  | None => None
  | Some out => let sock := TrimSpace out in if HasPrefix sock "/" then Some sock else None
  end.
Definition vmGPGAgent (ws : Resolved) : string :=
  if negb (r_GPGAgent ws) then "" else
  match gpgExtraSocket with
  | None => ""
  | Some sock =>
      if he_is_socket he sock then sock
      else if he_gpg_launch he && he_is_socket_launched he sock then sock else ""
  end.

(** [uint32(math.Ceil(cpu))]. *)
Definition Ceil (f : spec_float) : Z :=
  match f with
  | S754_finite s m e => let v := if s then Z.neg m else Z.pos m in if 0 <=? e then v * 2 ^ e else - ((- v) / 2 ^ (- e))
  | _ => 0
  end.
Definition cpu_count (f : spec_float) : Z :=
  match f with
  | S754_nan | S754_infinity _ => he_uint32 he 0
  | _ => let c := Ceil f in if (0 <=? c) && (c <=? maxUint32) then c else he_uint32 he c
  end.

(** ** The specification *)

Record vmRuntimeFiles := { runner : string; libDir : string; guestBin : string }.
Definition guestConfigDir : string := "/etc/jailoc".
Definition guestCacheDir : string := "/etc/jailoc-cache".
Definition caBundleFilename : string := "ca-bundle.pem".
Definition defaultAgentID : Z := 1000.

Definition plugin_env (ws : Resolved) : list string :=
  let p := h_TUIPlugin (r_Agent ws) in
  match p with
  | OpenCode1TUI => [TUIPlugin_Env p +:+ "=" +:+ JoinPath [guestCacheDir; "tui-container.json"]]
  | OpenCode2TUI => match he_cli_config he with Some content => [TUIPlugin_Env p +:+ "=" +:+ content] | None => [] end
  | _ => []
  end.
Definition guest_config (ws : Resolved) (snapshots : list Snapshot) (services : list HostService) : GuestConfig := {|
  g_Hostname := r_Name ws; g_User := "agent"; g_UID := defaultAgentID; g_GID := defaultAgentID; g_Home := "/home/agent";
  g_WorkDir := match r_Paths ws with p :: _ => p | [] => "/home/agent" end;
  g_Shares := []; g_AuthorizedKey := "";
  g_Env := ["JAILOC=1"; "JAILOC_WORKSPACE=" +:+ r_Name ws] ++ h_Env (r_Agent ws) ++ plugin_env ws;
  g_Binds := []; g_Snapshots := snapshots;
  g_CABundle := if he_ca_bundle he then JoinPath [guestConfigDir; caBundleFilename] else "";
  g_IDMap := he_idmap he; g_RootShare := ""; g_SSHAgent := negb (String.eqb (vmSSHAgent ws) "");
  g_GPGAgent := negb (String.eqb (vmGPGAgent ws) ""); g_HostPorts := map hs_GuestPort services;
  g_Pins := []; g_ReadOnly := []; g_NoPrivilegeEscalation := false; g_Docker := None |}.

Inductive spec_err := SpecExe | SpecMemory (e : size_err) | SpecDisk (e : size_err) | SpecPolicy.
(** [policy] is what [vmPolicy] returns. *)
Definition workspaceSpec (ws : Resolved) (rt : vmRuntimeFiles) (ref : string) (shares : list Share)
    (snapshots : list Snapshot) (policy : option string) : result spec_err Spec :=
  exe ← opt_err (he_exe he) SpecExe;
  mem ← match vmMemoryMiB (r_Memory ws) with Ok m => Ok m | Err e => Err (SpecMemory e) end;
  disk ← match vmDockerDiskSize (r_DockerDisk ws) with Ok d => Ok d | Err e => Err (SpecDisk e) end;
  pol ← opt_err policy SpecPolicy;
  let services := vmHostServices (r_HostPorts ws) in
  Ok {| sp_Kind := KindWorkspace; sp_Workspace := r_Name ws; sp_StateDir := vmStateDir (r_Name ws); sp_Image := ref;
        sp_CPUs := cpu_count (r_CPU ws); sp_MemoryMiB := mem; sp_DiskSize := disk; sp_Shares := shares;
        sp_Forwards := vmForwards (r_Ports ws); sp_Policy := pol; sp_RunnerPath := runner rt; sp_LibDir := libDir rt;
        sp_ImageCache := JoinPath [vmRootDir; "images"]; sp_Broker := [exe; "netbroker"]; sp_GuestBinary := guestBin rt;
        sp_Agent := h_Name (r_Agent ws);
        sp_Profile := match r_AgentProfile ws with Some p => default "" (Profile_Name p) | None => "" end;
        sp_EphemeralProfile := match r_AgentProfile ws with Some p => String.eqb p EphemeralProfile | None => false end;
        sp_Guest := Some (guest_config ws snapshots services); sp_Docker := false;
        sp_SSHAgent := vmSSHAgent ws; sp_GPGAgent := vmGPGAgent ws; sp_HostServices := services; sp_CABundle := "" |}.
End Host.

(** ** The broker accepts what the host writes *)

Lemma ParsePort_range p f : ParsePort p = Ok f → 1 ≤ pf_Host f ≤ 65535 ∧ 1 ≤ pf_Guest f ≤ 65535.
Proof.
  unfold ParsePort. destruct (Cut p ":") as [[h g] m].
  destruct (parsePortNumber h) as [a|] eqn:Ha; [|done].
  destruct (parsePortNumber (if negb m then h else g)) as [b|] eqn:Hb; [|done].
  intros [= <-]. split; [exact (parsePortNumber_range _ _ Ha)|exact (parsePortNumber_range _ _ Hb)].
Qed.
Lemma forwards_ok ps : Forall (λ f, 1 ≤ pf_Host f ≤ 65535 ∧ 1 ≤ pf_Guest f ≤ 65535) ps →
  Forall Runtime.forward_ok (map runtime_forward (vmForwards ps)).
Proof.
  intros Hp. unfold vmForwards. rewrite map_map. apply Forall_fmap. eapply Forall_impl; [exact Hp|].
  intros f [Hh Hg]. exists (AddrPortFrom (Addr4 2130706433) (pf_Host f)). cbn. split_and!; [|done|lia|lia].
  apply loopback_port. lia.
Qed.
(** A relay names one target and a port free for relays. *)
Definition target_ok (t : HostPortTarget) : Prop :=
  1 ≤ hp_Guest t ≤ 65535 ∧ hp_Guest t ∉ map fst reservedGuestPorts ∧
  ((1 ≤ hp_HostPort t ≤ 65535 ∧ hp_Socket t = "") ∨ (hp_HostPort t = 0 ∧ hp_Socket t ≠ "" ∧ IsAbs (hp_Socket t) = true)).
Lemma host_service_ok t : target_ok t →
  let s := runtime_service (host_service t) in
  Runtime.sv_GuestPort s = hp_Guest t ∧ Runtime.service_target_ok (Runtime.Path s) (Runtime.TCP s).
Proof.
  intros (Hg & _ & Ht). unfold host_service. assert (u16 (hp_Guest t) = hp_Guest t) as Hu by (apply wrap_small; lia).
  destruct Ht as [[Hp ->]|(_ & Hs & Ha)].
  - cbn. split; [done|]. right. split_and!; [done|done|]. eexists. split; [apply loopback_port; lia|]. split; [done|cbn; lia].
  - destruct (String.eqb_spec (hp_Socket t) ""); [done|]. cbn. split; [done|]. by left.
Qed.
(** The services of a workspace: its agents on their own ports, then relays. *)
Lemma services_ok ssh gpg ts :
  (ssh = "" ∨ IsAbs ssh = true) → (gpg = "" ∨ IsAbs gpg = true) → Forall target_ok ts → NoDup (map hp_Guest ts) →
  let ss := agent_service SSHAgentPort ssh ++ agent_service GPGAgentPort gpg ++ map runtime_service (vmHostServices ts) in
  Forall (λ s, Runtime.sv_GuestPort s ≠ 0 ∧ Runtime.sv_GuestPort s ≠ 53 ∧
               Runtime.service_target_ok (Runtime.Path s) (Runtime.TCP s)) ss ∧ NoDup (Runtime.sv_GuestPort <$> ss).
Proof.
  intros Hssh Hgpg Hts Hnd ss.
  assert (∀ port sock, (sock = "" ∨ IsAbs sock = true) → Forall (λ s, Runtime.sv_GuestPort s = port ∧
    Runtime.service_target_ok (Runtime.Path s) (Runtime.TCP s)) (agent_service port sock)) as Hag.
  { intros port sock Hs. unfold agent_service. destruct (String.eqb_spec sock "") as [|Hne]; constructor; [|constructor].
    split; [done|]. left. split; [done|]. by destruct Hs. }
  assert (Runtime.sv_GuestPort <$> map runtime_service (vmHostServices ts) = map hp_Guest ts) as Hports.
  { unfold vmHostServices. rewrite map_map -list_fmap_compose. apply list_fmap_ext. intros i t Ht.
    destruct (host_service_ok t (Forall_lookup_1 _ _ _ _ Hts Ht)) as [Hp _]. exact Hp. }
  assert (∀ port, port ∈ map fst reservedGuestPorts → port ∉ map hp_Guest ts) as Hfree.
  { intros port Hp (t & -> & Ht)%list_elem_of_fmap. rewrite Forall_forall in Hts. by destruct (Hts t Ht) as (_ & Hr & _). }
  unfold ss. split.
  - rewrite !Forall_app. split_and!.
    1,2: eapply Forall_impl; [by apply Hag|]; cbn; intros s [-> Hs]; by split_and!.
    unfold vmHostServices. rewrite map_map. apply Forall_fmap. eapply Forall_impl; [exact Hts|].
    intros t Ht. destruct (host_service_ok t Ht) as [Hp Ho]. cbn in *. rewrite Hp. destruct Ht as (Hr & Hres & _).
    split_and!; [lia| |done]. intros E. rewrite E in Hres. apply Hres. cbn. set_solver.
  - rewrite !fmap_app Hports. pose proof (Hfree 7022 ltac:(cbn; set_solver)) as H22.
    pose proof (Hfree 7023 ltac:(cbn; set_solver)) as H23. unfold agent_service, SSHAgentPort, GPGAgentPort.
    destruct (String.eqb ssh ""), (String.eqb gpg ""); cbn; rewrite ?NoDup_cons ?not_elem_of_cons; naive_solver.
Qed.

(** What the theorem below takes from the two records. *)
Lemma Resolve_ports home cwd0 ParseVolume files cfg name ws :
  Resolve home cwd0 ParseVolume files cfg name = Ok ws →
  ∃ ds dw hs hw, r_Ports ws = MergePorts ds dw ∧ r_HostPorts ws = MergeHostPorts home hs hw.
Proof.
  intros H. unfold Resolve in H. destruct (c_Workspaces cfg !! name) as [w|]; [|done]. inv_res.
  match goal with x : Harness * AgentSettings |- _ => destruct x end. inv_res. by repeat eexists.
Qed.
Lemma workspaceSpec_ports he ws rt ref shares snaps policy spec :
  workspaceSpec he ws rt ref shares snaps policy = Ok spec →
  broker_runtime spec = {|
    Runtime.Forwards := map runtime_forward (vmForwards (r_Ports ws));
    Runtime.Services := agent_service SSHAgentPort (vmSSHAgent he ws) ++ agent_service GPGAgentPort (vmGPGAgent he ws) ++
                        map runtime_service (vmHostServices (r_HostPorts ws)) |}.
Proof. intros H. unfold workspaceSpec in H. by inv_res. Qed.
Lemma vmSSHAgent_abs he ws : IsAbs (he_ssh_auth_sock he) = true → vmSSHAgent he ws = "" ∨ IsAbs (vmSSHAgent he ws) = true.
Proof. intros H. unfold vmSSHAgent. repeat case_match; auto. Qed.
Lemma vmGPGAgent_abs he ws : vmGPGAgent he ws = "" ∨ IsAbs (vmGPGAgent he ws) = true.
Proof.
  unfold vmGPGAgent, gpgExtraSocket. destruct (negb (r_GPGAgent ws)), (he_gpgconf he) as [out|]; auto.
  destruct (HasPrefix (TrimSpace out) "/") eqn:E; [|by left]. repeat case_match; auto.
Qed.


Definition lab_defaults : Defaults :=
  {| d_Backend := ""; d_Agent := ""; d_Agents := ∅; d_Env := []; d_EnvFile := []; d_Mounts := []; d_Snapshots := [];
     d_AllowedHosts := []; d_AllowedNetworks := []; d_Secrets := {| sec_Env := ∅; sec_File := ∅ |}; d_Image := "";
     d_SSHAuthSock := true; d_GPGAgent := true; d_GitConfig := None; d_CPU := None; d_Memory := None; d_DockerDisk := None;
     d_ExposePort := None; d_EnableDocker := None; d_FilteredDNS := None; d_DNSUpstream := ""; d_DNSBlockedZones := None;
     d_CABundle := None; d_IsolatedBuild := None; d_ProtectGit := None; d_Ports := ["8080:80"; "9000"];
     d_HostPorts := ["5432"; "6000:~/x.sock"; "7022:1"] |}.
Definition lab_host : host_env := {|
  he_exe := Some "/bin/jailoc"; he_home := Some "/h"; he_tmp := "/tmp"; he_ssh_auth_sock := "/run/agent.sock";
  he_is_socket := λ _, true; he_is_socket_launched := λ _, true; he_gpg_launch := true; he_gpgconf := Some ("/run/gpg.extra" +:+ GuestSys.newline);
  he_cli_config := None; he_ca_bundle := false; he_idmap := None; he_uint32 := λ z, u32 z |}.
Definition lab_config : Config := simple_config lab_defaults {["w" := unfiltered_ws]}.
Definition lab_resolved : result cerr Resolved := Resolve (Some "/h") (Some "/") simple_volume no_files lab_config "w".
Definition lab_rt : vmRuntimeFiles := {| runner := "/r"; libDir := ""; guestBin := "/g" |}.
