(* ===== verification/VmShares.v ===== *)
(** * The directories a workspace VM shares

    [vmShares] and [checkNestedShares] of
    [src/internal/cmd/vmbackend_unix.go] over the file system of [HostFS]:
    workspace paths, mounts and the directories of a named profile, merged by
    guest path, sorted, counted and checked for links. Arguments: the system
    calls' permissions, [home] and [ParseVolume] as in the configuration, the
    working directory, and [status_line], the best-effort edit of an agent's
    settings in its profile directory ([None] when the directory cannot be
    opened). *)

From S2P Require Import Prelude GoStrings GoSort GoPath StateErr Agent ConfigPaths ConfigChecks Resolve Vm.
From S2P Require HostFS.
Open Scope string_scope.
Open Scope list_scope.
Open Scope Z_scope.

Inductive share_err :=
| ShareMount (e : cerr) | ShareStat (host : string) | ShareMkdir (host : string) | ShareNotDir (spec : string)
| ShareOpen (host : string) | ShareLimit (n limit : Z) | ShareLink (host : string) (link : list string) (share : string) | ShareWalk (host : string).

Definition shares_map : Type := gmap string Share.
(** The closure [add]. *)
Definition add (m : shares_map) (host guest : string) (ro : bool) : shares_map :=
  let guest := Clean guest in
  let ro := match m !! guest with Some prev => ReadOnly prev && ro | None => ro end in
  <[guest := {| HostPath := Clean host; GuestPath := guest; ReadOnly := ro |}]> m.
Definition lift_c {A} (r : result cerr A) : result share_err A := match r with Ok a => Ok a | Err e => Err (ShareMount e) end.

Section Shares.
Context (klinks : nat) (creatable : list string → bool).
Context (home : option string) (cwd : string) (ParseVolume : string → option (string * string)).
Context (status_line : HostFS.fs → list string → Harness → option HostFS.fs).

(** The components the kernel walks; it does not clean a path first. *)
Definition walked (s : string) : list string := if IsAbs s then Split s "/" else Split cwd "/" ++ Split s "/".

Definition mkdir_all (p : list string) (e : share_err) : op HostFS.fs share_err () :=
  λ f, let '(f, ok) := HostFS.MkdirAll klinks creatable f p in ((if ok then Ok () else Err e), f).
Definition share_mount (m : shares_map) (spec : string) : op HostFS.fs share_err shares_map :=
  mt ← lift (λ _, lift_c (ParseMount home ParseVolume spec));
  if String.eqb (Host mt) "" then mret m else
  host ← lift (λ _, lift_c (ExpandPath home (Host mt)));
  st ← gets (λ f, HostFS.Stat klinks f (walked host));
  _ ← (match st with
       | HostFS.LMissing => mkdir_all (walked host) (ShareMkdir host)
       | HostFS.LBad => fail (ShareStat host)
       | HostFS.LNode HostFS.NDir => mret ()
       | HostFS.LNode _ => fail (ShareNotDir spec)
       end);
  mret (add m host (Container mt) (String.eqb (Mode mt) "ro")).
Definition profilesDir (tmp : string) : string :=
  match home with None => JoinPath [tmp; "jailoc-profiles"] | Some h => JoinPath [h; ".local"; "share"; "jailoc"; "profiles"] end.
Definition workspaceProfile (ws : Resolved) : string :=
  match r_AgentProfile ws with Some p => default "" (Profile_Name p) | None => "" end.
Definition set_status_line (host : string) (h : Harness) : op HostFS.fs share_err () :=
  match SettingsFile (h_TUIPlugin h) with
  | None => mret ()
  | Some _ => λ f, match status_line f (walked host) h with Some f => (Ok (), f) | None => (Err (ShareOpen host), f) end
  end.
Definition share_profile_dir (dir : string) (h : Harness) (m : shares_map) (d : StateDir) : op HostFS.fs share_err shares_map :=
  match m !! Clean (st_Path d) with
  | Some _ => mret m
  | None =>
      let host := JoinPath [dir; st_Name d] in
      _ ← mkdir_all (walked host) (ShareMkdir host);
      _ ← set_status_line host h;
      mret (add m host (st_Path d) false)
  end.
Fixpoint fold_op {A B} (f : B → A → op HostFS.fs share_err B) (l : list A) (b : B) : op HostFS.fs share_err B :=
  match l with [] => mret b | x :: l => b ← f b x; fold_op f l b end.

Definition sorted_map (m : shares_map) : list Share := omap (M:=list) (λ g, m !! g) (sort_strings (map fst (map_to_list m))).

(** [checkNestedShares]. *)
Definition writable_roots (f : HostFS.fs) (shares : list Share) : list (list string * string) :=
  omap (M:=list) (λ w, if ReadOnly w then None else (λ r, (r, HostPath w)) <$> HostFS.EvalSymlinks f cwd (HostPath w)) shares.
Definition check_share (f : HostFS.fs) (roots : list (list string * string)) (s : Share) : result share_err unit :=
  match HostFS.linkInside f cwd (HostPath s) (map fst roots) with
  | HostFS.LinkErr => Err (ShareWalk (HostPath s))
  | HostFS.LinkFound link i => Err (ShareLink (HostPath s) link (default "" (snd <$> roots !! i)))
  | _ => Ok ()
  end.
Definition checkNestedShares (f : HostFS.fs) (shares : list Share) : result share_err unit :=
  riter (check_share f (writable_roots f shares)) shares.

(** [vmShares]; the first loop over the workspace paths cannot fail. *)
Definition share_paths (ws : Resolved) : shares_map := foldl (λ m p, add m p p false) ∅ (r_Paths ws).
Definition vmShares (tmp arch : string) (ws : Resolved) : op HostFS.fs share_err (list Share) :=
  m ← fold_op share_mount (r_Mounts ws) (share_paths ws);
  m ← (let name := workspaceProfile ws in
       if String.eqb name "" then mret m
       else fold_op (share_profile_dir (JoinPath [profilesDir tmp; name]) (r_Agent ws)) (h_State (r_Agent ws)) m);
  let shares := sorted_map m in
  let limit := maxShares arch (r_EnableDocker ws) in
  if limit <? Z.of_nat (length shares) then fail (ShareLimit (Z.of_nat (length shares)) limit) else
  _ ← lift (λ f, checkNestedShares f shares);
  mret shares.
End Shares.

(** ** Properties *)

(** One call of [add]: host path, guest path, read-only. *)
Record addition := { ad_host : string; ad_guest : string; ad_ro : bool }.
Definition added (m : shares_map) (a : addition) : shares_map := add m (ad_host a) (ad_guest a) (ad_ro a).
Definition at_guest (g : string) (l : list addition) : list addition := filter (λ a, Clean (ad_guest a) = g) l.
(** The share several additions make at one guest path: the directory of the
    last one, read-only when all of them are. *)
Definition share_of (g : string) (l : list addition) : option Share :=
  (λ a, {| HostPath := Clean (ad_host a); GuestPath := g; ReadOnly := forallb ad_ro (at_guest g l) |}) <$> last (at_guest g l).

Lemma foldl_added l g : foldl added ∅ l !! g = share_of g l.
Proof.
  induction l as [|a l IH] using rev_ind; [done|].
  rewrite foldl_app /=. unfold added, add. unfold share_of, at_guest in *. rewrite filter_app filter_cons filter_nil.
  destruct (decide (Clean (ad_guest a) = g)) as [<-|Hne].
  - rewrite lookup_insert_eq last_snoc forallb_app /= IH andb_true_r. f_equal. f_equal.
    destruct (last (filter _ l)) as [b|] eqn:E; cbn; [done|].
    apply last_None in E. by rewrite E.
  - by rewrite lookup_insert_ne // app_nil_r.
Qed.
Lemma share_of_app_ro g l k : (∃ a, a ∈ l ∧ Clean (ad_guest a) = g ∧ ad_ro a = false) →
  ∃ s, share_of g (l ++ k) = Some s ∧ ReadOnly s = false.
Proof.
  intros (a & Ha & Hg & Hr). unfold share_of.
  assert (a ∈ at_guest g (l ++ k)) as Hin by (apply list_elem_of_filter; rewrite elem_of_app; auto).
  destruct (last (at_guest g (l ++ k))) as [b|] eqn:E.
  - eexists. split; [done|]. cbn. apply not_true_iff_false. rewrite forallb_forall. intros H.
    apply list_elem_of_In in Hin. apply H in Hin. congruence.
  - apply last_None in E. rewrite E in Hin. by apply elem_of_nil in Hin.
Qed.
Lemma sorted_map_spec (m : shares_map) : (∀ g s, m !! g = Some s → GuestPath s = g) →
  (∀ s, s ∈ sorted_map m ↔ m !! GuestPath s = Some s) ∧
  StronglySorted (λ a b, strlt a b = true) (map GuestPath (sorted_map m)).
Proof.
  intros Hk. unfold sorted_map. set (ks := sort_strings (map fst (map_to_list m))).
  assert (NoDup ks) as Hnd by (unfold ks; rewrite sort_strings_perm; apply NoDup_fst_map_to_list).
  assert (∀ k, k ∈ ks ↔ is_Some (m !! k)) as Hks.
  { intros k. unfold ks. rewrite sort_strings_perm. rewrite list_elem_of_fmap. split.
    - intros ([k' s] & -> & Hin%elem_of_map_to_list). by exists s.
    - intros [s Hs]. exists (k, s). split; [done|]. by apply elem_of_map_to_list. }
  split.
  - intros s. rewrite list_elem_of_omap. split.
    + intros (k & _ & Hs). by rewrite (Hk _ _ Hs).
    + intros Hs. exists (GuestPath s). split; [|done]. apply Hks. by exists s.
  - assert (map GuestPath (omap (M:=list) (λ g, m !! g) ks) = ks) as ->.
    { assert (∀ k, k ∈ ks → is_Some (m !! k)) as H by (intros; by apply Hks). clearbody ks. clear -H Hk.
      induction ks as [|k ks IH]; [done|]. destruct (H k ltac:(by left)) as [s Hs]. cbn. rewrite Hs. cbn.
      rewrite (Hk _ _ Hs). f_equal. apply IH. intros k' Hk'. apply H. by right. }
    pose proof (sort_strings_sorted (map fst (map_to_list m))) as Hs. change (sort_strings _) with ks in Hs.
    clearbody ks. clear Hks. induction Hs as [|k ks Hs IH Hf]; [constructor|]. apply NoDup_cons in Hnd as [Hn Hnd].
    constructor; [by apply IH|]. apply Forall_forall. intros k' Hk'. pose proof (proj1 (Forall_forall _ _) Hf k' Hk') as Hle.
    destruct (strlt k k') eqn:E; [done|]. unfold strle in Hle. apply negb_true_iff in Hle.
    destruct Hn. by rewrite (strlt_total k k').
Qed.

Section Spec.
Context (klinks : nat) (creatable : list string → bool) (home : option string) (cwd : string)
  (ParseVolume : string → option (string * string)) (status_line : HostFS.fs → list string → Harness → option HostFS.fs).

Definition mount_addition (spec : string) : option addition :=
  match ParseMount home ParseVolume spec with
  | Ok m =>
      if String.eqb (Host m) "" then None else
      match ExpandPath home (Host m) with
      | Ok h => Some {| ad_host := h; ad_guest := Container m; ad_ro := String.eqb (Mode m) "ro" |}
      | Err _ => None
      end
  | Err _ => None
  end.
Definition path_additions (ws : Resolved) : list addition := map (λ p, {| ad_host := p; ad_guest := p; ad_ro := false |}) (r_Paths ws).
Definition profile_addition (dir : string) (d : StateDir) : addition :=
  {| ad_host := JoinPath [dir; st_Name d]; ad_guest := st_Path d; ad_ro := false |}.

Lemma share_mount_ok m spec f m' f' :
  share_mount klinks creatable home cwd ParseVolume m spec f = (Ok m', f') → m' = foldl added m (option_list (mount_addition spec)).
Proof.
  unfold share_mount, mount_addition, mbind, op_bind, lift, gets, lift_c. cbn -[HostFS.MkdirAll HostFS.Stat].
  destruct (ParseMount home ParseVolume spec) as [mt|e]; cbn; [|done].
  destruct (String.eqb (Host mt) ""); cbn; [by intros [= <- _]|].
  destruct (ExpandPath home (Host mt)) as [host|e]; cbn; [|done].
  destruct (HostFS.Stat klinks f (walked cwd host)) as [[]| |]; cbn; try done; [by intros [= <- _]|].
  unfold mkdir_all. destruct (HostFS.MkdirAll _ _ _ _) as [f1 []]; cbn; [by intros [= <- _]|done].
Qed.
Lemma fold_mounts_ok l m f m' f' :
  fold_op (share_mount klinks creatable home cwd ParseVolume) l m f = (Ok m', f') →
  m' = foldl added m (omap (M:=list) mount_addition l).
Proof.
  revert m f. induction l as [|x l IH]; intros m f; cbn [fold_op]; [by intros [= <- _]|].
  unfold mbind, op_bind. destruct (share_mount _ _ _ _ _ _ _ _) as [[m1|e] f1] eqn:E; [|done].
  apply share_mount_ok in E. intros H%IH. rewrite H E. cbn. by destruct (mount_addition x).
Qed.
Lemma share_profile_ok dir h m d f m' f' :
  share_profile_dir klinks creatable cwd status_line dir h m d f = (Ok m', f') →
  m' = foldl added m (if bool_decide (is_Some (m !! Clean (st_Path d))) then [] else [profile_addition dir d]).
Proof.
  unfold share_profile_dir. destruct (m !! Clean (st_Path d)) as [s|].
  { rewrite bool_decide_eq_true_2; [|by eexists]. by intros [= <- _]. }
  rewrite bool_decide_eq_false_2; [|by intros []]. unfold mbind, op_bind, mkdir_all.
  destruct (HostFS.MkdirAll _ _ _ _) as [f1 []]; [|done].
  destruct (set_status_line _ _ _ _ _) as [[[]|e] f2]; [|done]. by intros [= <- _].
Qed.
Lemma fold_profile_ok dir h ds m f m' f' :
  fold_op (share_profile_dir klinks creatable cwd status_line dir h) ds m f = (Ok m', f') →
  ∃ adds, m' = foldl added m adds ∧ Forall (λ a, ∃ d, d ∈ ds ∧ a = profile_addition dir d ∧ m !! Clean (st_Path d) = None) adds ∧
  Forall (λ d, is_Some (m' !! Clean (st_Path d))) ds.
Proof.
  revert m f. induction ds as [|d ds IH]; intros m f; cbn [fold_op].
  { intros [= <- _]. exists []. done. }
  unfold mbind, op_bind. destruct (share_profile_dir _ _ _ _ _ _ _ _ _) as [[m1|e] f1] eqn:E; [|done].
  apply share_profile_ok in E. intros (adds & -> & Hadds & Hds)%IH.
  assert (∀ l m g, is_Some (m !! g) → is_Some (foldl added m l !! g)) as Hmono.
  { clear. induction l as [|a l IH]; intros m g Hg; [done|]. apply IH. unfold added, add. apply lookup_insert_is_Some'. by right. }
  exists ((if bool_decide (is_Some (m !! Clean (st_Path d))) then [] else [profile_addition dir d]) ++ adds).
  rewrite foldl_app -E. split; [done|]. split.
  - apply Forall_app. split.
    + case_bool_decide as Hd; constructor; [|constructor]. exists d. split; [by left|]. split; [done|]. by apply eq_None_not_Some.
    + eapply Forall_impl; [exact Hadds|]. cbn. intros a (d' & Hd' & -> & Hn). exists d'. split; [by right|]. split; [done|].
      apply eq_None_not_Some. intros Hs. apply eq_None_not_Some in Hn. apply Hn. rewrite E. by apply Hmono.
  - constructor; [|done]. apply Hmono. rewrite E. case_bool_decide as Hd; [done|]. cbn. unfold added, add. cbn.
    rewrite lookup_insert_eq. by eexists.
Qed.

#[local] Opaque HostFS.linkInside HostFS.EvalSymlinks HostFS.Stat HostFS.MkdirAll.
Lemma checkNested_ok f shares s link i :
  checkNestedShares cwd f shares = Ok () → s ∈ shares →
  HostFS.linkInside f cwd (HostPath s) (map fst (writable_roots cwd f shares)) ≠ HostFS.LinkFound link i.
Proof using.
  intros H Hs Hl. pose proof (proj1 (riter_Ok _ _ ()) H) as Hall. pose proof (proj1 (Forall_forall _ _) Hall s Hs) as Hc.
  unfold check_share in Hc. by rewrite Hl in Hc.
Qed.

End Spec.

(** ** Witness *)

Definition lab_fs : HostFS.fs := {[ ["src"] := HostFS.NDir; ["src"; "b"] := HostFS.NDir; ["h"] := HostFS.NDir; ["x"] := HostFS.NDir ]}.
Definition lab_run (name : string) : result share_err (list Share) * HostFS.fs :=
  match Resolve (Some "/h") (Some "/") simple_volume no_files two_workspaces name with
  | Ok ws => vmShares 40 (λ _, true) (Some "/h") "/" simple_volume (λ f _ _, Some f) "/tmp" "arm64" ws lab_fs
  | Err e => (Err (ShareMount e), lab_fs)
  end.
Example lab_shares : (map (λ s, (HostPath s, GuestPath s, ReadOnly s))) <$> (match (lab_run "b").1 with Ok l => Some l | Err _ => None end) =
  Some [("/h/.agents", "/home/agent/.agents", true); ("/h/.config/opencode", "/home/agent/.config/opencode", false);
        ("/h/.opencode", "/home/agent/.opencode", false);
        ("/src/b", "/src/b", false); ("/x", "/x", false)].
Proof. vm_compute. reflexivity. Qed.

(** A read-only mount over a workspace path: the guest gets the mount's
    directory, writable. *)
Example ro_mount_writable :
  let m := add (add ∅ "/src" "/src" false) "/keys" "/src" true in
  m !! "/src" = Some {| HostPath := "/keys"; GuestPath := "/src"; ReadOnly := false |}.
Proof. reflexivity. Qed.

