(* ===== verification/VmRun.v ===== *)
(** * Running a VM with its broker

    [Run] and [startBroker] of [src/internal/vm/vm.go], the process supervision
    of [src/internal/brokerproc/brokerproc.go] and the flag parsing at the head
    of [Main] in [src/internal/netbroker/cli.go]: the supervisor starts the
    broker, boots the VM behind it, waits until the guest answers and stops both
    when either ends. What the outside does (system calls, the broker, the VMM,
    the guest, signals) is an argument of [Run]; what [Run] does is a trace. *)

From S2P Require Import Prelude GoStrings GoStrconv GoPath NetAddr StateErr Vm.
From S2P Require BrokerMain Policy.
Open Scope string_scope.
Open Scope list_scope.
Open Scope Z_scope.

(** ** The broker's flags *)

(** [flag.FlagSet.Parse] for a set without boolean flags: name and value pairs
    up to the first argument that is no flag; [None] is an error. *)
Inductive flag_arg := FlagEnd | FlagBad | FlagValue (name value : string) | FlagName (name : string).
Definition flag_name (name : string) : flag_arg :=
  match name with
  | String c r =>
      if Ascii.eqb c "-" || Ascii.eqb c "=" then FlagBad else
      match cut r "=" with Some (n, v) => FlagValue (String c n) v | None => FlagName name end
  | EmptyString => FlagBad
  end.
Definition flag_of (s : string) : flag_arg :=
  match s with
  | String "-" (String "-" EmptyString) => FlagEnd
  | String "-" (String "-" r) => flag_name r
  | String "-" (String c r) => flag_name (String c r)
  | _ => FlagEnd
  end.

Record cli := { cl_main : BrokerMain.flags; cl_runtime : string; cl_log : string; cl_status : Z }.
Definition cli_defaults : cli := {|
  cl_main := {| BrokerMain.fl_socket := ""; BrokerMain.fl_policy := ""; BrokerMain.fl_subnet := "192.168.127.0/24";
    BrokerMain.fl_gateway := "192.168.127.1"; BrokerMain.fl_guest := "192.168.127.2"; BrokerMain.fl_mtu := 1500;
    BrokerMain.fl_forwards := []; BrokerMain.fl_unixForwards := []; BrokerMain.fl_services := []; BrokerMain.fl_dns := [] |};
  cl_runtime := ""; cl_log := "-"; cl_status := 0 |}.

Section Flags.
(** Numbers with a base prefix, a leading zero or underscores. *)
Context (other : string → option Z).
Definition plain_number (s : string) : bool :=
  negb (has_char "_" s) && match s with String "0" (String _ _) => false | _ => true end.
Definition flag_uint (s : string) : option Z := if plain_number s then num_opt (ParseUint s 64) else other s.
Definition flag_int (s : string) : option Z := if plain_number s then num_opt (Atoi s) else other s.

Definition with_main (c : cli) (fl : BrokerMain.flags) : cli :=
  {| cl_main := fl; cl_runtime := cl_runtime c; cl_log := cl_log c; cl_status := cl_status c |}.
Definition set_flag (c : cli) (name value : string) : option cli :=
  let m := cl_main c in
  let '(BrokerMain.Build_flags sock pol sub gw guest mtu fwd ufwd svc dns) := m in
  let mk := λ a b c' d e f g h i j, Some (with_main c (BrokerMain.Build_flags a b c' d e f g h i j)) in
  if String.eqb name "socket" then mk value pol sub gw guest mtu fwd ufwd svc dns
  else if String.eqb name "policy" then mk sock value sub gw guest mtu fwd ufwd svc dns
  else if String.eqb name "subnet" then mk sock pol value gw guest mtu fwd ufwd svc dns
  else if String.eqb name "gateway" then mk sock pol sub value guest mtu fwd ufwd svc dns
  else if String.eqb name "guest" then mk sock pol sub gw value mtu fwd ufwd svc dns
  else if String.eqb name "mtu" then n ← flag_uint value; mk sock pol sub gw guest n fwd ufwd svc dns
  else if String.eqb name "forward" then mk sock pol sub gw guest mtu (fwd ++ [value]) ufwd svc dns
  else if String.eqb name "forward-unix" then mk sock pol sub gw guest mtu fwd (ufwd ++ [value]) svc dns
  else if String.eqb name "service" then mk sock pol sub gw guest mtu fwd ufwd (svc ++ [value]) dns
  else if String.eqb name "dns-upstream" then mk sock pol sub gw guest mtu fwd ufwd svc (dns ++ [value])
  else if String.eqb name "runtime" then Some {| cl_main := m; cl_runtime := value; cl_log := cl_log c; cl_status := cl_status c |}
  else if String.eqb name "log" then Some {| cl_main := m; cl_runtime := cl_runtime c; cl_log := value; cl_status := cl_status c |}
  else if String.eqb name "status-fd" then n ← flag_int value; Some {| cl_main := m; cl_runtime := cl_runtime c; cl_log := cl_log c; cl_status := n |}
  else None.
Fixpoint parse_flags (c : cli) (args : list string) : option cli :=
  match args with
  | [] => Some c
  | s :: args =>
      match flag_of s with
      | FlagEnd => Some c
      | FlagBad => None
      | FlagValue name value => c ← set_flag c name value; parse_flags c args
      | FlagName name =>
          match args with
          | [] => None
          | value :: args => c ← set_flag c name value; parse_flags c args
          end
      end
  end.
End Flags.

(** ** What happens around the supervisor *)

Inductive broker_event := BrokerReady | BrokerExited | BrokerTimeout | BrokerCancelled | BrokerNoStart.
Inductive nic_event := NicUp | NicBrokerExited | NicTimeout | NicCancelled.
Inductive end_event := EndShutdown | EndBroker | EndNic | EndVM.
Record outcomes := {
  o_pid : Z; o_mkdir : bool; o_cache : bool; o_state : nat → bool; o_disk : disk_stat; o_disk_calls : disk_calls;
  o_guest : bool; o_control : bool; o_policy : bool; o_runtime : bool; o_broker : broker_event; o_broker_pid : Z;
  o_vm : bool; o_nic : nic_event; o_answer : bool; o_end : end_event; o_now : Z
}.
Inductive run_err :=
| RunMkdir | RunCache | RunState | RunSocket (p : string) | RunDisk (e : disk_err) | RunGuest | RunControl | RunPolicy | RunRuntime
| RunNoBroker | RunBroker (e : broker_event) | RunVM | RunNic (e : nic_event) | RunAnswer | RunStopped (e : end_event).

(** The trace: state files, the two processes, and what is seen of them. *)
Inductive action :=
| AState (st : State) | ABrokerStart (args : list string) | ABrokerStop | AVMStart (image : string) | AVMStop
| SawReady | SawBrokerExit | SawNic | SawAnswer | SawVMExit.

Section Run.
Context (o : outcomes) (error_text : run_err → string).
Notation run A := (op (list action) run_err A).
Definition emit (a : action) : run () := modify (λ t, t ++ [a]).

(** [brokerproc.Start]: a broker that is not ready in time is stopped. *)
Definition Start (args : list string) : run () :=
  let args := args ++ ["-status-fd"; "3"] in
  match o_broker o with
  | BrokerNoStart => fail (RunBroker BrokerNoStart)
  | BrokerReady => _ ← emit (ABrokerStart args); emit SawReady
  | BrokerExited => _ ← emit (ABrokerStart args); _ ← emit SawBrokerExit; fail (RunBroker BrokerExited)
  | e => _ ← emit (ABrokerStart args); _ ← emit ABrokerStop; fail (RunBroker e)
  end.
Definition WaitNIC : run () :=
  match o_nic o with
  | NicUp => emit SawNic
  | NicBrokerExited => _ ← emit SawBrokerExit; fail (RunNic NicBrokerExited)
  | e => fail (RunNic e)
  end.
(** [Supervise]: what ends first, and what is stopped then. *)
Definition Supervise : run end_event :=
  _ ← (match o_end o with
       | EndShutdown | EndNic => _ ← emit AVMStop; emit ABrokerStop
       | EndBroker => _ ← emit SawBrokerExit; emit AVMStop
       | EndVM => _ ← emit SawVMExit; emit ABrokerStop
       end);
  mret (o_end o).
Definition startBroker (spec : Spec) : run () :=
  match broker_args spec (PolicyFile (sp_StateDir spec)) with
  | None => fail RunNoBroker
  | Some (_, args) => Start args
  end.
Definition stopBoth : run () := _ ← emit AVMStop; emit ABrokerStop.
(** A call that stops both processes when it fails. *)
Definition or_stop (m : run ()) : run () :=
  λ t, match m t with (Err e, t) => let '(_, t) := stopBoth t in (Err e, t) | r => r end.
Definition writeState (n : nat) (st : State) : run () := if o_state o n then emit (AState st) else fail RunState.

Definition run_state (spec : Spec) (brokerPID : Z) (ready : bool) (err : string) : State := {|
  st_PID := o_pid o; st_BrokerPID := brokerPID;
  st_DockerSocket := if is_workspace spec then "" else DockerSocket (sp_StateDir spec);
  st_SSHSocket := if is_workspace spec then SSHSocket (sp_StateDir spec) else "";
  st_Ready := ready; st_Error := err; st_Updated := o_now o |}.
Definition prepareGuest (spec : Spec) : run () :=
  if is_workspace spec then ensure (bool_decide (is_Some (sp_Guest spec)) && negb (String.eqb (sp_GuestBinary spec) "") && o_guest o) RunGuest
  else mret ().
Definition ensure_disk (spec : Spec) : run () :=
  match run_disk spec with
  | None => mret ()
  | Some size => lift (λ _, match (ensureDisk (o_disk o) (o_disk_calls o) size).1 with Ok _ => Ok () | Err e => Err (RunDisk e) end)
  end.
Definition prepare (spec : Spec) : run () :=
  _ ← ensure (o_mkdir o) RunMkdir;
  _ ← ensure (String.eqb (sp_ImageCache spec) "" || o_cache o) RunCache;
  _ ← writeState 0 (run_state spec 0 false "");
  _ ← (match socket_too_long spec with Some p => fail (RunSocket p) | None => mret () end);
  _ ← ensure_disk spec;
  _ ← prepareGuest spec;
  _ ← ensure (o_control o) RunControl;
  _ ← ensure (o_policy o) RunPolicy;
  ensure (o_runtime o) RunRuntime.
Definition boot (spec : Spec) : run () :=
  _ ← (if o_vm o then emit (AVMStart (imageRef spec)) else (_ ← emit ABrokerStop; fail RunVM));
  _ ← or_stop WaitNIC;
  _ ← or_stop (if o_answer o then emit SawAnswer else fail RunAnswer);
  or_stop (writeState 1 (run_state spec (o_broker_pid o) true "")).
Definition run_body (spec : Spec) : run () :=
  _ ← prepare spec;
  _ ← startBroker spec;
  _ ← boot spec;
  reason ← Supervise;
  match reason with EndShutdown => mret () | e => fail (RunStopped e) end.
Definition saw_ready (a : action) : bool := match a with SawReady => true | _ => false end.
(** [Run]: the body, then the deferred last state; the broker's PID is in it
    once the broker is ready. *)
Definition final_state (spec : Spec) (r : result run_err ()) (t : list action) : State :=
  run_state spec (if existsb saw_ready t then o_broker_pid o else 0) false
    (match r with Err e => error_text e | Ok _ => "" end).
Definition Run (spec : Spec) : result run_err () * list action :=
  let '(r, t) := run_body spec [] in
  (r, t ++ (if o_state o 2 then [AState (final_state spec r t)] else [])).
End Run.

(** ** Properties *)

(** What a careful supervisor may do: a monitor that refuses a VM without a
    ready broker, a second process of either kind, a broker stopped under a
    running VM and a state that says ready before the guest answered. *)
Record mon := { m_broker : bool; m_ready : bool; m_vm : bool; m_nic : bool; m_answer : bool }.
Definition mon0 : mon := {| m_broker := false; m_ready := false; m_vm := false; m_nic := false; m_answer := false |}.
Definition watch (m : mon) (a : action) : option mon :=
  let '(Build_mon b r v n w) := m in
  match a with
  | ABrokerStart _ => if b then None else Some (Build_mon true false v n w)
  | SawReady => if b then Some (Build_mon b true v n w) else None
  | ABrokerStop => if v then None else Some (Build_mon false false v n w)
  | SawBrokerExit => if b then Some (Build_mon false false v n w) else None
  | AVMStart _ => if b && r && negb v then Some (Build_mon b r true n w) else None
  | AVMStop => Some (Build_mon b r false false w)
  | SawVMExit => if v then Some (Build_mon b r false false w) else None
  | SawNic => if v && b then Some (Build_mon b r v true w) else None
  | SawAnswer => if n then Some (Build_mon b r v n true) else None
  | AState st => if st_Ready st && negb (b && r && v && n && w) then None else Some m
  end.
Definition watched (t : list action) : option mon := foldl (λ m a, m ≫= λ m, watch m a) (Some mon0) t.

(** Steps that leave the trace alone. *)
Definition quiet {A} (m : op (list action) run_err A) : Prop := ∀ t, (m t).2 = t.
Lemma quiet_bind {A B} (m : op (list action) run_err A) (k : A → op (list action) run_err B) :
  quiet m → (∀ a, quiet (k a)) → quiet (m ≫= k).
Proof. intros Hm Hk t. unfold mbind, op_bind. specialize (Hm t). destruct (m t) as [[a|e] t']; cbn in Hm; subst; [apply Hk|done]. Qed.
Lemma quiet_ensure b e : quiet (ensure b e).
Proof. by destruct b. Qed.
Lemma quiet_disk o spec : quiet (ensure_disk o spec).
Proof. intros t. unfold ensure_disk. by destruct (run_disk spec). Qed.
Lemma quiet_guest o spec : quiet (prepareGuest o spec).
Proof. unfold prepareGuest. destruct (is_workspace spec); [apply quiet_ensure|done]. Qed.
Lemma prepare_trace o spec :
  (prepare o spec []).2 = [] ∨ (prepare o spec []).2 = [AState (run_state o spec 0 false "")].
Proof.
  assert (quiet (_ ← match socket_too_long spec with Some p => fail (RunSocket p) | None => mret () end;
    _ ← ensure_disk o spec; _ ← prepareGuest o spec; _ ← ensure (o_control o) RunControl;
    _ ← ensure (o_policy o) RunPolicy; ensure (o_runtime o) RunRuntime)) as Hq.
  { apply quiet_bind; [by destruct (socket_too_long spec)|intros _].
    repeat (apply quiet_bind; [auto using quiet_disk, quiet_guest, quiet_ensure|intros _]). apply quiet_ensure. }
  unfold prepare. unfold mbind at 1 2 3, op_bind at 1 2 3. unfold ensure at 1 2, writeState.
  destruct (o_mkdir o); cbn -[mbind]; [|by left].
  destruct (String.eqb (sp_ImageCache spec) "" || o_cache o); cbn -[mbind]; [|by left].
  destruct (o_state o 0); cbn -[mbind]; [right|by left]. apply Hq.
Qed.
(** From a prepared state directory on, the trace is one the monitor accepts,
    and both processes are gone at its end. *)
Definition started (o : outcomes) (spec : Spec) : op (list action) run_err () :=
  _ ← startBroker o spec; _ ← boot o spec; reason ← Supervise o;
  match reason with EndShutdown => mret () | e => fail (RunStopped e) end.
Lemma started_watched o spec t0 :
  watched t0 = Some mon0 →
  ∃ m, watched (started o spec t0).2 = Some m ∧ m_broker m = false ∧ m_vm m = false.
Proof.
  intros H0. unfold started, startBroker. destruct (broker_args spec _) as [[bin args]|]; cbn; [|by exists mon0].
  unfold Start, boot, or_stop, WaitNIC, Supervise, stopBoth, writeState, emit, mbind, op_bind.
  destruct (o_broker o); cbn; rewrite ?foldl_app;
    try solve [unfold watched in *; rewrite ?foldl_app H0; eexists; split; [reflexivity|done]].
  destruct (o_vm o); cbn; [|unfold watched in *; rewrite ?foldl_app H0; eexists; split; [reflexivity|done]].
  unfold watched in *.
  destruct (o_nic o), (o_answer o), (o_state o 1), (o_end o); cbn; rewrite ?foldl_app H0; eexists; split; try reflexivity; done.
Qed.

Lemma started_ok o spec t0 :
  (started o spec t0).1 = Ok () →
  o_end o = EndShutdown ∧ ∃ args, ABrokerStart args ∈ (started o spec t0).2 ∧ AVMStart (imageRef spec) ∈ (started o spec t0).2.
Proof.
  unfold started, startBroker. destruct (broker_args spec _) as [[bin args]|]; [|done].
  unfold Start, boot, or_stop, WaitNIC, Supervise, stopBoth, writeState, emit, mbind, op_bind.
  destruct (o_broker o); cbn; try done. destruct (o_vm o); [|done].
  destruct (o_nic o), (o_answer o), (o_state o 1), (o_end o); cbn; try done.
  intros _. split; [done|]. exists (args ++ ["-status-fd"; "3"]). rewrite !elem_of_app !list_elem_of_singleton. auto 20.
Qed.


Definition all_well : outcomes := {|
  o_pid := 1; o_mkdir := true; o_cache := true; o_state := λ _, true; o_disk := DiskMissing;
  o_disk_calls := {| can_create := true; can_truncate := true; can_close := true |}; o_guest := true; o_control := true;
  o_policy := true; o_runtime := true; o_broker := BrokerReady; o_broker_pid := 2; o_vm := true; o_nic := NicUp; o_answer := true;
  o_end := EndShutdown; o_now := 0 |}.
Definition lab_guest : GuestConfig := {|
  g_Hostname := "w"; g_User := "agent"; g_UID := 1000; g_GID := 1000; g_Home := "/home/agent"; g_WorkDir := "/src"; g_Shares := [];
  g_AuthorizedKey := ""; g_Env := []; g_Binds := []; g_Snapshots := []; g_CABundle := ""; g_IDMap := None; g_RootShare := "";
  g_SSHAgent := false; g_GPGAgent := false; g_HostPorts := []; g_Pins := []; g_ReadOnly := []; g_NoPrivilegeEscalation := false;
  g_Docker := None |}.
Definition lab_spec : Spec := {|
  sp_Kind := KindWorkspace; sp_Workspace := "w"; sp_StateDir := "/h/.cache/jailoc-vm/workspaces/w"; sp_Image := "img"; sp_CPUs := 2;
  sp_MemoryMiB := 4096; sp_DiskSize := 0; sp_Shares := []; sp_Forwards := []; sp_Policy := "{}"; sp_RunnerPath := ""; sp_LibDir := "";
  sp_ImageCache := ""; sp_Broker := ["/bin/jailoc"; "netbroker"]; sp_GuestBinary := "/g"; sp_Agent := "claude"; sp_Profile := "";
  sp_EphemeralProfile := false; sp_Guest := Some lab_guest; sp_Docker := false; sp_SSHAgent := ""; sp_GPGAgent := "";
  sp_HostServices := []; sp_CABundle := "" |}.

(** ** The command line *)

Lemma Clean_ne p : Clean p ≠ "".
Proof. unfold Clean. by destruct (String.eqb_spec ((if IsAbs p then "/" else "") +:+ Join (clean_elems (IsAbs p) (elems p)) "/") ""). Qed.
Lemma JoinPath_ne d f : f ≠ "" → JoinPath [d; f] ≠ "".
Proof.
  intros Hf. cbn. destruct (String.eqb d ""); [|apply Clean_ne].
  destruct (String.eqb_spec f ""); [done|apply Clean_ne].
Qed.
Lemma cut_at_eq a b : has_char "=" a = false → Cut (a +:+ "=" +:+ b) "=" = (a, b, true).
Proof. intros H. unfold Cut. by rewrite (proj2 (cut_char_Some "=" _ a b) (conj eq_refl H)). Qed.
Definition guest_socket (spec : Spec) : string :=
  if is_workspace spec then SSHSocket (sp_StateDir spec) else DockerSocket (sp_StateDir spec).
Definition socket_port (spec : Spec) : Z := if is_workspace spec then SSHPort else DockerPort.
Lemma guest_socket_parsed spec :
  has_char "=" (guest_socket spec) = false →
  BrokerMain.parseUnixForward (guest_socket spec +:+ "=" +:+ Itoa (socket_port spec)) =
  Ok {| BrokerMain.fd_Host := BrokerMain.zeroAddrPort; BrokerMain.fd_UnixPath := guest_socket spec; BrokerMain.fd_GuestPort := socket_port spec |}.
Proof.
  intros H. unfold BrokerMain.parseUnixForward. rewrite cut_at_eq; [|done]. cbn [negb orb].
  assert (guest_socket spec ≠ "") as Hne by (unfold guest_socket; destruct (is_workspace spec); by apply JoinPath_ne).
  destruct (String.eqb_spec (guest_socket spec) ""); [done|]. unfold socket_port. by destruct (is_workspace spec).
Qed.

(** The flags a broker reads from that command line. *)
Definition read_flags (nic policy runtime log forward : string) : cli := {|
  cl_main := {| BrokerMain.fl_socket := nic; BrokerMain.fl_policy := policy; BrokerMain.fl_subnet := Subnet;
    BrokerMain.fl_gateway := Gateway; BrokerMain.fl_guest := GuestIP; BrokerMain.fl_mtu := MTU; BrokerMain.fl_forwards := [];
    BrokerMain.fl_unixForwards := [forward]; BrokerMain.fl_services := []; BrokerMain.fl_dns := [] |};
  cl_runtime := runtime; cl_log := log; cl_status := 3 |}.
Definition vm_net (fwd : BrokerMain.Forward) : BrokerMain.NetConfig := {|
  BrokerMain.n_Subnet := {| px_ip := Addr4 3232268032; px_bits := 24 |}; BrokerMain.n_Gateway := Addr4 3232268033;
  BrokerMain.n_GuestIP := Addr4 3232268034; BrokerMain.n_MTU := MTU; BrokerMain.n_Forwards := [fwd]; BrokerMain.n_Services := [];
  BrokerMain.n_DNSFallback := []; BrokerMain.n_HostDNS := true |}.
Lemma read_flags_config nic policy runtime log forward fwd loadPolicy pol :
  nic ≠ "" → policy ≠ "" → loadPolicy policy = Ok pol → BrokerMain.parseUnixForward forward = Ok fwd →
  BrokerMain.main_config (cl_main (read_flags nic policy runtime log forward)) loadPolicy = Ok (vm_net fwd, pol).
Proof.
  intros Hn Hp Hl Hf. unfold BrokerMain.main_config. cbn [cl_main read_flags BrokerMain.fl_socket BrokerMain.fl_policy
    BrokerMain.fl_mtu BrokerMain.fl_subnet BrokerMain.fl_gateway BrokerMain.fl_guest BrokerMain.fl_forwards BrokerMain.fl_unixForwards
    BrokerMain.fl_services BrokerMain.fl_dns].
  destruct (String.eqb_spec nic ""); [done|]. destruct (String.eqb_spec policy ""); [done|]. cbn [orb]. rewrite Hl. cbn [rmap]. rewrite Hf.
  vm_compute. reflexivity.
Qed.

(** The broker accepts the command line [startBroker] gives it: it serves
    the VM's NIC socket on the VM network with the guest's MTU, passes the checks
    of [New], and forwards exactly the VM's SSH or Docker socket to the guest's
    SSH or Docker port, provided the path of that socket has no equals sign. *)
Theorem broker_accepts_args other spec exe bin args loadPolicy pol :
  sp_Broker spec = [exe; "netbroker"] →
  has_char "=" (guest_socket spec) = false →
  broker_args spec (PolicyFile (sp_StateDir spec)) = Some (bin, args) →
  loadPolicy (PolicyFile (sp_StateDir spec)) = Ok pol →
  ∃ own c cfg, args = "netbroker" :: own ∧ parse_flags other cli_defaults (own ++ ["-status-fd"; "3"]) = Some c ∧
    BrokerMain.main_config (cl_main c) loadPolicy = Ok (cfg, pol) ∧ BrokerMain.New_check cfg = true ∧
    BrokerMain.n_MTU cfg = MTU ∧ BrokerMain.fl_socket (cl_main c) = nicSocket (sp_StateDir spec) ∧
    cl_runtime c = BrokerRuntimeFile (sp_StateDir spec) ∧ cl_log c = TrafficLog (sp_StateDir spec) ∧ cl_status c = 3 ∧
    BrokerMain.n_Services cfg = [] ∧
    BrokerMain.n_Forwards cfg = [{| BrokerMain.fd_Host := BrokerMain.zeroAddrPort; BrokerMain.fd_UnixPath := guest_socket spec;
                                    BrokerMain.fd_GuestPort := socket_port spec |}].
Proof.
  intros Hb Heq%guest_socket_parsed Ha Hp. unfold broker_args in Ha. rewrite Hb in Ha. injection Ha as <- <-.
  assert ((if is_workspace spec then ["-forward-unix"; SSHSocket (sp_StateDir spec) +:+ "=" +:+ Itoa SSHPort]
           else ["-forward-unix"; DockerSocket (sp_StateDir spec) +:+ "=" +:+ Itoa DockerPort]) =
          ["-forward-unix"; guest_socket spec +:+ "=" +:+ Itoa (socket_port spec)]) as ->
    by (unfold guest_socket, socket_port; by destruct (is_workspace spec)).
  set (nic := nicSocket (sp_StateDir spec)). set (pf := PolicyFile (sp_StateDir spec)) in *.
  set (rtf := BrokerRuntimeFile (sp_StateDir spec)). set (tl := TrafficLog (sp_StateDir spec)).
  set (gs := guest_socket spec +:+ "=" +:+ Itoa (socket_port spec)) in *.
  assert (nic ≠ "" ∧ pf ≠ "") as [Hn Hpf] by (split; [exact (JoinPath_ne _ "nic.sock" ltac:(done))|exact (JoinPath_ne _ "policy.json" ltac:(done))]).
  eexists _, (read_flags nic pf rtf tl gs), (vm_net _). split; [reflexivity|]. split; [clearbody nic pf rtf tl gs; vm_compute; reflexivity|].
  split; [exact (read_flags_config _ _ _ _ _ _ _ _ Hn Hpf Hp Heq)|]. split_and!; reflexivity.
Qed.
Lemma broker_accepts_args_witness :
  ∃ own c cfg, broker_args lab_spec (PolicyFile (sp_StateDir lab_spec)) = Some ("/bin/jailoc", "netbroker" :: own) ∧
    parse_flags (λ _, None) cli_defaults (own ++ ["-status-fd"; "3"]) = Some c ∧
    BrokerMain.main_config (cl_main c) (λ _, Ok (Policy.DenyAll "x")) = Ok (cfg, Policy.DenyAll "x") ∧ BrokerMain.New_check cfg = true ∧
    BrokerMain.n_MTU cfg = MTU.
Proof.
  destruct (broker_args lab_spec (PolicyFile (sp_StateDir lab_spec))) as [[bin args]|] eqn:E; [|discriminate E].
  destruct (broker_accepts_args (λ _, None) lab_spec "/bin/jailoc" bin args (λ _, Ok (Policy.DenyAll "x")) (Policy.DenyAll "x")
    eq_refl eq_refl E eq_refl) as (own & c & cfg & H1 & H2 & H3 & H4 & H5 & _).
  exists own, c, cfg. split; [|by split_and!]. rewrite -H1. cbn in E. by injection E as <- _.
Defined.
(** A state directory with an equals sign in its path has no VM. *)
Example equals_in_home : is_ok (BrokerMain.parseUnixForward ("/home/a=b/.cache/ssh.sock" +:+ "=" +:+ Itoa SSHPort)) = false.
Proof. by vm_compute. Qed.
