(* ===== verification/VmReload.v ===== *)
(** * Reloading a running workspace and reporting its state

    [src/internal/cmd/vmreload_unix.go] and the parts of [vmflow_unix.go] around
    a running VM: what a reload changes, which changes need a restart, the
    secrets payload, the commands sent to the guest and the labels of the status.
    Arguments: the guest binary of this jailoc ([current]), secret values. *)

From S2P Require Import Prelude GoStrings GoStrconv GoSort GoPath Agent ConfigChecks Resolve Vm VmHost VmRun.
From S2P Require GuestSys.
Open Scope string_scope.
Open Scope list_scope.
Open Scope Z_scope.

#[export] Instance Bind_eq_dec : EqDecision GuestSys.Bind.
Proof. solve_decision. Defined.

(** ** What a reload applies *)

(** [next] of [reloadVM]: the running specification with the settings a
    running VM can take over. *)
Definition reloaded_guest (running want : GuestConfig) (binds : list Snapshot) : GuestConfig := {|
  g_Hostname := g_Hostname running; g_User := g_User running; g_UID := g_UID running; g_GID := g_GID running;
  g_Home := g_Home running; g_WorkDir := g_WorkDir running; g_Shares := g_Shares running;
  g_AuthorizedKey := g_AuthorizedKey running; g_Env := g_Env running; g_Binds := g_Binds running; g_Snapshots := binds;
  g_CABundle := g_CABundle want; g_IDMap := g_IDMap running; g_RootShare := g_RootShare running; g_SSHAgent := g_SSHAgent want;
  g_GPGAgent := g_GPGAgent want; g_HostPorts := g_HostPorts want; g_Pins := g_Pins running; g_ReadOnly := g_ReadOnly running;
  g_NoPrivilegeEscalation := g_NoPrivilegeEscalation running; g_Docker := g_Docker running |}.
Definition next (running want : Spec) (g wg : GuestConfig) (binds : list Snapshot) : Spec := {|
  sp_Kind := sp_Kind running; sp_Workspace := sp_Workspace running; sp_StateDir := sp_StateDir running;
  sp_Image := sp_Image running; sp_CPUs := sp_CPUs running; sp_MemoryMiB := sp_MemoryMiB running; sp_DiskSize := sp_DiskSize running;
  sp_Shares := sp_Shares running; sp_Forwards := sp_Forwards want; sp_Policy := sp_Policy want; sp_RunnerPath := sp_RunnerPath running;
  sp_LibDir := sp_LibDir running; sp_ImageCache := sp_ImageCache running; sp_Broker := sp_Broker running;
  sp_GuestBinary := sp_GuestBinary running; sp_Agent := sp_Agent running; sp_Profile := sp_Profile running;
  sp_EphemeralProfile := sp_EphemeralProfile running; sp_Guest := Some (reloaded_guest g wg binds); sp_Docker := sp_Docker running;
  sp_SSHAgent := sp_SSHAgent want; sp_GPGAgent := sp_GPGAgent want; sp_HostServices := sp_HostServices want;
  sp_CABundle := sp_CABundle running |}.

(** The wanted specification of [reloadSpec]: [workspaceSpec] with the running
    image and runtime, then the settings [runUpVM] adds. *)
Definition with_reload (spec : Spec) (g : GuestConfig) (internal : list GuestSys.Bind) (ws : Resolved) : Spec * GuestConfig :=
  let g := {| g_Hostname := g_Hostname g; g_User := g_User g; g_UID := g_UID g; g_GID := g_GID g; g_Home := g_Home g;
    g_WorkDir := g_WorkDir g; g_Shares := g_Shares g; g_AuthorizedKey := g_AuthorizedKey g; g_Env := g_Env g; g_Binds := internal;
    g_Snapshots := g_Snapshots g; g_CABundle := g_CABundle g; g_IDMap := g_IDMap g; g_RootShare := g_RootShare g;
    g_SSHAgent := g_SSHAgent g; g_GPGAgent := g_GPGAgent g; g_HostPorts := g_HostPorts g; g_Pins := g_Pins g;
    g_ReadOnly := g_ReadOnly g; g_NoPrivilegeEscalation := r_ProtectGit ws;
    g_Docker := if r_EnableDocker ws then Some "/dev/vda" else g_Docker g |} in
  ({| sp_Kind := sp_Kind spec; sp_Workspace := sp_Workspace spec; sp_StateDir := sp_StateDir spec; sp_Image := sp_Image spec;
      sp_CPUs := sp_CPUs spec; sp_MemoryMiB := sp_MemoryMiB spec; sp_DiskSize := sp_DiskSize spec; sp_Shares := sp_Shares spec;
      sp_Forwards := sp_Forwards spec; sp_Policy := sp_Policy spec; sp_RunnerPath := sp_RunnerPath spec; sp_LibDir := sp_LibDir spec;
      sp_ImageCache := sp_ImageCache spec; sp_Broker := sp_Broker spec; sp_GuestBinary := sp_GuestBinary spec;
      sp_Agent := sp_Agent spec; sp_Profile := sp_Profile spec; sp_EphemeralProfile := sp_EphemeralProfile spec; sp_Guest := Some g;
      sp_Docker := r_EnableDocker ws; sp_SSHAgent := sp_SSHAgent spec; sp_GPGAgent := sp_GPGAgent spec;
      sp_HostServices := sp_HostServices spec; sp_CABundle := sp_CABundle spec |}, g).

(** ** What needs a restart *)

Definition or_default (n : Z) : Z := if n =? 0 then DefaultDiskSize else n.
Definition or_agent (s : string) : string := if String.eqb s "" then Agent.Default else s.
(** The sort of [sortedShares] is not stable in Go, but guest paths are distinct. *)
Definition sortedShares (shares : list Share) : list Share := stable_sort (λ a b, strle (GuestPath a) (GuestPath b)) shares.
Definition guest_outdated (current : option string) (bin : string) : bool :=
  match current with Some c => negb (String.eqb (Clean c) (Clean bin)) | None => false end.
Definition opt (b : bool) (name : string) : list string := if b then [name] else [].
Definition restartOnlyChanges (current : option string) (running want : Spec) (g wg : GuestConfig) : list string :=
  let profileChanged := negb (String.eqb (sp_Profile running) (sp_Profile want)) ||
                        negb (Bool.eqb (sp_EphemeralProfile running) (sp_EphemeralProfile want)) in
  let agentChanged := negb (String.eqb (or_agent (sp_Agent running)) (sp_Agent want)) in
  opt profileChanged "profile" ++
  opt (negb profileChanged && (negb (bool_decide (sortedShares (sp_Shares running) = sortedShares (sp_Shares want))) ||
                               negb (bool_decide (g_Binds g = g_Binds wg)))) "paths and mounts" ++
  opt (negb (sp_CPUs running =? sp_CPUs want)) "cpu" ++
  opt (negb (sp_MemoryMiB running =? sp_MemoryMiB want)) "memory" ++
  opt (sp_Docker running && sp_Docker want && negb (or_default (sp_DiskSize running) =? or_default (sp_DiskSize want))) "docker_disk" ++
  opt (negb (Bool.eqb (sp_Docker running) (sp_Docker want))) "enable_docker" ++
  opt (negb (Bool.eqb (g_NoPrivilegeEscalation g) (g_NoPrivilegeEscalation wg))) "protect_git" ++
  opt agentChanged "agent" ++
  opt (negb agentChanged && (negb (bool_decide (g_Env g = g_Env wg)) || negb (String.eqb (g_WorkDir g) (g_WorkDir wg))))
      "the working directory" ++
  opt (guest_outdated current (sp_GuestBinary running)) "the jailoc guest (jailoc was upgraded)".
(** [statusRestartChanges], from the resolved workspace alone. *)
Definition profile_of (ws : Resolved) : string * bool :=
  match r_AgentProfile ws with Some p => (default "" (Profile_Name p), String.eqb p EphemeralProfile) | None => ("", false) end.
Definition statusRestartChanges (he : host_env) (current : option string) (ws : Resolved) (running : Spec) : list string :=
  let '(profile, ephemeral) := profile_of ws in
  opt (negb (String.eqb (sp_Profile running) profile) || negb (Bool.eqb (sp_EphemeralProfile running) ephemeral)) "profile" ++
  opt (negb (sp_CPUs running =? cpu_count he (r_CPU ws))) "cpu" ++
  opt (match vmMemoryMiB (r_Memory ws) with Ok mem => negb (sp_MemoryMiB running =? mem) | Err _ => false end) "memory" ++
  opt (match vmDockerDiskSize (r_DockerDisk ws) with
       | Ok size => sp_Docker running && r_EnableDocker ws && negb (or_default (sp_DiskSize running) =? size) | Err _ => false end)
      "docker_disk" ++
  opt (negb (Bool.eqb (sp_Docker running) (r_EnableDocker ws))) "enable_docker" ++
  opt (match sp_Guest running with Some g => negb (Bool.eqb (g_NoPrivilegeEscalation g) (r_ProtectGit ws)) | None => false end) "protect_git" ++
  opt (negb (String.eqb (or_agent (sp_Agent running)) (h_Name (r_Agent ws)))) "agent" ++
  opt (guest_outdated current (sp_GuestBinary running)) "the upgraded jailoc guest".

(** The items with commas and a final "and". *)
Fixpoint join_rest (items : list string) : string :=
  match items with
  | [] => ""
  | [s] => " and " +:+ s
  | s :: items => ", " +:+ s +:+ join_rest items
  end.
Definition joinList (items : list string) : string := match items with [] => "" | s :: items => s +:+ join_rest items end.
Definition configLabel (he : host_env) (current : option string) (ws : Resolved) (running : Spec) (changed : bool) : string :=
  match statusRestartChanges he current ws running with
  | [] => if changed then "changed since the VM started; `jailoc reload " +:+ r_Name ws +:+ "` applies it" else "up to date"
  | restart => "`jailoc restart " +:+ r_Name ws +:+ "` needed for " +:+ joinList restart +:+ "; this ends running sessions"
  end.

(** ** Commands for the guest *)

Definition quote : string := sep1 (chr 39).
Definition backslash : string := sep1 (chr 92).
Definition shell_quote (a : string) : string := quote +:+ ReplaceAll a quote (quote +:+ backslash +:+ quote +:+ quote) +:+ quote.
Definition shellJoin (args : list string) : string := Join (map shell_quote args) " ".
Example shellJoin_ex : shellJoin ["a b"; "it's"; ""; "$(x)"] = "'a b' 'it'\''s' '' '$(x)'" ∧ joinList ["a"; "b"; "c"] = "a, b and c".
Proof. by vm_compute. Qed.

(** ** The secrets of a session *)

Record Payload := { p_Env : list string; p_Files : gmap string string; p_GPG : option string }.
Section Secrets.
(** [read] is [readSecret]; [gpg_keys] what [gpgPublicKeys] exports. *)
Context (read : ResolvedSecret → option string) (gpg_keys : option string).
Fixpoint add_secrets (l : list ResolvedSecret) (p : Payload) : option Payload :=
  match l with
  | [] => Some p
  | s :: l =>
      value ← read s;
      add_secrets l (match rs_Kind s with
                     | SecretKindEnv => {| p_Env := p_Env p ++ [rs_Name s +:+ "=" +:+ value]; p_Files := p_Files p; p_GPG := p_GPG p |}
                     | SecretKindFile => {| p_Env := p_Env p; p_Files := <[rs_Name s := value]> (p_Files p); p_GPG := p_GPG p |}
                     end)
  end.
Definition SSHAgentSocket : string := "/run/ssh-agent.sock".
Definition payload_env (ws : Resolved) (spec : Spec) : list string :=
  r_Env ws ++ (if negb (String.eqb (sp_SSHAgent spec) "") then ["SSH_AUTH_SOCK=" +:+ SSHAgentSocket] else []) ++
  (match sp_Guest spec with Some g => if negb (String.eqb (g_CABundle g) "") then ["NODE_USE_SYSTEM_CA=1"] else [] | None => [] end).
Definition secretsPayload (ws : Resolved) (spec : Spec) : option Payload :=
  add_secrets (r_Secrets ws)
    {| p_Env := payload_env ws spec; p_Files := ∅; p_GPG := if negb (String.eqb (sp_GPGAgent spec) "") then gpg_keys else None |}.
End Secrets.

(** ** Labels *)

Definition agentLabel (ws : Resolved) : string :=
  let h := r_Agent ws in
  let label := h_Name h +:+
    (if negb (r_AgentInstall ws) then " (installed by the image)"
     else if negb (String.eqb (h_Package h) "") then
       " (" +:+ h_Package h +:+ "@" +:+ (if String.eqb (h_Version h) "" then "latest" else h_Version h) +:+ ")"
     else match h_Release h with Some r => " (" +:+ rel_Repo r +:+ "@" +:+ h_Version h +:+ ")" | None => "" end) in
  match r_AgentArgs ws with Some (a :: args) => label +:+ ", args: " +:+ Join (a :: args) " " | _ => label end.
Definition resourcesLabel (spec : Spec) : string :=
  Itoa (sp_CPUs spec) +:+ " CPUs, " +:+ Itoa (sp_MemoryMiB spec) +:+ " MiB memory" +:+
  (if sp_Docker spec then ", " +:+ Itoa (Z.shiftr (or_default (sp_DiskSize spec)) 30) +:+ " GiB Docker disk" else "").
Definition sessionsLabel (sessions attached : Z) : string :=
  if attached =? 0 then Itoa sessions else Itoa sessions +:+ " (" +:+ Itoa attached +:+ " attached)".
Definition profileLabel (spec : Spec) : string :=
  if negb (String.eqb (sp_Profile spec) "") then sp_Profile spec
  else if sp_EphemeralProfile spec then "none (agent state is emptied on every start)" else "workspace".
(** [useHostDocker]: which daemon builds the image; the error is [true]. *)
Inductive builder := BuilderAuto | BuilderDocker | BuilderVM.
Definition useHostDocker (b : builder) (isolated host_ok : bool) : result unit bool :=
  if isolated || match b with BuilderVM => true | _ => false end then Ok false
  else match b with BuilderDocker => if negb host_ok then Err () else Ok true | _ => Ok host_ok end.

(** ** Properties *)

(** The words of a POSIX shell command, for the part the quoting relies on:
    single quotes, a backslash outside quotes, blanks between words. Any other
    character outside quotes is refused, so what is read contains nothing a
    shell would expand. *)
Definition squote : ascii := chr 39.
Definition bslash : ascii := chr 92.
Fixpoint sh (s : string) (word : option string) (quoted : bool) : option (list string) :=
  match s with
  | EmptyString => if quoted then None else Some (match word with Some w => [w] | None => [] end)
  | String c s =>
      if quoted then
        if Ascii.eqb c squote then sh s word false else sh s (Some (default "" word +:+ sep1 c)) true
      else if Ascii.eqb c squote then sh s (Some (default "" word)) true
      else if Ascii.eqb c bslash then
        match s with String d s => sh s (Some (default "" word +:+ sep1 d)) false | EmptyString => None end
      else if Ascii.eqb c " " then
        match word with Some w => cons w <$> sh s None false | None => sh s None false end
      else None
  end.

Lemma sh_quoted b rest w :
  has_char squote b = false → sh (b +:+ rest) (Some w) true = sh rest (Some (w +:+ b)) true.
Proof.
  revert w. induction b as [|c b IH]; intros w Hb; [by rewrite sapp_nil_r|].
  unfold has_char in *. cbn [sexists] in Hb. apply orb_false_iff in Hb as [Hc Hb]. cbn [sh String.append].
  rewrite sapp_cons. cbn [sh]. destruct (Ascii.eqb_spec c squote) as [->|]; [by rewrite Ascii.eqb_refl in Hc|].
  cbn [default]. rewrite IH //. f_equal. f_equal. by rewrite -sapp_assoc.
Qed.
Definition escaped : string := quote +:+ backslash +:+ quote +:+ quote.
Lemma sh_escaped rest w : sh (escaped +:+ rest) (Some w) true = sh rest (Some (w +:+ quote)) true.
Proof. reflexivity. Qed.
Lemma sh_replaced n a rest w :
  (String.length a < n)%nat →
  sh (replace_fuel n a quote escaped +:+ String squote rest) (Some w) true = sh rest (Some (w +:+ a)) false.
Proof.
  revert a w. induction n as [|n IH]; intros a w Hn; [lia|]. cbn [replace_fuel].
  destruct (cut a quote) as [[b r]|] eqn:E.
  - apply cut_char_Some in E as [-> Hb]. rewrite slength_app in Hn. cbn in Hn.
    rewrite -!sapp_assoc sh_quoted // sh_escaped IH; [|lia]. f_equal. f_equal. by rewrite -!sapp_assoc.
  - apply cut_char_None in E. rewrite sh_quoted //.
Qed.
Lemma sh_word a rest : sh (shell_quote a +:+ rest) None false = sh rest (Some a) false.
Proof.
  unfold shell_quote. change (quote +:+ ReplaceAll a quote _ +:+ quote) with (String squote (ReplaceAll a quote escaped +:+ quote)).
  rewrite sapp_cons -sapp_assoc. cbn [sh]. rewrite Ascii.eqb_refl. cbn [default].
  change (quote +:+ rest) with (String squote rest). unfold ReplaceAll. by rewrite sh_replaced; [|lia].
Qed.

(** The shell of the guest reads a command built by [shellJoin] as exactly
    the given arguments, whatever bytes they hold, and finds nothing in it to
    expand. *)
Theorem shellJoin_words args : sh (shellJoin args) None false = Some args.
Proof.
  unfold shellJoin. induction args as [|a args IH]; [done|]. destruct args as [|b args].
  - cbn [map Join]. rewrite -(sapp_nil_r (shell_quote a)) sh_word. done.
  - change (Join (map shell_quote (a :: b :: args)) " ") with (shell_quote a +:+ String " " (Join (map shell_quote (b :: args)) " ")).
    rewrite sh_word. cbn [sh]. change (Ascii.eqb " " squote) with false. change (Ascii.eqb " " bslash) with false.
    rewrite Ascii.eqb_refl IH. done.
Qed.

Lemma opt_nil b name : opt b name = [] → b = false.
Proof. by destruct b. Qed.
Lemma or_default_neg {A} `{EqDecision A} (x y : A) : negb (bool_decide (x = y)) = false → x = y.
Proof. intros H. apply negb_false_iff in H. by apply bool_decide_eq_true in H. Qed.

Definition lab_wanted : Spec := next lab_spec lab_spec lab_guest lab_guest [].
