(* ===== verification/Detach.v ===== *)
(** * Finding the detach keys in terminal input

    [detachMatcher], [nextKey] and [decodeKey] of
    [src/internal/cmd/vmsession_unix.go]: what the user types is split into
    keys, decoded from the extended keyboard modes and compared with the detach
    keys; keys that may start the sequence are held back. Input is a list of
    bytes; [keys], the detach keys, is not empty. *)

From S2P Require Import Prelude GoStrings GoStrconv.
Open Scope string_scope.
Open Scope list_scope.
Open Scope Z_scope.

Notation input := (list ascii).
Definition ESC : ascii := chr 27.

(** ** Keys *)

(** The rest of a CSI sequence, [i] bytes into the input: the length of the
    key and whether it is complete. *)
Fixpoint csi_end (i : nat) (s : input) : nat * bool :=
  match s with
  | [] => (i, false)
  | b :: r =>
      if (64 <=? code b) && (code b <=? 126) then (S i, true)
      else if (code b <? 32) || (126 <? code b) then (i, true)
      else csi_end (S i) r
  end.
Definition nextKey (s : input) : nat * bool :=
  match s with
  | c :: b :: r =>
      if negb (Ascii.eqb c ESC) then (1%nat, true)
      else if Ascii.eqb b "[" then csi_end 2 r
      else if Ascii.eqb b "O" then (if (length s <? 3)%nat then (length s, false) else (3%nat, true))
      else (2%nat, true)
  | _ => (1%nat, true)
  end.

Inductive decoded := Key (c : ascii) | NoKey | Ignore.
#[export] Instance decoded_eq_dec : EqDecision decoded.
Proof. solve_decision. Defined.
Definition kittyModifierFirst : Z := 57441.
Definition kittyModifierLast : Z := 57454.
(** An empty or malformed field is 0. *)
Definition field_value (s : string) : Z := match Atoi s with NumOk n => n | _ => 0 end.
Definition key_params (body : input) : list (list Z) :=
  map (λ p, map field_value (Split p ":")) (Split (String.string_of_list_ascii body) ";").
Definition param (ps : list (list Z)) (i j : nat) : Z := default 0 (ps !! i ≫= λ p, p !! j).
(** The byte of a key code with its modifiers; Caps Lock and Num Lock are
    masked out. *)
Definition key_byte (code shifted mods : Z) : decoded :=
  let m := Z.ldiff (Z.max (int64 (mods - 1)) 0) (Z.lor 64 128) in
  if m =? 0 then (if (0 <=? code) && (code <? 128) then Key (chr code) else NoKey)
  else if m =? 1 then
    (if (0 <? shifted) && (shifted <? 128) then Key (chr shifted)
     else if (97 <=? code) && (code <=? 122) then Key (chr (code - 32)) else NoKey)
  else if m =? 4 then
    (if (97 <=? code) && (code <=? 122) then Key (chr (code - 96))
     else if (64 <=? code) && (code <=? 95) then Key (chr (code - 64)) else NoKey)
  else NoKey.
Definition decode_csi (final : ascii) (ps : list (list Z)) : decoded :=
  if 2 <=? param ps 1 1 then Ignore
  else if Ascii.eqb final "u" then
    let code := param ps 0 0 in
    if (kittyModifierFirst <=? code) && (code <=? kittyModifierLast) then Ignore
    else key_byte code (param ps 0 1) (param ps 1 0)
  else if Ascii.eqb final "~" && (length ps =? 3)%nat && (param ps 0 0 =? 27) then key_byte (param ps 2 0) 0 (param ps 1 0)
  else NoKey.
Definition decodeKey (tok : input) : decoded :=
  match tok with
  | [c] => Key c
  | _ :: b :: d :: _ =>
      if negb (Ascii.eqb b "[") || negb (between "0" ";" d) then NoKey
      else decode_csi (List.last tok d) (key_params (take (length tok - 3) (drop 2 tok)))
  | _ => NoKey
  end.

(** ** The matcher *)

Record matcher := { idx : nat; held : input }.
Definition fresh : matcher := {| idx := 0; held := [] |}.

Section Matcher.
Context (keys : input).
Definition is_key (k : decoded) (i : nat) : bool := match k with Key c => bool_decide (keys !! i = Some c) | _ => false end.

(** [settle] with no key matched; the result is what to send, whether the
    sequence is complete and the new state. *)
Definition settle0 (tok : input) : input * bool * matcher :=
  if is_key (decodeKey tok) 0 then
    if (length keys =? 1)%nat then ([], true, fresh) else ([], false, {| idx := 1; held := tok |})
  else (tok, false, fresh).
Definition settle (m : matcher) (tok : input) : input * bool * matcher :=
  if (idx m =? 0)%nat then settle0 tok   (* nothing is held then *)
  else
    let k := decodeKey tok in
    if bool_decide (k = Ignore) then ([], false, {| idx := idx m; held := held m ++ tok |})
    else if is_key k (idx m) then
      if (S (idx m) =? length keys)%nat then ([], true, fresh) else ([], false, {| idx := S (idx m); held := held m ++ tok |})
    else if (idx m =? 1)%nat && is_key k 0 then (tok, false, fresh)
    else let '(out, d, m') := settle0 tok in (held m ++ out, d, m').
(** [feed]; a key is at least one byte, so the length of the input is enough
    fuel. *)
Fixpoint feed_loop (fuel : nat) (m : matcher) (chunk : input) : input * bool * matcher :=
  match fuel, chunk with
  | O, _ | _, [] => ([], false, m)
  | S fuel, _ =>
      let '(n, complete) := nextKey chunk in
      let tok := take n chunk in
      if negb complete then (held m ++ tok, false, fresh) else
      let '(out, d, m) := settle m tok in
      if d then (out, true, m) else
      let '(out', d, m) := feed_loop fuel m (drop n chunk) in (out ++ out', d, m)
  end.
Definition feed (m : matcher) (chunk : input) : input * bool * matcher := feed_loop (length chunk) m chunk.
End Matcher.

Definition typed (s : string) : input := String.list_ascii_of_string s.
Definition esc (s : string) : input := ESC :: typed s.
Definition lab_keys : input := [chr 2; "d"%char].
Example decode_ex :
  decodeKey (esc "[98;5u") = Key (chr 2) ∧ decodeKey (esc "[27;5;98~") = Key (chr 2) ∧ decodeKey (esc "[98;5:3u") = Ignore ∧
  decodeKey (esc "[57442;5u") = Ignore ∧ decodeKey (esc "[97:65;2u") = Key "A" ∧ decodeKey (esc "[A") = NoKey ∧
  decodeKey (typed "x") = Key "x" ∧ nextKey (esc "[1;5Axy") = (6%nat, true) ∧ nextKey (esc "[1;") = (4%nat, false).
Proof. vm_compute. done. Qed.
Example feed_ex :
  feed lab_keys fresh (typed "ab" ++ [chr 2] ++ typed "dz") = (typed "ab", true, fresh) ∧
  feed lab_keys fresh [chr 2; chr 2; "x"%char] = ([chr 2; "x"%char], false, fresh) ∧
  feed lab_keys fresh (esc "[98;5u" ++ esc "[98;5:3u" ++ typed "d") = ([], true, fresh) ∧
  feed lab_keys fresh [chr 2; "x"%char] = ([chr 2; "x"%char], false, fresh).
Proof. vm_compute. done. Qed.

(** ** Properties *)

Lemma csi_end_bounds i s : (i ≤ (csi_end i s).1 ≤ i + length s)%nat.
Proof.
  revert i. induction s as [|b s IH]; intros i; cbn [csi_end length]; [cbn; lia|].
  destruct (_ && _); [cbn; lia|]. destruct (_ || _); [cbn; lia|]. specialize (IH (S i)). lia.
Qed.
Lemma nextKey_bounds s : s ≠ [] → (1 ≤ (nextKey s).1 ≤ length s)%nat.
Proof.
  intros Hs. destruct s as [|c [|b r]]; [done|cbn; lia|]. unfold nextKey.
  destruct (negb (Ascii.eqb c ESC)); [cbn; lia|]. destruct (Ascii.eqb b "["); [pose proof (csi_end_bounds 2 r); cbn [length]; lia|].
  destruct (Ascii.eqb b "O"); [|cbn; lia]. destruct (length (c :: b :: r) <? 3)%nat eqn:E; cbn [fst]; [cbn; lia|].
  apply Nat.ltb_ge in E. lia.
Qed.

Section Feed.
Context (keys : input).
Notation settle := (settle keys).
Notation feed_loop := (feed_loop keys).
Notation feed := (feed keys).

Lemma feed_loop_fuel f g m s : (length s ≤ f)%nat → (length s ≤ g)%nat → feed_loop f m s = feed_loop g m s.
Proof using.
  revert g m s. induction f as [|f IH]; intros g m s Hf Hg; destruct s as [|c s]; try (cbn in *; lia); [by destruct g..|].
  destruct g as [|g]; [cbn in *; lia|]. pose proof (nextKey_bounds (c :: s) ltac:(done)) as Hn. cbn [feed_loop].
  destruct (nextKey (c :: s)) as [n b]. cbn [fst] in Hn. destruct b; [|done]. cbn [negb].
  destruct (settle m (take n (c :: s))) as [[out []] m']; [done|].
  rewrite (IH g); [done|..]; rewrite length_drop; lia.
Qed.
Lemma feed_unfold m s : s ≠ [] →
  feed m s = let '(n, complete) := nextKey s in
    if negb complete then (held m ++ take n s, false, fresh) else
    let '(out, d, m') := settle m (take n s) in
    if d then (out, true, m') else let '(out', d, m'') := feed m' (drop n s) in (out ++ out', d, m'').
Proof using.
  intros Hs. unfold feed. pose proof (nextKey_bounds s Hs) as Hn. destruct s as [|c s]; [done|]. cbn [length feed_loop].
  destruct (nextKey (c :: s)) as [n b]. cbn [fst length] in Hn. destruct b; [|done]. cbn [negb].
  destruct (settle m (take n (c :: s))) as [[out []] m']; [done|].
  rewrite (feed_loop_fuel _ (length (drop n (c :: s)))); [done|..]; rewrite length_drop /=; lia.
Qed.

(** What may be on hold: nothing before the first key, and never the whole
    sequence. *)
Definition matcher_ok (m : matcher) : Prop := (idx m = 0%nat → held m = []) ∧ (idx m < length keys)%nat.
Lemma settle0_ok tok out d m : (0 < length keys)%nat → settle0 keys tok = (out, d, m) →
  matcher_ok m ∧ out ++ held m `sublist_of` tok.
Proof using.
  intros Hk. unfold settle0, matcher_ok. destruct (is_key keys (decodeKey tok) 0).
  - destruct (Nat.eqb_spec (length keys) 1); intros [= <- <- <-]; cbn; split; try done; [apply sublist_nil_l|lia].
  - intros [= <- <- <-]. cbn. by rewrite app_nil_r.
Qed.
Lemma settle_ok m tok out d m' : matcher_ok m → settle m tok = (out, d, m') →
  matcher_ok m' ∧ out ++ held m' `sublist_of` held m ++ tok.
Proof using.
  intros [Hh Hk]. unfold settle. destruct (Nat.eqb_spec (idx m) 0) as [E|E].
  { rewrite (Hh E). apply settle0_ok. lia. }
  case_bool_decide; [intros [= <- <- <-]; by repeat split; cbn|].
  destruct (is_key keys _ (idx m)).
  { destruct (Nat.eqb_spec (S (idx m)) (length keys)); intros [= <- <- <-]; unfold matcher_ok; cbn; repeat split; try done; [lia|apply sublist_nil_l|lia]. }
  destruct (_ && _).
  { intros [= <- <- <-]. unfold matcher_ok. cbn. rewrite app_nil_r. repeat split; [lia|]. by apply sublist_inserts_l. }
  destruct (settle0 keys tok) as [[o d0] m0] eqn:E0. apply settle0_ok in E0 as [Hm Hs]; [|lia].
  intros [= <- <- <-]. split; [done|]. rewrite -app_assoc. by apply sublist_app.
Qed.
Lemma feed_loop_ok f m s out d m' : matcher_ok m → feed_loop f m s = (out, d, m') →
  matcher_ok m' ∧ out ++ held m' `sublist_of` held m ++ s.
Proof using.
  revert m s out d m'. induction f as [|f IH]; intros m s out d m' Hm; destruct s as [|c s]; cbn [feed_loop].
  1,3: intros [= <- <- <-]; rewrite app_nil_r; done.
  { intros [= <- <- <-]. split; [done|]. by apply sublist_inserts_r. }
  destruct (nextKey (c :: s)) as [n []]; cbn [negb].
  - destruct (settle m (take n (c :: s))) as [[o d1] m1] eqn:Es. apply settle_ok in Es as [Hm1 Hs1]; [|done]. destruct d1.
    + intros [= <- <- <-]. split; [done|]. rewrite -(take_drop n (c :: s)) app_assoc. by apply sublist_inserts_r.
    + destruct (feed_loop f m1 (drop n (c :: s))) as [[o' d2] m2] eqn:El. apply IH in El as [Hm2 Hs2]; [|done].
      intros [= <- <- <-]. split; [done|]. rewrite -app_assoc -(take_drop n (c :: s)).
      transitivity ((o ++ held m1) ++ drop n (c :: s)).
      * rewrite -app_assoc. by apply sublist_app.
      * rewrite app_assoc. by apply sublist_app.
  - intros [= <- <- <-]. split; [split; cbn; [done|destruct Hm; lia]|]. rewrite app_nil_r. apply sublist_app; [done|]. apply sublist_take.
Qed.

(** A token that is a key however the input goes on. *)
Definition keyed (tok : input) : Prop := tok ≠ [] ∧ ∀ rest, nextKey (tok ++ rest) = (length tok, true).
Fixpoint settle_all (m : matcher) (toks : list input) : input * bool * matcher :=
  match toks with
  | [] => ([], false, m)
  | t :: toks =>
      let '(out, d, m) := settle m t in
      if d then (out, true, m) else let '(out', d, m) := settle_all m toks in (out ++ out', d, m)
  end.
Fixpoint feed_all (m : matcher) (reads : list input) : input * bool * matcher :=
  match reads with
  | [] => ([], false, m)
  | r :: reads =>
      let '(out, d, m) := feed m r in
      if d then (out, true, m) else let '(out', d, m) := feed_all m reads in (out ++ out', d, m)
  end.
Lemma feed_tokens m toks : Forall keyed toks → feed m (concat toks) = settle_all m toks.
Proof using.
  intros H. revert m. induction H as [|t toks [Hne Ht] _ IH]; intros m; [done|]. cbn [concat settle_all].
  rewrite feed_unfold; [|by destruct t]. rewrite Ht. cbn [negb]. rewrite take_app_length drop_app_length.
  destruct (settle m t) as [[o []] m1]; [done|]. by rewrite IH.
Qed.
Lemma settle_all_app m a b :
  settle_all m (a ++ b) = let '(out, d, m1) := settle_all m a in
    if d then (out, true, m1) else let '(out', d, m2) := settle_all m1 b in (out ++ out', d, m2).
Proof using.
  revert m. induction a as [|t a IH]; intros m; cbn [app settle_all]; [by destruct (settle_all m b) as [[??]?]|].
  destruct (settle m t) as [[o []] m1]; [done|]. rewrite IH. destruct (settle_all m1 a) as [[o1 []] m2]; [done|].
  destruct (settle_all m2 b) as [[o2 d2] m3]. by rewrite app_assoc.
Qed.
Lemma feed_all_tokens m reads : Forall keyed (concat reads) → feed_all m (map (λ r, concat r) reads) = settle_all m (concat reads).
Proof using.
  revert m. induction reads as [|r reads IH]; intros m H; [done|]. cbn [concat map feed_all].
  apply Forall_app in H as [Hr H]. rewrite feed_tokens // settle_all_app.
  destruct (settle_all m r) as [[o []] m1]; [done|]. by rewrite IH.
Qed.
(** The rest of the sequence, once it has begun. *)
Lemma settle_rest m toks :
  (0 < idx m < length keys)%nat →
  filter (λ k, k ≠ Ignore) (map decodeKey toks) = map Key (drop (idx m) keys) →
  settle_all m toks = ([], true, fresh).
Proof using.
  revert m. induction toks as [|t toks IH]; intros m Hi Hk.
  { cbn in Hk. assert (length (map Key (drop (idx m) keys)) = 0%nat) as Hl by (by rewrite -Hk). rewrite length_map length_drop in Hl. lia. }
  cbn [map] in Hk. rewrite filter_cons in Hk. cbn [settle_all]. unfold settle. destruct (Nat.eqb_spec (idx m) 0); [lia|].
  case_decide as Hd.
  - rewrite bool_decide_eq_false_2 //. destruct (drop (idx m) keys) as [|c rest] eqn:Er; [done|]. cbn in Hk. injection Hk as Hc Hk.
    assert (keys !! idx m = Some c) as Hlook by (rewrite -(take_drop (idx m) keys) Er lookup_app_r length_take; [|lia]; by rewrite Nat.min_l ?Nat.sub_diag; [|lia]).
    rewrite Hc. cbn [is_key]. rewrite bool_decide_eq_true_2 //. destruct (Nat.eqb_spec (S (idx m)) (length keys)) as [E|E]; [done|].
    rewrite IH; [done|cbn; lia|]. cbn [idx]. rewrite Hk. f_equal. replace (S (idx m)) with (idx m + 1)%nat by lia. by rewrite -drop_drop Er.
  - assert (decodeKey t = Ignore) as E by (by destruct (decide (decodeKey t = Ignore))).
    rewrite bool_decide_eq_true_2 //. rewrite IH; [done|done|]. exact Hk.
Qed.
End Feed.

(** Whatever is read, in whatever pieces: what is sent, followed by what is
    held back, is the held and read input in its order, with nothing added; and
    the held input never reaches the whole sequence. Typing the detach keys, in
    any keyboard mode, with modifier, repeat and release events between them and
    cut into reads between any two keys, detaches and sends none of them. *)
Theorem detach_keys keys m reads chunk :
  matcher_ok keys m →
  (∀ out d m', feed keys m chunk = (out, d, m') → matcher_ok keys m' ∧ out ++ held m' `sublist_of` held m ++ chunk) ∧
  (idx m = 0%nat → Forall keyed (concat reads) →
   (∃ c, head (map decodeKey (concat reads)) = Some (Key c)) →
   filter (λ k, k ≠ Ignore) (map decodeKey (concat reads)) = map Key keys →
   feed_all keys m (map (λ r, concat r) reads) = ([], true, fresh)).
Proof.
  intros Hm. split; [intros out d m'; by apply feed_loop_ok|]. intros Hi Hkd [c Hc] Hk. rewrite feed_all_tokens //.
  destruct (concat reads) as [|t toks]; [done|]. cbn [map head] in *. injection Hc as Hc. rewrite Hc filter_cons_True // in Hk.
  destruct keys as [|k0 keys]; [destruct Hm; cbn in *; lia|]. cbn in Hk. injection Hk as -> Hk. cbn [settle_all].
  unfold settle, settle0. rewrite Hi Hc. cbn. case_bool_decide; [|done]. destruct keys as [|k1 keys]; [done|]. cbn.
  rewrite settle_rest //; cbn; lia.
Qed.
Definition lab_reads : list (list input) := [[esc "[98;5u"]; [esc "[98;5:3u"; typed "d"]].
Lemma lab_keyed : Forall keyed (concat lab_reads).
Proof. repeat constructor; try done; intros rest; [reflexivity..|]. by destruct rest. Qed.
Lemma detach_keys_witness :
  (∀ out d m', feed lab_keys fresh (esc "[98;5u") = (out, d, m') →
     matcher_ok lab_keys m' ∧ out ++ held m' `sublist_of` held fresh ++ esc "[98;5u") ∧
  feed_all lab_keys fresh (map (λ r, concat r) lab_reads) = ([], true, fresh).
Proof.
  assert (matcher_ok lab_keys fresh) as Hm by (split; [done|cbn; lia]).
  destruct (detach_keys lab_keys fresh lab_reads (esc "[98;5u") Hm) as [H1 H2]. split; [exact H1|].
  apply H2; [reflexivity|exact lab_keyed|eexists; reflexivity|vm_compute; reflexivity].
Defined.
