(* ===== verification/Profile.v ===== *)
(** * Claiming an agent profile

    [claimProfile] and [releaseProfile] of
    [src/internal/cmd/vmprofile_unix.go], and the life of the workspaces that
    use one named profile: an [up] claims the profile under its lock, boots the
    VM later, a [down] stops the VM and releases the claim. The owner is the
    content of the lock file. *)

From S2P Require Import Prelude GoStrings ConfigChecks GitConfig.
Open Scope string_scope.
Open Scope list_scope.

Inductive profile_err := ProfileLock | ProfileRead | ProfileHeld (e : string) | ProfileInUse (owner : string) | ProfileWrite.
(** Which calls on the lock file succeed. *)
Record file_calls := { f_lock : bool; f_read : bool; f_truncate : bool; f_write : bool }.

Definition line_end : string := sep1 (chr 10).
Definition readProfileOwner (c : file_calls) (data : string) : result profile_err string :=
  if f_read c then Ok (TrimSpace data) else Err ProfileRead.
(** The outcome and the content afterwards. *)
Definition writeProfileOwner (c : file_calls) (owner data : string) : result profile_err unit * string :=
  if negb (f_truncate c) then (Err ProfileWrite, data)
  else if String.eqb owner "" then (Ok (), "")
  else if negb (f_write c) then (Err ProfileWrite, "")
  else (Ok (), owner +:+ line_end).
(** [held owner] is [profileHeld]: whether the owner's VM runs with the
    profile, or an error. *)
Definition claimProfile (c : file_calls) (held : string → result profile_err bool) (ws data : string) : result profile_err unit * string :=
  if negb (f_lock c) then (Err ProfileLock, data) else
  match readProfileOwner c data with
  | Err e => (Err e, data)
  | Ok owner =>
      if negb (String.eqb owner "") && negb (String.eqb owner ws) then
        match held owner with
        | Err e => (Err e, data)
        | Ok true => (Err (ProfileInUse owner), data)
        | Ok false => writeProfileOwner c ws data
        end
      else writeProfileOwner c ws data
  end.
Definition releaseProfile (c : file_calls) (ws data : string) : result profile_err unit * string :=
  if negb (f_lock c) then (Err ProfileLock, data) else
  match readProfileOwner c data with
  | Err e => (Err e, data)
  | Ok owner => if negb (String.eqb owner ws) then (Ok (), data) else writeProfileOwner c "" data
  end.

(** ** Workspaces that share a profile *)

(** Absent workspaces are stopped. [Stopping] is a [down] between the stop of
    the VM and the release. *)
Inductive phase := Claimed | Running | Stopping.
#[export] Instance phase_eq_dec : EqDecision phase.
Proof. solve_decision. Defined.
Record profile := { owner_file : string; phases : gmap string phase }.
Definition runs (s : profile) (w : string) : bool := bool_decide (phases s !! w = Some Running).

(** The label tells whether a claim is tried. *)
Inductive step : bool → profile → profile → Prop :=
| StepClaim s w c data :
    phases s !! w = None → workspaceNameRe w = true → claimProfile c (λ o, Ok (runs s o)) w (owner_file s) = (Ok (), data) →
    step true s {| owner_file := data; phases := <[w := Claimed]> (phases s) |}
| StepRefused s w c e data :
    phases s !! w = None → claimProfile c (λ o, Ok (runs s o)) w (owner_file s) = (Err e, data) →
    step true s {| owner_file := data; phases := phases s |}
| StepBoot s w : phases s !! w = Some Claimed → step false s {| owner_file := owner_file s; phases := <[w := Running]> (phases s) |}
| StepFailed s w : phases s !! w = Some Claimed → step false s {| owner_file := owner_file s; phases := delete w (phases s) |}
| StepDied s w : phases s !! w = Some Running → step false s {| owner_file := owner_file s; phases := delete w (phases s) |}
| StepStop s w : phases s !! w = Some Running → step false s {| owner_file := owner_file s; phases := <[w := Stopping]> (phases s) |}
| StepRelease s w c r data :
    phases s !! w = Some Stopping → releaseProfile c w (owner_file s) = (r, data) →
    step false s {| owner_file := data; phases := delete w (phases s) |}.
(** One [up] at a time: no claim is tried between another one and its boot. *)
Definition serial (claims : bool) (s : profile) : Prop := claims = true → ∀ v, phases s !! v ≠ Some Claimed.
Inductive reached : profile → Prop :=
| ReachedStart data : reached {| owner_file := data; phases := ∅ |}
| ReachedStep b s s' : reached s → step b s s' → serial b s → reached s'.

(** ** Properties *)

Lemma trim_owner w : workspaceNameRe w = true → TrimSpace (w +:+ line_end) = w.
Proof.
  unfold workspaceNameRe, plus. intros [Hn Hw]%andb_true_iff. destruct (String.eqb_spec w ""); [done|].
  assert (sforall key_char w = true) as Hk.
  { revert Hw. clear. induction w as [|c w IH]; [done|]. cbn [sforall]. intros [Hc Hw]%andb_true_iff. rewrite IH // andb_true_r.
    unfold key_char, is_alnum. by destruct (is_lower c), (is_digit c), (is_upper c). }
  unfold TrimSpace. destruct w as [|c w]; [done|]. pose proof Hk as Hk'. cbn [sforall] in Hk'. apply andb_true_iff in Hk' as [Hc _].
  rewrite sapp_cons TrimLeftSpace_word; [|by apply key_char_word]. rewrite -sapp_cons.
  destruct (word_last _ n Hk) as (p & d & -> & Hd). rewrite -sapp_assoc. change (sep1 d +:+ line_end) with (String d line_end).
  by rewrite TrimRightSpace_word; [|by apply key_char_word].
Qed.

Definition owns (s : profile) (v : string) : Prop := TrimSpace (owner_file s) = v.
Definition live (s : profile) (v : string) : Prop := phases s !! v = Some Claimed ∨ phases s !! v = Some Running.
Definition claims_ok (s : profile) : Prop := ∀ v, live s v → owns s v ∧ workspaceNameRe v = true.

Lemma name_ne v : workspaceNameRe v = true → v ≠ "".
Proof. by intros H ->. Qed.
(** A claim leaves the file alone while the owner runs. *)
Lemma claim_held c s w v r data :
  claims_ok s → phases s !! w = None → phases s !! v = Some Running →
  claimProfile c (λ o, Ok (runs s o)) w (owner_file s) = (r, data) → data = owner_file s ∧ r ≠ Ok ().
Proof.
  intros Hok Hw Hv. destruct (Hok v (or_intror Hv)) as [Ho Hn%name_ne]. unfold owns in Ho.
  unfold claimProfile, readProfileOwner. destruct (f_lock c); [|by intros [= <- <-]]. cbn [negb].
  destruct (f_read c); [|by intros [= <- <-]]. rewrite Ho. destruct (String.eqb_spec v ""); [done|].
  destruct (String.eqb_spec v w) as [->|]; [congruence|]. cbn [negb andb]. unfold runs. rewrite Hv bool_decide_eq_true_2 //.
  by intros [= <- <-].
Qed.
Lemma claim_writes c held w data0 data :
  claimProfile c held w data0 = (Ok (), data) → w ≠ "" → data = w +:+ line_end.
Proof.
  intros H Hw. unfold claimProfile, writeProfileOwner in H. destruct (String.eqb_spec w ""); [done|].
  repeat (case_match; try done); by injection H as <-.
Qed.
Lemma step_claims_ok b s s' : claims_ok s → step b s s' → serial b s → claims_ok s'.
Proof.
  intros Hok Hst Hse v Hv. unfold live in *. destruct Hst as [s w c data Hn Hre Hc|s w c e data Hn Hc|s w Hw|s w Hw|s w Hw|s w Hw|s w c r data Hw Hr]; cbn in *.
  - rewrite !lookup_insert_Some in Hv.
    assert (data = w +:+ line_end) as -> by exact (claim_writes _ _ _ _ _ Hc (name_ne _ Hre)).
    destruct Hv as [[[-> _]|[Hne Hv]]|[[_ ?]|[Hne Hv]]]; [|by destruct (Hse eq_refl v)|done|].
    + split; [|done]. unfold owns. cbn. by apply trim_owner.
    + by destruct (claim_held c s w v _ _ Hok Hn Hv Hc).
  - destruct Hv as [Hv|Hv]; [by destruct (Hse eq_refl v)|].
    destruct (claim_held c s w v _ _ Hok Hn Hv Hc) as [-> _]. unfold owns. cbn. apply Hok. by right.
  - apply (Hok v). unfold live. rewrite !lookup_insert_Some in Hv. destruct Hv as [[[_ ?]|[_ ?]]|[[<- _]|[_ ?]]]; auto. done.
  - apply (Hok v). unfold live. rewrite !lookup_delete_Some in Hv. tauto.
  - apply (Hok v). unfold live. rewrite !lookup_delete_Some in Hv. tauto.
  - apply (Hok v). unfold live. rewrite !lookup_insert_Some in Hv. destruct Hv as [[[_ ?]|[_ ?]]|[[_ ?]|[_ ?]]]; auto; done.
  - rewrite !lookup_delete_Some in Hv. assert (w ≠ v ∧ live s v) as [Hne Hl] by (unfold live; tauto).
    destruct (Hok v Hl) as [Ho Hre]. split; [|done]. unfold owns in *. cbn.
    unfold releaseProfile, readProfileOwner in Hr. destruct (f_lock c); [|by injection Hr as _ <-]. cbn [negb] in Hr.
    destruct (f_read c); [|by injection Hr as _ <-]. rewrite Ho in Hr. destruct (String.eqb_spec v w); [congruence|]. by injection Hr as _ <-.
Qed.

(** C20: while no two [up]s overlap, at most one workspace runs with a profile,
    or is about to, and it is the one the lock file names, whatever calls on the
    lock file fail and whichever VMs fail to boot, die or stop. *)
Theorem profile_exclusive s :
  reached s → ∀ v w, live s v → live s w → v = w ∧ TrimSpace (owner_file s) = v.
Proof.
  intros Hr. assert (claims_ok s) as Hok.
  { induction Hr as [data|b s s' _ IH Hst Hse]; [|exact (step_claims_ok _ _ _ IH Hst Hse)]. intros v [H|H]; cbn in H; by rewrite lookup_empty in H. }
  intros v w Hv Hw. destruct (Hok v Hv) as [<- _]. destruct (Hok w Hw) as [<- _]. done.
Qed.

Definition all_calls : file_calls := {| f_lock := true; f_read := true; f_truncate := true; f_write := true |}.
Lemma lab_reached : reached {| owner_file := "a" +:+ line_end; phases := {["a" := Running]} |}.
Proof.
  apply (ReachedStep false {| owner_file := "a" +:+ line_end; phases := {["a" := Claimed]} |}); [|exact (StepBoot {| owner_file := _; phases := {["a" := Claimed]} |} "a" eq_refl)|done].
  apply (ReachedStep true {| owner_file := "stale"; phases := ∅ |}); [constructor| |].
  - exact (StepClaim {| owner_file := "stale"; phases := ∅ |} "a" all_calls _ eq_refl eq_refl ltac:(by vm_compute)).
  - intros _ v. by rewrite lookup_empty.
Qed.
Lemma profile_exclusive_witness :
  "a" = "a" ∧ TrimSpace (owner_file {| owner_file := "a" +:+ line_end; phases := {["a" := Running]} |}) = "a".
Proof. apply (profile_exclusive _ lab_reached "a" "a"); right; reflexivity. Defined.

(** Two overlapping [up]s: the second finds the claim of the first, but no VM
    running with the profile yet, and takes it over; both boot. *)
Definition race (file : string) (l : list (string * phase)) : profile :=
  {| owner_file := file; phases := foldr (λ p m, <[p.1 := p.2]> m) ∅ l |}.
Lemma claim_race :
  let s := race ("b" +:+ line_end) [("b", Running); ("a", Running); ("b", Claimed); ("a", Claimed)] in
  rtc (λ s s', ∃ b, step b s s') (race "" []) s ∧ phases s !! "a" = Some Running ∧ phases s !! "b" = Some Running.
Proof.
  split; [|done].
  apply rtc_l with (race ("a" +:+ line_end) [("a", Claimed)]).
  { exists true. apply (StepClaim (race "" []) "a" all_calls); reflexivity. }
  apply rtc_l with (race ("b" +:+ line_end) [("b", Claimed); ("a", Claimed)]).
  { exists true. apply (StepClaim (race ("a" +:+ line_end) [("a", Claimed)]) "b" all_calls); vm_compute; reflexivity. }
  apply rtc_l with (race ("b" +:+ line_end) [("a", Running); ("b", Claimed); ("a", Claimed)]).
  { exists false. by apply (StepBoot (race ("b" +:+ line_end) [("b", Claimed); ("a", Claimed)]) "a"). }
  apply rtc_once. exists false. by apply (StepBoot (race ("b" +:+ line_end) [("a", Running); ("b", Claimed); ("a", Claimed)]) "b").
Qed.
