(* ===== verification/SecretCache.v ===== *)
(** * The cache of secrets

    [src/internal/cmd/secrets.go] and [secrets_lock_unix.go]: values of secrets
    from their host sources, the cache of command outputs in the system
    keychain, its index and its purge. A section under the lock of the cache is
    a sequence of calls that take time, fail, or are the last one before the
    process dies; sections of several processes are interleaved. The keychain is
    that of Linux, whose entries end by themselves, or that of macOS, which
    keeps them. *)

From S2P Require Import Prelude GoStrings GoStrconv StateErr Resolve.
From S2P Require GitConfig.
Open Scope string_scope.
Open Scope list_scope.
Open Scope Z_scope.

(** ** Values of secrets *)

Definition crlf : string := sep1 (chr 13) +:+ sep1 (chr 10).
Definition nul : string := sep1 (chr 0).
Inductive secret_err := SecretValue | SecretRead | SecretCommand | SecretEmpty | SecretBump | SecretEvict.
Definition checkSecretValue (s : ResolvedSecret) (value : string) : result secret_err string :=
  match rs_Kind s with
  | SecretKindEnv =>
      let value := TrimRightFn (λ c, has_char c crlf) value in
      if ContainsAny value (crlf +:+ nul) then Err SecretValue else Ok value
  | SecretKindFile => Ok value
  end.


(** The sources a reload checks before anything else. *)
Inductive source_err := SourceUnset | SourceEmpty | SourceMissing | SourceStat | SourceNotRegular | SourceCollision.
Inductive file_stat := StatRegular | StatOther | StatMissing | StatFailed.
Definition validateSecretEnvSource (value : option string) : result source_err unit :=
  match value with None => Err SourceUnset | Some v => if String.eqb v "" then Err SourceEmpty else Ok () end.
Definition validateSecretFileSource (st : file_stat) : result source_err unit :=
  match st with StatRegular => Ok () | StatOther => Err SourceNotRegular | StatMissing => Err SourceMissing | StatFailed => Err SourceStat end.
Definition envKeySet (env : list string) : gset string :=
  list_to_set (omap (M:=list) (λ e, let '(key, _, found) := Cut e "=" in if negb found || String.eqb key "" then None else Some key) env).
Definition validateSecretSources (getenv : string → option string) (stat : string → file_stat) (env : list string) (l : list ResolvedSecret)
    : result source_err unit :=
  riter (λ s,
    _ ← (if negb (String.eqb (rs_FromEnv s) "") then validateSecretEnvSource (getenv (rs_FromEnv s))
         else if negb (String.eqb (rs_FromFile s) "") then validateSecretFileSource (stat (rs_FromFile s)) else Ok ());
    match rs_Kind s with
    | SecretKindEnv => if bool_decide (rs_Name s ∈ envKeySet env) then Err SourceCollision else Ok ()
    | SecretKindFile => Ok ()
    end) l.

(** [readSecret] for sources other than a command, whose value is [None]. *)
Definition read_source (getenv read_file : string → option string) (s : ResolvedSecret) : option (result secret_err string) :=
  if negb (String.eqb (rs_FromEnv s) "") then Some (checkSecretValue s (default "" (getenv (rs_FromEnv s))))
  else if negb (String.eqb (rs_FromFile s) "") then
    Some (match read_file (rs_FromFile s) with None => Err SecretRead | Some data => checkSecretValue s data end)
  else None.
(** [runSecretCommand]: the environment of the command and what its output,
    [None] on failure, is taken for. *)
Definition command_env (environ : list string) (wsName : string) : list string :=
  List.filter (λ e, negb (HasPrefix e "JAILOC_WORKSPACE=")) environ ++ ["JAILOC_WORKSPACE=" +:+ wsName].
Definition command_output (r : option string) : result secret_err string :=
  match r with None => Err SecretCommand | Some o => if String.eqb o "" then Err SecretEmpty else Ok o end.

(** ** The keychain *)

(** The output of a command, with the number of completed purges at its start;
    the number is the history of the value and decides nothing. *)
Record output := { out : string; since : nat }.
(** Decoded entries: an index, a cached value with its expiry, or data that is
    neither. Times are in nanoseconds. *)
Inductive kdata := KIndex (idx : gmap string Z) | KSecret (value : output) (expires : Z) | KJunk.
Record kentry := { k_data : kdata; k_deadline : option Z }.
(** The outcome of a call: how long it takes, whether it succeeds, and whether
    the process dies instead. *)
Record call := { c_dt : nat; c_ok : bool; c_dead : bool }.
Record sys := { kr : gmap string kentry; now : Z; gen : option string; calls : nat }.
Inductive crash := Crash.

Definition second : Z := 1000000000.
Definition indexExpiryMargin : Z := second.
Definition indexRetryTTL : Z := 24 * 3600 * second.
Definition zeroTime : Z := - 62135596800 * second.
Inductive kerr := KMissing | KFail.

Section Cache.
(** Whether entries are kept until they are deleted; the hash of accounts; the
    configuration path and the workspace; orders of the loops over maps. *)
Context (keeps : bool) (hash : string → string) (configPath wsName : string).
Context (order : gmap string Z → list (string * Z)).

Definition secretCacheAccount (s : ResolvedSecret) : string :=
  "jailoc:secret:" +:+
  hash (Join [configPath; wsName; match rs_Kind s with SecretKindEnv => "env" | SecretKindFile => "file" end; rs_Name s; rs_FromCommand s] nul).
Definition secretCacheIndexAccount : string := "jailoc:index:" +:+ hash (configPath +:+ nul +:+ wsName).

Section Calls.
Context (o : nat → call).
Notation m A := (op sys crash A).

Definition set_kr (k : gmap string kentry) (s : sys) : sys := {| kr := k; now := now s; gen := gen s; calls := calls s |}.
Definition set_gen (g : string) (s : sys) : sys := {| kr := kr s; now := now s; gen := Some g; calls := calls s |}.
Definition later (c : call) (s : sys) : sys := {| kr := kr s; now := now s + Z.of_nat (c_dt c); gen := gen s; calls := S (calls s) |}.
(** A call to the system; whether it succeeds. *)
Definition syscall : m bool := λ s,
  let c := o (calls s) in if c_dead c then (Err Crash, later c s) else (Ok (c_ok c), later c s).
Definition time : m Z := _ ← syscall; gets now.

Definition alive (t : Z) (k : kentry) : bool := match k_deadline k with None => true | Some d => t <? d end.
Definition get (a : string) : m (result kerr kdata) :=
  ok ← syscall;
  if negb ok then mret (Err KFail) else
  gets (λ s, match kr s !! a with Some k => if alive (now s) k then Ok (k_data k) else Err KMissing | None => Err KMissing end).
(** Whole seconds, rounded up. *)
Definition seconds (ttl : Z) : Z := - ((- ttl) / second).
Definition set (a : string) (d : kdata) (ttl : Z) : m bool :=
  if negb keeps && (seconds ttl <=? 0) then mret true else
  ok ← syscall;
  if negb ok then mret false else
  _ ← modify (λ s, set_kr (<[a := {| k_data := d; k_deadline := if keeps then None else Some (now s + seconds ttl * second) |}]> (kr s)) s);
  mret true.
Definition delete_entry (a : string) : m bool :=
  ok ← syscall;
  if negb ok then mret false else _ ← modify (λ s, set_kr (delete a (kr s)) s); mret true.

(** ** The purge generation *)

Definition gen_value (s : sys) : option Z :=
  match gen s with None => Some 0 | Some t => num_opt (ParseUint (TrimSpace t) 64) end.
Definition secretCacheGeneration : m (option Z) := ok ← syscall; if negb ok then mret None else gets gen_value.
(** [os.WriteFile] truncates the file before it writes. *)
Definition bumpSecretCacheGeneration : m bool :=
  g ← secretCacheGeneration;
  match g with
  | None => mret false
  | Some n =>
      ok ← syscall;
      if negb ok then mret false else
      _ ← modify (set_gen "");
      ok ← syscall;
      if negb ok then mret false else
      _ ← modify (set_gen (fmt_nat (u64 (n + 1)))); mret true
  end.

(** ** The index *)

Definition readSecretCacheIndex : m (option (gmap string Z)) :=
  r ← get secretCacheIndexAccount;
  mret (match r with Err KMissing => Some ∅ | Ok (KIndex idx) => Some idx | _ => None end).
Definition latest (idx : gmap string Z) : Z := map_fold (λ _ e l, if l <? e then e else l) zeroTime idx.
(** The difference of two times saturates, the sum with the margin wraps. *)
Definition saturate (x : Z) : Z := Z.max minInt64 (Z.min maxInt64 x).
Definition writeSecretCacheIndex (idx : gmap string Z) : m bool :=
  if bool_decide (idx = ∅) then delete_entry secretCacheIndexAccount else
  t ← time;
  set secretCacheIndexAccount (KIndex idx) (Z.max (int64 (saturate (latest idx - t) + indexExpiryMargin)) indexRetryTTL).
Fixpoint drop_expired (t : Z) (l : list (string * Z)) (idx : gmap string Z) : m (gmap string Z) :=
  match l with
  | [] => mret idx
  | (a, e) :: l =>
      if t <? e then drop_expired t l idx else
      ok ← delete_entry a; drop_expired t l (if ok : bool then delete a idx else idx)
  end.
Definition recordSecretCacheAccount (account : string) (expires : Z) : m bool :=
  r ← readSecretCacheIndex;
  match r with
  | None => mret false
  | Some idx =>
      t ← time;
      idx ← drop_expired t (order idx) idx;
      writeSecretCacheIndex (if default zeroTime (idx !! account) <? expires then <[account := expires]> idx else idx)
  end.

(** ** Cached values *)

Definition readCachedSecret (s : ResolvedSecret) : m (option output) :=
  r ← get (secretCacheAccount s);
  match r with
  | Ok (KSecret v e) => t ← time; mret (if negb (t <? e) || String.eqb (out v) "" then None else Some v)
  | _ => mret None
  end.
Definition writeCachedSecretLocked (s : ResolvedSecret) (v : output) : m () :=
  t ← time;
  let expires := t + rs_TTL s in
  ok ← recordSecretCacheAccount (secretCacheAccount s) expires;
  if negb ok then mret () else
  t ← time;
  let ttl := expires - t in
  if 0 <? ttl then (_ ← set (secretCacheAccount s) (KSecret v expires) ttl; mret ()) else mret ().

(** ** Purging *)

Fixpoint add_configured (l : list ResolvedSecret) (pending : gmap string Z) : m (gmap string Z) :=
  match l with
  | [] => mret pending
  | s :: l =>
      let a := secretCacheAccount s in
      if negb (String.eqb (rs_FromCommand s) "") && (default zeroTime (pending !! a) =? zeroTime)
      then (t ← time; add_configured l (<[a := t + rs_TTL s]> pending)) else add_configured l pending
  end.
(** The entries that are left, and whether all were deleted. *)
Fixpoint delete_all (l : list (string * Z)) (pending : gmap string Z) (ok : bool) : m (gmap string Z * bool) :=
  match l with
  | [] => mret (pending, ok)
  | (a, _) :: l => b ← delete_entry a; delete_all l (if b : bool then delete a pending else pending) (ok && b)
  end.
(** Whether [purgeWorkspaceSecretCache] returns no error. *)
Definition purgeWorkspaceSecretCache (secrets : list ResolvedSecret) : m bool :=
  bumped ← bumpSecretCacheGeneration;
  r ← readSecretCacheIndex;
  pending ← add_configured secrets (default ∅ r);
  '(pending, deleted) ← delete_all (order pending) pending true;
  match r with
  | None => mret false
  | Some _ => ok ← writeSecretCacheIndex pending; mret (bumped && deleted && ok)
  end.

(** ** Reading a secret *)

(** The section before the command: a value, or the generation to run it with. *)
Inductive started := Known (r : result secret_err string) | Command (generation : option Z).
Definition before_command (s : ResolvedSecret) (purgeCache : bool) : m started :=
  let run := (g ← secretCacheGeneration; mret (Command g)) in
  if purgeCache then
    ok ← bumpSecretCacheGeneration;
    if negb ok then mret (Known (Err SecretBump)) else
    ok ← delete_entry (secretCacheAccount s);
    if negb ok then mret (Known (Err SecretEvict)) else run
  else
    r ← readCachedSecret s;
    match r with Some v => mret (Known (checkSecretValue s (out v))) | None => run end.
(** The section after it. *)
Definition after_command (s : ResolvedSecret) (generation : option Z) (raw : output) : m () :=
  match generation with
  | None => mret ()
  | Some g =>
      cur ← secretCacheGeneration;
      if bool_decide (cur = Some g) then writeCachedSecretLocked s raw else mret ()
  end.
End Calls.

(** ** Several processes *)

(** A command that runs outside the lock. *)
Record flight := { fl_secret : ResolvedSecret; fl_gen : option Z; fl_since : nat }.
Record world := { w_sys : sys; w_flights : gmap nat flight; w_purges : nat }.
(** The largest cached lifetime considered, about 136 years: the kernel takes
    32 bits of seconds, a duration 64 bits of nanoseconds. *)
Definition maxTTL : Z := Z.shiftl 1 32 * second.

Inductive step : world → world → Prop :=
| StepTime s fs p d :
    0 <= d → step {| w_sys := s; w_flights := fs; w_purges := p |}
      {| w_sys := {| kr := kr s; now := now s + d; gen := gen s; calls := calls s |}; w_flights := fs; w_purges := p |}
| StepStart s fs p i o secret purge r s' :
    fs !! i = None → 0 < rs_TTL secret <= maxTTL → before_command o secret purge s = (r, s') →
    step {| w_sys := s; w_flights := fs; w_purges := p |}
      {| w_sys := s'; w_purges := p;
         w_flights := match r with
                      | Ok (Command g) => <[i := {| fl_secret := secret; fl_gen := g; fl_since := p |}]> fs | _ => fs end |}
| StepCached s fs p i f o value r s' :                          (* the command printed an acceptable value *)
    fs !! i = Some f → is_ok (checkSecretValue (fl_secret f) value) = true →
    after_command o (fl_secret f) (fl_gen f) {| out := value; since := fl_since f |} s = (r, s') →
    step {| w_sys := s; w_flights := fs; w_purges := p |} {| w_sys := s'; w_flights := delete i fs; w_purges := p |}
| StepFailed s fs p i :                                         (* it failed, or its value was refused *)
    step {| w_sys := s; w_flights := fs; w_purges := p |} {| w_sys := s; w_flights := delete i fs; w_purges := p |}
| StepPurge s fs p o secrets r s' :
    Forall (λ x, 0 <= rs_TTL x <= maxTTL) secrets → purgeWorkspaceSecretCache o secrets s = (r, s') →
    step {| w_sys := s; w_flights := fs; w_purges := p |}
      {| w_sys := s'; w_flights := fs; w_purges := match r with Ok true => S p | _ => p end |}.
(** Runs from an empty keychain, in which the 64-bit generation never wraps. *)
Definition room (s : sys) : Prop := ∀ n, gen_value s = Some n → n < 2 ^ 64 - 1.
Inductive reached : world → Prop :=
| ReachedStart t : zeroTime <= t → reached {| w_sys := {| kr := ∅; now := t; gen := None; calls := 0 |}; w_flights := ∅; w_purges := 0 |}
| ReachedStep w w' : reached w → room (w_sys w) → step w w' → reached w'.
End Cache.

(** ** Properties *)

Section Properties.
Context (keeps : bool) (hash : string → string) (configPath wsName : string) (order : gmap string Z → list (string * Z)).
Context (order_all : ∀ m, order m ≡ₚ map_to_list m).
Notation account := (secretCacheAccount hash configPath wsName).
Notation index := (secretCacheIndexAccount hash configPath wsName).
Notation m A := (op sys crash A).

Lemma account_ne s : account s ≠ index.
Proof. unfold secretCacheAccount, secretCacheIndexAccount. by intros [=]. Qed.

(** A secret the keychain still gives out and that has not expired. *)
Definition cached (s : sys) (a : string) (v : output) (e : Z) (d : option Z) : Prop :=
  kr s !! a = Some {| k_data := KSecret v e; k_deadline := d |} ∧ a ≠ index ∧ alive (now s) {| k_data := KSecret v e; k_deadline := d |} = true ∧ now s < e.
(** The index lives on when [x] has come. *)
Definition lasts (d : option Z) (x : Z) : Prop := match d with None => True | Some t => x + second <= t end.
(** [written idx]: the keychain has the index, for as long as what it lists. *)
Definition written (idx : gmap string Z) (s : sys) : Prop :=
  ∃ dI, kr s !! index = Some {| k_data := KIndex idx; k_deadline := dI |} ∧ ∀ a x, idx !! a = Some x → lasts dI x.
(** An index that lists every cached secret. *)
Definition lists (idx : gmap string Z) (s : sys) : Prop := ∀ a v e d, cached s a v e d → ∃ x, idx !! a = Some x ∧ e <= x.
Definition small (idx : gmap string Z) (s : sys) : Prop := ∀ a x, idx !! a = Some x → a ≠ index ∧ x <= now s + maxTTL.
Record good (idx : gmap string Z) (s : sys) : Prop := { gd_lists : lists idx s; gd_small : small idx s }.
Record inv (p : nat) (s : sys) : Prop := {
  in_cached : ∀ a v e d, cached s a v e d → since v = p ∧ ∃ idx dI x,
    kr s !! index = Some {| k_data := KIndex idx; k_deadline := dI |} ∧ idx !! a = Some x ∧ e <= x ∧ lasts dI x;
  in_small : ∀ idx dI, kr s !! index = Some {| k_data := KIndex idx; k_deadline := dI |} → small idx s;
  in_clock : zeroTime <= now s
}.
(** Time passes, the generation does not decrease, and no secret is added. *)
Definition gen_le (s s' : sys) : Prop := ∀ n', gen_value s' = Some n' → ∃ n, gen_value s = Some n ∧ n <= n'.
Definition onward (s s' : sys) : Prop := now s <= now s' ∧ gen_le s s'.
Definition shrinks (s s' : sys) : Prop := onward s s' ∧ ∀ a v e d, cached s' a v e d → cached s a v e d.
#[local] Instance onward_pre : PreOrder onward.
Proof.
  split.
  - intros s. split; [lia|]. intros n H. exists n. split; [done|lia].
  - intros a b c [H1 G1] [H2 G2]. split; [lia|]. intros n Hn. destruct (G2 n Hn) as (k & Hk & ?), (G1 k Hk) as (j & Hj & ?). exists j. split; [done|lia].
Qed.
#[local] Instance shrinks_pre : PreOrder shrinks.
Proof.
  split; [intros s; split; [reflexivity|done]|]. intros a b c [H1 G1] [H2 G2]. split; [exact (transitivity H1 H2)|]. intros x v e d H. by apply G1, G2.
Qed.
Lemma good_shrinks idx s s' : good idx s → shrinks s s' → good idx s'.
Proof.
  intros [H1 H2] [[Hn _] Hc]. split.
  - intros a v e d H. exact (H1 a v e d (Hc a v e d H)).
  - intros a x H. destruct (H2 a x H). split; [done|lia].
Qed.

(** *** Calls *)

Notation safe p m s Q := (post (inv p) shrinks m s Q).
Lemma latest_spec idx : (∀ a x, idx !! a = Some x → x <= latest idx) ∧ (latest idx = zeroTime ∨ ∃ a, idx !! a = Some (latest idx)).
Proof.
  unfold latest. rewrite map_fold_foldr.
  assert (∀ l : list (string * Z), let r := foldr (uncurry (λ (_ : string) e m, if m <? e then e else m)) zeroTime l in
    (∀ a x, (a, x) ∈ l → x <= r) ∧ (r = zeroTime ∨ ∃ a, (a, r) ∈ l)) as H.
  { induction l as [|[a e] l [Hle Hin]]; cbn; [split; [intros a x Hx; by apply not_elem_of_nil in Hx|by left]|].
    set (r := foldr _ zeroTime l) in *. split.
    - intros b x [[= -> ->]|Hx]%elem_of_cons; [|specialize (Hle b x Hx)]; destruct (_ <? _) eqn:E; bool_hyps; lia.
    - destruct (r <? e) eqn:E; [right; exists a; by left|]. destruct Hin as [->|[b Hb]]; [by left|]. right. exists b. by right. }
  destruct (H (map_to_list idx)) as [H1 H2]. split.
  - intros a x Hx. by apply (H1 a), elem_of_map_to_list.
  - destruct H2 as [->|[a Ha]]; [by left|]. right. exists a. by apply elem_of_map_to_list in Ha.
Qed.
Section Calls2.
Context (o : nat → call) (p : nat).

Lemma cached_later c s a v e d : cached (later c s) a v e d → cached s a v e d.
Proof.
  intros (H1 & H2 & H3 & H4). cbn in H4. split; [done|]. split; [done|]. split; [|lia]. unfold alive in *. cbn in *.
  destruct d; [|done]. apply Z.ltb_lt in H3. apply Z.ltb_lt. lia.
Qed.
Lemma inv_later c s : inv p s → inv p (later c s).
Proof.
  intros [H1 H2 H3]. split; [intros a v e d H; exact (H1 a v e d (cached_later c s a v e d H))| |cbn; lia].
  intros idx dI H a x Hx. destruct (H2 idx dI H a x Hx). split; [done|]. cbn. lia.
Qed.
Lemma shrinks_later c s : shrinks s (later c s).
Proof. split; [split; [cbn; lia|]|intros a v e d; apply cached_later]. intros n H. exists n. split; [exact H|lia]. Qed.
Lemma syscall_safe s : inv p s → safe p (syscall o) s (λ _ s', ∃ c, s' = later c s).
Proof.
  intros H. unfold post, syscall. destruct (c_dead _); cbn; (split; [by apply inv_later|]; split; [apply shrinks_later|]); [done|].
  intros b _. by eexists.
Qed.
Lemma time_safe s : inv p s → safe p (time o) s (λ t s', t = now s').
Proof.
  intros H. unfold time. apply (post_then _ _ _ _ _ _ _ (syscall_safe s H)). intros _ s1 H1 _ _. by apply post_gets; [apply _|..].
Qed.
Lemma onward_kr k s : onward s (set_kr k s).
Proof. split; [cbn; lia|]. intros n H. exists n. split; [exact H|lia]. Qed.
(** A call that may fail, and what it does when it succeeds. *)
Lemma call_safe (f : sys → sys) s (Q : bool → sys → Prop) :
  inv p s → (∀ c, Q false (later c s)) →
  (∀ c, inv p (f (later c s)) ∧ shrinks (later c s) (f (later c s)) ∧ Q true (f (later c s))) →
  safe p (ok ← syscall o; if negb ok then mret false else _ ← modify f; mret true) s Q.
Proof.
  intros H Hfail Hok. apply (post_then _ _ _ _ _ _ _ (syscall_safe s H)). intros ok s1 H1 _ [c ->].
  destruct ok; cbn; [|by apply post_ret; [apply _|..]]. destruct (Hok c) as (Hi & Hg & Hq).
  apply (post_then _ _ _ _ _ (λ _ s', s' = f (later c s))); [by apply post_modify|]. intros _ s2 _ _ ->. by apply post_ret; [apply _|..].
Qed.
Lemma delete_safe a s : inv p s → a ≠ index → safe p (delete_entry o a) s (λ ok s', ok = true → ∀ v e d, ¬ cached s' a v e d).
Proof.
  intros H Ha. apply call_safe; [done|done|]. intros c. set (s1 := later c s). pose proof (inv_later c s H) as [I1 I2 I3].
  assert (∀ b v e d, cached (set_kr (delete a (kr s1)) s1) b v e d → cached s1 b v e d ∧ b ≠ a) as Hc.
  { intros b v e d (H1 & H2 & H3). cbn in H1. apply lookup_delete_Some in H1 as [Hne H1]. split; [by split|congruence]. }
  split; [|split].
  - split.
    + intros b v e d [Hb Hne]%Hc. destruct (I1 b v e d Hb) as (Hs & idx & dI & x & Hi & Hx). split; [done|]. exists idx, dI, x.
      split; [|done]. cbn. by rewrite lookup_delete_ne.
    + intros idx dI Hi. cbn in Hi. apply lookup_delete_Some in Hi as [_ Hi]. exact (I2 idx dI Hi).
    + exact I3.
  - split; [apply onward_kr|]. intros b v e d Hb. by apply Hc.
  - intros _ v e d [_ Hb]%Hc. done.
Qed.
(** Without cached secrets the index may go. *)
Lemma delete_index_safe s : inv p s → lists ∅ s → safe p (delete_entry o index) s (λ _ _, True).
Proof.
  intros H Hl. apply call_safe; [done|done|]. intros c. set (s1 := later c s).
  assert (∀ b v e d, ¬ cached (set_kr (delete index (kr s1)) s1) b v e d) as Hc.
  { intros b v e d (H1 & H2 & H3). cbn in H1. apply lookup_delete_Some in H1 as [_ H1]. destruct (Hl b v e d) as (x & Hx & _); [|by rewrite lookup_empty in Hx].
    apply (cached_later c). by split. }
  split; [|split]; [|split; [apply onward_kr|intros b v e d Hb; by destruct (Hc b v e d)]|done].
  split; [intros b v e d Hb; by destruct (Hc b v e d)| |exact (in_clock _ _ (inv_later c s H))].
  intros idx dI Hi. cbn in Hi. by rewrite lookup_delete_eq in Hi.
Qed.
Lemma seconds_ge ttl : ttl <= seconds ttl * second < ttl + second.
Proof. unfold seconds, second. pose proof (Z.div_mod (- ttl) 1000000000 ltac:(lia)). pose proof (Z.mod_pos_bound (- ttl) 1000000000 ltac:(lia)). lia. Qed.
Lemma set_index_safe idx ttl s :
  inv p s → good idx s → 0 < ttl → (∀ a x, idx !! a = Some x → x + second <= now s + ttl) →
  safe p (set keeps o index (KIndex idx) ttl) s (λ ok s', ok = true → written idx s').
Proof.
  intros H Hg Httl Hx. unfold set. destruct (negb keeps && (seconds ttl <=? 0)) eqn:E.
  { exfalso. pose proof (seconds_ge ttl). unfold second in *. bool_hyps. lia. }
  apply call_safe; [done|done|]. intros c. pose proof (good_shrinks idx s _ Hg (shrinks_later c s)) as [Hl Hs].
  set (s1 := later c s) in *. set (d := if keeps then None else Some (now s1 + seconds ttl * second)).
  set (s2 := set_kr _ s1).
  assert (∀ b v e dd, cached s2 b v e dd → cached s1 b v e dd) as Hc.
  { intros b v e dd (H1 & H2 & H3). cbn in H1. rewrite lookup_insert_ne in H1; [by split|congruence]. }
  assert (written idx s2) as Hw.
  { exists d. split; [cbn; apply lookup_insert_eq|]. intros a x Ha. unfold lasts, d. destruct keeps; [done|].
    specialize (Hx a x Ha). pose proof (seconds_ge ttl). cbn. lia. }
  split; [|split; [split; [apply onward_kr|exact Hc]|done]]. split.
  - intros b v e dd Hb%Hc. destruct (Hl b v e dd Hb) as (x & Hbx & He). pose proof (inv_later c s H) as [I1 _ _].
    split; [apply (I1 b v e dd Hb)|]. destruct Hw as (dI & Hi & Hd). exists idx, dI, x. split_and!; eauto.
  - intros idx' dI Hi. cbn in Hi. rewrite lookup_insert_eq in Hi. injection Hi as <- _. exact Hs.
  - exact (in_clock _ _ (inv_later c s H)).
Qed.
Lemma read_index_safe s :
  inv p s → safe p (readSecretCacheIndex hash configPath wsName o) s (λ r s', ∀ idx, r = Some idx → good idx s').
Proof.
  intros H. unfold readSecretCacheIndex, get.
  apply (post_then _ _ _ _ _ (λ r s', ∀ idx, match r with Err KMissing => Some ∅ | Ok (KIndex idx) => Some idx | _ => None end = Some idx → good idx s')).
  2: { intros r s1 H1 _ Hr. by apply post_ret; [apply _|..]. }
  apply (post_then _ _ _ _ _ _ _ (syscall_safe s H)). intros ok s1 H1 _ _. destruct ok; [|by apply post_ret; [apply _|..]].
  apply post_gets; [apply _|done|]. pose proof H1 as [I1 I2 _].
  assert (∀ r : kerr, (∀ a v e d, ¬ cached s1 a v e d) → good ∅ s1) as Hnone.
  { intros _ Hno. split; [intros a v e d Hc; by destruct (Hno a v e d)|]. intros a x Hx. by rewrite lookup_empty in Hx. }
  destruct (kr s1 !! index) as [[kd dI]|] eqn:Hk.
  - destruct (alive (now s1) _) eqn:Ha.
    + intros idx Hi. cbn in Hi. destruct kd; try done. injection Hi as ->. split; [|exact (I2 idx dI eq_refl)].
      intros a v e d Hc. destruct (I1 a v e d Hc) as (_ & idx' & dI' & x & Hi & Hx & He & _). simplify_eq. by exists x.
    + intros idx [= <-]. apply (Hnone KMissing). intros a v e d Hc. destruct (I1 a v e d Hc) as (_ & idx' & dI' & x & Hi & Hx & He & Hl).
      simplify_eq. destruct Hc as (_ & _ & _ & Hd). unfold alive, lasts, second in *. cbn in *.
      destruct dI' as [T|]; [|done]. apply Z.ltb_ge in Ha. lia.
  - intros idx [= <-]. apply (Hnone KMissing). intros a v e d Hc. destruct (I1 a v e d Hc) as (_ & idx' & dI' & x & Hi & _). congruence.
Qed.
Lemma write_index_safe idx s :
  inv p s → good idx s → safe p (writeSecretCacheIndex keeps hash configPath wsName o idx) s (λ ok s', ok = true → idx ≠ ∅ → written idx s').
Proof.
  intros H Hg. unfold writeSecretCacheIndex. case_bool_decide as He.
  { subst idx. eapply post_mono; [apply delete_index_safe; [done|apply Hg]|]. by intros _ s' _ _ _ _ []. }
  eapply post_then; [apply _|apply (time_safe s H)|]. intros t s1 H1 Hs ->. cbn.
  eapply post_mono; [apply set_index_safe; [done|exact (good_shrinks _ _ _ Hg Hs)|unfold indexRetryTTL, second; lia|]|by auto].
  intros a x Hx. destruct (latest_spec idx) as [Hle Hin]. specialize (Hle a x Hx). pose proof (in_clock _ _ H1).
  assert (maxTTL = 4294967296000000000) as Hm by reflexivity.
  assert (latest idx <= now s1 + maxTTL) as Hl.
  { destruct Hin as [->|[b Hb]]; [rewrite Hm; lia|]. destruct (gd_small _ _ (good_shrinks _ _ _ Hg Hs) b _ Hb). done. }
  rewrite Hm in Hl.
  assert (int64 (saturate (latest idx - now s1) + indexExpiryMargin) = saturate (latest idx - now s1) + second) as ->.
  { unfold indexExpiryMargin, int64, saturate. rewrite sext_id_range; [done|lia|]. unfold second, minInt64, maxInt64. lia. }
  unfold saturate, indexRetryTTL, second, minInt64, maxInt64 in *. lia.
Qed.
Lemma drop_expired_safe t l idx s :
  inv p s → good idx s → (∀ a e, (a, e) ∈ l → a ≠ index) → safe p (drop_expired o t l idx) s (λ idx' s', good idx' s').
Proof.
  revert idx s. induction l as [|[a e] l IH]; intros idx s H Hg Hl; cbn; [by apply post_ret; [apply _|..]|].
  assert (∀ b e', (b, e') ∈ l → b ≠ index) as Hl' by (intros b e' Hb; apply (Hl b e'); by right).
  destruct (t <? e); [by apply IH|]. eapply post_then; [apply _|apply delete_safe; [done|by apply (Hl a e); left]|].
  intros ok s1 H1 Hs Hok. apply IH; [done| |done]. pose proof (good_shrinks _ _ _ Hg Hs) as Hg1. destruct ok; [|done].
  destruct Hg1 as [G1 G2]. split.
  - intros b v e' d Hb. destruct (decide (b = a)) as [->|Hne]; [by destruct (Hok eq_refl v e' d)|].
    rewrite lookup_delete_ne; [|congruence]. by apply (G1 b v e' d).
  - intros b x [_ Hx]%lookup_delete_Some. by apply G2.
Qed.
(** After it succeeded the index lists the account, and lives as long. *)
Definition recorded (a : string) (e : Z) (s : sys) : Prop := ∃ idx x, written idx s ∧ idx !! a = Some x ∧ e <= x.
Lemma record_safe a e s :
  inv p s → a ≠ index → zeroTime < e <= now s + maxTTL →
  safe p (recordSecretCacheAccount keeps hash configPath wsName order o a e) s (λ ok s', ok = true → recorded a e s').
Proof using order_all.
  intros H Ha He. unfold recordSecretCacheAccount. eapply post_then; [apply _|apply (read_index_safe s H)|].
  intros [idx|] s1 H1 Hs1 Hg; [|by apply post_ret; [apply _|..]]. specialize (Hg idx eq_refl).
  eapply post_then; [apply _|apply (time_safe s1 H1)|]. intros t s2 H2 Hs2 _.
  eapply post_then; [apply _|apply drop_expired_safe; [done|exact (good_shrinks _ _ _ Hg Hs2)|]|].
  { intros b x Hb. rewrite order_all in Hb. apply elem_of_map_to_list in Hb. by apply (gd_small _ _ Hg b x). }
  intros idx' s3 H3 Hs3 Hg'. cbn. set (idx2 := if _ <? e then _ else _).
  assert (∃ x, idx2 !! a = Some x ∧ e <= x) as (x & Hx & Hex).
  { subst idx2. destruct (_ <? e) eqn:E; [exists e; rewrite lookup_insert_eq; split; [done|lia]|].
    destruct (idx' !! a) as [x|]; cbn in E; bool_hyps; [|lia]. exists x. split; [done|lia]. }
  destruct Hs1 as [[Hn1 _] _], Hs2 as [[Hn2 _] _], Hs3 as [[Hn3 _] _].
  eapply post_mono; [apply write_index_safe; [done|]|].
  - subst idx2. destruct (_ <? e) eqn:E; [|done]. bool_hyps. destruct Hg' as [G1 G2]. split.
    + intros b v e' d Hb. destruct (G1 b v e' d Hb) as (y & Hy & Hey). destruct (decide (b = a)) as [->|Hne].
      * exists e. rewrite lookup_insert_eq. split; [done|]. rewrite Hy in E. cbn in E. lia.
      * exists y. rewrite lookup_insert_ne; [done|congruence].
    + intros b y [[<- <-]|[_ Hy]]%lookup_insert_Some; [split; [done|lia]|by apply G2].
  - intros ok s4 _ _ Hw Hok. exists idx2, x. split; [|done]. apply Hw; [done|]. intros E. by rewrite E lookup_empty in Hx.
Qed.
(** What a purge knows of the entries that remain: all of them, when it could
    read the index. *)
Definition known (full : bool) (pending : gmap string Z) (s : sys) : Prop := small pending s ∧ (full = true → lists pending s).
Lemma known_shrinks full pending s s' : known full pending s → shrinks s s' → known full pending s'.
Proof.
  intros [H1 H2] Hs. pose proof Hs as [[Hn _] Hc]. split; [intros a x Hx; destruct (H1 a x Hx); split; [done|lia]|].
  intros Hf a v e d Ha. by apply (H2 Hf a v e d), Hc.
Qed.
Lemma add_configured_safe full l pending s :
  inv p s → known full pending s → Forall (λ x, 0 <= rs_TTL x <= maxTTL) l →
  safe p (add_configured hash configPath wsName o l pending) s (λ pending' s', known full pending' s').
Proof.
  revert pending s. induction l as [|x l IH]; intros pending s H Hg Hl; cbn; [by apply post_ret; [apply _|..]|].
  apply Forall_cons in Hl as [Hx Hl]. destruct (negb _ && _) eqn:E; [|by apply IH].
  eapply post_then; [apply _|apply (time_safe s H)|]. intros t s1 H1 Hs ->. cbn. apply IH; [done| |done].
  destruct (known_shrinks _ _ _ _ Hg Hs) as [G2 G1]. split.
  - intros a y [[<- <-]|[_ Hy]]%lookup_insert_Some; [split; [apply account_ne|lia]|by apply G2].
  - intros Hf a v e d Ha. destruct (G1 Hf a v e d Ha) as (y & Hy & Hey). destruct (decide (a = account x)) as [->|Hne].
    + rewrite lookup_insert_eq. apply andb_true_iff in E as [_ E]. rewrite Hy in E. cbn in E. bool_hyps.
      pose proof (in_clock _ _ H1). destruct Ha as (_ & _ & _ & Ha). lia.
    + exists y. rewrite lookup_insert_ne; [done|congruence].
Qed.
Lemma delete_all_safe full l pending ok s :
  inv p s → known full pending s → (∀ a e, (a, e) ∈ l → a ≠ index) →
  safe p (delete_all o l pending ok) s (λ r s', known full r.1 s' ∧
    (r.2 = true → ok = true ∧ ∀ a, a ∈ map fst l → ∀ v e d, ¬ cached s' a v e d)).
Proof.
  revert pending ok s. induction l as [|[a e] l IH]; intros pending ok s H Hg Hl; cbn.
  { apply post_ret; [apply _|done|]. split; [done|]. cbn. intros ->. split; [done|]. intros a Ha. by apply not_elem_of_nil in Ha. }
  eapply post_then; [apply _|apply delete_safe; [done|by apply (Hl a e); left]|].
  intros b s1 H1 Hs Hb. cbn. eapply post_mono; [apply IH; [done| |intros c e' Hc; apply (Hl c e'); by right]|].
  - pose proof (known_shrinks _ _ _ _ Hg Hs) as Hg1. destruct b; [|done]. destruct Hg1 as [G2 G1]. split.
    + intros c x [_ Hx]%lookup_delete_Some. by apply G2.
    + intros Hf c v e' d Hc. destruct (decide (c = a)) as [->|Hne]; [by destruct (Hb eq_refl v e' d)|].
      rewrite lookup_delete_ne; [|congruence]. by apply (G1 Hf c v e' d).
  - cbn. intros [r b'] s2 _ [_ Hs2] [Hg2 Hr]. split; [done|]. intros E. destruct (Hr E) as [[-> ->]%andb_true_iff Hc].
    split; [done|]. intros c [->|Hin]%elem_of_cons v e' d Hcd; [|by apply (Hc c Hin v e' d)]. by apply (Hb eq_refl v e' d), Hs2.
Qed.
(** Steps that leave the keychain alone. *)
Lemma same_safe {A} (r : result crash A) s s' (Q : A → sys → Prop) :
  inv p s → kr s' = kr s → now s <= now s' → gen_le s s' → (∀ a, r = Ok a → Q a s') →
  inv p s' ∧ shrinks s s' ∧ ∀ a, r = Ok a → Q a s'.
Proof.
  intros [I1 I2 I3] Hk Hn Hg Hq.
  assert (∀ a v e d, cached s' a v e d → cached s a v e d) as Hc.
  { intros a v e d (H1 & H2 & H3 & H4). rewrite Hk in H1. split; [done|]. split; [done|]. split; [|lia]. unfold alive in *. cbn in *.
    destruct d; [|done]. bool_hyps. apply Z.ltb_lt. lia. }
  split; [|split; [split; [split; [done|exact Hg]|exact Hc]|done]]. split; [|rewrite Hk|lia].
  - intros a v e d Ha. rewrite Hk. by apply (I1 a v e d), Hc.
  - intros idx dI Hi a x Hx. destruct (I2 idx dI Hi a x Hx). split; [done|lia].
Qed.
Lemma TrimSpace_fmt n : 0 <= n < 2 ^ 64 → TrimSpace (fmt_nat n) = fmt_nat n.
Proof.
  intros Hn. rewrite -{1}(sapp_nil_r (fmt_nat n)). apply GitConfig.TrimSpace_key; [| |done].
  - intros E. pose proof (ParseUint_fmt n 64 Hn) as H. rewrite E in H. vm_compute in H. discriminate.
  - apply (sforall_impl is_digit); [|apply digits_shape; [lia|done]]. intros c Hc. unfold GitConfig.key_char, is_alnum. rewrite Hc. by destruct (is_lower c), (is_upper c).
Qed.
Lemma gen_of_fmt n s : 0 <= n < 2 ^ 64 → gen s = Some (fmt_nat n) → gen_value s = Some n.
Proof. intros Hn Hs. unfold gen_value. rewrite Hs. rewrite TrimSpace_fmt; [|done]. by rewrite (ParseUint_fmt n 64 Hn). Qed.
Lemma gen_value_range s n : gen_value s = Some n → 0 <= n < 2 ^ 64.
Proof.
  unfold gen_value. destruct (gen s) as [t|]; [|intros [= <-]; lia]. destruct (ParseUint (TrimSpace t) 64) eqn:E; cbn; [|done..].
  intros [= <-]. exact (ParseUint_range _ 64 _ ltac:(lia) E).
Qed.
Lemma bump_safe s (Q : bool → sys → Prop) :
  inv p s → room s → (∀ s', Q false s') → (∀ n s', gen_value s = Some n → gen_value s' = Some (n + 1) → Q true s') →
  safe p (bumpSecretCacheGeneration o) s Q.
Proof.
  intros H Hroom Qf Qt. assert (∀ c, gen_le s (later c s)) as Hl by (intros c n Hn; exists n; split; [exact Hn|lia]).
  assert (∀ s', gen s' = Some "" → gen_le s s') as He by (intros s' E n Hn; unfold gen_value in Hn; rewrite E in Hn; vm_compute in Hn; discriminate).
  assert (∀ s', gen s' = gen s → gen_le s s') as Hg.
  { intros s' E n Hn. exists n. unfold gen_value in *. rewrite -E. split; [done|lia]. }
  assert (∀ s' a, (Err Crash : result crash bool) = Ok a → Q a s') as Q1 by done.
  assert (∀ s' a, (Ok false : result crash bool) = Ok a → Q a s') as Q2 by (intros s' a [= <-]; apply Qf).
  unfold post, bumpSecretCacheGeneration, secretCacheGeneration, syscall, gets, modify, mbind, op_bind, mret, op_ret.
  set (c0 := o (calls s)). destruct (c_dead c0); cbn; [apply same_safe; auto; cbn; lia|].
  destruct (c_ok c0); cbn; [|apply same_safe; auto; cbn; lia].
  change (gen_value (later c0 s)) with (gen_value s). destruct (gen_value s) as [n|] eqn:En; cbn; [|apply same_safe; auto; cbn; lia].
  set (c1 := o (S (calls s))). destruct (c_dead c1); cbn; [apply same_safe; auto; cbn; lia|].
  destruct (c_ok c1); cbn; [|apply same_safe; auto; cbn; lia].
  set (c2 := o (S (S (calls s)))). destruct (c_dead c2); cbn; [apply same_safe; auto; cbn; lia|].
  destruct (c_ok c2); cbn; [|apply same_safe; auto; cbn; lia].
  pose proof (gen_value_range s n En) as Hr. specialize (Hroom n En). set (s' := set_gen _ _).
  assert (gen_value s' = Some (n + 1)) as Hv by (apply gen_of_fmt; [lia|]; cbn; unfold u64; rewrite wrap_small; [done|lia]).
  apply same_safe; [done|done|cbn; lia| |].
  - intros k Hk. rewrite Hv in Hk. injection Hk as <-. exists n. split; [done|lia].
  - intros ? [= <-]. by apply (Qt n).
Qed.
Lemma generation_safe s : inv p s → safe p (secretCacheGeneration o) s (λ g s', gen_value s' = gen_value s ∧ ∀ n, g = Some n → gen_value s' = Some n).
Proof.
  intros H. unfold secretCacheGeneration. eapply post_then; [apply _|apply (syscall_safe s H)|].
  intros ok s1 H1 _ [c ->]. destruct ok; cbn; [|by apply post_ret; [apply _|..]]. by apply post_gets; [apply _|..].
Qed.
(** A purge that succeeds leaves no secret and a larger generation. *)
Lemma purge_safe secrets s :
  inv p s → room s → Forall (λ x, 0 <= rs_TTL x <= maxTTL) secrets →
  safe p (purgeWorkspaceSecretCache keeps hash configPath wsName order o secrets) s (λ ok s', ok = true →
    (∀ a v e d, ¬ cached s' a v e d) ∧ ∃ n, gen_value s = Some n ∧ ∀ n', gen_value s' = Some n' → n < n').
Proof using order_all.
  intros H Hroom Hl. unfold purgeWorkspaceSecretCache.
  eapply post_then; [apply _|apply (bump_safe s (λ ok s', ok = true → ∃ n, gen_value s = Some n ∧ gen_value s' = Some (n + 1)) H Hroom)|]; [done|eauto|].
  intros bumped s1 H1 _ Hb. cbn. eapply post_then; [apply _|apply (read_index_safe s1 H1)|]. intros r s2 H2 Hs2 Hr.
  set (full := match r with Some _ => true | None => false end).
  eapply post_then; [apply _|apply (add_configured_safe full secrets (default ∅ r) s2 H2); [|done]|].
  { destruct r as [idx|]; cbn; [destruct (Hr idx eq_refl); by split|]. split; [|done]. intros a x Hx. by rewrite lookup_empty in Hx. }
  intros pending s3 H3 Hs3 Hp. cbn. assert (∀ a e, (a, e) ∈ order pending → a ≠ index) as Hne.
  { intros a e Ha. rewrite order_all in Ha. apply elem_of_map_to_list in Ha. by apply (proj1 Hp a e). }
  eapply post_then; [apply _|exact (delete_all_safe full _ pending true s3 H3 Hp Hne)|].
  intros [left deleted] s4 H4 Hs4 [Hk Hd]. cbn in Hk, Hd. destruct r as [idx|]; [|by apply post_ret; [apply _|..]].
  eapply post_then; [apply _|apply write_index_safe; [done|destruct Hk as [G1 G2]; split; [by apply G2|done]]|].
  intros ok s5 H5 Hs5 _. apply post_ret; [apply _|done|]. intros E. apply andb_true_iff in E as [[-> ->]%andb_true_iff ->].
  destruct (Hd eq_refl) as [_ Hgone], (Hb eq_refl) as (n & Hn & Hn1). split.
  - intros a v e d Hc. apply Hs5 in Hc. pose proof Hc as Hc3. apply Hs4 in Hc3.
    destruct (proj2 Hp eq_refl a v e d Hc3) as (x & Hx & _). apply (Hgone a) with v e d; [|done].
    apply list_elem_of_fmap. exists (a, x). split; [done|]. rewrite order_all. by apply elem_of_map_to_list.
  - exists n. split; [done|]. intros n' Hn'. destruct (transitivity (transitivity Hs2 Hs3) (transitivity Hs4 Hs5)) as [[_ Hg] _].
    destruct (Hg n' Hn') as (k & Hk' & ?). rewrite Hn1 in Hk'. injection Hk' as <-. lia.
Qed.
(** A cached value is given out only while it has not expired. *)
Lemma read_cached_safe x s :
  inv p s → safe p (readCachedSecret hash configPath wsName o x) s (λ r _, ∀ v, r = Some v → since v = p).
Proof.
  intros H. unfold readCachedSecret, get. eapply post_then; [apply _| |].
  { eapply (post_then _ _ _ _ _ _ (λ r s', ∀ v e, r = Ok (KSecret v e) → ∃ d, kr s' !! account x = Some {| k_data := KSecret v e; k_deadline := d |} ∧
      alive (now s') {| k_data := KSecret v e; k_deadline := d |} = true) (syscall_safe s H)).
    intros ok s1 H1 _ _. destruct ok; cbn; [|by apply post_ret; [apply _|..]]. apply post_gets; [apply _|done|].
    destruct (kr s1 !! _) as [[kd dI]|] eqn:Hk; [|done]. destruct (alive _ _) eqn:Ha; [|done]. cbn. intros v e [= ->]. by exists dI. }
  intros r s1 H1 _ Hr. cbn. destruct r as [[idx|v e|]|]; try by apply post_ret; [apply _|..].
  eapply post_then; [apply _|apply (time_safe s1 H1)|]. intros t s2 H2 [[Hn _] _] ->. apply post_ret; [apply _|done|].
  intros v' Hv. destruct (negb _ || _) eqn:E; [done|]. injection Hv as <-. bool_hyps. destruct (Hr v e eq_refl) as (d & Hk & Ha).
  apply (in_cached _ _ H1 (account x) v e d). split; [done|]. split; [apply account_ne|]. split; [done|lia].
Qed.
Lemma before_safe x purge s :
  inv p s → room s → safe p (before_command hash configPath wsName o x purge) s (λ r s',
    (∀ g, r = Command (Some g) → gen_value s' = Some g) ∧
    (purge = false → ∀ v, r = Known (Ok v) → ∃ w, since w = p ∧ checkSecretValue x (out w) = Ok v)).
Proof.
  intros H Hroom. unfold before_command.
  assert (∀ s1, inv p s1 → safe p (g ← secretCacheGeneration o; mret (Command g)) s1 (λ r s',
    (∀ g, r = Command (Some g) → gen_value s' = Some g) ∧ (purge = false → ∀ v, r = Known (Ok v) → ∃ w, since w = p ∧ checkSecretValue x (out w) = Ok v))) as Hrun.
  { intros s1 H1. eapply post_then; [apply _|apply (generation_safe s1 H1)|]. intros g s2 H2 _ [_ Hg].
    apply post_ret; [apply _|done|]. split; [|done]. intros g' [= ->]. by apply Hg. }
  destruct purge.
  - eapply post_then; [apply _|apply (bump_safe s (λ _ _, True) H Hroom); done|]. intros ok s1 H1 _ _. destruct ok; cbn; [|by apply post_ret; [apply _|..]].
    eapply post_then; [apply _|apply delete_safe; [done|apply account_ne]|]. intros ok s2 H2 _ _. destruct ok; cbn; [by apply Hrun|by apply post_ret; [apply _|..]].
  - eapply post_then; [apply _|apply (read_cached_safe x s H)|]. intros [v|] s1 H1 _ Hv; cbn; [|by apply Hrun].
    apply post_ret; [apply _|done|]. split; [done|]. intros _ w [= Hw]. exists v. split; [by apply Hv|done].
Qed.
Lemma post_onward {A} (m : m A) s (Q : A → sys → Prop) : safe p m s Q → post (inv p) onward m s Q.
Proof. intros (H1 & [H2 _] & H3). by split. Qed.
(** Storing a value: the index lists it first. *)
Lemma set_secret_safe x v e ttl s :
  inv p s → since v = p → recorded (account x) e s → post (inv p) onward (set keeps o (account x) (KSecret v e) ttl) s (λ _ _, True).
Proof.
  intros H Hv (idx & y & (dI & Hi & Hd) & Hy & Hey). unfold set. destruct (_ && _); [by apply post_ret; [apply _|..]|].
  eapply post_then; [apply _|apply post_onward, (syscall_safe s H)|]. intros ok s1 H1 _ [c ->]. destruct ok; cbn; [|by apply post_ret; [apply _|..]].
  eapply (post_then _ _ _ _ _ (λ _ _, True)); [|by intros; apply post_ret; [apply _|..]].
  pose proof (account_ne x) as Hne. apply post_modify; [|apply onward_kr|done]. destruct H1 as [I1 I2 I3]. split; [| |done].
  - intros a w e' d' (H2 & H3 & H4). cbn in H2. cbn [kr set_kr]. rewrite (lookup_insert_ne _ (account x) index); [|done].
    destruct (decide (a = account x)) as [->|Ha].
    + rewrite lookup_insert_eq in H2. injection H2 as <- <- <-. split; [done|]. exists idx, dI, y. by split_and!; [..|apply (Hd _ _ Hy)].
    + rewrite lookup_insert_ne in H2; [|congruence]. apply (I1 a w e' d'). by split.
  - intros idx' dI' Hi'. cbn in Hi'. rewrite lookup_insert_ne in Hi'; [|done]. exact (I2 idx' dI' Hi').
Qed.
Lemma after_safe x g v s :
  inv p s → 0 < rs_TTL x <= maxTTL → (∀ n, g = Some n → gen_value s = Some n → since v = p) →
  post (inv p) onward (after_command keeps hash configPath wsName order o x g v) s (λ _ _, True).
Proof using order_all.
  intros H Ht Hv. unfold after_command. destruct g as [g|]; [|by apply post_ret; [apply _|..]].
  eapply post_then; [apply _|apply post_onward, (generation_safe s H)|]. intros cur s1 H1 _ [Hsame Hcur].
  case_bool_decide as E; [|by apply post_ret; [apply _|..]]. subst cur. rewrite Hsame in Hcur. specialize (Hv g eq_refl (Hcur g eq_refl)).
  unfold writeCachedSecretLocked. eapply post_then; [apply _|apply post_onward, (time_safe s1 H1)|]. intros t s2 H2 _ ->. cbn.
  pose proof (in_clock _ _ H2). eapply post_then; [apply _|apply post_onward, (record_safe (account x) (now s2 + rs_TTL x) s2 H2); [apply account_ne|lia]|].
  intros ok s3 H3 _ Hrec. destruct ok; cbn; [|by apply post_ret; [apply _|..]].
  eapply (post_then _ _ _ _ _ (λ _ s', recorded (account x) (now s2 + rs_TTL x) s')).
  { apply post_onward. unfold time. eapply post_then; [apply _|apply (syscall_safe s3 H3)|]. intros _ s4 H4 _ [c ->].
    apply post_gets; [apply _|done|]. exact (Hrec eq_refl). }
  intros t s4 H4 _ Hrec4. destruct (0 <? _); [|by apply post_ret; [apply _|..]].
  eapply post_then; [apply _|by apply set_secret_safe|]. intros _ s5 H5 _ _. by apply post_ret; [apply _|..].
Qed.
End Calls2.
(** *** Interleaved processes *)

Record world_ok (w : world) : Prop := {
  wo_inv : inv (w_purges w) (w_sys w);
  wo_flights : ∀ i f, w_flights w !! i = Some f → (fl_since f ≤ w_purges w)%nat ∧ 0 < rs_TTL (fl_secret f) <= maxTTL ∧
    ∀ g n, fl_gen f = Some g → gen_value (w_sys w) = Some n → g <= n ∧ ((fl_since f < w_purges w)%nat → g < n)
}.
Lemma flights_onward w s' i f :
  world_ok w → onward (w_sys w) s' → w_flights w !! i = Some f → (fl_since f ≤ w_purges w)%nat ∧ 0 < rs_TTL (fl_secret f) <= maxTTL ∧
    ∀ g n, fl_gen f = Some g → gen_value s' = Some n → g <= n ∧ ((fl_since f < w_purges w)%nat → g < n).
Proof.
  intros Hw [_ Hg] Hi. destruct (wo_flights w Hw i f Hi) as (H1 & H2 & H3). split; [done|]. split; [done|].
  intros g n' Hf Hn'. destruct (Hg n' Hn') as (n & Hn & Hle). destruct (H3 g n Hf Hn) as [H4 H5]. split; [lia|]. intros H. specialize (H5 H). lia.
Qed.
Lemma step_ok w w' :
  world_ok w → room (w_sys w) → step keeps hash configPath wsName order w w' → world_ok w'.
Proof using order_all.
  intros Hw Hroom Hstep. destruct Hstep as [s fs p d Hd|s fs p i o x purge r s' Hi Ht Hr|s fs p i f o value r s' Hi Hc Hr|s fs p i|s fs p o secrets r s' Hl Hr].
  - pose proof (wo_inv _ Hw) as Hinv. cbn in Hinv. set (s' := {| kr := kr s; now := now s + d; gen := gen s; calls := calls s |}).
    destruct (same_safe p (Err Crash : result crash ()) s s' (λ _ _, True) Hinv) as (H1 & [H2 _] & _); [done|cbn; lia|intros n Hn; exists n; split; [exact Hn|lia]|done|].
    split; [done|]. cbn. intros i f Hi. exact (flights_onward {| w_sys := s; w_flights := fs; w_purges := p |} s' i f Hw H2 Hi).
  - destruct (before_safe o p x purge s (wo_inv _ Hw) Hroom) as (H1 & [H2 _] & H3). rewrite Hr in H1, H2, H3. cbn in H1, H2, H3.
    split; [done|]. cbn. pose proof (λ j f, flights_onward {| w_sys := s; w_flights := fs; w_purges := p |} s' j f Hw H2) as Hold. cbn in Hold.
    intros j f Hj. destruct r as [[res|g]|e]; [exact (Hold _ _ Hj)| |exact (Hold _ _ Hj)].
    apply lookup_insert_Some in Hj as [[<- <-]|[_ Hj]]; [|exact (Hold _ _ Hj)]. cbn. split; [done|]. split; [done|].
    intros g' n -> Hn. destruct (H3 _ eq_refl) as [Hg _]. rewrite (Hg g' eq_refl) in Hn. injection Hn as <-. lia.
  - destruct (wo_flights _ Hw i f Hi) as (H1 & H2 & H3). cbn in H1, H3.
    destruct (after_safe o p (fl_secret f) (fl_gen f) {| out := value; since := fl_since f |} s (wo_inv _ Hw) H2) as (H4 & H5 & _).
    { intros n Hf Hn. cbn. destruct (H3 n n Hf Hn). destruct (decide (fl_since f < p)%nat); lia. }
    rewrite Hr in H4, H5. split; [done|]. cbn. intros j g [_ Hj]%lookup_delete_Some.
    exact (flights_onward {| w_sys := s; w_flights := fs; w_purges := p |} s' j g Hw H5 Hj).
  - split; [apply Hw|]. cbn. intros j g [_ Hj]%lookup_delete_Some. exact (wo_flights _ Hw j g Hj).
  - destruct (purge_safe o p secrets s (wo_inv _ Hw) Hroom Hl) as (H1 & [H2 _] & H3). rewrite Hr in H1, H2, H3. cbn in H1, H2, H3.
    pose proof (λ j f, flights_onward {| w_sys := s; w_flights := fs; w_purges := p |} s' j f Hw H2) as Hold. cbn in Hold.
    destruct r as [[|]|e]; [|by split|by split]. destruct (H3 true eq_refl eq_refl) as (Hno & n & Hn & Hlt). destruct H1 as [I1 I2 I3].
    split; [split; [intros a v e d Hc; by destruct (Hno a v e d)|exact I2|exact I3]|]. cbn. intros j f Hj.
    destruct (wo_flights _ Hw j f Hj) as (H4 & H5 & H6). cbn in H4, H6. split; [lia|]. split; [done|].
    intros g n' Hg Hn'. destruct (H6 g n Hg Hn). specialize (Hlt n' Hn'). lia.
Qed.
Lemma reached_ok w : reached keeps hash configPath wsName order w → world_ok w.
Proof using order_all.
  intros H. induction H as [t Ht|w w' _ IH Hroom Hs]; [|by apply (step_ok w)].
  split; cbn; [|intros i f Hi; by rewrite lookup_empty in Hi]. split; [|intros idx dI Hi; by rewrite lookup_empty in Hi|done].
  intros a v e d [Hc _]. by rewrite lookup_empty in Hc.
Qed.
End Properties.


(** A write of the generation that fails leaves the file empty, and then every
    later purge reports an error. *)
Lemma stuck_generation o s : gen s = Some "" → (bumpSecretCacheGeneration o s).1 ≠ Ok true ∧ gen (bumpSecretCacheGeneration o s).2 = Some "".
Proof.
  intros H. unfold bumpSecretCacheGeneration, secretCacheGeneration, syscall, gets, mbind, op_bind, mret, op_ret.
  destruct (c_dead (o (calls s))); cbn; [done|]. destruct (c_ok (o (calls s))); cbn; [|done].
  assert (gen_value (later (o (calls s)) s) = None) as -> by (unfold gen_value; cbn; rewrite H; vm_compute; reflexivity). done.
Qed.

(** ** Witness: a command run, its value cached, a purge, and the command again *)

Definition quick (n : nat) : call := {| c_dt := 1; c_ok := true; c_dead := false |}.
Definition lab_secret : ResolvedSecret :=
  {| rs_Name := "TOKEN"; rs_Kind := SecretKindEnv; rs_FromEnv := ""; rs_FromFile := ""; rs_FromCommand := "pass show token"; rs_TTL := 3600 * second |}.
Definition lab_order (m : gmap string Z) : list (string * Z) := map_to_list m.
Notation lab f := (f false (λ s, s) "/c" "w" lab_order) (only parsing).
Definition lab_start (w : world) : world :=
  let '(r, s) := before_command (λ s, s) "/c" "w" quick lab_secret false (w_sys w) in
  {| w_sys := s; w_purges := w_purges w;
     w_flights := match r with Ok (Command g) => <[0%nat := {| fl_secret := lab_secret; fl_gen := g; fl_since := w_purges w |}]> (w_flights w)
                  | _ => w_flights w end |}.
Definition lab_cached (w : world) : world :=
  match w_flights w !! 0%nat with
  | Some f => {| w_sys := (lab after_command quick (fl_secret f) (fl_gen f) {| out := "s3cret"; since := fl_since f |} (w_sys w)).2;
                 w_flights := delete 0%nat (w_flights w); w_purges := w_purges w |}
  | None => w
  end.
Definition lab_purge (w : world) : world :=
  let '(r, s) := lab purgeWorkspaceSecretCache quick [lab_secret] (w_sys w) in
  {| w_sys := s; w_flights := w_flights w; w_purges := match r with Ok true => S (w_purges w) | _ => w_purges w end |}.
Definition lab0 : world := {| w_sys := {| kr := ∅; now := 0; gen := None; calls := 0 |}; w_flights := ∅; w_purges := 0 |}.
Definition lab_world : world := lab_cached (lab_start (lab_purge (lab_cached (lab_start lab0)))).
Example lab_run : w_purges lab_world = 1%nat ∧ gen (w_sys lab_world) = Some "1" ∧ size (kr (w_sys lab_world)) = 2%nat ∧
  (before_command (λ s, s) "/c" "w" quick lab_secret false (w_sys lab_world)).1 = Ok (Known (Ok "s3cret")).
Proof. vm_compute. auto. Qed.
(** A purge while the command runs: its value is not stored. *)
Example lab_race : size (kr (w_sys (lab_cached (lab_purge (lab_start lab0))))) = 0%nat.
Proof. vm_compute. reflexivity. Qed.
Lemma room_any s n : gen_value s = Some n → n < 2 ^ 64 - 1 → room s.
Proof. intros H Hn k Hk. rewrite H in Hk. injection Hk as <-. done. Qed.
Lemma lab_start_step w : w_flights w !! 0%nat = None → lab step w (lab_start w).
Proof.
  intros H. destruct w as [s fs p]. unfold lab_start. cbn [w_sys w_flights w_purges]. destruct (before_command (λ s, s) "/c" "w" quick lab_secret false s) as [r s'] eqn:E.
  refine (StepStart false (λ s, s) "/c" "w" lab_order s fs p 0%nat quick lab_secret false r s' H _ E). split; vm_compute; [done|discriminate].
Qed.
Lemma lab_cached_step w : option_map fl_secret (w_flights w !! 0%nat) = Some lab_secret → lab step w (lab_cached w).
Proof.
  intros H. destruct w as [s fs p]. unfold lab_cached. cbn [w_sys w_flights w_purges] in *. destruct (fs !! 0%nat) as [f|] eqn:Hf; [|done]. injection H as H.
  refine (StepCached false (λ s, s) "/c" "w" lab_order s fs p 0%nat f quick "s3cret" _ _ Hf _ (surjective_pairing _)). by rewrite H.
Qed.
Lemma lab_purge_step w : lab step w (lab_purge w).
Proof.
  destruct w as [s fs p]. unfold lab_purge. cbn [w_sys w_flights w_purges]. destruct (lab purgeWorkspaceSecretCache quick [lab_secret] s) as [r s'] eqn:E.
  refine (StepPurge false (λ s, s) "/c" "w" lab_order s fs p quick [lab_secret] r s' _ E). constructor; [|done]. split; vm_compute; discriminate.
Qed.
Lemma lab_world_reached : lab reached lab_world.
Proof.
  assert (lab reached lab0) as H0 by (apply ReachedStart; vm_compute; discriminate).
  assert (lab reached (lab_start lab0)) as H1.
  { refine (ReachedStep _ _ _ _ _ _ _ H0 _ (lab_start_step _ _)); [refine (room_any _ 0 _ _)|]; vm_compute; reflexivity. }
  assert (lab reached (lab_cached (lab_start lab0))) as H2.
  { refine (ReachedStep _ _ _ _ _ _ _ H1 _ (lab_cached_step _ _)); [refine (room_any _ 0 _ _)|]; vm_compute; reflexivity. }
  assert (lab reached (lab_purge (lab_cached (lab_start lab0)))) as H3.
  { refine (ReachedStep _ _ _ _ _ _ _ H2 _ (lab_purge_step _)). refine (room_any _ 0 _ _); vm_compute; reflexivity. }
  assert (lab reached (lab_start (lab_purge (lab_cached (lab_start lab0))))) as H4.
  { refine (ReachedStep _ _ _ _ _ _ _ H3 _ (lab_start_step _ _)); [refine (room_any _ 1 _ _)|]; vm_compute; reflexivity. }
  refine (ReachedStep _ _ _ _ _ _ _ H4 _ (lab_cached_step _ _)); [refine (room_any _ 1 _ _)|]; vm_compute; reflexivity.
Qed.
