(* ===== verification/AtomicFile.v ===== *)
(** * Replacing a file while others read and write it

    [WriteSpec], [writeState], [writeFileAtomic] and [WriteControl] of
    [src/internal/vm/vm.go] and [writeInfo] of
    [src/internal/guest/session/store.go] replace a file by writing a temporary
    one and renaming it. Here they run system call by system call, interleaved
    with each other, over names and inodes: [WriteSpec] makes a new temporary
    file ([os.CreateTemp]) and removes it at the end, the others write to a fixed
    name next to the file. Any call may fail, and a write may be cut short. *)

From S2P Require Import Prelude GoStrings.
Open Scope string_scope.
Open Scope list_scope.

(** Directory entries and file contents. *)
Record disk := { names : gmap string nat; inodes : gmap nat string }.
Definition seen (d : disk) (name : string) : option string := names d !! name ≫= λ i, inodes d !! i.

(** A write at an offset: a hole reads as NUL bytes. *)
Fixpoint zeros (n : nat) : string := match n with O => "" | S n => String Ascii.zero (zeros n) end.
Definition write_at (content : string) (off : nat) (a : string) : string :=
  stake off (content +:+ zeros (off - String.length content)) +:+ a +:+ sdrop (off + String.length a) content.

(** A call in progress: the file it replaces, its temporary name, the data, and
    whether the name is a new one. *)
Inductive pc := Start | Writing (inode : nat) (written rest : string) | Ready (inode : nat) | Cleanup (ok : bool) | Done (ok : bool).
Record writer := { w_dst : string; w_tmp : string; w_data : string; w_temp : bool; w_pc : pc }.
Definition at_pc (w : writer) (p : pc) : writer := {| w_dst := w_dst w; w_tmp := w_tmp w; w_data := w_data w; w_temp := w_temp w; w_pc := p |}.
(** [WriteSpec] removes the temporary file whatever happened. *)
Definition finish (w : writer) (ok : bool) : writer := at_pc w (if w_temp w then Cleanup ok else Done ok).

Inductive call : writer → disk → writer → disk → Prop :=
| CallFail w d : w_pc w = Start → call w d (at_pc w (Done false)) d
| CallCreate w d i :                                (* O_CREATE, exclusively or not: the name is free *)
    w_pc w = Start → names d !! w_tmp w = None → inodes d !! i = None →
    call w d (at_pc w (Writing i "" (w_data w))) {| names := <[w_tmp w := i]> (names d); inodes := <[i := ""]> (inodes d) |}
| CallTruncate w d i :                              (* O_TRUNC of the fixed name *)
    w_pc w = Start → w_temp w = false → names d !! w_tmp w = Some i →
    call w d (at_pc w (Writing i "" (w_data w))) {| names := names d; inodes := <[i := ""]> (inodes d) |}
| CallWrite w d i written a rest content :
    w_pc w = Writing i written (a +:+ rest) → inodes d !! i = Some content →
    call w d (at_pc w (Writing i (written +:+ a) rest))
      {| names := names d; inodes := <[i := write_at content (String.length written) a]> (inodes d) |}
| CallWriteFail w d i written rest : w_pc w = Writing i written rest → call w d (finish w false) d
| CallClose w d i written : w_pc w = Writing i written "" → call w d (at_pc w (Ready i)) d
| CallRename w d i j :                              (* whatever the temporary name is now *)
    w_pc w = Ready i → names d !! w_tmp w = Some j →
    call w d (finish w true) {| names := <[w_dst w := j]> (delete (w_tmp w) (names d)); inodes := inodes d |}
| CallRenameFail w d i : w_pc w = Ready i → call w d (finish w false) d
| CallRemove w d ok : w_pc w = Cleanup ok → call w d (at_pc w (Done ok)) {| names := delete (w_tmp w) (names d); inodes := inodes d |}
| CallRemoveFail w d ok : w_pc w = Cleanup ok → call w d (at_pc w (Done ok)) d.

(** Calls of several processes, interleaved. *)
Definition active (w : writer) : bool := match w_pc w with Writing _ _ _ | Ready _ | Cleanup _ => true | _ => false end.
(** No two calls in progress share a temporary name. *)
Definition exclusive (l : list writer) : Prop :=
  ∀ j k v w, l !! j = Some v → l !! k = Some w → active v = true → active w = true → w_tmp v = w_tmp w → j = k.
Inductive runs (ok : list writer → Prop) (d0 : disk) (l0 : list writer) : disk → list writer → Prop :=
| RunsStart : runs ok d0 l0 d0 l0
| RunsCall d l k w w' d' :
    runs ok d0 l0 d l → l !! k = Some w → call w d w' d' → ok (<[k := w']> l) → runs ok d0 l0 d' (<[k := w']> l).

(** ** Properties *)

Definition renamed (w : writer) : bool := match w_pc w with Cleanup true | Done true => true | _ => false end.
(** What holds of a call in progress. *)
Definition writer_ok (d : disk) (w : writer) : Prop :=
  match w_pc w with
  | Writing i written rest => names d !! w_tmp w = Some i ∧ inodes d !! i = Some written ∧ written +:+ rest = w_data w
  | Ready i => names d !! w_tmp w = Some i ∧ inodes d !! i = Some (w_data w)
  | _ => True
  end.
(** A directory without hard links. *)
Definition plain_disk (d : disk) : Prop :=
  (∀ a b i, names d !! a = Some i → names d !! b = Some i → a = b) ∧ ∀ a i, names d !! a = Some i → is_Some (inodes d !! i).
Record system_ok (dst : string) (init : option string) (d : disk) (l : list writer) : Prop := {
  so_plain : plain_disk d;
  so_writer : ∀ w, w ∈ l → writer_ok d w;
  so_dst : ∀ w, w ∈ l → w_dst w = dst ∧ w_tmp w ≠ dst;
  so_excl : exclusive l;
  so_seen : (seen d dst = init ∧ ∀ w, w ∈ l → renamed w = false) ∨ ∃ w, w ∈ l ∧ renamed w = true ∧ seen d dst = Some (w_data w)
}.

Lemma write_at_end s a : write_at s (String.length s) a = s +:+ a.
Proof.
  unfold write_at. rewrite Nat.sub_diag sapp_nil_r.
  assert (stake (String.length s) s = s) as -> by (rewrite -{2}(sapp_nil_r s); apply stake_app).
  assert (sdrop (String.length s + String.length a) s = "") as ->; [|by rewrite sapp_nil_r].
  generalize (String.length a) as n. induction s as [|c s IH]; intros n; [by destruct n|exact (IH n)].
Qed.
(** Another call in progress keeps what it has when this one leaves its name and
    its inode alone. *)
Lemma writer_ok_frame d d' v :
  writer_ok d v →
  (active v = true → ∀ i, names d !! w_tmp v = Some i → is_Some (inodes d !! i) →
    names d' !! w_tmp v = Some i ∧ inodes d' !! i = inodes d !! i) →
  writer_ok d' v.
Proof.
  unfold writer_ok, active. destruct (w_pc v); try done.
  - intros (Hn & Hi & He) H. destruct (H eq_refl _ Hn ltac:(by rewrite Hi; eexists)) as [H1 H2]. by rewrite H1 H2.
  - intros (Hn & Hi) H. destruct (H eq_refl _ Hn ltac:(by rewrite Hi; eexists)) as [H1 H2]. by rewrite H1 H2.
Qed.
Lemma tmp_distinct l k w v w' :
  exclusive (<[k := w']> l) → l !! k = Some w → active w' = true → w_tmp w' = w_tmp w →
  ∀ j, l !! j = Some v → j ≠ k → active v = true → w_tmp v ≠ w_tmp w.
Proof.
  intros He Hk Ha Ht j Hj Hne Hv Heq. apply Hne. apply (He j k v w'); [rewrite list_lookup_insert_ne; congruence| |done|done|congruence].
  apply list_lookup_insert_eq. by apply lookup_lt_Some in Hk.
Qed.

Section Step.
Context (dst : string) (init : option string) (d : disk) (l : list writer) (k : nat) (w w' : writer).
Context (Hok : system_ok dst init d l) (Hk : l !! k = Some w) (Hex : exclusive (<[k := w']> l)).
Context (Hdst : w_dst w' = w_dst w) (Htmp : w_tmp w' = w_tmp w) (Hdata : w_data w' = w_data w).

Lemma in_l : w ∈ l.
Proof using Hk. exact (list_elem_of_lookup_2 _ _ _ Hk). Qed.
(** What remains to show of a step: the disk stays injective, the caller and
    the others stay in order, and the file is as it was or the caller's. *)
Lemma step_intro d' :
  plain_disk d' →
  writer_ok d' w' →
  (∀ j v, l !! j = Some v → j ≠ k → active v = true → ∀ i, names d !! w_tmp v = Some i → is_Some (inodes d !! i) →
    names d' !! w_tmp v = Some i ∧ inodes d' !! i = inodes d !! i) →
  (renamed w' = renamed w ∧ seen d' dst = seen d dst ∨ renamed w' = true ∧ seen d' dst = Some (w_data w)) →
  system_ok dst init d' (<[k := w']> l).
Proof using All.
  intros Hinj Hw Hothers Hseen.
  assert (∀ v, v ∈ <[k := w']> l → v = w' ∨ ∃ j, l !! j = Some v ∧ j ≠ k) as Hin.
  { intros v [j Hj]%list_elem_of_lookup. destruct (decide (j = k)) as [->|Hne].
    - rewrite list_lookup_insert_eq in Hj; [|exact (lookup_lt_Some _ _ _ Hk)]. left. congruence.
    - rewrite list_lookup_insert_ne in Hj; [|congruence]. right. by exists j. }
  assert (w' ∈ <[k := w']> l) as Hin'.
  { apply (list_elem_of_lookup_2 _ k). apply list_lookup_insert_eq. exact (lookup_lt_Some _ _ _ Hk). }
  split; [done| | |done|].
  - intros v [->|(j & Hj & Hne)]%Hin; [done|]. apply (writer_ok_frame d); [apply (so_writer _ _ _ _ Hok); exact (list_elem_of_lookup_2 _ _ _ Hj)|].
    by apply (Hothers j).
  - intros v [->|(j & Hj & Hne)]%Hin; [rewrite Hdst Htmp; apply (so_dst _ _ _ _ Hok), in_l|].
    apply (so_dst _ _ _ _ Hok). exact (list_elem_of_lookup_2 _ _ _ Hj).
  - destruct Hseen as [[Hr ->]|[Hr Hs]]; [|right; exists w'; by rewrite Hdata].
    destruct (so_seen _ _ _ _ Hok) as [[Hs Hno]|(v & [j Hj]%list_elem_of_lookup & Hrv & Hs)].
    { left. split; [done|]. intros v [->|(j & Hj & _)]%Hin; [rewrite Hr; apply Hno, in_l|apply Hno; exact (list_elem_of_lookup_2 _ _ _ Hj)]. }
    right. destruct (decide (j = k)) as [->|Hne].
    + assert (v = w) as -> by congruence. exists w'. rewrite Hdata. split_and!; congruence.
    + exists v. split; [|done]. apply (list_elem_of_lookup_2 _ j). rewrite list_lookup_insert_ne; congruence.
Qed.
End Step.
Lemma seen_frame d d' dst :
  names d' !! dst = names d !! dst → (∀ i, names d !! dst = Some i → inodes d' !! i = inodes d !! i) → seen d' dst = seen d dst.
Proof. intros Hn Hi. unfold seen. rewrite Hn. destruct (names d !! dst) as [i|] eqn:E; [|done]. by apply Hi. Qed.

(** The three ways a call changes the disk: the content of its own inode, a new
    name with a new inode, and its name moved or removed. *)
Section Change.
Context (dst : string) (init : option string) (d : disk) (l : list writer) (k : nat) (w w' : writer).
Context (Hok : system_ok dst init d l) (Hk : l !! k = Some w) (Hex : exclusive (<[k := w']> l)).
Context (Hdst : w_dst w' = w_dst w) (Htmp : w_tmp w' = w_tmp w) (Hdata : w_data w' = w_data w).
Context (Hsep : ∀ j v, l !! j = Some v → j ≠ k → active v = true → w_tmp v ≠ w_tmp w).

Lemma change_content i s :
  names d !! w_tmp w = Some i → renamed w' = renamed w →
  writer_ok {| names := names d; inodes := <[i := s]> (inodes d) |} w' →
  system_ok dst init {| names := names d; inodes := <[i := s]> (inodes d) |} (<[k := w']> l).
Proof using All.
  intros Hn Hr Hw. destruct (so_plain _ _ _ _ Hok) as [Hinj Hlive].
  destruct (so_dst _ _ _ _ Hok w (list_elem_of_lookup_2 _ _ _ Hk)) as [_ Ht].
  apply (step_intro dst init d l k w _ Hok Hk Hex); try done; cbn [names inodes].
  - split; [done|]. cbn. intros a n Ha. apply lookup_insert_is_Some'. right. by apply (Hlive a).
  - intros j v Hj Hne Hv n Hvn Hvi. cbn. rewrite lookup_insert_ne; [done|]. intros ->. by apply (Hsep j v Hj Hne Hv), (Hinj _ _ n).
  - left. split; [done|]. apply seen_frame; [done|]. cbn. intros n Hdn. rewrite lookup_insert_ne; [done|]. intros ->. by apply Ht, (Hinj _ _ n).
Qed.
Lemma change_create i :
  names d !! w_tmp w = None → inodes d !! i = None → renamed w' = renamed w →
  writer_ok {| names := <[w_tmp w := i]> (names d); inodes := <[i := ""]> (inodes d) |} w' →
  system_ok dst init {| names := <[w_tmp w := i]> (names d); inodes := <[i := ""]> (inodes d) |} (<[k := w']> l).
Proof using All.
  intros Hn Hi Hr Hw. destruct (so_plain _ _ _ _ Hok) as [Hinj Hlive].
  destruct (so_dst _ _ _ _ Hok w (list_elem_of_lookup_2 _ _ _ Hk)) as [_ Ht].
  apply (step_intro dst init d l k w _ Hok Hk Hex); try done; cbn [names inodes].
  - split; cbn.
    + intros a b n Ha Hb. apply lookup_insert_Some in Ha as [[<- <-]|[? Ha]], Hb as [[<- E]|[? Hb]]; try done.
      1: destruct (Hlive _ _ Hb); congruence. 1: subst; destruct (Hlive _ _ Ha); congruence. by apply (Hinj _ _ n).
    + intros a n Ha. apply lookup_insert_is_Some'. apply lookup_insert_Some in Ha as [[<- <-]|[? Ha]]; [by left|right; by apply (Hlive a)].
  - intros j v Hj Hne Hv n Hvn Hvi. cbn. rewrite !lookup_insert_ne; [done|intros ->; by destruct Hvi; simplify_eq|congruence].
  - left. split; [done|]. apply seen_frame; cbn; [by rewrite lookup_insert_ne|]. intros n Hdn. rewrite lookup_insert_ne; [done|].
    intros ->. destruct (Hlive _ _ Hdn). congruence.
Qed.
Lemma change_rename i :
  names d !! w_tmp w = Some i → inodes d !! i = Some (w_data w) → renamed w' = true →
  (∀ d', writer_ok d' w') →
  system_ok dst init {| names := <[w_dst w := i]> (delete (w_tmp w) (names d)); inodes := inodes d |} (<[k := w']> l).
Proof using All.
  intros Hn Hi Hr Hw. destruct (so_plain _ _ _ _ Hok) as [Hinj Hlive].
  destruct (so_dst _ _ _ _ Hok w (list_elem_of_lookup_2 _ _ _ Hk)) as [Hd Ht].
  apply (step_intro dst init d l k w _ Hok Hk Hex); try done; cbn [names inodes].
  - split; cbn.
    + intros a b n Ha Hb. apply lookup_insert_Some in Ha as [[<- <-]|[? Ha]], Hb as [[<- E]|[? Hb]]; try done.
      * apply lookup_delete_Some in Hb as [? Hb]. by destruct (Hinj _ _ _ Hn Hb).
      * subst. apply lookup_delete_Some in Ha as [? Ha]. by destruct (Hinj _ _ _ Hn Ha).
      * apply lookup_delete_Some in Ha as [_ Ha], Hb as [_ Hb]. by apply (Hinj _ _ n).
    + intros a n Ha. apply lookup_insert_Some in Ha as [[<- <-]|[? Ha]]; [by apply (Hlive (w_tmp w))|].
      apply lookup_delete_Some in Ha as [_ Ha]. by apply (Hlive a).
  - intros j' v Hj Hne Hv n Hvn Hvi. cbn. rewrite lookup_insert_ne.
    + rewrite lookup_delete_ne; [done|]. intros E. by destruct (Hsep j' v Hj Hne Hv).
    + destruct (so_dst _ _ _ _ Hok v (list_elem_of_lookup_2 _ _ _ Hj)). congruence.
  - right. split; [done|]. unfold seen. cbn. by rewrite Hd lookup_insert_eq.
Qed.
Lemma change_remove :
  renamed w' = renamed w → (∀ d', writer_ok d' w') →
  system_ok dst init {| names := delete (w_tmp w) (names d); inodes := inodes d |} (<[k := w']> l).
Proof using All.
  intros Hr Hw. destruct (so_plain _ _ _ _ Hok) as [Hinj Hlive].
  destruct (so_dst _ _ _ _ Hok w (list_elem_of_lookup_2 _ _ _ Hk)) as [_ Ht].
  apply (step_intro dst init d l k w _ Hok Hk Hex); try done; cbn [names inodes].
  - split; cbn.
    + intros a b n [_ Ha]%lookup_delete_Some [_ Hb]%lookup_delete_Some. by apply (Hinj _ _ n).
    + intros a n [_ Ha]%lookup_delete_Some. by apply (Hlive a).
  - intros j v Hj Hne Hv n Hvn Hvi. cbn. rewrite lookup_delete_ne; [done|]. intros E. by destruct (Hsep j v Hj Hne Hv).
  - left. split; [done|]. apply seen_frame; [|done]. cbn. by rewrite lookup_delete_ne.
Qed.
(** Calls that fail or only close a file. *)
Lemma change_nothing : renamed w' = renamed w → writer_ok d w' → system_ok dst init d (<[k := w']> l).
Proof using Hok Hk Hex Hdst Htmp Hdata. intros Hr Hw. apply (step_intro dst init d l k w _ Hok Hk Hex); auto. apply (so_plain _ _ _ _ Hok). Qed.
End Change.

Lemma finish_ok d w b : writer_ok d (finish w b).
Proof. unfold finish, writer_ok. by destruct (w_temp w). Qed.
(** The side conditions of the lemmas above, for a call at the point [Hp] says. *)
Ltac call_side Hsep Hp :=
  auto using finish_ok;
  match goal with
  | |- ∀ j v, _ → _ → _ → _ => apply Hsep; unfold active; rewrite ?Hp; auto
  | |- renamed ?v' = renamed _ => unfold renamed, finish; rewrite ?Hp; by repeat case_match
  | |- renamed _ = true => unfold renamed, finish
  | |- writer_ok _ _ => unfold writer_ok; cbn; rewrite ?lookup_insert_eq; try done
  end.
Lemma call_ok dst init d l k w w' d' :
  system_ok dst init d l → l !! k = Some w → call w d w' d' → exclusive (<[k := w']> l) → system_ok dst init d' (<[k := w']> l).
Proof.
  intros Hok Hk Hc Hex. pose proof (so_writer _ _ _ _ Hok w (list_elem_of_lookup_2 _ _ _ Hk)) as Hw.
  assert (w_dst w' = w_dst w ∧ w_tmp w' = w_tmp w ∧ w_data w' = w_data w) as (Hd & Ht & Ha) by by destruct Hc.
  assert (active w = true ∨ active w' = true → ∀ j v, l !! j = Some v → j ≠ k → active v = true → w_tmp v ≠ w_tmp w) as Hsep.
  { intros [Hact|Hact] j v; [|exact (tmp_distinct l k w v w' Hex Hk Hact Ht j)].
    refine (tmp_distinct l k w v w _ Hk Hact eq_refl j). rewrite list_insert_id //. apply (so_excl _ _ _ _ Hok). }
  unfold writer_ok in Hw.
  destruct Hc as [w d Hp|w d i Hp Hn Hi|w d i Hp Htmp Hn|w d i wr a rest content Hp Hi|w d i wr rest Hp|w d i wr Hp|w d i j Hp Hn|w d i Hp|w d ok Hp|w d ok Hp];
    rewrite Hp in Hw.
  - apply (change_nothing dst init d l k w); call_side Hsep Hp.
  - apply (change_create dst init d l k w); call_side Hsep Hp.
  - apply (change_content dst init d l k w); call_side Hsep Hp.
  - destruct Hw as (Hn & Hi' & He). rewrite Hi' in Hi. injection Hi as <-.
    apply (change_content dst init d l k w); call_side Hsep Hp. rewrite write_at_end. split_and!; [done|done|by rewrite -sapp_assoc].
  - apply (change_nothing dst init d l k w); call_side Hsep Hp.
  - apply (change_nothing dst init d l k w); call_side Hsep Hp. destruct Hw as (? & ? & <-). by rewrite sapp_nil_r.
  - destruct Hw as (Hn' & Hi). rewrite Hn' in Hn. injection Hn as <-.
    apply (change_rename dst init d l k w); call_side Hsep Hp. by destruct (w_temp w).
  - apply (change_nothing dst init d l k w); call_side Hsep Hp.
  - apply (change_remove dst init d l k w); call_side Hsep Hp.
  - apply (change_nothing dst init d l k w); call_side Hsep Hp.
Qed.

Lemma runs_ok d0 l0 dst d l :
  runs exclusive d0 l0 d l → plain_disk d0 → (∀ w, w ∈ l0 → w_pc w = Start ∧ w_dst w = dst ∧ w_tmp w ≠ dst) → system_ok dst (seen d0 dst) d l.
Proof.
  intros Hr Hp Hl. induction Hr as [|d l k w w' d' _ IH Hk Hc Hex]; [|exact (call_ok _ _ _ _ _ _ _ _ IH Hk Hc Hex)].
  split; [done| | | |].
  - intros w Hw. unfold writer_ok. by rewrite (proj1 (Hl w Hw)).
  - intros w Hw. apply (Hl w Hw).
  - intros j k v w Hv _ Ha. unfold active in Ha. by rewrite (proj1 (Hl v (list_elem_of_lookup_2 _ _ _ Hv))) in Ha.
  - left. split; [done|]. intros w Hw. unfold renamed. by rewrite (proj1 (Hl w Hw)).
Qed.

(** C21: while calls that replace the same file are interleaved in any order and
    fail anywhere, and no two in progress share a temporary name, a reader sees
    the old file (or none) until the first rename and from then on the whole
    data of a call that renamed: never a part, a mixture or no file. *)
Theorem atomic_replace d0 l0 dst d l :
  plain_disk d0 → (∀ w, w ∈ l0 → w_pc w = Start ∧ w_dst w = dst ∧ w_tmp w ≠ dst) → runs exclusive d0 l0 d l →
  seen d dst = seen d0 dst ∧ (∀ w, w ∈ l → renamed w = false) ∨
  ∃ w, w ∈ l ∧ renamed w = true ∧ seen d dst = Some (w_data w).
Proof. intros Hp Hl Hr. exact (so_seen _ _ _ _ (runs_ok _ _ _ _ _ Hr Hp Hl)). Qed.

(** Executions computed step by step. *)
Inductive op := OFail | OCreate (inode : nat) | OTruncate | OWrite (n : nat) | OClose | ORename | ORemove.
Definition perform (o : op) (w : writer) (d : disk) : option (writer * disk) :=
  match o, w_pc w with
  | OFail, Start => Some (at_pc w (Done false), d)
  | OCreate i, Start =>
      match names d !! w_tmp w, inodes d !! i with
      | None, None => Some (at_pc w (Writing i "" (w_data w)), {| names := <[w_tmp w := i]> (names d); inodes := <[i := ""]> (inodes d) |})
      | _, _ => None
      end
  | OTruncate, Start =>
      match w_temp w, names d !! w_tmp w with
      | false, Some i => Some (at_pc w (Writing i "" (w_data w)), {| names := names d; inodes := <[i := ""]> (inodes d) |})
      | _, _ => None
      end
  | OWrite n, Writing i written rest =>
      match inodes d !! i with
      | Some content => let a := stake n rest in
          Some (at_pc w (Writing i (written +:+ a) (sdrop n rest)),
                {| names := names d; inodes := <[i := write_at content (String.length written) a]> (inodes d) |})
      | None => None
      end
  | OClose, Writing i _ "" => Some (at_pc w (Ready i), d)
  | ORename, Ready i =>
      match names d !! w_tmp w with
      | Some j => Some (finish w true, {| names := <[w_dst w := j]> (delete (w_tmp w) (names d)); inodes := inodes d |})
      | None => None
      end
  | ORemove, Cleanup ok => Some (at_pc w (Done ok), {| names := delete (w_tmp w) (names d); inodes := inodes d |})
  | _, _ => None
  end.
Lemma perform_call o w d w' d' : perform o w d = Some (w', d') → call w d w' d'.
Proof.
  unfold perform. intros H. destruct o, (w_pc w) eqn:Hp; try done; repeat case_match; simplify_eq; try by econstructor.
  - apply CallWrite; [by rewrite stake_sdrop|done].
  - exact (CallClose _ _ _ _ Hp).
  - by eapply CallRename; [exact Hp|].
Qed.
(** At most one call in progress for each temporary name. *)
Definition exclusiveb (l : list writer) : bool :=
  forallb (λ j, forallb (λ k,
    match l !! j, l !! k with
    | Some v, Some w => implb (active v && active w && (w_tmp v =? w_tmp w)%string) (Nat.eqb j k)
    | _, _ => true
    end) (seq 0 (List.length l))) (seq 0 (List.length l)).
Lemma exclusiveb_ok l : exclusiveb l = true → exclusive l.
Proof.
  unfold exclusiveb. intros H j k v w Hv Hw Ha Hb Ht.
  apply (proj1 (forallb_forall _ _)) with (x := j) in H; [|apply in_seq; apply lookup_lt_Some in Hv; lia].
  apply (proj1 (forallb_forall _ _)) with (x := k) in H; [|apply in_seq; apply lookup_lt_Some in Hw; lia].
  rewrite Hv Hw Ha Hb Ht String.eqb_refl in H. by apply Nat.eqb_eq.
Qed.
Fixpoint run_ops (check : list writer → bool) (ops : list (nat * op)) (d : disk) (l : list writer) : option (disk * list writer) :=
  match ops with
  | [] => Some (d, l)
  | (k, o) :: ops =>
      match l !! k with
      | None => None
      | Some w => match perform o w d with
                  | Some (w', d') => let l' := <[k := w']> l in if check l' then run_ops check ops d' l' else None
                  | None => None
                  end
      end
  end.
Lemma run_ops_runs (ok : list writer → Prop) check ops d0 l0 d l d' l' :
  (∀ l, check l = true → ok l) → runs ok d0 l0 d l → run_ops check ops d l = Some (d', l') → runs ok d0 l0 d' l'.
Proof.
  intros Hc. revert d l. induction ops as [|[k o] ops IH]; intros d l Hr H; cbn in H; [by simplify_eq|].
  destruct (l !! k) as [w|] eqn:Hk; [|done]. destruct (perform o w d) as [[w1 d1]|] eqn:Hp; [|done].
  destruct (check _) eqn:E; [|done]. refine (IH _ _ _ H). exact (RunsCall ok _ _ d l k w w1 d1 Hr Hk (perform_call _ _ _ _ _ Hp) (Hc _ E)).
Qed.

Definition spec_call : writer := {| w_dst := "spec"; w_tmp := "spec.json7"; w_data := "{}"; w_temp := true; w_pc := Start |}.
Definition fixed_call (data : string) : writer := {| w_dst := "spec"; w_tmp := "spec.tmp"; w_data := data; w_temp := false; w_pc := Start |}.
Definition old_disk : disk := {| names := {["spec" := 0%nat]}; inodes := {[0%nat := "old"]} |}.
Lemma old_disk_plain : plain_disk old_disk.
Proof.
  split; cbn.
  - intros a b i Ha Hb. apply lookup_singleton_Some in Ha as [? _], Hb as [? _]. congruence.
  - intros a i [_ <-]%lookup_singleton_Some. by exists "old".
Qed.
Definition two_saves : list (nat * op) :=
  [(0, OCreate 1); (1, OCreate 2); (0, OWrite 2); (1, OWrite 1); (0, OClose); (0, ORename)]%nat.
Lemma atomic_replace_witness :
  ∃ d l w, runs exclusive old_disk [spec_call; fixed_call "[]"] d l ∧ l !! 0%nat = Some w ∧ renamed w = true ∧
    (seen d "spec" = seen old_disk "spec" ∧ (∀ w, w ∈ l → renamed w = false) ∨
     ∃ w, w ∈ l ∧ renamed w = true ∧ seen d "spec" = Some (w_data w)).
Proof.
  enough (∃ d l w, runs exclusive old_disk [spec_call; fixed_call "[]"] d l ∧ l !! 0%nat = Some w ∧ renamed w = true) as (d & l & w & Hr & Hw & Hn).
  { exists d, l, w. split; [exact Hr|split; [exact Hw|split; [exact Hn|]]].
    refine (atomic_replace _ _ "spec" _ _ old_disk_plain _ Hr).
    intros v Hv. apply elem_of_cons in Hv as [->|Hv]; [done|]. by apply list_elem_of_singleton in Hv as ->. }
  assert (option_map (λ r, option_map renamed (snd r !! 0%nat)) (run_ops exclusiveb two_saves old_disk [spec_call; fixed_call "[]"]) = Some (Some true))
    as Hb by (vm_compute; reflexivity).
  destruct (run_ops exclusiveb two_saves old_disk [spec_call; fixed_call "[]"]) as [[d l]|] eqn:E; [|discriminate].
  cbn in Hb. destruct (l !! 0%nat) as [w|] eqn:Hw; [|discriminate].
  exists d, l, w. split; [exact (run_ops_runs _ _ _ _ _ _ _ _ _ exclusiveb_ok (RunsStart _ _ _) E)|split; [exact Hw|]].
  cbn in Hb. congruence.
Defined.

(** Two processes that write the same fixed name can tear the file: the second
    truncates what the first renames, and a reader finds it empty. *)
Example torn_file :
  option_map (λ r, seen (fst r) "spec")
    (run_ops (λ _, true) [(0, OCreate 1); (0, OWrite 2); (0, OClose); (1, OTruncate); (0, ORename)]%nat
       old_disk [fixed_call "{}"; fixed_call "[]"]) = Some (Some "").
Proof. vm_compute. reflexivity. Qed.
