(* ===== verification/Accounts.v ===== *)
(** * The agent's account in the guest

    [ensureAccount] and its helpers of [src/internal/guest/init_linux.go]: the
    account with the configured user ID is looked up in [/etc/passwd], or an
    entry with the configured name is renumbered, or an entry is appended. The
    state is the text of the two files; [refused] gives the files that exist
    but cannot be read and [fate] what a write that fails leaves. *)

From S2P Require Import Prelude GoStrings GoStrconv StateErr.
Open Scope string_scope.
Open Scope list_scope.
Open Scope Z_scope.

Definition newline : string := sep1 (chr 10).
Definition cr : string := sep1 (chr 13).
Record account := { a_name : string; a_uid : Z; a_gid : Z; a_home : string; a_shell : string }.
#[export] Instance account_eq_dec : EqDecision account.
Proof. solve_decision. Defined.
Definition fallbackShell : string := "/bin/sh".
Record config := { c_User : string; c_UID : Z; c_GID : Z; c_Home : string }.

Inductive efile := Passwd | Group.
#[export] Instance efile_eq_dec : EqDecision efile.
Proof. solve_decision. Defined.
Record etc := { e_passwd : option string; e_group : option string }.
Definition content (x : efile) (s : etc) : option string := match x with Passwd => e_passwd s | Group => e_group s end.
Definition store (x : efile) (d : option string) (s : etc) : etc :=
  match x with Passwd => {| e_passwd := d; e_group := e_group s |} | Group => {| e_passwd := e_passwd s; e_group := d |} end.
Inductive acct_err := ReadErr (x : efile) | WriteErr (x : efile).

(** The lines a [bufio.Scanner] yields: without a final return, up to the first
    one that does not fit its buffer. *)
Definition maxLine : nat := Z.to_nat 65535.
Fixpoint until_long (l : list string) : list string :=
  match l with [] => [] | x :: l => if (maxLine <? String.length x)%nat then [] else TrimSuffix x cr :: until_long l end.
Definition drop_empty_last (l : list string) : list string :=
  match last l with Some "" => removelast l | _ => l end.
Definition scan_lines (data : string) : list string := until_long (drop_empty_last (Split data newline)).

Section Accounts.
Context (refused : efile → bool) (fate : efile → string → option (option string)) (bash : bool).
Notation aop := (op etc acct_err).

Definition read_file (x : efile) : aop (option string) :=
  if refused x then fail (ReadErr x) else gets (content x).
(** A write that succeeds, or leaves what [fate] says. *)
Definition write_file (x : efile) (data : string) : aop () :=
  match fate x data with
  | None => modify (store x (Some data))
  | Some kept => _ ← modify (store x kept); fail (WriteErr x)
  end.

Definition or_shell (s : string) : string := if String.eqb s "" then fallbackShell else s.
(** The entry of a line, if it is one with the user ID. *)
Definition entry_of (cfg : config) (line : string) : option account :=
  match Split line ":" with
  | name :: _ :: uid :: gid :: _ :: home :: shell :: _ =>
      if String.eqb uid (fmt_nat (c_UID cfg)) then
        Some {| a_name := name; a_uid := c_UID cfg; a_gid := match ParseUint gid 32 with NumOk n => n | _ => c_GID cfg end;
                a_home := home; a_shell := or_shell shell |}
      else None
  | _ => None
  end.
Definition find_account (cfg : config) (data : string) : option account := head (omap (M:=list) (entry_of cfg) (scan_lines data)).

(** [rewriteEntries]; [edit] gives the new fields of the lines it changes. *)
Definition rewrite_line (edit : list string → option (list string)) (line : string) : string :=
  match edit (Split line ":") with Some fields => Join fields ":" | None => line end.
Definition rewriteEntries (x : efile) (edit : list string → option (list string)) : aop () :=
  d ← read_file x;
  match d with
  | None => mret ()
  | Some data =>
      let lines := Split data newline in
      if existsb (λ l, bool_decide (is_Some (edit (Split l ":")))) lines
      then write_file x (Join (map (rewrite_line edit) lines) newline) else mret ()
  end.
Definition edit_passwd (cfg : config) (fields : list string) : option (list string) :=
  if (length fields <? 7)%nat || negb (bool_decide (head fields = Some (c_User cfg))) then None
  else Some (<[3%nat := fmt_nat (c_GID cfg)]> (<[2%nat := fmt_nat (c_UID cfg)]> fields)).
Definition edit_group (cfg : config) (fields : list string) : option (list string) :=
  if (length fields <? 3)%nat || negb (bool_decide (head fields = Some (c_User cfg))) then None
  else Some (<[2%nat := fmt_nat (c_GID cfg)]> fields).
(** The account of the last line edited: the closure's variable. *)
Definition edited (cfg : config) (line : string) : option account :=
  match edit_passwd cfg (Split line ":") with
  | Some (name :: _ :: _ :: _ :: _ :: home :: shell :: _) =>
      Some {| a_name := name; a_uid := c_UID cfg; a_gid := c_GID cfg; a_home := home; a_shell := or_shell shell |}
  | _ => None
  end.
Definition renumberAccount (cfg : config) : aop (option account) :=
  d ← read_file Passwd;
  _ ← rewriteEntries Passwd (edit_passwd cfg);
  match d ≫= (λ data, last (omap (M:=list) (edited cfg) (Split data newline))) with
  | None => mret None
  | Some acct => _ ← rewriteEntries Group (edit_group cfg); mret (Some acct)
  end.
Definition appendLine (x : efile) (line : string) : aop () :=
  d ← gets (content x); write_file x (default "" d +:+ line +:+ newline).
Definition new_account (cfg : config) : account :=
  {| a_name := c_User cfg; a_uid := c_UID cfg; a_gid := c_GID cfg; a_home := c_Home cfg;
     a_shell := if bash then "/bin/bash" else fallbackShell |}.
Definition passwd_line (a : account) : string :=
  Join [a_name a; "x"; fmt_nat (a_uid a); fmt_nat (a_gid a); "jailoc agent"; a_home a; a_shell a] ":".
Definition group_line (a : account) : string := Join [a_name a; "x"; fmt_nat (a_gid a); ""] ":".
Definition ensureAccount (cfg : config) : aop account :=
  d ← read_file Passwd;
  match d ≫= find_account cfg with
  | Some acct => mret acct
  | None =>
      renumbered ← renumberAccount cfg;
      match renumbered with
      | Some acct => mret acct
      | None =>
          let acct := new_account cfg in
          _ ← appendLine Passwd (passwd_line acct);
          _ ← appendLine Group (group_line acct);
          mret acct
      end
  end.
End Accounts.

(** ** Laws *)

(** The text of complete lines. *)
Fixpoint text (ls : list string) : string := match ls with [] => "" | l :: ls => l +:+ newline +:+ text ls end.
(** A line that survives reading: the last condition leaves room for new IDs. *)
Definition tidy (l : string) : Prop :=
  has_char (chr 10) l = false ∧ has_char (chr 13) l = false ∧ (String.length l + 40 ≤ maxLine)%nat.
Lemma text_Join ls : text ls = Join (ls ++ [""]) newline.
Proof.
  induction ls as [|l ls IH]; [done|]. cbn [text]. rewrite IH. cbn [app]. destruct (ls ++ [""]) as [|y k] eqn:E; [by destruct ls|]. done.
Qed.
Lemma Split_text ls : Forall (λ l, has_char (chr 10) l = false) ls → Split (text ls) newline = ls ++ [""].
Proof. intros H. rewrite text_Join. apply (Split_Join_sep (chr 10)); [by destruct ls|]. by apply Forall_app_2; [|constructor]. Qed.
Lemma text_snoc ls l : text (ls ++ [l]) = text ls +:+ l +:+ newline.
Proof. induction ls as [|x ls IH]; [cbn; by rewrite sapp_nil_r|]. cbn [app text]. by rewrite IH !sapp_assoc. Qed.
Lemma TrimSuffix_none l : has_char (chr 13) l = false → TrimSuffix l cr = l.
Proof.
  intros H. unfold TrimSuffix. destruct (CutSuffix l cr) as [r|] eqn:E; [|done]. apply CutSuffix_Some in E. rewrite E has_char_app in H.
  by apply orb_false_iff in H as [_ H].
Qed.
Lemma scan_text ls : Forall (λ l, has_char (chr 10) l = false ∧ has_char (chr 13) l = false ∧ (String.length l ≤ maxLine)%nat) ls → scan_lines (text ls) = ls.
Proof.
  intros H. unfold scan_lines. rewrite Split_text; [|by apply (Forall_impl _ _ _ H); intros l (? & _)]. unfold drop_empty_last. rewrite last_snoc removelast_last.
  induction H as [|l ls (_ & Hr & Hl) _ IH]; [done|]. cbn [until_long]. destruct (Nat.ltb_spec maxLine (String.length l)); [lia|]. by rewrite (TrimSuffix_none l Hr) IH.
Qed.
Lemma fmt_nat_no c n : num_char c = false → 0 ≤ n → has_char c (fmt_nat n) = false.
Proof.
  intros Hc Hn. pose proof (Itoa_shape n) as H. unfold Itoa in H. rewrite (proj2 (Z.ltb_ge _ _)) in H; [|lia].
  unfold has_char. induction (fmt_nat n) as [|d s IH]; [done|]. cbn in H |- *. apply andb_true_iff in H as [Hd H]. rewrite (IH H) orb_false_r.
  destruct (Ascii.eqb_spec c d) as [->|]; [congruence|done].
Qed.
Lemma fmt_nat_short n : 0 ≤ n < 2 ^ 32 → (String.length (fmt_nat n) ≤ 20)%nat.
Proof. intros H. pose proof (Itoa_length n ltac:(unfold minInt64, maxInt64; lia)) as E. unfold Itoa in E. by rewrite (proj2 (Z.ltb_ge _ _)) in E; [|lia]. Qed.
Lemma Join_insert_length i x l sep : (String.length (Join (<[i := x]> l) sep) ≤ String.length (Join l sep) + String.length x)%nat.
Proof.
  revert i. induction l as [|y l IH]; intros i; [destruct i; cbn; lia|]. destruct i as [|i].
  - cbn [insert list_insert]. destruct l as [|z l]; [cbn; lia|]. change (Join (?a :: z :: l) sep) with (a +:+ sep +:+ Join (z :: l) sep). rewrite !slength_app. lia.
  - cbn [insert list_insert]. specialize (IH i). destruct l as [|z l]; [destruct i; cbn; lia|]. change (Join (y :: z :: l) sep) with (y +:+ sep +:+ Join (z :: l) sep).
    destruct (<[i := x]> (z :: l)) as [|w k] eqn:E; [by destruct i|]. change (Join (y :: w :: k) sep) with (y +:+ sep +:+ Join (w :: k) sep). rewrite !slength_app. lia.
Qed.
(** A line that a [bufio.Scanner] yields as it is. *)
Definition readable_line (l : string) : Prop := has_char (chr 10) l = false ∧ has_char (chr 13) l = false ∧ (String.length l ≤ maxLine)%nat.
Lemma tidy_readable l : tidy l → readable_line l.
Proof. intros (H1 & H2 & H3). split; [done|]. split; [done|lia]. Qed.

Section Settles.
Context (cfg : config) (bash : bool).
Hypothesis uid_range : 0 ≤ c_UID cfg < 2 ^ 32.
Hypothesis gid_range : 0 ≤ c_GID cfg < 2 ^ 32.
Local Notation rewritten := (rewrite_line (edit_passwd cfg)).

Lemma edited_spec l a : edited cfg l = Some a →
  ∃ fields, edit_passwd cfg (Split l ":") = Some fields ∧ fields = <[3%nat := fmt_nat (c_GID cfg)]> (<[2%nat := fmt_nat (c_UID cfg)]> (Split l ":")) ∧
    (7 ≤ length fields)%nat ∧ a_uid a = c_UID cfg ∧ rewritten l = Join fields ":".
Proof.
  unfold edited, rewrite_line. destruct (edit_passwd cfg (Split l ":")) as [fields|] eqn:E; [|done]. intros H. exists fields. split; [done|].
  unfold edit_passwd in E. destruct (Nat.ltb_spec (length (Split l ":")) 7) as [|Hl]; [done|]. cbn [orb] in E. case_bool_decide; [|done]. injection E as <-.
  split; [done|]. split; [rewrite !length_insert; lia|]. split; [|done].
  destruct (<[3%nat := _]> _) as [|f0 [|f1 [|f2 [|f3 [|f4 [|f5 [|f6 r]]]]]]]; try done. by injection H as <-.
Qed.
Lemma edited_None l : edited cfg l = None → rewritten l = l.
Proof.
  unfold edited, rewrite_line. destruct (edit_passwd cfg (Split l ":")) as [fields|] eqn:E; [|done]. unfold edit_passwd in E.
  destruct (Nat.ltb_spec (length (Split l ":")) 7) as [|Hl]; [done|]. cbn [orb] in E. case_bool_decide; [|done]. injection E as <-.
  destruct (Split l ":") as [|f0 [|f1 [|f2 [|f3 [|f4 [|f5 [|f6 r]]]]]]]; cbn in Hl; try lia. done.
Qed.
Lemma rewritten_fields l a : edited cfg l = Some a → Split (rewritten l) ":" = <[3%nat := fmt_nat (c_GID cfg)]> (<[2%nat := fmt_nat (c_UID cfg)]> (Split l ":")).
Proof using uid_range gid_range.
  intros (fields & _ & E & Hl & _ & ->)%edited_spec. rewrite E in Hl |- *. apply (Split_Join_sep ":").
  - intros E'. by rewrite E' in Hl; cbn in Hl; lia.
  - apply Forall_insert; [apply Forall_insert; [apply (Split_no_sep ":")|]|]; (apply fmt_nat_no; [done|lia]).
Qed.
(** The renumbered entry is the one a lookup of the user ID gives. *)
Lemma entry_rewritten l a : edited cfg l = Some a → entry_of cfg (rewritten l) = Some a.
Proof using uid_range gid_range.
  intros H. pose proof (rewritten_fields l a H) as E. unfold entry_of. rewrite E. unfold edited in H. unfold edit_passwd in H.
  destruct (_ || _) in H; [done|]. destruct (Split l ":") as [|f0 [|f1 [|f2 [|f3 [|f4 [|f5 [|f6 r]]]]]]]; try done. cbn [insert list_insert] in *.
  rewrite String.eqb_refl. injection H as <-. rewrite ParseUint_fmt; [done|lia].
Qed.
Lemma rewritten_readable l : tidy l → readable_line (rewritten l).
Proof using uid_range gid_range.
  intros Ht. destruct (edited cfg l) as [a|] eqn:E; [|rewrite (edited_None l E); by apply tidy_readable].
  destruct (edited_spec l a E) as (fields & _ & Ef & _ & _ & ->). destruct Ht as (H1 & H2 & H3).
  assert (Hno : ∀ c, has_char c ":" = false → num_char c = false → has_char c l = false → has_char c (Join fields ":") = false).
  { intros c Hc Hn Hl. rewrite -(Join_Split l ":") in Hl. apply has_char_Join in Hl; [|done]. apply has_char_Join; [done|]. rewrite Ef.
    apply Forall_insert; [apply Forall_insert; [done|]|]; (apply fmt_nat_no; [done|lia]). }
  split; [by apply Hno|]. split; [by apply Hno|]. rewrite Ef.
  pose proof (Join_insert_length 3 (fmt_nat (c_GID cfg)) (<[2%nat := fmt_nat (c_UID cfg)]> (Split l ":")) ":") as L1.
  pose proof (Join_insert_length 2 (fmt_nat (c_UID cfg)) (Split l ":") ":") as L2. rewrite Join_Split in L2.
  pose proof (fmt_nat_short _ uid_range). pose proof (fmt_nat_short _ gid_range). lia.
Qed.

Local Notation rewriteEntries := (rewriteEntries (λ _, false) (λ _ _, None)).
Lemma rewrite_ok x edit s : ∃ s', rewriteEntries x edit s = (Ok (), s') ∧ (∀ y, y ≠ x → content y s' = content y s) ∧
  content x s' = (λ data, Join (map (rewrite_line edit) (Split data newline)) newline) <$> content x s.
Proof.
  unfold Accounts.rewriteEntries, read_file, mbind, op_bind, gets. destruct (content x s) as [data|] eqn:E; [|by exists s].
  destruct (existsb _ _) eqn:Ex.
  - exists (store x (Some (Join (map (rewrite_line edit) (Split data newline)) newline)) s). split; [done|]. split; [by intros [] Hy; destruct x|by destruct x].
  - exists s. split; [done|]. split; [done|]. rewrite E. cbn [fmap option_fmap option_map]. f_equal. rewrite -{1}(Join_Split data newline). f_equal.
    induction (Split data newline) as [|l ls IH]; [done|]. cbn [map existsb] in *. apply orb_false_iff in Ex as [El Ex]. rewrite {1}(IH Ex). f_equal. unfold rewrite_line.
    apply bool_decide_eq_false in El. destruct (edit (Split l ":")) as [y|]; [|done]. exfalso. apply El. by exists y.
Qed.
Lemma rewrite_text ls : Forall tidy ls →
  Join (map rewritten (Split (text ls) newline)) newline = text (map rewritten ls).
Proof.
  intros H. rewrite Split_text; [|by apply (Forall_impl _ _ _ H); intros l [? _]]. rewrite map_app. cbn [map]. by rewrite text_Join.
Qed.
Lemma find_text ls : Forall readable_line ls → find_account cfg (text ls) = head (omap (M:=list) (entry_of cfg) ls).
Proof. intros H. unfold find_account. by rewrite scan_text. Qed.
Lemma head_None_omap {A B} (h : A → option B) l : head (omap (M:=list) h l) = None → Forall (λ x, h x = None) l.
Proof. induction l as [|x l IH]; [done|]. cbn. destruct (h x) eqn:E; [done|]. intros H. constructor; [done|by apply IH]. Qed.
Local Notation run := (ensureAccount (λ _, false) (λ _ _, None) bash cfg).
Lemma run_found s acct : content Passwd s ≫= find_account cfg = Some acct → run s = (Ok acct, s).
Proof. intros H. unfold ensureAccount, read_file, mbind, op_bind, gets. unfold mbind in H. by rewrite H. Qed.
Lemma entry_uid l a : entry_of cfg l = Some a → a_uid a = c_UID cfg.
Proof. unfold entry_of. destruct (Split l ":") as [|f0 [|f1 [|f2 [|f3 [|f4 [|f5 [|f6 r]]]]]]]; try done. destruct (String.eqb _ _); [|done]. by intros [= <-]. Qed.
Lemma omap_rewritten ls : Forall (λ l, entry_of cfg l = None) ls → omap (M:=list) (entry_of cfg) (map rewritten ls) = omap (M:=list) (edited cfg) ls.
Proof using uid_range gid_range.
  induction 1 as [|l ls Hl _ IH]; [done|]. cbn [map omap list_omap]. rewrite IH. destruct (edited cfg l) as [a|] eqn:E; [by rewrite (entry_rewritten l a E)|].
  by rewrite (edited_None l E) Hl.
Qed.
Lemma edited_nil : edited cfg "" = None.
Proof. unfold edited, edit_passwd. done. Qed.
(** What the configuration may hold for the entries it makes. *)
Definition plain_field (s : string) : Prop := has_char ":" s = false ∧ has_char (chr 10) s = false ∧ has_char (chr 13) s = false.
Hypothesis user_plain : plain_field (c_User cfg).
Hypothesis home_plain : plain_field (c_Home cfg).
Lemma new_fields : Split (passwd_line (new_account bash cfg)) ":" =
  [c_User cfg; "x"; fmt_nat (c_UID cfg); fmt_nat (c_GID cfg); "jailoc agent"; c_Home cfg; a_shell (new_account bash cfg)].
Proof using uid_range gid_range user_plain home_plain.
  apply (Split_Join_sep ":"); [done|]. repeat apply Forall_cons_2; try apply Forall_nil_2; try done; try apply user_plain; try apply home_plain; try (apply fmt_nat_no; [done|lia]).
  by destruct bash.
Qed.
Lemma entry_new : entry_of cfg (passwd_line (new_account bash cfg)) = Some (new_account bash cfg).
Proof using uid_range gid_range user_plain home_plain.
  unfold entry_of. rewrite new_fields String.eqb_refl ParseUint_fmt; [|lia]. unfold new_account. by destruct bash.
Qed.
Hypothesis names_short : (String.length (c_User cfg) + String.length (c_Home cfg) ≤ Z.to_nat 60000)%nat.
Lemma new_readable : readable_line (passwd_line (new_account bash cfg)).
Proof using uid_range gid_range user_plain home_plain names_short.
  assert (Hno : ∀ c, has_char c ":" = false → num_char c = false → has_char c (c_User cfg) = false → has_char c (c_Home cfg) = false →
    has_char c "x" = false → has_char c "jailoc agent" = false → has_char c "/bin/bash" = false → has_char c fallbackShell = false → has_char c (passwd_line (new_account bash cfg)) = false).
  { intros. apply has_char_Join; [done|]. cbn [new_account a_name a_uid a_gid a_home a_shell]. repeat apply Forall_cons_2; try apply Forall_nil_2; try done; try (apply fmt_nat_no; [done|lia]). by destruct bash. }
  split; [apply Hno; try done; [apply user_plain|apply home_plain]|]. split; [apply Hno; try done; [apply user_plain|apply home_plain]|].
  pose proof (fmt_nat_short _ uid_range). pose proof (fmt_nat_short _ gid_range). unfold passwd_line. cbn [Join]. rewrite !slength_app. cbn [new_account a_name a_uid a_gid a_home a_shell].
  assert (String.length (a_shell (new_account bash cfg)) ≤ 10)%nat by (destruct bash; cbn; lia). cbn [new_account a_shell] in *. unfold maxLine. cbn [String.length]. lia.
Qed.

(** The account of a file without its user ID: renumbered, or appended. *)
Lemma run_settles (ls : option (list string)) s :
  Forall tidy (default [] ls) → (length (omap (M:=list) (edited cfg) (default [] ls)) ≤ 1)%nat → e_passwd s = text <$> ls →
  ∃ acct s' ls', run s = (Ok acct, s') ∧ a_uid acct = c_UID cfg ∧ e_passwd s' = text <$> ls' ∧
    Forall readable_line (default [] ls') ∧ head (omap (M:=list) (entry_of cfg) (default [] ls')) = Some acct ∧
    (ls' = ls ∨ ls' = map rewritten <$> ls ∨ ls' = Some (default [] ls ++ [passwd_line acct])).
Proof using All.
  intros Ht Hu Hs. assert (Hr : Forall readable_line (default [] ls)) by (by apply (Forall_impl _ _ _ Ht), tidy_readable).
  assert (Hfind : content Passwd s ≫= find_account cfg = head (omap (M:=list) (entry_of cfg) (default [] ls))).
  { cbn [content]. rewrite Hs. destruct ls as [ls|]; [by apply find_text|done]. }
  destruct (head (omap (entry_of cfg) (default [] ls))) as [acct|] eqn:Eh.
  { exists acct, s, ls. split; [by apply run_found|]. split; [|split_and!; try done; by left].
    destruct (omap (entry_of cfg) (default [] ls)) as [|y k] eqn:E; [done|]. injection Eh as ->.
    assert (acct ∈ omap (M:=list) (entry_of cfg) (default [] ls)) as Hin by (rewrite E; by left). apply list_elem_of_omap in Hin as (l & _ & El). by apply (entry_uid l). }
  apply head_None_omap in Eh. pose proof (omap_rewritten _ Eh) as Hrw.
  assert (Hd : content Passwd s ≫= (λ data, last (omap (M:=list) (edited cfg) (Split data newline))) = last (omap (M:=list) (edited cfg) (default [] ls))).
  { cbn [content]. rewrite Hs. destruct ls as [ls|]; [|done]. cbn [fmap option_fmap option_map mbind option_bind default]. rewrite Split_text; [|by apply (Forall_impl _ _ _ Ht); intros l [? _]].
    rewrite omap_app. cbn [omap list_omap]. rewrite edited_nil. by rewrite app_nil_r. }
  destruct (rewrite_ok Passwd (edit_passwd cfg) s) as (s1 & E1 & Ho1 & Hc1).
  assert (Hp1 : e_passwd s1 = text <$> (map rewritten <$> ls)).
  { cbn [content] in Hc1. rewrite Hc1 Hs. destruct ls as [ls|]; [|done]. cbn [fmap option_fmap option_map]. f_equal. by apply rewrite_text. }
  unfold ensureAccount, read_file, mbind, op_bind, gets. unfold mbind in Hfind. rewrite Hfind.
  unfold renumberAccount, read_file, mbind, op_bind, gets. unfold mbind in Hd. rewrite E1 Hd.
  destruct (omap (edited cfg) (default [] ls)) as [|acct k] eqn:Eo; cbn [last].
  - set (new := new_account bash cfg). assert (Hmap : map rewritten <$> ls = ls).
    { destruct ls as [ls|]; [|done]. cbn [fmap option_fmap option_map]. f_equal. cbn [default] in Eo. clear -Eo. induction ls as [|l ls IH]; [done|]. cbn in Eo.
      destruct (edited cfg l) eqn:E; [done|]. cbn [map]. rewrite (edited_None l E). f_equal. by apply IH. }
    rewrite Hmap in Hp1. exists new. eexists _, (Some (default [] ls ++ [passwd_line new])). split; [reflexivity|]. split; [done|]. split.
    { cbn [content store e_passwd fmap option_fmap option_map]. f_equal. rewrite Hp1 text_snoc. by destruct ls. }
    cbn [default]. split; [apply Forall_app_2; [done|]; constructor; [by apply new_readable|done]|]. split; [|by right; right].
    rewrite omap_app. replace (omap (entry_of cfg) (default [] ls)) with (@nil account); [cbn; by rewrite entry_new|].
    clear -Eh. by induction Eh as [|l ls' El _ IH]; [|cbn; rewrite El].
  - destruct k; [cbn [last]|cbn in Hu; lia]. destruct (rewrite_ok Group (edit_group cfg) s1) as (s2 & E2 & Ho2 & Hc2). rewrite E2.
    exists acct, s2, (map rewritten <$> ls). split; [done|].
    assert (acct ∈ omap (M:=list) (edited cfg) (default [] ls)) as Hin by (rewrite Eo; by left). apply list_elem_of_omap in Hin as (l & _ & El).
    assert (Hdef : default [] (map rewritten <$> ls) = map rewritten (default [] ls)) by by destruct ls. rewrite Hdef.
    split; [by destruct (edited_spec l acct El) as (? & _ & _ & _ & ? & _)|]. split; [rewrite -Hp1; exact (Ho2 Passwd ltac:(done))|].
    split; [apply Forall_fmap; apply (Forall_impl _ _ _ Ht), rewritten_readable|]. split; [by rewrite Hrw|by right; left].
Qed.

(** Finding or making the agent's account succeeds, gives it the configured
    user ID, leaves every other entry of the password file as it is, and is
    settled: doing it again finds the same account and changes nothing. *)
Theorem ensureAccount_settles (ls : option (list string)) s :
  Forall tidy (default [] ls) → (length (omap (M:=list) (edited cfg) (default [] ls)) ≤ 1)%nat → e_passwd s = text <$> ls →
  ∃ acct s' ls', run s = (Ok acct, s') ∧ a_uid acct = c_UID cfg ∧ run s' = (Ok acct, s') ∧ e_passwd s' = text <$> ls' ∧
    (ls' = ls ∨ ls' = map rewritten <$> ls ∨ ls' = Some (default [] ls ++ [passwd_line acct])) ∧
    ∀ l, l ∈ default [] ls → edited cfg l = None → l ∈ default [] ls'.
Proof using All.
  intros Ht Hu Hs. destruct (run_settles ls s Ht Hu Hs) as (acct & s' & ls' & E & Ha & Hp & Hr & Hh & Hc).
  exists acct, s', ls'. split; [done|]. split; [done|]. split; [apply run_found; cbn [content]; rewrite Hp; destruct ls' as [ls'|]; [by rewrite -Hh; apply find_text|done]|].
  split; [done|]. split; [done|]. intros l Hl El. destruct Hc as [->|[->| ->]]; [done|..].
  - replace (default [] (map rewritten <$> ls)) with (map rewritten (default [] ls)) by by destruct ls. apply list_elem_of_fmap. exists l. by rewrite (edited_None l El).
  - apply elem_of_app. by left.
Qed.
End Settles.

Definition lab_cfg : config := {| c_User := "agent"; c_UID := 501; c_GID := 20; c_Home := "/home/agent" |}.
Definition lab_ensure (passwd : string) : result acct_err account * etc :=
  ensureAccount (λ _, false) (λ _ _, None) true lab_cfg {| e_passwd := Some passwd; e_group := None |}.
Example ensureAccount_ex :
  lab_ensure (text ["root:x:0:0:root:/root:/bin/bash"; "agent:x:1000:1000::/home/agent:/bin/zsh"]) =
    (Ok {| a_name := "agent"; a_uid := 501; a_gid := 20; a_home := "/home/agent"; a_shell := "/bin/zsh" |},
     {| e_passwd := Some (text ["root:x:0:0:root:/root:/bin/bash"; "agent:x:501:20::/home/agent:/bin/zsh"]); e_group := None |}) ∧
  lab_ensure (text ["root:x:0:0:root:/root:/bin/bash"]) =
    (Ok {| a_name := "agent"; a_uid := 501; a_gid := 20; a_home := "/home/agent"; a_shell := "/bin/bash" |},
     {| e_passwd := Some (text ["root:x:0:0:root:/root:/bin/bash"; "agent:x:501:20:jailoc agent:/home/agent:/bin/bash"]);
        e_group := Some (text ["agent:x:20:"]) |}).
Proof. by vm_compute. Qed.
(** Without a final newline the last entry and the new one become one line: the
    shell of the old one is lost and the account does not exist. *)
Example append_merges :
  let '(r, s) := lab_ensure "root:x:0:0:root:/root:/bin/sh" in
  is_ok r = true ∧ e_passwd s = Some (text ["root:x:0:0:root:/root:/bin/shagent:x:501:20:jailoc agent:/home/agent:/bin/bash"]) ∧
  e_passwd s ≫= find_account lab_cfg = None.
Proof. by vm_compute. Qed.

Lemma ensureAccount_settles_witness :
  let s := {| e_passwd := Some (text ["root:x:0:0:root:/root:/bin/bash"; "agent:x:1000:1000::/home/agent:"]); e_group := Some (text ["agent:x:1000:"]) |} in
  let ls := Some ["root:x:0:0:root:/root:/bin/bash"; "agent:x:1000:1000::/home/agent:"] in
  let run := ensureAccount (λ _, false) (λ _ _, None) true lab_cfg in
  ∃ acct s' ls', run s = (Ok acct, s') ∧ a_uid acct = c_UID lab_cfg ∧ run s' = (Ok acct, s') ∧ e_passwd s' = text <$> ls' ∧
    (ls' = ls ∨ ls' = map (rewrite_line (edit_passwd lab_cfg)) <$> ls ∨ ls' = Some (default [] ls ++ [passwd_line acct])) ∧
    ∀ l, l ∈ default [] ls → edited lab_cfg l = None → l ∈ default [] ls'.
Proof.
  intros s ls run. refine (ensureAccount_settles lab_cfg true _ _ _ _ _ ls s _ _ _); [cbn; lia|cbn; lia|by repeat split|by repeat split|cbn [lab_cfg c_User c_Home String.length]; lia| |..].
  - repeat apply Forall_cons_2; try apply Forall_nil_2; (split; [by vm_compute|split; [by vm_compute|unfold maxLine; cbn [String.length]; lia]]).
  - vm_compute. lia.
  - by vm_compute.
Defined.
