(* ===== verification/GuestSecrets.v ===== *)
(** * Secrets in the guest

    [WriteSecrets], [writeAtomic] and [programEnv] of
    [src/internal/guest/init_linux.go]: the host delivers the complete set of
    secrets, file secrets go to a directory of the agent and environment
    entries to a file whose lines every program run by jailoc gets. The state
    is the directory and the content of the environment file; [fails] gives the
    system call at which the atomic write of a file fails, and [stuck] the
    entries that cannot be removed. *)

From S2P Require Import Prelude GoStrings StateErr GuestSys.
Open Scope string_scope.
Open Scope list_scope.
Open Scope Z_scope.

Record secrets := { s_Env : list string; s_Files : gmap string string; s_GPGPublicKeys : string }.
Record sfile := { sf_data : string; sf_mode : Z }.
Record dirs := { d_secrets : gmap string sfile; d_env : option string; d_imported : list string }.
Inductive call := CreateTemp | Write | Chmod | Close | Rename.
Inductive target := InSecrets (name : string) | EnvFile.
Inductive secrets_err := SecretName (name : string) | SecretEntry | SecretWrite (t : target) (c : call).
Notation dop := (op dirs secrets_err).
Definition mode_400 : Z := 256.
Definition mode_600 : Z := 384.

Section Secrets.
(** [temp] is the name [os.CreateTemp] picks. *)
Context (fails : target → option call) (stuck : string → bool) (temp : target → string).

Definition set_secret (name : string) (f : option sfile) (d : dirs) : dirs :=
  {| d_secrets := partial_alter (λ _, f) name (d_secrets d); d_env := d_env d; d_imported := d_imported d |}.
Definition set_env (e : string) (d : dirs) : dirs := {| d_secrets := d_secrets d; d_env := Some e; d_imported := d_imported d |}.
(** A failed write removes its temporary file, which stays when that fails too.
    The one of the environment file is in another directory. *)
Definition leave_temp (t : target) (d : dirs) : dirs :=
  match t with
  | InSecrets _ => if stuck (temp t) then set_secret (temp t) (Some {| sf_data := ""; sf_mode := mode_600 |}) d else d
  | EnvFile => d
  end.
Definition writeAtomic (t : target) (data : string) (mode : Z) : dop () :=
  match fails t with
  | Some CreateTemp => fail (SecretWrite t CreateTemp)
  | Some c => _ ← modify (leave_temp t); fail (SecretWrite t c)
  | None => modify (match t with InSecrets name => set_secret name (Some {| sf_data := data; sf_mode := mode |}) | EnvFile => set_env data end)
  end.
Definition bad_name (name : string) : bool :=
  String.eqb name "" || ContainsAny name (String "/" (sep1 (chr 0))) || String.eqb name "." || String.eqb name "..".
Definition write_secret (nv : string * string) : dop () :=
  if bad_name nv.1 then fail (SecretName nv.1) else writeAtomic (InSecrets nv.1) nv.2 mode_400.
(** The entries the delivery no longer has. *)
Definition stale (s : secrets) (name : string) : bool :=
  negb (bool_decide (is_Some (s_Files s !! name))) && negb (HasPrefix name ".tmp-").
Definition remove_stale (s : secrets) (d : dirs) : dirs :=
  {| d_secrets := filter (λ nf, stale s nf.1 && negb (stuck nf.1) = false) (d_secrets d); d_env := d_env d; d_imported := d_imported d |}.
Definition bad_entry (kv : string) : bool := ContainsAny kv (String (chr 10) (sep1 (chr 0))) || negb (Contains kv "=").
Definition env_text (env : list string) : string := String.concat "" (map (λ kv, kv +:+ newline) env).
Definition import (keys : string) (d : dirs) : dirs := {| d_secrets := d_secrets d; d_env := d_env d; d_imported := d_imported d ++ [keys] |}.
(** [order] is the order in which the map of files is walked. *)
Definition WriteSecrets (order : list (string * string)) (s : secrets) : dop () :=
  _ ← StateErr.each write_secret order;
  _ ← modify (remove_stale s);
  _ ← ensure (forallb (λ kv, negb (bad_entry kv)) (s_Env s)) SecretEntry;
  _ ← writeAtomic EnvFile (env_text (s_Env s)) mode_600;
  if String.eqb (s_GPGPublicKeys s) "" then mret () else modify (import (s_GPGPublicKeys s)).
End Secrets.

(** The environment of a program that jailoc runs. *)
Definition programEnv (environ : list string) (envfile : option string) (extraEnv : list string) : list string :=
  let lines := match envfile with Some b => filter (λ l, l ≠ "") (Split b newline) | None => [] end in
  lastWins (environ ++ lines ++ extraEnv).

Section Delivery.
Context (fails : target → option call) (stuck : string → bool) (temp : target → string).
Local Notation WriteSecrets := (WriteSecrets fails stuck temp).
Local Notation writeAtomic := (writeAtomic fails stuck temp).
Local Notation write_secret := (write_secret fails stuck temp).
Definition delivered (v : string) : sfile := {| sf_data := v; sf_mode := mode_400 |}.

Lemma write_secret_spec nv d r d' : write_secret nv d = (r, d') →
  d_env d' = d_env d ∧ d_imported d' = d_imported d ∧
  (r = Ok () → d_secrets d' = <[nv.1 := delivered nv.2]> (d_secrets d)) ∧
  ∀ n, (∀ t, n ≠ temp t) → d_secrets d' !! n = d_secrets d !! n ∨ (n = nv.1 ∧ d_secrets d' !! n = Some (delivered nv.2)).
Proof.
  unfold GuestSecrets.write_secret, GuestSecrets.writeAtomic. destruct (bad_name nv.1); [intros [= <- <-]; split_and!; try done; by left|].
  destruct (fails (InSecrets nv.1)) as [c|].
  - assert (∀ c, (modify (leave_temp stuck temp (InSecrets nv.1)) ≫= λ _, fail (SecretWrite (InSecrets nv.1) c)) d = (r, d') →
      d_env d' = d_env d ∧ d_imported d' = d_imported d ∧ (r = Ok () → d_secrets d' = <[nv.1 := delivered nv.2]> (d_secrets d)) ∧
      ∀ n, (∀ t, n ≠ temp t) → d_secrets d' !! n = d_secrets d !! n ∨ (n = nv.1 ∧ d_secrets d' !! n = Some (delivered nv.2))) as H.
    { intros c' [= <- <-]. unfold leave_temp. destruct (stuck _); split_and!; try done; intros n Hn; left; [|done].
      cbn. rewrite lookup_partial_alter_ne; [done|]. by apply not_eq_sym, Hn. }
    destruct c; [intros [= <- <-]; split_and!; try done; by left|by apply H..].
  - intros [= <- <-]. split_and!; [done|done|done|]. intros n _. cbn. destruct (decide (n = nv.1)) as [->|Hne].
    + right. split; [done|]. apply lookup_partial_alter_eq.
    + left. rewrite lookup_partial_alter_ne; [done|congruence].
Qed.
Lemma each_secret_spec l d r d' : NoDup l.*1 → StateErr.each write_secret l d = (r, d') →
  d_env d' = d_env d ∧ d_imported d' = d_imported d ∧
  (r = Ok () → ∀ n, d_secrets d' !! n = match (list_to_map l : gmap string string) !! n with Some v => Some (delivered v) | None => d_secrets d !! n end) ∧
  ∀ n, (∀ t, n ≠ temp t) → d_secrets d' !! n = d_secrets d !! n ∨ ∃ v, (n, v) ∈ l ∧ d_secrets d' !! n = Some (delivered v).
Proof.
  revert d. induction l as [|[x v] l IH]; intros d Hn H; cbn [StateErr.each] in H.
  { change ((Ok (), d) = (r, d')) in H. injection H as <- <-. split_and!; try done. intros n _. by left. }
  cbn [fmap list_fmap fst] in Hn. apply NoDup_cons in Hn as [Hx Hn]. unfold mbind, op_bind in H.
  destruct (write_secret (x, v) d) as [[[]|e] d1] eqn:E1; destruct (write_secret_spec _ _ _ _ E1) as (He & Hi & Hok & Hany); cbn [fst snd] in *.
  - destruct (IH d1 Hn H) as (He' & Hi' & Hok' & Hany'). split_and!; [congruence|congruence| |].
    + intros Hr n. rewrite (Hok' Hr n) (Hok eq_refl) list_to_map_cons. destruct (decide (n = x)) as [->|Hne].
      * rewrite !lookup_insert_eq. rewrite (not_elem_of_list_to_map_1 (M:=gmap string) l x Hx). done.
      * apply not_eq_sym in Hne. by rewrite !lookup_insert_ne.
    + intros n Hn'. destruct (Hany' n Hn') as [->|(w & Hw & E)]; [|right; exists w; split; [by right|done]].
      destruct (Hany n Hn') as [H1|[-> H1]]; [by left|right; exists v; split; [by left|done]].
  - injection H as <- <-. split_and!; [done|done|done|]. intros n Hn'. destruct (Hany n Hn') as [H1|[-> H1]]; [by left|right; exists v; split; [by left|done]].
Qed.

Lemma bad_entry_false kv : bad_entry kv = false → has_char (chr 10) kv = false ∧ kv ≠ "".
Proof.
  unfold bad_entry. rewrite orb_false_iff negb_false_iff. intros [H1 H2]. split; [|by intros ->].
  clear H2. revert H1. unfold ContainsAny, has_char. induction kv as [|c kv IH]; [done|]. cbn [sexists]. rewrite !orb_false_iff. intros [Hc H]. split.
  - destruct Hc as [Hc _]. rewrite Ascii.eqb_sym. exact Hc.
  - by apply IH.
Qed.
Lemma env_text_lines env : forallb (λ kv, negb (bad_entry kv)) env = true →
  filter (λ l, l ≠ "") (Split (env_text env) newline) = env.
Proof.
  intros H. assert (Split (env_text env) newline = env ++ [""] ∧ Forall (λ kv, kv ≠ "") env) as [-> Hne].
  - induction env as [|kv env IH]; [done|]. cbn [forallb] in H. apply andb_true_iff in H as [Hk H].
    apply negb_true_iff, bad_entry_false in Hk as [Hk He]. destruct (IH H) as [E Hf]. split; [|by constructor].
    transitivity (Split (kv +:+ String (chr 10) (env_text env)) newline).
    + f_equal. unfold env_text. destruct env as [|kv' env]; cbn [map String.concat].
      * done || by rewrite sapp_nil_r.
      * change (("" : string) +:+ ?x) with x. by rewrite -sapp_assoc.
    + rewrite (Split_cons (chr 10) kv _ Hk) E. done.
  - rewrite filter_app. change (filter (λ l, l ≠ "") [""]) with (@nil string). rewrite app_nil_r. induction Hne as [|kv env Hk Hne IH]; [done|]. rewrite filter_cons_True; [|done]. f_equal. apply IH.
    cbn [forallb] in H. by apply andb_true_iff in H as [_ H].
Qed.

(** What follows the removal of stale entries: the environment file and the keys. *)
Definition finish (s : secrets) : dop () :=
  _ ← ensure (forallb (λ kv, negb (bad_entry kv)) (s_Env s)) SecretEntry;
  _ ← writeAtomic EnvFile (env_text (s_Env s)) mode_600;
  if String.eqb (s_GPGPublicKeys s) "" then mret () else modify (import (s_GPGPublicKeys s)).
Lemma finish_spec s d r d' : finish s d = (r, d') →
  d_secrets d' = d_secrets d ∧ (d_env d' = d_env d ∨ d_env d' = Some (env_text (s_Env s))) ∧
  (r = Ok () → d_env d' = Some (env_text (s_Env s)) ∧ forallb (λ kv, negb (bad_entry kv)) (s_Env s) = true).
Proof.
  unfold finish. destruct (forallb _ _); [|by intros [= <- <-]; split_and!; [|left|]].
  unfold GuestSecrets.writeAtomic. destruct (fails EnvFile) as [[]|]; try by intros [= <- <-]; split_and!; [|left|].
  destruct (String.eqb _ _); intros [= <- <-]; split_and!; try done; by right.
Qed.
Lemma WriteSecrets_finish order s d r d' : WriteSecrets order s d = (r, d') → ∃ r1 d1,
  StateErr.each write_secret order d = (r1, d1) ∧
  ((r1 = Ok () ∧ finish s (remove_stale stuck s d1) = (r, d')) ∨ (r ≠ Ok () ∧ d' = d1)).
Proof.
  unfold GuestSecrets.WriteSecrets, mbind at 1, op_bind at 1. destruct (StateErr.each write_secret order d) as [[[]|e] d1].
  - intros H. exists (Ok ()), d1. split; [done|]. by left.
  - intros [= <- <-]. exists (Err e), d1. split; [done|]. by right.
Qed.
Lemma remove_stale_lookup s d n : d_secrets (remove_stale stuck s d) !! n = if stale s n && negb (stuck n) then None else d_secrets d !! n.
Proof.
  cbn [remove_stale d_secrets]. destruct (stale s n && negb (stuck n)) eqn:E.
  - apply map_lookup_filter_None. right. intros f _ H. cbn in H. congruence.
  - destruct (d_secrets d !! n) as [f|] eqn:Ef; [by apply map_lookup_filter_Some|]. apply map_lookup_filter_None. by left.
Qed.

(** A delivery of secrets. When it succeeds, every file of the payload is
    in the secrets directory with the delivered content, readable by the owner
    only, whatever the order in which the files are written; every other file that is
    not a temporary one and can be removed is gone; and a program gets exactly
    the delivered environment entries between its own environment and the extra
    ones, the last entry of a name winning. Whatever the result, a file the
    directory holds is an old one as it was or a new one in full, and the
    environment file has the old content or the whole new one. *)
Theorem WriteSecrets_delivers order s d r d' environ extra :
  order ≡ₚ map_to_list (s_Files s) → (∀ t, HasPrefix (temp t) ".tmp-" = true) →
  WriteSecrets order s d = (r, d') →
  (r = Ok () →
    (∀ n v, s_Files s !! n = Some v → d_secrets d' !! n = Some {| sf_data := v; sf_mode := mode_400 |}) ∧
    (∀ n, s_Files s !! n = None → HasPrefix n ".tmp-" = false → stuck n = false → d_secrets d' !! n = None) ∧
    programEnv environ (d_env d') extra = lastWins (environ ++ s_Env s ++ extra)) ∧
  (∀ n f, HasPrefix n ".tmp-" = false → d_secrets d' !! n = Some f →
    d_secrets d !! n = Some f ∨ ∃ v, s_Files s !! n = Some v ∧ f = {| sf_data := v; sf_mode := mode_400 |}) ∧
  (d_env d' = d_env d ∨ d_env d' = Some (env_text (s_Env s))).
Proof.
  intros Ho Ht H. destruct (WriteSecrets_finish _ _ _ _ _ H) as (r1 & d1 & E & Hcase).
  assert (Hnd : NoDup order.*1) by (rewrite Ho; apply NoDup_fst_map_to_list).
  destruct (each_secret_spec _ _ _ _ Hnd E) as (He & _ & Hok & Hany).
  assert (Hold : ∀ n f, HasPrefix n ".tmp-" = false → d_secrets d1 !! n = Some f →
    d_secrets d !! n = Some f ∨ ∃ v, s_Files s !! n = Some v ∧ f = delivered v).
  { intros n f Hn Hf. destruct (Hany n) as [Hd|(v & Hv & Hd)]; [intros t ->; rewrite Ht in Hn; done|left; congruence|].
    right. exists v. rewrite Ho elem_of_map_to_list in Hv. split; [done|congruence]. }
  destruct Hcase as [[-> Hf]|[Hr Hd]]; [|subst d'; split; [done|split; [exact Hold|by left]]].
  destruct (finish_spec _ _ _ _ Hf) as (Hs & Henv & Hfin). split; [|split].
  - intros Hr. destruct (Hfin Hr) as [Hev Hgood].
    assert (Hl : ∀ n, d_secrets d1 !! n = match s_Files s !! n with Some v => Some (delivered v) | None => d_secrets d !! n end).
    { intros n. rewrite (Hok eq_refl n). rewrite (list_to_map_proper order (map_to_list (s_Files s)) Hnd Ho) list_to_map_to_list. done. }
    split_and!.
    + intros n v Hv. rewrite Hs remove_stale_lookup Hl Hv. unfold stale. by rewrite Hv bool_decide_eq_true_2.
    + intros n Hn Ht' Hst. rewrite Hs remove_stale_lookup. unfold stale. rewrite Hn Ht' Hst bool_decide_eq_false_2; [done|]. by intros [].
    + unfold programEnv. rewrite Hev (env_text_lines _ Hgood). done.
  - intros n f Hn Hfn. rewrite Hs remove_stale_lookup in Hfn. destruct (_ && _); [done|]. by apply Hold.
  - destruct Henv as [-> | ->]; [left; exact He|by right].
Qed.
End Delivery.

Definition no_fails (_ : target) : option call := None.
Definition example_secrets : secrets :=
  {| s_Env := ["TOKEN=a=b"; "HOME=/x"]; s_Files := {[ "key" := "secret" ]}; s_GPGPublicKeys := "" |}.
Definition example_dirs : dirs :=
  {| d_secrets := {[ "old" := {| sf_data := "gone"; sf_mode := mode_400 |} ]}; d_env := None; d_imported := [] |}.
Definition example_temp (_ : target) : string := ".tmp-1".
Lemma WriteSecrets_delivers_witness :
  let d' := (WriteSecrets no_fails (λ _, false) example_temp [("key", "secret")] example_secrets example_dirs).2 in
  d_secrets d' !! "key" = Some {| sf_data := "secret"; sf_mode := mode_400 |} ∧ d_secrets d' !! "old" = None ∧
  programEnv ["HOME=/root"; "A=1"] (d_env d') ["TOKEN=c"] = ["A=1"; "HOME=/x"; "TOKEN=c"].
Proof.
  intros d'.
  destruct (WriteSecrets_delivers no_fails (λ _, false) example_temp [("key", "secret")] example_secrets example_dirs (Ok ()) d'
    ["HOME=/root"; "A=1"] ["TOKEN=c"]) as [H _].
  - vm_compute. reflexivity.
  - intros t. reflexivity.
  - reflexivity.
  - destruct (H eq_refl) as (H1 & H2 & ->). split; [apply H1; reflexivity|]. split; [apply H2; reflexivity|]. vm_compute. reflexivity.
Defined.
