(* ===== verification/GitProtect.v ===== *)
(** * Protecting Git repositories in writable shares

    [gitProtection] of [src/internal/cmd/vmgit_unix.go] and its [gitProtector]:
    from the writable shares and the inherited Git configuration it derives the
    guest paths to pin and to mount read-only, creating the files Git would read
    once created. The receiver and the file system are the state; the share
    roots and the mount points do not change during a scan. Shares have
    absolute host paths. *)

From S2P Require Import Prelude GoStrings GoSort GoPath GitConfig HostFS StateErr Vm.
Open Scope string_scope.
Open Scope list_scope.

Record shareRoot := { r_guest : path; r_host : path; r_real : path }.
#[export] Instance shareRoot_eq_dec : EqDecision shareRoot.
Proof. solve_decision. Defined.
Record gitConfig := { hooksPaths : list string; worktreeConfig : bool }.
Definition no_config : gitConfig := {| hooksPaths := []; worktreeConfig := false |}.
Record view := { v_guest : path; v_root : path }.
(** The receiver with the file system; [protected] is [done]. *)
Record protector := {
  p_fs : fs; p_pins : gset path; p_ro : gset path; p_done : gset path; p_config : gmap path gitConfig; p_scanned : Z
}.
Inductive perr :=
| ELink (p : path) | EResolve | EStat (p : path) | ENotDir (p : path) | ENotFile (p : path) | ECreate (p : path)
| EHooks (d : path) | EHook (p : path) | ECommon (d : path) | EFiles | EUnreadable | EDirs | EScan (p : path) | EFuel.
Definition pm : Type → Type := op protector perr.

Definition maxGitScanDirs : Z := 500000.
Definition maxConfigFiles : nat := 256.
Definition maxHookEntries : Z := 1024.
Definition maxPointerSize : Z := 4096.
Definition maxConfigSize : Z := Z.shiftl 1 20.
Definition gitScanSkip (name : string) : bool :=
  existsb (String.eqb name) ["node_modules"; ".venv"; "venv"; "__pycache__"; ".tox"; ".terraform"; ".next"; ".gradle"; ".cache"].

(** A path as the code has it: absolute, by its components, or relative. *)
Definition upath : Type := path + string.
Definition upath_of (s : string) : upath := if IsAbs s then inl (comps s) else inr (Clean s).
Definition upath_dir (p : upath) : string := match p with inl p => path_string (parent p) | inr s => Dir s end.
(** [filepath.Join] of an absolute directory and a relative path. *)
Definition join_path (dir : path) (s : string) : path := clean_elems true (dir ++ elems s).
Definition plen (p : path) : nat := String.length (path_string p).

Section Protector.
Context (lowerU : string → string) (home : option string) (cwd : string).
Context (klinks : nat) (readable creatable : path → bool).
Context (roots : list shareRoot) (mounts : list path) (inherited : gitConfig).

Let Lstat' (p : path) : pm looked := gets (λ s, Lstat klinks (p_fs s) p).
Let Stat' (p : path) : pm looked := gets (λ s, Stat klinks (p_fs s) p).

(** [rel] of [hostPath] below the real path of [r]; the code calls it for such
    paths only. *)
Definition guestOf (r : shareRoot) (hostPath : path) : path := r_guest r ++ drop (length (r_real r)) hostPath.
Definition shown (full : path) (r : shareRoot) : option view :=
  if negb (inside (r_real r) full) then None else
  let guest := guestOf r full in
  if existsb (λ m, (plen (r_guest r) <? plen m)%nat && inside m guest) mounts then None
  else Some {| v_guest := guest; v_root := r_guest r |}.
Definition views (full : path) : list view := omap (M:=list) (shown full) roots.

(** [pinUpTo]: [dir] and its parents down to [root] or the file system root. *)
Fixpoint pin_chain (n : nat) (dir root : path) : list path :=
  match n with
  | O => []
  | S n => if bool_decide (dir = root) || bool_decide (dir = []) then [] else dir :: pin_chain n (parent dir) root
  end.
Definition set_pins (s : protector) (pins : gset path) : protector :=
  {| p_fs := p_fs s; p_pins := pins; p_ro := p_ro s; p_done := p_done s; p_config := p_config s; p_scanned := p_scanned s |}.
Definition add_ro (g : path) (s : protector) : protector :=
  {| p_fs := p_fs s; p_pins := p_pins s; p_ro := {[g]} ∪ p_ro s; p_done := p_done s; p_config := p_config s; p_scanned := p_scanned s |}.
Definition add_done (d : path) (s : protector) : protector :=
  {| p_fs := p_fs s; p_pins := p_pins s; p_ro := p_ro s; p_done := {[d]} ∪ p_done s; p_config := p_config s; p_scanned := p_scanned s |}.
Definition set_config (d : path) (c : gitConfig) (s : protector) : protector :=
  {| p_fs := p_fs s; p_pins := p_pins s; p_ro := p_ro s; p_done := p_done s; p_config := <[d := c]> (p_config s); p_scanned := p_scanned s |}.
Definition set_fs (f : fs) (s : protector) : protector :=
  {| p_fs := f; p_pins := p_pins s; p_ro := p_ro s; p_done := p_done s; p_config := p_config s; p_scanned := p_scanned s |}.
Definition count_dir (s : protector) : protector :=
  {| p_fs := p_fs s; p_pins := p_pins s; p_ro := p_ro s; p_done := p_done s; p_config := p_config s; p_scanned := (p_scanned s + 1)%Z |}.
Definition pinUpTo (dir root : path) (s : protector) : protector :=
  set_pins s (list_to_set (pin_chain (length dir) dir root) ∪ p_pins s).
Definition pin_view (v : view) : protector → protector := pinUpTo (v_guest v) (v_root v).
Definition readOnly_view (v : view) (s : protector) : protector := add_ro (v_guest v) (pinUpTo (parent (v_guest v)) (v_root v) s).
Definition pinHost (full : path) : pm () := modify (λ s, foldl (λ s v, pin_view v s) s (views full)).
Definition readOnlyHost (full : path) : pm () := modify (λ s, foldl (λ s v, readOnly_view v s) s (views full)).

(** ** Locating a path in the shares *)

(** The longest matching base; the first of two equally long ones. *)
Definition match_base (p : path) (acc : option (shareRoot * path)) (c : shareRoot * path) : option (shareRoot * path) :=
  let len := match acc with Some (_, base) => Z.of_nat (plen base) | None => (-1)%Z end in
  if inside c.2 p && (len <? Z.of_nat (plen c.2))%Z then Some c else acc.
Definition best_base (p : path) (cands : list (shareRoot * path)) : option (shareRoot * path) := foldl (match_base p) None cands.
Definition host_bases : list (shareRoot * path) := flat_map (λ r, [(r, r_real r); (r, r_host r)]) roots.
Definition guest_bases : list (shareRoot * path) := map (λ r, (r, r_guest r)) roots.

Fixpoint noSymlinks (f : fs) (r : shareRoot) (cur rel : path) : result perr () :=
  match rel with
  | [] => Ok ()
  | part :: rel =>
      let cur := cur ++ [part] in
      match Lstat klinks f cur with
      | LMissing => Ok ()
      | LBad => Err (EStat (guestOf r cur))
      | LNode (NLink _) => Err (ELink (guestOf r cur))
      | LNode _ => noSymlinks f r cur rel
      end
  end.
(** The links of the longest prefix that resolves, from [n] components down. *)
Fixpoint resolve_prefix (f : fs) (p : path) (n : nat) : path :=
  match resolve f (take n p) with
  | Some q => q ++ drop n p
  | None => match n with O => p | S n => resolve_prefix f p n end
  end.
Definition resolveExisting (f : fs) (p : path) : path := resolve_prefix f p (length p).

Definition locate_outside (f : fs) (p : path) : option (shareRoot * path) :=
  let resolved := resolveExisting f p in
  (λ r, (r.2, resolved)) <$> list_find (λ r, inside (r_real r) resolved = true) roots.
(** The share that holds [p], with the link-free host path. *)
Definition locate (f : fs) (path : upath) : result perr (option (shareRoot * (list string))) :=
  match path with
  | inl p =>
      match best_base p host_bases with
      | None =>
          match best_base p guest_bases with
          | Some (r, base) =>
              let rel := drop (length base) p in _ ← noSymlinks f r (r_real r) rel; Ok (Some (r, r_real r ++ rel))
          | None =>
              match link_inside f p (map r_real roots) with
              | LinkErr => Err EResolve
              | LinkFound link _ => Err (ELink link)
              | _ => Ok (locate_outside f p)
              end
          end
      | Some (r, base) =>
          let rel := drop (length base) p in _ ← noSymlinks f r (r_real r) rel; Ok (Some (r, r_real r ++ rel))
      end
  | inr s =>
      match linkInside f cwd s (map r_real roots) with
      | LinkErr => Err EResolve
      | LinkFound link _ => Err (ELink link)
      | _ => Ok None
      end
  end.

(** ** Protecting paths *)

Definition make_empty (full guest : path) (dir : bool) : pm () :=
  f ← gets p_fs;
  let '(f', ok) := createEmpty klinks creatable f full dir in
  _ ← modify (set_fs f'); ensure ok (ECreate guest).
(** The checked host path, [None] for the empty string. *)
Definition protect (path : upath) (dir create : bool) : pm (option (list string)) :=
  o ← lift (λ s, locate (p_fs s) path);
  match o with
  | None => mret None
  | Some (r, full) =>
      let guest := guestOf r full in
      l ← Lstat' full;
      match l with
      | LMissing =>
          if create then _ ← make_empty full guest dir; _ ← readOnlyHost full; mret (Some full) else mret None
      | LBad => fail (EStat guest)
      | LNode n =>
          if dir && negb (is_dir l) then fail (ENotDir guest)
          else if negb dir && negb (is_regular l) then fail (ENotFile guest)
          else _ ← readOnlyHost full; mret (Some full)
      end
  end.

Definition hook_target (dir : path) (e : string * node) : pm () :=
  match e.2 with
  | NLink link =>
      let target := upath_of (resolvePointer (path_string dir) link) in
      full ← protect target false false;
      match full with
      | Some _ => mret ()
      | None =>
          s ← gets id;
          match locate (p_fs s) target with Ok (Some _) => fail (EHook (dir ++ [e.1])) | _ => mret () end
      end
  | _ => mret ()
  end.
Definition hookTargets (dir : option path) : pm () :=
  match dir with
  | None => mret ()
  | Some dir =>
      es ← gets (λ s, ReadDir klinks readable (p_fs s) dir);
      match es with
      | None => mret ()
      | Some es => if (maxHookEntries <? Z.of_nat (length es))%Z then fail (EHooks dir) else each (hook_target dir) es
      end
  end.

(** ** Configuration *)

(** [seen] and [count] of the walk. *)
Definition walk : Type := gset upath * nat.
Definition newConfigWalk : walk := (∅, O).
Definition read_config (path : upath) (f : fs) : option string :=
  match path with
  | inl p => readSmall klinks readable f p maxConfigSize false
  | inr s => readSmall klinks readable f (comps (Abs cwd s)) maxConfigSize false
  end.
Definition config_missing (path : upath) (f : fs) : bool :=
  is_missing (Stat klinks f (match path with inl p => p | inr s => comps (Abs cwd s) end)).

Inductive effect := SetHooks (s : string) | SetWorktree (b : bool) | Include (p : upath) | NoEffect.
Definition entry_effect (path : upath) (e : gitConfigEntry) : effect :=
  if String.eqb (g_section e) "core" && String.eqb (g_key e) "hookspath" then SetHooks (expandGitPath home (g_value e) "")
  else if String.eqb (g_section e) "extensions" && String.eqb (g_key e) "worktreeconfig" then SetWorktree (gitBool lowerU (g_value e))
  else if (String.eqb (g_section e) "include" || String.eqb (g_section e) "includeif") && String.eqb (g_key e) "path"
          && negb (String.eqb (g_value e) "")
       then Include (upath_of (expandGitPath home (g_value e) (upath_dir path)))
  else NoEffect.
Section Entries.
Context (rec : upath → gitConfig → walk → pm (gitConfig * walk)) (path : upath).
Fixpoint config_entries (es : list gitConfigEntry) (cfg : gitConfig) (w : walk) : pm (gitConfig * walk) :=
  match es with
  | [] => mret (cfg, w)
  | e :: es =>
      match entry_effect path e with
      | SetHooks v => config_entries es {| hooksPaths := hooksPaths cfg ++ [v]; worktreeConfig := worktreeConfig cfg |} w
      | SetWorktree b => config_entries es {| hooksPaths := hooksPaths cfg; worktreeConfig := worktreeConfig cfg || b |} w
      | Include inc => cw ← rec inc cfg w; config_entries es cw.1 cw.2
      | NoEffect => config_entries es cfg w
      end
  end.
End Entries.
Fixpoint configFile (fuel : nat) (path : upath) (cfg : gitConfig) (w : walk) : pm (gitConfig * walk) :=
  match fuel with
  | O => fail EFuel
  | S fuel =>
      if bool_decide (path ∈ w.1) then mret (cfg, w) else
      let w : walk := ({[path]} ∪ w.1, S w.2) in
      if (maxConfigFiles <? w.2)%nat then fail EFiles else
      _ ← protect path false true;
      data ← gets (λ s, read_config path (p_fs s));
      match data with
      | None => missing ← gets (λ s, config_missing path (p_fs s)); if missing : bool then mret (cfg, w) else fail EUnreadable
      | Some data => config_entries (configFile fuel) path (parseGitConfig lowerU data) cfg w
      end
  end.
(** Every nested call has counted one more file. *)
Definition config_fuel : nat := 258.
Definition readConfig (path : upath) (cfg : gitConfig) : pm gitConfig :=
  cw ← configFile config_fuel path cfg newConfigWalk; mret cw.1.

Definition hook_dirs (path : string) (worktree : option (list string)) (dir : list string) : list upath :=
  if String.eqb path "" then []
  else if IsAbs path then [inl (comps path)]
  else inl (join_path dir path) :: match worktree with Some w => [inl (join_path w path)] | None => [] end.
Definition hooks_dir (path : upath) : pm () := hooks ← protect path true true; hookTargets hooks.
Definition hooksPath (cfg : gitConfig) (worktree : option path) (dir : path) : pm () :=
  each (λ p, each hooks_dir (hook_dirs p worktree dir)) (hooksPaths cfg).

(** ** Git directories *)

Definition pointer (f : fs) (p : path) : option string := readPointer (readSmall klinks readable f p maxPointerSize true).
Definition child_names (d : path) (s : protector) : option (list (string * node)) := ReadDir klinks readable (p_fs s) d.

(** The hooks and the configuration of [dir]. The code records the
    configuration before it reads the file into it; nothing looks at the record
    in between. *)
Definition protect_files (dir : path) : pm gitConfig :=
  hooks ← protect (inl (dir ++ ["hooks"])) true true;
  _ ← hookTargets hooks;
  readConfig (inl (dir ++ ["config"])) inherited.

Section GitDir.
Context (gitDir : shareRoot → path → option path → pm ()).
(** The walk over the submodule directories, one level per unit of fuel. *)
Fixpoint walk_modules (fuel : nat) (r : shareRoot) (d : path) : pm () :=
  match fuel with
  | O => fail EFuel
  | S fuel =>
      es ← gets (child_names d);
      each (λ e : string * node,
        if negb (bool_decide (e.2 = NDir)) then mret () else
        let path := d ++ [e.1] in
        head ← Stat' (path ++ ["HEAD"]);
        match head with
        | LNode _ => gitDir r path None
        | _ => walk_modules fuel r path
        end) (default [] es)
  end.
Definition protectCommonDir (fuel : nat) (r : shareRoot) (dir : path) : pm () :=
  done ← gets (λ s, bool_decide (dir ∈ p_done s));
  if done : bool then mret () else
  _ ← modify (add_done dir);
  _ ← pinHost dir;
  cfg ← protect_files dir;
  _ ← modify (set_config dir cfg);
  let modules := dir ++ ["modules"] in
  st ← Stat' modules;
  l ← Lstat' modules;
  match st with
  | LNode _ => if is_dir l then walk_modules fuel r modules else mret ()
  | _ => mret ()
  end.
Definition protectGitDir (fuel : nat) (r : shareRoot) (dir : path) : pm (option path) :=
  common ← gets (λ s, pointer (p_fs s) (dir ++ ["commondir"]));
  match common with
  | None => _ ← protectCommonDir fuel r dir; mret (Some dir)
  | Some common =>
      done ← gets (λ s, bool_decide (dir ∈ p_done s));
      _ ← (if done : bool then mret () else
             _ ← modify (add_done dir); _ ← pinHost dir; readOnlyHost (dir ++ ["commondir"]));
      o ← lift (λ s, locate (p_fs s) (upath_of (resolvePointer (path_string dir) common)));
      match o with
      | None => mret None
      | Some (cr, commonDir) =>
          st ← Stat' commonDir;
          if negb (is_dir st) then mret None else
          again ← gets (λ s, pointer (p_fs s) (commonDir ++ ["commondir"]));
          match again with
          | Some _ => fail (ECommon (guestOf r dir))
          | None => _ ← protectCommonDir fuel cr commonDir; mret (Some commonDir)
          end
      end
  end.
Definition gitDir_body (fuel : nat) (r : shareRoot) (dir : path) (worktree : option path) : pm () :=
  common ← protectGitDir fuel r dir;
  cfg ← gets (λ s, default no_config (c ← common; p_config s !! c));
  let own := inl (dir ++ ["config.worktree"]) in
  if worktreeConfig cfg then cfg ← readConfig own cfg; hooksPath cfg worktree dir
  else _ ← protect own false false; hooksPath cfg worktree dir.
End GitDir.
Fixpoint gitDir (fuel : nat) (r : shareRoot) (dir : path) (worktree : option path) : pm () :=
  match fuel with O => fail EFuel | S fuel => gitDir_body (gitDir fuel) fuel r dir worktree end.

Definition linked (fuel : nat) (target : upath) (worktree : path) : pm () :=
  o ← lift (λ s, locate (p_fs s) target);
  match o with
  | None => mret ()
  | Some (r, dir) => st ← Stat' dir; if is_dir st then gitDir fuel r dir (Some worktree) else mret ()
  end.
Definition repo (fuel : nat) (r : shareRoot) (gitPath : path) (n : node) : pm () :=
  let worktree := parent gitPath in
  _ ← pinHost worktree;
  match n with
  | NDir => gitDir fuel r gitPath (Some worktree)
  | _ =>
      _ ← readOnlyHost gitPath;
      match n with
      | NFile _ =>
          content ← gets (λ s, pointer (p_fs s) gitPath);
          match content ≫= λ c, CutPrefix c "gitdir:" with
          | Some target => linked fuel (upath_of (resolvePointer (path_string worktree) (TrimSpace target))) worktree
          | None => mret ()
          end
      | _ => mret ()
      end
  end.

(** ** The scan *)

Definition isBareRepo (f : fs) (dir : path) : bool :=
  is_regular (Lstat klinks f (dir ++ ["HEAD"])) && is_dir (Lstat klinks f (dir ++ ["objects"])) && is_dir (Lstat klinks f (dir ++ ["refs"])).
(** The callback of the walk: whether to descend. *)
Definition visit (fuel : nat) (r : shareRoot) (p : path) (n : node) : pm bool :=
  let isdir := bool_decide (n = NDir) in
  let top := bool_decide (p = r_real r) in
  let name := default "" (last p) in
  if negb top && isdir && bool_decide (guestOf r p ∈ mounts) then mret false
  else if String.eqb name ".git" && negb top then _ ← repo fuel r p n; mret false
  else if negb isdir then mret false
  else if negb top && gitScanSkip name then mret false
  else
    bare ← gets (λ s, isBareRepo (p_fs s) p);
    if bare : bool then _ ← gitDir fuel r p None; mret false
    else
      _ ← modify count_dir;
      n ← gets p_scanned;
      if (maxGitScanDirs <? n)%Z then fail EDirs else mret true.
Fixpoint scan (fuel : nat) (r : shareRoot) (p : path) (n : node) : pm () :=
  match fuel with
  | O => fail EFuel
  | S fuel =>
      descend ← visit fuel r p n;
      if descend : bool then
        es ← gets (child_names p);
        match es with
        | None => if bool_decide (p = r_real r) then fail (EScan p) else mret ()
        | Some es => each (λ e : string * node, scan fuel r (p ++ [e.1]) e.2) es
        end
      else mret ()
  end.
Definition scan_root (fuel : nat) (r : shareRoot) : pm () :=
  l ← Lstat' (r_real r);
  match l with LNode n => scan fuel r (r_real r) n | _ => fail (EScan (r_real r)) end.
Definition scan_roots (fuel : nat) : pm () := each (scan_root fuel) roots.
End Protector.

(** ** The whole protection *)

Definition fresh (f : fs) : protector :=
  {| p_fs := f; p_pins := ∅; p_ro := ∅; p_done := ∅; p_config := ∅; p_scanned := 0 |}.
(** The writable shares, their real paths resolved, and every mount point. *)
Definition share_root (f : fs) (s : Share) : result perr (list shareRoot) :=
  if ReadOnly s then Ok [] else
  let host := comps (HostPath s) in
  match resolve f host with
  | Some real => Ok [ {| r_guest := comps (guestPath s); r_host := host; r_real := real |} ]
  | None => Err (EScan host)
  end.
Definition share_roots (f : fs) (shares : list Share) : result perr (list shareRoot) := (@concat _) <$> rmap (share_root f) shares.

Section Protection.
Context (lowerU : string → string) (home : option string) (cwd : string).
Context (klinks : nat) (readable creatable : path → bool) (fuel : nat).

(** The inherited files, read one after the other into one configuration. *)
Fixpoint read_inherited (roots : list shareRoot) (mounts : list path) (files : list string) (cfg : gitConfig) : pm gitConfig :=
  match files with
  | [] => mret {| hooksPaths := hooksPaths cfg; worktreeConfig := false |}
  | file :: files =>
      cfg ← readConfig lowerU home cwd klinks readable creatable roots mounts (upath_of file) cfg;
      read_inherited roots mounts files cfg
  end.
Definition protect_roots (roots : list shareRoot) (mounts : list path) (files : list string) : pm () :=
  inherited ← read_inherited roots mounts files no_config;
  scan_roots lowerU home cwd klinks readable creatable roots mounts inherited fuel.
Definition sortedKeys (s : gset path) : list string := sort_strings (map path_string (elements s)).
(** The pins, the read-only paths, and the file system the scan leaves. *)
Definition gitProtection (shares : list Share) (files : list string) (f : fs) : result perr (list string * list string) * protector :=
  match share_roots f shares with
  | Err e => (Err e, fresh f)
  | Ok roots =>
      let '(r, s) := protect_roots roots (map (λ s, comps (guestPath s)) shares) files (fresh f) in
      (_ ← r; Ok (sortedKeys (p_pins s), sortedKeys (p_ro s)), s)
  end.
End Protection.

(** A repository with an include, a symlinked hook and a worktree pointer. *)
Definition host_fs : fs :=
  <[["home"] := NDir]> (<[["home"; ".gitconfig"] := NFile ("[core]" +:+ newline +:+ "hooksPath = .husky" +:+ newline)]>
  (<[["w"] := NDir]> (<[["w"; "a"] := NDir]> (<[["w"; "a"; ".git"] := NDir]>
  (<[["w"; "a"; ".git"; "config"] := NFile ("[include]" +:+ newline +:+ "path = extra" +:+ newline)]>
  (<[["w"; "a"; ".git"; "hooks"] := NDir]> (<[["w"; "a"; ".git"; "hooks"; "pre-push"] := NLink "../../run.sh"]>
  (<[["w"; "a"; "run.sh"] := NFile ""]> ∅)))))))).
Definition run_example (shares : list Share) (f : fs) :=
  gitProtection (λ s, s) (Some "/home") "/" 40 (λ _, true) (λ _, true) 20 shares ["/etc/gitconfig"; "/home/.gitconfig"] f.
Definition ws_share (host guest : string) : Share := {| HostPath := host; GuestPath := guest; ReadOnly := false |}.
Example gitProtection_ex :
  (run_example [ws_share "/w" "/work"] host_fs).1 =
    Ok (["/work/a"; "/work/a/.git"],
        ["/work/a/.git/.husky"; "/work/a/.git/config"; "/work/a/.git/extra"; "/work/a/.git/hooks"; "/work/a/.husky"; "/work/a/run.sh"]) ∧
  p_fs (run_example [ws_share "/w" "/work"] host_fs).2 !! ["w"; "a"; ".husky"] = Some NDir.
Proof. split; vm_compute; reflexivity. Qed.
(** A link inside the share on the way to a protected path stops the scan. *)
Example gitProtection_link :
  (run_example [ws_share "/w" "/work"] (<[["w"; "a"; ".git"; "extra"] := NLink "/etc/x"]> host_fs)).1 =
    Err (ELink ["work"; "a"; ".git"; "extra"]).
Proof. vm_compute. reflexivity. Qed.
(** A link outside the shares to a file that is missing in a writable share is
    taken for a path outside the shares: the scan succeeds without protecting
    or creating the file, which Git reads as soon as the guest creates it. *)
Definition dangling_fs : fs := <[["home"; ".gitconfig"] := NLink "/w/dotfiles"]> (<[["home"] := NDir]> (<[["w"] := NDir]> ∅)).
Example dangling_unprotected :
  (run_example [ws_share "/w" "/work"] dangling_fs).1 = Ok ([], []) ∧
  p_fs (run_example [ws_share "/w" "/work"] dangling_fs).2 !! ["w"; "dotfiles"] = None ∧
  read_config "/" 40 (λ _, true) (inl ["home"; ".gitconfig"])
    (<[["w"; "dotfiles"] := NFile "[core]"]> (p_fs (run_example [ws_share "/w" "/work"] dangling_fs).2)) = Some "[core]".
Proof. repeat split; vm_compute; reflexivity. Qed.
(** A directory that looks like a bare repository is not descended into, so a
    guest that adds HEAD, objects and refs to a work tree hides the repositories
    in it, its own .git included, from the next scan. *)
Definition bare_fs : fs :=
  <[["w"; "HEAD"] := NFile ""]> (<[["w"; "objects"] := NDir]> (<[["w"; "refs"] := NDir]>
  (<[["w"; ".git"] := NDir]> (<[["w"; ".git"; "config"] := NFile ""]> (<[["w"] := NDir]> ∅))))).
Example bare_hides_repo :
  (run_example [ws_share "/w" "/work"] bare_fs).1 = Ok ([], ["/work/config"; "/work/hooks"]).
Proof. vm_compute. reflexivity. Qed.
