(* ===== verification/GitProtectSpec.v ===== *)
(** * What the Git protection guarantees

    The invariant every operation of [GitProtect] keeps whatever its result, and
    what follows for a whole scan: it only adds empty files and directories
    inside writable shares, it pins every directory above a read-only path, it
    protects every repository it reaches, and it ends. *)

From S2P Require Import Prelude GoStrings GoSort GoPath GitConfig HostFS StateErr Vm GitProtect.
Open Scope string_scope.
Open Scope list_scope.

(** ** Pins *)

Lemma inside_spec base p : inside base p = true ↔ base `prefix_of` p.
Proof. apply bool_decide_eq_true. Qed.
Lemma strictly_inside_spec base p : strictly_inside base p = true ↔ base `prefix_of` p ∧ p ≠ base.
Proof. unfold strictly_inside. rewrite andb_true_iff inside_spec negb_true_iff bool_decide_eq_false. done. Qed.
Lemma pin_chain_spec n dir root q :
  (length dir ≤ n)%nat → root `prefix_of` dir → strictly_inside root q = true → q `prefix_of` dir → q ∈ pin_chain n dir root.
Proof.
  rewrite strictly_inside_spec. intros Hn Hr [Hrq Hne]. revert dir Hn Hr. induction n as [|n IH]; intros dir Hn Hr Hq.
  { destruct dir; [|cbn in Hn; lia]. apply prefix_nil_inv in Hq as ->. by apply prefix_nil_inv in Hrq as ->. }
  cbn. destruct dir as [|x dir _] using rev_ind; [apply prefix_nil_inv in Hq as ->; by apply prefix_nil_inv in Hrq as ->|].
  assert (Hl : (length dir ≤ n)%nat) by (rewrite length_app in Hn; change (length [x]) with 1%nat in Hn; lia). rewrite parent_snoc. case_bool_decide as E1.
  { subst root. destruct Hne. apply (anti_symm prefix); done. }
  case_bool_decide as E2; [by destruct dir|]. cbn. apply prefix_snoc_cases in Hq as [Hq| ->]; [right|left].
  apply IH; [done| |done]. by apply prefix_snoc_cases in Hr as [?| ->].
Qed.

(** ** The invariant of a scan *)

Section Invariant.
Context (roots : list shareRoot) (mounts : list path).
Local Abbreviation views := (views roots mounts).

(** What the scan may create: something strictly inside a writable share. *)
Definition creation (q : path) : Prop := Forall plain q ∧ ∃ r, r ∈ roots ∧ strictly_inside (r_real r) q = true.
Definition roots_ok (f : fs) : Prop :=
  ∀ r, r ∈ roots → Forall plain (r_host r) ∧ link_walk f (map r_real roots) maxLinkHops [] (r_host r) = (LinkNone, r_real r).
(** Every directory between the share and [g] is pinned. *)
Definition pinned (pins : gset path) (g : path) : Prop :=
  ∃ r, r ∈ roots ∧ r_guest r `prefix_of` g ∧ ∀ q, strictly_inside (r_guest r) q = true → q `prefix_of` g → q ≠ g → q ∈ pins.
Definition ro_views (s : protector) (full : path) : Prop := ∀ v, v ∈ views full → v_guest v ∈ p_ro s.
Definition dir_protected (s : protector) (d : path) : Prop :=
  node_at (p_fs s) (d ++ ["hooks"]) = Some NDir ∧ ro_views s (d ++ ["hooks"]) ∧
  (∃ data, node_at (p_fs s) (d ++ ["config"]) = Some (NFile data)) ∧ ro_views s (d ++ ["config"]).
Record Inv (s : protector) : Prop := {
  inv_named : named (p_fs s);
  inv_tree : tree (p_fs s);
  inv_roots : roots_ok (p_fs s);
  inv_ro : ∀ g, g ∈ p_ro s → pinned (p_pins s) g;
  inv_config : ∀ d c, p_config s !! d = Some c → dir_protected s d
}.
Record grow (s s' : protector) : Prop := {
  grow_fs : grown creation (p_fs s) (p_fs s');
  grow_pins : p_pins s ⊆ p_pins s';
  grow_ro : p_ro s ⊆ p_ro s';
  grow_config : ∀ d, is_Some (p_config s !! d) → is_Some (p_config s' !! d)
}.
#[local] Instance grow_preorder : PreOrder grow.
Proof.
  split; [intros s; split; try reflexivity; done|]. intros s1 s2 s3 [H1 H2 H3 C1] [H4 H5 H6 C2].
  split; [exact (transitivity H1 H4)|exact (transitivity H2 H5)|exact (transitivity H3 H6)|by auto].
Qed.

Lemma pinned_mono pins pins' g : pins ⊆ pins' → pinned pins g → pinned pins' g.
Proof. intros Hp (r & Hr & Hg & H). exists r. repeat split; try done. intros q H1 H2 H3. by apply Hp, H. Qed.
Lemma ro_views_mono s s' full : grow s s' → ro_views s full → ro_views s' full.
Proof. intros Hg H v Hv. by apply (grow_ro _ _ Hg), H. Qed.
Lemma dir_protected_mono s s' d : grow s s' → dir_protected s d → dir_protected s' d.
Proof.
  intros Hg (H1 & H2 & (data & H3) & H4). pose proof (grown_subseteq _ _ _ (grow_fs _ _ Hg)) as Hf.
  split; [exact (node_at_mono _ _ _ _ Hf H1)|]. split; [exact (ro_views_mono _ _ _ Hg H2)|].
  split; [exists data; exact (node_at_mono _ _ _ _ Hf H3)|exact (ro_views_mono _ _ _ Hg H4)].
Qed.
Lemma roots_ok_mono f f' : f ⊆ f' → roots_ok f → roots_ok f'.
Proof. intros Hf H r Hr. destruct (H r Hr) as [H1 H2]. split; [done|]. by apply (link_walk_mono f); [|apply clean_nil|]. Qed.
Lemma root_clean f r : roots_ok f → r ∈ roots → clean f (r_real r).
Proof. intros H Hr. destruct (H r Hr) as [_ Hw]. exact (link_walk_clean _ _ _ _ _ _ Hw (clean_nil f)). Qed.

(** A step that keeps the configuration keeps the invariant when it only adds
    pinned read-only paths. *)
Lemma Inv_grow s s' :
  Inv s → grow s s' → p_config s' = p_config s → (∀ g, g ∈ p_ro s' → g ∈ p_ro s ∨ pinned (p_pins s') g) → Inv s'.
Proof.
  intros [H1 Ht H2 H3 H4] Hg Hc Hro. split.
  - apply (grown_named creation (p_fs s)); [by intros q []|apply Hg|done].
  - by apply (grow_fs _ _ Hg).
  - apply (roots_ok_mono (p_fs s)); [apply (grown_subseteq creation), Hg|done].
  - intros g Hg'. destruct (Hro g Hg') as [Hold|?]; [|done]. apply (pinned_mono (p_pins s)); [apply Hg|by apply H3].
  - intros d c Hd. rewrite Hc in Hd. apply (dir_protected_mono s); [done|by apply (H4 d c)].
Qed.
Lemma views_spec full v : v ∈ views full → ∃ r, r ∈ roots ∧ v_root v = r_guest r ∧ r_guest r `prefix_of` v_guest v.
Proof.
  unfold views. intros H. apply list_elem_of_omap in H as (r & Hr & E). exists r. split; [done|].
  unfold shown in E. destruct (negb _); [done|]. destruct (existsb _ _); [done|]. injection E as <-. split; [done|].
  cbn. unfold guestOf. by apply prefix_app_r.
Qed.
Lemma post_pinHost full s : Inv s → post Inv grow (pinHost roots mounts full) s (λ _ _, True).
Proof.
  intros Hi. unfold pinHost. assert (∀ l s, Inv s → Inv (foldl (λ s v, pin_view v s) s l) ∧ grow s (foldl (λ s v, pin_view v s) s l)) as H.
  { clear s Hi. induction l as [|v l IH]; intros s Hi; [split; [done|reflexivity]|]. cbn.
    assert (Hg : grow s (pin_view v s)) by (split; cbn; [reflexivity|set_solver|reflexivity|done]).
    destruct (IH (pin_view v s)) as [Hi' Hg']; [apply (Inv_grow s); auto|]. split; [done|]. exact (transitivity Hg Hg'). }
  destruct (H (views full) s Hi). by apply post_modify.
Qed.
Lemma readOnly_view_step v s :
  (∃ r, r ∈ roots ∧ v_root v = r_guest r ∧ r_guest r `prefix_of` v_guest v) → Inv s →
  Inv (readOnly_view v s) ∧ grow s (readOnly_view v s) ∧ v_guest v ∈ p_ro (readOnly_view v s).
Proof.
  intros (r & Hr & Er & Hp) Hi. assert (Hg : grow s (readOnly_view v s)) by (split; cbn; [reflexivity|set_solver|set_solver|done]).
  split; [|split; [done|cbn; set_solver]]. apply (Inv_grow s); [done|done|done|]. intros g Hg'. cbn in Hg'.
  apply elem_of_union in Hg' as [Hg'|?]; [right|by left]. apply elem_of_singleton in Hg' as ->.
  exists r. repeat split; [done|done|]. intros q Hq Hqg Hne. cbn. apply elem_of_union_l, elem_of_list_to_set. rewrite Er.
  assert (Hlen : v_guest v ≠ r_guest r).
  { intros E. apply strictly_inside_spec in Hq as [Hq Hq']. apply Hq'. apply (anti_symm prefix); [|done]. by rewrite -E. }
  destruct (v_guest v) as [|x l _] using rev_ind; [by apply prefix_nil_inv in Hqg|].
  rewrite parent_snoc. apply prefix_snoc_cases in Hqg as [Hqg|?]; [|done]. apply prefix_snoc_cases in Hp as [Hp|?]; [|congruence].
  by apply pin_chain_spec.
Qed.
Lemma post_readOnlyHost full s : Inv s → post Inv grow (readOnlyHost roots mounts full) s (λ _ s', ro_views s' full).
Proof.
  intros Hi. unfold readOnlyHost.
  assert (∀ l s, (∀ v, v ∈ l → v ∈ views full) → Inv s → let s' := foldl (λ s v, readOnly_view v s) s l in
    Inv s' ∧ grow s s' ∧ ∀ v, v ∈ l → v_guest v ∈ p_ro s') as H.
  { clear s Hi. induction l as [|v l IH]; intros s Hl Hi s'; [split; [done|split; [reflexivity|set_solver]]|]. subst s'. cbn.
    destruct (readOnly_view_step v s) as (Hi1 & Hg1 & Hv); [apply (views_spec full), Hl; by left|done|].
    destruct (IH (readOnly_view v s)) as (Hi' & Hg' & Hv'); [intros w Hw; apply Hl; by right|done|].
    split; [done|]. split; [exact (transitivity Hg1 Hg')|]. intros w Hw. apply elem_of_cons in Hw as [->|Hw]; [|by apply Hv'].
    by apply (grow_ro _ _ Hg'). }
  destruct (H (views full) s) as (H1 & H2 & H3); [done|done|]. by apply post_modify.
Qed.
End Invariant.

(** ** What [locate] returns *)

Lemma resolve_prefix_spec f p n :
  ∃ m q, resolve f (take m p) = Some q ∧ resolve_prefix f p n = q ++ drop m p ∧ (m = n ∨ resolve f (take (S m) p) = None).
Proof.
  induction n as [|n IH]; cbn [resolve_prefix].
  - exists O, []. split; [done|]. split; [done|by left].
  - destruct (resolve f (take (S n) p)) as [q|] eqn:E; [exists (S n), q; auto|].
    destruct IH as (m & q & H1 & H2 & [->|H3]); [by exists n, q; auto|by exists m, q; auto].
Qed.
Definition no_link (l : link_res) : bool := match l with LinkNone | LinkMissing => true | _ => false end.
Lemma resolve_None f p q : resolve f p = None → link_walk f [] maxLinkHops [] p ≠ (LinkNone, q).
Proof. unfold resolve. destruct (link_walk f [] maxLinkHops [] p) as [r q']. intros H E. injection E as -> ->. done. Qed.
Lemma link_inside_walk f p reals : link_inside f p reals = (link_walk f reals maxLinkHops [] p).1.
Proof. done. Qed.
(** The next component of an unresolvable path: missing, or a link that is not
    strictly inside a writable share when [linkInside] found none there. *)
Lemma walk_next f reals hops hops' q x k :
  plain x → (∀ p', link_walk f [] hops' q [x] ≠ (LinkNone, p')) → clean f q →
  no_link (link_walk f reals hops q (x :: k)).1 = true →
  node_at f (q ++ [x]) = None ∨ ((∃ t, node_at f (q ++ [x]) = Some (NLink t)) ∧ first_inside reals (q ++ [x]) = None).
Proof.
  intros (H1 & H2 & H3) Hno Hc. apply String.eqb_neq in H1, H2, H3. rewrite link_walk_unfold H1 H2 H3. cbn [orb].
  specialize (Hno (q ++ [x])). rewrite link_walk_unfold H1 H2 H3 in Hno. cbn [orb] in Hno. rewrite link_walk_unfold in Hno.
  destruct (clean_exists _ _ Hc) as (m & Em & Hm). rewrite Em in Hno |- *.
  destruct m; try done.
  destruct (node_at f (q ++ [x])) as [[| |t|]|]; try done; [|by left].
  destruct (first_inside reals (q ++ [x])) as [i|]; [done|]. intros _. right. split; [by exists t|done].
Qed.
Lemma resolveExisting_free f p reals real :
  tree f → Forall plain p → (∀ r, r ∈ reals → clean f r) → real ∈ reals →
  no_link (link_inside f p reals) = true → inside real (resolveExisting f p) = true → link_free f (resolveExisting f p).
Proof.
  intros Ht Hp Hreal Hr Hl. unfold resolveExisting.
  destruct (resolve_prefix_spec f p (length p)) as (m & q & Hq & E & Hm). rewrite E inside_spec. intros Hin.
  pose proof (resolve_clean _ _ _ Hq) as Hc.
  destruct (drop m p) as [|x k] eqn:Ed; [rewrite app_nil_r; by apply clean_link_free|].
  destruct Hm as [->|Hm]; [by rewrite drop_all in Ed|].
  assert (Hxk : Forall plain (x :: k)) by (rewrite <-Ed; by apply Forall_drop).
  assert (Etake : take (S m) p = take m p ++ [x]).
  { apply take_S_r. rewrite -(Nat.add_0_r m) -lookup_drop Ed. done. }
  assert (Esplit : p = take m p ++ x :: k) by by rewrite -Ed take_drop.
  apply Forall_cons in Hxk as Hx. destruct Hx as [Hx _].
  apply resolve_walk in Hq. rewrite Etake in Hm. pose proof (λ q, resolve_None _ _ q Hm) as Hm'. clear Hm.
  rewrite link_inside_walk in Hl. revert Hq Hm' Hl.
  generalize maxLinkHops as hops0. intros hops0 Hq Hm Hl. rewrite Esplit in Hl.
  destruct (link_walk_app f reals _ _ _ (x :: k) _ Hq) as [(l & i & Hf)|(hops & Hw)].
  { by rewrite Hf in Hl. }
  rewrite Hw in Hl.
  destruct (link_walk_app_none f _ _ _ [x] _ Hq) as (hops' & Hw'). rewrite Hw' in Hm.
  destruct (walk_next f reals hops hops' q x k) as [Hn|[[t Hn] Hf]]; [done|done|done|done|by apply link_free_missing; [..|rewrite <-Ed; apply Forall_drop]|].
    exfalso. pose proof (first_inside_None _ _ real Hf Hr) as Hs. destruct (Hreal real Hr) as [_ Hrc].
  destruct (prefix_weak_total (q ++ [x]) real (q ++ x :: k)) as [Hpre|Hpre]; [apply prefix_app, prefix_cons, prefix_nil|done| |].
  - destruct (Hrc (q ++ [x])) as (n & En & Hnl); [by destruct q|done|]. assert (node_at f (q ++ [x]) = Some n) by (rewrite -En; by destruct q). by simplify_eq.
  - destruct (decide (q ++ [x] = real)) as [Eq|Hne].
    + subst real. destruct (Hrc (q ++ [x])) as (n & En & Hnl); [by destruct q|done|]. assert (node_at f (q ++ [x]) = Some n) by (rewrite -En; by destruct q). by simplify_eq.
    + enough (strictly_inside real (q ++ [x]) = true) by congruence. by apply strictly_inside_spec.
Qed.

Section Locate.
Context (cwd : string) (klinks : nat) (roots : list shareRoot).
Local Abbreviation locate := (locate cwd klinks roots).

Lemma Lstat_child f cur part :
  clean f cur →
  Lstat klinks f (cur ++ [part]) = LBad ∨
  Lstat klinks f (cur ++ [part]) = match node_at f (cur ++ [part]) with Some n => LNode n | None => LMissing end.
Proof.
  intros Hc. assert (Hpar : parent (cur ++ [part]) = cur) by apply parent_snoc.
  assert (Hdrop : cur ++ drop (length (cur ++ [part]) - 1) (cur ++ [part]) = cur ++ [part]).
  { rewrite -{1}Hpar. apply parent_drop. }
  unfold Lstat, place. rewrite Hpar. destruct (cur ++ [part]) as [|y l] eqn:E; [by destruct cur|]. rewrite -E in Hdrop |- *.
  pose proof (link_walk_present f [] klinks [] cur Hc) as Hpres.
  destruct (link_walk f [] klinks [] cur) as [r q] eqn:Ew. destruct r; try (by left).
  apply walk_link_free_eq in Ew; [|by apply clean_link_free]. subst q.
  destruct (node_at f cur) as [[| | |]|]; try (by left). right. by rewrite Hdrop.
Qed.
Lemma noSymlinks_free f r cur rel :
  tree f → clean f cur → Forall plain rel → noSymlinks klinks f r cur rel = Ok () → link_free f (cur ++ rel).
Proof.
  intros Ht. revert cur. induction rel as [|part rel IH]; intros cur Hc Hr; [intros _; rewrite app_nil_r; by apply clean_link_free|].
  apply Forall_cons in Hr as Hp. destruct Hp as [Hpart Hrel]. cbn [noSymlinks].
  destruct (Lstat_child f cur part Hc) as [-> | ->]; [done|].
  destruct (node_at f (cur ++ [part])) as [n|] eqn:En; [|intros _; by apply link_free_missing].
  intros H. assert (is_link n = false) by by destruct n.
  assert (Hn : noSymlinks klinks f r (cur ++ [part]) rel = Ok ()) by by destruct n.
  replace (cur ++ part :: rel) with ((cur ++ [part]) ++ rel) by by rewrite -app_assoc.
  apply IH; [|done|done]. apply (clean_snoc _ _ _ n); [done|done| |done]. rewrite -En. by destruct cur.
Qed.
Lemma best_base_Some p cands c : best_base p cands = Some c → c ∈ cands ∧ c.2 `prefix_of` p.
Proof.
  unfold best_base. assert (∀ acc, (∀ c, acc = Some c → c ∈ cands ∧ c.2 `prefix_of` p) →
    ∀ l, l ⊆ cands → ∀ c, foldl (match_base p) acc l = Some c → c ∈ cands ∧ c.2 `prefix_of` p) as H.
  { intros acc Hacc l. revert acc Hacc. induction l as [|x l IH]; intros acc Hacc Hl c' Hc; [by apply Hacc|]. cbn in Hc.
    apply (IH (match_base p acc x)); [|set_solver|done]. intros c0. unfold match_base.
    destruct (inside x.2 p && _) eqn:E; [|by apply Hacc]. intros [= <-]. apply andb_true_iff in E as [E _].
    split; [set_solver|by apply inside_spec]. }
  by apply (H None).
Qed.
Lemma best_base_None p cands c : best_base p cands = None → c ∈ cands → ¬ c.2 `prefix_of` p.
Proof.
  unfold best_base. intros H Hc Hp. apply inside_spec in Hp.
  assert (∀ l acc, is_Some acc → is_Some (foldl (match_base p) acc l)) as Hs.
  { induction l as [|x l IH]; intros acc Ha; [done|]. cbn. apply IH. unfold match_base. by destruct (inside x.2 p && _). }
  assert (∀ l acc, c ∈ l → is_Some (foldl (match_base p) acc l)) as Hm.
  { induction l as [|x l IH]; intros acc Hx; [by apply not_elem_of_nil in Hx|]. cbn.
    apply elem_of_cons in Hx as [<-|Hx]; [|by apply IH]. apply Hs. unfold match_base. rewrite Hp. cbn.
    destruct acc as [[r0 b0]|]; [by destruct (_ <? _)%Z|]. by destruct (Z.ltb_spec (-1) (Z.of_nat (plen c.2))); [|lia]. }
  destruct (Hm cands None Hc) as [? E]. by rewrite E in H.
Qed.

Definition upath_ok (p : upath) : Prop := match p with inl p => Forall plain p | inr _ => True end.
Lemma upath_of_ok s : upath_ok (upath_of s).
Proof. unfold upath_of. destruct (IsAbs s); [apply clean_elems_rooted|done]. Qed.
(** The branch of a path that a share's host, real or guest path is a base of. *)
Lemma located_in f r base p r' full :
  tree f → roots_ok roots f → r ∈ roots → base `prefix_of` p → Forall plain p →
  (_ ← noSymlinks klinks f r (r_real r) (drop (length base) p); Ok (Some (r, r_real r ++ drop (length base) p))) = Ok (Some (r', full)) →
  r' ∈ roots ∧ r_real r' `prefix_of` full ∧ link_free f full.
Proof.
  intros Ht Hro Hr Hb Hp H. apply bind_Ok in H as ([] & Hn & [= <- <-]). split; [done|]. split; [by apply prefix_app_r|].
  apply (noSymlinks_free f r); [done|by apply (root_clean roots)|by apply Forall_drop|done].
Qed.
Lemma locate_safe f p r full :
  tree f → roots_ok roots f → upath_ok p → locate f p = Ok (Some (r, full)) →
  r ∈ roots ∧ r_real r `prefix_of` full ∧ link_free f full.
Proof.
  intros Ht Hro. destruct p as [p|s]; cbn [locate upath_ok]; [|by destruct (linkInside _ _ _ _)]. intros Hp.
  destruct (best_base p (host_bases roots)) as [[r0 base]|] eqn:E1.
  { apply best_base_Some in E1 as [Hc Hb]. apply located_in; [done|done| |done|done].
    unfold host_bases in Hc. apply list_elem_of_In, in_flat_map in Hc as (r1 & Hr1 & Hc). apply list_elem_of_In in Hr1.
    by destruct Hc as [[= <- <-]|[[= <- <-]|[]]]. }
  destruct (best_base p (guest_bases roots)) as [[r0 base]|] eqn:E2.
  { apply best_base_Some in E2 as [Hc Hb]. apply located_in; [done|done| |done|done].
    unfold guest_bases in Hc. by apply list_elem_of_fmap in Hc as (r1 & [= -> _] & Hr1). }
  assert (no_link (link_inside f p (map r_real roots)) = true →
    Ok (locate_outside roots f p) = Ok (E:=perr) (Some (r, full)) → r ∈ roots ∧ r_real r `prefix_of` full ∧ link_free f full) as H.
  { intros Hl [= H]. unfold locate_outside in H. apply fmap_Some in H as ([i r1] & Hf & [= -> ->]).
    apply list_find_Some in Hf as (Hi & Hin & _). apply list_elem_of_lookup_2 in Hi as Hr. split; [done|]. split; [by apply inside_spec|].
    apply (resolveExisting_free f p (map r_real roots) (r_real r1)); [done|done| |by apply list_elem_of_fmap_2|done|done].
    intros real Hreal. apply list_elem_of_fmap in Hreal as (r2 & -> & Hr2). by apply (root_clean roots). }
  destruct (link_inside f p (map r_real roots)); by auto.
Qed.
(** A name in a link-free directory of a share is located where it is. *)
Lemma locate_self f d x r0 o :
  tree f → roots_ok roots f → clean f d → plain x → r0 ∈ roots → r_real r0 `prefix_of` d →
  locate f (inl (d ++ [x])) = Ok o → ∃ r, r ∈ roots ∧ o = Some (r, d ++ [x]).
Proof.
  intros Ht Hro Hc Hx Hr0 Hin. cbn [locate].
  destruct (best_base (d ++ [x]) (host_bases roots)) as [[r base]|] eqn:E1.
  2: { destruct (best_base_None _ _ (r0, r_real r0) E1); [|by apply prefix_app_r]. unfold host_bases.
       apply list_elem_of_In, in_flat_map. exists r0. split; [by apply list_elem_of_In|by left]. }
  apply best_base_Some in E1 as [Hb Hpre]. cbn in Hpre. intros H. apply bind_Ok in H as ([] & Hn & [= <-]).
  unfold host_bases in Hb. apply list_elem_of_In, in_flat_map in Hb as (r1 & Hr1 & Hb). apply list_elem_of_In in Hr1.
  enough (r ∈ roots ∧ r_real r = base) as [Hr Hbase].
  { exists r. split; [done|]. destruct Hpre as [k Hk]. rewrite Hk drop_app_length Hbase. done. }
  destruct Hb as [[= <- <-]|[[= <- <-]|[]]]; [done|]. split; [done|].
  destruct (Hro r1 Hr1) as [Hpl Hw]. apply prefix_snoc_cases in Hpre as [Hpre|Hpre].
  - apply link_walk_none in Hw. apply walk_link_free_eq in Hw; [done|]. apply clean_link_free. by apply (clean_prefix _ d).
  - rewrite Hpre in Hw |- *. destruct (link_walk_along f (map r_real roots) maxLinkHops [] d [x] Hc) as [E|E]; [|by rewrite Hw in E].
    cbn [app] in E. rewrite Hw in E. symmetry in E. revert E. generalize maxLinkHops as hops. intros hops. rewrite link_walk_unfold.
    destruct Hx as (H1 & H2 & H3). apply String.eqb_neq in H1, H2, H3. rewrite H1 H2 H3. cbn [orb].
    destruct (first_inside (map r_real roots) (d ++ [x])) as [i|] eqn:Ei.
    + destruct (node_at f d) as [[| | |]|]; try done; destruct (node_at f (d ++ [x])) as [[| | |]|]; try done;
        rewrite link_walk_unfold; by intros [= <-].
    + assert (Hs : strictly_inside (r_real r0) (d ++ [x]) = true).
      { apply strictly_inside_spec. split; [by apply prefix_app_r|]. intros Eq. rewrite -Eq in Hin. by apply prefix_snoc_not in Hin. }
      rewrite (first_inside_None _ _ (r_real r0) Ei) in Hs; [done|]. by apply list_elem_of_fmap_2.
Qed.
End Locate.

(** ** Every operation keeps the invariant *)

Lemma join_path_plain d s : Forall plain d → Forall plain (join_path d s).
Proof.
  intros Hd. unfold join_path, clean_elems. apply Forall_rev.
  assert (∀ es st, Forall (λ e, e ≠ "" ∧ e ≠ ".") es → Forall plain st → Forall plain (foldl (clean_step true) st es)) as H.
  { induction es as [|e es IH]; intros st Hes Hst; [done|]. apply Forall_cons in Hes as [[? ?] Hes]. cbn. apply IH; [done|].
    by apply clean_step_rooted. }
  apply H; [|done]. apply Forall_app_2; [by apply (Forall_impl _ _ _ Hd); intros e (? & ? & _)|].
  apply Forall_forall. intros e He. apply list_elem_of_filter in He. tauto.
Qed.

(** The steps of the proofs below: a query, a call whose postcondition is not
    needed, the end of a branch. *)
Ltac query := apply post_bind; [apply _|]; apply post_gets; [apply _|done|].
Ltac call H := eapply post_then; [apply _|apply H|].
Ltac finish := first [apply post_ret; [apply _|done|done] | apply post_fail; [apply _|done]].

Section Operations.
Context (lowerU : string → string) (home : option string) (cwd : string).
Context (klinks : nat) (readable creatable : path → bool).
Context (roots : list shareRoot) (mounts : list path).
Local Abbreviation Inv := (Inv roots mounts).
Local Abbreviation grow := (grow roots).
Local Abbreviation post := (post (E:=perr) Inv grow).
Local Abbreviation locate := (locate cwd klinks roots).
Local Abbreviation protect := (protect cwd klinks creatable roots mounts).
#[local] Existing Instance grow_preorder.

Lemma creation_below f r full q :
  roots_ok roots f → r ∈ roots → r_real r `prefix_of` full → link_free f full → q ≠ [] → q `prefix_of` full → f !! q = None →
  creation roots q.
Proof.
  intros Hro Hr Hin Hl Hq Hqf Hn. split; [apply (link_free_prefix _ _ _ Hqf Hl)|]. exists r. split; [done|]. apply strictly_inside_spec.
  destruct (root_clean roots f r Hro Hr) as [_ Hc]. destruct (prefix_weak_total q (r_real r) full) as [H|H]; [done|done| |].
  - destruct (Hc q Hq H) as (n & En & _). congruence.
  - split; [done|]. intros ->. destruct (Hc (r_real r) Hq (reflexivity _)) as (n & En & _). congruence.
Qed.
Lemma post_make_empty full guest dir s r :
  Inv s → r ∈ roots → r_real r `prefix_of` full → link_free (p_fs s) full → full ≠ [] →
  post (make_empty klinks creatable full guest dir) s
    (λ _ s', node_at (p_fs s') full = Some (if dir then NDir else NFile "") ∧ link_free (p_fs s') full).
Proof.
  intros Hi Hr Hin Hl Hne. unfold make_empty. query.
  destruct (createEmpty klinks creatable (p_fs s) full dir) as [f' ok] eqn:E.
  apply (createEmpty_grown _ _ (creation roots)) in E as [Hg Hn]; [|done|done|intros q; by apply (creation_below _ r); [apply Hi|..]].
  assert (Hgr : grow s (set_fs f' s)) by (split; cbn; [done|reflexivity|reflexivity|done]).
  assert (Hi' : Inv (set_fs f' s)) by (apply (Inv_grow _ _ s); [done|done|done|by left]).
  apply post_bind; [apply _|]. apply post_modify; [done|done|]. apply post_ensure; [apply _|done|]. intros Hok. cbn. split; [by apply Hn|].
  by apply (grown_link_free (creation roots) (p_fs s)).
Qed.
(** What [protect] establishes about the path it returns. *)
Definition secured (s : protector) (dir : bool) (full : path) : Prop :=
  clean (p_fs s) full ∧ ro_views roots mounts s full ∧ (∃ r, r ∈ roots ∧ r_real r `prefix_of` full) ∧
  (if dir then node_at (p_fs s) full = Some NDir else ∃ data, node_at (p_fs s) full = Some (NFile data)).
Lemma secured_mono s s' dir full : grow s s' → secured s dir full → secured s' dir full.
Proof.
  intros Hg (H1 & H2 & H3 & H4). pose proof (grown_subseteq _ _ _ (grow_fs _ _ _ Hg)) as Hf.
  split; [exact (clean_mono _ _ _ Hf H1)|]. split; [exact (ro_views_mono _ _ _ _ _ Hg H2)|]. split; [done|].
  destruct dir; [exact (node_at_mono _ _ _ _ Hf H4)|destruct H4 as [data H4]; exists data; exact (node_at_mono _ _ _ _ Hf H4)].
Qed.
Lemma post_secure full dir s n :
  Inv s → clean (p_fs s) full → (∃ r, r ∈ roots ∧ r_real r `prefix_of` full) → node_at (p_fs s) full = Some n →
  (if dir then n = NDir else ∃ data, n = NFile data) →
  post (_ ← readOnlyHost roots mounts full; mret (Some full)) s (λ o s', o = Some full ∧ secured s' dir full).
Proof.
  intros Hi Hc Hr Hn Hd. eapply post_then; [apply _|by apply post_readOnlyHost|]. intros [] s' Hi' Hg Hv. apply post_ret; [apply _|done|].
  pose proof (grown_subseteq _ _ _ (grow_fs _ _ _ Hg)) as Hf. split; [done|]. split; [exact (clean_mono _ _ _ Hf Hc)|].
  split; [done|]. split; [done|]. destruct dir; [rewrite Hd in Hn; exact (node_at_mono _ _ _ _ Hf Hn)|].
  destruct Hd as [data ->]. exists data. exact (node_at_mono _ _ _ _ Hf Hn).
Qed.
Lemma post_protect path dir create s :
  Inv s → upath_ok path →
  post (protect path dir create) s (λ o s', ∃ o', locate (p_fs s) path = Ok o' ∧ (create = true → o = snd <$> o') ∧
    ∀ full, o = Some full → secured s' dir full).
Proof.
  intros Hi Hp. unfold protect. apply post_bind; [apply _|]. apply post_lift; [apply _|done|]. intros o Ho.
  destruct o as [[r full]|]; [|apply post_ret; [apply _|done|by exists None]].
  destruct (locate_safe cwd klinks roots (p_fs s) path r full) as (Hr & Hin & Hl); [apply Hi|apply Hi|done|done|].
  assert (Hsec : ∀ s', secured s' dir full → ∃ o', locate (p_fs s) path = Ok o' ∧ (create = true → Some full = snd <$> o') ∧
    ∀ full', Some full = Some full' → secured s' dir full').
  { intros s' Hs. exists (Some (r, full)). split; [done|]. split; [done|]. by intros ? [= <-]. }
  query. destruct (Lstat klinks (p_fs s) full) as [n| |] eqn:El.
  - apply Lstat_clean in El as [Hn Hc]; [|done].
    destruct (dir && _) eqn:Ed; [by apply post_fail; [apply _|]|]. destruct (negb dir && _) eqn:Ed'; [by apply post_fail; [apply _|]|].
    eapply post_mono; [apply (post_secure full dir s n); [done|done|by exists r|done|]|].
    + destruct dir, n; try done. by eexists.
    + cbn. intros o s' _ _ [-> Hs]. by apply Hsec.
  - destruct create; [|apply post_ret; [apply _|done|]; exists (Some (r, full)); done].
    assert (Hne : full ≠ []) by (intros ->; done).
    eapply post_then; [apply _|by apply (post_make_empty full _ dir s r)|]. intros [] s1 Hi1 Hg1 [Hn1 Hl1]. cbn.
    eapply post_mono; [apply (post_secure full dir s1 (if dir then NDir else NFile "")); [done| |by exists r|done|by destruct dir; eauto]|].
    + apply (tree_clean _ _ (if dir then NDir else NFile "")); [apply Hi1|done|done].
    + cbn. intros o s' _ _ [-> Hs]. by apply Hsec.
  - by apply post_fail; [apply _|].
Qed.

Definition any {A} : A → protector → Prop := λ _ _, True.

Lemma post_each_any {A} (f : A → op protector perr ()) l s :
  Inv s → (∀ x s', x ∈ l → Inv s' → grow s s' → post (f x) s' any) → post (each f l) s any.
Proof. intros Hi Hf. apply (post_each Inv grow f l s (λ _, True)); [done|done|]. intros. by apply Hf. Qed.
Lemma post_protect_any path dir create s : Inv s → upath_ok path → post (protect path dir create) s any.
Proof. intros. eapply post_true. by apply post_protect. Qed.
Lemma post_hook_target dir e s : Inv s → post (hook_target cwd klinks creatable roots mounts dir e) s any.
Proof.
  intros Hi. unfold hook_target. destruct (e.2) as [| |link|]; try finish.
  call post_protect_any; [done|apply upath_of_ok|]. intros [full|] s' Hi' _ _; [finish|]. query.
  destruct (locate _ _) as [[?|]|]; finish.
Qed.
Lemma post_hookTargets dir s : Inv s → post (hookTargets cwd klinks readable creatable roots mounts dir) s any.
Proof.
  intros Hi. unfold hookTargets. destruct dir as [dir|]; [|finish]. query. destruct (ReadDir _ _ _ _) as [es|]; [|finish].
  destruct (_ <? _)%Z; [finish|]. apply post_each_any; [done|]. intros e s' _ Hi' _. by apply post_hook_target.
Qed.

Local Abbreviation configFile := (configFile lowerU home cwd klinks readable creatable roots mounts).
Lemma post_config_entries rec path es cfg w s :
  (∀ path cfg w s, Inv s → upath_ok path → post (rec path cfg w) s any) → Inv s →
  post (config_entries lowerU home rec path es cfg w) s any.
Proof.
  intros Hrec. revert cfg w s. induction es as [|e es IH]; intros cfg w s Hi; cbn; [finish|].
  destruct (entry_effect _ _ _ _) as [v|b|inc|] eqn:E; try by apply IH.
  call Hrec; [done| |intros cw s' Hi' _ _; by apply IH].
  unfold entry_effect in E. repeat (destruct (_ && _); [try done|]); [|done]. injection E as <-. apply upath_of_ok.
Qed.
Lemma post_configFile fuel path cfg w s :
  Inv s → upath_ok path →
  post (configFile fuel path cfg w) s (λ _ s', path ∉ w.1 → ∃ o', locate (p_fs s) path = Ok o' ∧
    ∀ full, snd <$> o' = Some full → secured s' false full).
Proof.
  revert path cfg w s. induction fuel as [|fuel IH]; intros path cfg w s Hi Hp; cbn [configFile]; [by apply post_fail; [apply _|]|].
  case_bool_decide as Hw; [by apply post_ret; [apply _|done|]|]. destruct (_ <? _)%nat; [by apply post_fail; [apply _|]|].
  call post_protect; [done|done|]. intros o s1 Hi1 Hg1 (o' & Ho & Hc & Hs). query.
  assert (Hrest : ∀ m, post m s1 any → post m s1 (λ (_ : gitConfig * walk) s', path ∉ w.1 → ∃ o', locate (p_fs s) path = Ok o' ∧
    ∀ full, snd <$> o' = Some full → secured s' false full)).
  { intros m Hm. apply (post_mono _ _ _ _ _ _ Hm). intros _ s' _ Hg' _ _. exists o'. split; [done|]. intros full Hf.
    apply (secured_mono s1); [done|]. apply Hs. by rewrite Hc. }
  apply Hrest. destruct (read_config _ _ _ _ _) as [data|].
  - apply post_config_entries; [|done]. intros. eapply post_true. by apply IH.
  - query. destruct (config_missing _ _ _ _); finish.
Qed.
Lemma post_readConfig path cfg s :
  Inv s → upath_ok path →
  post (readConfig lowerU home cwd klinks readable creatable roots mounts path cfg) s (λ _ s', ∃ o', locate (p_fs s) path = Ok o' ∧
    ∀ full, snd <$> o' = Some full → secured s' false full).
Proof.
  intros Hi Hp. unfold readConfig. call post_configFile; [done|done|]. intros cw s' Hi' _ H. apply post_ret; [apply _|done|].
  apply H. by apply not_elem_of_empty.
Qed.
Lemma post_hooksPath cfg wt dir s : Inv s → Forall plain dir → (∀ w, wt = Some w → Forall plain w) →
  post (hooksPath cwd klinks readable creatable roots mounts cfg wt dir) s any.
Proof.
  intros Hi Hd Hw. unfold hooksPath. apply post_each_any; [done|]. intros p s1 _ Hi1 _. apply post_each_any; [done|]. intros u s2 Hu Hi2 _. unfold hooks_dir.
  call post_protect_any; [done| |intros o s3 Hi3 _ _; by apply post_hookTargets].
  unfold hook_dirs in Hu. destruct (String.eqb p ""); [by apply not_elem_of_nil in Hu|].
  destruct (IsAbs p); [apply list_elem_of_singleton in Hu as ->; apply clean_elems_rooted|].
  apply elem_of_cons in Hu as [->|Hu]; [by apply join_path_plain|]. destruct wt as [w|]; [|by apply not_elem_of_nil in Hu].
  apply list_elem_of_singleton in Hu as ->. by apply join_path_plain, Hw.
Qed.
End Operations.

(** ** What leaves the records of Git directories alone *)

Section Same.
Context (lowerU : string → string) (home : option string) (cwd : string).
Context (klinks : nat) (readable creatable : path → bool).
Context (roots : list shareRoot) (mounts : list path).
Definition same (s s' : protector) : Prop := p_done s' = p_done s ∧ p_config s' = p_config s.
#[export] Instance same_preorder : PreOrder same.
Proof. split; [by intros s|]. intros s1 s2 s3 [H1 H2] [H3 H4]. split; congruence. Qed.
Local Abbreviation quiet m s := (post (E:=perr) (λ _, True) same m s any).

Lemma quiet_pinHost full s : quiet (pinHost roots mounts full) s.
Proof.
  apply post_modify; [done| |done]. generalize (views roots mounts full) as l. intros l. revert s.
  induction l as [|v l IH]; intros s; [done|]. exact (IH (pin_view v s)).
Qed.
Lemma quiet_readOnlyHost full s : quiet (readOnlyHost roots mounts full) s.
Proof.
  apply post_modify; [done| |done]. generalize (views roots mounts full) as l. intros l. revert s.
  induction l as [|v l IH]; intros s; [done|]. exact (IH (readOnly_view v s)).
Qed.
Lemma quiet_protect path dir create s : quiet (protect cwd klinks creatable roots mounts path dir create) s.
Proof.
  unfold protect. apply post_bind; [apply _|]. apply post_lift; [apply _|done|]. intros [[r full]|] _; [|finish].
  query. assert (Hsec : ∀ s, quiet (_ ← readOnlyHost roots mounts full; mret (Some full)) s).
  { intros s1. call quiet_readOnlyHost. intros [] s2 _ _ _. finish. }
  destruct (Lstat _ _ _) as [n| |]; [|destruct create; [|finish]|finish].
  - destruct (_ && _); [finish|]. destruct (_ && _); [finish|]. apply Hsec.
  - eapply (post_then _ _ _ _ s any); [|intros [] s1 _ _ _; apply Hsec]. unfold make_empty. query.
    destruct (createEmpty _ _ _ _ _) as [f' ok]. apply post_bind; [apply _|]. apply post_modify; [done|done|]. by apply post_ensure; [apply _|..].
Qed.
Lemma quiet_each {A} (f : A → op protector perr ()) l s : (∀ x s', x ∈ l → quiet (f x) s') → quiet (each f l) s.
Proof. intros Hf. apply (post_each _ same f l s (λ _, True)); [done|done|]. intros x s' Hx _ _ _. by apply Hf. Qed.
Lemma quiet_hookTargets dir s : quiet (hookTargets cwd klinks readable creatable roots mounts dir) s.
Proof.
  unfold hookTargets. destruct dir as [dir|]; [|finish]. query. destruct (ReadDir _ _ _ _) as [es|]; [|finish].
  destruct (_ <? _)%Z; [finish|]. apply quiet_each. intros e s1 _. unfold hook_target. destruct (e.2); try finish.
  call quiet_protect. intros [full|] s2 _ _ _; [finish|]. query. destruct (locate _ _) as [[?|]|]; finish.
Qed.
Lemma quiet_configFile fuel path cfg w s : quiet (configFile lowerU home cwd klinks readable creatable roots mounts fuel path cfg w) s.
Proof.
  revert path cfg w s. induction fuel as [|fuel IH]; intros path cfg w s; cbn [configFile]; [finish|].
  case_bool_decide; [finish|]. destruct (_ <? _)%nat; [finish|]. call quiet_protect. intros o s1 _ _ _. query.
  destruct (read_config _ _ _ _ _) as [data|]; [|query; destruct (config_missing _ _ _ _); finish].
  generalize (parseGitConfig lowerU data) as es. intros es. generalize ({[path]} ∪ w.1, S w.2) as w1. intros w1. revert cfg w1 s1.
  induction es as [|e es IHe]; intros cfg w1 s1; cbn [config_entries]; [finish|].
  destruct (entry_effect _ _ _ _); try apply IHe. call IH. intros cw s2 _ _ _. apply IHe.
Qed.
Lemma quiet_readConfig path cfg s : quiet (readConfig lowerU home cwd klinks readable creatable roots mounts path cfg) s.
Proof. unfold readConfig. call quiet_configFile. intros cw s1 _ _ _. finish. Qed.
Lemma quiet_hooksPath cfg wt dir s : quiet (hooksPath cwd klinks readable creatable roots mounts cfg wt dir) s.
Proof.
  unfold hooksPath. apply quiet_each. intros p s1 _. apply quiet_each. intros u s2 _. unfold hooks_dir.
  call quiet_protect. intros o s3 _ _ _. apply quiet_hookTargets.
Qed.
Lemma quiet_read_inherited files cfg s :
  quiet (read_inherited lowerU home cwd klinks readable creatable roots mounts files cfg) s.
Proof.
  revert cfg s. induction files as [|file files IH]; intros cfg s; cbn [read_inherited]; [finish|].
  call quiet_readConfig. intros c s1 _ _ _. apply IH.
Qed.
End Same.

(** ** Git directories and the scan *)

Section Scan.
Context (lowerU : string → string) (home : option string) (cwd : string).
Context (klinks : nat) (readable creatable : path → bool).
Context (roots : list shareRoot) (mounts : list path) (inherited : gitConfig).
Local Abbreviation Inv := (Inv roots mounts).
Local Abbreviation grow := (grow roots).
Local Abbreviation post := (post (E:=perr) Inv grow).
Local Abbreviation protectCommonDir := (protectCommonDir lowerU home cwd klinks readable creatable roots mounts inherited).
Local Abbreviation gitDir := (gitDir lowerU home cwd klinks readable creatable roots mounts inherited).
#[local] Existing Instance grow_preorder.

(** A Git directory that is recorded, or that has a common directory. *)
Definition covered (s : protector) (d : path) : Prop :=
  is_Some (p_config s !! d) ∨ is_Some (pointer klinks readable (p_fs s) (d ++ ["commondir"])).
Definition tracked_but (P : path → Prop) (s : protector) : Prop := ∀ d, d ∈ p_done s → P d ∨ covered s d.
Local Abbreviation tracked := (tracked_but (λ _, False)).
Lemma pointer_mono f f' p : f ⊆ f' → is_Some (pointer klinks readable f p) → is_Some (pointer klinks readable f' p).
Proof.
  intros Hf. unfold pointer, readSmall. destruct (Lstat klinks f p) as [n| |] eqn:E; [|by intros []..].
  rewrite (Lstat_mono klinks f f' p n Hf E). done.
Qed.
Lemma covered_mono s s' d : grow s s' → covered s d → covered s' d.
Proof.
  intros Hg [H|H]; [left; by apply (grow_config _ _ _ Hg)|right].
  apply (pointer_mono (p_fs s)); [by apply (grown_subseteq (creation roots)), Hg|done].
Qed.
Lemma tracked_same P s s' : grow s s' → same s s' → tracked_but P s → tracked_but P s'.
Proof. intros Hg [Hd _] H d Hin. rewrite Hd in Hin. destruct (H d Hin); [by left|right]. by apply (covered_mono s). Qed.
Lemma tracked_weaken (P Q : path → Prop) s : (∀ d, P d → Q d ∨ covered s d) → tracked_but P s → tracked_but Q s.
Proof. intros HPQ H d Hd. destruct (H d Hd); [by apply HPQ|by right]. Qed.
(** What a call on the Git directory [dir] does to the records. *)
Definition tracks (s : protector) (dir : path) : () → protector → Prop := λ _ s', tracked s → tracked s' ∧ covered s' dir.
Definition keeps {A} (s : protector) : A → protector → Prop := λ _ s', tracked s → tracked s'.
Lemma post_quiet {A} (m : pm A) s :
  post m s any → StateErr.post (λ _, True) same m s any → post m s (λ _ s', same s s').
Proof. intros H1 H2. eapply post_mono; [exact (post_also _ _ _ _ _ _ _ _ H1 H2)|]. cbn. by intros a s' _ _ (_ & ? & _). Qed.

(** An existing link-free host path in the share [r]. *)
Definition good (s : protector) (r : shareRoot) (dir : path) : Prop :=
  r ∈ roots ∧ r_real r `prefix_of` dir ∧ clean (p_fs s) dir.
Lemma good_mono s s' r dir : grow s s' → good s r dir → good s' r dir.
Proof. intros Hg (H1 & H2 & H3). repeat split; try done; by apply (clean_mono _ _ _ (grown_subseteq _ _ _ (grow_fs _ _ _ Hg))). Qed.
Lemma good_child s r dir name n :
  Inv s → good s r dir → p_fs s !! (dir ++ [name]) = Some n → is_link n = false → good s r (dir ++ [name]).
Proof.
  intros Hi (H1 & H2 & H3) Hn Hl. split; [done|]. split; [by apply prefix_app_r|]. apply (clean_snoc _ _ _ n); [done| |done|done].
  assert (Hp : Forall plain (dir ++ [name])) by (apply (inv_named _ _ _ Hi); exists n; exact Hn).
  apply Forall_app in Hp as [_ Hp]. by apply Forall_cons in Hp as [? _].
Qed.
Lemma child_names_spec d s es name n :
  clean (p_fs s) d → child_names klinks readable d s = Some es → (name, n) ∈ es → p_fs s !! (d ++ [name]) = Some n.
Proof.
  intros Hc. unfold child_names, ReadDir. destruct (link_walk (p_fs s) [] klinks [] d) as [r q] eqn:E. destruct r; try done.
  apply walk_link_free_eq in E; [|by apply clean_link_free]. subst q. destruct (_ && _); [|done]. intros [= <-]. apply children_spec.
Qed.
Lemma Inv_set_config d c s : Inv s → dir_protected roots mounts s d → Inv (set_config d c s) ∧ grow s (set_config d c s).
Proof.
  intros [H1 H2 H3 H4 H5] Hd. split; [|split; cbn; [reflexivity..|]; intros d' Hd'; destruct (decide (d' = d)) as [->|Hne]; [rewrite lookup_insert_eq; by eexists|rewrite lookup_insert_ne; congruence]]. split; [done|done|done|done|]. intros d' c' H. cbn in H.
  destruct (decide (d' = d)) as [->|Hne]; [done|]. rewrite lookup_insert_ne in H; [by apply (H5 d' c')|congruence].
Qed.

Section Recursive.
Context (rec : shareRoot → path → option path → pm ()).
Context (Hrec : ∀ r dir wt s, Inv s → good s r dir → (∀ w, wt = Some w → Forall plain w) → post (rec r dir wt) s (tracks s dir)).
Lemma post_walk_modules fuel r d s : Inv s → good s r d → post (walk_modules klinks readable rec fuel r d) s (keeps s).
Proof using Hrec.
  revert d s. induction fuel as [|fuel IH]; intros d s Hi Hd; cbn [walk_modules]; [finish|]. query.
  refine (post_each Inv grow _ _ s (λ s', tracked s → tracked s') Hi _ _); [done|]. intros [name n] s1 He Hi1 Hg1 Ht1.
  destruct (child_names klinks readable d s) as [es|] eqn:Ees; cbn in He; [|by apply not_elem_of_nil in He].
  case_bool_decide as Hn; cbn [negb]; [|by apply post_ret; [apply _|..]]. cbn in Hn. subst n.
  assert (Hgood : good s1 r (d ++ [name])).
  { apply (good_mono s); [done|]. apply (good_child _ _ _ _ NDir); [done|done| |done]. apply (child_names_spec d s es); [apply Hd|done|done]. }
  query. cbn. destruct (Stat _ _ _).
  - eapply post_mono; [by apply Hrec|]. intros [] s2 _ _ H Ht. by apply H, Ht1.
  - eapply post_mono; [by apply IH|]. intros [] s2 _ _ H Ht. by apply H, Ht1.
  - eapply post_mono; [by apply IH|]. intros [] s2 _ _ H Ht. by apply H, Ht1.
Qed.
(** The hooks and the configuration file of a directory of a share are where
    their names say, and end up read-only. *)
Lemma post_protect_files dir r s :
  Inv s → good s r dir →
  post (protect_files lowerU home cwd klinks readable creatable roots mounts inherited dir) s
    (λ _ s', same s s' ∧ secured roots mounts s' true (dir ++ ["hooks"]) ∧ secured roots mounts s' false (dir ++ ["config"])).
Proof.
  intros Hi Hd. unfold protect_files.
  assert (Hname : ∀ x s', good s' r dir → plain x → upath_ok (inl (dir ++ [x]))).
  { intros x s' (_ & _ & [Hp _]) Hx. apply Forall_app_2; [done|by constructor]. }
  assert (Hself : ∀ x s' o, Inv s' → good s' r dir → plain x → locate cwd klinks roots (p_fs s') (inl (dir ++ [x])) = Ok o →
    snd <$> o = Some (dir ++ [x])).
  { intros x s' o Hi' (H1 & H2 & H3) Hx Ho. by destruct (locate_self cwd klinks roots (p_fs s') dir x r o (inv_tree _ _ _ Hi') (inv_roots _ _ _ Hi') H3 Hx H1 H2 Ho)
      as (r' & _ & ->). }
  eapply post_then; [apply _|eapply post_also; [apply post_protect; [done|by apply (Hname "hooks" s)]|apply quiet_protect]|].
  intros hooks s2 Hi2 Hg2 ((o' & Ho & Hc & Hs) & Hsame2 & _).
  apply Hself in Ho; [|done|done|done]. rewrite Ho in Hc. specialize (Hs _ (Hc eq_refl)).
  pose proof (good_mono _ _ _ _ Hg2 Hd) as Hd2.
  eapply post_then; [apply _|apply (post_quiet _ _ (post_hookTargets cwd klinks readable creatable roots mounts hooks _ Hi2) (quiet_hookTargets _ _ _ _ _ _ _ _))|].
  intros [] s3 Hi3 Hg3 Hsame3. pose proof (good_mono _ _ _ _ Hg3 Hd2) as Hd3.
  eapply post_mono; [eapply post_also; [apply post_readConfig; [done|by apply (Hname "config" s3)]|apply quiet_readConfig]|].
  cbn. intros cfg s4 Hi4 Hg4 ((o2 & Ho2 & Hs2) & Hsame4 & _).
  apply Hself in Ho2; [|done|done|done]. specialize (Hs2 _ Ho2).
  apply (secured_mono _ _ _ s4) in Hs; [|exact (transitivity Hg3 Hg4)].
  split; [exact (transitivity Hsame2 (transitivity Hsame3 Hsame4))|done].
Qed.
(** The fields set on the way leave the rest of the state. *)
Lemma add_done_step dir s : Inv s → Inv (add_done dir s) ∧ grow s (add_done dir s).
Proof.
  intros Hi. assert (Hg : grow s (add_done dir s)) by (split; cbn; [reflexivity..|done]). split; [|done].
  by apply (Inv_grow _ _ s); [..|left].
Qed.
Lemma post_protectCommonDir fuel r dir s : Inv s → good s r dir → post (protectCommonDir rec fuel r dir) s (tracks s dir).
Proof using Hrec.
  intros Hi Hd. unfold protectCommonDir. query. case_bool_decide as Hdone.
  { apply post_ret; [apply _|done|]. intros Ht. split; [done|]. by destruct (Ht dir Hdone). }
  destruct (add_done_step dir s Hi) as [Hi0 Hg0].
  apply post_bind; [apply _|]. apply post_modify; [done|done|].
  assert (Ht0 : tracked s → tracked_but (λ d, d = dir) (add_done dir s)).
  { intros Ht d Hin. cbn in Hin. apply elem_of_union in Hin as [Hin|Hin]; [left; by apply elem_of_singleton in Hin|].
    right. apply (covered_mono s); [done|]. by destruct (Ht d Hin). }
  call (post_quiet _ _ (post_pinHost roots mounts dir _ Hi0) (quiet_pinHost _ _ _ _)). intros [] s1 Hi1 Hg1 Hsame1.
  assert (Hd1 : good s1 r dir) by (apply (good_mono s); [exact (transitivity Hg0 Hg1)|done]).
  call (post_protect_files dir r _ Hi1 Hd1). intros cfg s4 Hi4 Hg4 (Hsame4 & Hs & Hs2).
  pose proof (good_mono _ _ _ _ Hg4 Hd1) as Hd4.
  destruct (Inv_set_config dir cfg s4 Hi4) as [Hi5 Hg5].
  { destruct Hs as (_ & ? & _ & ?), Hs2 as (_ & ? & _ & ?). by repeat split. }
  pose proof (good_mono _ _ _ _ Hg5 Hd4) as Hd5.
  assert (Hcov : covered (set_config dir cfg s4) dir) by (left; cbn; rewrite lookup_insert_eq; by eexists).
  assert (Ht5 : tracked s → tracked (set_config dir cfg s4)).
  { intros Ht. apply (tracked_weaken (λ d, d = dir)); [intros d ->; by right|].
    assert (H4 : tracked_but (λ d, d = dir) s4).
    { apply (tracked_same _ s1), (tracked_same _ (add_done dir s)), Ht0; done. }
    intros d Hdd. destruct (H4 d Hdd); [by left|right]. by apply (covered_mono s4). }
  assert (Hend : post (mret ()) (set_config dir cfg s4) (tracks s dir)) by (apply post_ret; [apply _|done|]; intros Ht; split; [by apply Ht5|done]).
  apply post_bind; [apply _|]. apply post_modify; [done|done|]. query. query.
  destruct (Stat _ _ _) as [n| |]; try done. destruct (Lstat _ _ _) as [[| | |]| |] eqn:El; cbn; try done.
  eapply (post_mono _ _ _ _ (keeps (set_config dir cfg s4))).
  - destruct (Lstat_child klinks (p_fs (set_config dir cfg s4)) dir "modules") as [E|E]; [apply Hd5|by rewrite El in E|]. rewrite El in E.
    apply post_walk_modules; [done|]. apply (good_child _ _ _ _ NDir); [done|done| |done].
    destruct (node_at _ (dir ++ ["modules"])) as [n'|] eqn:En; [|done]. injection E as <-. rewrite -En. by destruct dir.
  - intros [] s6 _ Hg6 Hk Ht. split; [by apply Hk, Ht5|by apply (covered_mono (set_config dir cfg s4))].
Qed.
Lemma post_protectGitDir fuel r dir s :
  Inv s → good s r dir →
  post (protectGitDir lowerU home cwd klinks readable creatable roots mounts inherited rec fuel r dir) s
    (λ _ s', tracked s → tracked s' ∧ covered s' dir).
Proof using Hrec.
  intros Hi Hd. unfold protectGitDir. query. destruct (pointer klinks readable (p_fs s) _) as [common|] eqn:Ep.
  2: { call post_protectCommonDir; [done|done|]. intros [] s1 Hi1 _ H. by apply post_ret; [apply _|..]. }
  assert (Hcov : covered s dir) by (right; exists common; exact Ep).
  query. eapply (post_then _ _ _ _ s (keeps s)).
  { case_bool_decide; [by apply post_ret; [apply _|..]|]. destruct (add_done_step dir s Hi) as [Hi0 Hg0].
    apply post_bind; [apply _|]. apply post_modify; [done|done|].
    call (post_quiet _ _ (post_pinHost roots mounts dir _ Hi0) (quiet_pinHost _ _ _ _)). intros [] s1 Hi1 Hg1 Hsame1.
    eapply post_mono; [exact (post_quiet _ _ (post_true _ _ _ _ _ (post_readOnlyHost roots mounts (dir ++ ["commondir"]) _ Hi1)) (quiet_readOnlyHost _ _ _ _))|].
    intros [] s2 _ Hg2 Hsame2 Ht. apply (tracked_same _ s1), (tracked_same _ (add_done dir s)); try done.
    intros d Hin. cbn in Hin. right. apply (covered_mono s); [done|].
    apply elem_of_union in Hin as [Hin|Hin]; [by apply elem_of_singleton in Hin as ->|by destruct (Ht d Hin)]. }
  intros [] s1 Hi1 Hg1 Hk1. apply post_bind; [apply _|]. apply post_lift; [apply _|done|]. intros o Ho.
  assert (Hend : ∀ s' a, Inv s' → grow s1 s' → (tracked s1 → tracked s') →
    post (mret a) s' (λ (_ : option path) s', tracked s → tracked s' ∧ covered s' dir)).
  { intros s' a Hi' Hg' Hk'. apply post_ret; [apply _|done|]. intros Ht. split; [by apply Hk', Hk1|].
    apply (covered_mono s); [exact (transitivity Hg1 Hg')|done]. }
  destruct o as [[cr cdir]|]; [|by apply Hend; [|reflexivity|]].
  apply locate_safe in Ho as (Hcr & Hin & Hl); [|apply Hi1|apply Hi1|apply upath_of_ok].
  query. destruct (Stat klinks (p_fs s1) cdir) as [n| |] eqn:Es; cbn; [|by apply Hend; [|reflexivity|]..]. destruct n; cbn; [|by apply Hend; [|reflexivity|]..].
  apply Stat_clean in Es as [_ Hc]; [|done]. query. destruct (pointer klinks readable (p_fs s1) (cdir ++ ["commondir"])); [finish|].
  call post_protectCommonDir; [done|by split|]. intros [] s2 Hi2 Hg2 H. apply Hend; [done|done|]. intros Ht. by apply H.
Qed.
Lemma post_gitDir_body fuel r dir wt s :
  Inv s → good s r dir → (∀ w, wt = Some w → Forall plain w) →
  post (gitDir_body lowerU home cwd klinks readable creatable roots mounts inherited rec fuel r dir wt) s (tracks s dir).
Proof using Hrec.
  intros Hi Hd Hw. unfold gitDir_body. assert (Hp : Forall plain dir) by apply Hd.
  assert (Hu : upath_ok (inl (dir ++ ["config.worktree"]))) by (apply Forall_app_2; [done|by constructor]).
  call post_protectGitDir; [done|done|]. intros common s1 Hi1 Hg1 H1. query.
  assert (Hend : ∀ cfg s', Inv s' → grow s1 s' → same s1 s' →
    post (hooksPath cwd klinks readable creatable roots mounts cfg wt dir) s' (tracks s dir)).
  { intros cfg s' Hi' Hg' Hs'.
    eapply post_mono; [exact (post_quiet _ _ (post_hooksPath cwd klinks readable creatable roots mounts cfg wt dir _ Hi' Hp Hw) (quiet_hooksPath _ _ _ _ _ _ _ _ _ _))|].
    intros [] s2 _ Hg2 Hs2 Ht. destruct (H1 Ht) as [Ht1 Hc1]. split.
    - by apply (tracked_same _ s'), (tracked_same _ s1).
    - apply (covered_mono s1); [exact (transitivity Hg' Hg2)|done]. }
  destruct (worktreeConfig _).
  - eapply post_then; [apply _|apply (post_quiet _ _ (post_true _ _ _ _ _ (post_readConfig lowerU home cwd klinks readable creatable roots mounts _ _ _ Hi1 Hu)) (quiet_readConfig _ _ _ _ _ _ _ _ _ _ _))|].
    intros cfg s2 Hi2 Hg2 Hs2. by apply Hend.
  - eapply post_then; [apply _|apply (post_quiet _ _ (post_protect_any cwd klinks creatable roots mounts _ _ _ _ Hi1 Hu) (quiet_protect _ _ _ _ _ _ _ _ _))|].
    intros o s2 Hi2 Hg2 Hs2. by apply Hend.
Qed.
End Recursive.

Lemma post_gitDir fuel r dir wt s :
  Inv s → good s r dir → (∀ w, wt = Some w → Forall plain w) → post (gitDir fuel r dir wt) s (tracks s dir).
Proof.
  revert r dir wt s. induction fuel as [|fuel IH]; intros r dir wt s Hi Hd Hw; cbn [gitDir]; [finish|].
  by apply post_gitDir_body.
Qed.
Lemma post_linked fuel target wt s :
  Inv s → upath_ok target → Forall plain wt →
  post (linked lowerU home cwd klinks readable creatable roots mounts inherited fuel target wt) s (keeps s).
Proof.
  intros Hi Ht Hw. unfold linked. apply post_bind; [apply _|]. apply post_lift; [apply _|done|]. intros o Ho.
  destruct o as [[r dir]|]; [|by apply post_ret; [apply _|..]]. apply locate_safe in Ho as (Hr & Hin & Hl); [|apply Hi|apply Hi|done].
  query. destruct (Stat klinks (p_fs s) dir) as [[| | |]| |] eqn:Es; cbn; try by apply post_ret; [apply _|..].
  apply Stat_clean in Es as [_ Hc]; [|done]. eapply post_mono; [apply post_gitDir; [done|by split|by intros ? [= <-]]|].
  intros [] s1 _ _ H Htr. by apply H.
Qed.
(** An entry of the walk below a share. *)
Definition entry (s : protector) (r : shareRoot) (p : path) (n : node) : Prop :=
  r ∈ roots ∧ r_real r `prefix_of` p ∧ Forall plain p ∧ (n = NDir → clean (p_fs s) p).
Lemma entry_mono s s' r p n : grow s s' → entry s r p n → entry s' r p n.
Proof.
  intros Hg (H1 & H2 & H3 & H4). split; [done|]. split; [done|]. split; [done|]. intros Hn.
  apply (clean_mono _ _ _ (grown_subseteq _ _ _ (grow_fs _ _ _ Hg))), H4, Hn.
Qed.
Lemma post_repo fuel r p n s :
  Inv s → entry s r p n →
  post (repo lowerU home cwd klinks readable creatable roots mounts inherited fuel r p n) s
    (λ _ s', tracked s → tracked s' ∧ (n = NDir → covered s' p)).
Proof.
  intros Hi (Hr & Hin & Hp & Hn). unfold repo.
  assert (Hw : Forall plain (parent p)) by by apply Forall_take.
  call (post_quiet _ _ (post_pinHost roots mounts (parent p) _ Hi) (quiet_pinHost _ _ _ _)). intros [] s1 Hi1 Hg1 Hsame1.
  assert (Hro : ∀ s', Inv s' → tracked s → True) by done.
  assert (Hk1 : tracked s → tracked s1) by by apply tracked_same.
  pose proof (post_quiet _ _ (post_true _ _ _ _ _ (post_readOnlyHost roots mounts p _ Hi1)) (quiet_readOnlyHost _ _ _ _)) as Hcall.
  destruct n as [|data|t|].
  - eapply post_mono; [apply post_gitDir; [done| |by intros ? [= <-]]|].
    + apply (good_mono s); [done|]. split; [done|]. split; [done|by apply Hn].
    + intros [] s2 _ _ H Ht. by destruct (H (Hk1 Ht)).
  - call Hcall. intros [] s2 Hi2 Hg2 Hsame2. assert (Hk2 : tracked s → tracked s2) by (intros Ht; by apply (tracked_same _ s1), Hk1).
    query. destruct (_ ≫= _) as [target|]; [|apply post_ret; [apply _|done|]; intros Ht; split; [by apply Hk2|done]].
    eapply post_mono; [apply post_linked; [done|apply upath_of_ok|done]|]. intros [] s3 _ _ H Ht. split; [by apply H, Hk2|done].
  - call Hcall. intros [] s2 Hi2 Hg2 Hsame2. apply post_ret; [apply _|done|]. intros Ht. split; [by apply (tracked_same _ s1), Hk1|done].
  - call Hcall. intros [] s2 Hi2 Hg2 Hsame2. apply post_ret; [apply _|done|]. intros Ht. split; [by apply (tracked_same _ s1), Hk1|done].
Qed.
Lemma count_dir_step s : Inv s → Inv (count_dir s) ∧ grow s (count_dir s) ∧ same s (count_dir s).
Proof. intros [H1 H2 H3 H4 H5]. split; [by split|]. split; [split; cbn; [reflexivity..|done]|done]. Qed.
(** The conditions under which the walk enters a directory below a share. *)
Definition enters (r : shareRoot) (p : path) : bool :=
  negb (bool_decide (p = r_real r)) && negb (String.eqb (default "" (last p)) ".git") &&
  negb (gitScanSkip (default "" (last p))) && negb (bool_decide (guestOf r p ∈ mounts)).
Lemma post_visit fuel r p n s :
  Inv s → entry s r p n →
  post (visit lowerU home cwd klinks readable creatable roots mounts inherited fuel r p n) s
    (λ b s', (b = true → n = NDir) ∧ (tracked s → tracked s') ∧
      (n = NDir → p = r_real r ∨ enters r p = true → isBareRepo klinks (p_fs s) p = false → b = true) ∧
      (tracked s → n = NDir → p ≠ r_real r → last p = Some ".git" → guestOf r p ∉ mounts → covered s' p)).
Proof.
  intros Hi He. unfold visit, enters. case_bool_decide as Htop; cbn [negb andb].
  - rewrite andb_false_r. case_bool_decide as Hn; cbn [negb]; [|apply post_ret; [apply _|done|]; naive_solver].
    query. destruct (isBareRepo klinks (p_fs s) p) eqn:Eb.
    { call post_gitDir; [done| |done|intros [] s1 Hi1 _ H; apply post_ret; [apply _|done|]; unfold tracks in H; naive_solver].
      destruct He as (H1 & H2 & H3 & H4). split; [done|]. split; [done|by apply H4]. }
    destruct (count_dir_step s Hi) as (Hi1 & Hg1 & Hs1).
    apply post_bind; [apply _|]. apply post_modify; [done|done|]. query.
    destruct (_ <? _)%Z; [finish|]. apply post_ret; [apply _|done|].
    split; [done|]. split; [by apply tracked_same|]. split; [done|]. by intros _ _ [].
  - case_bool_decide as Hn; cbn [andb negb].
    2: { destruct (String.eqb _ _ && _); [|apply post_ret; [apply _|done|]; naive_solver].
         call post_repo; [done|done|]. intros [] s1 Hi1 _ H. apply post_ret; [apply _|done|]. naive_solver. }
    case_bool_decide as Hm; cbn [negb].
    { apply post_ret; [apply _|done|]. rewrite !andb_false_r. naive_solver. }
    rewrite !andb_true_r. destruct (String.eqb_spec (default "" (last p)) ".git") as [Eg|Eg]; cbn [negb andb].
    { call post_repo; [done|done|]. intros [] s1 Hi1 _ H. apply post_ret; [apply _|done|]. naive_solver. }
    destruct (gitScanSkip _) eqn:Esk; cbn [negb].
    { apply post_ret; [apply _|done|]. repeat split; try done; [by intros _ []|]. intros _ _ _ E. by rewrite E in Eg. }
    query. destruct (isBareRepo klinks (p_fs s) p) eqn:Eb.
    { call post_gitDir; [done| |done|intros [] s1 Hi1 _ H; apply post_ret; [apply _|done|]].
      - destruct He as (H1 & H2 & H3 & H4). split; [done|]. split; [done|by apply H4].
      - split; [done|]. split; [intros Ht; by apply H|]. split; [done|]. intros _ _ _ E. by rewrite E in Eg. }
    destruct (count_dir_step s Hi) as (Hi1 & Hg1 & Hs1).
    apply post_bind; [apply _|]. apply post_modify; [done|done|]. query.
    destruct (_ <? _)%Z; [finish|]. apply post_ret; [apply _|done|].
    split; [done|]. split; [by apply tracked_same|]. split; [done|]. intros _ _ _ E. by rewrite E in Eg.
Qed.

(** The directories the walk passes through from [p] down to [p ++ l]: it
    enters them, can list them and does not take them for bare repositories;
    [f0] and [fe] are the file system before and after the scan. *)
Fixpoint walked (f0 fe : fs) (r : shareRoot) (p l : path) : bool :=
  readable p && negb (isBareRepo klinks fe p) &&
  match l with
  | [] => true
  | x :: l => bool_decide (f0 !! (p ++ [x]) = Some NDir) && enters r (p ++ [x]) && walked f0 fe r (p ++ [x]) l
  end.
(** A repository below [p] that the walk reaches is recorded. *)
Definition reached (f0 : fs) (r : shareRoot) (p : path) (s : protector) : Prop :=
  ∀ fe l, grown (creation roots) (p_fs s) fe → walked f0 fe r p l = true →
    f0 !! ((p ++ l) ++ [".git"]) = Some NDir → guestOf r ((p ++ l) ++ [".git"]) ∉ mounts → covered s ((p ++ l) ++ [".git"]).
Lemma reached_mono f0 r p s s' : grow s s' → reached f0 r p s → reached f0 r p s'.
Proof.
  intros Hg H fe l Hfe Hw Hgit Hm. apply (covered_mono s); [done|]. apply (H fe); try done. exact (transitivity (grow_fs _ _ _ Hg) Hfe).
Qed.
Lemma isBareRepo_mono f f' p : f ⊆ f' → isBareRepo klinks f p = true → isBareRepo klinks f' p = true.
Proof.
  intros Hf. unfold isBareRepo, is_regular, is_dir.
  destruct (Lstat klinks f (p ++ ["HEAD"])) as [n1| |] eqn:E1; [|done..]. rewrite (Lstat_mono _ _ _ _ _ Hf E1).
  destruct n1; try done. destruct (Lstat klinks f (p ++ ["objects"])) as [n2| |] eqn:E2; [|done..]. rewrite (Lstat_mono _ _ _ _ _ Hf E2).
  destruct n2; try done. destruct (Lstat klinks f (p ++ ["refs"])) as [n3| |] eqn:E3; [|done..]. by rewrite (Lstat_mono _ _ _ _ _ Hf E3).
Qed.
(** What one entry of a directory contributes. *)
Definition scanned (f0 : fs) (r : shareRoot) (p : path) (n : node) (s : protector) : Prop :=
  n = NDir →
  (p = r_real r ∨ enters r p = true → reached f0 r p s) ∧
  (p ≠ r_real r → last p = Some ".git" → guestOf r p ∉ mounts → covered s p).
Lemma scanned_mono f0 r p n s s' : grow s s' → scanned f0 r p n s → scanned f0 r p n s'.
Proof.
  intros Hg H Hn. destruct (H Hn) as [H1 H2]. split.
  - intros Ht. apply (reached_mono _ _ _ s); [done|by apply H1].
  - intros. apply (covered_mono s); [done|by apply H2].
Qed.
Lemma ReadDir_dir f d : tree f → clean f d → node_at f d = Some NDir → readable d = true → ReadDir klinks readable f d = Some (children f d).
Proof.
  intros Ht Hc Hd Hr. unfold ReadDir. rewrite (link_walk_dirs f [] klinks [] d Ht Hc) Hr. cbn [app]. by rewrite bool_decide_eq_true_2.
Qed.
(** The entries of a directory make up what is below it. *)
Lemma reached_children f0 r p (es : list (string * node)) s1 s2 :
  r_real r `prefix_of` p → f0 ⊆ p_fs s1 → (∀ x n, p_fs s1 !! (p ++ [x]) = Some n → (x, n) ∈ es) →
  (∀ e, e ∈ es → scanned f0 r (p ++ [e.1]) e.2 s2) → reached f0 r p s2.
Proof.
  intros Hp Hf0 Hes Hall fe l Hfe Hw Hgit Hm.
  assert (Hat : ∀ x, f0 !! (p ++ [x]) = Some NDir → scanned f0 r (p ++ [x]) NDir s2).
  { intros x Hx. apply (Hall (x, NDir)), Hes. exact (lookup_weaken _ _ _ _ Hx Hf0). }
  destruct l as [|x l].
  - rewrite app_nil_r in Hgit Hm |- *. destruct (Hat ".git" Hgit eq_refl) as [_ H]. apply H; [|by apply last_snoc|done].
    intros E. rewrite -E in Hp. by apply prefix_snoc_not in Hp.
  - cbn in Hw. apply andb_true_iff in Hw as [_ Hw]. apply andb_true_iff in Hw as [Hxe Hw]. apply andb_true_iff in Hxe as [Hx Hent]. apply bool_decide_eq_true in Hx.
    destruct (Hat x Hx eq_refl) as [H _]. specialize (H (or_intror Hent) fe l Hfe Hw).
    replace (p ++ x :: l) with ((p ++ [x]) ++ l) in * by by rewrite -app_assoc. by apply H.
Qed.
Lemma post_scan f0 fuel r p n s :
  f0 ⊆ p_fs s → Inv s → tracked s → entry s r p n → (n = NDir → node_at (p_fs s) p = Some NDir) →
  post (scan lowerU home cwd klinks readable creatable roots mounts inherited fuel r p n) s (λ _ s', tracked s' ∧ scanned f0 r p n s').
Proof.
  revert p n s. induction fuel as [|fuel IH]; intros p n s Hf0 Hi Ht He Hnode; cbn [scan]; [finish|].
  call post_visit; [done|done|]. intros b s1 Hi1 Hg1 (Hb1 & Hb2 & Hb3 & Hb4). specialize (Hb2 Ht).
  pose proof (grown_subseteq _ _ _ (grow_fs _ _ _ Hg1)) as Hf1.
  assert (Hskip : isBareRepo klinks (p_fs s) p = true ∨ b = true ∨ n ≠ NDir ∨ ¬ (p = r_real r ∨ enters r p = true)).
  { destruct (isBareRepo klinks (p_fs s) p) eqn:E; [by left|]. destruct b; [by right; left|]. right; right.
    destruct (decide (n = NDir)) as [Hn|]; [|by left]. right. intros H. by specialize (Hb3 Hn H eq_refl). }
  assert (Hbare : isBareRepo klinks (p_fs s) p = true → ∀ s', grow s s' → reached f0 r p s').
  { intros E s' Hg fe l Hfe Hw. exfalso. destruct l; cbn in Hw; rewrite (isBareRepo_mono (p_fs s)) in Hw;
      try done; try (by rewrite andb_false_r in Hw); exact (transitivity (grown_subseteq _ _ _ (grow_fs _ _ _ Hg)) (grown_subseteq _ _ _ Hfe)). }
  destruct b.
  2: { apply post_ret; [apply _|done|]. split; [done|]. intros Hn. split; [|by intros; apply Hb4].
       intros Hent. destruct Hskip as [E|[|[|]]]; [by apply Hbare|done..]. }
  pose proof (Hb1 eq_refl) as ->. clear Hb3. pose proof (entry_mono _ _ _ _ _ Hg1 He) as He1.
  assert (Hd1 : node_at (p_fs s1) p = Some NDir) by (apply (node_at_mono (p_fs s)); [done|by apply Hnode]).
  destruct He1 as (H1 & H2 & H3 & H4). specialize (H4 eq_refl).
  query. destruct (child_names klinks readable p s1) as [es|] eqn:Ees.
  2: { case_bool_decide; [finish|]. apply post_ret; [apply _|done|]. split; [done|]. intros _. split; [|by intros; apply Hb4].
       intros _ fe l _ Hw. exfalso. destruct (readable p) eqn:Er; [|destruct l; cbn in Hw; by rewrite Er in Hw].
       unfold child_names in Ees. by rewrite (ReadDir_dir _ _ (inv_tree _ _ _ Hi1) H4 Hd1 Er) in Ees. }
  eapply post_mono; [apply (post_each_all Inv grow _ es s1 tracked (λ e s', scanned f0 r (p ++ [e.1]) e.2 s')); [done|done| |]|].
  - intros e s2 s3. apply scanned_mono.
  - intros [name m] s2 Hm Hi2 Hg2 Ht2. pose proof (grown_subseteq _ _ _ (grow_fs _ _ _ Hg2)) as Hf2.
    assert (Hin : p_fs s1 !! (p ++ [name]) = Some m) by by apply (child_names_spec p s1 es).
    apply IH; [exact (transitivity Hf0 (transitivity Hf1 Hf2))|done|done| |].
    + cbn. split; [done|]. split; [by apply prefix_app_r|]. split; [apply (inv_named _ _ _ Hi1); exists m; exact Hin|].
      intros ->. apply (good_mono s1 s2 r); [done|]. apply (good_child s1 r p name NDir); [done|by split|done|done].
    + cbn. intros ->. apply (node_at_mono (p_fs s1)); [done|]. rewrite -Hin. by destruct p.
  - cbn. intros [] s2 Hi2 Hg2 [Ht2 Hall]. split; [done|]. intros _. split.
    2: { intros. apply (covered_mono s1); [done|by apply Hb4]. }
    intros Hent. apply (reached_children f0 r p es s1 s2); [done|exact (transitivity Hf0 Hf1)| |done].
    intros x m Hx. unfold child_names, ReadDir in Ees. rewrite (link_walk_dirs _ [] klinks [] p (inv_tree _ _ _ Hi1) H4) in Ees. cbn [app] in Ees.
    destruct (_ && _) in Ees; [|done]. injection Ees as <-. by apply children_complete.
Qed.
Lemma post_scan_roots f0 fuel s :
  f0 ⊆ p_fs s → Inv s → tracked s →
  post (scan_roots lowerU home cwd klinks readable creatable roots mounts inherited fuel) s
    (λ _ s', tracked s' ∧ ∀ r, r ∈ roots → node_at f0 (r_real r) = Some NDir → reached f0 r (r_real r) s').
Proof.
  intros Hf0 Hi Ht. unfold scan_roots.
  apply (post_each_all Inv grow _ roots s tracked (λ r s', node_at f0 (r_real r) = Some NDir → reached f0 r (r_real r) s')); [done|done| |].
  - intros r s1 s2 Hg H Hd. by apply (reached_mono _ _ _ s1); [|apply H].
  - intros r s1 Hr Hi1 Hg1 Ht1. unfold scan_root. query. destruct (Lstat klinks (p_fs s1) (r_real r)) as [n| |] eqn:El; [|finish..].
    pose proof (root_clean roots _ _ (inv_roots _ _ _ Hi1) Hr) as Hc.
    apply Lstat_clean in El as [Hn _]; [|by apply clean_link_free].
    assert (Hf1 : f0 ⊆ p_fs s1) by exact (transitivity Hf0 (grown_subseteq _ _ _ (grow_fs _ _ _ Hg1))).
    eapply post_mono; [apply (post_scan f0); [done|done|done| |by intros <-]|].
    + split; [done|]. split; [done|]. split; [apply Hc|done].
    + cbn. intros [] s2 _ _ [Ht2 Hs]. split; [done|]. intros Hd. apply (node_at_mono f0 _ _ _ Hf1) in Hd. rewrite Hn in Hd.
      injection Hd as ->. by apply (Hs eq_refl); left.
Qed.
End Scan.

(** ** The whole scan *)

Section Whole.
Context (lowerU : string → string) (home : option string) (cwd : string).
Context (klinks : nat) (readable creatable : path → bool) (fuel : nat).
#[local] Existing Instance grow_preorder.

Lemma post_read_inherited roots mounts files cfg s :
  Inv roots mounts s →
  post (Inv roots mounts) (grow roots) (read_inherited lowerU home cwd klinks readable creatable roots mounts files cfg) s any.
Proof.
  revert cfg s. induction files as [|file files IH]; intros cfg s Hi; cbn [read_inherited]; [finish|].
  call post_readConfig; [done|apply upath_of_ok|]. intros cfg' s' Hi' _ _. by apply IH.
Qed.
Lemma post_protect_roots roots mounts files s :
  Inv roots mounts s → p_done s = ∅ →
  post (Inv roots mounts) (grow roots) (protect_roots lowerU home cwd klinks readable creatable fuel roots mounts files) s
    (λ _ s', ∀ r, r ∈ roots → node_at (p_fs s) (r_real r) = Some NDir → reached klinks readable roots mounts (p_fs s) r (r_real r) s').
Proof.
  intros Hi Hd. unfold protect_roots.
  eapply post_then; [apply _|exact (post_quiet _ _ _ _ (post_read_inherited roots mounts files no_config s Hi) (quiet_read_inherited _ _ _ _ _ _ _ _ _ _ _))|].
  intros inh s1 Hi1 Hg1 [Hs1 _]. eapply post_mono; [apply (post_scan_roots lowerU home cwd klinks readable creatable roots mounts inh (p_fs s))|].
  - exact (grown_subseteq _ _ _ (grow_fs _ _ _ Hg1)).
  - done.
  - intros d H. rewrite Hs1 Hd in H. by apply not_elem_of_empty in H.
  - cbn. intros [] s2 _ _ [_ H]. exact H.
Qed.
(** The shares the host side has checked: no host path runs through a link
    inside a writable share. *)
Definition shares_checked (f : fs) (roots : list shareRoot) : bool :=
  forallb (λ r, no_link (link_inside f (r_host r) (map r_real roots))) roots.
Lemma share_root_host f s l : share_root f s = Ok l → Forall (λ r, Forall plain (r_host r) ∧ resolve f (r_host r) = Some (r_real r)) l.
Proof.
  unfold share_root. destruct (ReadOnly s); [by intros [= <-]|]. destruct (resolve f (comps (HostPath s))) as [real|] eqn:E; [|done].
  intros [= <-]. constructor; [|done]. split; [apply clean_elems_rooted|done].
Qed.
Lemma share_roots_ok f shares roots :
  share_roots f shares = Ok roots → shares_checked f roots = true → roots_ok roots f.
Proof.
  unfold share_roots. destruct (rmap (share_root f) shares) as [ls|] eqn:E; [|done]. intros [= <-] Hc r Hr.
  assert (Hall : Forall (Forall (λ r, Forall plain (r_host r) ∧ resolve f (r_host r) = Some (r_real r))) ls).
  { apply (rmap_Forall (share_root f) _ shares); [|done]. intros s l. apply share_root_host. }
  apply Forall_concat in Hall. rewrite Forall_forall in Hall. destruct (Hall r Hr) as [Hp Hreal]. split; [done|].
  unfold shares_checked in Hc. rewrite forallb_forall in Hc. specialize (Hc r (proj1 (list_elem_of_In _ _) Hr)). rewrite link_inside_walk in Hc.
  apply resolve_walk in Hreal. revert Hreal Hc. generalize maxLinkHops as hops. intros hops Hreal Hc.
  destruct (link_walk_app f (map r_real (concat ls)) _ _ _ [] _ Hreal) as [(l & i & Hf)|(hops' & Hw)].
  - rewrite app_nil_r in Hf. by rewrite Hf in Hc.
  - rewrite app_nil_r in Hw. rewrite Hw. by rewrite link_walk_unfold.
Qed.
Lemma Inv_fresh f roots mounts : named f → tree f → roots_ok roots f → Inv roots mounts (fresh f).
Proof. intros Hn Ht Hr. split; [exact Hn|exact Ht|exact Hr| |].
  - intros g Hg. by apply not_elem_of_empty in Hg.
  - intros d c H. cbn [fresh p_config] in H. by rewrite lookup_empty in H. Qed.
Lemma gitProtection_post shares files f roots :
  host_tree f = true → share_roots f shares = Ok roots → shares_checked f roots = true →
  let mounts := map (λ s, comps (guestPath s)) shares in
  let '(res, s) := gitProtection lowerU home cwd klinks readable creatable fuel shares files f in
  Inv roots mounts s ∧ grow roots (fresh f) s ∧
  ∀ out, res = Ok out → out = (sortedKeys (p_pins s), sortedKeys (p_ro s)) ∧
    ∀ r, r ∈ roots → node_at f (r_real r) = Some NDir → reached klinks readable roots mounts f r (r_real r) s.
Proof.
  intros Hf Hs Hc mounts. destruct (host_tree_spec f Hf) as [Hn Ht]. unfold gitProtection. rewrite Hs.
  destruct (post_protect_roots roots mounts files (fresh f)) as (Hi & Hg & Hq).
  { apply Inv_fresh; [done|done|by apply (share_roots_ok f shares)]. }
  { done. }
  subst mounts. destruct (protect_roots _ _ _ _ _ _ _ _ _ _ _) as [[[]|e] s]; cbn in Hi, Hg, Hq |- *; (split; [done|split; [done|]]).
  - intros out [= <-]. split; [done|]. by apply (Hq ()).
  - done.
Qed.

(** Whatever configuration the scan meets and however it ends, it changes
    nothing on the host but adding empty files and directories strictly inside
    writable shares. *)
Theorem gitProtection_creates shares files f roots :
  host_tree f = true → share_roots f shares = Ok roots → shares_checked f roots = true →
  let f' := p_fs (gitProtection lowerU home cwd klinks readable creatable fuel shares files f).2 in
  ∀ q, f' !! q = f !! q ∨
    (f !! q = None ∧ (f' !! q = Some NDir ∨ f' !! q = Some (NFile "")) ∧ ∃ r, r ∈ roots ∧ strictly_inside (r_real r) q = true).
Proof.
  intros Hf Hs Hc f' q. pose proof (gitProtection_post shares files f roots Hf Hs Hc) as H0. subst f'.
  destruct (gitProtection _ _ _ _ _ _ _ _ _ _) as [res s]. destruct H0 as (_ & Hg & _). cbn.
  destruct (grow_fs _ _ _ Hg) as [H _]. destruct (H q) as [E|(E & [_ Hr] & E')]; [by left|by right].
Qed.
(** In every state of the scan each read-only path has every directory
    between it and its share pinned, and a Git directory whose configuration is
    recorded has its hooks directory and its configuration file in place and
    read-only wherever a writable share shows them. *)
Theorem gitProtection_pins shares files f roots :
  host_tree f = true → share_roots f shares = Ok roots → shares_checked f roots = true →
  let mounts := map (λ s, comps (guestPath s)) shares in
  let s := (gitProtection lowerU home cwd klinks readable creatable fuel shares files f).2 in
  (∀ g, g ∈ p_ro s → ∃ r, r ∈ roots ∧ r_guest r `prefix_of` g ∧
     ∀ q, strictly_inside (r_guest r) q = true → q `prefix_of` g → q ≠ g → q ∈ p_pins s) ∧
  (∀ d c, p_config s !! d = Some c →
     node_at (p_fs s) (d ++ ["hooks"]) = Some NDir ∧ (∃ data, node_at (p_fs s) (d ++ ["config"]) = Some (NFile data)) ∧
     ∀ v, v ∈ views roots mounts (d ++ ["hooks"]) ++ views roots mounts (d ++ ["config"]) → v_guest v ∈ p_ro s).
Proof.
  intros Hf Hs Hc mounts s. pose proof (gitProtection_post shares files f roots Hf Hs Hc) as H0. subst s.
  destruct (gitProtection _ _ _ _ _ _ _ _ _ _) as [res s]. destruct H0 as (Hi & _ & _). cbn [snd].
  split; [intros g Hg; by apply (inv_ro _ _ _ Hi)|]. intros d c Hd. destruct (inv_config _ _ _ Hi d c Hd) as (H1 & H2 & H3 & H4).
  split; [done|]. split; [done|]. intros v Hv. apply elem_of_app in Hv as [Hv|Hv]; [by apply H2|by apply H4].
Qed.
End Whole.

Definition ex_roots : list shareRoot := [ {| r_guest := ["work"]; r_host := ["w"]; r_real := ["w"] |} ].
Definition ex_state : protector := (run_example [ws_share "/w" "/work"] host_fs).2.
Lemma gitProtection_creates_witness :
  p_fs ex_state !! ["w"; "a"; ".husky"] = host_fs !! ["w"; "a"; ".husky"] ∨
  (host_fs !! ["w"; "a"; ".husky"] = None ∧
   (p_fs ex_state !! ["w"; "a"; ".husky"] = Some NDir ∨ p_fs ex_state !! ["w"; "a"; ".husky"] = Some (NFile "")) ∧
   ∃ r, r ∈ ex_roots ∧ strictly_inside (r_real r) ["w"; "a"; ".husky"] = true).
Proof.
  refine (gitProtection_creates (λ s, s) (Some "/home") "/" 40 (λ _, true) (λ _, true) 20 [ws_share "/w" "/work"]
    ["/etc/gitconfig"; "/home/.gitconfig"] host_fs ex_roots _ _ _ ["w"; "a"; ".husky"]); vm_compute; reflexivity.
Defined.
Lemma gitProtection_pins_witness :
  bool_decide (["work"; "a"; ".git"; "hooks"] ∈ p_ro ex_state) = true ∧
  ∀ g, g ∈ p_ro ex_state → ∃ r, r ∈ ex_roots ∧ r_guest r `prefix_of` g ∧
    ∀ q, strictly_inside (r_guest r) q = true → q `prefix_of` g → q ≠ g → q ∈ p_pins ex_state.
Proof.
  split; [vm_compute; reflexivity|].
  refine (proj1 (gitProtection_pins (λ s, s) (Some "/home") "/" 40 (λ _, true) (λ _, true) 20 [ws_share "/w" "/work"]
    ["/etc/gitconfig"; "/home/.gitconfig"] host_fs ex_roots _ _ _)); vm_compute; reflexivity.
Defined.

(** ** Termination of the configuration walk *)

Section ConfigFuel.
Context (lowerU : string → string) (home : option string) (cwd : string).
Context (klinks : nat) (readable creatable : path → bool).
Context (roots : list shareRoot) (mounts : list path).
Local Abbreviation ends := (ends (S:=protector) (λ e : perr, e = EFuel)).

Lemma noSymlinks_ends f r cur rel : noSymlinks klinks f r cur rel ≠ Err EFuel.
Proof.
  revert cur. induction rel as [|part rel IH]; intros cur; cbn; [done|]. destruct (Lstat _ _ _) as [[| | |]| |]; try done; apply IH.
Qed.
Lemma locate_ends f p : locate cwd klinks roots f p ≠ Err EFuel.
Proof.
  assert (Hin : ∀ r rel, (_ ← noSymlinks klinks f r (r_real r) rel; Ok (Some (r, r_real r ++ rel))) ≠ Err EFuel).
  { intros r rel. pose proof (noSymlinks_ends f r (r_real r) rel). destruct (noSymlinks _ _ _ _ _) as [|e]; [done|]. cbn. congruence. }
  destruct p as [p|s]; cbn; [|by destruct (linkInside _ _ _ _)].
  destruct (best_base p (host_bases roots)) as [[r b]|]; [apply Hin|]. destruct (best_base p (guest_bases roots)) as [[r b]|]; [apply Hin|].
  by destruct (link_inside _ _ _).
Qed.
Lemma protect_ends p dir create s : ends (protect cwd klinks creatable roots mounts p dir create) s (λ _, True).
Proof.
  unfold protect. apply (ends_bind _ _ _ _ (λ _, True)).
  { unfold ends, lift. cbn. pose proof (locate_ends (p_fs s) p). destruct (locate _ _ _ _ _); [done|congruence]. }
  intros [[r full]|] s1 _; [|done]. apply (ends_bind _ _ _ _ (λ _, True)); [done|]. intros l s2 _.
  destruct l as [n| |]; [|destruct create; [|done]|done].
  - destruct (_ && _); [done|]. by destruct (_ && _).
  - apply (ends_bind _ _ _ _ (λ _, True)); [|done]. unfold make_empty.
    apply (ends_bind _ _ _ _ (λ _, True)); [done|]. intros f s3 _. destruct (createEmpty klinks creatable f full dir) as [f' ok].
    apply (ends_bind _ _ _ _ (λ _, True)); [done|]. intros _ s4 _. by destruct ok.
Qed.
(** Every nested call has one more file counted and at most 256 are. *)
Lemma configFile_ends fuel p cfg w s :
  (w.2 ≤ maxConfigFiles)%nat → (config_fuel ≤ fuel + w.2)%nat →
  ends (configFile lowerU home cwd klinks readable creatable roots mounts fuel p cfg w) s
    (λ cw, (w.2 ≤ cw.2.2 ≤ maxConfigFiles)%nat).
Proof.
  revert p cfg w s. induction fuel as [|fuel IH]; intros p cfg w s Hw Hf.
  { unfold config_fuel in Hf. unfold maxConfigFiles in Hw. lia. }
  cbn [configFile]. case_bool_decide; [by split|]. cbn [snd].
  destruct (Nat.ltb_spec maxConfigFiles (S w.2)) as [|Hle]; [done|].
  apply (ends_bind _ _ _ _ (λ _, True)); [apply protect_ends|]. intros _ s1 _.
  apply (ends_bind _ _ _ _ (λ _, True)); [done|]. intros data s2 _. destruct data as [data|].
  2: { apply (ends_bind _ _ _ _ (λ _, True)); [done|]. intros missing s3 _. destruct missing; [split; cbn; lia|done]. }
  generalize (parseGitConfig lowerU data) as es. intros es.
  assert (Hes : ∀ es cfg (w' : walk) s, (S w.2 ≤ w'.2 ≤ maxConfigFiles)%nat →
    ends (config_entries lowerU home (configFile lowerU home cwd klinks readable creatable roots mounts fuel) p es cfg w') s
      (λ cw, (w.2 ≤ cw.2.2 ≤ maxConfigFiles)%nat)).
  { intros es0. induction es0 as [|e es0 IHe]; intros cfg0 w' s0 Hw'; cbn [config_entries]; [cbn; lia|].
    destruct (entry_effect _ _ _ _); try by apply IHe. eapply ends_bind; [apply IH; lia|]. intros cw s' Hcw. cbn in Hcw. apply IHe. lia. }
  apply Hes. cbn. lia.
Qed.
(** C39: reading a configuration ends, whatever files include each other:
    the walk never runs out of fuel. *)
Theorem configFile_terminates p cfg s :
  (configFile lowerU home cwd klinks readable creatable roots mounts config_fuel p cfg newConfigWalk s).1 ≠ Err EFuel.
Proof.
  pose proof (configFile_ends config_fuel p cfg newConfigWalk s (Nat.le_0_l _) (Nat.le_add_r _ 0)) as H. unfold ends in H.
  intros E. rewrite E in H. done.
Qed.
End ConfigFuel.
