(* ===== verification/GitCopy.v ===== *)
(** * Copying the user's Git configuration

    [gitConfigSnapshots] of [src/internal/cmd/vmgitconfig_unix.go]: the
    configuration files Git reads and the files they name are copied for the
    guest, except what holds credentials. Files are compared by identity
    ([os.SameFile]), so [ino] gives every object of the file system of [HostFS]
    its identity; [opened] is what the later, separate open of a file finds,
    which may no longer be what was checked. The home and configuration
    directories are absolute; parsing an SSH public key is a parameter. *)

From S2P Require Import Prelude GoStrings GoSort GoPath GitConfig.
From S2P Require Import HostFS.
From S2P Require GitProtect.
Open Scope string_scope.
Open Scope list_scope.

Definition guestHome : string := "/home/agent".

(** ** Public data *)

(** [ssh.ParseAuthorizedKey] and [ssh.MarshalAuthorizedKey] of the key it
    finds: the serialised key, the options and the rest of the input. *)
Record authorized := { ak_key : string; ak_options : list string; ak_rest : string }.
Section Public.
Context (ParseAuthorizedKey : string → option authorized).
Definition publicKey (data : string) : option string := ak_key <$> ParseAuthorizedKey data.
Definition signer_option (o : string) : bool :=
  String.eqb o "cert-authority" || HasPrefix o "namespaces=" || HasPrefix o "valid-after=" || HasPrefix o "valid-before=".
(** The end of the principals: the first blank, or the closing quote. *)
Fixpoint index_any (p : ascii → bool) (s : string) : option nat :=
  match s with EmptyString => None | String c r => if p c then Some O else S <$> index_any p r end.
Definition principals_end (line : string) : option nat :=
  match line with
  | String c r => if Ascii.eqb c quote then (λ n, (n + 2)%nat) <$> index_any (Ascii.eqb quote) r else index_any is_blank line
  | EmptyString => None
  end.
Definition sep_options (l : list string) : string :=
  match l with [] => "" | o :: l => " " +:+ o +:+ String.concat "" (map (λ o, "," +:+ o) l) end.
(** One line: nothing for a blank or a comment, an error, or the line rebuilt. *)
Definition signer_line (line : string) : option (option string) :=
  let line := TrimSpace line in
  if String.eqb line "" || HasPrefix line "#" then Some None else
  match principals_end line with
  | None => None
  | Some n =>
      if (n =? 0)%nat || (String.length line <=? n)%nat then None else
      match ParseAuthorizedKey (sdrop n line) with
      | None => None
      | Some k =>
          if negb (String.eqb (ak_rest k) "") || negb (forallb signer_option (ak_options k)) then None
          else Some (Some (stake n line +:+ sep_options (ak_options k) +:+ " " +:+ ak_key k))
      end
  end.
(** [strings.Lines] keeps the line ends, which trimming removes. *)
Definition allowedSigners (data : string) : option string :=
  ls ← mapM signer_line (Split data newline);
  match omap (M:=list) id ls with [] => None | l => Some (String.concat "" l) end.
Inductive publicFile := AllowedSigners | PublicKey.
Definition parse_public (k : publicFile) : string → option string :=
  match k with AllowedSigners => allowedSigners | PublicKey => publicKey end.
End Public.

(** The path-valued variables whose files are copied, with their names in
    warnings and whether the file is a public one. *)
Definition gitFileKeys (name : string) : option (string * option publicFile) :=
  if String.eqb name "core.excludesfile" then Some ("core.excludesFile", None)
  else if String.eqb name "core.attributesfile" then Some ("core.attributesFile", None)
  else if String.eqb name "commit.template" then Some ("commit.template", None)
  else if String.eqb name "gpg.allowedsignersfile" then Some ("gpg.ssh.allowedSignersFile", Some AllowedSigners)
  else if String.eqb name "user.signingkey" then Some ("user.signingKey", Some PublicKey)
  else None.
Definition gitCredentialDirs : list string := [".ssh"; ".gnupg"; ".aws"].
Definition maxConfigFiles : nat := GitProtect.maxConfigFiles.
Definition maxConfigSize : Z := GitProtect.maxConfigSize.

(** ** What is on the host *)

Record info := { i_ino : nat; i_node : node }.
(** The open of a path that must not be a link: the identity, the type and size
    then, and what reading gives. *)
Record ofile := { of_ino : nat; of_regular : bool; of_size : Z; of_data : option string }.
Record protected := { pr_dir : string; pr_ino : nat }.

Section Copy.
Context (f : fs) (klinks : nat) (readable : path → bool) (ino : path → nat) (opened : path → option ofile).
Context (home xdg0 : string) (maxProtectedEntries : nat) (lowerU : string → string).
Context (ParseAuthorizedKey : string → option authorized).

(** [os.Stat], following links. *)
Definition stat (p : path) : option info :=
  match link_walk f [] klinks [] p with
  | (LinkNone, q) => (λ n, {| i_ino := ino q; i_node := n |}) <$> node_at f q
  | _ => None
  end.
Definition lstat (p : path) : option info := (λ n, {| i_ino := ino p; i_node := n |}) <$> node_at f p.
Definition is_dir_info (i : info) : bool := match i_node i with NDir => true | _ => false end.

(** *** Credentials directories *)

Record guard := { c_dirs : list protected; c_files : list protected; c_incomplete : string; c_entries : nat; c_queue : list path }.
Definition add_dir (d : protected) (g : guard) : guard :=
  {| c_dirs := c_dirs g ++ [d]; c_files := c_files g; c_incomplete := c_incomplete g; c_entries := c_entries g; c_queue := c_queue g |}.
Definition add_file (d : protected) (g : guard) : guard :=
  {| c_dirs := c_dirs g; c_files := c_files g ++ [d]; c_incomplete := c_incomplete g; c_entries := c_entries g; c_queue := c_queue g |}.
Definition set_incomplete (name : string) (g : guard) : guard :=
  {| c_dirs := c_dirs g; c_files := c_files g; c_incomplete := name; c_entries := c_entries g; c_queue := c_queue g |}.
Definition set_queue (l : list path) (g : guard) : guard :=
  {| c_dirs := c_dirs g; c_files := c_files g; c_incomplete := c_incomplete g; c_entries := c_entries g; c_queue := l |}.
Definition count_entry (g : guard) : guard :=
  {| c_dirs := c_dirs g; c_files := c_files g; c_incomplete := c_incomplete g; c_entries := S (c_entries g); c_queue := c_queue g |}.

(** The function of the walk: the state after, and whether to stop ([SkipAll]). *)
Definition visit (name : string) (p : path) (n : node) (failed : bool) (g : guard) : guard * bool :=
  let g := count_entry g in
  if (maxProtectedEntries <? c_entries g)%nat then (set_incomplete name g, true) else
  if failed || bool_decide (n = NDir) then (g, false) else
  match stat p with
  | Some {| i_node := NDir |} => (set_queue (c_queue g ++ [p]) g, false)
  | Some {| i_ino := i; i_node := NFile _ |} => (add_file {| pr_dir := name; pr_ino := i |} g, false)
  | _ => (g, false)
  end.
(** [filepath.WalkDir], [fuel] levels deep: the entries of a directory in order. *)
Definition each (w : path → node → guard → guard * bool) (p : path) : list (string * node) → guard → guard * bool :=
  fix go (l : list (string * node)) (g : guard) : guard * bool :=
    match l with
    | [] => (g, false)
    | (x, n) :: l => let '(g, stop) := w (p ++ [x]) n g in if stop then (g, true) else go l g
    end.
Fixpoint walk (fuel : nat) (name : string) (p : path) (n : node) (g : guard) : guard * bool :=
  let '(g, stop) := visit name p n false g in
  if stop || negb (bool_decide (n = NDir)) then (g, stop) else
  if negb (readable p) then visit name p n true g else
  match fuel with O => (g, false) | S fuel => each (walk fuel name) p (children f p) g end.
(** No entry of the file system is deeper. *)
Definition depth : nat := foldr (λ pn : path * node, Nat.max (length pn.1)) 0%nat (map_to_list f).
Fixpoint protect_loop (fuel : nat) (name : string) (g : guard) : option guard :=
  match c_queue g with
  | [] => Some g
  | p :: queue =>
      if (maxProtectedEntries <=? c_entries g)%nat then Some (set_incomplete name (set_queue [] g)) else
      match fuel with
      | O => None
      | S fuel =>
          let g := set_queue queue g in
          match resolve f p with
          | None => protect_loop fuel name g
          | Some root =>
              match stat root with
              | Some i =>
                  if negb (is_dir_info i) || existsb (λ d, (pr_ino d =? i_ino i)%nat) (c_dirs g) then protect_loop fuel name g
                  else protect_loop fuel name (walk depth name root NDir (add_dir {| pr_dir := name; pr_ino := i_ino i |} g)).1
              | None => protect_loop fuel name g
              end
          end
      end
  end.
Definition protect (fuel : nat) (name : string) (g : guard) : option guard :=
  protect_loop fuel name {| c_dirs := c_dirs g; c_files := c_files g; c_incomplete := c_incomplete g; c_entries := 0;
                            c_queue := [comps (JoinPath [home; name])] |}.
Definition protect_all (fuel : nat) : option guard :=
  foldl (λ g name, g ≫= protect fuel name) (Some {| c_dirs := []; c_files := []; c_incomplete := ""; c_entries := 0; c_queue := [] |})
    gitCredentialDirs.

(** *** The Git credential stores *)

Definition xdg : string := if String.eqb xdg0 "" then JoinPath [home; ".config"] else xdg0.
Definition stores : list nat :=
  omap (M:=list) (λ p, i_ino <$> stat (comps p))
    [JoinPath [home; ".git-credentials"]; JoinPath [xdg; "git"; "credentials"]; JoinPath [home; ".config"; "git"; "credentials"]].

(** Why a file must not be copied. *)
Inductive reason := InStore | InDir (dir : string) | Unchecked (dir : string).
Fixpoint ups (n : nat) (p : path) : list path := p :: match n with O => [] | S n => ups n (parent p) end.
Definition ancestors (p : path) : list path := ups (length p - 1) (parent p).
Definition in_dirs (g : guard) (p : path) : option string :=
  match stat p with
  | None => None
  | Some i => pr_dir <$> List.find (λ d, (pr_ino d =? i_ino i)%nat) (c_dirs g)
  end.
Definition credential (g : guard) (src resolved : path) (i : info) : option reason :=
  if existsb (Nat.eqb (i_ino i)) stores then Some InStore else
  match List.find (λ d, (pr_ino d =? i_ino i)%nat) (c_files g) with
  | Some d => Some (InDir (pr_dir d))
  | None =>
      match head (omap (M:=list) (in_dirs g) (ancestors src ++ ancestors resolved)) with
      | Some dir => Some (InDir dir)
      | None => if negb (String.eqb (c_incomplete g) "") then Some (Unchecked (c_incomplete g)) else None
      end
  end.

(** *** Copying *)

(** A copy, and the identity of the file its data was read from. *)
Record snapshot := { s_Host : string; s_Container : string; s_data : string; s_ino : nat; s_public : option publicFile }.
Inductive ref := RefConfig (key src dest : string) | RefFile (key src dest : string) (public : option publicFile).
Inductive warning :=
| WarnMany (src : string) | WarnOutside (name : string) | WarnOutsideGuest (name : string) | WarnMissing (name : string)
| WarnResolve (name : string) | WarnCredential (name : string) (r : reason) | WarnTaken (name src : string) | WarnSize (name : string)
| WarnProblem (key src : string) (k : publicFile).
Record copier := {
  k_out : list snapshot; k_refs : list ref; k_seen : gset (string * string); k_dests : gmap string (string * nat);
  k_count : nat; k_warned : list warning
}.
Definition warn (w : warning) (k : copier) : copier :=
  {| k_out := k_out k; k_refs := k_refs k; k_seen := k_seen k; k_dests := k_dests k; k_count := k_count k; k_warned := k_warned k ++ [w] |}.
Definition see (v : string * string) (k : copier) : copier :=
  {| k_out := k_out k; k_refs := k_refs k; k_seen := {[v]} ∪ k_seen k; k_dests := k_dests k; k_count := k_count k; k_warned := k_warned k |}.
Definition take_dest (dest src : string) (i : nat) (k : copier) : copier :=
  {| k_out := k_out k; k_refs := k_refs k; k_seen := k_seen k; k_dests := <[dest := (src, i)]> (k_dests k); k_count := k_count k; k_warned := k_warned k |}.
Definition emit (s : snapshot) (k : copier) : copier :=
  {| k_out := k_out k ++ [s]; k_refs := k_refs k; k_seen := k_seen k; k_dests := k_dests k; k_count := k_count k; k_warned := k_warned k |}.
Definition push (r : list ref) (k : copier) : copier :=
  {| k_out := k_out k; k_refs := k_refs k ++ r; k_seen := k_seen k; k_dests := k_dests k; k_count := k_count k; k_warned := k_warned k |}.
Definition counted (k : copier) : copier :=
  {| k_out := k_out k; k_refs := k_refs k; k_seen := k_seen k; k_dests := k_dests k; k_count := S (k_count k); k_warned := k_warned k |}.

Definition readSame (p : path) (i : info) : option string :=
  match opened p with
  | Some o =>
      if negb (of_regular o) || negb (of_ino o =? i_ino i)%nat || (maxConfigSize <? of_size o)%Z then None else
      match of_data o with
      | Some data => if (maxConfigSize <? Z.of_nat (String.length data))%Z then None else Some data
      | None => None
      end
  | None => None
  end.
Definition within (p base : string) : bool := inside (comps base) (comps p).
(** [filepath.Rel] for a path within [base]. *)
Definition rel_path (base p : string) : string :=
  match drop (length (comps base)) (comps p) with [] => "." | l => Join l "/" end.
Definition warn_name (key src : string) : string := TrimPrefix (key +:+ " " +:+ src) " ".
Definition load (g : guard) (key src dest : string) (public : bool) (k : copier) : option (string * string * nat) * copier :=
  if bool_decide ((src, dest) ∈ k_seen k) then (None, k) else
  let k := see (src, dest) k in
  let name := warn_name key src in
  if negb (within src home) && (String.eqb dest "" || negb (within src xdg)) then (None, warn (WarnOutside name) k) else
  let dest := if String.eqb dest "" then guestHome +:+ "/" +:+ rel_path home src else dest in
  if negb (String.eqb dest guestHome) && negb (HasPrefix dest (guestHome +:+ "/")) then (None, warn (WarnOutsideGuest name) k) else
  match link_walk f [] maxLinkHops [] (comps src) with
  | (LinkMissing, _) => (None, if negb (String.eqb key "") then warn (WarnMissing name) k else k)
  | (LinkNone, resolved) =>
      match lstat resolved with
      | None => (None, if negb (String.eqb key "") then warn (WarnMissing name) k else k)
      | Some i =>
          let why := credential g (comps src) resolved i in
          match (match why with Some InStore => why | Some _ => if public then None else why | None => None end) with
          | Some r => (None, warn (WarnCredential name r) k)
          | None =>
              match k_dests k !! dest with
              | Some (psrc, pi) => (None, if negb (pi =? i_ino i)%nat then warn (WarnTaken name psrc) k else k)
              | None =>
                  match readSame resolved i with
                  | None => (None, warn (WarnSize name) k)
                  | Some data => (Some (dest, data, i_ino i), take_dest dest src (i_ino i) k)
                  end
              end
          end
      end
  | _ => (None, warn (WarnResolve name) k)
  end.

Definition expand (value : string) : option string :=
  let value := match CutPrefix value "~/" with Some rest => JoinPath [home; rest] | None => value end in
  if IsAbs value then Some (Clean value) else None.
(** The references of an entry of the file [src], copied to [dest]. *)
Definition entry_refs (src dest : string) (e : gitConfigEntry) : list ref :=
  let name := g_section e +:+ "." +:+ g_key e in
  let v := g_value e in
  if String.eqb name "include.path" || String.eqb name "includeif.path" then
    let display := if String.eqb (g_section e) "includeif" then "includeIf.path" else "include.path" in
    match expand v with
    | Some p => [RefConfig display p ""]
    | None =>
        if negb (String.eqb v "") && negb (HasPrefix v "~") && negb (HasPrefix v "%(")
        then [RefConfig display (JoinPath [Dir src; v]) (JoinPath [Dir dest; v])] else []
    end
  else match gitFileKeys name with
       | Some (display, public) => match expand v with Some p => [RefFile display p "" public] | None => [] end
       | None => []
       end.
Definition config (g : guard) (key src dest : string) (k : copier) : copier :=
  if bool_decide ((src, dest) ∈ k_seen k) then k else
  if (maxConfigFiles <=? k_count k)%nat then (if (k_count k =? maxConfigFiles)%nat then counted (warn (WarnMany src) k) else k) else
  let '(r, k) := load g key src dest false k in
  match r with
  | None => k
  | Some (dest, data, i) =>
      push (flat_map (entry_refs src dest) (parseGitConfig lowerU data))
        (emit {| s_Host := src; s_Container := dest; s_data := rewriteGitConfig lowerU data home; s_ino := i; s_public := None |} (counted k))
  end.
Definition file (g : guard) (key src dest : string) (public : option publicFile) (k : copier) : copier :=
  let '(r, k) := load g key src dest (bool_decide (is_Some public)) k in
  match r with
  | None => k
  | Some (dest, data, i) =>
      match public with
      | None => emit {| s_Host := src; s_Container := dest; s_data := data; s_ino := i; s_public := None |} k
      | Some kind =>
          match parse_public ParseAuthorizedKey kind data with
          | Some data => emit {| s_Host := src; s_Container := dest; s_data := data; s_ino := i; s_public := Some kind |} k
          | None => warn (WarnProblem key src kind) k
          end
      end
  end.
Definition follow (g : guard) (r : ref) (k : copier) : copier :=
  match r with RefConfig key src dest => config g key src dest k | RefFile key src dest public => file g key src dest public k end.
Fixpoint drain (fuel : nat) (g : guard) (k : copier) : option copier :=
  match k_refs k with
  | [] => Some k
  | r :: refs =>
      match fuel with
      | O => None
      | S fuel => drain fuel g (follow g r {| k_out := k_out k; k_refs := refs; k_seen := k_seen k; k_dests := k_dests k;
                                              k_count := k_count k; k_warned := k_warned k |})
      end
  end.
Definition defaults (g : guard) : copier :=
  let dir := JoinPath [xdg; "git"] in
  file g "" (JoinPath [dir; "attributes"]) (guestHome +:+ "/.config/git/attributes") None
    (file g "" (JoinPath [dir; "ignore"]) (guestHome +:+ "/.config/git/ignore") None
      (config g "" (JoinPath [dir; "config"]) (guestHome +:+ "/.config/git/config")
        (config g "" (JoinPath [home; ".gitconfig"]) (guestHome +:+ "/.gitconfig")
          {| k_out := []; k_refs := []; k_seen := ∅; k_dests := ∅; k_count := 0; k_warned := [] |}))).
Definition gitConfigSnapshots (fuel : nat) : option copier := g ← protect_all fuel; drain fuel g (defaults g).
End Copy.

(** ** Walking a credentials directory *)

Section Safe.
Context (f : fs) (klinks : nat) (readable : path → bool) (ino : path → nat) (opened : path → option ofile).
Context (home xdg0 : string) (maxProtectedEntries : nat) (lowerU : string → string).
Context (ParseAuthorizedKey : string → option authorized).
Local Notation stat := (stat f klinks ino).
Local Notation visit := (visit f klinks ino maxProtectedEntries).
Local Notation walk := (walk f klinks readable ino maxProtectedEntries).
Local Notation protect_loop := (protect_loop f klinks readable ino maxProtectedEntries).

(** What the walk does to the state: it only adds, each queued entry was
    counted, and it stops exactly when the limit is passed. *)
Record step_ok (name : string) (g : guard) (r : guard * bool) : Prop := {
  so_dirs : c_dirs r.1 = c_dirs g;
  so_files : ∃ l, c_files r.1 = c_files g ++ l;
  so_queue : ∃ l, c_queue r.1 = c_queue g ++ l ∧ (length l + c_entries g ≤ c_entries r.1)%nat;
  so_entries : (c_entries r.1 ≤ S maxProtectedEntries)%nat;
  so_stop : if r.2 then c_incomplete r.1 = name else c_incomplete r.1 = c_incomplete g ∧ (c_entries r.1 ≤ maxProtectedEntries)%nat;
}.
Definition small (g : guard) : Prop := (c_entries g ≤ maxProtectedEntries)%nat.
Lemma step_trans name g r r' : step_ok name g r → r.2 = false → step_ok name r.1 r' → step_ok name g r'.
Proof.
  intros [D (l & F) (q & Q & Lq) E S] Hr [D' (l' & F') (q' & Q' & Lq') E' S']. rewrite Hr in S. destruct S as [S _]. split.
  - congruence.
  - exists (l ++ l'). by rewrite F' F app_assoc.
  - exists (q ++ q'). rewrite Q' Q app_assoc length_app. split; [done|lia].
  - done.
  - destruct (r'.2); [done|]. destruct S' as [-> ?]. by rewrite S.
Qed.
Lemma step_refl name g : small g → step_ok name g (g, false).
Proof. unfold small. intros H. split; cbn; [done|exists []; by rewrite app_nil_r|exists []; rewrite app_nil_r; cbn; split; [done|lia]|lia|by split]. Qed.
Lemma visit_ok name p n b g : small g → step_ok name g (visit name p n b g).
Proof.
  unfold small, GitCopy.visit. intros H. destruct (Nat.ltb_spec maxProtectedEntries (c_entries (count_entry g))) as [L|L]; cbn in L.
  { split; cbn; [done|exists []; by rewrite app_nil_r|exists []; rewrite app_nil_r; cbn; split; [done|lia]|lia|done]. }
  destruct (b || _); [|destruct (stat p) as [[i [| | |]]|]];
    (split; cbn; [done|first [by (exists []; rewrite app_nil_r)|by eexists]|
       first [exists [p]; cbn; split; [done|lia]|exists []; rewrite app_nil_r; cbn; split; [done|lia]]|lia|split; [done|lia]]).
Qed.
Lemma small_step name g r : step_ok name g r → r.2 = false → small r.1.
Proof. intros [_ _ _ _ S] H. rewrite H in S. apply S. Qed.
Lemma each_ok name (w : path → node → guard → guard * bool) p l g :
  (∀ q n g, small g → step_ok name g (w q n g)) → small g → step_ok name g (each w p l g).
Proof.
  intros Hw. revert g. induction l as [|[x n] l IH]; intros g Hg; [by apply step_refl|]. cbn.
  pose proof (Hw (p ++ [x]) n g Hg) as H. destruct (w (p ++ [x]) n g) as [g' [|]]; [done|].
  exact (step_trans _ _ _ _ H eq_refl (IH g' (small_step _ _ _ H eq_refl))).
Qed.
Lemma walk_ok fuel name p n g : small g → step_ok name g (walk fuel name p n g).
Proof.
  revert p n g. induction fuel as [|fuel IH]; intros p n g Hg; cbn [GitCopy.walk]; pose proof (visit_ok name p n false g Hg) as H;
    destruct (visit name p n false g) as [g' [|]]; cbn [orb]; try done; (destruct (bool_decide _); [|done]); cbn [negb];
    (destruct (readable p); [|exact (step_trans _ _ _ _ H eq_refl (visit_ok _ _ _ _ _ (small_step _ _ _ H eq_refl)))]); cbn [negb]; [done|].
  exact (step_trans _ _ _ _ H eq_refl (each_ok _ _ _ _ _ (λ q m g', IH q m g') (small_step _ _ _ H eq_refl))).
Qed.

(** What the walk of a readable tree meets. *)
Inductive below : path → node → path → node → Prop :=
| below_here p n : below p n p n
| below_child p x n q m : readable p = true → f !! (p ++ [x]) = Some n → below (p ++ [x]) n q m → below p NDir q m.
(** An entry that is no directory leaves its mark, if it still leads somewhere. *)
Definition covered (files : list protected) (Q : path → Prop) (q : path) : Prop :=
  match stat q with
  | Some {| i_node := NDir |} => Q q
  | Some {| i_ino := i; i_node := NFile _ |} => ∃ d, d ∈ files ∧ pr_ino d = i
  | _ => True
  end.
Lemma coverage_mono files files' (Q Q' : path → Prop) q : files ⊆ files' → (Q q → Q' q) → covered files Q q → covered files' Q' q.
Proof. unfold covered. intros Hf Hq. destruct (stat q) as [[i [| | |]]|]; try done. intros (d & H & E). exists d. split; [by apply Hf|done]. Qed.
Lemma step_covered name g r q : step_ok name g r → covered (c_files g) (.∈ c_queue g) q → covered (c_files r.1) (.∈ c_queue r.1) q.
Proof. intros [_ (l & ->) (k & -> & _) _ _]. apply coverage_mono; [intros x H|intros H]; apply elem_of_app; by left. Qed.

Lemma visit_covers name p n g : (visit name p n false g).2 = false → n ≠ NDir → covered (c_files (visit name p n false g).1) (.∈ c_queue (visit name p n false g).1) p.
Proof.
  unfold GitCopy.visit, covered. intros H Hn. destruct (_ <? _)%nat; [done|]. rewrite bool_decide_eq_false_2; [|done]. cbn [orb].
  destruct (stat p) as [[i [| | |]]|]; try done; cbn; [apply elem_of_app; right; apply list_elem_of_singleton; done|].
  exists {| pr_dir := name; pr_ino := i |}. split; [|done]. apply elem_of_app; right. by apply list_elem_of_singleton.
Qed.
Lemma each_covers name w p l g g' x n :
  (∀ q n g, small g → step_ok name g (w q n g)) → small g →
  each w p l g = (g', false) → (x, n) ∈ l →
  ∃ g1 g2, small g1 ∧ w (p ++ [x]) n g1 = (g2, false) ∧ ∀ q, covered (c_files g2) (.∈ c_queue g2) q → covered (c_files g') (.∈ c_queue g') q.
Proof.
  intros Hw. revert g. induction l as [|[y k] l IH]; intros g Hg E; [by intros ?%elem_of_nil|]. cbn in E.
  pose proof (Hw (p ++ [y]) k g Hg) as H. destruct (w (p ++ [y]) k g) as [g1 [|]] eqn:Ew; [done|].
  pose proof (small_step _ _ _ H eq_refl) as Hs. intros [[= -> ->]|Hx]%elem_of_cons; [|by apply (IH g1)].
  exists g, g1. split; [done|]. split; [done|]. intros q Hq. pose proof (each_ok name w p l g1 Hw Hs) as He. rewrite E in He.
  exact (step_covered _ _ _ _ He Hq).
Qed.
Lemma depth_spec p n : f !! p = Some n → (length p ≤ depth f)%nat.
Proof.
  intros H. unfold depth.
  assert (∀ l : list (path * node), (p, n) ∈ l → (length p ≤ foldr (λ pn : path * node, Nat.max (length pn.1)) 0 l)%nat) as Hl.
  { induction l as [|[q m] l IH]; [by intros ?%elem_of_nil|]. cbn. intros [[= -> ->]|Hl]%elem_of_cons; [lia|]. specialize (IH Hl). lia. }
  apply Hl. by apply elem_of_map_to_list.
Qed.
Lemma walk_covers fuel name p n g g' q m :
  small g → walk fuel name p n g = (g', false) → (depth f ≤ fuel + length p)%nat →
  below p n q m → m ≠ NDir → covered (c_files g') (.∈ c_queue g') q.
Proof.
  revert p n g g'. induction fuel as [|fuel IH]; intros p n g g' Hg E Hd Hb Hm; cbn [GitCopy.walk] in E;
    pose proof (visit_ok name p n false g Hg) as Hv; pose proof (visit_covers name p n g) as Hc;
    destruct (visit name p n false g) as [g1 [|]]; cbn [orb] in E; try done;
    (case_bool_decide as Hn; [subst n|injection E as <-; destruct Hb; [by apply Hc|done]]); cbn [negb] in E;
    (destruct Hb as [|p x n q m Hr Hx Hb]; [done|]); rewrite Hr in E; cbn [negb] in E.
  - exfalso. apply depth_spec in Hx. rewrite length_app in Hx. cbn in Hx. lia.
  - destruct (each_covers name (walk fuel name) p (children f p) g1 g' x n (λ q m g', walk_ok fuel name q m g') (small_step _ _ _ Hv eq_refl) E (children_complete _ _ _ _ Hx))
      as (g2 & g3 & Hs & Ew & Hk).
    apply Hk. refine (IH _ _ _ _ Hs Ew _ Hb Hm). rewrite length_app. cbn. lia.
Qed.

(** ** What the guard knows of the credentials directories *)

Definition in_guard (dirs : list protected) (i : nat) : Prop := ∃ d, d ∈ dirs ∧ pr_ino d = i.
(** A path the queue gave, or that leads nowhere new. *)
Definition followed (dirs : list protected) (p : path) : Prop :=
  ∀ r, resolve f p = Some r → node_at f r = Some NDir → in_guard dirs (ino r).
Definition pending (queue : list path) (dirs : list protected) (p : path) : Prop := p ∈ queue ∨ followed dirs p.
(** Every directory recorded was walked to its end. *)
Definition guarded (dirs files : list protected) (queue : list path) : Prop :=
  ∀ d, d ∈ dirs → ∃ r, clean f r ∧ node_at f r = Some NDir ∧ pr_ino d = ino r ∧
    ∀ q m, below r NDir q m → m ≠ NDir → covered files (pending queue dirs) q.
Lemma followed_mono dirs dirs' p : dirs ⊆ dirs' → followed dirs p → followed dirs' p.
Proof. intros H Hf r Hr Hn. destruct (Hf r Hr Hn) as (d & Hd & E). exists d. split; [by apply H|done]. Qed.
Lemma pending_mono queue queue' dirs dirs' p :
  (∀ q, q ∈ queue → pending queue' dirs' q) → dirs ⊆ dirs' → pending queue dirs p → pending queue' dirs' p.
Proof. intros Hq Hd [H|H]; [by apply Hq|right; exact (followed_mono _ _ _ Hd H)]. Qed.
Lemma guarded_mono dirs files files' queue queue' :
  files ⊆ files' → (∀ q, q ∈ queue → pending queue' dirs q) → guarded dirs files queue → guarded dirs files' queue'.
Proof.
  intros Hf Hq H d Hd. destruct (H d Hd) as (r & Hr & Hn & Hi & Hc). exists r. repeat split; [apply Hr|apply Hr|done..|].
  intros q m Hb Hm. refine (coverage_mono _ _ _ _ _ Hf _ (Hc q m Hb Hm)). by apply pending_mono.
Qed.
Lemma stat_clean r n : tree f → clean f r → node_at f r = Some n → stat r = Some {| i_ino := ino r; i_node := n |}.
Proof. intros Ht Hc Hn. unfold GitCopy.stat. rewrite (link_walk_dirs f [] klinks [] r Ht Hc). cbn. by rewrite Hn. Qed.
Lemma existsb_in_guard dirs i : existsb (λ d, (pr_ino d =? i)%nat) dirs = true ↔ in_guard dirs i.
Proof.
  rewrite existsb_exists. unfold in_guard. split; intros (d & Hd & E); exists d.
  - split; [by apply list_elem_of_In|by apply Nat.eqb_eq].
  - split; [by apply list_elem_of_In|by apply Nat.eqb_eq].
Qed.
(** Once a directory could not be finished, that stays recorded. *)
Lemma protect_loop_incomplete fuel name g g' :
  name ≠ "" → protect_loop fuel name g = Some g' → c_incomplete g ≠ "" → c_incomplete g' ≠ "".
Proof.
  intros Hn. revert g. induction fuel as [|fuel IH]; intros g; destruct (c_queue g) as [|p queue] eqn:Eq; cbn [GitCopy.protect_loop]; rewrite Eq;
    try (by intros [= <-]); (destruct (Nat.leb_spec maxProtectedEntries (c_entries g)) as [Hle|Hlt]; [by intros [= <-]|]); try done.
  pose proof (IH (set_queue queue g)) as Hs.
  destruct (resolve f p) as [root|]; [|exact Hs]. destruct (stat root) as [i|]; [|exact Hs].
  destruct (_ || _); [exact Hs|]. intros H Hi. apply (IH _ H).
  pose proof (walk_ok (depth f) name root NDir (add_dir {| pr_dir := name; pr_ino := i_ino i |} (set_queue queue g))) as Hw.
  specialize (Hw ltac:(unfold small; cbn; lia)). destruct (walk _ _ _ _ _) as [g1 b]. destruct Hw as [_ _ _ _ Hw]. cbn in *.
  destruct b; [congruence|]. destruct Hw as [-> _]. done.
Qed.
Lemma protect_loop_guarded fuel name g g' :
  tree f → name ≠ "" → protect_loop fuel name g = Some g' → c_incomplete g' = "" → guarded (c_dirs g) (c_files g) (c_queue g) →
  guarded (c_dirs g') (c_files g') [] ∧ c_dirs g ⊆ c_dirs g' ∧ ∀ q, q ∈ c_queue g → followed (c_dirs g') q.
Proof.
  intros Ht Hn. revert g. induction fuel as [|fuel IH]; intros g; destruct (c_queue g) as [|p queue] eqn:Eq; cbn [GitCopy.protect_loop]; rewrite Eq;
    try (intros [= <-] _ H; by split; [|split; [|intros q ?%elem_of_nil]]);
    (destruct (Nat.leb_spec maxProtectedEntries (c_entries g)) as [Hle|Hlt]; [by intros [= <-]|]); try done.
  intros H Hi Hg.
  assert (Hskip : followed (c_dirs g) p → protect_loop fuel name (set_queue queue g) = Some g' →
    guarded (c_dirs g') (c_files g') [] ∧ c_dirs g ⊆ c_dirs g' ∧ ∀ q, q ∈ p :: queue → followed (c_dirs g') q).
  { intros Hp H'. destruct (IH (set_queue queue g) H' Hi) as (Hr & Hd & Hq).
    - refine (guarded_mono _ _ _ _ _ _ _ Hg); [done|]. intros q [->|Hq]%elem_of_cons; [by right|by left].
    - split; [done|]. split; [done|]. intros q [->|Hq']%elem_of_cons; [exact (followed_mono _ _ _ Hd Hp)|by apply Hq]. }
  destruct (resolve f p) as [root|] eqn:Er; [|apply (Hskip ltac:(intros r E; congruence) H)].
  pose proof (resolve_clean _ _ _ Er) as El.
  assert (Hst : node_at f root = Some NDir → stat root = Some {| i_ino := ino root; i_node := NDir |}) by (by apply stat_clean).
  destruct (stat root) as [i|] eqn:Es; [|refine (Hskip _ H); intros r Hr' Hr; rewrite Er in Hr'; injection Hr' as <-; by specialize (Hst Hr)].
  destruct (negb (is_dir_info i) || existsb _ _) eqn:Ed.
  - refine (Hskip _ H). intros r Hr' Hr. rewrite Er in Hr'. injection Hr' as <-. specialize (Hst Hr). injection Hst as ->. cbn in Ed. by apply existsb_in_guard in Ed.
  - apply orb_false_iff in Ed as [Ed Ex]. clear Hst.
    assert (node_at f root = Some NDir ∧ i = {| i_ino := ino root; i_node := NDir |}) as [Hr ->].
    { unfold GitCopy.stat in Es. rewrite (link_walk_dirs f [] klinks [] root Ht El) in Es. cbn in Es.
      destruct (node_at f root) as [[| | |]|] eqn:E; try done; injection Es as <-; done. }
    cbn [i_ino] in *. pose proof (walk_ok (depth f) name root NDir (add_dir {| pr_dir := name; pr_ino := ino root |} (set_queue queue g))) as Hw.
    specialize (Hw ltac:(unfold small; cbn; lia)).
    pose proof (walk_covers (depth f) name root NDir (add_dir {| pr_dir := name; pr_ino := ino root |} (set_queue queue g))) as Hv.
    destruct (walk _ _ _ _ _) as [g1 [|]]; cbn [fst] in *.
    { exfalso. destruct Hw as [_ _ _ _ Hw]. cbn in Hw. refine (protect_loop_incomplete _ _ _ _ Hn H _ Hi). congruence. }
    destruct Hw as [Hwd (lf & Hwf) (lq & Hwq & _) _ _]. cbn in Hwd, Hwf, Hwq.
    assert (Hnew : followed (c_dirs g1) p).
    { intros r Hr' _. rewrite Er in Hr'. injection Hr' as <-. exists {| pr_dir := name; pr_ino := ino root |}. rewrite Hwd. split; [|done].
      apply elem_of_app. right. by apply list_elem_of_singleton. }
    destruct (IH g1 H Hi) as (Hg' & Hd' & Hq').
    + intros d Hd. rewrite Hwd in Hd. apply elem_of_app in Hd as [Hd|Hd].
      * destruct (Hg d Hd) as (r & H1 & H2 & H3 & H4). exists r. repeat split; [apply H1|apply H1|done..|]. intros q m Hb Hm.
        refine (coverage_mono _ _ _ _ _ _ _ (H4 q m Hb Hm)); [rewrite Hwf; intros x Hx; apply elem_of_app; by left|].
        apply pending_mono; [|rewrite Hwd; intros x Hx; apply elem_of_app; by left].
        intros q' [->|Hq]%elem_of_cons; [by right|left; rewrite Hwq; apply elem_of_app; by left].
      * apply list_elem_of_singleton in Hd as ->. exists root. repeat split; [apply El|apply El|done..|]. intros q m Hb Hm.
        refine (coverage_mono _ _ _ _ _ _ _ (Hv g1 q m _ eq_refl _ Hb Hm)); [done|by left|unfold small; cbn; lia|lia].
    + split; [done|]. split; [intros x Hx; apply Hd'; rewrite Hwd; apply elem_of_app; by left|].
      intros q [->|Hq]%elem_of_cons; [exact (followed_mono _ _ _ Hd' Hnew)|apply Hq'; rewrite Hwq; apply elem_of_app; by left].
Qed.

(** The credentials directories, and the files they hold or link to. *)
Inductive reached : path → Prop :=
| reached_root name r : name ∈ gitCredentialDirs → resolve f (comps (JoinPath [home; name])) = Some r → node_at f r = Some NDir → reached r
| reached_link d q m i r : reached d → below d NDir q m → m ≠ NDir → stat q = Some {| i_ino := i; i_node := NDir |} →
    resolve f q = Some r → node_at f r = Some NDir → reached r.
Definition secret_ino (i : nat) : Prop :=
  ∃ d q m data, reached d ∧ below d NDir q m ∧ m ≠ NDir ∧ stat q = Some {| i_ino := i; i_node := NFile data |}.
Lemma protect_names_incomplete fuel names g g' :
  Forall (λ n, n ≠ "") names →
  foldl (λ g name, g ≫= protect f klinks readable ino home maxProtectedEntries fuel name) (Some g) names = Some g' →
  c_incomplete g ≠ "" → c_incomplete g' ≠ "".
Proof.
  intros Hn. revert g. induction Hn as [|name names Hn Hns IH]; intros g; cbn [foldl mbind option_bind]; [by intros [= <-]|].
  destruct (protect _ _ _ _ _ _ _ _ _) as [g1|] eqn:E; [|intros H; exfalso; clear -H; by induction names].
  intros H Hi. apply (IH _ H). exact (protect_loop_incomplete _ _ _ _ Hn E Hi).
Qed.
Lemma protect_names_guarded fuel names g g' :
  tree f → Forall (λ n, n ≠ "") names →
  foldl (λ g name, g ≫= protect f klinks readable ino home maxProtectedEntries fuel name) (Some g) names = Some g' →
  c_incomplete g' = "" → guarded (c_dirs g) (c_files g) [] →
  guarded (c_dirs g') (c_files g') [] ∧ c_dirs g ⊆ c_dirs g' ∧ ∀ name, name ∈ names → followed (c_dirs g') (comps (JoinPath [home; name])).
Proof.
  intros Ht Hn. revert g. induction Hn as [|name names Hn Hns IH]; intros g; cbn [foldl mbind option_bind].
  { intros [= <-] _ Hg. split; [done|]. split; [done|]. by intros name ?%elem_of_nil. }
  destruct (protect _ _ _ _ _ _ _ _ _) as [g1|] eqn:E; [|intros H; exfalso; clear -H; by induction names].
  intros H Hi Hg. destruct (decide (c_incomplete g1 = "")) as [Hi1|Hi1]; [|by destruct (protect_names_incomplete _ _ _ _ Hns H Hi1)].
  destruct (protect_loop_guarded _ _ _ _ Ht Hn E Hi1) as (Hg1 & Hd1 & Hq1).
  { refine (guarded_mono _ _ _ _ _ _ _ Hg); [done|by intros q ?%elem_of_nil]. }
  destruct (IH _ H Hi Hg1) as (Hg2 & Hd2 & Hq2). split; [done|]. split; [by intros x Hx; apply Hd2, Hd1|].
  intros n [->|Hx]%elem_of_cons; [|by apply Hq2]. refine (followed_mono _ _ _ Hd2 (Hq1 _ _)). cbn. by apply list_elem_of_singleton.
Qed.
Lemma reached_clean r : reached r → clean f r ∧ node_at f r = Some NDir.
Proof. by intros [name r' Hn Hr Hd|d q m i r' Hr Hb Hm Hs Hq Hd]; (split; [exact (resolve_clean _ _ _ ltac:(eassumption))|]). Qed.
Lemma protect_all_guarded fuel g :
  tree f → (∀ p q, clean f p → clean f q → node_at f p = Some NDir → node_at f q = Some NDir → ino p = ino q → p = q) →
  protect_all f klinks readable ino home maxProtectedEntries fuel = Some g → c_incomplete g = "" →
  (∀ d, reached d → in_guard (c_dirs g) (ino d)) ∧ ∀ i, secret_ino i → in_guard (c_files g) i.
Proof.
  intros Ht Hdir Hp Hi. apply protect_names_guarded in Hp as (Hg & _ & Hn); [|done|by repeat constructor|done|by intros d ?%elem_of_nil].
  assert (Hcov : ∀ d q m, reached d → in_guard (c_dirs g) (ino d) → below d NDir q m → m ≠ NDir → covered (c_files g) (pending [] (c_dirs g)) q).
  { intros d q m Hr (d0 & Hd0 & E) Hb Hm. destruct (Hg d0 Hd0) as (r & H1 & H2 & H3 & H4). destruct (reached_clean d Hr) as [Hc Hd].
    assert (r = d) as -> by (apply Hdir; [done..|congruence]). exact (H4 q m Hb Hm). }
  assert (Hr : ∀ d, reached d → in_guard (c_dirs g) (ino d)).
  { induction 1 as [name r Hname Hr Hd|d q m i r Hr IH Hb Hm Hs Hq Hd]; [exact (Hn name Hname r Hr Hd)|].
    specialize (Hcov d q m Hr IH Hb Hm). unfold covered in Hcov. rewrite Hs in Hcov. destruct Hcov as [H|H]; [by apply elem_of_nil in H|].
    exact (H r Hq Hd). }
  split; [done|]. intros i (d & q & m & data & Hd & Hb & Hm & Hs). specialize (Hcov d q m Hd (Hr d Hd) Hb Hm). unfold covered in Hcov. by rewrite Hs in Hcov.
Qed.

(** The queue of a directory is finite: its entries were all counted. *)
Lemma protect_loop_total fuel name g :
  (length (c_queue g) + S maxProtectedEntries ≤ fuel + c_entries g)%nat → (c_entries g ≤ S maxProtectedEntries)%nat →
  is_Some (protect_loop fuel name g).
Proof.
  revert g. induction fuel as [|fuel IH]; intros g Hf Hs; destruct (c_queue g) as [|p queue] eqn:Eq; cbn [GitCopy.protect_loop]; rewrite Eq;
    try (by eexists); (destruct (Nat.leb_spec maxProtectedEntries (c_entries g)) as [Hle|Hlt]; [by eexists|]); cbn in Hf; [lia|].
  assert (Hskip : is_Some (protect_loop fuel name (set_queue queue g))) by (apply IH; cbn; lia).
  destruct (resolve f p) as [root|]; [|done]. destruct (stat root) as [i|]; [|done]. destruct (_ || _); [done|].
  pose proof (walk_ok (depth f) name root NDir (add_dir {| pr_dir := name; pr_ino := i_ino i |} (set_queue queue g))) as Hw.
  specialize (Hw ltac:(unfold small; cbn; lia)). destruct (walk _ _ _ _ _) as [g1 b]. destruct Hw as [_ _ (q & Hq & Hl) He _]. cbn in *.
  apply IH; [rewrite Hq length_app; lia|done].
Qed.
Lemma protect_loop_mono fuel fuel' name g g' :
  (fuel ≤ fuel')%nat → protect_loop fuel name g = Some g' → protect_loop fuel' name g = Some g'.
Proof.
  revert fuel' g. induction fuel as [|fuel IH]; intros [|fuel'] g Hf; try done; try lia;
    destruct (c_queue g) as [|p queue] eqn:Eq; cbn [GitCopy.protect_loop]; rewrite Eq; try done; (destruct (_ <=? _)%nat; [done|]); try done.
  assert (fuel ≤ fuel')%nat as Hf' by lia. pose proof (λ g, IH fuel' g Hf') as IH'.
  destruct (resolve f p) as [root|]; [|apply IH']. destruct (stat root) as [i|]; [|apply IH']. destruct (_ || _); apply IH'.
Qed.
Lemma protect_all_mono fuel fuel' g :
  (fuel ≤ fuel')%nat → protect_all f klinks readable ino home maxProtectedEntries fuel = Some g →
  protect_all f klinks readable ino home maxProtectedEntries fuel' = Some g.
Proof.
  intros Hf. unfold protect_all. generalize gitCredentialDirs. intros names.
  generalize {| c_dirs := []; c_files := []; c_incomplete := ""; c_entries := 0; c_queue := [] |}.
  induction names as [|name names IH]; intros g1; [done|]. cbn [foldl mbind option_bind].
  destruct (protect _ _ _ _ _ _ fuel name g1) as [g2|] eqn:E; [|intros H; exfalso; clear -H; by induction names].
  unfold protect in *. rewrite (protect_loop_mono _ _ _ _ _ Hf E). apply IH.
Qed.
Definition protect_fuel : nat := S (S maxProtectedEntries).
Lemma protect_all_total fuel :
  (protect_fuel ≤ fuel)%nat → is_Some (protect_all f klinks readable ino home maxProtectedEntries fuel).
Proof.
  unfold protect_all, protect_fuel. intros Hf. generalize gitCredentialDirs. intros names.
  generalize {| c_dirs := []; c_files := []; c_incomplete := ""; c_entries := 0; c_queue := [] |}.
  induction names as [|name names IH]; intros g; [by eexists|]. cbn [foldl mbind option_bind].
  destruct (protect_loop_total fuel name {| c_dirs := c_dirs g; c_files := c_files g; c_incomplete := c_incomplete g; c_entries := 0;
                                            c_queue := [comps (JoinPath [home; name])] |}) as [g' E]; [cbn; lia..|].
  unfold protect. rewrite E. apply IH.
Qed.

(** ** What is copied *)

Local Notation credential := (credential f klinks ino home xdg0).
Local Notation load := (load f klinks ino opened home xdg0).
Local Notation config := (config f klinks ino opened home xdg0 lowerU).
Local Notation file := (file f klinks ino opened home xdg0 ParseAuthorizedKey).
Local Notation follow := (follow f klinks ino opened home xdg0 lowerU ParseAuthorizedKey).
Local Notation drain := (drain f klinks ino opened home xdg0 lowerU ParseAuthorizedKey).

(** The file at [src] was checked as [why] says, and [data] was read from an
    open of it that found the same regular file. *)
Record checked_read (g : guard) (src : string) (i : nat) (data : string) (why : option reason) : Prop := {
  cr_place : within src home = true ∨ within src (xdg home xdg0) = true;
  cr_read : ∃ resolved n o, link_walk f [] maxLinkHops [] (comps src) = (LinkNone, resolved) ∧ node_at f resolved = Some n ∧ ino resolved = i ∧
    credential g (comps src) resolved {| i_ino := i; i_node := n |} = why ∧
    opened resolved = Some o ∧ of_regular o = true ∧ of_ino o = i ∧ of_data o = Some data;
  cr_size : (Z.of_nat (String.length data) ≤ maxConfigSize)%Z;
}.
Definition guest_path (p : string) : Prop := p = guestHome ∨ HasPrefix p (guestHome +:+ "/") = true.
Lemma readSame_spec p i data :
  readSame opened p i = Some data →
  (∃ o, opened p = Some o ∧ of_regular o = true ∧ of_ino o = i_ino i ∧ of_data o = Some data) ∧ (Z.of_nat (String.length data) ≤ maxConfigSize)%Z.
Proof.
  unfold readSame. destruct (opened p) as [o|]; [|done].
  destruct (of_regular o) eqn:E1; [|done]. destruct (Nat.eqb_spec (of_ino o) (i_ino i)) as [E2|]; [|done].
  destruct (Z.ltb_spec maxConfigSize (of_size o)); [done|]. cbn [negb orb].
  destruct (of_data o) as [d|] eqn:E3; [|done]. destruct (Z.ltb_spec maxConfigSize (Z.of_nat (String.length d))); [done|].
  intros [= <-]. split; [|lia]. by exists o.
Qed.
Lemma load_spec g key src dest public k r k' :
  load g key src dest public k = (r, k') →
  k_out k' = k_out k ∧ k_refs k' = k_refs k ∧ k_count k' = k_count k ∧
  match r with
  | None => k_dests k' = k_dests k
  | Some (dest', data, i) =>
      k_dests k !! dest' = None ∧ k_dests k' = <[dest' := (src, i)]> (k_dests k) ∧ guest_path dest' ∧
      ∃ why, checked_read g src i data why ∧ (why = None ∨ public = true ∧ why ≠ Some InStore)
  end.
Proof.
  unfold GitCopy.load. destruct (bool_decide _); [by intros [= <- <-]|].
  destruct (negb (within src home) && (String.eqb dest "" || negb (within src (xdg home xdg0)))) eqn:Ew; [by intros [= <- <-]|].
  set (dest' := if String.eqb dest "" then _ else dest).
  destruct (negb (String.eqb dest' guestHome) && negb (HasPrefix dest' (guestHome +:+ "/"))) eqn:Ed; [by intros [= <- <-]|].
  destruct (link_walk f [] maxLinkHops [] (comps src)) as [[| | |] resolved] eqn:El; try (by intros [= <- <-]); [|by destruct (String.eqb key ""); intros [= <- <-]].
  unfold lstat. destruct (node_at f resolved) as [n|] eqn:En; cbn [fmap option_fmap option_map]; [|by destruct (String.eqb key ""); intros [= <- <-]].
  set (i := {| i_ino := ino resolved; i_node := n |}). destruct (match credential g _ _ i with Some _ => _ | None => _ end) as [why|] eqn:Ec; [by intros [= <- <-]|].
  cbn [k_dests see]. destruct (k_dests k !! dest') as [[psrc pi]|] eqn:Eq; [by destruct (negb (pi =? i_ino i)%nat); intros [= <- <-]|].
  destruct (readSame opened resolved i) as [data|] eqn:Er; [|by intros [= <- <-]]. intros [= <- <-].
  apply readSame_spec in Er as [(o & Ho & Hreg & Hi & Hdata) Hsize].
  repeat split; [done..| |].
  - unfold guest_path. destruct (String.eqb_spec dest' guestHome); [by left|right]. by destruct (HasPrefix _ _).
  - exists (credential g (comps src) resolved i). split.
    + split; [|by exists resolved, n, o|done]. destruct (within src home); [by left|right]. cbn [negb andb] in Ew.
      by destruct (within src (xdg home xdg0)), (String.eqb dest "").
    + destruct (credential g (comps src) resolved i) as [[]|]; [done|by destruct public; [right|]..|by left].
Qed.

(** What one copy may carry. *)
Definition genuine (g : guard) (s : snapshot) : Prop :=
  ∃ data why, checked_read g (s_Host s) (s_ino s) data why ∧
    match s_public s with
    | None => why = None ∧ (s_data s = data ∨ s_data s = rewriteGitConfig lowerU data home)
    | Some kind => why ≠ Some InStore ∧ parse_public ParseAuthorizedKey kind data = Some (s_data s)
    end.
Record copied (g : guard) (k : copier) : Prop := {
  co_genuine : Forall (genuine g) (k_out k);
  co_guest : Forall (λ s, guest_path (s_Container s)) (k_out k);
  co_nodup : NoDup (s_Container <$> k_out k);
  co_dests : Forall (λ s, is_Some (k_dests k !! s_Container s)) (k_out k);
  co_count : (k_count k ≤ S maxConfigFiles)%nat;
}.
Lemma copied_same g k k' :
  copied g k → k_out k' = k_out k → (k_count k' ≤ S maxConfigFiles)%nat → k_dests k ⊆ k_dests k' → copied g k'.
Proof.
  intros [H1 H2 H3 H4 H5] Eo Ec Ed. split; rewrite ?Eo; try done. refine (Forall_impl _ _ _ H4 _).
  intros s [v Hv]. exists v. exact (lookup_weaken _ _ _ _ Hv Ed).
Qed.
Lemma copied_emit g k s v k' :
  copied g k → genuine g s → guest_path (s_Container s) → k_dests k !! s_Container s = None → k_dests k' = <[s_Container s := v]> (k_dests k) →
  k_out k' = k_out k ++ [s] → (k_count k' ≤ S maxConfigFiles)%nat → copied g k'.
Proof.
  intros [H1 H2 H3 H4 H5] Hs Hp Hd Ed Eo Ec. split; rewrite ?Eo ?Ed; try done.
  - by apply Forall_app_2; [|constructor].
  - by apply Forall_app_2; [|constructor].
  - rewrite fmap_app. apply NoDup_app. split; [done|]. split; [|apply NoDup_singleton].
    intros x (s' & -> & Hs')%list_elem_of_fmap Hx. cbn in Hx. apply list_elem_of_singleton in Hx.
    rewrite Forall_forall in H4. destruct (H4 s' Hs') as [v' Hv']. congruence.
  - apply Forall_app_2; [|constructor; [rewrite lookup_insert_eq; by eexists|done]].
    refine (Forall_impl _ _ _ H4 _). intros s' Hs'. destruct (decide (s_Container s = s_Container s')) as [->|Hne]; [rewrite lookup_insert_eq; by eexists|].
    by rewrite lookup_insert_ne.
Qed.
(** The configuration files read so far, then the references left, go down. *)
Definition config_progress (k k' : copier) : Prop :=
  (k_count k ≤ k_count k')%nat ∧ (k_count k = k_count k' → k_refs k' = k_refs k).
Lemma config_copied g key src dest k : copied g k → copied g (config g key src dest k) ∧ config_progress k (config g key src dest k).
Proof.
  intros Hk. pose proof (co_count _ _ Hk) as Hc. unfold GitCopy.config, config_progress. destruct (bool_decide _); [by split|].
  destruct (Nat.leb_spec maxConfigFiles (k_count k)) as [Hle|Hlt].
  { destruct (Nat.eqb_spec (k_count k) maxConfigFiles) as [E|E]; [|by split]. split; [|cbn; split; lia].
    refine (copied_same _ _ _ Hk _ _ _); [done|cbn; lia|done]. }
  destruct (load g key src dest false k) as [r k'] eqn:El. apply load_spec in El as (Eo & Er & Ec & Hr).
  destruct r as [[[dest' data] i]|].
  - destruct Hr as (Hd & Hd' & Hp & why & Hw & Hs). split; [|cbn; rewrite Ec; split; lia].
    refine (copied_emit _ _ {| s_Host := src; s_Container := dest'; s_data := _; s_ino := i; s_public := None |} (src, i) _ Hk _ Hp Hd _ _ _); cbn;
      [|done|by rewrite Eo|lia].
    exists data, why. split; [done|]. cbn. split; [|by right]. by destruct Hs as [->|[? _]].
  - split; [|split; [lia|done]]. refine (copied_same _ _ _ Hk Eo _ _); [lia|by rewrite Hr].
Qed.
Lemma file_copied g key src dest public k : copied g k → copied g (file g key src dest public k) ∧ config_progress k (file g key src dest public k).
Proof.
  intros Hk. pose proof (co_count _ _ Hk) as Hc. unfold GitCopy.file, config_progress.
  destruct (load g key src dest (bool_decide (is_Some public)) k) as [r k'] eqn:El. apply load_spec in El as (Eo & Er & Ec & Hr).
  destruct r as [[[dest' data] i]|]; [|split; [refine (copied_same _ _ _ Hk Eo _ _); [lia|by rewrite Hr]|split; [lia|done]]].
  destruct Hr as (Hd & Hd' & Hp & why & Hw & Hs). destruct public as [kind|].
  - destruct (parse_public _ kind data) as [data'|] eqn:Ep; (split; [|cbn; split; [lia|done]]).
    + refine (copied_emit _ _ {| s_Host := src; s_Container := dest'; s_data := _; s_ino := i; s_public := _ |} (src, i) _ Hk _ Hp Hd _ _ _); cbn;
        [|done|by rewrite Eo|lia].
      exists data, why. split; [done|]. cbn. split; [|done]. by destruct Hs as [->|[_ ?]].
    + refine (copied_same _ _ _ Hk _ _ _); cbn; [done|lia|]. rewrite Hd'. by apply insert_subseteq.
  - split; [|cbn; split; [lia|done]].
    refine (copied_emit _ _ {| s_Host := src; s_Container := dest'; s_data := _; s_ino := i; s_public := None |} (src, i) _ Hk _ Hp Hd _ _ _); cbn;
      [|done|by rewrite Eo|lia].
    exists data, why. split; [done|]. cbn. split; [|by left]. by destruct Hs as [->|[? _]].
Qed.
Lemma follow_copied g r k : copied g k → copied g (follow g r k) ∧ config_progress k (follow g r k).
Proof. destruct r; [apply config_copied|apply file_copied]. Qed.
Definition set_refs (l : list ref) (k : copier) : copier :=
  {| k_out := k_out k; k_refs := l; k_seen := k_seen k; k_dests := k_dests k; k_count := k_count k; k_warned := k_warned k |}.
Lemma drain_copied g k : copied g k → ∃ n k', (∀ fuel, (n ≤ fuel)%nat → drain fuel g k = Some k') ∧ copied g k'.
Proof.
  remember (S maxConfigFiles - k_count k)%nat as c eqn:Hc. revert k Hc. induction (lt_wf c) as [c _ IHc]. intros k ->.
  remember (k_refs k) as l eqn:Hl. revert k Hl IHc. induction l as [|r l IHl]; intros k Hl IHc Hk.
  { exists 0%nat, k. split; [|done]. intros [|fuel] _; cbn [GitCopy.drain]; by rewrite <-Hl. }
  assert (Hk' : copied g (set_refs l k)) by exact (copied_same g k (set_refs l k) Hk eq_refl (co_count _ _ Hk) (reflexivity _)).
  destruct (follow_copied g r _ Hk') as [Hf [Hp Hq]]. cbn [set_refs k_count k_refs] in Hp, Hq.
  assert (∃ n k', (∀ fuel, (n ≤ fuel)%nat → drain fuel g (follow g r (set_refs l k)) = Some k') ∧ copied g k') as (n & k' & Hn & Hk2).
  { pose proof (co_count _ _ Hf) as Hc. destruct (decide (k_count k = k_count (follow g r (set_refs l k)))) as [E|E].
    - apply IHl; [by rewrite (Hq E)|rewrite <-E; exact IHc|done].
    - refine (IHc _ _ _ eq_refl Hf). lia. }
  exists (S n), k'. split; [|done]. intros [|fuel] Hle; [lia|]. cbn [GitCopy.drain]. rewrite <-Hl. apply Hn. lia.
Qed.
Lemma defaults_copied g : copied g (defaults f klinks ino opened home xdg0 lowerU ParseAuthorizedKey g).
Proof.
  unfold defaults. apply file_copied, file_copied, config_copied, config_copied. split; try (by constructor). cbn. lia.
Qed.

Local Notation stores := (stores f klinks ino home xdg0).
Lemma credential_store g src resolved i : credential g src resolved i ≠ Some InStore → i_ino i ∉ stores.
Proof.
  unfold GitCopy.credential. intros H Hi. apply H.
  replace (existsb (Nat.eqb (i_ino i)) stores) with true; [done|]. symmetry. apply existsb_exists.
  exists (i_ino i). split; [by apply list_elem_of_In|apply Nat.eqb_refl].
Qed.
Lemma find_guard dirs i : List.find (λ d, (pr_ino d =? i)%nat) dirs = None → ¬ in_guard dirs i.
Proof. intros H (d & Hd & E). apply list_elem_of_In in Hd. apply (find_none _ _ H) in Hd. cbn in Hd. by apply Nat.eqb_neq in Hd. Qed.
Lemma head_omap_None {A B} (h : A → option B) l x : head (omap (M:=list) h l) = None → x ∈ l → h x = None.
Proof.
  induction l as [|y l IH]; [by intros _ ?%elem_of_nil|]. cbn. destruct (h y) eqn:E; [done|]. intros H [->|Hx]%elem_of_cons; [done|by apply IH].
Qed.
(** A path in a directory of the guard. *)
Definition in_private (p : path) : Prop := ∃ q d n, q ∈ ancestors p ∧ reached d ∧ stat q = Some {| i_ino := ino d; i_node := n |}.
Lemma credential_None g src resolved i :
  (c_incomplete g = "" → ∀ d, reached d → in_guard (c_dirs g) (ino d)) → credential g src resolved i = None →
  ¬ in_guard (c_files g) (i_ino i) ∧ ¬ in_private src ∧ ¬ in_private resolved ∧ c_incomplete g = "".
Proof.
  unfold GitCopy.credential. intros Hr. destruct (existsb _ _); [done|]. destruct (List.find _ _) eqn:Ef; [done|].
  destruct (head _) eqn:Eh; [done|]. destruct (String.eqb_spec (c_incomplete g) "") as [Hi|]; [|done]. intros _. specialize (Hr Hi).
  assert (∀ p, (∀ q, q ∈ ancestors p → q ∈ ancestors src ++ ancestors resolved) → ¬ in_private p) as Hp.
  { intros p Hp (q & d & n & Hq & Hd & Es). pose proof (head_omap_None _ _ q Eh (Hp q Hq)) as Hn. unfold in_dirs in Hn. rewrite Es in Hn.
    cbn in Hn. apply fmap_None in Hn. by apply (find_guard _ _ Hn), Hr. }
  split; [by apply find_guard|]. split; [apply Hp; intros q Hq; apply elem_of_app; by left|].
  split; [apply Hp; intros q Hq; apply elem_of_app; by right|done].
Qed.
(** A copy whose content may enter the guest. *)
Definition harmless (s : snapshot) : Prop :=
  ∃ resolved o data,
    link_walk f [] maxLinkHops [] (comps (s_Host s)) = (LinkNone, resolved) ∧ opened resolved = Some o ∧
    of_regular o = true ∧ of_ino o = ino resolved ∧ of_data o = Some data ∧ (Z.of_nat (String.length data) ≤ maxConfigSize)%Z ∧
    of_ino o ∉ stores ∧
    match s_public s with
    | Some kind => parse_public ParseAuthorizedKey kind data = Some (s_data s)
    | None => ¬ secret_ino (of_ino o) ∧ ¬ in_private (comps (s_Host s)) ∧ ¬ in_private resolved ∧
              (s_data s = data ∨ s_data s = rewriteGitConfig lowerU data home)
    end.

(** C31: copying the Git configuration ends, and what it sends into the guest is
    harmless: every copy goes to its own path under the agent's home and carries
    the content of one regular file of bounded size, opened as the very file
    that was checked; the file is no Git credential store; and unless it is
    parsed to public keys only, it is no file of a credentials directory or of
    a directory such a directory links to, under any name, and neither its path
    nor the path it resolves to lies in such a directory. *)
Theorem gitConfigSnapshots_harmless :
  tree f → (∀ p q, clean f p → clean f q → node_at f p = Some NDir → node_at f q = Some NDir → ino p = ino q → p = q) →
  ∃ n k, (∀ fuel, (n ≤ fuel)%nat →
      gitConfigSnapshots f klinks readable ino opened home xdg0 maxProtectedEntries lowerU ParseAuthorizedKey fuel = Some k) ∧
    NoDup (s_Container <$> k_out k) ∧ (k_count k ≤ S maxConfigFiles)%nat ∧
    Forall (λ s, guest_path (s_Container s) ∧ harmless s) (k_out k).
Proof.
  intros Ht Hdir. destruct (protect_all_total protect_fuel) as [g Eg]; [done|].
  destruct (drain_copied g _ (defaults_copied g)) as (n & k & Hn & [H1 H2 H3 H4 H5]).
  exists (max protect_fuel n), k. split; [intros fuel Hf; unfold gitConfigSnapshots; rewrite (protect_all_mono protect_fuel fuel g); [apply Hn; lia|lia|done]|].
  split; [done|]. split; [done|]. apply Forall_forall. intros s Hs. rewrite !Forall_forall in H1 H2. split; [by apply H2|].
  destruct (H1 s Hs) as (data & why & [_ (resolved & nd & o & El & En & Ei & Ew & Eo & Hreg & Ho & Hdata) Hsize] & Hpub).
  exists resolved, o, data. repeat split; [done..|congruence|done|done| |].
  - rewrite Ho. apply (credential_store g (comps (s_Host s)) resolved {| i_ino := s_ino s; i_node := nd |}). rewrite Ew.
    by destruct (s_public s); destruct Hpub as [-> _] || destruct Hpub as [? _].
  - destruct (s_public s) as [kind|]; [apply Hpub|]. destruct Hpub as [-> Hd].
    destruct (credential_None g (comps (s_Host s)) resolved {| i_ino := s_ino s; i_node := nd |}) as (C1 & C2 & C3 & C4); [|done|].
    + intros Hi. by apply (protect_all_guarded _ _ Ht Hdir Eg).
    + repeat split; [|done..]. rewrite Ho. intros Hsec. by apply C1, (protect_all_guarded _ _ Ht Hdir Eg C4).
Qed.
End Safe.

(** ** A home directory where a hard link names a private key *)

Definition lab_conf : string := "[core]" +:+ newline +:+ "excludesfile = ~/ignore" +:+ newline +:+ "[include]" +:+ newline +:+ "path = more" +:+ newline.
Definition lab_home : fs :=
  list_to_map [(["h"], NDir); (["h"; ".ssh"], NDir); (["h"; ".ssh"; "id"], NFile "KEY"); (["h"; ".ssh"; "shared"], NLink "../keys");
               (["h"; "keys"], NDir); (["h"; "keys"; "k"], NFile "KEY2"); (["h"; ".gitconfig"], NFile lab_conf);
               (["h"; "ignore"], NFile "KEY2"); (["h"; "more"], NFile "[a]")].
Definition lab_ino (p : path) : nat :=
(if bool_decide (p = ["h"]) then 1 else if bool_decide (p = ["h"; ".ssh"]) then 2 else if bool_decide (p = ["h"; "keys"]) then 3
  else if bool_decide (p = ["h"; ".gitconfig"]) then 4 else if bool_decide (p = ["h"; "keys"; "k"]) then 5
  else if bool_decide (p = ["h"; "ignore"]) then 5 else if bool_decide (p = ["h"; "more"]) then 6 else if bool_decide (p = ["h"; ".ssh"; "id"]) then 7 else 0)%nat.
Definition lab_open (p : path) : option ofile :=
  match lab_home !! p with
  | Some (NFile d) => Some {| of_ino := lab_ino p; of_regular := true; of_size := Z.of_nat (String.length d); of_data := Some d |}
  | _ => None
  end.
Definition lab_copy (max : nat) : option copier :=
  gitConfigSnapshots lab_home 40 (λ _, true) lab_ino lab_open "/h" "" max id (λ _, None) 100%nat.
Example lab_copies :
  (λ k, (map s_Host (k_out k), k_warned k)) <$> lab_copy 50 =
    Some (["/h/.gitconfig"; "/h/more"], [WarnCredential "core.excludesFile /h/ignore" (InDir ".ssh")]) ∧
  (λ k, (map s_Host (k_out k), k_warned k)) <$> lab_copy 2 = Some ([], [WarnCredential "/h/.gitconfig" (Unchecked ".ssh")]).
Proof. by vm_compute. Qed.
Lemma lab_home_tree : tree lab_home.
Proof. apply host_tree_spec. by vm_compute. Qed.
Lemma lab_home_dirs p : node_at lab_home p = Some NDir → p ∈ [[]; ["h"]; ["h"; ".ssh"]; ["h"; "keys"]].
Proof.
  destruct p as [|x p]; [by left|]. intros H. change (lab_home !! ((x :: p) : path) = Some NDir) in H. apply elem_of_list_to_map_2 in H.
  repeat (apply elem_of_cons in H as [H|H]; [first [discriminate H|injection H as -> ->; by do 4 (try apply elem_of_cons; try first [by left|right])]|]).
  by apply elem_of_nil in H.
Qed.
Lemma gitConfigSnapshots_harmless_witness :
  ∃ n k, (∀ fuel, (n ≤ fuel)%nat →
      gitConfigSnapshots lab_home 40 (λ _, true) lab_ino lab_open "/h" "" 50 id (λ _, None) fuel = Some k) ∧
    NoDup (s_Container <$> k_out k) ∧ (k_count k ≤ S maxConfigFiles)%nat ∧
    Forall (λ s, guest_path (s_Container s) ∧ harmless lab_home 40 (λ _, true) lab_ino lab_open "/h" "" id (λ _, None) s) (k_out k).
Proof.
  apply (gitConfigSnapshots_harmless lab_home 40 (λ _, true) lab_ino lab_open "/h" "" 50 id (λ _, None) lab_home_tree).
  intros p q _ _ Hp Hq. apply lab_home_dirs in Hp, Hq.
  repeat (apply elem_of_cons in Hp as [->|Hp]; [repeat (apply elem_of_cons in Hq as [->|Hq]; [vm_compute; intros H; first [reflexivity|discriminate H]|]); by apply elem_of_nil in Hq|]).
  by apply elem_of_nil in Hp.
Defined.
