(* ===== verification/PathNames.v ===== *)
(** * Path strings and their names

    The guest paths of the program are cleaned absolute strings, compared by
    [strings.HasPrefix]; the models of directory trees use lists of names. On
    paths made of proper names the two views agree. *)

From S2P Require Import Prelude GoStrings GoPath HostFS.
Open Scope string_scope.
Open Scope list_scope.

(** A name of a directory entry that cleaning keeps. *)
Definition name (x : string) : Prop := plain x ∧ has_char "/" x = false.
Definition names (p : path) : Prop := Forall name p.

Lemma names_plain p : names p → Forall plain p.
Proof. intros H. by apply (Forall_impl _ _ _ H); intros x [? _]. Qed.
Lemma Join_cons x l sep : l ≠ [] → Join (x :: l) sep = x +:+ sep +:+ Join l sep.
Proof. by destruct l. Qed.
Lemma Join_app (a b : list string) sep : a ≠ [] → b ≠ [] → Join (a ++ b) sep = Join a sep +:+ sep +:+ Join b sep.
Proof.
  induction a as [|x a IH]; [done|]. intros _ Hb. destruct a as [|y a]; [cbn [app]; by rewrite (Join_cons x b)|].
  cbn [app] in *. rewrite (Join_cons x (y :: a)); [|done]. rewrite (Join_cons x (y :: a ++ b)); [|done]. rewrite IH; [|done..].
  by rewrite !sapp_assoc.
Qed.
Lemma Split_Join l : l ≠ [] → names l → Split (Join l "/") "/" = l.
Proof. intros Hne H. apply (Split_Join_sep "/"); [done|]. by apply (Forall_impl _ _ _ H); intros x [_ ?]. Qed.
Lemma filter_names p : names p → filter (λ e, e ≠ "" ∧ e ≠ ".") p = p.
Proof. induction 1 as [|x p [(H1 & H2 & _) _] _ IH]; [done|]. rewrite filter_cons_True; [by rewrite IH|done]. Qed.
Lemma elems_Join p : names p → elems (Join p "/") = p.
Proof. intros H. destruct p as [|x p]; [done|]. unfold elems. rewrite Split_Join; [by apply filter_names|done|done]. Qed.
Lemma Split_path_string p : p ≠ [] → names p → Split (path_string p) "/" = "" :: p.
Proof.
  intros Hne H. unfold path_string. change ("/" +:+ Join p "/") with ("" +:+ String "/" (Join p "/")).
  rewrite (Split_cons "/"); [|done]. by rewrite Split_Join.
Qed.
Lemma comps_path_string p : names p → comps (path_string p) = p.
Proof.
  intros H. unfold comps. replace (elems (path_string p)) with p; [by apply clean_elems_plain, names_plain|].
  destruct p as [|x p]; [done|]. unfold elems. rewrite Split_path_string; [|done|done]. by rewrite filter_cons_False; [rewrite filter_names|intros [? _]].
Qed.
Lemma path_string_app p r : p ≠ [] → r ≠ [] → path_string (p ++ r) = path_string p +:+ "/" +:+ Join r "/".
Proof. intros Hp Hr. unfold path_string. rewrite Join_app; [|done|done]. by rewrite !sapp_assoc. Qed.
(** [strings.HasPrefix(c, b+"/")]: [c] is below [b]. *)
Lemma HasPrefix_below b c :
  names b → names c → b ≠ [] → HasPrefix (path_string c) (path_string b +:+ "/") = true ↔ ∃ r, r ≠ [] ∧ c = b ++ r.
Proof.
  intros Hb Hc Hne. split.
  - intros (r & E)%HasPrefix_spec. destruct (decide (c = [])) as [->|Hc'].
    { exfalso. apply (f_equal String.length) in E. unfold path_string in E. rewrite !slength_app in E. destruct b as [|x b]; [done|].
      apply Forall_cons in Hb as [[(Hx & _) _] _]. destruct x; [done|]. destruct b; cbn in E; lia. }
    apply (f_equal (λ s, Split s "/")) in E. rewrite Split_path_string in E; [|done..].
    rewrite -sapp_assoc in E. change ("/" +:+ r) with (String "/" r) in E. rewrite (Split_app "/") in E.
    change (sep1 "/") with "/" in E. rewrite Split_path_string in E; [|done..].
    injection E as E. exists (Split r "/"). split; [apply split_fuel_ne|done].
  - intros (r & Hr & ->). apply HasPrefix_spec. exists (Join r "/"). rewrite path_string_app; [|done..]. by rewrite sapp_assoc.
Qed.
Lemma TrimPrefix_below b r : b ≠ [] → r ≠ [] → TrimPrefix (path_string (b ++ r)) (path_string b +:+ "/") = Join r "/".
Proof. intros Hb Hr. rewrite path_string_app; [|done..]. unfold TrimPrefix. by rewrite sapp_assoc CutPrefix_app. Qed.

Lemma last_slash_none x : has_char "/" x = false → last_slash x = None.
Proof.
  unfold has_char. induction x as [|c x IH]; [done|]. cbn [sexists last_slash]. intros [Hc Hx]%orb_false_iff. rewrite (IH Hx).
  by rewrite Ascii.eqb_sym Hc.
Qed.
Lemma last_slash_app a x : has_char "/" x = false → last_slash (a +:+ String "/" x) = Some (a +:+ "/", x).
Proof.
  intros Hx. induction a as [|c a IH]; [change (last_slash (String "/" x) = Some ("/", x)); cbn [last_slash]; by rewrite (last_slash_none x Hx)|]. rewrite !sapp_cons. cbn [last_slash]. by rewrite IH.
Qed.
Lemma Clean_rel k : names k → k ≠ [] → Clean (Join k "/" +:+ "/") = Join k "/".
Proof.
  intros Hk Hne. assert (Hs : Split (Join k "/" +:+ "/") "/" = k ++ [""]).
  { change "/" with (String "/" "") at 2. rewrite (Split_app "/"). change (sep1 "/") with "/". by rewrite Split_Join. }
  unfold Clean. replace (IsAbs _) with false.
  - replace (elems _) with k; [|unfold elems; rewrite Hs filter_app filter_names; [by rewrite app_nil_r|done]].
    rewrite clean_elems_plain; [|by apply names_plain].
    cbv zeta. change ("" +:+ Join k "/") with (Join k "/"). destruct (String.eqb_spec (Join k "/") "") as [E|]; [|done].
    apply (f_equal (λ s, Split s "/")) in E. rewrite Split_Join in E; [|done..]. destruct Hk as [|x k [(Hx & _) _] _]; [done|]. by injection E as -> _.
  - symmetry. destruct (IsAbs _) eqn:E; [|done]. apply HasPrefix_spec in E as [r E]. rewrite E in Hs.
    change ("/" +:+ r) with ("" +:+ String "/" r) in Hs. rewrite (Split_cons "/") in Hs; [|done].
    destruct Hk as [|x k [(Hx & _) _] _]; [done|]. by injection Hs as <- _.
Qed.
(** The names of the directory of a relative path. *)
Lemma elems_Dir_Join r : names r → r ≠ [] → elems (Dir (Join r "/")) = parent r.
Proof.
  intros Hr Hne. destruct (exists_last Hne) as (k & z & ->). rewrite parent_snoc. apply Forall_app in Hr as [Hk Hz]. apply Forall_cons in Hz as [[Hz Hs] _].
  unfold Dir. destruct (decide (k = [])) as [->|Hk']; [by rewrite last_slash_none|].
  rewrite Join_app; [|done..]. change ("/" +:+ Join [z] "/") with (String "/" z). rewrite (last_slash_app _ z Hs) Clean_rel; [|done..]. by apply elems_Join.
Qed.
Lemma IsAbs_path_string p t : IsAbs (path_string p +:+ t) = true.
Proof. apply HasPrefix_spec. exists (Join p "/" +:+ t). unfold path_string. by rewrite sapp_assoc. Qed.
Lemma Clean_path_string k : names k → Clean (path_string k +:+ "/") = path_string k.
Proof.
  intros Hk. unfold Clean. rewrite IsAbs_path_string. replace (elems (path_string k +:+ "/")) with k.
  - by rewrite clean_elems_plain; [|apply names_plain].
  - unfold elems. destruct (decide (k = [])) as [->|Hne]; [done|]. change "/" with (String "/" "") at 1. rewrite (Split_app "/").
    change (sep1 "/") with "/". rewrite Split_path_string; [|done..]. cbn [app]. rewrite filter_cons_False; [|by intros [? _]].
    rewrite filter_app filter_names; [|done]. by rewrite app_nil_r.
Qed.
(** The directory of an absolute path. *)
Lemma Dir_path_string k z : names k → name z → Dir (path_string (k ++ [z])) = path_string k.
Proof.
  intros Hk [_ Hz]. unfold Dir. destruct (decide (k = [])) as [->|Hne].
  - change (path_string ([] ++ [z])) with ("" +:+ String "/" z). by rewrite (last_slash_app "" z Hz).
  - rewrite path_string_app; [|done..]. change ("/" +:+ Join [z] "/") with (String "/" z). rewrite (last_slash_app _ z Hz). by apply Clean_path_string.
Qed.
Lemma Dir_root : Dir (path_string []) = path_string [].
Proof. done. Qed.
Lemma elems_path_string k : names k → elems (path_string k) = k.
Proof.
  intros H. destruct k as [|x k]; [done|]. unfold elems. rewrite Split_path_string; [|done|done].
  by rewrite filter_cons_False; [rewrite filter_names|intros [? _]].
Qed.
Lemma Clean_path k : names k → Clean (path_string k) = path_string k.
Proof.
  intros Hk. assert (IsAbs (path_string k) = true) as Ha by (rewrite -(sapp_nil_r (path_string k)); apply IsAbs_path_string).
  unfold Clean. rewrite Ha elems_path_string //. by rewrite clean_elems_plain; [|apply names_plain].
Qed.
Lemma path_string_inj a b : names a → names b → path_string a = path_string b → a = b.
Proof. intros Ha Hb E. by rewrite -(comps_path_string a Ha) E comps_path_string. Qed.
(** [filepath.Join] of a clean path and names. *)
Lemma JoinPath_names k l : k ≠ [] → l ≠ [] → names k → names l → JoinPath (path_string k :: l) = path_string (k ++ l).
Proof.
  intros Hk Hl Nk Nl. cbn [JoinPath]. assert (path_string k ≠ "") as Hne by (unfold path_string; by destruct (Join k "/")).
  destruct (String.eqb_spec (path_string k) "") as [|_]; [done|]. rewrite Join_cons // -path_string_app //.
  apply Clean_path. by apply Forall_app.
Qed.
