(* ===== verification/Snapshots.v ===== *)
(** * Snapshots of host files in the guest

    [src/internal/cmd/vmsnapshots_unix.go]: which host files and directories a
    workspace VM gets as copies ([vmSnapshots]), where they may appear
    ([checkSnapshots]) and how they are staged ([stageSnapshots]): copied into a
    new generation of the read-only guest data directory, a snapshot inside
    another one into the copy of that one, so that one bind per outermost
    snapshot shows all of them. The staged tree is a map from paths relative to
    that directory; the host is the file system of [HostFS]. Permissions are
    before the umask, and only the causes of failure the two trees determine
    are modelled. *)

From S2P Require Import Prelude GoStrings GoStrconv GoSort GoPath ConfigPaths Resolve HostFS PathNames StateErr.
From S2P Require Vm GuestSys GitCopy.
Open Scope string_scope.
Open Scope list_scope.

Record snapshot := { sn_mount : Mount; sn_data : option string }.
Definition s_host (s : snapshot) : string := Host (sn_mount s).
Definition s_cont (s : snapshot) : string := Container (sn_mount s).
Definition mountOf (src dest : string) : Mount := {| Host := src; Container := dest; Mode := "ro" |}.
Definition of_copy (s : GitCopy.snapshot) : snapshot :=
  {| sn_mount := mountOf (GitCopy.s_Host s) (GitCopy.s_Container s); sn_data := Some (GitCopy.s_data s) |}.
Definition guestKnownHosts : string := guestHome +:+ "/.ssh/known_hosts".

(** ** The snapshots of a workspace *)

Section Which.
(** [home] is [os.UserHomeDir], [git] is [gitConfigSnapshots] for the
    environment's [XDG_CONFIG_HOME]. *)
Context (home : option string) (ParseVolume : string → option (string * string)).
Context (git : string → list GitCopy.snapshot) (isRegularFile : string → bool).
Context (GitConfig SSHAuthSock : bool) (wsSnapshots : list string).

Definition defaults : list snapshot :=
  match home with
  | None => []
  | Some home =>
      let src := JoinPath [home; ".ssh"; "known_hosts"] in
      (if GitConfig then of_copy <$> git home else []) ++
      (if SSHAuthSock && isRegularFile src then [{| sn_mount := mountOf src guestKnownHosts; sn_data := None |}] else [])
  end.
Definition spec_of (s : snapshot) : string := s_host s +:+ ":" +:+ s_cont s +:+ ":ro".
Definition byDest : gmap string snapshot := foldl (λ m s, <[s_cont s := s]> m) ∅ defaults.
Definition explicit : gset string :=
  foldl (λ e spec, match ParseMount home ParseVolume spec with Ok m => {[Clean (Container m)]} ∪ e | Err _ => e end) ∅ wsSnapshots.
(** One merged specification: the snapshot, and whether it is a configured one. *)
Definition take_spec (spec : string) : result cerr (snapshot * bool) :=
  m ← ParseMount home ParseVolume spec;
  host ← ExpandPath home (Host m);
  let m := {| Host := host; Container := Clean (Container m); Mode := Mode m |} in
  Ok (match byDest !! Container m with
      | Some d => if bool_decide (Container m ∈ explicit) then ({| sn_mount := m; sn_data := None |}, true) else (d, false)
      | None => ({| sn_mount := m; sn_data := None |}, true)
      end).
Definition hidden (configured : list string) (s : snapshot) : bool :=
  bool_decide (is_Some (byDest !! s_cont s)) && negb (bool_decide (s_cont s ∈ explicit)) &&
  existsb (λ c, HasPrefix (s_cont s) (c +:+ "/")) configured.
Definition slashes (s : snapshot) : nat := count_char "/" (s_cont s).
Definition by_depth (a b : snapshot) : bool := (slashes a <=? slashes b)%nat.
Definition vmSnapshots : result cerr (list snapshot) :=
  merged ← MergeMounts home ParseVolume [spec_of <$> defaults; wsSnapshots];
  l ← rmap take_spec merged;
  let configured := s_cont <$> (filter (λ sb : snapshot * bool, sb.2 = true) l).*1 in
  Ok (stable_sort by_depth (filter (λ s, hidden configured s = false) l.*1)).
End Which.

Definition overlaps (a b : string) : bool := String.eqb a b || HasPrefix a (b +:+ "/") || HasPrefix b (a +:+ "/").
Inductive overlap_err := Reserved (c : string) | Overlaps (c p : string).
Definition guestDir : string := "/.jailoc".
Definition checkSnapshots (snapshots : list snapshot) (shares : list Vm.Share) : result overlap_err () :=
  riter (λ c,
    _ ← guard_err (negb (overlaps (s_cont c) guestDir)) (Reserved (s_cont c));
    riter (λ s, let p := Vm.GuestPath s in
                guard_err (negb (negb (String.eqb p "") && overlaps (s_cont c) p)) (Overlaps (s_cont c) p)) shares) snapshots.

(** ** Staging *)

Inductive entry := EDir (perm : Z) | EFile (perm : Z) (data : string) | ELink (target : string).
#[export] Instance entry_eq_dec : EqDecision entry.
Proof. solve_decision. Defined.
Definition staged : Type := gmap path entry.
(** The octal modes of the source. *)
Definition perm_700 : Z := 448.
Definition perm_400 : Z := 256.
Definition perm_644 : Z := 420.
Definition perm_755 : Z := 493.
Inductive stage_err := SExist (p : path) | SNotDir (p : path) | SSource (p : string).
Notation sop := (op staged stage_err).

Definition is_edir (e : option entry) : bool := match e with Some (EDir _) => true | _ => false end.
Definition dir_at (t : staged) (p : path) : bool := match p with [] => true | _ => is_edir (t !! p) end.
(** The calls of [os.Root], on paths whose directories are no links. *)
Definition put (p : path) (e : entry) : sop () := λ t,
  if dir_at t (parent p) && bool_decide (p ≠ []) && bool_decide (t !! p = None) then (Ok (), <[p := e]> t) else (Err (SExist p), t).
Fixpoint MkdirAll_from (done todo : path) (perm : Z) : sop () :=
  match todo with
  | [] => mret ()
  | c :: todo =>
      let p := done ++ [c] in
      e ← gets (λ t, t !! p);
      _ ← match e with Some (EDir _) => mret () | Some _ => fail (SNotDir p) | None => put p (EDir perm) end;
      MkdirAll_from p todo perm
  end.
Definition rMkdirAll (p : path) (perm : Z) : sop () := MkdirAll_from [] p perm.
Definition RemoveAll (p : path) : sop () := modify (λ t : staged, filter (λ pe, ¬ p `prefix_of` pe.1) t).

Section Stage.
(** [perm] gives the permission bits of a host path and [special] what reading
    a host file that is neither regular nor a directory gives. *)
Context (f : fs) (klinks : nat) (readable : path → bool) (perm : path → Z) (special : path → option string).

Definition copyRegular (src : path) (n : node) (dst : path) : sop () :=
  match (match n with NFile d => if readable src then Some d else None | _ => special src end) with
  | Some d => put dst (EFile (Z.lor (perm src) perm_400) d)
  | None => fail (SSource (path_string src))
  end.
(** The function of the walk, then the entries of a directory in order. *)
Fixpoint copy_walk (fuel : nat) (src : path) (n : node) (dst : path) : sop () :=
  match n with
  | NDir =>
      _ ← rMkdirAll dst (Z.lor (perm src) perm_700);
      if negb (readable src) then fail (SSource (path_string src)) else
      match fuel with
      | O => mret ()
      | S fuel => each (λ xn, copy_walk fuel (src ++ [xn.1]) xn.2 (dst ++ [xn.1])) (children f src)
      end
  | NLink t => put dst (ELink t)
  | NFile _ => copyRegular src n dst
  | NOther => mret ()
  end.
Definition copyTree (src : string) (dst : path) : sop () :=
  let p := comps src in
  match Stat klinks f p with
  | LNode NDir =>
      match resolve f p with
      | Some q => match node_at f q with Some n => copy_walk (GitCopy.depth f) q n dst | None => fail (SSource src) end
      | None => fail (SSource src)
      end
  | LNode n => copyRegular p n dst
  | _ => fail (SSource src)
  end.
Definition stageSnapshot (c : snapshot) (dst : path) : sop () :=
  match sn_data c with None => copyTree (s_host c) dst | Some d => put dst (EFile perm_644 d) end.

(** The directories of [rel] below the staged directory [done]. *)
Fixpoint child_dirs (done : path) (parts : list string) : sop () :=
  match parts with
  | [] => mret ()
  | part :: parts =>
      let p := done ++ [part] in
      e ← gets (λ t, t !! p);
      _ ← match e with None => put p (EDir perm_755) | Some (EDir _) => mret () | Some _ => fail (SNotDir p) end;
      child_dirs p parts
  end.
Definition stageChildSnapshot (parentDst : path) (rel : string) (c : snapshot) : sop () :=
  d ← gets (λ t, dir_at t parentDst);
  _ ← ensure d (SNotDir parentDst);
  _ ← child_dirs parentDst (elems (Dir rel));
  _ ← RemoveAll (parentDst ++ elems rel);
  stageSnapshot c (parentDst ++ elems rel).

Definition SnapshotsDir : string := "/.jailoc/private/host-ro/snapshots".
Definition snapshotsDir : path := ["snapshots"].
(** [binds] and [staged] grow together. *)
Fixpoint stage_loop (gen : string) (i : nat) (binds : list (Vm.Snapshot * path)) (l : list snapshot) : sop (list Vm.Snapshot) :=
  match l with
  | [] => mret binds.*1
  | c :: l =>
      match List.find (λ b, HasPrefix (s_cont c) (Vm.sn_Target b.1 +:+ "/")) binds with
      | Some (b, dst) =>
          _ ← stageChildSnapshot dst (TrimPrefix (s_cont c) (Vm.sn_Target b +:+ "/")) c;
          stage_loop gen (S i) binds l
      | None =>
          let dst := snapshotsDir ++ [gen; Itoa (Z.of_nat i)] in
          _ ← stageSnapshot c dst;
          stage_loop gen (S i) (binds ++ [({| Vm.sn_Source := JoinPath [SnapshotsDir; gen; Itoa (Z.of_nat i)]; Vm.sn_Target := s_cont c |}, dst)]) l
      end
  end.
(** What the calls after [f] did is undone when one of them fails. *)
Definition cleanup {A} (m : sop A) (undo : sop ()) : sop A := λ t,
  match m t with (Ok a, t') => (Ok a, t') | (Err e, t') => (Err e, (undo t').2) end.
Definition old_generations (keep : string) (t : staged) : list string :=
  omap (M:=list) (λ p, match p with [x; g] => if String.eqb x "snapshots" && negb (String.eqb g keep) then Some g else None | _ => None end) (map_to_list t).*1.
Definition stageSnapshots (gen keep : string) (snapshots : list snapshot) : sop (list Vm.Snapshot) :=
  _ ← rMkdirAll snapshotsDir perm_700;
  old ← gets (old_generations keep);
  _ ← each (λ g, RemoveAll (snapshotsDir ++ [g])) old;
  if bool_decide (snapshots = []) then mret [] else
  _ ← put (snapshotsDir ++ [gen]) (EDir perm_700);
  cleanup (stage_loop gen 0 [] snapshots) (RemoveAll (snapshotsDir ++ [gen])).
End Stage.
Definition snapshotGeneration (binds : list Vm.Snapshot) : string :=
  match binds with
  | [] => ""
  | b :: _ => let '(gen, _, _) := Cut (TrimPrefix (Vm.sn_Source b) (SnapshotsDir +:+ "/")) "/" in gen
  end.

(** ** What a copy of a host tree holds *)

(** Every staged entry is in a staged directory. *)
Definition stree (t : staged) : Prop := ∀ p e, t !! p = Some e → p ≠ [] ∧ dir_at t (parent p) = true.
Lemma put_Ok p e (t t' : staged) u : put p e t = (Ok u, t') ↔ dir_at t (parent p) = true ∧ p ≠ [] ∧ t !! p = None ∧ t' = <[p := e]> t.
Proof.
  unfold put. destruct u. destruct (dir_at t (parent p)); cbn [andb]; [|naive_solver].
  repeat case_bool_decide; cbn; naive_solver.
Qed.
Lemma dir_at_insert (t : staged) p e q : dir_at t q = true → t !! p = None → dir_at (<[p := e]> t) q = true.
Proof.
  destruct q as [|x q]; [done|]. cbn. destruct (decide (p = x :: q)) as [->|Hn]; [|by rewrite lookup_insert_ne].
  intros H Hp. by rewrite Hp in H.
Qed.
Lemma stree_put (t : staged) p e : stree t → p ≠ [] → dir_at t (parent p) = true → t !! p = None → stree (<[p := e]> t).
Proof.
  intros Ht Hp Hd Hn q e' Hq. destruct (decide (p = q)) as [<-|Hne]; [split; [done|by apply dir_at_insert]|].
  rewrite lookup_insert_ne in Hq; [|done]. destruct (Ht q e' Hq) as [H1 H2]. split; [done|by apply dir_at_insert].
Qed.
Lemma dir_at_app (t : staged) q k : stree t → dir_at t (q ++ k) = true → dir_at t q = true.
Proof.
  intros Ht. induction k as [|x k IH] using rev_ind; [by rewrite app_nil_r|]. intros H. apply IH.
  rewrite app_assoc in H. unfold dir_at in H. destruct ((q ++ k) ++ [x]) as [|y l] eqn:E; [by destruct (q ++ k)|].
  rewrite <-E in H. destruct (t !! ((q ++ k) ++ [x])) as [e|] eqn:Ee; [|done]. apply Ht in Ee as [_ Ee]. by rewrite parent_snoc in Ee.
Qed.
(** Creating the directories of a path whose own directory exists. *)
Lemma rMkdirAll_fresh (t : staged) p m :
  stree t → p ≠ [] → dir_at t (parent p) = true → t !! p = None → rMkdirAll p m t = (Ok (), <[p := EDir m]> t).
Proof.
  intros Ht Hp Hd Hn. unfold rMkdirAll.
  assert (H : ∀ base todo, base ++ todo = p → todo ≠ [] → MkdirAll_from base todo m t = (Ok (), <[p := EDir m]> t)); [|by apply H].
  intros base todo. revert base. induction todo as [|c todo IH]; intros base E Hne; [done|]. clear Hne.
  destruct todo as [|c' todo]; cbn [MkdirAll_from]; unfold mbind, op_bind, gets.
  { rewrite E Hn. unfold put. rewrite Hd Hn. by rewrite !bool_decide_eq_true_2. }
  assert (dir_at t (base ++ [c]) = true) as Hc.
  { destruct (exists_last (l := c' :: todo) ltac:(done)) as (k & z & Ek). rewrite Ek in E.
    replace (base ++ c :: k ++ [z]) with (((base ++ [c]) ++ k) ++ [z]) in E by by rewrite -!app_assoc.
    rewrite -E parent_snoc in Hd. by apply (dir_at_app t _ k Ht). }
  assert (∃ pm, t !! (base ++ [c]) = Some (EDir pm)) as [pm ->].
  { destruct (base ++ [c]) as [|y l] eqn:Eb; [by destruct base|]. unfold dir_at in Hc. destruct (t !! (y :: l)) as [[pm| |]|]; try done. by exists pm. }
  apply IH; [by rewrite -app_assoc|done].
Qed.

(** The entries of the directories that lead to a child snapshot. *)
Definition child_dir (base parts p : path) : bool :=
  bool_decide (base `prefix_of` p) && negb (bool_decide (p = base)) && bool_decide (p `prefix_of` base ++ parts).
Lemma child_dirs_Ok base parts (t t' : staged) :
  stree t → dir_at t base = true → child_dirs base parts t = (Ok (), t') →
  stree t' ∧ dir_at t' (base ++ parts) = true ∧
  ∀ p, t' !! p = match t !! p with Some e => Some e | None => if child_dir base parts p then Some (EDir perm_755) else None end.
Proof.
  revert base t. induction parts as [|c parts IH]; intros base t Ht Hd H.
  { injection H as <-. rewrite app_nil_r. split; [done|]. split; [done|]. intros p. destruct (t !! p); [done|]. unfold child_dir. rewrite app_nil_r.
    destruct (bool_decide (base `prefix_of` p)) eqn:E1; [|done]. destruct (bool_decide (p `prefix_of` base)) eqn:E2; [|by rewrite andb_false_r].
    apply bool_decide_eq_true in E1, E2. rewrite (bool_decide_eq_true_2 (p = base)); [done|]. by apply (anti_symm prefix). }
  cbn [child_dirs] in H. apply op_bind_Ok in H as (e & t0 & H0 & H). injection H0 as <- <-. apply op_bind_Ok in H as (u & t1 & H1 & H).
  assert (Hchild : stree t1 ∧ dir_at t1 (base ++ [c]) = true ∧
    ∀ p, t1 !! p = match t !! p with Some e => Some e | None => if bool_decide (p = base ++ [c]) then Some (EDir perm_755) else None end).
  { destruct (t !! (base ++ [c])) as [[m| |]|] eqn:Ec; [|done|done|].
    - injection H1 as _ <-. split; [done|]. split; [unfold dir_at; rewrite Ec; by destruct base|].
      intros p. destruct (t !! p) eqn:Ep; [done|]. rewrite bool_decide_eq_false_2; [done|]. intros ->. by rewrite Ep in Ec.
    - apply put_Ok in H1 as (Hp1 & Hp2 & Hp3 & ->). split; [by apply stree_put|].
      split; [unfold dir_at; rewrite lookup_insert_eq; by destruct base|]. intros p. destruct (decide (p = base ++ [c])) as [->|Hne].
      + rewrite lookup_insert_eq Ec. by rewrite bool_decide_eq_true_2.
      + rewrite lookup_insert_ne; [|congruence]. rewrite bool_decide_eq_false_2; [|done]. by case_match. }
  destruct Hchild as (Ht1 & Hd1 & E1). destruct (IH (base ++ [c]) t1 Ht1 Hd1 H) as (Ht' & Hd' & E'). rewrite -app_assoc in Hd'.
  split; [done|]. split; [done|]. intros p. rewrite E' E1. destruct (t !! p); [done|]. unfold child_dir.
  replace ((base ++ [c]) ++ parts) with (base ++ c :: parts) by by rewrite -app_assoc.
  case_bool_decide as Hp.
  - subst p. rewrite (bool_decide_eq_true_2 (base `prefix_of` _)); [|by exists [c]].
    rewrite (bool_decide_eq_true_2 (_ `prefix_of` base ++ c :: parts)); [|exists parts; by rewrite -app_assoc]. rewrite bool_decide_eq_false_2; [done|].
    intros E. rewrite -{2}(app_nil_r base) in E. by apply app_inv_head in E.
  - cbn [negb]. rewrite andb_true_r. destruct (bool_decide (p `prefix_of` base ++ c :: parts)) eqn:E2; [|by rewrite !andb_false_r].
    rewrite !andb_true_r. apply bool_decide_eq_true in E2. destruct (bool_decide (base `prefix_of` p)) eqn:E3; cbn [andb]; apply bool_decide_eq_true in E3 || apply bool_decide_eq_false in E3.
    + destruct E3 as [k ->]. destruct E2 as [k' E2]. rewrite -app_assoc in E2. apply app_inv_head in E2. destruct k as [|x k].
      * rewrite (bool_decide_eq_true_2 (base ++ [] = base)); [|by rewrite app_nil_r]. rewrite bool_decide_eq_false_2; [done|]. intros [k E]. rewrite -!app_assoc in E.
        apply app_inv_head in E. done.
      * injection E2 as -> E2. rewrite (bool_decide_eq_false_2 (_ = base)); [|intros E; rewrite -{2}(app_nil_r base) in E; by apply app_inv_head in E].
        rewrite bool_decide_eq_true_2; [done|]. exists k. by rewrite -app_assoc.
    + rewrite bool_decide_eq_false_2; [done|]. intros [k ->]. apply E3. exists ([c] ++ k). by rewrite -app_assoc.
Qed.
Lemma RemoveAll_lookup q (t : staged) p : (RemoveAll q t).2 !! p = if bool_decide (q `prefix_of` p) then None else t !! p.
Proof.
  cbn. case_bool_decide as H.
  - apply map_lookup_filter_None. right. intros x _. cbn. by intros Hn.
  - destruct (t !! p) as [e|] eqn:E; [by apply map_lookup_filter_Some|apply map_lookup_filter_None; by left].
Qed.
Lemma stree_remove q (t : staged) : stree t → stree (RemoveAll q t).2.
Proof.
  intros Ht p e Hp. rewrite RemoveAll_lookup in Hp. case_bool_decide as Hq; [done|]. destruct (Ht p e Hp) as [H1 H2]. split; [done|].
  unfold dir_at in *. destruct (parent p) as [|x l] eqn:E; [done|]. rewrite RemoveAll_lookup bool_decide_eq_false_2; [done|].
  intros Hx. apply Hq. rewrite -E in Hx. exact (transitivity Hx (parent_prefix p)).
Qed.

Section Copied.
Context (f : fs) (klinks : nat) (readable : path → bool) (perm : path → Z) (special : path → option string).
Hypothesis f_tree : tree f.
Local Notation copy_walk := (copy_walk f readable perm special).

(** The copy of the host entry [q] of a directory that is copied. *)
Definition host_entry (q : path) : option entry :=
  match node_at f q with
  | Some NDir => Some (EDir (Z.lor (perm q) perm_700))
  | Some (NFile d) => Some (EFile (Z.lor (perm q) perm_400) d)
  | Some (NLink t) => Some (ELink t)
  | _ => None
  end.
(** [t'] is [t] with [g] in the place of everything at and below [dst]. *)
Definition replaced (t t' : staged) (dst : path) (g : path → option entry) : Prop :=
  ∀ p, t' !! p = if bool_decide (dst `prefix_of` p) then g (drop (length dst) p) else t !! p.
Definition vacant (t : staged) (dst : path) : Prop := ∀ k, t !! (dst ++ k) = None.

Lemma prefix_drop {A} (q p : list A) : q `prefix_of` p → p = q ++ drop (length q) p.
Proof. intros [k ->]. by rewrite drop_app_length. Qed.
Lemma replaced_at t t' dst g k : replaced t t' dst g → t' !! (dst ++ k) = g k.
Proof. intros H. rewrite (H _) bool_decide_eq_true_2; [|by eexists]. by rewrite drop_app_length. Qed.
Lemma replaced_out t t' dst g p : replaced t t' dst g → ¬ dst `prefix_of` p → t' !! p = t !! p.
Proof. intros H Hp. by rewrite (H _) bool_decide_eq_false_2. Qed.
Lemma replaced_leaf (t : staged) dst e g : vacant t dst → g [] = Some e → (∀ x k, g (x :: k) = None) → replaced t (<[dst := e]> t) dst g.
Proof.
  intros Hv Hg Hk p. case_bool_decide as Hp; [|rewrite lookup_insert_ne; [done|intros ->; by apply Hp]].
  destruct Hp as [k ->]. rewrite drop_app_length. destruct k as [|x k]; [by rewrite app_nil_r lookup_insert_eq|].
  rewrite lookup_insert_ne; [by rewrite Hv Hk|]. intros E. rewrite -{1}(app_nil_r dst) in E. by apply app_inv_head in E.
Qed.
Lemma leaf_below q n x k : node_at f q = Some n → n ≠ NDir → f !! (q ++ x :: k) = None.
Proof using f_tree.
  intros Hq Hn. destruct (f !! (q ++ x :: k)) as [m|] eqn:E; [|done]. exfalso. revert m E.
  induction k as [|y k IH] using rev_ind; intros m E.
  - apply f_tree in E. congruence.
  - replace (q ++ x :: k ++ [y]) with ((q ++ x :: k) ++ [y]) in E by by rewrite -app_assoc. apply f_tree in E.
    destruct (q ++ x :: k) as [|z l] eqn:El; [by destruct q|]. cbn in E. by apply (IH NDir).
Qed.
Lemma node_at_app q x k : node_at f (q ++ x :: k) = f !! (q ++ x :: k).
Proof. by destruct q. Qed.
Lemma host_entry_below q x k : f !! (q ++ x :: k) = None → host_entry (q ++ x :: k) = None.
Proof. intros H. unfold host_entry. replace (node_at f (q ++ x :: k)) with (@None node); [done|]. rewrite -H. by destruct q. Qed.

Lemma put_replaced dst e t t' g :
  stree t → vacant t dst → g [] = Some e → (∀ x k, g (x :: k) = None) → put dst e t = (Ok (), t') → stree t' ∧ replaced t t' dst g.
Proof. intros Ht Hv He Hg (H1 & H2 & H3 & ->)%put_Ok. split; [by apply stree_put|by apply replaced_leaf]. Qed.
Lemma copy_leaf fuel src n dst t t' :
  stree t → vacant t dst → node_at f src = Some n → n ≠ NDir → copy_walk fuel src n dst t = (Ok (), t') →
  stree t' ∧ replaced t t' dst (λ k, host_entry (src ++ k)).
Proof using f_tree.
  intros Ht Hv Hn Hd H.
  assert (Hk : ∀ x k, host_entry (src ++ x :: k) = None) by (intros x k; apply host_entry_below, (leaf_below src n); done).
  assert (He : host_entry (src ++ []) = match n with NFile d => Some (EFile (Z.lor (perm src) perm_400) d) | NLink t => Some (ELink t) | _ => None end).
  { unfold host_entry. rewrite app_nil_r Hn. by destruct n. }
  destruct n as [|d|l|]; [done|..]; destruct fuel; cbn [Snapshots.copy_walk] in H.
  1,2: unfold copyRegular in H; destruct (readable src); [|done]; exact (put_replaced _ _ _ _ (λ k, host_entry (src ++ k)) Ht Hv He Hk H).
  1,2: exact (put_replaced _ _ _ _ (λ k, host_entry (src ++ k)) Ht Hv He Hk H).
  all: injection H as <-; split; [done|]; intros p; case_bool_decide as Hp; [|done]; destruct Hp as [k ->]; rewrite drop_app_length Hv; by destruct k; [rewrite He|rewrite Hk].
Qed.
Lemma each_copied src dst (w : string * node → sop ()) l t t' :
  (∀ x n t t', (x, n) ∈ l → stree t → vacant t (dst ++ [x]) → dir_at t dst = true → w (x, n) t = (Ok (), t') →
    stree t' ∧ replaced t t' (dst ++ [x]) (λ k, host_entry ((src ++ [x]) ++ k))) →
  NoDup l.*1 → stree t → dir_at t dst = true → (∀ x k, x ∈ l.*1 → t !! (dst ++ x :: k) = None) → each w l t = (Ok (), t') →
  stree t' ∧ (∀ p, (∀ x, x ∈ l.*1 → ¬ dst ++ [x] `prefix_of` p) → t' !! p = t !! p) ∧
  ∀ x k, x ∈ l.*1 → t' !! (dst ++ x :: k) = host_entry (src ++ x :: k).
Proof.
  revert t. induction l as [|[x n] l IH]; intros t Hw Hnd Ht Hd Hv H.
  { injection H as <-. split; [done|]. split; [done|]. by intros x k ?%elem_of_nil. }
  cbn [each] in H. apply op_bind_Ok in H as ([] & t1 & H1 & H2). cbn [fmap list_fmap fst] in *. apply NoDup_cons in Hnd as [Hx Hnd].
  assert (Happ : ∀ y (q k : path), q ++ y :: k = (q ++ [y]) ++ k) by (intros y q k; by rewrite -app_assoc).
  assert (Hne : ∀ y k, y ≠ x → ¬ dst ++ [x] `prefix_of` dst ++ y :: k).
  { intros y k Hy [k' E]. rewrite -app_assoc in E. apply app_inv_head in E. by injection E as ->. }
  destruct (Hw x n t t1) as [Ht1 Hr1]; [by left|done|intros k; rewrite -Happ; by apply Hv; left|done|done|].
  destruct (IH t1) as (Ht' & Hout & Hin); [intros y m s s' Hy; apply Hw; by right|done|done|..|done|].
  - destruct dst as [|y q] eqn:Eq; [done|]. rewrite <-Eq in *. assert (t1 !! dst = t !! dst) as E.
    { apply (replaced_out _ _ _ _ _ Hr1). intros [k Ek]. rewrite -{1}(app_nil_r dst) -app_assoc in Ek. by apply app_inv_head in Ek. }
    clear -E Hd Eq. unfold dir_at in *. rewrite Eq in Hd, E |- *. by rewrite E.
  - intros y k Hy. rewrite (replaced_out _ _ _ _ _ Hr1); [apply Hv; by right|apply Hne; intros ->; done].
  - split; [done|]. split.
    + intros p Hp. rewrite Hout; [|intros y Hy; apply Hp; by right]. apply (replaced_out _ _ _ _ _ Hr1), Hp. by left.
    + intros y k [->|Hy]%elem_of_cons; [|by apply Hin]. rewrite Hout; [rewrite Happ (replaced_at _ _ _ _ _ Hr1) -Happ; by f_equal; rewrite -app_assoc|].
      intros z Hz [k' E]. rewrite -app_assoc in E. apply app_inv_head in E. injection E as -> _. done.
Qed.
Lemma vacant_insert (t : staged) dst e x k : vacant t dst → <[dst := e]> t !! (dst ++ x :: k) = None.
Proof. intros Hv. rewrite lookup_insert_ne; [apply Hv|]. intros E. rewrite -{1}(app_nil_r dst) in E. by apply app_inv_head in E. Qed.
Lemma copy_walk_spec fuel src n dst t t' :
  stree t → vacant t dst → dst ≠ [] → node_at f src = Some n → (GitCopy.depth f ≤ fuel + length src)%nat →
  dir_at t (parent dst) = true → copy_walk fuel src n dst t = (Ok (), t') →
  stree t' ∧ replaced t t' dst (λ k, host_entry (src ++ k)).
Proof using f_tree.
  revert src n dst t t'. induction fuel as [|fuel IH]; intros src n dst t t' Ht Hv Hd Hn Hf Hp H.
  all: destruct (decide (n = NDir)) as [->|Hne]; [|by refine (copy_leaf _ src n dst t t' Ht Hv Hn Hne H)].
  all: cbn [Snapshots.copy_walk] in H; apply op_bind_Ok in H as (u & t1 & H1 & H);
    rewrite (rMkdirAll_fresh t dst _ Ht Hd Hp) in H1; [|by rewrite -(Hv []) app_nil_r]; injection H1 as <- <-;
    destruct (readable src); [|done]; cbn [negb] in H.
  all: assert (H0 : host_entry (src ++ []) = Some (EDir (Z.lor (perm src) perm_700))) by (unfold host_entry; by rewrite app_nil_r Hn).
  all: assert (Hv0 : t !! dst = None) by (by rewrite -(Hv []) app_nil_r).
  - injection H as <-. split; [by apply stree_put|]. apply (replaced_leaf t dst _ (λ k, host_entry (src ++ k)) Hv H0). intros x k. apply host_entry_below.
    destruct (f !! (src ++ x :: k)) as [m|] eqn:E; [|done]. apply GitCopy.depth_spec in E. rewrite length_app in E. cbn in E. lia.
  - apply (each_copied src dst) in H as (Ht' & Hout & Hin).
    + split; [done|]. intros p. case_bool_decide as Hpre.
      * destruct Hpre as [k ->]. rewrite drop_app_length. destruct k as [|x k].
        { rewrite app_nil_r Hout; [by rewrite lookup_insert_eq H0|]. intros x _ [k E]. rewrite -{1}(app_nil_r dst) -app_assoc in E. by apply app_inv_head in E. }
        destruct (decide (x ∈ (children f src).*1)) as [Hx|Hx]; [by apply Hin|]. rewrite Hout; [|].
        -- rewrite (vacant_insert _ _ _ _ _ Hv) host_entry_below; [done|]. destruct (f !! (src ++ [x])) as [m|] eqn:E.
           { exfalso. apply Hx. apply list_elem_of_fmap. exists (x, m). split; [done|by apply children_complete]. }
           rewrite -node_at_app in E. pose proof (tree_below f (src ++ [x]) k f_tree E) as Hb. rewrite -node_at_app. by rewrite -app_assoc in Hb.
        -- intros y Hy [k' E]. rewrite -app_assoc in E. apply app_inv_head in E. by injection E as -> _.
      * rewrite Hout; [rewrite lookup_insert_ne; [done|intros ->; by apply Hpre]|]. intros x _ [k ->]. apply Hpre. exists ([x] ++ k). by rewrite -app_assoc.
    + intros x m s s' Hx Hs Hvs Hds Hw. refine (IH _ m _ _ _ Hs Hvs _ _ _ _ Hw).
      * by destruct dst.
      * apply children_spec in Hx. by rewrite node_at_app.
      * rewrite length_app. cbn. lia.
      * by rewrite parent_snoc.
    + apply children_NoDup.
    + by apply stree_put.
    + destruct dst as [|y q]; [done|]. cbn. by rewrite lookup_insert_eq.
    + intros x k _. by apply vacant_insert.
Qed.

(** What the snapshot [c] holds at [k]. *)
Definition content (c : snapshot) (k : path) : option entry :=
  let leaf e := match k with [] => Some e | _ => None end in
  match sn_data c with
  | Some d => leaf (EFile perm_644 d)
  | None =>
      let p := comps (s_host c) in
      match Stat klinks f p with
      | LNode NDir => match resolve f p with Some q => host_entry (q ++ k) | None => None end
      | LNode (NFile d) => leaf (EFile (Z.lor (perm p) perm_400) d)
      | LNode _ => match special p with Some d => leaf (EFile (Z.lor (perm p) perm_400) d) | None => None end
      | _ => None
      end
  end.
Local Notation stageSnapshot := (stageSnapshot f klinks readable perm special).
Lemma stageSnapshot_spec c dst t t' :
  stree t → vacant t dst → dst ≠ [] → dir_at t (parent dst) = true → stageSnapshot c dst t = (Ok (), t') →
  stree t' ∧ replaced t t' dst (content c).
Proof using f_tree.
  intros Ht Hv Hd Hp H. unfold Snapshots.stageSnapshot in H. unfold content. destruct (sn_data c) as [d|].
  { exact (put_replaced _ _ _ _ _ Ht Hv eq_refl (λ _ _, eq_refl) H). }
  unfold copyTree, copyRegular in H. destruct (Stat klinks f (comps (s_host c))) as [[|d|l|]| |]; try done.
  - destruct (resolve f (comps (s_host c))) as [q|]; [|done]. destruct (node_at f q) as [n|] eqn:En; [|done].
    refine (copy_walk_spec _ _ _ _ _ _ Ht Hv Hd En _ Hp H). lia.
  - destruct (readable _); [|done]. exact (put_replaced _ _ _ _ (λ k, match k with [] => _ | _ => None end) Ht Hv eq_refl (λ _ _, eq_refl) H).
  - destruct (special _); [|done]. exact (put_replaced _ _ _ _ (λ k, match k with [] => _ | _ => None end) Ht Hv eq_refl (λ _ _, eq_refl) H).
  - destruct (special _); [|done]. exact (put_replaced _ _ _ _ (λ k, match k with [] => _ | _ => None end) Ht Hv eq_refl (λ _ _, eq_refl) H).
Qed.

Local Notation stageChildSnapshot := (stageChildSnapshot f klinks readable perm special).
(** A child snapshot replaces what the parent has at its place. *)
Lemma stageChild_spec base r c t t' :
  stree t → names r → r ≠ [] → base ≠ [] → stageChildSnapshot base (Join r "/") c t = (Ok (), t') →
  stree t' ∧ dir_at t base = true ∧
  ∀ p, t' !! p = if bool_decide (base ++ r `prefix_of` p) then content c (drop (length (base ++ r)) p)
                 else match t !! p with Some e => Some e | None => if child_dir base r p then Some (EDir perm_755) else None end.
Proof using f_tree.
  intros Ht Hr Hne Hb H. unfold Snapshots.stageChildSnapshot in H. apply op_bind_Ok in H as (d & t0 & H0 & H). injection H0 as <- <-.
  apply op_bind_Ok in H as (u & t0 & H0 & H). apply op_ensure_Ok in H0 as [Hd ->].
  rewrite elems_Dir_Join in H; [|done..]. rewrite elems_Join in H; [|done].
  apply op_bind_Ok in H as (u1 & t1 & H1 & H). destruct u1. destruct (child_dirs_Ok _ _ _ _ Ht Hd H1) as (Ht1 & Hd1 & E1).
  apply op_bind_Ok in H as (u2 & t2 & H2 & H). injection H2 as _ H2. pose proof (RemoveAll_lookup (base ++ r) t1) as E2.
  pose proof (stree_remove (base ++ r) t1 Ht1) as Ht2. unfold RemoveAll, modify in E2, Ht2. cbn [snd] in E2, Ht2. rewrite H2 in E2, Ht2.
  destruct (exists_last Hne) as (k & z & Er).
  assert (Hpar : parent (base ++ r) = base ++ parent r) by (rewrite Er app_assoc !parent_snoc; done).
  assert (Hout : ∀ p, ¬ base ++ r `prefix_of` p → t2 !! p = match t !! p with Some e => Some e | None => if child_dir base r p then Some (EDir perm_755) else None end).
  { intros p Hp. rewrite E2 bool_decide_eq_false_2; [|done]. rewrite E1. destruct (t !! p); [done|]. unfold child_dir.
    replace (bool_decide (p `prefix_of` base ++ r)) with (bool_decide (p `prefix_of` base ++ parent r)); [done|].
    apply bool_decide_ext. rewrite Er parent_snoc app_assoc. split; [intros H'; exact (transitivity H' (prefix_app_r _ _ _ (reflexivity _)))|].
    intros [H'| ->]%prefix_snoc_cases; [done|]. exfalso. apply Hp. by rewrite Er app_assoc. }
  destruct (stageSnapshot_spec c (base ++ r) t2 t') as [Ht' Hr']; [done|..|done|].
  - intros k'. rewrite E2. rewrite bool_decide_eq_true_2; [done|by eexists].
  - by destruct base.
  - rewrite Hpar. clear -Hd1 E2 Er. unfold dir_at in *. destruct (base ++ parent r) as [|x l] eqn:E; [done|].
    rewrite E2 bool_decide_eq_false_2; [done|]. rewrite -E. intros H%prefix_length. rewrite Er parent_snoc !length_app in H. cbn in H. lia.
  - split; [done|]. split; [done|]. intros p. rewrite (Hr' p). case_bool_decide; [done|]. by apply Hout.
Qed.

(** ** The staged snapshots as the guest sees them *)

(** The reference: later snapshots over earlier ones, with the directories that
    lead to a snapshot inside another one. The list is the last one first. *)
Fixpoint overlay (l : list snapshot) (p : path) : option entry :=
  match l with
  | [] => None
  | c :: l =>
      let q := comps (s_cont c) in
      if bool_decide (q `prefix_of` p) then content c (drop (length q) p) else
      match overlay l p with
      | Some e => Some e
      | None => if bool_decide (p `prefix_of` q) && existsb (λ c', inside (comps (s_cont c')) p) l then Some (EDir perm_755) else None
      end
  end.
(** What the binds show at a guest path; each comes with its staged copy. *)
Definition bind_at (b : Vm.Snapshot * path) : path := comps (Vm.sn_Target b.1).
Definition view (binds : list (Vm.Snapshot * path)) (t : staged) (p : path) : option entry :=
  match List.find (λ b, inside (bind_at b) p) binds with
  | Some b => t !! (b.2 ++ drop (length (bind_at b)) p)
  | None => None
  end.
Definition proper (c : snapshot) : Prop := ∃ q, names q ∧ q ≠ [] ∧ s_cont c = path_string q.

Lemma find_one {A} (h : A → bool) l b : b ∈ l → h b = true → (∀ b', b' ∈ l → h b' = true → b' = b) → List.find h l = Some b.
Proof.
  intros Hb Hh Hu. destruct (List.find h l) as [b'|] eqn:E; [apply find_some in E as [H1 H2]; f_equal; apply Hu; [by apply list_elem_of_In|done]|].
  apply list_elem_of_In in Hb. pose proof (find_none _ _ E b Hb). congruence.
Qed.
Lemma find_no {A} (h : A → bool) l : (∀ b, b ∈ l → h b = false) → List.find h l = None.
Proof.
  intros H. destruct (List.find h l) as [b|] eqn:E; [|done]. apply find_some in E as [H1 H2]. apply list_elem_of_In in H1. specialize (H b H1). congruence.
Qed.
Lemma prefix_cases (a b p : path) : a `prefix_of` p → b `prefix_of` p → a `prefix_of` b ∨ b `prefix_of` a.
Proof. apply prefix_weak_total. Qed.
Lemma insideb q p : inside q p = bool_decide (q `prefix_of` p).
Proof. done. Qed.

Lemma Itoa_nat_inj j j' : Itoa (Z.of_nat j) = Itoa (Z.of_nat j') → j = j'.
Proof.
  unfold Itoa. rewrite !(proj2 (Z.ltb_ge _ 0)); [|lia..]. intros E. set (w := Z.max (Z.of_nat j) (Z.of_nat j')).
  pose proof (Z.pow_gt_lin_r 2 w ltac:(lia) ltac:(lia)). pose proof (ParseUint_fmt (Z.of_nat j) w ltac:(lia)) as H1.
  pose proof (ParseUint_fmt (Z.of_nat j') w ltac:(lia)) as H2. rewrite E H2 in H1. injection H1 as H1. lia.
Qed.
Section Loop.
Context (gen : string).
Definition gen_dir : path := snapshotsDir ++ [gen].
Definition slot (j : nat) : path := snapshotsDir ++ [gen; Itoa (Z.of_nat j)].
Record staged_ok (t0 : staged) (i : nat) (binds : list (Vm.Snapshot * path)) (l : list snapshot) (t : staged) : Prop := {
  so_tree : stree t;
  so_gen : dir_at t gen_dir = true;
  so_fresh : ∀ j, (i ≤ j)%nat → vacant t (slot j);
  so_binds : ∀ b, b ∈ binds → (∃ j, (j < i)%nat ∧ b.2 = slot j ∧ Vm.sn_Source b.1 = JoinPath [SnapshotsDir; gen; Itoa (Z.of_nat j)]) ∧
    ∃ c, c ∈ l ∧ proper c ∧ Vm.sn_Target b.1 = s_cont c;
  so_apart : ∀ b b', b ∈ binds → b' ∈ binds → b.2 = b'.2 ∨ bind_at b `prefix_of` bind_at b' → b = b';
  so_cover : ∀ c, c ∈ l → ∃ b, b ∈ binds ∧ bind_at b `prefix_of` comps (s_cont c);
  so_view : ∀ p, view binds t p = overlay l p;
  so_out : ∀ p, ¬ gen_dir `prefix_of` p → t !! p = t0 !! p;
}.
Lemma proper_comps c q : names q → s_cont c = path_string q → comps (s_cont c) = q.
Proof. intros Hq ->. by apply comps_path_string. Qed.
Lemma slot_gen j : slot j = gen_dir ++ [Itoa (Z.of_nat j)].
Proof. done. Qed.
Lemma slot_inj j j' k : slot j `prefix_of` slot j' ++ k → j = j'.
Proof.
  rewrite !slot_gen. intros [k' E]. rewrite -!app_assoc in E. apply app_inv_head in E. injection E as E _. symmetry in E. by apply Itoa_nat_inj.
Qed.
Lemma gen_slot j k : gen_dir `prefix_of` slot j ++ k.
Proof. rewrite slot_gen. exists ([Itoa (Z.of_nat j)] ++ k). by rewrite -app_assoc. Qed.
Lemma slot_parent j : parent (slot j) = gen_dir.
Proof. by rewrite slot_gen parent_snoc. Qed.

(** The next snapshot is not at or above an earlier one. *)
Definition after (l : list snapshot) (c : snapshot) : Prop := ∀ c', c' ∈ l → ¬ comps (s_cont c) `prefix_of` comps (s_cont c').
Lemma covered_bind t0 i binds l t p : staged_ok t0 i binds l t → existsb (λ c', inside (comps (s_cont c')) p) l = true →
  ∃ b, b ∈ binds ∧ bind_at b `prefix_of` p.
Proof.
  intros H (c & Hc & Hin)%existsb_exists. apply list_elem_of_In in Hc. rewrite insideb in Hin. apply bool_decide_eq_true in Hin.
  destruct (so_cover _ _ _ _ _ H c Hc) as (b & Hb & Hp). exists b. split; [done|exact (transitivity Hp Hin)].
Qed.
Definition apart (binds : list (Vm.Snapshot * path)) : Prop :=
  ∀ b b', b ∈ binds → b' ∈ binds → b.2 = b'.2 ∨ bind_at b `prefix_of` bind_at b' → b = b'.
Lemma view_bind binds t b k : apart binds → b ∈ binds → view binds t (bind_at b ++ k) = t !! (b.2 ++ k).
Proof.
  intros H Hb. unfold view. rewrite (find_one _ _ b Hb); [by rewrite drop_app_length|rewrite insideb; apply bool_decide_eq_true; by eexists|].
  intros b' Hb' Hin. rewrite insideb in Hin. apply bool_decide_eq_true in Hin.
  destruct (prefix_cases (bind_at b') (bind_at b) (bind_at b ++ k) Hin ltac:(by eexists)) as [Hp|Hp].
  - apply H; [done..|by right].
  - symmetry. apply H; [done..|by right].
Qed.
Lemma view_none (binds : list (Vm.Snapshot * path)) t p : (∀ b, b ∈ binds → ¬ bind_at b `prefix_of` p) → view binds t p = None.
Proof. intros H. unfold view. rewrite find_no; [done|]. intros b Hb. rewrite insideb. apply bool_decide_eq_false. by apply H. Qed.
Lemma bind_cases (binds : list (Vm.Snapshot * path)) (p : path) : (∃ b k, b ∈ binds ∧ p = bind_at b ++ k) ∨ ∀ b, b ∈ binds → ¬ bind_at b `prefix_of` p.
Proof.
  destruct (List.find (λ b, inside (bind_at b) p) binds) as [b|] eqn:E.
  - left. apply find_some in E as [Hb Hin]. apply list_elem_of_In in Hb. rewrite insideb in Hin. apply bool_decide_eq_true in Hin as [k ->]. by exists b, k.
  - right. intros b Hb Hp. apply list_elem_of_In in Hb. apply (find_none _ _ E) in Hb. rewrite insideb in Hb. by apply bool_decide_eq_false in Hb.
Qed.

(** A snapshot inside none of the binds gets a bind of its own. *)
Lemma stage_new t0 i binds l t c t' :
  staged_ok t0 i binds l t → proper c → after l c → (∀ b, b ∈ binds → ¬ bind_at b `prefix_of` comps (s_cont c)) →
  stageSnapshot c (slot i) t = (Ok (), t') →
  staged_ok t0 (S i) (binds ++ [({| Vm.sn_Source := JoinPath [SnapshotsDir; gen; Itoa (Z.of_nat i)]; Vm.sn_Target := s_cont c |}, slot i)]) (c :: l) t'.
Proof using f_tree.
  intros H (q & Hq & Hqne & Ec) Ha Hb Hs. set (new := ({| Vm.sn_Source := _; Vm.sn_Target := s_cont c |}, slot i)).
  assert (Hc : comps (s_cont c) = q) by by apply proper_comps. assert (Hnew : bind_at new = q) by done.
  destruct (stageSnapshot_spec c (slot i) t t') as [Ht' Hr]; [apply H|by apply (so_fresh _ _ _ _ _ H)|done|rewrite slot_parent; apply H|done|].
  assert (Hold : ∀ b, b ∈ binds → ¬ q `prefix_of` bind_at b ∧ ∃ j, (j < i)%nat ∧ b.2 = slot j).
  { intros b Hin. destruct (so_binds _ _ _ _ _ H b Hin) as [(j & Hj & Ej & _) (c' & Hc' & _ & Et)]. split; [|by exists j].
    unfold bind_at. rewrite Et -Hc. by apply Ha. }
  assert (Hslot : ∀ b k, b ∈ binds → t' !! (b.2 ++ k) = t !! (b.2 ++ k)).
  { intros b k Hin. destruct (Hold b Hin) as [_ (j & Hj & ->)]. apply (replaced_out _ _ _ _ _ Hr). intros E%slot_inj. lia. }
  assert (Happ : apart (binds ++ [new])).
  { intros b b' [Hb1|Hb1]%elem_of_app [Hb2|Hb2]%elem_of_app; try apply list_elem_of_singleton in Hb1 as ->; try apply list_elem_of_singleton in Hb2 as ->; [|intros E; exfalso..|done].
    - by apply (so_apart _ _ _ _ _ H).
    - destruct E as [E|E]; [|rewrite Hnew -Hc in E; by apply (Hb b)]. destruct (Hold b Hb1) as [_ (j & Hj & Ej)]. rewrite Ej in E. change (slot j = slot i) in E.
      assert (j = i) by (apply (slot_inj _ _ []); rewrite E app_nil_r; done). lia.
    - destruct (Hold b' Hb2) as [Hq' (j & Hj & Ej)]. destruct E as [E|E]; [|by rewrite Hnew in E]. rewrite Ej in E. change (slot i = slot j) in E.
      assert (i = j) by (apply (slot_inj _ _ []); rewrite E app_nil_r; done). lia. }
  split; [done|..|done| | |].
  - pose proof (so_gen _ _ _ _ _ H) as Hg. unfold dir_at in *. cbn [gen_dir app snapshotsDir] in *. rewrite (replaced_out _ _ _ _ _ Hr); [done|].
    intros E%prefix_length. cbn in E. lia.
  - intros j Hj k. rewrite (replaced_out _ _ _ _ _ Hr); [apply (so_fresh _ _ _ _ _ H); lia|]. intros E%slot_inj. lia.
  - intros b [Hin|Hin]%elem_of_app.
    + destruct (so_binds _ _ _ _ _ H b Hin) as [(j & Hj & Ej) (c' & Hc' & Hp)]. split; [exists j; split; [lia|done]|exists c'; split; [by right|done]].
    + apply list_elem_of_singleton in Hin as ->. split; [exists i; split; [lia|done]|exists c; split; [by left|split; [by exists q|done]]].
  - intros c' [->|Hin]%elem_of_cons.
    + exists new. split; [apply elem_of_app; right; by left|done].
    + destruct (so_cover _ _ _ _ _ H c' Hin) as (b & Hb1 & Hb2). exists b. split; [apply elem_of_app; by left|done].
  - intros p. cbn [overlay]. rewrite Hc. destruct (bind_cases binds p) as [(b & k & Hin & ->)|Hno].
    + rewrite view_bind; [|done|apply elem_of_app; by left]. rewrite (Hslot _ _ Hin) -(view_bind binds t b k (so_apart _ _ _ _ _ H) Hin) (so_view _ _ _ _ _ H).
      rewrite bool_decide_eq_false_2.
      * destruct (overlay l _); [done|]. rewrite bool_decide_eq_false_2; [done|]. intros E. apply (Hb b Hin). rewrite Hc. exact (transitivity (prefix_app_r _ _ _ (reflexivity _)) E).
      * intros E. destruct (prefix_cases q (bind_at b) _ E ltac:(by eexists)) as [E'|E']; [by apply (Hold b Hin)|]. apply (Hb b Hin). by rewrite Hc.
    + case_bool_decide as Hp.
      * destruct Hp as [k ->]. rewrite drop_app_length. replace (q ++ k) with (bind_at new ++ k) by by rewrite Hnew. rewrite view_bind; [|done|apply elem_of_app; right; by left].
        apply (replaced_at _ _ _ _ _ Hr).
      * rewrite view_none; [|intros b [Hin|Hin]%elem_of_app; [by apply Hno|apply list_elem_of_singleton in Hin as ->; by rewrite Hnew]].
        rewrite -(so_view _ _ _ _ _ H) view_none; [|done]. destruct (existsb _ l) eqn:Ex; [|by rewrite andb_false_r].
        destruct (covered_bind _ _ _ _ _ _ H Ex) as (b & Hin & Hp'). by destruct (Hno b Hin).
  - intros p Hp. rewrite (replaced_out _ _ _ _ _ Hr); [by apply H|]. intros E. apply Hp. refine (transitivity _ E). rewrite -(app_nil_r (slot i)). apply gen_slot.
Qed.
(** A snapshot inside a bind goes into its staged copy. *)
Lemma stage_child t0 i binds l t c b r t' :
  staged_ok t0 i binds l t → proper c → after l c → b ∈ binds → names r → r ≠ [] → comps (s_cont c) = bind_at b ++ r →
  stageChildSnapshot b.2 (Join r "/") c t = (Ok (), t') → staged_ok t0 (S i) binds (c :: l) t'.
Proof using f_tree.
  intros H Hp Ha Hb Hr Hne Ec Hs. destruct (so_binds _ _ _ _ _ H b Hb) as [(j & Hj & Ej & _) (cb & Hcb & _ & Etb)]. rewrite Ej in Hs.
  destruct (stageChild_spec (slot j) r c t t') as (Ht' & Hd & E); [apply H|done..|].
  pose proof (so_apart _ _ _ _ _ H) as Happ.
  assert (Hout : ∀ p, ¬ slot j `prefix_of` p → t' !! p = t !! p).
  { intros p Hp'. rewrite E bool_decide_eq_false_2; [|intros E'; apply Hp'; exact (transitivity (prefix_app_r _ _ _ (reflexivity _)) E')].
    unfold child_dir. rewrite (bool_decide_eq_false_2 (slot j `prefix_of` p)); [|done]. by destruct (t !! p). }
  split; [done|..|done| | |].
  - pose proof (so_gen _ _ _ _ _ H) as Hg. unfold dir_at in *. cbn [gen_dir app snapshotsDir] in *. rewrite Hout; [done|].
    intros E'%prefix_length. cbn in E'. lia.
  - intros j' Hj' k. rewrite Hout; [apply (so_fresh _ _ _ _ _ H); lia|]. intros E'%slot_inj. lia.
  - intros b' Hin. destruct (so_binds _ _ _ _ _ H b' Hin) as [(j' & Hj' & Ej') (c' & Hc' & Hp')].
    split; [exists j'; split; [lia|done]|exists c'; split; [by right|done]].
  - intros c' [->|Hin]%elem_of_cons; [exists b; split; [done|rewrite Ec; by eexists]|by apply (so_cover _ _ _ _ _ H)].
  - intros p. cbn [overlay]. rewrite Ec. destruct (bind_cases binds p) as [(b0 & k & Hin & ->)|Hno].
    + rewrite view_bind; [|done..]. assert (b0 = b ∨ b0 ≠ b) as [->|Hne'].
      { destruct (decide (b0.2 = b.2)) as [E2|E2]; [left; apply Happ; [done..|by left]|right; by intros ->]. }
      * rewrite Ej E -(so_view _ _ _ _ _ H) (view_bind _ _ b k Happ Hin) Ej.
        assert (∀ x y z : path, x ++ y `prefix_of` x ++ z ↔ y `prefix_of` z) as Hpre by (intros; split; [apply prefix_app_inv|apply prefix_app]).
        rewrite (bool_decide_ext _ _ (Hpre (slot j) r k)) (bool_decide_ext _ _ (Hpre (bind_at b) r k)). case_bool_decide as Hk.
        { destruct Hk as [k' ->]. by rewrite !app_assoc !drop_app_length. }
        destruct (t !! (slot j ++ k)) eqn:Et; [done|]. unfold child_dir. rewrite (bool_decide_ext _ _ (Hpre (slot j) k r)) (bool_decide_ext _ _ (Hpre (bind_at b) k r)).
        rewrite (bool_decide_eq_true_2 (slot j `prefix_of` _)); [|by eexists]. rewrite bool_decide_eq_false_2; [|].
        -- cbn [negb andb]. replace (existsb _ l) with true; [by rewrite andb_true_r|]. symmetry. apply existsb_exists.
           exists cb. split; [by apply list_elem_of_In|]. rewrite insideb -Etb. apply bool_decide_eq_true. by eexists.
        -- intros Ek. rewrite -{2}(app_nil_r (slot j)) in Ek. apply app_inv_head in Ek as ->. rewrite app_nil_r in Et. unfold dir_at in Hd. cbn [slot app snapshotsDir] in *.
           by rewrite Et in Hd.
      * destruct (so_binds _ _ _ _ _ H b0 Hin) as [(j0 & Hj0 & Ej0 & _) _].
        assert (Hj0' : ¬ slot j `prefix_of` slot j0 ++ k).
        { intros E'%slot_inj. apply Hne', Happ; [done..|left]. congruence. }
        rewrite Ej0 Hout; [|done]. rewrite -Ej0 -(view_bind binds t b0 k Happ Hin) (so_view _ _ _ _ _ H).
        assert (Hcmp : ∀ p, bind_at b0 `prefix_of` p → bind_at b `prefix_of` p → False).
        { intros p H1 H2. destruct (prefix_cases _ _ _ H1 H2) as [Hx|Hx]; [apply Hne'|apply Hne'; symmetry]; (apply Happ; [done..|by right]). }
        rewrite bool_decide_eq_false_2; [|intros E'; apply (Hcmp (bind_at b0 ++ k)); [by eexists|exact (transitivity (prefix_app_r _ _ _ (reflexivity _)) E')]].
        destruct (overlay l _); [done|]. rewrite bool_decide_eq_false_2; [done|]. intros E'. apply (Hcmp (bind_at b ++ r)); [|by eexists].
        exact (transitivity (prefix_app_r _ _ _ (reflexivity _)) E').
    + rewrite view_none; [|done]. rewrite bool_decide_eq_false_2; [|intros E'; apply (Hno b Hb); exact (transitivity (prefix_app_r _ _ _ (reflexivity _)) E')].
      rewrite -(so_view _ _ _ _ _ H) view_none; [|done]. destruct (existsb _ l) eqn:Ex; [|by rewrite andb_false_r].
      destruct (covered_bind _ _ _ _ _ _ H Ex) as (b' & Hin & Hp'). by destruct (Hno b' Hin).
  - intros p Hp'. rewrite Hout; [by apply H|]. intros E'. apply Hp'. refine (transitivity _ E'). rewrite -(app_nil_r (slot j)). apply gen_slot.
Qed.

Local Notation stage_loop := (stage_loop f klinks readable perm special gen).
Lemma stage_loop_spec t0 i binds l l' t out t' :
  staged_ok t0 i binds l' t → Forall proper l → (∀ a c b, l = a ++ c :: b → after (rev a ++ l') c) →
  stage_loop i binds l t = (Ok out, t') → ∃ binds', out = binds'.*1 ∧ staged_ok t0 (i + length l) binds' (rev l ++ l') t'.
Proof using f_tree.
  revert i binds l' t. induction l as [|c l IH]; intros i binds l' t H Hp Ha Hr; cbn [Snapshots.stage_loop] in Hr.
  { injection Hr as <- <-. exists binds. rewrite Nat.add_0_r. by split. }
  apply Forall_cons in Hp as [Hc Hp]. pose proof (Ha [] c l eq_refl) as Hac. cbn in Hac.
  assert (Hnext : ∀ binds1 t1, staged_ok t0 (S i) binds1 (c :: l') t1 → stage_loop (S i) binds1 l t1 = (Ok out, t') →
    ∃ binds', out = binds'.*1 ∧ staged_ok t0 (i + length (c :: l)) binds' (rev (c :: l) ++ l') t').
  { intros binds1 t1 H1 H2. destruct (IH _ _ _ _ H1 Hp) with (2 := H2) as (binds' & E & H3).
    - intros a x b E. specialize (Ha (c :: a) x b ltac:(by rewrite E)). cbn [rev] in Ha. by rewrite -app_assoc in Ha.
    - exists binds'. split; [done|]. cbn [rev length]. rewrite -app_assoc Nat.add_succ_r. exact H3. }
  destruct Hc as (q & Hq & Hqne & Ec). assert (Hcq : comps (s_cont c) = q) by by apply proper_comps.
  assert (Hb : ∀ b, b ∈ binds → ∃ q', names q' ∧ q' ≠ [] ∧ bind_at b = q' ∧ Vm.sn_Target b.1 = path_string q' ∧ ¬ q `prefix_of` q').
  { intros b Hin. destruct (so_binds _ _ _ _ _ H b Hin) as [_ (c' & Hc' & (q' & Hq' & Hne' & Ec') & Et)]. exists q'. split_and!; [done|done| |by rewrite Et|].
    - unfold bind_at. rewrite Et. by apply proper_comps.
    - rewrite -(proper_comps c' q' Hq' Ec') -Hcq. by apply Hac. }
  destruct (List.find _ binds) as [b|] eqn:Ef.
  - destruct b as [b dst]. apply find_some in Ef as [Hin Hf]. apply list_elem_of_In in Hin. cbn [fst] in Hf. destruct (Hb _ Hin) as (q' & Hq' & Hne' & Eb & Et & _). cbn [fst] in Et.
    rewrite Ec Et in Hf. apply HasPrefix_below in Hf as (r & Hr' & E); [|done..]. rewrite E in Ec, Hcq, Hq, Hqne.
    apply op_bind_Ok in Hr as (u & t1 & H1 & H2). destruct u. rewrite Ec Et TrimPrefix_below in H1; [|done..].
    apply (Hnext binds t1); [|exact H2]. refine (stage_child t0 i binds l' t c (b, dst) r t1 H _ Hac Hin _ Hr' _ H1).
    + by exists (q' ++ r).
    + by apply Forall_app in Hq as [_ Hq].
    + by rewrite Hcq Eb.
  - apply op_bind_Ok in Hr as (u & t1 & H1 & H2). destruct u.
    refine (Hnext _ t1 _ H2). refine (stage_new t0 i binds l' t c t1 H _ Hac _ H1); [by exists q|].
    intros b Hin. destruct (Hb b Hin) as (q' & Hq' & Hne' & Eb & Et & Hnp). rewrite Hcq Eb. intros [r Er].
    destruct (decide (r = [])) as [->|Hr']; [apply Hnp; by rewrite Er app_nil_r|].
    apply list_elem_of_In in Hin. apply (find_none _ _ Ef) in Hin. rewrite Ec Et in Hin. apply not_true_iff_false in Hin. apply Hin, HasPrefix_below; [done..|]. by exists r.
Qed.

(** *** Only the new generation is written, whatever fails *)

Definition gen_ok (t : staged) : Prop := stree t ∧ dir_at t gen_dir = true.
Definition outside (t t' : staged) : Prop := ∀ p, ¬ gen_dir `prefix_of` p → t' !! p = t !! p.
#[local] Instance outside_preorder : PreOrder outside.
Proof. split; [by intros t p _|]. intros a b c H1 H2 p Hp. by rewrite H2 // H1. Qed.
Definition inner (p : path) : Prop := gen_dir `prefix_of` p ∧ p ≠ gen_dir.
Local Notation kept m t := (post gen_ok outside m t (λ _ _, True)).
Lemma inner_app p k : inner p → inner (p ++ k).
Proof.
  intros [[r ->] Hne]. split; [exists (r ++ k); by rewrite app_assoc|]. intros E. rewrite -app_assoc -{2}(app_nil_r gen_dir) in E.
  apply app_inv_head, app_eq_nil in E as [-> _]. by rewrite app_nil_r in Hne.
Qed.
Lemma inner_slot j : inner (slot j).
Proof. split; [rewrite -(app_nil_r (slot j)); apply gen_slot|done]. Qed.
Lemma dir_at_outside (t t' : staged) p : (∀ q, q `prefix_of` gen_dir → t' !! q = t !! q) → p `prefix_of` gen_dir → dir_at t p = true → dir_at t' p = true.
Proof. intros H Hp. unfold dir_at. destruct p; [done|]. by rewrite (H _ Hp). Qed.
Lemma kept_put p e t : gen_ok t → inner p → kept (put p e) t.
Proof.
  intros [Ht Hg] [Hp Hne]. destruct (put p e t) as [[[]|e'] t'] eqn:E.
  - pose proof E as E'. apply put_Ok in E' as (H1 & H2 & H3 & ->). unfold post. rewrite E. cbn. split; [split; [by apply stree_put|]|split; [|done]].
    + apply (dir_at_outside t); [|done|done]. intros q Hq. rewrite lookup_insert_ne; [done|]. intros ->. apply Hne. by apply (anti_symm prefix).
    + intros q Hq. rewrite lookup_insert_ne; [done|]. by intros ->.
  - unfold post. rewrite E. unfold put in E. destruct (_ && _); [done|]. injection E as _ <-. by split.
Qed.
Lemma kept_remove q t : gen_ok t → inner q → kept (RemoveAll q) t.
Proof.
  intros [Ht Hg] [Hq Hne]. pose proof (stree_remove q t Ht) as Ht'. pose proof (RemoveAll_lookup q t) as E. unfold RemoveAll in *. apply post_modify; [|intros p Hp|done].
  - split; [done|]. apply (dir_at_outside t); [|done|done]. intros p Hp. cbn in E |- *. rewrite E bool_decide_eq_false_2; [done|]. intros H. apply Hne.
    apply (anti_symm prefix); [exact (transitivity H Hp)|done].
  - cbn in E |- *. rewrite E bool_decide_eq_false_2; [done|]. intros H. apply Hp. exact (transitivity Hq H).
Qed.
Lemma kept_gets {A B} (h : staged → A) (k : A → sop B) t : kept (k (h t)) t → kept (gets h ≫= k) t.
Proof. done. Qed.
Lemma kept_then {A B} (m : sop A) (k : A → sop B) t : kept m t → (∀ a t', gen_ok t' → kept (k a) t') → kept (m ≫= k) t.
Proof. intros Hm Hk. eapply post_then; [apply _|exact Hm|]. intros a t' Ht' _ _. by apply Hk. Qed.
Lemma kept_ret {A} (a : A) t : gen_ok t → kept (mret a : sop A) t.
Proof. intros Ht. by apply post_ret; [apply _|..]. Qed.
Lemma kept_fail {A} e t : gen_ok t → kept (fail e : sop A) t.
Proof. intros Ht. by apply post_fail; [apply _|]. Qed.
Lemma kept_mkdirs base todo m t : gen_ok t → gen_dir `prefix_of` base ++ todo → kept (MkdirAll_from base todo m) t.
Proof.
  revert base t. induction todo as [|c todo IH]; intros base t Ht Hp; cbn [MkdirAll_from]; [by apply kept_ret|].
  apply kept_gets, kept_then; [|intros _ s' Hs'; apply IH; [done|by rewrite -app_assoc]].
  destruct (t !! (base ++ [c])) as [[d| |]|] eqn:E; [by apply kept_ret|by apply kept_fail|by apply kept_fail|].
  apply kept_put; [done|]. rewrite (cons_middle c) app_assoc in Hp.
  destruct (prefix_cases gen_dir (base ++ [c]) _ Hp ltac:(by eexists)) as [H|[k H]].
  - split; [done|]. intros E'. destruct Ht as [_ Hg]. unfold dir_at in Hg. rewrite -E' in Hg. destruct (base ++ [c]) eqn:Eb; [by destruct base|]. by rewrite E in Hg.
  - exfalso. destruct Ht as [Ht Hg]. rewrite H in Hg. apply dir_at_app in Hg; [|done]. unfold dir_at in Hg. destruct (base ++ [c]) eqn:Eb; [by destruct base|].
    by rewrite E in Hg.
Qed.
Lemma kept_each {A} (g : A → sop ()) l t : gen_ok t → (∀ x t, x ∈ l → gen_ok t → kept (g x) t) → kept (each g l) t.
Proof.
  revert t. induction l as [|x l IH]; intros t Ht Hg; cbn [each]; [by apply kept_ret|]. apply kept_then; [apply Hg; [by left|done]|].
  intros _ t' Ht'. apply IH; [done|]. intros y s Hy. apply Hg. by right.
Qed.
Lemma kept_copyRegular src n dst t : gen_ok t → inner dst → kept (copyRegular readable perm special src n dst) t.
Proof. intros Ht Hd. unfold copyRegular. destruct (match n with NFile _ => _ | _ => _ end); [by apply kept_put|by apply kept_fail]. Qed.
Lemma kept_walk fuel src n dst t : gen_ok t → inner dst → kept (copy_walk fuel src n dst) t.
Proof.
  revert src n dst t. induction fuel as [|fuel IH]; intros src n dst t Ht Hd; destruct n; cbn [Snapshots.copy_walk];
    try (by apply kept_put); try (by apply kept_ret); try (by apply kept_copyRegular);
    (apply kept_then; [apply kept_mkdirs; [done|apply Hd]|]); intros _ t' Ht'; (destruct (readable src); [|by apply kept_fail]); cbn [negb]; [by apply kept_ret|].
  apply kept_each; [done|]. intros [x m] s _ Hs. apply IH; [done|]. by apply inner_app.
Qed.
Lemma kept_stage c dst t : gen_ok t → inner dst → kept (stageSnapshot c dst) t.
Proof.
  intros Ht Hd. unfold Snapshots.stageSnapshot. destruct (sn_data c); [by apply kept_put|]. unfold copyTree.
  destruct (Stat klinks f _) as [[| | |]| |]; try (by apply kept_fail); try (by apply kept_copyRegular).
  destruct (resolve f _) as [q|]; [|by apply kept_fail]. destruct (node_at f q); [by apply kept_walk|by apply kept_fail].
Qed.
Lemma kept_child_dirs base parts t : gen_ok t → inner base → kept (child_dirs base parts) t.
Proof.
  revert base t. induction parts as [|c parts IH]; intros base t Ht Hb; cbn [child_dirs]; [by apply kept_ret|].
  apply kept_gets, kept_then; [|intros _ s Hs; apply IH; [done|by apply inner_app]].
  destruct (t !! (base ++ [c])) as [[| |]|]; [by apply kept_ret|by apply kept_fail|by apply kept_fail|by apply kept_put, inner_app].
Qed.
Lemma kept_stageChild base rel c t : gen_ok t → inner base → kept (stageChildSnapshot base rel c) t.
Proof.
  intros Ht Hb. unfold Snapshots.stageChildSnapshot. apply kept_gets, kept_then; [unfold ensure; destruct (dir_at _ _); [by apply kept_ret|by apply kept_fail]|].
  intros _ t1 H1. apply kept_then; [by apply kept_child_dirs|]. intros _ t2 H2. apply kept_then; [by apply kept_remove, inner_app|].
  intros _ t3 H3. by apply kept_stage, inner_app.
Qed.
Lemma kept_loop i binds l t : gen_ok t → (∀ b, b ∈ binds → inner b.2) → kept (stage_loop i binds l) t.
Proof.
  revert i binds t. induction l as [|c l IH]; intros i binds t Ht Hb; cbn [Snapshots.stage_loop]; [by apply kept_ret|].
  destruct (List.find _ binds) as [[b dst]|] eqn:E.
  - apply find_some in E as [Hin _]. apply list_elem_of_In in Hin. apply kept_then; [by apply kept_stageChild, (Hb (b, dst))|]. intros _ t' Ht'. by apply IH.
  - apply kept_then; [apply kept_stage; [done|apply inner_slot]|]. intros _ t' Ht'. apply IH; [done|].
    intros b' [Hin|Hin]%elem_of_app; [by apply Hb|]. apply list_elem_of_singleton in Hin as ->. apply inner_slot.
Qed.

(** *** The generation as a whole *)

Lemma none_below (t : staged) q k : stree t → q ≠ [] → t !! q = None → t !! (q ++ k) = None.
Proof.
  intros Ht Hne Hq. destruct k as [|x k _] using rev_ind; [by rewrite app_nil_r|]. destruct (t !! (q ++ k ++ [x])) as [e|] eqn:E; [|done].
  apply Ht in E as [_ E]. rewrite app_assoc parent_snoc in E. apply dir_at_app in E; [|done]. unfold dir_at in E. destruct q; [done|]. by rewrite Hq in E.
Qed.
Lemma elem_of_old keep t g : g ∈ old_generations keep t ↔ g ≠ keep ∧ is_Some (t !! (snapshotsDir ++ [g])).
Proof.
  unfold old_generations. rewrite list_elem_of_omap. split.
  - intros (p & Hp & E). apply list_elem_of_fmap in Hp as ([q e] & -> & Hq). apply elem_of_map_to_list in Hq. cbn in E.
    destruct q as [|x [|y [|? ?]]]; try done. destruct (String.eqb_spec x "snapshots") as [->|]; [|done].
    destruct (String.eqb_spec y keep); [done|]. injection E as <-. split; [done|by exists e].
  - intros [Hne [e He]]. exists (snapshotsDir ++ [g]). split; [apply list_elem_of_fmap; exists (snapshotsDir ++ [g], e); split; [done|by apply elem_of_map_to_list]|].
    cbn. by destruct (String.eqb_spec g keep).
Qed.
Lemma remove_all_Ok (l : list string) t t' u :
  stree t → each (λ g, RemoveAll (snapshotsDir ++ [g])) l t = (u, t') →
  stree t' ∧ u = Ok () ∧ (∀ g k, g ∈ l → t' !! (snapshotsDir ++ g :: k) = None) ∧
  ∀ p, (∀ g, g ∈ l → ¬ snapshotsDir ++ [g] `prefix_of` p) → t' !! p = t !! p.
Proof.
  revert t. induction l as [|g l IH]; intros t Ht H; cbn [each] in H.
  { change ((Ok (), t) = (u, t')) in H. injection H as <- <-. split; [done|]. split; [done|]. split; [by intros g k ?%elem_of_nil|done]. }
  pose proof (RemoveAll_lookup (snapshotsDir ++ [g]) t) as E. pose proof (stree_remove (snapshotsDir ++ [g]) t Ht) as Ht1.
  unfold mbind, op_bind in H. unfold RemoveAll, modify in *. cbn [snd] in *.
  destruct (IH _ Ht1 H) as (Ht' & Hu & Hin & Hout). split; [done|]. split; [done|]. split.
  - intros x k [->|Hx]%elem_of_cons; [|by apply Hin]. destruct (decide (g ∈ l)) as [Hg|Hg]; [by apply Hin|]. rewrite Hout.
    + rewrite E bool_decide_eq_true_2; [done|]. by exists k.
    + intros y Hy [k' E']. injection E' as -> _. done.
  - intros p Hp. rewrite Hout; [rewrite E bool_decide_eq_false_2; [done|apply Hp; by left]|]. intros y Hy. apply Hp. by right.
Qed.
Local Notation stageSnapshots := (stageSnapshots f klinks readable perm special gen).
(** The start of a generation: the old ones but [keep] are gone. *)
Lemma start_Ok t t' :
  stree t → rMkdirAll snapshotsDir perm_700 t = (Ok (), t') → stree t' ∧ dir_at t' snapshotsDir = true ∧
  ∀ p, p ≠ snapshotsDir → t' !! p = t !! p.
Proof.
  intros Ht H. unfold rMkdirAll in H. cbn [MkdirAll_from snapshotsDir app] in H. unfold mbind, op_bind, gets in H.
  destruct (t !! ["snapshots"]) as [[d| |]|] eqn:E; try done.
  - injection H as <-. split; [done|]. split; [cbn; by rewrite E|done].
  - destruct (put ["snapshots"] (EDir perm_700) t) as [[[]|] t1] eqn:Ep; [|done]. injection H as <-. apply put_Ok in Ep as (H1 & H2 & H3 & ->).
    split; [by apply stree_put|]. split; [cbn; by rewrite lookup_insert_eq|]. intros p Hp. rewrite lookup_insert_ne; [done|]. by intros <-.
Qed.
Lemma start_Err t t' e : rMkdirAll snapshotsDir perm_700 t = (Err e, t') → t' = t ∧ ∃ x, t !! snapshotsDir = Some x ∧ is_edir (Some x) = false.
Proof.
  intros H. unfold rMkdirAll in H. cbn [MkdirAll_from snapshotsDir app] in H. unfold mbind, op_bind, gets in H.
  destruct (t !! ["snapshots"]) as [[d|m d|l]|] eqn:E; try done.
  - injection H as _ <-. split; [done|]. by exists (EFile m d).
  - injection H as _ <-. split; [done|]. by exists (ELink l).
  - unfold put in H. cbn [parent app] in H. rewrite E in H. by cbn in H.
Qed.

Lemma below_dir (t : staged) q x k : stree t → is_Some (t !! (q ++ x :: k)) → dir_at t q = true.
Proof.
  intros Ht [e E]. destruct (exists_last (l := x :: k) ltac:(done)) as (k' & z & Ek). rewrite Ek app_assoc in E.
  apply Ht in E as [_ E]. rewrite parent_snoc in E. exact (dir_at_app _ _ _ Ht E).
Qed.
Lemma cleared keep t t1 t2 u :
  stree t → rMkdirAll snapshotsDir perm_700 t = (Ok (), t1) →
  each (λ g, RemoveAll (snapshotsDir ++ [g])) (old_generations keep t1) t1 = (u, t2) →
  u = Ok () ∧ stree t2 ∧ dir_at t2 snapshotsDir = true ∧ (∀ g k, g ≠ keep → t2 !! (snapshotsDir ++ g :: k) = None) ∧
  ∀ k, t2 !! (snapshotsDir ++ keep :: k) = t !! (snapshotsDir ++ keep :: k).
Proof.
  intros Ht H1 H2. destruct (start_Ok t t1 Ht H1) as (Ht1 & Hd1 & E1). destruct (remove_all_Ok _ _ _ _ Ht1 H2) as (Ht2 & -> & Hin & Hout).
  assert (Hkeep : ∀ k, (∀ g, g ∈ old_generations keep t1 → ¬ snapshotsDir ++ [g] `prefix_of` snapshotsDir ++ keep :: k)).
  { intros k g [Hg _]%elem_of_old [k' E]. injection E as E _. by rewrite E in Hg. }
  split; [done|]. split; [done|]. split; [|split].
  - unfold dir_at, snapshotsDir in *. rewrite Hout; [done|]. intros g _ H%prefix_length. cbn in H. lia.
  - intros g k Hg. destruct (decide (g ∈ old_generations keep t1)) as [Hold|Hold]; [by apply Hin|].
    assert (t1 !! (snapshotsDir ++ [g]) = None) as Hn.
    { destruct (t1 !! (snapshotsDir ++ [g])) as [x|] eqn:E; [|done]. exfalso. apply Hold, elem_of_old. split; [done|]. exists x. exact E. }
    rewrite Hout; [replace (snapshotsDir ++ g :: k) with ((snapshotsDir ++ [g]) ++ k) by done; by apply none_below|].
    intros g' Hg' [k' E]. injection E as E _. by rewrite E in Hold.
  - intros k. rewrite Hout; [|by apply Hkeep]. by apply E1.
Qed.

(** Staging a generation of snapshots leaves the generation the running
    guest binds as it is, whatever fails. When it fails it leaves nothing of
    the new generation. When it succeeds the only generations are the new one
    and that of the guest, no bind is inside another, and the binds show at
    every guest path what the snapshots laid over each other hold there, each
    host tree copied entry by entry. *)
Theorem stageSnapshots_view keep l t :
  stree t → Forall proper l → (∀ a c b, l = a ++ c :: b → after a c) → gen ≠ keep →
  (∀ k, (stageSnapshots keep l t).2 !! (snapshotsDir ++ keep :: k) = t !! (snapshotsDir ++ keep :: k)) ∧
  match stageSnapshots keep l t with
  | (Err _, t') => ∀ k, t' !! (gen_dir ++ k) = None
  | (Ok binds, t') =>
      (∀ g k, g ≠ keep → g ≠ gen → t' !! (snapshotsDir ++ g :: k) = None) ∧
      ∃ pairs, binds = pairs.*1 ∧ apart pairs ∧
        (∀ b, b ∈ pairs → ∃ j, b.2 = slot j ∧ Vm.sn_Source b.1 = JoinPath [SnapshotsDir; gen; Itoa (Z.of_nat j)]) ∧
        ∀ p, view pairs t' p = overlay (rev l) p
  end.
Proof using f_tree.
  intros Ht Hp Ha Hk. destruct (stageSnapshots keep l t) as [res t'] eqn:E. cbn [snd]. unfold Snapshots.stageSnapshots in E.
  unfold mbind, op_bind at 1, gets in E. destruct (rMkdirAll snapshotsDir perm_700 t) as [[[]|e] t1] eqn:E1.
  2: { injection E as <- <-. destruct (start_Err _ _ _ E1) as (-> & x & Hx & Hf). split; [done|]. intros k. destruct (t !! (gen_dir ++ k)) as [x'|] eqn:E; [|done].
       pose proof (below_dir t snapshotsDir gen k Ht ltac:(exists x'; exact E)) as Hd. unfold dir_at, snapshotsDir in Hd. unfold snapshotsDir in Hx. rewrite Hx in Hd. congruence. }
  unfold op_bind in E. destruct (each _ (old_generations keep t1) t1) as [u t2] eqn:E2.
  destruct (cleared keep t t1 t2 u Ht E1 E2) as (-> & Ht2 & Hd2 & Hgone & Hkept).
  case_bool_decide as Hl.
  { injection E as <- <-. split; [done|]. split; [intros g k Hg _; by apply Hgone|]. exists []. subst l. split; [done|]. split; [by intros b b' ?%elem_of_nil|].
    split; [by intros b ?%elem_of_nil|done]. }
  destruct (put (snapshotsDir ++ [gen]) (EDir perm_700) t2) as [[[]|e] t3'] eqn:E3.
  2: { injection E as <- <-. unfold put in E3. destruct (_ && _); [done|]. injection E3 as _ <-. split; [done|]. intros k. by apply (Hgone gen k). }
  apply put_Ok in E3 as (H1 & H2 & H3 & ->). fold gen_dir in *. set (t3 := <[gen_dir := EDir perm_700]> t2) in *.
  assert (Hout3 : ∀ p, p ≠ gen_dir → t3 !! p = t2 !! p) by (intros p Hp'; apply lookup_insert_ne; congruence).
  assert (Hg3 : gen_ok t3) by (split; [by apply stree_put|unfold dir_at, gen_dir, t3; cbn; by rewrite lookup_insert_eq]).
  assert (Hnot : ∀ g k, g ≠ gen → ¬ gen_dir `prefix_of` snapshotsDir ++ g :: k) by (intros g k Hg [k' E']; by injection E').
  assert (Hne : ∀ g k, g ≠ gen → snapshotsDir ++ g :: k ≠ gen_dir) by (intros g k Hg E'; by injection E').
  unfold cleanup in E. pose proof (kept_loop 0 [] l t3 Hg3 ltac:(by intros b ?%elem_of_nil)) as (_ & Hout & _).
  destruct (stage_loop 0 [] l t3) as [[binds|e] t4] eqn:E4; cbn [snd] in Hout; injection E as <- <-.
  - assert (H0 : staged_ok t3 0 [] [] t3).
    { split; try apply Hg3; try done; try (by intros ? ?%elem_of_nil); try (by intros ? ? ?%elem_of_nil). intros j _ k.
      rewrite Hout3; [by apply (Hgone gen (Itoa (Z.of_nat j) :: k))|]. intros E. by injection E. }
    destruct (stage_loop_spec t3 0 [] l [] t3 binds t4 H0 Hp) as (pairs & -> & Hok); [|done|].
    { intros a c b E c' Hc'. rewrite app_nil_r in Hc'. apply (Ha a c b E). apply list_elem_of_In, in_rev. by apply list_elem_of_In. }
    rewrite app_nil_r in Hok. split; [|split; [|exists pairs; split; [done|split; [exact (so_apart _ _ _ _ _ Hok)|split; [|exact (so_view _ _ _ _ _ Hok)]]]]].
    + intros k. rewrite Hout; [|by apply Hnot, not_eq_sym]. rewrite Hout3; [done|by apply Hne, not_eq_sym].
    + intros g k Hg Hg'. rewrite Hout; [|by apply Hnot]. rewrite Hout3; [by apply Hgone|by apply Hne].
    + intros b Hb. destruct (so_binds _ _ _ _ _ Hok b Hb) as [(j & _ & Hj) _]. by exists j.
  - split.
    + intros k. rewrite RemoveAll_lookup bool_decide_eq_false_2; [|by apply Hnot, not_eq_sym]. rewrite Hout; [|by apply Hnot, not_eq_sym].
      rewrite Hout3; [done|by apply Hne, not_eq_sym].
    + intros k. rewrite RemoveAll_lookup bool_decide_eq_true_2; [done|by eexists].
Qed.
End Loop.
End Copied.

(** ** A generation of two snapshots *)

Definition lab_host : fs :=
  list_to_map [(["h"], NDir); (["h"; "cfg"], NDir); (["h"; "cfg"; "a"], NFile "A"); (["h"; "cfg"; "l"], NLink "a");
               (["h"; "cfg"; "git"], NDir); (["h"; "cfg"; "git"; "config"], NFile "host")].
Definition lab_snap (host cont : string) (data : option string) : snapshot := {| sn_mount := mountOf host cont; sn_data := data |}.
Definition lab_list : list snapshot := [lab_snap "/h/cfg" "/home/agent/.config" None; lab_snap "" "/home/agent/.config/git/config" (Some "guest")].
Definition lab_staged : staged :=
  list_to_map [(["snapshots"], EDir 448); (["snapshots"; "4"], EDir 448); (["snapshots"; "5"], EDir 448); (["snapshots"; "5"; "0"], EFile 420 "old")].
Definition lab_perm (p : path) : Z := 420.
Definition lab_stage (special : path → option string) : result stage_err (list Vm.Snapshot) * staged :=
  stageSnapshots lab_host 40 (λ _, true) lab_perm special "7" "5" lab_list lab_staged.
Example lab_stage_ex :
  (match (lab_stage (λ _, None)).1 with Ok l => map (λ b, (Vm.sn_Source b, Vm.sn_Target b)) l | Err _ => [] end) =
    [("/.jailoc/private/host-ro/snapshots/7/0", "/home/agent/.config")] ∧
  map (λ p, (lab_stage (λ _, None)).2 !! p)
    [["snapshots"; "4"]; ["snapshots"; "5"; "0"]; ["snapshots"; "7"; "0"; "a"]; ["snapshots"; "7"; "0"; "l"]; ["snapshots"; "7"; "0"; "git"; "config"]] =
    [None; Some (EFile 420 "old"); Some (EFile 420 "A"); Some (ELink "a"); Some (EFile 420 "guest")].
Proof. by vm_compute. Qed.
Lemma lab_staged_tree : stree lab_staged.
Proof.
  intros p e H. apply elem_of_list_to_map_2 in H.
  repeat (apply elem_of_cons in H as [H|H]; [injection H as -> ->; split; [discriminate|by vm_compute]|]). by apply elem_of_nil in H.
Qed.
Lemma lab_list_proper : Forall proper lab_list.
Proof.
  repeat constructor; [exists ["home"; "agent"; ".config"]|exists ["home"; "agent"; ".config"; "git"; "config"]]; by (split; [repeat constructor|]).
Qed.
Lemma lab_list_after a c b : lab_list = a ++ c :: b → after a c.
Proof.
  destruct a as [|x [|y a]]; [intros _ c' ?%elem_of_nil; done| |by destruct a].
  intros [= <- <- <-] c' Hc'. apply list_elem_of_singleton in Hc' as ->. intros H%prefix_length. vm_compute in H. lia.
Qed.
Lemma stageSnapshots_view_witness :
  (∀ k, (lab_stage (λ _, None)).2 !! (snapshotsDir ++ "5" :: k) = lab_staged !! (snapshotsDir ++ "5" :: k)) ∧
  match lab_stage (λ _, None) with
  | (Err _, t') => ∀ k, t' !! (gen_dir "7" ++ k) = None
  | (Ok binds, t') =>
      (∀ g k, g ≠ "5" → g ≠ "7" → t' !! (snapshotsDir ++ g :: k) = None) ∧
      ∃ pairs, binds = pairs.*1 ∧ apart pairs ∧
        (∀ b, b ∈ pairs → ∃ j, b.2 = slot "7" j ∧ Vm.sn_Source b.1 = JoinPath [SnapshotsDir; "7"; Itoa (Z.of_nat j)]) ∧
        ∀ p, view pairs t' p = overlay lab_host 40 lab_perm (λ _, None) (rev lab_list) p
  end.
Proof.
  refine (stageSnapshots_view lab_host 40 (λ _, true) lab_perm (λ _, None) _ "7" "5" lab_list lab_staged lab_staged_tree lab_list_proper lab_list_after _).
  - apply host_tree_spec. by vm_compute.
  - discriminate.
Defined.
