(* ===== verification/SnapshotsSpec.v ===== *)
(** * Which snapshots a workspace gets

    The list [vmSnapshots] builds: configured snapshots win over the default
    ones, and the order lets [stageSnapshots] put a snapshot inside another
    one into its copy. *)

From S2P Require Import Prelude GoStrings GoSort GoPath ConfigPaths HostFS PathNames Snapshots.
From S2P Require GitCopy GuestSys.
Open Scope string_scope.
Open Scope list_scope.

(** A specification that survives its own syntax. *)
Definition text (s : string) : Prop := s ≠ "" ∧ has_char ":" s = false.
Record good_mount (m : Mount) : Prop := {
  gm_mode : Mode m = "ro"; gm_host : text (Host m); gm_abs : IsAbs (Host m) = true;
  gm_text : text (Container m); gm_cont : ∃ q, names q ∧ q ≠ [] ∧ Container m = path_string q
}.

Section Spec.
Context (home : option string) (ParseVolume : string → option (string * string)).
Context (git : string → list GitCopy.snapshot) (isRegularFile : string → bool) (gitConfig sshAuthSock : bool).
(** compose-go's parser on a specification with source, target and mode. *)
Hypothesis volume : ∀ h c, text h → text c → ParseVolume (h +:+ ":" +:+ c +:+ ":ro") = Some (h, c).
Local Notation ParseMount := (ParseMount home ParseVolume).

Lemma IsAbs_head s : IsAbs s = true → ∃ r, s = String "/" r.
Proof. intros [r ->]%HasPrefix_spec. by exists r. Qed.
Lemma abs_no_tilde s : IsAbs s = true → HasPrefix s "~" = false ∧ HasPrefix s ":" = false ∧ expandGuestPath s = s ∧ ExpandPath home s = Ok s.
Proof. intros [r ->]%IsAbs_head. unfold ExpandPath, expandGuestPath. repeat split. Qed.
Lemma ParseMount_format m : good_mount m → ParseMount (formatMount m) = Ok m.
Proof using volume.
  intros [Hm Hh Ha Ht (q & Hq & Hne & Hc)]. destruct m as [h c mo]. cbn [Host Container Mode] in *. subst mo.
  assert (Hca : IsAbs c = true) by (rewrite Hc; apply HasPrefix_spec; by eexists).
  destruct (abs_no_tilde h Ha) as (_ & _ & _ & Hx). destruct (abs_no_tilde c Hca) as (_ & _ & Hgc & _).
  unfold ConfigPaths.ParseMount, formatMount. cbn [Host Container Mode]. change (":" +:+ "ro") with ":ro".
  replace (HasPrefix (h +:+ _) ":") with false; [|by destruct (IsAbs_head h Ha) as [r ->]].
  rewrite volume; [|done..]. destruct (String.eqb_spec h "") as [->|]; [done|]. destruct (String.eqb_spec c "") as [->|]; [by destruct Ht|]. cbn [orb].
  replace (rawMode _ h c) with "ro"; [|unfold rawMode; by rewrite !sapp_assoc CutPrefix_app].
  cbn [String.eqb Ascii.eqb Bool.eqb negb andb]. rewrite Hx. cbn [mbind result_bind]. rewrite Ha Hgc. cbn [negb].
  unfold IsAbs in Hca. by rewrite Hca.
Qed.

Lemma rmap_format ms : Forall good_mount ms → rmap ParseMount (map formatMount ms) = Ok ms.
Proof using volume. induction 1 as [|m ms Hm _ IH]; [done|]. cbn. rewrite ParseMount_format; [|done]. cbn. by rewrite IH. Qed.
Lemma rmap_parse_app a b x y : rmap ParseMount a = Ok x → rmap ParseMount b = Ok y → rmap ParseMount (a ++ b) = Ok (x ++ y).
Proof.
  revert x. induction a as [|s a IH]; intros x; cbn; [by intros [= <-]|]. intros H Hb. apply bind_Ok in H as (m & Hm & H). apply bind_Ok in H as (l & Hl & H).
  injection H as <-. rewrite Hm. cbn. by rewrite (IH _ Hl Hb).
Qed.
Lemma merge_loop_ok ms st : Forall good_mount ms → is_ok (merge_loop home ParseVolume st (map formatMount ms)) = true.
Proof using volume.
  intros H. revert st. induction H as [|m ms Hm _ IH]; intros st; [done|]. cbn [map merge_loop]. unfold merge_step. rewrite (ParseMount_format m Hm). cbn [mbind result_bind].
  destruct (abs_no_tilde (Host m) (gm_abs m Hm)) as (_ & _ & _ & Hx). destruct (gm_host m Hm) as [Hne _].
  destruct (String.eqb_spec (Host m) "") as [|_]; [done|]. cbn [negb]. rewrite Hx. cbn [mbind result_bind]. apply IH.
Qed.
(** Merging good mounts keeps the last one of each guest path. *)
Lemma MergeMounts_good ms : Forall good_mount ms → ∃ res, MergeMounts home ParseVolume [map formatMount ms] = Ok (map formatMount res) ∧
  NoDup (map Container res) ∧ ∀ m, m ∈ res ↔ last_for (Container m) ms = Some m.
Proof using volume.
  intros Hms. destruct (MergeMounts home ParseVolume [map formatMount ms]) as [out|e] eqn:E.
  2: { exfalso. unfold MergeMounts in E. cbn [concat] in E. rewrite app_nil_r in E.
       pose proof (merge_loop_ok ms {| orderedContainers := []; byContainer := ∅ |} Hms) as H. by destruct (merge_loop _ _ _ _). }
  pose proof E as E'. apply MergeMounts_last_wins in E' as (ms' & res & Hr & -> & Hnd & Hres). exists res. split; [done|]. split; [done|]. intros m. rewrite Hres.
  cbn [concat] in Hr. rewrite app_nil_r (rmap_format ms Hms) in Hr. injection Hr as <-. split.
  - intros (m0 & Hl & Hne & Hx & Hc & Hmo). rewrite Hl. f_equal. pose proof Hl as Hin. apply last_Some_elem_of, list_elem_of_filter in Hin as [_ Hin].
    rewrite Forall_forall in Hms. destruct (abs_no_tilde _ (gm_abs m0 (Hms m0 Hin))) as (_ & _ & _ & Hx'). rewrite Hx' in Hx. injection Hx as Hx. destruct m, m0. cbn in *. by subst.
  - intros Hl. exists m. split; [done|]. pose proof Hl as Hin. apply last_Some_elem_of, list_elem_of_filter in Hin as [_ Hin].
    rewrite Forall_forall in Hms. specialize (Hms m Hin). split; [apply Hms|]. split; [|done]. by apply abs_no_tilde, gm_abs.
Qed.
Lemma last_for_app c a b : last_for c (a ++ b) = match last_for c b with Some m => Some m | None => last_for c a end.
Proof. unfold last_for. rewrite filter_app last_app. by destruct (last (filter _ b)). Qed.
Lemma last_for_unique c ms m : NoDup (map Container ms) → last_for c ms = Some m ↔ m ∈ ms ∧ Container m = c.
Proof.
  intros Hn. split.
  - intros H. by apply last_Some_elem_of, list_elem_of_filter in H as [? ?].
  - intros [Hin <-]. unfold last_for. induction ms as [|x ms IH]; [by apply elem_of_nil in Hin|]. cbn in Hn. apply NoDup_cons in Hn as [Hx Hn].
    rewrite filter_cons. apply elem_of_cons in Hin as [->|Hin].
    + case_decide; [|done]. destruct (filter _ ms) as [|y l] eqn:E; [done|]. exfalso. assert (y ∈ y :: l) as Hy by (by left). rewrite -E in Hy.
      apply list_elem_of_filter in Hy as [Ey Hy]. apply Hx, list_elem_of_fmap. by exists y.
    + case_decide as E; [exfalso; apply Hx; apply list_elem_of_fmap; exists m; by rewrite E|by apply IH].
Qed.
Context (cms : list Mount).
Hypothesis cms_good : Forall good_mount cms.
Hypothesis cms_distinct : NoDup (map Container cms).
Local Notation defaults := (defaults home git isRegularFile gitConfig sshAuthSock).
Hypothesis defaults_good : Forall (λ d, good_mount (sn_mount d)) defaults.
Hypothesis defaults_distinct : NoDup (s_cont <$> defaults).
Local Notation byDest := (byDest home git isRegularFile gitConfig sshAuthSock).
Local Notation explicit := (explicit home ParseVolume (map formatMount cms)).

Lemma Clean_good m : good_mount m → Clean (Container m) = Container m.
Proof.
  intros [_ _ _ _ (q & Hq & Hne & ->)]. unfold Clean.
  replace (IsAbs (path_string q)) with true; [|symmetry; apply HasPrefix_spec; by eexists]. cbv zeta.
  pose proof (comps_path_string q Hq) as E. unfold comps in E. rewrite E. reflexivity.
Qed.
Lemma byDest_spec c d : byDest !! c = Some d ↔ d ∈ defaults ∧ s_cont d = c.
Proof using defaults_distinct.
  clear defaults_good. unfold Snapshots.byDest. revert defaults_distinct. induction defaults as [|x l IH] using rev_ind; intros Hn.
  { rewrite lookup_empty. split; [done|]. by intros [?%elem_of_nil _]. }
  rewrite foldl_snoc. rewrite fmap_app in Hn. apply NoDup_app in Hn as (Hn & Hx & _). destruct (decide (s_cont x = c)) as [<-|Hne].
  - rewrite lookup_insert_eq. split.
    + intros [= <-]. split; [apply elem_of_app; right; by left|done].
    + intros [[Hd|Hd]%elem_of_app E]; [|by apply list_elem_of_singleton in Hd as ->]. exfalso. apply (Hx (s_cont x)); [apply list_elem_of_fmap; exists d; by rewrite E|by left].
  - rewrite lookup_insert_ne; [|congruence]. rewrite (IH Hn) elem_of_app. split; [intros [? ?]; split; [by left|done]|].
    intros [[Hd|Hd] E]; [done|]. apply list_elem_of_singleton in Hd as ->. done.
Qed.
Lemma explicit_spec c : c ∈ explicit ↔ ∃ m, m ∈ cms ∧ Container m = c.
Proof using cms_good volume.
  unfold Snapshots.explicit. clear cms_distinct. revert cms_good. induction cms as [|m l IH] using rev_ind; intros Hg; [cbn; split; [by intros ?%elem_of_empty|by intros (m & ?%elem_of_nil & _)]|].
  apply Forall_app in Hg as [Hg Hm]. apply Forall_cons in Hm as [Hm _]. rewrite map_app foldl_app. cbn [map foldl]. rewrite (ParseMount_format m Hm) (Clean_good m Hm).
  rewrite elem_of_union elem_of_singleton IH; [|done]. split.
  - intros [->|(m' & Hin & E)]; [exists m; split; [apply elem_of_app; right; by left|done]|exists m'; split; [apply elem_of_app; by left|done]].
  - intros (m' & [Hin|Hin]%elem_of_app & E); [right; by exists m'|left]. by apply list_elem_of_singleton in Hin as ->.
Qed.

Definition pick (m : Mount) : snapshot * bool :=
  match byDest !! Container m with
  | Some d => if bool_decide (Container m ∈ explicit) then ({| sn_mount := m; sn_data := None |}, true) else (d, false)
  | None => ({| sn_mount := m; sn_data := None |}, true)
  end.
Lemma take_spec_good m : good_mount m →
  take_spec home ParseVolume git isRegularFile gitConfig sshAuthSock (map formatMount cms) (formatMount m) = Ok (pick m).
Proof using volume.
  intros Hm. unfold take_spec. rewrite (ParseMount_format m Hm). cbn [mbind result_bind].
  destruct (abs_no_tilde (Host m) (gm_abs m Hm)) as (_ & _ & _ & ->). cbn [mbind result_bind]. rewrite (Clean_good m Hm). by destruct m.
Qed.
Lemma rmap_take res : Forall good_mount res →
  rmap (take_spec home ParseVolume git isRegularFile gitConfig sshAuthSock (map formatMount cms)) (map formatMount res) = Ok (map pick res).
Proof using volume. induction 1 as [|m res Hm _ IH]; [done|]. cbn. rewrite (take_spec_good m Hm). cbn. by rewrite IH. Qed.
(** The mounts left by the merge, and what becomes of each. *)
Lemma picked m : good_mount m → last_for (Container m) (map sn_mount defaults ++ cms) = Some m ↔
  (m ∈ cms ∧ pick m = ({| sn_mount := m; sn_data := None |}, true)) ∨
  (∃ d, d ∈ defaults ∧ sn_mount d = m ∧ (∀ m', m' ∈ cms → Container m' ≠ Container m) ∧ pick m = (d, false)).
Proof using volume cms_good cms_distinct defaults_distinct.
  intros Hm. rewrite last_for_app. unfold pick. destruct (last_for (Container m) cms) as [m1|] eqn:E1.
  - apply last_for_unique in E1 as [Hin Ec]; [|done]. rewrite (bool_decide_eq_true_2 (_ ∈ explicit)); [|apply explicit_spec; by exists m1].
    assert (∀ x : snapshot * bool, match byDest !! Container m with Some _ => x | None => x end = x) as -> by (by destruct (byDest !! _)).
    split; [intros [= ->]; by left|]. intros [[Hc _]|(d & _ & _ & Hno & _)]; [|by destruct (Hno m1)].
    f_equal. assert (last_for (Container m) cms = Some m1) as E by by apply last_for_unique. assert (last_for (Container m) cms = Some m) as E' by by apply last_for_unique. congruence.
  - assert (Hno : ∀ m', m' ∈ cms → Container m' ≠ Container m).
    { intros m' Hin E. assert (last_for (Container m) cms = Some m') by by apply last_for_unique. congruence. }
    rewrite bool_decide_eq_false_2; [|rewrite explicit_spec; intros (m' & Hin & E); by apply (Hno m')].
    assert (NoDup (map Container (map sn_mount defaults))) as Hnd by (rewrite map_map; exact defaults_distinct).
    rewrite (last_for_unique _ _ m Hnd). split.
    + intros [(d & -> & Hd)%list_elem_of_fmap _]. right. exists d. split_and!; [done|done|done|].
      assert (byDest !! Container (sn_mount d) = Some d) as -> by (apply byDest_spec; by split). done.
    + intros [[Hc _]|(d & Hd & <- & _)]; [by destruct (Hno m)|]. split; [|done]. apply list_elem_of_fmap. by exists d.
Qed.

Lemma count_no_char c s : has_char c s = false → count_char c s = 0%nat.
Proof. unfold has_char. induction s as [|d s IH]; [done|]. cbn [sexists count_char]. intros [-> H]%orb_false_iff. by apply IH. Qed.
Lemma slashes_path q : names q → q ≠ [] → count_char "/" (path_string q) = length q.
Proof.
  intros Hq Hne. change (path_string q) with (String "/" (Join q "/")). cbn [count_char Ascii.eqb Bool.eqb]. enough (S (count_char "/" (Join q "/")) = length q) by (cbn; lia).
  induction Hq as [|x q [_ Hx] Hq IH]; [done|]. destruct q as [|y q]; [cbn; by rewrite (count_no_char _ _ Hx)|].
  rewrite Join_cons; [|done]. rewrite !GuestSys.count_char_app (count_no_char _ _ Hx). cbn [length]. specialize (IH ltac:(done)). cbn [length] in IH. cbn [count_char Ascii.eqb Bool.eqb]. 
  change (count_char "/" "/") with 1%nat. lia.
Qed.
Lemma format_specs l : Forall (λ d, good_mount (sn_mount d)) l → map formatMount (map sn_mount l) = spec_of <$> l.
Proof. induction 1 as [|d l Hd _ IH]; [done|]. cbn [map]. rewrite IH. cbn. f_equal. unfold formatMount, spec_of. by rewrite (gm_mode _ Hd). Qed.
Definition conf (m : Mount) : snapshot := {| sn_mount := m; sn_data := None |}.
Lemma NoDup_fmap_filter {A B} (g : A → B) (P : A → Prop) `{∀ x, Decision (P x)} l : NoDup (g <$> l) → NoDup (g <$> filter P l).
Proof.
  induction l as [|x l IH]; [done|]. cbn [fmap list_fmap]. intros [Hx Hn]%NoDup_cons. rewrite filter_cons. case_decide; [|by apply IH].
  cbn [fmap list_fmap]. constructor; [|by apply IH]. intros (y & E & Hy)%list_elem_of_fmap. apply Hx, list_elem_of_fmap. exists y. split; [done|]. by apply list_elem_of_filter in Hy as [_ ?].
Qed.
(** Sorting by depth puts what contains a path before it. *)
Lemma sorted_after l : NoDup (s_cont <$> l) → Forall proper l → ∀ a c b, stable_sort by_depth l = a ++ c :: b → after a c.
Proof.
  intros Hn Hp a c b E c' Hc'. pose proof (stable_sort_perm by_depth l) as Hperm. rewrite E in Hperm.
  assert (Hs : StronglySorted (λ x y, by_depth x y = true) (a ++ c :: b)).
  { rewrite -E. apply stable_sort_sorted; unfold by_depth; [intros x y; destruct (Nat.leb_spec (slashes x) (slashes y)); [by left|right; apply Nat.leb_le; lia]|].
    intros x y z H1 H2. apply Nat.leb_le in H1, H2. apply Nat.leb_le. lia. }
  rewrite -Hperm fmap_app in Hn. apply NoDup_app in Hn as (_ & Hn & _). rewrite -Hperm in Hp. rewrite Forall_forall in Hp.
  destruct (Hp c') as (q' & Hq' & Hne' & Ec'); [apply elem_of_app; by left|]. destruct (Hp c) as (q & Hq & Hne & Ec); [apply elem_of_app; right; by left|].
  rewrite (proper_comps c q Hq Ec) (proper_comps c' q' Hq' Ec'). intros [k ->].
  assert (Hd : by_depth c' c = true).
  { apply (StronglySorted_app_1_elem_of (λ x y, by_depth x y = true) a (c :: b)); [done|done|by left]. }
  unfold by_depth, slashes in Hd. apply Nat.leb_le in Hd. rewrite Ec Ec' slashes_path in Hd; [|done..]. rewrite slashes_path in Hd; [|done..].
  rewrite length_app in Hd. destruct k; [|cbn in Hd; lia]. apply (Hn (s_cont c')); [apply list_elem_of_fmap; by exists c'|].
  cbn. rewrite Ec' Ec app_nil_r. by left.
Qed.
(** What is picked from the merged mounts [res]. *)
Section Merged.
Variable res : list Mount.
Hypothesis res_good : Forall good_mount res.
Hypothesis res_spec : ∀ m, m ∈ res ↔ last_for (Container m) (map sn_mount defaults ++ cms) = Some m.
Local Notation sel := ((map pick res).*1).
Local Notation configured := (s_cont <$> (filter (λ sb : snapshot * bool, sb.2 = true) (map pick res)).*1).
Local Notation hid := (hidden home ParseVolume git isRegularFile gitConfig sshAuthSock (map formatMount cms) configured).

Lemma default_good s : s ∈ defaults → good_mount (sn_mount s).
Proof using defaults_good. clear -defaults_good. exact (proj1 (Forall_forall _ _) defaults_good s). Qed.
Lemma mount_good m : m ∈ cms → good_mount m.
Proof using cms_good. clear -cms_good. exact (proj1 (Forall_forall _ _) cms_good m). Qed.
Lemma pick_in m : m ∈ res → (m ∈ cms ∧ pick m = (conf m, true)) ∨
  (∃ d, d ∈ defaults ∧ sn_mount d = m ∧ (∀ m', m' ∈ cms → Container m' ≠ Container m) ∧ pick m = (d, false)).
Proof using volume cms_good cms_distinct defaults_distinct res_good res_spec.
  intros Hm. apply picked; [by apply (proj1 (Forall_forall _ _) res_good)|by apply res_spec].
Qed.
Lemma pick_conf m : m ∈ cms → m ∈ res ∧ pick m = (conf m, true).
Proof using volume cms_good cms_distinct defaults_distinct res_good res_spec.
  intros Hm. assert (m ∈ res) as Hin.
  { apply res_spec. rewrite last_for_app. by rewrite (proj2 (last_for_unique (Container m) cms m cms_distinct)). }
  split; [done|]. destruct (pick_in m Hin) as [[_ ?]|(d & _ & _ & Hno & _)]; [done|by destruct (Hno m)].
Qed.
Lemma pick_default s : s ∈ defaults → (∀ m', m' ∈ cms → Container m' ≠ s_cont s) → sn_mount s ∈ res ∧ pick (sn_mount s) = (s, false).
Proof using volume cms_good cms_distinct defaults_good defaults_distinct res_good res_spec.
  intros Hd Hno. assert (pick (sn_mount s) = (s, false)) as Hp.
  { unfold pick. assert (byDest !! Container (sn_mount s) = Some s) as -> by (apply byDest_spec; by split).
    rewrite bool_decide_eq_false_2; [done|]. rewrite explicit_spec. intros (m & Hm & E). by apply (Hno m Hm). }
  split; [|done]. apply res_spec, picked; [by apply default_good|]. right. by exists s.
Qed.
Lemma sel_spec s : s ∈ sel ↔ (∃ m, m ∈ cms ∧ s = conf m) ∨ (s ∈ defaults ∧ ∀ m', m' ∈ cms → Container m' ≠ s_cont s).
Proof using volume cms_good cms_distinct defaults_good defaults_distinct res_good res_spec.
  rewrite list_elem_of_fmap. split.
  - intros ([s' b] & -> & (m & E & Hm)%list_elem_of_fmap). cbn [fst]. destruct (pick_in m Hm) as [[Hc Ep]|(d & Hd & Ed & Hno & Ep)]; rewrite Ep in E; injection E as -> ->.
    + left. by exists m.
    + right. split; [done|]. intros m' Hm'. unfold s_cont. rewrite Ed. by apply Hno.
  - intros [(m & Hm & ->)|[Hd Hno]].
    + destruct (pick_conf m Hm) as [Hin Ep]. exists (conf m, true). split; [done|]. rewrite -Ep. by apply list_elem_of_fmap_2.
    + destruct (pick_default s Hd Hno) as [Hin Ep]. exists (s, false). split; [done|]. rewrite -Ep. by apply list_elem_of_fmap_2.
Qed.
Lemma configured_spec c : c ∈ configured ↔ ∃ m, m ∈ cms ∧ c = Container m.
Proof using volume cms_good cms_distinct defaults_distinct res_good res_spec.
  rewrite list_elem_of_fmap. split.
  - intros (s1 & -> & ([s2 b] & -> & [Hb (m & E & Hm)%list_elem_of_fmap]%list_elem_of_filter)%list_elem_of_fmap). cbn in Hb |- *. subst b.
    destruct (pick_in m Hm) as [[Hc Ep]|(d & _ & _ & _ & Ep)]; rewrite Ep in E; [|done]. injection E as ->. by exists m.
  - intros (m & Hm & ->). exists (conf m). split; [done|]. apply list_elem_of_fmap. exists (conf m, true). split; [done|].
    apply list_elem_of_filter. split; [done|]. destruct (pick_conf m Hm) as [Hin Ep]. rewrite -Ep. by apply list_elem_of_fmap_2.
Qed.
(** A path with [c/] as a prefix is one below [c]. *)
Lemma below_comps c c' : (∃ q, names q ∧ q ≠ [] ∧ c = path_string q) → (∃ q, names q ∧ q ≠ [] ∧ c' = path_string q) → HasPrefix c (c' +:+ "/") = true ↔ comps c' `prefix_of` comps c ∧ c ≠ c'.
Proof using.
  clear. intros (q & Hq & Hne & ->) (q' & Hq' & Hne' & ->). rewrite !comps_path_string; [|done..]. split.
  - intros H. apply HasPrefix_below in H as (k & Hk & ->); [|done..]. split; [by eexists|]. intros E. apply Hk.
    assert (comps (path_string (q' ++ k)) = comps (path_string q')) as E' by by rewrite E.
    rewrite !comps_path_string in E'; [|done..]. by rewrite -{2}(app_nil_r q') in E'; apply app_inv_head in E'.
  - intros [[k ->] Hk]. apply HasPrefix_below; [done..|]. exists k. split; [|done]. intros ->. apply Hk. by rewrite app_nil_r.
Qed.
Lemma hidden_spec s : s ∈ sel → hid s = false ↔ (∃ m, m ∈ cms ∧ s = conf m) ∨ (∀ m, m ∈ cms → ¬ comps (Container m) `prefix_of` comps (s_cont s)).
Proof using volume cms_good cms_distinct defaults_good defaults_distinct res_good res_spec.
  intros [(m & Hm & ->)|[Hd Hno]]%sel_spec.
  { split; [intros _; left; by exists m|]. intros _. unfold hidden. rewrite (bool_decide_eq_true_2 (_ ∈ explicit)); [by rewrite andb_false_r|].
    apply explicit_spec. by exists m. }
  assert (hid s = existsb (λ c, HasPrefix (s_cont s) (c +:+ "/")) configured) as ->.
  { unfold hidden. rewrite (bool_decide_eq_true_2 (is_Some _)); [|exists s; by apply byDest_spec].
    rewrite bool_decide_eq_false_2; [done|]. rewrite explicit_spec. intros (m' & Hm' & E). by apply (Hno m'). }
  assert (∀ m, m ∈ cms → HasPrefix (s_cont s) (Container m +:+ "/") = true ↔ comps (Container m) `prefix_of` comps (s_cont s)) as Hpre.
  { intros m Hm. rewrite below_comps; [|exact (gm_cont _ (default_good s Hd))|exact (gm_cont _ (mount_good m Hm))].
    split; [by intros []|]. intros H. split; [done|]. intros E. by apply (Hno m). }
  rewrite -not_true_iff_false existsb_exists. split.
  - intros H. right. intros m Hm Hp. apply H. exists (Container m). split; [apply list_elem_of_In, configured_spec; by exists m|by apply Hpre].
  - intros H (c & Hc & Hp). apply list_elem_of_In, configured_spec in Hc as (m & Hm & ->). apply Hpre in Hp; [|done].
    destruct H as [(m' & Hm' & ->)|H]; [by apply (Hno m')|by apply (H m)].
Qed.
Lemma sel_conts : s_cont <$> sel = map Container res.
Proof using volume cms_good cms_distinct defaults_distinct res_good res_spec.
  rewrite -!list_fmap_compose. apply list_fmap_ext. intros i m Hi. apply list_elem_of_lookup_2 in Hi. cbn.
  destruct (pick_in m Hi) as [[_ ->]|(d & _ & <- & _ & ->)]; done.
Qed.
Lemma sel_proper s : s ∈ sel → proper s.
Proof using volume cms_good cms_distinct defaults_good defaults_distinct res_good res_spec.
  intros [(m & Hm & ->)|[Hd _]]%sel_spec.
  - exact (gm_cont _ (mount_good m Hm)).
  - exact (gm_cont _ (default_good s Hd)).
Qed.
End Merged.
End Spec.

(** ** The default configuration file under a configured directory *)

Definition lab_volume (s : string) : option (string * string) :=
  match Split s ":" with [a; b; _] => Some (a, b) | _ => None end.
Lemma lab_volume_spec h c : text h → text c → lab_volume (h +:+ ":" +:+ c +:+ ":ro") = Some (h, c).
Proof.
  intros [_ Hh] [_ Hc]. unfold lab_volume. change (":" +:+ c +:+ ":ro") with (String ":" (c +:+ ":ro")).
  rewrite (Split_cons ":"); [|done]. change (c +:+ ":ro") with (c +:+ String ":" "ro"). by rewrite (Split_cons ":").
Qed.
Definition lab_git (_ : string) : list GitCopy.snapshot :=
  map (λ d, {| GitCopy.s_Host := "/h" +:+ d; GitCopy.s_Container := "/home/agent" +:+ d; GitCopy.s_data := "x"; GitCopy.s_ino := 0%nat; GitCopy.s_public := None |})
    ["/.gitconfig"; "/.config/git/config"].
Definition lab_cms : list Mount := [mountOf "/h/.config/git" "/home/agent/.config/git"].
Definition lab_snapshots : result cerr (list snapshot) :=
  vmSnapshots (Some "/h") lab_volume lab_git (λ _, true) true true (map formatMount lab_cms).
Example lab_snapshots_ex :
  match lab_snapshots with
  | Ok l => map (λ s, (s_host s, s_cont s)) l =
      [("/h/.gitconfig", "/home/agent/.gitconfig"); ("/h/.ssh/known_hosts", "/home/agent/.ssh/known_hosts"); ("/h/.config/git", "/home/agent/.config/git")]
  | Err _ => False
  end.
Proof. by vm_compute. Qed.
Ltac good_mount_tac q := split; [reflexivity|by vm_compute|by vm_compute|by vm_compute|exists q; by (split; [repeat constructor|])].
(** A file the Git configuration names with a colon in its path stops the whole
    merge: the default snapshots go through the syntax of mounts. *)
Example colon_default :
  vmSnapshots (Some "/h") lab_volume
    (λ _, [{| GitCopy.s_Host := "/h/a:b"; GitCopy.s_Container := "/home/agent/a:b"; GitCopy.s_data := "x"; GitCopy.s_ino := 0%nat; GitCopy.s_public := None |}])
    (λ _, true) true false [] = Err (EMountSpec "/h/a:b:/home/agent/a:b:ro").
Proof. by vm_compute. Qed.
