(* ===== verification/Prog.v ===== *)
(** * Programs that call their environment

    A flow of the code that mostly calls the system, other processes or other
    components is a [prog]: a tree of calls, each continued with the answer the
    environment gives. [exec] runs one against an environment that answers from the
    history of calls; [safe] is the assertion style: every call is made under
    its precondition on the history, and the result and the final history
    satisfy the postcondition, whatever the environment answers. *)

From S2P Require Import Prelude.

Section Prog.
Context {C : Type} {R : C → Type}.

Inductive prog (A : Type) : Type :=
| Ret (a : A)
| Do (c : C) (k : R c → prog A).
Arguments Ret {_}.
Arguments Do {_}.

(** A call with its answer. *)
Definition item : Type := {c : C & R c}.
Fixpoint pbind {A B} (f : A → prog B) (p : prog A) : prog B :=
  match p with Ret a => f a | Do c k => Do c (λ x, pbind f (k x)) end.
Definition call (c : C) : prog (R c) := Do c Ret.
Fixpoint exec {A} (env : ∀ c, list item → R c) (p : prog A) (h : list item) : A * list item :=
  match p with
  | Ret a => (a, h)
  | Do c k => let x := env c h in exec env (k x) (h ++ [existT c x])
  end.

Fixpoint safe {A} (Pre : list item → C → Prop) (p : prog A) (h : list item) (Q : A → list item → Prop) : Prop :=
  match p with
  | Ret a => Q a h
  | Do c k => Pre h c ∧ ∀ x, safe Pre (k x) (h ++ [existT c x]) Q
  end.
End Prog.
Arguments prog : clear implicits.
Arguments item : clear implicits.
Arguments Ret {_ _ _}.
Arguments Do {_ _ _}.
#[export] Instance prog_ret C R : MRet (prog C R) := λ A a, Ret a.
#[export] Instance prog_bind C R : MBind (prog C R) := λ A B f p, pbind f p.

(** A program that can fail, as a Go function with an error result. *)
Definition io (C : Type) (R : C → Type) (E A : Type) : Type := prog C R (result E A).
#[export] Instance io_ret C R E : MRet (io C R E) := λ A a, Ret (Ok a).
#[export] Instance io_bind C R E : MBind (io C R E) := λ A B f m,
  pbind (λ r, match r with Ok a => f a | Err e => Ret (Err e) end) m.
Section Io.
Context {C : Type} {R : C → Type} {E : Type}.
Definition throw {A} (e : E) : io C R E A := Ret (Err e).
Definition check (b : bool) (e : E) : io C R E () := if b then mret () else throw e.
(** A step that cannot fail, and one whose error the code logs and forgets. *)
Definition run {A} (p : prog C R A) : io C R E A := pbind (λ a, Ret (Ok a)) p.
Definition attempt {A E'} (p : io C R E' A) : io C R E (result E' A) := run p.
Definition ignore {A E'} (p : io C R E' A) : io C R E () := pbind (λ _, Ret (Ok ())) p.
Definition wrap {A E'} (f : E' → E) (p : io C R E' A) : io C R E A :=
  pbind (λ r, Ret (match r with Ok a => Ok a | Err e => Err (f e) end)) p.
(** [defer]: [last] runs after [m] whatever its result. *)
Definition finally {A} (m : io C R E A) (last : prog C R ()) : io C R E A :=
  pbind (λ r, pbind (λ _, Ret r) last) m.
Fixpoint for_each {A} (f : A → io C R E ()) (l : list A) : io C R E () :=
  match l with [] => mret () | x :: l => _ ← f x; for_each f l end.
End Io.

Lemma exec_bind {C : Type} {R : C → Type} {A B} env (p : prog C R A) (f : A → prog C R B) h :
  exec env (pbind f p) h = exec env (f (exec env p h).1) (exec env p h).2.
Proof. revert h. induction p as [a|c k IH]; intros h; cbn; [done|apply IH]. Qed.
Lemma exec_io {C : Type} {R : C → Type} {E A B} env (m : io C R E A) (f : A → io C R E B) h :
  exec env (m ≫= f) h = match (exec env m h).1 with Ok a => exec env (f a) (exec env m h).2 | Err e => (Err e, (exec env m h).2) end.
Proof. unfold mbind, io_bind. rewrite exec_bind. by destruct (exec env m h).1. Qed.
Lemma exec_history {C : Type} {R : C → Type} {A} env (p : prog C R A) h : ∃ t, (exec env p h).2 = h ++ t.
Proof.
  revert h. induction p as [a|c k IH]; intros h; cbn; [exists []; by rewrite app_nil_r|].
  destruct (IH (env c h) (h ++ [existT c (env c h)])) as [t ->]. eexists. by rewrite -assoc.
Qed.

Section Safe.
Context {C : Type} {R : C → Type} (Pre : list (item C R) → C → Prop).
Local Notation item := (item C R).

Lemma safe_mono {A} (p : prog C R A) h (Q Q' : A → list item → Prop) :
  safe Pre p h Q → (∀ a t, Q a (h ++ t) → Q' a (h ++ t)) → safe Pre p h Q'.
Proof.
  revert h. induction p as [a|c k IH]; intros h H HQ; cbn in *.
  - specialize (HQ a []). rewrite app_nil_r in HQ. by apply HQ.
  - destruct H as [Hp H]. split; [done|]. intros x. apply (IH x); [apply H|]. intros a t. rewrite -assoc. apply HQ.
Qed.
Lemma safe_bind {A B} (p : prog C R A) (f : A → prog C R B) h (Q : B → list item → Prop) :
  safe Pre p h (λ a h', safe Pre (f a) h' Q) → safe Pre (pbind f p) h Q.
Proof.
  revert h. induction p as [a|c k IH]; intros h H; cbn in *; [done|]. destruct H as [Hp H]. split; [done|]. intros x. by apply IH.
Qed.
Lemma safe_then {A B} (p : prog C R A) (f : A → prog C R B) h (P : A → list item → Prop) (Q : B → list item → Prop) :
  safe Pre p h P → (∀ a t, P a (h ++ t) → safe Pre (f a) (h ++ t) Q) → safe Pre (pbind f p) h Q.
Proof. intros Hp Hf. apply safe_bind. exact (safe_mono p h _ _ Hp Hf). Qed.
(** What holds of every run: the calls one by one, and the end. *)
Lemma exec_safe {A} (env : ∀ c, list item → R c) (p : prog C R A) h (Q : A → list item → Prop) :
  safe Pre p h Q → ∃ t, (exec env p h).2 = h ++ t ∧ Q (exec env p h).1 (h ++ t) ∧
    ∀ t1 c x t2, t = t1 ++ existT c x :: t2 → Pre (h ++ t1) c.
Proof.
  revert h. induction p as [a|c k IH]; intros h H; cbn in *.
  - exists []. rewrite app_nil_r. split_and!; [done|done|]. intros t1 c x t2 Ht. by destruct t1.
  - destruct H as [Hp H]. destruct (IH (env c h) _ (H (env c h))) as (t & E & HQ & Hpre).
    exists (existT c (env c h) :: t). rewrite -!assoc in E HQ. split_and!; [exact E|exact HQ|].
    intros [|i t1] c' x t2 Ht; cbn in Ht.
    + injection Ht as Hc _ _. rewrite app_nil_r -Hc. exact Hp.
    + injection Ht as <- Ht. specialize (Hpre t1 c' x t2 Ht). rewrite -assoc in Hpre. exact Hpre.
Qed.
End Safe.

(** The rules for programs that can fail: [after m h Q] when every call keeps
    its precondition, a success satisfies [Q], and nothing is asked of a failure. *)
Section After.
Context {C : Type} {R : C → Type} {E : Type} (Pre : list (item C R) → C → Prop).
Local Notation item := (item C R).
Definition after {A} (m : io C R E A) (h : list item) (Q : A → list item → Prop) : Prop :=
  safe Pre m h (λ r h', match r with Ok a => Q a h' | Err _ => True end).
Lemma after_ret {A} (a : A) h (Q : A → list item → Prop) : Q a h → after (mret a) h Q.
Proof. done. Qed.
Lemma after_throw {A} (e : E) h (Q : A → list item → Prop) : after (throw e) h Q.
Proof. done. Qed.
Lemma after_bind {A B} (m : io C R E A) (f : A → io C R E B) h (P : A → list item → Prop) (Q : B → list item → Prop) :
  after m h P → (∀ a t, P a (h ++ t) → after (f a) (h ++ t) Q) → after (m ≫= f) h Q.
Proof. intros Hm Hf. apply (safe_then _ _ _ _ _ _ Hm). intros [a|e] t; [apply Hf|done]. Qed.
Lemma after_mono {A} (m : io C R E A) h (Q Q' : A → list item → Prop) :
  after m h Q → (∀ a t, Q a (h ++ t) → Q' a (h ++ t)) → after m h Q'.
Proof. intros H HQ. apply (safe_mono _ _ _ _ _ H). intros [a|e] t; [apply HQ|done]. Qed.
Lemma after_check b (e : E) h (Q : () → list item → Prop) : (b = true → Q () h) → after (check b e) h Q.
Proof. intros H. destruct b; [by apply after_ret, H|done]. Qed.
Lemma after_each {A} (f : A → io C R E ()) l h (Q : A → list item → Prop) :
  (∀ x t t', Q x t → Q x (t ++ t')) →
  (∀ x t, x ∈ l → after (f x) (h ++ t) (λ _ h', Q x h')) → after (for_each f l) h (λ _ h', ∀ x, x ∈ l → Q x h').
Proof.
  intros HQ. revert h. induction l as [|x l IH]; intros h Hf; cbn [for_each].
  { apply after_ret. intros x Hx. by apply not_elem_of_nil in Hx. }
  apply (after_bind _ _ _ (λ _ h', Q x h')); [specialize (Hf x []); rewrite app_nil_r in Hf; apply Hf; by left|].
  intros _ t Hx. eapply after_mono; [apply IH; intros y t' Hy; rewrite -assoc; apply Hf; by right|].
  cbn. intros _ t' Hl y Hy. apply elem_of_cons in Hy as [->|Hy]; [by apply HQ|by apply Hl].
Qed.
End After.

(** ** What a program adds to a sum over its calls

    [gives w p δ]: the calls of [p] weigh [δ a] together when its result is [a].
    Descriptors opened and closed or services started and stopped are counted
    with such a weight. *)
Section Weight.
Context {C : Type} {R : C → Type} (w : item C R → Z).
Open Scope Z_scope.
Fixpoint weight (h : list (item C R)) : Z := match h with [] => 0 | i :: h => w i + weight h end.
Lemma weight_app a b : weight (a ++ b) = weight a + weight b.
Proof. induction a as [|i a IH]; cbn; [done|]. rewrite IH. lia. Qed.
Fixpoint gives {A} (p : prog C R A) (δ : A → Z) : Prop :=
  match p with Ret a => δ a = 0 | Do c k => ∀ x, gives (k x) (λ a, δ a - w (existT c x)) end.
Lemma gives_eq {A} (p : prog C R A) (δ δ' : A → Z) : (∀ a, δ a = δ' a) → gives p δ → gives p δ'.
Proof.
  revert δ δ'. induction p as [a|c k IH]; intros δ δ' E H; cbn in *; [by rewrite -E|].
  intros x. eapply IH; [|apply H]. intros a. cbn. by rewrite E.
Qed.
Lemma gives_bind {A B} (p : prog C R A) (f : A → prog C R B) δ ε :
  gives p δ → (∀ a, gives (f a) (λ b, ε b - δ a)) → gives (pbind f p) ε.
Proof.
  revert δ ε. induction p as [a|c k IH]; intros δ ε Hp Hf; cbn in *.
  - eapply gives_eq; [|apply Hf]. intros b. cbn. rewrite Hp. lia.
  - intros x. eapply IH; [apply Hp|]. intros a. eapply gives_eq; [|apply Hf]. intros b. cbn. lia.
Qed.
Lemma gives_call (c : C) δ : (∀ x, δ x = w (existT c x)) → gives (call c) δ.
Proof. intros H x. cbn. rewrite H. lia. Qed.
Lemma gives_exec {A} (p : prog C R A) δ env h : gives p δ → weight (exec env p h).2 = weight h + δ (exec env p h).1.
Proof.
  revert h δ. induction p as [a|c k IH]; intros h δ H; cbn in *; [rewrite H; lia|].
  rewrite (IH _ _ _ (H (env c h))) weight_app. cbn. lia.
Qed.

(** The rules for programs that can fail. *)
Context {E : Type}.
Lemma gives_io {A B} (m : io C R E A) (f : A → io C R E B) δ ε :
  gives m δ → (∀ a, gives (f a) (λ b, ε b - δ (Ok a))) → (∀ e, ε (Err e) = δ (Err e)) → gives (m ≫= f) ε.
Proof. intros Hm Hf He. apply (gives_bind m _ _ _ Hm). intros [a|e]; [apply Hf|cbn; rewrite He; lia]. Qed.
Lemma gives_each {A} (f : A → io C R E ()) l : (∀ x, x ∈ l → gives (f x) (λ _, 0)) → gives (for_each f l) (λ _, 0).
Proof.
  induction l as [|x l IH]; intros Hf; [done|]. cbn [for_each]. apply (gives_io _ _ (λ _, 0)); [apply Hf; by left| |done].
  intros _. apply IH. intros y Hy. apply Hf. by right.
Qed.
Lemma gives_wrap {A E'} (f : E' → E) (p : io C R E' A) δ ε :
  gives p δ → (∀ a, ε (Ok a) = δ (Ok a)) → (∀ e, ε (Err (f e)) = δ (Err e)) → gives (wrap f p) ε.
Proof. intros Hp Ho He. apply (gives_bind _ _ _ _ Hp). intros [a|e]; cbn; [rewrite Ho|rewrite He]; lia. Qed.
Lemma gives_run {A} (p : prog C R A) δ ε : gives p δ → (∀ a, ε (Ok a) = δ a) → gives (run p : io C R E A) ε.
Proof. intros Hp Ho. apply (gives_bind _ _ _ _ Hp). intros a. cbn. rewrite Ho. lia. Qed.
Lemma gives_finally {A} (m : io C R E A) (last : prog C R ()) δ ε n :
  gives m δ → gives last (λ _, n) → (∀ r, ε r = δ r + n) → gives (finally m last) ε.
Proof.
  intros Hm Hl He. apply (gives_bind _ _ _ _ Hm). intros r. apply (gives_bind _ _ _ _ Hl). intros []. cbn. rewrite He. lia.
Qed.
Lemma gives_check b (e : E) δ : δ (Ok ()) = 0 → δ (Err e) = 0 → gives (check b e) δ.
Proof. by destruct b. Qed.
End Weight.

(** ** What a program returns, whatever its environment answers *)
Section Returns.
Context {C : Type} {R : C → Type}.
Fixpoint returns {A} (p : prog C R A) (Q : A → Prop) : Prop :=
  match p with Ret a => Q a | Do c k => ∀ x, returns (k x) Q end.
Lemma returns_mono {A} (p : prog C R A) (Q Q' : A → Prop) : returns p Q → (∀ a, Q a → Q' a) → returns p Q'.
Proof. intros H HQ. induction p as [a|c k IH]; cbn in *; [by apply HQ|]. intros x. by apply IH. Qed.
Lemma returns_bind {A B} (p : prog C R A) (f : A → prog C R B) (P : A → Prop) (Q : B → Prop) :
  returns p P → (∀ a, P a → returns (f a) Q) → returns (pbind f p) Q.
Proof. intros Hp Hf. induction p as [a|c k IH]; cbn in *; [by apply Hf|]. intros x. by apply IH. Qed.
Lemma returns_and {A} (p : prog C R A) (P Q : A → Prop) : returns p P → returns p Q → returns p (λ a, P a ∧ Q a).
Proof. intros HP HQ. induction p as [a|c k IH]; cbn in *; [done|]. intros x. by apply IH. Qed.
Lemma returns_true {A} (p : prog C R A) : returns p (λ _, True).
Proof. induction p as [a|c k IH]; cbn; [done|]. intros x. apply IH. Qed.
Lemma returns_exec {A} (p : prog C R A) (Q : A → Prop) env h : returns p Q → Q (exec env p h).1.
Proof. revert h. induction p as [a|c k IH]; intros h H; cbn in *; [done|]. by apply IH. Qed.
End Returns.

(** ** Programs with a state that lasts when they fail *)
Definition sio (S C : Type) (R : C → Type) (E A : Type) : Type := S → prog C R (result E A * S).
#[export] Instance sio_ret S C R E : MRet (sio S C R E) := λ A a s, Ret (Ok a, s).
#[export] Instance sio_bind S C R E : MBind (sio S C R E) := λ A B f m s,
  pbind (λ rs, match rs.1 with Ok a => f a rs.2 | Err e => Ret (Err e, rs.2) end) (m s).
Section Sio.
Context {S C : Type} {R : C → Type} {E : Type}.
Definition sget {A} (f : S → A) : sio S C R E A := λ s, Ret (Ok (f s), s).
Definition smod (f : S → S) : sio S C R E () := λ s, Ret (Ok (), f s).
Definition sthrow {A} (e : E) : sio S C R E A := λ s, Ret (Err e, s).
Definition slift {A} (m : io C R E A) : sio S C R E A := λ s, pbind (λ r, Ret (r, s)) m.
Definition srun {A} (p : prog C R A) : sio S C R E A := λ s, pbind (λ a, Ret (Ok a, s)) p.
Fixpoint seach {A} (f : A → sio S C R E ()) (l : list A) : sio S C R E () :=
  match l with [] => mret () | x :: l => _ ← f x; seach f l end.

Lemma returns_sio {A B} (m : sio S C R E A) (f : A → sio S C R E B) s (P : result E A → S → Prop) (Q : result E B → S → Prop) :
  returns (m s) (λ rs, P rs.1 rs.2) → (∀ a s', P (Ok a) s' → returns (f a s') (λ rs, Q rs.1 rs.2)) →
  (∀ e s', P (Err e) s' → Q (Err e) s') → returns ((m ≫= f) s) (λ rs, Q rs.1 rs.2).
Proof.
  intros Hm Hf He. apply (returns_bind _ _ _ _ Hm). intros [[a|e] s'] HP; cbn in *; [by apply Hf|by apply He].
Qed.
Lemma gives_sio (w : item C R → Z) {A B} (m : sio S C R E A) (f : A → sio S C R E B) s δ ε :
  gives w (m s) δ → (∀ a s', gives w (f a s') (λ b, ε b - δ (Ok a, s'))%Z) → (∀ e s', ε (Err e, s') = δ (Err e, s')) →
  gives w ((m ≫= f) s) ε.
Proof. intros Hm Hf He. apply (gives_bind _ _ _ _ _ Hm). intros [[a|e] s']; cbn; [apply Hf|rewrite He; lia]. Qed.
(** What is known of the state after the first step. *)
Lemma gives_known (w : item C R → Z) {A B} (m : prog C R A) (f : A → prog C R B) (P : A → Prop) δ ε :
  returns m P → gives w m δ → (∀ a, P a → gives w (f a) (λ b, ε b - δ a)%Z) → gives w (pbind f m) ε.
Proof.
  revert δ ε. induction m as [a|c k IH]; intros δ ε HP Hm Hf; cbn in *.
  - eapply gives_eq; [|by apply Hf]. intros b. cbn. rewrite Hm. lia.
  - intros x. eapply IH; [apply HP|apply Hm|]. intros a Ha. eapply gives_eq; [|by apply Hf]. intros b. cbn. lia.
Qed.
Lemma gives_agree (w : item C R → Z) {A} (m : prog C R A) δ δ' : gives w m δ → returns m (λ a, δ a = δ' a) → gives w m δ'.
Proof.
  revert δ δ'. induction m as [a|c k IH]; intros δ δ' Hg Hr; cbn in *; [by rewrite -Hr|]. intros x. eapply IH; [apply Hg|].
  apply (returns_mono _ _ _ (Hr x)). intros a E'. cbn in *. lia.
Qed.
Lemma gives_step (w : item C R → Z) {A B} (m : sio S C R E A) (f : A → sio S C R E B) s (P : result E A → S → Prop) δ ε :
  returns (m s) (λ rs, P rs.1 rs.2) → gives w (m s) δ → (∀ a s', P (Ok a) s' → gives w (f a s') (λ b, ε b - δ (Ok a, s'))%Z) →
  (∀ e s', P (Err e) s' → ε (Err e, s') = δ (Err e, s')) → gives w ((m ≫= f) s) ε.
Proof. intros HP Hm Hf He. apply (gives_known _ _ _ _ _ _ HP Hm). intros [[a|e] s'] H; cbn in *; [by apply Hf|rewrite He; [lia|done]]. Qed.
Lemma returns_slift {A} (m : io C R E A) s (Q : result E A → S → Prop) : returns m (λ r, Q r s) → returns (slift m s) (λ rs, Q rs.1 rs.2).
Proof. intros H. by apply (returns_bind _ _ _ _ H). Qed.
(** A change of a number that the state holds. *)
Definition changes (w : item C R → Z) (V : S → Z) {A} (m : sio S C R E A) (s : S) : Prop := gives w (m s) (λ rs, V rs.2 - V s)%Z.
Lemma changes_bind w V {A B} (m : sio S C R E A) (f : A → sio S C R E B) s (P : A → S → Prop) :
  changes w V m s → returns (m s) (λ rs, match rs.1 with Ok a => P a rs.2 | Err _ => True end) →
  (∀ a s', P a s' → changes w V (f a) s') → changes w V (m ≫= f) s.
Proof.
  intros Hm HP Hf. apply (gives_step w _ _ _ (λ r s', match r with Ok a => P a s' | Err _ => True end) _ _ HP Hm); [|done].
  intros a s' Ha. eapply gives_eq; [|exact (Hf a s' Ha)]. intros b. cbn. lia.
Qed.
Lemma changes_slift w V {A} (m : io C R E A) s : gives w m (λ _, 0%Z) → changes w V (slift m) s.
Proof. intros Hm. apply (gives_bind _ _ _ _ _ Hm). intros r. cbn. lia. Qed.
Lemma returns_seach {A} (f : A → sio S C R E ()) l s (P : list A → S → Prop) (Q : result E () → S → Prop) :
  P l s → (∀ x l s, P (x :: l) s → returns (f x s) (λ rs, match rs.1 with Ok _ => P l rs.2 | Err e => Q (Err e) rs.2 end)) →
  (∀ s, P [] s → Q (Ok ()) s) → returns (seach f l s) (λ rs, Q rs.1 rs.2).
Proof.
  intros HP Hf HQ. revert s HP. induction l as [|x l IH]; intros s HP; [by apply HQ|]. cbn [seach].
  apply (returns_sio _ _ _ (λ r s', match r with Ok _ => P l s' | Err e => Q (Err e) s' end) _ (Hf _ _ _ HP)); [|done]. intros [] s'. apply IH.
Qed.
Lemma gives_seach (w : item C R → Z) {A} (f : A → sio S C R E ()) l s (P : list A → S → Prop) (V : S → Z) :
  P l s → (∀ x l s, P (x :: l) s → returns (f x s) (λ rs, match rs.1 with Ok _ => P l rs.2 | Err _ => True end) ∧
    gives w (f x s) (λ rs, V rs.2 - V s)%Z) → gives w (seach f l s) (λ rs, V rs.2 - V s)%Z.
Proof.
  intros HP Hf. revert s HP. induction l as [|x l IH]; intros s HP; [cbn; lia|]. cbn [seach]. destruct (Hf _ _ _ HP) as [Hr Hg].
  apply (gives_step w _ _ _ (λ r s', match r with Ok _ => P l s' | Err _ => True end) _ _ Hr Hg); [|done].
  intros [] s' HP'. eapply gives_eq; [|exact (IH s' HP')]. intros b. cbn. lia.
Qed.
Lemma gives_srun (w : item C R → Z) {A B} (p : prog C R A) (f : A → sio S C R E B) s δ ε :
  gives w p δ → (∀ a, gives w (f a s) (λ b, ε b - δ a)%Z) → gives w ((srun p ≫= f) s) ε.
Proof.
  revert δ ε. induction p as [a|c k IH]; intros δ ε Hp Hf; cbn in *.
  - eapply gives_eq; [|apply Hf]. intros b. cbn. rewrite Hp. lia.
  - intros x. eapply IH; [apply Hp|]. intros a. eapply gives_eq; [|apply Hf]. intros b. cbn. lia.
Qed.
Lemma returns_srun {A B} (p : prog C R A) (f : A → sio S C R E B) s (P : A → Prop) Q :
  returns p P → (∀ a, P a → returns (f a s) Q) → returns ((srun p ≫= f) s) Q.
Proof. intros Hp Hf. induction p as [a|c k IH]; cbn in *; [by apply Hf|]. intros x. by apply IH. Qed.
Lemma returns_slift_bind {A B} (p : io C R E A) (f : A → sio S C R E B) s (P : A → Prop) Q :
  returns p (λ r, match r with Ok a => P a | Err _ => True end) → (∀ a, P a → returns (f a s) Q) → (∀ e, Q (Err e, s)) → returns ((slift p ≫= f) s) Q.
Proof. intros Hp Hf He. induction p as [[a|e]|c k IH]; cbn in *; [by apply Hf|apply He|]. intros x. by apply IH. Qed.
Lemma gives_slift_bind (w : item C R → Z) {A B} (p : io C R E A) (f : A → sio S C R E B) s δ ε :
  gives w p δ → (∀ a, gives w (f a s) (λ b, ε b - δ (Ok a))%Z) → (∀ e, ε (Err e, s) = δ (Err e)) → gives w ((slift p ≫= f) s) ε.
Proof.
  intros Hp Hf He. revert δ ε Hp Hf He. induction p as [[a|e]|c k IH]; intros δ ε Hp Hf He; cbn in *.
  - eapply gives_eq; [|apply Hf]. intros b. cbn. rewrite Hp. lia.
  - unfold slift, mbind, sio_bind. cbn. rewrite He. lia.
  - intros x. eapply IH; [apply Hp| |]; intros; [eapply gives_eq; [|apply Hf]; intros; cbn; lia|]. cbn. rewrite He. lia.
Qed.
Lemma gives_slift (w : item C R → Z) {A} (m : io C R E A) s δ ε :
  gives w m δ → (∀ r, ε (r, s) = δ r) → gives w (slift m s) ε.
Proof. intros Hm He. apply (gives_bind _ _ _ _ _ Hm). intros r. cbn. rewrite He. lia. Qed.
End Sio.

(** ** The calls a program can make *)
Section Calls.
Context {C : Type} {R : C → Type} (P : C → Prop).
Fixpoint calls {A} (p : prog C R A) : Prop :=
  match p with Ret _ => True | Do c k => P c ∧ ∀ x, calls (k x) end.
Lemma calls_bind {A B} (p : prog C R A) (f : A → prog C R B) : calls p → (∀ a, calls (f a)) → calls (pbind f p).
Proof. intros Hp Hf. induction p as [a|c k IH]; cbn in *; [by apply Hf|]. destruct Hp as [Hc Hk]. split; [done|]. intros x. by apply IH. Qed.
Lemma calls_io {E A B} (m : io C R E A) (f : A → io C R E B) : calls m → (∀ a, calls (f a)) → calls (m ≫= f).
Proof. intros Hm Hf. apply (calls_bind _ _ Hm). by intros [a|e]. Qed.
Lemma calls_wrap {E E' A} (f : E' → E) (p : io C R E' A) : calls p → calls (wrap f p).
Proof. intros Hp. apply (calls_bind _ _ Hp). by intros [a|e]. Qed.
Lemma calls_each {E A} (f : A → io C R E ()) l : (∀ x, calls (f x)) → calls (for_each f l).
Proof. intros Hf. induction l as [|x l IH]; [done|]. apply calls_io; [apply Hf|done]. Qed.
Lemma calls_gives (w : item C R → Z) {A} (p : prog C R A) (δ : A → Z) :
  (∀ c x, P c → w (existT c x) = 0%Z) → (∀ a, δ a = 0%Z) → calls p → gives w p δ.
Proof.
  intros Hw Hd. revert δ Hd. induction p as [a|c k IH]; intros δ Hd; cbn; [done|]. intros [Hc Hk] x. apply IH; [|apply Hk].
  intros a. rewrite Hd Hw; done.
Qed.
End Calls.
Lemma calls_mono {C : Type} {R : C → Type} (P P' : C → Prop) {A} (p : prog C R A) : (∀ c, P c → P' c) → calls P p → calls P' p.
Proof. intros HP. induction p as [a|c k IH]; cbn; [done|]. intros [Hc Hk]. split; [by apply HP|]. intros x. apply IH, Hk. Qed.

(** ** More rules for [after] *)
Section AfterRules.
Context {C : Type} {R : C → Type} (Pre : list (item C R) → C → Prop).
Local Notation item := (item C R).
(** A fact about a history that stays true. *)
Definition lasting (Q : list item → Prop) : Prop := ∀ h t, Q h → Q (h ++ t).
Lemma safe_calls {A} P (p : prog C R A) h (Q : A → list item → Prop) :
  calls P p → (∀ t c, P c → Pre (h ++ t) c) → (∀ a t, Q a (h ++ t)) → safe Pre p h Q.
Proof.
  intros Hp HP HQ. revert h HP HQ. induction p as [a|c k IH]; intros h HP HQ; cbn in *.
  - specialize (HQ a []). by rewrite app_nil_r in HQ.
  - destruct Hp as [Hc Hk]. split; [specialize (HP [] c Hc); by rewrite app_nil_r in HP|]. intros x. apply IH; [apply Hk| |]; intros; rewrite -assoc; auto.
Qed.
(** The preconditions from the calls alone, the rest without them. *)
Lemma safe_pre {A} P (p : prog C R A) h (Q : A → list item → Prop) :
  calls P p → (∀ t c, P c → Pre (h ++ t) c) → safe (λ _ _, True) p h Q → safe Pre p h Q.
Proof.
  revert h. induction p as [a|c k IH]; intros h Hp HP H; cbn in *; [done|]. destruct Hp as [Hc Hk], H as [_ H].
  split; [specialize (HP [] c Hc); by rewrite app_nil_r in HP|]. intros x. apply IH; [apply Hk| |apply H]. intros. rewrite -assoc. auto.
Qed.
Lemma after_calls {E A} P (p : io C R E A) h (Q : list item → Prop) :
  calls P p → (∀ t c, P c → Pre (h ++ t) c) → lasting Q → Q h → after Pre p h (λ _ h', Q h').
Proof. intros Hp HP HQ H. apply (safe_calls P _ _ _ Hp HP). intros [a|e] t; [by apply HQ|done]. Qed.
Lemma after_wrap {E E' A} (f : E' → E) (p : io C R E' A) h (Q : A → list item → Prop) : after Pre p h Q → after Pre (wrap f p) h Q.
Proof. intros H. apply safe_bind. apply (safe_mono _ _ _ _ _ H). by intros [a|e] t. Qed.
Lemma after_run {E A} (p : prog C R A) h (Q : A → list item → Prop) : safe Pre p h Q → after Pre (run p : io C R E A) h Q.
Proof. intros H. apply safe_bind. apply (safe_mono _ _ _ _ _ H). done. Qed.
Lemma after_finally {E A} P (m : io C R E A) (last : prog C R ()) h (Q : A → list item → Prop) :
  after Pre m h Q → calls P last → (∀ t c, P c → Pre (h ++ t) c) → (∀ a, lasting (Q a)) → after Pre (finally m last) h Q.
Proof.
  intros Hm Hl HP HQ. apply (safe_then _ _ _ _ _ _ Hm). intros r t Hr. apply safe_bind.
  apply (safe_calls P _ _ _ Hl); [intros; rewrite -assoc; auto|]. intros [] t'. cbn. destruct r as [a|e]; [by apply HQ|done].
Qed.
Lemma after_and {E A} (m : io C R E A) h (Q Q' : A → list item → Prop) :
  after Pre m h Q → after Pre m h Q' → after Pre m h (λ a h', Q a h' ∧ Q' a h').
Proof.
  intros H H'. unfold after in *. revert h H H'. induction m as [[a|e]|c k IH]; intros h H H'; cbn in *; [done|done|].
  destruct H as [Hp H], H' as [_ H']. split; [done|]. intros x. apply IH; auto.
Qed.
(** The rule for a sequence of calls: what lasts is kept, the next fact is added. *)
Lemma after_step {E A B} (F : list item → Prop) (G : A → list item → Prop) (m : io C R E A) (f : A → io C R E B) h (Q : B → list item → Prop) :
  lasting F → F h → after Pre m h G → (∀ a h', F h' → G a h' → after Pre (f a) h' Q) → after Pre (m ≫= f) h Q.
Proof. intros HF Hh Hm Hf. apply (after_bind _ _ _ _ _ _ Hm). intros a t HG. apply Hf; [by apply HF|done]. Qed.
Lemma lasting_and (Q Q' : list item → Prop) : lasting Q → lasting Q' → lasting (λ h, Q h ∧ Q' h).
Proof. intros H H' h t []. split; auto. Qed.
Lemma lasting_all {A} (Q : A → list item → Prop) : (∀ a, lasting (Q a)) → lasting (λ h, ∀ a, Q a h).
Proof. intros H h t Ha a. by apply H. Qed.
Lemma lasting_imp (P : Prop) (Q : list item → Prop) : lasting Q → lasting (λ h, P → Q h).
Proof. intros H h t HQ HP. by apply H, HQ. Qed.
Lemma lasting_ex {A} (Q : A → list item → Prop) : (∀ a, lasting (Q a)) → lasting (λ h, ∃ a, Q a h).
Proof. intros H h t [a Ha]. exists a. by apply H. Qed.
Lemma lasting_or (Q Q' : list item → Prop) : lasting Q → lasting Q' → lasting (λ h, Q h ∨ Q' h).
Proof. intros H H' h t []; [left|right]; auto. Qed.
Lemma lasting_in (i : item) : lasting (λ h, i ∈ h).
Proof. intros h t H. apply elem_of_app. by left. Qed.
Lemma lasting_const (P : Prop) : lasting (λ _, P).
Proof. by intros h t. Qed.
End AfterRules.
#[export] Hint Resolve lasting_and lasting_all lasting_imp lasting_ex lasting_or lasting_in lasting_const : lasting.

(** ** What is known after calls

    [reaches m h Q]: when [m] succeeds, [Q] holds of its result and the history,
    in which [made] finds the calls with their answers. *)
Notation "'reaches' m" := (after (λ _ _, True) m) (at level 10).
Section Reach.
Context {C : Type} {R : C → Type} {E : Type}.
Local Notation item := (item C R).
Definition made (h : list item) (c : C) (x : R c) : Prop := existT c x ∈ h.
Lemma made_lasting c x : lasting (λ h, made h c x).
Proof. apply lasting_in. Qed.
Lemma reaches_true {A} (m : io C R E A) h : reaches m h (λ _ _, True).
Proof. revert h. unfold after. induction m as [[a|e]|c k IH]; intros h; cbn in *; [done|done|]. split; [done|]. intros x. apply IH. Qed.
Lemma reaches_wrap {E' A} (w : E' → E) c (g : R c → result E' A) h :
  reaches (wrap w (Do c (λ x, Ret (g x)))) h (λ v h', ∃ x, made h' c x ∧ g x = Ok v).
Proof.
  cbn. split; [done|]. intros x. destruct (g x) eqn:Eg; cbn; [|done]. exists x. split; [|done]. apply elem_of_app. right. by left.
Qed.
Lemma reach_bind {E' A B} (F : list item → Prop) (w : E' → E) c (g : R c → result E' A) (f : A → io C R E B) h (Q : B → list item → Prop) :
  lasting F → F h → (∀ v x h', F h' → made h' c x → g x = Ok v → reaches (f v) h' Q) → reaches (wrap w (Do c (λ x, Ret (g x))) ≫= f) h Q.
Proof.
  intros HF Hh Hf. apply (after_step _ F _ _ _ _ _ HF Hh (reaches_wrap w c g h)). intros v h' H (x & Hx & Eg). exact (Hf v x h' H Hx Eg).
Qed.
Lemma reach_skip {A B} (F : list item → Prop) (m : io C R E A) (f : A → io C R E B) h (Q : B → list item → Prop) :
  lasting F → F h → (∀ a h', F h' → reaches (f a) h' Q) → reaches (m ≫= f) h Q.
Proof. intros HF Hh Hf. apply (after_step _ F (λ _ _, True) _ _ _ _ HF Hh (reaches_true m h)). intros a h' H _. by apply Hf. Qed.
Lemma reach_ask {B} (F : list item → Prop) c (f : R c → io C R E B) h (Q : B → list item → Prop) :
  lasting F → F h → (∀ x h', F h' → made h' c x → reaches (f x) h' Q) → reaches (run (call c) ≫= f) h Q.
Proof.
  intros HF Hh Hf. cbn. split; [done|]. intros x. apply Hf; [by apply HF|]. apply elem_of_app. right. by left.
Qed.
Lemma reach_finally {A} (m : io C R E A) (last : prog C R ()) h (Q : A → list item → Prop) :
  (∀ a, lasting (Q a)) → reaches m h Q → reaches (finally m last) h Q.
Proof.
  intros HQ Hm. apply (safe_then _ _ _ _ _ _ Hm). intros r t Hr. apply safe_bind. apply (safe_calls _ (λ _, True)); [by induction last; cbn|done|].
  intros [] t'. cbn. destruct r; [by apply HQ|done].
Qed.
End Reach.
#[export] Hint Resolve made_lasting : lasting.

Ltac head_of t := match t with ?f _ => head_of f | _ => t end.
Create HintDb calls.
(** The calls of a program by its structure; the recursive ones have lemmas. *)
Ltac walk := repeat lazymatch goal with
  | |- calls _ (Ret _) => exact I
  | |- calls _ (Do _ _) => split; [exact I|]
  | |- calls _ (mret _) => exact I
  | |- calls _ (mbind _ _) => apply calls_io
  | |- calls _ (pbind _ _) => apply calls_bind
  | |- calls _ (for_each _ _) => apply calls_each
  | |- calls _ (match ?x with _ => _ end) => destruct x
  | |- ∀ _, _ => intros ?
  | |- calls _ ?p => first [solve [auto with calls] | let f := head_of p in unfold f; cbv beta]
  end.
