(* ===== verification/GuestCalls.v ===== *)
(** * The system calls of the guest's init

    What [src/internal/guest/*_linux.go] asks of the kernel and of the libraries
    that start services, as the calls of [Prog]: each with the type of its answer.
    A call of the libraries [mount], [netcfg], [harden], [netlink], [sshd] and
    [reaper] is one call, as is a process that is run. *)

From S2P Require Import Prelude GoStrings GoStrconv GoPath SessionWire GuestSys Accounts Prog.
Open Scope string_scope.
Open Scope list_scope.
Open Scope Z_scope.

Inductive errno := ENOENT | EEXIST | EINVAL | EBUSY | ESRCH | EAGAIN | EOTHER (n : Z).
#[export] Instance errno_eq_dec : EqDecision errno.
Proof. solve_decision. Defined.
Inductive msflag := MS_BIND | MS_REMOUNT | MS_RDONLY | MS_NOSUID | MS_NODEV | MS_NOEXEC | MS_RELATIME | MS_REC | MS_PRIVATE.
#[export] Instance msflag_eq_dec : EqDecision msflag.
Proof. solve_decision. Defined.
Inductive fkind := KDir | KReg | KLink | KOther.
#[export] Instance fkind_eq_dec : EqDecision fkind.
Proof. solve_decision. Defined.
(** Where a detached mount is attached: at an open file or at a path. *)
Inductive place := AtFd (fd : Z) | AtPath (p : string).
#[export] Instance place_eq_dec : EqDecision place.
Proof. solve_decision. Defined.
(** The background services of init. *)
Inductive service := ClockSync | Reclaim | ExecLog | OOMGuard | Reaper.
#[export] Instance service_eq_dec : EqDecision service.
Proof. solve_decision. Defined.
Record idmapping := { im_fs : Z; im_shown : Z }.
Definition proc_fd (fd : Z) : string := "/proc/self/fd/" +:+ Itoa fd.

Inductive gcall :=
(* files *)
| Lstat (p : string) | Stat (p : string) | StatOwner (p : string)
| MkdirAll (p : string) (mode : Z) | Mkdir (p : string) (mode : Z) | CreateFile (p : string) (mode : Z)
| Chmod (p : string) (mode : Z) | Lchown (p : string) (uid gid : Z) | Chown (p : string) (uid gid : Z)
| Remove (p : string) | Rename (a b : string) | Symlink (a b : string)
| ReadFile (p : string) | WriteFile (p data : string) (mode : Z)
(* mounts *)
| Mount (source target fstype : string) (flags : list msflag) (data : string)
| Unmount (target : string) (detach : bool)
| OpenPath (p : string) | FstatKind (fd : Z) | Close (fd : Z)
| OpenTree (p : string) | SetReadOnly (fd : Z) | SetIdmap (fd ns : Z) | MoveMount (fd : Z) (dst : place)
| Fsopen (fstype : string) | FsconfigSource (fd : Z) (source : string) | FsconfigCreate (fd : Z)
| Fsmount (fd : Z) (attrs : list msflag) | Fstatat (fd : Z)
| Chdir (p : string) | PivotRoot (new old : string)
| StdinPipe | StartUserns (uids gids : list idmapping) | OpenNs (pid : Z) | CloseStdin (fd : Z) | WaitFor (pid ms : Z) | AwaitExit (pid : Z)
(* processes and privileges *)
| LookPath (name : string) | Command (argv : list string) | Start (argv : list string)
| Kill (pid sig : Z) | Sync | Sleep (ms : Z) | Now
| BoundingSetDrop (cap : Z) | NoNewPrivs
| OpenDev (p : string) | ReadMagic (fd : Z) | OpenWrite (p : string) | WriteFd (fd : Z) (data : bytes) | CloseWritten (fd : Z) | Swapon (p : string)
(* the network and the services *)
| Essential | Sethostname (name : string) | Configure | HardenSet (name value : string) | KernelDefaults
| LinkByName (name : string) | AddrReplace (addr : string) | RouteReplace (gw : string)
| EnsureAccount (uid gid : Z)
| StartService (s : service) | TryStart (s : service) | StopService (s : service)
| ParseAuthorizedKey (key : string) | ParsePrivateKey (pem : string) | NewServer (env : list string) (acct : account) (workdir : string)
| Listen (network addr : string) | Serve (l : Z) | ServeRelay (l : Z) (upstream : string)
| CancelRelay (l : Z) | CloseListener (l : Z) | CloseServer.

Definition answer (c : gcall) : Type :=
  match c with
  | Lstat _ | Stat _ | FstatKind _ => result errno fkind
  | StatOwner _ => result errno (Z * Z * Z)
  | ReadFile _ | LookPath _ => result errno string
  | OpenPath _ | OpenTree _ | Fsopen _ | Fsmount _ _ | StdinPipe | StartUserns _ _ | OpenNs _ | OpenDev _ | OpenWrite _ | Start _ | Listen _ _ => result errno Z
  | EnsureAccount _ _ => result errno account
  | ReadMagic _ => magic_read
  | Now => Z
  | WaitFor _ _ => bool
  | Close _ | CloseStdin _ | AwaitExit _ | Sync | Sleep _ | KernelDefaults | StartService _ | StopService _ | Serve _ | ServeRelay _ _
  | CancelRelay _ | CloseListener _ | CloseServer => ()
  | _ => result errno ()
  end.

(** Errors as the code builds them with [fmt.Errorf]. *)
Inductive gerr := Sys (e : errno) | Errorf (what arg : string) (e : gerr) | Message (what : string).

Notation gitem := (item gcall answer).
Notation gprog := (prog gcall answer).
Notation gio := (io gcall answer gerr).
(** A call whose error is returned as it is, or with what failed. *)
Definition sys {A} (p : gprog (result errno A)) : gio A := wrap Sys p.
Definition sysf {A} (what arg : string) (p : gprog (result errno A)) : gio A := wrap (λ e, Errorf what arg (Sys e)) p.
Definition errf {A} (what arg : string) (p : gio A) : gio A := wrap (Errorf what arg) p.
(** A call whose result the code drops. *)
Definition discard {A} (p : gprog A) : gprog () := pbind (λ _, Ret ()) p.
(** A call whose failure is only logged. *)
Definition warn {A E} (p : gprog (result E A)) : gio () := ignore p.

(** A kernel that grants every call: the environment of the examples. *)
Definition some_account : account := {| a_name := "agent"; a_uid := 1000; a_gid := 1000; a_home := "/home/agent"; a_shell := "/bin/sh" |}.
Definition granted (c : gcall) : answer c :=
  match c as c return answer c with
  | Lstat _ | Stat _ | FstatKind _ => Ok KDir
  | StatOwner _ => Ok (0, 0, 493)
  | ReadFile _ | LookPath _ => Ok ""
  | OpenPath _ | OpenTree _ | Fsopen _ | Fsmount _ _ | StdinPipe | StartUserns _ _ | OpenNs _ | OpenDev _ | OpenWrite _ | Start _ | Listen _ _ => Ok 3
  | EnsureAccount _ _ => Ok some_account
  | ReadMagic _ => MagicEOF
  | Now => 0
  | WaitFor _ _ => true
  | Close _ | CloseStdin _ | AwaitExit _ | Sync | Sleep _ | KernelDefaults | StartService _ | StopService _ | Serve _ | ServeRelay _ _
  | CancelRelay _ | CloseListener _ | CloseServer => ()
  | _ => Ok ()
  end.
