(* ===== verification/GuestMounts.v ===== *)
(** * Mounts of the guest

    The functions of [src/internal/guest/init_linux.go] that create directories
    and mounts, and [idmap_linux.go] and [rootfs_linux.go]: ID-mapped mounts and
    the overlay root. A descriptor is the number the kernel answers. *)

From S2P Require Import Prelude GoStrings GoStrconv GoPath HostFS PathNames GuestSys Accounts Prog GuestCalls.
Open Scope string_scope.
Open Scope list_scope.
Open Scope Z_scope.

Definition mode_755 : Z := 493.
Definition mode_700 : Z := 448.
Definition mode_644 : Z := 420.

Definition HostDir : string := PrivateDir +:+ "/host".
Definition ReadOnlyHostDir : string := PrivateDir +:+ "/host-ro".
Definition ControlDir : string := HostDir +:+ "/control".
Record Snapshot := { sn_Source : string; sn_Target : string }.
#[export] Instance Snapshot_eq_dec : EqDecision Snapshot.
Proof. solve_decision. Defined.
Definition isOk {E A} (r : result E A) : bool := match r with Ok _ => true | Err _ => false end.
Definition is_errno (e : errno) {A} (r : result errno A) : bool := match r with Err e' => bool_decide (e' = e) | Ok _ => false end.

(** ** Directories *)

Definition chown (path : string) (acct : account) : gio () := sysf "chown" path (call (Lchown path (a_uid acct) (a_gid acct))).
Definition ownedDir (path : string) (acct : account) (mode : Z) : gio () :=
  _ ← sysf "create" path (call (MkdirAll path mode));
  _ ← sysf "chmod" path (call (Chmod path mode));
  chown path acct.
(** The directories from [d] upwards that do not exist, topmost first. *)
Fixpoint missing (fuel : nat) (d : string) (acc : list string) : gprog (list string) :=
  match fuel with
  | O => Ret acc
  | S n => Do (Lstat d) (λ r : result errno fkind,
      if isOk r then Ret acc else if String.eqb d (Dir d) then Ret (d :: acc) else missing n (Dir d) (d :: acc))
  end.
Definition make_dir (acct : account) (d : string) : gio () :=
  _ ← run (call (Mkdir d mode_755)) ≫= (λ r : result errno (), match r with
        | Ok _ => mret ()
        | Err e => check (bool_decide (e = EEXIST)) (Errorf "create" d (Sys e)) end);
  if within d (a_home acct) then chown d acct else mret ().
Definition makeParents (dir : string) (acct : account) : gio () :=
  let d := Clean dir in
  ds ← run (missing (S (S (String.length d))) d []);
  for_each (make_dir acct) ds.
Definition different_type : gerr := Message "destination exists as a different file type".
Definition mountPoint (path : string) (dir : bool) : gio () :=
  info ← run (call (Lstat path));
  match (info : result errno fkind) with
  | Ok k => check (if dir then bool_decide (k = KDir) else bool_decide (k = KReg)) different_type
  | Err e => if negb (bool_decide (e = ENOENT)) then throw (Sys e)
             else if dir then sys (call (Mkdir path mode_755)) else sys (call (CreateFile path mode_644))
  end.

(** ** Binds *)

Definition bind_flags (ro : bool) : list msflag := [MS_BIND; MS_REMOUNT; MS_NOSUID; MS_NODEV] ++ (if ro then [MS_RDONLY] else []).
Definition mountPrivate : gio () :=
  _ ← sysf "create" PrivateDir (call (MkdirAll PrivateDir mode_700));
  sysf "mount" PrivateDir (call (Mount "tmpfs" PrivateDir "tmpfs" [MS_NOSUID; MS_NODEV; MS_NOEXEC] "mode=0700,size=1m")).
Definition bindable (source : string) : bool :=
  (within source HostDir || within source ReadOnlyHostDir) && negb (within source ControlDir).
Definition bindInternal (b : Bind) (acct : account) : gio () :=
  _ ← check (bindable (bd_Source b)) (Message "source is outside the internal share");
  _ ← errf "bind" (bd_Target b) (makeParents (bd_Target b) acct);
  _ ← sysf "bind" (bd_Target b) (call (Mount (bd_Source b) (bd_Target b) "" [MS_BIND] ""));
  sysf "bind: remount" (bd_Target b) (call (Mount "" (bd_Target b) "" (bind_flags (bd_ReadOnly b)) "")).

(** A step on a descriptor that is closed when the step fails. *)
Definition or_close {A} (fd : Z) (m : gio A) : gio A :=
  pbind (λ r, match r with Ok a => Ret (Ok a) | Err e => Do (Close fd) (λ _, Ret (Err e)) end) m.
Definition bindReadOnly (source target : string) (dir : bool) : gio Z :=
  dst ← sysf "open destination" target (call (OpenPath target));
  finally (
    k ← sysf "stat destination" target (call (FstatKind dst));
    _ ← check (bool_decide (k = if dir then KDir else KReg)) (Message "destination changed to a different file type");
    fd ← sysf "clone" source (call (OpenTree source));
    _ ← or_close fd (sysf "make read-only" source (call (SetReadOnly fd)));
    _ ← or_close fd (sysf "attach" target (call (MoveMount fd (AtFd dst))));
    mret fd) (call (Close dst)).
(** The mount point was created, and the descriptor of the mount. *)
Definition bindSnapshot (c : Snapshot) (acct : account) : gprog (bool * result gerr Z) :=
  pbind (λ r, match r with
    | Err e => Ret (false, Err e)
    | Ok (dir, created) => pbind (λ f, Ret (created, f)) (errf "snapshot" (sn_Target c) (bindReadOnly (sn_Source c) (sn_Target c) dir))
    end) (
    k ← sysf "snapshot" (sn_Target c) (call (Stat (sn_Source c)));
    let dir := bool_decide (k = KDir) in
    _ ← errf "snapshot" (sn_Target c) (makeParents (Dir (sn_Target c)) acct);
    l ← run (call (Lstat (sn_Target c)));
    _ ← errf "snapshot" (sn_Target c) (mountPoint (sn_Target c) dir);
    mret (dir, is_errno ENOENT l) : gio (bool * bool)).
Definition unmountSnapshot (fd : Z) : gio () :=
  finally (
    r ← run (call (Unmount (proc_fd fd) true));
    match (r : result errno ()) with
    | Ok _ => mret ()
    | Err e => check (bool_decide (e = EINVAL)) (Sys e)
    end) (call (Close fd)).

(** ** Protected paths *)

Definition pin_leb (a b : string) : bool := (String.length a <=? String.length b)%nat.
Definition pin (p : string) : gio () := sysf "pin" p (call (Mount p p "" [MS_BIND] "")).
Definition protect_flags : list msflag := [MS_BIND; MS_REMOUNT; MS_RDONLY; MS_NOSUID; MS_NODEV].
Definition protect (p : string) : gio () :=
  _ ← sysf "protect: bind" p (call (Mount p p "" [MS_BIND] ""));
  sysf "protect: remount read-only" p (call (Mount "" p "" protect_flags "")).
(** [sort] is [slices.SortFunc] by length, which is not stable. *)
Definition protectPaths (sort : list string → list string) (pins readOnly : list string) : gio () :=
  _ ← for_each pin (sort pins);
  for_each protect readOnly.

(** ** ID-mapped mounts *)

Definition newRootDir : string := GuestDir +:+ "/newroot".
(** The idmapper by the descriptor of its user namespace; [None] for nil. *)
Definition close_mapper (m : option Z) : gprog () := match m with Some ns => call (Close ns) | None => Ret () end.
Record IDMap := { id_UID : Z; id_GID : Z }.
(** What runs when a step fails, before its error is returned. *)
Definition or_else {A} (m : gio A) (undo : gprog ()) : gio A :=
  pbind (λ r, match r with Ok a => Ret (Ok a) | Err e => pbind (λ _, Ret (Err e)) undo end) m.
(** The helper process holds the namespace until it is open here. *)
Definition SIGKILL : Z := 9.
Definition release_holder (stdin pid : Z) : gprog () :=
  Do (CloseStdin stdin) (λ _, Do (WaitFor pid 2000) (λ exited : bool,
    if exited then Ret () else Do (Kill pid SIGKILL) (λ _, call (AwaitExit pid)))).
Definition userNamespace (uids gids : list idmapping) : gio Z :=
  stdin ← sysf "user namespace" "" (call StdinPipe);
  pid ← sysf "start user namespace" "" (call (StartUserns uids gids));
  finally (sysf "open user namespace" "" (call (OpenNs pid))) (release_holder stdin pid).
Definition idNamespaces (m : IDMap) (agentUID agentGID : Z) : gio (Z * Z) :=
  rootNS ← userNamespace [{| im_fs := id_UID m; im_shown := 0 |}] [{| im_fs := id_GID m; im_shown := 0 |}];
  sharesNS ← or_else (userNamespace [{| im_fs := id_UID m; im_shown := agentUID |}; {| im_fs := 0; im_shown := 0 |}]
                                    [{| im_fs := id_GID m; im_shown := agentGID |}; {| im_fs := 0; im_shown := 0 |}]) (call (Close rootNS));
  mret (rootNS, sharesNS).
Definition attachIdmapped (src dst : string) (ns : option Z) : gio () :=
  fd ← sysf "clone" src (call (OpenTree src));
  finally (
    _ ← match ns with Some n => sysf "set idmapping" "" (call (SetIdmap fd n)) | None => mret () end;
    sysf "attach" dst (call (MoveMount fd (AtPath dst)))) (call (Close fd)).
Definition switchRoot (dir : string) : gio () :=
  _ ← sysf "enter new root" "" (call (Chdir dir));
  _ ← or_else (sysf "pivot_root" "" (call (PivotRoot "." "."))) (discard (call (Chdir "/")));
  _ ← sysf "detach old root" "" (call (Unmount "." true));
  sysf "enter root" "" (call (Chdir "/")).
Definition detach (dir : string) : gprog () := discard (call (Unmount dir true)).
Definition JoinPath2 (a b : string) : string := JoinPath [a; b].
Definition idmapRoot (m : IDMap) (home : string) (agentUID agentGID : Z) : gio Z :=
  _ ← sysf "create" home (call (MkdirAll home mode_755));
  _ ← sysf "create" newRootDir (call (MkdirAll newRootDir mode_700));
  ns ← idNamespaces m agentUID agentGID;
  let '(rootNS, sharesNS) := (ns : Z * Z) in
  let close := call (Close sharesNS) in
  let undo := pbind (λ _, close) (detach newRootDir) in
  finally (
    _ ← or_else (sysf "make / private" "" (call (Mount "" "/" "" [MS_REC; MS_PRIVATE] ""))) close;
    _ ← or_else (errf "idmap root filesystem" "" (attachIdmapped "/" newRootDir (Some rootNS))) close;
    _ ← or_else (errf "idmap" home (attachIdmapped home (JoinPath2 newRootDir home) (Some sharesNS))) undo;
    _ ← or_else (switchRoot newRootDir) undo;
    mret sharesNS) (call (Close rootNS)).

(** The ID mapping of a share is retried while the file server's answer is in
    flight; the last answer counts. *)
Fixpoint set_idmap (tries : nat) (mnt ns : Z) (last : result errno ()) : gprog (result errno ()) :=
  match tries with
  | O => Ret last
  | S n => Do (SetIdmap mnt ns) (λ r : result errno (),
      if is_errno EINVAL r then Do (Sleep 50) (λ _, set_idmap n mnt ns r) else Ret r)
  end.
Definition share_attrs (ro : bool) : list msflag := [MS_NOSUID; MS_NODEV] ++ (if ro then [MS_RDONLY] else []).
Definition mapper_mountShare (m : option Z) (tag target : string) (readOnly : bool) : gio () :=
  match m with
  | None => sys (call (Mount tag target "virtiofs" (share_attrs readOnly) ""))
  | Some ns =>
      fs ← sysf "open virtiofs" "" (call (Fsopen "virtiofs"));
      finally (
        _ ← sysf "set source" "" (call (FsconfigSource fs tag));
        _ ← sysf "create superblock" "" (call (FsconfigCreate fs));
        mnt ← sysf "create mount" "" (call (Fsmount fs (share_attrs readOnly)));
        finally (
          _ ← run (discard (call (Fstatat mnt)));
          _ ← sysf "set idmapping" "" (set_idmap 40 mnt ns (Ok ()));
          sysf "attach" "" (call (MoveMount mnt (AtPath target)))) (call (Close mnt))) (call (Close fs))
  end.
Definition mountRetries : nat := 20.
Fixpoint retry_share (tries : nat) (m : option Z) (s : Share) (last : result gerr ()) : gprog (result gerr ()) :=
  match tries with
  | O => Ret last
  | S n => pbind (λ r : result gerr (), if isOk r then Ret r else Do (Sleep 250) (λ _, retry_share n m s r))
             (mapper_mountShare m (sh_Tag s) (sh_GuestPath s) (sh_ReadOnly s))
  end.
Definition mountShare (s : Share) (acct : account) (m : option Z) : gio () :=
  _ ← errf "create mount point" (sh_GuestPath s) (makeParents (sh_GuestPath s) acct);
  errf "mount share" (sh_Tag s) (retry_share mountRetries m s (Ok ())).

Record sysmount := { m_source : string; m_target : string; m_fstype : string; m_flags : list msflag; m_data : string }.
Definition after_pivot : list sysmount :=
  [{| m_source := "cgroup2"; m_target := "/sys/fs/cgroup"; m_fstype := "cgroup2"; m_flags := [MS_NODEV; MS_NOEXEC; MS_NOSUID; MS_RELATIME]; m_data := "" |};
   {| m_source := "tmpfs"; m_target := "/dev/shm"; m_fstype := "tmpfs"; m_flags := [MS_NOEXEC; MS_NOSUID; MS_NODEV]; m_data := "mode=1777" |};
   {| m_source := "tmpfs"; m_target := "/var/tmp"; m_fstype := "tmpfs"; m_flags := [MS_NOSUID; MS_NODEV]; m_data := "mode=1777" |}].
Definition remount_one (m : sysmount) : gio () :=
  _ ← sysf "create" (m_target m) (call (MkdirAll (m_target m) mode_755));
  r ← run (call (Mount (m_source m) (m_target m) (m_fstype m) (m_flags m) (m_data m)));
  match (r : result errno ()) with
  | Ok _ => mret ()
  | Err e => check (bool_decide (e = EBUSY)) (Errorf "mount" (m_target m) (Sys e))
  end.
Definition remountAfterPivot : gio () :=
  _ ← sysf "essential mounts" "" (call Essential);
  _ ← for_each remount_one after_pivot;
  warn (call (Symlink "/proc/self/fd" "/dev/fd")).

(** ** The overlay root *)

Definition overlayDir : string := GuestDir +:+ "/overlay".
Definition imageShareDir : string := overlayDir +:+ "/share".
Definition bootLowerDir : string := overlayDir +:+ "/boot".
Definition imageLowerDir : string := overlayDir +:+ "/image".
Definition homeLowerDir : string := overlayDir +:+ "/home".
Definition upperDir : string := overlayDir +:+ "/rw".
Record overlayLayers := { ly_boot : string; ly_image : string; ly_home : string }.
Definition overlayOptions (lowers : list string) (upper work : string) : string :=
  "lowerdir=" +:+ Join lowers ":" +:+ ",upperdir=" +:+ upper +:+ ",workdir=" +:+ work.
Definition mountOverlay (target dir : string) (lowers : list string) : gio () :=
  let upper := JoinPath2 dir "upper" in
  let work := JoinPath2 dir "work" in
  _ ← for_each (λ d, sysf "create" d (call (MkdirAll d mode_755))) [upper; work];
  sysf "mount overlay" target (call (Mount "overlay" target "overlay" [] (overlayOptions lowers upper work))).
Definition mountHomeOverlay (target dir lower : string) : gio () :=
  st ← sysf "stat home" "" (call (StatOwner lower));
  let '(uid, gid, mode) := (st : Z * Z * Z) in
  let upper := JoinPath2 dir "upper" in
  _ ← sysf "create" upper (call (MkdirAll upper mode_700));
  _ ← sysf "chown home upper" "" (call (Chown upper uid gid));
  _ ← sysf "chmod home upper" "" (call (Chmod upper (Z.land mode 511)));
  mountOverlay target dir [lower].
(** [attached] is a variable the deferred cleanup reads: the layers attached so far. *)
Fixpoint detach_all (l : list string) : gprog () :=
  match l with [] => Ret () | d :: l => Do (Unmount d true) (λ _, detach_all l) end.
Fixpoint attach_layers (todo : list (string * string * Z)) (attached : list string) : gprog (result gerr () * list string) :=
  match todo with
  | [] => Ret (Ok (), attached)
  | (src, dst, ns) :: todo =>
      pbind (λ r, match r with Ok _ => attach_layers todo (dst :: attached) | Err e => Ret (Err e, attached) end)
        (errf "idmap" src (attachIdmapped src dst (Some ns)))
  end.
Definition idmappedLayers (m : IDMap) (home : string) (agentUID agentGID : Z) : gio (Z * overlayLayers) :=
  let imageHome := JoinPath2 imageShareDir home in
  st ← run (call (Stat imageHome));
  let hasHome := match (st : result errno fkind) with Ok k => bool_decide (k = KDir) | Err _ => false end in
  ns ← idNamespaces m agentUID agentGID;
  let '(rootNS, sharesNS) := (ns : Z * Z) in
  let todo := [("/", bootLowerDir, rootNS); (imageShareDir, imageLowerDir, rootNS)]
              ++ (if hasHome then [(imageHome, homeLowerDir, sharesNS)] else []) in
  finally (
    pbind (λ ra, match ra.1 with
      | Err e => pbind (λ _, Do (Close sharesNS) (λ _, Ret (Err e))) (detach_all ra.2)
      | Ok _ => Ret (Ok (sharesNS, {| ly_boot := bootLowerDir; ly_image := imageLowerDir; ly_home := if hasHome then homeLowerDir else "" |}))
      end) (attach_layers todo [])) (call (Close rootNS)).
(** The IDs of the agent, which change when the kernel cannot map. *)
Record ids := { i_UID : Z; i_GID : Z; i_IDMap : option IDMap }.
Definition overlay_dirs : list string := [imageShareDir; bootLowerDir; imageLowerDir; homeLowerDir; upperDir; newRootDir].
Definition overlayRoot (RootShare home : string) (cfg : ids) : gio (option Z * ids) :=
  _ ← for_each (λ d, sysf "create" d (call (MkdirAll d mode_700))) overlay_dirs;
  _ ← sysf "mount image share" "" (call (Mount RootShare imageShareDir "virtiofs" [MS_RDONLY; MS_NODEV] ""));
  _ ← sysf "make / private" "" (call (Mount "" "/" "" [MS_REC; MS_PRIVATE] ""));
  _ ← sysf "mount overlay upper tmpfs" "" (call (Mount "tmpfs" upperDir "tmpfs" [] "mode=0755"));
  ml ← match i_IDMap cfg with
       | None => mret (None, {| ly_boot := "/"; ly_image := imageShareDir; ly_home := "" |}, cfg)
       | Some m => r ← attempt (idmappedLayers m home (i_UID cfg) (i_GID cfg));
                   match (r : result gerr (Z * overlayLayers)) with
                   | Ok (ns, layers) => mret (Some ns, layers, cfg)
                   | Err _ => mret (None, {| ly_boot := "/"; ly_image := imageShareDir; ly_home := "" |},
                                    {| i_UID := id_UID m; i_GID := id_GID m; i_IDMap := None |})
                   end
       end;
  let '(mapper, layers, cfg) := (ml : option Z * overlayLayers * ids) in
  let close := close_mapper mapper in
  _ ← or_else (mountOverlay newRootDir (JoinPath2 upperDir "root") [ly_boot layers; ly_image layers]) close;
  _ ← (if String.eqb (ly_home layers) "" then mret ()
       else or_else (mountHomeOverlay (JoinPath2 newRootDir home) (JoinPath2 upperDir "home") (ly_home layers)) (pbind (λ _, close) (detach newRootDir)));
  _ ← or_else (switchRoot newRootDir) close;
  mret (mapper, cfg).

(** ** The calls made *)

(** The calls on files and directories, without a descriptor, a mount or a listener. *)
Definition on_files (c : gcall) : Prop :=
  match c with
  | Lstat _ | Stat _ | StatOwner _ | MkdirAll _ _ | Mkdir _ _ | CreateFile _ _ | Chmod _ _ | Lchown _ _ _ | Chown _ _ _
  | Remove _ | Rename _ _ | Symlink _ _ | ReadFile _ | WriteFile _ _ _ => True
  | _ => False
  end.
Lemma missing_files n d acc : calls on_files (missing n d acc).
Proof.
  revert d acc. induction n as [|n IH]; intros d acc; cbn; [done|]. split; [done|]. intros x. destruct (isOk x); [done|].
  destruct (String.eqb d (Dir d)); [done|]. apply IH.
Qed.
Lemma ownedDir_files p acct mode : calls on_files (ownedDir p acct mode).
Proof. cbn. split; [done|]. intros []; [|done]. split; [done|]. intros []; [|done]. by split; [|intros []]. Qed.
Lemma makeParents_files dir acct : calls on_files (makeParents dir acct).
Proof.
  apply calls_io; [apply calls_bind; [apply missing_files|done]|]. intros ds. apply calls_each. intros d. apply calls_io.
  - cbn. split; [done|]. intros []; [done|]. by destruct (bool_decide _).
  - intros []. destruct (within d (a_home acct)); [|done]. by split; [|intros []].
Qed.
Lemma mountPoint_files p dir : calls on_files (mountPoint p dir).
Proof.
  split; [done|]. intros [k|e]; cbn; [by destruct (if dir then _ else _)|]. destruct (negb _); [done|]. by destruct dir; split; try intros [].
Qed.

(** The walk up from a path ends within its fuel: what it returns is every
    directory of the path from the first missing one on, topmost first, and the
    directory above them is there, unless even the root is missing. *)
Lemma missing_chain env p n acc h : names p → (length p < n)%nat →
  let out := exec env (missing n (path_string p) acc) h in
  ∃ k, (k <= S (length p))%nat ∧ out.1 = map (λ i, path_string (take i p)) (seq k (S (length p) - k)) ++ acc ∧
    (k = 0%nat ∨ ∃ i x, k = S i ∧ (existT (Lstat (path_string (take i p))) x : gitem) ∈ out.2 ∧ isOk (x : result errno fkind) = true).
Proof.
  revert n acc h. induction p as [|z p IH] using rev_ind; intros n acc h Hp Hn; (destruct n as [|n]; [lia|]); cbn [missing exec].
  - set (x := env (Lstat (path_string [])) h). destruct (isOk (x : result errno fkind)) eqn:Ex.
    + exists 1%nat. cbn. split; [lia|]. split; [done|]. right. exists 0%nat, x. split; [done|]. split; [apply elem_of_app; right; by left|done].
    + change (String.eqb (path_string []) (Dir (path_string []))) with true. exists 0%nat. cbn. split; [lia|]. by split; [|left].
  - rewrite length_app in Hn |- *. cbn [length] in *. apply Forall_app in Hp as [Hp Hz]. apply Forall_cons in Hz as [Hz _].
    set (x := env _ h). destruct (isOk (x : result errno fkind)) eqn:Ex.
    + exists (S (length p + 1)). split; [lia|]. rewrite Nat.sub_diag. split; [done|]. right. exists (length p + 1)%nat, x. split; [done|].
      rewrite (take_ge (p ++ [z])); [|rewrite length_app; cbn; lia]. split; [cbn; apply elem_of_app; right; by left|done].
    + rewrite Dir_path_string; [|done..]. replace (String.eqb _ _) with false.
      2: { symmetry. apply String.eqb_neq. intros E. apply (f_equal comps) in E. rewrite !comps_path_string in E; [|done|apply Forall_app; split; [done|by constructor]].
           apply (f_equal length) in E. rewrite length_app in E. cbn in E. lia. }
      destruct (IH n (path_string (p ++ [z]) :: acc) (h ++ [existT (Lstat (path_string (p ++ [z]))) x]) Hp ltac:(lia)) as (k & Hk & E & Hex).
      exists k. split; [lia|]. split.
      * rewrite E. replace (S (length p + 1) - k)%nat with (S (length p) - k + 1)%nat by lia. rewrite seq_app map_app -assoc. f_equal.
        { apply map_ext_in. intros i Hi. apply in_seq in Hi. rewrite take_app_le; [done|lia]. }
        cbn. replace (k + (S (length p) - k))%nat with (S (length p)) by lia. rewrite take_ge; [done|rewrite length_app; cbn; lia].
      * destruct Hex as [?|(i & y & -> & Hy & Hok)]; [by left|]. right. exists i, y. split; [done|]. rewrite take_app_le; [|lia]. by split.
Qed.

(** ** Descriptors *)

(** What a call changes in the number of times the descriptor [fd] is open. *)
Definition opened (fd : Z) (r : result errno Z) : Z := match r with Ok n => Z.b2z (n =? fd) | Err _ => 0 end.
Definition fd_weight (fd : Z) (i : gitem) : Z :=
  match i with existT c x =>
    match c as c return answer c → Z with
    | OpenPath _ | OpenTree _ | Fsopen _ | Fsmount _ _ | OpenNs _ | OpenDev _ => opened fd
    | Close n => λ _, - Z.b2z (n =? fd)
    | _ => λ _, 0
    end x
  end.
Notation fds fd := (gives (fd_weight fd)).
Definition returned (fd : Z) (r : result gerr Z) : Z := match r with Ok n => Z.b2z (n =? fd) | Err _ => 0 end.

(** A program without loops, answer by answer. *)
Ltac answers := cbn; repeat (let x := fresh "x" in intros x; try destruct x; cbn); try (unfold returned, opened; cbn; lia).

Lemma idNamespaces_fds fd m uid gid :
  fds fd (idNamespaces m uid gid) (λ r, match r with Ok (a, b) => Z.b2z (a =? fd) + Z.b2z (b =? fd) | Err _ => 0 end).
Proof. answers. Qed.
Lemma attachIdmapped_fds fd src dst ns : fds fd (attachIdmapped src dst ns) (λ _, 0).
Proof. destruct ns; answers. Qed.
Lemma switchRoot_fds fd dir : fds fd (switchRoot dir) (λ _, 0).
Proof. answers. Qed.
Lemma idmapRoot_fds fd m home uid gid : fds fd (idmapRoot m home uid gid) (returned fd).
Proof. answers. Qed.
Lemma set_idmap_fds fd n mnt ns last : fds fd (set_idmap n mnt ns last) (λ _, 0).
Proof. revert last. induction n as [|n IH]; intros last; cbn; [done|]. intros x. case_match; cbn; [|done]. intros []. apply (gives_eq _ _ (λ _, 0)), IH. intros; lia. Qed.
Lemma mapper_mountShare_fds fd m tag target ro : fds fd (mapper_mountShare m tag target ro) (λ _, 0).
Proof.
  destruct m as [ns|]; [|answers]. unfold mapper_mountShare.
  apply (gives_io _ _ _ (λ r, match r with Ok n => Z.b2z (n =? fd) | Err _ => 0 end)); [answers| |done]. intros fs.
  eapply (gives_finally _ _ _ (λ _, 0) _ (- Z.b2z (fs =? fd))); [|answers|intros; lia].
  apply (gives_io _ _ _ (λ _, 0)); [answers|intros []|done]. apply (gives_io _ _ _ (λ _, 0)); [answers|intros []|done].
  apply (gives_io _ _ _ (λ r, match r with Ok n => Z.b2z (n =? fd) | Err _ => 0 end)); [answers| |done]. intros mnt.
  eapply (gives_finally _ _ _ (λ _, 0) _ (- Z.b2z (mnt =? fd))); [|answers|intros; lia].
  apply (gives_io _ _ _ (λ _, 0)); [answers|intros []|done]. apply (gives_io _ _ _ (λ _, 0)); [|answers|done].
  apply (gives_wrap _ _ _ (λ _, 0)); [apply set_idmap_fds|done|done].
Qed.
Lemma files_fds fd {A} (p : gprog A) : calls on_files p → fds fd p (λ _, 0).
Proof. apply calls_gives; [|done]. by intros []. Qed.
Lemma makeParents_fds fd dir acct : fds fd (makeParents dir acct) (λ _, 0).
Proof. apply files_fds, makeParents_files. Qed.
Lemma mountShare_fds fd s acct m : fds fd (mountShare s acct m) (λ _, 0).
Proof.
  apply (gives_io _ _ _ (λ _, 0)); [apply (gives_wrap _ _ _ (λ _, 0)); [apply makeParents_fds|done|done]|intros []|done].
  apply (gives_wrap _ _ _ (λ _, 0)); [|done|done]. generalize (Ok () : result gerr ()). generalize mountRetries. intros n.
  induction n as [|n IH]; intros last; [done|]. cbn [retry_share].
  apply (gives_bind _ _ _ (λ _, 0)); [apply mapper_mountShare_fds|]. intros r. destruct (isOk r); [cbn; lia|]. cbn. intros [].
  apply (gives_eq _ _ (λ _, 0)), IH. intros; cbn; lia.
Qed.
Lemma bindReadOnly_fds fd source target dir : fds fd (bindReadOnly source target dir) (returned fd).
Proof.
  unfold bindReadOnly. apply (gives_io _ _ _ (returned fd)); [answers| |done]. intros dst.
  apply (gives_finally _ _ _ (returned fd) _ (- Z.b2z (dst =? fd))); [|answers|intros r; cbn; lia].
  apply (gives_io _ _ _ (λ _, 0)); [answers|intros k|done].
  apply (gives_io _ _ _ (λ _, 0)); [by apply gives_check|intros []|done]. answers.
Qed.
Lemma unmountSnapshot_fds fd n : fds fd (unmountSnapshot n) (λ _, - Z.b2z (n =? fd)).
Proof. cbn. intros [|e]; [cbn; intros; lia|]. destruct (bool_decide _); cbn; intros; lia. Qed.
Lemma mountPoint_fds fd p dir : fds fd (mountPoint p dir) (λ _, 0).
Proof. apply files_fds, mountPoint_files. Qed.
Lemma bindSnapshot_fds fd c acct : fds fd (bindSnapshot c acct) (λ r, returned fd r.2).
Proof.
  unfold bindSnapshot. apply (gives_bind _ _ _ (λ _, 0)).
  - apply (gives_io _ _ _ (λ _, 0)); [answers|intros k|done].
    apply (gives_io _ _ _ (λ _, 0)); [apply (gives_wrap _ _ _ (λ _, 0)); [apply makeParents_fds|done|done]|intros []|done].
    apply (gives_io _ _ _ (λ _, 0)); [answers|intros l|done].
    apply (gives_io _ _ _ (λ _, 0)); [apply (gives_wrap _ _ _ (λ _, 0)); [apply mountPoint_fds|done|done]|intros []; cbn; lia|done].
  - intros [[dir created]|e]; [|cbn; lia]. apply (gives_bind _ _ _ (returned fd)); [|intros [n|e]; cbn; lia].
    apply (gives_wrap _ _ _ (returned fd)); [apply bindReadOnly_fds|done|done].
Qed.
(** The clean-up of the layers. *)
Definition att_weight (p : string) (i : gitem) : Z :=
  match i with existT c x =>
    match c as c return answer c → Z with
    | MoveMount _ (AtPath q) => λ r, if isOk r then Z.b2z (String.eqb q p) else 0
    | Unmount q _ => λ _, - Z.b2z (String.eqb q p)
    | _ => λ _, 0
    end x
  end.
Fixpoint times (p : string) (l : list string) : Z := match l with [] => 0 | q :: l => Z.b2z (String.eqb q p) + times p l end.
Lemma attachIdmapped_att p src dst ns : gives (att_weight p) (attachIdmapped src dst ns) (λ r, match r with Ok _ => Z.b2z (String.eqb dst p) | Err _ => 0 end).
Proof. destruct ns; answers. Qed.
Lemma detach_all_att p l : gives (att_weight p) (detach_all l) (λ _, - times p l).
Proof. induction l as [|q l IH]; cbn; [done|]. intros x. eapply gives_eq; [|exact IH]. intros; cbn; lia. Qed.
Lemma attach_layers_att p todo attached :
  gives (att_weight p) (attach_layers todo attached)
    (λ r, match r.1 with Ok _ => times p (map (λ t, t.1.2) todo) | Err _ => times p r.2 - times p attached end).
Proof.
  revert attached. induction todo as [|[[src dst] ns] todo IH]; intros attached; cbn [attach_layers]; [cbn; lia|].
  apply (gives_bind _ _ _ (λ r, match r with Ok _ => Z.b2z (String.eqb dst p) | Err _ => 0 end)).
  - apply (gives_wrap _ _ _ (λ r, match r with Ok _ => Z.b2z (String.eqb dst p) | Err _ => 0 end)); [apply attachIdmapped_att|by intros []|done].
  - intros [[]|e]; [|cbn; lia]. eapply gives_eq; [|apply IH]. intros [[]]; cbn; lia.
Qed.
Lemma attach_layers_fds fd todo attached : fds fd (attach_layers todo attached) (λ _, 0).
Proof.
  revert attached. induction todo as [|[[src dst] ns] todo IH]; intros attached; cbn [attach_layers]; [done|].
  apply (gives_bind _ _ _ (λ _, 0)); [apply (gives_wrap _ _ _ (λ _, 0)); [apply attachIdmapped_fds|done|done]|].
  intros [[]|e]; [|cbn; lia]. eapply gives_eq; [|apply IH]. intros r. cbn. lia.
Qed.
Lemma detach_all_fds fd l : fds fd (detach_all l) (λ _, 0).
Proof. induction l as [|q l IH]; cbn; [done|]. intros x. eapply gives_eq; [|exact IH]. intros; cbn; lia. Qed.

Definition mapper_returned {A} (fd : Z) (r : result gerr (Z * A)) : Z := match r with Ok (ns, _) => Z.b2z (ns =? fd) | Err _ => 0 end.
Lemma idmappedLayers_fds fd m home uid gid : fds fd (idmappedLayers m home uid gid) (mapper_returned fd).
Proof.
  unfold idmappedLayers. apply (gives_io _ _ _ (λ _, 0)); [answers|intros st|done].
  apply (gives_io _ _ _ _ _ (idNamespaces_fds fd m uid gid)); [|done]. intros [rootNS sharesNS].
  apply (gives_finally _ _ _ (λ r, mapper_returned fd r - Z.b2z (sharesNS =? fd)) _ (- Z.b2z (rootNS =? fd))); [|answers|intros; lia].
  apply (gives_bind _ _ _ (λ _, 0)); [apply attach_layers_fds|]. intros [[[]|e] l]; cbn [fst snd]; [cbn; lia|].
  apply (gives_bind _ _ _ (λ _, 0)); [apply detach_all_fds|]. intros []. cbn. intros []. lia.
Qed.
(** The directories of the layers that stay attached. *)
Definition attached_dirs (r : result gerr (Z * overlayLayers)) : list string :=
  match r with
  | Ok (_, ly) => [ly_boot ly; ly_image ly] ++ (if String.eqb (ly_home ly) "" then [] else [ly_home ly])
  | Err _ => []
  end.
Lemma idmappedLayers_att p m home uid gid : gives (att_weight p) (idmappedLayers m home uid gid) (λ r, times p (attached_dirs r)).
Proof.
  unfold idmappedLayers. apply (gives_io _ _ _ (λ _, 0)); [answers|intros st|done].
  apply (gives_io _ _ _ (λ _, 0)); [answers|intros [rootNS sharesNS]|done].
  apply (gives_finally _ _ _ (λ r, times p (attached_dirs r)) _ 0); [|answers|intros; lia].
  apply (gives_bind _ _ _ _ _ (attach_layers_att p _ [])). intros [[[]|e] l]; cbn [fst snd]; cbv beta.
  - destruct st as [k|]; [destruct (bool_decide _)|]; cbn; try change (String.eqb homeLowerDir "") with false; cbn; lia.
  - apply (gives_bind _ _ _ _ _ (detach_all_att p l)). intros []. cbn. intros []. lia.
Qed.

(** ID mapping leaves nothing behind. Whatever the kernel answers, after
    the assembly of the ID-mapped layers every descriptor is open as often as
    before, apart from the returned user namespace of a success, and a detached
    mount that a failed assembly attached has been unmounted again; mounting a
    share closes every descriptor it opens, and replacing the root closes every
    one but the user namespace it returns. *)
Theorem idmap_leaves_nothing env h m home uid gid s acct mapper fd p :
  let layers := exec env (idmappedLayers m home uid gid) h in
  let share := exec env (mountShare s acct mapper) h in
  let root := exec env (idmapRoot m home uid gid) h in
  weight (fd_weight fd) layers.2 = weight (fd_weight fd) h + mapper_returned fd layers.1 ∧
  weight (att_weight p) layers.2 = weight (att_weight p) h + times p (attached_dirs layers.1) ∧
  weight (fd_weight fd) share.2 = weight (fd_weight fd) h ∧
  weight (fd_weight fd) root.2 = weight (fd_weight fd) h + returned fd root.1.
Proof.
  split_and!.
  - exact (gives_exec _ _ _ env h (idmappedLayers_fds fd m home uid gid)).
  - exact (gives_exec _ _ _ env h (idmappedLayers_att p m home uid gid)).
  - rewrite -(Z.add_0_r (weight _ h)). exact (gives_exec _ _ (λ _, 0) env h (mountShare_fds fd s acct mapper)).
  - exact (gives_exec _ _ _ env h (idmapRoot_fds fd m home uid gid)).
Qed.
