(* ===== verification/GuestLive.v ===== *)
(** * The reloadable state of the guest

    [src/internal/guest/live_linux.go], [agent_linux.go] and
    [hostports_linux.go]: the CA bundle, the relays of the SSH and gpg agents,
    the loopback mirrors of the host ports and the snapshot binds, which a
    request of the host changes while the guest runs. The functions that stop a
    relay are values: the listeners, and the socket to remove. *)

From S2P Require Import Prelude GoStrings GoStrconv GoPath GuestSys Accounts Prog GuestCalls GuestMounts.
Open Scope string_scope.
Open Scope list_scope.
Open Scope Z_scope.

Definition systemCA : string := "/etc/ssl/certs/ca-certificates.crt".
Definition originalCA : string := "/run/jailoc-system-ca.crt".
Definition ReloadFile : string := "reload.json".
Definition ReloadDoneFile : string := "reload-done.json".
Definition SSHAgentSocket : string := "/run/ssh-agent.sock".
Definition SSHAgentPort : Z := 7022.
Definition GPGAgentPort : Z := 7023.
Definition mode_600 : Z := 384.

Record Reload := { r_Seq : Z; r_CABundle : string; r_SSHAgent : bool; r_GPGAgent : bool; r_HostPorts : list Z; r_Snapshots : list Snapshot }.
Record ReloadDone := { rd_Seq : Z; rd_Error : string }.

(** ** Relays *)

Section Live.
(** The gateway of the network library, and [encoding/json]. *)
Context (GatewayIP : string) (decode : string → option Reload) (encode : ReloadDone → string) (show : gerr → string).

Record relay := { rl_listener : Z; rl_sock : string }.
Definition JoinHostPort (host port : string) : string :=
  if has_char ":" host then "[" +:+ host +:+ "]:" +:+ port else host +:+ ":" +:+ port.
Definition close_on_error {A} (l : Z) (m : gio A) : gio A := or_else m (call (CloseListener l)).
Definition startSocketRelay (acct : account) (sock : string) (port : Z) (name : string) : gio relay :=
  r ← run (call (Remove sock));
  _ ← match (r : result errno ()) with
      | Ok _ => mret ()
      | Err e => check (bool_decide (e = ENOENT)) (Errorf "remove stale socket" name (Sys e))
      end;
  l ← sysf "listen" name (call (Listen "unix" sock));
  _ ← close_on_error l (errf "" name (chown sock acct));
  _ ← close_on_error l (sysf "chmod socket" name (call (Chmod sock mode_600)));
  _ ← run (call (ServeRelay l (JoinHostPort GatewayIP (Itoa port))));
  mret {| rl_listener := l; rl_sock := sock |}.
Definition stop_relay (r : relay) : gprog () :=
  Do (CancelRelay (rl_listener r)) (λ _, Do (CloseListener (rl_listener r)) (λ _, discard (call (Remove (rl_sock r))))).
Definition startAgentRelay (acct : account) : gio relay := startSocketRelay acct SSHAgentSocket SSHAgentPort "ssh agent".
Definition gpgAgentSocket (uid : Z) : string := "/run/user/" +:+ fmt_nat uid +:+ "/gnupg/S.gpg-agent".
Definition startGPGAgentRelay (acct : account) : gio relay :=
  let sock := gpgAgentSocket (a_uid acct) in
  let runtimeDir := Dir (Dir sock) in
  _ ← sysf "gpg agent: create" (Dir runtimeDir) (call (MkdirAll (Dir runtimeDir) mode_755));
  _ ← for_each (λ dir, errf "gpg agent" "" (ownedDir dir acct mode_700)) [runtimeDir; Dir sock];
  startSocketRelay acct sock GPGAgentPort "gpg agent".

(** A mirror by its listeners, the one on the IPv4 loopback first. *)
Definition startHostPortMirror (port : Z) : gio (list Z) :=
  let p := Itoa port in
  l4 ← sysf "host port: listen on loopback" p (call (Listen "tcp" (JoinHostPort "127.0.0.1" p)));
  r6 ← run (call (Listen "tcp" (JoinHostPort "::1" p)));
  let listeners := l4 :: match (r6 : result errno Z) with Ok l6 => [l6] | Err _ => [] end in
  _ ← for_each (λ l, run (call (ServeRelay l (JoinHostPort GatewayIP p)))) listeners;
  mret listeners.
Fixpoint close_all (l : list Z) : gprog () :=
  match l with [] => Ret () | x :: l => Do (CloseListener x) (λ _, close_all l) end.
Definition stop_mirror (ls : list Z) : gprog () :=
  match ls with [] => Ret () | l :: _ => Do (CancelRelay l) (λ _, close_all ls) end.

(** ** The state *)

Record liveState := {
  l_seq : Z; l_applied : option Reload;
  l_stopAgent : option relay; l_stopGPG : option relay;
  l_hostPorts : gmap Z (list Z);
  l_snapshots : list Snapshot; l_mounts : list Z; l_created : gset string }.
Local Notation lio := (sio liveState gcall answer gerr).
Definition set_relays (a g : option relay) (l : liveState) : liveState :=
  {| l_seq := l_seq l; l_applied := l_applied l; l_stopAgent := a; l_stopGPG := g; l_hostPorts := l_hostPorts l;
     l_snapshots := l_snapshots l; l_mounts := l_mounts l; l_created := l_created l |}.
Definition set_ports (ps : gmap Z (list Z)) (l : liveState) : liveState :=
  {| l_seq := l_seq l; l_applied := l_applied l; l_stopAgent := l_stopAgent l; l_stopGPG := l_stopGPG l; l_hostPorts := ps;
     l_snapshots := l_snapshots l; l_mounts := l_mounts l; l_created := l_created l |}.
Definition set_binds (ss : list Snapshot) (ms : list Z) (cs : gset string) (l : liveState) : liveState :=
  {| l_seq := l_seq l; l_applied := l_applied l; l_stopAgent := l_stopAgent l; l_stopGPG := l_stopGPG l; l_hostPorts := l_hostPorts l;
     l_snapshots := ss; l_mounts := ms; l_created := cs |}.
Definition set_applied (seq : Z) (r : option Reload) (l : liveState) : liveState :=
  {| l_seq := seq; l_applied := r; l_stopAgent := l_stopAgent l; l_stopGPG := l_stopGPG l; l_hostPorts := l_hostPorts l;
     l_snapshots := l_snapshots l; l_mounts := l_mounts l; l_created := l_created l |}.

(** ** Snapshots *)

Definition unbind_one (next : list Snapshot) (sm : Snapshot * Z) : lio () :=
  let target := sn_Target sm.1 in
  _ ← slift (errf "snapshot: unmount" target (unmountSnapshot sm.2));
  _ ← smod (λ l, set_binds (removelast (l_snapshots l)) (removelast (l_mounts l)) (l_created l) l);
  cs ← sget l_created;
  if bool_decide (target ∈ (cs : gset string)) && negb (existsb (λ s, String.eqb (sn_Target s) target) next) then
    _ ← srun (discard (call (Remove target)));
    smod (λ l, set_binds (l_snapshots l) (l_mounts l) (l_created l ∖ {[target]}) l)
  else mret ().
Definition bind_one (acct : account) (s : Snapshot) : lio () :=
  r ← srun (bindSnapshot s acct);
  let '(created, fd) := (r : bool * result gerr Z) in
  _ ← smod (λ l, if created then set_binds (l_snapshots l) (l_mounts l) ({[sn_Target s]} ∪ l_created l) l else l);
  match fd with
  | Err e => sthrow e
  | Ok n => smod (λ l, set_binds (l_snapshots l ++ [s]) (l_mounts l ++ [n]) (l_created l) l)
  end.
Definition setSnapshots (acct : account) (next : list Snapshot) : lio () :=
  bound ← sget (λ l, zip (l_snapshots l) (l_mounts l));
  _ ← seach (unbind_one next) (rev bound);
  seach (bind_one acct) next.

(** ** Host ports *)

Definition stop_port (ports : list Z) (pm : Z * list Z) : lio () :=
  if bool_decide (pm.1 ∈ ports) then mret ()
  else _ ← srun (stop_mirror pm.2); smod (λ l, set_ports (delete pm.1 (l_hostPorts l)) l).
Definition start_port (p : Z) : lio () :=
  ps ← sget l_hostPorts;
  match (ps : gmap Z (list Z)) !! p with
  | Some _ => mret ()
  | None => r ← srun (startHostPortMirror p);
            match (r : result gerr (list Z)) with
            | Ok ls => smod (λ l, set_ports (<[p := ls]> (l_hostPorts l)) l)
            | Err _ => mret ()
            end
  end.
(** [range] over the map: the order does not matter. *)
Definition setHostPorts (ports : list Z) : lio () :=
  ps ← sget (λ l, map_to_list (l_hostPorts l));
  _ ← seach (stop_port ports) ps;
  seach start_port ports.

(** ** The CA bundle *)

Definition workspace_bundle (path : string) : gio (option string) :=
  if String.eqb path "" then mret None else
  r ← run (call (ReadFile path));
  match (r : result errno string) with
  | Ok extra => mret (if String.eqb (TrimSpace extra) "" then None else Some extra)
  | Err e => if bool_decide (e = ENOENT) then mret None else throw (Errorf "read CA bundle" path (Sys e))
  end.
Definition original_bundle : gio string :=
  r ← run (call (ReadFile originalCA));
  match (r : result errno string) with
  | Ok orig => mret orig
  | Err e =>
      if negb (bool_decide (e = ENOENT)) then throw (Errorf "read" originalCA (Sys e)) else
      r ← run (call (ReadFile systemCA));
      orig ← match (r : result errno string) with
             | Ok o => mret o
             | Err e => if bool_decide (e = ENOENT) then mret "" else throw (Errorf "read" systemCA (Sys e))
             end;
      _ ← sysf "save original CA bundle" "" (call (WriteFile originalCA orig mode_644));
      mret orig
  end.
Definition bundle (orig : string) (extra : option string) : string :=
  match extra with Some e => orig +:+ newline +:+ e | None => orig end.
Definition install_bundle (content : string) : gio () :=
  current ← run (call (ReadFile systemCA));
  if (match (current : result errno string) with Ok c => String.eqb c content | Err _ => false end) then mret () else
  _ ← sysf "create" (Dir systemCA) (call (MkdirAll (Dir systemCA) mode_755));
  _ ← sysf "write CA bundle" "" (call (WriteFile (systemCA +:+ ".jailoc") content mode_644));
  sysf "install CA bundle" "" (call (Rename (systemCA +:+ ".jailoc") systemCA)).
Definition setCABundle (path : string) : gio () :=
  orig ← original_bundle;
  extra ← workspace_bundle path;
  install_bundle (bundle orig extra).

(** ** Reloads *)

Definition switch_relay (want : bool) (start : gio relay) (get : liveState → option relay) (set : option relay → liveState → liveState) : lio () :=
  cur ← sget get;
  match want, (cur : option relay) with
  | true, None => r ← slift start; smod (set (Some r))
  | false, Some r => _ ← srun (stop_relay r); smod (set None)
  | _, _ => mret ()
  end.
Definition apply (acct : account) (r : Reload) : lio () :=
  _ ← slift (setCABundle (r_CABundle r));
  cur ← sget l_snapshots;
  _ ← (if bool_decide (r_Snapshots r = (cur : list Snapshot)) then mret () else setSnapshots acct (r_Snapshots r));
  _ ← switch_relay (r_SSHAgent r) (startAgentRelay acct) l_stopAgent (λ a l, set_relays a (l_stopGPG l) l);
  _ ← switch_relay (r_GPGAgent r) (startGPGAgentRelay acct) l_stopGPG (λ g l, set_relays (l_stopAgent l) g l);
  _ ← setHostPorts (r_HostPorts r);
  smod (λ l, set_applied (l_seq l) (Some r) l).
Definition done_tmp : string := JoinPath [ControlDir; ReloadDoneFile +:+ ".tmp"].
Definition answer_reload (done : ReloadDone) : gprog () :=
  Do (WriteFile done_tmp (encode done) mode_600) (λ r : result errno (),
    match r with Ok _ => discard (call (Rename done_tmp (JoinPath [ControlDir; ReloadDoneFile]))) | Err _ => Ret () end).
Definition poll (acct : account) (l : liveState) : gprog liveState :=
  Do (ReadFile (JoinPath [ControlDir; ReloadFile])) (λ data : result errno string,
    match data with
    | Err _ => Ret l
    | Ok text =>
        match decode text with
        | None => Ret l
        | Some r =>
            if r_Seq r =? l_seq l then Ret l else
            pbind (λ rs : result gerr () * liveState,
              pbind (λ _, Ret rs.2)
                (answer_reload {| rd_Seq := r_Seq r; rd_Error := match rs.1 with Ok _ => "" | Err e => show e end |}))
              (apply acct r (set_applied (r_Seq r) (l_applied l) l))
        end
    end).
End Live.

(** ** What the state remembers *)

Notation lio := (sio liveState gcall answer gerr).

Ltac file_call := apply calls_io; [by repeat (first [done | intros [] | split])|].
Lemma setCABundle_files path : calls on_files (setCABundle path).
Proof.
  apply calls_io; [|intros o; apply calls_io; [|intros e]].
  - file_call. intros [o|e]; [done|]. destruct (negb _); [done|]. file_call. intros [o|e']; [|destruct (bool_decide _)]; try done.
    all: by repeat (first [done | intros [] | split]).
  - unfold workspace_bundle. destruct (String.eqb path ""); [done|]. file_call. intros [x|e]; [done|]. by destruct (bool_decide _).
  - unfold install_bundle. file_call. intros r. destruct (match r with Ok _ => _ | Err _ => _ end); [done|]. by repeat (first [done | intros [] | split]).
Qed.
(** The calls of the relays and mirrors. *)
Definition on_relays (c : gcall) : Prop :=
  match c with Listen _ _ | ServeRelay _ _ | CancelRelay _ | CloseListener _ => True | _ => on_files c end.
Lemma files_relays c : on_files c → on_relays c.
Proof. by destruct c. Qed.
Lemma startSocketRelay_calls gw acct sock port name : calls on_relays (startSocketRelay gw acct sock port name).
Proof. cbn. repeat (first [done | intros [] | split]). all: cbn; try destruct (bool_decide _); repeat (first [done | intros [] | split]). Qed.
Lemma startHostPortMirror_calls gw p : calls on_relays (startHostPortMirror gw p).
Proof. cbn. repeat (first [done | intros [] | split]). Qed.
Lemma stop_mirror_calls ls : calls on_relays (stop_mirror ls).
Proof. destruct ls as [|l ls]; [done|]. cbn [stop_mirror]. split; [done|]. intros []. induction (l :: ls) as [|x xs IH]; [done|]. by split. Qed.

(** *** Mounted snapshots *)

(** A detached mount is named by its descriptor, so it is counted by the path
    [unmountSnapshot] uses; the kernel says [EINVAL] for one that is gone. *)
Definition snap_weight (t : string) (i : gitem) : Z :=
  match i with existT c x =>
    match c as c return answer c → Z with
    | MoveMount n (AtFd _) => λ r, if isOk r then Z.b2z (String.eqb (proc_fd n) t) else 0
    | Unmount q true => λ r, match r with Ok _ => - Z.b2z (String.eqb q t) | Err e => if bool_decide (e = EINVAL) then - Z.b2z (String.eqb q t) else 0 end
    | _ => λ _, 0
    end x
  end.
Fixpoint mounted (t : string) (ms : list Z) : Z := match ms with [] => 0 | n :: ms => Z.b2z (String.eqb (proc_fd n) t) + mounted t ms end.
Lemma mounted_app t a b : mounted t (a ++ b) = mounted t a + mounted t b.
Proof. induction a as [|n a IH]; cbn; lia. Qed.
Lemma relays_snap t {A} (p : gprog A) : calls on_relays p → gives (snap_weight t) p (λ _, 0).
Proof. apply calls_gives; [|done]. by intros []. Qed.
Lemma files_snap t {A} (p : gprog A) : calls on_files p → gives (snap_weight t) p (λ _, 0).
Proof. intros H. apply relays_snap, (calls_mono _ _ _ files_relays), H. Qed.
Definition snap_returned (t : string) (r : result gerr Z) : Z := match r with Ok n => Z.b2z (String.eqb (proc_fd n) t) | Err _ => 0 end.
Lemma bindReadOnly_snap t source target dir : gives (snap_weight t) (bindReadOnly source target dir) (snap_returned t).
Proof.
  unfold bindReadOnly. apply (gives_io _ _ _ (λ _, 0)); [answers| |done]. intros dst.
  apply (gives_finally _ _ _ (snap_returned t) _ 0); [|answers|intros; cbn; lia].
  apply (gives_io _ _ _ (λ _, 0)); [answers|intros k|done].
  apply (gives_io _ _ _ (λ _, 0)); [by apply gives_check|intros []|done]. cbn. repeat (let x := fresh in intros [x|x]; cbn; try lia); try (intros []; cbn; lia).
Qed.
Lemma bindSnapshot_snap t c acct : gives (snap_weight t) (bindSnapshot c acct) (λ r, snap_returned t r.2).
Proof.
  unfold bindSnapshot. apply (gives_bind _ _ _ (λ _, 0)).
  - apply (gives_io _ _ _ (λ _, 0)); [answers|intros k|done].
    apply (gives_io _ _ _ (λ _, 0)); [apply files_snap, calls_wrap, makeParents_files|intros []|done].
    apply (gives_io _ _ _ (λ _, 0)); [answers|intros l|done].
    apply (gives_io _ _ _ (λ _, 0)); [apply files_snap, calls_wrap, mountPoint_files|intros []; cbn; lia|done].
  - intros [[dir created]|e]; [|cbn; lia]. apply (gives_bind _ _ _ (snap_returned t)); [|intros [n|e]; cbn; lia].
    apply (gives_wrap _ _ _ (snap_returned t)); [apply bindReadOnly_snap|done|done].
Qed.
Lemma unmountSnapshot_snap t n : gives (snap_weight t) (unmountSnapshot n) (λ r, match r with Ok _ => - Z.b2z (String.eqb (proc_fd n) t) | Err _ => 0 end).
Proof. cbn. intros [|e]; cbn; [intros; lia|]. destruct (bool_decide _); cbn; intros; lia. Qed.

(** One step of the clean-up, on a state whose last bound snapshot is [s]. *)
Definition unbound (l : liveState) (r : result gerr ()) (l' : liveState) : Prop :=
  match r with
  | Ok _ => l_snapshots l' = removelast (l_snapshots l) ∧ l_mounts l' = removelast (l_mounts l)
  | Err _ => l_snapshots l' = l_snapshots l ∧ l_mounts l' = l_mounts l
  end.
Lemma unbind_one_returns next sm l : returns (unbind_one next sm l) (λ rs, unbound l rs.1 rs.2).
Proof.
  unfold unbind_one, mbind, sio_bind. cbn. intros [[]|e]; cbn; [intros []|destruct (bool_decide _); cbn; intros []; [|done]].
  all: destruct (_ && _); cbn; [by intros ?|done].
Qed.
Lemma unbind_one_snap t next s n l ms :
  l_mounts l = ms ++ [n] →
  gives (snap_weight t) (unbind_one next (s, n) l) (λ rs, mounted t (l_mounts rs.2) - mounted t (l_mounts l)).
Proof.
  intros Hm. unfold unbind_one, mbind, sio_bind. cbn. rewrite Hm.
  assert (mounted t (ms ++ [n]) = mounted t ms + Z.b2z (String.eqb (proc_fd n) t)) as Hc by (rewrite mounted_app; cbn; lia).
  intros [[]|e]; cbn; [intros []|case_bool_decide; cbn; intros []; [|cbn; rewrite Hm; lia]].
  all: destruct (_ && _); cbn; [intros ?; cbn|]; rewrite Hm removelast_last Hc; lia.
Qed.
Definition remembers (L : list (Snapshot * Z)) (l : liveState) : Prop :=
  l_snapshots l = map fst (rev L) ∧ l_mounts l = map snd (rev L).
Lemma unbind_step next s n L l : remembers ((s, n) :: L) l →
  returns (unbind_one next (s, n) l) (λ rs, match rs.1 with Ok _ => remembers L rs.2 | Err e => remembers ((s, n) :: L) rs.2 end).
Proof.
  intros [H1 H2]. apply (returns_mono _ _ _ (unbind_one_returns next (s, n) l)). intros [[[]|e] l'] [E1 E2]; cbn in *; unfold remembers.
  - rewrite E1 E2 H1 H2. cbn [rev]. by rewrite !map_app !removelast_last.
  - by rewrite E1 E2.
Qed.
Definition wf (l : liveState) : Prop := length (l_mounts l) = length (l_snapshots l).
Lemma remembers_zip l : wf l → remembers (rev (zip (l_snapshots l) (l_mounts l))) l.
Proof.
  unfold wf, remembers. rewrite rev_involutive. intros H. change (map ?f ?x) with (f <$> x). rewrite fst_zip; [|lia]. rewrite snd_zip; [done|lia].
Qed.
Lemma remembers_wf L l : remembers L l → wf l.
Proof. unfold wf. intros [-> ->]. by rewrite !length_map. Qed.
Lemma unbind_all_returns next L l : remembers L l →
  returns (seach (unbind_one next) L l) (λ rs, wf rs.2 ∧ (rs.1 = Ok () → l_snapshots rs.2 = [] ∧ l_mounts rs.2 = [])).
Proof.
  intros H. apply (returns_seach _ _ _ remembers (λ r s, wf s ∧ (r = Ok () → l_snapshots s = [] ∧ l_mounts s = [])) H).
  - intros [s n] L' l' H'. apply (returns_mono _ _ _ (unbind_step next s n L' l' H')). intros [[[]|e] l'']; [done|]. cbn. intros Hr. split; [exact (remembers_wf _ _ Hr)|done].
  - intros s [H1 H2]. split; [by unfold wf; rewrite H1 H2|done].
Qed.
Lemma unbind_all_snap t next L l : remembers L l →
  gives (snap_weight t) (seach (unbind_one next) L l) (λ rs, mounted t (l_mounts rs.2) - mounted t (l_mounts l)).
Proof.
  intros H. apply (gives_seach _ _ _ _ remembers (λ l, mounted t (l_mounts l)) H). intros [s n] L' l' H'. split.
  - apply (returns_mono _ _ _ (unbind_step next s n L' l' H')). by intros [[[]|e] l''].
  - destruct H' as [_ H2]. apply (unbind_one_snap t next s n l' (map snd (rev L'))). rewrite H2. cbn [rev]. by rewrite map_app.
Qed.
Lemma bind_one_snap t acct s l :
  gives (snap_weight t) (bind_one acct s l) (λ rs, mounted t (l_mounts rs.2) - mounted t (l_mounts l)).
Proof.
  apply (gives_srun _ _ _ _ _ _ (bindSnapshot_snap t s acct)). intros [created [n|e]]; unfold mbind, sio_bind; cbn; destruct created; cbn; rewrite ?mounted_app; cbn; lia.
Qed.
Lemma bind_one_returns acct s l : returns (bind_one acct s l) (λ rs,
  match rs.1 with
  | Ok _ => l_snapshots rs.2 = l_snapshots l ++ [s] ∧ length (l_mounts rs.2) = S (length (l_mounts l))
  | Err _ => l_snapshots rs.2 = l_snapshots l ∧ l_mounts rs.2 = l_mounts l
  end).
Proof.
  apply (returns_srun _ _ _ _ _ (returns_true _)). intros [created [n|e]] _; unfold mbind, sio_bind; cbn; destruct created; cbn; rewrite ?length_app; cbn; split; done || lia.
Qed.
Lemma setSnapshots_returns acct next l : wf l →
  returns (setSnapshots acct next l) (λ rs, wf rs.2 ∧ (rs.1 = Ok () → l_snapshots rs.2 = next)).
Proof.
  intros H. apply (returns_sio _ _ _ (λ r s, wf s ∧ (r = Ok () → l_snapshots s = [] ∧ l_mounts s = []))
    (λ r s, wf s ∧ (r = Ok () → l_snapshots s = next))); [apply unbind_all_returns, remembers_zip, H| |].
  - intros [] s [Hw Hs]. destruct (Hs eq_refl) as [E1 E2].
    apply (returns_seach _ _ _ (λ rest s, wf s ∧ l_snapshots s ++ rest = next) (λ r s, wf s ∧ (r = Ok () → l_snapshots s = next))).
    + split; [done|]. by rewrite E1.
    + intros x rest s' [Hw' Hn]. apply (returns_mono _ _ _ (bind_one_returns acct x s')). unfold wf in *. intros [[[]|e] s''] [F1 F2]; cbn in *.
      * rewrite F1 F2 length_app Hw' -assoc. split; [cbn; lia|done].
      * by rewrite F1 F2.
    + intros s' [Hw' Hn]. rewrite app_nil_r in Hn. by split.
  - intros e s [Hw _]. by split.
Qed.
Lemma setSnapshots_snap t acct next l : wf l →
  gives (snap_weight t) (setSnapshots acct next l) (λ rs, mounted t (l_mounts rs.2) - mounted t (l_mounts l)).
Proof.
  intros H. apply (gives_sio _ _ _ _ _ _ (unbind_all_snap t next _ l (remembers_zip l H))); [|intros; cbn; lia]. intros [] s'.
  eapply gives_eq; [|apply (gives_seach _ _ _ _ (λ _ _, True) (λ l, mounted t (l_mounts l))); [done|]].
  - intros rs. cbn. lia.
  - intros x rest s'' _. split; [apply (returns_mono _ _ _ (returns_true _)); by intros [[] ?]|apply bind_one_snap].
Qed.

(** *** Listeners *)

Definition lis_weight (n : Z) (i : gitem) : Z :=
  match i with existT c x =>
    match c as c return answer c → Z with
    | Listen _ _ => λ r, match r with Ok l => Z.b2z (l =? n) | Err _ => 0 end
    | CloseListener l => λ _, - Z.b2z (l =? n)
    | _ => λ _, 0
    end x
  end.
(** The calls of the snapshots. *)
Definition on_mounts (c : gcall) : Prop :=
  match c with
  | OpenPath _ | FstatKind _ | Close _ | OpenTree _ | SetReadOnly _ | MoveMount _ (AtFd _) | Unmount _ _ => True
  | _ => on_files c
  end.
Lemma files_mounts c : on_files c → on_mounts c.
Proof. by destruct c. Qed.
Lemma mounts_lis n {A} (p : gprog A) : calls on_mounts p → gives (lis_weight n) p (λ _, 0).
Proof. apply calls_gives; [|done]. by intros []. Qed.
Lemma files_lis n {A} (p : gprog A) : calls on_files p → gives (lis_weight n) p (λ _, 0).
Proof. intros H. apply mounts_lis, (calls_mono _ _ _ files_mounts), H. Qed.
Fixpoint count (n : Z) (ls : list Z) : Z := match ls with [] => 0 | l :: ls => Z.b2z (l =? n) + count n ls end.
Definition relay_count (n : Z) (r : option relay) : Z := match r with Some r => Z.b2z (rl_listener r =? n) | None => 0 end.
Definition ports_count (n : Z) (m : gmap Z (list Z)) : Z := map_fold (λ _ ls k, count n ls + k) 0 m.
(** The listeners the state holds. *)
Definition held (n : Z) (l : liveState) : Z := relay_count n (l_stopAgent l) + relay_count n (l_stopGPG l) + ports_count n (l_hostPorts l).

Lemma ports_count_insert n p ls m : m !! p = None → ports_count n (<[p := ls]> m) = count n ls + ports_count n m.
Proof. intros H. apply (map_fold_insert_L (λ _ ls k, count n ls + k)); [intros; lia|done]. Qed.
Lemma ports_count_delete n p ls m : m !! p = Some ls → ports_count n (delete p m) = ports_count n m - count n ls.
Proof. intros H. rewrite -{2}(insert_delete_id m p ls H) ports_count_insert; [lia|apply lookup_delete_eq]. Qed.

Lemma bindSnapshot_calls c acct : calls on_mounts (bindSnapshot c acct).
Proof.
  apply calls_bind.
  - apply calls_io; [by split; [|intros []]|intros k].
    apply calls_io; [apply calls_wrap, (calls_mono _ _ _ files_mounts), makeParents_files|intros []].
    apply calls_io; [by split; [|intros []]|intros l].
    apply calls_io; [apply calls_wrap, (calls_mono _ _ _ files_mounts), mountPoint_files|done].
  - intros [[dir created]|e]; [|done]. apply calls_bind; [|done]. apply calls_wrap. unfold bindReadOnly.
    apply calls_io; [by split; [|intros []]|intros dst]. apply calls_bind; [|by split].
    apply calls_io; [by split; [|intros []]|intros k]. apply calls_io; [by destruct (bool_decide _)|intros []].
    by repeat (first [done | intros [] | split]).
Qed.
Lemma unbind_one_calls next sm l : calls on_mounts (unbind_one next sm l).
Proof.
  unfold unbind_one, mbind, sio_bind. cbn. split; [done|]. intros [[]|e]; cbn; [|destruct (bool_decide _)]; cbn; (split; [done|]); intros []; [| |done].
  all: destruct (_ && _); [by split|done].
Qed.
Lemma calls_seach P {A} (f : A → lio ()) xs s : (∀ x s, calls P (f x s)) → calls P (seach f xs s).
Proof.
  intros Hf. revert s. induction xs as [|x xs IH]; intros s; [done|]. apply calls_bind; [apply Hf|]. intros [[[]|e] s']; [apply IH|done].
Qed.
Lemma setSnapshots_calls acct next l : calls on_mounts (setSnapshots acct next l).
Proof.
  apply calls_bind; [done|]. intros [[bound|e] s0]; [|done]. apply calls_bind; [apply calls_seach; intros; apply unbind_one_calls|].
  intros [[[]|e] s]; [|done]. apply calls_seach. intros s1 s'.
  unfold bind_one, mbind, sio_bind. apply calls_bind; [apply calls_bind; [apply bindSnapshot_calls|done]|]. intros [[[created [m|e]]|e] s'']; cbn; [by destruct created..|done].
Qed.
Lemma setSnapshots_lis n acct next l : gives (lis_weight n) (setSnapshots acct next l) (λ _, 0).
Proof. apply mounts_lis, setSnapshots_calls. Qed.

(** What the snapshots leave alone. *)
Definition same_services (l l' : liveState) : Prop :=
  l_stopAgent l' = l_stopAgent l ∧ l_stopGPG l' = l_stopGPG l ∧ l_hostPorts l' = l_hostPorts l ∧ l_applied l' = l_applied l.
Lemma setSnapshots_eq acct next l :
  setSnapshots acct next l = (_ ← seach (unbind_one next) (rev (zip (l_snapshots l) (l_mounts l))); seach (bind_one acct) next) l.
Proof. done. Qed.
Lemma setSnapshots_services acct next l : returns (setSnapshots acct next l) (λ rs, same_services l rs.2).
Proof.
  assert (∀ A (f : A → lio ()) xs s, (∀ x s, returns (f x s) (λ rs, same_services s rs.2)) → same_services l s →
    returns (seach f xs s) (λ rs, same_services l rs.2)) as Heach.
  { intros A f xs s Hf Hs. apply (returns_seach _ _ _ (λ _ s, same_services l s) (λ _ s, same_services l s)); [done| |done].
    intros x rest s' Hs'. apply (returns_mono _ _ _ (Hf x s')). unfold same_services in *. intros [[?|?] s'']; cbn; intros (-> & -> & -> & ->); exact Hs'. }
  rewrite setSnapshots_eq. apply (returns_sio _ _ _ (λ _ s, same_services l s) (λ _ s, same_services l s)); [apply Heach; [|done]| |done].
  - intros sm s. unfold unbind_one, mbind, sio_bind. cbn. intros [[]|e]; cbn; [|destruct (bool_decide _)]; cbn; intros []; [| |done].
    all: destruct (_ && _); cbn; [by intros ?|done].
  - intros [] s' Hs'. apply Heach; [|done]. intros x s. apply (returns_srun _ _ _ _ _ (returns_true _)).
    intros [created [n|e]] _; unfold mbind, sio_bind; cbn; by destruct created.
Qed.

Section Reload.
Context (gw : string) (decode : string → option Reload) (encode : ReloadDone → string) (show : gerr → string).

Lemma startSocketRelay_lis n acct sock port name :
  gives (lis_weight n) (startSocketRelay gw acct sock port name) (λ r, match r with Ok rl => relay_count n (Some rl) | Err _ => 0 end).
Proof.
  cbn. intros x. destruct x as [u|e]; [|destruct (bool_decide _); [|cbn; lia]]; repeat (first [progress intros [] | cbn]); lia.
Qed.
Lemma startGPGAgentRelay_lis n acct :
  gives (lis_weight n) (startGPGAgentRelay gw acct) (λ r, match r with Ok rl => relay_count n (Some rl) | Err _ => 0 end).
Proof.
  unfold startGPGAgentRelay. apply (gives_io _ _ _ (λ _, 0)); [by repeat (first [progress intros [] | cbn])|intros []|done].
  apply (gives_io _ _ _ (λ _, 0)); [|intros []|done].
  - apply files_lis, calls_each. intros x. apply calls_wrap, ownedDir_files.
  - eapply gives_eq; [|apply startSocketRelay_lis]. intros; cbn; lia.
Qed.
Lemma stop_relay_lis n r : gives (lis_weight n) (stop_relay r) (λ _, - relay_count n (Some r)).
Proof. cbn. intros [] [] []; cbn; lia. Qed.
Lemma close_all_lis n ls : gives (lis_weight n) (close_all ls) (λ _, - count n ls).
Proof. induction ls as [|l ls IH]; cbn; [done|]. intros []. eapply gives_eq; [|exact IH]. intros; cbn; lia. Qed.
Lemma stop_mirror_lis n ls : gives (lis_weight n) (stop_mirror ls) (λ _, - count n ls).
Proof.
  destruct ls as [|l ls]; [done|]. cbn [stop_mirror]. cbn [gives]. intros []. eapply gives_eq; [|apply close_all_lis]. intros; cbn; lia.
Qed.
Lemma startHostPortMirror_lis n p :
  gives (lis_weight n) (startHostPortMirror gw p) (λ r, match r with Ok ls => count n ls | Err _ => 0 end).
Proof.
  unfold startHostPortMirror.
  apply (gives_io _ _ _ (λ r, match r with Ok l => Z.b2z (l =? n) | Err _ => 0 end)); [intros []; cbn; lia| |done]. intros l4.
  cbn. intros [l6|e]; repeat (first [progress intros [] | cbn]); lia.
Qed.
Definition ports_are (L : list (Z * list Z)) (l : liveState) : Prop :=
  NoDup L.*1 ∧ ∀ p ls, (p, ls) ∈ L → l_hostPorts l !! p = Some ls.
(** What the host ports leave alone. *)
Definition same_binds (l l' : liveState) : Prop :=
  l_stopAgent l' = l_stopAgent l ∧ l_stopGPG l' = l_stopGPG l ∧ l_snapshots l' = l_snapshots l ∧ l_mounts l' = l_mounts l ∧ l_applied l' = l_applied l.
Lemma stop_port_returns ports p ls L l : ports_are ((p, ls) :: L) l →
  returns (stop_port ports (p, ls) l) (λ rs, rs.1 = Ok () ∧ ports_are L rs.2 ∧
    l_hostPorts rs.2 = (if bool_decide (p ∈ ports) then l_hostPorts l else delete p (l_hostPorts l)) ∧ same_binds l rs.2).
Proof.
  intros [Hn Hl]. cbn in Hn. apply NoDup_cons in Hn as [Hp Hn]. unfold stop_port. cbn [fst snd].
  destruct (bool_decide (p ∈ ports)).
  - cbn. split; [done|]. split; [|done]. split; [done|]. intros q qs Hq. apply Hl. by right.
  - apply (returns_srun _ _ _ _ _ (returns_true _)). intros [] _. cbn. split; [done|]. split; [|done]. split; [done|]. intros q qs Hq. cbn.
    rewrite lookup_delete_ne; [apply Hl; by right|]. intros ->. apply Hp. apply list_elem_of_fmap. by exists (q, qs).
Qed.
Lemma stop_port_lis n ports p ls l : l_hostPorts l !! p = Some ls →
  gives (lis_weight n) (stop_port ports (p, ls) l) (λ rs, held n rs.2 - held n l).
Proof.
  intros Hp. unfold stop_port. cbn [fst snd]. destruct (bool_decide (p ∈ ports)); [cbn; lia|].
  apply (gives_srun _ _ _ _ _ _ (stop_mirror_lis n ls)). intros []. cbn. unfold held. cbn. rewrite (ports_count_delete n p ls _ Hp). lia.
Qed.
Lemma start_port_returns p l :
  returns (start_port gw p l) (λ rs, rs.1 = Ok () ∧ same_binds l rs.2 ∧
    (l_hostPorts rs.2 = l_hostPorts l ∨ l_hostPorts l !! p = None ∧ ∃ ls, l_hostPorts rs.2 = <[p := ls]> (l_hostPorts l))).
Proof.
  unfold start_port, mbind, sio_bind. cbn [pbind sget fst snd]. destruct (l_hostPorts l !! p) as [ls|] eqn:E; [by split_and!; try left|].
  apply (returns_srun _ _ _ _ _ (returns_true _)). intros [ls|e] _; cbn; split_and!; try done; [right|by left]. split; [done|]. by exists ls.
Qed.
Lemma start_port_lis n p l : gives (lis_weight n) (start_port gw p l) (λ rs, held n rs.2 - held n l).
Proof.
  unfold start_port, mbind, sio_bind. cbn [pbind sget fst snd]. destruct (l_hostPorts l !! p) as [ls|] eqn:E; [cbn; lia|].
  apply (gives_srun _ _ _ _ _ _ (startHostPortMirror_lis n p)). intros [ls|e]; cbn; [|lia]. unfold held. cbn. rewrite (ports_count_insert n p ls _ E). lia.
Qed.

Definition ports_settled (ports : list Z) (l l' : liveState) : Prop :=
  same_binds l l' ∧ (∀ p, is_Some (l_hostPorts l' !! p) → p ∈ ports) ∧
  ∀ p ls, p ∈ ports → l_hostPorts l !! p = Some ls → l_hostPorts l' !! p = Some ls.
Lemma same_binds_trans l1 l2 l3 : same_binds l1 l2 → same_binds l2 l3 → same_binds l1 l3.
Proof. unfold same_binds. intros (-> & -> & -> & -> & ->) (-> & -> & -> & -> & ->). done. Qed.
Lemma ports_are_all l : ports_are (map_to_list (l_hostPorts l)) l.
Proof. split; [apply NoDup_fst_map_to_list|]. intros p ls H. by apply elem_of_map_to_list. Qed.
Lemma setHostPorts_returns ports l : returns (setHostPorts gw ports l) (λ rs, rs.1 = Ok () ∧ ports_settled ports l rs.2).
Proof.
  set (stopping := λ (L : list (Z * list Z)) s, ports_are L s ∧ same_binds l s ∧
    (∀ p, is_Some (l_hostPorts s !! p) → p ∈ ports ∨ p ∈ L.*1) ∧
    ∀ p ls, p ∈ ports → l_hostPorts l !! p = Some ls → l_hostPorts s !! p = Some ls).
  apply (returns_sio _ _ _ (λ r s, r = Ok () ∧ stopping [] s) (λ r s, r = Ok () ∧ ports_settled ports l s)); [| |by intros e s [? _]].
  - apply (returns_seach _ _ _ stopping (λ r s, r = Ok () ∧ stopping [] s)).
    + split; [apply ports_are_all|]. split; [done|]. split; [|done]. intros p [ls Hp]. right. apply list_elem_of_fmap. exists (p, ls).
      split; [done|]. by apply elem_of_map_to_list.
    + intros [p ls] L s (Ha & Hb & Hk & Hold). apply (returns_mono _ _ _ (stop_port_returns ports p ls L s Ha)).
      intros [r s'] (-> & Ha' & E & Hb'). cbn [fst snd] in *. split; [done|]. split; [exact (same_binds_trans _ _ _ Hb Hb')|]. rewrite E. split.
      * intros q Hq. case_bool_decide as Hin.
        { destruct (Hk q Hq) as [?|H]; [by left|]. cbn in H. apply elem_of_cons in H as [->|H]; [by left|by right]. }
        destruct (decide (q = p)) as [->|Hne]; [rewrite lookup_delete_eq in Hq; by destruct Hq|].
        rewrite lookup_delete_ne in Hq; [|congruence]. destruct (Hk q Hq) as [?|H]; [by left|]. cbn in H. apply elem_of_cons in H as [?|H]; [done|by right].
      * intros q qs Hq H. case_bool_decide as Hin; [by apply Hold|]. rewrite lookup_delete_ne; [by apply Hold|]. by intros ->.
    + by intros s H.
  - intros [] s [_ (_ & Hb & Hk & Hold)].
    apply (returns_seach _ _ _ (λ L s, (∀ p, p ∈ L → p ∈ ports) ∧ ports_settled ports l s) (λ r s, r = Ok () ∧ ports_settled ports l s)).
    + split; [done|]. split; [done|]. split; [|done]. intros p Hp. destruct (Hk p Hp) as [?|H]; [done|]. by apply elem_of_nil in H.
    + intros p L s' (HL & Hb' & Hk' & Hold'). apply (returns_mono _ _ _ (start_port_returns p s')). intros [r s''] (-> & Hb'' & E). cbn [fst snd] in *.
      split; [intros q Hq; apply HL; by right|]. split; [exact (same_binds_trans _ _ _ Hb' Hb'')|].
      destruct E as [->|[En [ls ->]]]; [done|]. split.
      * intros q [x Hq]. destruct (decide (q = p)) as [->|Hne]; [apply HL; by left|]. apply Hk'. rewrite lookup_insert_ne in Hq; [|congruence]. by exists x.
      * intros q qs Hq Hl. rewrite lookup_insert_ne; [by apply Hold'|]. intros ->. rewrite (Hold' q qs Hq Hl) in En. done.
    + intros s' [_ H]. by split.
Qed.
Lemma setHostPorts_lis n ports l : gives (lis_weight n) (setHostPorts gw ports l) (λ rs, held n rs.2 - held n l).
Proof.
  assert (gives (lis_weight n) (seach (stop_port ports) (map_to_list (l_hostPorts l)) l) (λ rs, held n rs.2 - held n l)) as Hstop.
  { apply (gives_seach _ _ _ _ ports_are (held n) (ports_are_all l)). intros [p ls] L s Ha. split.
    - apply (returns_mono _ _ _ (stop_port_returns ports p ls L s Ha)). by intros [r s'] (-> & Ha' & _).
    - apply stop_port_lis, Ha. by left. }
  apply (gives_sio _ _ _ _ _ _ Hstop); [|intros; cbn; lia]. intros [] s.
  eapply gives_eq; [|apply (gives_seach _ _ _ _ (λ _ _, True) (held n)); [done|]].
  - intros rs. cbn. lia.
  - intros p L s' _. split; [|apply start_port_lis]. apply (returns_mono _ _ _ (start_port_returns p s')). by intros [r s''] (-> & _).
Qed.

(** *** A reload *)

Section Apply.
Context (acct : account).
Lemma switch_relay_eq want start get set l : switch_relay want start get set l =
  match want, get l with
  | true, None => (r ← slift start; smod (set (Some r))) l
  | false, Some r => (_ ← srun (stop_relay r); smod (set None)) l
  | _, _ => Ret (Ok (), l)
  end.
Proof. unfold switch_relay, mbind at 1, sio_bind at 1. cbn [pbind sget fst snd]. by destruct want, (get l). Qed.
Lemma switch_relay_returns want start get set l :
  (∀ o s, get (set o s) = o) →
  returns (switch_relay want start get set l) (λ rs,
    (rs.2 = l ∨ ∃ o, rs.2 = set o l) ∧ (rs.1 = Ok () → is_Some (get rs.2) ↔ want = true)).
Proof.
  intros Hgs. rewrite switch_relay_eq. destruct want, (get l) as [r|] eqn:E.
  - split; [by left|]. cbn. by rewrite E.
  - apply (returns_slift_bind _ _ _ (λ _, True)); [apply (returns_mono _ _ _ (returns_true _)); by intros [?|?]| |intros e; split; [by left|done]].
    intros r _. cbn. split; [right; by exists (Some r)|]. by rewrite Hgs.
  - apply (returns_srun _ _ _ _ _ (returns_true _)). intros [] _. cbn. split; [right; by exists None|]. rewrite Hgs. intros _. split; [by intros []|done].
  - split; [by left|]. cbn. rewrite E. intros _. split; [by intros []|done].
Qed.
Lemma switch_relay_lis n want start get set l :
  (∀ o s, held n (set o s) = held n s - relay_count n (get s) + relay_count n o) →
  gives (lis_weight n) start (λ r, match r with Ok rl => relay_count n (Some rl) | Err _ => 0 end) →
  changes (lis_weight n) (held n) (switch_relay want start get set) l.
Proof.
  intros Hset Hs. unfold changes. rewrite switch_relay_eq. destruct want, (get l) as [r|] eqn:E; try (cbn; lia).
  - apply (gives_slift_bind _ _ _ _ _ _ Hs); [intros r|intros e]; cbn [fst snd smod gives]; [rewrite Hset E|]; cbn; lia.
  - apply (gives_srun _ _ _ _ _ _ (stop_relay_lis n r)). intros []. cbn [fst snd smod gives]. rewrite Hset E. cbn. lia.
Qed.
Lemma switch_relay_snap t want start get set l :
  (∀ o s, l_mounts (set o s) = l_mounts s) → calls on_relays start →
  changes (snap_weight t) (λ s, mounted t (l_mounts s)) (switch_relay want start get set) l.
Proof.
  intros Hset Hs. unfold changes. rewrite switch_relay_eq. destruct want, (get l) as [r|] eqn:E; try (cbn; lia).
  - apply (gives_slift_bind _ _ _ _ _ _ (relays_snap t _ Hs)); [intros r|intros e]; cbn [fst snd smod gives]; [rewrite Hset|]; lia.
  - apply (gives_srun _ _ _ _ (λ _, 0)); [apply relays_snap; cbn; repeat (first [done | intros [] | split])|]. intros []. cbn [fst snd smod gives]. rewrite Hset. lia.
Qed.

Lemma startGPGAgentRelay_calls : calls on_relays (startGPGAgentRelay gw acct).
Proof.
  apply calls_io; [by repeat (first [done | intros [] | split])|intros []].
  apply calls_io; [|intros []; apply startSocketRelay_calls].
  apply calls_each. intros d. apply calls_wrap, (calls_mono _ _ _ files_relays), ownedDir_files.
Qed.
Lemma setHostPorts_calls ports l : calls on_relays (setHostPorts gw ports l).
Proof.
  apply calls_bind; [done|]. intros [[ps|e] s]; [|done].
  apply calls_bind; [apply calls_seach|intros [[[]|e] s']; [apply calls_seach|done]].
  - intros [p ls] s0. unfold stop_port. cbn [fst snd]. destruct (bool_decide _); [done|]. apply calls_bind; [apply calls_bind; [apply stop_mirror_calls|done]|].
    by intros [[[]|e] s1].
  - intros p s0. unfold start_port, mbind, sio_bind. cbn [pbind sget fst snd]. destruct (_ !! p); [done|].
    apply calls_bind; [apply calls_bind; [apply startHostPortMirror_calls|done]|]. by intros [[[ls|e]|e] s1].
Qed.
Lemma setHostPorts_snap t ports l : changes (snap_weight t) (λ s, mounted t (l_mounts s)) (setHostPorts gw ports) l.
Proof.
  apply (gives_agree _ _ _ _ (relays_snap t _ (setHostPorts_calls ports l))). apply (returns_mono _ _ _ (setHostPorts_returns ports l)).
  intros [r l'] (_ & (_ & _ & _ & E & _) & _). cbn in *. rewrite E. lia.
Qed.

(** The steps of [apply], for a number that none of the other fields changes. *)
Lemma apply_changes w V r l : wf l →
  gives w (setCABundle (r_CABundle r)) (λ _, 0) →
  (∀ s, wf s → changes w V (setSnapshots acct (r_Snapshots r)) s) →
  (∀ s, changes w V (switch_relay (r_SSHAgent r) (startAgentRelay gw acct) l_stopAgent (λ a l, set_relays a (l_stopGPG l) l)) s) →
  (∀ s, changes w V (switch_relay (r_GPGAgent r) (startGPGAgentRelay gw acct) l_stopGPG (λ g l, set_relays (l_stopAgent l) g l)) s) →
  (∀ s, changes w V (setHostPorts gw (r_HostPorts r)) s) →
  (∀ s, V (set_applied (l_seq s) (Some r) s) = V s) →
  changes w V (apply gw acct r) l.
Proof.
  intros Hw Hca Hsn Hssh Hgpg Hports Hset.
  apply (changes_bind _ _ _ _ _ (λ _ s, wf s)); [by apply changes_slift| |].
  { apply (returns_slift _ _ (λ r s, match r with Ok _ => wf s | Err _ => True end)).
    apply (returns_mono _ _ _ (returns_true _)). by intros [[]|e]. }
  intros [] s Hs. apply (changes_bind _ _ _ _ _ (λ _ s, wf s)); [unfold changes; cbn; lia|done|]. intros cur s' Hs'.
  apply (changes_bind _ _ _ _ _ (λ _ _, True)); [destruct (bool_decide _); [unfold changes; cbn; lia|by apply Hsn]| |].
  { apply (returns_mono _ _ _ (returns_true _)). by intros [[]]. }
  intros [] s1 _. apply (changes_bind _ _ _ _ _ (λ _ _, True)); [apply Hssh|apply (returns_mono _ _ _ (returns_true _)); by intros [[]]|].
  intros [] s2 _. apply (changes_bind _ _ _ _ _ (λ _ _, True)); [apply Hgpg|apply (returns_mono _ _ _ (returns_true _)); by intros [[]]|].
  intros [] s3 _. apply (changes_bind _ _ _ _ _ (λ _ _, True)); [apply Hports|apply (returns_mono _ _ _ (returns_true _)); by intros [[]]|].
  intros [] s4 _. unfold changes, smod. cbn [fst snd gives]. rewrite Hset. lia.
Qed.
Lemma apply_snap t r l : wf l → changes (snap_weight t) (λ s, mounted t (l_mounts s)) (apply gw acct r) l.
Proof.
  intros Hw. apply apply_changes; [done|apply files_snap, setCABundle_files| | | |intros s; apply setHostPorts_snap|done].
  - intros s Hs. exact (setSnapshots_snap t acct _ s Hs).
  - intros s. apply switch_relay_snap; [done|exact (startSocketRelay_calls gw acct SSHAgentSocket SSHAgentPort "ssh agent")].
  - intros s. apply switch_relay_snap; [done|exact startGPGAgentRelay_calls].
Qed.
Lemma apply_lis n r l : wf l → changes (lis_weight n) (held n) (apply gw acct r) l.
Proof.
  intros Hw. apply apply_changes; [done|apply files_lis, setCABundle_files| | | |intros s; apply setHostPorts_lis|done].
  - intros s Hs. apply (gives_agree _ _ (λ _, 0) _ (setSnapshots_lis n acct (r_Snapshots r) s)).
    apply (returns_mono _ _ _ (setSnapshots_services acct (r_Snapshots r) s)). unfold held. intros [r' s'] (E1 & E2 & E3 & _). cbn [fst snd] in *.
    rewrite E1 E2 E3. lia.
  - intros s. apply switch_relay_lis; [intros o s'; unfold held; cbn; lia|exact (startSocketRelay_lis n acct SSHAgentSocket SSHAgentPort "ssh agent")].
  - intros s. apply switch_relay_lis; [intros o s'; unfold held; cbn; lia|exact (startGPGAgentRelay_lis n acct)].
Qed.

Definition settled (r : Reload) (l l' : liveState) : Prop :=
  l_snapshots l' = r_Snapshots r ∧
  (is_Some (l_stopAgent l') ↔ r_SSHAgent r = true) ∧ (is_Some (l_stopGPG l') ↔ r_GPGAgent r = true) ∧
  (∀ p, is_Some (l_hostPorts l' !! p) → p ∈ r_HostPorts r) ∧
  (∀ p ls, p ∈ r_HostPorts r → l_hostPorts l !! p = Some ls → l_hostPorts l' !! p = Some ls) ∧
  l_applied l' = Some r.
Lemma apply_returns r l : wf l →
  returns (apply gw acct r l) (λ rs, wf rs.2 ∧ (rs.1 = Ok () → settled r l rs.2) ∧
    (rs.1 ≠ Ok () → l_applied rs.2 = l_applied l ∧ l_hostPorts rs.2 = l_hostPorts l)).
Proof.
  intros Hw. unfold apply.
  set (Q := λ (r' : result gerr ()) s, wf s ∧ (r' = Ok () → settled r l s) ∧ (r' ≠ Ok () → l_applied s = l_applied l ∧ l_hostPorts s = l_hostPorts l)).
  set (kept := λ s, wf s ∧ l_applied s = l_applied l ∧ l_hostPorts s = l_hostPorts l).
  assert (∀ (e : gerr) s, kept s → Q (Err e) s) as HQ by (intros e s (? & ? & ?); by split).
  apply (returns_sio _ _ _ (λ _ s, kept s) Q); [| |exact HQ].
  { apply (returns_slift _ _ (λ _ s, kept s)). apply (returns_mono _ _ _ (returns_true _)). done. }
  intros [] s1 (Hw1 & Ha1 & Hp1). apply (returns_sio _ _ _ (λ c s, c = Ok (l_snapshots s1) ∧ s = s1) Q); [done| |by intros e s [? _]].
  intros cur s2 [[= ->] ->].
  apply (returns_sio _ _ _ (λ r' s, kept s ∧ (r' = Ok () → l_snapshots s = r_Snapshots r)) Q); [| |intros e s [H _]; by apply HQ].
  { case_bool_decide as Hs; [cbn; by split|].
    apply (returns_mono _ (λ rs, (wf rs.2 ∧ (rs.1 = Ok () → l_snapshots rs.2 = r_Snapshots r)) ∧ same_services s1 rs.2)).
    - apply returns_and; [by apply setSnapshots_returns|apply setSnapshots_services].
    - intros [r' s'] [[H1 H2] (_ & _ & E1 & E2)]. cbn in *. split; [|done]. split; [done|]. by rewrite E1 E2. }
  intros [] s3 [(Hw3 & Ha3 & Hp3) Hs3]. specialize (Hs3 eq_refl).
  apply (returns_sio _ _ _ (λ r' s, kept s ∧ (r' = Ok () → l_snapshots s = r_Snapshots r ∧ (is_Some (l_stopAgent s) ↔ r_SSHAgent r = true))) Q);
    [| |intros e s [H _]; by apply HQ].
  { apply (returns_mono _ _ _ (switch_relay_returns _ _ l_stopAgent (λ a l, set_relays a (l_stopGPG l) l) s3 (λ _ _, eq_refl))).
    intros [r' s'] [[E|[o E]] H]; cbn in *; subst s'; split; try done; intros Hr; split; try done; by apply H. }
  intros [] s4 [(Hw4 & Ha4 & Hp4) H4]. destruct (H4 eq_refl) as [Hs4 Hssh]. clear H4.
  apply (returns_sio _ _ _ (λ r' s, kept s ∧ (r' = Ok () → l_snapshots s = r_Snapshots r ∧ (is_Some (l_stopAgent s) ↔ r_SSHAgent r = true) ∧
    (is_Some (l_stopGPG s) ↔ r_GPGAgent r = true))) Q); [| |intros e s [H _]; by apply HQ].
  { apply (returns_mono _ _ _ (switch_relay_returns _ _ l_stopGPG (λ g l, set_relays (l_stopAgent l) g l) s4 (λ _ _, eq_refl))).
    intros [r' s'] [[E|[o E]] H]; cbn in *; subst s'; split; try done; intros Hr; split; try done; split; try done; by apply H. }
  intros [] s5 [(Hw5 & Ha5 & Hp5) H5]. destruct (H5 eq_refl) as (Hs5 & Hssh5 & Hgpg). clear H5.
  apply (returns_sio _ _ _ (λ r' s, r' = Ok () ∧ ports_settled (r_HostPorts r) s5 s) Q); [apply setHostPorts_returns| |by intros e s [? _]].
  intros [] s6 [_ ((E1 & E2 & E3 & E4 & _) & Hk & Hold)]. unfold Q, settled, wf. cbn. rewrite E1 E2 E3 E4. split; [exact Hw5|]. split; [|done].
  intros _. split_and!; try done. rewrite -Hp5. exact Hold.
Qed.

(** A number the state holds, over a poll. *)
Lemma poll_changes w V l :
  (∀ p x, on_files p → w (existT p x) = 0) → (∀ seq r s, V (set_applied seq r s) = V s) →
  wf l → (∀ r s, wf s → changes w V (apply gw acct r) s) →
  gives w (poll gw decode encode show acct l) (λ l', V l' - V l).
Proof.
  intros Hw HV Hwf Ha. cbn [poll gives]. intros [text|e]; rewrite (Hw (ReadFile _)) //; [|cbn; lia].
  destruct (decode text) as [r|]; [|cbn; lia]. destruct (r_Seq r =? l_seq l); [cbn; lia|].
  apply (gives_bind _ _ _ _ _ (Ha r (set_applied (r_Seq r) (l_applied l) l) Hwf)). intros [res l']. cbn [fst snd].
  apply (gives_bind _ _ _ (λ _, 0)); [|intros []; cbn [gives]; rewrite HV; lia].
  assert (∀ p x, on_files p → ∀ z, z - w (existT p x) = z) as Hz by (intros p x Hp z; rewrite Hw; [lia|done]).
  unfold answer_reload. cbn [gives discard pbind call]. intros [[]|e]; cbn [gives discard pbind call]; [intros x|]; rewrite !Hz; done.
Qed.
Lemma poll_wf l : wf l → returns (poll gw decode encode show acct l) wf.
Proof.
  intros Hwf. cbn [poll returns]. intros [text|e]; [|done]. destruct (decode text) as [r|]; [|done]. destruct (_ =? _); [done|].
  apply (returns_bind _ _ (λ rs, wf rs.2)); [apply (returns_mono _ _ _ (apply_returns r (set_applied (r_Seq r) (l_applied l) l) Hwf)); by intros rs [? _]|].
  intros rs Hrs. apply (returns_bind _ _ _ _ (returns_true _)). done.
Qed.
Fixpoint polls (n : nat) (l : liveState) : gprog liveState :=
  match n with O => Ret l | S n => pbind (polls n) (poll gw decode encode show acct l) end.
Lemma polls_changes w V n l :
  (∀ p x, on_files p → w (existT p x) = 0) → (∀ seq r s, V (set_applied seq r s) = V s) →
  wf l → (∀ r s, wf s → changes w V (apply gw acct r) s) →
  gives w (polls n l) (λ l', V l' - V l).
Proof.
  intros Hw HV Hwf Ha. revert l Hwf. induction n as [|n IH]; intros l Hwf; [cbn; lia|]. cbn [polls].
  apply (gives_known _ _ _ wf _ _ (poll_wf l Hwf) (poll_changes w V l Hw HV Hwf Ha)). intros l1 H1.
  eapply gives_eq; [|exact (IH l1 H1)]. intros l2. cbn. lia.
Qed.
Lemma polls_wf n l : wf l → returns (polls n l) wf.
Proof. revert l. induction n as [|n IH]; intros l Hl; [done|]. apply (returns_bind _ _ _ _ (poll_wf l Hl)). apply IH. Qed.

(** The calls of a reload and of a poll. *)
Definition on_live (c : gcall) : Prop := on_mounts c ∨ on_relays c.
Lemma mounts_live {A} (p : gprog A) : calls on_mounts p → calls on_live p.
Proof. apply calls_mono. intros c H. by left. Qed.
Lemma relays_live {A} (p : gprog A) : calls on_relays p → calls on_live p.
Proof. apply calls_mono. intros c H. by right. Qed.
Lemma files_live {A} (p : gprog A) : calls on_files p → calls on_live p.
Proof. intros H. apply mounts_live, (calls_mono _ _ _ files_mounts), H. Qed.
Lemma switch_relay_calls want start get set l : calls on_relays start → calls on_relays (switch_relay want start get set l).
Proof.
  intros Hs. rewrite switch_relay_eq. destruct want, (get l) as [r|]; try done.
  apply calls_bind; [by apply calls_bind|]. by intros [[x|e] s].
Qed.
Lemma apply_calls r l : calls on_live (apply gw acct r l).
Proof.
  apply calls_bind; [apply calls_bind; [apply files_live, setCABundle_files|done]|]. intros [[[]|e] s1]; [|done].
  apply calls_bind; [done|]. intros [[cur|e] s2]; [|done].
  apply calls_bind; [cbn [fst snd]; destruct (bool_decide _); [done|apply mounts_live, setSnapshots_calls]|]. intros [[[]|e] s3]; [|done].
  apply calls_bind; [apply relays_live, switch_relay_calls; exact (startSocketRelay_calls gw acct SSHAgentSocket SSHAgentPort "ssh agent")|]. intros [[[]|e] s4]; [|done].
  apply calls_bind; [apply relays_live, switch_relay_calls; exact startGPGAgentRelay_calls|]. intros [[[]|e] s5]; [|done].
  apply calls_bind; [apply relays_live, setHostPorts_calls|]. by intros [[[]|e] s6].
Qed.
Lemma poll_calls l : calls on_live (poll gw decode encode show acct l).
Proof.
  cbn [poll calls]. split; [by left|]. intros [text|e]; [|done]. destruct (decode text) as [r|]; [|done]. destruct (_ =? _); [done|].
  apply calls_bind; [apply apply_calls|]. intros rs. apply calls_bind; [|done]. apply files_live. split; [done|]. intros [[]|e]; [by split|done].
Qed.

Definition start_state : liveState :=
  {| l_seq := 0; l_applied := None; l_stopAgent := None; l_stopGPG := None; l_hostPorts := ∅; l_snapshots := []; l_mounts := []; l_created := ∅ |}.
(** The guest forgets nothing. Starting from the empty state, after the
    settings of the boot and any number of polls, whatever the requests hold,
    whatever fails on the way and however the kernel answers, the snapshot
    mounts attached and not detached are exactly those of the state, one
    descriptor per snapshot, and the listeners open are exactly those of
    the relays and mirrors of the state, so that each can still be stopped. *)
Theorem reloads_account env r n :
  let '((_, l), h) := exec env (apply gw acct r start_state) [] in
  let '(l', h') := exec env (polls n l) h in
  length (l_mounts l') = length (l_snapshots l') ∧
  (∀ t, weight (snap_weight t) h' = mounted t (l_mounts l')) ∧
  (∀ k, weight (lis_weight k) h' = held k l').
Proof.
  assert (wf start_state) as Hwf0 by done.
  destruct (exec env (apply gw acct r start_state) []) as [[res l] h] eqn:E1.
  destruct (exec env (polls n l) h) as [l' h'] eqn:E2.
  pose proof (returns_exec _ _ env [] (apply_returns r start_state Hwf0)) as [Hwf _]. rewrite E1 in Hwf. cbn [fst snd] in Hwf.
  pose proof (returns_exec _ _ env h (polls_wf n l Hwf)) as Hwf'. rewrite E2 in Hwf'. split; [exact Hwf'|].
  assert (∀ w V, (∀ p x, on_files p → w (existT p x) = 0) → (∀ seq r s, V (set_applied seq r s) = V s) → V start_state = 0 →
    (∀ r s, wf s → changes w V (apply gw acct r) s) → weight w h' = V l') as Hany.
  { intros w V Hw HV H0 Ha. pose proof (gives_exec _ _ _ env [] (Ha r start_state Hwf0)) as G1.
    pose proof (gives_exec _ _ _ env h (polls_changes w V n l Hw HV Hwf Ha)) as G2. rewrite E1 in G1. rewrite E2 in G2. cbn in *. lia. }
  split; intros t.
  - apply (Hany _ (λ s, mounted t (l_mounts s))); [by intros []|done|done|]. intros r' s Hs. by apply apply_snap.
  - apply (Hany _ (held t)); [by intros []|done|done|]. intros r' s Hs. by apply apply_lis.
Qed.

Definition reload_path : string := JoinPath [ControlDir; ReloadFile].
End Apply.
End Reload.

(** *** The CA bundle *)

Definition file_step (m : gmap string string) (i : gitem) : gmap string string :=
  match i with existT c x =>
    match c as c return answer c → gmap string string with
    | WriteFile p d _ => λ r, if isOk r then <[p := d]> m else m
    | Rename a b => λ r, if isOk r then match m !! a with Some d => <[b := d]> (delete a m) | None => m end else m
    | Remove p => λ r, if isOk r then delete p m else m
    | _ => λ _, m
    end x
  end.
(** The files after the calls, and a kernel that reads what was written. *)
Definition files (m0 : gmap string string) (h : list gitem) : gmap string string := foldl file_step m0 h.
Definition reads_files (m0 : gmap string string) (env : ∀ c, list gitem → answer c) : Prop :=
  ∀ h p, env (ReadFile p) h = match files m0 h !! p with Some d => Ok d | None => Err ENOENT end.
Lemma files_snoc m0 h i : files m0 (h ++ [i]) = file_step (files m0 h) i.
Proof. unfold files. by rewrite foldl_app. Qed.
Definition installCA : string := systemCA +:+ ".jailoc".
Definition own_files : list string := [systemCA; originalCA; installCA].
Definition wanted (m : gmap string string) (path : string) : option string :=
  if String.eqb path "" then None else
  match m !! path with Some e => if String.eqb (TrimSpace e) "" then None else Some e | None => None end.
Definition image_bundle (m : gmap string string) : string := match m !! originalCA with Some o => o | None => default "" (m !! systemCA) end.

Section Bundle.
Context (m0 : gmap string string) (env : ∀ c, list gitem → answer c) (Henv : reads_files m0 env).
Lemma sysf_Ok {A} w arg (p : gprog (result errno A)) h a h' : exec env (sysf w arg p) h = (Ok a, h') → exec env p h = (Ok a, h').
Proof using. unfold sysf, wrap. rewrite exec_bind. cbn. destruct (exec env p h) as [[x|e] h1]; cbn; congruence. Qed.
Lemma io_Ok {A B} (m : gio A) (f : A → gio B) h b h' : exec env (m ≫= f) h = (Ok b, h') →
  ∃ a h1, exec env m h = (Ok a, h1) ∧ exec env (f a) h1 = (Ok b, h').
Proof using. rewrite exec_io. destruct (exec env m h) as [[a|e] h1]; cbn; [|done]. intros H. by exists a, h1. Qed.
Definition kept (h h' : list gitem) : Prop := files m0 h' = files m0 h.
(** Reading a file answers its content and changes none. *)
Lemma read_Ok p h (r : result errno string) h' : exec env (run (call (ReadFile p)) : gio (result errno string)) h = (Ok r, h') →
  r = match files m0 h !! p with Some d => Ok d | None => Err ENOENT end ∧ kept h h'.
Proof using Henv. cbn. rewrite Henv. intros [= <- <-]. split; [done|]. apply files_snoc. Qed.
Lemma original_bundle_run h o h' : exec env original_bundle h = (Ok o, h') →
  o = image_bundle (files m0 h) ∧ files m0 h' = <[originalCA := o]> (files m0 h).
Proof using Henv.
  intros H. unfold image_bundle. apply io_Ok in H as (r & h1 & Hr & H). apply read_Ok in Hr as [-> K1].
  destruct (files m0 h !! originalCA) as [d|] eqn:E.
  { injection H as <- <-. split; [done|]. rewrite K1. by rewrite insert_id. }
  change (negb (bool_decide (ENOENT = ENOENT))) with false in H. cbv iota in H.
  apply io_Ok in H as (r & h2 & Hr & H). apply read_Ok in Hr as [-> K2]. rewrite K1 in H.
  apply io_Ok in H as (o' & h3 & Ho & H). apply io_Ok in H as ([] & h4 & Hw & H). injection H as <- <-.
  apply sysf_Ok in Hw. cbn in Hw. injection Hw as Ha <-.
  assert (o' = default "" (files m0 h !! systemCA) ∧ h3 = h2) as [-> ->].
  { destruct (files m0 h !! systemCA); cbn in Ho; [by injection Ho as <- <-|]. rewrite bool_decide_eq_true_2 in Ho; [|done]. by injection Ho as <- <-. }
  split; [done|]. rewrite files_snoc. cbn. rewrite Ha. cbn. by rewrite K2 K1.
Qed.
Lemma workspace_bundle_run path h o h' : exec env (workspace_bundle path) h = (Ok o, h') → o = wanted (files m0 h) path ∧ kept h h'.
Proof using Henv.
  intros H. unfold workspace_bundle, wanted in *. destruct (String.eqb path ""); [by injection H as <- <-|].
  apply io_Ok in H as (r & h1 & Hr & H). apply read_Ok in Hr as [-> K1].
  destruct (files m0 h !! path) as [e|]; cbn in H; [by injection H as <- <-|].
  rewrite bool_decide_eq_true_2 in H; [|done]. by injection H as <- <-.
Qed.
Lemma install_bundle_run content h h' : exec env (install_bundle content) h = (Ok (), h') →
  files m0 h' !! systemCA = Some content ∧ ∀ q, q ≠ systemCA → q ≠ installCA → files m0 h' !! q = files m0 h !! q.
Proof using Henv.
  intros H. unfold install_bundle in H. apply io_Ok in H as (r & h1 & Hr & H). apply read_Ok in Hr as [-> K1].
  destruct (match match files m0 h !! systemCA with Some d => Ok d | None => Err ENOENT end with Ok c => String.eqb c content | Err _ => false end) eqn:Es.
  { injection H as <-. rewrite K1. split; [|done]. destruct (files m0 h !! systemCA) as [c|]; [|done]. by apply String.eqb_eq in Es as ->. }
  apply io_Ok in H as ([] & h2 & Hm & H). apply io_Ok in H as ([] & h3 & Hw & H).
  apply sysf_Ok in Hm, Hw, H. cbn in Hm, Hw, H. injection Hm as Hm <-. injection Hw as Hw <-. injection H as H <-.
  rewrite !files_snoc. cbn [file_step]. rewrite H Hw. cbn [isOk]. fold installCA. rewrite lookup_insert_eq K1. split; [by rewrite lookup_insert_eq|].
  intros q Hq1 Hq2. rewrite lookup_insert_ne; [|congruence]. rewrite lookup_delete_ne; [|congruence]. rewrite lookup_insert_ne; [done|congruence].
Qed.
Lemma setCABundle_run path h h' : path ∉ own_files → exec env (setCABundle path) h = (Ok (), h') →
  files m0 h' !! systemCA = Some (bundle (image_bundle (files m0 h)) (wanted (files m0 h) path)) ∧
  files m0 h' !! originalCA = Some (image_bundle (files m0 h)) ∧
  ∀ q, q ∉ own_files → files m0 h' !! q = files m0 h !! q.
Proof using Henv.
  unfold own_files. intros Hp H. apply io_Ok in H as (o & h1 & H1 & H). apply original_bundle_run in H1 as [-> E1].
  apply io_Ok in H as (e & h2 & H2 & H). apply workspace_bundle_run in H2 as [-> K2]. apply install_bundle_run in H as [Es Eq].
  assert (wanted (files m0 h1) path = wanted (files m0 h) path) as Ew.
  { unfold wanted. rewrite E1 lookup_insert_ne; [done|set_solver]. }
  split_and!; [by rewrite Es Ew|rewrite Eq //; rewrite K2 E1; apply lookup_insert_eq|].
  intros q Hq. rewrite Eq; [|set_solver..]. rewrite K2 E1 lookup_insert_ne; [done|set_solver].
Qed.
(** The CA bundle does not depend on the earlier ones. After any sequence
    of reloads that succeed, the system bundle is the bundle of the image, as it was
    at the boot, followed by that of the last reload, or the image's alone when
    the last one names none, a missing file or an empty one. *)
Theorem setCABundle_last paths path h' :
  m0 !! originalCA = None → Forall (λ p, p ∉ own_files) (paths ++ [path]) →
  exec env (for_each setCABundle (paths ++ [path])) [] = (Ok (), h') →
  files m0 h' !! systemCA = Some (bundle (default "" (m0 !! systemCA)) (wanted m0 path)).
Proof using Henv.
  intros Hnone Hps H.
  assert (∀ h, (∀ q, q ∉ own_files → files m0 h !! q = m0 !! q) → image_bundle (files m0 h) = default "" (m0 !! systemCA) →
    exec env (for_each setCABundle (paths ++ [path])) h = (Ok (), h') →
    files m0 h' !! systemCA = Some (bundle (default "" (m0 !! systemCA)) (wanted m0 path))) as Hgen.
  { clear H. induction paths as [|p ps IH]; intros h Hq Hi H; cbn [app for_each] in H, Hps; apply Forall_cons in Hps as [Hp Hps];
      apply io_Ok in H as ([] & h1 & H1 & H); apply setCABundle_run in H1 as (E1 & E2 & E3); [|done| |done].
    - injection H as ->. rewrite E1 Hi. do 2 f_equal. unfold wanted. by rewrite Hq.
    - apply (IH Hps h1); [intros q Hn; by rewrite E3 // Hq| |exact H]. unfold image_bundle at 1. by rewrite E2. }
  apply (Hgen []); [done| |exact H]. unfold image_bundle. cbn. by rewrite Hnone.
Qed.
End Bundle.

(** *** Witnesses *)

Definition example_reload : Reload :=
  {| r_Seq := 7; r_CABundle := ""; r_SSHAgent := true; r_GPGAgent := false; r_HostPorts := [8080]; r_Snapshots := [] |}.
Definition example_files : gmap string string := {[ systemCA := "image"; "/ca" := "extra" ]}.
Definition file_env (c : gcall) (h : list gitem) : answer c :=
  match c with ReadFile p => match files example_files h !! p with Some d => Ok d | None => Err ENOENT end | c => granted c end.
Lemma setCABundle_last_witness :
  let out := exec file_env (for_each setCABundle (["/ca"; ""] ++ ["/ca"])) [] in
  files example_files out.2 !! systemCA = Some ("image" +:+ newline +:+ "extra").
Proof.
  intros out. apply (setCABundle_last example_files file_env (λ _ _, eq_refl) ["/ca"; ""] "/ca" out.2); [reflexivity| |vm_compute; reflexivity].
  repeat constructor; apply (bool_decide_unpack _); vm_compute; exact I.
Defined.
(** After an unmount that fails for another reason than [EINVAL] the
    descriptor is closed but stays in the state, and the next change of the
    snapshots unmounts through it. *)
Example closed_descriptor :
  let s := {| sn_Source := "/s/1"; sn_Target := "/t" |} in
  let l := set_binds [s] [5] ∅ start_state in
  let env (c : gcall) (_ : list gitem) : answer c := match c with Unmount _ _ => Err EBUSY | c => granted c end in
  let '((res, l'), h) := exec env (setSnapshots some_account [] l) [] in
  res ≠ Ok () ∧ l_mounts l' = [5] ∧ weight (fd_weight 5) h = -1 ∧
  h = [existT (Unmount (proc_fd 5) true) (Err EBUSY); existT (Close 5) ()] ∧
  hd_error (exec env (setSnapshots some_account [] l') h).2 = hd_error h ∧
  (exec env (setSnapshots some_account [] l') h).2 !! 2%nat = Some (existT (Unmount (proc_fd 5) true) (Err EBUSY)).
Proof. vm_compute. by split_and!. Qed.
