(* ===== verification/GuestBoot.v ===== *)
(** * The boot of the guest

    [Init] of [src/internal/guest/init_linux.go] with what it runs: the root file
    system, the network ([network_linux.go], [hosts.go]), the account, the
    mounts, the protections, the Docker daemon ([docker_linux.go]), the swap
    device and the page cache ([memory_linux.go]) and the loop that polls for a
    reload or the shutdown. Deferred calls run when the function returns, so
    not while the loop is still running; [fuel] is the number of polls looked at. *)

From S2P Require Import Prelude GoStrings GoStrconv GoPath SessionWire GuestSys Accounts Prog GuestCalls GuestMounts GuestLive.
Open Scope string_scope.
Open Scope list_scope.
Open Scope Z_scope.

Definition ConfigPath : string := GuestDir +:+ "/guest.json".
Definition HostKeyPath : string := GuestDir +:+ "/ssh_host_key".
Definition SecretsDir : string := "/run/secrets".
Definition EnvFile : string := "/run/jailoc/env".
Definition SSHPort : Z := 22.
Definition MTU : Z := 65520.
Definition HostAliases : list string := ["host.jailoc.internal"; "host.docker.internal"].
Record Config := {
  c_Hostname : string; c_UID : Z; c_GID : Z; c_Home : string; c_WorkDir : string; c_Shares : list Share;
  c_AuthorizedKey : string; c_Env : list string; c_Binds : list Bind; c_Snapshots : list Snapshot; c_CABundle : string;
  c_IDMap : option IDMap; c_RootShare : string; c_SSHAgent : bool; c_GPGAgent : bool; c_HostPorts : list Z;
  c_Pins : list string; c_ReadOnly : list string; c_NoPrivilegeEscalation : bool; c_Docker : option string }.

(** ** Privileges *)

Definition CAP_SETGID : Z := 6.
Definition CAP_SETUID : Z := 7.
Definition CAP_NET_BIND_SERVICE : Z := 10.
Definition CAP_LAST_CAP : Z := 40.
Definition keep (c : Z) : bool := bool_decide (c ∈ [CAP_SETUID; CAP_SETGID; CAP_NET_BIND_SERVICE]).
Definition last_cap (data : result errno string) : Z :=
  match data with
  | Ok text => match ParseUint (TrimSpace text) 8 with NumOk n => n | _ => CAP_LAST_CAP end
  | Err _ => CAP_LAST_CAP
  end.
Definition drop_cap (c : Z) : gio () :=
  if keep c then mret () else sysf "drop capability from the bounding set" (fmt_nat c) (call (BoundingSetDrop c)).
Definition cap_path : string := "/proc/sys/kernel/cap_last_cap".
Definition disablePrivilegeEscalation : gio () :=
  data ← run (call (ReadFile cap_path));
  _ ← for_each drop_cap (map Z.of_nat (seq 0 (Z.to_nat (last_cap data + 1))));
  sysf "set no_new_privs" "" (call NoNewPrivs).

(** ** The network *)

Definition addHosts (path addr hostname : string) : gio () :=
  r ← run (call (ReadFile path));
  data ← match (r : result errno string) with
         | Ok d => mret d
         | Err e => if bool_decide (e = ENOENT) then mret "" else throw (Errorf "read" path (Sys e))
         end;
  match addHostsEntry data addr hostname with
  | None => mret ()
  | Some text => sysf "write" path (call (WriteFile path text mode_644))
  end.
Definition ipv6_settings : list (string * string) :=
  [("disable_ipv6", "0"); ("accept_ra", "0"); ("autoconf", "0"); ("use_tempaddr", "0"); ("accept_dad", "0")].
Definition configureIPv6 (guest6 linkLocal6 : string) : gio () :=
  _ ← sysf "find IPv6 interface" "" (call (LinkByName "eth0"));
  _ ← for_each (λ nv, sysf "configure IPv6" nv.1 (call (HardenSet ("net.ipv6.conf.eth0." +:+ nv.1) nv.2))) ipv6_settings;
  _ ← sysf "configure IPv6 address" "" (call (AddrReplace guest6));
  sysf "configure IPv6 default route" "" (call (RouteReplace linkLocal6)).

(** ** Memory *)

Definition zramSys : string := "/sys/block/zram0".
Definition zramDevice : string := "/dev/zram0".
Definition cgroupReclaim : string := "/sys/fs/cgroup/memory.reclaim".
Definition readMeminfo : gio meminfo :=
  text ← sysf "open meminfo" "" (call (ReadFile "/proc/meminfo"));
  match parseMeminfo text with Ok info => mret info | Err _ => throw (Message "parse meminfo") end.
Definition setupZram (pageSize : nat) : gio () :=
  info ← readMeminfo;
  _ ← sysf "zram device" "" (call (Stat zramSys));
  _ ← warn (call (WriteFile (zramSys +:+ "/comp_algorithm") "zstd" 0));
  let size := field info "MemTotal" / 2 in
  _ ← sysf "zram disksize" "" (call (WriteFile (zramSys +:+ "/disksize") (fmt_nat size) 0));
  header ← match swapHeader pageSize size with Some h => mret h | None => throw (Message "swap size") end;
  f ← sysf "open" zramDevice (call (OpenWrite zramDevice));
  _ ← or_else (sysf "write swap header" "" (call (WriteFd f header))) (discard (call (CloseWritten f)));
  _ ← sysf "close" zramDevice (call (CloseWritten f));
  _ ← sysf "swapon" zramDevice (call (Swapon zramDevice));
  _ ← warn (call (HardenSet "vm.swappiness" "100"));
  warn (call (HardenSet "vm.page-cluster" "0")).
(** One tick of [startReclaim]; the state is whether the control group is used. *)
Definition reclaim_tick (cgroup : bool) : gprog bool :=
  pbind (λ r : result gerr meminfo,
    match r with
    | Err _ => Ret cgroup
    | Ok info =>
        let target := reclaimTarget info in
        if target =? 0 then Ret cgroup else
        let drop_caches := Do (WriteFile "/proc/sys/vm/drop_caches" "1" 0) (λ _, Ret false) in
        if cgroup then
          Do (WriteFile cgroupReclaim (fmt_nat target +:+ " swappiness=0") 0) (λ w : result errno (),
            if isOk w || is_errno EAGAIN w then Ret true else drop_caches)
        else drop_caches
    end) readMeminfo.

(** ** Docker *)

Definition dockerDataDir : string := "/var/lib/docker".
Definition dockerLog : string := "/var/log/jailoc-dockerd.log".
Definition dockerStopWait : Z := 15000.
Definition SIGTERM : Z := 15.
Definition hasExtFS (dev : string) : gio bool :=
  f ← sysf "inspect" dev (call (OpenDev dev));
  finally (
    m ← run (call (ReadMagic f));
    match extMagicAt m with Some b => mret b | None => throw (Message "read superblock") end) (call (Close f)).
Definition dockerd_argv (dockerd : string) (acct : account) : list string :=
  [dockerd; "--data-root"; dockerDataDir; "--firewall-backend=nftables"; "-H"; "unix:///var/run/docker.sock"; "-G"; fmt_nat (a_gid acct)].
Definition startDocker (disk : string) (acct : account) : gio Z :=
  dockerd ← sysf "docker: dockerd not found in the image" "" (call (LookPath "dockerd"));
  formatted ← errf "docker" "" (hasExtFS disk);
  _ ← (if (formatted : bool) then mret () else sysf "docker: format" disk (call (Command ["mkfs.ext4"; "-q"; "-F"; "-E"; "nodiscard"; disk])));
  _ ← sysf "docker: create" dockerDataDir (call (MkdirAll dockerDataDir 457));
  _ ← sysf "docker: mount" disk (call (Mount disk dockerDataDir "ext4" [] ""));
  _ ← warn (call (Command ["resize2fs"; disk]));
  _ ← sysf "docker: create log dir" "" (call (MkdirAll (Dir dockerLog) mode_755));
  log ← sysf "docker: open log" "" (call (OpenWrite dockerLog));
  finally (sysf "docker: start dockerd" "" (call (Start (dockerd_argv dockerd acct)))) (call (Close log)).
(** The wait of [stop]: a sleep takes its time, so [dockerStopWait] allows at
    most 150 rounds. *)
Fixpoint await_exit (rounds : nat) (pid deadline : Z) : gprog () :=
  match rounds with
  | O => Ret ()
  | S n => Do Now (λ now : Z, if now <? deadline then
             Do (Kill pid 0) (λ r : result errno (), if is_errno ESRCH r then Ret () else Do (Sleep 100) (λ _, await_exit n pid deadline))
           else Ret ())
  end.
Definition stop_docker (docker : option Z) : gprog () :=
  match docker with
  | None => Ret ()
  | Some pid =>
      Do (Kill pid SIGTERM) (λ _, Do Now (λ now : Z,
        pbind (λ _, Do Sync (λ _, discard (call (Unmount dockerDataDir false)))) (await_exit 151 pid (now + dockerStopWait))))
  end.

(** ** Sessions *)

Definition skip_env (kv : string) : bool :=
  let name := (Cut kv "=").1.1 in
  HasPrefix name "KRUN_" || existsb (String.eqb name) ["HOME"; "USER"; "SHELL"; "TERM"; "HOSTNAME"].
Definition sessionEnv (environ : list string) (cfg : Config) : list string := filter (λ kv, skip_env kv = false) environ ++ c_Env cfg.
Definition newSSHServer (cfg : Config) (acct : account) (env : list string) : gio () :=
  _ ← sysf "parse authorized key" "" (call (ParseAuthorizedKey (c_AuthorizedKey cfg)));
  pem ← sysf "read host key" "" (call (ReadFile HostKeyPath));
  _ ← warn (call (Remove HostKeyPath));
  _ ← sysf "parse host key" "" (call (ParsePrivateKey pem));
  sysf "create ssh server" "" (call (NewServer env acct (c_WorkDir cfg))).

(** ** Init *)

(** How a run ends: the guest powers off, or the loop is still running after
    the polls looked at, and then nothing deferred has run. *)
Inductive outcome := PoweredOff | StillRunning.
Definition defer (m : gio outcome) (last : gprog ()) : gio outcome :=
  pbind (λ r, match r with Ok StillRunning => Ret r | _ => pbind (λ _, Ret r) last end) m.
(** A service whose start may fail, which only loses the service. *)
Definition with_service (s : service) (m : gio outcome) : gio outcome :=
  r ← run (call (TryStart s));
  match (r : result errno ()) with Ok _ => defer m (call (StopService s)) | Err _ => m end.

Section Init.
(** What the libraries and the host provide: the gateway, the addresses, JSON,
    the process environment, the page size, a sort by length. *)
Context (GatewayIP guest6 linkLocal6 : string) (parse : string → option Config) (decode : string → option Reload)
  (encode : ReloadDone → string) (show : gerr → string) (environ : list string) (pageSize : nat) (sort : list string → list string).

Definition loadConfig : gio Config :=
  b ← sysf "read guest config" "" (call (ReadFile ConfigPath));
  match parse b with Some cfg => mret cfg | None => throw (Message "parse guest config") end.
(** The mapper and the agent's IDs. *)
Definition root_fs (cfg : Config) : gio (option Z * ids) :=
  let own := {| i_UID := c_UID cfg; i_GID := c_GID cfg; i_IDMap := c_IDMap cfg |} in
  if negb (String.eqb (c_RootShare cfg) "") then
    mi ← errf "root filesystem" "" (overlayRoot (c_RootShare cfg) (c_Home cfg) own);
    _ ← remountAfterPivot;
    mret mi
  else match c_IDMap cfg with
  | None => mret (None, own)
  | Some m =>
      r ← attempt (idmapRoot m (c_Home cfg) (c_UID cfg) (c_GID cfg));
      match (r : result gerr Z) with
      | Err _ => mret (None, {| i_UID := id_UID m; i_GID := id_GID m; i_IDMap := None |})
      | Ok ns => _ ← remountAfterPivot; mret (Some ns, own)
      end
  end.
Definition network (cfg : Config) : gio () :=
  _ ← (if String.eqb (c_Hostname cfg) "" then mret () else
       _ ← warn (call (Sethostname (c_Hostname cfg)));
       warn (addHosts "/etc/hosts" "127.0.1.1" (c_Hostname cfg)));
  _ ← for_each (λ alias, warn (addHosts "/etc/hosts" GatewayIP alias)) HostAliases;
  _ ← sysf "network" "" (call Configure);
  _ ← warn (call (WriteFile "/sys/class/net/eth0/mtu" (fmt_nat MTU) mode_644));
  _ ← errf "network IPv6" "" (configureIPv6 guest6 linkLocal6);
  warn (call (HardenSet "net.ipv4.ip_forward" "1")).
Definition mount_one (acct : account) (mapper : option Z) (m : guestMount) : gio () :=
  match m with MShare s => mountShare s acct mapper | MBind b => bindInternal b acct end.
(** A step on the live state, whose error ends the boot. *)
Definition on_state {A} (p : liveState → gprog (result gerr A * liveState)) (l : liveState) : gio liveState :=
  pbind (λ rs, Ret (match rs.1 with Ok _ => Ok rs.2 | Err e => Err e end)) (p l).
Definition boot_reload (cfg : Config) : Reload :=
  {| r_Seq := 0; r_CABundle := c_CABundle cfg; r_SSHAgent := c_SSHAgent cfg; r_GPGAgent := c_GPGAgent cfg;
     r_HostPorts := c_HostPorts cfg; r_Snapshots := c_Snapshots cfg |}.
Definition agent_dirs : list string := [SecretsDir; Dir EnvFile].
(** Everything of the agent before the services. *)
Definition agent_fs (cfg : Config) (mapper : option Z) (acct : account) : gio liveState :=
  _ ← ownedDir (a_home acct) acct mode_755;
  _ ← mountPrivate;
  _ ← for_each (mount_one acct mapper) (mountOrder (c_Shares cfg) (c_Binds cfg));
  live ← on_state (setSnapshots acct (c_Snapshots cfg)) start_state;
  _ ← protectPaths sort (c_Pins cfg) (c_ReadOnly cfg);
  _ ← for_each (λ dir, ownedDir dir acct mode_700) agent_dirs;
  on_state (apply GatewayIP acct (boot_reload cfg)) live.
Definition shutdown_path : string := JoinPath [ControlDir; "shutdown"].
Fixpoint serve_loop (fuel : nat) (acct : account) (docker : option Z) (l : liveState) : gprog outcome :=
  match fuel with
  | O => Ret StillRunning
  | S n =>
      pbind (λ l', Do (Stat shutdown_path) (λ r : result errno fkind,
        if isOk r then Do CloseServer (λ _, pbind (λ _, Do Sync (λ _, Ret PoweredOff)) (stop_docker docker))
        else Do (Sleep 500) (λ _, serve_loop n acct docker l')))
      (poll GatewayIP decode encode show acct l)
  end.
(** The sessions: what may start only when everything else is in place. *)
Definition sessions (fuel : nat) (cfg : Config) (acct : account) (env : list string) (live : liveState) : gio outcome :=
  docker ← match c_Docker cfg with
           | None => mret None
           | Some disk => pid ← startDocker disk acct; mret (Some pid)
           end;
  _ ← (if c_NoPrivilegeEscalation cfg then disablePrivilegeEscalation else mret ());
  _ ← newSSHServer cfg acct env;
  ln ← sysf "listen" "" (call (Listen "tcp" (":" +:+ fmt_nat SSHPort)));
  _ ← run (call (Serve ln));
  _ ← run (call (StartService Reaper));
  defer (run (serve_loop fuel acct docker live)) (call (StopService Reaper)).
Definition services (fuel : nat) (cfg : Config) (acct : account) (env : list string) (live : liveState) : gio outcome :=
  _ ← warn (setupZram pageSize);
  _ ← run (call (StartService Reclaim));
  defer (
    _ ← run (call KernelDefaults);
    with_service ExecLog (with_service OOMGuard (sessions fuel cfg acct env live))) (call (StopService Reclaim)).
Definition boot (fuel : nat) (cfg : Config) (mapper : option Z) (id : ids) : gio outcome :=
  _ ← network cfg;
  _ ← run (call (StartService ClockSync));
  defer (
    acct ← sysf "account" "" (call (EnsureAccount (i_UID id) (i_GID id)));
    live ← agent_fs cfg mapper acct;
    services fuel cfg acct (sessionEnv environ cfg) live) (call (StopService ClockSync)).
Definition Init (fuel : nat) : gio outcome :=
  cfg ← loadConfig;
  _ ← sysf "essential mounts" "" (call Essential);
  mi ← root_fs cfg;
  defer (boot fuel cfg (mi : option Z * ids).1 mi.2) (close_mapper mi.1).
End Init.
