(* ===== verification/GuestBootSpec.v ===== *)
(** * What the boot of the guest guarantees

    Facts about the runs of [Init]: what has been done when the first session
    can start, the order of the mounts, and what is stopped when it returns. *)

From S2P Require Import Prelude GoStrings GoStrconv GoPath GuestSys Accounts Prog GuestCalls GuestMounts GuestLive GuestBoot.
Open Scope string_scope.
Open Scope list_scope.
Open Scope Z_scope.

(** ** Calls that succeeded *)

Definition ok_mount (h : list gitem) (src tgt ty : string) (fl : list msflag) (d : string) : Prop :=
  (existT (Mount src tgt ty fl d) (Ok () : answer (Mount src tgt ty fl d)) : gitem) ∈ h.
Definition ok_move (h : list gitem) (tgt : string) : Prop :=
  ∃ fd, (existT (MoveMount fd (AtPath tgt)) (Ok () : answer (MoveMount fd (AtPath tgt))) : gitem) ∈ h.
Definition share_done (s : Share) (h : list gitem) : Prop :=
  ok_mount h (sh_Tag s) (sh_GuestPath s) "virtiofs" (share_attrs (sh_ReadOnly s)) "" ∨ ok_move h (sh_GuestPath s).
Definition bind_done (b : Bind) (h : list gitem) : Prop :=
  ok_mount h (bd_Source b) (bd_Target b) "" [MS_BIND] "" ∧ ok_mount h "" (bd_Target b) "" (bind_flags (bd_ReadOnly b)) "".
Definition mount_done (m : guestMount) : list gitem → Prop := match m with MShare s => share_done s | MBind b => bind_done b end.
Definition pin_done (p : string) (h : list gitem) : Prop := ok_mount h p p "" [MS_BIND] "".
Definition protect_done (p : string) (h : list gitem) : Prop := ok_mount h p p "" [MS_BIND] "" ∧ ok_mount h "" p "" protect_flags "".
Definition owned (acct : account) (mode : Z) (d : string) (h : list gitem) : Prop :=
  (existT (Chmod d mode) (Ok () : answer (Chmod d mode)) : gitem) ∈ h ∧
  (existT (Lchown d (a_uid acct) (a_gid acct)) (Ok () : answer (Lchown d (a_uid acct) (a_gid acct))) : gitem) ∈ h.
(** Every capability of the kernel outside the ones kept is dropped. *)
Definition caps_dropped (h : list gitem) : Prop :=
  ∃ data : answer (ReadFile cap_path), (existT (ReadFile cap_path) data : gitem) ∈ h ∧
    ∀ c, 0 <= c <= last_cap data → keep c = false → (existT (BoundingSetDrop c) (Ok () : answer (BoundingSetDrop c)) : gitem) ∈ h.
Definition unprivileged (h : list gitem) : Prop :=
  (existT NoNewPrivs (Ok () : answer NoNewPrivs) : gitem) ∈ h ∧ caps_dropped h.
Lemma mount_done_lasting m : lasting (mount_done m).
Proof. destruct m; unfold mount_done, share_done, bind_done, ok_mount, ok_move; auto with lasting. Qed.
Lemma owned_lasting acct mode d : lasting (owned acct mode d).
Proof. unfold owned. auto with lasting. Qed.

(** ** The steps *)

Notation "'ends' m" := (after (λ _ _, True) m) (at level 10).
Lemma ends_sysf {A} w a c (g : answer c → result errno A) h :
  ends (sysf w a (Do c (λ x, Ret (g x)))) h (λ v h', ∃ x, (existT c x : gitem) ∈ h' ∧ g x = Ok v).
Proof.
  cbn. split; [done|]. intros x. destruct (g x) eqn:E; cbn; [|done]. exists x. split; [|done]. apply elem_of_app. right. by left.
Qed.
Lemma ends_mount w a src tgt ty fl d h : ends (sysf w a (call (Mount src tgt ty fl d))) h (λ _ h', ok_mount h' src tgt ty fl d).
Proof. apply (after_mono _ _ _ _ _ (ends_sysf w a (Mount src tgt ty fl d) (λ x, x) h)). intros [] t (x & Hx & E). unfold ok_mount. by rewrite -E. Qed.
Lemma ends_move w a fd p h : ends (sysf w a (call (MoveMount fd (AtPath p)))) h (λ _ h', ok_move h' p).
Proof. apply (after_mono _ _ _ _ _ (ends_sysf w a (MoveMount fd (AtPath p)) (λ x, x) h)). intros [] t (x & Hx & E). exists fd. by rewrite -E. Qed.
Lemma ends_true {A} (m : gio A) h : ends m h (λ _ _, True).
Proof. apply (safe_calls _ (λ _, True)); [|done|by intros [?|?]]. induction m as [a|c k IH]; cbn; [done|]. split; [done|]. intros x. apply IH. Qed.
Lemma calls_true {A} (p : gprog A) : calls (λ _, True) p.
Proof. induction p as [a|c k IH]; cbn; [done|]. split; [done|]. intros x. apply IH. Qed.
Lemma ends_then {A B} (m : gio A) (f : A → gio B) h (Q : B → list gitem → Prop) :
  (∀ a h', ends (f a) h' Q) → ends (m ≫= f) h Q.
Proof. intros Hf. apply (after_bind _ _ _ _ (λ _ _, True)); [apply ends_true|]. intros a t _. apply Hf. Qed.

Lemma bindInternal_ends b acct h : ends (bindInternal b acct) h (λ _ h', bind_done b h').
Proof.
  unfold bindInternal. apply ends_then. intros [] h1. apply ends_then. intros [] h2.
  apply (after_step _ (λ _, True) (λ _ h', ok_mount h' (bd_Source b) (bd_Target b) "" [MS_BIND] "")); [done|done|apply ends_mount|].
  intros [] h3 _ H3. apply (after_mono _ _ _ (λ _ h', ok_mount h' (bd_Source b) (bd_Target b) "" [MS_BIND] "" ∧ ok_mount h' "" (bd_Target b) "" (bind_flags (bd_ReadOnly b)) "")); [|done].
  apply after_and; [|apply ends_mount]. apply (after_calls _ _ _ _ _ (calls_true _)); [done|apply lasting_in|exact H3].
Qed.
Lemma mapper_mountShare_ends mapper s h :
  ends (mapper_mountShare mapper (sh_Tag s) (sh_GuestPath s) (sh_ReadOnly s)) h (λ _ h', share_done s h').
Proof.
  destruct mapper as [ns|].
  - unfold mapper_mountShare. apply ends_then. intros fs h1.
    apply (after_finally _ (λ _, True)); [|apply calls_true|done|intros []; exact (mount_done_lasting (MShare s))].
    apply ends_then. intros [] h2. apply ends_then. intros [] h3. apply ends_then. intros mnt h4.
    apply (after_finally _ (λ _, True)); [|apply calls_true|done|intros []; exact (mount_done_lasting (MShare s))].
    apply ends_then. intros [] h5. apply ends_then. intros [] h6.
    apply (after_mono _ _ _ _ _ (ends_move "attach" "" mnt (sh_GuestPath s) h6)). intros [] t H. by right.
  - cbn. split; [done|]. intros [[]|e]; cbn; [|done]. left. apply elem_of_app. right. by left.
Qed.
Lemma mountShare_ends s acct mapper h : ends (mountShare s acct mapper) h (λ _ h', share_done s h').
Proof.
  unfold mountShare. apply ends_then. intros [] h1. apply after_wrap.
  assert (∀ n last h, (n = 0%nat → last ≠ Ok ()) → ends (retry_share n mapper s last : gio ()) h (λ _ h', share_done s h')) as Hloop.
  { intros n. induction n as [|n IH]; intros last h0 Hlast; cbn [retry_share].
    - unfold after. cbn. destruct last as [[]|]; [by destruct (Hlast eq_refl)|done].
    - apply (safe_then _ _ _ _ _ _ (mapper_mountShare_ends mapper s h0)). intros [[]|e] t Hr; cbn [isOk]; [exact Hr|].
      cbn [safe]. split; [done|]. intros []. by apply IH. }
  by apply Hloop.
Qed.
Lemma mount_one_ends acct mapper m h : ends (mount_one acct mapper m) h (λ _ h', mount_done m h').
Proof. destruct m as [s|b]; [apply mountShare_ends|apply bindInternal_ends]. Qed.
Lemma pin_ends p h : ends (pin p) h (λ _ h', pin_done p h').
Proof. apply ends_mount. Qed.
Lemma protect_path_ends p h : ends (protect p) h (λ _ h', protect_done p h').
Proof.
  apply (after_step _ (λ _, True) (λ _ h', ok_mount h' p p "" [MS_BIND] "")); [done|done|apply ends_mount|].
  intros [] h1 _ H1. apply after_and; [|apply ends_mount]. apply (after_calls _ _ _ _ _ (calls_true _)); [done|apply lasting_in|exact H1].
Qed.
Lemma protectPaths_ends sort pins readOnly h :
  (∀ l, sort l ≡ₚ l) →
  ends (protectPaths sort pins readOnly) h (λ _ h', (∀ p, p ∈ pins → pin_done p h') ∧ ∀ p, p ∈ readOnly → protect_done p h').
Proof.
  intros Hs. unfold protectPaths.
  apply (after_step _ (λ _, True) (λ _ h', ∀ p, p ∈ sort pins → pin_done p h')); [done|done| |].
  { apply after_each; [intros p t t'; apply lasting_in|intros p t _; apply pin_ends]. }
  intros [] h1 _ H1. apply after_and.
  - apply (after_calls _ _ _ _ (λ h, ∀ p, p ∈ pins → pin_done p h) (calls_true _)); [done|unfold pin_done, ok_mount; auto with lasting|].
    intros p Hp. apply H1. by rewrite Hs.
  - apply after_each; [|intros p t _; apply protect_path_ends]. intros p t t' [E1 E2]. split; by apply lasting_in.
Qed.
Lemma ownedDir_ends d acct mode h : ends (ownedDir d acct mode) h (λ _ h', owned acct mode d h').
Proof.
  unfold ownedDir. apply ends_then. intros [] h1.
  apply (after_step _ (λ _, True) _ _ _ _ _ (λ _ _ _, I) I (ends_sysf "chmod" d (Chmod d mode) (λ x, x) h1)). intros [] h2 _ (x & Hx & ->).
  apply after_and; [apply (after_calls _ _ _ _ _ (calls_true _)); [done|apply lasting_in|exact Hx]|].
  apply (after_mono _ _ _ _ _ (ends_sysf "chown" d (Lchown d (a_uid acct) (a_gid acct)) (λ x, x) h2)). intros [] t (y & Hy & ->). exact Hy.
Qed.
Lemma caps_dropped_lasting : lasting caps_dropped.
Proof. intros h t (data & Hr & Hd). exists data. split; [by apply lasting_in|]. intros c Hc Hk. by apply lasting_in, Hd. Qed.
Lemma disable_ends h : ends disablePrivilegeEscalation h (λ _ h', unprivileged h').
Proof.
  unfold disablePrivilegeEscalation, mbind, io_bind. cbn [run pbind call]. split; [done|]. intros data.
  set (h0 := h ++ [existT (ReadFile cap_path) data]). set (all := map Z.of_nat (seq 0 (Z.to_nat (last_cap data + 1)))).
  apply (after_bind _ (for_each drop_cap all) _ _ (λ _ h', caps_dropped h')).
  - apply (after_mono _ _ _ (λ _ h', (existT (ReadFile cap_path) data : gitem) ∈ h' ∧ ∀ c, c ∈ all →
       keep c = false → (existT (BoundingSetDrop c) (Ok () : answer (BoundingSetDrop c)) : gitem) ∈ h')).
    { apply after_and.
      - apply (after_calls _ _ _ _ _ (calls_true _)); [done|apply lasting_in|]. unfold h0. apply elem_of_app. right. by left.
      - apply after_each; [intros c t t'; apply lasting_imp, lasting_in|]. intros c t _. unfold drop_cap. destruct (keep c); [by cbn|].
        apply (after_mono _ _ _ _ _ (ends_sysf "drop capability from the bounding set" (fmt_nat c) (BoundingSetDrop c) (λ x, x) (h0 ++ t))).
        intros [] t' (x & Hx & ->) _. exact Hx. }
    intros [] t [Hr Hd]. exists data. split; [done|]. intros c Hc Hk. apply Hd; [|done]. unfold all. apply list_elem_of_fmap.
    exists (Z.to_nat c). split; [lia|]. apply elem_of_seq. lia.
  - intros [] t Hd. apply after_and.
    + apply (after_mono _ _ _ _ _ (ends_sysf "set no_new_privs" "" NoNewPrivs (λ x, x) (h0 ++ t))). intros [] t' (x & Hx & ->). exact Hx.
    + apply (after_calls _ _ _ _ _ (calls_true _)); [done|apply caps_dropped_lasting|exact Hd].
Qed.

(** ** What comes before the sessions *)

Definition not_serve (c : gcall) : Prop := match c with Serve _ => False | _ => True end.
(** Neither a session nor a service is started. *)
Definition plain (c : gcall) : Prop := match c with Serve _ | StartService _ | TryStart _ | StopService _ => False | _ => True end.
Definition no_service (c : gcall) : Prop := match c with StartService _ | TryStart _ | StopService _ => False | _ => True end.
Lemma plain_not_serve {A} (p : gprog A) : calls plain p → calls not_serve p.
Proof. apply calls_mono. by intros []. Qed.
Lemma plain_no_service {A} (p : gprog A) : calls plain p → calls no_service p.
Proof. apply calls_mono. by intros []. Qed.
Lemma attach_layers_calls todo l : calls plain (attach_layers todo l).
Proof. revert l. induction todo as [|[[src dst] ns] todo IH]; intros l; cbn [attach_layers]; [done|]. apply calls_bind; [walk|]. intros [[]|e]; [apply IH|done]. Qed.
Lemma detach_all_calls l : calls plain (detach_all l).
Proof. induction l as [|d l IH]; cbn [detach_all]; [done|]. by split. Qed.
Lemma files_plain {A} (p : gprog A) : calls on_files p → calls plain p.
Proof. apply calls_mono. by intros []. Qed.
Lemma live_plain {A} (p : gprog A) : calls on_live p → calls plain p.
Proof. apply calls_mono. by intros [] [H|H]. Qed.
Lemma makeParents_calls d acct : calls plain (makeParents d acct).
Proof. apply files_plain, makeParents_files. Qed.
Lemma set_idmap_calls n m ns last : calls plain (set_idmap n m ns last).
Proof. revert last. induction n as [|n IH]; intros last; cbn [set_idmap]; [done|]. split; [done|]. intros r. destruct (is_errno EINVAL r); [|done]. by split. Qed.
#[export] Hint Resolve plain_not_serve plain_no_service attach_layers_calls detach_all_calls makeParents_calls set_idmap_calls : calls.
Lemma retry_share_calls n m s last : calls plain (retry_share n m s last).
Proof.
  revert last. induction n as [|n IH]; intros last; cbn [retry_share]; [done|]. apply calls_bind; [walk|]. intros r. destruct (isOk r); [done|].
  split; [done|]. intros _. apply IH.
Qed.
Lemma await_exit_calls n pid d : calls plain (await_exit n pid d).
Proof. induction n as [|n IH]; cbn [await_exit]; [done|]. split; [done|]. intros now. destruct (_ <? _); [|done]. split; [done|]. intros r. destruct (is_errno ESRCH r); [done|]. by split. Qed.
#[export] Hint Resolve retry_share_calls await_exit_calls : calls.
Section Calls.
Context (gw g6 l6 : string) (parse : string → option Config) (decode : string → option Reload) (encode : ReloadDone → string)
  (show : gerr → string) (environ : list string) (pageSize : nat) (sort : list string → list string).
Lemma loadConfig_calls : calls plain (loadConfig parse).
Proof. walk. Qed.
Lemma root_fs_calls cfg : calls plain (root_fs cfg).
Proof. walk. Qed.
Lemma network_calls cfg : calls plain (network gw g6 l6 cfg).
Proof. walk. Qed.
Lemma mount_one_calls acct mapper m : calls plain (mount_one acct mapper m).
Proof. walk. Qed.
Lemma setSnapshots_plain acct next l : calls plain (setSnapshots acct next l).
Proof. apply live_plain, mounts_live, setSnapshots_calls. Qed.
Lemma apply_plain acct r l : calls plain (apply gw acct r l).
Proof. apply live_plain, apply_calls. Qed.
Lemma poll_plain acct l : calls plain (poll gw decode encode show acct l).
Proof. apply live_plain, poll_calls. Qed.
#[local] Hint Resolve setSnapshots_plain apply_plain poll_plain : calls.
Lemma agent_fs_calls cfg mapper acct : calls plain (agent_fs gw sort cfg mapper acct).
Proof. walk. Qed.
Lemma startDocker_calls disk acct : calls plain (startDocker disk acct).
Proof. walk. Qed.
Lemma disable_calls : calls plain disablePrivilegeEscalation.
Proof. walk. Qed.
Lemma serve_loop_calls fuel acct docker l : calls plain (serve_loop gw decode encode show fuel acct docker l).
Proof. revert l. induction fuel as [|n IH]; intros l; cbn [serve_loop]; [done|]. walk. Qed.

(** *** Facts *)

Definition fs_ready (cfg : Config) (h : list gitem) : Prop :=
  (∀ m, m ∈ mountOrder (c_Shares cfg) (c_Binds cfg) → mount_done m h) ∧
  (∀ p, p ∈ c_Pins cfg → pin_done p h) ∧ (∀ p, p ∈ c_ReadOnly cfg → protect_done p h) ∧
  ∃ acct, ∀ d, d ∈ agent_dirs → owned acct mode_700 d h.
Lemma fs_ready_lasting cfg : lasting (fs_ready cfg).
Proof.
  unfold fs_ready. apply lasting_and; [|apply lasting_and; [|apply lasting_and]].
  - apply lasting_all. intros m. apply lasting_imp, mount_done_lasting.
  - apply lasting_all. intros p. apply lasting_imp, lasting_in.
  - apply lasting_all. intros p. apply lasting_imp, lasting_and; apply lasting_in.
  - apply lasting_ex. intros acct. apply lasting_all. intros d. apply lasting_imp, owned_lasting.
Qed.
Context (sort_perm : ∀ l, sort l ≡ₚ l).
Lemma agent_fs_ends cfg mapper acct h : ends (agent_fs gw sort cfg mapper acct) h (λ _ h', fs_ready cfg h').
Proof using sort_perm.
  unfold agent_fs. apply ends_then. intros [] h1. apply ends_then. intros [] h2.
  set (F1 := λ h, ∀ m, m ∈ mountOrder (c_Shares cfg) (c_Binds cfg) → mount_done m h).
  assert (lasting F1) as L1 by (apply lasting_all; intros m; apply lasting_imp, mount_done_lasting).
  apply (after_step _ (λ _, True) (λ _ h', F1 h')); [done|done| |].
  { apply after_each; [intros m t t'; apply mount_done_lasting|intros m t _; apply mount_one_ends]. }
  intros [] h3 _ H3. apply (after_step _ F1 (λ _ _, True)); [done|done|apply ends_true|]. intros live h4 H4 _.
  apply (after_step _ F1 _ _ _ _ _ L1 H4 (protectPaths_ends sort (c_Pins cfg) (c_ReadOnly cfg) h4 sort_perm)). intros [] h5 H5 [Hp Hr].
  apply (after_step _ (λ h, F1 h ∧ (∀ p, p ∈ c_Pins cfg → pin_done p h) ∧ (∀ p, p ∈ c_ReadOnly cfg → protect_done p h))
    (λ _ h', ∀ d, d ∈ agent_dirs → owned acct mode_700 d h')); [|done| |].
  - apply lasting_and; [done|]. unfold pin_done, protect_done, ok_mount. auto with lasting.
  - apply after_each; [intros d t t'; apply owned_lasting|intros d t _; apply ownedDir_ends].
  - intros [] h6 (H6 & Hp6 & Hr6) Hd. apply (after_calls _ _ _ _ (fs_ready cfg) (calls_true _)); [done|apply fs_ready_lasting|].
    split; [done|]. split; [done|]. split; [done|]. by exists acct.
Qed.

(** What has happened when a session can start. *)
Definition guarded (h : list gitem) : Prop :=
  ∃ text cfg, (existT (ReadFile ConfigPath) (Ok text : answer (ReadFile ConfigPath)) : gitem) ∈ h ∧ parse text = Some cfg ∧
    fs_ready cfg h ∧ (c_NoPrivilegeEscalation cfg = true → unprivileged h).
Definition serve_pre (h : list gitem) (c : gcall) : Prop := match c with Serve _ => guarded h | _ => True end.
Lemma not_serve_pre h t c : not_serve c → serve_pre (h ++ t) c.
Proof. by destruct c. Qed.
Lemma before_serve {A} (m : gio A) h (Q : A → list gitem → Prop) : calls not_serve m → ends m h Q → after serve_pre m h Q.
Proof. intros Hc HQ. exact (safe_pre _ _ _ _ _ Hc (not_serve_pre h) HQ). Qed.
Lemma sessions_guarded fuel cfg acct env live h text :
  (existT (ReadFile ConfigPath) (Ok text : answer (ReadFile ConfigPath)) : gitem) ∈ h → parse text = Some cfg → fs_ready cfg h →
  after serve_pre (sessions gw decode encode show fuel cfg acct env live) h (λ _ _, True).
Proof.
  intros Hr Hp Hf. unfold sessions.
  set (F := λ h : list gitem, (existT (ReadFile ConfigPath) (Ok text : answer (ReadFile ConfigPath)) : gitem) ∈ h ∧ fs_ready cfg h).
  assert (lasting F) as LF by (apply lasting_and; [apply lasting_in|apply fs_ready_lasting]).
  apply (after_step _ F (λ _ _, True)); [done|done|apply before_serve; [walk|apply ends_true]|]. intros docker h1 H1 _.
  apply (after_step _ F (λ _ h', c_NoPrivilegeEscalation cfg = true → unprivileged h')); [done|done| |].
  { destruct (c_NoPrivilegeEscalation cfg); [|done]. apply before_serve; [apply plain_not_serve, disable_calls|].
    apply (after_mono _ _ _ _ _ (disable_ends h1)). done. }
  intros [] h2 H2 Hu.
  set (G := λ h, F h ∧ (c_NoPrivilegeEscalation cfg = true → unprivileged h)).
  assert (lasting G) as LG by (apply lasting_and; [done|]; apply lasting_imp, lasting_and; [apply lasting_in|apply caps_dropped_lasting]).
  apply (after_step _ G (λ _ _, True)); [done|done|apply before_serve; [walk|apply ends_true]|]. intros [] h3 H3 _.
  apply (after_step _ G (λ _ _, True)); [done|done|apply before_serve; [walk|apply ends_true]|]. intros ln h4 ((Hr4 & Hf4) & Hu4) _.
  apply (after_bind _ _ _ _ (λ _ _, True)).
  { cbn. split; [|done]. by exists text, cfg. }
  intros [] t _. apply before_serve; [|apply ends_true]. apply calls_io; [walk|]. intros []. apply calls_bind; [apply calls_bind; [apply plain_not_serve, serve_loop_calls|done]|].
  walk.
Qed.
Lemma after_defer m last h : after serve_pre m h (λ _ _, True) → calls not_serve last → after serve_pre (defer m last) h (λ _ _, True).
Proof.
  intros Hm Hl. apply (safe_then _ _ _ _ _ _ Hm). intros r t _. destruct r as [[]|e]; try done.
  all: apply (safe_calls _ not_serve); [by apply calls_bind|apply not_serve_pre|by intros [?|?]].
Qed.
Lemma after_service s m h (F : list gitem → Prop) : lasting F → F h → (∀ h', F h' → after serve_pre m h' (λ _ _, True)) →
  after serve_pre (with_service s m) h (λ _ _, True).
Proof.
  intros LF Hh Hm. apply (after_step _ F (λ _ _, True)); [done|done|apply before_serve; [walk|apply ends_true]|]. intros [[]|e] h1 H1 _.
  - apply after_defer; [by apply Hm|by split].
  - by apply Hm.
Qed.
Lemma boot_guarded fuel cfg mapper id h text :
  (existT (ReadFile ConfigPath) (Ok text : answer (ReadFile ConfigPath)) : gitem) ∈ h → parse text = Some cfg →
  after serve_pre (boot gw g6 l6 decode encode show environ pageSize sort fuel cfg mapper id) h (λ _ _, True).
Proof using sort_perm.
  intros Hr Hp. unfold boot, services.
  set (F := λ h : list gitem, (existT (ReadFile ConfigPath) (Ok text : answer (ReadFile ConfigPath)) : gitem) ∈ h).
  assert (lasting F) as LF by apply lasting_in.
  apply (after_step _ F (λ _ _, True)); [done|done|apply before_serve; [apply plain_not_serve, network_calls|apply ends_true]|]. intros [] h1 H1 _.
  apply (after_step _ F (λ _ _, True)); [done|done|apply before_serve; [walk|apply ends_true]|]. intros [] h2 H2 _.
  apply after_defer; [|by split].
  apply (after_step _ F (λ _ _, True)); [done|done|apply before_serve; [walk|apply ends_true]|]. intros acct h3 H3 _.
  apply (after_step _ F (λ _ h', fs_ready cfg h')); [done|done|apply before_serve; [apply plain_not_serve, agent_fs_calls|apply agent_fs_ends]|]. intros live h4 H4 Hf.
  set (G := λ h, F h ∧ fs_ready cfg h). assert (lasting G) as LG by (apply lasting_and; [done|apply fs_ready_lasting]).
  apply (after_step _ G (λ _ _, True)); [done|done|apply before_serve; [walk|apply ends_true]|]. intros [] h5 H5 _.
  apply (after_step _ G (λ _ _, True)); [done|done|apply before_serve; [walk|apply ends_true]|]. intros [] h6 H6 _.
  apply after_defer; [|by split].
  apply (after_step _ G (λ _ _, True)); [done|done|apply before_serve; [walk|apply ends_true]|]. intros [] h7 H7 _.
  apply (after_service _ _ _ G LG H7). intros h8 H8. apply (after_service _ _ _ G LG H8). intros h9 [H9 Hf9].
  exact (sessions_guarded fuel cfg acct _ live h9 text H9 Hp Hf9).
Qed.
End Calls.

(** ** The order of the mounts *)

(** The call that puts [m] in place. *)
Definition starts (c : gcall) (m : guestMount) : Prop :=
  match c, m with
  | Mount src tgt ty fl _, MBind b => src = bd_Source b ∧ tgt = bd_Target b ∧ ty = "" ∧ fl = [MS_BIND]
  | Mount _ tgt ty _ _, MShare s => tgt = sh_GuestPath s ∧ ty = "virtiofs"
  | MoveMount _ (AtPath p), MShare s => p = sh_GuestPath s
  | _, _ => False
  end.
(** [m] must wait for [m']. *)
Definition waits (m m' : guestMount) : Prop :=
  internal m = false ∧ (internal m' = true ∨ ∃ rest, GuestSys.target m = GuestSys.target m' +:+ "/" +:+ rest).
(** The calls that mount [m]. *)
Definition mount_calls (m : guestMount) (c : gcall) : Prop :=
  match c with
  | Sleep _ | Fsopen _ | FsconfigSource _ _ | FsconfigCreate _ | Fsmount _ _ | Fstatat _ | SetIdmap _ _ | Close _ => True
  | Mount _ tgt ty _ _ => match m with MShare s => tgt = sh_GuestPath s ∧ ty = "virtiofs" | MBind b => tgt = bd_Target b ∧ ty = "" end
  | MoveMount _ (AtPath p) => match m with MShare s => p = sh_GuestPath s | MBind _ => False end
  | _ => on_files c
  end.
Lemma files_mount_calls m {A} (p : gprog A) : calls on_files p → calls (mount_calls m) p.
Proof. apply calls_mono. by intros []. Qed.
Lemma mount_one_mounts acct mapper m : calls (mount_calls m) (mount_one acct mapper m).
Proof.
  destruct m as [s|b]; cbn [mount_one].
  - apply calls_io; [apply calls_wrap, files_mount_calls, makeParents_files|intros []]. apply calls_wrap.
    assert (calls (mount_calls (MShare s)) (mapper_mountShare mapper (sh_Tag s) (sh_GuestPath s) (sh_ReadOnly s))) as Hm.
    { destruct mapper as [ns|]; [|by split; [|intros []]]. apply calls_io; [by split; [|intros []]|intros fs]. apply calls_bind; [|by split].
      apply calls_io; [by split; [|intros []]|intros []]. apply calls_io; [by split; [|intros []]|intros []].
      apply calls_io; [by split; [|intros []]|intros mnt]. apply calls_bind; [|by split].
      apply calls_io; [by split|intros []]. apply calls_io; [|intros []; by split; [|intros []]]. apply calls_wrap.
      generalize (Ok () : result errno ()). generalize 40%nat. intros n. induction n as [|n IH]; intros last; cbn [set_idmap]; [done|].
      split; [done|]. intros r. destruct (is_errno EINVAL r); [|done]. by split. }
    generalize (Ok () : result gerr ()). generalize mountRetries. intros n. induction n as [|n IH]; intros last; cbn [retry_share]; [done|].
    apply calls_bind; [exact Hm|]. intros r. destruct (isOk r); [done|]. by split.
  - apply calls_io; [by destruct (bindable (bd_Source b))|intros []].
    apply calls_io; [apply calls_wrap, files_mount_calls, makeParents_files|intros []].
    apply calls_io; [by split; [|intros []]|intros []]. by split; [|intros []].
Qed.
Lemma mount_calls_waits x c m m' : mount_calls x c → starts c m → waits m m' → waits x m'.
Proof.
  unfold waits. destruct c; try done; cbn [mount_calls starts]; destruct x as [s|b], m as [s'|b']; cbn [internal GuestSys.target]; try done.
  - intros [-> _] [E _]. by rewrite E.
  - by intros [_ ->] (_ & _ & ? & _).
  - by intros [_ ->] [_ ?].
  - intros [-> _] (_ & E & _). by rewrite E.
  - destruct dst as [|p]; [done|]. intros -> E. by rewrite E.
  - by destruct dst.
  - by destruct dst.
  - by destruct dst.
Qed.

(** A directory is mounted before what is mounted inside it. In every run
    of the loop that mounts the shares and the persistent directories, when the
    call is made that puts one in place, the internal shares are mounted, and so is
    every share or directory whose mount point contains its mount point. *)
Theorem mounts_in_order env acct mapper shares binds h t1 c x t2 m m' :
  (exec env (for_each (mount_one acct mapper) (mountOrder shares binds)) h).2 = h ++ t1 ++ existT c x :: t2 →
  m ∈ mountOrder shares binds → m' ∈ mountOrder shares binds → starts c m → waits m m' → mount_done m' (h ++ t1).
Proof.
  intros E Hm Hm' Hs Hw. set (ms := mountOrder shares binds) in *.
  destruct (mountOrder_parents shares binds) as (_ & Hord & _). fold ms in Hord.
  set (Pre := λ h c, ∀ m m', m ∈ ms → m' ∈ ms → starts c m → waits m m' → mount_done m' h).
  assert (∀ l2 l1 h, ms = l1 ++ l2 → (∀ y, y ∈ l1 → mount_done y h) → after Pre (for_each (mount_one acct mapper) l2) h (λ _ _, True)) as Hloop.
  { intros l2. induction l2 as [|y l2 IH]; intros l1 h0 Hms Hl1; [done|]. cbn [for_each].
    apply (after_step _ (λ h, ∀ z, z ∈ l1 → mount_done z h) (λ _ h', mount_done y h')).
    - apply lasting_all. intros z. apply lasting_imp, mount_done_lasting.
    - exact Hl1.
    - apply (safe_pre _ _ _ _ _ (mount_one_mounts acct mapper y)); [|apply mount_one_ends].
      intros t c0 Hc m0 m1 _ Hm1 Hs0 Hw0. apply mount_done_lasting, Hl1. destruct (mount_calls_waits y c0 m0 m1 Hc Hs0 Hw0) as [Hi Hwy].
      apply list_elem_of_lookup in Hm1 as [i Hi1].
      assert ((i < length l1)%nat) as Hlt.
      { apply (Hord i (length l1) m1 y); [done| |done|done]. rewrite Hms. by rewrite list_lookup_middle. }
      rewrite Hms lookup_app_l in Hi1; [|done]. by apply list_elem_of_lookup_2 in Hi1.
    - intros [] h1 H1 Hy. apply (IH (l1 ++ [y])); [by rewrite -assoc|]. intros z Hz. apply elem_of_app in Hz as [Hz|Hz]; [by apply H1|].
      apply list_elem_of_singleton in Hz as ->. exact Hy. }
  destruct (exec_safe Pre env _ _ _ (Hloop ms [] h eq_refl ltac:(intros y Hy; by apply elem_of_nil in Hy))) as (t & E' & _ & Hpre).
  rewrite E' in E. apply app_inv_head in E. exact (Hpre t1 c x t2 E m m' Hm Hm' Hs Hw).
Qed.

(** ** What is stopped *)

Definition svc_weight (s : service) (i : gitem) : Z :=
  match i with existT c x =>
    match c as c return answer c → Z with
    | StartService s' => λ _, Z.b2z (bool_decide (s' = s))
    | TryStart s' => λ r, if isOk r then Z.b2z (bool_decide (s' = s)) else 0
    | StopService s' => λ _, - Z.b2z (bool_decide (s' = s))
    | _ => λ _, 0
    end x
  end.
(** The services running are the same again when the program has returned. *)
Definition stops (s : service) (m : gio outcome) : Prop :=
  ∀ h, safe (λ _ _, True) m h (λ r h', r ≠ Ok StillRunning → weight (svc_weight s) h' = weight (svc_weight s) h).
Section Stops.
Context (s : service).
Lemma stops_after {A} (p : gio A) (f : A → gio outcome) : calls no_service p → (∀ a, stops s (f a)) → stops s (p ≫= f).
Proof.
  intros Hp Hf h. apply (safe_then _ _ _ _ (λ _ h', weight (svc_weight s) h' = weight (svc_weight s) h)).
  - revert h. induction p as [r|c k IH]; intros h; cbn; [done|]. destruct Hp as [Hc Hk]. split; [done|]. intros x.
    apply (safe_mono _ _ _ _ _ (IH x (Hk x) (h ++ [existT c x]))). intros a t ->. rewrite weight_app. cbn. destruct c; try done; cbn; lia.
  - intros [a|e] t Hw; [|done]. apply (safe_mono _ _ _ _ _ (Hf a (h ++ t))). intros r t' Hr Hne. by rewrite Hr.
Qed.
Lemma stops_started s' m : stops s m → ∀ h, safe (λ _ _, True) (defer m (call (StopService s'))) h
  (λ r h', r ≠ Ok StillRunning → weight (svc_weight s) h' = weight (svc_weight s) h - Z.b2z (bool_decide (s' = s))).
Proof.
  intros Hm h. apply (safe_then _ _ _ _ _ _ (Hm h)). intros r t Hr.
  destruct r as [[]|e]; cbn; [| done|]; (split; [done|]); intros [] _; rewrite weight_app; cbn; rewrite Hr //; lia.
Qed.
Lemma stops_start s' m : stops s m → stops s (_ ← run (call (StartService s')); defer m (call (StopService s'))).
Proof.
  intros Hm h. cbn. split; [done|]. intros []. apply (safe_mono _ _ _ _ _ (stops_started s' m Hm _)). intros r t Hr Hne.
  rewrite Hr // weight_app. cbn. lia.
Qed.
Lemma stops_with s' m : stops s m → stops s (with_service s' m).
Proof.
  intros Hm h. cbn. split; [done|]. intros [[]|e].
  - apply (safe_mono _ _ _ _ _ (stops_started s' m Hm _)). intros r t Hr Hne. rewrite Hr // weight_app. cbn. lia.
  - apply (safe_mono _ _ _ _ _ (Hm _)). intros r t Hr Hne. rewrite Hr // weight_app. cbn. lia.
Qed.
Lemma stops_quiet m : calls no_service m → stops s m.
Proof.
  intros Hm h. revert h. induction m as [r|c k IH]; intros h; cbn; [done|]. destruct Hm as [Hc Hk]. split; [done|]. intros x.
  apply (safe_mono _ _ _ _ _ (IH x (Hk x) (h ++ [existT c x]))). intros r t Hr Hne. rewrite Hr // weight_app. cbn. destruct c; try done; cbn; lia.
Qed.
Lemma stops_defer m last : stops s m → calls no_service last → stops s (defer m last).
Proof.
  intros Hm Hl h. apply (safe_then _ _ _ _ _ _ (Hm h)). intros r t Hr. destruct r as [[]|e]; try done.
  all: apply (safe_then _ _ _ _ (λ _ h', weight (svc_weight s) h' = weight (svc_weight s) (h ++ t)));
    [|intros [] t' Ht _; rewrite Ht; by apply Hr].
  all: generalize (h ++ t); intros h0; induction last as [[]|c k IH] in h0, Hl |- *; cbn; [done|]; destruct Hl as [Hc Hk]; split; [done|]; intros x.
  all: apply (safe_mono _ _ _ _ _ (IH x (Hk x) (h0 ++ [existT c x]))); intros a t' ->; rewrite weight_app; cbn; destruct c; try done; cbn; lia.
Qed.
(** What the boot starts is stopped. In every run in which the guest's init
    returns, at the shutdown or with an error at any step, each background
    service is running as often as before: every one that was started has been
    stopped, and none is stopped that was not started. *)
Theorem Init_stops env fuel gw g6 l6 parse decode encode show environ pageSize sort :
  let out := exec env (Init gw g6 l6 parse decode encode show environ pageSize sort fuel) [] in
  out.1 ≠ Ok StillRunning → weight (svc_weight s) out.2 = 0.
Proof.
  assert (stops s (Init gw g6 l6 parse decode encode show environ pageSize sort fuel)) as H.
  { unfold Init. apply stops_after; [apply plain_no_service, loadConfig_calls|intros cfg].
    apply stops_after; [walk|intros []]. apply stops_after; [apply plain_no_service, root_fs_calls|intros [mapper id]]. cbn [fst snd].
    apply stops_defer; [|destruct mapper; [by split|done]].
    unfold boot. apply stops_after; [apply plain_no_service, network_calls|intros []]. apply stops_start.
    apply stops_after; [walk|intros acct]. apply stops_after; [apply plain_no_service, agent_fs_calls|intros live].
    unfold services. apply stops_after; [walk|intros []]. apply stops_start.
    apply stops_after; [walk|intros []]. apply stops_with, stops_with.
    unfold sessions. apply stops_after; [walk|intros docker]. apply stops_after; [destruct (c_NoPrivilegeEscalation cfg); walk|intros []].
    apply stops_after; [walk|intros []]. apply stops_after; [walk|intros ln]. apply stops_after; [by split|intros []]. apply stops_start.
    apply stops_quiet. apply calls_bind; [apply plain_no_service, serve_loop_calls|done]. }
  intros out. destruct (exec_safe _ env _ [] _ (H [])) as (t & E & HQ & _). unfold out. rewrite E. intros Hne. by rewrite HQ.
Qed.
End Stops.

(** *** Witnesses *)

Definition example_config : Config :=
  {| c_Hostname := "vm"; c_UID := 1000; c_GID := 1000; c_Home := "/home/agent"; c_WorkDir := "/home/agent/w";
     c_Shares := [{| sh_Tag := "s"; sh_GuestPath := "/home/agent/w"; sh_ReadOnly := false |};
                  {| sh_Tag := "i"; sh_GuestPath := HostDir; sh_ReadOnly := false |}];
     c_AuthorizedKey := "key"; c_Env := ["A=1"];
     c_Binds := [{| bd_Source := HostDir +:+ "/home"; bd_Target := "/home/agent"; bd_ReadOnly := false |}];
     c_Snapshots := []; c_CABundle := ""; c_IDMap := None; c_RootShare := ""; c_SSHAgent := true; c_GPGAgent := false; c_HostPorts := [];
     c_Pins := ["/home/agent/w/.git"]; c_ReadOnly := ["/home/agent/w/.git/hooks"]; c_NoPrivilegeEscalation := true; c_Docker := None |}.
Definition example_run : list gitem :=
  (exec (λ c _, granted c) (Init "10.0.0.1" "fd::2" "fe80::1" (λ _, Some example_config) (λ _, None) (λ _, "") (λ _, "") [] 4096 (λ l, l) 1) []).2.
Definition is_serve (i : gitem) : bool := match projT1 i with Serve _ => true | _ => false end.
Fixpoint before_first {A} (p : A → bool) (l : list A) : list A := match l with [] => [] | x :: l => if p x then [] else x :: before_first p l end.
Definition example_mounts : list gitem :=
  (exec (λ c _, granted c) (for_each (mount_one some_account None) (mountOrder (c_Shares example_config) (c_Binds example_config))) []).2.
Definition example_home : Bind := {| bd_Source := HostDir +:+ "/home"; bd_Target := "/home/agent"; bd_ReadOnly := false |}.
Definition example_work : Share := {| sh_Tag := "s"; sh_GuestPath := "/home/agent/w"; sh_ReadOnly := false |}.
Lemma mounts_in_order_witness : mount_done (MBind example_home) (take 6 example_mounts).
Proof.
  apply (mounts_in_order (λ c _, granted c) some_account None (c_Shares example_config) (c_Binds example_config) [] (take 6 example_mounts)
    (Mount "s" "/home/agent/w" "virtiofs" [MS_NOSUID; MS_NODEV] "") (Ok ()) [] (MShare example_work) (MBind example_home)).
  - vm_compute. reflexivity.
  - change (MShare example_work ∈ [MShare {| sh_Tag := "i"; sh_GuestPath := HostDir; sh_ReadOnly := false |}; MBind example_home; MShare example_work]).
    right. right. left.
  - change (MBind example_home ∈ [MShare {| sh_Tag := "i"; sh_GuestPath := HostDir; sh_ReadOnly := false |}; MBind example_home; MShare example_work]).
    right. left.
  - split; reflexivity.
  - split; [reflexivity|]. right. exists "w". reflexivity.
Defined.
Lemma Init_stops_witness : weight (svc_weight ExecLog) example_run = 0.
Proof.
  apply (Init_stops ExecLog (λ c _, granted c) 1 "10.0.0.1" "fd::2" "fe80::1" (λ _, Some example_config) (λ _, None) (λ _, "") (λ _, "") [] 4096 (λ l, l)).
  vm_compute. intros H. discriminate H.
Defined.
