(* ===== verification/HostCalls.v ===== *)
(** * The calls of the host commands

    What the flows of [src/internal/cmd/vm*_unix.go] ask of the system, of the
    Docker daemon, of the guest over SSH and of the components of the other
    files, as the calls of [Prog] with the type of their answers. A component with
    a model of its own (secrets, shares, snapshots, profiles, Git protection) is
    one call here. *)

From S2P Require Import Prelude GoStrings GoStrconv GoPath Config Resolve Vm VmHost VmReload Prog.
From S2P Require GuestSys Snapshots.
Open Scope string_scope.
Open Scope list_scope.
Open Scope Z_scope.

(** Errors of calls, with those the flows distinguish. *)
Inductive herrno := NotExist | NotPermitted | NoProcess | NotEmbedded | OtherErr (n : Z).
#[export] Instance herrno_eq_dec : EqDecision herrno.
Proof. solve_decision. Defined.
Inductive lock_op := LockShared | LockExclusive | LockExclusiveNow.
#[export] Instance lock_op_eq_dec : EqDecision lock_op.
Proof. solve_decision. Defined.
Definition SIGTERM : Z := 15.
Definition SIGKILL : Z := 9.
Definition SIGHUP : Z := 1.

(** What a [select] on a starting supervisor sees. *)
Inductive wait_event := Cancelled | ProcExited | Deadline | Tick.
(** A reload event of the broker log ([brokerReload]). *)
Record brokerReload := { br_PolicyError : string; br_RuntimeErrors : list string }.
(** What [vm.PruneImages] removed. *)
Record PruneResult := { pr_Refs : Z; pr_Images : Z; pr_Layers : Z }.

Inductive hcall :=
(* files *)
| MkdirAll (p : string) (mode : Z) | OpenFile (p : string) | CloseFile (fd : Z) | Flock (fd : Z) (how : lock_op)
| ReadFile (p : string) | WriteFile (p data : string) | RemoveFile (p : string) | RemoveTree (p : string)
| StatFile (p : string) | StatSize (fd : Z) | Glob (pattern : string)
(* the files of a state directory *)
| ReadState (dir : string) | ReadSpec (dir : string) | WriteSpec (spec : Spec)
| WritePolicy (spec : Spec) | WriteBrokerRuntime (spec : Spec)
| WriteControl (dir name data : string) | ReadControl (dir name : string)
(* processes, environment, time *)
| KillProc (pid sig : Z) | StartProc (argv : list string) | AwaitStart (pid : Z)
| Executable | LookupEnv (name : string) | Setenv (name value : string) | Unsetenv (name : string)
| TimeNow | Pause (ms : Z)
(* components *)
| ValidateSecretSources (ws : Resolved) | MaterializeCABundle (ws : Resolved) | WriteAgentFiles (ws : Resolved) (cacheDir : string)
| VmShares (ws : Resolved) | ClaimProfile (ws : Resolved) | ReleaseProfile (ws profile : string)
| VmGuestData (ws : Resolved) (cacheDir : string) (shares : list Share) (starting : bool)
| VmSnapshots (ws : Resolved) | CheckSnapshots (ws : Resolved) (s : list Snapshots.snapshot) (shares : list Share)
| StageSnapshots (dir : string) (s : list Snapshots.snapshot) (old : string)
| GitProtection (shares : list Share) | VmPolicy (ws : Resolved)
| PurgeSecretCache (ws : Resolved) | ReadSecret (ws : string) (s : ResolvedSecret) (purge : bool) | GpgPublicKeys
| LoadConfig | ResolveWorkspace (cfg : Config) (name : string)
| EnsureRuntime (dir : string) | GuestbinPath (dir : string)
(* Docker and the image cache *)
| HostArchitecture | ResolveAndLayerImage (ws : Resolved) | EnsureImage (image : string) | ImageID (image : string)
| ImportImage (cache ref image : string) | DockerPrune (keep : gset string) | CachePrune (cache : string) (keep : list string)
| ImageHasFile (cache ref : string) (files : list string)
(* the guest *)
| DialSSH (dir : string) | NewSession (client : Z) | RunSecrets (dir : string) (sess : Z) (payload : Payload) | CloseConn (c : Z)
| ReloadEvent (before : option Z) (offset : Z) (path : string).

Definition hanswer (c : hcall) : Type :=
  match c with
  | OpenFile _ | StatSize _ | StartProc _ | DialSSH _ | NewSession _ => result herrno Z
  | ReadFile _ | ReadControl _ _ | Executable | GuestbinPath _ | ImageID _ | VmPolicy _ | ReadSecret _ _ _ => result herrno string
  | ReadState _ => result herrno State
  | LoadConfig => result herrno Config
  | ResolveWorkspace _ name => result herrno {ws : Resolved | r_Name ws = name}      (* [Resolve.Resolve_name] *)
  | ReadSpec _ => result herrno Spec
  | VmShares _ => result herrno (list Share)
  | VmGuestData _ _ _ _ => result herrno (list GuestSys.Bind)
  | VmSnapshots _ => result herrno (list Snapshots.snapshot)
  | StageSnapshots _ _ _ => result herrno (list Snapshot)
  | GitProtection _ => result herrno (list string * list string)
  | EnsureRuntime _ => result herrno (string * string)
  | ResolveAndLayerImage _ => result herrno (string * list string)
  | DockerPrune _ => Z * option herrno
  | CachePrune _ _ => result herrno PruneResult
  | ImageHasFile _ _ _ => result herrno bool
  | Glob _ => list string
  | LookupEnv _ | GpgPublicKeys => option string
  | AwaitStart _ => wait_event
  | ReloadEvent _ _ _ => option brokerReload
  | TimeNow => Z
  | CloseFile _ | CloseConn _ | Pause _ => ()
  | _ => result herrno ()
  end.

(** Errors of the flows: what failed, for which workspace or file. *)
Inductive ferr := Fail (e : herrno) | Failing (what : string) (e : ferr) | Said (what : string).

Notation hitem := (item hcall hanswer).
Notation hprog := (prog hcall hanswer).
Notation hio := (io hcall hanswer ferr).
(** A call whose error is returned as it is, or with what failed. *)
Definition host {A} (p : hprog (result herrno A)) : hio A := wrap Fail p.
Definition hostf {A} (what : string) (p : hprog (result herrno A)) : hio A := wrap (λ e, Failing what (Fail e)) p.
Definition failing {A} (what : string) (p : hio A) : hio A := wrap (Failing what) p.
(** A call whose answer the flow examines itself. *)
Definition ask (c : hcall) : hio (hanswer c) := run (call c).
Definition drop_result {A} (p : hprog A) : hprog () := pbind (λ _, Ret ()) p.
Definition is_herr {A} (e : herrno) (r : result herrno A) : bool := match r with Err e' => bool_decide (e' = e) | Ok _ => false end.
