(* ===== verification/VmProc.v ===== *)
(** * Starting and stopping the supervisor of a VM

    [src/internal/cmd/vmbackend_unix.go]: whether a VM runs, the process that
    supervises it started and stopped, why a start failed, the Docker daemon a
    build uses and the files of the VM runtime, as programs over [HostCalls]. *)

From S2P Require Import Prelude GoStrings GoStrconv GoPath Config Resolve Vm VmHost VmReload Prog HostCalls.
From S2P Require GuestMounts.
Open Scope string_scope.
Open Scope list_scope.
Open Scope Z_scope.

Notation isOk := GuestMounts.isOk.

Definition second : Z := Z.of_nat 1000 * Z.of_nat 1000 * Z.of_nat 1000.
Definition vmStopTimeout : Z := 45 * second.

(** ** Whether a VM runs *)

Definition processAlive (pid : Z) : hprog bool :=
  if pid <=? 0 then Ret false
  else Do (KillProc pid 0) (λ r : result herrno (), Ret (isOk r || is_herr NotPermitted r)).
Definition runningVM (dir : string) : hio (option State) :=
  r ← ask (ReadState dir);
  match (r : result herrno State) with
  | Err NotExist => mret None
  | Err e => throw (Fail e)
  | Ok st => if negb (st_Ready st) then mret None
             else alive ← run (processAlive (st_PID st)); mret (if (alive : bool) then Some st else None)
  end.
Definition workspaceRunning (he : host_env) (ws : Resolved) : hio bool :=
  st ← runningVM (vmStateDir he (r_Name ws)); mret (bool_decide (is_Some st)).

(** ** Stopping *)

(** The wait of [stopSupervisor]: the clock shows at least 200 ms more after
    each pause, so 225 pauses fill [vmStopTimeout]. *)
Definition stop_rounds : nat := 226.
Fixpoint await_dead (rounds : nat) (pid deadline : Z) : hprog () :=
  match rounds with
  | O => Ret ()
  | S n => pbind (λ alive, if (alive : bool) then
             Do TimeNow (λ now : Z, if now <? deadline then Do (Pause 200) (λ _, await_dead n pid deadline) else Ret ())
           else Ret ()) (processAlive pid)
  end.
Definition stopSupervisor (dir : string) : hio () :=
  r ← ask (ReadState dir);
  match (r : result herrno State) with
  | Err _ => mret ()
  | Ok st =>
      alive ← run (processAlive (st_PID st));
      if negb alive then mret () else
      k ← ask (KillProc (st_PID st) SIGTERM);
      _ ← (match (k : result herrno ()) with
           | Err e => if bool_decide (e = NoProcess) then mret () else throw (Failing "stop vm supervisor" (Fail e))
           | Ok _ => mret ()
           end);
      now ← ask TimeNow;
      _ ← run (await_dead stop_rounds (st_PID st) ((now : Z) + vmStopTimeout));
      still ← run (processAlive (st_PID st));
      if (still : bool) then ignore (call (KillProc (st_PID st) SIGKILL)) else mret ()
  end.

(** ** Starting *)

Definition newline : string := sep1 (chr 10).
Definition irqs_exhausted : string := "the VM has more devices than libkrun can attach on this host (on x86_64 about 11 shared directories besides jailoc's own); remove some paths or mounts".
(** What the log of a supervisor that failed says: its last five lines. *)
Definition log_tail (data : string) : string :=
  let lines := Split (TrimSpace data) newline in Join (skipn (length lines - 5) lines) "; ".
Definition vmFailure (dir logPath : string) : hprog string :=
  Do (ReadState dir) (λ r : result herrno State,
    let from_log := Do (ReadFile logPath) (λ d : result herrno string,
      Ret match d with
          | Ok data => if String.eqb data "" then "see " +:+ logPath
                       else if Contains data "IrqsExhausted" then irqs_exhausted else log_tail data
          | Err _ => "see " +:+ logPath
          end) in
    match r with Ok st => if String.eqb (st_Error st) "" then from_log else Ret (st_Error st) | Err _ => from_log end).

Definition vmStartTimeout : string := "5m0s".
(** The loop that waits for a ready VM. [rounds] ticks of 50 ms pass at most
    before the deadline of five minutes; the last one stands for it. *)
Definition start_rounds : nat := Z.to_nat 6001.
Definition supervisor_log (dir : string) : string := JoinPath [dir; "supervisor.log"].
Definition timed_out (dir : string) (pid : Z) : hio State :=
  _ ← ask (KillProc pid SIGTERM);
  why ← run (vmFailure dir (supervisor_log dir)); throw (Said ("vm not ready after " +:+ vmStartTimeout +:+ ": " +:+ why)).
Fixpoint await_ready (rounds : nat) (dir : string) (pid : Z) : hio State :=
  match rounds with
  | O => timed_out dir pid
  | S n =>
      ev ← ask (AwaitStart pid);
      match (ev : wait_event) with
      | Cancelled => _ ← ask (KillProc pid SIGTERM); throw (Said "start vm: cancelled")
      | ProcExited => why ← run (vmFailure dir (supervisor_log dir)); throw (Said ("vm supervisor exited: " +:+ why))
      | Deadline => timed_out dir pid
      | Tick =>
          r ← ask (ReadState dir);
          match (r : result herrno State) with
          | Err _ => await_ready n dir pid
          | Ok st =>
              if negb (st_PID st =? pid) then await_ready n dir pid
              else if st_Ready st then mret st
              else if negb (String.eqb (st_Error st) "") then throw (Said ("start vm: " +:+ st_Error st))
              else await_ready n dir pid
          end
      end
  end.
Section Start.
(** [json.Marshal] of a specification. *)
Context (marshal : Spec → option string).
Definition sameVMSpec (a b : Spec) : bool :=
  match marshal a, marshal b with Some ja, Some jb => String.eqb ja jb | _, _ => false end.
Definition supervise_argv (exe dir : string) : list string := [exe; "vm-supervise"; dir].
Definition spawn (dir exe : string) : hio State :=
  fd ← hostf "open vm log" (call (OpenFile (supervisor_log dir)));
  finally (
    _ ← ignore (call (RemoveFile (StateFile dir)));
    pid ← hostf "start vm supervisor" (call (StartProc (supervise_argv exe dir)));
    await_ready start_rounds dir pid) (call (CloseFile fd)).
(** The running VM when it runs [spec], otherwise none runs. *)
Definition reuse (spec : Spec) : hio (option State) :=
  let dir := sp_StateDir spec in
  st ← runningVM dir;
  match st with
  | None => mret None
  | Some s =>
      old ← attempt (host (call (ReadSpec dir)));
      match (old : result ferr Spec) with
      | Ok old => if sameVMSpec old spec then mret (Some s) else _ ← stopSupervisor dir; mret None
      | Err _ => _ ← stopSupervisor dir; mret None
      end
  end.
Definition startSupervisor (spec : Spec) : hio State :=
  let dir := sp_StateDir spec in
  st ← reuse spec;
  match st with
  | Some s => mret s
  | None =>
      _ ← host (call (WriteSpec spec));
      exe ← hostf "locate jailoc executable" (call Executable);
      spawn dir exe
  end.
End Start.

(** ** The Docker daemon of a build *)

Definition docker_host : string := "DOCKER_HOST".
(** The call that restores the variable. *)
Definition setDockerHost (socket : string) : hio (hprog ()) :=
  orig ← run (call (LookupEnv docker_host));
  _ ← hostf "set DOCKER_HOST" (call (Setenv docker_host ("unix://" +:+ socket)));
  mret (match (orig : option string) with
        | Some v => drop_result (call (Setenv docker_host v)) | None => drop_result (call (Unsetenv docker_host)) end).

(** ** The files of the runtime *)

Section Runtime.
Context (he : host_env) (darwin : bool).
Definition guest_file : string := "jailoc-guest".
Definition vmLibDir (configured : string) : hprog string :=
  if negb (String.eqb configured "") then Ret configured
  else if darwin then Do (StatFile "/opt/homebrew/lib") (λ r : result herrno (), Ret (if isOk r then "/opt/homebrew/lib" else ""))
  else Ret "".
Definition guest_binary (runner : string) : hio string :=
  r ← ask (GuestbinPath (JoinPath [vmRootDir he; "guest"]));
  match (r : result herrno string) with
  | Ok p => mret p
  | Err NotEmbedded =>
      let p := JoinPath [Dir runner; guest_file] in
      _ ← hostf "jailoc-guest is not next to the runner" (call (StatFile p)); mret p
  | Err e => throw (Failing "prepare guest binary" (Fail e))
  end.
Definition vmRuntime (cfg : Config) : hio vmRuntimeFiles :=
  rl ← (if negb (String.eqb (vm_Runner (c_VM cfg)) "") then
          lib ← run (vmLibDir (vm_LibDir (c_VM cfg))); mret (vm_Runner (c_VM cfg), lib)
        else hostf "prepare VM runtime" (call (EnsureRuntime (JoinPath [vmRootDir he; "runtime"]))));
  g ← guest_binary (rl : string * string).1;
  mret {| runner := rl.1; libDir := rl.2; guestBin := g |}.
End Runtime.
