(* ===== verification/VmFlow.v ===== *)
(** * The commands that build, start, reload and stop a workspace VM

    [src/internal/cmd/vmflow_unix.go] and [vmreload_unix.go]: the image built in
    a builder VM or by the host's daemon, pruning, [up], the delivery of secrets,
    [down], [restart] and [reload], as programs over [HostCalls]. Messages for the
    terminal are left out. *)

From S2P Require Import Prelude GoStrings GoStrconv GoPath Agent Config Resolve Vm VmHost VmReload Prog HostCalls VmProc.
From S2P Require GuestSys GuestMounts GuestLive Snapshots.
Open Scope string_scope.
Open Scope list_scope.
Open Scope Z_scope.

(** ** Changes of a specification *)

Definition with_guest (spec : Spec) (docker : bool) (g : GuestConfig) : Spec := {|
  sp_Kind := sp_Kind spec; sp_Workspace := sp_Workspace spec; sp_StateDir := sp_StateDir spec; sp_Image := sp_Image spec;
  sp_CPUs := sp_CPUs spec; sp_MemoryMiB := sp_MemoryMiB spec; sp_DiskSize := sp_DiskSize spec; sp_Shares := sp_Shares spec;
  sp_Forwards := sp_Forwards spec; sp_Policy := sp_Policy spec; sp_RunnerPath := sp_RunnerPath spec; sp_LibDir := sp_LibDir spec;
  sp_ImageCache := sp_ImageCache spec; sp_Broker := sp_Broker spec; sp_GuestBinary := sp_GuestBinary spec; sp_Agent := sp_Agent spec;
  sp_Profile := sp_Profile spec; sp_EphemeralProfile := sp_EphemeralProfile spec; sp_Guest := Some g; sp_Docker := docker;
  sp_SSHAgent := sp_SSHAgent spec; sp_GPGAgent := sp_GPGAgent spec; sp_HostServices := sp_HostServices spec;
  sp_CABundle := sp_CABundle spec |}.
Definition guest_with (g : GuestConfig) (binds : list GuestSys.Bind) (pins readOnly : list string) (noPriv : bool) (docker : option string) : GuestConfig := {|
  g_Hostname := g_Hostname g; g_User := g_User g; g_UID := g_UID g; g_GID := g_GID g; g_Home := g_Home g; g_WorkDir := g_WorkDir g;
  g_Shares := g_Shares g; g_AuthorizedKey := g_AuthorizedKey g; g_Env := g_Env g; g_Binds := binds; g_Snapshots := g_Snapshots g;
  g_CABundle := g_CABundle g; g_IDMap := g_IDMap g; g_RootShare := g_RootShare g; g_SSHAgent := g_SSHAgent g; g_GPGAgent := g_GPGAgent g;
  g_HostPorts := g_HostPorts g; g_Pins := pins; g_ReadOnly := readOnly; g_NoPrivilegeEscalation := noPriv; g_Docker := docker |}.

Section Flow.
(** The host, the directory of the configuration, and [encoding/json] for the
    values of the state files. *)
Context (he : host_env) (darwin : bool) (configDir : string) (marshal : Spec → option string).
Context (encode_ids : list string → string) (decode_ids : string → option (list string)).
Context (encode_reload : GuestLive.Reload → string) (decode_done : string → option GuestLive.ReloadDone).
Local Notation root := (vmRootDir he).
Local Notation stateDir ws := (vmStateDir he (r_Name ws)).
Definition images_dir : string := JoinPath [root; "images"].

(** ** Images *)

Definition lockDockerImages : hio Z :=
  _ ← hostf "create VM state dir" (call (MkdirAll root 488));
  fd ← hostf "open Docker image lock" (call (OpenFile (JoinPath [root; "docker-images.lock"])));
  locked ← attempt (hostf "lock Docker images" (call (Flock fd LockShared)));
  match (locked : result ferr ()) with
  | Ok _ => mret fd
  | Err e => _ ← ask (CloseFile fd); throw e
  end.

Definition dockerImagesFile : string := "docker-images.json".
Fixpoint image_ids (chain : list string) : hio (list string) :=
  match chain with [] => mret [] | ref :: chain => id ← host (call (ImageID ref)); ids ← image_ids chain; mret (id :: ids) end.
(** Every recorded image of the files. *)
Fixpoint recorded_images (files : list string) (keep : gset string) : hio (gset string) :=
  match files with
  | [] => mret keep
  | path :: files =>
      data ← hostf ("read " +:+ path) (call (ReadFile path));
      match decode_ids data with
      | None => throw (Said ("parse " +:+ path))
      | Some ids => recorded_images files (keep ∪ list_to_set ids)
      end
  end.
(** An error of [prune_docker] is the warning the code prints. *)
Definition prune_docker (lock : Z) (workspace : string) (chain : list string) : hio () :=
  ids ← image_ids chain;
  _ ← hostf "create workspace state dir" (call (MkdirAll (vmStateDir he workspace) 448));
  _ ← hostf "record workspace images" (call (WriteFile (JoinPath [vmStateDir he workspace; dockerImagesFile]) (encode_ids ids)));
  locked ← ask (Flock lock LockExclusiveNow);
  if negb (isOk (locked : result herrno ())) then mret () else
  files ← ask (Glob (JoinPath [root; "workspaces"; "*"; dockerImagesFile]));
  keep ← recorded_images files ∅;
  _ ← ask (DockerPrune keep);
  mret ().
Definition pruneDockerImages (lock : Z) (workspace : string) (chain : list string) : hio () := ignore (prune_docker lock workspace chain).

Fixpoint cached_images (specs keep : list string) : hio (list string) :=
  match specs with
  | [] => mret keep
  | path :: specs =>
      r ← ask (ReadSpec (Dir path));
      match (r : result herrno Spec) with
      | Ok spec => cached_images specs (keep ++ [sp_Image spec])
      | Err NotExist => cached_images specs keep
      | Err e => throw (Failing ("prune VM image cache skipped: cannot read " +:+ path) (Fail e))
      end
  end.
Definition prune_cache (current : string) : hio () :=
  specs ← ask (Glob (JoinPath [root; "workspaces"; "*"; SpecFile ""]));
  more ← ask (Glob (JoinPath [root; "workspaces"; "*"; "builder"; SpecFile ""]));
  keep ← cached_images ((specs : list string) ++ more ++ [JoinPath [root; "builder"; SpecFile ""]]) [current];
  _ ← hostf "prune VM image cache" (call (CachePrune images_dir keep));
  mret ().
Definition pruneImageCache (current : string) : hio () := ignore (prune_cache current).

Definition rootfsRepo : string := "jailoc.local/rootfs".
Definition RootFSRef (imageID : string) : string := rootfsRepo +:+ ":" +:+ TrimPrefix imageID "sha256:".
Definition import_locked (lock : Z) (ws : Resolved) : hio string :=
  fc ← hostf "resolve image" (call (ResolveAndLayerImage ws));
  let finalImage := (fc : string * list string).1 in
  _ ← host (call (EnsureImage finalImage));
  id ← host (call (ImageID finalImage));
  let ref := RootFSRef id in
  _ ← host (call (ImportImage images_dir ref finalImage));
  _ ← pruneImageCache ref;
  _ ← pruneDockerImages lock (r_Name ws) fc.2;
  mret ref.
Definition importWorkspaceImage (ws : Resolved) : hio string :=
  lock ← lockDockerImages;
  finally (import_locked lock ws) (call (CloseFile lock)).

(** ** The builder *)

Definition builderCPUs : Z := 4.
Definition builderMemoryMiB : Z := 4096.
Definition builder_of (s : string) : builder :=
  if String.eqb s "docker" then BuilderDocker else if String.eqb s "vm" then BuilderVM else BuilderAuto.
(** [workspaceCABundle]. *)
Definition workspaceCABundle (path : string) : hio string :=
  r ← ask (StatFile path); mret (if isOk (r : result herrno ()) then path else "").
Definition builder_spec (ws : Resolved) (rt : vmRuntimeFiles) (dir exe policy ca : string) (disk : Z) : Spec := {|
  sp_Kind := KindBuilder; sp_Workspace := if r_IsolatedBuild ws then r_Name ws +:+ "-builder" else "builder"; sp_StateDir := dir;
  sp_Image := DefaultImage; sp_CPUs := builderCPUs; sp_MemoryMiB := builderMemoryMiB; sp_DiskSize := disk; sp_Shares := [];
  sp_Forwards := []; sp_Policy := policy; sp_RunnerPath := runner rt; sp_LibDir := libDir rt; sp_ImageCache := images_dir;
  sp_Broker := [exe; "netbroker"]; sp_GuestBinary := ""; sp_Agent := ""; sp_Profile := ""; sp_EphemeralProfile := false;
  sp_Guest := None; sp_Docker := false; sp_SSHAgent := ""; sp_GPGAgent := ""; sp_HostServices := []; sp_CABundle := ca |}.
(** The builder runs while [f] does. *)
Definition with_builder {A} (spec : Spec) (f : hio A) : hio A :=
  st ← failing "start image builder" (startSupervisor marshal spec);
  finally (
    restoreHost ← setDockerHost (st_DockerSocket st);
    finally f restoreHost) (drop_result (stopSupervisor (sp_StateDir spec))).
Definition locked_builder (ws : Resolved) (rt : vmRuntimeFiles) (dir : string) (lock : Z) : hio string :=
  _ ← hostf "lock builder" (call (Flock lock LockExclusive));
  policy ← (if r_IsolatedBuild ws then host (call (VmPolicy ws)) else mret "{}");
  exe ← hostf "locate jailoc executable" (call Executable);
  ca ← workspaceCABundle (JoinPath [configDir; "workspaces"; r_Name ws; caBundleFilename]);
  disk ← (if r_IsolatedBuild ws then
            match vmDockerDiskSize (r_DockerDisk ws) with Ok d => mret d | Err _ => throw (Said "docker_disk") end
          else mret DefaultDiskSize);
  with_builder (builder_spec ws rt dir exe policy ca disk) (importWorkspaceImage ws).
Definition buildWorkspaceImage (cfg : Config) (ws : Resolved) (rt : vmRuntimeFiles) : hio string :=
  let b := builder_of (vm_Builder (c_VM cfg)) in
  hostErr ← (if negb (r_IsolatedBuild ws) && negb (match b with BuilderVM => true | _ => false end)
             then ask HostArchitecture else mret (Ok ()));
  match useHostDocker b (r_IsolatedBuild ws) (isOk (hostErr : result herrno ())) with
  | Err _ => throw (Said "[vm] builder = docker")
  | Ok true => importWorkspaceImage ws
  | Ok false =>
      let dir := builderStateDir he ws in
      _ ← hostf "create builder state dir" (call (MkdirAll dir 448));
      lock ← hostf "open builder lock" (call (OpenFile (dir +:+ ".lock")));
      finally (locked_builder ws rt dir lock) (call (CloseFile lock))
  end.

(** ** Secrets *)

(** [secretsPayload] of [VmReload] with the calls that read the values. *)
Fixpoint read_secrets (ws : string) (purge : bool) (l : list ResolvedSecret) : hio (list (ResolvedSecret * string)) :=
  match l with
  | [] => mret []
  | s :: l => v ← host (call (ReadSecret ws s purge)); vs ← read_secrets ws purge l; mret ((s, v) :: vs)
  end.
Definition add_secret (p : Payload) (sv : ResolvedSecret * string) : Payload :=
  match rs_Kind sv.1 with
  | SecretKindEnv => {| p_Env := p_Env p ++ [rs_Name sv.1 +:+ "=" +:+ sv.2]; p_Files := p_Files p; p_GPG := p_GPG p |}
  | SecretKindFile => {| p_Env := p_Env p; p_Files := <[rs_Name sv.1 := sv.2]> (p_Files p); p_GPG := p_GPG p |}
  end.
Definition payload (ws : Resolved) (spec : Spec) (purge : bool) : hio Payload :=
  _ ← (if purge then host (call (PurgeSecretCache ws)) else mret ());
  keys ← (if negb (String.eqb (sp_GPGAgent spec) "") then ask GpgPublicKeys else mret None);
  vs ← read_secrets (r_Name ws) purge (r_Secrets ws);
  mret (foldl add_secret {| p_Env := payload_env ws spec; p_Files := ∅; p_GPG := keys |} vs).
Definition secretsMarker (dir : string) : string := JoinPath [dir; "secrets-delivered"].
Definition deliverSecrets (dir : string) (p : Payload) : hio () :=
  client ← host (call (DialSSH dir));
  finally (
    sess ← hostf "open ssh session" (call (NewSession client));
    finally (
      _ ← host (call (RunSecrets dir sess p));
      hostf "record secrets delivery" (call (WriteFile (secretsMarker dir) ""))) (call (CloseConn sess))) (call (CloseConn client)).
Definition ensureSecrets (ws : Resolved) : hio () :=
  r ← ask (StatFile (secretsMarker (stateDir ws)));
  if isOk (r : result herrno ()) then mret () else
  _ ← hostf "validate secrets" (call (ValidateSecretSources ws));
  spec ← host (call (ReadSpec (stateDir ws)));
  p ← payload ws spec false;
  failing "deliver secrets" (deliverSecrets (stateDir ws) p).

(** ** Reload *)

Definition reloadTimeout : Z := 15 * second.
(** The polls of a reload: 100 ms apart at least, 150 of them in 15 seconds. *)
Definition reload_rounds : nat := 151.
Definition broker_log (dir : string) : string := JoinPath [dir; "broker.jsonl"].
Fixpoint await_broker (rounds : nat) (before : option Z) (offset deadline : Z) (log : string) : hio () :=
  match rounds with
  | O => throw (Said "broker did not confirm the reload")
  | S n =>
      now ← ask TimeNow;
      if negb ((now : Z) <? deadline) then throw (Said "broker did not confirm the reload") else
      ev ← ask (ReloadEvent before offset log);
      match (ev : option brokerReload) with
      | Some e =>
          if negb (String.eqb (br_PolicyError e) "")
          then throw (Said ("invalid policy, the broker now denies all new connections: " +:+ br_PolicyError e))
          else match br_RuntimeErrors e with [] => mret () | es => throw (Said ("published ports and host ports: " +:+ joinList es)) end
      | None => _ ← ask (Pause 100); await_broker n before offset deadline log
      end
  end.
Definition close_log (before : option Z) : hprog () := match before with Some fd => call (CloseFile fd) | None => Ret () end.
Definition reloadBroker (spec : Spec) (pid : Z) : hio () :=
  _ ← check (negb (pid <=? 0)) (Said "broker pid unknown");
  let log := broker_log (sp_StateDir spec) in
  o ← ask (OpenFile log);
  let before := match (o : result herrno Z) with Ok fd => Some fd | Err _ => None end in
  finally (
    offset ← match before with
             | Some fd => s ← ask (StatSize fd); mret (match (s : result herrno Z) with Ok n => n | Err _ => 0 end)
             | None => mret 0 end;
    _ ← host (call (WritePolicy spec));
    _ ← host (call (WriteBrokerRuntime spec));
    _ ← hostf "signal broker" (call (KillProc pid SIGHUP));
    now ← ask TimeNow;
    await_broker reload_rounds before offset ((now : Z) + reloadTimeout) log) (close_log before).

Definition guest_snapshot (s : Snapshot) : GuestMounts.Snapshot := {| GuestMounts.sn_Source := sn_Source s; GuestMounts.sn_Target := sn_Target s |}.
Definition reload_request (seq : Z) (g : GuestConfig) : GuestLive.Reload := {|
  GuestLive.r_Seq := seq; GuestLive.r_CABundle := g_CABundle g; GuestLive.r_SSHAgent := g_SSHAgent g; GuestLive.r_GPGAgent := g_GPGAgent g;
  GuestLive.r_HostPorts := g_HostPorts g; GuestLive.r_Snapshots := guest_snapshot <$> g_Snapshots g |}.
Definition confirms (seq : Z) (r : result herrno string) : option string :=
  match r with
  | Ok b => match decode_done b with Some d => if GuestLive.rd_Seq d =? seq then Some (GuestLive.rd_Error d) else None | None => None end
  | Err _ => None
  end.
Fixpoint await_guest (rounds : nat) (dir : string) (seq deadline : Z) : hio () :=
  match rounds with
  | O => throw (Said "the guest did not confirm the reload")
  | S n =>
      now ← ask TimeNow;
      if negb ((now : Z) <? deadline) then throw (Said "the guest did not confirm the reload") else
      r ← ask (ReadControl dir GuestLive.ReloadDoneFile);
      match confirms seq r with
      | Some e => if String.eqb e "" then mret () else throw (Said ("guest: " +:+ e))
      | None => _ ← ask (Pause 100); await_guest n dir seq deadline
      end
  end.
Definition reloadGuest (dir : string) (g : GuestConfig) : hio () :=
  seq ← ask TimeNow;
  _ ← hostf "write reload request" (call (WriteControl dir GuestLive.ReloadFile (encode_reload (reload_request seq g))));
  now ← ask TimeNow;
  await_guest reload_rounds dir seq ((now : Z) + reloadTimeout).

Definition guestbin_dir : string := JoinPath [root; "guest"].
Definition snapshotsReloadable (running : Spec) : hio bool :=
  r ← ask (GuestbinPath guestbin_dir);
  mret (match (r : result herrno string) with Ok c => String.eqb (Clean c) (Clean (sp_GuestBinary running)) | Err _ => false end).

(** [workspaceSpec] of [VmHost] with the policy of [vmPolicy]. *)
Definition workspace_spec (ws : Resolved) (rt : vmRuntimeFiles) (ref : string) (shares : list Share) (binds : list Snapshot) : hio Spec :=
  policy ← ask (VmPolicy ws);
  match workspaceSpec he ws rt ref shares binds (match (policy : result herrno string) with Ok p => Some p | Err _ => None end) with
  | Ok spec => mret spec
  | Err _ => throw (Said "workspace VM specification")
  end.
Definition jailocCacheDir : string :=
  match he_home he with None => JoinPath [he_tmp he; "jailoc"] | Some h => JoinPath [h; ".cache"; "jailoc"] end.
Definition workspaceCacheDir (ws : Resolved) : string := JoinPath [jailocCacheDir; r_Name ws].
(** The steps [up] and [reload] share: sources, files, shares. *)
Definition prepare_host (ws : Resolved) : hio () :=
  _ ← hostf "validate secrets" (call (ValidateSecretSources ws));
  hostf "prepare CA bundle" (call (MaterializeCABundle ws)).
Definition reloadSpec (ws : Resolved) (running : Spec) : hio (Spec * GuestConfig * list Snapshots.snapshot) :=
  _ ← prepare_host ws;
  _ ← host (call (WriteAgentFiles ws (workspaceCacheDir ws)));
  shares ← host (call (VmShares ws));
  internal ← host (call (VmGuestData ws (workspaceCacheDir ws) shares false));
  snapshots ← host (call (VmSnapshots ws));
  _ ← host (call (CheckSnapshots ws snapshots shares));
  let rt := {| runner := sp_RunnerPath running; libDir := sp_LibDir running; guestBin := sp_GuestBinary running |} in
  spec ← workspace_spec ws rt (sp_Image running) shares [];
  match sp_Guest spec with
  | Some g => let '(spec, g) := with_reload spec g internal ws in mret (spec, g, snapshots)
  | None => throw (Said "no guest configuration")
  end.
Definition reload_running (ws : Resolved) (st : State) (running : Spec) (rg : GuestConfig) (purge : bool) : hio () :=
  let dir := stateDir ws in
  wgs ← reloadSpec ws running;
  let '(want, wg, snapshots) := (wgs : Spec * GuestConfig * list Snapshots.snapshot) in
  p ← payload ws want purge;
  reloadable ← snapshotsReloadable running;
  binds ← (if (reloadable : bool) then host (call (StageSnapshots dir snapshots (Snapshots.snapshotGeneration (g_Snapshots rg))))
           else mret (g_Snapshots rg));
  let next := next running want rg wg binds in
  _ ← failing "reload network broker" (reloadBroker next (st_BrokerPID st));
  _ ← failing "reload workspace" (reloadGuest dir (reloaded_guest rg wg binds));
  _ ← host (call (WriteSpec next));
  failing "deliver secrets" (deliverSecrets dir p).
Definition reloadVM (ws : Resolved) (purge : bool) : hio () :=
  st ← runningVM (stateDir ws);
  match (st : option State) with
  | None => throw (Said "not running")
  | Some st =>
      running ← host (call (ReadSpec (stateDir ws)));
      match sp_Guest running with
      | None => throw (Said "running VM has no guest configuration")
      | Some rg => reload_running ws st running rg purge
      end
  end.

(** ** Up, down and restart *)

Definition dockerdPaths : list string := ["usr/local/bin/dockerd"; "usr/bin/dockerd"; "usr/sbin/dockerd"; "bin/dockerd"].
Definition GuestDockerDisk : string := "/dev/vda".
(** [configureVMDocker] on the specification and its guest. *)
Definition configureVMDocker (ws : Resolved) (spec : Spec) (g : GuestConfig) : hio (Spec * GuestConfig) :=
  if negb (r_EnableDocker ws) then mret (spec, g) else
  has ← host (call (ImageHasFile (sp_ImageCache spec) (sp_Image spec) dockerdPaths));
  if negb has then throw (Said "enable_docker is on, but the workspace image has no dockerd") else
  let g := guest_with g (g_Binds g) (g_Pins g) (g_ReadOnly g) (g_NoPrivilegeEscalation g) (Some GuestDockerDisk) in
  mret (with_guest spec true g, g).
Definition protect_git (ws : Resolved) (shares : list Share) (spec : Spec) (g : GuestConfig) : hio Spec :=
  if negb (r_ProtectGit ws) then mret spec else
  pr ← host (call (GitProtection shares));
  mret (with_guest spec (sp_Docker spec) (guest_with g (g_Binds g) (pr : list string * list string).1 pr.2 true (g_Docker g))).
(** What the guest shares, before anything is built. *)
Definition host_data (ws : Resolved) : hio (list Share * list GuestSys.Bind * list Snapshots.snapshot) :=
  let cacheDir := workspaceCacheDir ws in
  _ ← hostf "create cache directory" (call (MkdirAll cacheDir 488));
  _ ← host (call (WriteAgentFiles ws cacheDir));
  shares ← host (call (VmShares ws));
  _ ← host (call (ClaimProfile ws));
  internal ← host (call (VmGuestData ws cacheDir shares true));
  snapshots ← host (call (VmSnapshots ws));
  _ ← host (call (CheckSnapshots ws snapshots shares));
  mret (shares, internal, snapshots).
(** The specification [up] starts. *)
Definition up_spec (ws : Resolved) (rt : vmRuntimeFiles) (ref : string) (shares : list Share) (internal : list GuestSys.Bind)
    (snapshots : list Snapshots.snapshot) : hio Spec :=
  binds ← host (call (StageSnapshots (stateDir ws) snapshots ""));
  spec ← workspace_spec ws rt ref shares binds;
  match sp_Guest spec with
  | None => throw (Said "no guest configuration")
  | Some g =>
      let g := guest_with g internal (g_Pins g) (g_ReadOnly g) (g_NoPrivilegeEscalation g) (g_Docker g) in
      sg ← configureVMDocker ws (with_guest spec (sp_Docker spec) g) g;
      protect_git ws shares (sg : Spec * GuestConfig).1 sg.2
  end.
Definition reset_marker (dir : string) : hio () :=
  r ← ask (RemoveFile (secretsMarker dir));
  match (r : result herrno ()) with
  | Ok _ | Err NotExist => mret ()
  | Err e => throw (Failing "reset secrets marker" (Fail e))
  end.
Definition start_workspace (dir : string) (spec : Spec) (p : Payload) : hio () :=
  _ ← reset_marker dir;
  _ ← failing "start vm" (startSupervisor marshal spec);
  delivered ← attempt (deliverSecrets dir p);
  match (delivered : result ferr ()) with
  | Ok _ => mret ()
  | Err e => _ ← ignore (stopSupervisor dir); throw (Failing "deliver secrets" e)
  end.
Definition runUpVM (cfg : Config) (ws : Resolved) : hio () :=
  let dir := stateDir ws in
  st ← runningVM dir;
  match (st : option State) with
  | Some _ => reloadVM ws false
  | None =>
      _ ← prepare_host ws;
      sis ← host_data ws;
      let '(shares, internal, snapshots) := (sis : list Share * list GuestSys.Bind * list Snapshots.snapshot) in
      rt ← vmRuntime he darwin cfg;
      ref ← buildWorkspaceImage cfg ws rt;
      spec ← up_spec ws rt ref shares internal snapshots;
      p ← payload ws spec false;
      start_workspace dir spec p
  end.

Definition release_claim (ws : Resolved) : hio () :=
  r ← ask (ReadSpec (stateDir ws));
  match (r : result herrno Spec) with
  | Ok spec => if String.eqb (sp_Profile spec) "" then mret () else host (call (ReleaseProfile (r_Name ws) (sp_Profile spec)))
  | Err _ => mret ()
  end.
Definition delete_state (ws : Resolved) : hio () :=
  purged ← ask (PurgeSecretCache ws);
  _ ← hostf "delete vm state" (call (RemoveTree (stateDir ws)));
  match (purged : result herrno ()) with Ok _ => mret () | Err e => throw (Fail e) end.
Definition downVM (ws : Resolved) (purge : bool) : hio () :=
  let dir := stateDir ws in
  st ← runningVM dir;
  if negb (bool_decide (is_Some (st : option State))) && negb purge then mret () else
  _ ← stopSupervisor dir;
  _ ← release_claim ws;
  _ ← stopSupervisor (JoinPath [dir; "builder"]);
  if purge then delete_state ws else mret ().
Definition restartVMIfRunning (ws : Resolved) : hio () :=
  st ← runningVM (stateDir ws);
  match (st : option State) with
  | None => mret ()
  | Some _ =>
      cfg ← hostf "reload config for restart" (call LoadConfig);
      ws2 ← hostf "re-resolve workspace for restart" (call (ResolveWorkspace cfg (r_Name ws)));
      let ws2 := proj1_sig (ws2 : {w : Resolved | r_Name w = r_Name ws}) in
      _ ← hostf "validate secrets" (call (ValidateSecretSources ws2));
      _ ← downVM ws false;
      runUpVM cfg ws2
  end.
End Flow.
