(* ===== verification/VmLab.v ===== *)
(** * A host for the examples of the VM commands

    An environment of [HostCalls] that answers from the history of calls: one
    process at a time, started and stopped, states and specifications read back as
    they were written, every other call granted. *)

From S2P Require Import Prelude GoStrings GoPath Agent Config Resolve Vm VmHost VmReload VmRun Prog HostCalls.
From S2P Require GuestSys GuestLive Snapshots ConfigChecks.
From Stdlib Require Import SpecFloat.
Open Scope string_scope.
Open Scope list_scope.
Open Scope Z_scope.

Definition lab_harness : Harness := {|
  h_Name := "claude"; h_Title := "Claude Code"; h_Binary := "claude"; h_Package := ""; h_Version := "1"; h_Release := None;
  h_Continue := "-c"; h_Resume := "-r"; h_Unattended := []; h_Env := []; h_State := []; h_Mounts := []; h_TUIPlugin := NoTUIPlugin;
  h_ConfigDir := ""; h_ConfigGitignore := ""; h_Installs := true |}.
Definition lab_workspace : Resolved := {|
  r_Name := "w"; r_Paths := ["/src"]; r_Agent := lab_harness; r_AgentInstall := true; r_AgentArgs := None; r_AgentProfile := None;
  r_Mounts := []; r_Snapshots := []; r_Port := 4096; r_AllowedHosts := []; r_AllowedNetworks := []; r_BuildContext := "";
  r_Dockerfile := ""; r_Image := ""; r_Env := ["A=1"]; r_SSHAuthSock := true; r_GPGAgent := false; r_GitConfig := true;
  r_Secrets := [{| rs_Name := "TOKEN"; rs_Kind := SecretKindEnv; rs_FromEnv := "T"; rs_FromFile := ""; rs_FromCommand := ""; rs_TTL := 0 |}];
  r_CPU := S754_finite false 2 0; r_Memory := "4g"; r_DockerDisk := "20g"; r_EnableDocker := false; r_IsolatedBuild := false;
  r_ProtectGit := true; r_Ports := []; r_HostPorts := []; r_FilteredDNS := false; r_DNSUpstream := ""; r_DNSBlockedZones := None;
  r_CABundle := ConfigChecks.caBundleAutomatic |}.
Definition lab_cfg : Config := lab_config.
Definition lab_pid : Z := 7.
(** What the history says: whether the process lives, the directories a
    supervisor was started in, the specifications written, newest first. *)
Definition lab_alive (h : list hitem) : bool :=
  foldl (λ b i, match projT1 i with StartProc _ => true | KillProc _ sig => if sig =? 0 then b else if sig =? SIGHUP then b else false | _ => b end) false h.
Definition lab_started (d : string) (h : list hitem) : bool :=
  existsb (λ i, match projT1 i with StartProc argv => bool_decide (argv !! 2%nat = Some d) | _ => false end) h.
Definition lab_written (d : string) (h : list hitem) : option Spec :=
  foldl (λ o i, match projT1 i with WriteSpec s => if String.eqb (sp_StateDir s) d then Some s else o | _ => o end) None h.
Definition lab_marked (p : string) (h : list hitem) : bool :=
  foldl (λ b i, match projT1 i with
                | WriteFile q _ => if String.eqb q p then true else b | RemoveFile q => if String.eqb q p then false else b | _ => b end) false h.
Definition lab_state (h : list hitem) : State := {|
  st_PID := lab_pid; st_BrokerPID := 8; st_DockerSocket := "/d.sock"; st_SSHSocket := "/s.sock"; st_Ready := lab_alive h; st_Error := "";
  st_Updated := 0 |}.
Definition lab_env (c : hcall) (h : list hitem) : hanswer c :=
  match c as c return hanswer c with
  | OpenFile _ | StatSize _ | DialSSH _ | NewSession _ => Ok 3
  | StartProc _ => Ok lab_pid
  | KillProc pid sig => if lab_alive h then Ok () else Err NoProcess
  | ReadFile _ => Ok "[]"
  | ReadControl _ _ => Ok "done"
  | Executable => Ok "/bin/jailoc"
  | GuestbinPath _ => Ok "/g"
  | ImageID _ => Ok "sha256:11"
  | VmPolicy _ => Ok "{}"
  | ReadSecret _ _ _ => Ok "x"
  | ReadState d => if lab_started d h then Ok (lab_state h) else Err NotExist
  | ReadSpec d => match lab_written d h with Some s => Ok s | None => Err NotExist end
  | StatFile p => if lab_marked p h then Ok () else Err NotExist
  | RemoveFile p => if lab_marked p h then Ok () else Err NotExist
  | LoadConfig => Ok lab_cfg
  | ResolveWorkspace _ name => Err NotExist
  | VmShares _ => Ok [{| HostPath := "/src"; Vm.GuestPath := "/src"; ReadOnly := false |}]
  | VmGuestData _ _ _ _ => Ok []
  | VmSnapshots _ => Ok []
  | StageSnapshots _ _ _ => Ok []
  | GitProtection _ => Ok (["/src/.git"], ["/src/.git/hooks"])
  | EnsureRuntime _ => Ok ("/r", "/lib")
  | ResolveAndLayerImage _ => Ok ("img", ["img"])
  | DockerPrune _ => (0, None)
  | CachePrune _ _ => Ok {| pr_Refs := 0; pr_Images := 0; pr_Layers := 0 |}
  | ImageHasFile _ _ _ => Ok true
  | Glob _ => []
  | LookupEnv _ | GpgPublicKeys => None
  | AwaitStart _ => Tick
  | ReloadEvent _ _ _ => Some {| br_PolicyError := ""; br_RuntimeErrors := [] |}
  | TimeNow => 0
  | CloseFile _ | CloseConn _ | Pause _ => ()
  | HostArchitecture => Err NotExist
  | MkdirAll _ _ | Flock _ _ | WriteFile _ _ | RemoveTree _ | WriteSpec _ | WritePolicy _ | WriteBrokerRuntime _ | WriteControl _ _ _
  | Setenv _ _ | Unsetenv _ | ValidateSecretSources _ | MaterializeCABundle _ | WriteAgentFiles _ _ | ClaimProfile _ | ReleaseProfile _ _
  | CheckSnapshots _ _ _ | PurgeSecretCache _ | EnsureImage _ | ImportImage _ _ _ | RunSecrets _ _ _ => Ok ()
  end.
(** The codecs of the examples. *)
Definition lab_marshal (s : Spec) : option string := Some (sp_Image s).
Definition lab_done (b : string) : option GuestLive.ReloadDone := Some {| GuestLive.rd_Seq := 0; GuestLive.rd_Error := "" |}.
