(* ===== verification/VmFlowSpec.v ===== *)
(** * What the VM commands guarantee

    Facts about the runs of [up], [reload], [down], [restart] and the delivery of
    secrets, whatever the system and the other components answer. *)

From S2P Require Import Prelude GoStrings GoStrconv GoPath HostFS PathNames ConfigChecks Config Resolve Vm VmHost VmReload Prog HostCalls VmProc VmFlow VmLab.
From S2P Require GuestMounts GuestLive Snapshots.
Open Scope string_scope.
Open Scope list_scope.
Open Scope Z_scope.

(** The resolved workspace has the name that was asked for. *)
Lemma Resolve_name home cwd ParseVolume files cfg name ws : Resolve home cwd ParseVolume files cfg name = Ok ws → r_Name ws = name.
Proof.
  unfold Resolve. destruct (c_Workspaces cfg !! name); [|done]. intros H. repeat apply bind_Ok in H as (? & ? & H).
  case_match. repeat apply bind_Ok in H as (? & ? & H). by injection H as <-.
Qed.

(** ** The directories of the workspaces *)

Ltac const_names := solve [repeat (constructor; [split; [split_and!; discriminate|reflexivity]|]); constructor].
Lemma workspace_name n : workspaceNameRe n = true → name n.
Proof.
  unfold workspaceNameRe, plus. intros [Hn Hw]%andb_true_iff. apply negb_true_iff in Hn.
  assert (∀ c, has_char c n = true → is_lower c || is_digit c || Ascii.eqb c "-" = true) as Hc.
  { intros c. unfold has_char. clear Hn. induction n as [|d n IH]; [done|]. cbn [sforall sexists] in *. apply andb_true_iff in Hw as [Hd Hw].
    intros [E|E]%orb_true_iff; [apply Ascii.eqb_eq in E as ->; done|by apply IH]. }
  split; [split_and!|].
  - intros ->. done.
  - intros ->. by specialize (Hc "."%char eq_refl).
  - intros ->. by specialize (Hc "."%char eq_refl).
  - destruct (has_char "/" n) eqn:E; [|done]. by specialize (Hc "/"%char E).
Qed.
Section Dirs.
Context (he : host_env) (hk : path) (Hhome : he_home he = Some (path_string hk)) (Hne : hk ≠ []) (Hk : names hk).
(** A path of the state directory. *)
Definition below (l : list string) : path := hk ++ [".cache"; "jailoc-vm"] ++ l.
Lemma below_names l : names l → names (below l).
Proof using Hk. intros Hl. apply Forall_app. split; [done|]. apply Forall_app. split; [const_names|done]. Qed.
Lemma below_ne l : below l ≠ [].
Proof using Hne. intros E. by apply app_eq_nil in E as [E _]. Qed.
Lemma below_inj a b : names a → names b → path_string (below a) = path_string (below b) → a = b.
Proof using Hk. intros Ha Hb E. apply path_string_inj in E; [|by apply below_names..]. by apply app_inv_head, app_inv_head in E. Qed.
Lemma below_join l l' : names l → names l' → l' ≠ [] → JoinPath (path_string (below l) :: l') = path_string (below (l ++ l')).
Proof using Hk Hne.
  intros Hl Hl' Hn. rewrite JoinPath_names //; [|by apply below_ne|by apply below_names]. unfold below. by rewrite -!app_assoc.
Qed.
Lemma root_path : vmRootDir he = path_string (below []).
Proof using Hhome Hk Hne. unfold vmRootDir. rewrite Hhome. unfold below. rewrite app_nil_r. apply JoinPath_names; [done|done|done|const_names]. Qed.
Lemma state_path n : workspaceNameRe n = true → vmStateDir he n = path_string (below ["workspaces"; n]).
Proof using Hhome Hk Hne.
  intros Hn. unfold vmStateDir. rewrite root_path below_join //. constructor; [by split; [split_and!|]|]. constructor; [by apply workspace_name|done].
Qed.
Lemma state_file n f : workspaceNameRe n = true → name f → JoinPath [vmStateDir he n; f] = path_string (below ["workspaces"; n; f]).
Proof using Hhome Hk Hne.
  intros Hn Hf. rewrite state_path // below_join //; [|by constructor].
  constructor; [by split; [split_and!|]|]. constructor; [by apply workspace_name|done].
Qed.
Lemma file_names n f : workspaceNameRe n = true → name f → names ["workspaces"; n; f].
Proof. intros Hn Hf. constructor; [by split; [split_and!|]|]. constructor; [by apply workspace_name|]. by constructor. Qed.
(** Files with different names, and those of different workspaces, differ. *)
Lemma file_inj n f n' f' : workspaceNameRe n = true → name f → workspaceNameRe n' = true → name f' →
  JoinPath [vmStateDir he n; f] = JoinPath [vmStateDir he n'; f'] → n = n' ∧ f = f'.
Proof using Hhome Hk Hne.
  intros Hn Hf Hn' Hf' E. rewrite !state_file // in E. apply below_inj in E; [by injection E|by apply file_names..].
Qed.
Lemma dir_inj n n' : workspaceNameRe n = true → workspaceNameRe n' = true → vmStateDir he n = vmStateDir he n' → n = n'.
Proof using Hhome Hk Hne.
  intros Hn Hn' E. assert (name "x") as Hx by (by split; [split_and!|]).
  assert (JoinPath [vmStateDir he n; "x"] = JoinPath [vmStateDir he n'; "x"]) as E' by (by rewrite E). by apply file_inj in E' as [? _].
Qed.
(** No builder runs in the directory of a workspace. *)
Lemma builder_apart ws n : workspaceNameRe (r_Name ws) = true → workspaceNameRe n = true → builderStateDir he ws ≠ vmStateDir he n.
Proof using Hhome Hk Hne.
  intros Hw Hn. assert (name "builder") as Hb by (by split; [split_and!|]). unfold builderStateDir. rewrite (state_path n) //.
  assert (names ["workspaces"; n]) as Hns.
  { constructor; [by split; [split_and!|]|]. constructor; [by apply workspace_name|done]. }
  destruct (r_IsolatedBuild ws).
  - rewrite state_file //. intros E. apply below_inj in E; [done|by apply file_names|done].
  - rewrite root_path below_join //; [|by constructor]. intros E. apply below_inj in E; [done|by constructor|done].
Qed.
End Dirs.

(** ** The secrets marker *)

(** What a history says of one workspace: whether its marker may exist, and
    whether the VM started last has received its secrets. *)
Record delivery := { may_exist : bool; received : bool }.
Section Marker.
Context (dir : string).
Definition see (s : delivery) (i : hitem) : delivery :=
  match i with existT c x =>
    match c as c return hanswer c → delivery with
    | StartProc argv => λ _, if bool_decide (argv !! 2%nat = Some dir) then {| may_exist := may_exist s; received := false |} else s
    | RunSecrets d _ _ => λ r, if bool_decide (d = dir) && isOk r then {| may_exist := may_exist s; received := true |} else s
    | WriteFile p _ => λ _, if bool_decide (p = secretsMarker dir) then {| may_exist := true; received := received s |} else s
    | RemoveFile p => λ r, if bool_decide (p = secretsMarker dir) && (isOk r || is_herr NotExist r)
                           then {| may_exist := false; received := received s |} else s
    | _ => λ _, s
    end x
  end.
Definition seen (s0 : delivery) (h : list hitem) : delivery := foldl see s0 h.
Definition honest (s : delivery) : Prop := may_exist s = true → received s = true.
Context (s0 : delivery).
Definition marker_pre (h : list hitem) (c : hcall) : Prop :=
  match c with
  | StartProc argv => argv !! 2%nat = Some dir → may_exist (seen s0 h) = false
  | WriteFile p _ => p = secretsMarker dir → received (seen s0 h) = true
  | _ => True
  end.
Lemma seen_app h t : seen s0 (h ++ t) = foldl see (seen s0 h) t.
Proof. apply foldl_app. Qed.
Lemma pre_honest h t : honest (seen s0 h) → (∀ t1 c x t2, t = t1 ++ existT c x :: t2 → marker_pre (h ++ t1) c) →
  ∀ t1 t2, t = t1 ++ t2 → honest (seen s0 (h ++ t1)).
Proof.
  intros Hh Hpre t1. induction t1 as [|[c x] t1 IH] using rev_ind; intros t2 ->; [by rewrite app_nil_r|].
  rewrite -assoc in Hpre. specialize (Hpre t1 c x t2 eq_refl).
  specialize (IH ([existT c x] ++ t2)). rewrite -assoc in IH. specialize (IH eq_refl).
  rewrite assoc seen_app. cbn. unfold honest in *. destruct c; try exact IH; cbn in *.
  - case_bool_decide; [|done]. intros _. by apply Hpre.
  - destruct (_ && _); [done|exact IH].
  - case_bool_decide; [|done]. cbn. intros Hm. by rewrite Hpre in Hm.
  - destruct (_ && _); [done|exact IH].
Qed.

(** Calls that neither start a VM nor write a file, and those whose
    preconditions do not concern the workspace. *)
Definition calm (c : hcall) : Prop := match c with StartProc _ | WriteFile _ _ => False | _ => True end.
Definition fine (c : hcall) : Prop :=
  match c with StartProc argv => argv !! 2%nat ≠ Some dir | WriteFile p _ => p ≠ secretsMarker dir | _ => True end.
Lemma calm_fine {A} (p : hprog A) : calls calm p → calls fine p.
Proof. apply calls_mono. by intros []. Qed.
Lemma fine_pre h t c : fine c → marker_pre (h ++ t) c.
Proof. destruct c; cbn; try done; intros H E; by destruct (H E). Qed.
Lemma fine_safe {A} (p : hprog A) h : calls fine p → safe marker_pre p h (λ _ _, True).
Proof. intros Hp. by apply (safe_calls _ _ _ _ _ Hp (fine_pre h)). Qed.
(** No VM of the workspace starts while its marker may exist. *)
Definition cleared (spec : Spec) (h : list hitem) : Prop := sp_StateDir spec = dir → may_exist (seen s0 h) = false.
Lemma calm_cleared {A} (p : hprog A) spec h : calls calm p → cleared spec h → safe marker_pre p h (λ _ h', cleared spec h').
Proof.
  revert h. induction p as [a|c k IH]; intros h Hp Hc; cbn in *; [done|]. destruct Hp as [Hcalm Hk]. split; [by destruct c|].
  intros x. apply IH; [apply Hk|]. intros E. specialize (Hc E). rewrite seen_app. cbn. destruct c; try done; cbn.
  - by destruct (_ && _).
  - by destruct (_ && _).
Qed.
Lemma after_fine {A} (m : hio A) h : calls fine m → after marker_pre m h (λ _ _, True).
Proof. intros Hm. apply (safe_mono _ _ _ _ _ (fine_safe m h Hm)). by intros [a|e] t. Qed.
Lemma after_cleared {A} (m : hio A) spec h : calls calm m → cleared spec h → after marker_pre m h (λ _ h', cleared spec h').
Proof. intros Hm Hc. apply (safe_mono _ _ _ _ _ (calm_cleared m spec h Hm Hc)). by intros [a|e] t. Qed.
Lemma bind_cleared {A B} (m : hio A) (f : A → hio B) spec h (Q : B → list hitem → Prop) :
  calls calm m → cleared spec h → (∀ a h', cleared spec h' → after marker_pre (f a) h' Q) → after marker_pre (m ≫= f) h Q.
Proof. intros Hm Hc Hf. apply (after_bind _ _ _ _ _ _ (after_cleared m spec h Hm Hc)). intros a t. apply Hf. Qed.
Lemma bind_fine {A B} (m : hio A) (f : A → hio B) h (Q : B → list hitem → Prop) :
  calls fine m → (∀ a h', after marker_pre (f a) h' Q) → after marker_pre (m ≫= f) h Q.
Proof. intros Hm Hf. apply (after_bind _ _ _ _ _ _ (after_fine m h Hm)). intros a t _. apply Hf. Qed.
Lemma bind_known {A B} (P : A → Prop) (m : hio A) (f : A → hio B) h (Q : B → list hitem → Prop) :
  calls fine m → returns m (λ r, match r with Ok a => P a | Err _ => True end) → (∀ a h', P a → after marker_pre (f a) h' Q) →
  after marker_pre (m ≫= f) h Q.
Proof.
  intros Hm HP Hf. unfold after, mbind, io_bind. revert h. induction m as [[a|e]|c k IH]; intros h; cbn in *; [by apply Hf|done|].
  destruct Hm as [Hc Hk]. split; [specialize (fine_pre h [] c Hc); by rewrite app_nil_r|]. intros x. by apply IH.
Qed.
End Marker.

Lemma await_dead_calls n pid d : calls calm (await_dead n pid d).
Proof.
  induction n as [|n IH]; cbn [await_dead]; [done|]. apply calls_bind; [walk|]. intros [|]; [|done]. split; [done|]. intros now.
  destruct (_ <? _); [|done]. split; [done|]. intros _. apply IH.
Qed.
#[export] Hint Resolve await_dead_calls : calls.
Lemma await_ready_calls n dir pid : calls calm (await_ready n dir pid).
Proof.
  induction n as [|n IH]; cbn [await_ready]; [walk|]. apply calls_io; [walk|]. intros [| | |]; [walk..|].
  apply calls_io; [walk|]. intros [st|e]; [|apply IH]. walk; apply IH.
Qed.
Lemma stopSupervisor_calls dir : calls calm (stopSupervisor dir).
Proof. walk. Qed.
Lemma runningVM_calls dir : calls calm (runningVM dir).
Proof. walk. Qed.
#[export] Hint Resolve await_ready_calls stopSupervisor_calls runningVM_calls : calls.

Section Commands.
Context (he : host_env) (darwin : bool) (configDir : string) (marshal : Spec → option string).
Context (encode_ids : list string → string) (decode_ids : string → option (list string)).
Context (encode_reload : GuestLive.Reload → string) (decode_done : string → option GuestLive.ReloadDone).
Context (hk : path) (Hhome : he_home he = Some (path_string hk)) (Hne : hk ≠ []) (Hk : names hk).
Context (wsName : string) (Hws : workspaceNameRe wsName = true).
Local Notation dir := (vmStateDir he wsName).
Local Notation stateDir ws := (vmStateDir he (r_Name ws)).
Local Notation valid ws := (workspaceNameRe (r_Name ws) = true).
Context (s0 : delivery).
Local Notation Pre := (marker_pre dir s0).

Lemma start_after spec h : cleared dir s0 spec h → after Pre (startSupervisor marshal spec) h (λ _ _, True).
Proof.
  intros Hc. unfold startSupervisor. apply (bind_cleared _ _ _ _ spec); [walk|done|]. intros [st|] h1 Hc1; [done|].
  apply (bind_cleared _ _ _ _ spec); [walk|done|]. intros [] h2 Hc2.
  apply (bind_cleared _ _ _ _ spec); [walk|done|]. intros exe h3 Hc3. unfold spawn.
  apply (bind_cleared _ _ _ _ spec); [walk|done|]. intros fd h4 Hc4.
  apply (after_finally _ (fine dir)); [|by split|apply fine_pre|by intros a].
  apply (bind_cleared _ _ _ _ spec); [walk|done|]. intros [] h5 Hc5.
  apply (after_bind _ _ _ _ (λ _ _, True)); [|intros pid t _; apply after_fine, calm_fine; apply await_ready_calls].
  apply after_wrap. cbn. split; [|by intros [?|?]]. intros [= E]. by apply Hc5.
Qed.
Lemma start_other spec h : sp_StateDir spec ≠ dir → after Pre (startSupervisor marshal spec) h (λ _ _, True).
Proof. intros Hn. apply start_after. by intros E. Qed.
Lemma marker_inj n : workspaceNameRe n = true → secretsMarker (vmStateDir he n) = secretsMarker dir → n = wsName.
Proof using Hhome Hne Hk Hws.
  intros Hn E. assert (name "secrets-delivered") as Hf by (split; [split_and!; discriminate|done]).
  by apply (file_inj he hk Hhome Hne Hk) in E as [? _].
Qed.
Lemma deliver_after ws p h : valid ws → after Pre (deliverSecrets (stateDir ws) p) h (λ _ _, True).
Proof using Hhome Hne Hk Hws.
  intros Hv. unfold deliverSecrets. apply bind_fine; [walk|]. intros client h1.
  apply (after_finally _ (fine dir)); [|by split|apply fine_pre|by intros a].
  apply bind_fine; [walk|]. intros sess h2.
  apply (after_finally _ (fine dir)); [|by split|apply fine_pre|by intros a].
  apply (after_bind _ _ _ _ (λ _ h', stateDir ws = dir → received (seen dir s0 h') = true)).
  - cbn. split; [done|]. intros [[]|e]; cbn; [|done]. intros E. rewrite seen_app. cbn. by rewrite bool_decide_true.
  - intros [] t2 Hr. apply after_wrap. cbn [after call safe]. split; [|by intros [?|?]]. intros E. apply Hr. by rewrite (marker_inj _ Hv E).
Qed.
Lemma images_ne w : workspaceNameRe w = true → JoinPath [vmStateDir he w; dockerImagesFile] ≠ secretsMarker dir.
Proof using Hhome Hne Hk Hws.
  intros Hw E. apply (file_inj he hk Hhome Hne Hk) in E as [_ E]; try done; split; try (split_and!; discriminate); done.
Qed.
Lemma image_ids_calls chain : calls calm (image_ids chain).
Proof. induction chain as [|x l IH]; cbn [image_ids]; [done|]. walk. Qed.
Lemma recorded_calls files keep : calls calm (recorded_images decode_ids files keep).
Proof. revert keep. induction files as [|x l IH]; intros keep; cbn [recorded_images]; [done|]. walk. Qed.
Lemma cached_calls specs keep : calls calm (cached_images specs keep).
Proof. revert keep. induction specs as [|x l IH]; intros keep; cbn [cached_images]; [done|]. walk. Qed.
Lemma read_secrets_calls n purge l : calls calm (read_secrets n purge l).
Proof. induction l as [|x l IH]; cbn [read_secrets]; [done|]. walk. Qed.
Lemma await_broker_calls n before off d log : calls calm (await_broker n before off d log).
Proof. induction n as [|n IH]; cbn [await_broker]; [done|]. walk. Qed.
Lemma await_guest_calls n d seq dl : calls calm (await_guest decode_done n d seq dl).
Proof. induction n as [|n IH]; cbn [await_guest]; [done|]. walk. Qed.
#[local] Hint Resolve calm_fine image_ids_calls recorded_calls cached_calls read_secrets_calls await_broker_calls await_guest_calls : calls.
Lemma import_fine ws : valid ws → calls (fine dir) (importWorkspaceImage he encode_ids decode_ids ws).
Proof using Hhome Hne Hk Hws.
  intros Hv. walk. cbn. split; [apply images_ne, Hv|done].
Qed.
Lemma setDockerHost_calls sock : calls calm (setDockerHost sock).
Proof. walk. Qed.
Lemma build_after cfg ws rt h : valid ws → after Pre (buildWorkspaceImage he configDir marshal encode_ids decode_ids cfg ws rt) h (λ _ _, True).
Proof using Hhome Hne Hk Hws.
  intros Hv. unfold buildWorkspaceImage. apply bind_fine; [walk|]. intros hostErr h1.
  destruct (useHostDocker _ _ _) as [[|]|]; [apply after_fine, import_fine, Hv| |done].
  apply bind_fine; [walk|]. intros [] h2. apply bind_fine; [walk|]. intros lock h3.
  apply (after_finally _ (fine dir)); [|by split|apply fine_pre|by intros a]. unfold locked_builder.
  apply bind_fine; [walk|]. intros [] h4. apply bind_fine; [walk|]. intros policy h5. apply bind_fine; [walk|]. intros exe h6.
  apply bind_fine; [walk|]. intros ca h7. apply bind_fine; [walk|]. intros disk h8. unfold with_builder.
  apply (after_bind _ _ _ _ (λ _ _, True)).
  { apply after_wrap, start_other. exact (builder_apart he hk Hhome Hne Hk ws wsName Hv Hws). }
  intros st t _. apply (after_finally _ (fine dir)); [|apply calls_bind; [apply calm_fine, stopSupervisor_calls|done]|apply fine_pre|by intros a].
  apply (after_bind _ _ _ _ (λ restore _, calls (fine dir) restore)).
  { unfold setDockerHost. apply bind_fine; [walk|]. intros orig h9. apply bind_fine; [walk|]. intros [] h10. destruct orig; by split. }
  intros restore t1 Hr. apply (after_finally _ (fine dir)); [apply after_fine, import_fine, Hv|exact Hr|apply fine_pre|by intros a].
Qed.
Lemma payload_fine ws spec purge : calls (fine dir) (payload ws spec purge).
Proof. walk. Qed.
Lemma workspace_spec_fine ws rt ref shares binds : calls (fine dir) (workspace_spec he ws rt ref shares binds).
Proof. walk. Qed.
#[local] Hint Resolve payload_fine workspace_spec_fine : calls.
Lemma reload_after ws purge h : valid ws → after Pre (reloadVM he encode_reload decode_done ws purge) h (λ _ _, True).
Proof using Hhome Hne Hk Hws.
  intros Hv. unfold reloadVM. apply bind_fine; [walk|]. intros [st|] h1; [|done]. apply bind_fine; [walk|]. intros running h2.
  destruct (sp_Guest running) as [rg|]; [|done]. unfold reload_running. apply bind_fine.
  { unfold reloadSpec. apply calls_io; [walk|intros []]. walk. }
  intros [[want wg] snaps] h3. apply bind_fine; [walk|]. intros p h4. apply bind_fine; [walk|]. intros rl h5.
  apply bind_fine; [walk|]. intros binds h6.
  apply bind_fine; [unfold reloadBroker; walk|]. intros [] h7. apply bind_fine; [walk|]. intros [] h8. apply bind_fine; [walk|]. intros [] h9.
  apply after_wrap, deliver_after, Hv.
Qed.
Lemma up_spec_dir ws rt ref shares internal snaps :
  returns (up_spec he ws rt ref shares internal snaps) (λ r, match r with Ok spec => sp_StateDir spec = stateDir ws | Err _ => True end).
Proof.
  intros [binds|e]; [|done]. intros policy. cbn -[workspaceSpec vmStateDir].
  destruct (workspaceSpec he ws rt ref shares binds _) as [spec|e] eqn:E; cbn -[vmStateDir]; [|done].
  assert (sp_StateDir spec = stateDir ws) as Hd.
  { unfold workspaceSpec in E. repeat apply bind_Ok in E as (? & ? & E). by injection E as <-. }
  destruct (sp_Guest spec) as [g|]; [|done]. unfold configureVMDocker, protect_git. cbn -[vmStateDir].
  destruct (r_EnableDocker ws); cbn -[vmStateDir].
  - intros [[|]|]; cbn -[vmStateDir]; [|done|done]. destruct (r_ProtectGit ws); cbn -[vmStateDir]; [|exact Hd]. by intros [[]|].
  - destruct (r_ProtectGit ws); cbn -[vmStateDir]; [|exact Hd]. by intros [[]|].
Qed.
Lemma reset_cleared ws spec h : valid ws → sp_StateDir spec = stateDir ws → after Pre (reset_marker (stateDir ws)) h (λ _ h', cleared dir s0 spec h').
Proof using Hhome Hne Hk Hws.
  intros Hv Hd. cbn -[secretsMarker vmStateDir]. split; [done|]. intros r.
  assert (isOk r || is_herr NotExist r = true → cleared dir s0 spec (h ++ [existT (RemoveFile (secretsMarker (stateDir ws))) r])) as Hc.
  { intros Hr Hs. rewrite seen_app. cbn -[secretsMarker vmStateDir]. by rewrite bool_decide_true; [rewrite Hr|by rewrite -Hs Hd]. }
  destruct r as [[]|e]; [by apply Hc|]. destruct e; try done. by apply Hc.
Qed.
Lemma up_after cfg ws h : valid ws →
  after Pre (runUpVM he darwin configDir marshal encode_ids decode_ids encode_reload decode_done cfg ws) h (λ _ _, True).
Proof using Hhome Hne Hk Hws.
  intros Hv. unfold runUpVM. apply bind_fine; [walk|]. intros [st|] h1; [by apply reload_after|].
  apply bind_fine; [walk|]. intros [] h2. apply bind_fine; [walk|]. intros [[shares internal] snaps] h3.
  apply bind_fine; [walk|]. intros rt h4. apply (after_bind _ _ _ _ _ _ (build_after cfg ws rt h4 Hv)). intros ref t _.
  apply (bind_known _ _ (λ spec, sp_StateDir spec = stateDir ws)); [walk|apply up_spec_dir|]. intros spec h5 Hd.
  apply bind_fine; [walk|]. intros p h6. unfold start_workspace.
  apply (after_bind _ _ _ _ _ _ (reset_cleared ws spec h6 Hv Hd)). intros [] t1 Hc.
  apply (after_bind _ _ _ _ (λ _ _, True)); [apply after_wrap, start_after, Hc|]. intros st t2 _.
  apply (after_bind _ _ _ _ (λ _ _, True)).
  { apply after_run. apply (safe_mono _ _ _ _ _ (deliver_after ws p _ Hv)). done. }
  intros [[]|e] t3 _; [done|]. apply bind_fine; [walk|done].
Qed.
Lemma ensure_after ws h : valid ws → after Pre (ensureSecrets he ws) h (λ _ _, True).
Proof using Hhome Hne Hk Hws.
  intros Hv. unfold ensureSecrets. apply bind_fine; [walk|]. intros r h1. destruct (isOk _); [done|].
  apply bind_fine; [walk|]. intros [] h2. apply bind_fine; [walk|]. intros spec h3. apply bind_fine; [walk|]. intros p h4.
  apply after_wrap, deliver_after, Hv.
Qed.
Lemma down_fine ws purge : calls (fine dir) (downVM he ws purge).
Proof. walk. Qed.
Lemma restart_after ws h : valid ws →
  after Pre (restartVMIfRunning he darwin configDir marshal encode_ids decode_ids encode_reload decode_done ws) h (λ _ _, True).
Proof using Hhome Hne Hk Hws.
  intros Hv. unfold restartVMIfRunning. apply bind_fine; [walk|]. intros [st|] h1; [|done]. apply bind_fine; [walk|]. intros cfg h2.
  apply bind_fine; [walk|]. intros [ws2 Hn] h3. cbn [proj1_sig]. apply bind_fine; [walk|]. intros [] h4.
  apply bind_fine; [apply down_fine|]. intros [] h5. apply up_after. by rewrite Hn.
Qed.
End Commands.

(** *** Any commands in any order *)

Inductive command :=
| CUp (cfg : Config) (ws : Resolved) | CReload (ws : Resolved) (purge : bool) | CEnsure (ws : Resolved)
| CDown (ws : Resolved) (purge : bool) | CRestart (ws : Resolved).
Definition command_ws (c : command) : Resolved :=
  match c with CUp _ ws | CReload ws _ | CEnsure ws | CDown ws _ | CRestart ws => ws end.
Section Commands.
Context (he : host_env) (darwin : bool) (configDir : string) (marshal : Spec → option string).
Context (encode_ids : list string → string) (decode_ids : string → option (list string)).
Context (encode_reload : GuestLive.Reload → string) (decode_done : string → option GuestLive.ReloadDone).
Definition perform (c : command) : hio () :=
  match c with
  | CUp cfg ws => runUpVM he darwin configDir marshal encode_ids decode_ids encode_reload decode_done cfg ws
  | CReload ws purge => reloadVM he encode_reload decode_done ws purge
  | CEnsure ws => ensureSecrets he ws
  | CDown ws purge => downVM he ws purge
  | CRestart ws => restartVMIfRunning he darwin configDir marshal encode_ids decode_ids encode_reload decode_done ws
  end.
(** The commands one after the other, whatever each returns. *)
Fixpoint perform_all (cs : list command) : hprog () :=
  match cs with [] => Ret () | c :: cs => pbind (λ _, perform_all cs) (perform c) end.

(** C4: the secrets marker does not lie. In every run of any sequence of
    commands for any workspaces, at every call on the way and whatever fails,
    the marker of a workspace exists only when the VM started last for that
    workspace has received a delivery of secrets, if this held at the beginning. *)
Theorem marker_honest env hk wsName s0 cs h t1 t2 :
  he_home he = Some (path_string hk) → hk ≠ [] → names hk → workspaceNameRe wsName = true →
  Forall (λ c, workspaceNameRe (r_Name (command_ws c)) = true) cs →
  honest (seen (vmStateDir he wsName) s0 h) → (exec env (perform_all cs) h).2 = h ++ t1 ++ t2 →
  honest (seen (vmStateDir he wsName) s0 (h ++ t1)).
Proof.
  intros Hhome Hne Hk Hws Hcs Hh E.
  assert (safe (marker_pre (vmStateDir he wsName) s0) (perform_all cs) h (λ _ _, True)) as Hs.
  { clear Hh E. revert h. induction Hcs as [|c cs Hc _ IH]; intros h; [done|]. cbn [perform_all]. apply safe_bind.
    apply (safe_mono _ _ _ (λ r h', match r with Ok _ => True | Err _ => True end)); [|intros r t _; apply IH].
    destruct c; cbn [perform command_ws] in *.
    - by apply (up_after he darwin configDir marshal encode_ids decode_ids encode_reload decode_done hk Hhome Hne Hk wsName Hws).
    - by apply (reload_after he encode_reload decode_done hk Hhome Hne Hk wsName Hws).
    - by apply (ensure_after he hk Hhome Hne Hk wsName Hws).
    - apply after_fine, down_fine.
    - by apply (restart_after he darwin configDir marshal encode_ids decode_ids encode_reload decode_done hk Hhome Hne Hk wsName Hws). }
  destruct (exec_safe _ env _ _ _ Hs) as (t & E' & _ & Hpre). rewrite E' in E. apply app_inv_head in E.
  by apply (pre_honest _ _ h t Hh Hpre t1 t2).
Qed.
End Commands.
Lemma lab_home : he_home lab_host = Some (path_string ["h"]).
Proof. reflexivity. Qed.
Lemma lab_home_names : names ["h"].
Proof. const_names. Qed.
Definition lab_perform : list command → hprog () :=
  perform_all lab_host false "/c" lab_marshal (λ _, "") (λ _, Some []) (λ _, "") lab_done.
Definition lab_commands : list command := [CUp lab_cfg lab_workspace; CReload lab_workspace false; CDown lab_workspace false; CUp lab_cfg lab_workspace].
Definition lab_history : list hitem := (exec lab_env (lab_perform lab_commands) []).2.
Definition nothing_yet : delivery := {| may_exist := false; received := false |}.
Lemma marker_honest_witness :
  seen (vmStateDir lab_host "w") nothing_yet lab_history = {| may_exist := true; received := true |} ∧
  honest (seen (vmStateDir lab_host "w") nothing_yet ([] ++ lab_history)).
Proof.
  split; [vm_compute; reflexivity|].
  apply (marker_honest lab_host false "/c" lab_marshal (λ _, "") (λ _, Some []) (λ _, "") lab_done lab_env ["h"] "w" nothing_yet lab_commands []
    lab_history [] lab_home).
  - discriminate.
  - exact lab_home_names.
  - vm_compute. reflexivity.
  - repeat constructor.
  - intros H. discriminate H.
  - vm_compute. reflexivity.
Defined.
