(* ===== verification/VmGuard.v ===== *)
(** * What holds when a workspace VM starts, is reloaded or is deleted

    The order of the steps of [up], [reload] and [down], as preconditions of the
    calls that matter: the VM of a workspace starts only from a specification
    every check has passed and that protects what it must, a reload records a
    specification only once the broker and the guest confirmed it, and the state
    of a workspace is deleted only when nothing runs in it. *)

From S2P Require Import Prelude GoStrings GoStrconv GoPath HostFS PathNames ConfigChecks Config Resolve Vm VmHost VmReload Prog HostCalls VmProc VmFlow VmLab VmFlowSpec.
From S2P Require GuestMounts GuestLive Snapshots GuestSys.
Open Scope string_scope.
Open Scope list_scope.
Open Scope Z_scope.

Local Notation made := (made (C:=hcall) (R:=hanswer)).
(** The rules for a flow whose calls before the next one of interest are [fine]. *)
Section Rules.
Context (Pre : list hitem → hcall → Prop) (ok : hcall → Prop) (ok_pre : ∀ h c, ok c → Pre h c).
Lemma step_known {A B} (F : list hitem → Prop) (G : A → list hitem → Prop) (m : hio A) (f : A → hio B) h (Q : B → list hitem → Prop) :
  calls ok m → lasting F → F h → reaches m h G → (∀ a h', F h' → G a h' → after Pre (f a) h' Q) → after Pre (m ≫= f) h Q.
Proof using ok_pre.
  intros Hm HF Hh HG Hf. apply (after_step _ F G _ _ _ _ HF Hh); [|exact Hf]. apply (safe_pre _ ok _ _ _ Hm); [intros; by apply ok_pre|exact HG].
Qed.
Lemma step_skip {A B} (F : list hitem → Prop) (m : hio A) (f : A → hio B) h (Q : B → list hitem → Prop) :
  calls ok m → lasting F → F h → (∀ a h', F h' → after Pre (f a) h' Q) → after Pre (m ≫= f) h Q.
Proof using ok_pre. intros Hm HF Hh Hf. apply (step_known F (λ _ _, True) _ _ _ _ Hm HF Hh); [apply reaches_true|]. intros a h' H _. by apply Hf. Qed.
Lemma last_known {A} (Q : A → list hitem → Prop) (m : hio A) h : calls ok m → reaches m h Q → after Pre m h Q.
Proof using ok_pre. intros Hm HQ. apply (safe_pre _ ok _ _ _ Hm); [intros; by apply ok_pre|exact HQ]. Qed.
End Rules.

(** ** Up *)

Section Up.
Context (he : host_env) (darwin : bool) (configDir : string) (marshal : Spec → option string).
Context (encode_ids : list string → string) (decode_ids : string → option (list string)).
Context (encode_reload : GuestLive.Reload → string) (decode_done : string → option GuestLive.ReloadDone).
Context (hk : path) (Hhome : he_home he = Some (path_string hk)) (Hne : hk ≠ []) (Hk : names hk).
Context (ws : Resolved) (Hws : workspaceNameRe (r_Name ws) = true).
Local Notation dir := (vmStateDir he (r_Name ws)).

(** What the checks of the host have said of the shares. *)
Definition checked (shares : list Share) (internal : list GuestSys.Bind) (h : list hitem) : Prop :=
  made h (ValidateSecretSources ws) (Ok ()) ∧ made h (VmShares ws) (Ok shares) ∧ made h (ClaimProfile ws) (Ok ()) ∧
  made h (VmGuestData ws (workspaceCacheDir he ws) shares true) (Ok internal) ∧
  ∃ snaps, made h (VmSnapshots ws) (Ok snaps) ∧ made h (CheckSnapshots ws snaps shares) (Ok ()).
(** A specification that starts the workspace as it must. *)
Definition specified (spec : Spec) (h : list hitem) : Prop :=
  ∃ shares internal g, checked shares internal h ∧ sp_StateDir spec = dir ∧ sp_Shares spec = shares ∧ sp_Guest spec = Some g ∧
    g_Binds g = internal ∧ made h (VmPolicy ws) (Ok (sp_Policy spec)) ∧
    (sp_Docker spec = true → made h (ImageHasFile (sp_ImageCache spec) (sp_Image spec) dockerdPaths) (Ok true)) ∧
    (r_ProtectGit ws = true → g_NoPrivilegeEscalation g = true ∧ made h (GitProtection shares) (Ok (g_Pins g, g_ReadOnly g))).
(** The specification written last. *)
Definition wrote (o : option Spec) (i : hitem) : option Spec :=
  match i with existT c x =>
    match c as c return hanswer c → option Spec with
    | WriteSpec s => λ r, if isOk r && bool_decide (sp_StateDir s = dir) then Some s else o | _ => λ _, o
    end x
  end.
Definition last_written (h : list hitem) : option Spec := foldl wrote None h.
Definition start_pre (h : list hitem) (c : hcall) : Prop :=
  match c with
  | StartProc argv => argv !! 2%nat = Some dir → ∃ spec, last_written h = Some spec ∧ specified spec h
  | _ => True
  end.
(** Calls that do not start the workspace, and those that write no specification either. *)
Definition other (c : hcall) : Prop := match c with StartProc argv => argv !! 2%nat ≠ Some dir | _ => True end.
Definition idle (c : hcall) : Prop := match c with StartProc _ | WriteSpec _ => False | _ => True end.
Lemma other_pre h c : other c → start_pre h c.
Proof. destruct c; try done. intros Ho E. by destruct Ho. Qed.
Lemma idle_other {A} (p : hprog A) : calls idle p → calls other p.
Proof. apply calls_mono. by intros []. Qed.
Lemma calm_other {A} (p : hprog A) : calls calm p → calls other p.
Proof. apply calls_mono. by intros []. Qed.
Lemma checked_lasting shares internal : lasting (checked shares internal).
Proof. unfold checked, made. repeat (apply lasting_and; [apply lasting_in|]). apply lasting_ex. intros snaps. apply lasting_and; apply lasting_in. Qed.
Lemma specified_lasting spec : lasting (specified spec).
Proof.
  unfold specified. apply lasting_ex. intros shares. apply lasting_ex. intros internal. apply lasting_ex. intros g.
  apply lasting_and; [apply checked_lasting|]. unfold made. auto 12 with lasting.
Qed.
Lemma idle_keeps {A} (m : hio A) h : calls idle m → reaches m h (λ _ h', last_written h' = last_written h).
Proof.
  revert h. unfold after. induction m as [[a|e]|c k IH]; intros h; cbn; [done|done|]. intros [Hc Hkk]. split; [done|]. intros x.
  apply (safe_mono _ _ _ _ _ (IH x (h ++ [existT c x]) (Hkk x))). intros [a|e] t; [|done]. intros ->. unfold last_written. rewrite foldl_app. by destruct c.
Qed.
(** One idle step between the specification written and the start. *)
Definition recorded (spec : Spec) (h : list hitem) : Prop := last_written h = Some spec ∧ specified spec h.
Lemma step_recorded {A B} spec (m : hio A) (f : A → hio B) h (Q : B → list hitem → Prop) :
  calls idle m → recorded spec h → (∀ a h', recorded spec h' → after start_pre (f a) h' Q) → after start_pre (m ≫= f) h Q.
Proof.
  intros Hm [Hl Hs] Hf. apply (step_known start_pre other other_pre (specified spec) (λ _ h', last_written h' = last_written h) _ _ _ _
    (idle_other _ Hm) (specified_lasting spec) Hs (idle_keeps m h Hm)).
  intros a h' Hs' E. apply Hf. split; [by rewrite E|done].
Qed.
Lemma start_specified spec h : sp_StateDir spec = dir → specified spec h → after start_pre (startSupervisor marshal spec) h (λ _ _, True).
Proof.
  intros Hd Hs. unfold startSupervisor. apply (step_skip _ other other_pre (specified spec)); [apply calm_other; walk|apply specified_lasting|done|].
  intros [st|] h1 H1; [done|]. apply (after_bind _ _ _ _ (λ _ h', recorded spec h')).
  { apply after_wrap. cbn. split; [done|]. intros [[]|e]; [|done]. split; [|by apply specified_lasting].
    unfold last_written. rewrite foldl_app. cbn. by rewrite bool_decide_true. }
  intros [] t H2. apply (step_recorded spec); [walk|done|]. intros exe h3 H3. unfold spawn.
  apply (step_recorded spec); [walk|done|]. intros fd h4 H4. apply (after_finally _ other); [|by split|intros; by apply other_pre|by intros a].
  apply (step_recorded spec); [walk|done|]. intros [] h5 H5. apply (after_bind _ _ _ _ (λ _ _, True)).
  { apply after_wrap. cbn. split; [|by intros [?|?]]. intros _. by exists spec. }
  intros pid t' _. rewrite Hd. apply (last_known _ other other_pre); [apply calm_other, await_ready_calls|apply reaches_true].
Qed.
Lemma prepare_reaches h : reaches (prepare_host ws) h (λ _ h', made h' (ValidateSecretSources ws) (Ok ())).
Proof.
  unfold prepare_host. apply (reach_bind (λ _, True) _ (ValidateSecretSources ws) (λ x, x)); [done|done|]. intros [] x h1 _ H1 ->.
  apply (after_calls _ (λ _, True)); [by split; [|intros []]|done|apply made_lasting|exact H1].
Qed.
Definition prepared (d : list Share * list GuestSys.Bind * list Snapshots.snapshot) (h : list hitem) : Prop :=
  made h (VmShares ws) (Ok d.1.1) ∧ made h (ClaimProfile ws) (Ok ()) ∧
  made h (VmGuestData ws (workspaceCacheDir he ws) d.1.1 true) (Ok d.1.2) ∧ made h (VmSnapshots ws) (Ok d.2) ∧
  made h (CheckSnapshots ws d.2 d.1.1) (Ok ()).
Lemma host_data_reaches h : reaches (host_data he ws) h prepared.
Proof.
  unfold host_data. apply (reach_skip (λ _, True)); [done|done|]. intros [] h1 _. apply (reach_skip (λ _, True)); [done|done|]. intros [] h2 _.
  apply (reach_bind (λ _, True) _ (VmShares ws) (λ x, x)); [done|done|]. intros shares x h3 _ H3 ->.
  apply (reach_bind (λ h, made h (VmShares ws) (Ok shares)) _ (ClaimProfile ws) (λ x, x)); [apply made_lasting|done|]. intros [] x h4 H4 H4' ->.
  set (F := λ h, made h (VmShares ws) (Ok shares) ∧ made h (ClaimProfile ws) (Ok ())). assert (lasting F) as LF by (apply lasting_and; apply made_lasting).
  apply (reach_bind F _ (VmGuestData ws (workspaceCacheDir he ws) shares true) (λ x, x)); [done|by split|]. intros internal x h5 H5 H5' ->.
  set (F' := λ h, F h ∧ made h (VmGuestData ws (workspaceCacheDir he ws) shares true) (Ok internal)).
  assert (lasting F') as LF' by (apply lasting_and; [done|apply made_lasting]).
  apply (reach_bind F' _ (VmSnapshots ws) (λ x, x)); [done|by split|]. intros snaps x h6 H6 H6' ->.
  apply (reach_bind (λ h, F' h ∧ made h (VmSnapshots ws) (Ok snaps)) _ (CheckSnapshots ws snaps shares) (λ x, x)); [|by split|].
  { apply lasting_and; [done|apply made_lasting]. }
  intros [] x h7 [[[? ?] ?] ?] H7 ->. apply after_ret. by split_and!.
Qed.
Lemma workspaceSpec_facts rt ref shares binds policy spec :
  workspaceSpec he ws rt ref shares binds policy = Ok spec →
  policy = Some (sp_Policy spec) ∧ sp_StateDir spec = dir ∧ sp_Shares spec = shares ∧ sp_Docker spec = false.
Proof.
  unfold workspaceSpec. intros E. repeat (apply bind_Ok in E as (? & ? & E)). injection E as <-. cbn. destruct policy; [|done].
  split_and!; [|done|done|done]. match goal with H : opt_err (Some _) _ = Ok _ |- _ => by injection H as -> end.
Qed.
(** The parts of [specified] that each step adds. *)
Definition based (spec : Spec) (g : GuestConfig) shares internal (h : list hitem) : Prop :=
  sp_StateDir spec = dir ∧ sp_Shares spec = shares ∧ sp_Guest spec = Some g ∧ g_Binds g = internal ∧
  made h (VmPolicy ws) (Ok (sp_Policy spec)) ∧
  (sp_Docker spec = true → made h (ImageHasFile (sp_ImageCache spec) (sp_Image spec) dockerdPaths) (Ok true)).
Lemma based_lasting spec g shares internal : lasting (based spec g shares internal).
Proof. unfold based. repeat (apply lasting_and; [apply lasting_const|]). apply lasting_and; [apply made_lasting|]. apply lasting_imp, made_lasting. Qed.
Lemma configure_reaches spec g shares internal h :
  based spec g shares internal h → reaches (configureVMDocker ws spec g) h (λ sg h', based sg.1 sg.2 shares internal h').
Proof.
  intros Hb. unfold configureVMDocker. destruct (r_EnableDocker ws); [|exact Hb]. cbn [negb].
  apply (reach_bind (based spec g shares internal) _ (ImageHasFile (sp_ImageCache spec) (sp_Image spec) dockerdPaths) (λ x, x)); [apply based_lasting|done|].
  intros [|] x h1 (H1 & H2 & H3 & H4 & H5 & H6) Hm ->; [|done]. apply after_ret. by split_and!.
Qed.
Lemma protect_reaches spec g shares internal h :
  checked shares internal h → based spec g shares internal h → reaches (protect_git ws shares spec g) h specified.
Proof.
  intros Hc Hb. unfold protect_git. destruct (r_ProtectGit ws) eqn:P; cbn [negb].
  - apply (reach_bind (λ h, checked shares internal h ∧ based spec g shares internal h) _ (GitProtection shares) (λ x, x)).
    { apply lasting_and; [apply checked_lasting|apply based_lasting]. } { done. }
    intros [pins ro] x h1 (H0 & H1 & H2 & H3 & H4 & H5 & H6) Hm ->. apply after_ret.
    exists shares, internal. eexists. split_and!; [exact H0|exact H1|exact H2|reflexivity|exact H4|exact H5|exact H6|]. intros _. split; [done|exact Hm].
  - apply after_ret. destruct Hb as (H1 & H2 & H3 & H4 & H5 & H6). exists shares, internal, g. split_and!; try done. by rewrite P.
Qed.
Lemma up_spec_reaches rt ref shares internal snaps h :
  checked shares internal h → reaches (up_spec he ws rt ref shares internal snaps) h specified.
Proof.
  intros Hc. unfold up_spec. pose proof (checked_lasting shares internal) as LC.
  apply (reach_skip (checked shares internal)); [done|done|]. intros binds h1 H1. unfold workspace_spec.
  apply (after_step _ (checked shares internal) (λ spec h', ∃ g, sp_Guest spec = Some g ∧ based spec g shares (g_Binds g) h') _ _ _ _ LC H1).
  { apply (after_bind _ _ _ _ (λ x h', made h' (VmPolicy ws) x)).
    { cbn. split; [done|]. intros x. apply elem_of_app. right. by left. }
    intros policy t Hm. destruct (workspaceSpec he ws rt ref shares binds _) as [spec|e] eqn:E; [|done]. apply after_ret.
    destruct (workspaceSpec_facts _ _ _ _ _ _ E) as (Hp & Hd & Hs & Hk').
    assert (∃ g, sp_Guest spec = Some g) as [g Hg].
    { unfold workspaceSpec in E. repeat (apply bind_Ok in E as (? & ? & E)). injection E as <-. by eexists. }
    exists g. split; [done|]. split_and!; try done; [|by rewrite Hk']. destruct policy; [|done]. by injection Hp as ->. }
  intros spec h2 H2 (g & Hg & Hb). rewrite Hg. destruct Hb as (Hd & Hs & _ & _ & Hp & Hi).
  set (g1 := guest_with g internal _ _ _ _).
  assert (based (with_guest spec (sp_Docker spec) g1) g1 shares internal h2) as Hb1 by (by split_and!).
  apply (after_step _ (checked shares internal) (λ sg h', based sg.1 sg.2 shares internal h') _ _ _ _ LC H2).
  { by apply configure_reaches. }
  intros [spec1 g2] h3 H3 Hb2. exact (protect_reaches spec1 g2 shares internal h3 H3 Hb2).
Qed.
Lemma start_other_calls spec : sp_StateDir spec ≠ dir → calls other (startSupervisor marshal spec).
Proof.
  intros Hd. unfold startSupervisor. apply calls_io; [apply calm_other; walk|]. intros [st|]; [done|].
  apply calls_io; [walk|intros []]. apply calls_io; [walk|intros exe]. unfold spawn. apply calls_io; [walk|intros fd].
  apply calls_bind; [|by split]. apply calls_io; [walk|intros []]. apply calls_io; [|intros pid; apply calm_other, await_ready_calls].
  cbn. split; [|by intros [|]]. by intros [= E].
Qed.
Lemma image_ids_other chain : calls other (image_ids chain).
Proof. apply calm_other, image_ids_calls. Qed.
Lemma recorded_other files keep : calls other (recorded_images decode_ids files keep).
Proof. apply calm_other, recorded_calls. Qed.
Lemma cached_other specs keep : calls other (cached_images specs keep).
Proof. apply calm_other, cached_calls. Qed.
Lemma stop_other d : calls other (stopSupervisor d).
Proof. apply calm_other, stopSupervisor_calls. Qed.
Lemma running_other d : calls other (runningVM d).
Proof. apply calm_other, runningVM_calls. Qed.
Lemma secrets_other n purge l : calls other (read_secrets n purge l).
Proof. apply calm_other, read_secrets_calls. Qed.
Lemma broker_other n before off d log : calls other (await_broker n before off d log).
Proof. apply calm_other, await_broker_calls. Qed.
Lemma guest_other n d seq dl : calls other (await_guest decode_done n d seq dl).
Proof. apply calm_other, await_guest_calls. Qed.
#[local] Hint Resolve image_ids_other recorded_other cached_other stop_other running_other secrets_other broker_other guest_other : calls.
Lemma import_other : calls other (importWorkspaceImage he encode_ids decode_ids ws).
Proof. walk. Qed.
Lemma after_kept {A} (m : hio A) (Q : list hitem → Prop) h : lasting Q → Q h → after start_pre m h (λ _ _, True) → after start_pre m h (λ _ h', Q h').
Proof.
  intros HQ Hh Hm. apply (safe_mono _ _ _ _ _ (safe_mono _ _ _ _ (λ _ h', Q h') Hm (λ _ t _, HQ h t Hh))). by intros [a|e] t.
Qed.
Lemma build_other cfg rt h : after start_pre (buildWorkspaceImage he configDir marshal encode_ids decode_ids cfg ws rt) h (λ _ _, True).
Proof using Hhome Hne Hk Hws.
  assert (∀ B (m : hio B) h, calls other m → after start_pre m h (λ _ _, True)) as Hall.
  { intros B m h0 Hm. apply (last_known _ other other_pre); [done|apply reaches_true]. }
  assert (∀ B C (m : hio B) (f : B → hio C) h, calls other m → (∀ a h', after start_pre (f a) h' (λ _ _, True)) →
    after start_pre (m ≫= f) h (λ _ _, True)) as Hbind.
  { intros B C m f h0 Hm Hf. apply (step_skip _ other other_pre (λ _, True)); [done|done|done|]. intros a h' _. apply Hf. }
  unfold buildWorkspaceImage. apply Hbind; [walk|]. intros hostErr h1.
  destruct (useHostDocker _ _ _) as [[|]|]; [apply Hall, import_other| |done].
  apply Hbind; [walk|]. intros [] h2. apply Hbind; [walk|]. intros lock h3.
  apply (after_finally _ other); [|by split|intros; by apply other_pre|by intros a]. unfold locked_builder.
  apply Hbind; [walk|]. intros [] h4. apply Hbind; [walk|]. intros policy h5. apply Hbind; [walk|]. intros exe h6.
  apply Hbind; [walk|]. intros ca h7. apply Hbind; [walk|]. intros disk h8. unfold with_builder.
  apply Hbind; [apply calls_wrap, start_other_calls; exact (builder_apart he hk Hhome Hne Hk ws (r_Name ws) Hws Hws)|].
  intros st h9. apply (after_finally _ other); [|apply calls_bind; [apply stop_other|done]|intros; by apply other_pre|by intros a].
  apply (after_bind _ _ _ _ (λ restore _, calls other restore)).
  { unfold setDockerHost. apply (step_skip _ other other_pre (λ _, True)); [walk|done|done|]. intros orig h10 _.
    apply (step_skip _ other other_pre (λ _, True)); [walk|done|done|]. intros [] h11 _. destruct orig; by split. }
  intros restore t Hr. apply (after_finally _ other); [apply Hall, import_other|exact Hr|intros; by apply other_pre|by intros a].
Qed.
Lemma reload_other purge : calls other (reloadVM he encode_reload decode_done ws purge).
Proof. unfold reloadVM, reload_running, reloadSpec, reloadBroker. walk. Qed.

(** C3: no workspace VM starts unchecked. In every run of [up], when the
    supervisor of the workspace is started, the specification written last for its
    directory, which is the one the supervisor reads, was made from shares and
    persistent directories whose checks all passed, with the profile claimed and
    the sources of the secrets valid, with the network policy computed for this
    workspace; it enables Docker only for an image that has it; and for a workspace
    whose Git directories are protected it forbids privilege escalation and carries
    the pins and read-only paths computed for exactly those shares. *)
Theorem up_guarded env cfg h t1 argv x t2 :
  (exec env (runUpVM he darwin configDir marshal encode_ids decode_ids encode_reload decode_done cfg ws) h).2 = h ++ t1 ++ existT (StartProc argv) x :: t2 →
  argv !! 2%nat = Some dir → ∃ spec, last_written (h ++ t1) = Some spec ∧ specified spec (h ++ t1).
Proof using Hhome Hne Hk Hws.
  intros E. assert (after start_pre (runUpVM he darwin configDir marshal encode_ids decode_ids encode_reload decode_done cfg ws) h (λ _ _, True)) as Hs.
  { unfold runUpVM. apply (step_skip _ other other_pre (λ _, True)); [walk|done|done|]. intros [st|] h1 _.
    { apply (last_known _ other other_pre); [apply reload_other|apply reaches_true]. }
    apply (step_known _ other other_pre (λ _, True) (λ _ h', made h' (ValidateSecretSources ws) (Ok ()))); [walk|done|done|apply prepare_reaches|].
    intros [] h2 _ H2.
    apply (step_known _ other other_pre (λ h, made h (ValidateSecretSources ws) (Ok ())) prepared); [walk|apply made_lasting|exact H2|apply host_data_reaches|].
    intros [[shares internal] snaps] h3 H3 (P1 & P2 & P3 & P4 & P5). cbn [fst snd] in *.
    assert (checked shares internal h3) as Hc by (split_and!; [done..|by exists snaps]).
    pose proof (checked_lasting shares internal) as LC.
    apply (step_skip _ other other_pre (checked shares internal)); [walk|done|done|]. intros rt h4 H4.
    apply (after_bind _ _ _ _ (λ _ h', checked shares internal h')); [apply after_kept; [done|done|apply build_other]|]. intros ref t H5.
    apply (step_known _ other other_pre (λ _, True) (λ spec h', specified spec h')); [walk|done|done|by apply up_spec_reaches|].
    intros spec h6 _ H6. pose proof (specified_lasting spec) as LS.
    apply (step_skip _ other other_pre (specified spec)); [walk|done|done|]. intros p h7 H7. unfold start_workspace.
    apply (step_skip _ other other_pre (specified spec)); [walk|done|done|]. intros [] h8 H8.
    apply (after_bind _ _ _ _ (λ _ _, True)).
    { apply after_wrap, start_specified; [|done]. by destruct H8 as (? & ? & ? & _ & ? & _). }
    intros st t' _. apply (last_known _ other other_pre); [walk|apply reaches_true]. }
  destruct (exec_safe _ env _ _ _ Hs) as (t & E' & _ & Hpre). rewrite E' in E. apply app_inv_head in E. exact (Hpre t1 (StartProc argv) x t2 E).
Qed.
End Up.

(** ** Reload *)

Lemma any_calls {A} (p : hprog A) : calls (λ _, True) p.
Proof. induction p as [a|c k IH]; cbn; [done|]. split; [done|]. intros x. apply IH. Qed.
Lemma reaches_kept {A} (m : hio A) (Q : list hitem → Prop) h : lasting Q → Q h → reaches m h (λ _ h', Q h').
Proof. intros HQ Hh. by apply (after_calls _ (λ _, True) _ _ _ (any_calls m)). Qed.
Lemma reaches_finally {A} (m : hio A) last h (Q : A → list hitem → Prop) : (∀ a, lasting (Q a)) → reaches m h Q → reaches (finally m last) h Q.
Proof. intros HQ Hm. by apply (after_finally _ (λ _, True) _ _ _ _ Hm (any_calls last)). Qed.
(** A call answered after a time at which [F] held. *)
Definition later_made (F : list hitem → Prop) (h : list hitem) (c : hcall) (x : hanswer c) : Prop :=
  ∃ h1 h2, h = h1 ++ h2 ∧ F h1 ∧ made h2 c x.
Lemma later_lasting F c x : lasting (λ h, later_made F h c x).
Proof. intros h t (h1 & h2 & -> & HF & Hm). exists h1, (h2 ++ t). rewrite -assoc. split_and!; [done|done|by apply made_lasting]. Qed.

Section Reload.
Context (he : host_env) (encode_reload : GuestLive.Reload → string) (decode_done : string → option GuestLive.ReloadDone).

(** The broker was told of the files of the specification and then reported
    them read without an error. *)
Definition broker_told (spec : Spec) (pid : Z) (h : list hitem) : Prop :=
  made h (WritePolicy spec) (Ok ()) ∧ made h (WriteBrokerRuntime spec) (Ok ()) ∧ made h (KillProc pid SIGHUP) (Ok ()).
Definition broker_confirmed (spec : Spec) (pid : Z) (h : list hitem) : Prop :=
  ∃ before offset e, later_made (broker_told spec pid) h (ReloadEvent before offset (broker_log (sp_StateDir spec))) (Some e) ∧
    br_PolicyError e = "" ∧ br_RuntimeErrors e = [].
(** The guest answered the request made of this configuration without an error. *)
Definition guest_confirmed (dir : string) (g : GuestConfig) (h : list hitem) : Prop :=
  ∃ seq b d, later_made (λ h, made h (WriteControl dir GuestLive.ReloadFile (encode_reload (reload_request seq g))) (Ok ())) h
      (ReadControl dir GuestLive.ReloadDoneFile) (Ok b) ∧
    decode_done b = Some d ∧ GuestLive.rd_Seq d = seq ∧ GuestLive.rd_Error d = "".
Lemma broker_confirmed_lasting spec pid : lasting (broker_confirmed spec pid).
Proof.
  intros h t (b & o & e & H & E1 & E2). exists b, o, e. split_and!; [by apply later_lasting|done|done].
Qed.
Lemma guest_confirmed_lasting dir g : lasting (guest_confirmed dir g).
Proof. intros h t (s & b & d & H & E). exists s, b, d. split; [by apply later_lasting|done]. Qed.
Lemma made_last h c x : made (h ++ [existT c x]) c x.
Proof. apply elem_of_app. right. by left. Qed.
Lemma await_broker_reaches n before offset deadline log h :
  reaches (await_broker n before offset deadline log) h (λ _ h', ∃ e, (∃ t, h' = h ++ t ∧ made t (ReloadEvent before offset log) (Some e)) ∧
    br_PolicyError e = "" ∧ br_RuntimeErrors e = []).
Proof.
  assert (∀ t, reaches (await_broker n before offset deadline log) (h ++ t) (λ _ h', ∃ e,
    (∃ t, h' = h ++ t ∧ made t (ReloadEvent before offset log) (Some e)) ∧ br_PolicyError e = "" ∧ br_RuntimeErrors e = [])) as Hn.
  { induction n as [|n IH]; intros t; [done|]. cbn [await_broker]. cbn. split; [done|]. intros now. destruct (now <? deadline); [|done].
    cbn. split; [done|]. intros [e|]; cbn.
    - destruct (String.eqb_spec (br_PolicyError e) "") as [Ep|]; [|done]. cbn. destruct (br_RuntimeErrors e) as [|] eqn:Er; [|done]. cbn.
      exists e. split; [|done]. eexists. rewrite -!assoc. split; [reflexivity|]. apply elem_of_app. right. right. by left.
    - split; [done|]. intros []. rewrite -!assoc. apply IH. }
  specialize (Hn []). by rewrite app_nil_r in Hn.
Qed.
Lemma reloadBroker_reaches spec pid h : reaches (reloadBroker spec pid) h (λ _ h', broker_confirmed spec pid h').
Proof.
  unfold reloadBroker. apply (reach_skip (λ _, True)); [done|done|]. intros [] h1 _. apply (reach_skip (λ _, True)); [done|done|]. intros o h2 _.
  apply reaches_finally; [intros; apply broker_confirmed_lasting|].
  set (before := match o with Ok fd => Some fd | Err _ => None end).
  apply (reach_skip (λ _, True)); [done|done|]. intros offset h3 _.
  apply (reach_bind (λ _, True) _ (WritePolicy spec) (λ x, x)); [done|done|]. intros [] x h4 _ H4 ->.
  set (F := λ h, made h (WritePolicy spec) (Ok ())). assert (lasting F) as LF by apply made_lasting.
  apply (reach_bind F _ (WriteBrokerRuntime spec) (λ x, x)); [done|done|]. intros [] x h5 H5 H5' ->.
  set (F' := λ h, F h ∧ made h (WriteBrokerRuntime spec) (Ok ())). assert (lasting F') as LF' by (apply lasting_and; [done|apply made_lasting]).
  apply (reach_bind F' _ (KillProc pid SIGHUP) (λ x, x)); [done|by split|]. intros [] x h6 [H6 H6'] Hm ->.
  assert (broker_told spec pid h6) as Ht by (by split_and!).
  assert (lasting (broker_told spec pid)) as LT by (repeat (apply lasting_and; [apply made_lasting|]); apply made_lasting).
  apply (reach_skip (broker_told spec pid)); [done|done|]. intros now h7 H7.
  apply (after_mono _ _ _ _ _ (await_broker_reaches _ _ _ _ _ _)). intros [] t (e & (t' & E & Hm') & Ee).
  exists before, offset, e. split; [|done]. exists h7, t'. by split_and!.
Qed.
Lemma await_guest_reaches n dir seq deadline h :
  reaches (await_guest decode_done n dir seq deadline) h (λ _ h', ∃ b d, (∃ t, h' = h ++ t ∧ made t (ReadControl dir GuestLive.ReloadDoneFile) (Ok b)) ∧
    decode_done b = Some d ∧ GuestLive.rd_Seq d = seq ∧ GuestLive.rd_Error d = "").
Proof.
  assert (∀ t, reaches (await_guest decode_done n dir seq deadline) (h ++ t) (λ _ h', ∃ b d,
    (∃ t, h' = h ++ t ∧ made t (ReadControl dir GuestLive.ReloadDoneFile) (Ok b)) ∧
    decode_done b = Some d ∧ GuestLive.rd_Seq d = seq ∧ GuestLive.rd_Error d = "")) as Hn.
  { induction n as [|n IH]; intros t; [done|]. cbn [await_guest]. cbn -[confirms]. split; [done|]. intros now. destruct (now <? deadline); [|done].
    cbn -[confirms]. split; [done|]. intros r. destruct (confirms decode_done seq r) as [e|] eqn:Ec; cbn -[confirms].
    - destruct (String.eqb_spec e "") as [->|]; [|done]. cbn. unfold confirms in Ec. destruct r as [b|]; [|done].
      destruct (decode_done b) as [d|] eqn:Ed; [|done]. destruct (Z.eqb_spec (GuestLive.rd_Seq d) seq); [|done]. injection Ec as Ec.
      exists b, d. split; [|done]. eexists. rewrite -!assoc. split; [reflexivity|]. apply elem_of_app. right. right. by left.
    - split; [done|]. intros []. rewrite -!assoc. apply IH. }
  specialize (Hn []). by rewrite app_nil_r in Hn.
Qed.
Lemma reloadGuest_reaches dir g h : reaches (reloadGuest encode_reload decode_done dir g) h (λ _ h', guest_confirmed dir g h').
Proof.
  unfold reloadGuest. apply (reach_skip (λ _, True)); [done|done|]. intros seq h1 _.
  apply (reach_bind (λ _, True) _ (WriteControl dir GuestLive.ReloadFile (encode_reload (reload_request seq g))) (λ x, x)); [done|done|].
  intros [] x h2 _ H2 ->. set (F := λ h, made h (WriteControl dir GuestLive.ReloadFile (encode_reload (reload_request seq g))) (Ok ())).
  apply (reach_skip F); [apply made_lasting|exact H2|]. intros now h3 H3.
  apply (after_mono _ _ _ _ _ (await_guest_reaches _ _ _ _ _)). intros [] t (b & d & (t' & E & Hm) & Ed).
  exists seq, b, d. split; [|done]. by exists h3, t'.
Qed.
Context (ws : Resolved).
Local Notation dir := (vmStateDir he (r_Name ws)).
(** The broker and the guest of the running VM both confirmed the specification. *)
Definition confirmed (spec : Spec) (h : list hitem) : Prop :=
  ∃ st g, made h (ReadState dir) (Ok st) ∧ sp_Guest spec = Some g ∧ broker_confirmed spec (st_BrokerPID st) h ∧ guest_confirmed dir g h.
Lemma confirmed_lasting spec : lasting (confirmed spec).
Proof.
  intros h t (st & g & Hs & Hg & Hb & Hc). exists st, g.
  split_and!; [by apply made_lasting|done|by apply broker_confirmed_lasting|by apply guest_confirmed_lasting].
Qed.
Definition delivered (h : list hitem) : Prop :=
  ∃ sess p, made h (RunSecrets dir sess p) (Ok ()) ∧ made h (WriteFile (secretsMarker dir) "") (Ok ()).
Definition reload_pre (h : list hitem) (c : hcall) : Prop := match c with WriteSpec spec => confirmed spec h | _ => True end.
Definition no_spec (c : hcall) : Prop := match c with WriteSpec _ => False | _ => True end.
Lemma no_spec_pre h c : no_spec c → reload_pre h c.
Proof. by destruct c. Qed.
Lemma deliver_reaches p h : reaches (deliverSecrets dir p) h (λ _ h', delivered h').
Proof.
  assert (lasting delivered) as LD.
  { intros h0 t (s & q & H1 & H2). exists s, q. split; by apply made_lasting. }
  unfold deliverSecrets. apply (reach_skip (λ _, True)); [done|done|]. intros client h1 _. apply reaches_finally; [done|].
  apply (reach_skip (λ _, True)); [done|done|]. intros sess h2 _. apply reaches_finally; [done|].
  apply (reach_bind (λ _, True) _ (RunSecrets dir sess p) (λ x, x)); [done|done|]. intros [] x h3 _ H3 ->.
  apply (after_mono _ _ _ (λ _ h', made h' (RunSecrets dir sess p) (Ok ()) ∧ made h' (WriteFile (secretsMarker dir) "") (Ok ()))).
  - apply after_and; [by apply reaches_kept; [apply made_lasting|]|].
    apply (after_mono _ _ _ _ _ (reaches_wrap _ (WriteFile (secretsMarker dir) "") (λ x, x) h3)). intros [] t (x & Hx & ->). exact Hx.
  - intros [] t H. by exists sess, p.
Qed.
Lemma running_reaches h : reaches (runningVM dir) h (λ o h', ∀ st, o = Some st → made h' (ReadState dir) (Ok st)).
Proof.
  unfold runningVM. cbn. split; [done|]. intros [st|e]; [|by destruct e].
  assert (made (h ++ [existT (ReadState dir) (Ok st : hanswer (ReadState dir))]) (ReadState dir) (Ok st)) as Hm by apply made_last.
  destruct (st_Ready st); cbn; [|done]. apply safe_bind. apply safe_bind. unfold processAlive. destruct (st_PID st <=? 0); cbn.
  - by intros ? [= ->].
  - split; [done|]. intros r. destruct (_ || _); [|done]. intros ? [= <-]. by apply (made_lasting (ReadState dir) (Ok st)).
Qed.

Lemma await_broker_no_spec n before off d log : calls no_spec (await_broker n before off d log).
Proof. induction n as [|n IH]; cbn [await_broker]; [done|]. walk. Qed.
Lemma await_guest_no_spec n d seq dl : calls no_spec (await_guest decode_done n d seq dl).
Proof. induction n as [|n IH]; cbn [await_guest]; [done|]. walk. Qed.
Lemma read_secrets_no_spec n p l : calls no_spec (read_secrets n p l).
Proof. induction l as [|x l IH]; cbn [read_secrets]; [done|]. walk. Qed.
#[local] Hint Resolve await_broker_no_spec await_guest_no_spec read_secrets_no_spec : calls.

End Reload.

(** ** Down *)

(** The process is gone as far as the system says, or was killed. *)
Definition gone (pid : Z) (h : list hitem) : Prop :=
  pid <= 0 ∨ (∃ e, made h (KillProc pid 0) (Err e) ∧ e ≠ NotPermitted) ∨ ∃ r, made h (KillProc pid SIGKILL) r.
(** No supervisor runs in a directory: it never wrote a state, or the process of its state is gone. *)
Definition halted (d : string) (h : list hitem) : Prop :=
  (∃ e, made h (ReadState d) (Err e)) ∨ ∃ st, made h (ReadState d) (Ok st) ∧ gone (st_PID st) h.
Lemma gone_lasting pid : lasting (gone pid).
Proof.
  unfold gone. apply lasting_or; [apply lasting_const|]. apply lasting_or; apply lasting_ex; intros e.
  - apply lasting_and; [apply made_lasting|apply lasting_const].
  - apply made_lasting.
Qed.
Lemma halted_lasting d : lasting (halted d).
Proof.
  unfold halted. apply lasting_or; apply lasting_ex; intros e; [apply made_lasting|]. apply lasting_and; [apply made_lasting|apply gone_lasting].
Qed.
Lemma alive_reaches pid h : reaches (run (processAlive pid) : hio bool) h (λ b h', b = false → gone pid h').
Proof.
  unfold processAlive. destruct (Z.leb_spec pid 0); cbn; [by left|]. split; [done|]. intros r Hr. apply orb_false_iff in Hr as [Ho Hp].
  destruct r as [|e]; [done|]. right. left. exists e. split; [apply made_last|]. cbn in Hp. by apply bool_decide_eq_false in Hp.
Qed.
Lemma stop_reaches d h : reaches (stopSupervisor d) h (λ _ h', halted d h').
Proof.
  unfold stopSupervisor. apply (after_bind _ _ _ _ (λ r h', made h' (ReadState d) r)); [cbn; split; [done|]; intros; apply made_last|].
  intros [st|e] t Hr; [|left; by exists e].
  set (F := λ h, made h (ReadState d) (Ok st)). assert (lasting F) as LF by apply made_lasting.
  apply (after_step _ F _ _ _ _ _ LF Hr (alive_reaches (st_PID st) _)). intros alive h1 H1 Ha. destruct alive; cbn [negb].
  - apply (reach_skip F); [done|done|]. intros k h2 H2. apply (reach_skip F); [done|done|]. intros [] h3 H3.
    apply (reach_skip F); [done|done|]. intros now h4 H4. apply (reach_skip F); [done|done|]. intros [] h5 H5.
    apply (after_step _ F _ _ _ _ _ LF H5 (alive_reaches (st_PID st) _)). intros still h6 H6 Hs. destruct still.
    + cbn. split; [done|]. intros r. right. exists st. split; [by apply made_lasting|]. right. right. exists r. apply made_last.
    + apply after_ret. right. exists st. split; [done|by apply Hs].
  - apply after_ret. right. exists st. split; [done|by apply Ha].
Qed.

Section Down.
Context (he : host_env) (ws : Resolved).
Local Notation dir := (vmStateDir he (r_Name ws)).
Local Notation builder := (JoinPath [dir; "builder"]).
Definition down_pre (h : list hitem) (c : hcall) : Prop :=
  match c with
  | ReleaseProfile _ _ => halted dir h
  | RemoveTree d => d = dir ∧ halted dir h ∧ halted builder h
  | _ => True
  end.
Definition keeps_state (c : hcall) : Prop := match c with ReleaseProfile _ _ | RemoveTree _ => False | _ => True end.
Lemma keeps_pre h c : keeps_state c → down_pre h c.
Proof. by destruct c. Qed.
Lemma await_dead_keeps n pid d : calls keeps_state (await_dead n pid d).
Proof.
  induction n as [|n IH]; cbn [await_dead]; [done|]. apply calls_bind; [walk|]. intros [|]; [|done]. split; [done|]. intros now.
  destruct (_ <? _); [|done]. split; [done|]. intros _. apply IH.
Qed.
#[local] Hint Resolve await_dead_keeps : calls.

End Down.

(** *** Witnesses *)

Definition lab_up : list hitem := (exec lab_env (lab_perform [CUp lab_cfg lab_workspace]) []).2.
Definition starts_lab (i : hitem) : bool :=
  match projT1 i with StartProc argv => bool_decide (argv !! 2%nat = Some (vmStateDir lab_host "w")) | _ => false end.
Fixpoint until {A} (p : A → bool) (l : list A) : list A := match l with [] => [] | x :: l => if p x then [] else x :: until p l end.
Definition lab_before : list hitem := until starts_lab lab_up.
Lemma up_guarded_witness :
  ∃ spec, last_written lab_host lab_workspace ([] ++ lab_before) = Some spec ∧ specified lab_host lab_workspace spec ([] ++ lab_before).
Proof.
  apply (up_guarded lab_host false "/c" lab_marshal (λ _, "") (λ _, Some []) (λ _, "") lab_done ["h"] lab_home
    ltac:(discriminate) lab_home_names lab_workspace eq_refl
    lab_env lab_cfg [] lab_before (supervise_argv "/bin/jailoc" (vmStateDir lab_host "w")) (Ok lab_pid) (skipn (S (length lab_before)) lab_up)).
  - vm_compute. reflexivity.
  - vm_compute. reflexivity.
Defined.
Definition lab_reload : result ferr () * list hitem := exec lab_env (reloadVM lab_host (λ _, "") lab_done lab_workspace false) lab_up.
Definition lab_down : list hitem := (exec lab_env (downVM lab_host lab_workspace true) lab_up).2.
Definition lab_removal : hcall := RemoveTree (vmStateDir lab_host "w").
