(* ===== verification/Concur.v ===== *)
(** * Programs that run at the same time

    Several programs of [Prog] whose calls change one world, interleaved call by
    call: [serve i c w x w'] is how process [i] may be answered. [ok] is the rely and
    guarantee style: a program that keeps its guarantee and the invariant at each of
    its calls, whatever the others, who keep theirs, do in between. *)

From S2P Require Import Prelude Prog.

Section Concur.
Context {C : Type} {R : C → Type} {W : Type}.
Context (serve : nat → ∀ c : C, W → R c → W → Prop).

(** The processes and the world; a step answers one call of one process. *)
Definition conf (A : Type) : Type := gmap nat (prog C R A) * W.
Inductive cstep {A} : conf A → conf A → Prop :=
| cstep_call i (c : C) (k : R c → prog C R A) x (ps : gmap nat (prog C R A)) w w' :
    ps !! i = Some (Do c k) → serve i c w x w' → cstep (ps, w) (<[i := k x]> ps, w').

Context (Inv : W → Prop) (rely guar : nat → W → W → Prop) (pre : nat → W → C → Prop).
Context (rely_refl : ∀ i w, rely i w w) (rely_trans : ∀ i a b c, rely i a b → rely i b c → rely i a c).
Context (guar_rely : ∀ i j w w', i ≠ j → guar i w w' → rely j w w').

Section One.
Context (i : nat).
Fixpoint ok {A} (p : prog C R A) (w : W) (Q : A → W → Prop) : Prop :=
  match p with
  | Ret a => Q a w
  | Do c k => ∀ w', rely i w w' → Inv w' → pre i w' c ∧ ∀ x w'', serve i c w' x w'' → guar i w' w'' ∧ Inv w'' ∧ ok (k x) w'' Q
  end.
(** A fact the other processes keep. *)
Definition stable (P : W → Prop) : Prop := ∀ w w', rely i w w' → Inv w' → P w → P w'.
Lemma ok_stable {A} (p : prog C R A) w w' (Q : A → W → Prop) :
  (∀ a, stable (Q a)) → ok p w Q → rely i w w' → Inv w' → ok p w' Q.
Proof using rely_trans.
  intros HQ. destruct p as [a|c k]; cbn; [intros H Hr Hi; exact (HQ a w w' Hr Hi H)|]. intros H Hr Hi w1 Hr1 Hi1. apply H; [|done].
  by apply (rely_trans i w w').
Qed.
Lemma ok_bind {A B} (p : prog C R A) (f : A → prog C R B) w (Q : B → W → Prop) :
  ok p w (λ a w', ok (f a) w' Q) → ok (pbind f p) w Q.
Proof.
  revert w. induction p as [a|c k IH]; intros w H; cbn in *; [done|]. intros w' Hr Hi. destruct (H w' Hr Hi) as [Hp Hs].
  split; [done|]. intros x w'' Hw. destruct (Hs x w'' Hw) as (Hg & Hi' & Hk). split_and!; [done|done|by apply IH].
Qed.
Lemma ok_mono {A} (p : prog C R A) w (Q Q' : A → W → Prop) : ok p w Q → (∀ a w', Q a w' → Q' a w') → ok p w Q'.
Proof.
  revert w. induction p as [a|c k IH]; intros w H HQ; cbn in *; [by apply HQ|]. intros w' Hr Hi. destruct (H w' Hr Hi) as [Hp Hs].
  split; [done|]. intros x w'' Hw. destruct (Hs x w'' Hw) as (Hg & Hi' & Hk). split_and!; [done|done|by apply IH].
Qed.
(** One call in a state of which [P] is known. *)
Lemma ok_call {A} (P : W → Prop) c (k : R c → prog C R A) w (Q : A → W → Prop) :
  stable P → P w →
  (∀ w, P w → Inv w → pre i w c ∧ ∀ x w', serve i c w x w' → guar i w w' ∧ Inv w' ∧ ok (k x) w' Q) → ok (Do c k) w Q.
Proof. intros HP Hw H w' Hr Hi. apply H; [exact (HP w w' Hr Hi Hw)|done]. Qed.
(** Calls that change nothing the others or the invariant depend on. *)
Definition neutral (c : C) : Prop := ∀ w, Inv w → pre i w c ∧ ∀ x w', serve i c w x w' → w' = w.
Context (guar_refl : ∀ w, guar i w w).
Lemma ok_neutral {A} (P : W → Prop) (p : prog C R A) w (Q : A → W → Prop) :
  calls neutral p → stable P → P w → (∀ a w', P w' → Q a w') → ok p w Q.
Proof using guar_refl.
  intros Hp HP Hw HQ. revert w Hw. induction p as [a|c k IH]; intros w Hw; cbn in *; [by apply HQ|]. destruct Hp as [Hc Hk].
  intros w' Hr Hi. destruct (Hc w' Hi) as [Hpre Hs]. split; [done|]. intros x w'' Hw'. rewrite (Hs x w'' Hw').
  split_and!; [done|done|]. apply IH; [done|exact (HP w w' Hr Hi Hw)].
Qed.
End One.

(** What each process keeps on its own holds of every interleaving. *)
Definition each_ok {A} (Q : nat → A → W → Prop) (s : conf A) : Prop := Inv s.2 ∧ ∀ i p, s.1 !! i = Some p → ok i p s.2 (Q i).
Lemma step_keeps {A} (Q : nat → A → W → Prop) (s s' : conf A) :
  (∀ i a, stable i (Q i a)) → each_ok Q s → cstep s s' → each_ok Q s'.
Proof using rely_refl rely_trans guar_rely.
  intros HQ [Hi Hps] Hstep. destruct Hstep as [i c k x ps w w' Hp Hs]. cbn in *. destruct (Hps i _ Hp w (rely_refl i w) Hi) as [_ H].
  destruct (H x w' Hs) as (Hg & Hi' & Hk). split; [done|]. cbn. intros j p Hj. destruct (decide (i = j)) as [<-|Hne].
  - rewrite lookup_insert_eq in Hj. by injection Hj as <-.
  - rewrite lookup_insert_ne // in Hj. apply (ok_stable j p w w'); [apply HQ|by apply Hps|by apply (guar_rely i j)|done].
Qed.
Lemma run_ok {A} (Q : nat → A → W → Prop) (s s' : conf A) :
  (∀ i a, stable i (Q i a)) → each_ok Q s → rtc cstep s s' → each_ok Q s'.
Proof using rely_refl rely_trans guar_rely. intros HQ Hs Hr. induction Hr as [|s s1 s2 H1 _ IH]; [done|]. by apply IH, (step_keeps Q s s1). Qed.
(** Every call is made under its precondition. *)
Lemma next_pre {A} (Q : nat → A → W → Prop) (s : conf A) i c (k : R c → prog C R A) :
  each_ok Q s → s.1 !! i = Some (Do c k) → pre i s.2 c.
Proof using rely_refl. intros [Hi Hps] Hp. by destruct (Hps i _ Hp s.2 (rely_refl i s.2) Hi). Qed.
End Concur.

(** ** Runs of a schedule

    A world that answers by a function, for examples: a schedule names the
    process of each step. *)
Section Schedule.
Context {C : Type} {R : C → Type} {W : Type}.
Context (serve : nat → ∀ c : C, W → R c → W → Prop) (reply : nat → ∀ c : C, W → R c * W).
Definition tick {A} (s : conf (C:=C) (R:=R) (W:=W) A) (i : nat) : conf A :=
  match s.1 !! i with
  | Some (Do c k) => let xw := reply i c s.2 in (<[i := k xw.1]> s.1, xw.2)
  | _ => s
  end.
Lemma ticks_run {A} (l : list nat) (s : conf A) :
  (∀ i c w, serve i c w (reply i c w).1 (reply i c w).2) → rtc (cstep serve) s (foldl tick s l).
Proof.
  intros Hr. revert s. induction l as [|i l IH]; intros s; [apply rtc_refl|]. cbn [foldl]. transitivity (tick s i); [|apply IH].
  unfold tick. destruct s as [ps w]. cbn. destruct (ps !! i) as [[a|c k]|] eqn:E; [apply rtc_refl| |apply rtc_refl]. apply rtc_once. by apply cstep_call.
Qed.
End Schedule.
