(* ===== verification/ImageLocks.v ===== *)
(** * Docker images and their lock, with several commands at once

    Any number of [importWorkspaceImage] runs of [vmflow_unix.go] at the same time
    on one host: the Docker images, the files that record which of them a workspace
    uses, and the lock of [lockDockerImages] as the world of [Concur]. *)

From S2P Require Import Prelude GoStrings GoPath Resolve Vm VmHost VmReload Prog HostCalls VmProc VmFlow VmLab Concur.
From S2P Require GuestMounts.
Open Scope string_scope.
Open Scope list_scope.

(** The IDs of the images the daemon has, the recording files by path, and the
    lock as each process holds it. *)
Record world := { imgs : gset string; files : gmap string string; locks : gmap nat lock_op }.
Definition set_lock (i : nat) (l : lock_op) (w : world) : world := {| imgs := imgs w; files := files w; locks := <[i := l]> (locks w) |}.
Definition drop_lock (i : nat) (w : world) : world := {| imgs := imgs w; files := files w; locks := delete i (locks w) |}.
Definition set_file (p d : string) (w : world) : world := {| imgs := imgs w; files := <[p := d]> (files w); locks := locks w |}.
Definition set_imgs (s : gset string) (w : world) : world := {| imgs := s; files := files w; locks := locks w |}.

Section Images.
Context (he : host_env) (encode_ids : list string → string) (decode_ids : string → option (list string)).
Context (decode_encode : ∀ ids, decode_ids (encode_ids ids) = Some ids).
Definition record_pattern : string := JoinPath [vmRootDir he; "workspaces"; "*"; dockerImagesFile].

(** How a process is answered. Building and pulling add images; a failed write
    leaves what cannot be parsed or the old file; converting the lock can lose
    it when it fails; [DockerPrune] removes any images but those it must keep. *)
Definition serve (i : nat) (c : hcall) (w : world) : hanswer c → world → Prop :=
  match c as c return hanswer c → world → Prop with
  | Flock _ LockShared => λ x w', match x with
      | Ok _ => (∀ j, j ≠ i → locks w !! j ≠ Some LockExclusive) ∧ w' = set_lock i LockShared w | Err _ => w' = w end
  | Flock _ LockExclusiveNow => λ x w', match x with
      | Ok _ => (∀ j, j ≠ i → locks w !! j = None) ∧ w' = set_lock i LockExclusive w | Err _ => w' = w ∨ w' = drop_lock i w end
  | CloseFile _ => λ _ w', w' = drop_lock i w
  | ResolveAndLayerImage _ | EnsureImage _ => λ _ w', ∃ s, imgs w ⊆ s ∧ w' = set_imgs s w
  | ImageID _ => λ x w', w' = w ∧ ∀ id, x = Ok id → id ∈ imgs w
  | WriteFile p d => λ x w', match x with
      | Ok _ => w' = set_file p d w | Err _ => w' = w ∨ ∃ d', decode_ids d' = None ∧ w' = set_file p d' w end
  | ReadFile p => λ x w', w' = w ∧ ∀ d, x = Ok d → files w !! p = Some d
  | Glob pattern => λ x w', w' = w ∧ (pattern = record_pattern → ∀ p, is_Some (files w !! p) → p ∈ x)
  | DockerPrune keep => λ _ w', ∃ rm : gset string, rm ## keep ∧ w' = set_imgs (imgs w ∖ rm) w
  | _ => λ _ w', w' = w
  end.

(** Every recorded image exists, and an exclusive lock is the only one. *)
Definition recorded_kept (w : world) : Prop :=
  ∀ p d ids id, files w !! p = Some d → decode_ids d = Some ids → id ∈ ids → id ∈ imgs w.
Definition exclusive (w : world) : Prop := ∀ i j, locks w !! i = Some LockExclusive → is_Some (locks w !! j) → i = j.
Definition Inv (w : world) : Prop := recorded_kept w ∧ exclusive w.
(** What the others leave to a process: its lock, the images while it holds the
    lock, and the files while it holds it exclusively. *)
Definition rely (i : nat) (w w' : world) : Prop :=
  locks w' !! i = locks w !! i ∧ (is_Some (locks w !! i) → imgs w ⊆ imgs w') ∧ (locks w !! i = Some LockExclusive → files w' = files w).
Definition guar (i : nat) (w w' : world) : Prop := ∀ j, i ≠ j → rely j w w'.
(** The image that is exported exists. *)
Definition pre (_ : nat) (w : world) (c : hcall) : Prop :=
  match c with ImportImage _ ref _ => ∃ id, ref = RootFSRef id ∧ id ∈ imgs w | _ => True end.

Lemma rely_refl i w : rely i w w.
Proof. by split_and!. Qed.
Lemma rely_trans i a b c : rely i a b → rely i b c → rely i a c.
Proof.
  intros (L1 & I1 & F1) (L2 & I2 & F2). rewrite L1 in L2, I2, F2. split_and!; [done| |].
  - intros H. etrans; [by apply I1|by apply I2].
  - intros H. rewrite F2 //. by apply F1.
Qed.
Lemma guar_refl i w : guar i w w.
Proof. intros j _. apply rely_refl. Qed.
Lemma guar_rely i j w w' : i ≠ j → guar i w w' → rely j w w'.
Proof. intros H Hg. by apply Hg. Qed.
Lemma guar_lock i w f : guar i w {| imgs := imgs w; files := files w; locks := partial_alter f i (locks w) |}.
Proof. intros j Hj. split_and!; cbn; [by rewrite lookup_partial_alter_ne|done|done]. Qed.
Lemma guar_grow i w s : imgs w ⊆ s → guar i w (set_imgs s w).
Proof. intros Hs j Hj. by split_and!. Qed.

(** *** One process *)

Section Process.
Context (i : nat).
Local Notation okp := (ok serve Inv rely guar pre i).
Local Notation keeps := (neutral serve Inv pre i).
Local Notation stays := (stable Inv rely i).
Definition holds (l : lock_op) (w : world) : Prop := locks w !! i = Some l.
Definition present (l : lock_op) (ids : list string) (w : world) : Prop := holds l w ∧ ∀ id, id ∈ ids → id ∈ imgs w.
Lemma present_stays l ids : stays (present l ids).
Proof.
  intros w w' (L & I & _) _ [Hl Hi]. unfold present, holds. rewrite L. split; [done|]. intros id Hid. apply I; [by rewrite Hl|by apply Hi].
Qed.
Lemma true_stays : stays (λ _, True).
Proof. done. Qed.
(** Calls that leave the world as it is. *)
Definition harmless (c : hcall) : Prop :=
  match c with Flock _ LockExclusive | MkdirAll _ _ | OpenFile _ | ReadFile _ | Glob _ | ImageID _ | ReadSpec _ | CachePrune _ _ => True | _ => False end.
Lemma harmless_keeps c : harmless c → keeps c.
Proof. intros H w _. destruct c; try done; cbn; (split; [done|]). all: try (by intros x w' ->); try (by intros x w' [-> _]). by destruct how. Qed.
(** The lock is given back whatever the result. *)
Lemma close_ok fd w (Q : () → world → Prop) : (∀ w', Q () w') → okp (call (CloseFile fd)) w Q.
Proof.
  intros HQ w' _ [Hr He]. split; [done|]. intros [] w'' ->. split; [apply guar_lock|]. split; [|apply HQ]. split; [exact Hr|].
  intros j k Hj Hk. cbn in *. apply lookup_delete_Some in Hj as [_ Hj]. destruct Hk as [l Hk]. apply lookup_delete_Some in Hk as [_ Hk].
  by apply (He j k); [|exists l].
Qed.
Definition okio {A} (m : hio A) (w : world) (Q : A → world → Prop) : Prop :=
  okp m w (λ r w', match r with Ok a => Q a w' | Err _ => True end).
Lemma okio_bind {A B} (m : hio A) (f : A → hio B) w (Q : B → world → Prop) : okio m w (λ a w', okio (f a) w' Q) → okio (m ≫= f) w Q.
Proof. intros H. apply ok_bind. apply (ok_mono _ _ _ _ _ _ _ _ _ _ H). by intros [a|e] w'. Qed.
Lemma okio_quiet {A B} (P : world → Prop) (m : hio A) (f : A → hio B) w (Q : B → world → Prop) :
  calls harmless m → stays P → P w → (∀ a w', P w' → okio (f a) w' Q) → okio (m ≫= f) w Q.
Proof.
  intros Hm HP Hw Hf. apply okio_bind. apply (ok_neutral serve Inv rely guar pre i (guar_refl i) P); [|done|done|].
  - by apply (calls_mono harmless); [apply harmless_keeps|].
  - intros [a|e] w' Hw'; [by apply Hf|done].
Qed.
(** The call of a step, in a state of which [P] is known. *)
Lemma okio_call {A B} (P : world → Prop) g c (k : hanswer c → result herrno A) (f : A → hio B) w (Q : B → world → Prop) :
  stays P → P w →
  (∀ w, P w → Inv w → pre i w c ∧ ∀ x w', serve i c w x w' → guar i w w' ∧ Inv w' ∧ ∀ a, k x = Ok a → okio (f a) w' Q) →
  okio (wrap g (Do c (λ x, Ret (k x))) ≫= f) w Q.
Proof.
  intros HP Hw H w' Hr Hi. destruct (H w' (HP w w' Hr Hi Hw) Hi) as [Hp Hs]. split; [done|]. intros x w'' Hx. destruct (Hs x w'' Hx) as (Hg & Hi' & Hk).
  split_and!; [done|done|]. destruct (k x) as [a|e] eqn:E; [by apply Hk|done].
Qed.
Lemma okio_finally {A} (m : hio A) fd w Q : okio m w Q → okp (finally m (call (CloseFile fd))) w (λ _ _, True).
Proof.
  intros Hm. apply ok_bind. apply (ok_mono _ _ _ _ _ _ _ _ _ _ Hm). intros r w' _. apply ok_bind. by apply close_ok.
Qed.
(** *** The flow *)

Lemma Inv_lock l w : Inv w → (∀ j, j ≠ i → if bool_decide (l = LockExclusive) then locks w !! j = None else locks w !! j ≠ Some LockExclusive) → Inv (set_lock i l w).
Proof.
  intros [Hr He] Hl. split; [exact Hr|]. intros j k Hj [m Hm]. cbn in *. destruct (decide (i = j)) as [<-|Hij], (decide (i = k)) as [<-|Hik]; [done| | |].
  - rewrite lookup_insert_eq in Hj. injection Hj as ->. rewrite lookup_insert_ne // in Hm. specialize (Hl k (not_eq_sym Hik)).
    rewrite bool_decide_true // in Hl. congruence.
  - rewrite lookup_insert_ne // in Hj. specialize (Hl j (not_eq_sym Hij)). destruct (bool_decide _); congruence.
  - rewrite lookup_insert_ne // in Hj. rewrite lookup_insert_ne // in Hm. apply (He j k); [done|by exists m].
Qed.
Lemma lock_okio w : okio (lockDockerImages he) w (λ _ w', holds LockShared w').
Proof.
  unfold lockDockerImages. apply (okio_quiet (λ _, True)); [walk|done|done|]. intros [] w1 _.
  apply (okio_quiet (λ _, True)); [walk|done|done|]. intros fd w2 _. apply okio_bind.
  intros w3 Hr Hi. split; [done|]. intros [[]|e] w4; cbn [serve].
  - intros [Hj ->]. split; [apply guar_lock|]. split; [apply Inv_lock; [done|]; intros j Hne; by apply Hj|]. cbn. apply lookup_insert_eq.
  - intros ->. split; [apply guar_refl|]. split; [done|]. cbn -[okio]. intros w5 _ Hi5. split; [done|]. intros [] w6 ->.
    split; [apply guar_lock|]. split; [|done]. split; [apply Hi5|]. intros j k Hj Hk'. cbn in *. apply lookup_delete_Some in Hj as [_ Hj].
    destruct Hk' as [l Hl]. apply lookup_delete_Some in Hl as [_ Hl]. by apply (proj2 Hi5 j k); [|exists l].
Qed.
Lemma ids_okio l chain ids w : present l ids w →
  okio (image_ids chain) w (λ new w', present l (ids ++ new) w').
Proof.
  revert ids w. induction chain as [|ref chain IH]; intros ids w Hp; cbn [image_ids]; [cbn; by rewrite app_nil_r|].
  apply (okio_call (present l ids) _ (ImageID ref) (λ x, x)); [apply present_stays|done|]. intros w1 [Hl Hi] Hinv. split; [done|].
  intros x w' [-> Hx]. split; [apply guar_refl|]. split; [done|]. intros id ->.
  assert (present l (ids ++ [id]) w1) as H1.
  { split; [done|]. intros id' [H|H]%elem_of_app; [by apply Hi|]. apply list_elem_of_singleton in H as ->. by apply Hx. }
  apply okio_bind. apply (ok_mono _ _ _ _ _ _ _ _ _ _ (IH _ _ H1)). intros [new|e] w2; [|done]. cbn. by rewrite -assoc.
Qed.
(** What has been read under the exclusive lock is in [keep]. *)
Definition collected (seen : list string) (keep : gset string) (todo : list string) (w : world) : Prop :=
  holds LockExclusive w ∧ (∀ p, is_Some (files w !! p) → p ∈ seen ∨ p ∈ todo) ∧
  ∀ p d ids id, p ∈ seen → files w !! p = Some d → decode_ids d = Some ids → id ∈ ids → id ∈ keep.
Lemma collected_stays seen keep todo : stays (collected seen keep todo).
Proof. intros w w' (L & _ & F) _ (Hl & Ht & Hk). unfold collected, holds. rewrite L F //. Qed.
Lemma recorded_okio todo seen keep w : collected seen keep todo w →
  okio (recorded_images decode_ids todo keep) w (λ keep' w', ∃ seen', collected seen' keep' [] w').
Proof.
  revert seen keep w. induction todo as [|path todo IH]; intros seen keep w Hc; cbn [recorded_images]; [by exists seen|].
  apply (okio_call (collected seen keep (path :: todo)) _ (ReadFile path) (λ x, x)); [apply collected_stays|done|].
  intros w1 (Hl & Ht & Hk) Hi1. split; [done|]. intros x w' [-> Hx]. split; [apply guar_refl|]. split; [done|]. intros d ->.
  specialize (Hx d eq_refl). destruct (decode_ids d) as [ids|] eqn:Ed; [|done]. apply (IH (path :: seen)). split_and!; [done| |].
  - intros p Hp. destruct (Ht p Hp) as [H|H]; [left; by right|]. apply elem_of_cons in H as [->|H]; [left; by left|by right].
  - intros p d' ids' id Hp Hf Hd Hin. apply elem_of_union. apply elem_of_cons in Hp as [->|Hp].
    + right. apply elem_of_list_to_set. by replace ids with ids' by congruence.
    + left. by apply (Hk p d' ids').
Qed.
Lemma record_ok w p ids w' x :
  present LockShared ids w → Inv w → serve i (WriteFile p (encode_ids ids)) w x w' →
  guar i w w' ∧ Inv w' ∧ (x = Ok () → holds LockShared w').
Proof using decode_encode.
  intros [Hl Hp] [Hr He] Hs.
  assert (∀ j d, i ≠ j → rely j w (set_file p d w)) as Hrel.
  { intros j d Hj. split_and!; [done|done|]. intros Hx. destruct Hj. symmetry. apply (He j i Hx). by exists LockShared. }
  assert (∀ d, (∀ ids', decode_ids d = Some ids' → ids' = ids) → Inv (set_file p d w)) as Hinv.
  { intros d Hd. split; [|exact He]. intros q d' ids' id Hq Hd' Hin. cbn in *. destruct (decide (p = q)) as [<-|Hne].
    - rewrite lookup_insert_eq in Hq. injection Hq as <-. apply Hp. by rewrite -(Hd ids' Hd').
    - rewrite lookup_insert_ne // in Hq. by apply (Hr q d' ids'). }
  destruct x as [[]|e]; cbn in Hs.
  - subst w'. split; [by intros j; apply Hrel|]. split; [|done]. apply Hinv. intros ids' E. rewrite decode_encode in E. by injection E.
  - destruct Hs as [-> | (d & Hd & ->)]; [split; [apply guar_refl|by split]|]. split; [by intros j; apply Hrel|]. split; [|done]. apply Hinv. by rewrite Hd.
Qed.
Lemma prune_ok lock name chain w : present LockShared [] w → okp (pruneDockerImages he encode_ids decode_ids lock name chain) w (λ _ _, True).
Proof using decode_encode.
  intros H0. apply ok_bind. enough (okio (prune_docker he encode_ids decode_ids lock name chain) w (λ _ _, True)) as H
    by (apply (ok_mono _ _ _ _ _ _ _ _ _ _ H); done).
  unfold prune_docker. apply okio_bind. apply (ok_mono _ _ _ _ _ _ _ _ _ _ (ids_okio _ chain _ _ H0)). intros [ids|e] w1; [|done]. cbn [app]. intros H1.
  apply (okio_quiet (present LockShared ids)); [walk|apply present_stays|done|]. intros [] w2 H2.
  apply (okio_call (present LockShared ids) _ (WriteFile _ _) (λ x, x)); [apply present_stays|done|]. intros w3 H3 Hi. split; [done|].
  intros x w4 Hs. destruct (record_ok _ _ _ _ _ H3 Hi Hs) as (Hg & Hi' & Hl). split_and!; [done|done|]. intros [] ->. specialize (Hl eq_refl).
  apply okio_bind. intros w5 (L5 & _) Hi5. split; [done|]. intros locked w6 Hs6. cbn [serve] in Hs6. destruct locked as [[]|e].
  - destruct Hs6 as [Hj ->]. split; [apply guar_lock|]. assert (Inv (set_lock i LockExclusive w5)) as Hx by (apply Inv_lock; [done|]; intros j; apply Hj).
    split; [done|]. cbn [ok isOk negb]. apply okio_bind.
    intros w7 (L7 & _ & F7) Hi7. split; [done|]. intros fs w8 [-> Hfs]. split; [apply guar_refl|]. split; [done|]. cbn [ok].
    assert (collected [] ∅ fs w7) as Hc.
    { split_and!; [unfold holds; rewrite L7; apply lookup_insert_eq|intros p Hp; right; by apply Hfs|by intros p d ids' id Hp%elem_of_nil]. }
    apply okio_bind. apply (ok_mono _ _ _ _ _ _ _ _ _ _ (recorded_okio _ _ _ _ Hc)). intros [keep|e] w9; [|done]. intros [seen H9].
    apply okio_bind. intros w10 Hr10 Hi10. split; [done|]. intros out w11 (rm & Hrm & ->).
    destruct (collected_stays _ _ _ _ _ Hr10 Hi10 H9) as (Hl10 & Ht & Hk). split; [|split; [|done]].
    + intros j Hij. split_and!; cbn; [done| |done]. intros Hl'. destruct Hij. by apply (proj2 Hi10 i j).
    + split; [|apply Hi10]. intros p d ids' id Hp Hd Hin. cbn in *. apply elem_of_difference. split; [by apply (proj1 Hi10 p d ids')|].
      destruct (Ht p ltac:(by exists d)) as [Hs'|Hs']; [|by apply elem_of_nil in Hs']. specialize (Hk p d ids' id Hs' Hp Hd Hin). set_solver.
  - destruct Hs6 as [-> | ->]; [split; [apply guar_refl|by split]|]. split; [apply guar_lock|]. split; [|done]. split; [apply Hi5|].
    intros j k Hj Hk'. cbn in *. apply lookup_delete_Some in Hj as [_ Hj]. destruct Hk' as [l Hl']. apply lookup_delete_Some in Hl' as [_ Hl'].
    by apply (proj2 Hi5 j k); [|exists l].
Qed.
Lemma locked_grow s w : Inv w → imgs w ⊆ s → Inv (set_imgs s w).
Proof. intros [Hr He] Hs. split; [|exact He]. intros p d ids id Hp Hd Hin. cbn in *. apply Hs. by apply (Hr p d ids). Qed.
Lemma cached_harmless specs keep : calls harmless (cached_images specs keep).
Proof. revert keep. induction specs as [|x l IH]; intros keep; cbn [cached_images]; [done|]. walk. Qed.
#[local] Hint Resolve cached_harmless : calls.
Lemma locked_okio lock ws w : present LockShared [] w → okio (import_locked he encode_ids decode_ids lock ws) w (λ _ _, True).
Proof using decode_encode.
  intros H0. unfold import_locked. pose proof (present_stays LockShared) as Hst.
  apply (okio_call (present LockShared []) _ (ResolveAndLayerImage ws) (λ x, x)); [done|done|]. intros w1 [H1 _] Hi1. split; [done|].
  intros x w2 (s & Hs & ->). split; [by apply guar_grow|]. split; [by apply locked_grow|]. intros [image chain] _. cbn [fst snd].
  apply (okio_call (present LockShared []) _ (EnsureImage image) (λ x, x)); [done|by split; [|intros ? ?%elem_of_nil]|]. intros w3 [H3 _] Hi3. split; [done|].
  intros y w4 (s' & Hs' & ->). split; [by apply guar_grow|]. split; [by apply locked_grow|]. intros [] _.
  apply (okio_call (present LockShared []) _ (ImageID image) (λ x, x)); [done|by split; [|intros ? ?%elem_of_nil]|]. intros w5 [H5 _] Hi5. split; [done|].
  intros z w6 [-> Hz]. split; [apply guar_refl|]. split; [done|]. intros id ->. specialize (Hz id eq_refl).
  apply (okio_call (present LockShared [id]) _ (ImportImage _ _ _) (λ x, x)); [done|split; [done|]; intros id' Hid'; apply list_elem_of_singleton in Hid' as ->; exact Hz|].
  intros w7 [H7 Hid] Hi7. split; [exists id; split; [done|]; apply Hid; by left|]. intros u w8 H8. assert (w8 = w7) as -> by exact H8. split; [apply guar_refl|]. split; [done|]. intros [] _.
  apply (okio_quiet (present LockShared [])); [walk|done|by split; [|intros ? ?%elem_of_nil]|]. intros [] w9 H9.
  apply okio_bind. apply (ok_mono _ _ _ _ _ _ _ _ _ _ (prune_ok lock (r_Name ws) chain w9 H9)). by intros [[]|e] w10.
Qed.
Lemma import_ok ws w : okp (importWorkspaceImage he encode_ids decode_ids ws) w (λ _ _, True).
Proof using decode_encode.
  apply ok_bind. apply (ok_mono _ _ _ _ _ _ _ _ _ _ (lock_okio w)). intros [lock|e] w1; [|done]. intros Hl.
  apply (okio_finally _ _ _ (λ _ _, True)), locked_okio. by split; [|intros ? ?%elem_of_nil].
Qed.
End Process.

(** C8: no image is lost. Any number of commands build and import workspace
    images on one host at the same time, their calls interleaved in any way and
    answered in any way the daemon, the files and the lock can answer: at every
    moment every image that a workspace has recorded still exists, and whenever
    one of them exports an image, that image exists. *)
Theorem images_kept (wss : gmap nat Resolved) w0 s' :
  recorded_kept w0 → exclusive w0 → rtc (cstep serve) (importWorkspaceImage he encode_ids decode_ids <$> wss, w0) s' →
  recorded_kept s'.2 ∧
  ∀ i cache ref image k, s'.1 !! i = Some (Do (ImportImage cache ref image) k) → ∃ id, ref = RootFSRef id ∧ id ∈ imgs s'.2.
Proof using decode_encode.
  intros Hr He Hrun.
  assert (each_ok serve Inv rely guar pre (λ _ (_ : result ferr string) _, True) s') as H.
  { apply (run_ok serve Inv rely guar pre rely_refl rely_trans guar_rely _ (importWorkspaceImage he encode_ids decode_ids <$> wss, w0)); [done| |exact Hrun].
    split; [by split|]. intros i p Hp. cbn in Hp. apply lookup_fmap_Some in Hp as (ws & <- & _). apply import_ok. }
  split; [apply H|]. intros i cache ref image k Hk.
  exact (next_pre serve Inv rely guar pre rely_refl _ s' i (ImportImage cache ref image) k H Hk).
Qed.
End Images.

(** *** Two commands at once *)

(** A code of lists of strings in place of JSON. *)
Fixpoint code_string (s rest : string) : string :=
  match s with EmptyString => String "0" rest | String c s => String "1" (String c (code_string s rest)) end.
Definition lab_encode (ids : list string) : string := foldr code_string "" ids.
Fixpoint lab_decode (s : string) : option (list string) :=
  match s with
  | EmptyString => Some []
  | String b r =>
      if Ascii.eqb b "0" then cons "" <$> lab_decode r
      else match r with
           | String c r => match lab_decode r with Some (x :: l) => Some (String c x :: l) | _ => None end
           | EmptyString => None
           end
  end.
Lemma lab_codec ids : lab_decode (lab_encode ids) = Some ids.
Proof.
  induction ids as [|s ids IH]; [done|]. cbn [lab_encode foldr]. change (foldr code_string "" ids) with (lab_encode ids).
  induction s as [|c s IHs]; cbn; [by rewrite IH|]. by rewrite IHs.
Qed.
Definition image_of (ref : string) : string := "sha256:" +:+ ref.
Definition others_free (i : nat) (w : world) : bool := bool_decide (delete i (locks w) = ∅).
Definition others_shared (i : nat) (w : world) : bool := bool_decide (map_Forall (λ j l, j ≠ i → l ≠ LockExclusive) (locks w)).
Definition lab_reply (i : nat) (c : hcall) (w : world) : hanswer c * world :=
  match c as c return hanswer c * world with
  | Flock _ LockShared => if others_shared i w then (Ok (), set_lock i LockShared w) else (Err NotPermitted, w)
  | Flock _ LockExclusiveNow => if others_free i w then (Ok (), set_lock i LockExclusive w) else (Err NotPermitted, w)
  | CloseFile _ => ((), drop_lock i w)
  | ResolveAndLayerImage ws => (Ok (r_Name ws, ["base"; r_Name ws]), set_imgs ({[image_of "base"; image_of (r_Name ws)]} ∪ imgs w) w)
  | EnsureImage _ => (Ok (), set_imgs (imgs w) w)
  | ImageID ref => (if bool_decide (image_of ref ∈ imgs w) then Ok (image_of ref) else Err NotExist, w)
  | WriteFile p d => (Ok (), set_file p d w)
  | ReadFile p => (match files w !! p with Some d => Ok d | None => Err NotExist end, w)
  | Glob _ => (map fst (map_to_list (files w)), w)
  | DockerPrune keep => ((0%Z, None), set_imgs (imgs w ∖ (imgs w ∖ keep)) w)
  | c => (lab_env c [], w)
  end.
Lemma lab_replies he i c w : serve he lab_decode i c w (lab_reply i c w).1 (lab_reply i c w).2.
Proof.
  destruct c; try done; cbn.
  - destruct how; [| done|].
    + unfold others_shared. case_bool_decide as H; cbn; [|done]. split; [|done]. intros j Hj Hl. by apply (H j LockExclusive Hl Hj).
    + unfold others_free. case_bool_decide as H; cbn; [|by left]. split; [|done]. intros j Hj. assert (i ≠ j) as Hij by congruence. by rewrite -(lookup_delete_ne (locks w) i j Hij) H lookup_empty.
  - split; [done|]. intros d. destruct (files w !! p); by intros [= ->].
  - split; [done|]. intros _ p [d Hd]. apply list_elem_of_fmap. exists (p, d). split; [done|]. by apply elem_of_map_to_list.
  - eexists. split; [|reflexivity]. set_solver.
  - eexists. split; [|reflexivity]. done.
  - split; [done|]. intros id. case_bool_decide; [by intros [= <-]|done].
  - exists (imgs w ∖ keep). split; [set_solver|done].
Qed.
Definition lab_second : Resolved := {|
  r_Name := "v"; r_Paths := []; r_Agent := lab_harness; r_AgentInstall := true; r_AgentArgs := None; r_AgentProfile := None;
  r_Mounts := []; r_Snapshots := []; r_Port := 4097; r_AllowedHosts := []; r_AllowedNetworks := []; r_BuildContext := "";
  r_Dockerfile := ""; r_Image := ""; r_Env := []; r_SSHAuthSock := false; r_GPGAgent := false; r_GitConfig := false; r_Secrets := [];
  r_CPU := r_CPU lab_workspace; r_Memory := "4g"; r_DockerDisk := "20g"; r_EnableDocker := false; r_IsolatedBuild := false;
  r_ProtectGit := false; r_Ports := []; r_HostPorts := []; r_FilteredDNS := false; r_DNSUpstream := ""; r_DNSBlockedZones := None;
  r_CABundle := r_CABundle lab_workspace |}.
Definition lab_both : gmap nat Resolved := {[0%nat := lab_workspace; 1%nat := lab_second]}.
Definition lab_world : world := {| imgs := {["sha256:old"]}; files := ∅; locks := ∅ |}.
(** The first process is exporting its image while the second one has built,
    recorded and, finding the lock taken, not pruned; then the first one ends. *)
Definition lab_schedule : list nat := concat (repeat [0; 1]%nat 6) ++ repeat 1%nat 20 ++ repeat 0%nat 40.
Definition lab_final : conf (result ferr string) :=
  foldl (tick lab_reply) (importWorkspaceImage lab_host lab_encode lab_decode <$> lab_both, lab_world) lab_schedule.
Lemma images_kept_witness :
  bool_decide (imgs lab_final.2 = {["sha256:base"; "sha256:w"; "sha256:v"]}) = true ∧ recorded_kept lab_decode lab_final.2 ∧
  ∀ i cache ref image k, lab_final.1 !! i = Some (Do (ImportImage cache ref image) k) → ∃ id, ref = RootFSRef id ∧ id ∈ imgs lab_final.2.
Proof.
  split; [vm_compute; reflexivity|].
  apply (images_kept lab_host lab_encode lab_decode lab_codec lab_both lab_world lab_final).
  - intros p d ids id H. by rewrite lookup_empty in H.
  - intros i j H. by rewrite lookup_empty in H.
  - apply ticks_run. apply lab_replies.
Defined.
