(* ===== verification/Migrate.v ===== *)
(** * Migration of a configuration to the VM backend

    [src/internal/cmd/migrate_unix.go]: the questions on standard input, the plan
    that rewrites the decoded configuration, and the run that copies the Docker
    volumes, keeps a backup and replaces the file. What is printed is left out. *)

From S2P Require Import Prelude GoStrings GoPath Agent ConfigPaths ConfigPorts ConfigChecks Config StateErr.
Open Scope string_scope.
Open Scope list_scope.

(** ** Questions *)

(** Standard input: the lines that end in a newline and what follows the last
    one, after which a read fails. *)
Record input := { in_lines : list string; in_rest : string }.
Inductive merr :=
| NoAnswer | KeepsSettings (label : string) | BadMount (label : string) (e : cerr) | BadPath (label host : string) (e : cerr).
(** What a plan reports. *)
Inductive change :=
| SetBackend | RemovedBackend (ws backend : string) | RemovedSetting (label setting : string)
| ToSnapshot (label spec snapshot : string) | DroppedMount (label spec : string).
Record plan := { p_in : input; p_changes : list change }.
Definition read_on (i : input) (p : plan) : plan := {| p_in := i; p_changes := p_changes p |}.
Definition add_change (c : change) (p : plan) : plan := {| p_in := p_in p; p_changes := p_changes p ++ [c] |}.

Section Migrate.
Context (home : option string) (ParseVolume : string → option (string * string)) (lowerU : string → string).
(** [--yes], and [stat]: whether a path is there and no directory. *)
Context (yes : bool) (is_file : string → bool).
Local Notation mop := (op plan merr).

Definition picks (answer o : string) : bool := String.eqb answer o || String.eqb answer (stake 1 o).
Definition picked (options : list string) (answer : string) : option nat := fst <$> list_find (λ o, picks answer o = true) options.
Fixpoint choose_from (options : list string) (def : nat) (ls : list string) (rest : string) : result merr nat * input :=
  match ls with
  | [] =>
      let answer := ToLower lowerU (TrimSpace rest) in
      let over := {| in_lines := []; in_rest := "" |} in
      if String.eqb answer "" then (Err NoAnswer, over) else
      match picked options answer with Some i => (Ok i, over) | None => (Err NoAnswer, over) end
  | l :: ls =>
      let answer := ToLower lowerU (TrimSpace l) in
      if String.eqb answer "" then (Ok def, {| in_lines := ls; in_rest := rest |}) else
      match picked options answer with
      | Some i => (Ok i, {| in_lines := ls; in_rest := rest |})
      | None => choose_from options def ls rest
      end
  end.
Definition choose (options : list string) (def : nat) : mop nat := λ p,
  if yes then (Ok def, p) else
  let '(r, i) := choose_from options def (in_lines (p_in p)) (in_rest (p_in p)) in (r, read_on i p).
Definition confirm (def : bool) : mop bool := i ← choose ["yes"; "no"] (if def then 0 else 1)%nat; mret (bool_decide (i = 0%nat)).

(** ** Settings of jailoc v1 *)

Definition with_head (c : Config) (mode password : string) (d : Defaults) (w : gmap string Workspace) : Config := {|
  c_Mode := mode; c_PasswordMode := password; c_DetachKeys := c_DetachKeys c; c_Base := c_Base c; c_VM := c_VM c;
  c_Defaults := d; c_Workspaces := w |}.
(** The fields of [Defaults] and [Workspace] that a migration writes. *)
Definition migrated_defaults (d : Defaults) (backend : string) (expose : option bool) (mounts snaps : list string) : Defaults := {|
  d_Backend := backend; d_Agent := d_Agent d; d_Agents := d_Agents d; d_Env := d_Env d; d_EnvFile := d_EnvFile d;
  d_Mounts := mounts; d_Snapshots := snaps; d_AllowedHosts := d_AllowedHosts d; d_AllowedNetworks := d_AllowedNetworks d;
  d_Secrets := d_Secrets d; d_Image := d_Image d; d_SSHAuthSock := d_SSHAuthSock d; d_GPGAgent := d_GPGAgent d; d_GitConfig := d_GitConfig d;
  d_CPU := d_CPU d; d_Memory := d_Memory d; d_DockerDisk := d_DockerDisk d; d_ExposePort := expose;
  d_EnableDocker := d_EnableDocker d; d_FilteredDNS := d_FilteredDNS d; d_DNSUpstream := d_DNSUpstream d; d_DNSBlockedZones := d_DNSBlockedZones d;
  d_CABundle := d_CABundle d; d_IsolatedBuild := d_IsolatedBuild d; d_ProtectGit := d_ProtectGit d; d_Ports := d_Ports d; d_HostPorts := d_HostPorts d |}.
Definition migrated_ws (w : Workspace) (backend : string) (expose : option bool) (mounts snaps : list string) : Workspace := {|
  ws_Backend := backend; ws_Agent := ws_Agent w; ws_Agents := ws_Agents w; ws_Paths := ws_Paths w; ws_Mounts := mounts;
  ws_Snapshots := snaps; ws_AllowedHosts := ws_AllowedHosts w; ws_AllowedNetworks := ws_AllowedNetworks w; ws_Env := ws_Env w;
  ws_EnvFile := ws_EnvFile w; ws_Secrets := ws_Secrets w; ws_BuildContext := ws_BuildContext w; ws_Dockerfile := ws_Dockerfile w; ws_Image := ws_Image w;
  ws_SSHAuthSock := ws_SSHAuthSock w; ws_GPGAgent := ws_GPGAgent w; ws_GitConfig := ws_GitConfig w; ws_CPU := ws_CPU w;
  ws_Memory := ws_Memory w; ws_DockerDisk := ws_DockerDisk w; ws_ExposePort := expose; ws_EnableDocker := ws_EnableDocker w;
  ws_FilteredDNS := ws_FilteredDNS w; ws_DNSUpstream := ws_DNSUpstream w; ws_DNSBlockedZones := ws_DNSBlockedZones w;
  ws_CABundle := ws_CABundle w; ws_IsolatedBuild := ws_IsolatedBuild w; ws_ProtectGit := ws_ProtectGit w; ws_Ports := ws_Ports w; ws_HostPorts := ws_HostPorts w |}.
Definition clear_mode (c : Config) : Config := with_head c "" (c_PasswordMode c) (c_Defaults c) (c_Workspaces c).
Definition clear_password (c : Config) : Config := with_head c (c_Mode c) "" (c_Defaults c) (c_Workspaces c).
Definition set_defaults (d : Defaults) (c : Config) : Config := with_head c (c_Mode c) (c_PasswordMode c) d (c_Workspaces c).
Definition set_workspaces (w : gmap string Workspace) (c : Config) : Config := with_head c (c_Mode c) (c_PasswordMode c) (c_Defaults c) w.
Definition clear_expose (d : Defaults) : Defaults := migrated_defaults d (d_Backend d) None (d_Mounts d) (d_Snapshots d).
Definition clear_ws_expose (w : Workspace) : Workspace := migrated_ws w (ws_Backend w) None (ws_Mounts w) (ws_Snapshots w).
Definition clear_ws_backend (w : Workspace) : Workspace := migrated_ws w "" (ws_ExposePort w) (ws_Mounts w) (ws_Snapshots w).

(** An incompatible setting and how it is cleared. *)
Definition incompatibility (A : Type) : Type := string * (A → A).
Definition item_if {A} (b : bool) (x : A) : list A := if b then [x] else [].
Definition defaultsIncompatibilities (c : Config) : list (incompatibility Config) :=
  item_if (negb (String.eqb (c_Mode c) "")) ("mode", clear_mode) ++
  item_if (negb (String.eqb (c_PasswordMode c) "")) ("password_mode", clear_password) ++
  item_if (bool_decide (is_Some (d_ExposePort (c_Defaults c)))) ("expose_port", λ c, set_defaults (clear_expose (c_Defaults c)) c).
Definition workspaceIncompatibilities (w : Workspace) : list (incompatibility Workspace) :=
  item_if (bool_decide (is_Some (ws_ExposePort w))) ("expose_port", clear_ws_expose).
Fixpoint clear_all {A} (label : string) (items : list (incompatibility A)) (x : A) : mop A :=
  match items with
  | [] => mret x
  | (setting, clear) :: items => _ ← modify (add_change (RemovedSetting label setting)); clear_all label items (clear x)
  end.
Definition resolveIncompatibilities {A} (label : string) (items : list (incompatibility A)) (x : A) : mop A :=
  match items with
  | [] => mret x
  | _ => ok ← confirm true; if negb ok then fail (KeepsSettings label) else clear_all label items x
  end.

(** ** Mounts *)

Definition options_for (file : bool) : list string := if file then ["snapshot"; "drop"] else ["mount"; "snapshot"; "drop"].
(** The mounts kept and the snapshots, with one more mount decided. *)
Definition carry_one (label : string) (ks : list string * list string) (spec : string) : mop (list string * list string) :=
  let '(kept, snaps) := ks in
  mt ← lift (λ _, match ParseMount home ParseVolume spec with Ok m => Ok m | Err e => Err (BadMount label e) end);
  if String.eqb (Host mt) "" then mret (kept ++ [spec], snaps) else
  host ← lift (λ _, match ExpandPath home (Host mt) with Ok h => Ok h | Err e => Err (BadPath label (Host mt) e) end);
  let snapshotSpec := Host mt +:+ ":" +:+ Container mt in
  let options := options_for (is_file host) in
  i ← choose options 0%nat;
  match options !! i with
  | Some o =>
      if String.eqb o "mount" then mret (kept ++ [spec], snaps) else
      if String.eqb o "snapshot" then _ ← modify (add_change (ToSnapshot label spec snapshotSpec)); mret (kept, snaps ++ [snapshotSpec]) else
      _ ← modify (add_change (DroppedMount label spec)); mret (kept, snaps)
  | None => mret (kept, snaps)
  end.
Fixpoint carry_loop (label : string) (mounts : list string) (ks : list string * list string) : mop (list string * list string) :=
  match mounts with [] => mret ks | spec :: mounts => ks ← carry_one label ks spec; carry_loop label mounts ks end.
Definition carryMounts (label : string) (mounts snaps : list string) : mop (list string * list string) := carry_loop label mounts ([], snaps).

(** ** The plan *)

Definition BackendVM : string := "vm".
Definition needs_migration (c : Config) (name : string) : bool :=
  match c_Workspaces c !! name with
  | Some w => negb (String.eqb (cmpOr (ws_Backend w) (d_Backend (c_Defaults c))) BackendVM)
  | None => false
  end.
Definition ws_label (name : string) : string := "[workspaces." +:+ name +:+ "]".
Definition migrate_ws (name : string) (w : Workspace) : mop Workspace :=
  w ← resolveIncompatibilities (ws_label name) (workspaceIncompatibilities w) w;
  ms ← carryMounts (ws_label name) (ws_Mounts w) (ws_Snapshots w);
  mret (migrated_ws w (ws_Backend w) (ws_ExposePort w) ms.1 ms.2).
Fixpoint migrate_all (names : list string) (m : gmap string Workspace) : mop (gmap string Workspace) :=
  match names with
  | [] => mret m
  | name :: names =>
      match m !! name with
      | None => migrate_all names m
      | Some w => w ← migrate_ws name w; migrate_all names (<[name := w]> m)
      end
  end.
Definition set_backend (c : Config) : mop Config :=
  let d := c_Defaults c in
  if String.eqb (d_Backend d) BackendVM then mret c else
  _ ← modify (add_change SetBackend);
  mret (set_defaults (migrated_defaults d BackendVM (d_ExposePort d) (d_Mounts d) (d_Snapshots d)) c).
Fixpoint drop_backends (names : list string) (m : gmap string Workspace) : mop (gmap string Workspace) :=
  match names with
  | [] => mret m
  | name :: names =>
      match m !! name with
      | None => drop_backends names m
      | Some w =>
          if String.eqb (ws_Backend w) "" then drop_backends names m else
          _ ← modify (add_change (RemovedBackend name (ws_Backend w)));
          drop_backends names (<[name := clear_ws_backend w]> m)
      end
  end.
(** The rewritten configuration and the workspaces that move; the changes are
    those of the state. *)
Definition migrate_defaults (c : Config) : mop Config :=
  c ← resolveIncompatibilities "[defaults]" (defaultsIncompatibilities c) c;
  let d := c_Defaults c in
  ms ← carryMounts "[defaults]" (d_Mounts d) (d_Snapshots d);
  mret (set_defaults (migrated_defaults d (d_Backend d) (d_ExposePort d) ms.1 ms.2) c).
Definition planMigration (c : Config) : mop (Config * list string) :=
  let names := sorted_keys (c_Workspaces c) in
  let workspaces := filter (λ n, needs_migration c n = true) names in
  c ← migrate_defaults c;
  m ← migrate_all workspaces (c_Workspaces c);
  c ← set_backend (set_workspaces m c);
  m ← drop_backends names (c_Workspaces c);
  mret (set_workspaces m c, workspaces).


(** ** What a plan makes of a configuration *)

(** A mount the VM backend shares as it is. *)
Definition shareable (spec : string) : Prop :=
  ∃ m, ParseMount home ParseVolume spec = Ok m ∧ (Host m = "" ∨ ∃ h, ExpandPath home (Host m) = Ok h ∧ is_file h = false).
Definition snapshot_of (m : Mount) : string := Host m +:+ ":" +:+ Container m.
(** The mounts kept and the snapshots a mount becomes, with the change that
    is reported; a mount is dropped on an answer only. *)
Inductive decided (label spec : string) : list string → list string → list change → Prop :=
| stays : shareable spec → decided label spec [spec] [] []
| snapped m h : ParseMount home ParseVolume spec = Ok m → Host m ≠ "" → ExpandPath home (Host m) = Ok h → (yes = true → is_file h = true) →
    decided label spec [] [snapshot_of m] [ToSnapshot label spec (snapshot_of m)]
| dropped : yes = false → decided label spec [] [] [DroppedMount label spec].
Inductive carried (label : string) : list string → list string → list string → list change → Prop :=
| carried_nil : carried label [] [] [] []
| carried_cons spec ms k1 k s1 s c1 c : decided label spec k1 s1 c1 → carried label ms k s c → carried label (spec :: ms) (k1 ++ k) (s1 ++ s) (c1 ++ c).
Lemma carried_shareable label ms k s c : carried label ms k s c → Forall shareable k.
Proof. induction 1 as [|spec ms k1 k s1 s c1 c Hd _ IH]; [done|]. apply Forall_app. split; [|done]. destruct Hd; by repeat constructor. Qed.
Lemma carried_same label ms k s : carried label ms k s [] → k = ms ∧ s = [].
Proof.
  intros H. remember [] as c eqn:Hc. induction H as [|spec ms k1 k s1 s c1 c Hd _ IH]; [done|].
  apply app_eq_nil in Hc as [-> ->]. destruct (IH eq_refl) as [-> ->]. by inversion Hd.
Qed.

Lemma choose_changes options def p r p' : choose options def p = (r, p') → p_changes p' = p_changes p.
Proof using. unfold choose. destruct yes; [by intros [= _ <-]|]. destruct (choose_from _ _ _ _) as [r' i]. by intros [= _ <-]. Qed.
Lemma choose_index options def p i p' : (def < length options)%nat → choose options def p = (Ok i, p') → (i < length options)%nat.
Proof using.
  intros Hd. unfold choose. destruct yes; [by intros [= <- _]|]. destruct (choose_from _ _ _ _) as [r' inp] eqn:E. intros [= -> _].
  assert (∀ a j, picked options a = Some j → (j < length options)%nat) as Hp.
  { intros a j ([j' x] & Hj & ->)%fmap_Some. apply list_find_Some in Hj as (Hj & _). by apply lookup_lt_Some in Hj. }
  revert E. generalize (in_rest (p_in p)). induction (in_lines (p_in p)) as [|l ls IH]; intros rest; cbn [choose_from].
  - destruct (String.eqb _ ""); [done|]. destruct (picked _ _) as [j|] eqn:Ej; [|done]. intros [= <- _]. exact (Hp _ _ Ej).
  - destruct (String.eqb _ ""); [by intros [= <- _]|]. destruct (picked _ _) as [j|] eqn:Ej; [|apply IH]. intros [= <- _]. exact (Hp _ _ Ej).
Qed.
Lemma carry_one_decides label kept snaps spec p ks p' : carry_one label (kept, snaps) spec p = (Ok ks, p') →
  ∃ k s c, ks = (kept ++ k, snaps ++ s) ∧ p_changes p' = p_changes p ++ c ∧ decided label spec k s c.
Proof using.
  unfold carry_one. intros (mt & p1 & Hm & H)%op_bind_Ok. unfold lift in Hm. destruct (ParseMount home ParseVolume spec) as [m|e] eqn:Em; [|done].
  injection Hm as -> ->. destruct (String.eqb_spec (Host mt) "") as [Hh|Hh].
  { injection H as <- <-. exists [spec], [], []. rewrite !app_nil_r. split_and!; [done|done|]. apply stays. exists mt. by split; [|left]. }
  apply op_bind_Ok in H as (h & p2 & He & H). unfold lift in He. destruct (ExpandPath home (Host mt)) as [h'|e] eqn:Ee; [|done]. injection He as -> ->.
  apply op_bind_Ok in H as (i & p3 & Hc & H). pose proof (choose_changes _ _ _ _ _ Hc) as Hp.
  assert (yes = true → i = 0%nat) as Hy by (intros Hy; unfold choose in Hc; rewrite Hy in Hc; by injection Hc as <-).
  destruct (options_for (is_file h) !! i) as [o|] eqn:Eo.
  - destruct (String.eqb_spec o "mount") as [->|Ho].
    { injection H as <- <-. exists [spec], [], []. rewrite !app_nil_r. split_and!; [done|done|]. apply stays. exists mt. split; [done|]. right.
      exists h. split; [done|]. destruct (is_file h); [|done]. by destruct i as [|[|i]]. }
    destruct (String.eqb_spec o "snapshot") as [->|Ho'].
    + injection H as <- <-. exists [], [snapshot_of mt], [ToSnapshot label spec (snapshot_of mt)]. cbn. rewrite !app_nil_r Hp. split_and!; [done|done|].
      apply (snapped _ _ _ h); [done|done|done|]. intros Hy'. rewrite (Hy Hy') in Eo. by destruct (is_file h).
    + injection H as <- <-. exists [], [], [DroppedMount label spec]. cbn. rewrite !app_nil_r Hp. split_and!; [done|done|]. apply dropped.
      destruct yes; [|done]. rewrite (Hy eq_refl) in Eo. destruct (is_file h); injection Eo as <-; done.
  - apply lookup_ge_None in Eo. pose proof (choose_index _ _ _ _ _ (ltac:(by destruct (is_file h); cbn; lia) : (0 < length (options_for (is_file h)))%nat) Hc). lia.
Qed.
Lemma carry_loop_carries label ms kept snaps p ks p' : carry_loop label ms (kept, snaps) p = (Ok ks, p') →
  ∃ k s c, ks = (kept ++ k, snaps ++ s) ∧ p_changes p' = p_changes p ++ c ∧ carried label ms k s c.
Proof using.
  revert kept snaps p. induction ms as [|spec ms IH]; intros kept snaps p.
  - intros [= <- <-]. exists [], [], []. rewrite !app_nil_r. split_and!; [done|done|]. constructor.
  - cbn [carry_loop]. intros (ks1 & p1 & H1 & H)%op_bind_Ok. apply carry_one_decides in H1 as (k1 & s1 & c1 & -> & Hp1 & Hd).
    apply IH in H as (k & s & c & -> & Hp & Hc). exists (k1 ++ k), (s1 ++ s), (c1 ++ c). rewrite Hp Hp1 -!app_assoc. split_and!; [done|done|].
    by constructor.
Qed.
Lemma clear_all_clears {A} label (items : list (incompatibility A)) x p y p' : clear_all label items x p = (Ok y, p') →
  y = foldl (λ x it, it.2 x) x items ∧ p_changes p' = p_changes p ++ map (λ it, RemovedSetting label it.1) items.
Proof.
  revert x p. induction items as [|[s f] items IH]; intros x p; cbn; [intros [= <- <-]; by rewrite app_nil_r|].
  intros H. apply IH in H as [-> ->]. split; [done|]. cbn. by rewrite -app_assoc.
Qed.
Lemma resolve_clears {A} label (items : list (incompatibility A)) x p y p' : resolveIncompatibilities label items x p = (Ok y, p') →
  y = foldl (λ x it, it.2 x) x items ∧ p_changes p' = p_changes p ++ map (λ it, RemovedSetting label it.1) items.
Proof.
  destruct items as [|it items]; cbn [resolveIncompatibilities]; [intros [= <- <-]; by rewrite app_nil_r|].
  intros (ok & p1 & H1 & H)%op_bind_Ok. unfold confirm in H1. apply op_bind_Ok in H1 as (i & p2 & H2 & [= _ <-]). apply choose_changes in H2.
  destruct ok; [|done]. cbn [negb] in H. apply clear_all_clears in H as [-> ->]. by rewrite H2.
Qed.

(** One layer of mounts and snapshots migrated. *)
Definition layer (label : string) (ms snaps ms' snaps' : list string) (c : list change) : Prop :=
  ∃ added, snaps' = snaps ++ added ∧ carried label ms ms' added c.
Lemma carryMounts_layer label ms snaps p ks p' : carryMounts label ms snaps p = (Ok ks, p') →
  ∃ c, p_changes p' = p_changes p ++ c ∧ layer label ms snaps ks.1 ks.2 c.
Proof using. intros H. apply carry_loop_carries in H as (k & s & c & -> & Hp & Hc). exists c. split; [done|]. by exists s. Qed.
Definition moved (name : string) (w w' : Workspace) (c : list change) : Prop :=
  ∃ ms snaps cm, w' = migrated_ws w (ws_Backend w) None ms snaps ∧ layer (ws_label name) (ws_Mounts w) (ws_Snapshots w) ms snaps cm ∧
    c = map (λ it, RemovedSetting (ws_label name) it.1) (workspaceIncompatibilities w) ++ cm.
Lemma migrate_ws_moves name w p w' p' : migrate_ws name w p = (Ok w', p') → ∃ c, p_changes p' = p_changes p ++ c ∧ moved name w w' c.
Proof using.
  unfold migrate_ws. intros (w1 & p1 & H1 & (ks & p2 & H2 & [= <- <-])%op_bind_Ok)%op_bind_Ok.
  apply resolve_clears in H1 as [Hw1 Hp1]. apply carryMounts_layer in H2 as (cm & Hp2 & Hl). exists (map (λ it, RemovedSetting (ws_label name) it.1) (workspaceIncompatibilities w) ++ cm).
  rewrite Hp2 Hp1 -app_assoc. assert (ws_Mounts w1 = ws_Mounts w ∧ ws_Snapshots w1 = ws_Snapshots w ∧ ∀ ms s, migrated_ws w1 (ws_Backend w1) (ws_ExposePort w1) ms s = migrated_ws w (ws_Backend w) None ms s) as (Em & Es & Ew).
  { unfold workspaceIncompatibilities, item_if in Hw1. destruct (ws_ExposePort w) eqn:E; cbn in Hw1; rewrite Hw1 //=. by rewrite E. }
  split; [done|]. exists ks.1, ks.2, cm. rewrite Em Es in Hl. by rewrite Ew.
Qed.
(** The changes of the workspaces, one list per name. *)
Lemma migrate_all_moves names m p m' p' : NoDup names → (∀ n, n ∈ names → is_Some (m !! n)) → migrate_all names m p = (Ok m', p') →
  ∃ cs : gmap string (list change), p_changes p' = p_changes p ++ concat (map (λ n, default [] (cs !! n)) names) ∧
    ∀ n, if bool_decide (n ∈ names) then option_Forall2 (λ w w', moved n w w' (default [] (cs !! n))) (m !! n) (m' !! n) else m' !! n = m !! n.
Proof using.
  intros Hnd. revert m p. induction Hnd as [|n names Hn Hnd IH]; intros m p Hm0.
  { intros [= <- <-]. exists ∅. by rewrite app_nil_r. }
  cbn [migrate_all]. destruct (Hm0 n ltac:(by left)) as [w Ew]. rewrite Ew.
  intros (w' & p1 & H1 & H)%op_bind_Ok. apply migrate_ws_moves in H1 as (c & Hp1 & Hw). apply IH in H as (cs & Hp & Hm).
  2: { intros k Hk. destruct (decide (n = k)) as [<-|Hne]; [by rewrite lookup_insert_eq|]. rewrite lookup_insert_ne //. apply Hm0. by right. }
    exists (<[n := c]> cs). assert (map (λ k, default [] (<[n := c]> cs !! k)) names = map (λ k, default [] (cs !! k)) names) as Hcs.
    { apply map_ext_in. intros k Hk%list_elem_of_In. rewrite lookup_insert_ne //. by intros ->. }
    cbn [map concat]. rewrite lookup_insert_eq Hcs Hp Hp1 -app_assoc. split; [done|]. intros k. specialize (Hm k). destruct (decide (n = k)) as [<-|Hne].
    + rewrite bool_decide_false // in Hm. rewrite bool_decide_true; [|by left]. rewrite Hm !lookup_insert_eq Ew. by constructor.
    + rewrite !(lookup_insert_ne _ n k) // in Hm |- *. destruct (decide (k ∈ names)) as [Hk|Hk].
      * rewrite bool_decide_true // in Hm. rewrite bool_decide_true; [|by right]. exact Hm.
      * rewrite bool_decide_false // in Hm. rewrite bool_decide_false; [exact Hm|]. by intros [->|H']%elem_of_cons.
Qed.
Lemma drop_backends_clears names m p m' p' : NoDup names → drop_backends names m p = (Ok m', p') →
  (p_changes p' = p_changes p → m' = m) ∧ (∃ c, p_changes p' = p_changes p ++ c) ∧
  ∀ n, m' !! n = if bool_decide (n ∈ names) then clear_ws_backend <$> m !! n else m !! n.
Proof using.
  clear home ParseVolume lowerU yes is_file.
  intros Hnd. revert m p. induction Hnd as [|n names Hn Hnd IH]; intros m p.
  { intros [= <- <-]. split_and!; [done|exists []; by rewrite app_nil_r|done]. }
  cbn [drop_backends].
  assert (∀ m1 : gmap string Workspace, (∀ k, m1 !! k = if bool_decide (k = n) then clear_ws_backend <$> m !! k else m !! k) →
    (∀ k, m' !! k = if bool_decide (k ∈ names) then clear_ws_backend <$> m1 !! k else m1 !! k) →
    ∀ k, m' !! k = if bool_decide (k ∈ n :: names) then clear_ws_backend <$> m !! k else m !! k) as Hk.
  { intros m1 H1 H2 k. rewrite H2 H1. destruct (decide (k = n)) as [->|Hne].
    - rewrite (bool_decide_true (n = n)) // (bool_decide_false (n ∈ names)) // bool_decide_true //. by left.
    - rewrite (bool_decide_false (k = n)) //. apply (f_equal (λ b : bool, if b then _ else _)). apply bool_decide_ext. rewrite elem_of_cons. naive_solver. }
  destruct (m !! n) as [w|] eqn:Ew; [destruct (String.eqb_spec (ws_Backend w) "") as [Hb|Hb]|].
  - intros H. apply IH in H as (H1 & H2 & H3). split_and!; [done|done|]. apply (Hk m); [|done]. intros k. case_bool_decide as E; [|done].
    rewrite E Ew. cbn. f_equal. unfold clear_ws_backend. rewrite -Hb. by destruct w.
  - intros ([] & p1 & [= <-] & H)%op_bind_Ok. apply IH in H as (_ & [c H2] & H3). cbn in H2. rewrite -app_assoc in H2. split_and!.
    + rewrite H2. intros E. apply (f_equal length) in E. rewrite !length_app in E. cbn in E. lia.
    + eexists. exact H2.
    + apply (Hk (<[n := clear_ws_backend w]> m)); [|exact H3]. intros k. case_bool_decide as E; [rewrite E lookup_insert_eq Ew //|rewrite lookup_insert_ne //; congruence].
  - intros H. apply IH in H as (H1 & H2 & H3). split_and!; [done|done|]. apply (Hk m); [|done]. intros k. case_bool_decide as E; [|done]. by rewrite E Ew.
Qed.
Lemma migrate_defaults_moves c p c' p' : migrate_defaults c p = (Ok c', p') →
  ∃ ms snaps ch cr, c' = with_head c "" "" (migrated_defaults (c_Defaults c) (d_Backend (c_Defaults c)) None ms snaps) (c_Workspaces c) ∧
    layer "[defaults]" (d_Mounts (c_Defaults c)) (d_Snapshots (c_Defaults c)) ms snaps ch ∧
    p_changes p' = p_changes p ++ cr ++ ch ∧ (cr = [] → c_Mode c = "" ∧ c_PasswordMode c = "" ∧ d_ExposePort (c_Defaults c) = None).
Proof using.
  unfold migrate_defaults. intros (c1 & p1 & H1 & (ks & p2 & H2 & [= <- <-])%op_bind_Ok)%op_bind_Ok.
  apply resolve_clears in H1 as [Hc1 Hp1]. apply carryMounts_layer in H2 as (ch & Hp2 & Hl).
  assert (c1 = with_head c "" "" (migrated_defaults (c_Defaults c) (d_Backend (c_Defaults c)) None (d_Mounts (c_Defaults c)) (d_Snapshots (c_Defaults c))) (c_Workspaces c)) as E.
  { rewrite Hc1. destruct c as [mode pw dk base vm d ws]. unfold defaultsIncompatibilities, item_if. cbn [c_Mode c_PasswordMode c_Defaults].
    destruct d as [? ? ? ? ? ? ? ? ? ? ? ? ? ? ? ? ? ex]. cbn.
    destruct (String.eqb_spec mode "") as [->|], (String.eqb_spec pw "") as [->|], ex; done. }
  rewrite {}E in Hl |- *. exists ks.1, ks.2, ch, (map (λ it, RemovedSetting "[defaults]" it.1) (defaultsIncompatibilities c)).
  split_and!; [done|exact Hl|by rewrite Hp2 Hp1 -app_assoc|]. unfold defaultsIncompatibilities, item_if.
  destruct (String.eqb_spec (c_Mode c) ""), (String.eqb_spec (c_PasswordMode c) ""), (d_ExposePort (c_Defaults c)); done.
Qed.
(** A workspace of the result: no [backend], and when it moves no
    [expose_port] and its mounts carried over. *)
Definition migrated (moves : bool) (name : string) (w w' : Workspace) : Prop :=
  if moves then ∃ ms snaps c, w' = migrated_ws w "" None ms snaps ∧ layer (ws_label name) (ws_Mounts w) (ws_Snapshots w) ms snaps c
  else w' = clear_ws_backend w.
Definition plan_of (c c' : Config) (moving : list string) : Prop :=
  ∃ ms snaps m' ch, c' = with_head c "" "" (migrated_defaults (c_Defaults c) BackendVM None ms snaps) m' ∧
    layer "[defaults]" (d_Mounts (c_Defaults c)) (d_Snapshots (c_Defaults c)) ms snaps ch ∧
    ∀ n, option_Forall2 (migrated (bool_decide (n ∈ moving)) n) (c_Workspaces c !! n) (m' !! n).
Definition moving (c : Config) : list string := filter (λ n, needs_migration c n = true) (sorted_keys (c_Workspaces c)).
Lemma moved_same name w w' : moved name w w' [] → w' = w.
Proof using.
  intros (ms & snaps & cm & -> & (added & -> & Hl) & Hc). symmetry in Hc. apply app_eq_nil in Hc as [He ->]. apply carried_same in Hl as [-> ->].
  unfold workspaceIncompatibilities, item_if in He. destruct w as [? ? ? ? ? ? ? ? ? ? ? ? ? ? ? ? ? ? ? ? [b|]]; cbn in *; [done|]. by rewrite app_nil_r.
Qed.
Lemma set_backend_sets c p c' p' : set_backend c p = (Ok c', p') →
  c' = set_defaults (migrated_defaults (c_Defaults c) BackendVM (d_ExposePort (c_Defaults c)) (d_Mounts (c_Defaults c)) (d_Snapshots (c_Defaults c))) c ∧
  ∃ ch, p_changes p' = p_changes p ++ ch ∧ (ch = [] → c' = c).
Proof using.
  unfold set_backend. destruct (String.eqb_spec (d_Backend (c_Defaults c)) BackendVM) as [Hb|Hb].
  - intros [= <- <-]. split; [|exists []; by rewrite app_nil_r]. rewrite -Hb. destruct c as [? ? ? ? ? d ?]. by destruct d.
  - intros H. injection H as <- <-. split; [done|]. by exists [SetBackend].
Qed.
Lemma planMigration_moves c p c' ws p' : planMigration c p = (Ok (c', ws), p') →
  ws = moving c ∧ plan_of c c' ws ∧ (p_changes p' = p_changes p → c' = c).
Proof using.
  unfold planMigration. fold (moving c). intros (c1 & p1 & H1 & (m2 & p2 & H2 & (c3 & p3 & H3 & (m4 & p4 & H4 & [= <- <- <-])%op_bind_Ok)%op_bind_Ok)%op_bind_Ok)%op_bind_Ok.
  apply migrate_defaults_moves in H1 as (ms & snaps & ch & cr & Hc1 & Hl & Hp1 & Hcr).
  assert (c_Workspaces c1 = c_Workspaces c) as Ew1 by (by rewrite Hc1). rewrite {}Ew1 in H2.
  assert (∀ n, n ∈ moving c → is_Some (c_Workspaces c !! n)) as Hin by (intros n [_ Hn]%list_elem_of_filter; by apply elem_of_sorted_keys).
  apply migrate_all_moves in H2 as (cs & Hp2 & Hm2); [|apply NoDup_filter, NoDup_sorted_keys|exact Hin].
  apply set_backend_sets in H3 as (Hc3 & cb & Hp3 & Hcb). assert (c_Workspaces c3 = m2) as Ew3 by (by rewrite Hc3). rewrite {}Ew3 in H4.
  apply drop_backends_clears in H4 as (Hsame & [cd Hp4] & Hm4); [|apply NoDup_sorted_keys]. split; [done|]. split.
  - exists ms, snaps, m4, ch. rewrite Hc3 Hc1. split; [done|]. split; [done|]. intros n. rewrite Hm4. specialize (Hm2 n).
    assert (bool_decide (n ∈ sorted_keys (c_Workspaces c)) = bool_decide (is_Some (c_Workspaces c !! n))) as -> by (apply bool_decide_ext, elem_of_sorted_keys).
    case_bool_decide as Hn.
    + rewrite bool_decide_true; [|by apply Hin]. destruct Hm2 as [w w' Hw|]; [|constructor].
      cbn. constructor. destruct Hw as (ms' & snaps' & cm & -> & Hl' & _). by exists ms', snaps', cm.
    + rewrite Hm2. case_bool_decide as Hs; [destruct Hs as [w ->]; by constructor|]. apply eq_None_not_Some in Hs as ->. constructor.
  - rewrite Hp4 Hp3 Hp2 Hp1 -!app_assoc. intros E. apply (f_equal length) in E. rewrite !length_app in E.
    assert (cr = [] ∧ ch = [] ∧ concat (map (λ n, default [] (cs !! n)) (moving c)) = [] ∧ cb = [] ∧ cd = []) as (-> & -> & Hcs & -> & ->).
    { rewrite -!length_zero_iff_nil. lia. }
    rewrite app_nil_r in Hp4. rewrite (Hsame Hp4). specialize (Hcb eq_refl). destruct (Hcr eq_refl) as (Em & Epw & Eex).
    destruct Hl as (added & -> & Hl). apply carried_same in Hl as [-> ->]. rewrite app_nil_r in Hc1.
    assert (c1 = c) as -> by (rewrite Hc1; destruct c as [? ? ? ? ? d ?], d; cbn in Em, Epw, Eex; by subst).
    assert (m2 = c_Workspaces c) as ->; [|rewrite Hcb; by destruct c].
    apply map_eq. intros n. specialize (Hm2 n). case_bool_decide as Hn; [|done]. assert (default [] (cs !! n) = []) as E0.
    { assert (default [] (cs !! n) ∈ map (λ n, default [] (cs !! n)) (moving c)) as Hi by (apply list_elem_of_fmap; by exists n).
      destruct (default [] (cs !! n)) as [|x l] eqn:El; [done|]. exfalso. apply (not_elem_of_nil x). rewrite -Hcs. apply list_elem_of_In, in_concat.
      exists (x :: l). split; [by apply list_elem_of_In|by left]. }
    rewrite E0 in Hm2. destruct Hm2 as [w w' Hw%moved_same|]; [by rewrite Hw|done].
Qed.
End Migrate.

Section Settled.
Context (home : option string) (ParseVolume : string → option (string * string)) (lowerU : string → string) (yes : bool) (is_file : string → bool).
Local Notation shareable := (shareable home ParseVolume is_file).
Local Notation replan := (planMigration home ParseVolume lowerU true is_file).
Lemma carry_again label ms kept snaps p : Forall shareable ms →
  carry_loop home ParseVolume lowerU true is_file label ms (kept, snaps) p = (Ok (kept ++ ms, snaps), p).
Proof.
  intros Hms. revert kept. induction Hms as [|spec ms (m & Hm & Hh) _ IH]; intros kept; [by rewrite app_nil_r|].
  cbn [carry_loop]. unfold mbind, op_bind. unfold carry_one at 1. unfold mbind, op_bind, lift. rewrite Hm.
  destruct (String.eqb_spec (Host m) "") as [Hn|Hn]; [cbn; rewrite IH -app_assoc //|].
  destruct Hh as [Hh|(h & Hh & Hf)]; [done|]. rewrite Hh Hf. cbn. by rewrite IH -app_assoc.
Qed.
Lemma drop_again names m p : (∀ n w, m !! n = Some w → ws_Backend w = "") → drop_backends names m p = (Ok m, p).
Proof.
  intros Hm. induction names as [|n names IH]; [done|]. cbn [drop_backends]. destruct (m !! n) as [w|] eqn:Ew; [|done]. by rewrite (Hm n w Ew).
Qed.
Lemma plan_again c c' ws p : plan_of home ParseVolume yes is_file c c' ws → replan c' p = (Ok (c', []), p).
Proof.
  intros (ms & snaps & m' & ch & -> & (added & -> & Hl) & Hm). set (c' := with_head _ _ _ _ _).
  assert (∀ n w, m' !! n = Some w → ws_Backend w = "") as Hb.
  { intros n w Hw. specialize (Hm n). rewrite Hw in Hm. inversion Hm as [w0 w1 H|]; subst. destruct (bool_decide _); [by destruct H as (? & ? & ? & -> & _)|by rewrite H]. }
  assert (filter (λ n, needs_migration c' n = true) (sorted_keys m') = []) as Hnone.
  { apply elem_of_nil_inv. intros n [Hn _]%list_elem_of_filter. unfold needs_migration in Hn. cbn in Hn. destruct (m' !! n) as [w|] eqn:Ew; [|done].
    by rewrite (Hb n w Ew) in Hn. }
  assert (migrate_defaults home ParseVolume lowerU true is_file c' p = (Ok c', p)) as Hd.
  { unfold migrate_defaults, carryMounts. cbn. unfold mbind, op_bind. cbn -[carry_loop]. rewrite carry_again; [done|by apply (carried_shareable _ _ _ _ _ _ _ _ _ Hl)]. }
  unfold planMigration. cbn [c_Workspaces c' with_head]. rewrite Hnone. unfold mbind, op_bind. rewrite Hd. cbn [migrate_all].
  unfold set_backend. cbn. unfold mret, op_ret. rewrite drop_again //.
Qed.

(** A migration carries a configuration over. The result names the VM
    backend, has none of the settings it rejects, and differs only there and in
    the mounts of the defaults and of the workspaces that move: each is kept,
    and then no file, or becomes a snapshot after the snapshots there were, or
    is dropped on an answer. When no change is reported nothing has changed,
    and migrating the result again with the default answers leaves it. *)
Theorem planMigration_carries c p c' ws p' :
  planMigration home ParseVolume lowerU yes is_file c p = (Ok (c', ws), p') →
  ws = moving c ∧ plan_of home ParseVolume yes is_file c c' ws ∧ (p_changes p' = p_changes p → c' = c) ∧
  ∀ q, replan c' q = (Ok (c', []), q).
Proof.
  intros H. pose proof (planMigration_moves _ _ _ _ _ _ _ _ _ _ H) as (Hw & Hp & Hs). split_and!; [done|done|done|].
  intros q. by apply (plan_again c c' ws).
Qed.
End Settled.

(** *** An example *)

Definition v1_defaults : Defaults :=
  {| d_Backend := "docker"; d_Agent := ""; d_Agents := ∅; d_Env := []; d_EnvFile := []; d_Mounts := ["~/src:~/src"; "/etc/x.conf:/x:ro"]; d_Snapshots := [];
     d_AllowedHosts := []; d_AllowedNetworks := []; d_Secrets := {| sec_Env := ∅; sec_File := ∅ |}; d_Image := "";
     d_SSHAuthSock := false; d_GPGAgent := false; d_GitConfig := None; d_CPU := None; d_Memory := None; d_DockerDisk := None;
     d_ExposePort := None; d_EnableDocker := None; d_FilteredDNS := None; d_DNSUpstream := ""; d_DNSBlockedZones := None;
     d_CABundle := None; d_IsolatedBuild := None; d_ProtectGit := None; d_Ports := []; d_HostPorts := [] |}.
Definition v1_ws (backend : string) (mounts : list string) : Workspace := migrated_ws zeroWorkspace backend (Some true) mounts [].
Definition v1_config : Config :=
  with_head (simple_config v1_defaults {["w" := v1_ws "" ["/data:/data"; "/old:/old"]; "v" := v1_ws "vm" ["/keep:/keep"]]}) "server" "" v1_defaults
    {["w" := v1_ws "" ["/data:/data"; "/old:/old"]; "v" := v1_ws "vm" ["/keep:/keep"]]}.
Definition v1_file (p : string) : bool := String.eqb p "/etc/x.conf".
(** The answers: remove the settings, keep the directory, copy the file, and in
    the workspace an answer that is none, a snapshot and a drop. *)
Definition v1_answers : input := {| in_lines := ["YES"; ""; " snapshot "; "y"; "what"; "s"; "d"; "yes"]; in_rest := "" |}.
Definition v1_start : plan := {| p_in := v1_answers; p_changes := [] |}.
Definition v1_planned : result merr (Config * list string) * plan :=
  planMigration (Some "/h") simple_volume (λ s, s) false v1_file v1_config v1_start.
Lemma planMigration_carries_witness :
  ∃ c' p', v1_planned = (Ok (c', ["w"]), p') ∧
    (d_Mounts (c_Defaults c'), d_Snapshots (c_Defaults c'), (λ w, (ws_Mounts w, ws_Snapshots w)) <$> c_Workspaces c' !! "w") =
    (["~/src:~/src"], ["/etc/x.conf:/x"], Some ([], ["/data:/data"])) ∧
    plan_of (Some "/h") simple_volume false v1_file v1_config c' ["w"] ∧
    ∀ q, planMigration (Some "/h") simple_volume (λ s, s) true v1_file c' q = (Ok (c', []), q).
Proof.
  destruct v1_planned as [[[c' ws]|e] p'] eqn:E; [|exfalso; vm_compute in E; discriminate].
  pose proof (planMigration_carries (Some "/h") simple_volume (λ s, s) false v1_file v1_config v1_start c' ws p' E) as (Hw & Hp & _ & Hs).
  exists c', p'. assert (ws = ["w"]) as -> by (rewrite Hw; vm_compute; reflexivity).
  split; [reflexivity|]. split; [|split; [exact Hp|exact Hs]]. clear -E. vm_compute in E. injection E as <- _. vm_compute. reflexivity.
Defined.
