(* ===== verification/MigrateRun.v ===== *)
(** * The run of a migration

    [runMigrate], [migrateDockerState] and [migrateVolume] of
    [src/internal/cmd/migrate_unix.go] as a program over its calls, with standard
    input as its state, and the order it keeps: the configuration is replaced last,
    and data the VM already has is never touched. *)

From S2P Require Import Prelude GoStrings GoPath Agent ConfigPaths Config StateErr Vm VmHost Prog Migrate.
Open Scope string_scope.
Open Scope list_scope.

Inductive mcall :=
| ReadRaw (path : string) | ValidateCopy (c : Config) | Encode (c : Config) | WriteRaw (path : string) (c : Config)
| StatBackup (path : string) | ReadConfig (path : string) | WriteBackup (path data : string) | TimeStamp
| Ping | RunningContainers (ws : string) | StopContainers (ws : string)
| OpenGuestData (dir : string) | CloseRoot (fd : Z)
| RootLstat (fd : Z) (p : string) | RootRemoveAll (fd : Z) (p : string) | RootMkdirAll (fd : Z) (p : string) | RootRename (fd : Z) (a b : string)
| ExportVolume (volume : string) (fd : Z) (p : string).
Definition manswer (c : mcall) : Type :=
  match c with
  | ReadRaw _ => result string Config
  | OpenGuestData _ => result string Z
  | RunningContainers _ | ExportVolume _ _ _ => result string bool
  | ReadConfig _ | Encode _ => result string string
  | TimeStamp => string
  | CloseRoot _ => ()
  | _ => result string ()
  end.
Inductive rerr := Asked (e : merr) | Failed (what err : string) | Cancelled | StopFirst | BadLayer (ws : string) (e : cerr).
Notation mitem := (item mcall manswer).
Notation mio := (sio plan mcall manswer rerr).
Definition asks {A} (m : op plan merr A) : mio A := λ p,
  Ret (match m p with (Ok a, p') => (Ok a, p') | (Err e, p') => (Err (Asked e), p') end).
Definition tries {A} (what : string) (m : prog mcall manswer (result string A)) : mio A :=
  slift (wrap (Failed what) m).
(** [defer]: [last] runs whatever the result. *)
Definition sfinally {A} (m : mio A) (last : prog mcall manswer ()) : mio A := λ s, pbind (λ rs, pbind (λ _, Ret rs) last) (m s).

Section Run.
Context (home : option string) (ParseVolume : string → option (string * string)) (lowerU : string → string).
Context (yes dryRun : bool) (is_file : string → bool) (he : host_env).
Local Notation confirm := (confirm lowerU yes).

(** ** Volumes *)

Record volumeTarget := { vt_workspace : string; vt_volume : string; vt_dst : string; vt_guestPath : string }.
#[export] Instance volumeTarget_eq_dec : EqDecision volumeTarget.
Proof. solve_decision. Defined.
Definition v1OpenCodeData : string := "/home/agent/.local/share/opencode".
Definition guestUserCache : string := "/home/agent/.cache".
Definition guestDataHome : string := "home".
Definition VolumeName (ws key : string) : string := "jailoc-" +:+ ws +:+ "_" +:+ key.
Definition v1_mounts : list string := match Lookup "opencode1" with Some h => DefaultMounts h | None => sharedMounts end.
Definition ws_volumes (mounts : list string) (name : string) : list volumeTarget :=
  omap (M:=list) (λ v : string * string * string, let '(key, dir, guestPath) := v in
    if MountsContainTarget home ParseVolume mounts guestPath then None else
    Some {| vt_workspace := name; vt_volume := VolumeName name key; vt_dst := JoinPath [guestDataHome; dir]; vt_guestPath := guestPath |})
  [("opencode-data-" +:+ name, "opencode-data", v1OpenCodeData); ("opencode-cache-" +:+ name, "cache", guestUserCache)].
Fixpoint migrationVolumes (c : Config) (names : list string) : result rerr (list volumeTarget) :=
  match names with
  | [] => Ok []
  | name :: names =>
      let own := match c_Workspaces c !! name with Some w => ws_Mounts w | None => [] end in
      match MergeMounts home ParseVolume [v1_mounts; d_Mounts (c_Defaults c); own] with
      | Err e => Err (BadLayer name e)
      | Ok mounts => rest ← migrationVolumes c names; Ok (ws_volumes mounts name ++ rest)
      end
  end.
Definition tmp_of (dst : string) : string := dst +:+ ".migrating".
Definition migrate_into (fd : Z) (t : volumeTarget) : mio () :=
  l ← srun (call (RootLstat fd (vt_dst t)));
  match (l : result string ()) with
  | Ok _ => mret ()
  | Err _ =>
      _ ← tries "clear" (call (RootRemoveAll fd (tmp_of (vt_dst t))));
      _ ← tries "create" (call (RootMkdirAll fd (Dir (vt_dst t))));
      copied ← tries "copy" (call (ExportVolume (vt_volume t) fd (tmp_of (vt_dst t))));
      if negb (copied : bool) then mret () else tries "install" (call (RootRename fd (tmp_of (vt_dst t)) (vt_dst t)))
  end.
Definition migrateVolume (t : volumeTarget) : mio () :=
  fd ← tries "workspace" (call (OpenGuestData (vmStateDir he (vt_workspace t))));
  sfinally (migrate_into fd t) (call (CloseRoot fd)).

(** ** Docker *)

Fixpoint running_of (names : list string) : mio (list string) :=
  match names with
  | [] => mret []
  | name :: names =>
      r ← tries "check" (call (RunningContainers name));
      rest ← running_of names;
      mret (if (r : bool) then name :: rest else rest)
  end.
Definition migrateDockerState (c : Config) (names : list string) : mio () :=
  up ← srun (call Ping);
  match (up : result string ()) with
  | Err _ => ok ← asks (confirm true); if (ok : bool) then mret () else sthrow Cancelled
  | Ok _ =>
      running ← running_of names;
      _ ← (match (running : list string) with
           | [] => mret ()
           | _ => ok ← asks (confirm true);
                  if (ok : bool) then seach (λ name, tries "stop" (call (StopContainers name))) running else sthrow StopFirst
           end);
      targets ← slift (Ret (migrationVolumes c names));
      seach migrateVolume targets
  end.

(** ** The run *)

Definition backup_of (path : string) : string := path +:+ ".pre-vm-migration".
Definition apply_migration (path : string) (c : Config) (names : list string) : mio () :=
  _ ← (match names with [] => mret () | _ => migrateDockerState c names end);
  there ← srun (call (StatBackup (backup_of path)));
  stamp ← (match (there : result string ()) with Ok _ => srun (pbind (λ t : string, Ret ("." +:+ t)) (call TimeStamp)) | Err _ => mret "" end);
  data ← tries "read config for backup" (call (ReadConfig path));
  _ ← tries "write config backup" (call (WriteBackup (backup_of path +:+ stamp) data));
  tries "replace config" (call (WriteRaw path c)).
Definition runMigrate (path : string) : mio () :=
  c ← tries "read config" (call (ReadRaw path));
  cw ← asks (planMigration home ParseVolume lowerU yes is_file c);
  changes ← sget p_changes;
  match (changes : list change) with
  | [] => mret ()
  | _ =>
      _ ← tries "migrated configuration is invalid" (call (ValidateCopy (cw : Config * list string).1));
      if dryRun then _ ← tries "encode" (call (Encode cw.1)); mret () else
      ok ← asks (confirm true);
      if (ok : bool) then apply_migration path cw.1 cw.2 else mret ()
  end.
Definition run_of (path : string) (i : input) : prog mcall manswer (result rerr ()) :=
  pbind (λ rs, Ret rs.1) (runMigrate path {| p_in := i; p_changes := [] |}).

(** ** What the run keeps *)

Section Kept.
Context (path : string) (i : input).
Local Notation start := {| p_in := i; p_changes := [] |}.
(** The migrated configuration [c'] is one the user has agreed to. *)
Definition agreed (h : list mitem) (c' : Config) (names : list string) : Prop :=
  dryRun = false ∧ ∃ c p p', existT (ReadRaw path) (Ok c) ∈ h ∧ planMigration home ParseVolume lowerU yes is_file c start = (Ok (c', names), p) ∧
    p_changes p ≠ [] ∧ existT (ValidateCopy c') (Ok ()) ∈ h ∧ confirm true p = (Ok true, p').
Local Notation opened t fd := (existT (OpenGuestData (vmStateDir he (vt_workspace t))) (Ok fd)).
Local Notation absent t fd e := (existT (RootLstat fd (vt_dst t)) (Err e)).
Local Notation cleared t fd := (existT (RootRemoveAll fd (tmp_of (vt_dst t))) (Ok ())).
Local Notation prepared t fd := (existT (RootMkdirAll fd (Dir (vt_dst t))) (Ok ())).
Local Notation exported t fd := (existT (ExportVolume (vt_volume t) fd (tmp_of (vt_dst t))) (Ok true)).
(** The volume of [t] is copied, or there is nothing to copy, or the VM has data. *)
Definition settled (t : volumeTarget) (h : list mitem) : Prop := ∃ fd,
  existT (RootLstat fd (vt_dst t)) (Ok ()) ∈ h ∨ existT (ExportVolume (vt_volume t) fd (tmp_of (vt_dst t))) (Ok false) ∈ h ∨
  existT (RootRename fd (tmp_of (vt_dst t)) (vt_dst t)) (Ok ()) ∈ h.
Definition volumes_settled (c : Config) (names : list string) (h : list mitem) : Prop :=
  names = [] ∨ (∃ e, existT Ping (Err e) ∈ h) ∨ ∃ ts, migrationVolumes c names = Ok ts ∧ ∀ t, t ∈ ts → settled t h.
Definition ends (h t : list mitem) : Prop := ∃ h', h = h' ++ t.
Definition run_pre (h : list mitem) (c : mcall) : Prop :=
  match c with
  | RootRemoveAll fd p => ∃ t e, p = tmp_of (vt_dst t) ∧ ends h [opened t fd; absent t fd e]
  | RootMkdirAll fd p => ∃ t e, p = Dir (vt_dst t) ∧ ends h [opened t fd; absent t fd e; cleared t fd]
  | ExportVolume v fd p => ∃ t e, v = vt_volume t ∧ p = tmp_of (vt_dst t) ∧ ends h [opened t fd; absent t fd e; cleared t fd; prepared t fd]
  | RootRename fd a b => ∃ t e, a = tmp_of b ∧ b = vt_dst t ∧
      ends h [opened t fd; absent t fd e; cleared t fd; prepared t fd; exported t fd]
  | OpenGuestData _ | StopContainers _ => ∃ c names, agreed h c names
  | WriteBackup p data => (∃ c names, agreed h c names ∧ volumes_settled c names h) ∧ existT (ReadConfig path) (Ok data) ∈ h
  | WriteRaw p c => p = path ∧ (∃ names, agreed h c names ∧ volumes_settled c names h) ∧
      ∃ backup data, backup ≠ path ∧ ends h [existT (ReadConfig path) (Ok data); existT (WriteBackup backup data) (Ok ())]
  | _ => True
  end.
Definition sreach {A} (m : mio A) (s : plan) (h : list mitem) (Q : A → plan → list mitem → Prop) : Prop :=
  safe run_pre (m s) h (λ rs h', match rs.1 with Ok a => Q a rs.2 h' | Err _ => True end).
Lemma sreach_bind {A B} (m : mio A) (f : A → mio B) s h Q : sreach m s h (λ a s' h', sreach (f a) s' h' Q) → sreach (m ≫= f) s h Q.
Proof using. intros H. apply safe_bind. apply (safe_mono _ _ _ _ _ H). by intros [[a|e] s'] t. Qed.
Lemma sreach_call {A} what c (g : manswer c → result string A) s h (Q : A → plan → list mitem → Prop) :
  run_pre h c → (∀ x a, g x = Ok a → Q a s (h ++ [existT c x])) → sreach (tries what (Do c (λ x, Ret (g x)))) s h Q.
Proof using. intros Hp HQ. cbn. split; [done|]. intros x. specialize (HQ x). destruct (g x) as [a|e]; cbn; [by apply HQ|done]. Qed.
Lemma sreach_run c s h (Q : manswer c → plan → list mitem → Prop) :
  run_pre h c → (∀ x, Q x s (h ++ [existT c x])) → sreach (srun (call c)) s h Q.
Proof using. intros Hp HQ. cbn. by split. Qed.
Lemma sreach_get {A} (f : plan → A) s h (Q : A → plan → list mitem → Prop) : Q (f s) s h → sreach (sget f) s h Q.
Proof using. done. Qed.
Lemma sreach_mono {A} (m : mio A) s h (Q Q' : A → plan → list mitem → Prop) :
  sreach m s h Q → (∀ a s' t, Q a s' (h ++ t) → Q' a s' (h ++ t)) → sreach m s h Q'.
Proof using. intros H HQ. apply (safe_mono _ _ _ _ _ H). intros [[a|e] s'] t; [apply HQ|done]. Qed.
Lemma in_end (h t : list mitem) x : x ∈ h → x ∈ h ++ t.
Proof using. intros H. apply elem_of_app. by left. Qed.
Lemma agreed_lasting c names : lasting (λ h, agreed h c names).
Proof using. intros h t (Hd & c0 & p & p' & H1 & H2 & H3 & H4 & H5). split; [done|]. exists c0, p, p'. split_and!; by try apply in_end. Qed.
Lemma volume_settled_lasting t : lasting (settled t).
Proof using. intros h l (fd & H). exists fd. destruct H as [H|[H|H]]; [left|right; left|right; right]; by apply in_end. Qed.
Lemma last_in (h : list mitem) x : x ∈ h ++ [x].
Proof using. apply elem_of_app. right. by left. Qed.
Lemma ends_app h t u : ends h t → ends (h ++ u) (t ++ u).
Proof using. intros [h' ->]. exists h'. by rewrite app_assoc. Qed.
Lemma migrateVolume_settles t s h c names : agreed h c names → sreach (migrateVolume t) s h (λ _ _ h', settled t h').
Proof using.
  intros Ha. apply sreach_bind, sreach_call; [by exists c, names|]. intros x fd ->. unfold sfinally, sreach.
  apply safe_bind. apply (safe_mono _ _ _ (λ rs h', match rs.1 with Ok _ => settled t h' | Err _ => True end)).
  2: { intros rs l Hl. split; [done|]. intros []. cbn. destruct rs.1; [by apply volume_settled_lasting|done]. }
  change (sreach (migrate_into fd t) s (h ++ [opened t fd]) (λ _ _ h', settled t h')).
  apply sreach_bind, sreach_run; [done|]. intros [[]|e]; cbn [sreach]; [exists fd; left; apply last_in|].
  assert (ends ((h ++ [opened t fd]) ++ [absent t fd e]) [opened t fd; absent t fd e]) as He1 by (exists h; by rewrite -app_assoc).
  apply sreach_bind, sreach_call; [by exists t, e|]. intros x1 [] ->.
  apply sreach_bind, sreach_call; [exists t, e; split; [done|]; exact (ends_app _ _ _ He1)|]. intros x2 [] ->.
  pose proof (ends_app _ _ [cleared t fd] He1) as He2. pose proof (ends_app _ _ [prepared t fd] He2) as He3.
  apply sreach_bind, sreach_call; [by exists t, e|]. intros x3 [|] ->; cbn [negb]; [|exists fd; right; left; apply last_in].
  apply sreach_call; [exists t, e; split; [done|]; split; [done|]; exact (ends_app _ _ [exported t fd] He3)|].
  intros x4 [] ->. exists fd. right. right. apply last_in.
Qed.
Lemma volumes_settle ts s h c names : agreed h c names → sreach (seach migrateVolume ts) s h (λ _ _ h', ∀ t, t ∈ ts → settled t h').
Proof using.
  revert s h. induction ts as [|t ts IH]; intros s h Ha; [by intros t Ht%elem_of_nil|]. cbn [seach].
  apply sreach_bind. apply (sreach_mono _ _ _ _ _ (migrateVolume_settles t s h c names Ha)). intros _ s' l Ht.
  apply (sreach_mono _ _ _ _ _ (IH s' (h ++ l) (agreed_lasting _ _ _ _ Ha))). intros _ s'' l' Hts t' [->|Ht']%elem_of_cons; [by apply volume_settled_lasting|by apply Hts].
Qed.
Lemma running_reach names s h : sreach (running_of names) s h (λ _ _ _, True).
Proof using.
  revert s h. induction names as [|n names IH]; intros s h; [done|]. cbn [running_of]. apply sreach_bind, sreach_call; [done|]. intros x r _.
  apply sreach_bind. by apply (sreach_mono _ _ _ _ _ (IH _ _)).
Qed.
Lemma stop_reach l s h c names : agreed h c names → sreach (seach (λ name, tries "stop" (call (StopContainers name))) l) s h (λ _ _ _, True).
Proof using.
  revert s h. induction l as [|n l IH]; intros s h Ha; [done|]. cbn [seach]. apply sreach_bind, sreach_call; [by exists c, names|].
  intros x a _. apply IH. by apply agreed_lasting.
Qed.
Lemma asks_reach {A} (m : op plan merr A) s h (Q : A → plan → list mitem → Prop) : (∀ a s', m s = (Ok a, s') → Q a s' h) → sreach (asks m) s h Q.
Proof using. intros HQ. unfold sreach, asks. cbn. destruct (m s) as [[a|e] s'] eqn:E; [by apply HQ|done]. Qed.
Lemma docker_settles c names s h : agreed h c names → sreach (migrateDockerState c names) s h (λ _ _ h', volumes_settled c names h').
Proof using.
  intros Ha. unfold migrateDockerState. apply sreach_bind, sreach_run; [done|]. intros [[]|e].
  - apply sreach_bind. apply (sreach_mono _ _ _ _ _ (running_reach names s _)). intros running s1 l1 _.
    apply sreach_bind. assert (agreed ((h ++ [existT Ping (Ok ())]) ++ l1) c names) as Ha1 by (by apply agreed_lasting, agreed_lasting).
    apply (sreach_mono _ _ _ (λ _ _ _, True)).
    { destruct running as [|n l]; [done|]. apply sreach_bind, asks_reach. intros [|] s2 _; [by apply (stop_reach _ _ _ c names)|done]. }
    intros _ s2 l2 _. apply sreach_bind. unfold slift. cbn. destruct (migrationVolumes c names) as [ts|e] eqn:Ets; [|done].
    apply (sreach_mono _ _ _ _ _ (volumes_settle ts s2 _ c names (agreed_lasting _ _ _ _ Ha1))). intros _ s3 l3 Hts. right. right. by exists ts.
  - apply sreach_bind, asks_reach. intros [|] s1 _; [|done]. right. left. exists e. apply last_in.
Qed.
Lemma backup_differs stamp : backup_of path +:+ stamp ≠ path.
Proof using.
  unfold backup_of. intros E. apply (f_equal String.length) in E. rewrite !slength_app in E. cbn in E. lia.
Qed.
Lemma settled_volumes_lasting c names : lasting (volumes_settled c names).
Proof using.
  intros h t [H|[[e H]|(ts & Hts & H)]]; [by left|right; left; exists e; by apply in_end|right; right]. exists ts. split; [done|].
  intros v Hv. by apply volume_settled_lasting, H.
Qed.
Lemma apply_keeps c names s h : agreed h c names → sreach (apply_migration path c names) s h (λ _ _ _, True).
Proof using.
  intros Ha. apply sreach_bind. apply (sreach_mono _ _ _ (λ _ _ h', volumes_settled c names h')).
  { destruct names as [|n names]; [by left|]. by apply docker_settles. }
  intros _ s1 l1 Hv. apply (agreed_lasting _ _ _ l1) in Ha. apply sreach_bind, sreach_run; [done|]. intros there. apply sreach_bind.
  apply (sreach_mono _ _ _ (λ _ _ _, True)); [by destruct there|]. intros stamp s2 l2 _. rewrite -!app_assoc in Ha Hv |- *. 
  apply (agreed_lasting _ _ _ ([existT (StatBackup (backup_of path)) there] ++ l2)) in Ha.
  apply (settled_volumes_lasting _ _ _ ([existT (StatBackup (backup_of path)) there] ++ l2)) in Hv. rewrite -!app_assoc in Ha Hv.
  apply sreach_bind, sreach_call; [done|]. intros x data ->. apply (agreed_lasting _ _ _ [existT (ReadConfig path) (Ok data)]) in Ha.
  apply (settled_volumes_lasting _ _ _ [existT (ReadConfig path) (Ok data)]) in Hv. 
  apply sreach_bind, sreach_call; [split; [by exists c, names|apply last_in]|]. intros x [] ->.
  apply sreach_call; [|done]. split; [done|]. split; [exists names; split; [by apply agreed_lasting|by apply settled_volumes_lasting]|].
  eexists _, data. split; [apply backup_differs|]. eexists. by rewrite -app_assoc.
Qed.
Lemma runMigrate_keeps : sreach (runMigrate path) start [] (λ _ _ _, True).
Proof using.
  unfold runMigrate. apply sreach_bind, sreach_call; [done|]. intros x c ->. apply sreach_bind, asks_reach. intros [c' names] p Hp.
  apply sreach_bind, sreach_get. destruct (p_changes p) as [|ch chs] eqn:Ech; [done|].
  apply sreach_bind, sreach_call; [done|]. intros y [] ->. destruct dryRun eqn:Ed.
  - apply sreach_bind. by apply sreach_call.
  - apply sreach_bind, asks_reach. intros [|] p' Hc; [|done]. apply apply_keeps. split; [done|]. exists c, p, p'. split_and!; [|done|by rewrite Ech| |done].
    + apply elem_of_app. left. by left.
    + apply last_in.
Qed.
End Kept.
End Run.

(** *** An example *)

Definition v1_host : host_env := {|
  he_exe := Some "/bin/jailoc"; he_home := Some "/h"; he_tmp := "/tmp"; he_ssh_auth_sock := ""; he_is_socket := λ _, true;
  he_is_socket_launched := λ _, true; he_gpg_launch := false; he_gpgconf := None; he_cli_config := None; he_ca_bundle := false;
  he_idmap := None; he_uint32 := λ z, u32 z |}.
(** A daemon with both volumes and a running workspace, and a VM that has a
    cache already. *)
Definition v1_env (c : mcall) (_ : list mitem) : manswer c :=
  match c with
  | ReadRaw _ => Ok v1_config
  | OpenGuestData _ => Ok 3%Z
  | RunningContainers _ | ExportVolume _ _ _ => Ok true
  | ReadConfig _ => Ok "mode = server"
  | Encode _ => Ok ""
  | TimeStamp => "t"
  | CloseRoot _ => ()
  | RootLstat _ p => if String.eqb p "home/cache" then Ok () else Err "no such file"
  | StatBackup _ => Err "no such file"
  | ValidateCopy _ | WriteRaw _ _ | WriteBackup _ _ | Ping | StopContainers _ | RootRemoveAll _ _ | RootMkdirAll _ _ | RootRename _ _ _ => Ok ()
  end.
Definition v1_path : string := "/c.toml".
Definition v1_run : prog mcall manswer (result rerr ()) :=
  run_of (Some "/h") simple_volume (λ s, s) false false v1_file v1_host v1_path {| in_lines := in_lines v1_answers ++ ["y"; "yes"]; in_rest := "" |}.
Definition v1_history : list mitem := (exec v1_env v1_run []).2.
Definition is_replace (i : mitem) : bool := match i with existT (WriteRaw _ _) _ => true | _ => false end.
