(* ===== verification/ImagePrune.v ===== *)
(** * Pruning the image cache and the Docker images

    [PruneImages] of [src/internal/vm/prune.go], which drops the unpacked images
    no reference points to, and [PruneImages] with [pruneCandidates] of
    [src/internal/docker/prune.go], as programs over the calls they make. *)

From S2P Require Import Prelude GoStrings GoPath GoTime Prog.
From S2P Require VmProc VmFlow Vm.
Open Scope string_scope.
Open Scope list_scope.
Open Scope Z_scope.

(** ** The image cache *)

Record dirEntry := { de_Name : string; de_IsDir : bool }.
Record evicted := { Refs : Z; Images : Z; Layers : Z }.
Inductive pcall :=
| MkdirAll (p : string) | Chmod (p : string) | OpenLock (p : string) | FlockExclusive (fd : Z) | CloseLock (fd : Z) | TimeNow | ReadDir (dir : string) | ReadFile (p : string) | ModTime (p : string)
| Remove (p : string) | RemoveAll (p : string) | DirsUnder (p : string) | PruneSnapshots (dir : string) (grace : Z) | EvictLayers (dir : string) (unused : Z).
(** [ReadDir] also says whether the directory is missing; [EvictLayers] counts
    what it removed before it failed. *)
Definition panswer (c : pcall) : Type :=
  match c with
  | TimeNow => Z
  | OpenLock _ => result () Z
  | CloseLock _ => ()
  | DirsUnder _ => list string
  | ReadDir _ => result bool (list dirEntry)
  | ReadFile _ => result () string
  | ModTime _ => result () Z
  | EvictLayers _ _ => Z * bool
  | _ => result () ()
  end.
Notation pitem := (item pcall panswer).
Notation pio := (io pcall panswer string).
Definition pask (c : pcall) : pio (panswer c) := run (call c).
Definition fails_as {E A} (what : string) (p : prog pcall panswer (result E A)) : pio A := wrap (λ _, what) p.

Definition pruneGrace : Z := 3600 * VmProc.second.
Definition layerUnusedLimit : Z := 14 * 24 * 3600 * VmProc.second.
(** [parseRef]: the reference and its digest. *)
Definition parseRef (data : string) : string * string :=
  let content := TrimSpace data in
  match cut content Vm.tab with Some (before, after) => (before, after) | None => ("", content) end.
Definition workspace_ref (ref : string) : bool := HasPrefix ref (VmFlow.rootfsRepo +:+ ":").

(** [RemoveTree]: a second attempt with every directory made writable. *)
Definition RemoveTree (p : string) : pio () :=
  r ← pask (RemoveAll p);
  match (r : result () ()) with
  | Ok _ => mret ()
  | Err _ =>
      ds ← pask (DirsUnder p);
      _ ← for_each (λ d, ignore (fails_as "" (call (Chmod d)))) (ds : list string);
      fails_as "remove" (call (RemoveAll p))
  end.
Section Prune.
Context (cacheDir : string) (keep : gset string).
Definition refsDir : string := JoinPath [cacheDir; "refs"].
Definition ref_path (name : string) : string := JoinPath [refsDir; name].
Definition image_path (name : string) : string := JoinPath [cacheDir; name].
(** Changed before [cutoff]; what cannot be examined is young. *)
Definition old (cutoff : Z) (path : string) : pio bool :=
  m ← pask (ModTime path); mret (match (m : result () Z) with Ok t => t <? cutoff | Err _ => false end).
(** The references removed so far, and the digests still pointed to. *)
Fixpoint prune_refs (cutoff : Z) (es : list dirEntry) (n : Z) (live : gset string) : pio (Z * gset string) :=
  match es with
  | [] => mret (n, live)
  | e :: es =>
      let path := ref_path (de_Name e) in
      r ← pask (ReadFile path);
      match (r : result () string) with
      | Err _ => prune_refs cutoff es n live
      | Ok data =>
          if de_IsDir e then prune_refs cutoff es n live else
          let '(ref, digest) := parseRef data in
          o ← (if workspace_ref ref && negb (bool_decide (ref ∈ keep)) then old cutoff path else mret false);
          if (o : bool) then _ ← fails_as "remove image reference" (call (Remove path)); prune_refs cutoff es (n + 1) live
          else prune_refs cutoff es n (if String.eqb digest "" then live else {[digest]} ∪ live)
      end
  end.
(** [strings.Replace(name, "-", ":", 1)]. *)
Definition digest_of (name : string) : string := Replace1 name "-" ":".
Fixpoint prune_images (cutoff : Z) (live : gset string) (es : list dirEntry) (n : Z) : pio Z :=
  match es with
  | [] => mret n
  | e :: es =>
      let name := de_Name e in
      if negb (de_IsDir e) || negb (HasPrefix name "sha256-") || bool_decide (digest_of name ∈ live) then prune_images cutoff live es n else
      o ← old cutoff (image_path name);
      if negb (o : bool) then prune_images cutoff live es n else
      _ ← RemoveTree (image_path name);
      prune_images cutoff live es (n + 1)
  end.
Definition prune_locked : pio evicted :=
  now ← pask TimeNow;
  let cutoff := (now : Z) - pruneGrace in
  r ← pask (ReadDir refsDir);
  entries ← match (r : result bool (list dirEntry)) with
            | Ok es => mret es
            | Err missing => if missing then mret [] else throw "read image cache references"
            end;
  nl ← prune_refs cutoff entries 0 ∅;
  dirs ← fails_as "read image cache" (call (ReadDir cacheDir));
  images ← prune_images cutoff (nl : Z * gset string).2 dirs 0;
  _ ← fails_as "remove unused image snapshots" (call (PruneSnapshots cacheDir pruneGrace));
  ev ← pask (EvictLayers (JoinPath [cacheDir; "layers"]) layerUnusedLimit);
  if (ev : Z * bool).2 then throw "remove unused image layers"
  else mret {| Refs := nl.1; Images := images; Layers := ev.1 |}.
Definition lockCache : pio Z :=
  _ ← fails_as "create image cache" (call (MkdirAll cacheDir));
  _ ← fails_as "make image cache private" (call (Chmod cacheDir));
  fd ← fails_as "open image cache lock" (call (OpenLock (JoinPath [cacheDir; ".jailoc.lock"])));
  r ← pask (FlockExclusive fd);
  match (r : result () ()) with Ok _ => mret fd | Err _ => _ ← pask (CloseLock fd); throw "lock image cache" end.
Definition PruneImages : pio evicted :=
  fd ← lockCache;
  finally prune_locked (call (CloseLock fd)).

(** ** What pruning keeps *)

Definition listing (es : list dirEntry) (h : list pitem) : Prop :=
  existT (ReadDir refsDir) (Ok es) ∈ h ∨ es = [] ∧ existT (ReadDir refsDir) (Err true) ∈ h.
(** Not changed within the hour. *)
Definition aged (p : string) (h : list pitem) : Prop :=
  ∃ now t, existT TimeNow now ∈ h ∧ existT (ModTime p) (Ok t) ∈ h ∧ t < now - pruneGrace.
(** How the file of an entry was read, and that it does not point to [d]. *)
Definition points_elsewhere (d : string) (h : list pitem) (e : dirEntry) : Prop :=
  ∃ r, existT (ReadFile (ref_path (de_Name e))) r ∈ h ∧
    match r with
    | Err _ => True
    | Ok data => de_IsDir e = true ∨ (parseRef data).2 ≠ d ∨ existT (Remove (ref_path (de_Name e))) (Ok ()) ∈ h
    end.
Definition prune_pre (h : list pitem) (c : pcall) : Prop :=
  match c with
  | Remove p => ∃ es e data, listing es h ∧ e ∈ es ∧ de_IsDir e = false ∧ p = ref_path (de_Name e) ∧
      existT (ReadFile p) (Ok data) ∈ h ∧ workspace_ref (parseRef data).1 = true ∧ (parseRef data).1 ∉ keep ∧ aged p h
  | RemoveAll p => ∃ es x, p = image_path ("sha256-" +:+ x) ∧ aged p h ∧ listing es h ∧
      ∀ e, e ∈ es → points_elsewhere ("sha256:" +:+ x) h e
  | _ => True
  end.
Local Notation ends_with m h Q := (after prune_pre m h Q).
Lemma after_ask {A} c (f : panswer c → pio A) h (Q : A → list pitem → Prop) :
  prune_pre h c → (∀ x, ends_with (f x) (h ++ [existT c x]) Q) → ends_with (pask c ≫= f) h Q.
Proof. intros Hp Hf. cbn. split; [done|]. exact Hf. Qed.
Lemma after_fails {E A B} what c (g : panswer c → result E A) (f : A → pio B) h (Q : B → list pitem → Prop) :
  prune_pre h c → (∀ x a, g x = Ok a → ends_with (f a) (h ++ [existT c x]) Q) → ends_with (fails_as what (Do c (λ x, Ret (g x))) ≫= f) h Q.
Proof. intros Hp Hf. cbn. split; [done|]. intros x. specialize (Hf x). destruct (g x) as [a|e]; [by apply Hf|done]. Qed.
Lemma listing_lasting es : lasting (listing es).
Proof. intros h t [H|[He H]]; [left|right; split; [done|]]; apply elem_of_app; by left. Qed.
Lemma aged_lasting p : lasting (aged p).
Proof. intros h t (now & m & H1 & H2 & H3). exists now, m. split_and!; [apply elem_of_app; by left..|done]. Qed.
Lemma points_lasting d e : lasting (λ h, points_elsewhere d h e).
Proof.
  intros h t (r & H1 & H2). exists r. split; [apply elem_of_app; by left|]. destruct r as [data|]; [|done]. destruct H2 as [H|[H|H]]; [by left|right; by left|].
  right. right. apply elem_of_app. by left.
Qed.
Lemma old_aged now p h : existT TimeNow now ∈ h → ends_with (old (now - pruneGrace) p) h (λ b h', b = true → aged p h').
Proof.
  intros Hn. apply after_ask; [done|]. intros [t|[]]; cbn; [|done]. intros Ht%Z.ltb_lt. exists now, t. split_and!; [apply elem_of_app; by left| |done].
  apply elem_of_app. right. by left.
Qed.
Definition settled (live : gset string) (h : list pitem) (e : dirEntry) : Prop := ∀ d, d ≠ "" → d ∉ live → points_elsewhere d h e.
Lemma settled_lasting live e : lasting (λ h, settled live h e).
Proof. intros h t H d Hd Hl. apply points_lasting. by apply H. Qed.
Lemma settled_more live live' h e : live ⊆ live' → settled live h e → settled live' h e.
Proof. intros Hs H d Hd Hl. apply H; [done|]. set_solver. Qed.
Lemma prune_refs_settle now es0 es n live h : existT TimeNow now ∈ h → listing es0 h → (∀ e, e ∈ es → e ∈ es0) →
  ends_with (prune_refs (now - pruneGrace) es n live) h (λ nl h', live ⊆ nl.2 ∧ ∀ e, e ∈ es → settled nl.2 h' e).
Proof.
  revert n live h. induction es as [|e es IH]; intros n live h Hn Hl Hes; cbn [prune_refs].
  { apply after_ret. split; [done|]. by intros e He%elem_of_nil. }
  assert (∀ n1 live1 t, live ⊆ live1 → settled live1 (h ++ t) e →
    ends_with (prune_refs (now - pruneGrace) es n1 live1) (h ++ t) (λ nl h', live ⊆ nl.2 ∧ ∀ e', e' ∈ e :: es → settled nl.2 h' e')) as Hgo.
  { intros n1 live1 t Hs He. apply (after_mono _ _ _ (λ nl h', live1 ⊆ nl.2 ∧ ∀ e', e' ∈ es → settled nl.2 h' e')).
    { apply IH; [apply elem_of_app; by left|by apply listing_lasting|]. intros e' He'. apply Hes. by right. }
    intros nl t' [Hsub H]. split; [set_solver|]. intros e' [->|He']%elem_of_cons; [|by apply H].
    apply (settled_more live1); [done|]. by apply settled_lasting. }
  apply after_ask; [done|]. intros r. set (i := existT _ r).
  assert (∀ d, (match r with Err _ => True | Ok data => de_IsDir e = true ∨ (parseRef data).2 ≠ d end) → points_elsewhere d (h ++ [i]) e) as Hr.
  { intros d Hd. exists r. split; [apply elem_of_app; right; by left|]. destruct r; [|done]. destruct Hd; [by left|right; by left]. }
  destruct r as [data|err]; [|apply Hgo; [done|intros d _ _; by apply Hr]].
  destruct (de_IsDir e) eqn:Edir; [apply Hgo; [done|intros d _ _; apply Hr; by left]|]. destruct (parseRef data) as [ref digest] eqn:Ep.
  apply (after_bind _ _ _ _ (λ b h', b = true → workspace_ref ref = true ∧ ref ∉ keep ∧ aged (ref_path (de_Name e)) h')).
  { destruct (workspace_ref ref); cbn [andb]; [|by apply after_ret]. case_bool_decide as Hk; cbn [negb]; [by apply after_ret|].
    apply (after_mono _ _ _ _ _ (old_aged now _ _ ltac:(apply elem_of_app; left; exact Hn))). intros b t Hb Ht. split_and!; [done|done|by apply Hb]. }
  intros [|] t Hb; rewrite -app_assoc.
  - destruct (Hb eq_refl) as (Hw & Hk & Ha). rewrite -app_assoc in Ha. apply after_fails.
    + exists es0, e, data. rewrite Ep. split_and!; [by apply listing_lasting|apply Hes; by left|done|done|apply elem_of_app; right; by left|done|done|done].
    + intros x [] ->. rewrite -app_assoc. apply Hgo; [done|]. intros d _ _. exists (Ok data).
      split; [apply elem_of_app; right; by left|]. right. right. apply elem_of_app. right. apply elem_of_app. right. by left.
  - apply Hgo; [destruct (String.eqb _ _); set_solver|]. intros d Hd Hlive. rewrite app_assoc. apply points_lasting, Hr. right. cbn.
    intros <-. destruct (String.eqb_spec digest ""); [done|]. set_solver.
Qed.
Lemma image_name name : HasPrefix name "sha256-" = true → ∃ x, name = "sha256-" +:+ x ∧ digest_of name = "sha256:" +:+ x.
Proof. intros [x ->]%HasPrefix_spec. exists x. by split. Qed.
Lemma tree_removed p h (Q : list pitem → Prop) : lasting Q → Q h → (∀ t, prune_pre (h ++ t) (RemoveAll p)) → ends_with (RemoveTree p) h (λ _ h', Q h').
Proof.
  intros HQ Hq Hp. unfold RemoveTree. apply after_ask; [specialize (Hp []); by rewrite app_nil_r in Hp|]. intros [[]|[]]; [by apply after_ret, HQ|].
  apply after_ask; [rewrite //=|]. intros ds. apply (after_bind _ _ _ _ (λ _ h', Q h')).
  { apply (after_calls _ (λ c, match c with Chmod _ => True | _ => False end)); [|by intros t []|done|by apply HQ, HQ].
    apply calls_each. intros d. unfold ignore, fails_as, Prog.wrap. apply calls_bind; [apply calls_wrap; cbn; by split|done]. }
  intros _ t Ht. rewrite -!app_assoc in Ht |- *. split; [apply Hp|]. intros [[]|[]]; [by apply HQ|done].
Qed.
Lemma prune_images_keep now es live ds n h : existT TimeNow now ∈ h → listing es h → (∀ e, e ∈ es → settled live h e) →
  ends_with (prune_images (now - pruneGrace) live ds n) h (λ _ _, True).
Proof.
  revert n h. induction ds as [|e ds IH]; intros n h Hn Hl Hs; [done|]. cbn [prune_images].
  assert (∀ n' t, ends_with (prune_images (now - pruneGrace) live ds n') (h ++ t) (λ _ _, True)) as Hgo.
  { intros n' t. apply IH; [apply elem_of_app; by left|by apply listing_lasting|]. intros e' He'. by apply settled_lasting, Hs. }
  destruct (negb (de_IsDir e) || negb (HasPrefix (de_Name e) "sha256-") || bool_decide (digest_of (de_Name e) ∈ live)) eqn:Eg.
  { specialize (Hgo n []). by rewrite app_nil_r in Hgo. }
  apply orb_false_iff in Eg as [[_ Hp%negb_false_iff]%orb_false_iff Hd%bool_decide_eq_false]. apply image_name in Hp as (x & Hx & Hdx). rewrite {}Hdx in Hd.
  apply (after_bind _ _ _ _ _ _ (old_aged now _ _ Hn)). intros [|] t Ha; cbn [negb]; [|apply Hgo]. specialize (Ha eq_refl).
  apply (after_bind _ _ _ _ (λ _ _, True)).
  - apply (tree_removed _ _ (λ _, True)); [done|done|]. intros t'. exists es, x. rewrite Hx. split; [done|]. rewrite Hx in Ha.
    split; [by apply aged_lasting|]. rewrite -app_assoc. split; [by apply listing_lasting|]. intros e' He'. apply points_lasting. apply (Hs e' He'); [done|exact Hd].
  - intros _ t' _. rewrite -app_assoc. apply Hgo.
Qed.
Lemma prune_locked_keeps h : ends_with prune_locked h (λ _ _, True).
Proof.
  unfold prune_locked. apply after_ask; [done|]. intros now. apply after_ask; [done|]. intros r. set (h1 := (h ++ _) ++ _).
  assert (existT TimeNow now ∈ h1) as Hn by (apply elem_of_app; left; apply elem_of_app; right; by left).
  apply (after_bind _ _ _ _ (λ es h', existT TimeNow now ∈ h' ∧ listing es h')).
  { destruct r as [es|[|]]; [|split; [done|]|done]; [split; [done|]; left; apply elem_of_app; right; by left|]. right. split; [done|]. apply elem_of_app. right. by left. }
  intros es t [Hn1 Hl]. apply (after_bind _ _ _ _ _ _ (prune_refs_settle now es es 0 ∅ _ Hn1 Hl (λ _ H, H))). intros [n live] t1 [_ Hs].
  apply after_fails; [done|]. intros x dirs ->. apply (after_bind _ _ _ _ (λ _ _, True)).
  { apply (prune_images_keep now es); [apply elem_of_app; left; apply elem_of_app; by left|by apply listing_lasting, listing_lasting|].
    intros e He. by apply settled_lasting, Hs. }
  intros images t2 _. apply after_fails; [done|]. intros y [] _. apply after_ask; [done|]. by intros [n' [|]].
Qed.
(** C22: no image in use is lost. Whatever the cache holds and whatever fails, a
    reference is only removed when it names a workspace image that is not to be
    kept, and an unpacked image only when every reference was read, or could not
    be, and points elsewhere or was removed; both only when they have not changed
    for an hour. *)
Theorem prune_keeps (env : ∀ c, list pitem → panswer c) h1 c x h2 :
  (exec env PruneImages []).2 = h1 ++ existT c x :: h2 → prune_pre h1 c.
Proof.
  intros E. assert (ends_with PruneImages [] (λ _ _, True)) as Hs.
  { unfold PruneImages. apply (after_bind _ _ _ _ (λ _ _, True)).
    - unfold lockCache. apply after_fails; [done|]. intros y1 [] _. apply after_fails; [done|]. intros y2 [] _. apply after_fails; [done|]. intros y3 fd _.
      apply after_ask; [done|]. intros [[]|[]]; [done|]. by apply after_ask.
    - intros fd t _. apply (after_finally _ (λ c, match c with CloseLock _ => True | _ => False end)); [apply prune_locked_keeps|cbn; by split|by intros t' []|done]. }
  destruct (exec_safe prune_pre env _ _ _ Hs) as (t & Ht & _ & Hp). cbn in Ht. rewrite Ht in E. exact (Hp h1 c x h2 E).
Qed.
End Prune.

(** *** Two references, one to be kept *)

Definition shelf : list (string * string) :=
  [("a", "jailoc.local/rootfs:1" +:+ Vm.tab +:+ "sha256:aa"); ("b", "jailoc.local/rootfs:2" +:+ Vm.tab +:+ "sha256:bb")].
Definition shelf_env (unreadable : bool) (c : pcall) (_ : list pitem) : panswer c :=
  match c with
  | TimeNow => 5 * pruneGrace
  | ReadDir p => if String.eqb p "/c/refs" then Ok [{| de_Name := "a"; de_IsDir := false |}; {| de_Name := "b"; de_IsDir := false |}]
                 else Ok [{| de_Name := "sha256-aa"; de_IsDir := true |}; {| de_Name := "sha256-bb"; de_IsDir := true |}; {| de_Name := "layers"; de_IsDir := true |}]
  | ReadFile p => if unreadable && String.eqb p "/c/refs/a" then Err () else match list_find (λ f, JoinPath ["/c"; "refs"; f.1] = p) shelf with Some (_, f) => Ok f.2 | None => Err () end
  | ModTime _ => Ok 0
  | EvictLayers _ _ => (2, false)
  | OpenLock _ => Ok 3
  | CloseLock _ => ()
  | DirsUnder _ => []
  | MkdirAll _ | Chmod _ | FlockExclusive _ | Remove _ | RemoveAll _ | PruneSnapshots _ _ => Ok ()
  end.
Definition shelf_run (unreadable : bool) : result string evicted * list pitem :=
  exec (shelf_env unreadable) (PruneImages "/c" {["jailoc.local/rootfs:1"]}) [].
Definition removal (i : pitem) : option string := match i with existT (Remove p) _ | existT (RemoveAll p) _ => Some p | _ => None end.
Lemma prune_keeps_witness :
  (shelf_run false).1 = Ok {| Refs := 1; Images := 1; Layers := 2 |} ∧ omap (M:=list) removal (shelf_run false).2 = ["/c/refs/b"; "/c/sha256-bb"] ∧
  ∃ h1 x h2, (shelf_run false).2 = h1 ++ existT (RemoveAll "/c/sha256-bb") x :: h2 ∧ prune_pre "/c" {["jailoc.local/rootfs:1"]} h1 (RemoveAll "/c/sha256-bb").
Proof.
  split; [vm_compute; reflexivity|]. split; [vm_compute; reflexivity|].
  assert ((shelf_run false).2 = take 12 (shelf_run false).2 ++ existT (RemoveAll "/c/sha256-bb") (Ok ()) :: drop 13 (shelf_run false).2) as E by (vm_compute; reflexivity).
  eexists _, _, _. split; [exact E|].
  exact (prune_keeps "/c" {["jailoc.local/rootfs:1"]} (shelf_env false) _ _ _ _ E).
Defined.
(** A reference to keep that cannot be read does not keep its image. *)
Example unreadable_reference : omap (M:=list) removal (shelf_run true).2 = ["/c/refs/b"; "/c/sha256-aa"; "/c/sha256-bb"].
Proof. vm_compute. reflexivity. Qed.

(** ** Docker images *)

(** [image.Summary]: the ID, the second of its creation and the tags. *)
Record summary := { ID : string; Created : Z; RepoTags : list string }.
Definition ImageLabel : string := "com.github.seznam.jailoc".
Inductive dcall := NewClient | CloseClient | ImageList (filter value : string) | Now | ImageRemove (ref : string).
Definition danswer (c : dcall) : Type :=
  match c with ImageList _ _ => result () (list summary) | Now => Z | CloseClient => () | _ => result () () end.
Notation ditem := (item dcall danswer).
Notation dio := (io dcall danswer string).
Definition untagged : string := "<none>:<none>".
(** The tags of an image up to one outside the jailoc-* repositories. *)
Fixpoint own_tags (tags : list string) : list string * bool :=
  match tags with
  | [] => ([], false)
  | t :: tags =>
      if String.eqb t untagged then own_tags tags else
      if negb (HasPrefix t "jailoc-") then ([], true) else let '(ts, foreign) := own_tags tags in (t :: ts, foreign)
  end.
Definition prune_refs_of (img : summary) : list string :=
  let '(tags, foreign) := own_tags (RepoTags img) in
  if foreign then [] else match tags with [] => [ID img] | _ => tags end.
Fixpoint candidates (images : list summary) (keep : gset string) (cutoff : Z) (seen : gset string) : list string :=
  match images with
  | [] => []
  | img :: images =>
      if bool_decide (ID img ∈ seen) || bool_decide (ID img ∈ keep) || (cutoff <? Created img * VmProc.second) then candidates images keep cutoff seen
      else prune_refs_of img ++ candidates images keep cutoff ({[ID img]} ∪ seen)
  end.
Definition pruneCandidates (images : list summary) (keep : gset string) (cutoff : Z) : list string := candidates images keep cutoff ∅.
Fixpoint remove_all (refs : list string) (removed : Z) (errs : list string) : dio (Z * list string) :=
  match refs with
  | [] => mret (removed, errs)
  | ref :: refs =>
      r ← run (call (ImageRemove ref));
      match (r : result () ()) with
      | Ok _ => remove_all refs (removed + 1) errs
      | Err _ => remove_all refs removed (errs ++ [ref])
      end
  end.
(** The images removed, and the references that could not be. *)
Definition PruneDocker (keep : gset string) (grace : Z) : dio (Z * list string) :=
  _ ← wrap (λ _, "create Docker Engine client") (call NewClient);
  finally (
    l1 ← wrap (λ _, "list jailoc images") (call (ImageList "label" ImageLabel));
    l2 ← wrap (λ _, "list jailoc images") (call (ImageList "reference" "jailoc-*"));
    now ← run (call Now);
    remove_all (pruneCandidates ((l1 : list summary) ++ l2) keep ((now : Z) - grace)) 0 []) (call CloseClient).

Lemma own_tags_spec tags : own_tags tags =
  if existsb (λ t, negb (String.eqb t untagged) && negb (HasPrefix t "jailoc-")) tags then ((own_tags tags).1, true)
  else (filter (λ t, t ≠ untagged) tags, false).
Proof.
  induction tags as [|t tags IH]; [done|]. cbn [own_tags existsb]. destruct (String.eqb_spec t untagged) as [->|Hn]; cbn [negb andb orb].
  - rewrite IH. destruct (existsb _ tags); [by destruct (own_tags tags)|]. rewrite filter_cons_False //.
  - destruct (HasPrefix t "jailoc-"); cbn [negb]; [|done]. rewrite filter_cons_True // {1}IH. destruct (existsb _ tags); cbn; [|done].
    destruct (own_tags tags) as [ts f]. cbn. done.
Qed.
(** [r] names an image that may go: not kept, old, with jailoc's tags only. *)
Definition removable (keep : gset string) (cutoff : Z) (img : summary) (r : string) : Prop :=
  ID img ∉ keep ∧ Created img * VmProc.second ≤ cutoff ∧ (∀ t, t ∈ RepoTags img → t = untagged ∨ HasPrefix t "jailoc-" = true) ∧
  (r ∈ RepoTags img ∧ r ≠ untagged ∨ r = ID img ∧ ∀ t, t ∈ RepoTags img → t = untagged).
Lemma prune_refs_of_spec img r : r ∈ prune_refs_of img ↔
  (∀ t, t ∈ RepoTags img → t = untagged ∨ HasPrefix t "jailoc-" = true) ∧
  (r ∈ RepoTags img ∧ r ≠ untagged ∨ r = ID img ∧ ∀ t, t ∈ RepoTags img → t = untagged).
Proof.
  unfold prune_refs_of. rewrite own_tags_spec. destruct (existsb _ (RepoTags img)) eqn:E.
  - split; [by intros ?%elem_of_nil|]. intros [H _]. apply existsb_exists in E as (t & Ht%list_elem_of_In & Hb). destruct (H t Ht) as [->|Hp]; [done|].
    rewrite Hp andb_false_r in Hb. done.
  - assert (∀ t, t ∈ RepoTags img → t = untagged ∨ HasPrefix t "jailoc-" = true) as Hall.
    { intros t Ht. destruct (String.eqb_spec t untagged) as [->|Hn]; [by left|right]. destruct (HasPrefix t "jailoc-") eqn:Ep; [done|].
      apply not_true_iff_false in E. destruct E. apply existsb_exists. exists t. split; [by apply list_elem_of_In|]. rewrite Ep. by destruct (String.eqb_spec t untagged). }
    destruct (filter _ (RepoTags img)) as [|t ts] eqn:Ef.
    + assert (∀ t, t ∈ RepoTags img → t = untagged) as Hnone.
      { intros t Ht. destruct (decide (t = untagged)); [done|]. assert (t ∈ filter (λ t, t ≠ untagged) (RepoTags img)) as Hi by (by apply list_elem_of_filter). rewrite Ef in Hi. by apply elem_of_nil in Hi. }
      rewrite list_elem_of_singleton. split; [intros ->; split; [done|by right]|]. intros [_ [[Hr Hn]|[-> _]]]; [by destruct Hn; apply Hnone|done].
    + rewrite -Ef list_elem_of_filter. split; [intros [Hn Hr]; split; [done|by left]|]. intros [_ [[Hr Hn]|[-> Hn]]]; [done|].
      assert (t ∈ filter (λ t, t ≠ untagged) (RepoTags img)) as [Hx Hy]%list_elem_of_filter by (rewrite Ef; by left). by destruct Hx; apply Hn.
Qed.
Lemma candidates_removable images keep cutoff seen r : r ∈ candidates images keep cutoff seen → ∃ img, img ∈ images ∧ removable keep cutoff img r.
Proof.
  revert seen. induction images as [|img images IH]; intros seen; cbn [candidates]; [by intros ?%elem_of_nil|].
  destruct (_ || _ || _) eqn:Eg; [intros (img' & Hi & H)%IH; exists img'; split; [by right|done]|].
  apply orb_false_iff in Eg as [[_ Hk%bool_decide_eq_false]%orb_false_iff Hc%Z.ltb_ge]. intros [Hr%prune_refs_of_spec|(img' & Hi & H)%IH]%elem_of_app.
  - exists img. split; [by left|]. by split_and!; [| |apply Hr..].
  - exists img'. split; [by right|done].
Qed.
Lemma removable_candidate images keep cutoff img r :
  (∀ a b, a ∈ images → b ∈ images → ID a = ID b → a = b) → img ∈ images → removable keep cutoff img r → r ∈ pruneCandidates images keep cutoff.
Proof.
  intros Huniq Hi (Hk & Hc & Hr). assert (∀ l seen, (∀ a, a ∈ l → a ∈ images) → ID img ∉ seen → img ∈ l → r ∈ candidates l keep cutoff seen) as H.
  { induction l as [|a l IH]; intros seen Hl Hs Hin; [by apply elem_of_nil in Hin|]. cbn [candidates]. destruct (decide (ID a = ID img)) as [He|He].
    - assert (a = img) as -> by (apply Huniq; [apply Hl; by left|done|done]). rewrite !bool_decide_false //. destruct (Z.ltb_spec cutoff (Created img * VmProc.second)); [lia|].
      apply elem_of_app. left. by apply prune_refs_of_spec.
    - apply elem_of_cons in Hin as [->|Hin]; [done|]. assert (∀ b, b ∈ l → b ∈ images) as Hl' by (intros b Hb; apply Hl; by right).
      destruct (_ || _ || _); [by apply IH|]. apply elem_of_app. right. apply IH; [done| |done]. set_solver. }
  apply H; [done|set_solver|done].
Qed.
Definition docker_pre (keep : gset string) (grace : Z) (h : list ditem) (c : dcall) : Prop :=
  match c with
  | ImageRemove ref => ∃ f v l img now, existT (ImageList f v) (Ok l) ∈ h ∧ img ∈ l ∧ existT Now now ∈ h ∧ removable keep (now - grace) img ref
  | _ => True
  end.
(** Only images of jailoc that nobody uses are removed from the daemon: every
    reference that is removed belongs to a listed image that is not to be kept,
    is older than the grace period, and has no tag of anything else. *)
Theorem PruneDocker_removes keep grace env h1 c x h2 :
  (exec env (PruneDocker keep grace) []).2 = h1 ++ existT c x :: h2 → docker_pre keep grace h1 c.
Proof.
  intros E. assert (safe (docker_pre keep grace) (PruneDocker keep grace) [] (λ _ _, True)) as Hs.
  { cbn. split; [done|]. intros [[]|[]]; [|done]. cbn. split; [done|]. intros [l1|[]]; cbn; [|by split]. split; [done|]. intros [l2|[]]; cbn; [|by split].
    split; [done|]. intros now. apply safe_bind. set (h := [_; _; _; _]).
    assert (∀ refs n errs t, (∀ r, r ∈ refs → ∃ img, img ∈ l1 ++ l2 ∧ removable keep (now - grace) img r) →
      safe (docker_pre keep grace) (remove_all refs n errs) (h ++ t) (λ _ _, True)) as Hgo.
    { induction refs as [|r refs IH]; intros n errs t Hr; [done|]. cbn [remove_all]. split.
      - destruct (Hr r ltac:(by left)) as (img & Hi & Hrem). apply elem_of_app in Hi as [Hi|Hi].
        + exists "label", ImageLabel, l1, img, now. split_and!; [|done| |done]; apply elem_of_app; left; unfold h; set_solver.
        + exists "reference", "jailoc-*", l2, img, now. split_and!; [|done| |done]; apply elem_of_app; left; unfold h; set_solver.
      - intros y. rewrite -app_assoc. assert (∀ r', r' ∈ refs → ∃ img, img ∈ l1 ++ l2 ∧ removable keep (now - grace) img r') as Hr' by (intros r' H'; apply Hr; by right).
        destruct y as [[]|[]]; cbn; by apply IH. }
    specialize (Hgo (pruneCandidates (l1 ++ l2) keep (now - grace)) 0 [] []). rewrite app_nil_r in Hgo.
    apply (safe_mono _ _ _ _ _ (Hgo ltac:(intros r Hr; by apply candidates_removable in Hr))). intros res t _. cbn. by split. }
  destruct (exec_safe _ env _ _ _ Hs) as (t & Ht & _ & Hp). cbn in Ht. rewrite Ht in E. exact (Hp h1 c x h2 E).
Qed.
