(* ===== verification/Sessions.v ===== *)
(** * Opening, listing and stopping sessions in the guest

    [src/internal/guest/session/store.go], [Create] and [Open] of [holder.go] and
    the [session open] command of [src/internal/guest/session_linux.go] as
    programs over their calls. The holder of a session, which runs on its own,
    is [SessionHolder]; here it is a process that is started and waited for. *)

From S2P Require Import Prelude GoStrings GoPath GoSort Prog.
From S2P Require VmProc.
Open Scope string_scope.
Open Scope list_scope.
Open Scope Z_scope.

Record Info := {
  ID : string; Name : string; Dir : string; Argv : list string; Env : list string; Rows : Z; Cols : Z;
  PID : Z; Created : Z; LastAttach : Z; Attached : bool
}.
Definition with_pid (i : Info) (p : Z) : Info := {|
  ID := ID i; Name := Name i; Dir := Dir i; Argv := Argv i; Env := Env i; Rows := Rows i; Cols := Cols i; PID := p;
  Created := Created i; LastAttach := LastAttach i; Attached := Attached i |}.
Definition with_attach (i : Info) (t : Z) (on : bool) : Info := {|
  ID := ID i; Name := Name i; Dir := Dir i; Argv := Argv i; Env := Env i; Rows := Rows i; Cols := Cols i; PID := PID i;
  Created := Created i; LastAttach := t; Attached := on |}.
Record Options := { o_Name : string; o_Dir : string; o_Argv : list string; o_Env : list string; o_Rows : Z; o_Cols : Z }.
Inductive serr := NoEntry | ReadFailed | InvalidID | NotRunning | CallFailed (what : string) | NoProgram | HolderExited | HolderLate.
(** What the wait for a holder sees. *)
Inductive holder_event := Exited | Deadline | Tick.
(** The entry of a session is read and written with its JSON ([WriteEntry] is
    atomic: [AtomicFile]); [Kill0] is the signal 0. *)
Inductive scall :=
| MkdirAll | OpenLock | FlockExclusive (fd : Z) | CloseLock (fd : Z)
| ReadDir | ReadEntry (id : string) | WriteEntry (i : Info) | RemoveEntry (id : string) | RemoveSocket (id : string)
| Kill0 (pid : Z) | Terminate (pid : Z) | Now | NewID
| StartHolder (id : string) | DialSocket (id : string) | AwaitHolder (id : string) | KillHolder (id : string)
| SendInfo (id : string) | SendStarted (payload : string) | Relay (id : string).
Definition sanswer (c : scall) : Type :=
  match c with
  | OpenLock => result () Z
  | ReadDir => result bool (list string)         (* whether the directory is missing *)
  | ReadEntry _ => result bool Info               (* whether the entry is missing *)
  | NewID => result () string
  | Kill0 _ | DialSocket _ => bool
  | Now => Z
  | AwaitHolder _ => holder_event
  | CloseLock _ | RemoveEntry _ | RemoveSocket _ | KillHolder _ => ()
  | _ => result () ()
  end.
Notation sitem := (item scall sanswer).
Notation sprog := (prog scall sanswer).
Notation sio := (io scall sanswer serr).
Definition sask (c : scall) : sio (sanswer c) := run (call c).
Definition fails_as {A} (what : string) (p : sprog (result () A)) : sio A := wrap (λ _, CallFailed what) p.

Definition startTimeout : Z := 10 * VmProc.second.
Definition hex_digit (c : ascii) : bool := is_digit c || between "a" "f" c.
Definition validID (id : string) : bool := negb (String.eqb id "") && (String.length id <=? 32)%nat && sforall hex_digit id.
Definition readInfo (id : string) : sio Info :=
  if negb (validID id) then throw InvalidID else
  r ← sask (ReadEntry id);
  match (r : result bool Info) with Ok i => mret i | Err missing => throw (if missing then NoEntry else ReadFailed) end.
Definition alive (pid : Z) : sio bool := if pid <=? 0 then mret false else sask (Kill0 pid).

(** What becomes of an entry: listed, left while it is being created, or
    removed with its socket. *)
Inductive fate := Listed | Starting | Stale.
Definition fate_of (i : Info) : sio fate :=
  if PID i =? 0 then now ← sask Now; mret (if (now : Z) - Created i <? startTimeout then Starting else Stale)
  else a ← alive (PID i); mret (if (a : bool) then Listed else Stale).
Fixpoint list_entries (names : list string) (out : list Info) : sio (list Info) :=
  match names with
  | [] => mret out
  | name :: names =>
      match CutSuffix name ".json" with
      | None => list_entries names out
      | Some id =>
          if negb (validID id) then list_entries names out else
          r ← attempt (readInfo id);
          match (r : result serr Info) with
          | Err _ => list_entries names out
          | Ok i =>
              f ← fate_of i;
              match (f : fate) with
              | Listed => list_entries names (out ++ [i])
              | Starting => list_entries names out
              | Stale => _ ← sask (RemoveEntry id); _ ← sask (RemoveSocket id); list_entries names out
              end
          end
      end
  end.
(** The order of equal times is that of a stable sort; [sort.Slice] leaves it open. *)
Definition recent_first (a b : Info) : bool := LastAttach b <=? LastAttach a.
Definition List : sio (list Info) :=
  r ← sask ReadDir;
  match (r : result bool (list string)) with
  | Err true => mret []
  | Err false => throw (CallFailed "read sessions")
  | Ok names => out ← list_entries names []; mret (stable_sort recent_first out)
  end.
Definition Find (dir : string) : sio (option Info) :=
  infos ← List; mret (snd <$> list_find (λ i, Dir i = dir) (infos : list Info)).
Definition Stop (id : string) : sio () :=
  i ← readInfo id;
  a ← alive (PID i);
  if negb (a : bool) then throw NotRunning else fails_as "stop session" (call (Terminate (PID i))).

(** ** Creating *)

(** A round every 20 ms at least; the last one stands for the deadline. *)
Definition start_rounds : nat := 501.
Fixpoint await_holder (rounds : nat) (id : string) : sio string :=
  match rounds with
  | O => _ ← sask (KillHolder id); throw HolderLate
  | S n =>
      d ← sask (DialSocket id);
      if (d : bool) then mret id else
      ev ← sask (AwaitHolder id);
      match (ev : holder_event) with
      | Exited => throw HolderExited
      | Deadline => _ ← sask (KillHolder id); throw HolderLate
      | Tick => await_holder n id
      end
  end.
Definition new_info (opts : Options) (id : string) (now : Z) : Info := {|
  ID := id; Name := o_Name opts; Dir := o_Dir opts; Argv := o_Argv opts; Env := o_Env opts; Rows := o_Rows opts; Cols := o_Cols opts;
  PID := 0; Created := now; LastAttach := 0; Attached := false |}.
Definition Create (opts : Options) : sio string :=
  _ ← check (negb (bool_decide (o_Argv opts = []))) NoProgram;
  _ ← fails_as "create session directory" (call MkdirAll);
  id ← fails_as "generate session id" (call NewID);
  now ← sask Now;
  _ ← fails_as "write session" (call (WriteEntry (new_info opts id now)));
  s ← sask (StartHolder id);
  match (s : result () ()) with
  | Err _ => _ ← sask (RemoveEntry id); throw (CallFailed "start session holder")
  | Ok _ => await_holder start_rounds id
  end.
Definition open_locked (opts : Options) (fd : Z) : sio (string * bool) :=
  _ ← fails_as "lock sessions" (call (FlockExclusive fd));
  found ← Find (o_Dir opts);
  match (found : option Info) with
  | Some i => mret (ID i, false)
  | None => id ← Create opts; mret (id, true)
  end.
(** The session of a directory and whether it was created. *)
Definition Open (opts : Options) : sio (string * bool) :=
  _ ← fails_as "create session directory" (call MkdirAll);
  fd ← fails_as "open session lock" (call OpenLock);
  finally (open_locked opts fd) (call (CloseLock fd)).

(** ** [session open] *)

(** The flags of [openSession] and the command after them. *)
Record openArgs := {
  oa_New : bool; oa_ID : string; oa_Agent : string; oa_Dir : string; oa_Rows : Z; oa_Cols : Z; oa_Env : list string; oa_Cmd : list string
}.
Section OpenSession.
(** The executable, the environment and [startedPayload]. *)
Context (self : string) (environ : list string) (started_payload : string → list string → string → string).
Definition open_argv (a : openArgs) : list string :=
  match oa_Cmd a with
  | [] => []
  | cmd => [self; "run"; "-C"; oa_Dir a] ++ concat (map (λ kv, ["-e"; kv]) (oa_Env a)) ++ ["--"] ++ cmd
  end.
Definition open_options (a : openArgs) : Options := {|
  o_Name := Join (oa_Cmd a) " "; o_Dir := oa_Dir a; o_Argv := open_argv a; o_Env := environ;
  o_Rows := Z.min (oa_Rows a) 65535; o_Cols := Z.min (oa_Cols a) 65535 |}.
Definition sessionRuns (dir : string) : sio bool :=
  r ← attempt (Find dir); mret (match (r : result serr (option Info)) with Ok (Some _) => true | _ => false end).
Definition send_and_relay (id : string) (started : option string) : sio () :=
  _ ← fails_as "write frame" (call (SendInfo id));
  _ ← match started with Some p => fails_as "write frame" (call (SendStarted p)) | None => mret () end;
  _ ← check (validID id) InvalidID;
  fails_as "attach session" (call (Relay id)).
Definition openSession (a : openArgs) : sio () :=
  if negb (String.eqb (oa_ID a) "") then send_and_relay (oa_ID a) None else
  let opts := open_options a in
  runs ← (if oa_New a then mret false else sessionRuns (oa_Dir a));
  let started := if (runs : bool) then "" else started_payload (oa_Agent a) (oa_Env a) (oa_Dir a) in
  ic ← (if oa_New a then id ← Create opts; mret (id, true) else Open opts);
  send_and_relay (ic : string * bool).1 (if ic.2 then Some started else None).
End OpenSession.
