(* ===== verification/SessionsSpec.v ===== *)
(** * One session per directory

    Any number of [session open] commands at the same time, with the holders of
    the sessions running on their own: [Open] of [holder.go] holds a lock while it
    looks for a session and creates one, and a new session counts as running
    before the lock is given back. Rely and guarantee with [Concur]. *)

From S2P Require Import Prelude GoStrings GoSort Prog Concur Sessions.
Open Scope string_scope.
Open Scope list_scope.

(** The entries by ID, the processes that run, the holders that have started and
    have not recorded themselves with the entry they were started for, the
    sockets that accept, and the process that holds the lock. *)
Record world := { entries : gmap string Info; procs : gset Z; pending : gmap string Info; sockets : gset string; owner : option nat }.
Definition set_entries (e : gmap string Info) (w : world) : world := {| entries := e; procs := procs w; pending := pending w; sockets := sockets w; owner := owner w |}.
Definition set_procs (p : gset Z) (w : world) : world := {| entries := entries w; procs := p; pending := pending w; sockets := sockets w; owner := owner w |}.
Definition set_pending (p : gmap string Info) (w : world) : world := {| entries := entries w; procs := procs w; pending := p; sockets := sockets w; owner := owner w |}.
Definition set_sockets (s : gset string) (w : world) : world := {| entries := entries w; procs := procs w; pending := pending w; sockets := s; owner := owner w |}.
Definition set_owner (o : option nat) (w : world) : world := {| entries := entries w; procs := procs w; pending := pending w; sockets := sockets w; owner := o |}.

(** What holders do on their own: record the process ID (no entry has it yet),
    accept clients, record an attachment, end, and remove what is theirs. *)
Inductive hstep : world → world → Prop :=
| h_record id i p w : pending w !! id = Some i → (0 < p)%Z → (∀ j x, entries w !! j = Some x → PID x ≠ p) →
    hstep w (set_entries (<[id := with_pid i p]> (entries w)) (set_procs ({[p]} ∪ procs w) (set_pending (delete id (pending w)) w)))
| h_listen id i w : entries w !! id = Some i → PID i ∈ procs w → pending w !! id = None → hstep w (set_sockets ({[id]} ∪ sockets w) w)
| h_attach id i t on w : entries w !! id = Some i → PID i ∈ procs w → hstep w (set_entries (<[id := with_attach i t on]> (entries w)) w)
| h_quit id w : hstep w (set_pending (delete id (pending w)) w)
| h_die p w : hstep w (set_procs (procs w ∖ {[p]}) w)
| h_unlink id w : hstep w (set_entries (delete id (entries w)) w)
| h_close id w : hstep w (set_sockets (sockets w ∖ {[id]}) w).

Definition entry_file (id : string) : string := id +:+ ".json".
(** How a call of process [i] is answered: an entry that is there can be read, a
    new ID is unused, and a killed or exited holder is gone. *)
Definition answers (i : nat) (c : scall) (w : world) : sanswer c → world → Prop :=
  match c as c return sanswer c → world → Prop with
  | FlockExclusive _ => λ x w', match x with
      | Ok _ => (owner w = None ∨ owner w = Some i) ∧ w' = set_owner (Some i) w | Err _ => w' = w end
  | CloseLock _ => λ _ w', w' = if bool_decide (owner w = Some i) then set_owner None w else w
  | ReadDir => λ x w', w' = w ∧ match x with
      | Ok names => ∀ id, is_Some (entries w !! id) → entry_file id ∈ names | Err missing => missing = true → entries w = ∅ end
  | ReadEntry id => λ x w', w' = w ∧ match x with Ok e => entries w !! id = Some e | Err _ => entries w !! id = None end
  | WriteEntry e => λ x w', match x with Ok _ => w' = set_entries (<[ID e := e]> (entries w)) w | Err _ => w' = w end
  | RemoveEntry id => λ _ w', w' = set_entries (delete id (entries w)) w
  | RemoveSocket id => λ _ w', w' = set_sockets (sockets w ∖ {[id]}) w
  | Kill0 pid => λ x w', w' = w ∧ (x = true ↔ pid ∈ procs w)
  | NewID => λ x w', w' = w ∧ match x with
      | Ok id => validID id = true ∧ entries w !! id = None ∧ pending w !! id = None ∧ id ∉ sockets w | Err _ => True end
  | StartHolder id => λ x w', match x with
      | Ok _ => w' = match entries w !! id with Some e => set_pending (<[id := e]> (pending w)) w | None => w end | Err _ => w' = w end
  | DialSocket id => λ x w', w' = w ∧ (x = true → id ∈ sockets w)
  | AwaitHolder id => λ x w', w' = w ∧ (x = Exited → pending w !! id = None)
  | KillHolder id => λ _ w', w' = set_pending (delete id (pending w)) (match entries w !! id with Some e => set_procs (procs w ∖ {[PID e]}) w | None => w end)
  | _ => λ _ w', w' = w
  end.
Definition serve (i : nat) (c : scall) (w : world) (x : sanswer c) (w' : world) : Prop := ∃ w1, rtc hstep w w1 ∧ answers i c w1 x w'.

(** A session of [d] that runs, and one whose holder may still come up. *)
Definition running (d : string) (w : world) (a : string) : Prop := ∃ e, entries w !! a = Some e ∧ Dir e = d ∧ PID e ∈ procs w.
Definition coming (d : string) (w : world) (a : string) : Prop := ∃ e, pending w !! a = Some e ∧ Dir e = d.
Definition active (d : string) (w : world) (a : string) : Prop := running d w a ∨ coming d w a.
Record Inv (w : world) : Prop := {
  inv_one : ∀ d a b, active d w a → active d w b → a = b;
  inv_pending : owner w = None → pending w = ∅;
  inv_names : ∀ a e, entries w !! a = Some e → validID a = true;
  inv_names' : ∀ a e, pending w !! a = Some e → validID a = true;
  inv_sockets : ∀ a, a ∈ sockets w → pending w !! a = None;
  inv_pids : ∀ p, p ∈ procs w → (0 < p)%Z
}.
(** What the others, and the holders, leave to the process with the lock. *)
Definition shrinks (w w' : world) : Prop :=
  (∀ a, pending w !! a = None → pending w' !! a = None) ∧
  (pending w = ∅ → (∀ a x', entries w' !! a = Some x' → ∃ x, entries w !! a = Some x ∧ PID x' = PID x ∧ Dir x' = Dir x) ∧ procs w' ⊆ procs w ∧
    ∀ a, a ∈ sockets w' → a ∈ sockets w ∨ ∃ x, entries w !! a = Some x ∧ PID x ∈ procs w).
Definition rely (i : nat) (w w' : world) : Prop := (owner w = Some i ↔ owner w' = Some i) ∧ (owner w = Some i → shrinks w w').
Definition guar (i : nat) (w w' : world) : Prop := ∀ j, i ≠ j → rely j w w'.

Lemma shrinks_refl w : shrinks w w.
Proof. split; [done|]. intros _. split; [intros a x' H; by exists x'|]. split; [done|]. intros a H. by left. Qed.
Lemma shrinks_empty w w' : shrinks w w' → pending w = ∅ → pending w' = ∅.
Proof. intros [H _] He. apply map_eq. intros a. rewrite lookup_empty. apply H. by rewrite He lookup_empty. Qed.
Lemma shrinks_trans a b c : shrinks a b → shrinks b c → shrinks a c.
Proof.
  intros H1 H2. split; [intros x Hx; by apply H2, H1|]. intros He. pose proof (shrinks_empty _ _ H1 He) as He'. destruct H1 as [_ H1], H2 as [_ H2].
  destruct (H1 He) as (E1 & P1 & S1), (H2 He') as (E2 & P2 & S2). split_and!; [|set_solver|].
  - intros k z Hz. destruct (E2 k z Hz) as (y & Hy & Ep & Ed). destruct (E1 k y Hy) as (x & Hx & Ep' & Ed'). exists x. split_and!; congruence.
  - intros k Hk. destruct (S2 k Hk) as [Hk'|(y & Hy & Hp)]; [by apply S1|]. right. destruct (E1 k y Hy) as (x & Hx & Ep & _). exists x. split; [done|]. rewrite -Ep. by apply P1.
Qed.
Lemma world_rely_refl i w : rely i w w.
Proof. split; [done|]. intros _. apply shrinks_refl. Qed.
Lemma world_rely_trans i a b c : rely i a b → rely i b c → rely i a c.
Proof. intros [O1 S1] [O2 S2]. split; [by rewrite O1|]. intros H. apply (shrinks_trans _ b); [by apply S1|by apply S2, O1]. Qed.
Lemma world_guar_rely i j w w' : i ≠ j → guar i w w' → rely j w w'.
Proof. intros H Hg. by apply Hg. Qed.

(** Holders keep the invariant and take nothing from the process with the lock. *)
Lemma delete_none {A} (m : gmap string A) k a : m !! a = None → delete k m !! a = None.
Proof. intros H. destruct (decide (k = a)) as [->|Hne]; [by rewrite lookup_delete_eq|by rewrite lookup_delete_ne]. Qed.
Lemma hstep_shrinks w w' : hstep w w' → owner w' = owner w ∧ shrinks w w'.
Proof.
  intros H. destruct H as [id i p w Hp _ _|id i w He Hr Hn|id i t on w He Hr|id w|p w|id w|id w]; (split; [done|]); (split; cbn; [intros a Ha; by try apply delete_none|intros Hemp]).
  - by rewrite Hemp lookup_empty in Hp.
  - split_and!; [intros a x' H; by exists x'|done|]. intros a [->%elem_of_singleton|H]%elem_of_union; [right; by exists i|by left].
  - split_and!; [|done|intros a H; by left]. intros a x' H. destruct (decide (id = a)) as [->|Hne]; [|rewrite lookup_insert_ne // in H; by exists x'].
    rewrite lookup_insert_eq in H. injection H as <-. by exists i.
  - split_and!; [intros a x' H; by exists x'|done|intros a H; by left].
  - split_and!; [intros a x' H; by exists x'|set_solver|intros a H; by left].
  - split_and!; [intros a x' [_ H]%lookup_delete_Some; by exists x'|done|intros a H; by left].
  - split_and!; [intros a x' H; by exists x'|done|intros a [H _]%elem_of_difference; by left].
Qed.
(** No holder makes a second session of a directory. *)
Lemma hstep_active w w' d a : Inv w → hstep w w' → active d w' a → active d w a.
Proof.
  intros HI H. destruct H as [id i p w Hp Hpos Hfresh|id i w He Hr Hn|id i t on w He Hr|id w|p w|id w|id w]; intros [(e & H1 & H2 & H3)|(e & H1 & H2)]; cbn in *.
  - destruct (decide (id = a)) as [->|Hne].
    + rewrite lookup_insert_eq in H1. injection H1 as <-. right. by exists i.
    + rewrite lookup_insert_ne // in H1. left. exists e. split_and!; [done|done|]. apply elem_of_union in H3 as [H3|H3]; [|done].
      apply elem_of_singleton in H3. by destruct (Hfresh a e H1).
  - apply lookup_delete_Some in H1 as [_ H1]. right. by exists e.
  - left. by exists e.
  - right. by exists e.
  - destruct (decide (id = a)) as [->|Hne].
    + rewrite lookup_insert_eq in H1. injection H1 as <-. left. by exists i.
    + rewrite lookup_insert_ne // in H1. left. by exists e.
  - right. by exists e.
  - left. by exists e.
  - apply lookup_delete_Some in H1 as [_ H1]. right. by exists e.
  - left. exists e. set_solver.
  - right. by exists e.
  - apply lookup_delete_Some in H1 as [_ H1]. left. by exists e.
  - right. by exists e.
  - left. by exists e.
  - right. by exists e.
Qed.
Lemma hstep_Inv w w' : Inv w → hstep w w' → Inv w'.
Proof.
  intros HI H. assert (∀ d a b, active d w' a → active d w' b → a = b) as Hone.
  { intros d a b Ha Hb. apply (inv_one w HI d); by apply (hstep_active w w'). }
  destruct HI as [_ Hpen Hn Hn' Hs Hp]. destruct H as [id i p w Hi Hpos Hfresh|id i w He Hr Hnone|id i t on w He Hr|id w|p w|id w|id w]; (split; [exact Hone|..]); cbn in *; try done.
  - intros Ho. rewrite (Hpen Ho). apply delete_empty.
  - intros a e. destruct (decide (id = a)) as [->|Hne]; [intros _; by apply (Hn' a i)|rewrite lookup_insert_ne //; apply Hn].
  - intros a e [_ H]%lookup_delete_Some. by apply (Hn' a e).
  - intros a Ha. by apply delete_none, Hs.
  - intros q [->%elem_of_singleton|Hq]%elem_of_union; [done|by apply Hp].
  - intros a [->%elem_of_singleton|Ha]%elem_of_union; [done|by apply Hs].
  - intros a e. destruct (decide (id = a)) as [->|Hne]; [intros _; by apply (Hn a i)|rewrite lookup_insert_ne //; apply Hn].
  - intros Ho. rewrite (Hpen Ho). apply delete_empty.
  - intros a e [_ H]%lookup_delete_Some. by apply (Hn' a e).
  - intros a Ha. by apply delete_none, Hs.
  - intros q [Hq _]%elem_of_difference. by apply Hp.
  - intros a e [_ H]%lookup_delete_Some. by apply (Hn a e).
  - intros a [Ha _]%elem_of_difference. by apply Hs.
Qed.
Lemma holders w w' : Inv w → rtc hstep w w' → Inv w' ∧ ∀ i, rely i w w'.
Proof.
  intros HI H. induction H as [w|w w1 w' H1 _ IH]; [split; [done|intros i; apply world_rely_refl]|].
  destruct (IH (hstep_Inv _ _ HI H1)) as [HI' Hr]. split; [done|]. intros i. apply (world_rely_trans i _ w1); [|apply Hr].
  destruct (hstep_shrinks _ _ H1) as [Ho Hs]. split; [by rewrite Ho|done].
Qed.

Section Process.
Context (i : nat).
Local Notation okp := (ok serve Inv rely guar (λ _ _ _, True) i).
Local Notation stays := (stable Inv rely i).
(** The lock is held and no holder is coming up. *)
Definition locked (w : world) : Prop := owner w = Some i ∧ pending w = ∅.
(** The sessions of [d] that run, if any, are among the files still to be read. *)
Definition clear (d : string) (rest : list string) (w : world) : Prop := locked w ∧ ∀ a, running d w a → entry_file a ∈ rest.
(** The entry written for a new session of [d]. *)
Definition written (d id : string) (w : world) : Prop := clear d [] w ∧ id ∉ sockets w ∧ ∀ x, entries w !! id = Some x → Dir x = d ∧ PID x = 0%Z.
Definition creating (id : string) (w : world) : Prop := owner w = Some i ∧ ∀ a, a ≠ id → pending w !! a = None.
Definition releasable (w : world) : Prop := owner w = Some i → pending w = ∅.
Lemma locked_stays : stays locked.
Proof. intros w w' [Ho Hs] _ [H He]. split; [by apply Ho|exact (shrinks_empty _ _ (Hs H) He)]. Qed.
Lemma running_shrinks d w w' a : shrinks w w' → pending w = ∅ → running d w' a → running d w a.
Proof. intros [_ H] He (x' & Hx & Hd & Hp). destruct (H He) as (He' & Hp' & _). destruct (He' a x' Hx) as (x & Hx0 & Ep & Ed). exists x. split_and!; [done|congruence|]. rewrite -Ep. by apply Hp'. Qed.
Lemma clear_stays d rest : stays (clear d rest).
Proof.
  intros w w' Hr Hi [Hl Hc]. split; [exact (locked_stays _ _ Hr Hi Hl)|]. intros a Ha. apply Hc. destruct Hl as [Ho He].
  apply (running_shrinks d w w'); [by apply Hr|done|done].
Qed.
Lemma written_stays d id : stays (λ w, Inv w ∧ written d id w).
Proof.
  intros w w' Hr Hi (HI & Hc & Hns & Hw). split; [done|]. split; [exact (clear_stays _ _ _ _ Hr Hi Hc)|]. destruct Hc as [[Ho He] _].
  destruct Hr as [_ Hs]. destruct (Hs Ho) as [_ H]. destruct (H He) as (E & P & S). split.
  - intros Hin. destruct (S id Hin) as [Hin'|(x & Hx & Hp)]; [done|]. destruct (Hw x Hx) as [_ H0]. rewrite H0 in Hp. apply (inv_pids w HI) in Hp. lia.
  - intros x' Hx'. destruct (E id x' Hx') as (x & Hx & Ep & Ed). destruct (Hw x Hx) as [Hd H0]. split; congruence.
Qed.
Lemma creating_stays id : stays (creating id).
Proof. intros w w' [Ho Hs] _ [H Hp]. split; [by apply Ho|]. intros a Ha. apply (Hs H). by apply Hp. Qed.
Lemma releasable_stays : stays releasable.
Proof. intros w w' [Ho Hs] _ H Ho'. apply Ho in Ho'. exact (shrinks_empty _ _ (Hs Ho') (H Ho')). Qed.
Lemma outside_stays : stays (λ w, owner w ≠ Some i).
Proof. intros w w' [Ho _] _ H. by rewrite -Ho. Qed.
Lemma world_guar_refl w : guar i w w.
Proof. intros j _. apply world_rely_refl. Qed.
Lemma guar_locked w w' : owner w = Some i → owner w' = Some i → guar i w w'.
Proof. intros H H' j Hj. unfold rely. rewrite H H'. split; [split; congruence|congruence]. Qed.

(** A call: the others and the holders move first. *)
Definition okr {A} (m : sio A) (w : world) (Q : A → world → Prop) (E : world → Prop) : Prop :=
  okp m w (λ r w', match r with Ok a => Q a w' | Err _ => E w' end).
Lemma okp_call {A} (P : world → Prop) c (k : sanswer c → sprog A) w Q :
  stays P → P w → (∀ w1, P w1 → Inv w1 → ∀ x w2, answers i c w1 x w2 → guar i w1 w2 ∧ Inv w2 ∧ okp (k x) w2 Q) → okp (Do c k) w Q.
Proof.
  intros HP Hw H w0 Hr Hi. split; [done|]. intros x w2 (w1 & Hh & Hx). destruct (holders w0 w1 Hi Hh) as [Hi1 Hr1].
  destruct (H w1 (HP _ _ (Hr1 i) Hi1 (HP _ _ Hr Hi Hw)) Hi1 x w2 Hx) as (Hg & Hi2 & Hk). split_and!; [|done|done].
  intros j Hj. apply (world_rely_trans j _ w1); [apply Hr1|by apply Hg].
Qed.
Lemma okr_bind {A B} (m : sio A) (f : A → sio B) w Q E : okr m w (λ a w', okr (f a) w' Q E) E → okr (m ≫= f) w Q E.
Proof. intros H. apply ok_bind. apply (ok_mono _ _ _ _ _ _ _ _ _ _ H). by intros [a|e] w'. Qed.
Lemma okr_mono {A} (m : sio A) w Q E (Q' : A → world → Prop) (E' : world → Prop) :
  okr m w Q E → (∀ a w', Q a w' → Q' a w') → (∀ w', E w' → E' w') → okr m w Q' E'.
Proof. intros H HQ HE. apply (ok_mono _ _ _ _ _ _ _ _ _ _ H). intros [a|e] w'; [apply HQ|apply HE]. Qed.
(** A call that leaves the world as it is, and one whose error does. *)
Lemma okr_ask {B} (P : world → Prop) c (f : sanswer c → sio B) w Q E :
  stays P → P w → (∀ w1 x w2, answers i c w1 x w2 → w2 = w1) → (∀ w1 x, P w1 → Inv w1 → answers i c w1 x w1 → okr (f x) w1 Q E) → okr (sask c ≫= f) w Q E.
Proof.
  intros HP Hw Hc Hf. apply (okp_call P); [done|done|]. intros w1 Hw1 Hi1 x w2 Hx. assert (w2 = w1) as -> by exact (Hc _ _ _ Hx).
  split; [apply world_guar_refl|]. split; [done|]. by apply Hf.
Qed.
Lemma okr_fails {A B} (P : world → Prop) what c (g : sanswer c → result () A) (f : A → sio B) w Q E :
  stays P → P w → (∀ w1, P w1 → Inv w1 → ∀ x w2, answers i c w1 x w2 → guar i w1 w2 ∧ Inv w2 ∧
    match g x with Ok a => okr (f a) w2 Q E | Err _ => E w2 end) → okr (fails_as what (Do c (λ x, Ret (g x))) ≫= f) w Q E.
Proof.
  intros HP Hw Hf. apply (okp_call P); [done|done|]. intros w1 Hw1 Hi1 x w2 Hx. destruct (Hf w1 Hw1 Hi1 x w2 Hx) as (Hg & Hi & Hk). split_and!; [done|done|].
  destruct (g x); [exact Hk|exact Hk].
Qed.
(** The lock is given back. *)
Lemma unlock_ok fd w : releasable w → okp (call (CloseLock fd)) w (λ _ _, True).
Proof.
  intros Hw. apply (okp_call releasable); [apply releasable_stays|done|]. intros w1 Hr Hi [] w2 ->. case_bool_decide as Ho.
  - split; [|split; [|done]].
    + intros j Hj. split; cbn; [rewrite Ho; split; congruence|]. rewrite Ho. congruence.
    + destruct Hi as [H1 _ H3 H4 H5 H6]. split; try done. intros _. by apply Hr.
  - split; [apply world_guar_refl|by split].
Qed.
(** What reading the entries has shown. *)
Definition reading (d : string) (names : list string) (out : list Info) (w : world) : Prop :=
  Inv w ∧ locked w ∧ ((∀ x, x ∈ out → Dir x ≠ d) → clear d names w).
Lemma reading_stays d names out : stays (reading d names out).
Proof. intros w w' Hr Hi (_ & Hl & Hc). split; [done|]. split; [exact (locked_stays _ _ Hr Hi Hl)|]. intros Ho. exact (clear_stays _ _ _ _ Hr Hi (Hc Ho)). Qed.
Lemma reading_skip d name names out w : reading d (name :: names) out w →
  (∀ a, entry_file a = name → ¬ running d w a) → reading d names out w.
Proof.
  intros (Hi & Hl & Hc) Hn. split; [done|]. split; [done|]. intros Ho. destruct (Hc Ho) as [_ H]. split; [done|]. intros a Ha.
  destruct (elem_of_cons names (entry_file a) name) as [Hin _]. destruct (Hin (H a Ha)) as [E|E]; [by destruct (Hn a E)|done].
Qed.
Definition seen (id : string) (e : Info) (w : world) : Prop := ∀ x, entries w !! id = Some x → PID x = PID e ∧ Dir x = Dir e.
Lemma seen_stays d names out id e : stays (λ w, reading d names out w ∧ seen id e w).
Proof.
  intros w w' Hr Hi [Hrd Hs]. split; [exact (reading_stays _ _ _ _ _ Hr Hi Hrd)|]. destruct Hrd as (_ & [Ho He] & _). destruct Hr as [_ Hsh].
  destruct (Hsh Ho) as [_ H]. destruct (H He) as (E & _ & _). intros x' Hx'. destruct (E id x' Hx') as (x & Hx & Ep & Ed). destruct (Hs x Hx). split; congruence.
Qed.
Lemma hstep_ok w w' : hstep w w' → Inv w → Inv w' ∧ ∀ P, stays P → P w → P w'.
Proof. intros H Hi. destruct (holders w w' Hi (rtc_once _ _ H)) as [Hi' Hr]. split; [done|]. intros P HP. exact (HP w w' (Hr i) Hi'). Qed.
(** A stale entry and its socket are removed. *)
Lemma drop_ok (P : world → Prop) {B} id (f : sio B) w Q E : stays P → (∀ w, P w → locked w) → P w → (∀ w, P w → okr f w Q E) →
  okr (_ ← sask (RemoveEntry id); _ ← sask (RemoveSocket id); f) w Q E.
Proof.
  intros HP Hl Hw Hf. apply (okp_call P); [done|done|]. intros w1 H1 Hi1 [] w2 ->. destruct (hstep_ok _ _ (h_unlink id w1) Hi1) as [Hi2 H2].
  destruct (Hl _ H1) as [Ho _]. split; [by apply guar_locked|]. split; [done|].
  apply (okp_call P); [done|by apply H2|]. intros w3 H3 Hi3 [] w4 ->. destruct (hstep_ok _ _ (h_close id w3) Hi3) as [Hi4 H4].
  destruct (Hl _ H3) as [Ho3 _]. split; [by apply guar_locked|]. split; [done|]. by apply Hf, H4.
Qed.
Lemma list_ok d names out w : reading d names out w → okr (list_entries names out) w (λ out' w', reading d [] out' w') locked.
Proof.
  revert out w. induction names as [|name names IH]; intros out w Hw; [exact Hw|]. cbn [list_entries].
  assert (∀ a, entry_file a = name → CutSuffix name ".json" = Some a) as Hcut by (by intros a <-; apply CutSuffix_Some).
  destruct (CutSuffix name ".json") as [id|] eqn:Ec.
  2: { apply IH. apply (reading_skip d name); [done|]. intros a Ha. specialize (Hcut a Ha). congruence. }
  assert (∀ a, entry_file a = name → a = id) as Hid by (intros a Ha; specialize (Hcut a Ha); congruence). clear Hcut.
  destruct (validID id) eqn:Ev; cbn [negb].
  2: { apply IH. apply (reading_skip d name); [done|]. intros a Ha (e & He & _). rewrite (Hid a Ha) in He. destruct Hw as (Hi & _). pose proof (inv_names w Hi _ _ He). congruence. }
  assert (∀ w1, reading d (name :: names) out w1 → ¬ running d w1 id → okr (list_entries names out) w1 (λ out' w', reading d [] out' w') locked) as Hskip.
  { intros w1 H1 Hn. apply IH. apply (reading_skip d name); [done|]. intros a Ha. by rewrite (Hid a Ha). }
  assert (∀ w1, reading d (name :: names) out w1 → ¬ running d w1 id →
    okr (_ ← sask (RemoveEntry id); _ ← sask (RemoveSocket id); list_entries names out) w1 (λ out' w', reading d [] out' w') locked) as Hdrop.
  { intros w1 H1 Hn. apply (drop_ok (reading d names out)); [apply reading_stays|by intros w2 (_ & H2 & _)| |intros w2 H2; by apply IH].
    apply (reading_skip d name); [done|]. intros a Ha. by rewrite (Hid a Ha). }
  unfold attempt, readInfo. rewrite Ev. cbn [negb].
  apply (okp_call (reading d (name :: names) out)); [apply reading_stays|done|]. intros w1 H1 Hi1 r w2 [-> Hr].
  split; [apply world_guar_refl|]. split; [done|]. destruct r as [e|missing].
  2: { destruct missing; (apply Hskip; [done|]); intros (e & He & _); congruence. }
  cbn [pbind]. change (okr (f ← fate_of e; match f with Listed => list_entries names (out ++ [e]) | Starting => list_entries names out
    | Stale => _ ← sask (RemoveEntry id); _ ← sask (RemoveSocket id); list_entries names out end) w1 (λ out' w', reading d [] out' w') locked).
  assert (∀ w2, Inv w2 → seen id e w2 → PID e ∉ procs w2 → ¬ running d w2 id) as Hdead.
  { intros w2 _ Hs Hn (x & Hx & _ & Hp). destruct (Hs x Hx) as [Ep _]. by rewrite Ep in Hp. }
  assert (seen id e w1) as Hs1 by (intros x Hx; assert (x = e) as -> by congruence; done).
  unfold fate_of. destruct (Z.eqb_spec (PID e) 0) as [E0|E0].
  - apply (okp_call (λ w, reading d (name :: names) out w ∧ seen id e w)); [apply seen_stays|done|]. intros w2 [H2 Hs2] Hi2 now w3 ->.
    split; [apply world_guar_refl|]. split; [done|]. assert (¬ running d w2 id) as Hn.
    { apply Hdead; [done|done|]. rewrite E0. intros Hp%(inv_pids w2 Hi2). lia. }
    cbn. destruct (_ <? _)%Z; [by apply Hskip|by apply Hdrop].
  - unfold alive. destruct (Z.leb_spec (PID e) 0) as [El|El].
    { apply Hdrop; [done|]. apply Hdead; [done|done|]. intros Hp%(inv_pids w1 Hi1). lia. }
    apply (okp_call (λ w, reading d (name :: names) out w ∧ seen id e w)); [apply seen_stays|done|]. intros w2 [H2 Hs2] Hi2 b w3 [-> Hb].
    split; [apply world_guar_refl|]. split; [done|]. destruct b.
    + apply IH. destruct H2 as (_ & Hl & Hc). split; [done|]. split; [done|]. intros Ho.
      apply (reading_skip d name names []).
      * split; [done|]. split; [done|]. intros _. apply Hc. intros x Hx. apply Ho. apply elem_of_app. by left.
      * intros a Ha (x & Hx & Hd & _). rewrite (Hid a Ha) in Hx. destruct (Hs2 x Hx) as [_ Ed]. apply (Ho e); [apply elem_of_app; right; by left|congruence].
      * by intros x Hx%elem_of_nil.
    + apply Hdrop; [done|]. apply Hdead; [done|done|]. intros Hp%Hb. done.
Qed.
Lemma find_ok d w : locked w → okr (Find d) w (λ o w', locked w' ∧ (o = None → clear d [] w')) locked.
Proof.
  intros Hl. apply okr_bind. apply (okr_mono _ _ (λ out w', reading d [] out w') locked); [|intros out w' (Hi & Hl' & Hc)|done].
  - unfold List. apply (okp_call locked); [apply locked_stays|done|]. intros w1 H1 Hi1 r w2 [-> Hr]. split; [apply world_guar_refl|]. split; [done|].
    destruct r as [names|[|]]; [|cbn|exact H1].
    + apply okr_bind. apply (okr_mono _ _ (λ out w', reading d [] out w') locked); [apply list_ok| |done].
      * split; [done|]. split; [done|]. intros _. split; [done|]. intros a (e & He & _). apply Hr. by exists e.
      * intros out w' (Hi & Hl' & Hc). split; [done|]. split; [done|]. intros Ho. apply Hc. intros x Hx. apply Ho. by rewrite (stable_sort_perm recent_first out).
    + split; [done|]. split; [done|]. intros _. split; [done|]. intros a (e & He & _). rewrite (Hr eq_refl) lookup_empty in He. done.
  - split; [done|]. intros Hn. apply Hc. intros x Hx Hd. apply fmap_None, list_find_None in Hn. rewrite Forall_forall in Hn. by apply (Hn x Hx).
Qed.
(** The holder of the new session has recorded itself, or is gone. *)
Lemma holder_gone id w w' : creating id w → owner w' = Some i → (∀ a, a ≠ id → pending w !! a = None → pending w' !! a = None) → pending w' !! id = None → locked w'.
Proof.
  intros [_ Hp] Ho Ha Hid. split; [done|]. apply map_eq. intros a. rewrite lookup_empty. destruct (decide (a = id)) as [->|Hne]; [done|]. by apply Ha, Hp.
Qed.
Lemma kill_ok id w : creating id w → okr (_ ← sask (KillHolder id); throw HolderLate : sio string) w (λ _ w', locked w') locked.
Proof.
  intros Hw. apply (okp_call (creating id)); [apply creating_stays|done|]. intros w1 H1 Hi1 [] w2 ->. destruct (hstep_ok _ _ (h_quit id w1) Hi1) as [Hi2 _].
  assert (owner w1 = Some i) as Ho by apply H1. destruct (entries w1 !! id) as [e|].
  - destruct (hstep_ok _ _ (h_die (PID e) _) Hi2) as [Hi3 _]. split; [by apply guar_locked|]. split; [exact Hi3|].
    apply (holder_gone id w1); [done|done| |apply lookup_delete_eq]. intros a _ Hn. cbn. by apply delete_none.
  - split; [by apply guar_locked|]. split; [done|]. apply (holder_gone id w1); [done|done| |apply lookup_delete_eq]. intros a _ Hn. cbn. by apply delete_none.
Qed.
Lemma await_ok n id w : creating id w → okr (await_holder n id) w (λ _ w', locked w') locked.
Proof.
  revert w. induction n as [|n IH]; intros w Hw; [by apply kill_ok|]. cbn [await_holder].
  apply (okp_call (creating id)); [apply creating_stays|done|]. intros w1 H1 Hi1 b w2 [-> Hb]. split; [apply world_guar_refl|]. split; [done|]. destruct b.
  - apply (holder_gone id w1); [done|apply H1|done|]. apply (inv_sockets w1 Hi1). by apply Hb.
  - apply (okp_call (creating id)); [apply creating_stays|done|]. intros w3 H3 Hi3 ev w4 [-> He]. split; [apply world_guar_refl|]. split; [done|].
    destruct ev; [|by apply kill_ok|by apply IH]. apply (holder_gone id w3); [done|apply H3|done|by apply He].
Qed.
Lemma write_Inv d id e w : Inv w → clear d [] w → validID id = true → entries w !! id = None → id ∉ sockets w → ID e = id → Dir e = d → PID e = 0%Z →
  Inv (set_entries (<[ID e := e]> (entries w)) w) ∧ written d id (set_entries (<[ID e := e]> (entries w)) w).
Proof.
  intros Hi [[Ho Hp] Hc] Hv Hn Hs Hid Hd H0. rewrite Hid. assert (∀ d' a, running d' (set_entries (<[id := e]> (entries w)) w) a → running d' w a) as Hrun.
  { intros d' a (x & Hx & Hd' & Hp'). cbn in *. destruct (decide (id = a)) as [<-|Hne].
    - rewrite lookup_insert_eq in Hx. injection Hx as <-. rewrite H0 in Hp'. apply (inv_pids w Hi) in Hp'. lia.
    - rewrite lookup_insert_ne // in Hx. by exists x. }
  split.
  - destruct Hi as [H1 H2 H3 H4 H5 H6]. split; cbn; try done.
    + intros d' a b [Ha|(x & Hx & _)] [Hb|(y & Hy & _)]; [|by rewrite /= Hp lookup_empty in Hy|by rewrite /= Hp lookup_empty in Hx..].
      apply (H1 d'); left; by apply Hrun.
    + intros a x. destruct (decide (id = a)) as [<-|Hne]; [done|rewrite lookup_insert_ne //; apply H3].
  - split; [split; [done|]; intros a Ha; by apply Hc, Hrun|]. split; [done|]. intros x. cbn. rewrite lookup_insert_eq. by intros [= <-].
Qed.
Lemma start_Inv d id w : Inv w → written d id w →
  let w' := match entries w !! id with Some e => set_pending (<[id := e]> (pending w)) w | None => w end in Inv w' ∧ creating id w'.
Proof.
  intros Hi ([[Ho Hp] Hc] & Hs & Hw). cbn. destruct (entries w !! id) as [e|] eqn:E.
  2: { split; [done|]. split; [done|]. intros a _. by rewrite Hp lookup_empty. }
  destruct (Hw e eq_refl) as [Hd H0]. rewrite Hp. assert (∀ d' a, active d' (set_pending {[id := e]} w) a → (d' = d ∧ a = id) ∨ d' ≠ d ∧ running d' w a) as Hact.
  { intros d' a [Ha|(x & Hx & Hd')]; cbn in *.
    - right. split; [|done]. intros ->. by apply Hc, elem_of_nil in Ha.
    - apply lookup_singleton_Some in Hx as [<- <-]. left. split; congruence. }
  split.
  - destruct Hi as [H1 H2 H3 H4 H5 H6]. split; cbn; try done.
    + intros d' a b Ha Hb. destruct (Hact _ _ Ha) as [[-> ->]|[Hne Ha']], (Hact _ _ Hb) as [[? ->]|[? Hb']]; [done|done|done|]. apply (H1 d'); by left.
    + congruence.
    + intros a x [<- _]%lookup_singleton_Some. by apply (H3 id e).
    + intros a Ha. rewrite lookup_insert_ne; [done|]. by intros ->.
  - split; [done|]. intros a Ha. cbn. rewrite lookup_insert_ne; [done|congruence].
Qed.
(** The new ID stays unused until its entry is written. *)
Definition unused (d id : string) (w : world) : Prop := Inv w ∧ clear d [] w ∧ entries w !! id = None ∧ id ∉ sockets w.
Lemma unused_stays d id : stays (unused d id).
Proof.
  intros v v' Hr Hi (HI & Hp & Hn & Hs). split; [done|]. split; [exact (clear_stays _ _ _ _ Hr Hi Hp)|]. destruct Hp as [[Ho He] _], Hr as [_ Hsh].
  destruct (Hsh Ho) as [_ H]. destruct (H He) as (E & _ & S). split.
  - destruct (entries v' !! id) as [x'|] eqn:Ex; [|done]. destruct (E id x' Ex) as (z & Hz & _). congruence.
  - intros Hin. destruct (S id Hin) as [|(z & Hz & _)]; [done|congruence].
Qed.
Lemma holder_ok rounds d id w : Inv w → written d id w →
  okr (s ← sask (StartHolder id); match (s : result () ()) with Err _ => _ ← sask (RemoveEntry id); throw (CallFailed "start session holder") | Ok _ => await_holder rounds id end)
    w (λ _ w', locked w') locked.
Proof.
  intros Hi0 H0. apply (okp_call (λ w, Inv w ∧ written d id w)); [apply written_stays|done|]. intros w8 [_ H8] Hi8 r w9 Hw9. assert (owner w8 = Some i) as Ho8 by apply H8.
  destruct r as [[]|e].
  - destruct (start_Inv _ _ _ Hi8 H8) as [Hi9 H9]. rewrite -Hw9 in Hi9, H9. split; [apply guar_locked; [done|apply H9]|]. split; [done|]. by apply await_ok.
  - assert (w9 = w8) as -> by exact Hw9. split; [apply world_guar_refl|]. split; [done|].
    apply (okp_call locked); [apply locked_stays|apply H8|]. intros w10 H10 Hi10 [] w11 ->. destruct (hstep_ok _ _ (h_unlink id w10) Hi10) as [Hi11 H11].
    split; [apply guar_locked; apply H10|]. split; [done|]. exact (H11 locked locked_stays H10).
Qed.
Lemma create_ok opts w : clear (o_Dir opts) [] w → okr (Create opts) w (λ _ w', locked w') locked.
Proof.
  intros Hw. unfold Create. apply okr_bind. unfold check. destruct (negb _); [|apply Hw]. change (okr (_ ← fails_as "create session directory" (call MkdirAll);
    id ← fails_as "generate session id" (call NewID); now ← sask Now; _ ← fails_as "write session" (call (WriteEntry (new_info opts id now)));
    s ← sask (StartHolder id); match s with Err _ => _ ← sask (RemoveEntry id); throw (CallFailed "start session holder") | Ok _ => await_holder start_rounds id end)
    w (λ _ w', locked w') locked). generalize start_rounds. intros rounds.
  set (P := clear (o_Dir opts) []). assert (stays P) as HP by apply clear_stays.
  apply (okr_fails P); [done|done|]. intros w1 H1 Hi1 x w2 Hx. assert (w2 = w1) as -> by (by destruct x).
  split; [apply world_guar_refl|]. split; [done|]. destruct x as [[]|e]; [|apply H1].
  apply (okr_fails P); [done|done|]. intros w3 H3 Hi3 r w4 [-> Hr]. split; [apply world_guar_refl|]. split; [done|]. destruct r as [id|e]; [|apply H3].
  destruct Hr as (Hv & Hn & _ & Hs). apply (okr_ask (unused (o_Dir opts) id)); [apply unused_stays|by split_and!|by intros ? ? ? ->|]. intros w5 now H5 Hi5 _.
  apply (okr_fails (unused (o_Dir opts) id)); [apply unused_stays|done|]. intros w6 (_ & H6 & Hn6 & Hs6) Hi6 r w7 Hw7. assert (owner w6 = Some i) as Ho6 by apply H6.
  destruct r as [[]|e].
  2: { assert (w7 = w6) as -> by exact Hw7. split; [apply world_guar_refl|]. split; [done|apply H6]. }
  cbn [answers ID new_info] in Hw7. destruct (write_Inv (o_Dir opts) id (new_info opts id now) w6) as [Hi7 H7]; [done..|]. cbn [ID new_info] in Hi7, H7. rewrite -Hw7 in Hi7, H7.
  split; [rewrite Hw7; by apply guar_locked|]. split; [done|].
  by apply (holder_ok rounds (o_Dir opts)).
Qed.
Lemma open_ok opts w : owner w ≠ Some i → okp (Open opts) w (λ _ _, True).
Proof.
  intros Hw. apply ok_bind. apply (ok_mono _ _ _ _ _ _ _ _ (λ _ w', owner w' ≠ Some i)).
  { apply (okp_call (λ w, owner w ≠ Some i)); [apply outside_stays|done|]. intros w1 H1 Hi1 x w2 Hx. assert (w2 = w1) as -> by (by destruct x).
    split; [apply world_guar_refl|]. split; [done|]. by destruct x. }
  intros [[]|e] w1 H1; [|done]. apply ok_bind. apply (ok_mono _ _ _ _ _ _ _ _ (λ _ w', owner w' ≠ Some i)).
  { apply (okp_call (λ w, owner w ≠ Some i)); [apply outside_stays|done|]. intros w2 H2 Hi2 x w3 Hx. assert (w3 = w2) as -> by (by destruct x).
    split; [apply world_guar_refl|]. split; [done|]. by destruct x. }
  intros [fd|e] w2 H2; [|done]. apply ok_bind. apply (ok_mono _ _ _ _ _ _ _ _ (λ _ w', releasable w')).
  2: { intros r w3 H3. apply ok_bind. apply (ok_mono _ _ _ _ _ _ _ _ _ _ (unlock_ok fd w3 H3)). done. }
  enough (okr (open_locked opts fd) w2 (λ _ w', releasable w') releasable) as H by (apply (ok_mono _ _ _ _ _ _ _ _ _ _ H); by intros [a|e]).
  apply (okr_fails (λ w, owner w ≠ Some i)); [apply outside_stays|done|]. intros w3 H3 Hi3 [[]|e] w4 Hw4.
  2: { assert (w4 = w3) as -> by exact Hw4. split; [apply world_guar_refl|]. split; [done|]. by intros ?. }
  destruct Hw4 as [[Ho|Ho] ->]; [|done]. pose proof (inv_pending w3 Hi3 Ho) as Hp. split; [|split].
  - intros j Hj. split; cbn; [rewrite Ho; split; congruence|]. rewrite Ho. congruence.
  - destruct Hi3 as [A1 A2 A3 A4 A5 A6]. by split.
  - assert (∀ w, locked w → releasable w) as Hlr by (by intros w' [_ H]).
    apply okr_bind. apply (okr_mono _ _ _ _ _ releasable (find_ok (o_Dir opts) _ (conj eq_refl Hp : locked (set_owner (Some i) w3)))); [|done].
    intros [e|] w5 [Hl Hc]; [by apply Hlr|]. apply okr_bind. apply (okr_mono _ _ (λ _ w', locked w') locked); [by apply create_ok, Hc| |done].
    intros id w6 H6. by apply Hlr.
Qed.
End Process.


(** *** Two commands in one directory *)

Definition next_pid (w : world) : Z := Z.of_nat (100 + size (entries w)).
(** The holder comes up when its socket is tried. *)
Definition come_up (id : string) (w : world) : world :=
  match pending w !! id with
  | Some e =>
      let p := next_pid w in
      if bool_decide (map_Forall (λ _ x, PID x ≠ p) (entries w)) then
        let w1 := set_entries (<[id := with_pid e p]> (entries w)) (set_procs ({[p]} ∪ procs w) (set_pending (delete id (pending w)) w)) in
        set_sockets ({[id]} ∪ sockets w1) w1
      else w
  | None => w
  end.
Lemma comes_up id w : rtc hstep w (come_up id w).
Proof.
  unfold come_up. destruct (pending w !! id) as [e|] eqn:E; [|apply rtc_refl]. case_bool_decide as Hf; [|apply rtc_refl].
  apply (rtc_l _ _ _ _ (h_record id e (next_pid w) w E ltac:(unfold next_pid; lia) (λ j x Hx, Hf j x Hx))). apply rtc_once.
  apply (h_listen id (with_pid e (next_pid w))); cbn; [by rewrite lookup_insert_eq|set_solver|by rewrite lookup_delete_eq].
Qed.
Definition lab_reply (i : nat) (c : scall) (w : world) : sanswer c * world :=
  match c as c return sanswer c * world with
  | FlockExclusive _ => if bool_decide (owner w = None) then (Ok (), set_owner (Some i) w) else (Err (), w)
  | OpenLock => (Ok 3%Z, w)
  | CloseLock _ => ((), if bool_decide (owner w = Some i) then set_owner None w else w)
  | ReadDir => (Ok (map (λ kv, entry_file kv.1) (map_to_list (entries w))), w)
  | ReadEntry id => (match entries w !! id with Some e => Ok e | None => Err true end, w)
  | WriteEntry e => (Ok (), set_entries (<[ID e := e]> (entries w)) w)
  | RemoveEntry id => ((), set_entries (delete id (entries w)) w)
  | RemoveSocket id => ((), set_sockets (sockets w ∖ {[id]}) w)
  | Kill0 pid => (bool_decide (pid ∈ procs w), w)
  | NewID => (if bool_decide (entries w !! "a1" = None ∧ pending w !! "a1" = None ∧ "a1" ∉ sockets w) then Ok "a1" else Err (), w)
  | StartHolder id => (Ok (), match entries w !! id with Some e => set_pending (<[id := e]> (pending w)) w | None => w end)
  | DialSocket id => (bool_decide (id ∈ sockets (come_up id w)), come_up id w)
  | AwaitHolder _ => (Tick, w)
  | KillHolder id => ((), set_pending (delete id (pending w)) (match entries w !! id with Some e => set_procs (procs w ∖ {[PID e]}) w | None => w end))
  | Now => (0%Z, w)
  | MkdirAll | Terminate _ | SendInfo _ | SendStarted _ | Relay _ => (Ok (), w)
  end.
Lemma lab_serves i c w : serve i c w (lab_reply i c w).1 (lab_reply i c w).2.
Proof.
  destruct c; try (exists w; split; [apply rtc_refl|]; cbn; done).
  - exists w. split; [apply rtc_refl|]. cbn. case_bool_decide; cbn; [split; [by left|done]|done].
  - exists w. split; [apply rtc_refl|]. cbn. split; [done|]. intros id [e He]. apply list_elem_of_fmap. exists (id, e). split; [done|]. by apply elem_of_map_to_list.
  - exists w. split; [apply rtc_refl|]. cbn. split; [done|]. by destruct (entries w !! id).
  - exists w. split; [apply rtc_refl|]. cbn. split; [done|]. apply bool_decide_eq_true.
  - exists w. split; [apply rtc_refl|]. cbn. split; [done|]. case_bool_decide; [by split|done].
  - exists (come_up id w). split; [apply comes_up|]. cbn. split; [done|]. apply bool_decide_eq_true.
Qed.
Definition lab_opts (cmd : string) : Options := {| o_Name := cmd; o_Dir := "/w"; o_Argv := [cmd]; o_Env := []; o_Rows := 24; o_Cols := 80 |}.
Definition lab_start : world := {| entries := ∅; procs := ∅; pending := ∅; sockets := ∅; owner := None |}.
Definition lab_openers : gmap nat Options := {[0%nat := lab_opts "claude"; 1%nat := lab_opts "codex"]}.
Definition lab_end : conf (C:=scall) (R:=sanswer) (result serr (string * bool)) :=
  foldl (tick lab_reply) (Open <$> lab_openers, lab_start) ([0; 1; 0; 1]%nat ++ repeat 0%nat 20 ++ repeat 1%nat 20).
