(* ===== verification/Dockerfiles.v ===== *)
(** * The Dockerfiles of workspace images

    The texts [src/internal/docker/docker.go] builds images from: the layers for
    Docker and the agent, the [BASE] argument of the workspace's own Dockerfile,
    and what the classic builder gets instead of cache mounts ([build.go]); where
    a Dockerfile comes from ([fetch.go]), the checksums of a release
    ([release.go]) and the hash of a build ([prune.go]). *)

From S2P Require Import Prelude GoStrings GoPath Agent.
Open Scope string_scope.
Open Scope list_scope.

Definition nl : string := sep1 (chr 10).
Definition quote : string := sep1 (chr 34).
Definition backslash : string := sep1 (chr 92).
(** The end of a line that is continued. *)
Definition bs : string := " " +:+ backslash.
Definition lines_of (l : list string) : string := foldr (λ a s, a +:+ nl +:+ s) "" l.

(** ** Sources *)

Inductive sourceType := sourceLocal | sourceHTTP.
Definition detectSourceType (value : string) : option sourceType :=
  if IsAbs value || HasPrefix value "~" then Some sourceLocal else
  if HasPrefix value "http://" || HasPrefix value "https://" then Some sourceHTTP else None.
Definition dockerfileLimit : Z := 1048576.

(** ** The BASE argument *)

Definition argLine : string := "ARG BASE" +:+ nl.
(** The first line with its newline, and the rest. *)
Fixpoint first_line (s : string) : string * string :=
  match s with
  | EmptyString => ("", "")
  | String c r => if Ascii.eqb c (chr 10) then (String c "", r) else let '(l, r') := first_line r in (String c l, r')
  end.
(** An empty line, or a comment that can be a parser directive. *)
Definition directive_line (line : string) : bool :=
  let line := TrimSpace line in String.eqb line "" || HasPrefix line "#" && Contains line "=".
Fixpoint leading (fuel : nat) (s : string) : string * string :=
  match fuel with
  | O => ("", s)
  | S n =>
      match s with
      | EmptyString => ("", "")
      | _ => let '(l, r) := first_line s in
             if directive_line l then let '(h, t) := leading n r in (l +:+ h, t) else ("", s)
      end
  end.
Definition injectBaseArg (content : string) : string :=
  let '(h, t) := leading (String.length content) content in h +:+ argLine +:+ t.

(** ** Layers *)

Definition asRoot (user : string) : bool :=
  negb (String.eqb user "") && negb (String.eqb user "root") && negb (String.eqb user "0") && negb (HasPrefix user "0:") && negb (HasPrefix user "root:").
Definition cleanCachesArg : string := "JAILOC_CLEAN_CACHES".
Definition layerHead : string := "# check=skip=InvalidDefaultArgInFrom" +:+ nl +:+ argLine.
Definition user_line (b : bool) (user : string) : string := if b then "USER " +:+ user +:+ nl else "".
Definition dockerLayerDockerfile (stages user : string) : string :=
  let switchUser := asRoot user in
  layerHead +:+ stages +:+ nl +:+ "FROM ${BASE}" +:+ nl +:+ user_line switchUser "root" +:+
  "ARG " +:+ cleanCachesArg +:+ nl +:+
  lines_of ["RUN --mount=type=cache,target=/var/cache/apt,sharing=locked" +:+ bs;
            "    --mount=type=cache,target=/var/lib/apt/lists,sharing=locked" +:+ bs;
            "    command -v nft >/dev/null || (apt-get update" +:+ bs;
            "    && DEBIAN_FRONTEND=noninteractive apt-get install -y --no-install-recommends nftables" +:+ bs;
            "    && if [ -n " +:+ quote +:+ "$" +:+ cleanCachesArg +:+ quote +:+ " ]; then apt-get clean && rm -rf /var/lib/apt/lists/*; fi)";
            "COPY --from=docker /out/bin/ /usr/local/bin/";
            "COPY --from=docker /out/cli-plugins/ /usr/local/lib/docker/cli-plugins/"] +:+
  user_line switchUser user.
Definition unameMachine (arch : string) : string :=
  if String.eqb arch "x64" then "x86_64" else if String.eqb arch "arm64" then "aarch64" else "".
Definition sum_of (sums : list (string * string)) (arch : string) : string := default "" (assoc arch sums).
Definition release_case (r : Release) (arch : string) : string :=
  "      " +:+ unameMachine arch +:+ ") arch=" +:+ arch +:+ " sha=" +:+ sum_of (rel_SHA256 r) arch +:+ " ;;" +:+ bs +:+ nl.
Definition releaseInstall (binary : string) (r : Release) : string :=
  "RUN set -eu;" +:+ bs +:+ nl +:+ "    case " +:+ quote +:+ "$(uname -m)" +:+ quote +:+ " in" +:+ bs +:+ nl +:+
  foldr (λ a s, release_case r a +:+ s) "" ReleaseArchs +:+
  lines_of ["      *) echo " +:+ quote +:+ "unsupported architecture $(uname -m)" +:+ quote +:+ " >&2; exit 1 ;;" +:+ bs;
            "    esac;" +:+ bs; "    tmp=$(mktemp -d);" +:+ bs;
            "    curl -fsSL -o " +:+ quote +:+ "$tmp/release.tar.gz" +:+ quote +:+ " " +:+ quote +:+ "https://github.com/" +:+ rel_Repo r +:+
              "/releases/download/" +:+ rel_Version r +:+ "/" +:+ AssetName r "${arch}" +:+ quote +:+ ";" +:+ bs;
            "    echo " +:+ quote +:+ "${sha}  $tmp/release.tar.gz" +:+ quote +:+ " | sha256sum -c -;" +:+ bs;
            "    tar -xzf " +:+ quote +:+ "$tmp/release.tar.gz" +:+ quote +:+ " -C " +:+ quote +:+ "$tmp" +:+ quote +:+ " '" +:+ rel_Binary r +:+ "';" +:+ bs;
            "    install -m 0755 " +:+ quote +:+ "$tmp/" +:+ rel_Binary r +:+ quote +:+ " '/usr/local/bin/" +:+ binary +:+ "';" +:+ bs;
            "    rm -rf " +:+ quote +:+ "$tmp" +:+ quote].
Definition npmInstall (h : Harness) : string :=
  "ARG " +:+ cleanCachesArg +:+ nl +:+
  "RUN --mount=type=cache,target=/root/.npm npm install -g --cache /root/.npm --allow-scripts='" +:+ h_Package h +:+ "' '" +:+ h_Package h +:+ "@" +:+ h_Version h +:+ "'" +:+ bs +:+ nl +:+
  "    && if [ -n " +:+ quote +:+ "$" +:+ cleanCachesArg +:+ quote +:+ " ]; then rm -rf /root/.npm; fi" +:+ nl.
Definition agentDockerfile (h : Harness) (user : string) : string :=
  let switchUser := asRoot user in
  layerHead +:+ "FROM ${BASE}" +:+ nl +:+ user_line switchUser "root" +:+
  (match h_Release h with Some r => releaseInstall (h_Binary h) r | None => npmInstall h end) +:+
  user_line switchUser user.

(** ** The classic builder *)

(** The cache mounts of the text, with the white space and the line
    continuation after each. *)
Definition re_space (c : ascii) : bool := let z := code c in (z =? 9)%Z || (z =? 10)%Z || (z =? 12)%Z || (z =? 13)%Z || (z =? 32)%Z.
Definition blank (c : ascii) : bool := (code c =? 9)%Z || (code c =? 32)%Z.
Fixpoint skip (p : ascii → bool) (s : string) : string :=
  match s with String c r => if p c then skip p r else s | EmptyString => "" end.
Definition skip_continuation (s : string) : string :=
  match CutPrefix s (backslash +:+ nl) with
  | Some r => skip blank r
  | None => match CutPrefix s (backslash +:+ sep1 (chr 13) +:+ nl) with Some r => skip blank r | None => s end
  end.
Fixpoint strip_mounts (fuel : nat) (s : string) : string :=
  match fuel with
  | O => s
  | S n =>
      match CutPrefix s "--mount=type=cache" with
      | Some r => strip_mounts n (skip_continuation (skip blank (skip (λ c, negb (re_space c)) r)))
      | None => match s with String c r => String c (strip_mounts n r) | EmptyString => "" end
      end
  end.
(** The Dockerfile and the arguments for BuildKit or the classic builder. *)
Definition forBuilder (buildKit : bool) (dockerfile : string) (args : gmap string string) : string * gmap string string :=
  if buildKit then (dockerfile, args) else (strip_mounts (S (String.length dockerfile)) dockerfile, <[cleanCachesArg := "1"]> args).

(** ** Releases *)

Definition hex_char (c : ascii) : bool := is_digit c || between "a" "f" c.
Definition is_sha256 (s : string) : bool := (String.length s =? 64)%nat && sforall hex_char s.
(** The checksum of one asset name: the last asset of that name wins. *)
Fixpoint asset_sum (name : string) (assets : list (string * string)) (acc : string) : option string :=
  match assets with
  | [] => Some acc
  | (n, digest) :: assets =>
      if negb (String.eqb n name) then asset_sum name assets acc else
      match CutPrefix digest "sha256:" with
      | Some sum => if is_sha256 sum then asset_sum name assets sum else None
      | None => None
      end
  end.
Fixpoint sums_of (r : Release) (archs : list string) (assets : list (string * string)) : option (list (string * string)) :=
  match archs with
  | [] => Some []
  | arch :: archs =>
      match asset_sum (AssetName r arch) assets "" with
      | Some sum => if String.eqb sum "" then None else cons (arch, sum) <$> sums_of r archs assets
      | None => None
      end
  end.
Definition releaseChecksums (r : Release) (assets : list (string * string)) : option (list (string * string)) := sums_of r ReleaseArchs assets.
Definition with_sums (r : Release) (version : string) (sums : list (string * string)) : Release :=
  {| rel_Repo := rel_Repo r; rel_Asset := rel_Asset r; rel_Binary := rel_Binary r; rel_Version := version; rel_SHA256 := sums |}.

(** ** The hash of a build *)

(** What is hashed: the Dockerfile and the arguments in the order of their names. *)
Definition hashed_content (dockerfile : string) (args : gmap string string) : string :=
  foldl (λ acc k, match args !! k with Some v => acc +:+ sep1 (chr 0) +:+ k +:+ "=" +:+ v | None => acc end)
    dockerfile (sort_strings (map fst (map_to_list args))).

(** ** Properties *)

Lemma first_line_app s : let '(l, r) := first_line s in s = l +:+ r.
Proof. induction s as [|c s IH]; cbn; [done|]. destruct (Ascii.eqb c _); [done|]. destruct (first_line s) as [l r]. by rewrite {1}IH. Qed.
Lemma first_line_shorter s : s ≠ "" → (String.length (first_line s).2 < String.length s)%nat.
Proof.
  intros Hs. pose proof (first_line_app s) as H. destruct s as [|c s]; [done|]. cbn in *. destruct (Ascii.eqb c _); [cbn; lia|].
  destruct (first_line s) as [l r]. cbn in H. injection H as ->. cbn. rewrite slength_app. lia.
Qed.
(** The lines of [h] are all leading ones. *)
Inductive directives : string → Prop :=
| directives_nil : directives ""
| directives_cons l h : directive_line l = true → directives h → directives (l +:+ h).
Lemma leading_spec n s : (String.length s ≤ n)%nat → let '(h, t) := leading n s in
  s = h +:+ t ∧ directives h ∧ (t = "" ∨ directive_line (first_line t).1 = false).
Proof.
  revert s. induction n as [|n IH]; intros s Hn.
  - destruct s; [|cbn in Hn; lia]. cbn. split_and!; [done|constructor|by left].
  - cbn [leading]. destruct s as [|c s]; [split_and!; [done|constructor|by left]|].
    pose proof (first_line_shorter (String c s) ltac:(done)) as Hl. pose proof (first_line_app (String c s)) as Ha.
    destruct (first_line (String c s)) as [l r] eqn:Ef. cbn in Hl. destruct (directive_line l) eqn:Ed.
    + specialize (IH r ltac:(cbn in Hn; lia)). destruct (leading n r) as [h t]. destruct IH as (-> & Hd & Ht). split_and!; [by rewrite Ha sapp_assoc|by constructor|done].
    + split_and!; [done|constructor|right]. by rewrite Ef.
Qed.
(** [ARG BASE] comes right after the leading directives and empty lines, and
    nothing else changes. *)
Lemma injectBaseArg_spec content : ∃ h t, content = h +:+ t ∧ injectBaseArg content = h +:+ argLine +:+ t ∧ directives h ∧
  (t = "" ∨ directive_line (first_line t).1 = false).
Proof.
  unfold injectBaseArg. pose proof (leading_spec (String.length content) content ltac:(lia)) as H. destruct (leading _ content) as [h t].
  destruct H as (E & Hd & Ht). by exists h, t.
Qed.
Lemma asset_sum_spec name assets acc sum : asset_sum name assets acc = Some sum →
  sum = acc ∨ is_sha256 sum = true ∧ (name, "sha256:" +:+ sum) ∈ assets.
Proof.
  revert acc. induction assets as [|[n d] assets IH]; intros acc; cbn [asset_sum]; [intros [= ->]; by left|].
  destruct (String.eqb_spec n name) as [->|_]; cbn [negb]; [|intros [H|[H1 H2]]%IH; [by left|right; split; [done|by right]]].
  destruct (CutPrefix d "sha256:") as [x|] eqn:Ec; [|done]. apply CutPrefix_Some in Ec as ->. destruct (is_sha256 x) eqn:Ex; [|done].
  intros [->|[H1 H2]]%IH; right; split; [done|by left|done|by right].
Qed.
(** The checksums that end up in the shell commands of a layer are 64
    hexadecimal digits, one per architecture, and are those of the assets. *)
Lemma releaseChecksums_safe r assets sums : releaseChecksums r assets = Some sums →
  map fst sums = ReleaseArchs ∧ ∀ arch sum, (arch, sum) ∈ sums → is_sha256 sum = true ∧ (AssetName r arch, "sha256:" +:+ sum) ∈ assets.
Proof.
  unfold releaseChecksums. generalize ReleaseArchs. intros archs. revert sums. induction archs as [|a archs IH]; intros sums; cbn [sums_of].
  { intros [= <-]. split; [done|]. by intros ? ? ?%elem_of_nil. }
  destruct (asset_sum (AssetName r a) assets "") as [s|] eqn:Es; [|done]. destruct (String.eqb_spec s "") as [|Hne]; [done|].
  destruct (sums_of r archs assets) as [l|]; [|done]. intros [= <-]. destruct (IH l eq_refl) as [H1 H2]. split; [cbn; by rewrite H1|].
  intros arch sum [[= -> ->]|H]%elem_of_cons; [|by apply H2]. destruct (asset_sum_spec _ _ _ _ Es) as [->|H]; [done|exact H].
Qed.
(** Examples: a directive is kept first, and a cache mount goes with its line. *)
Example inject_example : injectBaseArg ("# syntax=x" +:+ nl +:+ "FROM ${BASE}" +:+ nl) = "# syntax=x" +:+ nl +:+ "ARG BASE" +:+ nl +:+ "FROM ${BASE}" +:+ nl.
Proof. vm_compute. reflexivity. Qed.
Example strip_example : (forBuilder false ("RUN --mount=type=cache,target=/a" +:+ bs +:+ nl +:+ "    make") ∅).1 = "RUN make".
Proof. vm_compute. reflexivity. Qed.
