(* ===== verification/DockerBuild.v ===== *)
(** * Building the image of a workspace

    [ResolveAndLayerImage] of [src/internal/cmd/up.go] and the builds of
    [src/internal/docker]: the base image, the Docker and agent layers and the
    workspace's own Dockerfile, as programs over the calls to the Docker daemon,
    the file system and the network. Progress and log messages are left out. *)

From S2P Require Import Prelude GoStrings GoPath Agent Config Resolve Prog Dockerfiles.
Open Scope string_scope.
Open Scope list_scope.

(** What the daemon says of an image. *)
Record inspect := { in_ID : string; in_Os : string; in_Arch : string; in_User : string; in_Labels : gmap string string }.
Record buildOptions := {
  bo_Tag : string; bo_Args : gmap string string; bo_Labels : gmap string string; bo_Context : string; bo_Dockerfile : string; bo_BuildKit : bool
}.
Inductive bcall :=
| NewClient | CloseClient | PingBuilder | ImageInspect (ref : string) | PullImage (ref platform : string) | ImageBuild (o : buildOptions)
| MkdirTemp (pattern : string) | RemoveAll (p : string) | CreateTemp (dir pattern : string) | RemoveFile (p : string)
| WriteFile (p data : string) | CloseFile (p : string) | Tar (dir : string)
| LookupEnv (k : string) | ReadLimited (p : string) (limit : Z) | HttpGet (url : string) (limit : Z) | FetchRelease (repo version : string).
(** [PingBuilder] says whether the daemon builds with BuildKit, [ImageInspect]
    whether an image is missing, and the two network calls give the status. *)
Definition banswer (c : bcall) : Type :=
  match c with
  | PingBuilder => result () bool
  | ImageInspect _ => result bool inspect
  | MkdirTemp _ | CreateTemp _ _ | ReadLimited _ _ => result () string
  | LookupEnv _ => option string
  | HttpGet _ _ => result () (Z * string)
  | FetchRelease _ _ => result () (Z * option (list (string * string)))
  | CloseClient | RemoveAll _ | RemoveFile _ => ()
  | _ => result () ()
  end.
Notation bitem := (item bcall banswer).
Notation bprog := (prog bcall banswer).
Notation bio := (io bcall banswer string).
Definition bask (c : bcall) : bio (banswer c) := run (call c).
Definition orfail {E A} (what : string) (p : bprog (result E A)) : bio A := wrap (λ _, what) p.

Section Docker.
(** The SHA-256 of a text in hexadecimal, the architecture, and the embedded
    Dockerfiles. *)
Context (sha256 : string → string) (GOARCH embeddedDockerfile dockerLayer : string).
Definition platform : string := "linux/" +:+ GOARCH.
Definition imagePlatform (i : inspect) : string := in_Os i +:+ "/" +:+ in_Arch i.
Definition ImageLabel : string := "com.github.seznam.jailoc".
Definition ContentLabel : string := "com.github.seznam.jailoc.content".
Definition buildLabels : gmap string string := {[ImageLabel := "1"]}.
Definition contentHash (dockerfile : string) (args : gmap string string) : string := sha256 (hashed_content dockerfile args).
Definition with_client {A} (m : bio A) : bio A :=
  _ ← orfail "create Docker Engine client" (call NewClient); finally m (call CloseClient).

(** ** Images that are there *)

Definition haveImage (tag hash : string) : bio bool :=
  r ← bask (ImageInspect tag);
  mret (match (r : result bool inspect) with
        | Ok i => String.eqb (imagePlatform i) platform && (String.eqb hash "" || bool_decide (in_Labels i !! ContentLabel = Some hash))
        | Err _ => false
        end).
Definition EnsureImage (ref : string) : bio () := with_client (
  r ← bask (ImageInspect ref);
  have ← match (r : result bool inspect) with
         | Ok i => mret (String.eqb (imagePlatform i) platform)
         | Err missing => if missing then mret false else throw "inspect image"
         end;
  if (have : bool) then mret () else
  _ ← orfail "pull image" (call (PullImage ref platform));
  i ← orfail "inspect image" (call (ImageInspect ref));
  check (String.eqb (imagePlatform i) platform) "image is for another platform").

(** ** Builds *)

Definition proxy_keys : list string :=
  ["HTTP_PROXY"; "http_proxy"; "HTTPS_PROXY"; "https_proxy"; "NO_PROXY"; "no_proxy"; "FTP_PROXY"; "ftp_proxy"; "ALL_PROXY"; "all_proxy"].
Fixpoint lookup_args (keys : list string) : bio (gmap string string) :=
  match keys with
  | [] => mret ∅
  | k :: keys => v ← bask (LookupEnv k); m ← lookup_args keys; mret (match (v : option string) with Some x => <[k := x]> m | None => m end)
  end.
Definition proxyBuildArgs : bio (gmap string string) := lookup_args proxy_keys.
Definition builderVersion : bio bool := orfail "ping Docker daemon" (call PingBuilder).
Definition loadDockerfile (source : string) : bio string :=
  match detectSourceType source with
  | None => throw "load dockerfile"
  | Some sourceLocal =>
      data ← orfail "read dockerfile" (call (ReadLimited source (dockerfileLimit + 1)));
      _ ← check (Z.of_nat (String.length data) <=? dockerfileLimit)%Z "dockerfile exceeds 1MiB limit"; mret data
  | Some sourceHTTP =>
      sb ← orfail "fetch dockerfile" (call (HttpGet source (dockerfileLimit + 1)));
      _ ← check (sb.1 =? 200)%Z "unexpected status";
      _ ← check (Z.of_nat (String.length sb.2) <=? dockerfileLimit)%Z "dockerfile exceeds 1MiB limit"; mret sb.2
  end.
(** A temporary build context with one Dockerfile. *)
Definition with_context {A} (pattern : string) (m : string → bio A) : bio A :=
  dir ← orfail "create temp directory" (call (MkdirTemp pattern));
  finally (m dir) (call (RemoveAll dir)).
Definition dockerfile_in (dir : string) : string := JoinPath [dir; "Dockerfile"].
Definition build (o : buildOptions) : bio () :=
  _ ← orfail "create build context" (call (Tar (bo_Context o)));
  orfail "build image" (call (ImageBuild o)).
Definition options_for (tag : string) (args labels : gmap string string) (dir : string) (kit : bool) : buildOptions :=
  {| bo_Tag := tag; bo_Args := args; bo_Labels := labels; bo_Context := dir; bo_Dockerfile := ""; bo_BuildKit := kit |}.
Definition buildEmbeddedImage (tag : string) : bio () := with_context "jailoc-embedded-dockerfile-" (λ dir,
  kit ← builderVersion;
  args ← proxyBuildArgs;
  let '(content, args) := forBuilder kit embeddedDockerfile args in
  let hash := contentHash content args in
  have ← haveImage tag hash;
  if (have : bool) then mret () else
  _ ← orfail "write embedded Dockerfile" (call (WriteFile (dockerfile_in dir) content));
  build (options_for tag args (<[ContentLabel := hash]> buildLabels) dir kit)).
Definition presetTag (content : string) : string := "jailoc-base:preset-" +:+ stake 16 (sha256 content).
Definition buildPresetImage (content : string) : bio string :=
  if String.eqb content "" then throw "dockerfile content is empty" else
  with_context "jailoc-preset-dockerfile-" (λ dir,
    _ ← orfail "write preset Dockerfile" (call (WriteFile (dockerfile_in dir) content));
    _ ← orfail "create build context" (call (Tar dir));
    kit ← builderVersion;
    args ← proxyBuildArgs;
    _ ← orfail "build image" (call (ImageBuild (options_for (presetTag content) args buildLabels dir kit)));
    mret (presetTag content)).
Definition embeddedTag : string := "jailoc-base:embedded".
Definition ResolveBaseImage (cfg : Config) : bio string :=
  let source := TrimSpace (base_Dockerfile (c_Base cfg)) in
  if negb (String.eqb source "") then
    content ← loadDockerfile source;
    with_client (buildPresetImage content)
  else with_client (_ ← buildEmbeddedImage embeddedTag; mret embeddedTag).

(** A layer on [base]: the tag names the image below and the Dockerfile. *)
Definition layer_tag (repo id content : string) : string := repo +:+ ":" +:+ stake 16 (sha256 (id +:+ nl +:+ content)).
Definition buildLayerImage (base repo : string) (dockerfile : string → string) : bio string :=
  _ ← EnsureImage base;
  with_client (
    i ← orfail "inspect image" (call (ImageInspect base));
    kit ← builderVersion;
    args ← proxyBuildArgs;
    let '(content, args) := forBuilder kit (dockerfile (in_User i)) args in
    let tag := layer_tag repo (in_ID i) content in
    have ← haveImage tag "";
    if (have : bool) then mret tag else
    with_context "jailoc-layer-dockerfile-" (λ dir,
      _ ← orfail "write layer Dockerfile" (call (WriteFile (dockerfile_in dir) content));
      _ ← build (options_for tag (<["BASE" := base]> args) buildLabels dir kit);
      mret tag)).
Definition resolveRelease (r : Release) (version : string) : bio Release :=
  if String.eqb version (rel_Version r) then mret r else
  sa ← orfail "fetch release" (call (FetchRelease (rel_Repo r) version));
  _ ← check (sa.1 =? 200)%Z "unexpected status";
  match sa.2 with
  | None => throw "decode release"
  | Some assets =>
      match releaseChecksums r assets with
      | Some sums => mret (with_sums r version sums)
      | None => throw "release checksums"
      end
  end.
Definition with_release (h : Harness) (r : Release) : Harness := {|
  h_Name := h_Name h; h_Title := h_Title h; h_Binary := h_Binary h; h_Package := h_Package h; h_Version := h_Version h;
  h_Release := Some r; h_Continue := h_Continue h; h_Resume := h_Resume h; h_Unattended := h_Unattended h; h_Env := h_Env h;
  h_State := h_State h; h_Mounts := h_Mounts h; h_TUIPlugin := h_TUIPlugin h; h_ConfigDir := h_ConfigDir h;
  h_ConfigGitignore := h_ConfigGitignore h; h_Installs := h_Installs h |}.
Definition agent_repo (h : Harness) : string := "jailoc-agent-" +:+ h_Name h.
Definition BuildAgentImage (base : string) (h : Harness) : bio string :=
  h ← match h_Release h with
      | Some r => r ← resolveRelease r (h_Version h); mret (with_release h r)
      | None => mret h
      end;
  buildLayerImage base (agent_repo h) (agentDockerfile h).
Definition docker_repo : string := "jailoc-docker".
Definition BuildDockerImage (base : string) : bio string := buildLayerImage base docker_repo (dockerLayerDockerfile dockerLayer).

(** The workspace's own Dockerfile. *)
Definition resolveOverlayBuildContext (ws : Resolved) : bio (string * bool) :=
  if negb (String.eqb (TrimSpace (r_BuildContext ws)) "") then mret (r_BuildContext ws, false) else
  match detectSourceType (r_Dockerfile ws) with
  | None => throw "detect dockerfile source type"
  | Some sourceLocal => mret (Dir (r_Dockerfile ws), false)
  | Some sourceHTTP => dir ← orfail "create temporary build context" (call (MkdirTemp "jailoc-overlay-context-")); mret (dir, true)
  end.
Definition overlayTag (ws : Resolved) (content : string) : string := "jailoc-" +:+ r_Name ws +:+ ":" +:+ stake 8 (sha256 content).
Definition build_overlay (base : string) (ws : Resolved) (content dir : string) : bio string :=
  file ← orfail "write temporary workspace Dockerfile" (call (CreateTemp dir "jailoc-overlay-*.Dockerfile"));
  finally (
    w ← bask (WriteFile file content);
    match (w : result () ()) with
    | Err _ => _ ← bask (CloseFile file); throw "write temporary workspace Dockerfile"
    | Ok _ =>
        _ ← orfail "close temporary workspace Dockerfile" (call (CloseFile file));
        with_client (
          _ ← orfail "create build context" (call (Tar dir));
          args ← proxyBuildArgs;
          kit ← builderVersion;
          _ ← orfail "build workspace overlay image" (call (ImageBuild {|
                bo_Tag := overlayTag ws content; bo_Args := <["BASE" := base]> args; bo_Labels := buildLabels;
                bo_Context := dir; bo_Dockerfile := Base file; bo_BuildKit := kit |}));
          mret (overlayTag ws content))
    end) (call (RemoveFile file)).
Definition BuildOverlayImage (base : string) (ws : Resolved) : bio string :=
  if String.eqb (TrimSpace base) "" then throw "base image is empty" else
  if String.eqb (TrimSpace (r_Dockerfile ws)) "" then mret base else
  raw ← orfail "load workspace dockerfile" (loadDockerfile (r_Dockerfile ws));
  let content := injectBaseArg raw in
  dt ← resolveOverlayBuildContext ws;
  finally (build_overlay base ws content (dt : string * bool).1) (if dt.2 then call (RemoveAll dt.1) else Ret ()).

(** ** The image of a workspace *)

Inductive imageStrategy := strategyDirectImage | strategyDefaultsDirect | strategyDefaultsOverlay | strategyCascade.
Definition resolveImageStrategy (wsImage defaultsImage wsDockerfile : string) : imageStrategy * string :=
  if negb (String.eqb wsImage "") then (strategyDirectImage, wsImage) else
  if negb (String.eqb defaultsImage "") then
    if negb (String.eqb wsDockerfile "") then (strategyDefaultsOverlay, defaultsImage) else (strategyDefaultsDirect, defaultsImage)
  else (strategyCascade, "").
(** The last image of a chain, which is never empty. *)
Definition tip (chain : list string) : string := List.last chain "".
Definition workspaceLayers (ws : Resolved) (chain : list string) : bio (list string) :=
  chain ← (if r_EnableDocker ws then image ← orfail "add Docker to the workspace image" (BuildDockerImage (tip chain)); mret (chain ++ [image])
           else mret chain);
  if negb (r_AgentInstall ws) then mret chain else
  image ← orfail "install the agent into the workspace image" (BuildAgentImage (tip chain) (r_Agent ws));
  mret (chain ++ [image]).
Definition layered (ws : Resolved) (base : string) : bio (string * list string) :=
  chain ← workspaceLayers ws [base];
  final ← orfail "build workspace overlay image" (BuildOverlayImage (tip chain) ws);
  mret (final, chain ++ [final]).
Definition ResolveAndLayerImage (cfg : Config) (ws : Resolved) : bio (string * list string) :=
  let '(strategy, image) := resolveImageStrategy (r_Image ws) (d_Image (c_Defaults cfg)) (r_Dockerfile ws) in
  match strategy with
  | strategyDirectImage | strategyDefaultsDirect => mret (image, [image])
  | strategyDefaultsOverlay => layered ws image
  | strategyCascade => base ← orfail "resolve base image" (ResolveBaseImage cfg); layered ws base
  end.
End Docker.
