(* ===== verification/DockerBuildSpec.v ===== *)
(** * How the image of a workspace is made

    What [ResolveAndLayerImage] returns: the images from the base to the final
    one, each built from the one before it with the Dockerfile of its layer. *)

From S2P Require Import Prelude GoStrings GoPath Agent Config Resolve Prog Dockerfiles DockerBuild.
From Stdlib Require Import SpecFloat.
From S2P Require ConfigChecks VmLab.
Open Scope string_scope.
Open Scope list_scope.

Section Chain.
Context (sha256 : string → string) (GOARCH embeddedDockerfile dockerLayer : string).
Local Notation have_image := (haveImage GOARCH).
Local Notation made := (made (C:=bcall) (R:=banswer)).
(** The daemon has the image for the architecture of the VMs. *)
Definition present (h : list bitem) (tag : string) : Prop := ∃ i, made h (ImageInspect tag) (Ok i) ∧ imagePlatform i = platform GOARCH.
(** [b] is the layer [repo] on [a]: its tag names the image below and the
    Dockerfile, and it was there or was built from them. *)
Definition layer_on (h : list bitem) (repo : string) (dockerfile : string → string) (a b : string) : Prop :=
  present h a ∧ ∃ i kit args, made h (ImageInspect a) (Ok i) ∧
    let '(content, args) := forBuilder kit (dockerfile (in_User i)) args in
    b = layer_tag sha256 repo (in_ID i) content ∧
    (present h b ∨ ∃ dir, made h (WriteFile (dockerfile_in dir) content) (Ok ()) ∧
                          made h (ImageBuild (options_for b (<["BASE" := a]> args) buildLabels dir kit)) (Ok ())).
(** [b] is the workspace's own Dockerfile built on [a], or [a] without one. *)
Definition overlay_on (h : list bitem) (ws : Resolved) (a b : string) : Prop :=
  if String.eqb (TrimSpace (r_Dockerfile ws)) "" then b = a else
  ∃ raw dir file args kit, b = overlayTag sha256 ws (injectBaseArg raw) ∧ made h (WriteFile file (injectBaseArg raw)) (Ok ()) ∧
    made h (ImageBuild {| bo_Tag := b; bo_Args := <["BASE" := a]> args; bo_Labels := buildLabels; bo_Context := dir;
                          bo_Dockerfile := Base file; bo_BuildKit := kit |}) (Ok ()).
(** The release an agent is installed from has checked checksums: the pinned
    ones, or those the release has been published with. *)
Definition release_of (h : list bitem) (r r' : Release) (version : string) : Prop :=
  r' = r ∧ version = rel_Version r ∨
  ∃ assets sums, made h (FetchRelease (rel_Repo r) version) (Ok (200, Some assets)) ∧ releaseChecksums r assets = Some sums ∧ r' = with_sums r version sums.
Definition agent_of (h : list bitem) (a a' : Harness) : Prop :=
  match h_Release a with
  | None => a' = a
  | Some r => ∃ r', release_of h r r' (h_Version a) ∧ a' = with_release a r'
  end.
Lemma lasting_present tag : lasting (λ h, present h tag).
Proof. unfold present. eauto with lasting. Qed.
Lemma lasting_layer repo f a b : lasting (λ h, layer_on h repo f a b).
Proof.
  apply lasting_and; [apply lasting_present|]. apply lasting_ex; intros i. apply lasting_ex; intros kit. apply lasting_ex; intros args.
  apply lasting_and; [apply lasting_in|]. destruct (forBuilder kit (f (in_User i)) args) as [content args']. apply lasting_and; [apply lasting_const|].
  apply lasting_or; [apply lasting_present|]. apply lasting_ex; intros dir. apply lasting_and; apply lasting_in.
Qed.
Lemma lasting_overlay ws a b : lasting (λ h, overlay_on h ws a b).
Proof.
  unfold overlay_on. destruct (String.eqb _ _); [apply lasting_const|]. do 5 (apply lasting_ex; intros ?). apply lasting_and; [apply lasting_const|].
  apply lasting_and; apply lasting_in.
Qed.
Lemma lasting_release r r' v : lasting (λ h, release_of h r r' v).
Proof.
  apply lasting_or; [apply lasting_const|]. do 2 (apply lasting_ex; intros ?). apply lasting_and; [apply lasting_in|apply lasting_const].
Qed.
Lemma lasting_agent a a' : lasting (λ h, agent_of h a a').
Proof.
  unfold agent_of. destruct (h_Release a); [|apply lasting_const]. apply lasting_ex; intros r'. apply lasting_and; [apply lasting_release|apply lasting_const].
Qed.
Lemma client_reaches {A} (m : bio A) h (Q : A → list bitem → Prop) : (∀ a, lasting (Q a)) → (∀ t, reaches m (h ++ t) Q) → reaches (with_client m) h Q.
Proof.
  intros HQ Hm. apply (after_bind _ _ _ _ (λ _ _, True)); [apply reaches_true|]. intros _ t _. by apply reach_finally.
Qed.
Lemma have_reaches tag hash h : reaches (have_image tag hash) h (λ b h', b = true → present h' tag).
Proof.
  apply (reach_ask (λ _, True)); [done|done|]. intros r h' _ Hr. apply after_ret. destruct r as [i|]; [|done].
  intros [He _]%andb_true_iff. apply String.eqb_eq in He. by exists i.
Qed.
Lemma ensure_reaches ref h : reaches (EnsureImage GOARCH ref) h (λ _ h', present h' ref).
Proof.
  apply client_reaches; [intros; apply lasting_present|]. intros t. generalize (h ++ t). intros h0. apply (reach_ask (λ _, True)); [done|done|].
  intros r h1 _ Hr. apply (after_bind _ _ _ _ (λ b h', b = true → present h' ref)).
  { destruct r as [i|[|]]; [apply after_ret; intros He%String.eqb_eq; by exists i|by apply after_ret|done]. }
  intros [|] t1 Hb; [by apply after_ret, Hb|]. apply (reach_skip (λ _, True)); [done|done|]. intros _ h2 _.
  apply (reach_bind (λ _, True)); [done|done|]. intros i x h3 _ Hi ->. apply after_check. intros He%String.eqb_eq. by exists i.
Qed.
Lemma layer_reaches base repo f h : reaches (buildLayerImage sha256 GOARCH base repo f) h (λ b h', layer_on h' repo f base b).
Proof.
  apply (after_step _ (λ _, True) (λ _ h', present h' base)); [done|done|apply ensure_reaches|]. intros _ h1 _ H1.
  apply client_reaches; [intros; apply lasting_layer|]. intros t. apply (lasting_present _ _ t) in H1. revert H1. generalize (h1 ++ t). intros h2 H2.
  apply (reach_bind (λ h, present h base)); [apply lasting_present|done|]. intros i x h3 H3 Hi ->.
  apply (reach_skip (λ h, present h base ∧ made h (ImageInspect base) (Ok i))); [apply lasting_and; [apply lasting_present|apply lasting_in]|done|].
  intros kit h4 H4. apply (reach_skip (λ h, present h base ∧ made h (ImageInspect base) (Ok i))); [apply lasting_and; [apply lasting_present|apply lasting_in]|done|].
  intros args h5 H5. destruct (forBuilder kit (f (in_User i)) args) as [content args'] eqn:Ef. set (tag := layer_tag sha256 repo (in_ID i) content).
  assert (∀ h, present h base ∧ made h (ImageInspect base) (Ok i) →
    (present h tag ∨ ∃ dir, made h (WriteFile (dockerfile_in dir) content) (Ok ()) ∧ made h (ImageBuild (options_for tag (<["BASE" := base]> args') buildLabels dir kit)) (Ok ())) →
    layer_on h repo f base tag) as Hdone.
  { intros h' [Hp Hm] Hb. split; [done|]. exists i, kit, args. rewrite Ef. done. }
  apply (after_step _ (λ h, present h base ∧ made h (ImageInspect base) (Ok i)) _ _ _ _ _ (lasting_and _ _ (lasting_present _) (lasting_in _)) H5 (have_reaches tag "" h5)).
  intros [|] h6 H6 Hb; [apply after_ret, Hdone; [done|left; by apply Hb]|].
  apply (reach_skip (λ h, present h base ∧ made h (ImageInspect base) (Ok i))); [apply lasting_and; [apply lasting_present|apply lasting_in]|done|].
  intros dir h7 H7. apply reach_finally; [intros; apply lasting_layer|].
  apply (reach_bind (λ h, present h base ∧ made h (ImageInspect base) (Ok i))); [apply lasting_and; [apply lasting_present|apply lasting_in]|done|].
  intros [] x h8 H8 Hw ->. unfold build. set (F := λ h : list bitem, (present h base ∧ made h (ImageInspect base) (Ok i)) ∧ made h (WriteFile (dockerfile_in dir) content) (Ok ())).
  assert (lasting F) as HF by (apply lasting_and; [apply lasting_and; [apply lasting_present|apply lasting_in]|apply lasting_in]).
  apply (after_step _ F (λ _ h', made h' (ImageBuild (options_for tag (<["BASE" := base]> args') buildLabels dir kit)) (Ok ())) _ _ _ _ HF); [by split| |].
  - apply (reach_skip (λ _, True)); [done|done|]. intros _ h9 _. cbn. split; [done|]. intros [[]|[]]; cbn; [|done]. apply elem_of_app. right. by left.
  - intros [] h9 [H9 Hw9] Hb9. apply after_ret, Hdone; [done|]. right. exists dir. done.
Qed.
Lemma resolve_reaches r version h : reaches (resolveRelease r version) h (λ r' h', release_of h' r r' version).
Proof.
  unfold resolveRelease. destruct (String.eqb version (rel_Version r)) eqn:Ev.
  { apply after_ret. left. apply String.eqb_eq in Ev. done. }
  apply (reach_bind (λ _, True)); [done|done|]. intros sa x h1 _ Hx ->.
  destruct sa as [status o]. unfold fst, snd. destruct (status =? 200)%Z eqn:Hs; [|exact I].
  destruct o as [assets|]; [|exact I]. destruct (releaseChecksums r assets) as [sums|] eqn:Es; [|exact I]. right. exists assets, sums. apply Z.eqb_eq in Hs as ->. done.
Qed.
Lemma reach_keep {A} (F : list bitem → Prop) (m : bio A) h (Q : A → list bitem → Prop) :
  lasting F → F h → reaches m h Q → reaches m h (λ a h', F h' ∧ Q a h').
Proof.
  intros HF Hh Hm. apply after_and; [|done]. clear Hm. revert h Hh. unfold after. induction m as [[a|e]|c k IH]; intros h Hh; cbn; [done|done|].
  split; [done|]. intros x. apply IH. by apply HF.
Qed.
Lemma agent_reaches base a h :
  reaches (BuildAgentImage sha256 GOARCH base a) h (λ b h', ∃ a', agent_of h' a a' ∧ layer_on h' (agent_repo a) (agentDockerfile a') base b).
Proof.
  apply (after_step _ (λ _, True) (λ a' h', agent_of h' a a' ∧ agent_repo a' = agent_repo a)); [done|done| |].
  - unfold agent_of. destruct (h_Release a) as [r|] eqn:Er; [|by apply after_ret].
    apply (after_step _ (λ _, True) (λ r' h', release_of h' r r' (h_Version a))); [done|done|apply resolve_reaches|].
    intros r' h1 _ H1. apply after_ret. split; [by exists r'|done].
  - intros a' h1 _ [Ha Hr]. rewrite -Hr.
    apply (after_mono _ _ _ _ _ (reach_keep _ _ _ _ (lasting_agent a a') Ha (layer_reaches base (agent_repo a') (agentDockerfile a') h1))). eauto.
Qed.
Lemma overlay_reaches base ws h : reaches (BuildOverlayImage sha256 base ws) h (λ b h', overlay_on h' ws base b).
Proof.
  unfold BuildOverlayImage, overlay_on. destruct (String.eqb (TrimSpace base) ""); [done|].
  destruct (String.eqb (TrimSpace (r_Dockerfile ws)) ""); [by apply after_ret|].
  apply (reach_skip (λ _, True)); [done|done|]. intros raw h1 _. apply (reach_skip (λ _, True)); [done|done|]. intros [dir temp] h2 _.
  apply reach_finally; [intros; do 5 (apply lasting_ex; intros ?); apply lasting_and; [apply lasting_const|apply lasting_and; apply lasting_in]|].
  unfold build_overlay. apply (reach_skip (λ _, True)); [done|done|]. intros file h3 _.
  apply reach_finally; [intros; do 5 (apply lasting_ex; intros ?); apply lasting_and; [apply lasting_const|apply lasting_and; apply lasting_in]|].
  apply (reach_ask (λ _, True)); [done|done|]. intros [[]|[]] h4 _ Hw; [|by apply (reach_skip (λ _, True))].
  set (F := λ h : list bitem, made h (WriteFile file (injectBaseArg raw)) (Ok ())). assert (lasting F) as HF by apply lasting_in.
  apply (reach_skip F); [done|done|]. intros _ h5 H5.
  apply client_reaches; [intros; do 5 (apply lasting_ex; intros ?); apply lasting_and; [apply lasting_const|apply lasting_and; apply lasting_in]|].
  intros t. apply (HF _ t) in H5. revert H5. generalize (h5 ++ t). intros h6 H6.
  apply (reach_skip F); [done|done|]. intros _ h7 H7. apply (reach_skip F); [done|done|]. intros args h8 H8. apply (reach_skip F); [done|done|]. intros kit h9 H9.
  apply (reach_bind F); [done|done|]. intros [] [[]|[]] h10 H10 Hb; [intros _|done]. apply after_ret. by exists raw, dir, file, args, kit.
Qed.

(** The layers of a workspace on [base]. *)
Definition docker_layer (h : list bitem) (ws : Resolved) (base : string) (layer : list string) : Prop :=
  if r_EnableDocker ws then ∃ b, layer = [b] ∧ layer_on h docker_repo (dockerLayerDockerfile dockerLayer) base b else layer = [].
Definition agent_layer (h : list bitem) (ws : Resolved) (base : string) (layer : list string) : Prop :=
  if r_AgentInstall ws then ∃ b a, layer = [b] ∧ agent_of h (r_Agent ws) a ∧ layer_on h (agent_repo (r_Agent ws)) (agentDockerfile a) base b else layer = [].
Definition chain_on (h : list bitem) (ws : Resolved) (base final : string) (chain : list string) : Prop := ∃ docker agent,
  chain = base :: docker ++ agent ++ [final] ∧ docker_layer h ws base docker ∧ agent_layer h ws (tip (base :: docker)) agent ∧
  overlay_on h ws (tip (base :: docker ++ agent)) final.
(** The base is the configured Dockerfile or the embedded one. *)
Definition base_on (h : list bitem) (cfg : Config) (base : string) : Prop :=
  if String.eqb (TrimSpace (base_Dockerfile (c_Base cfg))) "" then base = embeddedTag
  else ∃ content args dir kit, content ≠ "" ∧ base = presetTag sha256 content ∧ made h (WriteFile (dockerfile_in dir) content) (Ok ()) ∧
         made h (ImageBuild (options_for base args buildLabels dir kit)) (Ok ()).
Lemma lasting_docker ws base l : lasting (λ h, docker_layer h ws base l).
Proof.
  unfold docker_layer. destruct (r_EnableDocker ws); [|apply lasting_const]. apply lasting_ex; intros b.
  apply lasting_and; [apply lasting_const|apply lasting_layer].
Qed.
Lemma lasting_agent_layer ws base l : lasting (λ h, agent_layer h ws base l).
Proof.
  unfold agent_layer. destruct (r_AgentInstall ws); [|apply lasting_const]. do 2 (apply lasting_ex; intros ?).
  apply lasting_and; [apply lasting_const|apply lasting_and; [apply lasting_agent|apply lasting_layer]].
Qed.
Lemma lasting_base cfg base : lasting (λ h, base_on h cfg base).
Proof.
  unfold base_on. destruct (String.eqb _ _); [apply lasting_const|]. do 4 (apply lasting_ex; intros ?).
  do 2 (apply lasting_and; [apply lasting_const|]). apply lasting_and; apply lasting_in.
Qed.
Lemma layers_reaches ws base h :
  reaches (workspaceLayers sha256 GOARCH dockerLayer ws [base]) h (λ chain h', ∃ docker agent,
    chain = base :: docker ++ agent ∧ docker_layer h' ws base docker ∧ agent_layer h' ws (tip (base :: docker)) agent).
Proof.
  unfold workspaceLayers. apply (after_step _ (λ _, True) (λ chain h', ∃ docker, chain = base :: docker ∧ docker_layer h' ws base docker)); [done|done| |].
  - unfold docker_layer. destruct (r_EnableDocker ws); [|by apply after_ret; exists []].
    apply (after_bind _ _ _ _ (λ b h', layer_on h' docker_repo (dockerLayerDockerfile dockerLayer) base b)); [apply after_wrap, layer_reaches|].
    intros b t Hb. apply after_ret. exists [b]. split; [done|by exists b].
  - intros chain h1 _ (docker & -> & Hd). destruct (r_AgentInstall ws) eqn:Ea; cbn [negb].
    + apply (after_step _ _ (λ b h', ∃ a, agent_of h' (r_Agent ws) a ∧
        layer_on h' (agent_repo (r_Agent ws)) (agentDockerfile a) (tip (base :: docker)) b) _ _ _ _ (lasting_docker ws base docker) Hd (after_wrap _ _ _ _ _ (agent_reaches _ _ _))).
      intros b h2 H2 (a & Ha & Hb). apply after_ret. exists docker, [b]. split; [done|]. split; [done|].
      unfold agent_layer. rewrite Ea. by exists b, a.
    + apply after_ret. exists docker, []. unfold agent_layer. rewrite Ea app_nil_r. done.
Qed.
Lemma layered_reaches ws base h :
  reaches (layered sha256 GOARCH dockerLayer ws base) h (λ r h', chain_on h' ws base r.1 r.2).
Proof.
  apply (after_step _ (λ _, True) _ _ _ _ _ (lasting_const True) I (layers_reaches ws base h)). intros chain h1 _ (docker & agent & -> & Hd & Ha).
  apply (after_step _ _ (λ b h', overlay_on h' ws (tip (base :: docker ++ agent)) b) _ _ _ _
    (lasting_and _ _ (lasting_docker ws base docker) (lasting_agent_layer ws (tip (base :: docker)) agent)) (conj Hd Ha)
    (after_wrap _ _ _ _ _ (overlay_reaches _ ws h1))).
  intros final h2 [H2 H2'] Ho. apply after_ret. exists docker, agent. cbn. by rewrite -app_assoc.
Qed.
Lemma base_reaches cfg h : reaches (ResolveBaseImage sha256 GOARCH embeddedDockerfile cfg) h (λ b h', base_on h' cfg b).
Proof.
  unfold ResolveBaseImage, base_on. destruct (String.eqb (TrimSpace (base_Dockerfile (c_Base cfg))) ""); cbn [negb].
  - apply client_reaches; [intros; apply lasting_const|]. intros t. apply (reach_skip (λ _, True)); [done|done|]. intros [] h1 _. by apply after_ret.
  - assert (∀ a, lasting (λ h, ∃ content args dir kit, content ≠ "" ∧ a = presetTag sha256 content ∧ made h (WriteFile (dockerfile_in dir) content) (Ok ()) ∧
         made h (ImageBuild (options_for a args buildLabels dir kit)) (Ok ()))) as HL.
    { intros a. do 4 (apply lasting_ex; intros ?). do 2 (apply lasting_and; [apply lasting_const|]). apply lasting_and; apply lasting_in. }
    apply (reach_skip (λ _, True)); [done|done|]. intros content h1 _. apply client_reaches; [done|]. intros t. unfold buildPresetImage.
    destruct (String.eqb content "") eqn:Ec; [done|]. apply String.eqb_neq in Ec.
    apply (reach_skip (λ _, True)); [done|done|]. intros dir h2 _. apply reach_finally; [done|].
    set (F := λ h : list bitem, made h (WriteFile (dockerfile_in dir) content) (Ok ())). assert (lasting F) as HF by apply lasting_in.
    apply (reach_bind (λ _, True)); [done|done|]. intros [] [[]|[]] h3 _ Hw; [intros _|done].
    apply (reach_skip F); [done|done|]. intros _ h4 H4. apply (reach_skip F); [done|done|]. intros kit h5 H5. apply (reach_skip F); [done|done|]. intros args h6 H6.
    apply (reach_bind F); [done|done|]. intros [] [[]|[]] h7 H7 Hb; [intros _|done]. apply after_ret. by exists content, args, dir, kit.
Qed.

End Chain.

(** *** An image with all layers *)

Definition agy : Harness := match Lookup "agy" with Some h => with_version h "1.6.0" | None => VmLab.lab_harness end.
Definition full_workspace : Resolved := {|
  r_Name := "w"; r_Paths := ["/src"]; r_Agent := agy; r_AgentInstall := true; r_AgentArgs := None; r_AgentProfile := None;
  r_Mounts := []; r_Snapshots := []; r_Port := 4096; r_AllowedHosts := []; r_AllowedNetworks := []; r_BuildContext := "";
  r_Dockerfile := "/src/Dockerfile"; r_Image := ""; r_Env := []; r_SSHAuthSock := false; r_GPGAgent := false; r_GitConfig := false;
  r_Secrets := []; r_CPU := S754_finite false 2 0; r_Memory := "4g"; r_DockerDisk := "20g"; r_EnableDocker := true; r_IsolatedBuild := false;
  r_ProtectGit := true; r_Ports := []; r_HostPorts := []; r_FilteredDNS := false; r_DNSUpstream := ""; r_DNSBlockedZones := None;
  r_CABundle := ConfigChecks.caBundleAutomatic |}.
(** A daemon that has what was built: an image's ID tells its tag. *)
Definition built (tag : string) (h : list bitem) : bool :=
  existsb (λ i, match projT1 i with ImageBuild o => String.eqb (bo_Tag o) tag | _ => false end) h.
Definition sum64 : string := String.concat "" (repeat "0123456789abcdef" 4).
Definition daemon (c : bcall) (h : list bitem) : banswer c :=
  match c as c return banswer c with
  | ImageInspect ref => if built ref h
      then Ok {| in_ID := "sha256:" +:+ ref; in_Os := "linux"; in_Arch := "amd64"; in_User := "agent"; in_Labels := ∅ |} else Err true
  | PingBuilder => Ok true
  | MkdirTemp _ => Ok "/tmp/d" | CreateTemp dir _ => Ok (JoinPath [dir; "jailoc-overlay-1.Dockerfile"])
  | ReadLimited _ _ => Ok ("FROM ${BASE}" +:+ nl)
  | LookupEnv _ => None
  | HttpGet _ _ => Err ()
  | FetchRelease _ _ => Ok (200%Z, Some [("agy_cli_linux_x64.tar.gz", "sha256:" +:+ sum64); ("agy_cli_linux_arm64.tar.gz", "sha256:" +:+ sum64)])
  | CloseClient | RemoveAll _ | RemoveFile _ => ()
  | NewClient | PullImage _ _ | ImageBuild _ | WriteFile _ _ | CloseFile _ | Tar _ => Ok ()
  end.
Definition full_build : result string (string * list string) * list bitem :=
  exec daemon (ResolveAndLayerImage (λ s, s) "amd64" "FROM debian:13" "FROM ${BASE}" (simple_config zeroDefaults ∅) full_workspace) [].
Definition full_images : list string :=
  ["jailoc-base:embedded"; "jailoc-docker:sha256:jailoc-ba"; "jailoc-agent-agy:sha256:jailoc-do"; "jailoc-w:ARG BASE"].
