(* ===== verification/TreeOps.v ===== *)
(** * Operations on a tree of entries

    [root.WriteFile] on the staged tree of [Snapshots], and what operations keep:
    [preserves R K m] says that [m] changes the entries at the paths of [K] only
    along [R], whatever it returns. *)

From S2P Require Import Prelude GoStrings StateErr HostFS Snapshots.
Open Scope string_scope.
Open Scope list_scope.

Definition perm_600 : Z := 384.
(** [root.WriteFile]: a file keeps its permissions, links are not written through. *)
Definition WriteFile (p : path) (data : string) : sop () :=
  e ← gets (λ t : staged, t !! p);
  match e with
  | None => put p (EFile perm_600 data)
  | Some (EFile m _) => modify (λ t : staged, <[p := EFile m data]> t)
  | Some _ => fail (SExist p)
  end.

Lemma stree_replace (t : staged) p m d m' d' : stree t → t !! p = Some (EFile m d) → stree (<[p := EFile m' d']> t).
Proof.
  intros Ht Hp q e Hq. assert (∀ q, dir_at t q = true → dir_at (<[p := EFile m' d']> t) q = true) as Hd.
  { intros [|x l] H; [done|]. cbn in *. destruct (decide (p = x :: l)) as [->|Hn]; [by rewrite Hp in H|by rewrite lookup_insert_ne]. }
  destruct (decide (p = q)) as [<-|Hn]; [destruct (Ht p _ Hp) as [H1 H2]|rewrite lookup_insert_ne in Hq; [|done]; destruct (Ht q e Hq) as [H1 H2]]; auto.
Qed.
(** [m] changes the entries at the paths of [K] only along [R], whatever it returns. *)
Section Preserves.
Context (R : relation (option entry)) `{!PreOrder R} (K : path → Prop).
Definition preserves {E A} (m : op staged E A) : Prop := ∀ t, stree t → stree (m t).2 ∧ ∀ p, K p → R (t !! p) ((m t).2 !! p).
Lemma same t : stree t → stree t ∧ ∀ p, K p → R (t !! p) (t !! p).
Proof using Type*. intros Ht. split; [done|]. reflexivity. Qed.
Lemma preserves_ret {E A} (a : A) : preserves (E:=E) (mret a).
Proof using Type*. intros t Ht. by apply same. Qed.
Lemma preserves_fail {E A} (e : E) : preserves (A:=A) (fail e).
Proof using Type*. intros t Ht. by apply same. Qed.
Lemma preserves_gets {E A} (g : staged → A) : preserves (E:=E) (gets g).
Proof using Type*. intros t Ht. by apply same. Qed.
Lemma preserves_bind {E A B} (m : op staged E A) (k : A → op staged E B) : preserves m → (∀ a, preserves (k a)) → preserves (m ≫= k).
Proof using Type*.
  intros Hm Hk t Ht. unfold mbind, op_bind. destruct (Hm t Ht) as [H1 H2]. destruct (m t) as [[a|e] t1]; cbn [fst snd] in *; [|done].
  destruct (Hk a t1 H1) as [H3 H4]. split; [done|]. intros p Hp. exact (transitivity (H2 p Hp) (H4 p Hp)).
Qed.
Lemma preserves_each {E A} (w : A → op staged E ()) l : (∀ x, x ∈ l → preserves (w x)) → preserves (each w l).
Proof using Type*.
  induction l as [|x l IH]; intros H; [apply preserves_ret|]. apply preserves_bind; [apply H; by left|]. intros _. apply IH. intros y Hy. apply H. by right.
Qed.
Lemma preserves_remove q : (∀ p, K p → ¬ q `prefix_of` p) → preserves (RemoveAll q).
Proof using Type*.
  intros HK t Ht. split; [by apply stree_remove|]. intros p Hp. rewrite RemoveAll_lookup bool_decide_eq_false_2; [reflexivity|by apply HK].
Qed.
Lemma preserves_write p d : ¬ K p → preserves (WriteFile p d).
Proof using Type*.
  intros HK t Ht. assert (∀ e q, K q → R (t !! q) (<[p := e]> t !! q)) as Hins by (intros e q Hq; rewrite lookup_insert_ne; [reflexivity|by intros ->]).
  unfold WriteFile, gets, mbind, op_bind. destruct (t !! p) as [[m|m old|l]|] eqn:E; [by apply same| |by apply same|].
  - split; [exact (stree_replace t p m old m d Ht E)|]. intros q Hq. by apply Hins.
  - unfold put. rewrite E. destruct (dir_at t (parent p)) eqn:Hd; [|by apply same]. case_bool_decide; [|by apply same]. cbn [andb]. rewrite bool_decide_eq_true_2; [|done].
    split; [by apply stree_put|]. intros q Hq. by apply Hins.
Qed.
(** A directory that is made is one of the path. *)
Lemma preserves_mkdir p m : (∀ q, q `prefix_of` p → K q → R None (Some (EDir m))) → preserves (rMkdirAll p m).
Proof using Type*.
  intros HK. unfold rMkdirAll. assert (∀ base, (∀ q, q `prefix_of` base ++ p → K q → R None (Some (EDir m))) → preserves (MkdirAll_from base p m)) as H; [|by apply H].
  clear HK. induction p as [|c p IH]; intros base HK; [apply preserves_ret|]. cbn [MkdirAll_from].
  apply preserves_bind; [apply preserves_gets|]. intros e. apply preserves_bind; [|intros _; apply IH; by rewrite -app_assoc].
  destruct e as [[| |]|]; [apply preserves_ret|apply preserves_fail..|]. intros t Ht. unfold put.
  destruct (dir_at t (parent (base ++ [c]))) eqn:Hd; [|by apply same]. case_bool_decide; [|by apply same]. case_bool_decide as Hn; [|by apply same]. cbn.
  split; [by apply stree_put|]. intros q Hq. destruct (decide (q = base ++ [c])) as [->|Hne]; [|(rewrite lookup_insert_ne; [reflexivity|congruence])].
  rewrite lookup_insert_eq Hn. apply (HK (base ++ [c])); [by exists p; rewrite -app_assoc|done].
Qed.
End Preserves.
(** What is there stays; nothing changes. *)
Definition stays (a b : option entry) : Prop := ∀ e, a = Some e → b = Some e.
#[export] Instance stays_preorder : PreOrder stays.
Proof. split; [by intros a e|]. intros a b c H1 H2 e H. auto. Qed.
Lemma stays_None b : stays None b.
Proof. done. Qed.
Lemma mkdir_Ok p m (t t' : staged) u : stree t → rMkdirAll p m t = (Ok u, t') → dir_at t' p = true.
Proof.
  intros Ht. unfold rMkdirAll. assert (∀ base t, stree t → dir_at t base = true → MkdirAll_from base p m t = (Ok u, t') → dir_at t' (base ++ p) = true) as H.
  { clear t Ht. induction p as [|c p IH]; intros base t Ht Hd H.
    { injection H as _ <-. by rewrite app_nil_r. }
    cbn [MkdirAll_from] in H. apply op_bind_Ok in H as (e & t0 & [= <- <-] & H). apply op_bind_Ok in H as (u1 & t1 & H1 & H).
    replace (base ++ c :: p) with ((base ++ [c]) ++ p) by by rewrite -app_assoc. assert (stree t1 ∧ dir_at t1 (base ++ [c]) = true) as [Ht1 Hd1].
    { destruct (t !! (base ++ [c])) as [[m'| |]|] eqn:Ec; [|done|done|].
      - injection H1 as _ <-. split; [done|]. unfold dir_at. rewrite Ec. by destruct base.
      - apply put_Ok in H1 as (Hp1 & Hp2 & Hp3 & ->). split; [by apply stree_put|]. unfold dir_at. rewrite lookup_insert_eq. by destruct base. }
    by apply (IH _ t1). }
  intros E. by apply (H [] t).
Qed.
Lemma mkdir_there p m (t : staged) : stree t → dir_at t p = true → rMkdirAll p m t = (Ok (), t).
Proof.
  intros Ht. unfold rMkdirAll. assert (∀ base, dir_at t (base ++ p) = true → MkdirAll_from base p m t = (Ok (), t)) as H; [|exact (H [])].
  induction p as [|c p IH]; intros base Hd; [done|]. cbn [MkdirAll_from]. unfold mbind, op_bind, gets.
  replace (base ++ c :: p) with ((base ++ [c]) ++ p) in Hd by by rewrite -app_assoc. pose proof (dir_at_app t _ _ Ht Hd) as Hc.
  assert (∃ pm, t !! (base ++ [c]) = Some (EDir pm)) as [pm ->]; [|by apply IH].
  unfold dir_at, is_edir in Hc. destruct (base ++ [c]) as [|x l] eqn:E; [by destruct base|]. destruct (t !! (x :: l)) as [[pm| |]|]; try done. by exists pm.
Qed.

