(* ===== verification/GuestData.v ===== *)
(** * The data directories of a workspace VM

    What [up] and a reload put into the two directories a workspace VM shares
    ([src/internal/cmd/vmguestdata_unix.go]): copies of the workspace's jailoc
    configuration and cache in the read-only one ([syncDir]), the persistent home
    directories in the writable one ([migrateHomeDirs], [vmGuestData]) and the
    status line in the settings of an agent ([setDefaultStatusLine]). The state
    directory of the VM is one tree of staged entries, the host the file system
    of [HostFS], of which the state directory is no part; permissions are before
    the umask. Calls go through directories only: a link on the way is an error
    here, where [os.Root] follows those that stay inside. JSON is a parameter. *)

From S2P Require Import Prelude GoStrings GoSort GoPath Agent ConfigChecks Resolve StateErr HostFS Snapshots TreeOps.
From S2P Require Vm VmHost GitCopy GuestSys GuestMounts MigrateRun.
Open Scope string_scope.
Open Scope list_scope.

Definition guestDataConfig : string := "config".
Definition guestDataCache : string := "cache".
Definition guestDataHome : string := "home".
Definition guestDataEphemeral : string := "ephemeral".
Definition GuestDataDir : path := ["guest"].
Definition GuestReadOnlyDir : path := ["guest-ro"].
Definition tuiPluginContainerDir : string := PluginDir.
Definition tuiPlugin : string := "tui-plugin".
Definition maxAgentConfig : Z := 1048576.

(** ** A copy of a host directory *)

Fixpoint collect {A} (w : A → sop (list path)) (l : list A) : sop (list path) :=
  match l with [] => mret [] | x :: l => a ← w x; b ← collect w l; mret (a ++ b) end.

Section Sync.
Context (f : fs) (klinks : nat) (readable : path → bool).
Definition sync_dir_entry (target : path) : sop () :=
  e ← gets (λ t : staged, t !! target);
  _ ← (match e with None | Some (EDir _) => mret () | Some _ => RemoveAll target end);
  rMkdirAll target perm_700.
Definition sync_file (target : path) (data : string) : sop () :=
  e ← gets (λ t : staged, t !! target);
  match e with
  | Some (EFile _ old) => if String.eqb old data then mret () else WriteFile target data
  | Some _ => _ ← RemoveAll target; WriteFile target data
  | None => WriteFile target data
  end.
(** The function of the walk below [src], then the entries of a directory; the
    targets it wants. *)
Fixpoint sync_walk (fuel : nat) (p : path) (n : node) (target : path) : sop (list path) :=
  match n with
  | NDir =>
      _ ← sync_dir_entry target;
      if negb (readable p) then fail (SSource (path_string p)) else
      match fuel with
      | O => mret [target]
      | S fuel => w ← collect (λ xn, sync_walk fuel (p ++ [xn.1]) xn.2 (target ++ [xn.1])) (children f p); mret (target :: w)
      end
  | NFile d => if negb (readable p) then fail (SSource (path_string p)) else _ ← sync_file target d; mret [target]
  | _ => mret []
  end.
Definition walked (dst : path) (want : list path) (p : path) : bool :=
  forallb (λ i, bool_decide (take i p `prefix_of` dst) || bool_decide (take i p ∈ want)) (seq 0 (length p)).
(** The entries below [dst] no one wants, those inside another such one left out. *)
Definition stale (dst : path) (want : list path) (t : staged) : list path :=
  filter (λ p, dst `prefix_of` p ∧ p ≠ dst ∧ p ∉ want ∧ walked dst want p = true) (map_to_list t).*1.
Definition syncDir (dst : path) (src : string) : sop () :=
  _ ← rMkdirAll dst perm_700;
  want ← (match place klinks f (comps src) with
          | inl (Some q) =>
              match node_at f q with
              | Some NDir =>
                  if negb (readable q) then fail (SSource src) else
                  collect (λ xn, sync_walk (GitCopy.depth f) (q ++ [xn.1]) xn.2 (dst ++ [xn.1])) (children f q)
              | _ => mret []
              end
          | inl None => mret []
          | inr _ => fail (SSource src)
          end);
  old ← gets (stale dst want);
  each RemoveAll old.
End Sync.

(** ** Home directories of an older layout *)

(** [os.Rename] of a directory onto a name that is free. *)
Definition moved (p q : path) (t : staged) : staged :=
  list_to_map (omap (M:=list) (λ ke : path * entry, if bool_decide (p `prefix_of` ke.1) then Some (q ++ drop (length p) ke.1, ke.2) else None) (map_to_list t))
  ∪ filter (λ ke : path * entry, ¬ p `prefix_of` ke.1) t.
Definition Rename (p q : path) : sop () := λ t,
  if dir_at t (parent q) && bool_decide (t !! q = None) then (Ok (), moved p q t) else (Err (SExist q), t).
Definition migrateHomeDirs : sop () :=
  _ ← each (λ n, RemoveAll [n]) ["control"; "snapshots"; "copies"];
  old ← gets (λ t : staged, t !! [guestDataHome]);
  if negb (bool_decide (is_Some old)) then mret () else
  dst ← gets (λ t : staged, t !! (GuestDataDir ++ [guestDataHome]));
  if bool_decide (is_Some dst) then mret () else
  _ ← rMkdirAll GuestDataDir perm_700;
  Rename [guestDataHome] (GuestDataDir ++ [guestDataHome]).

(** ** The status line in the settings of an agent *)

Definition SettingsFile (p : TUIPlugin) : option (path * string) :=
  match p with
  | CopilotStatusLine => Some (["settings.json"], "copilot")
  | AgyStatusLine => Some (["antigravity-cli"; "settings.json"], "agy")
  | _ => None
  end.
Definition scriptStatusLineCommand (harness : string) : string := "node " +:+ tuiPluginContainerDir +:+ "/statusline.mjs " +:+ harness.
Definition quote : string := String (chr 34) "".
Definition workspaceStatusLineCommand : string :=
  "printf '🔒 jailoc / %s" +:+ String (chr 92) "n' " +:+ quote +:+ "${JAILOC_WORKSPACE:-unknown}" +:+ quote.
Definition statusLineCommand (harness : string) : string :=
  if String.eqb harness "claude" then scriptStatusLineCommand harness else workspaceStatusLineCommand.
Definition statusLine (harness : string) : gmap string string := {["type" := "command"; "command" := statusLineCommand harness]}.
(** A panic ends the command; other errors of the settings are reported only. *)
Inductive gerr := GStage (e : stage_err) | GSettings | GPanic.
Notation gop := (op staged gerr).
Definition at_root {A} (m : sop A) : gop A := λ t, match m t with (Ok a, t') => (Ok a, t') | (Err e, t') => (Err (GStage e), t') end.

Section Settings.
(** [decode] reads a JSON object into raw values, [None] when it is none of them
    and [Some None] for [null], which makes the Go map nil; [line_command] is the
    command of a raw status line, [encode] and [marshal] write JSON. *)
Context (decode : string → option (option (gmap string string))) (line_command : string → option string).
Context (encode marshal : gmap string string → string).
Definition NL : string := String (chr 10) "".
Definition read_settings (file : path) : gop (option (gmap string string)) :=
  e ← gets (λ t : staged, t !! file);
  match e with
  | None => mret (Some ∅)
  | Some (EFile _ data) =>
      if (maxAgentConfig <? Z.of_nat (String.length data))%Z then fail GSettings else
      match decode data with Some s => mret s | None => fail GSettings end
  | Some _ => fail GSettings
  end.
Definition own_line (settings : option (gmap string string)) (harness : string) : bool :=
  match settings ≫= (λ m, m !! "statusLine") with
  | Some raw => bool_decide (line_command raw = Some (scriptStatusLineCommand harness))
  | None => true
  end.
Definition setDefaultStatusLine (file : path) (harness : string) : gop () :=
  settings ← read_settings file;
  if negb (own_line settings harness) then mret () else
  match settings with
  | None => fail GPanic
  | Some m =>
      let data := encode (<["statusLine" := marshal (statusLine harness)]> m) +:+ NL in
      _ ← at_root (rMkdirAll (parent file) perm_700);
      at_root (WriteFile file data)
  end.
Definition addStatusLine (dir : path) (h : Harness) : gop () :=
  match SettingsFile (h_TUIPlugin h) with
  | None => mret ()
  | Some (file, harness) => λ t,
      match setDefaultStatusLine (dir ++ file) harness t with
      | (Err GPanic, t') => (Err GPanic, t')
      | (_, t') => (Ok (), t')
      end
  end.

(** ** The data of a workspace VM *)

Context (f : fs) (klinks : nat) (readable : path → bool) (ConfigDir : string).
Definition statedir_eqb (a b : StateDir) : bool := String.eqb (Agent.st_Name a) (Agent.st_Name b) && String.eqb (st_Path a) (st_Path b).
Definition persistentHomeDirs (h : Harness) : list StateDir :=
  h_State h ++ [{| Agent.st_Name := "cache"; st_Path := MigrateRun.guestUserCache |}].
Section Homes.
Context (h : Harness) (shares : list Vm.Share) (ephemeral : bool).
(** The names of the state directories are single components. *)
Definition home_rel (d : StateDir) : path :=
  [if ephemeral && existsb (statedir_eqb d) (h_State h) then guestDataEphemeral else guestDataHome; Agent.st_Name d].
Definition covered (d : StateDir) : bool := existsb (λ s, String.eqb (Vm.GuestPath s) (st_Path d)) shares.
Definition home_bind (d : StateDir) : GuestSys.Bind :=
  {| GuestSys.bd_Source := JoinPath (GuestMounts.HostDir :: home_rel d); GuestSys.bd_Target := st_Path d; GuestSys.bd_ReadOnly := false |}.
Definition home_dir (d : StateDir) : gop () :=
  _ ← at_root (rMkdirAll (GuestDataDir ++ home_rel d) perm_700);
  if existsb (statedir_eqb d) (h_State h) then addStatusLine (GuestDataDir ++ home_rel d) h else mret ().
Fixpoint home_binds (l : list StateDir) : gop (list GuestSys.Bind) :=
  match l with
  | [] => mret []
  | d :: l => if covered d then home_binds l else _ ← home_dir d; bs ← home_binds l; mret (home_bind d :: bs)
  end.
End Homes.
Definition ro_bind (rel : path) (target : string) : GuestSys.Bind :=
  {| GuestSys.bd_Source := JoinPath (GuestMounts.ReadOnlyHostDir :: rel); GuestSys.bd_Target := target; GuestSys.bd_ReadOnly := true |}.
Definition is_ephemeral (ws : Resolved) : bool := match r_AgentProfile ws with Some p => String.eqb p EphemeralProfile | None => false end.
Definition has_plugin (h : Harness) : bool := match h_TUIPlugin h with NoTUIPlugin => false | _ => true end.
Definition vmGuestData (ws : Resolved) (cacheDir : string) (shares : list Vm.Share) (start : bool) : gop (list GuestSys.Bind) :=
  _ ← at_root migrateHomeDirs;
  _ ← at_root (rMkdirAll GuestDataDir perm_700);
  _ ← (if start then at_root (each (λ n, RemoveAll (GuestDataDir ++ [n])) [guestDataConfig; guestDataCache; "snapshots"]) else mret ());
  _ ← at_root (rMkdirAll GuestReadOnlyDir perm_700);
  _ ← at_root (syncDir f klinks readable (GuestReadOnlyDir ++ [guestDataConfig]) (JoinPath [ConfigDir; "workspaces"; r_Name ws]));
  _ ← at_root (syncDir f klinks readable (GuestReadOnlyDir ++ [guestDataCache]) cacheDir);
  _ ← (if has_plugin (r_Agent ws) then at_root (rMkdirAll (GuestReadOnlyDir ++ [guestDataCache; tuiPlugin]) perm_700) else mret ());
  _ ← (if is_ephemeral ws && start then at_root (RemoveAll (GuestDataDir ++ [guestDataEphemeral])) else mret ());
  bs ← home_binds (r_Agent ws) shares (is_ephemeral ws) (persistentHomeDirs (r_Agent ws));
  mret ([ro_bind [guestDataConfig] VmHost.guestConfigDir; ro_bind [guestDataCache] VmHost.guestCacheDir] ++
        (if has_plugin (r_Agent ws) then [ro_bind [guestDataCache; tuiPlugin] tuiPluginContainerDir] else []) ++ bs).
End Settings.
