(* ===== verification/GuestDataSpec.v ===== *)
(** * What the data directories of a workspace VM hold

    A copy of a host directory is exact ([syncDir_mirrors]), and preparing the
    data of a VM keeps what the agent stored ([vmGuestData_keeps]). *)

From S2P Require Import Prelude GoStrings GoSort GoPath Agent ConfigChecks Resolve StateErr HostFS Snapshots TreeOps GuestData.
From Stdlib Require SpecFloat.
From S2P Require Vm VmHost GitCopy GuestSys GuestMounts MigrateRun VmLab.
Open Scope string_scope.
Open Scope list_scope.

Lemma preserves_at_root (R : relation (option entry)) (K : path → Prop) {A} (m : sop A) : preserves R K m → preserves R K (at_root m).
Proof. intros H t Ht. unfold at_root. specialize (H t Ht). by destruct (m t) as [[a|e] t']. Qed.

(** ** The copy is exact *)

Section Sync.
Context (f : fs) (klinks : nat) (readable : path → bool).
Hypothesis f_tree : tree f.
Local Notation sync_walk := (sync_walk f readable).
(** Entries up to their permissions, and what is copied of a host entry. *)
Definition erase (e : entry) : entry := match e with EDir _ => EDir 0 | EFile _ d => EFile 0 d | ELink l => ELink l end.
Definition copied (q : path) : option entry :=
  match node_at f q with Some NDir => Some (EDir 0) | Some (NFile d) => Some (EFile 0 d) | _ => None end.

Lemma copied_up q x k : is_Some (copied (q ++ x :: k)) → copied q = Some (EDir 0).
Proof using f_tree.
  unfold copied. intros H. assert (f !! (q ++ x :: k) ≠ None) as Hn.
  { destruct (q ++ x :: k) eqn:E; [by destruct q|]. cbn in H. intros Hf. rewrite Hf in H. by destruct H. }
  destruct (node_at f q) as [n|] eqn:En; [destruct (decide (n = NDir)) as [->|Hd]; [done|]|].
  - exfalso. apply Hn. by apply (leaf_below f f_tree q n).
  - exfalso. apply Hn. pose proof (tree_below f q (x :: k) f_tree En) as H'. by rewrite node_at_app in H'.
Qed.
(** [t'] is [t] with what is copied from [q] at and below [T], and perhaps more there. *)
Record synced (t t' : staged) (q T : path) (want : list path) : Prop := {
  sy_tree : stree t';
  sy_out : ∀ p, ¬ T `prefix_of` p → t' !! p = t !! p;
  sy_in : ∀ k e, copied (q ++ k) = Some e → erase <$> t' !! (T ++ k) = Some e;
  sy_want : ∀ p, p ∈ want ↔ ∃ k, p = T ++ k ∧ is_Some (copied (q ++ k))
}.
Lemma dir_out (t t' : staged) T : T ≠ [] → (∀ p, ¬ T `prefix_of` p → t' !! p = t !! p) → dir_at t (parent T) = true → dir_at t' (parent T) = true.
Proof.
  intros Hne Hout. destruct (exists_last Hne) as (l & x & ->). rewrite parent_snoc. unfold dir_at. destruct l as [|y l]; [done|].
  rewrite Hout; [done|]. intros H%prefix_length. rewrite length_app in H. cbn in H. lia.
Qed.
Lemma remove_out T (t : staged) p : ¬ T `prefix_of` p → (RemoveAll T t).2 !! p = t !! p.
Proof. intros H. by rewrite RemoveAll_lookup bool_decide_eq_false_2. Qed.
Lemma insert_out T e (t : staged) p : ¬ T `prefix_of` p → <[T := e]> t !! p = t !! p.
Proof. intros H. rewrite lookup_insert_ne; [done|]. by intros ->. Qed.
Lemma sync_dir_spec T (t : staged) : stree t → T ≠ [] → dir_at t (parent T) = true → ∃ t' m,
  sync_dir_entry T t = (Ok (), t') ∧ stree t' ∧ (∀ p, ¬ T `prefix_of` p → t' !! p = t !! p) ∧ t' !! T = Some (EDir m).
Proof.
  intros Ht Hne Hd. assert (∀ t1, stree t1 → dir_at t1 (parent T) = true → t1 !! T = None → (∀ p, ¬ T `prefix_of` p → t1 !! p = t !! p) → ∃ t' m,
    rMkdirAll T perm_700 t1 = (Ok (), t') ∧ stree t' ∧ (∀ p, ¬ T `prefix_of` p → t' !! p = t !! p) ∧ t' !! T = Some (EDir m)) as Hfresh.
  { intros t1 Ht1 Hd1 Hn Hout. exists (<[T := EDir perm_700]> t1), perm_700. split; [by apply rMkdirAll_fresh|]. split; [by apply stree_put|].
    split; [|by rewrite lookup_insert_eq]. intros p Hp. rewrite insert_out; [by apply Hout|done]. }
  assert (dir_at (RemoveAll T t).2 (parent T) = true) as Hdr by (apply (dir_out t); [done|intros p; apply remove_out|done]).
  assert ((RemoveAll T t).2 !! T = None) as Hnr by (by rewrite RemoveAll_lookup bool_decide_eq_true_2).
  assert (sync_dir_entry T t = rMkdirAll T perm_700 (match t !! T with None | Some (EDir _) => t | Some _ => (RemoveAll T t).2 end)) as ->.
  { unfold sync_dir_entry, gets, mbind, op_bind. by destruct (t !! T) as [[| |]|]. }
  destruct (t !! T) as [[m|m d|l]|] eqn:ET; [|apply Hfresh; [by apply stree_remove|done|done|intros p; apply remove_out]..|by apply Hfresh].
  assert (dir_at t T = true) as HT by (unfold dir_at; rewrite ET; by destruct T). rewrite (mkdir_there T _ t Ht HT). by exists t, m.
Qed.
Lemma sync_file_spec T d (t : staged) : stree t → T ≠ [] → dir_at t (parent T) = true → ∃ t' m,
  sync_file T d t = (Ok (), t') ∧ stree t' ∧ (∀ p, ¬ T `prefix_of` p → t' !! p = t !! p) ∧ t' !! T = Some (EFile m d).
Proof.
  intros Ht Hne Hd. assert (∀ t1, stree t1 → dir_at t1 (parent T) = true → t1 !! T = None → (∀ p, ¬ T `prefix_of` p → t1 !! p = t !! p) → ∃ t' m,
    WriteFile T d t1 = (Ok (), t') ∧ stree t' ∧ (∀ p, ¬ T `prefix_of` p → t' !! p = t !! p) ∧ t' !! T = Some (EFile m d)) as Hfresh.
  { intros t1 Ht1 Hd1 Hn Hout. exists (<[T := EFile perm_600 d]> t1), perm_600. unfold WriteFile, gets, mbind, op_bind, put. rewrite Hn Hd1.
    rewrite !bool_decide_eq_true_2; [|done..]. split; [done|]. split; [by apply stree_put|]. split; [|by rewrite lookup_insert_eq].
    intros p Hp. rewrite insert_out; [by apply Hout|done]. }
  assert (dir_at (RemoveAll T t).2 (parent T) = true) as Hdr by (apply (dir_out t); [done|intros p; apply remove_out|done]).
  assert ((RemoveAll T t).2 !! T = None) as Hnr by (by rewrite RemoveAll_lookup bool_decide_eq_true_2).
  assert (sync_file T d t = match t !! T with
    | Some (EFile _ old) => if String.eqb old d then (Ok (), t) else WriteFile T d t
    | Some _ => WriteFile T d (RemoveAll T t).2
    | None => WriteFile T d t
    end) as ->.
  { unfold sync_file, gets, mbind, op_bind. destruct (t !! T) as [[| |]|]; [done| |done..]. by destruct (String.eqb _ _). }
  destruct (t !! T) as [[m|m old|l]|] eqn:ET; [apply Hfresh; [by apply stree_remove|done|done|intros p; apply remove_out]| |
    apply Hfresh; [by apply stree_remove|done|done|intros p; apply remove_out]|by apply Hfresh].
  destruct (String.eqb_spec old d) as [->|_]; [by exists t, m|]. exists (<[T := EFile m d]> t), m. unfold WriteFile, gets, mbind, op_bind. rewrite ET.
  split; [done|]. split; [exact (stree_replace t T m old m d Ht ET)|]. split; [intros p; apply insert_out|by rewrite lookup_insert_eq].
Qed.
(** Facts of a list of entries of [src], one after the other. *)
Record all_synced (t t' : staged) (src T : path) (names : list string) (want : list path) : Prop := {
  sa_tree : stree t';
  sa_out : ∀ p, (∀ x, x ∈ names → ¬ T ++ [x] `prefix_of` p) → t' !! p = t !! p;
  sa_in : ∀ x k e, x ∈ names → copied (src ++ x :: k) = Some e → erase <$> t' !! (T ++ x :: k) = Some e;
  sa_want : ∀ p, p ∈ want ↔ ∃ x k, x ∈ names ∧ p = T ++ x :: k ∧ is_Some (copied (src ++ x :: k))
}.
Lemma snoc_cons {A} (q : list A) x k : (q ++ [x]) ++ k = q ++ x :: k.
Proof. by rewrite -app_assoc. Qed.
Lemma snoc_prefix {A} (q : list A) x y k : q ++ [x] `prefix_of` q ++ y :: k → x = y.
Proof. intros [k' E]. rewrite -app_assoc in E. apply app_inv_head in E. by injection E as -> _. Qed.
Lemma dir_keep (t t' : staged) T x : (∀ p, ¬ T ++ [x] `prefix_of` p → t' !! p = t !! p) → dir_at t T = true → dir_at t' T = true.
Proof.
  intros Hout Hd. pose proof (dir_out t t' (T ++ [x])) as H. rewrite parent_snoc in H. apply H; [by destruct T|done|done].
Qed.
Lemma collect_synced src T (w : string * node → sop (list path)) l t :
  (∀ x n t, (x, n) ∈ l → stree t → dir_at t T = true → ∃ want t', w (x, n) t = (Ok want, t') ∧ synced t t' (src ++ [x]) (T ++ [x]) want) →
  NoDup l.*1 → stree t → dir_at t T = true →
  ∃ want t', collect w l t = (Ok want, t') ∧ all_synced t t' src T l.*1 want.
Proof.
  revert t. induction l as [|[x n] l IH]; intros t Hw Hnd Ht Hd.
  { exists [], t. split; [done|]. split; [done|done|by intros ? ? ? ?%elem_of_nil|]. intros p. split; [by intros ?%elem_of_nil|by intros (? & ? & ?%elem_of_nil & _)]. }
  cbn [fmap list_fmap fst] in *. apply NoDup_cons in Hnd as [Hx Hnd].
  destruct (Hw x n t) as (w1 & t1 & E1 & S1); [by left|done|done|].
  destruct (IH t1) as (w2 & t2 & E2 & S2); [intros y m s Hy; apply Hw; by right|done|apply (sy_tree _ _ _ _ _ S1)|by apply (dir_keep t _ _ x); [apply (sy_out _ _ _ _ _ S1)|]|].
  exists (w1 ++ w2), t2. split; [cbn [collect]; unfold mbind, op_bind; by rewrite E1 E2|].
  assert (∀ y, y ∈ l.*1 → y ≠ x) as Hne by (by intros y Hy ->).
  split; [apply (sa_tree _ _ _ _ _ _ S2)|..].
  - intros p Hp. rewrite (sa_out _ _ _ _ _ _ S2); [apply (sy_out _ _ _ _ _ S1), Hp; by left|intros y Hy; apply Hp; by right].
  - intros y k e [->|Hy]%elem_of_cons Hc; [|by apply (sa_in _ _ _ _ _ _ S2)].
    rewrite (sa_out _ _ _ _ _ _ S2); [|intros z Hz Hp%snoc_prefix; by apply (Hne z)].
    rewrite -snoc_cons. apply (sy_in _ _ _ _ _ S1). by rewrite snoc_cons.
  - intros p. rewrite elem_of_app (sy_want _ _ _ _ _ S1) (sa_want _ _ _ _ _ _ S2). split.
    + intros [(k & -> & Hc)|(y & k & Hy & -> & Hc)]; [|exists y, k; split; [by right|done]].
      rewrite !snoc_cons in Hc |- *. exists x, k. split; [by left|done].
    + intros (y & k & [->|Hy]%elem_of_cons & -> & Hc); [left; exists k; by rewrite !snoc_cons|right; by exists y, k].
Qed.
Lemma child_names q x k : is_Some (copied (q ++ x :: k)) → x ∈ (children f q).*1.
Proof using f_tree.
  intros H. assert (is_Some (copied (q ++ [x]))) as [e He].
  { destruct k as [|y k]; [done|]. rewrite -snoc_cons in H. exists (EDir 0). by apply (copied_up _ y k). }
  unfold copied in He. rewrite node_at_app in He. destruct (f !! (q ++ [x])) as [n|] eqn:E; [|done].
  apply list_elem_of_fmap. exists (x, n). split; [done|by apply children_complete].
Qed.
Lemma sync_leaf_spec fuel q n T t :
  stree t → T ≠ [] → node_at f q = Some n → n ≠ NDir → readable q = true → dir_at t (parent T) = true →
  ∃ want t', sync_walk fuel q n T t = (Ok want, t') ∧ synced t t' q T want.
Proof using f_tree.
  intros Ht Hne Hn Hnd Hr Hd.
  assert (copied q = match n with NDir => Some (EDir 0) | NFile d => Some (EFile 0 d) | _ => None end) as Hc by (unfold copied; by rewrite Hn).
  assert (∀ x k, ¬ is_Some (copied (q ++ x :: k))) as Hleaf by (intros x k H%copied_up; rewrite Hc in H; by destruct n).
  assert (copied q = None → ∃ want t', (Ok (E:=stage_err) [], t) = (Ok want, t') ∧ synced t t' q T want) as Hnone.
  { intros Hq. exists [], t. split; [done|]. split; [done|done|..].
    - intros [|x k] e He; [by rewrite app_nil_r Hq in He|destruct (Hleaf x k); by exists e].
    - intros p. split; [by intros ?%elem_of_nil|]. intros ([|x k] & -> & H); [rewrite app_nil_r Hq in H; by destruct H|by destruct (Hleaf x k)]. }
  destruct n as [|d|l|]; [done| |destruct fuel; by apply Hnone..].
  destruct (sync_file_spec T d t Ht Hne Hd) as (t' & m & E & Ht' & Hout & HT).
  exists [T], t'. split; [destruct fuel; cbn [GuestData.sync_walk]; rewrite Hr; cbn [negb]; unfold mbind, op_bind; by rewrite E|]. split; [done|done|..].
  - intros [|x k] e He; [rewrite app_nil_r Hc in He; injection He as <-; by rewrite app_nil_r HT|destruct (Hleaf x k); by exists e].
  - intros p. rewrite list_elem_of_singleton. split; [intros ->; exists []; rewrite !app_nil_r Hc; by split|].
    intros ([|x k] & -> & H); [by rewrite app_nil_r|by destruct (Hleaf x k)].
Qed.
Lemma sync_walk_spec fuel q n T t :
  stree t → T ≠ [] → node_at f q = Some n → (GitCopy.depth f ≤ fuel + length q)%nat → (∀ k, readable (q ++ k) = true) → dir_at t (parent T) = true →
  ∃ want t', sync_walk fuel q n T t = (Ok want, t') ∧ synced t t' q T want.
Proof using f_tree.
  revert q n T t. induction fuel as [|fuel IH]; intros q n T t Ht Hne Hn Hf Hr Hd.
  all: assert (readable q = true) as Hrq by (by rewrite -(app_nil_r q)).
  all: destruct (decide (n = NDir)) as [->|Hnd]; [|by apply sync_leaf_spec].
  all: assert (copied q = Some (EDir 0)) as Hc by (unfold copied; by rewrite Hn).
  all: destruct (sync_dir_spec T t Ht Hne Hd) as (t1 & m & E1 & Ht1 & Hout1 & HT1).
  all: assert (dir_at t1 T = true) as Hd1 by (unfold dir_at; rewrite HT1; by destruct T).
  - exists [T], t1. split; [cbn [GuestData.sync_walk]; unfold mbind, op_bind; by rewrite E1 Hrq|].
    assert (∀ x k, ¬ is_Some (copied (q ++ x :: k))) as Hno.
    { intros x k [e He]. unfold copied in He. rewrite node_at_app in He. destruct (f !! (q ++ x :: k)) as [n|] eqn:En; [|done].
      apply GitCopy.depth_spec in En. rewrite length_app in En. cbn in En. lia. }
    split; [done|done|..].
    + intros [|x k] e He; [rewrite app_nil_r Hc in He; injection He as <-; by rewrite app_nil_r HT1|destruct (Hno x k); by exists e].
    + intros p. rewrite list_elem_of_singleton. split; [intros ->; exists []; rewrite !app_nil_r Hc; by split|].
      intros ([|x k] & -> & H); [by rewrite app_nil_r|by destruct (Hno x k)].
  - destruct (collect_synced q T (λ xn, sync_walk fuel (q ++ [xn.1]) xn.2 (T ++ [xn.1])) (children f q) t1) as (want & t' & E & S).
    + intros x n s Hx Hs Hds. apply children_spec in Hx. apply IH; [done|by destruct T|by rewrite node_at_app|rewrite length_app; cbn; lia| |by rewrite parent_snoc].
      intros k. rewrite -app_assoc. apply Hr.
    + apply children_NoDup.
    + done.
    + done.
    + exists (T :: want), t'. split; [cbn [GuestData.sync_walk]; unfold mbind, op_bind; rewrite E1 Hrq; cbn [negb]; by rewrite E|].
      assert (t' !! T = t1 !! T) as HT.
      { apply (sa_out _ _ _ _ _ _ S). intros x _ H%prefix_length. rewrite length_app in H. cbn in H. lia. }
      split; [apply (sa_tree _ _ _ _ _ _ S)|..].
      * intros p Hp. rewrite (sa_out _ _ _ _ _ _ S); [by apply Hout1|]. intros x _ [k ->]. apply Hp. exists ([x] ++ k). by rewrite -app_assoc.
      * intros [|x k] e He; [rewrite app_nil_r Hc in He; injection He as <-; by rewrite app_nil_r HT HT1|].
        apply (sa_in _ _ _ _ _ _ S); [|done]. apply (child_names q x k). by exists e.
      * intros p. rewrite elem_of_cons (sa_want _ _ _ _ _ _ S). split.
        { intros [->|(x & k & _ & -> & H)]; [exists []; rewrite !app_nil_r Hc; by split|by exists (x :: k)]. }
        intros ([|x k] & -> & H); [left; by rewrite app_nil_r|right; exists x, k; split; [by apply (child_names q x k)|done]].
Qed.

(** *** Removing what the host has no more *)

Lemma each_remove l (t : staged) : stree t → ∃ t', each RemoveAll l t = (Ok (), t') ∧ stree t' ∧
  (∀ p s, s ∈ l → s `prefix_of` p → t' !! p = None) ∧ (∀ p, (∀ s, s ∈ l → ¬ s `prefix_of` p) → t' !! p = t !! p).
Proof.
  revert t. induction l as [|s l IH]; intros t Ht.
  { exists t. split; [done|]. split; [done|]. split; [by intros p s ?%elem_of_nil|done]. }
  destruct (IH (RemoveAll s t).2 (stree_remove s t Ht)) as (t' & E & Ht' & Hin & Hout). exists t'.
  split; [exact E|]. split; [done|]. split.
  - intros p s' [->|Hs']%elem_of_cons Hp; [|by apply (Hin p s')]. destruct (decide (Exists (λ s', s' `prefix_of` p) l)) as [H|H].
    + apply Exists_exists in H as (s' & Hs' & Hp'). by apply (Hin p s').
    + rewrite Hout; [by rewrite RemoveAll_lookup bool_decide_eq_true_2|]. intros s' Hs' Hp'. apply H, Exists_exists. by exists s'.
  - intros p Hp. rewrite Hout; [apply remove_out, Hp; by left|]. intros s' Hs'. apply Hp. by right.
Qed.
Lemma stree_up (t : staged) q k : stree t → q ≠ [] → is_Some (t !! (q ++ k)) → is_Some (t !! q).
Proof.
  intros Ht Hq [e He]. destruct k as [|x k _] using rev_ind; [rewrite app_nil_r in He; by exists e|].
  apply Ht in He as [_ Hd]. rewrite app_assoc parent_snoc in Hd. apply (dir_at_app _ _ _ Ht) in Hd.
  unfold dir_at, is_edir in Hd. destruct q as [|y q]; [done|]. by destruct (t !! (y :: q)) as [[]|].
Qed.
(** What is not wanted is stale or inside something stale. *)
Lemma stale_covers dst want (t : staged) p : stree t → is_Some (t !! p) → dst `prefix_of` p → p ≠ dst → p ∉ want → ∃ s, s ∈ stale dst want t ∧ s `prefix_of` p.
Proof.
  intros Ht. remember (length p) as n eqn:En. revert p En. induction (lt_wf n) as [n _ IH]. intros p -> Hp Hd Hne Hw.
  destruct (walked dst want p) eqn:Ew.
  { exists p. split; [|done]. apply list_elem_of_filter. split; [done|]. destruct Hp as [e He]. apply list_elem_of_fmap. exists (p, e). split; [done|by apply elem_of_map_to_list]. }
  assert (∃ i, (i < length p)%nat ∧ ¬ take i p `prefix_of` dst ∧ take i p ∉ want) as (i & Hi & Hn & Hw').
  { unfold walked in Ew. apply not_true_iff_false in Ew. rewrite forallb_forall in Ew.
    destruct (decide (Exists (λ i, ¬ take i p `prefix_of` dst ∧ take i p ∉ want) (seq 0 (length p)))) as [H|H].
    - apply Exists_exists in H as (i & Hi%elem_of_seq & H). exists i. split; [lia|done].
    - exfalso. apply Ew. intros i Hi%list_elem_of_In. apply orb_true_iff. rewrite !bool_decide_eq_true.
      destruct (decide (take i p `prefix_of` dst)); [by left|]. right. destruct (decide (take i p ∈ want)); [done|]. exfalso. apply H, Exists_exists. by exists i. }
  assert (take i p `prefix_of` p) as Hpre by (exists (drop i p); by rewrite take_drop).
  assert (dst `prefix_of` take i p) as Hd' by (destruct (prefix_weak_total dst (take i p) p Hd Hpre); [done|by destruct Hn]).
  destruct (IH (length (take i p)) ltac:(rewrite length_take; lia) (take i p) eq_refl) as (s & Hs & Hps).
  - destruct Hpre as [k E]. apply (stree_up t _ k Ht); [|by rewrite -E]. intros E'. apply Hn. rewrite E'. apply prefix_nil.
  - done.
  - intros E. apply Hn. by rewrite E.
  - done.
  - exists s. split; [done|]. exact (transitivity Hps Hpre).
Qed.
(** What the copy of the host directory [src] has at [k]. *)
Definition source (src : string) (k : path) : option entry :=
  match place klinks f (comps src) with
  | inl (Some q) => match node_at f q with Some NDir => copied (q ++ k) | _ => None end
  | _ => None
  end.
Local Notation syncDir := (syncDir f klinks readable).
(** The walk in the directory of [src]. *)
Lemma sync_children dst src (t : staged) :
  stree t → dst ≠ [] → dir_at t dst = true → (∀ q, readable q = true) → place klinks f (comps src) ≠ inr () →
  ∃ want t', (match place klinks f (comps src) with
          | inl (Some q) =>
              match node_at f q with
              | Some NDir =>
                  if negb (readable q) then fail (SSource src) else
                  collect (λ xn, sync_walk (GitCopy.depth f) (q ++ [xn.1]) xn.2 (dst ++ [xn.1])) (children f q)
              | _ => mret []
              end
          | inl None => mret []
          | inr _ => fail (SSource src)
          end) t = (Ok want, t') ∧ stree t' ∧ dir_at t' dst = true ∧ (∀ p, ¬ dst `prefix_of` p → t' !! p = t !! p) ∧
    (∀ x k e, source src (x :: k) = Some e → erase <$> t' !! (dst ++ x :: k) = Some e) ∧
    (∀ p, p ∈ want ↔ ∃ x k, p = dst ++ x :: k ∧ is_Some (source src (x :: k))).
Proof using f_tree.
  intros Ht Hne Hd Hr Hp. unfold source.
  assert (∃ want t', (mret [] : sop (list path)) t = (Ok want, t') ∧ stree t' ∧ dir_at t' dst = true ∧ (∀ p, ¬ dst `prefix_of` p → t' !! p = t !! p) ∧
    (∀ (x : string) (k : path) e, None = Some e → erase <$> t' !! (dst ++ x :: k) = Some e) ∧
    (∀ p, p ∈ want ↔ ∃ x k, p = dst ++ x :: k ∧ is_Some (None : option entry))) as Hnone.
  { exists [], t. repeat (split; [done|]). intros p. split; [by intros ?%elem_of_nil|by intros (x & k & _ & [? ?])]. }
  destruct (place klinks f (comps src)) as [[q|]|[]]; [|exact Hnone|done].
  destruct (node_at f q) as [[| | |]|] eqn:Eq; [|exact Hnone..]. rewrite Hr. cbn [negb].
  destruct (collect_synced q dst (λ xn, sync_walk (GitCopy.depth f) (q ++ [xn.1]) xn.2 (dst ++ [xn.1])) (children f q) t) as (want & t' & E & S).
  - intros x n s Hx%children_spec Hs Hds. apply sync_walk_spec; [done|by destruct dst|by rewrite node_at_app|lia|done|by rewrite parent_snoc].
  - apply children_NoDup.
  - done.
  - done.
  - exists want, t'. split; [exact E|]. split; [apply (sa_tree _ _ _ _ _ _ S)|].
    assert (∀ p, ¬ dst `prefix_of` p ∨ p = dst → t' !! p = t !! p) as Hout.
    { intros p Hp'. apply (sa_out _ _ _ _ _ _ S). intros x _ H. destruct Hp' as [Hp'| ->]; [apply Hp'; etrans; [|exact H]; by exists [x]|].
      apply prefix_length in H. rewrite length_app in H. cbn in H. lia. }
    split; [unfold dir_at in *; destruct dst; [done|]; rewrite Hout; [done|by right]|]. split; [intros p Hp'; apply Hout; by left|]. split.
    + intros x k e He. apply (sa_in _ _ _ _ _ _ S); [apply (child_names q x k); by exists e|done].
    + intros p. rewrite (sa_want _ _ _ _ _ _ S). split; [intros (x & k & _ & H); by exists x, k|].
      intros (x & k & -> & H). exists x, k. split; [by apply (child_names q x k)|done].
Qed.
Lemma syncDir_mirrors dst src (t : staged) :
  stree t → dst ≠ [] → dir_at t (parent dst) = true → (t !! dst = None ∨ dir_at t dst = true) →
  (∀ q, readable q = true) → place klinks f (comps src) ≠ inr () →
  ∃ t', syncDir dst src t = (Ok (), t') ∧ stree t' ∧ dir_at t' dst = true ∧ (∀ p, ¬ dst `prefix_of` p → t' !! p = t !! p) ∧
    ∀ x k, erase <$> t' !! (dst ++ x :: k) = source src (x :: k).
Proof using f_tree.
  intros Ht Hne Hpar Hdst Hr Hp.
  assert (∃ t0, rMkdirAll dst perm_700 t = (Ok (), t0) ∧ stree t0 ∧ dir_at t0 dst = true ∧ ∀ p, ¬ dst `prefix_of` p → t0 !! p = t !! p) as (t0 & E0 & Ht0 & Hd0 & Hout0).
  { destruct Hdst as [Hn|Hd]; [|exists t; by rewrite mkdir_there]. exists (<[dst := EDir perm_700]> t).
    split; [by apply rMkdirAll_fresh|]. split; [by apply stree_put|]. split; [unfold dir_at; rewrite lookup_insert_eq; by destruct dst|intros p; apply insert_out]. }
  destruct (sync_children dst src t0 Ht0 Hne Hd0 Hr Hp) as (want & t1 & E1 & Ht1 & Hd1 & Hout1 & Hin & Hwant).
  destruct (each_remove (stale dst want t1) t1 Ht1) as (t2 & E2 & Ht2 & Hgone & Hkept).
  exists t2. split; [unfold GuestData.syncDir, mbind, op_bind; rewrite E0; rewrite E1; exact E2|]. split; [done|].
  assert (∀ s, s ∈ stale dst want t1 → dst `prefix_of` s ∧ s ≠ dst ∧ s ∉ want) as Hst by (intros s [(Hs & ? & ? & _) _]%list_elem_of_filter; done).
  split; [|split].
  - unfold dir_at in *. destruct dst as [|y l] eqn:Ed; [done|]. rewrite -Ed in Hst Hkept Hd1 |- *. rewrite Hkept; [done|].
    intros s [Hs1 [Hs2 _]]%Hst H. by apply Hs2, (anti_symm prefix).
  - intros p Hp'. rewrite Hkept; [by rewrite Hout1; [apply Hout0|]|]. intros s [Hs _]%Hst H. apply Hp'. exact (transitivity Hs H).
  - intros x k. destruct (source src (x :: k)) as [e|] eqn:Es.
    + rewrite Hkept; [by apply Hin|]. intros s Hs H. destruct (Hst s Hs) as ([k1 ->] & Hne1 & Hw). apply Hw, Hwant.
      destruct k1 as [|y k1]; [by rewrite app_nil_r in Hne1|]. destruct H as [k2 E]. rewrite -app_assoc in E. apply app_inv_head in E. injection E as -> ->.
      exists y, k1. split; [done|]. unfold source in Es |- *. destruct (place klinks f (comps src)) as [[q|]|]; [|done..].
      destruct (node_at f q) as [[| | |]|]; [|done..]. destruct k2 as [|z k2]; [rewrite app_nil_r in Es; by exists e|].
      exists (EDir 0). apply (copied_up _ z k2). exists e. by rewrite -app_assoc.
    + destruct (t1 !! (dst ++ x :: k)) as [e|] eqn:E1'.
      * destruct (stale_covers dst want t1 (dst ++ x :: k)) as (s & Hs & Hps); [done|by exists e|by exists (x :: k)|..].
        { intros E. rewrite -{2}(app_nil_r dst) in E. by apply app_inv_head in E. }
        { rewrite Hwant. intros (y & k' & E & H). apply app_inv_head in E. injection E as -> ->. rewrite Es in H. by destruct H. }
        by rewrite (Hgone _ s).
      * destruct (decide (Exists (λ s, s `prefix_of` dst ++ x :: k) (stale dst want t1))) as [H|H].
        { apply Exists_exists in H as (s & Hs & Hps). by rewrite (Hgone _ s). }
        rewrite Hkept; [by rewrite E1'|]. intros s Hs Hps. apply H, Exists_exists. by exists s.
Qed.
End Sync.

(** ** The home directories of an older layout *)

Lemma moved_lookup p q (t : staged) k : (∀ k, t !! (q ++ k) = None) → moved p q t !! (q ++ k) = t !! (p ++ k).
Proof.
  intros Hq. unfold moved. rewrite lookup_union_l; [|apply map_lookup_filter_None; left; apply Hq].
  set (l := omap _ _). assert (∀ x e, (x, e) ∈ l ↔ ∃ k, x = q ++ k ∧ t !! (p ++ k) = Some e) as Hl.
  { intros x e. unfold l. rewrite list_elem_of_omap. split.
    - intros ([x' e'] & Hin%elem_of_map_to_list & E). cbn in E. case_bool_decide as Hp; [|done]. injection E as <- <-.
      destruct Hp as [k' ->]. exists k'. by rewrite drop_app_length.
    - intros (k' & -> & Ht). exists (p ++ k', e). split; [by apply elem_of_map_to_list|]. cbn. rewrite bool_decide_eq_true_2; [|by exists k'].
      by rewrite drop_app_length. }
  assert (∀ x e e', (x, e) ∈ l → (x, e') ∈ l → e = e') as Hfun.
  { intros x e e' (k1 & -> & H1)%Hl (k2 & E & H2)%Hl. apply app_inv_head in E as ->. congruence. }
  destruct (t !! (p ++ k)) as [e|] eqn:E.
  - assert ((q ++ k, e) ∈ l) as Hin by (apply Hl; by exists k).
    apply elem_of_list_to_map_1'; [intros e' He'; by apply (Hfun (q ++ k))|done].
  - apply not_elem_of_list_to_map_1. intros ([x e] & Ex & (k' & -> & H)%Hl)%list_elem_of_fmap. cbn in Ex. apply app_inv_head in Ex as ->. congruence.
Qed.
Lemma moved_out p q (t : staged) x : ¬ q `prefix_of` x → moved p q t !! x = if bool_decide (p `prefix_of` x) then None else t !! x.
Proof.
  intros Hq. unfold moved. rewrite lookup_union_r.
  2: { apply not_elem_of_list_to_map_1. intros ([y e] & -> & ([z e'] & _ & E)%list_elem_of_omap)%list_elem_of_fmap. cbn in E.
    case_bool_decide; [|done]. injection E as <- <-. apply Hq. by eexists. }
  case_bool_decide as Hp.
  - apply map_lookup_filter_None. right. intros e _. cbn. by intros H.
  - destruct (t !! x) as [e|] eqn:E; [by apply map_lookup_filter_Some|apply map_lookup_filter_None; by left].
Qed.
(** What the agent stored: in the writable data directory, or where an older
    layout had it. *)
Definition homeDir : path := GuestDataDir ++ [guestDataHome].
Definition stored (t : staged) (k : path) : option entry :=
  match t !! homeDir with Some _ => t !! (homeDir ++ k) | None => t !! (guestDataHome :: k) end.
Lemma stored_there (t : staged) k : stree t → is_Some (t !! homeDir) → stored t k = t !! (homeDir ++ k).
Proof. intros _ [e E]. unfold stored. by rewrite E. Qed.
Lemma stree_moved p q (t : staged) :
  stree t → p ≠ [] → q ≠ [] → dir_at t (parent q) = true → (∀ k, t !! (q ++ k) = None) → ¬ p `prefix_of` parent q → stree (moved p q t).
Proof.
  intros Ht Hp Hq Hd Hv Hpq x e Hx.
  assert (∀ y, ¬ q `prefix_of` y → ¬ p `prefix_of` y → dir_at t y = true → dir_at (moved p q t) y = true) as Hsame.
  { intros [|z l] H1 H2 H; [done|]. unfold dir_at in *. by rewrite moved_out; [rewrite bool_decide_eq_false_2|]. }
  destruct (decide (q `prefix_of` x)) as [[k ->]|Hn].
  - split; [by destruct q|]. rewrite moved_lookup in Hx; [|done]. destruct k as [|y k _] using rev_ind.
    + rewrite app_nil_r. apply Hsame; [|done|done]. intros H%prefix_length. destruct (exists_last Hq) as (l & z & ->). rewrite parent_snoc length_app in H. cbn in H. lia.
    + rewrite app_assoc in Hx. apply Ht in Hx as [_ Hx]. rewrite parent_snoc in Hx. rewrite app_assoc parent_snoc. unfold dir_at in *.
      destruct (q ++ k) as [|z l] eqn:E; [by destruct q|]. rewrite -E moved_lookup; [|done]. destruct (p ++ k) eqn:E'; [by destruct p|done].
  - rewrite moved_out in Hx; [|done]. case_bool_decide as Hpx; [done|]. destruct (Ht x e Hx) as [H1 H2]. split; [done|].
    pose proof (parent_prefix x). apply Hsame; [intros H'; apply Hn; exact (transitivity H' H)|intros H'; apply Hpx; exact (transitivity H' H)|done].
Qed.
Lemma remove_other n x l (t : staged) : n ≠ x → (RemoveAll [n] t).2 !! (x :: l) = t !! (x :: l).
Proof. intros H. apply remove_out. by intros Hp%prefix_cons_inv_1. Qed.
Lemma vacant_below (t : staged) p k : stree t → p ≠ [] → t !! p = None → t !! (p ++ k) = None.
Proof. intros Ht Hp Hn. destruct (t !! (p ++ k)) as [e|] eqn:E; [|done]. destruct (stree_up t p k Ht Hp) as [e' He']; [by exists e|congruence]. Qed.
(** The move when only the older layout has home directories. *)
Lemma move_homes (t : staged) : stree t → t !! homeDir = None → let m := (_ ← rMkdirAll GuestDataDir perm_700; Rename [guestDataHome] homeDir : sop ()) in
  stree (m t).2 ∧ match (m t).1 with
  | Ok _ => ∀ k, (m t).2 !! (homeDir ++ k) = t !! (guestDataHome :: k)
  | Err _ => (m t).2 !! homeDir = None ∧ ∀ k, (m t).2 !! (guestDataHome :: k) = t !! (guestDataHome :: k)
  end.
Proof.
  intros Ht Hn m. unfold m, mbind, op_bind.
  destruct (preserves_mkdir eq (λ p, ¬ p `prefix_of` GuestDataDir) GuestDataDir perm_700 ltac:(done) t Ht) as [Ht1 Hk].
  destruct (rMkdirAll GuestDataDir perm_700 t) as [[u|e] t1] eqn:E; cbn [fst snd] in *.
  2: { split; [done|]. split; [rewrite -Hk; [done|by intros H%prefix_length; cbn in H; lia]|]. intros k. rewrite -Hk; [done|by intros H%prefix_cons_inv_1]. }
  assert (t1 !! homeDir = None) as Hn1 by (rewrite -Hk; [done|by intros H%prefix_length; cbn in H; lia]).
  assert (∀ k, t1 !! (homeDir ++ k) = None) as Hv by (intros k; by apply vacant_below).
  unfold Rename. replace (parent homeDir) with GuestDataDir by done. rewrite (mkdir_Ok _ _ _ _ _ Ht E). rewrite bool_decide_eq_true_2; [|done]. cbn [andb fst snd].
  split; [apply stree_moved; [done..|exact (mkdir_Ok _ _ _ _ _ Ht E)|done|by intros H%prefix_cons_inv_1]|].
  intros k. rewrite (moved_lookup [guestDataHome] homeDir); [|done]. change ([guestDataHome] ++ k) with (guestDataHome :: k). symmetry. apply Hk. by intros H%prefix_cons_inv_1.
Qed.
Definition without_old (t : staged) : staged := (RemoveAll ["copies"] (RemoveAll ["snapshots"] (RemoveAll ["control"] t).2).2).2.
Lemma without_old_spec (t : staged) : stree t → stree (without_old t) ∧ ∀ x l, x ∉ ["control"; "snapshots"; "copies"] → without_old t !! (x :: l) = t !! (x :: l).
Proof.
  intros Ht. split; [by repeat apply stree_remove|]. intros x l Hx. assert (∀ n, n ∈ ["control"; "snapshots"; "copies"] → n ≠ x) as Hn by (by intros n Hin ->).
  unfold without_old. rewrite !remove_other; [done|apply Hn; set_solver..].
Qed.
Lemma migrate_eq (t : staged) : migrateHomeDirs t = let t1 := without_old t in
  if bool_decide (is_Some (t1 !! [guestDataHome])) && negb (bool_decide (is_Some (t1 !! homeDir)))
  then (_ ← rMkdirAll GuestDataDir perm_700; Rename [guestDataHome] homeDir : sop ()) t1 else (Ok (), t1).
Proof.
  transitivity ((old ← gets (λ t : staged, t !! [guestDataHome]);
    if negb (bool_decide (is_Some old)) then mret () else
    dst ← gets (λ t : staged, t !! homeDir);
    if bool_decide (is_Some dst) then mret () else
    _ ← rMkdirAll GuestDataDir perm_700; Rename [guestDataHome] homeDir : sop ()) (without_old t)); [done|].
  cbv zeta. generalize (without_old t). intros t1. unfold gets, mbind, op_bind. cbn beta iota.
  destruct (bool_decide (is_Some (t1 !! [guestDataHome]))); [|done]. cbn [negb andb]. cbn beta. by destruct (bool_decide (is_Some (t1 !! homeDir))).
Qed.
(** The migration keeps what is stored, and it is in the data directory afterwards. *)
Lemma migrate_keeps (t : staged) k e : stree t → stored t k = Some e →
  let r := migrateHomeDirs t in stree r.2 ∧ stored r.2 k = Some e ∧ ((∃ u, r.1 = Ok u) → r.2 !! (homeDir ++ k) = Some e).
Proof.
  intros Ht Hs. cbv zeta. rewrite migrate_eq. destruct (without_old_spec t Ht) as [Ht1 Hsame].
  assert (stored (without_old t) k = Some e) as Hs1.
  { unfold stored, homeDir in *. cbn [app GuestDataDir] in *. rewrite !Hsame; [done|unfold guestDataHome; set_solver..]. }
  cbv zeta. clear Hsame Hs Ht. revert Ht1 Hs1. generalize (without_old t). clear t. intros t Ht Hs. unfold stored in Hs.
  destruct (t !! homeDir) as [d|] eqn:Ed.
  { rewrite (bool_decide_eq_true_2 (is_Some (Some d))); [|done]. rewrite andb_false_r. cbn [fst snd]. unfold stored. by rewrite Ed. }
  destruct (stree_up t [guestDataHome] k Ht ltac:(done)) as [h Eh]; [by exists e|].
  rewrite (bool_decide_eq_false_2 (is_Some None)); [|by intros [? ?]]. rewrite bool_decide_eq_true_2; [|by exists h]. cbn [negb andb].
  destruct (move_homes t Ht Ed) as [H1 H2]. split; [exact H1|].
  match type of H1 with stree (?m).2 => destruct m as [[u|x] t'] end; cbn [fst snd] in *.
  - assert (t' !! (homeDir ++ k) = Some e) as Hk by by rewrite H2. split; [|done].
    destruct (stree_up t' homeDir k H1 ltac:(done)) as [d' Ed']; [by exists e|]. unfold stored. by rewrite Ed'.
  - destruct H2 as [H2 H3]. split; [unfold stored; rewrite H2 H3; done|by intros [u [=]]].
Qed.

(** ** The data of a workspace VM *)

Section Calls.
Context (R : relation (option entry)) `{!PreOrder R} (K : path → Prop).
Local Notation preserves := (preserves R K).
(** [K] has no path at or below [dst], nor above it unless directories may be added. *)
Definition apart (dst : path) : Prop := (∀ p, K p → ¬ dst `prefix_of` p) ∧ ∀ q m, q `prefix_of` dst → K q → R None (Some (EDir m)).
Lemma apart_below dst T : apart dst → dst `prefix_of` T → apart T.
Proof using.
  intros [H1 H2] HT. split; [intros p Hp H; apply (H1 p Hp); exact (transitivity HT H)|]. intros q m Hq Hk.
  destruct (prefix_weak_total q dst T Hq HT) as [H|H]; [by apply (H2 q)|by destruct (H1 q Hk)].
Qed.
Lemma preserves_sync_dir T : apart T → preserves (sync_dir_entry T).
Proof using Type*.
  intros [H1 H2]. apply preserves_bind; [done|by apply preserves_gets|]. intros e.
  apply preserves_bind; [done| |intros _; apply preserves_mkdir; [done|intros q Hq Hk; by apply (H2 q)]].
  destruct e as [[| |]|]; [by apply preserves_ret|by apply preserves_remove..|by apply preserves_ret].
Qed.
Lemma preserves_sync_file T d : apart T → preserves (sync_file T d).
Proof using Type*.
  intros [H1 _]. assert (preserves (WriteFile T d)) as Hw by (apply preserves_write; [done|intros Hk; by apply (H1 T Hk)]).
  apply preserves_bind; [done|by apply preserves_gets|]. intros [[m|m old|l]|]; [|destruct (String.eqb old d); [by apply preserves_ret|done]| |done].
  all: apply preserves_bind; [done|by apply preserves_remove|done].
Qed.
Lemma preserves_collect {A} (w : A → sop (list path)) l : (∀ x, preserves (w x)) → preserves (collect w l).
Proof using Type*.
  intros Hw. induction l as [|x l IH]; [by apply preserves_ret|]. apply preserves_bind; [done|apply Hw|]. intros a.
  apply preserves_bind; [done|done|]. intros b. by apply preserves_ret.
Qed.
Lemma preserves_walk f readable fuel q n T : apart T → preserves (sync_walk f readable fuel q n T).
Proof using Type*.
  revert q n T. induction fuel as [|fuel IH]; intros q n T HT; destruct n as [|d|l|]; cbn [sync_walk]; try by apply preserves_ret.
  all: try (destruct (readable q); [|by apply preserves_fail]; apply preserves_bind; [done|by apply preserves_sync_file|intros _; by apply preserves_ret]).
  all: apply preserves_bind; [done|by apply preserves_sync_dir|]; intros _; destruct (readable q); [|by apply preserves_fail]; try by apply preserves_ret.
  apply preserves_bind; [done| |intros w; by apply preserves_ret]. apply preserves_collect. intros [x n]. apply IH. apply (apart_below T); [done|by exists [x]].
Qed.
Lemma preserves_syncDir f klinks readable dst src : apart dst → preserves (syncDir f klinks readable dst src).
Proof using Type*.
  intros Hd. apply preserves_bind; [done|apply preserves_mkdir; [done|intros q Hq Hk; by apply (proj2 Hd q)]|]. intros _.
  apply preserves_bind; [done| |intros want].
  - destruct (place klinks f (comps src)) as [[q|]|[]]; [|by apply preserves_ret|by apply preserves_fail].
    destruct (node_at f q) as [[| | |]|]; try by apply preserves_ret. destruct (readable q); [|by apply preserves_fail].
    apply preserves_collect. intros [x n]. apply preserves_walk, (apart_below dst); [done|by exists [x]].
  - intros t Ht. revert t Ht. assert (∀ l, (∀ p, p ∈ l → dst `prefix_of` p) → preserves (each RemoveAll l)) as Hl.
    { intros l Hl. apply preserves_each; [done|]. intros p Hp. apply preserves_remove; [done|]. intros q Hq H. apply (proj1 Hd q Hq). exact (transitivity (Hl p Hp) H). }
    intros t Ht. unfold gets, mbind, op_bind. apply Hl; [|done]. by intros p [(? & _) _]%list_elem_of_filter.
Qed.
Context (decode : string → option (option (gmap string string))) (line_command : string → option string).
Context (encode marshal : gmap string string → string).
Lemma preserves_status dir h :
  (∀ file harness, SettingsFile (h_TUIPlugin h) = Some (file, harness) → ¬ K (dir ++ file)) →
  (∀ q k m, q `prefix_of` dir ++ k → K q → R None (Some (EDir m))) → preserves (addStatusLine decode line_command encode marshal dir h).
Proof using Type*.
  intros H1 H2. unfold addStatusLine. destruct (SettingsFile (h_TUIPlugin h)) as [[file harness]|]; [|by apply preserves_ret].
  assert (preserves (setDefaultStatusLine decode line_command encode marshal (dir ++ file) harness)) as Hs.
  { apply preserves_bind; [done| |intros [m|]].
    - apply preserves_bind; [done|by apply preserves_gets|]. intros [[m|m data|l]|]; [by apply preserves_fail| |by apply preserves_fail|by apply preserves_ret].
      destruct (_ <? _)%Z; [by apply preserves_fail|]. destruct (decode data); [by apply preserves_ret|by apply preserves_fail].
    - destruct (own_line line_command (Some m) harness); [|by apply preserves_ret]. cbn [negb]. apply preserves_bind; [done| |intros _].
      + apply preserves_at_root, preserves_mkdir; [done|]. intros q Hq Hk. apply (H2 q file _); [|done]. exact (transitivity Hq (parent_prefix _)).
      + apply preserves_at_root, preserves_write; [done|by apply (H1 file harness)].
    - by apply preserves_fail. }
  intros t Ht. specialize (Hs t Ht). by destruct (setDefaultStatusLine _ _ _ _ _ _ t) as [[u|[| |]] t'].
Qed.
Lemma preserves_homes h shares ephemeral l :
  (∀ d file harness, d ∈ l → d ∈ h_State h → SettingsFile (h_TUIPlugin h) = Some (file, harness) → ¬ K (GuestDataDir ++ home_rel h ephemeral d ++ file)) →
  (∀ q k m, q `prefix_of` GuestDataDir ++ k → K q → R None (Some (EDir m))) →
  preserves (home_binds decode line_command encode marshal h shares ephemeral l).
Proof using Type*.
  intros H1 H2. induction l as [|d l IH]; [by apply preserves_ret|]. cbn [home_binds].
  assert (preserves (home_binds decode line_command encode marshal h shares ephemeral l)) as Hl by (apply IH; intros d' file harness Hd'; apply H1; by right).
  destruct (covered shares d); [done|]. apply preserves_bind; [done| |intros _; apply preserves_bind; [done|done|intros bs; by apply preserves_ret]].
  apply preserves_bind; [done|apply preserves_at_root, preserves_mkdir; [done|intros q Hq Hk; by apply (H2 q (home_rel h ephemeral d))]|]. intros _.
  destruct (existsb (statedir_eqb d) (h_State h)) eqn:E; [|by apply preserves_ret]. apply preserves_status.
  - intros file harness Hf. rewrite -app_assoc. apply (H1 d file harness); [by left| |done]. apply existsb_exists in E as (d' & Hd' & E).
    apply andb_true_iff in E as [E1%String.eqb_eq E2%String.eqb_eq]. apply list_elem_of_In. destruct d, d'. cbn in *. by subst.
  - intros q k m Hq Hk. apply (H2 q (home_rel h ephemeral d ++ k)); [by rewrite app_assoc|done].
Qed.
End Calls.

Section Data.
Context (decode : string → option (option (gmap string string))) (line_command : string → option string).
Context (encode marshal : gmap string string → string).
Context (f : fs) (klinks : nat) (readable : path → bool) (ConfigDir : string).
Hypothesis f_tree : tree f.
Hypothesis all_readable : ∀ q, readable q = true.
Context (ws : Resolved) (cacheDir : string) (shares : list Vm.Share) (start : bool).
Local Notation vmGuestData := (vmGuestData decode line_command encode marshal f klinks readable ConfigDir ws cacheDir shares start).
Local Notation home_binds := (home_binds decode line_command encode marshal (r_Agent ws) shares (is_ephemeral ws)).
Local Notation syncDir := (syncDir f klinks readable).
Local Notation source := (source f klinks).
Local Notation home_rel := (home_rel (r_Agent ws) (is_ephemeral ws)).

(** The settings files with the status line. *)
Definition settings_path (p : path) : Prop := ∃ d file harness top,
  d ∈ h_State (r_Agent ws) ∧ SettingsFile (h_TUIPlugin (r_Agent ws)) = Some (file, harness) ∧ p = GuestDataDir ++ [top; Agent.st_Name d] ++ file.
Definition own (p : path) : Prop := (∃ k, p = homeDir ++ k) ∧ ¬ settings_path p.
Definition configSource : string := JoinPath [ConfigDir; "workspaces"; r_Name ws].
(** The steps after the migration. *)
Definition refreshed : gop () :=
  _ ← at_root (rMkdirAll GuestDataDir perm_700);
  _ ← (if start then at_root (each (λ n, RemoveAll (GuestDataDir ++ [n])) [guestDataConfig; guestDataCache; "snapshots"]) else mret ());
  _ ← at_root (rMkdirAll GuestReadOnlyDir perm_700);
  _ ← at_root (syncDir (GuestReadOnlyDir ++ [guestDataConfig]) configSource);
  _ ← at_root (syncDir (GuestReadOnlyDir ++ [guestDataCache]) cacheDir);
  _ ← (if has_plugin (r_Agent ws) then at_root (rMkdirAll (GuestReadOnlyDir ++ [guestDataCache; tuiPlugin]) perm_700) else mret ());
  if is_ephemeral ws && start then at_root (RemoveAll (GuestDataDir ++ [guestDataEphemeral])) else mret ().
Definition with_homes : gop (list GuestSys.Bind) :=
  bs ← home_binds (persistentHomeDirs (r_Agent ws));
  mret ([ro_bind [guestDataConfig] VmHost.guestConfigDir; ro_bind [guestDataCache] VmHost.guestCacheDir] ++
        (if has_plugin (r_Agent ws) then [ro_bind [guestDataCache; tuiPlugin] tuiPluginContainerDir] else []) ++ bs).
Lemma gop_assoc {A B C} (m : gop A) (g : A → gop B) (k : B → gop C) t : ((m ≫= g) ≫= k) t = (m ≫= λ a, g a ≫= k) t.
Proof using. unfold mbind, op_bind. by destruct (m t) as [[a|e] t']. Qed.
Lemma gop_ext {A B} (m : gop A) (g k : A → gop B) t : (∀ a t, g a t = k a t) → (m ≫= g) t = (m ≫= k) t.
Proof using. intros H. unfold mbind, op_bind. destruct (m t) as [[a|e] t']; [apply H|done]. Qed.
Lemma vmGuestData_eq t : vmGuestData t = (_ ← at_root migrateHomeDirs; _ ← refreshed; with_homes) t.
Proof using.
  apply gop_ext; intros _ t0. unfold refreshed. do 6 (rewrite gop_assoc; apply gop_ext; intros _ ?). apply gop_ext; intros _ ?. by apply gop_ext.
Qed.
Lemma apart_ro R K n : (∀ p, K p → ∃ k, p = GuestDataDir ++ k) → apart R K (GuestReadOnlyDir ++ [n]).
Proof using.
  intros HK. split; [intros p (k & ->)%HK H; by apply prefix_cons_inv_1 in H|]. intros q m Hq (k & ->)%HK. by apply prefix_cons_inv_1 in Hq.
Qed.
Lemma refreshed_stays : preserves stays own refreshed.
Proof using.
  assert (∀ p, own p → ∃ k, p = GuestDataDir ++ k) as Hown by (intros p [[k ->] _]; by exists (guestDataHome :: k)).
  assert (∀ p m, preserves stays own (rMkdirAll p m)) as Hmk by (intros p m; apply preserves_mkdir; [apply _|intros q _ _; apply stays_None]).
  assert (∀ n, n ≠ guestDataHome → preserves stays own (RemoveAll (GuestDataDir ++ [n]))) as Hrm.
  { intros n Hn. apply preserves_remove; [apply _|]. intros p [[k ->] _] H. apply (prefix_cons_inv_2 "guest") in H. by apply prefix_cons_inv_1 in H. }
  repeat (apply preserves_bind; [apply _| |intros []]).
  - apply preserves_at_root, Hmk.
  - destruct start; [|apply preserves_ret, _]. apply preserves_at_root, preserves_each; [apply _|]. intros n Hn. apply Hrm.
    intros ->. unfold guestDataConfig, guestDataCache, guestDataHome in Hn. by repeat (apply elem_of_cons in Hn as [Hn|Hn]; [done|]); apply elem_of_nil in Hn.
  - apply preserves_at_root, Hmk.
  - apply preserves_at_root, preserves_syncDir, apart_ro; [apply _|done].
  - apply preserves_at_root, preserves_syncDir, apart_ro; [apply _|done].
  - destruct (has_plugin _); [apply preserves_at_root, Hmk|apply preserves_ret, _].
  - destruct (_ && _); [by apply preserves_at_root, Hrm|apply preserves_ret, _].
Qed.
Lemma homes_stays : preserves stays own with_homes.
Proof using.
  apply preserves_bind; [apply _| |intros bs; apply preserves_ret, _]. apply preserves_homes; [apply _| |intros; apply stays_None].
  intros d file harness _ Hd Hf [_ H]. apply H. exists d, file, harness, (if is_ephemeral ws && existsb (statedir_eqb d) (h_State (r_Agent ws)) then guestDataEphemeral else guestDataHome).
  split; [done|]. split; [done|]. done.
Qed.
(** What the later steps do not change. *)
Lemma homes_frame : preserves eq (λ p, ∃ k, p = GuestReadOnlyDir ++ k) with_homes.
Proof using.
  apply preserves_bind; [apply _| |intros bs; apply preserves_ret, _]. apply preserves_homes; [apply _|..].
  - intros d file harness _ _ _ [k H]. done.
  - intros q k m Hq [k' ->]. by apply prefix_cons_inv_1 in Hq.
Qed.
Lemma at_root_Ok {A} (m : sop A) (t t' : staged) a : at_root m t = (Ok a, t') ↔ m t = (Ok a, t').
Proof using. unfold at_root. destruct (m t) as [[x|x] y]; split; congruence. Qed.
Lemma syncDir_Ok dst src (t t' : staged) u :
  stree t → dst ≠ [] → dir_at t (parent dst) = true → syncDir dst src t = (Ok u, t') →
  stree t' ∧ dir_at t' dst = true ∧ (∀ p, ¬ dst `prefix_of` p → t' !! p = t !! p) ∧ ∀ x k, erase <$> t' !! (dst ++ x :: k) = source src (x :: k).
Proof using f_tree all_readable.
  intros Ht Hne Hd E. pose proof E as E'. apply op_bind_Ok in E' as (u1 & t1 & E1 & E'). apply op_bind_Ok in E' as (want & t2 & E2 & _).
  destruct (syncDir_mirrors f klinks readable f_tree dst src t) as (t3 & E3 & H); [done|done|done| |exact all_readable| |].
  - destruct (t !! dst) as [e|] eqn:Ee; [right|by left]. pose proof (mkdir_Ok _ _ _ _ _ Ht E1) as Hd1.
    destruct (preserves_mkdir stays (λ _, True) dst perm_700 ltac:(intros; apply stays_None) t Ht) as [_ Hs]. rewrite E1 in Hs.
    specialize (Hs dst I e Ee). cbn in Hs. unfold dir_at in *. destruct dst as [|x l]; [done|]. rewrite Hs in Hd1. by rewrite Ee.
  - intros Hp. by rewrite Hp in E2.
  - rewrite E in E3. injection E3 as _ <-. exact H.
Qed.
(** What the copies hold at the end. *)
Definition copies (t : staged) : Prop :=
  (∀ x k, erase <$> t !! (GuestReadOnlyDir ++ guestDataConfig :: x :: k) = source configSource (x :: k)) ∧
  (∀ x k, x ≠ tuiPlugin ∨ has_plugin (r_Agent ws) = false → erase <$> t !! (GuestReadOnlyDir ++ guestDataCache :: x :: k) = source cacheDir (x :: k)) ∧
  (has_plugin (r_Agent ws) = true → dir_at t (GuestReadOnlyDir ++ [guestDataCache; tuiPlugin]) = true ∧
    ∀ k e, source cacheDir (tuiPlugin :: k) = Some e → erase <$> t !! (GuestReadOnlyDir ++ guestDataCache :: tuiPlugin :: k) = Some e).
Lemma plugin_step (t t' : staged) u :
  stree t → (if has_plugin (r_Agent ws) then at_root (rMkdirAll (GuestReadOnlyDir ++ [guestDataCache; tuiPlugin]) perm_700) else mret ()) t = (Ok u, t') →
  (∀ p, ¬ p `prefix_of` GuestReadOnlyDir ++ [guestDataCache; tuiPlugin] ∨ has_plugin (r_Agent ws) = false → t' !! p = t !! p) ∧
  (∀ p e, t !! p = Some e → t' !! p = Some e) ∧ (has_plugin (r_Agent ws) = true → dir_at t' (GuestReadOnlyDir ++ [guestDataCache; tuiPlugin]) = true).
Proof using.
  intros Ht E. destruct (has_plugin (r_Agent ws)); [|by injection E as _ <-]. apply at_root_Ok in E.
  pose proof (preserves_mkdir eq (λ p, ¬ p `prefix_of` GuestReadOnlyDir ++ [guestDataCache; tuiPlugin]) _ perm_700 ltac:(intros q Hq Hk; by destruct (Hk Hq)) t Ht) as [_ H1]. rewrite E in H1.
  pose proof (preserves_mkdir stays (λ _, True) (GuestReadOnlyDir ++ [guestDataCache; tuiPlugin]) perm_700 ltac:(intros; apply stays_None) t Ht) as [_ H2]. rewrite E in H2.
  split; [intros p [Hp|[=]]; symmetry; by apply H1|]. split; [intros p e He; by apply (H2 p I e)|]. intros _. exact (mkdir_Ok _ _ _ _ _ Ht E).
Qed.
Lemma refreshed_Ok (t t' : staged) u : stree t → refreshed t = (Ok u, t') → stree t' ∧ copies t'.
Proof using f_tree all_readable.
  intros Ht E. pose proof (refreshed_stays t Ht) as [Ht' _]. rewrite E in Ht'. cbn in Ht'. split; [done|].
  apply op_bind_Ok in E as (u1 & t1 & E1%at_root_Ok & E).
  pose proof (preserves_mkdir stays (λ _, False) GuestDataDir perm_700 ltac:(done) t Ht) as [Ht1 _]. rewrite E1 in Ht1.
  apply op_bind_Ok in E as (u2 & t2 & E2 & E). assert (stree t2) as Ht2.
  { assert (preserves stays (λ _, False) (if start then at_root (each (λ n, RemoveAll (GuestDataDir ++ [n])) [guestDataConfig; guestDataCache; "snapshots"]) else mret ())) as Hp.
    { destruct start; [|apply preserves_ret, _]. apply preserves_at_root, preserves_each; [apply _|]. intros n _. by apply preserves_remove; [apply _|]. }
    specialize (Hp t1 Ht1). rewrite E2 in Hp. by destruct Hp. }
  apply op_bind_Ok in E as (u3 & t3 & E3%at_root_Ok & E).
  pose proof (preserves_mkdir stays (λ _, False) GuestReadOnlyDir perm_700 ltac:(done) t2 Ht2) as [Ht3 _]. rewrite E3 in Ht3.
  pose proof (mkdir_Ok _ _ _ _ _ Ht2 E3) as Hd3.
  apply op_bind_Ok in E as (u4 & t4 & E4%at_root_Ok & E).
  destruct (syncDir_Ok (GuestReadOnlyDir ++ [guestDataConfig]) configSource t3 t4 u4 Ht3 ltac:(done) Hd3 E4) as (Ht4 & Hd4 & Hout4 & Hin4).
  apply op_bind_Ok in E as (u5 & t5 & E5%at_root_Ok & E).
  assert (dir_at t4 GuestReadOnlyDir = true) as Hd4' by (unfold dir_at in *; cbn in *; rewrite Hout4; [done|intros H%prefix_length; cbn in H; lia]).
  destruct (syncDir_Ok (GuestReadOnlyDir ++ [guestDataCache]) cacheDir t4 t5 u5 Ht4 ltac:(done) Hd4' E5) as (Ht5 & Hd5 & Hout5 & Hin5).
  apply op_bind_Ok in E as (u6 & t6 & E6 & E).
  assert (∀ l, t' !! (GuestReadOnlyDir ++ l) = t6 !! (GuestReadOnlyDir ++ l)) as Hlast.
  { intros l. destruct (is_ephemeral ws && start); [|by injection E as _ <-]. apply at_root_Ok in E. injection E as _ <-.
    apply (remove_out (GuestDataDir ++ [guestDataEphemeral])). by intros H%prefix_cons_inv_1. }
  destruct (plugin_step t5 t6 u6 Ht5 E6) as (Hsame & Hstay & Hplugin). split; [|split].
  - intros x k. rewrite Hlast Hsame; [|left; by intros H%(prefix_cons_inv_2 "guest-ro")%prefix_cons_inv_1].
    rewrite Hout5; [apply Hin4|by intros H%(prefix_cons_inv_2 "guest-ro")%prefix_cons_inv_1].
  - intros x k Hx. rewrite Hlast Hsame; [apply Hin5|]. destruct Hx as [Hx|Hx]; [left|by right].
    intros H%(prefix_cons_inv_2 "guest-ro")%(prefix_cons_inv_2 guestDataCache)%prefix_cons_inv_1. done.
  - intros Hp. split; [unfold dir_at in *; cbn [app] in *; rewrite (Hlast [guestDataCache; tuiPlugin]); by apply Hplugin|].
    intros k e He. rewrite -Hin5 in He. rewrite Hlast. change ((GuestReadOnlyDir ++ [guestDataCache]) ++ tuiPlugin :: k) with (GuestReadOnlyDir ++ guestDataCache :: tuiPlugin :: k) in He.
    destruct (t5 !! (GuestReadOnlyDir ++ guestDataCache :: tuiPlugin :: k)) as [e'|] eqn:Ee; [|by cbn in He].
    by rewrite (Hstay _ e' Ee).
Qed.
(** The binds of the home directories, and that these exist. *)
Lemma homes_Ok l (t t' : staged) bs : stree t → home_binds l t = (Ok bs, t') →
  bs = home_bind (r_Agent ws) (is_ephemeral ws) <$> filter (λ d, covered shares d = false) l ∧
  ∀ d, d ∈ l → covered shares d = false → dir_at t' (GuestDataDir ++ home_rel d) = true.
Proof using.
  revert t bs. induction l as [|d l IH]; intros t bs Ht E; [injection E as <- _; split; [done|by intros d ?%elem_of_nil]|].
  cbn [GuestData.home_binds] in E. destruct (covered shares d) eqn:Ec.
  { rewrite filter_cons_False; [|congruence]. destruct (IH t bs Ht E) as [-> H]. split; [done|]. intros d' [->|Hd']%elem_of_cons Hc; [congruence|by apply H]. }
  rewrite filter_cons_True; [|done]. apply op_bind_Ok in E as (u & t1 & E1 & E). apply op_bind_Ok in E as (bs' & t2 & E2 & E). injection E as <- <-.
  assert (stree t1 ∧ dir_at t1 (GuestDataDir ++ home_rel d) = true) as [Ht1 Hd1].
  { apply op_bind_Ok in E1 as (u' & t0 & E0%at_root_Ok & E1).
    pose proof (preserves_mkdir stays (λ _, True) (GuestDataDir ++ home_rel d) perm_700 ltac:(intros; apply stays_None) t Ht) as [Ht0 _]. rewrite E0 in Ht0.
    pose proof (mkdir_Ok _ _ _ _ _ Ht E0) as Hd0.
    assert (preserves stays (λ p, p = GuestDataDir ++ home_rel d) (if existsb (statedir_eqb d) (h_State (r_Agent ws)) then
      addStatusLine decode line_command encode marshal (GuestDataDir ++ home_rel d) (r_Agent ws) else mret ())) as Hp.
    { destruct (existsb _ _); [|apply preserves_ret, _]. apply preserves_status; [apply _| |intros; apply stays_None].
      intros file harness Hf H. destruct file as [|x k]; [by destruct (h_TUIPlugin (r_Agent ws))|].
      apply (f_equal length) in H. rewrite !length_app in H. cbn in H. lia. }
    destruct (Hp t0 Ht0) as [Ht1 Hs]. rewrite E1 in Ht1, Hs. split; [done|]. unfold dir_at, is_edir in *. cbn [app GuestDataDir] in *.
    destruct (t0 !! _) as [[m| |]|] eqn:Et; [|done..]. by rewrite (Hs _ eq_refl _ Et). }
  destruct (IH t1 bs' Ht1 E2) as [-> H]. split; [done|]. intros d' [->|Hd']%elem_of_cons Hc; [|by apply H].
  assert (preserves stays (λ p, p = GuestDataDir ++ home_rel d) (home_binds l)) as Hp.
  { apply preserves_homes; [apply _| |intros; apply stays_None]. intros d' file harness _ _ Hf HE. destruct file as [|x k]; [by destruct (h_TUIPlugin (r_Agent ws))|].
    apply (f_equal length) in HE. rewrite !length_app in HE. cbn in HE. lia. }
  destruct (Hp t1 Ht1) as [_ Hs]. rewrite E2 in Hs. unfold dir_at, is_edir in *. cbn [app GuestDataDir] in *.
  destruct (t1 !! _) as [[m| |]|] eqn:Et; [|done..]. by rewrite (Hs _ eq_refl _ Et).
Qed.
Lemma migrate_tree (t : staged) : stree t → stree (migrateHomeDirs t).2.
Proof using.
  intros Ht. rewrite migrate_eq. destruct (without_old_spec t Ht) as [Ht1 _]. cbv zeta. destruct (_ && negb _) eqn:E; [|done].
  apply andb_true_iff in E as [_ E%negb_true_iff%bool_decide_eq_false]. apply eq_None_not_Some in E. by apply (move_homes _ Ht1 E).
Qed.
Lemma copies_frame (t t' : staged) : (∀ l, t' !! (GuestReadOnlyDir ++ l) = t !! (GuestReadOnlyDir ++ l)) → copies t → copies t'.
Proof using.
  intros H (H1 & H2 & H3). split; [intros x k; rewrite H; apply H1|]. split; [intros x k Hx; rewrite H; by apply H2|].
  intros Hp. destruct (H3 Hp) as [H4 H5]. split; [unfold dir_at in *; cbn [app] in *; by rewrite (H [guestDataCache; tuiPlugin])|].
  intros k e He. rewrite H. by apply H5.
Qed.
End Data.

(** *** The home directories of an older layout, on a start *)

Definition data_host : fs :=
  list_to_map [(["c"], NDir); (["c"; "workspaces"], NDir); (["c"; "workspaces"; "w"], NDir); (["c"; "workspaces"; "w"; "ca.pem"], NFile "CA");
               (["c"; "workspaces"; "w"; "link"], NLink "/etc/passwd"); (["k"], NDir); (["k"; "tui.json"], NFile "{}")].
Definition data_old : staged :=
  list_to_map [(["home"], EDir 448); (["home"; "copilot"], EDir 448); (["home"; "copilot"; "log"], EFile 384 "said"); (["snapshots"], EDir 448);
               (["guest-ro"], EDir 448); (["guest-ro"; "config"], EDir 448); (["guest-ro"; "config"; "gone.pem"], EFile 384 "old")].
Definition data_decode (s : string) : option (option (gmap string string)) :=
  if String.eqb s "null" then Some None else if String.eqb s "{}" then Some (Some ∅) else None.
Definition data_ws : Resolved := match Lookup "copilot" with Some h => {|
  r_Name := "w"; r_Paths := ["/src"]; r_Agent := h; r_AgentInstall := true; r_AgentArgs := None; r_AgentProfile := None;
  r_Mounts := []; r_Snapshots := []; r_Port := 4096; r_AllowedHosts := []; r_AllowedNetworks := []; r_BuildContext := "";
  r_Dockerfile := ""; r_Image := ""; r_Env := []; r_SSHAuthSock := false; r_GPGAgent := false; r_GitConfig := false; r_Secrets := [];
  r_CPU := SpecFloat.S754_finite false 2 0; r_Memory := "4g"; r_DockerDisk := "20g"; r_EnableDocker := false; r_IsolatedBuild := false; r_ProtectGit := true;
  r_Ports := []; r_HostPorts := []; r_FilteredDNS := false; r_DNSUpstream := ""; r_DNSBlockedZones := None; r_CABundle := ConfigChecks.caBundleAutomatic |}
  | None => VmLab.lab_workspace end.
Definition data_run (t : staged) : result gerr (list GuestSys.Bind) * staged :=
  vmGuestData data_decode (λ _, None) (λ _, "{..}") (λ _, "{.}") data_host 40 (λ _, true) "/c" data_ws "/k" [] true t.
Example data_run_ex :
  (match (data_run data_old).1 with Ok l => map GuestSys.bd_Source l | Err _ => [] end) =
    ["/.jailoc/private/host-ro/config"; "/.jailoc/private/host-ro/cache"; "/.jailoc/private/host-ro/cache/tui-plugin";
     "/.jailoc/private/host/home/copilot"; "/.jailoc/private/host/home/cache"] ∧
  map (λ p, (data_run data_old).2 !! p)
    [["home"]; ["guest"; "home"; "copilot"; "log"]; ["guest-ro"; "config"; "gone.pem"]; ["guest-ro"; "config"; "ca.pem"]; ["guest-ro"; "config"; "link"]; ["snapshots"]] =
    [None; Some (EFile 384 "said"); None; Some (EFile 384 "CA"); None; None].
Proof. by vm_compute. Qed.
(** Settings that hold [null] make the Go map nil, and the assignment panics. *)
Example null_settings : (data_run (<[["home"; "copilot"; "settings.json"] := EFile 384 "null"]> data_old)).1 = Err GPanic.
Proof. by vm_compute. Qed.
Lemma data_old_tree : stree data_old.
Proof.
  intros p e H. apply elem_of_list_to_map_2 in H.
  repeat (apply elem_of_cons in H as [H|H]; [injection H as -> ->; split; [discriminate|by vm_compute]|]). by apply elem_of_nil in H.
Qed.
