(* ===== verification/TarExtract.v ===== *)
(** * Unpacking the archive of a volume

    [extractTar] of [src/internal/docker/volume.go]: the entries of an archive
    go below a new directory of a tree of entries, the shared top-level directory
    dropped. A link on the way of a later entry is an error here, where [os.Root]
    follows those that stay inside; reading the archive is a list of its headers,
    each with what could be read of its data. *)

From S2P Require Import Prelude GoStrings GoPath StateErr HostFS PathNames Snapshots TreeOps.
Open Scope string_scope.
Open Scope list_scope.

Inductive typeflag := TypeDir | TypeReg | TypeSymlink | TypeOther.
(** [hd_whole]: the data could be read and written to the end. *)
Record header := { hd_Name : string; hd_Mode : Z; hd_Typeflag : typeflag; hd_Linkname : string; hd_data : string; hd_whole : bool }.
(** Where an entry goes: nowhere for the top-level directory itself. *)
Inductive where_to := Outside | Dropped | Below (rel : string).
Definition entry_place (name : string) : where_to :=
  let name := Clean name in
  if IsAbs name || String.eqb name ".." || HasPrefix name "../" then Outside else
  let '(_, rel, found) := Cut name "/" in
  if negb found || String.eqb rel "" then Dropped else Below rel.
Definition perm_bits (mode : Z) : Z := Z.land mode 511.
Definition extract_entry (dst : path) (h : header) : sop () :=
  match entry_place (hd_Name h) with
  | Outside => fail (SSource (hd_Name h))
  | Dropped => mret ()
  | Below rel =>
      let p := dst ++ elems rel in
      match hd_Typeflag h with
      | TypeDir => rMkdirAll p (Z.lor (perm_bits (hd_Mode h)) perm_700)
      | TypeReg =>
          _ ← rMkdirAll (dst ++ elems (Dir rel)) perm_700;
          _ ← put p (EFile (Z.lor (perm_bits (hd_Mode h)) perm_600) (hd_data h));
          ensure (hd_whole h) (SSource (hd_Name h))
      | TypeSymlink => _ ← rMkdirAll (dst ++ elems (Dir rel)) perm_700; put p (ELink (hd_Linkname h))
      | TypeOther => mret ()
      end
  end.
(** [complete]: the archive ends as it should. *)
Definition extractTar (dst : path) (l : list header) (complete : bool) : sop () :=
  _ ← rMkdirAll dst perm_700;
  _ ← each (extract_entry dst) l;
  ensure complete (SSource "archive").

(** What an entry is once it is unpacked. *)
Definition unpacked (h : header) : option (string * (entry → Prop)) :=
  match entry_place (hd_Name h), hd_Typeflag h with
  | Below rel, TypeDir => Some (rel, λ e, ∃ m, e = EDir m)
  | Below rel, TypeReg => Some (rel, λ e, e = EFile (Z.lor (perm_bits (hd_Mode h)) perm_600) (hd_data h))
  | Below rel, TypeSymlink => Some (rel, λ e, e = ELink (hd_Linkname h))
  | _, _ => None
  end.

(** ** Where entries go *)

(** Cleaning a relative path leaves names below some [..] elements. *)
Lemma clean_step_rel st e : name e ∨ e = ".." → (∃ k d, st = k ++ d ∧ names k ∧ Forall (eq "..") d) →
  ∃ k d, clean_step false st e = k ++ d ∧ names k ∧ Forall (eq "..") d.
Proof.
  intros He (k & d & -> & Hk & Hd). unfold clean_step. destruct (String.eqb_spec e "..") as [->|Hne].
  - destruct k as [|x k]; cbn [app].
    + exists [], (".." :: d). split; [|split; [constructor|by constructor]]. destruct Hd as [|y d <- Hd]; [done|]. by rewrite String.eqb_refl.
    + apply Forall_cons in Hk as [Hx Hk]. exists k, d. destruct (String.eqb_spec x "..") as [->|_]; [by destruct Hx as [(_ & _ & ?) _]|done].
  - exists (e :: k), d. split; [done|]. split; [|done]. constructor; [by destruct He|done].
Qed.
Lemma clean_elems_rel s : ∃ d k, clean_elems false (elems s) = d ++ k ∧ names k ∧ Forall (eq "..") d.
Proof.
  assert (∀ es st, Forall (λ e, name e ∨ e = "..") es → (∃ k d, st = k ++ d ∧ names k ∧ Forall (eq "..") d) →
    ∃ k d, foldl (clean_step false) st es = k ++ d ∧ names k ∧ Forall (eq "..") d) as H.
  { induction es as [|e es IH]; intros st Hes Hst; [done|]. apply Forall_cons in Hes as [He Hes]. cbn. apply IH; [done|]. by apply clean_step_rel. }
  destruct (H (elems s) []) as (k & d & E & Hk & Hd).
  - apply Forall_forall. intros e [[H1 H2] He]%list_elem_of_filter. pose proof (Split_no_sep "/" s) as Hs. rewrite Forall_forall in Hs.
    specialize (Hs e He). destruct (decide (e = "..")); [by right|left; split; [by split|done]].
  - by exists [], []; split; [|split; constructor].
  - exists (rev d), (rev k). unfold clean_elems. rewrite E rev_app_distr. split; [done|]. split; by apply Forall_rev.
Qed.
Lemma Cut_slash a b : has_char "/" a = false → Cut (a +:+ "/" +:+ b) "/" = (a, b, true).
Proof. intros H. unfold Cut. by rewrite (proj2 (cut_char_Some "/" _ a b) (conj eq_refl H)). Qed.
(** An entry that is not refused goes to a path of names. *)
Lemma entry_place_names s rel : entry_place s = Below rel → ∃ r, names r ∧ r ≠ [] ∧ rel = Join r "/".
Proof.
  unfold entry_place. destruct (IsAbs (Clean s)) eqn:Ea; [done|]. cbn [orb].
  assert (IsAbs s = false) as Hs by (destruct (IsAbs s) eqn:E; [rewrite (Clean_abs s E) in Ea; done|done]).
  destruct (clean_elems_rel s) as (d & k & E & Hk & Hd).
  assert (Clean s = if String.eqb (Join (d ++ k) "/") "" then "." else Join (d ++ k) "/") as Ec by (unfold Clean; by rewrite Hs -E).
  assert (d ≠ [] → String.eqb (Clean s) ".." || HasPrefix (Clean s) "../" = true) as Hdots.
  { intros Hne. destruct Hd as [|y d <- Hd]; [done|]. rewrite Ec. cbn [app]. destruct (d ++ k) as [|z l] eqn:Ez; [done|]. rewrite Join_cons; [|done].
    destruct (String.eqb_spec (".." +:+ "/" +:+ Join (z :: l) "/") ""); [done|]. apply orb_true_iff. right. apply HasPrefix_spec. by eexists. }
  destruct d as [|y d]; [|rewrite Hdots; [done|done]]. clear Hdots. cbn [app] in Ec.
  destruct (String.eqb (Clean s) ".." || HasPrefix (Clean s) "../"); [done|]. destruct k as [|x k]; [rewrite Ec; done|].
  apply Forall_cons in Hk as [Hx Hk]. destruct k as [|y k].
  - cbn [Join] in Ec. assert (Clean s = x) as -> by (rewrite Ec; by destruct (String.eqb_spec x "") as [->|]; [destruct Hx as [(? & _) _]|]).
    unfold Cut. rewrite (proj2 (cut_char_None "/" x) (proj2 Hx)). done.
  - rewrite Join_cons in Ec; [|done]. assert (Clean s = x +:+ "/" +:+ Join (y :: k) "/") as ->.
    { rewrite Ec. destruct (String.eqb_spec (x +:+ "/" +:+ Join (y :: k) "/") "") as [E'|]; [|done]. apply (f_equal String.length) in E'. rewrite !slength_app in E'. cbn in E'. lia. }
    rewrite (Cut_slash _ _ (proj2 Hx)). cbn [negb orb]. destruct (String.eqb (Join (y :: k) "/") ""); [done|]. intros [= <-]. by exists (y :: k).
Qed.

(** ** Nothing is lost or put elsewhere *)

Section Extract.
Context (dst : path).
Lemma preserves_put R K `{!PreOrder R} p e : ¬ K p ∨ R None (Some e) → preserves R K (put p e).
Proof.
  intros HK t Ht. unfold put. destruct (dir_at t (parent p)) eqn:Hd; [|by apply same]. case_bool_decide as Hp; [|by apply same].
  case_bool_decide as Hn; [|by apply same]. cbn [andb fst snd]. split; [by apply stree_put|]. intros q Hq.
  destruct (decide (q = p)) as [->|Hne]; [|rewrite lookup_insert_ne; [reflexivity|congruence]].
  rewrite lookup_insert_eq Hn. by destruct HK.
Qed.
Lemma entry_stays h : preserves stays (λ _, True) (extract_entry dst h).
Proof.
  unfold extract_entry. destruct (entry_place (hd_Name h)) as [| |rel]; [apply preserves_fail, _|apply preserves_ret, _|].
  assert (∀ p m, preserves stays (λ _, True) (rMkdirAll p m)) as Hmk by (intros p m; apply preserves_mkdir; [apply _|intros; apply stays_None]).
  assert (∀ p e, preserves stays (λ _, True) (put p e)) as Hput by (intros p e; apply preserves_put; [apply _|right; apply stays_None]).
  destruct (hd_Typeflag h); [apply Hmk| | |apply preserves_ret, _].
  - apply preserves_bind; [apply _|apply Hmk|]. intros _. apply preserves_bind; [apply _|apply Hput|]. intros _.
    unfold ensure. destruct (hd_whole h); [apply preserves_ret, _|apply preserves_fail, _].
  - apply preserves_bind; [apply _|apply Hmk|]. intros _. apply Hput.
Qed.
(** The paths the archive makes: the destination, its entries and what leads there. *)
Definition made_by (l : list header) (p : path) : Prop :=
  p `prefix_of` dst ∨ ∃ h rel, h ∈ l ∧ entry_place (hd_Name h) = Below rel ∧ p `prefix_of` dst ++ elems rel.
Lemma dir_prefix s rel : entry_place s = Below rel → dst ++ elems (Dir rel) = dst ++ parent (elems rel) ∧ elems rel ≠ [].
Proof. intros (r & Hr & Hne & ->)%entry_place_names. by rewrite elems_Dir_Join ?elems_Join. Qed.
Lemma parent_below (a b : path) : b ≠ [] → dst ++ parent b `prefix_of` dst ++ b.
Proof. intros _. apply prefix_app, parent_prefix. Qed.
Lemma entry_frame l h : h ∈ l → preserves eq (λ p, ¬ made_by l p) (extract_entry dst h).
Proof.
  intros Hh. unfold extract_entry. destruct (entry_place (hd_Name h)) as [| |rel] eqn:E; [apply preserves_fail, _|apply preserves_ret, _|].
  destruct (dir_prefix _ _ E) as [-> Hne].
  assert (∀ p m, p `prefix_of` dst ++ elems rel → preserves eq (λ p, ¬ made_by l p) (rMkdirAll p m)) as Hmk.
  { intros p m Hp. apply preserves_mkdir; [apply _|]. intros q Hq Hk. destruct Hk. right. exists h, rel. split; [done|]. split; [done|]. exact (transitivity Hq Hp). }
  assert (∀ e, preserves eq (λ p, ¬ made_by l p) (put (dst ++ elems rel) e)) as Hput.
  { intros e. apply preserves_put; [apply _|]. left. intros Hk. apply Hk. right. by exists h, rel. }
  destruct (hd_Typeflag h); [by apply Hmk| | |apply preserves_ret, _].
  - apply preserves_bind; [apply _|apply Hmk, prefix_app, parent_prefix|]. intros _. apply preserves_bind; [apply _|apply Hput|]. intros _.
    unfold ensure. destruct (hd_whole h); [apply preserves_ret, _|apply preserves_fail, _].
  - apply preserves_bind; [apply _|apply Hmk, prefix_app, parent_prefix|]. intros _. apply Hput.
Qed.
Lemma entry_Ok h rel P (t t' : staged) u : stree t → dst ≠ [] → unpacked h = Some (rel, P) → extract_entry dst h t = (Ok u, t') →
  ∃ e, t' !! (dst ++ elems rel) = Some e ∧ P e.
Proof.
  intros Ht Hd Hu E. unfold unpacked, extract_entry in *. destruct (entry_place (hd_Name h)) as [| |rel'] eqn:Er; [done..|].
  destruct (hd_Typeflag h); [| | |done]; injection Hu as -> <-.
  - apply mkdir_Ok in E; [|done]. unfold dir_at, is_edir in E. destruct (dst ++ elems rel) as [|x p] eqn:Ep; [by destruct dst|].
    destruct (t' !! (x :: p)) as [[m| |]|]; [|done..]. exists (EDir m). split; [done|by exists m].
  - apply op_bind_Ok in E as (u1 & t1 & _ & E). apply op_bind_Ok in E as (u2 & t2 & (_ & _ & _ & ->)%put_Ok & E).
    apply op_ensure_Ok in E as [_ ->]. eexists. by rewrite lookup_insert_eq.
  - apply op_bind_Ok in E as (u1 & t1 & _ & (_ & _ & _ & ->)%put_Ok). eexists. by rewrite lookup_insert_eq.
Qed.
Lemma entries_Ok l (t t' : staged) u : stree t → dst ≠ [] → each (extract_entry dst) l t = (Ok u, t') →
  ∀ h rel P, h ∈ l → unpacked h = Some (rel, P) → ∃ e, t' !! (dst ++ elems rel) = Some e ∧ P e.
Proof.
  intros Ht Hd. revert t Ht. induction l as [|h l IH]; intros t Ht E; [by intros ? ? ? ?%elem_of_nil|].
  cbn [each] in E. apply op_bind_Ok in E as (u1 & t1 & E1 & E2).
  destruct (entry_stays h t Ht) as [Ht1 _]. rewrite E1 in Ht1. intros h' rel P [->|Hh]%elem_of_cons Hu; [|by apply (IH t1 Ht1 E2 h')].
  destruct (entry_Ok h rel P t t1 u1 Ht Hd Hu E1) as (e & He & HP). exists e. split; [|done].
  assert (preserves stays (λ _, True) (each (extract_entry dst) l)) as Hs by (apply preserves_each; [apply _|intros; apply entry_stays]).
  destruct (Hs t1 Ht1) as [_ Hs']. rewrite E2 in Hs'. by apply (Hs' _ I).
Qed.

(** C: Unpacking an archive changes nothing that was there and adds nothing but
    the destination, the places of its entries, all below it, and the directories
    that lead there, whatever the archive holds and wherever it fails; when it
    succeeds, every directory, file and link of the archive is in its place. *)
Theorem extractTar_confined l complete (t : staged) :
  stree t → dst ≠ [] → let r := extractTar dst l complete t in
  (∀ p e, t !! p = Some e → r.2 !! p = Some e) ∧
  (∀ p, ¬ made_by l p → r.2 !! p = t !! p) ∧
  (∀ h rel, h ∈ l → entry_place (hd_Name h) = Below rel → names (elems rel) ∧ elems rel ≠ []) ∧
  (r.1 = Ok () → ∀ h rel P, h ∈ l → unpacked h = Some (rel, P) → ∃ e, r.2 !! (dst ++ elems rel) = Some e ∧ P e).
Proof.
  intros Ht Hd. cbv zeta.
  assert (preserves stays (λ _, True) (extractTar dst l complete)) as Hs.
  { apply preserves_bind; [apply _|apply preserves_mkdir; [apply _|intros; apply stays_None]|]. intros _.
    apply preserves_bind; [apply _|apply preserves_each; [apply _|intros; apply entry_stays]|]. intros _.
    unfold ensure. destruct complete; [apply preserves_ret, _|apply preserves_fail, _]. }
  assert (preserves eq (λ p, ¬ made_by l p) (extractTar dst l complete)) as Hf.
  { apply preserves_bind; [apply _|apply preserves_mkdir; [apply _|intros q Hq Hk; destruct Hk; by left]|]. intros _.
    apply preserves_bind; [apply _|apply preserves_each; [apply _|intros; by apply entry_frame]|]. intros _.
    unfold ensure. destruct complete; [apply preserves_ret, _|apply preserves_fail, _]. }
  split; [|split; [|split]].
  - intros p e He. by apply (proj2 (Hs t Ht) p I).
  - intros p Hp. symmetry. by apply (proj2 (Hf t Ht)).
  - intros h rel _ (r & Hr & Hne & ->)%entry_place_names. by rewrite elems_Join.
  - destruct (extractTar dst l complete t) as [r t'] eqn:E. cbn [fst snd]. intros ->. apply op_bind_Ok in E as (u & t1 & E1 & E).
    apply op_bind_Ok in E as (u2 & t2 & E2 & E). apply op_ensure_Ok in E as [_ ->].
    destruct (preserves_mkdir stays (λ _, True) dst perm_700 ltac:(intros; apply stays_None) t Ht) as [Ht1 _]. rewrite E1 in Ht1.
    by apply (entries_Ok l t1 t2 u2).
Qed.
End Extract.

(** *** A small archive *)

Definition volume_entry (n : string) (f : typeflag) (d : string) : header :=
  {| hd_Name := n; hd_Mode := 420; hd_Typeflag := f; hd_Linkname := d; hd_data := d; hd_whole := true |}.
Definition volume : list header :=
  [volume_entry "volume/" TypeDir ""; volume_entry "volume/auth.json" TypeReg "{}"; volume_entry "volume/log" TypeDir "";
   volume_entry "volume/log/last" TypeSymlink "/etc/passwd"; volume_entry "volume/fifo" TypeOther ""].
Definition unpack (l : list header) : result stage_err () * staged := extractTar ["home"; "data"] l true (<[["home"] := EDir 448]> ∅).
Example unpack_ex : (unpack volume).1 = Ok () ∧
  map (λ p, (unpack volume).2 !! p) [["home"; "data"; "auth.json"]; ["home"; "data"; "log"; "last"]; ["home"; "data"; "fifo"]] =
    [Some (EFile 420 "{}"); Some (ELink "/etc/passwd"); None].
Proof. by vm_compute. Qed.
Example escapes_refused : (unpack [volume_entry "volume/../../.ssh/id" TypeReg "x"]).1 = Err (SSource "volume/../../.ssh/id") ∧
  (unpack [volume_entry "volume/../.ssh/id" TypeReg "x"]).1 = Ok ().
Proof. by vm_compute. Qed.
Lemma extractTar_confined_witness : ∃ e, (unpack volume).2 !! (["home"; "data"] ++ elems "auth.json") = Some e ∧ e = EFile (Z.lor (perm_bits 420) perm_600) "{}".
Proof.
  destruct (extractTar_confined ["home"; "data"] volume true (<[["home"] := EDir 448]> ∅)) as (_ & _ & _ & H).
  - intros p e He. destruct (decide (p = ["home"])) as [->|Hn]; [by split|]. rewrite lookup_insert_ne in He; [done|congruence].
  - discriminate.
  - apply (H ltac:(by vm_compute) (volume_entry "volume/auth.json" TypeReg "{}")); [by right; left|by vm_compute].
Defined.
