(* ===== verification/CaBundle.v ===== *)
(** * The CA bundle of a workspace

    [src/internal/cmd/ca_bundle.go]: which bundle a workspace gets, the checks of
    its path and of its PEM blocks, and its atomic replacement in the workspace's
    configuration directory. [encoding/pem] and [crypto/x509] are parameters, and so is
     the upper-casing of text beyond ASCII. *)

From S2P Require Import Prelude GoStrings GoPath ConfigChecks Prog.
Open Scope string_scope.
Open Scope list_scope.

Definition caBundleFilename : string := "ca-bundle.pem".
Definition newline : string := String (chr 10) "".

(** ** The blocks of a bundle *)

Record pemBlock := { pb_Type : string; pb_Bytes : string }.
Section Pem.
(** [strings.ToUpper] of text with a byte beyond ASCII, [pem.Decode]: the first block and what is left; [x509.ParseCertificate] works. *)
Context (upperU : string → string) (pem_Decode : string → option (pemBlock * string)) (ParseCertificate : string → bool).
Definition begins : string := "-----BEGIN ".
Definition dashes : string := "-----".
Inductive pem_err := NotPEM | PrivateKey (t : string) | BadCertificate | NoCertificate | OutOfFuel.
Definition decodeFirstPEMBlock (content : string) : result pem_err (pemBlock * string) :=
  match cut content newline with
  | None => Err NotPEM
  | Some (line, body) =>
      let header := TrimSpace line in
      if negb (HasPrefix header begins) || negb (HasSuffix header dashes) then Err NotPEM else
      let blockType := TrimSuffix (TrimPrefix header begins) dashes in
      if String.eqb blockType "" then Err NotPEM else
      let footer := "-----END " +:+ blockType +:+ dashes in
      match cut body footer with
      | None => Err NotPEM
      | Some (b, next) =>
          match pem_Decode (line +:+ newline +:+ b +:+ footer) with
          | Some (block, leftover) => if String.eqb (TrimSpace leftover) "" then Ok (block, next) else Err NotPEM
          | None => Err NotPEM
          end
      end
  end.
Definition upper_char (c : ascii) : ascii := if between "a" "z" c then chr (code c - 32) else c.
Definition ToUpper (s : string) : string := if is_ascii s then smap upper_char s else upperU s.
Definition private (t : string) : bool := Contains (ToUpper t) "PRIVATE KEY".
Fixpoint validate (fuel : nat) (rest : string) (certificates : nat) : result pem_err () :=
  if String.eqb (TrimSpace rest) "" then (if (certificates =? 0)%nat then Err NoCertificate else Ok ()) else
  match fuel with
  | O => Err OutOfFuel
  | S fuel =>
      bn ← decodeFirstPEMBlock (TrimSpace rest);
      if private (pb_Type bn.1) then Err (PrivateKey (pb_Type bn.1)) else
      if String.eqb (pb_Type bn.1) "CERTIFICATE" then
        (if ParseCertificate (pb_Bytes bn.1) then validate fuel bn.2 (S certificates) else Err BadCertificate)
      else validate fuel bn.2 certificates
  end.
Definition validateCABundlePEM (content : string) : result pem_err () := validate (String.length content) content 0.

(** The blocks of a file that has nothing else but white space. *)
Inductive blocks : string → list pemBlock → Prop :=
| blocks_end s : TrimSpace s = "" → blocks s []
| blocks_next s b next bs : TrimSpace s ≠ "" → decodeFirstPEMBlock (TrimSpace s) = Ok (b, next) → blocks next bs → blocks s (b :: bs).
Definition sound (bs : list pemBlock) : Prop :=
  (∃ b, b ∈ bs ∧ pb_Type b = "CERTIFICATE") ∧
  ∀ b, b ∈ bs → private (pb_Type b) = false ∧ (pb_Type b = "CERTIFICATE" → ParseCertificate (pb_Bytes b) = true).
End Pem.

(** ** Where it comes from and where it goes *)

Inductive cacall :=
| Getenv (k : string) | UserHomeDir | EvalSymlinks (p : string) | Stat (p : string) | OpenDirRoot (d : string) | OpenIn (d name : string)
| ReadAll | CloseRoot | CloseFile | MkdirAll (d : string) | CreateTemp (d pattern : string) | Chmod (p : string) | WriteTemp (p data : string)
| SyncTemp (p : string) | CloseTemp (p : string) | Remove (p : string) | Rename (p q : string) | OpenDir (d : string) | SyncDir (d : string).
(** [Stat] tells whether the file is regular and its permissions, [Remove]
    whether nothing was there. *)
Definition caanswer (c : cacall) : Type :=
  match c with
  | Getenv _ => string
  | UserHomeDir | EvalSymlinks _ | ReadAll | CreateTemp _ _ => result () string
  | Stat _ => result () (bool * Z)
  | Remove _ => result bool ()
  | CloseRoot | CloseFile => ()
  | _ => result () ()
  end.
Notation caitem := (item cacall caanswer).
Notation caio := (io cacall caanswer string).
Definition caask (c : cacall) : caio (caanswer c) := run (call c).
Definition orfail {E A} (what : string) (p : prog cacall caanswer (result E A)) : caio A := wrap (λ _, what) p.

Section Materialize.
Context (upperU : string → string) (pem_Decode : string → option (pemBlock * string)) (ParseCertificate : string → bool).
Definition removeCABundle (destination : string) : caio () :=
  r ← caask (Remove destination);
  match (r : result bool ()) with Ok _ => mret () | Err missing => check missing "remove stale CA bundle" end.
Definition expandCABundlePath (path : string) : caio string :=
  if negb (HasPrefix path "~") then mret path else
  if negb (String.eqb path "~") && negb (HasPrefix path "~/") then throw "unsupported home-directory syntax" else
  home ← orfail "resolve home directory" (call UserHomeDir);
  mret (JoinPath [home; sdrop 1 path]).
Definition selectCABundleSource (policy : CABundle) : caio (option string) :=
  match policy with
  | caBundleCustom path => p ← expandCABundlePath path; mret (Some p)
  | caBundleDisabled => mret None
  | caBundleAutomatic =>
      a ← caask (Getenv "SSL_CERT_FILE");
      if negb (String.eqb (TrimSpace a) "") then p ← expandCABundlePath (TrimSpace a); mret (Some p) else
      b ← caask (Getenv "NIX_SSL_CERT_FILE");
      if negb (String.eqb (TrimSpace b) "") then p ← expandCABundlePath (TrimSpace b); mret (Some p) else mret None
  end.
Definition readCABundle (path : string) : caio string :=
  _ ← check (negb (Contains path "$")) "must not contain a dollar sign";
  _ ← check (IsAbs path) "must be absolute";
  resolved ← orfail "evaluate symlinks for CA bundle" (call (EvalSymlinks path));
  info ← orfail "stat CA bundle" (call (Stat resolved));
  _ ← check (info : bool * Z).1 "is not a regular file";
  _ ← check (negb (Z.land info.2 292 =? 0)%Z) "is not readable";
  _ ← orfail "open CA bundle directory" (call (OpenDirRoot (Dir resolved)));
  finally (
    _ ← orfail "open CA bundle" (call (OpenIn (Dir resolved) (Base resolved)));
    finally (orfail "read CA bundle" (call ReadAll)) (call CloseFile)) (call CloseRoot).
(** A step on the temporary file that closes it when it fails. *)
Definition on_temp (tmp what : string) (p : prog cacall caanswer (result () ())) : caio () :=
  r ← run p;
  match (r : result () ()) with Ok _ => mret () | Err _ => _ ← caask (CloseTemp tmp); throw what end.
Definition replace_with (dir destination tmp content : string) : caio () :=
  _ ← on_temp tmp "set temporary bundle permissions" (call (Chmod tmp));
  _ ← on_temp tmp "write temporary bundle" (call (WriteTemp tmp content));
  _ ← on_temp tmp "sync temporary bundle" (call (SyncTemp tmp));
  _ ← orfail "close temporary bundle" (call (CloseTemp tmp));
  _ ← orfail "replace bundle" (call (Rename tmp destination));
  _ ← orfail "open workspace config root for sync" (call (OpenDirRoot dir));
  finally (
    _ ← orfail "open workspace config directory for sync" (call (OpenDir dir));
    finally (orfail "sync workspace config directory" (call (SyncDir dir))) (call CloseFile)) (call CloseRoot).
Definition writeCABundleAtomically (destination content : string) : caio () :=
  let dir := Dir destination in
  _ ← orfail "create workspace config directory" (call (MkdirAll dir));
  tmp ← orfail "create temporary bundle" (call (CreateTemp dir ".ca-bundle.pem-*"));
  finally (replace_with dir destination tmp content) (pbind (λ _, Ret ()) (call (Remove tmp))).
Definition bundle_path (ConfigDir name : string) : string := JoinPath [ConfigDir; "workspaces"; name; caBundleFilename].
Definition materializeCABundle (destination : string) (policy : CABundle) : caio () :=
  if negb (CABundle_Enabled policy) then removeCABundle destination else
  source ← selectCABundleSource policy;
  match source with
  | None => removeCABundle destination
  | Some path =>
      content ← readCABundle path;
      match validateCABundlePEM upperU pem_Decode ParseCertificate content with
      | Ok _ => wrap (λ e, "materialize CA bundle: " +:+ e) (writeCABundleAtomically destination content)
      | Err _ => throw "validate CA bundle"
      end
  end.
End Materialize.

(** ** Properties *)

Lemma TrimLeftSpace_shorter s : (String.length (TrimLeftSpace s) ≤ String.length s)%nat.
Proof.
  remember (String.length s) as n eqn:E. assert (String.length s ≤ n)%nat as H by lia. clear E. revert s H.
  induction n as [|n IH]; intros [|a [|b [|c s]]] H; cbn in H |- *; try lia; try (destruct (ascii_space a); cbn; lia).
  - destruct (ascii_space a); [|destruct (space2 a b); cbn; lia]. etransitivity; [apply (IH (String b ""))|]; cbn; lia.
  - destruct (ascii_space a); [etransitivity; [apply (IH (String b (String c s)))|]; cbn; lia|].
    destruct (space2 a b); [etransitivity; [apply (IH (String c s))|]; cbn; lia|].
    destruct (space3 a b c); [etransitivity; [apply (IH s)|]; lia|cbn; lia].
Qed.
Lemma TrimRightSpace_shorter s : (String.length (TrimRightSpace s) ≤ String.length s)%nat.
Proof. induction s as [|c s IH]; cbn [TrimRightSpace]; [done|]. destruct (TrimLeftSpace (String c s)); cbn; lia. Qed.
Lemma TrimSpace_shorter s : (String.length (TrimSpace s) ≤ String.length s)%nat.
Proof. unfold TrimSpace. pose proof (TrimRightSpace_shorter (TrimLeftSpace s)). pose proof (TrimLeftSpace_shorter s). lia. Qed.

Section Checked.
Context (upperU : string → string) (pem_Decode : string → option (pemBlock * string)) (ParseCertificate : string → bool).
Local Notation decodeFirst := (decodeFirstPEMBlock pem_Decode).
Local Notation validate := (validate upperU pem_Decode ParseCertificate).
Local Notation blocks := (blocks pem_Decode).
Local Notation sound := (sound upperU ParseCertificate).
Lemma decode_shorter s b next : decodeFirst s = Ok (b, next) → (String.length next < String.length s)%nat.
Proof.
  unfold decodeFirstPEMBlock. destruct (cut s newline) as [[line body]|] eqn:E1; [|done]. apply cut_Some in E1 as ->.
  destruct (negb _ || negb _); [done|]. destruct (String.eqb _ ""); [done|].
  destruct (cut body _) as [[c n]|] eqn:E2; [|done]. apply cut_Some in E2 as ->. destruct (pem_Decode _) as [[block leftover]|]; [|done].
  destruct (String.eqb _ ""); [|done]. intros [= _ <-]. rewrite !slength_app. cbn. lia.
Qed.
Definition passes (b : pemBlock) : Prop := private upperU (pb_Type b) = false ∧ (pb_Type b = "CERTIFICATE" → ParseCertificate (pb_Bytes b) = true).
Lemma decode_err s e : decodeFirst s = Err e → e = NotPEM.
Proof.
  unfold decodeFirstPEMBlock. destruct (cut s newline) as [[line body]|]; [|by intros [= <-]]. destruct (negb _ || negb _); [by intros [= <-]|].
  destruct (String.eqb _ ""); [by intros [= <-]|]. destruct (cut body _) as [[c n]|]; [|by intros [= <-]].
  destruct (pem_Decode _) as [[block leftover]|]; [|by intros [= <-]]. destruct (String.eqb _ ""); [done|by intros [= <-]].
Qed.
Definition certified (n : nat) (bs : list pemBlock) : Prop := n ≠ 0%nat ∨ ∃ b, b ∈ bs ∧ pb_Type b = "CERTIFICATE".
Lemma blocks_inv s bs : blocks s bs → match bs with
  | [] => TrimSpace s = ""
  | b :: bs => TrimSpace s ≠ "" ∧ ∃ next, decodeFirst (TrimSpace s) = Ok (b, next) ∧ blocks next bs
  end.
Proof. destruct 1 as [s H|s b next bs H1 H2 H3]; [done|]. split; [done|by exists next]. Qed.
(** The fuel is enough, and the checks are those of the blocks. *)
Lemma validate_spec fuel s n : (String.length s ≤ fuel)%nat →
  validate fuel s n ≠ Err OutOfFuel ∧
  (validate fuel s n = Ok () ↔ ∃ bs, blocks s bs ∧ (∀ b, b ∈ bs → passes b) ∧ certified n bs).
Proof.
  revert s n. induction fuel as [|fuel IH]; intros s n Hf; cbn [CaBundle.validate]; destruct (String.eqb_spec (TrimSpace s) "") as [Es|Es].
  1, 3: split; [by destruct (n =? 0)%nat|]; destruct (Nat.eqb_spec n 0) as [->|Hn];
    [split; [done|intros (bs & Hb%blocks_inv & _ & Hc); destruct bs as [|b bs]; [by destruct Hc as [?|(b & ?%elem_of_nil & _)]|by destruct Hb]]|
     split; [intros _; exists []; split; [by constructor|split; [by intros b ?%elem_of_nil|by left]]|done]].
  - destruct s; [done|cbn in Hf; lia].
  - destruct (decodeFirst (TrimSpace s)) as [[b next]|e] eqn:Ed; cbn [mbind result_bind fst snd].
    2: { split; [by apply decode_err in Ed as ->|]. split; [done|]. intros (bs & Hb%blocks_inv & _). destruct bs as [|b bs]; [done|].
      destruct Hb as (_ & next & E' & _). congruence. }
    pose proof (decode_shorter _ _ _ Ed) as Hlen. pose proof (TrimSpace_shorter s) as Ht.
    assert (∀ m, validate fuel next m ≠ Err OutOfFuel ∧ (validate fuel next m = Ok () ↔
      ∃ bs, blocks next bs ∧ (∀ b, b ∈ bs → passes b) ∧ certified m bs)) as Hnext by (intros m; apply IH; lia).
    assert (∀ bs, blocks s bs ↔ ∃ bs', bs = b :: bs' ∧ blocks next bs') as Hbs.
    { intros bs. split.
      - intros Hb%blocks_inv. destruct bs as [|b' bs]; [done|]. destruct Hb as (_ & next' & E' & Hb). rewrite Ed in E'. injection E' as <- <-. by exists bs.
      - intros (bs' & -> & H). by apply (blocks_next _ s b next). }
    assert ((∃ bs, blocks s bs ∧ (∀ b, b ∈ bs → passes b) ∧ certified n bs) ↔ passes b ∧ ∃ bs, blocks next bs ∧ (∀ b, b ∈ bs → passes b) ∧ certified n (b :: bs)) as ->.
    { split.
      - intros (bs & (bs' & -> & Hb)%Hbs & Hp & Hc). split; [apply Hp; by left|]. exists bs'. split; [done|]. split; [intros b' H; apply Hp; by right|done].
      - intros (Hpb & bs & Hb & Hp & Hc). exists (b :: bs). split; [apply Hbs; by exists bs|]. split; [by intros b' [->|H]%elem_of_cons; [|apply Hp]|done]. }
    unfold passes at 1. destruct (private upperU (pb_Type b)); [by split; [|split; [|intros [[? _] _]]]|].
    destruct (String.eqb_spec (pb_Type b) "CERTIFICATE") as [Et|Et].
    + destruct (ParseCertificate (pb_Bytes b)); [|by split; [|split; [|intros [[_ H] _]; by specialize (H Et)]]].
      destruct (Hnext (S n)) as [H1 H2]. split; [done|]. rewrite H2. split.
      * intros (bs & Hb & Hp & _). split; [done|]. exists bs. split; [done|]. split; [done|]. right. exists b. split; [by left|done].
      * intros (_ & bs & Hb & Hp & _). exists bs. split; [done|]. split; [done|]. by left.
    + destruct (Hnext n) as [H1 H2]. split; [done|]. rewrite H2. split.
      * intros (bs & Hb & Hp & Hc). split; [done|]. exists bs. split; [done|]. split; [done|].
        destruct Hc as [Hc|(b' & Hb' & Ec)]; [by left|right; exists b'; split; [by right|done]].
      * intros (_ & bs & Hb & Hp & Hc). exists bs. split; [done|]. split; [done|].
        destruct Hc as [Hc|(b' & [->|Hb']%elem_of_cons & Ec)]; [by left|done|right; by exists b'].
Qed.
Lemma bundle_checked content : validateCABundlePEM upperU pem_Decode ParseCertificate content = Ok () ↔ ∃ bs, blocks content bs ∧ sound bs.
Proof.
  unfold validateCABundlePEM. rewrite (proj2 (validate_spec (String.length content) content 0 ltac:(done))). split.
  - intros (bs & Hb & Hp & [?|Hc]); [done|]. by exists bs.
  - intros (bs & Hb & Hc & Hp). exists bs. split; [done|]. split; [done|by right].
Qed.

(** What is known when the destination is replaced or removed. *)
Context (destination : string) (policy : CABundle).
Local Notation made := (made (C:=cacall) (R:=caanswer)).
Definition complete (h : list caitem) (tmp content : string) : Prop :=
  made h (WriteTemp tmp content) (Ok ()) ∧ made h (SyncTemp tmp) (Ok ()) ∧ made h (CloseTemp tmp) (Ok ()).
(** The content of a regular, readable file at an absolute path. *)
Definition read_from (h : list caitem) (path content : string) : Prop := IsAbs path = true ∧ Contains path "$" = false ∧ ∃ resolved perm,
  made h (EvalSymlinks path) (Ok resolved) ∧ made h (Stat resolved) (Ok (true, perm)) ∧ Z.land perm 292 ≠ 0%Z ∧
  made h (OpenIn (Dir resolved) (Base resolved)) (Ok ()) ∧ made h ReadAll (Ok content).
Definition bundle (h : list caitem) (content : string) : Prop :=
  CABundle_Enabled policy = true ∧ (∃ path, read_from h path content) ∧ ∃ bs, blocks content bs ∧ sound bs.
(** No bundle: disabled, or automatic without a variable that names one. *)
Definition unset (h : list caitem) (k : string) : Prop := ∃ v, made h (Getenv k) v ∧ TrimSpace v = "".
Definition no_bundle (h : list caitem) : Prop :=
  policy = caBundleDisabled ∨ policy = caBundleAutomatic ∧ unset h "SSL_CERT_FILE" ∧ unset h "NIX_SSL_CERT_FILE".
Definition ca_pre (h : list caitem) (c : cacall) : Prop :=
  match c with
  | Rename tmp q => q = destination ∧ ∃ content, bundle h content ∧ complete h tmp content
  | Remove p => p = destination ∧ no_bundle h ∨ ∃ dir pattern, made h (CreateTemp dir pattern) (Ok p)
  | WriteTemp p content => (∃ dir pattern, made h (CreateTemp dir pattern) (Ok p)) ∧ bundle h content
  | _ => True
  end.
(** What holds when it succeeds. *)
Definition settled (h : list caitem) : Prop :=
  no_bundle h ∧ (∃ r, made h (Remove destination) r ∧ r ≠ Err false) ∨
  ∃ tmp content, bundle h content ∧ complete h tmp content ∧ made h (Rename tmp destination) (Ok ()) ∧ made h (SyncDir (Dir destination)) (Ok ()).
Local Notation reach m h Q := (after ca_pre m h Q).
Lemma ca_ask {A} c (f : caanswer c → caio A) h (Q : A → list caitem → Prop) :
  ca_pre h c → (∀ x, reach (f x) (h ++ [existT c x]) Q) → reach (caask c ≫= f) h Q.
Proof using. intros Hp Hf. cbn. split; [done|]. exact Hf. Qed.
Lemma ca_fails {E A B} what c (g : caanswer c → result E A) (f : A → caio B) h (Q : B → list caitem → Prop) :
  ca_pre h c → (∀ x a, g x = Ok a → reach (f a) (h ++ [existT c x]) Q) → reach (orfail what (Do c (λ x, Ret (g x))) ≫= f) h Q.
Proof using. intros Hp Hf. cbn. split; [done|]. intros x. specialize (Hf x). destruct (g x) as [a|e]; [by apply Hf|done]. Qed.
Lemma last_made h c x : made (h ++ [existT c x]) c x.
Proof using. apply elem_of_app. right. by left. Qed.
Lemma lasting_read path content : lasting (λ h, read_from h path content).
Proof using.
  apply lasting_and; [apply lasting_const|]. apply lasting_and; [apply lasting_const|]. do 2 (apply lasting_ex; intros ?).
  repeat (apply lasting_and; [apply lasting_in || apply lasting_const|]). apply lasting_in.
Qed.
Lemma lasting_bundle content : lasting (λ h, bundle h content).
Proof using.
  apply lasting_and; [apply lasting_const|]. apply lasting_and; [apply lasting_ex; intros path; apply lasting_read|apply lasting_const].
Qed.
Lemma lasting_unset k : lasting (λ h, unset h k).
Proof using. apply lasting_ex; intros v. apply lasting_and; [apply lasting_in|apply lasting_const]. Qed.
Lemma lasting_none : lasting no_bundle.
Proof using. apply lasting_or; [apply lasting_const|]. apply lasting_and; [apply lasting_const|]. apply lasting_and; apply lasting_unset. Qed.
Lemma lasting_complete tmp content : lasting (λ h, complete h tmp content).
Proof using. repeat (apply lasting_and; [apply lasting_in|]). apply lasting_in. Qed.
Lemma lasting_settled : lasting settled.
Proof using.
  apply lasting_or.
  - apply lasting_and; [apply lasting_none|]. apply lasting_ex; intros r. apply lasting_and; [apply lasting_in|apply lasting_const].
  - do 2 (apply lasting_ex; intros ?). apply lasting_and; [apply lasting_bundle|]. apply lasting_and; [apply lasting_complete|]. apply lasting_and; apply lasting_in.
Qed.
Lemma remove_settles h : no_bundle h → reach (removeCABundle destination) h (λ _ h', settled h').
Proof using.
  intros Hn. apply ca_ask; [by left|]. intros r. assert (r ≠ Err false → settled (h ++ [existT (Remove destination) r])) as Hs.
  { intros Hr. left. split; [by apply lasting_none|]. exists r. split; [apply last_made|done]. }
  destruct r as [[]|[|]]; [by apply after_ret, Hs|by apply after_ret, Hs|done].
Qed.
Lemma on_temp_reach tmp what c (g : caanswer c → result () ()) h (Q : () → list caitem → Prop) :
  ca_pre h c → (∀ x, g x = Ok () → Q () (h ++ [existT c x])) → reach (on_temp tmp what (Do c (λ x, Ret (g x)))) h Q.
Proof using.
  intros Hp HQ. cbn. split; [done|]. intros x. specialize (HQ x). destruct (g x) as [[]|[]]; cbn; [by apply HQ|by split].
Qed.
Lemma ca_check {A} b e (f : () → caio A) h (Q : A → list caitem → Prop) : (b = true → reach (f ()) h Q) → reach (check b e ≫= f) h Q.
Proof using. intros H. destruct b; [by apply H|done]. Qed.
Lemma ca_next {E A B} (F : list caitem → Prop) what c (g : caanswer c → result E A) (f : A → caio B) h (Q : B → list caitem → Prop) :
  lasting F → F h → ca_pre h c → (∀ x a h', F h' ∧ made h' c x → g x = Ok a → reach (f a) h' Q) → reach (orfail what (Do c (λ x, Ret (g x))) ≫= f) h Q.
Proof using. intros HF Hh Hp Hf. apply ca_fails; [done|]. intros x a Hg. apply (Hf x a); [|done]. split; [by apply HF|apply last_made]. Qed.
Lemma lasting_made (F : list caitem → Prop) c x : lasting F → lasting (λ h, F h ∧ made h c x).
Proof using. intros HF. by apply lasting_and; [|apply lasting_in]. Qed.
Lemma read_reach path h : reach (readCABundle path) h (λ content h', read_from h' path content).
Proof using.
  apply ca_check; intros Hd%negb_true_iff. apply ca_check; intros Ha.
  apply (ca_next (λ _, True)); [done|done|done|]. intros ? resolved h1 F1 ->.
  apply (ca_next (λ h, True ∧ made h (EvalSymlinks path) (Ok resolved))); [apply lasting_made, lasting_const|done|done|]. intros ? [regular perm] h2 F2 ->.
  apply ca_check; intros Hreg. cbn in Hreg. subst regular. apply ca_check; intros Hp%negb_true_iff%Z.eqb_neq. cbn in Hp.
  set (F := λ h, (True ∧ made h (EvalSymlinks path) (Ok resolved)) ∧ made h (Stat resolved) (Ok (true, perm))).
  assert (lasting F) as HF by (apply lasting_made, lasting_made, lasting_const).
  apply (ca_next F); [done|done|done|]. intros ? _ h3 [F3 _] _. apply (after_finally _ (λ c, c = CloseRoot)); [|cbn; by split|by intros t c ->|intros; apply lasting_read].
  apply (ca_next F); [done|done|done|]. intros ? [] h4 F4 ->. apply (after_finally _ (λ c, c = CloseFile)); [|cbn; by split|by intros t c ->|intros; apply lasting_read].
  cbn. split; [done|]. intros [content|[]]; cbn; [|done]. split; [done|]. split; [done|]. exists resolved, perm. destruct F4 as [[[_ H1] H2] H3].
  split; [by apply made_lasting|]. split; [by apply made_lasting|]. split; [done|]. split; [by apply made_lasting|apply last_made].
Qed.
Lemma write_reach content h : bundle h content → reach (writeCABundleAtomically destination content) h (λ _ h', settled h').
Proof using.
  intros Hb. apply (ca_next (λ h, bundle h content)); [apply lasting_bundle|done|done|]. intros ? [] h1 [H1 _] _.
  apply (ca_next (λ h, bundle h content)); [apply lasting_bundle|done|done|]. intros ? tmp h2 [H2 Ht] ->.
  set (T := λ h : list caitem, ∃ dir pattern, made h (CreateTemp dir pattern) (Ok tmp)). assert (lasting T) as HT by (do 2 (apply lasting_ex; intros ?); apply lasting_in).
  assert (T h2) as Ht2 by (exists (Dir destination), ".ca-bundle.pem-*"; exact Ht). clear Ht.
  apply (after_finally _ (λ c, c = Remove tmp)); [| |intros t c ->; right; by apply HT|intros; apply lasting_settled].
  2: { cbn. split; [done|]. done. }
  set (F := λ h, bundle h content ∧ T h). assert (lasting F) as HF by (apply lasting_and; [apply lasting_bundle|done]).
  unfold replace_with. apply (after_step _ F (λ _ _, True)); [done|done|by apply on_temp_reach|]. intros _ h3 [H3 H3t] _.
  apply (after_step _ F (λ _ h', made h' (WriteTemp tmp content) (Ok ()))); [done|done|apply on_temp_reach; [by split|intros ? ->; apply last_made]|]. intros _ h4 H4 Hw.
  apply (after_step _ (λ h, F h ∧ made h (WriteTemp tmp content) (Ok ())) (λ _ h', made h' (SyncTemp tmp) (Ok ()))); [by apply lasting_made|done|apply on_temp_reach; [done|intros ? ->; apply last_made]|].
  intros _ h5 [H5 Hw5] Hs. apply (ca_next (λ h, (F h ∧ made h (WriteTemp tmp content) (Ok ())) ∧ made h (SyncTemp tmp) (Ok ()))); [by apply lasting_made, lasting_made|done|done|].
  intros ? [] h6 [[[H6 Hw6] Hs6] Hc6] ->. assert (complete h6 tmp content) as Hcomp by done.
  set (G := λ h, F h ∧ complete h tmp content). assert (lasting G) as HG by (apply lasting_and; [done|apply lasting_complete]).
  apply (ca_next G); [done|done|split; [done|]; exists content; split; [apply H6|done]|]. intros ? [] h7 H7 ->.
  apply (ca_next (λ h, G h ∧ made h (Rename tmp destination) (Ok ()))); [by apply lasting_made|done|done|]. intros ? _ h8 [H8 _] _.
  apply (after_finally _ (λ c, c = CloseRoot)); [|cbn; by split|by intros t c ->|intros; apply lasting_settled].
  apply (ca_next (λ h, G h ∧ made h (Rename tmp destination) (Ok ()))); [by apply lasting_made|done|done|]. intros ? _ h9 [H9 _] _.
  apply (after_finally _ (λ c, c = CloseFile)); [|cbn; by split|by intros t c ->|intros; apply lasting_settled].
  cbn. split; [done|]. intros [[]|[]]; cbn; [|done]. right. exists tmp, content. destruct H9 as [[[H9 _] Hc9] Hr9].
  split; [by apply lasting_bundle|]. split; [by apply lasting_complete|]. split; [by apply made_lasting|apply last_made].
Qed.
Lemma expand_reach path h (Q : string → list caitem → Prop) : (∀ a h', Q a h') → reach (expandCABundlePath path) h Q.
Proof using.
  intros HQ. unfold expandCABundlePath. destruct (negb _); [by apply after_ret|]. destruct (_ && _); [done|].
  apply ca_fails; [done|]. intros x a _. by apply after_ret.
Qed.
Lemma found_reach path h (Q : option string → list caitem → Prop) :
  (∀ p h', Q (Some p) h') → reach (p ← expandCABundlePath path; mret (Some p)) h Q.
Proof using. intros HQ. apply (after_bind _ _ _ _ (λ _ _, True)); [by apply expand_reach|]. intros a t _. by apply after_ret. Qed.
Lemma select_reach h : reach (selectCABundleSource policy) h (λ o h', o = None → CABundle_Enabled policy = true → no_bundle h').
Proof using.
  unfold selectCABundleSource, no_bundle. destruct policy as [| |path]; [|by apply after_ret|by apply found_reach].
  apply ca_ask; [done|]. intros a. destruct (String.eqb_spec (TrimSpace a) "") as [Ea|Ea]; [|by apply found_reach].
  apply ca_ask; [done|]. intros b. destruct (String.eqb_spec (TrimSpace b) "") as [Eb|Eb]; [|by apply found_reach].
  apply after_ret. intros _ _. right. split; [done|]. split; [exists a|exists b; split; [apply last_made|done]].
  split; [|done]. apply made_lasting. apply last_made.
Qed.
(** The destination is replaced only by a temporary file that holds a checked
    bundle and was synced and closed, and removed only when no bundle is asked
    for; on success one of the two happened. *)
Lemma materialize_reach h : reach (materializeCABundle upperU pem_Decode ParseCertificate destination policy) h (λ _ h', settled h').
Proof using.
  unfold materializeCABundle. destruct (CABundle_Enabled policy) eqn:Ep; cbn [negb].
  2: { apply remove_settles. left. by destruct policy. }
  apply (after_bind _ _ _ _ _ _ (select_reach h)). intros [path|] t Hn; [|by apply remove_settles, Hn].
  apply (after_bind _ _ _ _ _ _ (read_reach path (h ++ t))). intros content t' Hc.
  destruct (validateCABundlePEM _ _ _ content) as [[]|] eqn:Ev; [|done]. apply after_wrap, write_reach.
  split; [done|]. split; [by exists path|]. by apply bundle_checked.
Qed.
End Checked.

(** C34: c99. For any answers of the system (missing or unreadable files, failing
    writes, variables set or not), [materializeCABundle] renames a temporary file onto the
    destination only after the whole content of a regular, readable file at an
    absolute path was written to it, synced and closed, and that content is
    nothing but PEM blocks, at least one of them a certificate, every
    certificate parsed and none of them a private key; it removes the
    destination only when bundles are disabled or the two variables that can name one are
    empty; the other removals are of its own temporary files; and when it
    reports success the destination was replaced and its directory synced, or there is no bundle. *)
Theorem materialize_safe upperU pem_Decode ParseCertificate destination policy env :
  let out := exec env (materializeCABundle upperU pem_Decode ParseCertificate destination policy) [] in
  (out.1 = Ok () → settled upperU pem_Decode ParseCertificate destination policy out.2) ∧
  (∀ h1 c x h2, out.2 = h1 ++ existT c x :: h2 → ca_pre upperU pem_Decode ParseCertificate destination policy h1 c).
Proof.
  intros out. destruct (exec_safe _ env _ _ _ (materialize_reach upperU pem_Decode ParseCertificate destination policy [])) as (t & Ht & HQ & Hp).
  cbn in Ht. fold out in Ht, HQ, Hp. split.
  - intros E. rewrite E in HQ. rewrite Ht. exact HQ.
  - intros h1 c x h2 E. rewrite Ht in E. exact (Hp h1 c x h2 E).
Qed.

(** *** A home with one bundle, and its variants *)

Definition block_text (t body : string) : string :=
  "-----BEGIN " +:+ t +:+ "-----" +:+ newline +:+ body +:+ newline +:+ "-----END " +:+ t +:+ "-----" +:+ newline.
(** A decoder of such blocks. *)
Definition toy_Decode (s : string) : option (pemBlock * string) :=
  line ← cut s newline; bodied ← cut line.2 newline;
  Some ({| pb_Type := TrimSuffix (TrimPrefix line.1 begins) dashes; pb_Bytes := bodied.1 |}, "").
Definition toy_Parse (bytes : string) : bool := String.eqb bytes "MIIB".
Definition ca_env (variable content : string) (c : cacall) (_ : list caitem) : caanswer c :=
  match c with
  | Getenv k => if String.eqb k variable then " ~/ca.pem" else ""
  | UserHomeDir => Ok "/home/u"
  | EvalSymlinks p => Ok p
  | Stat _ => Ok (true, 420%Z)
  | ReadAll => Ok content
  | CreateTemp d _ => Ok (d +:+ "/.ca-bundle.pem-1")
  | Remove _ => Err true
  | CloseRoot | CloseFile => ()
  | _ => Ok ()
  end.
Definition ca_run (policy : CABundle) (variable content : string) : result string () * list caitem :=
  exec (ca_env variable content) (materializeCABundle id toy_Decode toy_Parse (bundle_path "/home/u/.config/jailoc" "w") policy) [].
Definition ca_effect (i : caitem) : option string :=
  match i with existT (Rename _ q) _ => Some q | existT (Remove p) _ => Some p | _ => None end.
Definition two_blocks : string := block_text "CERTIFICATE" "MIIB" +:+ newline +:+ block_text "X509 CRL" "MIIC".
Example bundle_replaced : (ca_run caBundleAutomatic "NIX_SSL_CERT_FILE" two_blocks).1 = Ok () ∧
  omap (M:=list) ca_effect (ca_run caBundleAutomatic "NIX_SSL_CERT_FILE" two_blocks).2 =
  ["/home/u/.config/jailoc/workspaces/w/ca-bundle.pem"; "/home/u/.config/jailoc/workspaces/w/.ca-bundle.pem-1"].
Proof. by vm_compute. Qed.
Example private_key_refused : (ca_run caBundleAutomatic "SSL_CERT_FILE" (two_blocks +:+ block_text "rsa private key" "MIIE")).1 = Err "validate CA bundle".
Proof. by vm_compute. Qed.
Example no_variable : omap (M:=list) ca_effect (ca_run caBundleAutomatic "OTHER" two_blocks).2 = ["/home/u/.config/jailoc/workspaces/w/ca-bundle.pem"].
Proof. by vm_compute. Qed.
Lemma materialize_safe_witness : settled id toy_Decode toy_Parse (bundle_path "/home/u/.config/jailoc" "w") (caBundleCustom "/etc/ca.pem")
  (ca_run (caBundleCustom "/etc/ca.pem") "OTHER" two_blocks).2.
Proof.
  apply (materialize_safe id toy_Decode toy_Parse (bundle_path "/home/u/.config/jailoc" "w") (caBundleCustom "/etc/ca.pem") (ca_env "OTHER" two_blocks)).
  vm_compute. reflexivity.
Defined.
