(* ===== verification/Utf8.v ===== *)
(** * Text as runes

    [unicode/utf8] decoding of a byte string, and [escapeVisible] and
    [escapeLines] of [src/internal/cmd/inspectfmt.go], which make text that comes from
    a guest safe to print. [unicode.IsPrint] beyond ASCII is a parameter. *)

From S2P Require Import Prelude GoStrings GoStrconv.
Open Scope string_scope.
Open Scope list_scope.
Open Scope Z_scope.

(** ** Decoding *)

(** A rune with its encoding, or a byte that starts none. *)
Inductive piece := Rune (r : Z) (bytes : string) | Bad (c : ascii).
Definition tail_byte (c : ascii) : bool := (128 <=? code c) && (code c <=? 191).
Definition bits6 (c : ascii) : Z := code c - 128.
Definition valid2 (a b : ascii) : bool := (194 <=? code a) && (code a <=? 223) && tail_byte b.
Definition valid3 (a b c : ascii) : bool :=
  (224 <=? code a) && (code a <=? 239) && tail_byte b && tail_byte c &&
  (if code a =? 224 then 160 <=? code b else true) && (if code a =? 237 then code b <=? 159 else true).
Definition valid4 (a b c d : ascii) : bool :=
  (240 <=? code a) && (code a <=? 244) && tail_byte b && tail_byte c && tail_byte d &&
  (if code a =? 240 then 144 <=? code b else true) && (if code a =? 244 then code b <=? 143 else true).
Definition rune2 (a b : ascii) : Z := (code a - 192) * 64 + bits6 b.
Definition rune3 (a b c : ascii) : Z := ((code a - 224) * 64 + bits6 b) * 64 + bits6 c.
Definition rune4 (a b c d : ascii) : Z := (((code a - 240) * 64 + bits6 b) * 64 + bits6 c) * 64 + bits6 d.
(** [utf8.DecodeRuneInString] until the text ends. *)
Fixpoint decode (s : string) : list piece :=
  match s with
  | "" => []
  | String a t =>
      if code a <? 128 then Rune (code a) (String a "") :: decode t else
      match t with
      | "" => [Bad a]
      | String b u =>
          if valid2 a b then Rune (rune2 a b) (String a (String b "")) :: decode u else
          match u with
          | "" => Bad a :: decode t
          | String c v =>
              if valid3 a b c then Rune (rune3 a b c) (String a (String b (String c ""))) :: decode v else
              match v with
              | "" => Bad a :: decode t
              | String d w =>
                  if valid4 a b c d then Rune (rune4 a b c d) (String a (String b (String c (String d "")))) :: decode w
                  else Bad a :: decode t
              end
          end
      end
  end.
(** [utf8.RuneCountInString] and the length of [[]rune(s)]. *)
Definition rune_count (s : string) : Z := Z.of_nat (length (decode s)).

(** ** Escaping *)

Definition backslash : ascii := "\".
Definition hex (n : Z) : ascii := if n <? 10 then chr (48 + n) else chr (87 + n).
Fixpoint hex_digits (k : nat) (n : Z) (acc : string) : string :=
  match k with O => acc | S k => hex_digits k (n / 16) (String (hex (n mod 16)) acc) end.
Definition escaped (c : ascii) (k : nat) (n : Z) : string := String backslash (String c (hex_digits k n "")).
Section Escape.
Context (IsPrint : Z → bool).
(** [strconv.QuoteRune] without its quotes, for a rune that [IsPrint] refuses. *)
Definition QuoteRune (r : Z) : string :=
  if (r =? 39) || (r =? 92) then String backslash (String (chr r) "") else
  match r with
  | 7 => String backslash "a" | 8 => String backslash "b" | 12 => String backslash "f" | 10 => String backslash "n"
  | 13 => String backslash "r" | 9 => String backslash "t" | 11 => String backslash "v"
  | _ => if (r <? 32) || (r =? 127) then escaped "x" 2 r else if r <? 65536 then escaped "u" 4 r else escaped "U" 8 r
  end.
Definition escape_piece (p : piece) : string :=
  match p with
  | Bad c => escaped "x" 2 (code c)
  | Rune r bytes => if IsPrint r then bytes else QuoteRune r
  end.
Definition sconcat (l : list string) : string := foldr (λ a b, a +:+ b) "" l.
Definition escapeVisible (s : string) : string := sconcat (escape_piece <$> decode s).
Definition escapeLines (s : string) : string := Join (escapeVisible <$> Split s (sep1 (chr 10))) (sep1 (chr 10)).
(** Text that only moves the cursor forward: printable runes. *)
Definition visible (p : piece) : bool := match p with Rune r _ => IsPrint r | Bad _ => false end.
Definition printable (s : string) : bool := forallb visible (decode s).
End Escape.

(** ** Lemmas *)

Definition enc (p : piece) : string := match p with Rune _ b => b | Bad c => String c "" end.
Definition is_rune (p : piece) : bool := match p with Rune _ _ => true | Bad _ => false end.
Local Ltac bad_first := (split; [cbn [enc String.length sdrop]; reflexivity|split; [reflexivity|split; discriminate]]).
Local Ltac rune_first := (split; [cbn [enc String.length sdrop]; reflexivity|split; [reflexivity|split; [discriminate|intros _ x; cbn [enc]]]]).
Lemma decode_first a t : ∃ p, decode (String a t) = p :: decode (sdrop (String.length (enc p)) (String a t)) ∧
  String a t = enc p +:+ sdrop (String.length (enc p)) (String a t) ∧ enc p ≠ "" ∧ (is_rune p = true → ∀ x, decode (enc p +:+ x) = p :: decode x).
Proof.
  cbn [decode]. destruct (code a <? 128) eqn:E1.
  { exists (Rune (code a) (String a "")). rune_first. rewrite ?sapp_cons. change ("" +:+ x) with x. cbn [decode]. by rewrite E1. }
  destruct t as [|b u]; [exists (Bad a); bad_first|]. destruct (valid2 a b) eqn:E2.
  { exists (Rune (rune2 a b) (String a (String b ""))). rune_first. rewrite ?sapp_cons. change ("" +:+ x) with x. cbn [decode]. by rewrite E1 E2. }
  destruct u as [|c v]; [exists (Bad a); bad_first|]. destruct (valid3 a b c) eqn:E3.
  { exists (Rune (rune3 a b c) (String a (String b (String c "")))). rune_first. rewrite ?sapp_cons. change ("" +:+ x) with x. cbn [decode]. by rewrite E1 E2 E3. }
  destruct v as [|d w]; [exists (Bad a); bad_first|]. destruct (valid4 a b c d) eqn:E4; [|exists (Bad a); bad_first].
  exists (Rune (rune4 a b c d) (String a (String b (String c (String d ""))))). rune_first. rewrite ?sapp_cons. change ("" +:+ x) with x. cbn [decode]. by rewrite E1 E2 E3 E4.
Qed.
(** The first piece of a text. *)
Definition first (a : ascii) (t : string) : piece :=
  if code a <? 128 then Rune (code a) (String a "") else
  match t with
  | "" => Bad a
  | String b u =>
      if valid2 a b then Rune (rune2 a b) (String a (String b "")) else
      match u with
      | "" => Bad a
      | String c v =>
          if valid3 a b c then Rune (rune3 a b c) (String a (String b (String c ""))) else
          match v with
          | "" => Bad a
          | String d w => if valid4 a b c d then Rune (rune4 a b c d) (String a (String b (String c (String d "")))) else Bad a
          end
      end
  end.
Lemma decode_cons a t : decode (String a t) = first a t :: decode (sdrop (String.length (enc (first a t))) (String a t)).
Proof.
  unfold first. cbn [decode]. destruct (code a <? 128); [done|]. destruct t as [|b u]; [done|]. destruct (valid2 a b); [done|].
  destruct u as [|c v]; [done|]. destruct (valid3 a b c); [done|]. destruct v as [|d w]; [done|]. by destruct (valid4 a b c d).
Qed.
Lemma first_app a s c t : (code c <? 128) = true → first a (s +:+ String c t) = first a s.
Proof.
  intros Hc. assert (tail_byte c = false) as Ht by (unfold tail_byte; lia).
  assert (∀ a, valid2 a c = false) as V2 by (intros x; unfold valid2; rewrite Ht; by rewrite andb_false_r).
  assert (∀ a b, valid3 a b c = false ∧ valid3 a c b = false) as V3 by (intros x y; unfold valid3; rewrite Ht !andb_false_r; done).
  assert (∀ a b d, valid4 a b d c = false ∧ valid4 a b c d = false ∧ valid4 a c b d = false) as V4 by (intros x y z; unfold valid4; rewrite Ht !andb_false_r; done).
  unfold first. destruct (code a <? 128); [done|]. destruct s as [|b u].
  { change ("" +:+ String c t) with (String c t). cbv iota. rewrite V2. destruct t as [|d v]; [done|]. rewrite (proj2 (V3 a d)). destruct v as [|e w]; [done|].
    by rewrite (proj2 (proj2 (V4 a d e))). }
  rewrite sapp_cons. cbv iota. destruct (valid2 a b); [done|]. destruct u as [|d v].
  { change ("" +:+ String c t) with (String c t). cbv iota. rewrite (proj1 (V3 a b)). destruct t as [|e w]; [done|]. by rewrite (proj1 (proj2 (V4 a b e))). }
  rewrite sapp_cons. cbv iota. destruct (valid3 a b d); [done|].
  destruct v as [|e w]; [change ("" +:+ String c t) with (String c t); cbv iota; by rewrite (proj1 (V4 a b d))|by rewrite sapp_cons].
Qed.
Lemma first_enc a t : String a t = enc (first a t) +:+ sdrop (String.length (enc (first a t))) (String a t) ∧ enc (first a t) ≠ "".
Proof.
  unfold first. destruct (code a <? 128); [done|]. destruct t as [|b u]; [done|]. destruct (valid2 a b); [done|].
  destruct u as [|c v]; [done|]. destruct (valid3 a b c); [done|]. destruct v as [|d w]; [done|]. by destruct (valid4 a b c d).
Qed.
Lemma sdrop_app_le n s t : (n ≤ String.length s)%nat → sdrop n (s +:+ t) = sdrop n s +:+ t.
Proof. revert s. induction n as [|n IH]; intros [|c s] H; cbn in H; try done; [lia|]. rewrite sapp_cons. cbn. apply IH. lia. Qed.
(** Text ends where an ASCII byte follows, whatever it ends with. *)
Lemma decode_app_ascii s c t : (code c <? 128) = true → decode (s +:+ String c t) = decode s ++ decode (String c t).
Proof.
  intros Hc. remember (String.length s) as n eqn:E. revert s E. induction (lt_wf n) as [n _ IH]. intros [|a s] ->; [done|].
  rewrite sapp_cons !(decode_cons a) first_app; [|done]. destruct (first_enc a s) as [E Hne]. set (k := String.length (enc (first a s))) in *.
  assert (k ≤ String.length (String a s))%nat as Hk by (rewrite E slength_app; lia).
  rewrite -sapp_cons sdrop_app_le; [|done]. cbn [app]. f_equal. eapply IH; [|done]. rewrite slength_sdrop. unfold k. destruct (enc (first a s)); [done|]. cbn. lia.
Qed.
(** Induction on the pieces of a text. *)
Lemma decode_ind (P : string → Prop) : P "" →
  (∀ p r, decode (enc p +:+ r) = p :: decode r → (is_rune p = true → ∀ x, decode (enc p +:+ x) = p :: decode x) → P r → P (enc p +:+ r)) → ∀ s, P s.
Proof.
  intros H0 HS s. remember (String.length s) as n eqn:E. revert s E. induction (lt_wf n) as [n _ IH]. intros [|a t] ->; [done|].
  destruct (decode_first a t) as (p & E1 & E2 & Hp & E3). rewrite E2. apply HS; [by rewrite -E2|done|].
  eapply IH; [|done]. rewrite slength_sdrop. destruct (enc p); [done|]. cbn. lia.
Qed.
Lemma decode_app s t : forallb is_rune (decode s) = true → decode (s +:+ t) = decode s ++ decode t.
Proof.
  induction s as [|p r Ed Hp IH] using decode_ind; intros H; [done|]. rewrite Ed in H |- *. cbn in H. apply andb_prop in H as [H1 H2].
  rewrite -sapp_assoc Hp; [|done]. cbn. by rewrite IH.
Qed.
Lemma is_ascii_cons c s : is_ascii (String c s) = (code c <? 128) && is_ascii s.
Proof. done. Qed.
Lemma decode_ascii_cons c s : (code c <? 128) = true → decode (String c s) = Rune (code c) (String c "") :: decode s.
Proof. intros H. cbn [decode]. by rewrite H. Qed.
Lemma rune_count_ascii s : is_ascii s = true → rune_count s = Z.of_nat (String.length s).
Proof.
  unfold rune_count. induction s as [|c s IH]; [done|]. rewrite is_ascii_cons. intros [H1 H2]%andb_prop. rewrite decode_ascii_cons; [|done].
  cbn [length String.length]. specialize (IH H2). lia.
Qed.
Lemma rune_count_app s t : forallb is_rune (decode s) = true → rune_count (s +:+ t) = rune_count s + rune_count t.
Proof. intros H. unfold rune_count. rewrite decode_app; [|done]. rewrite length_app. lia. Qed.

Lemma sconcat_app l k : sconcat (l ++ k) = sconcat l +:+ sconcat k.
Proof. induction l as [|a l IH]; [done|]. change (a +:+ sconcat (l ++ k) = (a +:+ sconcat l) +:+ sconcat k). by rewrite IH sapp_assoc. Qed.

Section Printable.
Context (IsPrint : Z → bool).
(** Documented: of the ASCII runes exactly those from space to tilde are printable. *)
Context (IsPrint_ascii : ∀ r, 0 ≤ r < 128 → IsPrint r = (32 <=? r) && (r <=? 126)).
Local Notation printable := (printable IsPrint).
Local Notation escapeVisible := (escapeVisible IsPrint).
Lemma printable_runes s : printable s = true → forallb is_rune (decode s) = true.
Proof using. unfold Utf8.printable. induction (decode s) as [|p l IH]; [done|]. cbn. intros [H1 H2]%andb_prop. by destruct p; [apply IH|]. Qed.
Lemma printable_app s t : printable s = true → printable t = true → printable (s +:+ t) = true.
Proof using.
  intros Hs Ht. unfold Utf8.printable in *. rewrite decode_app; [|by apply printable_runes]. rewrite forallb_app. by rewrite Hs Ht.
Qed.
Definition print_char (c : ascii) : bool := (32 <=? code c) && (code c <=? 126).
Lemma print_char_hex n : 0 ≤ n < 16 → print_char (hex n) = true.
Proof using. intros H. unfold print_char, hex. destruct (n <? 10) eqn:E; rewrite code_chr; lia. Qed.
Lemma printable_ascii s : sforall print_char s = true → printable s = true.
Proof using IsPrint_ascii.
  induction s as [|c s IH]; [done|]. cbn [sforall]. intros [Hc Hs]%andb_prop. unfold print_char in Hc. apply andb_prop in Hc as Hc'.
  unfold Utf8.printable. rewrite decode_ascii_cons; [|lia]. cbn. rewrite IsPrint_ascii; [|lia]. rewrite Hc. by apply IH.
Qed.
Lemma hex_digits_print k n acc : sforall print_char acc = true → sforall print_char (hex_digits k n acc) = true.
Proof using.
  revert n acc. induction k as [|k IH]; intros n acc H; cbn; [done|]. apply IH. cbn. rewrite H andb_true_r. apply print_char_hex, Z.mod_pos_bound. lia.
Qed.
Lemma escaped_print c k n : print_char c = true → sforall print_char (escaped c k n) = true.
Proof using. intros H. cbn [escaped sforall]. rewrite H. cbn. by apply hex_digits_print. Qed.
Lemma QuoteRune_print r : sforall print_char (QuoteRune r) = true.
Proof using.
  unfold QuoteRune. destruct (_ || _) eqn:E.
  { apply orb_prop in E as [E|E]; apply Z.eqb_eq in E as ->; by vm_compute. }
  assert (∀ b1 b2 : bool, sforall print_char (if b1 then escaped "x" 2 r else if b2 then escaped "u" 4 r else escaped "U" 8 r) = true) as H.
  { intros [] []; by apply escaped_print. }
  destruct r as [|p|p]; try apply H. do 4 (destruct p as [p|p|]; try apply H; try done).
Qed.
Lemma sconcat_printable l : Forall (λ s, printable s = true) l → printable (sconcat l) = true.
Proof using. induction 1 as [|s l Hs _ IH]; [done|]. cbn. by apply printable_app. Qed.
Lemma decode_enc s p : p ∈ decode s → is_rune p = true → decode (enc p) = [p].
Proof using.
  induction s as [|q r Ed Hq IH] using decode_ind; [by intros ?%elem_of_nil|]. rewrite Ed. intros [->|H]%elem_of_cons Hp; [|by apply IH].
  specialize (Hq Hp ""). by rewrite sapp_nil_r in Hq.
Qed.
(** Whatever the text, what is printed is printable. *)
Lemma escapeVisible_printable s : printable (escapeVisible s) = true.
Proof using IsPrint_ascii.
  apply sconcat_printable. apply Forall_forall. intros x Hx. apply list_elem_of_fmap in Hx as (p & -> & Hp).
  destruct p as [r b|c]; cbn [escape_piece]; [|apply printable_ascii; by apply escaped_print]. destruct (IsPrint r) eqn:Er; [|apply printable_ascii, QuoteRune_print].
  unfold Utf8.printable. by rewrite (decode_enc s (Rune r b) Hp eq_refl); cbn; rewrite Er.
Qed.
Lemma escape_visible p : visible IsPrint p = true → escape_piece IsPrint p = enc p.
Proof using. destruct p as [r b|]; [|done]. cbn. by intros ->. Qed.
Lemma enc_decode s : sconcat (enc <$> decode s) = s.
Proof using. induction s as [|p r Ed _ IH] using decode_ind; [done|]. rewrite Ed. cbn. by f_equal. Qed.
(** Printable text is printed as it is. *)
Lemma escapeVisible_id s : printable s = true → escapeVisible s = s.
Proof using.
  intros H. rewrite -{2}(enc_decode s). unfold Utf8.escapeVisible. f_equal. unfold Utf8.printable in H.
  induction (decode s) as [|p l IH]; [done|]. cbn in H |- *. apply andb_prop in H as [H1 H2]. by rewrite escape_visible // IH.
Qed.
Lemma fmt_print n : sforall print_char (Itoa n) = true.
Proof using.
  apply (sforall_impl num_char); [|apply Itoa_shape]. intros c. unfold num_char, is_digit, between, print_char. change (code "0") with 48. change (code "9") with 57.
  destruct (Ascii.eqb_spec c "-") as [->|]; [done|]. rewrite orb_false_r. lia.
Qed.
End Printable.

(** ** Examples *)

Definition toy_print (r : Z) : bool := if r <? 128 then (32 <=? r) && (r <=? 126) else 161 <=? r.
Example clears_screen : escapeVisible toy_print (String (chr 27) "[2Jžluť" +:+ String (chr 200) (String (chr 10) "")) = "\x1b[2Jžluť\xc8\n".
Proof. vm_compute. reflexivity. Qed.
