(* ===== verification/InspectFmt.v ===== *)
(** * What `jailoc traffic` and `jailoc exec-log` print

    [src/internal/cmd/inspectfmt.go]: the formatters that turn the events of the network
    broker and the process records of a guest into lines for the terminal. Both
    logs hold text the guest chose (names, paths, arguments, errors), the second one is
    written by the guest itself. The JSON parser, the encoder, the local time and the
    sequences of the colour library are parameters. *)

From S2P Require Import Prelude GoStrings GoStrconv Utf8.
From S2P Require GuestProc ExecLog GuestBoot GuestLive.
Open Scope string_scope.
Open Scope list_scope.
Open Scope Z_scope.

(** ** Events *)

Record trafficEvent := {
  e_Time : Z; e_Event : string; e_Conn : Z; e_Proto : string; e_Src : string; e_Dst : string; e_Allow : bool; e_Reason : string;
  e_Name : string; e_Type : string; e_Answers : list string; e_Blocked : bool; e_Error : string; e_Host : string; e_GuestPort : Z;
  e_Network : string; e_Target : string; e_SNI : string; e_ALPN : list string; e_Method : string; e_Path : string; e_Status : Z;
  e_PolicyError : string; e_RuntimeErrors : list string; e_DenyAll : bool
}.
Inductive colour := colAllow | colDeny | colInfo | colDim.

(** [net.SplitHostPort], without the kind of its error. *)
Definition last_colon (s : string) : option (string * string) :=
  match rev (Split s ":") with
  | port :: x :: before => Some (Join (rev (x :: before)) ":", port)
  | _ => None
  end.
Definition SplitHostPort (hostport : string) : option (string * string) :=
  match last_colon hostport with
  | None => None
  | Some (before, port) =>
      let plain := negb (has_char "[" port) && negb (has_char "]" port) in
      match hostport with
      | String "[" rest =>
          match cut rest "]" with
          | Some (host, after) =>
              if String.eqb after (":" +:+ port) && negb (has_char "[" rest) && plain then Some (host, port) else None
          | None => None
          end
      | _ => if negb (has_char ":" before) && negb (has_char "[" hostport) && negb (has_char "]" hostport) then Some (before, port) else None
      end
  end.
Example SplitHostPort_ex : map SplitHostPort ["a.b:80"; "1.2.3.4:53"; "[::1]:443"; "::1"; "[::1]"; "a"; "[a]b:1"; "[a:1"; "a]:1"] =
  [Some ("a.b", "80"); Some ("1.2.3.4", "53"); Some ("::1", "443"); None; None; None; None; None; None].
Proof. vm_compute. reflexivity. Qed.

Section Format.
Context (IsPrint : Z → bool).
(** The escape sequences around coloured text, empty when colours are off. *)
Context (on off : colour → string).
(** The hour, minute and second of an instant in the local time zone. *)
Context (Local : Z → Z * Z * Z).
Local Notation escapeVisible := (escapeVisible IsPrint).
Definition Sprint (c : colour) (s : string) : string := on c +:+ s +:+ off c.
Fixpoint spaces (n : nat) : string := match n with O => "" | S n => String " " (spaces n) end.
(** [%-4s] and [%7d]: the width counts runes. *)
Definition pad_right (w : Z) (s : string) : string := s +:+ spaces (Z.to_nat (w - rune_count s)).
Definition pad_left (w : Z) (s : string) : string := spaces (Z.to_nat (w - rune_count s)) +:+ s.
Definition digit2 (n : Z) : string := String (chr (48 + n / 10 mod 10)) (String (chr (48 + n mod 10)) "").
Definition clock (t : Z) : string := let '(h, m, s) := Local t in sconcat [digit2 h; ":"; digit2 m; ":"; digit2 s].

(** ** Network traffic *)

Definition serviceTarget (e : trafficEvent) : string :=
  if String.eqb (e_Target e) "" then "" else " → " +:+ escapeVisible (e_Target e).
Definition dest (names : gmap string string) (addr : string) : string :=
  match SplitHostPort addr with
  | None => escapeVisible addr
  | Some (host, port) =>
      match names !! host with
      | Some name => sconcat [escapeVisible (GuestLive.JoinHostPort name port); " "; Sprint colDim ("[" +:+ escapeVisible host +:+ "]")]
      | None => escapeVisible addr
      end
  end.
Definition l7_parts (e : trafficEvent) : list string :=
  if String.eqb (e_Proto e) "tls" then
    (if String.eqb (e_SNI e) "" then [] else [escapeVisible (e_SNI e)]) ++
    (match e_ALPN e with [] => [] | l => [escapeVisible (Join l ",")] end)
  else
    (if String.eqb (e_Method e) "" then [] else [sconcat [escapeVisible (e_Method e); " "; escapeVisible (e_Host e); escapeVisible (e_Path e)]]) ++
    (if e_Status e =? 0 then [] else [Itoa (e_Status e)]).
Context (Marshal : trafficEvent → string).
Definition render (all : bool) (names : gmap string string) (e : trafficEvent) : string :=
  let ts := Sprint colDim (clock (e_Time e)) in
  let proto := pad_right 4 (escapeVisible (e_Proto e)) in
  let to := pad_right 48 (dest names (e_Dst e)) in
  let port := Itoa (e_GuestPort e) in
  let limit := Sprint colDeny "too many open connections" in
  if String.eqb (e_Event e) "flow" then
    let verdict := if e_Allow e then Sprint colAllow "ALLOW" else Sprint colDeny "DENY " in
    let detail := if e_Allow e then (if String.eqb (e_Reason e) "public" then "" else Sprint colDim (escapeVisible (e_Reason e)))
                  else Sprint colDeny (escapeVisible (e_Reason e)) in
    sconcat [ts; "  "; verdict; "  "; proto; " "; to; " "; detail]
  else if String.eqb (e_Event e) "l7" then
    sconcat [ts; "  "; Sprint colDim "      └"; " "; proto; " "; Sprint colInfo (Join (l7_parts e) "  ")]
  else if String.eqb (e_Event e) "dns" then
    let name := escapeVisible (TrimSuffix (e_Name e) ".") in
    let start := sconcat [ts; "  "; Sprint colInfo "DNS  "; "  dns  "; name; " "; escapeVisible (e_Type e); " "] in
    if e_Blocked e then sconcat [ts; "  "; Sprint colDeny "BLOCK"; "  dns  "; name; " "; Sprint colDeny "→ NXDOMAIN (filtered_dns)"]
    else if negb (String.eqb (e_Error e) "") then start +:+ Sprint colDeny ("→ " +:+ escapeVisible (e_Error e))
    else match e_Answers e with
         | [] => start +:+ Sprint colDim "→ no records"
         | l => sconcat [start; "→ "; Join (escapeVisible <$> l) ", "]
         end
  else if String.eqb (e_Event e) "dial-error" then
    sconcat [ts; "  "; Sprint colDeny "FAIL "; "  "; proto; " "; to; " "; Sprint colDeny (escapeVisible (e_Error e))]
  else if String.eqb (e_Event e) "flow-limit" then
    if String.eqb (e_Dst e) "" then sconcat [ts; "  "; Sprint colDeny "LIMIT"; "  "; proto; " gateway port "; port; " "; limit]
    else sconcat [ts; "  "; Sprint colDeny "LIMIT"; "  "; proto; " "; to; " "; limit]
  else if String.eqb (e_Event e) "ingress" then
    if (e_GuestPort e =? GuestBoot.SSHPort) && negb all then "" else
    sconcat [ts; "  "; Sprint colInfo "IN   "; "  tcp  "; escapeVisible (e_Host e); " → guest port "; port]
  else if String.eqb (e_Event e) "service" then
    if ((e_GuestPort e =? GuestLive.SSHAgentPort) || (e_GuestPort e =? GuestLive.GPGAgentPort)) && negb all then "" else
    sconcat [ts; "  "; Sprint colInfo "HOST "; "  "; pad_right 4 (escapeVisible (e_Network e)); " gateway port "; port; serviceTarget e]
  else if String.eqb (e_Event e) "service-error" then
    sconcat [ts; "  "; Sprint colDeny "FAIL "; "  gateway port "; port; serviceTarget e; ": "; escapeVisible (e_Error e)]
  else if String.eqb (e_Event e) "reload" then
    let policy := if String.eqb (e_PolicyError e) "" then ""
                  else Sprint colDeny ("; invalid policy, all new connections denied: " +:+ escapeVisible (e_PolicyError e)) in
    let errors := sconcat ((λ r, Sprint colDeny ("; " +:+ escapeVisible r)) <$> e_RuntimeErrors e) in
    sconcat [ts; "  "; Sprint colInfo "---  "; "  "; "configuration reloaded"; policy; errors]
  else if String.eqb (e_Event e) "policy" then
    if e_DenyAll e then sconcat [ts; "  "; Sprint colDeny "---  "; "  "; "all new connections denied"] else ""
  else if all then
    sconcat [ts; "  "; Sprint colDim "     "; "  "; escapeVisible (e_Event e); " "; Sprint colDim (escapeVisible (Marshal e))]
  else "".
(** The names DNS answers gave to addresses, the last one wins. *)
Definition learn (e : trafficEvent) (names : gmap string string) : gmap string string :=
  if String.eqb (e_Event e) "dns" then foldl (λ m a, <[a := TrimSuffix (e_Name e) "."]> m) names (e_Answers e) else names.
Context (parseEvent : string → option trafficEvent).
Definition traffic_line (all : bool) (names : gmap string string) (raw : string) : string * gmap string string :=
  match parseEvent raw with
  | Some e => if String.eqb (e_Event e) "" then ("", names) else (render all (learn e names) e, learn e names)
  | None => ("", names)
  end.

(** ** Processes *)

Record execProc := { cmd : string; hidden : bool }.
Definition squote : string := sep1 (chr 39).
(** [shellQuote]: the characters that make it quote an argument. *)
Definition quoted_chars : string := " " +:+ sep1 (chr 9) +:+ sep1 (chr 10) +:+ squote +:+ sep1 (chr 34) +:+ sep1 (chr 92) +:+ "$`;&|<>()*?[]{}!#~".
Definition quote_arg (a : string) : string :=
  if negb (String.eqb a "") && negb (ContainsAny a quoted_chars) then a
  else sconcat [squote; ReplaceAll a squote (sconcat [squote; sep1 (chr 92); squote; squote]); squote].
Definition shellQuote (argv : list string) : string := Join (quote_arg <$> argv) " ".
Definition isGuestProcess (e : ExecLog.ExecRecord) : bool :=
  if String.eqb (ExecLog.x_Exe e) GuestProc.BinaryPath then true else
  match ExecLog.x_Argv e with [_; c; s] => String.eqb c "-c" && HasPrefix s (sconcat [squote; GuestProc.BinaryPath; squote]) | _ => false end.
Definition tilde (cwd : string) : string := match CutPrefix cwd "/home/agent" with Some rest => "~" +:+ rest | None => cwd end.
Definition user_of (uid : Z) : string :=
  if uid =? 0 then Sprint colDeny "root" else if uid =? 1000 then "agent" else if uid =? -1 then "?" else Itoa uid.
Definition exec_start (all : bool) (procs : gmap Z execProc) (t : Z) (e : ExecLog.ExecRecord) : string * gmap Z execProc :=
  let quoted := escapeVisible (shellQuote (ExecLog.x_Argv e)) in
  let name := if String.eqb quoted "" then escapeVisible (ExecLog.x_Comm e) else quoted in
  let shown := if String.eqb quoted "" then Sprint colDim ("[" +:+ name +:+ ", exited]") else quoted in
  let hidden := negb all && isGuestProcess e in
  let procs := <[ExecLog.x_PID e := {| cmd := name; hidden := hidden |}]> procs in
  if hidden then ("", procs) else
  (sconcat [Sprint colDim (clock t); "  "; pad_left 7 (Itoa (ExecLog.x_PID e)); " "; Sprint colDim ("←" +:+ pad_right 7 (Itoa (ExecLog.x_PPID e))); "  ";
     pad_right 5 (user_of (ExecLog.x_UID e)); " "; Sprint colInfo (escapeVisible (tilde (ExecLog.x_Cwd e))); "  "; shown], procs).
Definition exec_exit (all : bool) (procs : gmap Z execProc) (t : Z) (e : ExecLog.ExecRecord) : string * gmap Z execProc :=
  let p := default {| cmd := ""; hidden := false |} (procs !! ExecLog.x_PID e) in
  let procs := delete (ExecLog.x_PID e) procs in
  let signalled := negb (String.eqb (ExecLog.x_Signal e) "") in
  let status := if signalled then escapeVisible (ExecLog.x_Signal e) else "exit " +:+ Itoa (ExecLog.x_Code e) in
  let zero := negb signalled && (ExecLog.x_Code e =? 0) in
  if zero && negb all then ("", procs) else
  if hidden p then ("", procs) else
  (sconcat [Sprint colDim (clock t); "  "; pad_left 7 (Itoa (ExecLog.x_PID e)); " ";
     Sprint (if zero then colDim else colDeny) (pad_right 8 status); "  "; Sprint colDim (cmd p)], procs).
Context (parseRecord : string → option (Z * ExecLog.ExecRecord)).
Definition exec_line (all : bool) (procs : gmap Z execProc) (raw : string) : string * gmap Z execProc :=
  match parseRecord raw with
  | Some (t, e) =>
      if ExecLog.x_PID e =? 0 then ("", procs) else
      if String.eqb (ExecLog.x_Event e) "" then exec_start all procs t e else
      if String.eqb (ExecLog.x_Event e) "exit" then exec_exit all procs t e else ("", procs)
  | None => ("", procs)
  end.
(** A formatter fed a log. *)
Fixpoint lines {S} (line : S → string → string * S) (s : S) (raws : list string) : list string :=
  match raws with [] => [] | raw :: raws => let '(text, s) := line s raw in text :: lines line s raws end.
End Format.

(** ** Nothing a guest wrote reaches the terminal unescaped *)

(** The runes of the texts themselves beyond ASCII: the arrows and the corner. *)
Definition signs : list Z := [8592; 8594; 9492].
Inductive seg := Text (s : string) | On (c : colour) | Off (c : colour).
Section Shown.
Context (IsPrint : Z → bool) (IsPrint_ascii : ∀ r, 0 ≤ r < 128 → IsPrint r = (32 <=? r) && (r <=? 126)) (IsPrint_signs : ∀ r, r ∈ signs → IsPrint r = true).
Context (on off : colour → string) (Local : Z → Z * Z * Z) (Marshal : trafficEvent → string).
Definition seg_text (g : seg) : string := match g with Text s => s | On c => on c | Off c => off c end.
Definition shown (s : string) : Prop := ∃ segs, s = sconcat (seg_text <$> segs) ∧ ∀ t, Text t ∈ segs → printable IsPrint t = true.
Lemma shown_text s : printable IsPrint s = true → shown s.
Proof using. intros H. exists [Text s]. split; [cbn; by rewrite sapp_nil_r|]. by intros t [[= ->]|?%elem_of_nil]%elem_of_cons. Qed.
Lemma shown_app s t : shown s → shown t → shown (s +:+ t).
Proof using.
  intros (a & -> & Ha) (b & -> & Hb). exists (a ++ b). split; [by rewrite fmap_app sconcat_app|]. intros x [H|H]%elem_of_app; auto.
Qed.
Lemma shown_sconcat l : Forall shown l → shown (sconcat l).
Proof using. induction 1 as [|s l Hs _ IH]; [by apply shown_text|]. cbn. by apply shown_app. Qed.
Lemma shown_Sprint c s : shown s → shown (Sprint on off c s).
Proof using.
  assert (∀ g, (∀ t, Text t ≠ g) → shown (seg_text g)) as H.
  { intros g Hg. exists [g]. split; [cbn; by rewrite sapp_nil_r|]. intros t [E|?%elem_of_nil]%elem_of_cons; [|done]. by destruct (Hg t). }
  intros Hs. apply shown_app; [by apply (H (On c))|]. apply shown_app; [done|by apply (H (Off c))].
Qed.
Lemma shown_escape s : shown (escapeVisible IsPrint s).
Proof using IsPrint_ascii. by apply shown_text, escapeVisible_printable. Qed.
Lemma shown_ascii s : sforall print_char s = true → shown s.
Proof using IsPrint_ascii. intros H. by apply shown_text, printable_ascii. Qed.
Lemma shown_Itoa n : shown (Itoa n).
Proof using IsPrint_ascii. apply shown_ascii, fmt_print. Qed.
(** A text of the formatter itself. *)
Definition plain_piece (p : piece) : bool := match p with Rune r _ => (32 <=? r) && (r <=? 126) || bool_decide (r ∈ signs) | Bad _ => false end.
Lemma shown_plain s : forallb plain_piece (decode s) = true → shown s.
Proof using IsPrint_ascii IsPrint_signs.
  intros H. apply shown_text. unfold printable. revert H. induction (decode s) as [|p l IH]; [done|]. cbn. intros [Hp Hl]%andb_prop. rewrite IH; [|done].
  rewrite andb_true_r. destruct p as [r b|]; [|done]. cbn in Hp |- *. apply orb_prop in Hp as [Hp|Hp%bool_decide_eq_true]; [|by apply IsPrint_signs].
  rewrite IsPrint_ascii; [done|lia].
Qed.
Lemma spaces_print n : sforall print_char (spaces n) = true.
Proof using. by induction n. Qed.
Lemma shown_pad_right w s : shown s → shown (pad_right w s).
Proof using IsPrint_ascii. intros H. apply shown_app; [done|]. apply shown_ascii, spaces_print. Qed.
Lemma shown_pad_left w s : shown s → shown (pad_left w s).
Proof using IsPrint_ascii. intros H. apply shown_app; [|done]. apply shown_ascii, spaces_print. Qed.
Lemma digit2_print n : sforall print_char (digit2 n) = true.
Proof using.
  cbn. unfold print_char. rewrite !code_chr; [|pose proof (Z.mod_pos_bound n 10 ltac:(lia)); lia|pose proof (Z.mod_pos_bound (n / 10) 10 ltac:(lia)); lia].
  pose proof (Z.mod_pos_bound n 10 ltac:(lia)). pose proof (Z.mod_pos_bound (n / 10) 10 ltac:(lia)). lia.
Qed.
Lemma shown_clock t : shown (clock Local t).
Proof using IsPrint_ascii.
  unfold clock. destruct (Local t) as [[h m] s]. apply shown_sconcat. repeat constructor; (apply shown_ascii; first [apply digit2_print|done]).
Qed.
Lemma shown_Join l sep : Forall shown l → shown sep → shown (Join l sep).
Proof using.
  intros H Hs. induction H as [|s l H Hl IH]; [by apply shown_text|]. cbn [Join]. destruct l as [|t l]; [done|].
  apply shown_app; [done|]. by apply shown_app.
Qed.
Lemma shown_escapes l : Forall shown (escapeVisible IsPrint <$> l).
Proof using IsPrint_ascii. apply Forall_fmap, Forall_forall. intros x _. apply shown_escape. Qed.
Lemma shown_empty : shown "".
Proof using. by apply shown_text. Qed.
Hint Resolve shown_sconcat shown_app shown_Sprint shown_escape shown_Itoa shown_pad_right shown_pad_left shown_clock shown_Join shown_escapes shown_empty : shown.
Hint Constructors Forall : shown.
Hint Extern 8 (shown ?s) => (apply shown_plain; vm_compute; reflexivity) : shown.
Ltac show := auto 40 with shown.
Lemma shown_serviceTarget e : shown (serviceTarget IsPrint e).
Proof using IsPrint_ascii IsPrint_signs. unfold serviceTarget. destruct (String.eqb _ _); show. Qed.
Lemma shown_dest names addr : shown (dest IsPrint on off names addr).
Proof using IsPrint_ascii IsPrint_signs.
  unfold dest. destruct (SplitHostPort addr) as [[host port]|]; [|show]. destruct (names !! host); show.
Qed.
Lemma shown_parts e : Forall shown (l7_parts IsPrint e).
Proof using IsPrint_ascii IsPrint_signs.
  unfold l7_parts. destruct (String.eqb (e_Proto e) "tls").
  - apply Forall_app; split; [destruct (String.eqb _ _)|destruct (e_ALPN e)]; show.
  - apply Forall_app; split; [destruct (String.eqb _ _)|destruct (e_Status e =? 0)]; show.
Qed.
Hint Resolve shown_serviceTarget shown_dest shown_parts : shown.
Lemma shown_render all names e : shown (render IsPrint on off Local Marshal all names e).
Proof using IsPrint_ascii IsPrint_signs.
  unfold render. destruct (String.eqb (e_Event e) "flow"). { destruct (e_Allow e); [destruct (String.eqb (e_Reason e) "public")|]; show. }
  destruct (String.eqb (e_Event e) "l7"); [show|]. destruct (String.eqb (e_Event e) "dns").
  { destruct (e_Blocked e); [show|]. destruct (negb _); [show|]. destruct (e_Answers e); show. }
  destruct (String.eqb (e_Event e) "dial-error"); [show|]. destruct (String.eqb (e_Event e) "flow-limit"); [destruct (String.eqb (e_Dst e) ""); show|].
  destruct (String.eqb (e_Event e) "ingress"); [destruct (_ && _); show|]. destruct (String.eqb (e_Event e) "service"); [destruct (_ && _); show|].
  destruct (String.eqb (e_Event e) "service-error"); [show|]. destruct (String.eqb (e_Event e) "reload").
  { assert (Forall shown ((λ r, Sprint on off colDeny ("; " +:+ escapeVisible IsPrint r)) <$> e_RuntimeErrors e)) as Hr.
    { apply Forall_fmap, Forall_forall. intros r _. cbn. show. }
    destruct (String.eqb (e_PolicyError e) ""); show. }
  destruct (String.eqb (e_Event e) "policy"); [destruct (e_DenyAll e); show|]. destruct all; show.
Qed.
Definition procs_shown (procs : gmap Z execProc) : Prop := map_Forall (λ _ p, shown (cmd p)) procs.
Lemma exec_start_shown all procs t e : procs_shown procs →
  shown (exec_start IsPrint on off Local all procs t e).1 ∧ procs_shown (exec_start IsPrint on off Local all procs t e).2.
Proof using IsPrint_ascii IsPrint_signs.
  intros Hp. unfold exec_start. set (q := escapeVisible IsPrint (shellQuote (ExecLog.x_Argv e))). set (name := if String.eqb q "" then _ else q).
  assert (shown name) as Hn by (unfold name, q; destruct (String.eqb _ ""); show).
  assert (procs_shown (<[ExecLog.x_PID e := {| cmd := name; hidden := negb all && isGuestProcess e |}]> procs)) as Hp' by (by apply map_Forall_insert_2).
  destruct (negb all && isGuestProcess e); (split; [|done]); [apply shown_empty|]. cbn [fst].
  assert (shown (user_of on off (ExecLog.x_UID e))) as Hu by (unfold user_of; destruct (_ =? 0); [|destruct (_ =? 1000); [|destruct (_ =? -1)]]; show).
  assert (shown (if String.eqb q "" then Sprint on off colDim ("[" +:+ name +:+ ", exited]") else q)) as Hs by (unfold q in *; destruct (String.eqb _ ""); show).
  show.
Qed.
Lemma exec_exit_shown all procs t e : procs_shown procs →
  shown (exec_exit IsPrint on off Local all procs t e).1 ∧ procs_shown (exec_exit IsPrint on off Local all procs t e).2.
Proof using IsPrint_ascii IsPrint_signs.
  intros Hp. unfold exec_exit. set (p := default _ (procs !! ExecLog.x_PID e)).
  assert (shown (cmd p)) as Hc by (unfold p; destruct (procs !! ExecLog.x_PID e) eqn:E; [by apply (Hp _ _ E)|apply shown_empty]).
  assert (procs_shown (delete (ExecLog.x_PID e) procs)) as Hp' by (by apply map_Forall_delete).
  destruct (_ && negb all); [split; [apply shown_empty|done]|]. destruct (hidden p); [split; [apply shown_empty|done]|]. cbn [fst snd]. split; [|done].
  assert (shown (if negb (String.eqb (ExecLog.x_Signal e) "") then escapeVisible IsPrint (ExecLog.x_Signal e) else "exit " +:+ Itoa (ExecLog.x_Code e))) as Hs
    by (destruct (negb _); show).
  show.
Qed.
Lemma lines_shown {S} (I : S → Prop) (line : S → string → string * S) :
  (∀ s raw, I s → shown (line s raw).1 ∧ I (line s raw).2) → ∀ raws s, I s → Forall shown (lines line s raws).
Proof using.
  intros H raws. induction raws as [|raw raws IH]; intros s Hs; [constructor|]. cbn [lines]. destruct (H s raw Hs) as [H1 H2].
  destruct (line s raw) as [text s']. constructor; [done|]. by apply IH.
Qed.
Lemma sconcat_ne a c r l : sconcat (a :: String c r :: l) ≠ "".
Proof using. cbn. by destruct a. Qed.
End Shown.
Lemma sapp_ne (a b : string) : a ≠ "" → a +:+ b ≠ "".
Proof. by destruct a. Qed.
Lemma sconcat_ne_first a l : a ≠ "" → sconcat (a :: l) ≠ "".
Proof. intros H. by apply sapp_ne. Qed.
Definition watched : list string := ["flow"; "l7"; "dns"; "dial-error"; "flow-limit"; "service-error"; "reload"].


(** *** A hostile log *)

Definition toy_event (raw : string) : option trafficEvent :=
  if String.eqb raw "" then None else
  Some {| e_Time := 0; e_Event := "flow"; e_Conn := 1; e_Proto := "tcp"; e_Src := ""; e_Dst := "10.0.0.1:22"; e_Allow := false; e_Reason := raw; e_Name := ""; e_Type := "";
          e_Answers := []; e_Blocked := false; e_Error := ""; e_Host := ""; e_GuestPort := 0; e_Network := ""; e_Target := ""; e_SNI := ""; e_ALPN := []; e_Method := "";
          e_Path := ""; e_Status := 0; e_PolicyError := ""; e_RuntimeErrors := []; e_DenyAll := false |}.
Definition toy_record (raw : string) : option (Z * ExecLog.ExecRecord) :=
  Some (0, {| ExecLog.x_Event := ""; ExecLog.x_PID := 7; ExecLog.x_PPID := 1; ExecLog.x_UID := 1000; ExecLog.x_Comm := "sh"; ExecLog.x_Cwd := "/home/agent/w";
              ExecLog.x_Argv := ["rm"; raw]; ExecLog.x_Exe := "/bin/rm"; ExecLog.x_Code := 0; ExecLog.x_Signal := "" |}).
Definition escape : string := String (chr 27) "[2J".
Definition bare (_ : colour) : string := "".
Definition noon (t : Z) : Z * Z * Z := (12, 0, 5).
Example hostile_reason : lines (traffic_line toy_print bare bare noon (λ _, "") toy_event false) ∅ [""; escape] =
  [""; "12:00:05  DENY   tcp  10.0.0.1:22                                      \x1b[2J"].
Proof. vm_compute. reflexivity. Qed.
Example hostile_argument : lines (exec_line toy_print bare bare noon toy_record false) ∅ [escape] = ["12:00:05        7 ←1        agent ~/w  rm '\x1b[2J'"].
Proof. vm_compute. reflexivity. Qed.
Lemma toy_print_ascii r : 0 ≤ r < 128 → toy_print r = (32 <=? r) && (r <=? 126).
Proof. intros H. unfold toy_print. destruct (Z.ltb_spec r 128); [done|lia]. Qed.
Lemma toy_print_signs r : r ∈ signs → toy_print r = true.
Proof. unfold signs. intros H. repeat (apply elem_of_cons in H as [->|H]; [done|]). by apply elem_of_nil in H. Qed.
