(* ===== verification/StartupStatus.v ===== *)
(** * The status line shown while an agent starts

    [src/internal/cmd/startupstatus.go]: the scanner of the agent's output and
    the status line drawn between its chunks. All methods hold one mutex, so a run is a
    sequence of calls; the size of the terminal and the time are arguments of the calls
    that draw, and so is whether a write of the animation works. *)

From S2P Require Import Prelude GoStrings GoStrconv Utf8.
Open Scope string_scope.
Open Scope list_scope.
Open Scope Z_scope.

(** ** The scanner *)

Inductive escState := escGround | escStart | escInter | escCSI | escString | escStringEnd.
Inductive scanEvent := scanNone | scanVisible | scanAltChanged | scanSaveDEC | scanSaveSCO.
Definition maxCSIParams : nat := 32.
Record scanner := { alt : bool; state : escState; osc : bool; params : string }.
Definition fresh : scanner := {| alt := false; state := escGround; osc := false; params := "" |}.
Definition with_state (sc : scanner) (st : escState) : scanner := {| alt := alt sc; state := st; osc := osc sc; params := params sc |}.
Definition alt_mode (m : string) : bool := bool_decide (m ∈ ["47"; "1047"; "1049"]).
Definition csiFinal (final : ascii) (sc : scanner) : scanEvent * scanner :=
  if Ascii.eqb final "s" && String.eqb (params sc) "" then (scanSaveSCO, sc) else
  if negb (Ascii.eqb final "h") && negb (Ascii.eqb final "l") then (scanNone, sc) else
  match CutPrefix (params sc) "?" with
  | None => (scanNone, sc)
  | Some modes =>
      if existsb alt_mode (Split modes ";") then
        let on := Ascii.eqb final "h" in
        (if Bool.eqb (alt sc) on then scanNone else scanAltChanged, {| alt := on; state := state sc; osc := osc sc; params := params sc |})
      else (scanNone, sc)
  end.
Definition scan (b : ascii) (sc : scanner) : scanEvent * scanner :=
  let c := code b in
  match state sc with
  | escGround =>
      if c =? 27 then (scanNone, with_state sc escStart) else
      if (32 <? c) && negb (c =? 127) then (scanVisible, sc) else (scanNone, sc)
  | escStart =>
      if Ascii.eqb b "[" then (scanNone, {| alt := alt sc; state := escCSI; osc := osc sc; params := "" |}) else
      if Ascii.eqb b "]" || Ascii.eqb b "P" || Ascii.eqb b "X" || Ascii.eqb b "^" || Ascii.eqb b "_"
      then (scanNone, {| alt := alt sc; state := escString; osc := Ascii.eqb b "]"; params := params sc |}) else
      if (32 <=? c) && (c <=? 47) then (scanNone, with_state sc escInter) else
      if Ascii.eqb b "7" then (scanSaveDEC, with_state sc escGround) else (scanNone, with_state sc escGround)
  | escInter => (scanNone, if (c <? 32) || (47 <? c) then with_state sc escGround else sc)
  | escCSI =>
      if c =? 27 then (scanNone, with_state sc escStart) else
      if (64 <=? c) && (c <=? 126) then csiFinal b (with_state sc escGround) else
      if (String.length (params sc) <? maxCSIParams)%nat
      then (scanNone, {| alt := alt sc; state := state sc; osc := osc sc; params := params sc +:+ String b "" |}) else (scanNone, sc)
  | escString =>
      if (c =? 7) && osc sc then (scanNone, with_state sc escGround) else
      if c =? 27 then (scanNone, with_state sc escStringEnd) else (scanNone, sc)
  | escStringEnd => (scanNone, with_state sc (if c =? 92 then escGround else escString))
  end.

(** ** What is drawn *)

Definition ESC : string := sep1 (chr 27).
Definition spinnerFrames : list string := ["⠋"; "⠙"; "⠹"; "⠸"; "⠼"; "⠴"; "⠦"; "⠧"; "⠇"; "⠏"].
Definition spinnerInterval : Z := 100 * 1000000.
Definition second : Z := 1000 * 1000000.
Definition resetAttrs : string := ESC +:+ "[22;23;24;25;27;28;29m".
(** [string(r)] of a rune, the replacement character for a byte that is none. *)
Definition rune_text (p : piece) : string := match p with Rune _ b => b | Bad _ => "�" end.
Definition startupLine (frame msg : string) (seconds cols : Z) : string :=
  let prefix := frame +:+ " " in
  let suffix := sconcat [" "; Itoa seconds; "s"] in
  let r := decode msg in
  let avail := cols - 1 - rune_count prefix - Z.of_nat (String.length suffix) in
  if (0 <? cols) && (avail <? Z.of_nat (length r)) then
    if (avail <? 0) && (1 <? cols) then frame else
    if avail <? 0 then "" else
    if 1 <? avail then sconcat [prefix; sconcat (rune_text <$> take (Z.to_nat (avail - 1)) r); "…"; suffix]
    else prefix +:+ suffix
  else sconcat [prefix; msg; suffix].
Section Message.
Context (IsPrint : Z → bool).
Definition startupMessage (starting title : string) (installs : list string) : string :=
  match escapeVisible IsPrint <$> installs with
  | [] => starting
  | [pkg] => sconcat ["Installing "; pkg; " for "; title; "…"]
  | pkgs => sconcat ["Installing "; Itoa (Z.of_nat (length pkgs)); " plugins for "; title; ": "; Join pkgs ", "; "…"]
  end.
End Message.
(** Move to a row and clear it. *)
Definition clear_row (row : Z) : string := sconcat [ESC; "["; Itoa row; ";1H"; ESC; "[2K"].
Definition erase (row : Z) : string := sconcat [ESC; "7"; resetAttrs; clear_row row; ESC; "8"].
Definition eraseAfterSave (row : Z) (save : scanEvent) : string :=
  match save with
  | scanSaveSCO => clear_row row +:+ ESC +:+ "[u"
  | _ => sconcat [resetAttrs; clear_row row; ESC; "8"]
  end.
(** The terminal when a method draws: its size and the time. *)
Record view := { cols : Z; rows : Z; now : Z }.
Record status := { msg : string; started : Z; pending : bool; row : Z; sc : scanner }.
Definition newStartupStatus : status := {| msg := ""; started := 0; pending := false; row := 0; sc := fresh |}.
Definition line_row (v : view) : Z := Z.max 1 (Z.quot (rows v + 1) 2).
Definition line_col (v : view) (line : string) : Z := Z.max 1 (Z.quot (cols v - rune_count line) 2 + 1).
Definition status_line (v : view) (m : string) (since : Z) : string :=
  let elapsed := now v - since in
  startupLine (nth (Z.to_nat (Z.rem (Z.quot elapsed spinnerInterval) (Z.of_nat (length spinnerFrames)))) spinnerFrames "") m (Z.quot elapsed second) (cols v).
(** [draw] over the row the line was drawn on before, 0 when there is none. *)
Definition draw (v : view) (old : Z) (line : string) : string :=
  sconcat [ESC; "7"; resetAttrs; if (0 <? old) && negb (old =? line_row v) then clear_row old else ""; clear_row (line_row v);
           ESC; "["; Itoa (line_row v); ";"; Itoa (line_col v line); "H"; ESC; "[2m"; line; ESC; "8"].

(** ** The methods *)

Definition start (m : string) (t : Z) (s : status) : status := {| msg := m; started := t; pending := true; row := row s; sc := sc s |}.
Definition stop (s : status) : status := {| msg := msg s; started := started s; pending := false; row := row s; sc := sc s |}.
Definition scanned (s : status) (sc' : scanner) : status := {| msg := msg s; started := started s; pending := pending s; row := row s; sc := sc' |}.
Definition drawn (v : view) (s : status) : string * status :=
  (draw v (row s) (status_line v (msg s) (started s)), {| msg := msg s; started := started s; pending := pending s; row := line_row v; sc := sc s |}).
Definition at_ground (sc : scanner) : bool := match state sc with escGround => true | _ => false end.
(** What is written and whether it is still shown, for a write that works or not. *)
Definition tick (v : view) (ok : bool) (s : status) : string * bool * status :=
  if negb (pending s) then ("", false, s) else
  if alt (sc s) && at_ground (sc s) then
    let '(d, s') := drawn v s in if ok then (d, true, s') else (d, false, stop s')
  else ("", true, s).
(** The bytes written for a chunk when one of its bytes ends the status line. *)
Definition ends (row : Z) (pre : string) (b : ascii) (rest : string) (ev : scanEvent) (alt : bool) : option string :=
  let whole := pre +:+ String b rest in
  match ev with
  | scanNone => None
  | scanAltChanged => if alt then None else Some whole
  | scanVisible => Some (if alt && (0 <? row) then pre +:+ erase row +:+ String b rest else whole)
  | scanSaveDEC | scanSaveSCO =>
      if alt then Some (if 0 <? row then pre +:+ String b "" +:+ eraseAfterSave row ev +:+ rest else whole) else None
  end.
Fixpoint walk (row : Z) (pre : string) (sc : scanner) (p : string) : scanner * option string :=
  match p with
  | "" => (sc, None)
  | String b rest =>
      let '(ev, sc) := scan b sc in
      match ends row pre b rest ev (alt sc) with
      | Some out => (sc, Some out)
      | None => walk row (pre +:+ String b "") sc rest
      end
  end.
Definition write (v : view) (p : string) (s : status) : string * status :=
  if negb (pending s) then (p, s) else
  match walk (row s) "" (sc s) p with
  | (sc', Some out) => (out, stop (scanned s sc'))
  | (sc', None) =>
      let s := scanned s sc' in
      if alt sc' && at_ground sc' then let '(d, s) := drawn v s in (p +:+ d, s) else (p, s)
  end.

(** ** The agent's output is not disturbed *)

Inductive part := Agent (s : string) | Drawn (old : Z) (v : view) (line : string) | Erased (row : Z) (save : scanEvent).
Definition part_text (p : part) : string :=
  match p with
  | Agent s => s
  | Drawn old v line => draw v old line
  | Erased row scanNone => erase row
  | Erased row ev => eraseAfterSave row ev
  end.
Definition agent_part (p : part) : string := match p with Agent s => s | _ => "" end.
Definition agent_text (ps : list part) : string := sconcat (agent_part <$> ps).
Definition is_agent (p : part) : Prop := match p with Agent _ => True | _ => False end.
(** A byte that ends the status line. *)
Definition stops (ev : scanEvent) (alt : bool) : bool :=
  match ev with scanNone => false | scanVisible => true | scanAltChanged => negb alt | scanSaveDEC | scanSaveSCO => alt end.
Fixpoint quiet (sc : scanner) (s : string) : option scanner :=
  match s with
  | "" => Some sc
  | String b s => let '(ev, sc) := scan b sc in if stops ev (alt sc) then None else quiet sc s
  end.
(** The first such byte of a text: what comes before it, and what it is. *)
Definition stop_at (sc : scanner) (s : string) (b : ascii) (sc1 : scanner) (ev : scanEvent) (sc2 : scanner) : Prop :=
  quiet sc s = Some sc1 ∧ scan b sc1 = (ev, sc2) ∧ stops ev (alt sc2) = true.
Definition on_screen (sc : scanner) : Prop := alt sc = true ∧ state sc = escGround.
Definition is_save (ev : scanEvent) : Prop := ev = scanSaveDEC ∨ ev = scanSaveSCO.

Inductive action := Chunk (p : string) (v : view) | Tick (v : view) (ok : bool) | Stop.
Definition act (a : action) (s : status) : string * status :=
  match a with
  | Chunk p v => write v p s
  | Tick v ok => let '(out, _, s) := tick v ok s in (out, s)
  | Stop => ("", stop s)
  end.
Fixpoint outputs (s : status) (acts : list action) : list string :=
  match acts with [] => [] | a :: acts => let '(out, s) := act a s in out :: outputs s acts end.
Definition chunk (a : action) : string := match a with Chunk p _ => p | _ => "" end.
Definition halts (a : action) : Prop := match a with Stop | Tick _ false => True | _ => False end.

#[export] Instance halts_dec a : Decision (halts a).
Proof. destruct a as [| v []|]; cbn; apply _. Defined.

(** What the terminal gets while the line is shown, scanner and row known. *)
Section Display.
Context (halted : Prop).
Inductive display : scanner → Z → list part → Prop :=
| shown_nil sc row : display sc row []
| shown_agent sc row s sc' ps : quiet sc s = Some sc' → display sc' row ps → display sc row (Agent s :: ps)
| shown_draw sc row v line ps : on_screen sc → display sc (line_row v) ps → display sc row (Drawn row v line :: ps)
| shown_erase sc row b rest ps sc' : on_screen sc → 0 < row → scan b sc = (scanVisible, sc') → Forall is_agent ps →
    display sc row (Erased row scanNone :: Agent (String b rest) :: ps)
| shown_save sc row s b sc1 ev sc2 ps : stop_at sc s b sc1 ev sc2 → is_save ev → alt sc2 = true → 0 < row → Forall is_agent ps →
    display sc row (Agent (s +:+ String b "") :: Erased row ev :: ps)
| shown_over sc row s b rest sc1 ev sc2 ps : stop_at sc s b sc1 ev sc2 → (row ≤ 0 ∨ alt sc2 = false) → Forall is_agent ps →
    display sc row (Agent (s +:+ String b rest) :: ps)
| shown_halt sc row ps : halted → Forall is_agent ps → display sc row ps.
End Display.

Lemma quiet_app sc s t : quiet sc (s +:+ t) = match quiet sc s with Some sc' => quiet sc' t | None => None end.
Proof.
  revert sc. induction s as [|b s IH]; intros sc; [done|]. rewrite sapp_cons. cbn [quiet]. destruct (scan b sc) as [ev sc']. destruct (stops _ _); [done|]. apply IH.
Qed.
(** After what was quiet comes the first byte that stops. *)
Lemma stop_later sc s sc' t s2 b rest sc1 ev sc2 : quiet sc s = Some sc' → s +:+ t = s2 +:+ String b rest → stop_at sc s2 b sc1 ev sc2 →
  ∃ s3, s2 = s +:+ s3 ∧ t = s3 +:+ String b rest ∧ stop_at sc' s3 b sc1 ev sc2.
Proof.
  revert sc s2. induction s as [|c s IH]; intros sc s2 Hq E (H1 & H2 & H3).
  { injection Hq as <-. by exists s2. }
  cbn [quiet] in Hq. destruct (scan c sc) as [ev1 sc3] eqn:Ec. destruct (stops ev1 (alt sc3)) eqn:Es; [done|]. rewrite sapp_cons in E.
  destruct s2 as [|c' s2].
  { injection E as -> _. cbn in H1. injection H1 as <-. congruence. }
  rewrite sapp_cons in E. injection E as <- E. cbn [quiet] in H1. rewrite Ec Es in H1.
  destruct (IH sc3 s2 Hq E) as (s3 & -> & Ht & Hs); [done|]. by exists s3.
Qed.
Lemma stop_unique sc s b rest sc1 ev sc2 s' b' rest' sc1' ev' sc2' : stop_at sc s b sc1 ev sc2 → stop_at sc s' b' sc1' ev' sc2' →
  s +:+ String b rest = s' +:+ String b' rest' → s = s' ∧ b = b' ∧ rest = rest' ∧ sc2 = sc2'.
Proof.
  intros (H1 & H2 & H3) H' E. destruct (stop_later _ _ _ (String b rest) _ _ _ _ _ _ H1 E H') as (s3 & -> & E3 & H3' & H2' & _).
  destruct s3 as [|c s3].
  - injection E3 as -> ->. cbn in H3'. injection H3' as ->. rewrite sapp_nil_r. split; [done|]. split; [done|]. split; [done|]. congruence.
  - rewrite sapp_cons in E3. injection E3 as <- _. cbn in H3'. by rewrite H2 H3 in H3'.
Qed.
Lemma scan_visible b sc0 sc' : scan b sc0 = (scanVisible, sc') → sc' = sc0 ∧ state sc0 = escGround.
Proof.
  unfold scan. destruct (state sc0).
  - destruct (_ =? 27); [done|]. destruct (_ && _); [|done]. by intros [= <-].
  - repeat (destruct (_ || _) || destruct (_ && _) || destruct (Ascii.eqb _ _)); done.
  - done.
  - destruct (_ =? 27); [done|]. destruct (_ && _); [|by destruct (_ <? _)%nat]. unfold csiFinal. destruct (_ && _); [done|]. destruct (_ && _); [done|].
    destruct (CutPrefix _ _); [|done]. destruct (existsb _ _); [|done]. by destruct (Bool.eqb _ _).
  - repeat (destruct (_ && _) || destruct (_ =? _)); done.
  - done.
Qed.
Lemma scan_save b sc0 ev sc' : scan b sc0 = (ev, sc') → is_save ev → state sc' = escGround.
Proof.
  unfold scan. destruct (state sc0).
  - destruct (_ =? 27); [|destruct (_ && _)]; by intros [= <- _] [|].
  - repeat (destruct (_ || _) || destruct (_ && _) || destruct (Ascii.eqb _ _)); by intros [= <- <-] [|].
  - by intros [= <- <-] [|].
  - destruct (_ =? 27); [by intros [= <- <-] [|]|]. destruct (_ && _); [|by destruct (_ <? _)%nat; intros [= <- <-] [|]]. unfold csiFinal.
    destruct (_ && _); [by intros [= <- <-]|]. destruct (_ && _); [by intros [= <- <-] [|]|].
    destruct (CutPrefix _ _); [|by intros [= <- <-] [|]]. destruct (existsb _ _); [|by intros [= <- <-] [|]]. destruct (Bool.eqb _ _); by intros [= <- <-].
  - repeat (destruct (_ && _) || destruct (_ =? _)); by intros [= <- <-] [|].
  - by intros [= <- <-] [|].
Qed.
Lemma ends_stops row pre b rest ev a : is_Some (ends row pre b rest ev a) ↔ stops ev a = true.
Proof. destruct ev, a; cbn; split; intros H; try (by destruct H); try done; exact (ex_intro _ _ eq_refl). Qed.
Lemma walk_spec row pre sc p :
  match walk row pre sc p with
  | (sc', None) => quiet sc p = Some sc'
  | (sc', Some out) => ∃ x b y sc1 ev, p = x +:+ String b y ∧ stop_at sc x b sc1 ev sc' ∧ ends row (pre +:+ x) b y ev (alt sc') = Some out
  end.
Proof.
  revert pre sc. induction p as [|b p IH]; intros pre sc; cbn [walk quiet]; [done|]. destruct (scan b sc) as [ev sc1] eqn:Es.
  destruct (ends row pre b p ev (alt sc1)) as [out|] eqn:Ee.
  - exists "", b, p, sc, ev. split; [done|]. split; [split; [done|split; [done|apply (ends_stops row pre b p); by rewrite Ee]]|]. by rewrite sapp_nil_r.
  - assert (stops ev (alt sc1) = false) as Hs.
    { destruct (stops ev (alt sc1)) eqn:H; [|done]. apply (ends_stops row pre b p) in H. rewrite Ee in H. by destruct H. }
    rewrite Hs. specialize (IH (pre +:+ String b "") sc1). destruct (walk row (pre +:+ String b "") sc1 p) as [sc' [out|]]; [|done].
    destruct IH as (x & c & y & sc2 & ev2 & -> & (H1 & H2 & H3) & H4). exists (String b x), c, y, sc2, ev2. split; [done|]. split.
    + split; [cbn; by rewrite Es Hs|done].
    + rewrite -H4. by rewrite -sapp_assoc.
Qed.
Lemma agent_text_cons p ps : agent_text (p :: ps) = agent_part p +:+ agent_text ps.
Proof. done. Qed.
Lemma quiet_run s acts : pending s = false → outputs s acts = chunk <$> acts.
Proof.
  revert s. induction acts as [|a acts IH]; intros s Hs; [done|]. cbn [outputs]. destruct a as [p v|v ok|]; cbn [act].
  - unfold write. rewrite Hs. cbn [negb fmap list_fmap chunk]. by rewrite IH.
  - unfold tick. rewrite Hs. cbn [negb fmap list_fmap chunk]. by rewrite IH.
  - cbn [fmap list_fmap chunk]. by rewrite IH.
Qed.
Definition agents (acts : list action) : list part := (λ a, Agent (chunk a)) <$> acts.
Lemma agents_parts acts : Forall is_agent (agents acts) ∧ sconcat (part_text <$> agents acts) = sconcat (chunk <$> acts) ∧ agent_text (agents acts) = sconcat (chunk <$> acts).
Proof.
  split; [by apply Forall_fmap, Forall_forall|]. unfold agents, agent_text. rewrite -!list_fmap_compose. by split.
Qed.
(** A run is the agent's chunks with the drawings in between. *)
Definition displayed (halted : Prop) (s : status) (acts : list action) : Prop := ∃ ps, sconcat (outputs s acts) = sconcat (part_text <$> ps) ∧
  agent_text ps = sconcat (chunk <$> acts) ∧ (if pending s then display halted (sc s) (row s) ps else Forall is_agent ps).
Lemma displayed_over halted s acts : pending s = false → displayed halted s acts.
Proof.
  intros Hs. exists (agents acts). destruct (agents_parts acts) as (H1 & H2 & H3). rewrite quiet_run; [|done]. rewrite Hs. by split; [rewrite H2|].
Qed.
(** One call whose output is [before], with one more drawing, and the rest. *)
Lemma displayed_cons halted s a acts before out s' :
  act a s = (out, s') → out = sconcat (part_text <$> before) → agent_text before = chunk a → pending s = true → displayed halted s' acts →
  (∀ ps, (if pending s' then display halted (sc s') (row s') ps else Forall is_agent ps) → display halted (sc s) (row s) (before ++ ps)) →
  displayed halted s (a :: acts).
Proof.
  intros Ha -> Hb Hp (ps & H1 & H2 & H3) Hd. exists (before ++ ps). cbn [outputs]. rewrite Ha. split; [|split].
  - cbn [sconcat foldr]. fold (sconcat (outputs s' acts)). rewrite H1. rewrite fmap_app. by rewrite sconcat_app.
  - unfold agent_text in *. rewrite fmap_app sconcat_app. by rewrite Hb H2.
  - rewrite Hp. by apply Hd.
Qed.
Lemma sconcat1 a : sconcat [a] = a.
Proof. apply sapp_nil_r. Qed.
Lemma sconcat2 a b : sconcat [a; b] = a +:+ b.
Proof. cbn. by rewrite sapp_nil_r. Qed.
Lemma sconcat3 a b c : sconcat [a; b; c] = a +:+ b +:+ c.
Proof. cbn. by rewrite sapp_nil_r. Qed.
Lemma sconcat4 a b c d : sconcat [a; b; c; d] = a +:+ b +:+ c +:+ d.
Proof. cbn. by rewrite sapp_nil_r. Qed.
Lemma write_displayed halted s p v acts : pending s = true →
  (∀ s', displayed halted s' acts) → displayed halted s (Chunk p v :: acts).
Proof.
  intros Hp IH. pose proof (walk_spec (row s) "" (sc s) p) as Hw. destruct (write v p s) as [o s'] eqn:E. unfold write in E. rewrite Hp in E. cbn [negb] in E.
  assert (act (Chunk p v) s = (o, s')) as Ha by (cbn; unfold write; by rewrite Hp).
  destruct (walk (row s) "" (sc s) p) as [sc' [out|]].
  - injection E as <- <-. destruct Hw as (x & b & y & sc1 & ev & -> & Hs & He). rewrite (sapp_assoc "" x) in He || idtac.
    assert (∀ before, out = sconcat (part_text <$> before) → agent_text before = x +:+ String b y →
      (∀ ps, Forall is_agent ps → display halted (sc s) (row s) (before ++ ps)) → displayed halted s (Chunk (x +:+ String b y) v :: acts)) as Hb.
    { intros before H1 H2 H3. by apply (displayed_cons _ _ _ _ before _ _ Ha H1 H2 Hp (IH _)). }
    assert (out = x +:+ String b y → row s ≤ 0 ∨ alt sc' = false → displayed halted s (Chunk (x +:+ String b y) v :: acts)) as Hover.
    { intros Ho Hr. apply (Hb [Agent (x +:+ String b y)]); [by cbn; rewrite sapp_nil_r|by cbn; rewrite sapp_nil_r|]. intros ps Hps.
      by apply (shown_over _ _ _ x b y sc1 ev sc'). }
    change ("" +:+ x) with x in He. destruct ev; cbn [ends] in He; [done| | |idtac|idtac].
    + destruct (alt sc') eqn:Ealt; cbn [andb] in He; [|injection He as <-; apply Hover; [done|by right]].
      destruct (Z.ltb_spec 0 (row s)) as [Hr|Hr]; injection He as <-; [|apply Hover; [done|by left]]. destruct Hs as (Hq & Hv & _).
      destruct (scan_visible _ _ _ Hv) as [-> Hg]. apply (Hb [Agent x; Erased (row s) scanNone; Agent (String b y)]); [by rewrite -sconcat3|by cbn; rewrite sapp_nil_r|].
      intros ps Hps. apply (shown_agent _ _ _ _ _ _ Hq). by apply (shown_erase _ _ _ b y ps sc1).
    + destruct (alt sc'); [done|]. injection He as <-. apply Hover; [done|by right].
    + destruct (alt sc') eqn:Ealt; [|done]. destruct (Z.ltb_spec 0 (row s)) as [Hr|Hr]; injection He as <-; [|apply Hover; [done|by left]].
      apply (Hb [Agent (x +:+ String b ""); Erased (row s) scanSaveDEC; Agent y]); [cbn [fmap list_fmap part_text]; by rewrite sconcat3 -!sapp_assoc|unfold agent_text; cbn [fmap list_fmap agent_part]; by rewrite sconcat3 -!sapp_assoc|].
      intros ps Hps. apply (shown_save _ _ _ x b sc1 scanSaveDEC sc'); [done|by left|done|done|by constructor].
    + destruct (alt sc') eqn:Ealt; [|done]. destruct (Z.ltb_spec 0 (row s)) as [Hr|Hr]; injection He as <-; [|apply Hover; [done|by left]].
      apply (Hb [Agent (x +:+ String b ""); Erased (row s) scanSaveSCO; Agent y]); [cbn [fmap list_fmap part_text]; by rewrite sconcat3 -!sapp_assoc|unfold agent_text; cbn [fmap list_fmap agent_part]; by rewrite sconcat3 -!sapp_assoc|].
      intros ps Hps. apply (shown_save _ _ _ x b sc1 scanSaveSCO sc'); [done|by right|done|done|by constructor].
  - cbn [scanned] in E. destruct (alt sc' && at_ground sc') eqn:Eg; cbn in E; injection E as <- <-.
    + apply andb_prop in Eg as [Ealt Eg]. assert (on_screen sc') as Hon by (split; [done|]; unfold at_ground in Eg; by destruct (state sc')).
      apply (displayed_cons _ _ _ _ [Agent p; Drawn (row s) v (status_line v (msg s) (started s))] _ _ Ha); [by rewrite -sconcat2|by cbn; rewrite !sapp_nil_r|done|apply IH|].
      intros ps. cbn. rewrite Hp. intros Hps. apply (shown_agent _ _ _ _ _ _ Hw). by apply shown_draw.
    + apply (displayed_cons _ _ _ _ [Agent p] _ _ Ha); [by cbn; rewrite sapp_nil_r|by cbn; rewrite sapp_nil_r|done|apply IH|].
      intros ps. cbn. rewrite Hp. intros Hps. by apply (shown_agent _ _ _ _ sc').
Qed.
Lemma run_displayed (halted : Prop) acts s : (Exists halts acts → halted) → displayed halted s acts.
Proof.
  revert s. induction acts as [|a acts IH]; intros s Hh.
  { exists []. split; [done|]. split; [done|]. destruct (pending s); [apply shown_nil|constructor]. }
  assert (∀ s', displayed halted s' acts) as IH' by (intros s'; apply IH; intros H; apply Hh; by right).
  destruct (pending s) eqn:Hp; [|by apply displayed_over]. destruct a as [p v|v ok|].
  - by apply write_displayed.
  - assert (halts (Tick v ok) → halted) as Ht by (intros H; apply Hh; by left).
    destruct (alt (sc s) && at_ground (sc s)) eqn:Eg.
    + assert (on_screen (sc s)) as Hon by (apply andb_prop in Eg as [? Eg]; split; [done|]; unfold at_ground in Eg; by destruct (state (sc s))).
      destruct (drawn v s) as [d s2] eqn:Ed. assert (act (Tick v ok) s = (d, if ok then s2 else stop s2)) as Ha by (cbn; unfold tick; rewrite Hp Eg Ed; by destruct ok).
      injection Ed as <- <-. apply (displayed_cons _ _ _ _ [Drawn (row s) v (status_line v (msg s) (started s))] _ _ Ha); [symmetry; apply sconcat1|done|done|apply IH'|].
      intros ps Hps. cbn. apply shown_draw; [done|]. destruct ok; cbn in Hps; [by rewrite Hp in Hps|by apply shown_halt; [apply Ht|]].
    + assert (act (Tick v ok) s = ("", s)) as Ha by (cbn; unfold tick; by rewrite Hp Eg).
      apply (displayed_cons _ _ _ _ [] _ _ Ha); [done|done|done|apply IH'|]. intros ps. by rewrite Hp.
  - apply (displayed_cons _ _ _ _ [] "" (stop s)); [done|done|done|done|apply IH'|]. intros ps Hps. apply shown_halt; [apply Hh; by left|done].
Qed.

(** The row the line was drawn on last, 0 when it never was. *)
Fixpoint shown_row (r : Z) (ps : list part) : Z :=
  match ps with [] => r | Drawn _ v _ :: ps => shown_row (line_row v) ps | _ :: ps => shown_row r ps end.
(** Where the drawing [q] stands between the parts [a] and [b]. *)
Definition well_placed (sc0 : scanner) (r0 : Z) (a : list part) (q : part) (b : list part) : Prop :=
  match q with
  | Agent _ => True
  | Drawn old v line => old = shown_row r0 a ∧ ∃ sc, quiet sc0 (agent_text a) = Some sc ∧ on_screen sc
  | Erased row scanNone => row = shown_row r0 a ∧ Forall is_agent b ∧
      ∃ sc c rest sc', quiet sc0 (agent_text a) = Some sc ∧ on_screen sc ∧ agent_text b = String c rest ∧ scan c sc = (scanVisible, sc')
  | Erased row ev => row = shown_row r0 a ∧ Forall is_agent b ∧
      ∃ s c sc1 sc2, agent_text a = s +:+ String c "" ∧ stop_at sc0 s c sc1 ev sc2 ∧ on_screen sc2
  end.
Lemma agents_only r ps : Forall is_agent ps → shown_row r ps = r ∧ ∀ a q b, ps = a ++ q :: b → is_agent q.
Proof.
  intros H. split.
  - induction H as [|[] ps Hp _ IH]; done.
  - intros a q b ->. apply Forall_app in H as [_ H]. by inversion H.
Qed.
Lemma well_placed_agent sc r s sc' a q b : quiet sc s = Some sc' → well_placed sc' r a q b → well_placed sc r (Agent s :: a) q b.
Proof.
  intros Hq. assert (∀ t, quiet sc (s +:+ t) = quiet sc' t) as Ha by (intros t; by rewrite quiet_app Hq).
  assert (∀ ev, (∃ x c sc1 sc2, agent_text a = x +:+ String c "" ∧ stop_at sc' x c sc1 ev sc2 ∧ on_screen sc2) →
    ∃ x c sc1 sc2, agent_text (Agent s :: a) = x +:+ String c "" ∧ stop_at sc x c sc1 ev sc2 ∧ on_screen sc2) as Hs.
  { intros ev (x & c & sc1 & sc2 & E & (H1 & H2) & H3). exists (s +:+ x), c, sc1, sc2. rewrite agent_text_cons E. cbn [agent_part]. split; [apply sapp_assoc|].
    split; [|done]. split; [by rewrite Ha|done]. }
  destruct q as [|old v line|row []]; cbn [well_placed shown_row]; [done|..].
  1: { intros (H1 & sc1 & H2 & H3). split; [done|]. exists sc1. rewrite agent_text_cons. cbn [agent_part]. by rewrite Ha. }
  1: { intros (H1 & H2 & sc1 & c & rest & sc2 & H3 & H4). split; [done|]. split; [done|]. exists sc1, c, rest, sc2. rewrite agent_text_cons. cbn [agent_part]. by rewrite Ha. }
  all: intros (H1 & H2 & H3); split; [done|]; split; [done|]; by apply Hs.
Qed.
Lemma well_placed_drawn sc r old v line a q b : well_placed sc (line_row v) a q b → well_placed sc r (Drawn old v line :: a) q b.
Proof. done. Qed.
Lemma display_placed halted sc r ps : display halted sc r ps → ∀ a q b, ps = a ++ q :: b → well_placed sc r a q b.
Proof.
  assert (∀ sc r ps a q b, Forall is_agent ps → ps = a ++ q :: b → well_placed sc r a q b) as Hagents.
  { intros sc' r' ps' a q b H E. pose proof (proj2 (agents_only r' ps' H) a q b E). by destruct q. }
  induction 1 as [sc r|sc r s sc' ps Hq Hd IH|sc r v line ps Hon Hd IH|sc r c rest ps sc' Hon Hr Hv Hps|sc r s c sc1 ev sc2 ps Hs Hev Ha Hr Hps|sc r s c rest sc1 ev sc2 ps Hs Ho Hps|sc r ps Hh Hps]; intros a q b E.
  - by destruct a.
  - destruct a as [|p a]; injection E as <- E; [done|]. by apply (well_placed_agent _ _ _ sc'), IH.
  - destruct a as [|p a]; injection E as <- E; [split; [done|by exists sc]|]. by apply well_placed_drawn, IH.
  - destruct a as [|p a]; injection E as <- E.
    + split; [done|]. subst b. split; [by constructor|]. exists sc, c, (rest +:+ agent_text ps), sc'. by repeat split; try apply Hon.
    + assert (is_agent q) as Hq by (apply (proj2 (agents_only r (Agent (String c rest) :: ps) ltac:(by constructor)) a q b E)). by destruct q.
  - destruct a as [|p [|p2 a]]; [by injection E as <- E|injection E as <- <- <-|injection E as <- <- E].
    + destruct Hs as (H1 & H2 & H3).
      assert (r = shown_row r [Agent (s +:+ String c "")] ∧ Forall is_agent ps ∧ ∃ x c0 sc1 sc2, agent_text [Agent (s +:+ String c "")] = x +:+ String c0 "" ∧ stop_at sc x c0 sc1 ev sc2 ∧ on_screen sc2) as H.
      { split; [done|]. split; [done|]. exists s, c, sc1, sc2. split; [by unfold agent_text; cbn; rewrite sapp_nil_r|]. split; [done|]. split; [done|]. by apply (scan_save _ _ _ _ H2). }
      by destruct Hev as [-> | ->].
    + by pose proof (proj2 (agents_only r ps Hps) a q b E); destruct q.
  - by apply (Hagents _ _ (Agent (s +:+ String c rest) :: ps)); [constructor|].
  - by apply (Hagents _ _ ps).
Qed.
Lemma display_erased sc r ps : display False sc r ps → ∀ s c rest sc1 ev sc2, agent_text ps = s +:+ String c rest → stop_at sc s c sc1 ev sc2 →
  alt sc2 = true → 0 < shown_row r ps → ∃ row save, Erased row save ∈ ps.
Proof.
  induction 1 as [sc r|sc r s sc' ps Hq Hd IH|sc r v line ps Hon Hd IH|sc r c rest ps sc' Hon Hr Hv Hps|sc r s c sc1 ev sc2 ps Hs Hev Ha Hr Hps|sc r s c rest sc1 ev sc2 ps Hs Ho Hps|sc r ps Hh Hps]; intros s' c' rest' sc1' ev' sc2' E Hs' Halt Hrow.
  - by destruct s'.
  - destruct (stop_later _ _ _ _ _ _ _ _ _ _ Hq E Hs') as (s3 & _ & Ht & Hs3). destruct (IH _ _ _ _ _ _ Ht Hs3 Halt Hrow) as (row & save & H).
    exists row, save. by right.
  - destruct (IH _ _ _ _ _ _ E Hs' Halt Hrow) as (row & save & H). exists row, save. by right.
  - exists r, scanNone. by left.
  - exists r, ev. right. by left.
  - rewrite agent_text_cons in E. cbn [agent_part] in E. rewrite -sapp_assoc in E. rewrite sapp_cons in E.
    destruct (stop_unique _ _ _ _ _ _ _ _ _ _ _ _ _ Hs Hs' E) as (_ & _ & _ & ->). destruct Ho as [Ho|Ho]; [|congruence].
    cbn [shown_row] in Hrow. rewrite (proj1 (agents_only r ps Hps)) in Hrow. lia.
  - done.
Qed.


(** ** The line fits the terminal *)

Lemma rune_text_decode msg p x : p ∈ decode msg → ∃ q, decode (rune_text p +:+ x) = q :: decode x.
Proof.
  intros H. destruct p as [r b|c]; cbn [rune_text]; [|by eexists].
  exists (Rune r b). pose proof (decode_enc msg _ H eq_refl) as E. cbn [enc] in E. rewrite decode_app; [by rewrite E|by rewrite E].
Qed.
Lemma decode_runes l : (∀ p x, p ∈ l → ∃ q, decode (rune_text p +:+ x) = q :: decode x) → ∀ x, ∃ k, decode (sconcat (rune_text <$> l) +:+ x) = k ++ decode x ∧ length k = length l.
Proof.
  induction l as [|p l IH]; intros H x; [by exists []|]. destruct (IH ltac:(intros q y Hq; apply H; by right) x) as (k & Ek & Hk).
  change (sconcat (rune_text <$> p :: l)) with (rune_text p +:+ sconcat (rune_text <$> l)). rewrite -sapp_assoc.
  destruct (H p (sconcat (rune_text <$> l) +:+ x) ltac:(by left)) as [q Eq]. exists (q :: k). rewrite Eq Ek. split; [done|]. cbn. by rewrite Hk.
Qed.
Lemma Itoa_ascii n : is_ascii (Itoa n) = true.
Proof. apply (sforall_impl print_char); [|apply fmt_print]. unfold print_char. lia. Qed.
Lemma frame_count f : f ∈ spinnerFrames → ∀ x, rune_count (f +:+ x) = 1 + rune_count x.
Proof.
  intros H x. assert (forallb is_rune (decode f) = true ∧ rune_count f = 1) as [H1 H2]; [|by rewrite rune_count_app; [rewrite H2|]].
  unfold spinnerFrames in H. repeat (apply elem_of_cons in H as [->|H]; [split; by vm_compute|]). by apply elem_of_nil in H.
Qed.
(** In a terminal of any width, whatever the message (even one that is not
    UTF-8), the line leaves the last column free, so it never wraps. *)
Theorem startupLine_fits frame msg seconds cols : frame ∈ spinnerFrames → 0 < cols → rune_count (startupLine frame msg seconds cols) ≤ cols - 1.
Proof.
  intros Hf Hc. unfold startupLine. pose proof (frame_count frame Hf " ") as Hp. change (rune_count " ") with 1 in Hp. rewrite Hp.
  set (suffix := sconcat [" "; Itoa seconds; "s"]). assert (is_ascii suffix = true) as Hs.
  { unfold suffix. rewrite sconcat3. rewrite !is_ascii_app Itoa_ascii. done. }
  pose proof (rune_count_ascii suffix Hs) as Hn. assert (∃ rest, suffix = String " " rest) as [rest Er] by (unfold suffix; by eexists).
  assert (∀ m, rune_count (sconcat [frame +:+ " "; m; suffix]) = 2 + Z.of_nat (length (decode m)) + rune_count suffix) as Hw.
  { intros m. rewrite sconcat3 -sapp_assoc (frame_count frame Hf). rewrite sapp_cons. unfold rune_count. rewrite (decode_ascii_cons " "); [|done].
    change ("" +:+ (m +:+ suffix)) with (m +:+ suffix). rewrite Er decode_app_ascii; [|done]. rewrite -Er. cbn [length]. rewrite length_app. lia. }
  set (avail := cols - 1 - (1 + 1) - Z.of_nat (String.length suffix)). destruct (0 <? cols) eqn:Ec; [|lia]. cbn [andb].
  destruct (Z.ltb_spec avail (Z.of_nat (length (decode msg)))) as [Hl|Hl]; [|rewrite Hw; lia].
  destruct (Z.ltb_spec avail 0) as [Ha|Ha]; cbn [andb].
  - destruct (Z.ltb_spec 1 cols); [|change (rune_count "") with 0; lia]. pose proof (frame_count frame Hf "") as H1. rewrite sapp_nil_r in H1. change (rune_count "") with 0 in H1. lia.
  - destruct (Z.ltb_spec 1 avail) as [Ha'|Ha'].
    + destruct (decode_runes (take (Z.to_nat (avail - 1)) (decode msg))) with (x := "…") as (k & Ek & Hk).
      { intros p x Hp'. apply (rune_text_decode msg). apply elem_of_take in Hp' as (i & Hi & _). exact (list_elem_of_lookup_2 _ _ _ Hi). }
      set (m := sconcat (rune_text <$> _)) in *. pose proof (Hw (m +:+ "…")) as H0. rewrite sconcat3 -(sapp_assoc m) in H0. rewrite sconcat4 H0 Ek length_app Hk length_take.
      change (length (decode "…")) with 1%nat. lia.
    + pose proof (Hw "") as H0. rewrite sconcat3 in H0. change ("" +:+ suffix) with suffix in H0. rewrite H0. cbn [decode length]. lia.
Qed.

(** *** An agent that draws after a while *)

Definition seconds (n : Z) : view := {| cols := 40; rows := 24; now := n * second |}.
Definition enter : string := ESC +:+ "[?1049h".
(** The second chunk ends inside a sequence; the last one saves the cursor and prints. *)
Definition booting : list action := [Chunk enter (seconds 1); Chunk (ESC +:+ "[") (seconds 2); Tick (seconds 3) true; Chunk "2J" (seconds 4); Chunk (ESC +:+ "7hello") (seconds 5)].
Example boot_output : outputs (start "Starting" 0 newStartupStatus) booting =
  let line n := draw (seconds n) (if n =? 1 then 0 else 12) (sconcat [nth (Z.to_nat (n * 10 mod 10)) spinnerFrames ""; " Starting "; Itoa n; "s"]) in
  [enter +:+ line 1; ESC +:+ "["; ""; "2J" +:+ line 4; sconcat [ESC; "7"; eraseAfterSave 12 scanSaveDEC; "hello"]].
Proof. vm_compute. reflexivity. Qed.
Lemma startupLine_fits_witness : rune_count (startupLine "⠋" "Installing a-very-long-plugin-name for OpenCode…" 3 20) ≤ 20 - 1 ∧
  startupLine "⠋" "Installing a-very-long-plugin-name for OpenCode…" 3 20 = "⠋ Installing a-… 3s".
Proof. split; [|vm_compute; reflexivity]. apply (startupLine_fits "⠋" _ 3 20); [unfold spinnerFrames; by left|lia]. Defined.
