(* ===== verification/Tail.v ===== *)
(** * Following a log

    [src/internal/cmd/tail.go]: the reader of complete lines, the follower that keeps
    the file it reads open across a rotation, and [tailLog], which prints the
    last events and then the new ones. A follower is a program over the calls on
    files; a file is named by a number, as an inode. *)

From S2P Require Import Prelude GoStrings Prog.
Open Scope string_scope.
Open Scope list_scope.
Open Scope Z_scope.

Definition newline : string := sep1 (chr 10).
(** ** One poll *)

(** A log: its path, or its name inside [l_root] when that is set. *)
Record logFile := { l_root : string; l_path : string }.
Inductive tcall :=
| FStat (f : nat) | Seek (f : nat) (offset : Z) | ReadToEnd (f : nat) (offset : Z) | OpenLog (l : logFile) | SameFile (a b : nat) | CloseLog (f : nat)
| Write (line : string).
(** [ReadToEnd]: the bytes read and whether that ended with [io.EOF];
    [OpenLog]: an error tells whether there is no such file. *)
Definition tanswer (c : tcall) : Type :=
  match c with
  | FStat _ => result () Z
  | ReadToEnd _ _ => string * bool
  | OpenLog _ => result bool nat
  | SameFile _ _ => result () bool
  | CloseLog _ => ()
  | Seek _ _ | Write _ => result () ()
  end.
Notation titem := (item tcall tanswer).
Notation tprog := (prog tcall tanswer).
(** The complete lines of some bytes: what follows the last newline is left. *)
Definition complete (data : string) : list string := removelast (Split data newline).
Definition consumed (lines : list string) : Z := foldr (λ l n, Z.of_nat (String.length l) + 1 + n) 0 lines.
Definition nonblank (s : string) : Prop := s ≠ "".
#[export] Instance nonblank_dec s : Decision (nonblank s).
Proof. unfold nonblank. apply _. Defined.
(** What the function of a poll is called with. *)
Definition called (lines : list string) : list string := filter nonblank (TrimSpace <$> lines).
Record follower := { f_path : logFile; f_file : option nat; f_offset : Z }.
Definition new_follower (l : logFile) : follower := {| f_path := l; f_file := None; f_offset := 0 |}.
Inductive terr := ReadFailed | OpenFailed | StatFailed | WriteFailed.
Section Poll.
(** The function called for a line and the state it keeps. *)
Context {S : Type} (fn : string → S → tprog S).
Fixpoint each_line (lines : list string) (s : S) : tprog S :=
  match lines with [] => mret s | l :: lines => s ← fn l s; each_line lines s end.
(** The offset reached, or none when the file could not be read. *)
Definition readLines (f : nat) (offset : Z) (s : S) : tprog (S * option Z) :=
  size ← call (FStat f);
  match (size : result () Z) with
  | Err _ => mret (s, None)
  | Ok size =>
      let offset := if size <? offset then 0 else offset in
      sought ← call (Seek f offset);
      match (sought : result () ()) with
      | Err _ => mret (s, None)
      | Ok _ =>
          d ← call (ReadToEnd f offset);
          let lines := complete (d : string * bool).1 in
          s ← each_line (called lines) s;
          mret (s, if d.2 then Some (offset + consumed lines) else None)
      end
  end.
Definition with_file (fl : follower) (f : option nat) (n : Z) : follower := {| f_path := f_path fl; f_file := f; f_offset := n |}.
(** The file found at the path is read from its start. *)
Definition read_new (fl : follower) (f : nat) (s : S) : tprog (S * (result terr () * follower)) :=
  r ← readLines f 0 s;
  mret ((r : S * option Z).1, match r.2 with Some n => (Ok (), with_file fl (Some f) n) | None => (Err ReadFailed, with_file fl (Some f) 0) end).
Definition look_again (fl : follower) (s : S) : tprog (S * (result terr () * follower)) :=
  o ← call (OpenLog (f_path fl));
  match (o : result bool nat) with
  | Err missing => mret (s, (if missing then Ok () else Err OpenFailed, fl))
  | Ok f =>
      match f_file fl with
      | None => read_new fl f s
      | Some old =>
          same ← call (SameFile old f);
          match (same : result () bool) with
          | Ok false => _ ← call (CloseLog old); read_new fl f s
          | Ok true => _ ← call (CloseLog f); mret (s, (Ok (), fl))
          | Err _ => _ ← call (CloseLog f); mret (s, (Err StatFailed, fl))
          end
      end
  end.
Definition poll (fl : follower) (s : S) : tprog (S * (result terr () * follower)) :=
  match f_file fl with
  | None => look_again fl s
  | Some f =>
      r ← readLines f (f_offset fl) s;
      match (r : S * option Z).2 with
      | None => mret (r.1, (Err ReadFailed, fl))
      | Some n => look_again (with_file fl (Some f) n) r.1
      end
  end.
End Poll.
Definition close (fl : follower) : tprog () := match f_file fl with Some f => call (CloseLog f) | None => mret () end.

(** ** [tailLog] *)

Record logView := { v_lines : Z; v_follow : bool; v_json : bool }.
Section Tail.
(** [render] and what it remembers. *)
Context {S : Type} (render : S → string → string * S).
Definition out_of (v : logView) (raw text : string) : string := (if v_json v then raw else text) +:+ newline.
Definition keep_line (v : logView) (raw text : string) (shown : list string) : list string :=
  if String.eqb text "" || (v_lines v =? 0) then shown else
  let shown := shown ++ [out_of v raw text] in
  if (0 <? v_lines v) && (v_lines v <? Z.of_nat (length shown)) then tail shown else shown.
Definition keep (v : logView) (raw : string) (a : list string * S) : tprog (list string * S) :=
  let '(text, s) := render a.2 raw in mret (keep_line v raw text a.1, s).
Definition emit (v : logView) (raw : string) (s : S) : tprog S :=
  let '(text, s) := render s raw in
  if String.eqb text "" then mret s else _ ← call (Write (out_of v raw text)); mret s.
(** The files in order; the follower of the last one when it is kept. *)
Fixpoint poll_files (v : logView) (files : list logFile) (a : list string * S) : tprog (result terr () * (list string * S) * option follower) :=
  match files with
  | [] => mret (Ok (), a, None)
  | path :: files =>
      r ← poll (keep v) (new_follower path) a;
      let '(a, (e, fl)) := (r : (list string * S) * (result terr () * follower)) in
      let last := match files with [] => v_follow v | _ => false end in
      _ ← (if last then mret () else close fl);
      match e with
      | Err e => mret (Err e, a, if last then Some fl else None)
      | Ok _ => if last then mret (Ok (), a, Some fl) else poll_files v files a
      end
  end.
Fixpoint write_all (l : list string) : tprog (result terr ()) :=
  match l with
  | [] => mret (Ok ())
  | x :: l => r ← call (Write x); match (r : result () ()) with Ok _ => write_all l | Err _ => mret (Err WriteFailed) end
  end.
(** The loop until the context is done, after [ticks] ticks. *)
Fixpoint follow (v : logView) (ticks : nat) (fl : follower) (s : S) : tprog (result terr () * follower) :=
  match ticks with
  | O => mret (Ok (), fl)
  | Datatypes.S ticks =>
      r ← poll (emit v) fl s;
      let '(s, (e, fl)) := (r : S * (result terr () * follower)) in
      match e with Err e => mret (Err e, fl) | Ok _ => follow v ticks fl s end
  end.
Definition tailLog (v : logView) (files : list logFile) (ticks : nat) (s0 : S) : tprog (result terr ()) :=
  p ← poll_files v files ([], s0);
  let '(e, (shown, s), last) := (p : result terr () * (list string * S) * option follower) in
  match e with
  | Err e => _ ← match last with Some fl => close fl | None => mret () end; mret (Err e)
  | Ok _ =>
      w ← write_all shown;
      match (w : result terr ()), last with
      | Ok _, Some fl => r ← follow v ticks fl s; _ ← close (r : result terr () * follower).2; mret r.1
      | w, Some fl => _ ← close fl; mret w
      | w, None => mret w
      end
  end.
End Tail.

(** ** Which lines are shown *)

(** What each event prints, empty text left out. *)
Fixpoint rendered {S} (render : S → string → string * S) (v : logView) (s : S) (raws : list string) : list string :=
  match raws with
  | [] => []
  | raw :: raws => let '(text, s) := render s raw in (if String.eqb text "" then [] else [out_of v raw text]) ++ rendered render v s raws
  end.
Definition last_n (n : Z) (l : list string) : list string := if n <? 0 then l else drop (length l - Z.to_nat n) l.
Lemma keep_line_last v raw text l : keep_line v raw text (last_n (v_lines v) l) = last_n (v_lines v) (l ++ if String.eqb text "" then [] else [out_of v raw text]).
Proof.
  unfold keep_line. destruct (String.eqb text ""); cbn [orb]; [by rewrite app_nil_r|].
  unfold last_n. destruct (Z.eqb_spec (v_lines v) 0) as [E|E].
  - rewrite E. cbn [Z.ltb Z.compare]. change (Z.to_nat 0) with 0%nat. rewrite !Nat.sub_0_r !drop_all. done.
  - rewrite length_app. cbn [length]. destruct (Z.ltb_spec (v_lines v) 0) as [Hn|Hn].
    + destruct (Z.ltb_spec 0 (v_lines v)); [lia|]. done.
    + destruct (Z.ltb_spec 0 (v_lines v)) as [_|]; [|lia]. cbn [andb]. rewrite length_app length_drop. cbn [length].
      destruct (Z.ltb_spec (v_lines v) (Z.of_nat (length l - (length l - Z.to_nat (v_lines v)) + 1))) as [Hl|Hl].
      * rewrite drop_app_le; [|lia]. replace (length l + 1 - Z.to_nat (v_lines v))%nat with (Datatypes.S (length l - Z.to_nat (v_lines v)))%nat by lia.
        destruct (drop (length l - Z.to_nat (v_lines v)) l) as [|y k] eqn:Ed.
        { assert (length (drop (length l - Z.to_nat (v_lines v)) l) = 0)%nat as H0 by (by rewrite Ed). rewrite length_drop in H0. lia. }
        cbn [tail app]. f_equal. rewrite -(skipn_skipn 1). by rewrite Ed.
      * rewrite drop_app_le; [|lia]. f_equal. f_equal. lia.
Qed.

Lemma keep_window {S} (render : S → string → string * S) v raws l s env h : ∃ s',
  exec env (each_line (keep render v) raws (last_n (v_lines v) l, s)) h = ((last_n (v_lines v) (l ++ rendered render v s raws), s'), h).
Proof.
  revert l s. induction raws as [|raw raws IH]; intros l s; [exists s; cbn; by rewrite app_nil_r|]. cbn [each_line rendered]. rewrite exec_bind.
  assert (exec env (keep render v raw (last_n (v_lines v) l, s)) h = ((keep_line v raw (render s raw).1 (last_n (v_lines v) l), (render s raw).2), h)) as -> by (unfold keep; cbn; by destruct (render s raw)).
  destruct (render s raw) as [text s1]. cbn [fst snd]. rewrite keep_line_last. destruct (IH (l ++ if String.eqb text "" then [] else [out_of v raw text]) s1) as (s' & E).
  exists s'. rewrite E. by rewrite -app_assoc.
Qed.

(** ** A log that is written and rotated *)

(** The contents of the files the log had, the newest last; between the two
    calls of a rotation its path names none of them. *)
Record world := { gens : list string; present : bool }.
Definition content (w : world) (f : nat) : string := default "" (gens w !! f).
Definition answer (w : world) (c : tcall) : tanswer c :=
  match c with
  | FStat f => Ok (Z.of_nat (String.length (content w f)))
  | Seek _ _ => Ok ()
  | ReadToEnd f offset => (sdrop (Z.to_nat offset) (content w f), true)
  | OpenLog _ => if present w then Ok (pred (length (gens w))) else Err true
  | SameFile a b => Ok (a =? b)%nat
  | CloseLog _ => ()
  | Write _ => Ok ()
  end.
Inductive event := Append (text : string) | Rename | Create | Poll.
Definition text_of (lines : list string) : string := foldr (λ l t, l +:+ newline +:+ t) "" lines.
Definition newest (w : world) : nat := pred (length (gens w)).
Definition wstep (w : world) (e : event) : world :=
  match e with
  | Append t => if present w then {| gens := alter (λ c, c +:+ t +:+ newline) (newest w) (gens w); present := true |} else w
  | Rename => {| gens := gens w; present := false |}
  | Create => if present w then w else {| gens := gens w ++ [""]; present := true |}
  | Poll => w
  end.
(** The lines of each poll, with a follower that collects them. *)
Definition collect (raw : string) (l : list string) : tprog (list string) := mret (l ++ [raw]).
(** A program whose calls see one state of the log. *)
Fixpoint eval {A} (w : world) (p : tprog A) : A := match p with Ret a => a | Do c k => eval w (k (answer w c)) end.
Definition poll_now (w : world) (fl : follower) : list string * (result terr () * follower) := eval w (poll collect fl []).
Fixpoint polled (w : world) (fl : follower) (events : list event) : list (list string) :=
  match events with
  | [] => []
  | Poll :: events => (poll_now w fl).1 :: polled w (poll_now w fl).2.2 events
  | e :: events => polled (wstep w e) fl events
  end.
(** What was appended since the last poll. *)
Fixpoint appended (w : world) (unread : list string) (events : list event) : list (list string) :=
  match events with
  | [] => []
  | Poll :: events => called unread :: appended w [] events
  | Append t :: events => appended (wstep w (Append t)) (if present w then unread ++ [t] else unread) events
  | e :: events => appended (wstep w e) unread events
  end.
(** At most one rotation between two polls, and lines without newlines. *)
Fixpoint paced (may_rotate : bool) (events : list event) : Prop :=
  match events with
  | [] => True
  | Append t :: events => has_char (chr 10) t = false ∧ paced may_rotate events
  | Rename :: events => may_rotate = true ∧ paced may_rotate events
  | Create :: events => paced false events
  | Poll :: events => paced true events
  end.
Lemma removelast_cons {A} (x : A) l : l ≠ [] → removelast (x :: l) = x :: removelast l.
Proof. by destruct l. Qed.
Lemma complete_text lines : Forall (λ l, has_char (chr 10) l = false) lines → complete (text_of lines) = lines.
Proof.
  unfold complete, newline. induction 1 as [|l lines Hl _ IH]; [done|]. change (text_of (l :: lines)) with (l +:+ String (chr 10) (text_of lines)).
  rewrite Split_cons; [|done]. rewrite removelast_cons; [by rewrite IH|]. apply split_fuel_ne.
Qed.
Lemma text_of_app a b : text_of (a ++ b) = text_of a +:+ text_of b.
Proof. induction a as [|x a IH]; [done|]. cbn [text_of foldr app]. fold (text_of (a ++ b)) (text_of a). by rewrite IH !sapp_assoc. Qed.
Lemma consumed_text lines : consumed lines = Z.of_nat (String.length (text_of lines)).
Proof.
  induction lines as [|l lines IH]; [done|]. cbn [consumed text_of foldr]. fold (consumed lines) (text_of lines). rewrite !slength_app IH. cbn. lia.
Qed.
Lemma eval_exec {A} w (p : tprog A) h : (exec (λ c _, answer w c) p h).1 = eval w p.
Proof. revert h. induction p as [a|c k IH]; intros h; cbn; [done|apply IH]. Qed.
Lemma eval_bind {A B} w (p : tprog A) (f : A → tprog B) : eval w (p ≫= f) = eval w (f (eval w p)).
Proof. induction p as [a|c k IH]; cbn; [done|apply IH]. Qed.
Lemma each_collect w lines l : eval w (each_line collect lines l) = l ++ lines.
Proof.
  revert l. induction lines as [|x lines IH]; intros l; [cbn; by rewrite app_nil_r|]. cbn [each_line]. rewrite eval_bind. cbn. rewrite IH. by rewrite -app_assoc.
Qed.
Definition plain (lines : list string) : Prop := Forall (λ l, has_char (chr 10) l = false) lines.
Lemma read_world w f a b l : content w f = text_of (a ++ b) → plain b →
  eval w (readLines collect f (Z.of_nat (String.length (text_of a))) l) = (l ++ called b, Some (Z.of_nat (String.length (text_of (a ++ b))))).
Proof.
  intros Hc Hb. unfold readLines. rewrite eval_bind. cbn [eval call answer]. rewrite Hc text_of_app slength_app.
  destruct (Z.ltb_spec (Z.of_nat (String.length (text_of a) + String.length (text_of b))) (Z.of_nat (String.length (text_of a)))); [lia|].
  rewrite eval_bind. cbn [eval call answer]. rewrite eval_bind. cbn [eval call answer fst snd]. rewrite Nat2Z.id Hc text_of_app sdrop_app complete_text; [|done].
  rewrite eval_bind each_collect. cbn. f_equal. f_equal. rewrite consumed_text. lia.
Qed.
(** What the follower has read, in a log of lines. *)
Inductive following : world → follower → list string → bool → Prop :=
| following_none w fl : f_file fl = None → present w = false → following w fl [] true
| following_new w fl unread : f_file fl = None → present w = true → content w (newest w) = text_of unread → plain unread → gens w ≠ [] → following w fl unread false
| following_open w fl f a unread : f_file fl = Some f → f = newest w → content w f = text_of (a ++ unread) → plain unread → gens w ≠ [] →
    f_offset fl = Z.of_nat (String.length (text_of a)) → following w fl unread true
| following_next w fl f a b c : f_file fl = Some f → f ≠ newest w → present w = true → content w f = text_of (a ++ b) → plain b → content w (newest w) = text_of c →
    plain c → gens w ≠ [] → f_offset fl = Z.of_nat (String.length (text_of a)) → following w fl (b ++ c) false.
Lemma called_app a b : called (a ++ b) = called a ++ called b.
Proof. unfold called. by rewrite fmap_app filter_app. Qed.
Lemma read_new_world w fl l c : present w = true → content w (newest w) = text_of c → plain c →
  eval w (read_new collect fl (newest w) l) = (l ++ called c, (Ok (), with_file fl (Some (newest w)) (Z.of_nat (String.length (text_of c))))).
Proof.
  intros Hp Hc Hl. unfold read_new. rewrite eval_bind. change 0 with (Z.of_nat (String.length (text_of []))). rewrite (read_world w (newest w) [] c l Hc Hl). done.
Qed.
(** A poll hands out what is unread, and nothing is unread any more. *)
Lemma poll_reads w fl unread r : following w fl unread r →
  (poll_now w fl).1 = called unread ∧ following w (poll_now w fl).2.2 [] true.
Proof.
  intros H. unfold poll_now, poll. destruct H as [w fl Hf Hp|w fl unread Hf Hp Hc Hl Hg|w fl f a unread Hf -> Hc Hl Hg Ho|w fl f a b c Hf Hn Hp Hc Hb Hc' Hl Hg Ho].
  - rewrite Hf. unfold look_again. rewrite eval_bind. cbn. rewrite Hp. cbn. split; [done|]. by apply following_none.
  - rewrite Hf. unfold look_again. rewrite eval_bind. cbn [eval call answer]. rewrite Hp Hf. fold (newest w). rewrite (read_new_world w fl [] unread Hp Hc Hl). cbn. split; [done|].
    apply (following_open w _ (newest w) unread []); cbn; try done. by rewrite app_nil_r.
  - rewrite Hf. rewrite eval_bind Ho (read_world w (newest w) a unread [] Hc Hl). cbn [fst snd]. unfold look_again. rewrite eval_bind. cbn [eval call answer].
    assert (following w (with_file fl (Some (newest w)) (Z.of_nat (String.length (text_of (a ++ unread))))) [] true) as Hnext.
    { apply (following_open w _ (newest w) (a ++ unread) []); cbn; try done. by rewrite app_nil_r. }
    destruct (present w); [|by cbn]. cbn [with_file f_file]. rewrite eval_bind. cbn [eval call answer]. fold (newest w). rewrite Nat.eqb_refl. by cbn.
  - rewrite Hf. rewrite eval_bind Ho (read_world w f a b [] Hc Hb). cbn [fst snd]. unfold look_again. rewrite eval_bind. cbn [eval call answer]. rewrite Hp. cbn [with_file f_file].
    rewrite eval_bind. cbn [eval call answer]. fold (newest w). destruct (Nat.eqb_spec f (newest w)) as [|_]; [done|]. rewrite eval_bind. cbn [eval call answer].
    rewrite (read_new_world w _ _ c Hp Hc' Hl). rewrite called_app. cbn. split; [done|]. apply (following_open w _ (newest w) c []); cbn; try done. by rewrite app_nil_r.
Qed.
Lemma append_content w t f : gens w ≠ [] → present w = true →
  content (wstep w (Append t)) f = if (f =? newest w)%nat then content w f +:+ t +:+ newline else content w f.
Proof.
  intros Hg Hp. unfold content. cbn [wstep]. rewrite Hp. cbn [gens]. destruct (Nat.eqb_spec f (newest w)) as [->|Hn].
  - rewrite list_lookup_alter_eq. destruct (gens w !! newest w) eqn:E; [done|]. apply lookup_ge_None in E. unfold newest in E. destruct (gens w); [done|]. cbn in E. lia.
  - rewrite list_lookup_alter_ne; [done|congruence].
Qed.
Lemma append_newest w t : newest (wstep w (Append t)) = newest w ∧ present (wstep w (Append t)) = present w ∧ (gens w ≠ [] → gens (wstep w (Append t)) ≠ []).
Proof.
  unfold newest. cbn [wstep]. destruct (present w) eqn:E; [|done]. cbn [gens present]. rewrite length_alter. split; [done|]. split; [done|].
  intros H H'. apply H, length_zero_iff_nil. apply (f_equal length) in H'. by rewrite length_alter in H'.
Qed.
Lemma text_of_snoc a t : text_of (a ++ [t]) = text_of a +:+ t +:+ newline.
Proof. rewrite text_of_app. cbn. by rewrite sapp_nil_r. Qed.
Lemma plain_snoc a t : plain a → has_char (chr 10) t = false → plain (a ++ [t]).
Proof. intros H Ht. apply Forall_app. split; [done|]. by constructor. Qed.
Lemma append_following w fl unread r t : following w fl unread r → has_char (chr 10) t = false →
  following (wstep w (Append t)) fl (if present w then unread ++ [t] else unread) r.
Proof.
  intros H Ht. destruct (present w) eqn:Hp; [|by cbn [wstep]; rewrite Hp]. destruct (append_newest w t) as (En & Ep & Eg).
  destruct H as [w fl Hf Hp'|w fl unread Hf Hp' Hc Hl Hg|w fl f a unread Hf -> Hc Hl Hg Ho|w fl f a b c Hf Hn Hp' Hc Hb Hc' Hl Hg Ho]; [congruence|..];
    pose proof (append_content w t) as Hcont; specialize (Eg Hg).
  - apply following_new; [done|by rewrite Ep| |by apply plain_snoc|done]. rewrite En Hcont // Nat.eqb_refl Hc. by rewrite text_of_snoc.
  - apply (following_open _ _ (newest w) a); [done|done| |by apply plain_snoc|done|done]. rewrite Hcont // Nat.eqb_refl Hc. rewrite app_assoc. by rewrite text_of_snoc.
  - rewrite -app_assoc. apply (following_next _ _ f a b (c ++ [t])); [done|by rewrite En|by rewrite Ep| |done| |by apply plain_snoc|done|done].
    + rewrite Hcont //. by destruct (Nat.eqb_spec f (newest w)).
    + rewrite En Hcont // Nat.eqb_refl Hc'. by rewrite text_of_snoc.
Qed.
Lemma rename_following w fl unread : following w fl unread true → following (wstep w Rename) fl unread true.
Proof.
  intros H. remember true as r eqn:Er. destruct H as [w fl Hf Hp|w fl unread Hf Hp Hc Hl Hg|w fl f a unread Hf -> Hc Hl Hg Ho|w fl f a b c]; try done.
  - by apply following_none.
  - by apply (following_open _ _ (newest w) a).
Qed.
Lemma create_following w fl unread : present w = false → following w fl unread true → following (wstep w Create) fl unread false.
Proof.
  intros Hp H. remember true as r eqn:Er. assert (newest (wstep w Create) = length (gens w) ∧ content (wstep w Create) (length (gens w)) = "" ∧
    (∀ f, (f < length (gens w))%nat → content (wstep w Create) f = content w f) ∧ present (wstep w Create) = true ∧ gens (wstep w Create) ≠ []) as (En & E0 & Ef & Ep & Eg).
  { cbn [wstep]. rewrite Hp. unfold newest, content. cbn [gens present]. rewrite length_app Nat.add_1_r. split; [done|]. split; [by rewrite lookup_app_r // Nat.sub_diag|].
    split; [intros f Hf; by rewrite lookup_app_l|]. split; [done|]. by destruct (gens w). }
  destruct H as [w fl Hf Hp'|w fl unread Hf Hp' Hc Hl Hg|w fl f a unread Hf -> Hc Hl Hg Ho|w fl f a b c]; try done.
  - apply following_new; [done|done|by rewrite En E0|constructor|done].
  - assert (newest w < length (gens w))%nat as Hlt by (unfold newest; destruct (gens w); [done|cbn; lia]). rewrite -(app_nil_r unread).
    apply (following_next _ _ (newest w) a unread []); [done|rewrite En; lia|done|by rewrite Ef|done|by rewrite En E0|constructor|done|done].
Qed.
Lemma paced_weak events r : paced false events → paced r events.
Proof.
  revert r. induction events as [|e events IH]; intros r H; [done|]. destruct e; cbn [paced] in *; [|by destruct H|done|done]. destruct H as [H1 H2]. by split; [|apply IH].
Qed.
Lemma following_created w fl unread r : present w = true → following w fl unread r → following (wstep w Create) fl unread r.
Proof. intros Hp. cbn [wstep]. by rewrite Hp. Qed.

(** The rotation of a log whose path is free while a file is being replaced. *)
Lemma polled_appended w fl unread r events : following w fl unread r → (r = false → present w = true) → paced r events → polled w fl events = appended w unread events.
Proof.
  revert w fl unread r. induction events as [|e events IH]; intros w fl unread r H Hr Hp; [done|]. destruct e as [t| | |]; cbn [polled appended paced] in Hp |- *.
  - destruct Hp as [Ht Hp]. apply (IH _ _ _ r); [by apply append_following| |done]. intros E. destruct (append_newest w t) as (_ & -> & _). auto.
  - destruct Hp as [-> Hp]. apply (IH _ _ _ true); [by apply rename_following|done|done].
  - destruct (present w) eqn:Ew.
    + apply (IH _ _ _ r); [by apply following_created|by cbn [wstep]; rewrite Ew|by apply paced_weak].
    + destruct r; [|by specialize (Hr eq_refl)]. apply (IH _ _ _ false); [by apply create_following| |done]. intros _. cbn. by rewrite Ew.
  - destruct (poll_reads w fl unread r H) as [-> H']. f_equal. by apply (IH _ _ _ true).
Qed.

Definition written (i : titem) : option string := match i with existT (Write line) _ => Some line | _ => None end.
Definition writes (h : list titem) : list string := omap written h.
Lemma writes_app a b : writes (a ++ b) = writes a ++ writes b.
Proof. apply omap_app. Qed.
Lemma write_all_writes w l h : (exec (λ c _, answer w c) (write_all l) h).1 = Ok () ∧ writes (exec (λ c _, answer w c) (write_all l) h).2 = writes h ++ l.
Proof.
  revert h. induction l as [|x l IH]; intros h; [split; [done|]; cbn; by rewrite app_nil_r|]. cbn. destruct (IH (h ++ [existT (Write x) (Ok ())])) as [H1 H2].
  split; [done|]. rewrite H2 writes_app. by rewrite -app_assoc.
Qed.
(** The first poll of a file: its lines go through the window. *)
Lemma first_window {S} (render : S → string → string * S) v w l lines s : present w = true → content w (newest w) = text_of lines → plain lines →
  ∃ s' h, exec (λ c _, answer w c) (poll (keep render v) (new_follower l) ([], s)) [] =
    ((last_n (v_lines v) (rendered render v s (called lines)), s', (Ok (), with_file (new_follower l) (Some (newest w)) (Z.of_nat (String.length (text_of lines))))), h) ∧ writes h = [].
Proof.
  intros Hp Hc Hl. unfold poll. cbn [f_file new_follower]. unfold look_again. rewrite exec_bind. cbn [exec call fst snd answer]. rewrite Hp. cbn [f_file new_follower].
  unfold read_new. rewrite exec_bind. unfold readLines. rewrite exec_bind. cbn [exec call fst snd answer]. fold (newest w). rewrite Hc.
  assert ((Z.of_nat (String.length (text_of lines)) <? 0) = false) as -> by (apply Z.ltb_ge; lia). rewrite exec_bind. cbn [exec call fst snd answer].
  rewrite exec_bind. cbn [exec call fst snd answer]. change (Z.to_nat 0) with 0%nat. cbn [sdrop]. rewrite Hc complete_text; [|done]. rewrite exec_bind.
  assert ([] = last_n (v_lines v) []) as Hnil by (unfold last_n; by destruct (_ <? 0)).
  match goal with |- context [exec _ (each_line _ _ _) ?h] => destruct (keep_window render v (called lines) [] s (λ c _, answer w c) h) as (s' & E) end.
  rewrite -Hnil in E. rewrite E. cbn. eexists s', _. split; [by rewrite consumed_text|done].
Qed.

(** C99. What is printed of a log of complete lines. Without following,
    [tailLog] prints exactly the last [lines] of the events that render to a text,
    in order (all of them when [lines] is negative). A follower hands out every
    line exactly once and in order: first those the log has, then at each
    poll those appended since the last one, also across a rotation, when at most one
    rotation happens between two polls and none while a poll is under way. *)
Theorem tail_complete {S} (render : S → string → string * S) v w l lines events s :
  present w = true → gens w ≠ [] → content w (newest w) = text_of lines → plain lines → paced true events →
  polled w (new_follower l) (Poll :: events) = called lines :: appended w [] events ∧
  (v_follow v = false → let out := exec (λ c _, answer w c) (tailLog render v [l] 0 s) [] in
     out.1 = Ok () ∧ writes out.2 = last_n (v_lines v) (rendered render v s (called lines))).
Proof.
  intros Hp Hg Hc Hl Hev. split.
  - apply (polled_appended w (new_follower l) lines false (Poll :: events)); [by apply following_new|done|done].
  - intros Hf out. subst out. unfold tailLog. rewrite exec_bind. cbn [poll_files]. rewrite exec_bind.
    destruct (first_window render v w l lines s Hp Hc Hl) as (s' & h & E & Hh). rewrite E. rewrite Hf. cbn.
    rewrite exec_bind. match goal with |- context [exec _ (write_all ?x) ?h'] => destruct (write_all_writes w x h') as [H1 H2] end.
    rewrite H1. split; [done|]. rewrite writes_app Hh in H2. exact H2.
Qed.

(** *** A log that is rotated between two polls, and one rotated during a poll *)

Definition the_log : logFile := {| l_root := ""; l_path := "/state/traffic.jsonl" |}.
Definition upper (n : nat) (raw : string) : string * nat := (if String.eqb raw "hide" then "" else "> " +:+ raw, Datatypes.S n).
Definition one_file : world := {| gens := ["a" +:+ newline +:+ " " +:+ newline +:+ "hide" +:+ newline +:+ "b" +:+ newline]; present := true |}.
Definition busy : list event := [Append "c"; Rename; Poll; Create; Append " d"; Poll; Poll; Append "e"; Rename; Create; Append "f"; Poll].
Lemma tail_complete_witness : polled one_file (new_follower the_log) (Poll :: busy) = [["a"; "hide"; "b"]; ["c"]; ["d"]; []; ["e"; "f"]] ∧
  writes (exec (λ c _, answer one_file c) (tailLog upper {| v_lines := 1; v_follow := false; v_json := false |} [the_log] 0 0%nat) []).2 = ["> b" +:+ newline].
Proof.
  destruct (tail_complete upper {| v_lines := 1; v_follow := false; v_json := false |} one_file the_log ["a"; " "; "hide"; "b"] busy 0%nat) as [H1 H2];
    [done|done|vm_compute; reflexivity|by repeat constructor|by repeat split|].
  split; [rewrite H1; vm_compute; reflexivity|]. destruct (H2 eq_refl) as [_ H]. rewrite H. vm_compute. reflexivity.
Defined.
(** The line "b" is written and the log rotated after the open file was read to its end
    and before the path is opened: no poll hands it out. *)
Definition before_rotation : world := {| gens := ["a" +:+ newline]; present := true |}.
Definition after_rotation : world := {| gens := ["a" +:+ newline +:+ "b" +:+ newline; "c" +:+ newline]; present := true |}.
Definition racing (c : tcall) (h : list titem) : tanswer c := answer (if (length h <? 3)%nat then before_rotation else after_rotation) c.
Example rotation_race : let fl := (poll_now before_rotation (new_follower the_log)).2.2 in
  let p := (exec racing (poll collect fl []) []).1 in p.1 = ["c"] ∧ (poll_now after_rotation p.2.2).1 = [].
Proof. vm_compute. done. Qed.

(** ** Reading a bounded regular file *)

Inductive rcall := OpenNonblocking (name : string) | StatOpen | ReadAtMost (limit : Z) | CloseOpen.
Definition ranswer (c : rcall) : Type :=
  match c with OpenNonblocking _ => result () () | StatOpen => result () (bool * Z) | ReadAtMost _ => result () string | CloseOpen => () end.
Notation ritem := (item rcall ranswer).
Inductive rerr := NotOpened | NotRegular | TooLarge | Unread.
Definition readRegular (name : string) (maxSize : Z) : io rcall ranswer rerr string :=
  _ ← wrap (λ _, NotOpened) (call (OpenNonblocking name));
  finally (
    info ← wrap (λ _, Unread) (call StatOpen);
    _ ← check (info : bool * Z).1 NotRegular;
    _ ← check (info.2 <=? maxSize) TooLarge;
    data ← wrap (λ _, Unread) (call (ReadAtMost (maxSize + 1)));
    _ ← check (Z.of_nat (String.length data) <=? maxSize) TooLarge;
    mret data) (call CloseOpen).
(** Only a regular file is read, opened so that it cannot block, and what is returned is
    within the bound even when the file grew after it was measured. *)
Lemma readRegular_bounded name maxSize env : let out := exec env (readRegular name maxSize) [] in
  (∀ data, out.1 = Ok data → Z.of_nat (String.length data) ≤ maxSize) ∧
  (∀ h1 limit (x : ranswer (ReadAtMost limit)) h2, out.2 = h1 ++ (existT (ReadAtMost limit) x : ritem) :: h2 →
     ∃ size, (existT StatOpen (Ok (true, size)) : ritem) ∈ h1 ∧ size ≤ maxSize).
Proof.
  intros out. pose (Q := λ (data : string) (_ : list ritem), Z.of_nat (String.length data) ≤ maxSize).
  pose (Pre := λ (h : list ritem) (c : rcall), match c with ReadAtMost _ => ∃ size, (existT StatOpen (Ok (true, size)) : ritem) ∈ h ∧ size ≤ maxSize | _ => True end).
  assert (after Pre (readRegular name maxSize) [] Q) as Hs.
  { cbn. split; [done|]. intros [[]|]; [|done]. cbn. split; [done|]. intros [[regular size]|]; cbn; [|by split]. destruct regular; cbn; [|by split].
    destruct (Z.leb_spec size maxSize) as [Hl|Hl]; cbn; [|by split]. split; [exists size; split; [by right; left|done]|].
    intros [data|]; cbn; [|by split]. destruct (Z.leb_spec (Z.of_nat (String.length data)) maxSize); by split. }
  destruct (exec_safe Pre env _ _ _ Hs) as (t & Ht & HQ & Hp). cbn in Ht. fold out in Ht, HQ, Hp. split.
  - intros data E. by rewrite E in HQ.
  - intros h1 limit x h2 E. rewrite Ht in E. exact (Hp h1 (ReadAtMost limit) x h2 E).
Qed.
