(* ===== verification/AddrText.v ===== *)
(** * Addresses as text

    The text of an address in packages [net] and [net/netip] ([IP.String],
    [Addr.String], [IPNet.String]), and that parsing it gives the address back:
    the hosts and networks [vmPolicy] of [src/internal/cmd/vmbackend_unix.go] writes are
    those the broker reads. *)

From S2P Require Import Prelude GoStrings GoStrconv NetAddr.
Open Scope string_scope.
Open Scope list_scope.
Open Scope Z_scope.

(** ** Printing *)

Definition string4 (a : Z) : string :=
  Itoa (a / 2 ^ 24 mod 256) +:+ "." +:+ Itoa (a / 2 ^ 16 mod 256) +:+ "." +:+ Itoa (a / 2 ^ 8 mod 256) +:+ "." +:+ Itoa (a mod 256).
Definition hex_char (d : Z) : ascii := if d <? 10 then chr (48 + d) else chr (87 + d).
(** [appendHex]: no leading zeros. *)
Definition hex16 (x : Z) : string :=
  let d3 := x / 4096 in let d2 := x / 256 mod 16 in let d1 := x / 16 mod 16 in let d0 := x mod 16 in
  let s0 := String (hex_char d0) "" in
  if 4096 <=? x then String (hex_char d3) (String (hex_char d2) (String (hex_char d1) s0)) else
  if 256 <=? x then String (hex_char d2) (String (hex_char d1) s0) else
  if 16 <=? x then String (hex_char d1) s0 else s0.
(** The 16-bit groups of an IPv6 address, the first one first. *)
Fixpoint groups_rec (k : nat) (a : Z) (acc : list Z) : list Z :=
  match k with O => acc | S k => groups_rec k (a / 65536) (a mod 65536 :: acc) end.
Definition groups (a : Z) : list Z := groups_rec 8 a [].
Fixpoint zeros (gs : list Z) : nat := match gs with 0 :: gs => S (zeros gs) | _ => O end.
(** The first longest run of at least two zero groups: its start and length. *)
Fixpoint zero_run (i : nat) (gs : list Z) (best : option (nat * nat)) : option (nat * nat) :=
  match gs with
  | [] => best
  | _ :: rest =>
      let l := zeros gs in
      let longer := match best with Some (_, b) => (b <? l)%nat | None => (2 <=? l)%nat end in
      zero_run (S i) rest (if longer then Some (i, l) else best)
  end.
Definition string6 (a : Z) : string :=
  let gs := groups a in
  match zero_run 0 gs None with
  | Some (i, l) => Join (hex16 <$> take i gs) ":" +:+ "::" +:+ Join (hex16 <$> drop (i + l) gs) ":"
  | None => Join (hex16 <$> gs) ":"
  end.
(** [IP.String] of package [net] for an address of 4 or 16 bytes. *)
Definition IP_String (a : Addr) : string :=
  match To4 a with Some v => string4 v | None => string6 (addr_num a) end.
(** [IPNet.String] of the network of [ParseCIDR]: an IPv4-mapped network is
    written as an IPv4 one. *)
Definition IPNet_String (a : Addr) (n : Z) : string :=
  let net := px_ip (Masked {| px_ip := a; px_bits := n |}) in
  match a, To4 net with
  | Addr6 _ _, Some v => string4 v +:+ "/" +:+ Itoa (n - 96)
  | _, _ => IP_String net +:+ "/" +:+ Itoa n
  end.
Example AddrText_ex : map (λ s, match ParseCIDR s with Some (a, n) => IPNet_String a n | None => "" end)
    ["10.1.2.3/8"; "0.0.0.0/0"; "::ffff:10.1.2.3/104"; "2001:db8::1/32"; "fd00:0:0:1:0:0:0:1/128"; "::/0"; "1:2:3:4:5:6:7:8/128"; "1:0:0:4:5:0:0:8/127"] =
  ["10.0.0.0/8"; "0.0.0.0/0"; "10.0.0.0/8"; "2001:db8::/32"; "fd00:0:0:1::1/128"; "::/0"; "1:2:3:4:5:6:7:8/128"; "1::4:5:0:0:8/127"].
Proof. vm_compute. reflexivity. Qed.

(** ** IPv4 *)

Lemma v4_byte b r first prev pos acc : 0 ≤ b < 256 →
  v4_loop (Itoa b +:+ r) first prev 0 0 pos acc = v4_loop r false false b (Z.of_nat (String.length (Itoa b))) pos acc.
Proof.
  intros Hb. assert (∃ n, b = Z.of_nat n ∧ (n < 256)%nat) as (n & -> & Hn) by (exists (Z.to_nat b); lia).
  do 256 (destruct n as [|n]; [reflexivity|]). lia.
Qed.
Lemma Itoa_digits b : 0 ≤ b → sforall is_digit (Itoa b) = true ∧ Itoa b ≠ "".
Proof.
  intros Hb. unfold Itoa. destruct (Z.ltb_spec b 0); [lia|]. unfold fmt_nat. split; [|apply digits_ne]. by apply digits_shape.
Qed.
Lemma addr_kind_skip s r : sforall (λ c, negb (Ascii.eqb c "." || Ascii.eqb c ":" || Ascii.eqb c "%")) s = true → addr_kind (s +:+ r) = addr_kind r.
Proof.
  induction s as [|c s IH]; [done|]. cbn [sforall]. intros [Hc Hs]%andb_prop. rewrite sapp_cons. cbn [addr_kind]. apply negb_true_iff in Hc. rewrite Hc. by apply IH.
Qed.
Lemma digit_not c : is_digit c = true → negb (Ascii.eqb c "." || Ascii.eqb c ":" || Ascii.eqb c "%") = true.
Proof.
  intros H. unfold is_digit, between in H. change (code "0") with 48 in H. change (code "9") with 57 in H.
  destruct (Ascii.eqb_spec c "."), (Ascii.eqb_spec c ":"), (Ascii.eqb_spec c "%"); subst; done.
Qed.
Lemma v4_num a : 0 ≤ a < 2 ^ 32 → ((a / 2 ^ 24 mod 256 * 256 + a / 2 ^ 16 mod 256) * 256 + a / 2 ^ 8 mod 256) * 256 + a mod 256 = a.
Proof. intros H. change (2 ^ 32) with 4294967296 in H. change (2 ^ 24) with 16777216. change (2 ^ 16) with 65536. change (2 ^ 8) with 256. Z.div_mod_to_equations. lia. Qed.
Lemma ParseAddr_string4 a : 0 ≤ a < 2 ^ 32 → ParseAddr (string4 a) = Some (Addr4 a).
Proof.
  intros Ha. unfold ParseAddr, string4.
  assert (∀ x, 0 ≤ x mod 256 < 256) as Hm by (intros x; apply Z.mod_pos_bound; lia).
  rewrite addr_kind_skip; [|apply (sforall_impl is_digit); [apply digit_not|apply Itoa_digits, Hm]].
  change (addr_kind ("." +:+ ?x)) with (Some "."%char). cbv iota. unfold parseIPv4Fields.
  assert (∀ b s val dl pos acc, 0 ≤ b < 256 → (pos =? 3) = false →
    v4_loop ("." +:+ (Itoa b +:+ s)) false false val dl pos acc = v4_loop s false false b (Z.of_nat (String.length (Itoa b))) (pos + 1) (acc * 256 + val)) as Hdot.
  { intros b s val dl pos acc Hb Hp. change ("." +:+ (Itoa b +:+ s)) with (String "." (Itoa b +:+ s)). cbn [v4_loop]. change (is_digit ".") with false. cbv iota.
    change (Ascii.eqb "." ".") with true. cbv iota. assert (String.eqb (Itoa b +:+ s) "" = false) as ->.
    { apply String.eqb_neq. destruct (Itoa b) eqn:E; [|done]. by pose proof (proj2 (Itoa_digits b ltac:(lia))). }
    rewrite Hp. cbn [orb]. by apply v4_byte. }
  rewrite v4_byte; [|apply Hm]. rewrite -(sapp_nil_r (Itoa (a mod 256))). rewrite !Hdot; try apply Hm; try done.
  cbn [v4_loop]. change (0 + 1 + 1 + 1 <? 3) with false. cbv iota. cbn [fmap option_fmap option_map]. do 2 f_equal.
  rewrite Z.mul_0_l Z.add_0_l. by apply v4_num.
Qed.

(** ** IPv6 *)

Lemma hex_val_char d : 0 ≤ d < 16 → hex_val (hex_char d) = Some d.
Proof.
  intros Hd. assert (∃ n, d = Z.of_nat n ∧ (n < 16)%nat) as (n & -> & Hn) by (exists (Z.to_nat d); lia).
  do 16 (destruct n as [|n]; [reflexivity|]). lia.
Qed.
(** A text that does not start with a hexadecimal digit. *)
Definition no_hex (s : string) : Prop := match s with String c _ => hex_val c = None | _ => True end.
Lemma hex_run_stop s : no_hex s → hex_run s = ([], s).
Proof. destruct s as [|c s]; [done|]. cbn. by intros ->. Qed.
Lemma hex_run_16 x r : 0 ≤ x < 65536 → no_hex r →
  ∃ ds, hex_run (hex16 x +:+ r) = (ds, r) ∧ (length ds =? 0)%nat || (4 <? length ds)%nat = false ∧ foldl (λ a d, a * 16 + d) 0 ds = x.
Proof.
  intros Hx Hr. assert (0 ≤ x mod 16 < 16) as H0 by (apply Z.mod_pos_bound; lia). assert (0 ≤ x / 16 mod 16 < 16) as H1 by (apply Z.mod_pos_bound; lia).
  assert (0 ≤ x / 256 mod 16 < 16) as H2 by (apply Z.mod_pos_bound; lia).
  unfold hex16. destruct (Z.leb_spec 4096 x) as [L3|L3]; [|destruct (Z.leb_spec 256 x) as [L2|L2]; [|destruct (Z.leb_spec 16 x) as [L1|L1]]].
  - assert (0 ≤ x / 4096 < 16) as H3 by (Z.div_mod_to_equations; lia). exists [x / 4096; x / 256 mod 16; x / 16 mod 16; x mod 16].
    rewrite !sapp_cons. cbn [hex_run]. rewrite !hex_val_char; try done. change ("" +:+ r) with r. rewrite hex_run_stop; [|done]. split; [done|]. split; [done|]. cbn [foldl].
    Z.div_mod_to_equations. lia.
  - exists [x / 256 mod 16; x / 16 mod 16; x mod 16]. rewrite !sapp_cons. cbn [hex_run]. rewrite !hex_val_char; try done. change ("" +:+ r) with r.
    rewrite hex_run_stop; [|done]. split; [done|]. split; [done|]. cbn [foldl]. Z.div_mod_to_equations. lia.
  - exists [x / 16 mod 16; x mod 16]. rewrite !sapp_cons. cbn [hex_run]. rewrite !hex_val_char; try done. change ("" +:+ r) with r.
    rewrite hex_run_stop; [|done]. split; [done|]. split; [done|]. cbn [foldl]. Z.div_mod_to_equations. lia.
  - exists [x mod 16]. rewrite !sapp_cons. cbn [hex_run]. rewrite !hex_val_char; try done. change ("" +:+ r) with r.
    rewrite hex_run_stop; [|done]. split; [done|]. split; [done|]. cbn [foldl]. Z.div_mod_to_equations. lia.
Qed.
Lemma hex16_head x : 0 ≤ x < 65536 → ∃ c s, hex16 x = String c s ∧ is_Some (hex_val c).
Proof.
  intros Hx. assert (0 ≤ x mod 16 < 16) as H0 by (apply Z.mod_pos_bound; lia). assert (0 ≤ x / 16 mod 16 < 16) as H1 by (apply Z.mod_pos_bound; lia).
  assert (0 ≤ x / 256 mod 16 < 16) as H2 by (apply Z.mod_pos_bound; lia). unfold hex16.
  destruct (Z.leb_spec 4096 x) as [L3|L3]; [|destruct (256 <=? x); [|destruct (16 <=? x)]].
  1: assert (0 ≤ x / 4096 < 16) as H3 by (Z.div_mod_to_equations; lia).
  all: eexists _, _; split; [done|]; rewrite hex_val_char; [by eexists|done].
Qed.
Definition group (x : Z) : Prop := 0 ≤ x < 65536.
Lemma Join_cons2 (x y : string) l sep : Join (x :: y :: l) sep = x +:+ sep +:+ Join (y :: l) sep.
Proof. done. Qed.
Lemma join_head x ks : group x → ∃ c s, Join (hex16 <$> x :: ks) ":" = String c s ∧ is_Some (hex_val c).
Proof.
  intros Hx. destruct (hex16_head x Hx) as (c & s & E & Hc). cbn [fmap list_fmap]. destruct ks as [|y ks]; cbn [fmap list_fmap]; [by exists c, s|].
  rewrite Join_cons2 E sapp_cons. by eexists _, _.
Qed.
(** One group and the colon after it. *)
Lemma loop_group fuel x r gs ell : group x → (length gs < 8)%nat → (∃ c s, r = String c s ∧ is_Some (hex_val c)) →
  v6_loop (S fuel) (hex16 x +:+ ":" +:+ r) gs ell = v6_loop fuel r (gs ++ [x]) ell.
Proof.
  intros Hx Hl (c & s & -> & Hc). cbn [v6_loop]. destruct (Nat.leb_spec 8 (length gs)); [lia|].
  destruct (hex_run_16 x (":" +:+ String c s) Hx eq_refl) as (ds & -> & -> & ->). change (":" +:+ String c s) with (String ":" (String c s)). cbv iota.
  destruct (ascii_dec c ":") as [->|Hn]; [by destruct Hc|]. destruct c as [[] [] [] [] [] [] [] []]; done.
Qed.
Lemma loop_join fuel ks gs ell : Forall group ks → ks ≠ [] → (length gs + length ks ≤ 8)%nat → (length ks < fuel)%nat →
  v6_loop fuel (Join (hex16 <$> ks) ":") gs ell = v6_finish "" (gs ++ ks) ell.
Proof.
  intros Hk. revert fuel gs. induction Hk as [|x ks Hx Hk IH]; intros fuel gs Hne Hl Hf; [done|]. cbn in Hl, Hf. destruct fuel as [|fuel]; [lia|].
  destruct ks as [|y ks].
  - cbn [fmap list_fmap Join v6_loop]. destruct (Nat.leb_spec 8 (length gs)); [lia|]. rewrite -(sapp_nil_r (hex16 x)).
    destruct (hex_run_16 x "" Hx I) as (ds & -> & -> & ->). done.
  - cbn [fmap list_fmap]. rewrite Join_cons2. rewrite loop_group; [|done|lia|].
    + rewrite -fmap_cons IH; [|done|rewrite length_app; cbn in *; lia|cbn in *; lia]. by rewrite -app_assoc.
    + inversion Hk; subst. by apply join_head.
Qed.
(** ... up to an ellipsis. *)
Lemma loop_ellipsis fuel ks gs r : Forall group ks → ks ≠ [] → (length gs + length ks < 8)%nat → (length ks ≤ fuel)%nat →
  v6_loop fuel (Join (hex16 <$> ks) ":" +:+ "::" +:+ r) gs None =
  (if String.eqb r "" then v6_finish "" (gs ++ ks) (Some (length (gs ++ ks))) else v6_loop (fuel - length ks) r (gs ++ ks) (Some (length (gs ++ ks)))).
Proof.
  intros Hk. revert fuel gs. induction Hk as [|x ks Hx Hk IH]; intros fuel gs Hne Hl Hf; [done|]. cbn in Hl, Hf. destruct fuel as [|fuel]; [lia|].
  destruct ks as [|y ks].
  - cbn [fmap list_fmap Join v6_loop]. destruct (Nat.leb_spec 8 (length gs)); [lia|].
    destruct (hex_run_16 x ("::" +:+ r) Hx eq_refl) as (ds & -> & -> & ->). change ("::" +:+ r) with (String ":" (String ":" r)). cbv iota. cbn [length].
    rewrite Nat.sub_succ Nat.sub_0_r. done.
  - cbn [fmap list_fmap]. rewrite Join_cons2 -!sapp_assoc. rewrite loop_group; [|done|lia|].
    + rewrite -fmap_cons IH; [|done|rewrite length_app; cbn in *; lia|cbn in *; lia]. rewrite -app_assoc. cbn [app length]. by rewrite Nat.sub_succ.
    + inversion Hk; subst. destruct (join_head y ks) as (c & s & E & Hc); [done|]. rewrite fmap_cons in E. rewrite E sapp_cons. by eexists _, _.
Qed.
Lemma groups_rec_num k a acc : 0 ≤ a → v6_num (groups_rec k a acc) = foldl (λ x g, x * 65536 + g) (a mod 65536 ^ Z.of_nat k) acc.
Proof.
  revert a acc. induction k as [|k IH]; intros a acc Ha.
  - cbn [groups_rec]. change (65536 ^ Z.of_nat 0) with 1. rewrite Z.mod_1_r. done.
  - cbn [groups_rec]. rewrite IH; [|by apply Z.div_pos]. cbn [foldl]. f_equal. rewrite Nat2Z.inj_succ Z.pow_succ_r; [|lia].
    rewrite Z.rem_mul_r; [ring|lia|apply Z.pow_pos_nonneg; lia].
Qed.
Lemma groups_rec_group k a acc : Forall group acc → Forall group (groups_rec k a acc) ∧ length (groups_rec k a acc) = (k + length acc)%nat.
Proof.
  revert a acc. induction k as [|k IH]; intros a acc H; [done|]. cbn [groups_rec]. destruct (IH (a / 65536) (a mod 65536 :: acc)) as [H1 H2].
  - constructor; [apply Z.mod_pos_bound; lia|done].
  - split; [done|]. rewrite H2. cbn. lia.
Qed.
Lemma zeros_take gs : take (zeros gs) gs = replicate (zeros gs) 0 ∧ (zeros gs ≤ length gs)%nat.
Proof.
  induction gs as [|[|p|p] gs [IH1 IH2]]; cbn [zeros]; [done| |by split; cbn; [|lia]..].
  cbn [take replicate length]. rewrite IH1. split; [done|lia].
Qed.
Lemma zero_run_zeros all pre gs best i l : all = pre ++ gs →
  (∀ j m, best = Some (j, m) → take m (drop j all) = replicate m 0 ∧ (2 ≤ m)%nat ∧ (j + m ≤ length all)%nat) →
  zero_run (length pre) gs best = Some (i, l) → take l (drop i all) = replicate l 0 ∧ (2 ≤ l)%nat ∧ (i + l ≤ length all)%nat.
Proof.
  revert pre best. induction gs as [|g gs IH]; intros pre best E Hb H; [by apply Hb|]. cbn [zero_run] in H.
  replace (S (length pre)) with (length (pre ++ [g])) in H by (rewrite length_app; cbn; lia).
  apply (IH (pre ++ [g]) _ ltac:(by rewrite -app_assoc)) in H; [done|]. intros j m Hj.
  pose proof (zeros_take (g :: gs)) as [H1 H2]. remember (zeros (g :: gs)) as z eqn:Ez.
  destruct (match best with Some (_, b) => (b <? z)%nat | None => (2 <=? z)%nat end) eqn:Eb; [|by apply Hb].
  injection Hj as <- <-. subst all. rewrite drop_app_length length_app. split; [done|]. split; [|lia].
  destruct best as [[j b]|]; [|by apply Nat.leb_le in Eb]. destruct (Hb j b eq_refl) as (_ & H3 & _). apply Nat.ltb_lt in Eb. lia.
Qed.
Definition hexish (c : ascii) : bool := bool_decide (is_Some (hex_val c)) || Ascii.eqb c ":".
Lemma hex_char_hex d : 0 ≤ d < 16 → hexish (hex_char d) = true.
Proof. intros H. unfold hexish. rewrite hex_val_char; [|done]. by rewrite bool_decide_eq_true_2; [|by eexists]. Qed.
Lemma hex16_hexish x : group x → sforall hexish (hex16 x) = true.
Proof.
  intros Hx. unfold group in Hx. assert (0 ≤ x mod 16 < 16) as H0 by (apply Z.mod_pos_bound; lia). assert (0 ≤ x / 16 mod 16 < 16) as H1 by (apply Z.mod_pos_bound; lia).
  assert (0 ≤ x / 256 mod 16 < 16) as H2 by (apply Z.mod_pos_bound; lia). unfold hex16.
  destruct (Z.leb_spec 4096 x) as [L3|L3]; [|destruct (256 <=? x); [|destruct (16 <=? x)]].
  1: assert (0 ≤ x / 4096 < 16) as H3 by (Z.div_mod_to_equations; lia).
  all: cbn [sforall]; rewrite !hex_char_hex; done.
Qed.
Lemma join_hexish ks : Forall group ks → sforall hexish (Join (hex16 <$> ks) ":") = true.
Proof.
  induction 1 as [|x ks Hx Hk IH]; [done|]. cbn [fmap list_fmap]. destruct ks as [|y ks]; cbn [fmap list_fmap]; [by apply hex16_hexish|].
  rewrite Join_cons2. rewrite !sforall_app hex16_hexish; [|done]. by rewrite -fmap_cons IH.
Qed.
Lemma hexish_no_percent s : sforall hexish s = true → has_char "%" s = false.
Proof.
  unfold has_char. induction s as [|c s IH]; [done|]. cbn [sforall sexists]. intros [Hc Hs]%andb_prop. rewrite IH; [|done]. rewrite orb_false_r.
  destruct (Ascii.eqb_spec "%" c) as [<-|]; done.
Qed.
Lemma Cut_none s : sforall hexish s = true → Cut s "%" = (s, "", false).
Proof. intros H. unfold Cut. change "%" with (sep1 "%"). rewrite (proj2 (cut_char_None "%" s)); [done|by apply hexish_no_percent]. Qed.
Lemma v6_num_groups a : 0 ≤ a < 2 ^ 128 → v6_num (groups a) = a.
Proof. intros H. unfold groups. rewrite groups_rec_num; [|lia]. cbn [foldl]. rewrite Z.mod_small; [done|]. done. Qed.
Lemma string6_hexish a : 0 ≤ a < 2 ^ 128 → sforall hexish (string6 a) = true.
Proof.
  intros Ha. destruct (groups_rec_group 8 a [] ltac:(constructor)) as [Hg _]. fold (groups a) in Hg. unfold string6.
  destruct (zero_run 0 (groups a) None) as [[i l]|]; [|by apply join_hexish]. rewrite !sforall_app. rewrite !join_hexish; [done|by apply Forall_drop|by apply Forall_take].
Qed.
Lemma addr_kind_hex c s : is_Some (hex_val c) → addr_kind (String c s) = addr_kind s.
Proof.
  intros [d Hd]. cbn [addr_kind]. destruct (Ascii.eqb_spec c ".") as [->|]; [done|]. destruct (Ascii.eqb_spec c ":") as [->|]; [done|].
  by destruct (Ascii.eqb_spec c "%") as [->|].
Qed.
Lemma hexish_kind s : sforall hexish s = true → has_char ":" s = true → addr_kind s = Some ":"%char.
Proof.
  induction s as [|c s IH]; [done|]. cbn [sforall]. intros [Hc Hs]%andb_prop. unfold hexish in Hc. apply orb_prop in Hc as [Hc%bool_decide_eq_true|Hc].
  - rewrite addr_kind_hex; [|done]. unfold has_char. cbn [sexists]. destruct (Ascii.eqb_spec ":" c) as [<-|_]; [by destruct Hc|]. cbn [orb]. by apply IH.
  - apply Ascii.eqb_eq in Hc as ->. done.
Qed.
Lemma string6_colon a : 0 ≤ a < 2 ^ 128 → has_char ":" (string6 a) = true.
Proof.
  intros Ha. destruct (groups_rec_group 8 a [] ltac:(constructor)) as [Hg Hl]. fold (groups a) in Hg, Hl. unfold string6.
  destruct (zero_run 0 (groups a) None) as [[i l]|]; [by rewrite !has_char_app orb_true_r|]. destruct (groups a) as [|x [|y gs]]; [done|done|].
  cbn [fmap list_fmap]. rewrite Join_cons2 !has_char_app. by rewrite orb_true_r.
Qed.
Lemma finish_groups left right l : (length left + l + length right = 8)%nat → (2 ≤ l)%nat →
  v6_finish "" (left ++ right) (Some (length left)) = Some (left ++ replicate l 0 ++ right).
Proof.
  intros H Hl. unfold v6_finish. change (negb (String.eqb "" "")) with false. cbv iota. rewrite length_app.
  destruct (Nat.ltb_spec (length left + length right) 8); [|lia]. rewrite take_app_length drop_app_length. by replace (8 - (length left + length right))%nat with l by lia.
Qed.
Lemma join_ne ks : Forall group ks → ks ≠ [] → String.eqb (Join (hex16 <$> ks) ":") "" = false.
Proof. intros [|x k Hx _] Hne; [done|]. destruct (join_head x k Hx) as (c & s & -> & _). done. Qed.
Local Ltac lens H1 H2 := clear -H1 H2; change (length (@nil Z)) with 0%nat in *; lia.
Lemma join_start r : Join (hex16 <$> []) ":" +:+ "::" +:+ r = String ":" (String ":" r).
Proof. reflexivity. Qed.
Lemma join_nil : String.eqb (Join (hex16 <$> []) ":") "" = true.
Proof. reflexivity. Qed.
(** The text of a 16-byte address is read back as that address. *)
Lemma ParseAddr_string6 a : 0 ≤ a < 2 ^ 128 → ParseAddr (string6 a) = Some (Addr6 a "").
Proof.
  intros Ha. unfold ParseAddr. rewrite hexish_kind; [|by apply string6_hexish|by apply string6_colon]. unfold parseIPv6. rewrite Cut_none; [|by apply string6_hexish]. cbn [andb].
  destruct (groups_rec_group 8 a [] ltac:(constructor)) as [Hg Hl]. fold (groups a) in Hg, Hl. change (8 + length [])%nat with 8%nat in Hl. pose proof (v6_num_groups a Ha) as Hn. unfold string6.
  assert (∀ c s, is_Some (hex_val c) → match String c s with String ":" (String ":" r) => if String.eqb r "" then Some (Addr6 0 "") else (λ gs, Addr6 (v6_num gs) "") <$> v6_loop 9 r [] (Some 0%nat)
    | _ => (λ gs, Addr6 (v6_num gs) "") <$> v6_loop 9 (String c s) [] None end = (λ gs, Addr6 (v6_num gs) "") <$> v6_loop 9 (String c s) [] None) as Hfirst.
  { intros c s Hc. destruct (ascii_dec c ":") as [->|Hne]; [by destruct Hc|]. by destruct c as [[] [] [] [] [] [] [] []]. }
  destruct (zero_run 0 (groups a) None) as [[i l]|] eqn:Ez.
  - apply (zero_run_zeros (groups a) [] (groups a)) in Ez as (Hz & Hl2 & Hil); [|done|done]. set (left := take i (groups a)). set (right := drop (i + l) (groups a)).
    assert (left ++ replicate l 0 ++ right = groups a) as Eg by (unfold left, right; rewrite -Hz -drop_drop take_drop; apply take_drop).
    assert (length left = i ∧ length right = 8 - (i + l))%nat as [Hll Hlr] by (unfold left, right; rewrite length_take length_drop; lia).
    assert (Forall group left ∧ Forall group right) as [Hgl Hgr] by (split; [by apply Forall_take|by apply Forall_drop]).
    assert (length left + l + length right = 8)%nat as Hlen by lia. pose proof (finish_groups left right l Hlen Hl2) as Hfin. rewrite Eg in Hfin.
    destruct left as [|x left'] eqn:El.
    + rewrite join_start. destruct right as [|y right'] eqn:Er.
      * rewrite join_nil. assert (l = 8)%nat as -> by (clear -Hlen; change (length (@nil Z)) with 0%nat in *; lia). rewrite -Hn -Eg. done.
      * rewrite join_ne; [|done|done]. rewrite loop_join; [|done|done|lens Hlen Hl2|lens Hlen Hl2]. change (length []) with 0%nat in Hfin. rewrite Hfin. cbn [fmap option_fmap option_map]. by rewrite Hn.
    + assert (group x) as Hx by (by inversion Hgl). destruct (join_head x left' Hx) as (c & s & E & Hc).
      assert (∀ r, Join (hex16 <$> x :: left') ":" +:+ r = String c (s +:+ r)) as Er by (intros r; by rewrite E sapp_cons). rewrite Er Hfirst; [|done]. rewrite -Er.
      rewrite loop_ellipsis; [|done|done|lens Hlen Hl2|lens Hlen Hl2]. rewrite app_nil_l. destruct right as [|y right'] eqn:Err.
      * rewrite join_nil. rewrite app_nil_r in Hfin. rewrite Hfin. cbn [fmap option_fmap option_map]. by rewrite Hn.
      * rewrite join_ne; [|done|done]. rewrite loop_join; [|done|done|lens Hlen Hl2|lens Hlen Hl2]. rewrite Hfin. cbn [fmap option_fmap option_map]. by rewrite Hn.
  - destruct (groups a) as [|x gs] eqn:Eg; [done|]. assert (group x) as Hx by (by inversion Hg). destruct (join_head x gs Hx) as (c & s & E & Hc). rewrite E Hfirst; [|done].
    rewrite -E loop_join; [|done|done|by rewrite Hl|rewrite Hl; lia]. unfold v6_finish. change (negb (String.eqb "" "")) with false. change ([] ++ x :: gs) with (x :: gs). rewrite Hl. change (8 <? 8)%nat with false. cbv iota.
    cbn [fmap option_fmap option_map]. by rewrite Hn.
Qed.

(** ** Networks *)

Lemma cut_last_slash s t : has_char "/" t = false → cut_last "/" (s +:+ String "/" t) = Some (s, t).
Proof.
  intros Ht. assert (∀ u, has_char "/" u = false → cut_last "/" u = None) as Hnone.
  { induction u as [|c u IH]; [done|]. unfold has_char. cbn [sexists]. intros [Hc Hu]%orb_false_iff. cbn [cut_last]. rewrite (IH Hu). by rewrite Hc. }
  induction s as [|c s IH]; [change ("" +:+ ?x) with x; cbn [cut_last]; by rewrite Hnone|]. rewrite sapp_cons. cbn [cut_last]. by rewrite IH.
Qed.
Lemma bits_text n : 0 ≤ n ≤ 128 → match Itoa n with String c (String _ _) => negb (between "1" "9" c) | _ => false end = false ∧ has_char "/" (Itoa n) = false.
Proof.
  intros Hb. assert (∃ k, n = Z.of_nat k ∧ (k < 129)%nat) as (k & -> & Hk) by (exists (Z.to_nat n); lia).
  do 129 (destruct k as [|k]; [by split|]). lia.
Qed.
Lemma ParsePrefix_text s ip n : ParseAddr s = Some ip → hasZone ip = false → 0 ≤ n ≤ addr_width ip → ParsePrefix (s +:+ "/" +:+ Itoa n) = Some {| px_ip := ip; px_bits := n |}.
Proof.
  intros Hs Hz Hn. assert (0 ≤ n ≤ 128) as Hn' by (destruct ip; cbn in Hn; lia). destruct (bits_text n Hn') as [H1 H2]. unfold ParsePrefix.
  change ("/" +:+ Itoa n) with (String "/" (Itoa n)). rewrite cut_last_slash; [|done]. rewrite Hs Hz H1. rewrite Atoi_Itoa; [|unfold minInt64, maxInt64; lia].
  destruct (Z.ltb_spec n 0); [lia|]. destruct (Z.ltb_spec (addr_width ip) n); [lia|done].
Qed.
Lemma v4_loop_range s first prev val dl pos acc v : 0 ≤ val < 256 → 0 ≤ pos ≤ 3 → 0 ≤ acc < 256 ^ pos → v4_loop s first prev val dl pos acc = Some v → 0 ≤ v < 2 ^ 32.
Proof.
  revert first prev val dl pos acc. induction s as [|c s IH]; intros first prev val dl pos acc Hv Hp Ha H; cbn [v4_loop] in H.
  - destruct (Z.ltb_spec pos 3); [done|]. injection H as <-. assert (pos = 3) as -> by lia. change (256 ^ 3) with 16777216 in Ha. change (2 ^ 32) with 4294967296. lia.
  - destruct (is_digit c) eqn:Ed.
    + destruct (_ && _); [done|]. pose proof (is_digit_val c Ed). destruct (Z.ltb_spec 255 (val * 10 + digit_val c)); [done|]. apply IH in H; [done|lia|done|done].
    + destruct (Ascii.eqb c "."); [|done]. destruct (_ || _); [done|]. destruct (Z.eqb_spec pos 3); [done|]. apply IH in H; [done|lia|lia|].
      rewrite Z.pow_add_r; [|lia|lia]. change (256 ^ 1) with 256. lia.
Qed.
Lemma parseIPv4_range s v : parseIPv4Fields s = Some v → 0 ≤ v < 2 ^ 32.
Proof. intros H. apply v4_loop_range in H; [done|lia|lia|done]. Qed.
Lemma hex_run_range s : Forall (λ d, 0 ≤ d < 16) (hex_run s).1.
Proof.
  induction s as [|c s IH]; [constructor|]. cbn [hex_run]. destruct (hex_val c) as [d|] eqn:E; [|constructor]. destruct (hex_run s) as [ds r]. cbn in IH |- *.
  constructor; [|done]. unfold hex_val, is_digit, between in E. change (code "0") with 48 in E. change (code "9") with 57 in E. change (code "a") with 97 in E.
  change (code "f") with 102 in E. change (code "A") with 65 in E. change (code "F") with 70 in E.
  destruct ((48 <=? code c) && (code c <=? 57)) eqn:E1; [injection E as <-; lia|]. destruct ((97 <=? code c) && (code c <=? 102)) eqn:E2; [injection E as <-; lia|].
  destruct ((65 <=? code c) && (code c <=? 70)) eqn:E3; [injection E as <-; lia|done].
Qed.
Lemma hex_group ds : Forall (λ d, 0 ≤ d < 16) ds → (length ds =? 0)%nat || (4 <? length ds)%nat = false → group (foldl (λ a d, a * 16 + d) 0 ds).
Proof.
  intros H Hl. apply orb_false_iff in Hl as [_ Hl%Nat.ltb_ge]. unfold group.
  destruct H as [|d1 l H1 H]; [cbn; lia|]. destruct H as [|d2 l H2 H]; [cbn; lia|]. destruct H as [|d3 l H3 H]; [cbn; lia|].
  destruct H as [|d4 l H4 H]; [cbn; lia|]. destruct H as [|d5 l H5 H]; [cbn; lia|]. cbn in Hl. lia.
Qed.
Lemma v6_finish_groups s gs ell r : Forall group gs → (length gs ≤ 8)%nat → v6_finish s gs ell = Some r → Forall group r ∧ length r = 8%nat.
Proof.
  intros Hg Hl. unfold v6_finish. destruct (negb _); [done|]. destruct (Nat.ltb_spec (length gs) 8) as [H|H].
  - destruct ell as [e|]; [|done]. intros [= <-]. split.
    + apply Forall_app; split; [by apply Forall_take|]. apply Forall_app; split; [|by apply Forall_drop]. apply Forall_replicate. done.
    + rewrite !length_app length_replicate length_take length_drop. lia.
  - destruct ell; [done|]. intros [= <-]. split; [done|lia].
Qed.
Lemma v6_loop_groups fuel s gs ell r : Forall group gs → (length gs ≤ 8)%nat → v6_loop fuel s gs ell = Some r → Forall group r ∧ length r = 8%nat.
Proof.
  revert s gs ell. induction fuel as [|fuel IH]; intros s gs ell Hg Hl H; [done|]. cbn [v6_loop] in H. destruct (Nat.leb_spec 8 (length gs)) as [H8|H8].
  { by apply (v6_finish_groups _ _ _ _ Hg Hl) in H. }
  pose proof (hex_run_range s) as Hd. destruct (hex_run s) as [ds rest]. cbn in Hd. destruct ((length ds =? 0)%nat || (4 <? length ds)%nat) eqn:Ed; [done|].
  pose proof (hex_group ds Hd Ed) as Hx. set (gs' := gs ++ [foldl (λ a d, a * 16 + d) 0 ds]) in *.
  assert (Forall group gs' ∧ (length gs' ≤ 8)%nat) as [Hg' Hl'] by (split; [apply Forall_app; split; [done|by constructor]|unfold gs'; rewrite length_app; cbn; lia]).
  assert (∀ ell', v6_finish "" gs' ell' = Some r → Forall group r ∧ length r = 8%nat) as Hfin by (intros ell'; by apply v6_finish_groups).
  destruct rest as [|c rest]; [by apply Hfin in H|].
  destruct (Ascii.eqb_spec c ".") as [->|Hdot].
  - destruct (match ell with None => negb (length gs =? 6)%nat | _ => false end); [done|]. destruct (Nat.ltb_spec 8 (length gs + 2)) as [H2|H2]; [done|].
    destruct (parseIPv4Fields s) as [a|] eqn:Ea; [|done]. apply parseIPv4_range in Ea. apply v6_finish_groups in H; [done| |rewrite length_app; cbn; lia].
    change (2 ^ 32) with 4294967296 in Ea. apply Forall_app; split; [done|]. constructor; [unfold group; Z.div_mod_to_equations; lia|].
    constructor; [unfold group; Z.div_mod_to_equations; lia|constructor].
  - destruct (Ascii.eqb_spec c ":") as [->|Hcol]; [|exfalso; destruct c as [[] [] [] [] [] [] [] []]; done].
    destruct rest as [|c2 rest2]; [done|]. destruct (Ascii.eqb_spec c2 ":") as [->|Hc2].
    + destruct ell; [done|]. destruct (String.eqb rest2 ""); [by apply Hfin in H|by apply IH in H].
    + assert (v6_loop fuel (String c2 rest2) gs' ell = Some r) as H' by (destruct c2 as [[] [] [] [] [] [] [] []]; done). by apply IH in H'.
Qed.
Lemma v6_num_range gs : Forall group gs → 0 ≤ v6_num gs < 65536 ^ Z.of_nat (length gs).
Proof.
  induction gs as [|x gs IH] using rev_ind; [done|]. intros [Hg Hx]%Forall_app. inversion Hx as [|? ? H _]; subst. unfold v6_num. rewrite foldl_app. cbn [foldl].
  specialize (IH Hg). unfold v6_num in IH. unfold group in H. rewrite length_app Nat2Z.inj_add Z.pow_add_r; [|lia|lia]. cbn [length]. change (65536 ^ Z.of_nat 1) with 65536. lia.
Qed.
(** What [ParseAddr] returns is an address of its width. *)
Lemma ParseAddr_range s a : ParseAddr s = Some a → addr_ok a ∧ a ≠ AddrZero.
Proof.
  unfold ParseAddr. destruct (addr_kind s) as [k|]; [|done]. intros H.
  assert (Addr4 <$> parseIPv4Fields s = Some a ∨ parseIPv6 s = Some a) as [H'|H'] by (destruct k as [[] [] [] [] [] [] [] []]; auto; done).
  - destruct (parseIPv4Fields s) as [v|] eqn:E; [|done]. injection H' as <-. by split; [apply (parseIPv4_range s)|].
  - unfold parseIPv6 in H'. destruct (Cut s "%") as [[s1 zone] found]. destruct (found && _); [done|].
    assert (∀ r e, (λ gs, Addr6 (v6_num gs) zone) <$> v6_loop 9 r [] e = Some a → addr_ok a ∧ a ≠ AddrZero) as Hr.
    { intros r e Hr. destruct (v6_loop 9 r [] e) as [gs|] eqn:E; [|done]. injection Hr as <-. apply v6_loop_groups in E as [Hg Hl]; [|constructor|cbn; lia].
      split; [|done]. pose proof (v6_num_range gs Hg) as Hn. rewrite Hl in Hn. done. }
    destruct s1 as [|c1 s1]; [by apply Hr in H'|]. destruct (Ascii.eqb_spec c1 ":") as [->|Hc].
    + destruct s1 as [|c2 s2]; [by apply Hr in H'|]. destruct (Ascii.eqb_spec c2 ":") as [->|Hc2].
      * destruct (String.eqb s2 ""); [injection H' as <-; by split|by apply Hr in H'].
      * apply (Hr (String ":" (String c2 s2)) None). rewrite -H'. by destruct c2 as [[] [] [] [] [] [] [] []].
    + apply (Hr (String c1 s1) None). rewrite -H'. by destruct c1 as [[] [] [] [] [] [] [] []].
Qed.
