(* ===== verification/VmPolicy.v ===== *)
(** * From the configuration to the broker's decisions

    [vmPolicy] of [src/internal/cmd/vmbackend_unix.go]: the policy file of a VM, made of the
    allowed networks, the addresses of the allowed hosts and the DNS filter. Together
    with the parser and the decision functions of [Policy] it settles what a validated
    workspace may reach. The name lookup and the JSON encoder are arguments. *)

From S2P Require Import Prelude GoStrings GoStrconv NetAddr AddrText Policy Agent ConfigChecks Resolve VmLab.
From Stdlib Require Import SpecFloat.
Open Scope string_scope.
Open Scope list_scope.
Open Scope Z_scope.

(** ** [vmPolicy] *)

(** [add]: an exception for a network that is not there yet. *)
Definition add (cidr : string) (l : list string) : list string := if bool_decide (cidr ∈ l) then l else l ++ [cidr].
Fixpoint add_networks (networks : list string) (l : list string) : result string (list string) :=
  match networks with
  | [] => Ok l
  | n :: networks =>
      match ParseCIDR n with
      | Some (a, bits) => add_networks networks (add (IPNet_String a bits) l)
      | None => Err n
      end
  end.
Definition host_cidr (ip : Addr) : string := IP_String ip +:+ (match To4 ip with Some _ => "/32" | None => "/128" end).
Section Vm.
(** [LookupIP], and [json.Marshal] of the policy. *)
Context (LookupIP : string → result () (list Addr)) (Marshal : policyFile → string).
(** A host that cannot be resolved is left out with a warning. *)
Definition add_hosts (hosts : list string) (l : list string) : list string :=
  foldl (λ l h, match LookupIP h with Ok ips => foldl (λ l ip, add (host_cidr ip) l) l ips | Err _ => l end) l hosts.
Definition any_proto (cidr : string) : RawException := {| rCIDR := cidr; rProto := ProtoAny; rPorts := [] |}.
Definition policy_file (ws : Resolved) (cidrs : list string) : policyFile :=
  {| pf_Exceptions := any_proto <$> cidrs;
     pf_DNSUpstreams := if r_FilteredDNS ws then [r_DNSUpstream ws] else [];
     pf_DNSBlockedZones := if r_FilteredDNS ws then default [] (r_DNSBlockedZones ws) else [] |}.
(** The error is the network that cannot be parsed. *)
Definition vmPolicy_file (ws : Resolved) : result string policyFile :=
  nets ← add_networks (r_AllowedNetworks ws) [];
  Ok (policy_file ws (add_hosts (r_AllowedHosts ws) nets)).
Definition vmPolicy (ws : Resolved) : result string string :=
  f ← vmPolicy_file ws; Ok (Marshal f).
End Vm.

(** ** What a network stands for *)

(** The addresses of a network of the configuration; one written as
    IPv4-mapped stands for IPv4 addresses, as package [net] has it. *)
Definition mapped (a : Addr) (n : Z) : bool := Is4In6 (px_ip (Masked {| px_ip := a; px_bits := n |})).
Definition network (a : Addr) (n : Z) : Prefix :=
  if mapped a n then {| px_ip := Unmap a; px_bits := n - 96 |} else {| px_ip := a; px_bits := n |}.
Definition one_host (ip : Addr) : Prefix := {| px_ip := Unmap ip; px_bits := addr_width (Unmap ip) |}.

Lemma mask_num_range w n a : 0 ≤ n ≤ w → 0 ≤ a < 2 ^ w → 0 ≤ mask_num w n a < 2 ^ w.
Proof.
  intros Hn Ha. unfold mask_num. rewrite Z.shiftl_mul_pow2; [|lia]. rewrite Z.shiftr_div_pow2; [|lia]. assert (0 < 2 ^ (w - n)) by (apply Z.pow_pos_nonneg; lia).
  pose proof (Z.mul_div_le a (2 ^ (w - n)) ltac:(lia)). assert (0 ≤ a / 2 ^ (w - n)) by (apply Z.div_pos; lia). nia.
Qed.
Lemma mask_shift w n a : 0 ≤ n ≤ w → Z.shiftr (mask_num w n a) (w - n) = Z.shiftr a (w - n).
Proof. intros Hn. unfold mask_num. rewrite Z.shiftr_shiftl_l; [|lia]. by rewrite Z.sub_diag Z.shiftl_0_r. Qed.
(** A masked network that is IPv4-mapped keeps the whole IPv4-mapped prefix. *)
Lemma mapped_bits v n : 0 ≤ n ≤ 128 → 0 ≤ v < 2 ^ 128 → Z.shiftr (mask_num 128 n v) 32 = 65535 → 96 ≤ n ∧ Z.shiftr v 32 = 65535.
Proof.
  intros Hn Hv H. destruct (Z.le_gt_cases 96 n) as [Hl|Hl].
  - split; [done|]. rewrite -H. apply Z.bits_inj'. intros k Hk. rewrite !Z.shiftr_spec; [|lia..]. unfold mask_num.
    rewrite Z.shiftl_spec; [|lia]. rewrite Z.shiftr_spec; [|lia]. f_equal. lia.
  - exfalso. assert (Z.testbit (Z.shiftr (mask_num 128 n v) 32) 0 = false) as Hb; [|by rewrite H in Hb].
    rewrite Z.shiftr_spec; [|lia]. unfold mask_num. apply Z.shiftl_spec_low. lia.
Qed.
Lemma low_bits v k : 0 ≤ k ≤ 32 → 0 ≤ v → Z.shiftr (v mod 2 ^ 32) k = Z.shiftr v k mod 2 ^ (32 - k).
Proof.
  intros Hk Hv. apply Z.bits_inj'. intros i Hi. rewrite Z.shiftr_spec; [|lia]. destruct (Z.lt_ge_cases i (32 - k)) as [H|H].
  - rewrite Z.mod_pow2_bits_low; [|lia]. rewrite Z.mod_pow2_bits_low; [|lia]. by rewrite Z.shiftr_spec; [|lia].
  - rewrite Z.mod_pow2_bits_high; [|lia]. by rewrite Z.mod_pow2_bits_high; [|lia].
Qed.

(** ** What the broker reads of an entry *)

Definition reads (cidr : string) (q : Prefix) : Prop :=
  ∃ px, ParsePrefix cidr = Some px ∧ ∀ x, prefix_Contains (Masked px) x = prefix_Contains q x.
Lemma reads_all c q x : reads c q → (∀ q', reads c q' → prefix_Contains q' x = true) ↔ prefix_Contains q x = true.
Proof.
  intros Hc. split; [by intros H; apply H|]. intros H q' (px' & Hp' & Hq'). destruct Hc as (px & Hp & Hq). rewrite Hp in Hp'. injection Hp' as <-. by rewrite -Hq' Hq.
Qed.
Lemma ParseCIDR_ok s a n : ParseCIDR s = Some (a, n) → addr_ok a ∧ a ≠ AddrZero ∧ hasZone a = false ∧ 0 ≤ n ≤ addr_width a.
Proof.
  unfold ParseCIDR. destruct (Cut s "/") as [[addr mask] found]. destruct (negb found); [done|].
  destruct (ParseAddr addr) as [b|] eqn:E; [|done]. destruct (hasZone b) eqn:Ez; [done|]. destruct (_ || negb _); [done|].
  destruct (ParseUint mask 24) as [v| |] eqn:Eu; [|done..]. destruct (_ || (addr_width b <? v)) eqn:Ew; [done|]. intros [= <- <-].
  apply ParseAddr_range in E as [H1 H2]. apply ParseUint_range in Eu; [|lia]. bool_hyps. split_and!; try done; lia.
Qed.
Lemma text_reads s ip n q : ParseAddr s = Some ip → hasZone ip = false → 0 ≤ n ≤ addr_width ip →
  (∀ x, prefix_Contains (Masked {| px_ip := ip; px_bits := n |}) x = prefix_Contains q x) → reads (s +:+ "/" +:+ Itoa n) q.
Proof. intros Hs Hz Hn Hq. exists {| px_ip := ip; px_bits := n |}. by split; [apply ParsePrefix_text|]. Qed.
Lemma mask4 v n q x : 0 ≤ n ≤ 32 → prefix_Contains (Masked {| px_ip := Addr4 (mask_num 32 n v); px_bits := n |}) x = q →
  prefix_Contains {| px_ip := Addr4 v; px_bits := n |} x = q.
Proof. intros Hn <-. unfold prefix_Contains, Masked. cbn [px_ip px_bits]. destruct x; try done. by rewrite !mask_shift. Qed.
Lemma network_reads a n : addr_ok a → a ≠ AddrZero → hasZone a = false → 0 ≤ n ≤ addr_width a → reads (IPNet_String a n) (network a n).
Proof.
  intros Ha H0 Hz Hn. destruct a as [|v|v z]; [done| |]; cbn in Ha, Hn.
  - change (IPNet_String (Addr4 v) n) with (string4 (mask_num 32 n v) +:+ "/" +:+ Itoa n).
    apply (text_reads _ (Addr4 (mask_num 32 n v))); [by apply ParseAddr_string4, mask_num_range|done|done|]. intros x. symmetry. by apply (mask4 v n).
  - cbn in Hz. apply negb_false_iff, String.eqb_eq in Hz as ->. pose proof (mask_num_range 128 n v Hn Ha) as Hm.
    unfold network, mapped, IPNet_String, IP_String, To4. cbn [Masked px_ip px_bits Unmap Is4In6].
    destruct (Z.shiftr (mask_num 128 n v) 32 =? 65535) eqn:Em.
    + apply Z.eqb_eq, mapped_bits in Em as [H96 Hv]; [|done..]. rewrite Hv. cbn [Z.eqb].
      change (65535 =? 65535) with true. cbv iota.
      apply (text_reads _ (Addr4 (mask_num 128 n v mod 2 ^ 32))); [apply ParseAddr_string4, Z.mod_pos_bound; lia|done|cbn; lia|].
      intros x. unfold prefix_Contains, Masked. cbn [px_ip px_bits]. destruct x as [|y|]; try done. rewrite mask_shift; [|lia].
      assert (Z.shiftr (mask_num 128 n v mod 2 ^ 32) (32 - (n - 96)) = Z.shiftr (v mod 2 ^ 32) (32 - (n - 96))) as ->; [|done].
      rewrite !low_bits; [|lia..]. f_equal. replace (32 - (n - 96)) with (128 - n) by lia. by apply mask_shift.
    + apply (text_reads _ (Addr6 (mask_num 128 n v) "")); [by apply ParseAddr_string6|done|done|].
      intros x. unfold prefix_Contains, Masked. cbn [px_ip px_bits]. destruct x; try done. by rewrite !mask_shift.
Qed.
Lemma host_reads ip : addr_ok ip → ip ≠ AddrZero → hasZone ip = false → reads (host_cidr ip) (one_host ip).
Proof.
  intros Ha H0 Hz. destruct ip as [|v|v z]; [done| |]; cbn in Ha.
  - change (host_cidr (Addr4 v)) with (string4 v +:+ "/" +:+ Itoa 32). apply (text_reads _ (Addr4 v)); [by apply ParseAddr_string4|done|done|].
    intros x. by rewrite Masked_Contains.
  - cbn in Hz. apply negb_false_iff, String.eqb_eq in Hz as ->. unfold host_cidr, one_host, IP_String, To4. cbn [Unmap Is4In6].
    destruct (Z.shiftr v 32 =? 65535).
    + change "/32" with ("/" +:+ Itoa 32). assert (0 ≤ v mod 2 ^ 32 < 2 ^ 32) by (apply Z.mod_pos_bound; lia).
      apply (text_reads _ (Addr4 (v mod 2 ^ 32))); [by apply ParseAddr_string4|done|done|]. intros x. by rewrite Masked_Contains.
    + change "/128" with ("/" +:+ Itoa 128). apply (text_reads _ (Addr6 v "")); [by apply ParseAddr_string6|done|done|].
      intros x. by rewrite Masked_Contains.
Qed.
(** A resolved host opens its own address only. *)
Lemma one_host_only ip t : hasZone t = false → ip ≠ AddrZero → hasZone ip = false →
  prefix_Contains (one_host ip) t = bool_decide (t = Unmap ip).
Proof.
  intros Ht H0 Hz. unfold one_host, prefix_Contains. cbn [px_ip px_bits].
  destruct (Unmap ip) as [|v|v z] eqn:E.
  - by destruct ip as [| |w z]; [|..|cbn in E; destruct (_ =? _)].
  - destruct t as [|w|w z']; cbn [addr_width]; try (by rewrite bool_decide_eq_false_2).
    rewrite !Z.shiftr_0_r. destruct (Z.eqb_spec w v) as [->|Hne]; [by rewrite bool_decide_eq_true_2|rewrite bool_decide_eq_false_2; [done|by intros [= ->]]].
  - assert (z = "") as ->. { destruct ip as [|w|w z1]; [done..|]. cbn in E, Hz. destruct (_ =? _); [done|]. injection E as -> ->. by apply negb_false_iff, String.eqb_eq in Hz. }
    destruct t as [|w|w z']; cbn [addr_width]; try (by rewrite bool_decide_eq_false_2). cbn in Ht. apply negb_false_iff, String.eqb_eq in Ht as ->.
    rewrite !Z.shiftr_0_r. destruct (Z.eqb_spec w v) as [->|Hne]; [by rewrite bool_decide_eq_true_2|rewrite bool_decide_eq_false_2; [done|by intros [= ->]]].
Qed.

(** ** The policy file *)

(** The addresses of the allowed hosts that resolve. *)
Definition resolved (LookupIP : string → result () (list Addr)) (hosts : list string) : list Addr := hosts ≫= λ h, match LookupIP h with Ok ips => ips | Err _ => [] end.

Lemma elem_add c x l : c ∈ add x l ↔ c ∈ l ∨ c = x.
Proof. unfold add. case_bool_decide; set_solver. Qed.
Lemma elem_add_ips ips l c : c ∈ foldl (λ l ip, add (host_cidr ip) l) l ips ↔ c ∈ l ∨ ∃ ip, ip ∈ ips ∧ c = host_cidr ip.
Proof. revert l. induction ips as [|ip ips IH]; intros l; cbn [foldl]; [set_solver|]. rewrite IH elem_add. set_solver. Qed.
Lemma elem_add_hosts LookupIP hosts l c : c ∈ add_hosts LookupIP hosts l ↔ c ∈ l ∨ ∃ ip, ip ∈ resolved LookupIP hosts ∧ c = host_cidr ip.
Proof.
  unfold resolved. revert l. induction hosts as [|h hosts IH]; intros l; cbn [add_hosts foldl mbind list_bind]; [set_solver|].
  unfold add_hosts in IH. rewrite IH. destruct (LookupIP h) as [ips|]; [rewrite elem_add_ips|]; set_solver.
Qed.
Lemma add_networks_spec nets acc :
  match mapM ParseCIDR nets with
  | Some l => ∃ r, add_networks nets acc = Ok r ∧ ∀ c, c ∈ r ↔ c ∈ acc ∨ ∃ p, p ∈ l ∧ c = IPNet_String p.1 p.2
  | None => ∃ n, n ∈ nets ∧ ParseCIDR n = None ∧ add_networks nets acc = Err n
  end.
Proof.
  revert acc. induction nets as [|n nets IH]; intros acc; [exists acc; set_solver|]. cbn [mapM add_networks mbind option_bind].
  destruct (ParseCIDR n) as [[a b]|] eqn:E; cbn [mbind option_bind]; [|exists n; set_solver].
  specialize (IH (add (IPNet_String a b) acc)). destruct (mapM ParseCIDR nets) as [l|]; cbn.
  - destruct IH as (r & -> & Hr). exists r. split; [done|]. intros c. rewrite Hr elem_add. set_solver.
  - destruct IH as (n' & Hn & Hp & ->). exists n'. set_solver.
Qed.

(** An exception for any protocol and port opens the addresses of its network. *)
Lemma compile_reads c q : reads c q → ∃ e, compile (any_proto c) = Ok e ∧ ∀ proto dst, matches e proto dst = prefix_Contains q (Ap_Addr dst).
Proof.
  intros (px & Hp & Hq). unfold compile, any_proto. cbn [rCIDR rProto rPorts]. rewrite Hp. cbn. eexists. split; [done|].
  intros proto dst. unfold matches. cbn [prefix Proto ranges]. rewrite Hq. cbn. by destruct (prefix_Contains q (Ap_Addr dst)).
Qed.
Lemma compile_all cidrs : Forall (λ c, ∃ q, reads c q) cidrs →
  ∃ es, rmap compile (any_proto <$> cidrs) = Ok es ∧
    ∀ proto dst, existsb (λ e, matches e proto dst) es = true ↔ ∃ c, c ∈ cidrs ∧ ∀ q, reads c q → prefix_Contains q (Ap_Addr dst) = true.
Proof.
  induction 1 as [|c cidrs (q & Hq) _ (es & He & Hm)]; [exists []; split; [done|]; intros; cbn; set_solver|].
  destruct (compile_reads c q Hq) as (e & Hc & Hmatch). cbn [fmap list_fmap rmap]. rewrite Hc. cbn. rewrite He. cbn. eexists. split; [done|].
  intros proto dst. cbn [existsb]. rewrite Hmatch. rewrite orb_true_iff Hm.
  rewrite -(reads_all c q _ Hq). set_solver.
Qed.

(** ** Blocked zones *)

Definition label_char (c : ascii) : bool := (code c <? 128) && negb (ascii_space c).
Lemma alnum_label c : is_alnum c || Ascii.eqb c "-" = true → label_char c = true.
Proof. destruct c as [[] [] [] [] [] [] [] []]; vm_compute; done. Qed.
Lemma last_alnum_label s : last_alnum s = true → sforall label_char s = true.
Proof.
  induction s as [|c s IH]; [done|]. intros H. cbn [sforall]. destruct s as [|d s].
  - cbn in H |- *. rewrite alnum_label; [done|by rewrite H].
  - change (last_alnum (String c (String d s))) with ((is_alnum c || Ascii.eqb c "-") && last_alnum (String d s)) in H.
    apply andb_prop in H as [Hc Hs]. by rewrite alnum_label // IH.
Qed.
Lemma dnsLabel_label s : dnsLabelRe s = true → sforall label_char s = true.
Proof. destruct s as [|c s]; [done|]. cbn [dnsLabelRe sforall]. intros [Hc Hs]%andb_prop. by rewrite alnum_label ?Hc // last_alnum_label. Qed.
Lemma Join_label l : Forall (λ x, sforall label_char x = true) l → sforall label_char (Join l ".") = true.
Proof.
  induction 1 as [|x l Hx Hl IH]; [done|]. destruct l as [|y l]; [done|].
  change (Join (x :: y :: l) ".") with (x +:+ "." +:+ Join (y :: l) "."). rewrite !sforall_app Hx IH. done.
Qed.
Lemma label_plain s : sforall label_char s = true → plain_name s = true.
Proof.
  unfold plain_name, is_ascii. induction s as [|c s IH]; [done|]. cbn [sforall]. intros [Hc Hs]%andb_prop. unfold label_char in Hc.
  apply andb_prop in Hc as [H1 H2]. specialize (IH Hs). apply andb_prop in IH as [IH1 IH2]. by rewrite H1 H2 IH1 IH2.
Qed.
Lemma validateZone_plain z : validateZone z = Ok () → z ≠ "" ∧ z ≠ "." ∧ plain_name z = true.
Proof.
  unfold validateZone. intros H. inv_res. bool_hyps. split; [done|]. split; [done|].
  match goal with H : riter _ _ = _ |- _ => apply riter_Ok in H as Hl end. apply label_plain.
  assert (sforall label_char (TrimSuffix z ".") = true) as Hs.
  { rewrite -(Join_Split (TrimSuffix z ".") "."). apply Join_label. eapply Forall_impl; [exact Hl|]. cbn. intros lbl Hx%guard_err_Ok. bool_hyps. by apply dnsLabel_label. }
  unfold TrimSuffix in Hs. destruct (CutSuffix z ".") as [r|] eqn:E; [|done]. apply CutSuffix_Some in E as ->. cbn in Hs. by rewrite sforall_app Hs.
Qed.
Lemma smap_lower_dot s : smap lower_char s = "." → s = ".".
Proof.
  destruct s as [|c [|d s]]; [done| |done]. cbn. intros [= H]. f_equal. revert H. destruct c as [[] [] [] [] [] [] [] []]; vm_compute; done.
Qed.
Lemma validateZone_norm lowerU z : validateZone z = Ok () → normalizeName lowerU z ≠ "".
Proof.
  intros (H0 & H1 & Hp)%validateZone_plain. unfold normalizeName. rewrite TrimSpace_plain; [|done]. unfold plain_name in Hp.
  apply andb_prop in Hp as [Ha _]. unfold ToLower. rewrite Ha. unfold TrimSuffix. destruct (CutSuffix (smap lower_char z) ".") as [r|] eqn:E; cbn.
  - intros ->. by apply CutSuffix_Some, smap_lower_dot in E.
  - intros E'%smap_empty. done.
Qed.
Lemma zones_parse lowerU zones : Forall (λ z, validateZone z = Ok ()) zones →
  rmap (λ z, if String.eqb (normalizeName lowerU z) "" then Err PErrEmptyZone else Ok (normalizeName lowerU z)) zones = Ok (normalizeName lowerU <$> zones).
Proof.
  induction 1 as [|z zones Hz _ IH]; [done|]. cbn [rmap fmap list_fmap].
  destruct (String.eqb_spec (normalizeName lowerU z) "") as [E|_]; [by apply validateZone_norm in E|]. cbn. by rewrite IH.
Qed.
Lemma upstream_parses u : u ≠ "" → validateUpstream u = Ok () → is_Some (parseAddrPort u 53).
Proof.
  intros Hu. unfold validateUpstream. destruct (String.eqb_spec u "") as [|_]; [done|]. cbn [negb]. intros H%guard_err_Ok.
  unfold parseAddrPort. destruct (ParseAddrPort u); [done|]. unfold ParseIP in H. by destruct (ParseAddr u).
Qed.

(** ** What a validated workspace may reach *)

Section Reach.
Context (LookupIP : string → result () (list Addr)) (Marshal : policyFile → string).
Context (lowerU : string → string) (decode : string → option policyFile).

(** The DNS settings the configuration checks ([validateDNS], and that
    [filtered_dns] has an upstream). *)
Definition dns_checked (ws : Resolved) : Prop :=
  r_FilteredDNS ws = true → r_DNSUpstream ws ≠ "" ∧ validateDNS (r_DNSUpstream ws) (default [] (r_DNSBlockedZones ws)) = Ok ().
(** [net.Resolver] answers with addresses, and IP addresses have no zone. *)
Definition lookup_ok : Prop := ∀ h ips ip, LookupIP h = Ok ips → ip ∈ ips → addr_ok ip ∧ ip ≠ AddrZero ∧ hasZone ip = false.
(** The flows a workspace may open, by its configuration. *)
Definition reachable (ws : Resolved) (nets : list (Addr * Z)) (env : Env) (dst : AddrPort) : bool :=
  let a := WithZone (Ap_Addr dst) "" in
  let t := effective a in
  negb (never env a) &&
  negb (r_FilteredDNS ws && (0 <? length (default [] (r_DNSBlockedZones ws)))%nat && (Ap_Port dst =? 53)) &&
  (negb (needs_exception t) || existsb (λ n, prefix_Contains (network n.1 n.2) t) nets ||
   bool_decide (t ∈ Unmap <$> resolved LookupIP (r_AllowedHosts ws))).

Lemma effective_zone a : hasZone (effective (WithZone a "")) = false.
Proof. unfold effective. destruct (embeddedIPv4 _) as [b|] eqn:E; [|by destruct a]. apply embeddedIPv4_Is4 in E as [E _]. by destruct b. Qed.
Lemma resolved_ok hosts ip : lookup_ok → ip ∈ resolved LookupIP hosts → addr_ok ip ∧ ip ≠ AddrZero ∧ hasZone ip = false.
Proof.
  intros Hlook (h & Hin & _)%list_elem_of_bind. destruct (LookupIP h) as [ips|] eqn:E; [|by apply not_elem_of_nil in Hin]. by apply (Hlook h ips).
Qed.
(** The exceptions of the policy file, one by one. *)
Lemma exceptions_open nets hosts l r es t proto port :
  lookup_ok → (∀ p, p ∈ nets → ∃ s, ParseCIDR s = Some p) → hasZone t = false →
  (∀ c, c ∈ r ↔ ∃ p, p ∈ nets ∧ c = IPNet_String p.1 p.2) → l = add_hosts LookupIP hosts r →
  (∀ proto dst, existsb (λ e, matches e proto dst) es = true ↔ ∃ c, c ∈ l ∧ ∀ q, reads c q → prefix_Contains q (Ap_Addr dst) = true) →
  existsb (λ e, matches e proto (AddrPortFrom t port)) es =
  existsb (λ n, prefix_Contains (network n.1 n.2) t) nets || bool_decide (t ∈ Unmap <$> resolved LookupIP hosts).
Proof.
  intros Hlook Hnets Ht Hr -> Hes. apply eq_true_iff_eq. rewrite Hes orb_true_iff existsb_exists bool_decide_eq_true list_elem_of_fmap.
  setoid_rewrite elem_add_hosts. setoid_rewrite Hr. cbn [Ap_Addr AddrPortFrom].
  assert (∀ p, p ∈ nets → reads (IPNet_String p.1 p.2) (network p.1 p.2)) as Hn.
  { intros [a n] (s & H%ParseCIDR_ok)%Hnets. apply network_reads; apply H. }
  assert (∀ ip, ip ∈ resolved LookupIP hosts → reads (host_cidr ip) (one_host ip) ∧ prefix_Contains (one_host ip) t = bool_decide (t = Unmap ip)) as Hh.
  { intros ip Hip. destruct (resolved_ok _ _ Hlook Hip) as (? & ? & ?). split; [by apply host_reads|by apply one_host_only]. }
  split.
  - intros (c & [(p & Hp & ->)|(ip & Hip & ->)] & Hq).
    + left. exists p. split; [by apply list_elem_of_In|]. by apply Hq, Hn.
    + right. exists ip. destruct (Hh ip Hip) as [Hread E]. split; [|done]. apply Hq in Hread. rewrite E in Hread. by apply bool_decide_eq_true in Hread.
  - intros [(p & Hp%list_elem_of_In & Hc)|(ip & Hc & Hip)].
    + exists (IPNet_String p.1 p.2). split; [left; eauto|]. by apply (reads_all _ (network p.1 p.2)); [apply Hn|].
    + exists (host_cidr ip). split; [right; eauto|]. destruct (Hh ip Hip) as [Hread E]. apply (reads_all _ (one_host ip)); [done|]. rewrite E. by apply bool_decide_eq_true.
Qed.

(** The broker reads the file back: all of it is valid. *)
Lemma policy_file_parses ws cidrs data src : dns_checked ws → Forall (λ c, ∃ q, reads c q) cidrs → decode data = Some (policy_file ws cidrs) →
  ∃ p, ParsePolicy lowerU decode data src = Ok p ∧ denyAll p = false ∧
    blockedZones p = (if r_FilteredDNS ws then normalizeName lowerU <$> default [] (r_DNSBlockedZones ws) else []) ∧
    ∀ proto dst, existsb (λ e, matches e proto dst) (exceptions p) = true ↔ ∃ c, c ∈ cidrs ∧ ∀ q, reads c q → prefix_Contains q (Ap_Addr dst) = true.
Proof.
  intros Hdns Hc Hd. destruct (compile_all cidrs Hc) as (es & Hes & Hm). unfold ParsePolicy. rewrite Hd. cbn -[normalizeName]. rewrite Hes. cbn -[normalizeName].
  unfold dns_checked in Hdns. destruct (r_FilteredDNS ws).
  - destruct (Hdns eq_refl) as [Hu Hv]. unfold validateDNS in Hv. inv_res. destruct (upstream_parses (r_DNSUpstream ws)) as [ap Hap]; [done|by destruct x|].
    cbn -[normalizeName]. rewrite Hap. cbn -[normalizeName]. match goal with H : riter _ _ = _ |- _ => apply riter_Ok in H as Hz end.
    pose proof (zones_parse lowerU _ Hz) as ->. cbn -[normalizeName]. rewrite andb_false_r. cbn. by eexists.
  - cbn. by eexists.
Qed.

(** C1: a running workspace may open a flow exactly when the address is not one that is
    never opened (the host, its networks, metadata services, reserved ranges), DNS filtering
    leaves the port, and the address is public, inside one of its allowed
    networks or an address of one of its allowed hosts. The policy that says so is
    written by the host, read by the broker without error, and holds whatever the
    protocol; a network that cannot be parsed is reported and nothing is written. *)
Theorem vmPolicy_reach ws src :
  lookup_ok → dns_checked ws → (∀ f, vmPolicy_file LookupIP ws = Ok f → decode (Marshal f) = Some f) →
  match mapM ParseCIDR (r_AllowedNetworks ws) with
  | None => ∃ n, n ∈ r_AllowedNetworks ws ∧ ParseCIDR n = None ∧ vmPolicy LookupIP Marshal ws = Err n
  | Some nets => ∃ data p, vmPolicy LookupIP Marshal ws = Ok data ∧ ParsePolicy lowerU decode data src = Ok p ∧
      blockedZones p = (if r_FilteredDNS ws then normalizeName lowerU <$> default [] (r_DNSBlockedZones ws) else []) ∧
      ∀ env proto dst, Allow (Decide (Some p) env proto dst) = reachable ws nets env dst
  end.
Proof.
  intros Hlook Hdns Hjson. pose proof (add_networks_spec (r_AllowedNetworks ws) []) as Hn.
  destruct (mapM ParseCIDR (r_AllowedNetworks ws)) as [nets|] eqn:En.
  - destruct Hn as (r & Hr & Hin). assert (∀ c, c ∈ r ↔ ∃ p, p ∈ nets ∧ c = IPNet_String p.1 p.2) as Hin' by (intros c; rewrite Hin; set_solver). clear Hin. rename Hin' into Hin. assert (vmPolicy_file LookupIP ws = Ok (policy_file ws (add_hosts LookupIP (r_AllowedHosts ws) r))) as Hf
      by (unfold vmPolicy_file; by rewrite Hr).
    assert (∀ p, p ∈ nets → ∃ s, ParseCIDR s = Some p) as Hnets.
    { intros p Hp. apply mapM_Some in En. apply list_elem_of_lookup in Hp as (i & Hi). destruct (Forall2_lookup_r _ _ _ _ _ En Hi) as (s & _ & Hs). by exists s. }
    destruct (policy_file_parses ws (add_hosts LookupIP (r_AllowedHosts ws) r) (Marshal (policy_file ws (add_hosts LookupIP (r_AllowedHosts ws) r))) src Hdns) as (p & Hp & Hd & Hb & He);
      [|by apply Hjson|].
    { apply Forall_forall. intros c [Hc|(ip & Hip & ->)]%elem_add_hosts.
      - apply Hin in Hc as (q & Hq & ->). destruct q as [a n]. destruct (Hnets _ Hq) as (s & H%ParseCIDR_ok). eexists. apply network_reads; apply H.
      - eexists. destruct (resolved_ok _ _ Hlook Hip) as (? & ? & ?). by apply host_reads. }
    eexists _, p. split; [unfold vmPolicy; by rewrite Hf|]. split_and!; [done..|]. intros env proto dst. rewrite Decide_allowed. unfold allowed, reachable. rewrite Hd. cbn [negb andb].
    unfold filtered. rewrite Hb.
    rewrite (exceptions_open nets (r_AllowedHosts ws) _ r (exceptions p) _ proto (Ap_Port dst) Hlook Hnets (effective_zone _) Hin eq_refl He).
    assert ((0 <? length (if r_FilteredDNS ws then normalizeName lowerU <$> default [] (r_DNSBlockedZones ws) else []))%nat =
      r_FilteredDNS ws && (0 <? length (default [] (r_DNSBlockedZones ws)))%nat) as ->; [|by rewrite orb_assoc].
    destruct (r_FilteredDNS ws); [by rewrite length_fmap|done].
  - destruct Hn as (n & ? & ? & E). exists n. split_and!; [done..|]. unfold vmPolicy, vmPolicy_file. by rewrite E.
Qed.
End Reach.

(** ** Witness *)

(** A workspace with two networks, one of them written as IPv4-mapped, a host
    and DNS filtering. *)
Definition corp_workspace : Resolved := {|
  r_Name := "w"; r_Paths := ["/src"]; r_Agent := lab_harness; r_AgentInstall := true; r_AgentArgs := None; r_AgentProfile := None;
  r_Mounts := []; r_Snapshots := []; r_Port := 4096; r_AllowedHosts := ["db.internal"; "gone.internal"];
  r_AllowedNetworks := ["10.1.2.3/8"; "::ffff:172.16.0.0/108"; "10.0.0.0/8"]; r_BuildContext := "";
  r_Dockerfile := ""; r_Image := ""; r_Env := []; r_SSHAuthSock := true; r_GPGAgent := false; r_GitConfig := true;
  r_Secrets := []; r_CPU := S754_finite false 2 0; r_Memory := "4g"; r_DockerDisk := "20g"; r_EnableDocker := false; r_IsolatedBuild := false;
  r_ProtectGit := true; r_Ports := []; r_HostPorts := []; r_FilteredDNS := true; r_DNSUpstream := "9.9.9.9";
  r_DNSBlockedZones := Some ["Corp.Example."]; r_CABundle := ConfigChecks.caBundleAutomatic |}.
Definition corp_lookup (h : string) : result () (list Addr) :=
  if String.eqb h "db.internal" then Ok [addr_lit "192.168.5.7"; addr_lit "fd12::7"] else Err ().
Definition corp_file : policyFile :=
  {| pf_Exceptions := any_proto <$> ["10.0.0.0/8"; "172.16.0.0/12"; "192.168.5.7/32"; "fd12::7/128"];
     pf_DNSUpstreams := ["9.9.9.9"]; pf_DNSBlockedZones := ["Corp.Example."] |}.
Example corp_policy : vmPolicy_file corp_lookup corp_workspace = Ok corp_file.
Proof. vm_compute. reflexivity. Qed.
Lemma corp_lookup_ok : lookup_ok corp_lookup.
Proof.
  unfold lookup_ok, corp_lookup. intros h ips ip. destruct (h =? "db.internal")%string; [|done]. intros [= <-].
  intros [->|[->|[]%elem_of_nil]%elem_of_cons]%elem_of_cons; by vm_compute.
Qed.
(** The workspace reaches its networks and its host, nothing else that is private, and
    no other resolver. *)
Lemma vmPolicy_reach_witness :
  let d a port := reachable corp_lookup corp_workspace [(addr_lit "10.1.2.3", 8); (addr_lit "::ffff:172.16.0.0", 108); (addr_lit "10.0.0.0", 8)] env0
                    (AddrPortFrom (addr_lit a) port) in
  (d "10.9.9.9" 22, d "172.31.0.1" 80, d "192.168.5.7" 5432, d "fd12::7" 5432, d "93.184.216.34" 443) = (true, true, true, true, true) ∧
  (d "192.168.5.8" 5432, d "172.32.0.1" 53, d "10.0.0.5" 22, d "169.254.169.254" 80, d "fd12::8" 5432) = (false, false, false, false, false) ∧
  ∃ data p, vmPolicy corp_lookup (λ _, "{}") corp_workspace = Ok data ∧ ParsePolicy id (λ _, Some corp_file) data "lab" = Ok p ∧
    blockedZones p = ["corp.example"] ∧ ∀ env proto dst, Allow (Decide (Some p) env proto dst) =
      reachable corp_lookup corp_workspace [(addr_lit "10.1.2.3", 8); (addr_lit "::ffff:172.16.0.0", 108); (addr_lit "10.0.0.0", 8)] env dst.
Proof.
  cbv zeta. split; [by vm_compute|]. split; [by vm_compute|].
  refine (vmPolicy_reach corp_lookup (λ _, "{}") id (λ _, Some corp_file) corp_workspace "lab" corp_lookup_ok _ _).
  - intros _. split; [done|by vm_compute].
  - intros f H. rewrite corp_policy in H. by injection H as ->.
Defined.
